(* ===== verification/_CoqProject ===== *)
-Q . S2P
Prelude.v
Replay.v
Text.v
StdMap.v
Json.v
Net.v
Packet.v
Envelope.v
Stun.v
Framing.v
Decoder.v
Codec.v
DerpClient.v
Lease.v
Transition.v
Handover.v
DerpConnection.v
Switching.v
Exclusion.v
Dns.v
Tailnet.v
NetMap.v
Forward.v
Tunnel.v
Router.v
Magicsock.v
Base64.v
Disco.v
Ping.v
PeerTable.v
Underlay.v
Engine.v
Session.v
H2.v
ControlMap.v
Documents.v
Noise.v
Server.v
