(* ===== verification/Prelude.v ===== *)
(** * A verification of tailgate

    tailgate is a Tailscale client in C++.  Its portable core (src/core, with the
    headers under include/tailgate) speaks to peers over WireGuard, directly or
    through DERP relays, and can hand the DERP connections of a node over to a
    relay host ("hosted" mode) and take them back ("native" mode).  This library
    models the parts of the core that carry that logic and proves what makes them
    correct.

    ** The program and its models

    - [Prelude]: machine words, bytes, outcomes (a call returns, throws, or has
      undefined behaviour), checked accesses to vectors, big-endian integers, the
      effect [eff] of methods with their weakest preconditions, and the tactics the
      files share.
    - [Replay]: the WireGuard replay window (wgengine/wireguard/ReplayWindow).
    - [StdMap]: the associative containers of the C++ library that the components use, as
      lists in the order of their keys.
    - [Json]: the values of nlohmann::json, the access to them with the exceptions that it
      throws and the conversions of its numbers; its parser and printer are a class.
    - [Text], [Net]: decimal text, and net/Ipv4Address, Endpoint, IpAddress,
      IpRange.
    - [Packet], [Envelope], [Stun]: net/packet/Ipv4, Ip, Tsmp and net/stun/Stun.
    - [Dns], [Tailnet]: net/dns/Dns and ResolverSelection, and the resolver of
      tailnet names, net/dns/TailnetDns.
    - [NetMap]: the network map and what is derived from it: types/netmap/NetworkMap
      (the queries of NetworkConfig and PeerConfig), wgengine/router/Config (the routes of the
      interface) and ipn/ipnlocal/NetworkPolicy.
    - [Forward]: ipn/ipnlocal/DnsForwarder, which matches replies of upstream resolvers
      with the queries they answer, and hosted/Dns, the same by way of the relay.
    - [Tunnel], [Router]: wgengine/wireguard/Tunnel, the sessions of the peers over the
      wireguard-lwip library, and wgengine/wireguard/Router, which picks the peer of a
      packet, queues packets until a session exists and runs the timers.
    - [Magicsock]: wgengine/magicsock/PeerPathState, the direct path of a peer, and
      magicsock/impl/ConnectionImpl, the UDP socket the peers share, with a queue for
      each.
    - [PeerTable]: ipn/ipnlocal/PeerTable, which keeps the peers of a session, and the
      registrations of their keys, in line with the network map.
    - [Disco], [Ping], [Base64]: the discovery messages of disco/Disco, the probes of
      hosted/DiscoProbes, the pings of wgengine/ping/impl/TrackerImpl with
      crypto/PrefixedKey, and crypto/Base64.
    - [Underlay]: ipn/ipnlocal/UnderlaySelection and UnderlayResolver,
      control/client/RetryBackoff and hosted/Recovery, whose worker threads are steps
      that interleave with the calls of the owner.
    - [Engine]: base/EventLoop, wgengine/impl/EngineImpl (the packet device with its queue
      and the distribution of events) and magicsock/Bind.
    - [Session]: wgengine/impl/SessionImpl with SessionDiscovery and wgengine/PeerProtocol,
      the data path of a native node over the engine, the magicsock connection, the router
      and the discovery messages: the peers of the network map, sending directly or through
      a relay, receiving, maintenance and the search for the public endpoint.
    - [Framing], [Decoder], [Codec]: the protocol between a hosted client and its
      relay: hosted/PacketFraming, the frames and the decoder of hosted/Protocol,
      and the messages of hosted/Protocol, Pump and Delegation.
    - [DerpClient], [DerpConnection]: derp/Client over base/ByteStream,
      derp/SendQueue, and the reconnecting derp/impl/ConnectionImpl with its
      DialOperation.
    - [H2]: control/base/H2, the HTTP/2 frames and the HPACK header blocks that the control
      client exchanges with the control server.
    - [Noise]: the encrypted connection below it: control/base/Noise (the initiator of a Noise IK
      handshake), control/base/ControlHandshake (the HTTP upgrade that carries it),
      control/base/NoiseTransport and the functions of crypto/Crypto they use.
    - [ControlMap]: what the control server says: control/client/NetworkMapParser (a whole
      network map and its incremental updates), CapabilityFilters with
      types/netmap/Capabilities (the grants of the packet filters and the capabilities that
      the peers have by them), SelfAddresses, and MapStreamResponse (the stream the maps
      arrive in).
    - [Documents]: the JSON documents of hosted/Protocol: authentication, challenge,
      session, rejection and the network map that a hosted node sends to its relay.
    - [Server]: hosted/impl/ServerSessionImpl, the relay's side of a hosted session, with the
      client's side of the authentication (hosted/Connection), the proofs and the HTTP
      upgrade of hosted/Protocol, and hosted/impl/PumpControllerImpl.
    - [Lease]: the relay's side of a hand-over: hosted/DerpRouteTable,
      ipn/ipnlocal/DerpConnections and DelegationLease.
    - [Transition], [Handover]: the node's side: ipn/ipnlocal/TransitionCoordinator,
      and the requests it sends.
    - [Switching]: ipn/ipnlocal/SwitchingNode, which carries out the coordinator's
      actions on the native node, the hosted node and the relay bootstrap.
    - [Exclusion]: the coordinator and the lease composed over a connection that
      delays requests and delays, reorders and repeats replies.

    A class of the source is a record with its members, a method is a function in
    [eff] from the object to its outcome and the object it leaves (so that what a
    method changed before it threw is kept), an [enum] is an inductive type and an
    integer is a [Z] whose wrap-around is written out.  Where components meet, a
    type class states the interface and a second one its laws: [ByteStream] and
    [ByteStreamLaws] between the DERP client and its socket, [TcpSocket] between the
    connection and its socket, [Connection] and [ConnectionLaws] between the relay
    and a DERP connection, [Wireguard] and [WireguardLaws] between the tunnel and the
    wireguard-lwip library, [TunnelOps] and [TunnelLaws] between the router and the
    tunnel, [UdpSocket] and [UdpSocketLaws] between the magicsock connection and its
    socket, [PeerTransport] and [PeerTransportLaws] between the peer table and that
    connection, [SodiumBox] and [RandomBytes] between the discovery messages and
    libsodium, [EventSource] and [Device] between the engine and the platform, [DerpOps],
    [ControlOps] and [PacketPath] between the session and its connections, [NoiseCrypto] and
    [NoiseCryptoLaws] between the control connection and its ciphers, [JsonText] and
    [JsonTextLaws] between the documents and the JSON library.  [Router] discharges [TunnelLaws] for [WireGuardTunnel], [PeerTable]
    discharges [PeerTransportLaws] for [MagicConnection], and [DerpConnection]
    discharges [ConnectionLaws] for [ConnectionImpl], so that the theorems of [Lease]
    hold of it.  [NativeNode],
    [HostedNode] and [Recovery] are the interfaces that the switching node drives.

    ** The theorems

    - Safety against hostile input: the parsers of packets, envelopes, STUN and DNS
      messages, fragments, frames, HPACK blocks and hosted messages read nothing outside their
      input, always return, and keep what they buffer bounded.
    - Functional correctness: the replay window refines a set of counters; CIDR
      ranges are prefix matches; checksums and headers are those of the RFCs; any
      division of a stream into fragments, chunks or partial writes gives back the
      frames, messages and packets that were sent, in order; every codec round
      trips and rejects what it must; a packet encrypted by one tunnel is delivered by
      the tunnel of the peer, once, and no nonce is used twice under a key; a packet is
      sent to the peer with the longest matching prefix, and the exit node otherwise; the
      interface routes exactly what the map and the options want; a query for a
      tailnet name is answered with the addresses of the one node that has it, and a target
      under ts.net is connected only to an address that the trusted resolver gave for it; an HTTP/2
      request is received as it was built, and the Huffman decoder inverts the code of its
      table; the Noise handshake agrees with the responder of the Noise specification, whatever
      the pieces in which its answer arrives, and what is sent over the encrypted connection
      is delivered in order under nonces that are used once; the map stream gives back the
      maps in any chunks, an update changes the peers as a finite map by their identifiers
      would be changed, a peer has exactly the capabilities that the filters grant it, a map
      that is accepted has a reachable resolver and a relay; the relay reads the network map
      that a hosted node sends as it was, but for the members that the document leaves out.
    - State machines: the DERP send queue and connection, the lease and the
      coordinator keep their invariants over every sequence of calls; a lease takes
      the DERP connections only for a prepared request and gives them up when it
      expires; the DNS forwarder and the router keep their queues bounded and their
      identifiers distinct, and a reply reaches the client that asked; the node takes
      the DERP connections only after the relay has released them or the hosted
      transport is retired; a silent relay cannot hold a transition; no
      operation of the switching node dereferences an empty optional.
      Datagrams of a peer leave in the order they were submitted and none is stranded,
      a source is taken for a peer's only while that is verified, and a dead path is
      given up in time; the transport has exactly the keys of the peers in the table;
      no ping is lost or answered twice; a result of a lookup or of a connection
      attempt that was overtaken is never used, and a network that does not work
      cannot keep the others out.  Packets for the host leave in order or are dropped from
      the front, and binding a socket loses no event; the peers, the connection and the
      router of a session agree after every call, a data packet leaves by exactly one
      way, and an endpoint is verified only by a datagram that came from it and that
      the peer sealed.
      A relay serves only a client that proved its node key for the expected tailnet and whose
      network map is that of the node it proved; an honest client and an honest relay accept
      each other; every pump schedule of a client is taken by its relay, for the time that the
      client asked for, and no client is woken faster than the minimum interval.
    - Composition: in every interleaving of the node and its relay, once the relay
      has written that it released the DERP connections none of them is enabled for
      as long as the node's generation lasts.
    - Some theorems state what the code does where it does not do what it means:
      they are listed as findings.

    ** Fuel and bounds

    Loops that are not structural carry fuel computed from the state: the bytes
    still pending ([Flush_loop], [ReadExact_loop], [WriteAll_loop]), the packets
    queued ([make_room]), a measure of the decoder ([next_loop]), the bytes of the
    packet ([extension_loop], [attribute_loop]), the characters of a capability
    ([AllowsFunnelPort_loop]), the packets queued for a peer ([flush_loop]), and the
    number of identifiers that can be in use ([free_id]), and the bytes of a discovery
    message ([parse_endpoints]) or of a header block ([hpack_integer_loop], [decode_loop],
    [take_frames]), and the limit on the headers of an upgrade ([http_headers_loop]).  Running out of fuel is
    undefined behaviour in these models, so that the theorems that exclude undefined behaviour
    also show that the fuel is enough and the loop ends.  [ReplayWindow_Accept]
    returns [None] when its fuel is spent: it is shown to return for the counters
    it is meant for, and to spend any fuel for the last one.  [ControlHandshake_Run] takes its
    fuel as an argument and returns [None] when it is spent, because a server can go on sending
    headers: one more than the bytes to come is shown to be enough, and no fuel to be enough when
    the server closes the connection too early.

    ** Not modelled

    Cryptography (libsodium, mbedTLS), the parser and the printer of JSON (nlohmann), lwIP
    and the other libraries are not part of the repository: where the models call them they
    are parameters.  The values of nlohmann::json and the access to them are written out in
    [Json], with the exceptions that its documentation states, because the parsers are
    nothing but such accesses.  Starting libsodium ([EnsureSodium] of the tunnel, which
    throws when the library cannot be started) is left out.  A clock reading is an argument ([now]) of the method that takes it; a method
    of the session reads it once, its [Wait] before and after it has waited.
    Sockets, threads, logging (with the set of destinations already reported as not
    routable, which only limits it), the requests of the control client, the nodes that own
    the sockets (NativeNode, HostedNode, DelegatedNode), the client side of a hosted session
    behind its authentication, the drive, the network stack glue and the platform frontends
    are not modelled: they are input and output around the parts that are. *)

From stdpp Require Export prelude strings.
From Stdlib Require Export ZArith Lia.

#[global] Open Scope Z_scope.

(** ** Machine words: a [w]-bit unsigned integer is a [Z] in [0, 2^w), and
    every cast or wrapping operation of the source is written with [wrap]. *)

Definition wrap (w x : Z) : Z := x mod 2 ^ w.

Abbreviation u8 := (wrap 8).
Abbreviation u16 := (wrap 16).
Abbreviation u32 := (wrap 32).
Abbreviation u64 := (wrap 64).

Definition in_width (w x : Z) : Prop := 0 <= x < 2 ^ w.

Abbreviation bytes := (list Z).

Abbreviation bytes_ok := (Forall (in_width 8)).

(** [std::vector::size()], as an integer. *)
Definition zlen {A} (l : list A) : Z := Z.of_nat (length l).

(** ** Outcomes: a call returns, throws, or has undefined behaviour (an access
    outside a vector or span). *)

Inductive exn :=
  | RuntimeError (what : String.string)
  | InvalidArgument (what : String.string)
  | LogicError (what : String.string)
  | LengthError (what : String.string)
  | OverflowError (what : String.string)
  | OutOfRange (what : String.string)
  | ParseError (what : String.string)
  | SystemError (code : String.string)
  | FramingError (code : String.string)
  | PumpException (code : String.string)
  | DnsResponseError (queriedName : list Z) (code : Z)
  | NodeError (code : String.string)
  | JsonError (id : Z)
  | CapabilityFilterError.

Arguments RuntimeError what%_string.
Arguments InvalidArgument what%_string.
Arguments LogicError what%_string.
Arguments LengthError what%_string.
Arguments OverflowError what%_string.
Arguments OutOfRange what%_string.
Arguments ParseError what%_string.
Arguments SystemError code%_string.
Arguments FramingError code%_string.
Arguments PumpException code%_string.
Arguments NodeError code%_string.

Inductive outcome (A : Type) :=
  | Ok (a : A)
  | Throw (e : exn)
  | UB.
Arguments Ok {A} a.
Arguments Throw {A} e.
Arguments UB {A}.

Definition obind {A B} (m : outcome A) (k : A → outcome B) : outcome B :=
  match m with
  | Ok a => k a
  | Throw e => Throw e
  | UB => UB
  end.

Declare Scope out_scope.
Delimit Scope out_scope with out.
Notation "'let!' x := m 'in' k" := (obind m (fun x => k))
  (at level 10, x pattern, m at level 100, k at level 200) : out_scope.
#[global] Open Scope out_scope.

(** A call that is free of undefined behaviour. *)
Definition safe {A} (m : outcome A) : Prop := m ≠ UB.

Lemma safe_Ok {A} (a : A) : safe (Ok a).
Proof. discriminate. Qed.

Lemma safe_Throw {A} e : safe (@Throw A e).
Proof. discriminate. Qed.

Lemma safe_obind {A B} (m : outcome A) (k : A → outcome B) :
  safe m → (∀ a, m = Ok a → safe (k a)) → safe (obind m k).
Proof. intros Hm Hk. destruct m; simpl; [by apply Hk|done|by destruct Hm]. Qed.

Lemma safe_if {A} (b : bool) (m n : outcome A) :
  (b = true → safe m) → (b = false → safe n) → safe (if b then m else n).
Proof. destruct b; auto. Qed.

Lemma obind_Ok_inv {A B} (m : outcome A) (k : A → outcome B) b :
  obind m k = Ok b → ∃ a, m = Ok a ∧ k a = Ok b.
Proof. destruct m; simpl; naive_solver. Qed.

(** ** Vector accesses *)

(** [l[i]] *)
Definition rd {A} (l : list A) (i : Z) : outcome A :=
  if i <? 0 then UB
  else match l !! Z.to_nat i with Some b => Ok b | None => UB end.

(** [l[i] = b] *)
Definition wr {A} (l : list A) (i : Z) (b : A) : outcome (list A) :=
  if (0 <=? i) && (i <? zlen l) then Ok (<[Z.to_nat i := b]> l) else UB.

(** The range [l.begin() + a, l.begin() + b). *)
Definition slice {A} (l : list A) (a b : Z) : outcome (list A) :=
  if (0 <=? a) && (a <=? b) && (b <=? zlen l)
  then Ok (take (Z.to_nat (b - a)) (drop (Z.to_nat a) l)) else UB.

Lemma zlen_nonneg {A} (l : list A) : 0 <= zlen l.
Proof. unfold zlen. lia. Qed.

Lemma zlen_nil {A} : zlen (@nil A) = 0.
Proof. done. Qed.

Lemma zlen_cons {A} (x : A) l : zlen (x :: l) = zlen l + 1.
Proof. unfold zlen. simpl. lia. Qed.

Lemma zlen_app {A} (l k : list A) : zlen (l ++ k) = zlen l + zlen k.
Proof. unfold zlen. rewrite length_app. lia. Qed.

Lemma zlen_take {A} n (l : list A) :
  zlen (take n l) = Z.min (Z.of_nat n) (zlen l).
Proof. unfold zlen. rewrite length_take. lia. Qed.

Lemma zlen_drop {A} n (l : list A) :
  zlen (drop n l) = Z.max 0 (zlen l - Z.of_nat n).
Proof. unfold zlen. rewrite length_drop. lia. Qed.

Lemma zlen_insert {A} i (x : A) l : zlen (<[i:=x]> l) = zlen l.
Proof. unfold zlen. by rewrite length_insert. Qed.

Lemma zlen_replicate {A} n (x : A) : zlen (replicate n x) = Z.of_nat n.
Proof. unfold zlen. by rewrite length_replicate. Qed.

Create Rewrite HintDb zlen.
#[export] Hint Rewrite @zlen_nil @zlen_cons @zlen_app @zlen_take @zlen_drop
  @zlen_insert @zlen_replicate : zlen.

(** [ifb]: case analysis on the condition of a conditional, which [lia] then
    reads as an arithmetic fact. *)
Ltac ifb :=
  match goal with
  | |- context [if ?b then _ else _] =>
      let E := fresh "E" in destruct b eqn:E
  end.
Ltac ifb_in H :=
  match type of H with
  | context [if ?b then _ else _] =>
      let E := fresh "E" in destruct b eqn:E
  end.

(** [b2p]: boolean tests as propositions. *)
Create Rewrite HintDb b2p.
#[export] Hint Rewrite andb_true_iff andb_false_iff orb_true_iff orb_false_iff
  negb_true_iff negb_false_iff Z.ltb_lt Z.ltb_ge Z.leb_le Z.leb_gt Z.eqb_eq
  Z.eqb_neq : b2p.
Ltac b2p := autorewrite with b2p in *.

(** [Forall] over a list written out, in the goal and in a hypothesis. *)
Ltac forall_intro := repeat (apply Forall_cons_2); try apply Forall_nil_2; try done.
Ltac forall_elim H :=
  repeat (let H1 := fresh "Hf" in apply Forall_cons in H as [H1 H]); clear H.

(** [zsimp]: normalise the sizes of the vectors in the context; [zlia] then
    closes the arithmetic. *)
Ltac zsimp := autorewrite with zlen in *.
Ltac zlia_nonneg :=
  repeat match goal with
  | |- context [zlen ?l] =>
      lazymatch goal with
      | _ : 0 <= zlen l |- _ => fail
      | _ => pose proof (zlen_nonneg l)
      end
  | _ : context [zlen ?l] |- _ =>
      lazymatch goal with
      | _ : 0 <= zlen l |- _ => fail
      | _ => pose proof (zlen_nonneg l)
      end
  end.
Ltac zlia := zsimp; zlia_nonneg; lia.

Lemma app_split {A} (a d e b : list A) :
  d ++ e = a ++ b → zlen a <= zlen d → ∃ d', d = a ++ d' ∧ d' ++ e = b.
Proof.
  revert d. induction a as [|x a IH]; intros d Heq Hl; [by exists d|].
  destruct d as [|y d]; [zlia|]. injection Heq as -> Heq.
  destruct (IH d Heq) as (d' & -> & Hd'); [zlia|]. by exists d'.
Qed.

Lemma rd_Ok {A} (l : list A) i : 0 <= i < zlen l → ∃ b, rd l i = Ok b.
Proof.
  unfold rd, zlen. intros Hi. rewrite (proj2 (Z.ltb_ge _ _)) by lia.
  destruct (lookup_lt_is_Some_2 l (Z.to_nat i)) as [b ->]; [lia|eauto].
Qed.

Lemma rd_lookup {A} (l : list A) i b :
  rd l i = Ok b ↔ 0 <= i ∧ l !! Z.to_nat i = Some b.
Proof.
  unfold rd. destruct (i <? 0) eqn:E; [split; [done|lia]|].
  destruct (l !! Z.to_nat i); split; intros; [|naive_solver..].
  simplify_eq. split; [lia|done].
Qed.

Lemma safe_rd {A} (l : list A) i : 0 <= i < zlen l → safe (rd l i).
Proof. intros [b ->]%rd_Ok. apply safe_Ok. Qed.

Lemma safe_wr {A} (l : list A) i b : 0 <= i < zlen l → safe (wr l i b).
Proof. intros Hi. unfold wr. rewrite (proj2 (andb_true_iff _ _)) by lia. done. Qed.

Lemma safe_slice {A} (l : list A) a b : 0 <= a <= b ∧ b <= zlen l → safe (slice l a b).
Proof.
  intros Hi. unfold slice.
  replace ((0 <=? a) && (a <=? b) && (b <=? zlen l)) with true by lia. done.
Qed.

Lemma slice_Ok {A} (l : list A) a b :
  0 <= a <= b ∧ b <= zlen l → slice l a b = Ok (take (Z.to_nat (b - a)) (drop (Z.to_nat a) l)).
Proof.
  intros Hi. unfold slice.
  by replace ((0 <=? a) && (a <=? b) && (b <=? zlen l)) with true by lia.
Qed.

Lemma slice_Ok_inv {A} (l : list A) a b r :
  slice l a b = Ok r →
  0 <= a <= b ∧ b <= zlen l ∧ r = take (Z.to_nat (b - a)) (drop (Z.to_nat a) l).
Proof. unfold slice. case_match eqn:E; intros; simplify_eq; split_and!; lia || done. Qed.

Lemma slice_app_drop {A} (l k : list A) a b :
  a = zlen l → b = zlen l + zlen k → slice (l ++ k) a b = Ok k.
Proof.
  intros -> ->. unfold slice. ifb; [|exfalso; zlia].
  replace (Z.to_nat (zlen l + zlen k - zlen l)) with (length k) by (unfold zlen; lia).
  unfold zlen. rewrite Nat2Z.id, drop_app_length, take_ge by lia. done.
Qed.

Create HintDb safe.
#[export] Hint Resolve safe_Ok safe_Throw : safe.

(** ** Big-endian integers *)

(** [value = (value << 8) | byte] over the bytes, most significant first. *)
Definition be_decode (l : bytes) : Z :=
  fold_left (fun v b => Z.lor (Z.shiftl v 8) b) l 0.

(** The [n] low-order bytes of [v], most significant first. *)
Fixpoint be_encode (n : nat) (v : Z) : bytes :=
  match n with
  | O => []
  | S n' => u8 (Z.shiftr v (8 * Z.of_nat n')) :: be_encode n' v
  end.

Lemma wrap_range w x : 0 <= w → in_width w (wrap w x).
Proof. intros. apply Z.mod_pos_bound. apply Z.pow_pos_nonneg; lia. Qed.

Lemma wrap_id w x : in_width w x → wrap w x = x.
Proof. apply Z.mod_small. Qed.

Lemma in_width_high w x i : in_width w x → 0 <= w <= i → Z.testbit x i = false.
Proof.
  intros Hx Hw. rewrite <- (Z.mod_small x (2 ^ w)) by done.
  apply Z.mod_pow2_bits_high. lia.
Qed.

Lemma in_width_bits w x :
  0 <= w → 0 <= x → (∀ i, w <= i → Z.testbit x i = false) → in_width w x.
Proof.
  intros Hw Hx Hbits. replace x with (x mod 2 ^ w); [by apply wrap_range|].
  apply Z.bits_inj'. intros i Hi. destruct (Z.ltb_spec i w).
  - by apply Z.mod_pow2_bits_low.
  - rewrite Z.mod_pow2_bits_high by lia. symmetry. by apply Hbits.
Qed.

Lemma in_width_land w x y : 0 <= w → in_width w x → in_width w (Z.land x y).
Proof.
  intros Hw Hx. apply in_width_bits; [done|apply Z.land_nonneg; left; apply Hx|].
  intros i Hi. rewrite Z.land_spec, (in_width_high w x) by done. done.
Qed.

Lemma in_width_lor w x y : 0 <= w → in_width w x → in_width w y → in_width w (Z.lor x y).
Proof.
  intros Hw Hx Hy. apply in_width_bits; [done|apply Z.lor_nonneg; split; [apply Hx|apply Hy]|].
  intros i Hi. by rewrite Z.lor_spec, (in_width_high w x), (in_width_high w y) by done.
Qed.

Lemma in_width_pow2 w k : 0 <= k < w → in_width w (2 ^ k).
Proof. intros. split; [lia|]. apply Z.pow_lt_mono_r; lia. Qed.

Lemma lor_shiftl_add v b k :
  0 <= k → 0 <= b < 2 ^ k → Z.lor (Z.shiftl v k) b = v * 2 ^ k + b.
Proof.
  intros Hk Hb. rewrite Z.shiftl_mul_pow2 by lia.
  rewrite <- Z.lxor_lor, <- Z.add_nocarry_lxor; [done|..].
  all: apply Z.bits_inj'; intros n Hn; rewrite Z.land_spec, Z.bits_0.
  all: destruct (Z.ltb_spec n k);
    [rewrite Z.mul_pow2_bits_low by lia; done|].
  all: rewrite <- (Z.mod_small b (2 ^ k)) by lia;
    rewrite Z.mod_pow2_bits_high by lia; apply andb_false_r.
Qed.

Lemma length_be_encode n v : length (be_encode n v) = n.
Proof. induction n; simpl; auto. Qed.

Lemma zlen_be_encode n v : zlen (be_encode n v) = Z.of_nat n.
Proof. unfold zlen. by rewrite length_be_encode. Qed.
#[export] Hint Rewrite @zlen_be_encode : zlen.

Lemma bytes_ok_be_encode n v : bytes_ok (be_encode n v).
Proof. induction n; constructor; [by apply wrap_range|done]. Qed.

Lemma be_decode_acc l acc :
  bytes_ok l →
  fold_left (fun v b => Z.lor (Z.shiftl v 8) b) l acc
  = acc * 2 ^ (8 * zlen l) + be_decode l.
Proof.
  unfold be_decode. intros Hl. revert acc.
  induction Hl as [|b l Hb Hl IH]; intros acc; simpl.
  { change (acc = acc * 1 + 0). lia. }
  rewrite IH, (IH (Z.lor _ b)). unfold in_width in Hb.
  rewrite !lor_shiftl_add by lia. zsimp.
  replace (8 * (zlen l + 1)) with (8 + 8 * zlen l) by lia.
  rewrite Z.pow_add_r by zlia. lia.
Qed.

Lemma be_decode_cons b l :
  bytes_ok (b :: l) → be_decode (b :: l) = b * 2 ^ (8 * zlen l) + be_decode l.
Proof.
  intros [Hb Hl]%Forall_cons. unfold be_decode at 1. simpl.
  by rewrite be_decode_acc.
Qed.

Lemma be_decode_range l : bytes_ok l → in_width (8 * zlen l) (be_decode l).
Proof.
  unfold in_width. induction 1 as [|b l Hb Hl IH]; [done|].
  rewrite be_decode_cons by (by constructor). unfold in_width in Hb. zsimp.
  replace (8 * (zlen l + 1)) with (8 + 8 * zlen l) by lia.
  rewrite Z.pow_add_r by zlia. nia.
Qed.

Lemma be_decode_encode n v : be_decode (be_encode n v) = v mod 2 ^ (8 * Z.of_nat n).
Proof.
  induction n as [|n IH]; [by rewrite Z.mod_1_r|].
  change (be_encode (S n) v) with (u8 (Z.shiftr v (8 * Z.of_nat n)) :: be_encode n v).
  rewrite be_decode_cons; last first.
  { constructor; [by apply wrap_range|apply bytes_ok_be_encode]. }
  rewrite IH, zlen_be_encode, Z.shiftr_div_pow2 by lia. unfold wrap.
  replace (8 * Z.of_nat (S n)) with (8 * Z.of_nat n + 8) by lia.
  rewrite Z.pow_add_r by lia.
  pose proof (Z.pow_pos_nonneg 2 (8 * Z.of_nat n)).
  rewrite Z.rem_mul_r by lia. lia.
Qed.

Lemma be_encode_decode_split b l :
  bytes_ok (b :: l) →
  be_decode (b :: l) mod 2 ^ (8 * zlen l) = be_decode l
  ∧ be_decode (b :: l) / 2 ^ (8 * zlen l) = b.
Proof.
  intros Hbl. rewrite be_decode_cons by done.
  apply Forall_cons in Hbl as [Hb Hl].
  pose proof (be_decode_range l Hl) as Hr. unfold in_width in *.
  split.
  - rewrite Z.add_comm, Z_mod_plus_full. by apply Z.mod_small.
  - rewrite Z.add_comm, Z_div_plus_full by lia. rewrite Z.div_small; lia.
Qed.

Lemma be_encode_mod n v : be_encode n v = be_encode n (v mod 2 ^ (8 * Z.of_nat n)).
Proof.
  assert (∀ m, Z.of_nat n <= m → be_encode n v = be_encode n (v mod 2 ^ (8 * m))) as H;
    [|apply H; lia].
  induction n as [|n IH]; intros m Hm; simpl; [done|].
  f_equal; [|apply IH; lia].
  unfold wrap. rewrite !Z.shiftr_div_pow2 by lia.
  apply Z.bits_inj'. intros i Hi.
  destruct (Z.ltb_spec i 8); [|by rewrite !Z.mod_pow2_bits_high by lia].
  rewrite !Z.mod_pow2_bits_low, !Z.div_pow2_bits by lia.
  by rewrite Z.mod_pow2_bits_low by lia.
Qed.

Lemma be_encode_decode l : bytes_ok l → be_encode (length l) (be_decode l) = l.
Proof.
  induction l as [|b l IH]; intros Hbl; [done|].
  destruct (be_encode_decode_split b l Hbl) as [Hm Hd].
  apply Forall_cons in Hbl as [Hb Hl]. simpl.
  rewrite Z.shiftr_div_pow2 by lia. fold (zlen l). rewrite Hd, wrap_id by done.
  f_equal. rewrite be_encode_mod. fold (zlen l). rewrite Hm. auto.
Qed.

(** *** Bits of a big-endian integer *)

Lemma be_decode_testbit l (i : nat) j :
  bytes_ok l → (i < length l)%nat → 0 <= j < 8 →
  Z.testbit (be_decode l) (8 * (zlen l - 1 - Z.of_nat i) + j) = Z.testbit (l !!! i) j.
Proof.
  revert i. induction l as [|b l IH]; intros i Hl Hi Hj; simpl in Hi; [lia|].
  destruct (be_encode_decode_split b l Hl) as [Hm Hd].
  apply Forall_cons in Hl as [Hb Hl]. zsimp. destruct i as [|i].
  - replace (8 * (zlen l + 1 - 1 - Z.of_nat 0) + j) with (j + 8 * zlen l) by lia.
    rewrite <- Z.div_pow2_bits by zlia. by rewrite Hd.
  - replace (zlen l + 1 - 1 - Z.of_nat (S i)) with (zlen l - 1 - Z.of_nat i) by lia.
    rewrite <- (Z.mod_pow2_bits_low _ (8 * zlen l)) by (unfold zlen; lia).
    rewrite Hm. apply IH; [done|lia|done].
Qed.

(** Replacing one byte replaces its eight bits. *)
Lemma be_decode_insert_testbit l (i : nat) b q :
  bytes_ok l → in_width 8 b → (i < length l)%nat → 0 <= q < 8 * zlen l →
  Z.testbit (be_decode (<[i:=b]> l)) q
  = if q / 8 =? zlen l - 1 - Z.of_nat i then Z.testbit b (q mod 8)
    else Z.testbit (be_decode l) q.
Proof.
  intros Hl Hb Hi Hq.
  pose proof (Z.div_mod q 8). pose proof (Z.mod_pos_bound q 8).
  assert (0 <= q / 8 < zlen l) by (unfold zlen in *; lia).
  set (p := Z.to_nat (zlen l - 1 - q / 8)).
  assert (p < length l)%nat as Hp by (unfold p, zlen in *; lia).
  replace q with (8 * (zlen l - 1 - Z.of_nat p) + q mod 8) at 1 4 by (unfold p; lia).
  rewrite (be_decode_testbit l) by (done || lia).
  rewrite <- (zlen_insert i b l), be_decode_testbit; last lia;
    [|by apply Forall_insert|by rewrite length_insert].
  rewrite zlen_insert. destruct (Z.eqb_spec (q / 8) (zlen l - 1 - Z.of_nat i)).
  - replace p with i by (unfold p; lia). by rewrite list_lookup_total_insert_eq.
  - rewrite list_lookup_total_insert_ne; [done|]. unfold p, zlen in *. lia.
Qed.

(** Lexicographic order on byte strings of one length is the numeric order. *)
Fixpoint lex_ltb (l k : bytes) : bool :=
  match l, k with
  | _, [] => false
  | [], _ => true
  | x :: l', y :: k' => (x <? y) || ((x =? y) && lex_ltb l' k')
  end.

Lemma lex_ltb_be l k :
  length l = length k → bytes_ok l → bytes_ok k →
  lex_ltb l k = (be_decode l <? be_decode k).
Proof.
  revert k. induction l as [|x l IH]; intros [|y k] Hlen Hl Hk; try done.
  simpl. rewrite !be_decode_cons by done.
  apply Forall_cons in Hl as [Hx Hl]. apply Forall_cons in Hk as [Hy Hk].
  simpl in Hlen. injection Hlen as Hlen. rewrite IH by done.
  pose proof (be_decode_range l Hl) as Hrl. pose proof (be_decode_range k Hk) as Hrk.
  unfold in_width in *. assert (zlen k = zlen l) as Hz by (unfold zlen; lia). rewrite Hz in *.
  set (m := 2 ^ (8 * zlen l)) in *. clearbody m.
  destruct (Z.ltb_spec x y), (Z.eqb_spec x y); simpl; nia.
Qed.

(** ** Writes into a vector whose head is known *)

(** [std::copy(src.begin(), src.end(), l.begin() + off)] *)
Definition copy_at {A} (l : list A) (off : Z) (src : list A) : outcome (list A) :=
  if (0 <=? off) && (off + zlen src <=? zlen l)
  then Ok (take (Z.to_nat off) l ++ src ++ drop (Z.to_nat (off + zlen src)) l)
  else UB.

Lemma rd_app_l {A} (l r : list A) i : i < zlen l → rd (l ++ r) i = rd l i.
Proof.
  unfold rd, zlen. intros Hi. ifb; [done|]. rewrite lookup_app_l; [done|lia].
Qed.

Lemma rd_app_r {A} (l r : list A) i : zlen l <= i → rd (l ++ r) i = rd r (i - zlen l).
Proof.
  unfold rd, zlen. intros Hi. rewrite !(proj2 (Z.ltb_ge _ _)) by lia.
  rewrite lookup_app_r by lia.
  by replace (Z.to_nat i - length l)%nat with (Z.to_nat (i - Z.of_nat (length l))) by lia.
Qed.

Lemma wr_app_l {A} (l r : list A) i b l' :
  wr l i b = Ok l' → wr (l ++ r) i b = Ok (l' ++ r).
Proof.
  unfold wr. ifb; [|done]. intros; simplify_eq.
  ifb; [|exfalso; zlia]. f_equal. apply insert_app_l. unfold zlen in *. b2p. lia.
Qed.

Lemma wr_app_r {A} (l r : list A) i b r' :
  wr r i b = Ok r' → wr (l ++ r) (zlen l + i) b = Ok (l ++ r').
Proof.
  unfold wr. ifb; [|done]. intros; simplify_eq. b2p.
  ifb; [|exfalso; b2p; zlia]. f_equal.
  rewrite insert_app_r_alt by (unfold zlen; lia). do 2 f_equal. unfold zlen. lia.
Qed.

Lemma copy_at_mid {A} (l k r src : list A) off :
  off = zlen l → zlen src = zlen k → copy_at (l ++ k ++ r) off src = Ok (l ++ src ++ r).
Proof.
  intros -> Hk. unfold copy_at. ifb; [|exfalso; zlia].
  unfold zlen in *. rewrite Nat2Z.id, take_app_length, (app_assoc l k r), drop_app_length'; [done|].
  rewrite length_app. lia.
Qed.

Lemma copy_at_app {A} (l k src : list A) off :
  off = zlen l → zlen src = zlen k → copy_at (l ++ k) off src = Ok (l ++ src).
Proof.
  intros -> Hk. pose proof (copy_at_mid l k [] src _ eq_refl Hk) as H.
  by rewrite !app_nil_r in H.
Qed.

Lemma slice_full {A} (l k r : list A) a b :
  a = zlen l → b = zlen l + zlen k → slice (l ++ k ++ r) a b = Ok k.
Proof.
  intros -> ->. unfold slice. ifb; [|exfalso; zlia].
  replace (Z.to_nat (zlen l + zlen k - zlen l)) with (length k) by (unfold zlen; lia).
  unfold zlen. by rewrite Nat2Z.id, drop_app_length, take_app_length.
Qed.

Lemma slice_prefix {A} (l r : list A) b : b = zlen l → slice (l ++ r) 0 b = Ok l.
Proof. intros ->. by apply (slice_full [] l r). Qed.

Lemma zlen_slice {A} (l r : list A) a b : slice l a b = Ok r → zlen r = b - a.
Proof. intros (? & ? & ->)%slice_Ok_inv. zlia. Qed.

Lemma bytes_ok_slice l r a b : bytes_ok l → slice l a b = Ok r → bytes_ok r.
Proof. intros Hl (? & ? & ->)%slice_Ok_inv. by apply Forall_take, Forall_drop. Qed.

Lemma bytes_ok_rd l i b : bytes_ok l → rd l i = Ok b → in_width 8 b.
Proof.
  intros Hl [_ Hi]%rd_lookup. rewrite Forall_forall in Hl. apply Hl.
  by eapply list_elem_of_lookup_2.
Qed.

(** [safe_step]: peel one operation off a call and leave the arithmetic side
    conditions of its accesses to [zlia]. *)
Ltac safe_step :=
  match goal with
  | |- safe (Ok _) => apply safe_Ok
  | |- safe (Throw _) => apply safe_Throw
  | |- safe (obind _ _) => apply safe_obind; [|intros ? ?]
  | |- safe (rd _ _) => apply safe_rd; b2p; try zlia
  | |- safe (wr _ _ _) => apply safe_wr; b2p; try zlia
  | |- safe (slice _ _ _) => apply safe_slice; b2p; try zlia
  | |- safe (if _ then _ else _) => apply safe_if; intros ?
  | |- safe (let _ := _ in _) => cbv zeta
  | |- safe (match ?x with _ => _ end) => destruct x eqn:?
  end.
Ltac safe_auto := repeat safe_step.

(** [ok_inv H]: the steps a successful call went through. *)
Ltac ok_inv H :=
  repeat first
    [ discriminate H
    | match type of H with
      | obind _ _ = Ok _ =>
          let a := fresh "a" in let Ha := fresh "Ha" in
          apply obind_Ok_inv in H; destruct H as (a & Ha & H)
      | (if ?b then _ else _) = Ok _ => let E := fresh "E" in destruct b eqn:E
      end ].

(** ** Stateful operations: a method of a class is a function from the object to
    its outcome and the object it leaves, so that what a method changed before it
    threw is kept. *)

Definition eff (S A : Type) : Type := S → outcome A * S.

Definition eret {S A} (a : A) : eff S A := fun s => (Ok a, s).
Definition ethrow {S A} (e : exn) : eff S A := fun s => (Throw e, s).
Definition elift {S A} (m : outcome A) : eff S A := fun s => (m, s).
Definition eget {S} : eff S S := fun s => (Ok s, s).
Definition emod {S} (f : S → S) : eff S unit := fun s => (Ok tt, f s).
Definition ebind {S A B} (m : eff S A) (k : A → eff S B) : eff S B := fun s =>
  match m s with
  | (Ok a, s') => k a s'
  | (Throw e, s') => (Throw e, s')
  | (UB, s') => (UB, s')
  end.

Notation "'let*' x := m 'in' k" := (ebind m (fun x => k))
  (at level 10, x pattern, m at level 100, k at level 200) : out_scope.
Notation "m ;;* k" := (ebind m (fun _ => k))
  (at level 100, k at level 200, right associativity) : out_scope.

Lemma ebind_Ok {S A B} (m : eff S A) (k : A → eff S B) s a s' :
  m s = (Ok a, s') → ebind m k s = k a s'.
Proof. unfold ebind. by intros ->. Qed.

(** The outcome and the final object of a call satisfy [Q]. *)
Definition wp {S A} (m : eff S A) (Q : outcome A → S → Prop) (s : S) : Prop :=
  Q (m s).1 (m s).2.

Lemma wp_ret {S A} (a : A) Q (s : S) : Q (Ok a) s → wp (eret a) Q s.
Proof. done. Qed.
Lemma wp_throw {S A} e (Q : outcome A → S → Prop) s : Q (Throw e) s → wp (ethrow e) Q s.
Proof. done. Qed.
Lemma wp_get {S} Q (s : S) : Q (Ok s) s → wp eget Q s.
Proof. done. Qed.
Lemma wp_mod {S} (f : S → S) Q s : Q (Ok tt) (f s) → wp (emod f) Q s.
Proof. done. Qed.
Lemma wp_lift {S A} (m : outcome A) Q (s : S) : Q m s → wp (elift m) Q s.
Proof. done. Qed.

Lemma wp_mono {S A} (m : eff S A) (Q Q' : outcome A → S → Prop) s :
  wp m Q s → (∀ r s', Q r s' → Q' r s') → wp m Q' s.
Proof. unfold wp. auto. Qed.

Lemma wp_bind {S A B} (m : eff S A) (k : A → eff S B) Q s :
  wp m (fun r s' => match r with
                    | Ok a => wp (k a) Q s'
                    | Throw e => Q (Throw e) s'
                    | UB => Q UB s'
                    end) s →
  wp (ebind m k) Q s.
Proof. unfold wp, ebind. by destruct (m s) as [[] ?]. Qed.

(** [wp_step]: one operation of a call. *)
Ltac wp_step :=
  match goal with
  | |- wp (ebind eget _) _ _ => apply wp_bind, wp_get
  | |- wp (ebind (emod _) _) _ _ => apply wp_bind, wp_mod
  | |- wp (ebind (eret _) _) _ _ => apply wp_bind, wp_ret
  | |- wp (ebind (elift _) _) _ _ => apply wp_bind, wp_lift
  | |- wp (eret _) _ _ => apply wp_ret
  | |- wp (ethrow _) _ _ => apply wp_throw
  | |- wp eget _ _ => apply wp_get
  | |- wp (emod _) _ _ => apply wp_mod
  | |- wp (elift _) _ _ => apply wp_lift
  | |- wp (let _ := _ in _) _ _ => cbv zeta
  end.
Ltac wp_auto := repeat wp_step.
