(* ===== verification/Replay.v ===== *)
(** * Replay protection of the WireGuard transport

    [ReplayWindow] of include/tailgate/wgengine/wireguard/ReplayWindow.h and
    src/core/wgengine/wireguard/ReplayWindow.cpp: a ring of 8192 bits in 128
    64-bit words, indexed by the counter modulo the window size.  The abstract
    specification is the list of the counters accepted so far. *)

From S2P Require Import Prelude.

Definition WindowSize : Z := 8192.
Definition BitsPerWord : Z := 64.
Definition WordCount : Z := WindowSize / BitsPerWord.

Record ReplayWindow := {
  rw_bitmap : list Z;
  rw_highest : Z;
  rw_initialized : bool
}.

Definition ReplayWindow_new : ReplayWindow :=
  {| rw_bitmap := replicate (Z.to_nat WordCount) 0;
     rw_highest := 0;
     rw_initialized := false |}.

(** The bit operations act on the array alone. *)
Definition ReplayWindow_IsSet (bm : list Z) (counter : Z) : bool :=
  let bit := counter mod WindowSize in
  negb (Z.land (bm !!! Z.to_nat (bit / BitsPerWord))
          (u64 (Z.shiftl 1 (bit mod BitsPerWord))) =? 0).

Definition ReplayWindow_Set (bm : list Z) (counter : Z) : list Z :=
  let bit := counter mod WindowSize in
  let word := Z.to_nat (bit / BitsPerWord) in
  <[word := Z.lor (bm !!! word) (u64 (Z.shiftl 1 (bit mod BitsPerWord)))]> bm.

Definition ReplayWindow_Clear (bm : list Z) (counter : Z) : list Z :=
  let bit := counter mod WindowSize in
  let word := Z.to_nat (bit / BitsPerWord) in
  <[word := Z.land (bm !!! word)
              (u64 (Z.lnot (u64 (Z.shiftl 1 (bit mod BitsPerWord)))))]> bm.

(** [for (std::uint64_t value = ...; value <= counter; ++value) Clear(value);]
    with at most [fuel] iterations; [None] when they do not end the loop. *)
Fixpoint ReplayWindow_clear_loop (fuel : nat) (value counter : Z) (bm : list Z)
    : option (list Z) :=
  if value <=? counter then
    match fuel with
    | O => None
    | S fuel' =>
        ReplayWindow_clear_loop fuel' (u64 (value + 1)) counter
          (ReplayWindow_Clear bm value)
    end
  else Some bm.

Definition ReplayWindow_Accept (fuel : nat) (w : ReplayWindow) (counter : Z)
    : option (ReplayWindow * bool) :=
  if negb (rw_initialized w) then
    Some ({| rw_bitmap := ReplayWindow_Set (rw_bitmap w) counter;
             rw_highest := counter;
             rw_initialized := true |}, true)
  else if rw_highest w <? counter then
    let advance := u64 (counter - rw_highest w) in
    match
      (if WindowSize <=? advance then Some (replicate (Z.to_nat WordCount) 0)
       else ReplayWindow_clear_loop fuel (u64 (rw_highest w + 1)) counter (rw_bitmap w))
    with
    | None => None
    | Some bm =>
        Some ({| rw_bitmap := ReplayWindow_Set bm counter;
                 rw_highest := counter;
                 rw_initialized := true |}, true)
    end
  else if (WindowSize <=? u64 (rw_highest w - counter))
          || ReplayWindow_IsSet (rw_bitmap w) counter then
    Some (w, false)
  else
    Some ({| rw_bitmap := ReplayWindow_Set (rw_bitmap w) counter;
             rw_highest := rw_highest w;
             rw_initialized := rw_initialized w |}, true).

Definition ReplayWindow_Reset (w : ReplayWindow) : ReplayWindow :=
  {| rw_bitmap := replicate (length (rw_bitmap w)) 0;
     rw_highest := 0;
     rw_initialized := false |}.

(** A session's packets, in arrival order: the verdict on each. *)
Fixpoint replay_run (fuel : nat) (w : ReplayWindow) (counters : list Z)
    : option (ReplayWindow * list bool) :=
  match counters with
  | [] => Some (w, [])
  | c :: cs =>
      match ReplayWindow_Accept fuel w c with
      | None => None
      | Some (w', r) =>
          match replay_run fuel w' cs with
          | None => None
          | Some (w'', rs) => Some (w'', r :: rs)
          end
      end
  end.

(** ** Specification: the counters accepted so far *)

Definition spec_highest (seen : list Z) : Z := foldr Z.max 0 seen.

Definition spec_accepts (seen : list Z) (c : Z) : bool :=
  match seen with
  | [] => true
  | _ => (spec_highest seen <? c)
         || ((spec_highest seen - c <? WindowSize) && bool_decide (c ∉ seen))
  end.

Definition spec_step (seen : list Z) (c : Z) : list Z :=
  if spec_accepts seen c then c :: seen else seen.

Fixpoint spec_run (seen counters : list Z) : list bool :=
  match counters with
  | [] => []
  | c :: cs => spec_accepts seen c :: spec_run (spec_step seen c) cs
  end.

(** The counters of [counters] whose verdict is [true]. *)
Definition accepted (counters : list Z) (verdicts : list bool) : list Z :=
  (filter (fun p => p.2 = true) (zip counters verdicts)).*1.

(** ** The bitmap as a set of residues *)

Definition rw_bit (bm : list Z) (i : Z) : bool :=
  Z.testbit (bm !!! Z.to_nat (i / BitsPerWord)) (i mod BitsPerWord).

Lemma mask_pow k : 0 <= k < 64 → u64 (Z.shiftl 1 k) = 2 ^ k.
Proof.
  intros. rewrite Z.shiftl_1_l. apply wrap_id. split; [lia|].
  apply Z.pow_lt_mono_r; lia.
Qed.

Lemma testbit_pow2 k j : 0 <= k → Z.testbit (2 ^ k) j = (k =? j).
Proof.
  intros. destruct (Z.eqb_spec k j) as [->|]; [by apply Z.pow2_bits_true|].
  by apply Z.pow2_bits_false.
Qed.

Lemma land_pow2_eqb x k :
  0 <= k → negb (Z.land x (2 ^ k) =? 0) = Z.testbit x k.
Proof.
  intros. destruct (Z.testbit x k) eqn:E; b2p.
  - intros H0. apply (f_equal (fun y => Z.testbit y k)) in H0.
    rewrite Z.land_spec, E, Z.pow2_bits_true, Z.bits_0 in H0; [done|lia].
  - apply Z.bits_inj'. intros n Hn. rewrite Z.land_spec, Z.bits_0, testbit_pow2 by lia.
    destruct (Z.eqb_spec k n) as [<-|]; [by rewrite E|apply andb_false_r].
Qed.

Lemma ReplayWindow_IsSet_bit bm c :
  ReplayWindow_IsSet bm c = rw_bit bm (c mod WindowSize).
Proof.
  unfold ReplayWindow_IsSet, rw_bit.
  pose proof (Z.mod_pos_bound (c mod WindowSize) BitsPerWord eq_refl).
  rewrite mask_pow by done. apply land_pow2_eqb. lia.
Qed.

(** Index arithmetic of the two-level array. *)
Lemma bit_split i j :
  0 <= i → 0 <= j →
  (i =? j) = (Z.to_nat (i / BitsPerWord) =? Z.to_nat (j / BitsPerWord))%nat
             && (i mod BitsPerWord =? j mod BitsPerWord).
Proof.
  intros Hi Hj. unfold BitsPerWord.
  pose proof (Z.div_mod i 64). pose proof (Z.div_mod j 64).
  pose proof (Z.div_pos i 64). pose proof (Z.div_pos j 64).
  destruct (Z.eqb_spec i j) as [->|]; [by rewrite Nat.eqb_refl, Z.eqb_refl|].
  symmetry. apply andb_false_iff.
  destruct (Nat.eqb_spec (Z.to_nat (i / 64)) (Z.to_nat (j / 64))) as [E|]; [right|by left].
  apply Z.eqb_neq. lia.
Qed.

Lemma word_lt (bm : list Z) c :
  length bm = Z.to_nat WordCount →
  (Z.to_nat (c mod WindowSize / BitsPerWord) < length bm)%nat.
Proof.
  intros ->. pose proof (Z.mod_pos_bound c WindowSize eq_refl).
  unfold WordCount, WindowSize, BitsPerWord in *.
  apply Z2Nat.inj_lt; [apply Z.div_pos; lia|done|].
  apply Z.div_lt_upper_bound; [lia|]. change (64 * (8192 / 64)) with 8192. lia.
Qed.

Lemma rw_bit_update (f : Z → Z) (g : bool → bool) bm c i :
  length bm = Z.to_nat WordCount → 0 <= i →
  let word := Z.to_nat (c mod WindowSize / BitsPerWord) in
  let k := c mod WindowSize mod BitsPerWord in
  (∀ x j, 0 <= j < 64 → Z.testbit (f x) j = if k =? j then g (Z.testbit x j)
                                           else Z.testbit x j) →
  rw_bit (<[word := f (bm !!! word)]> bm) i
  = if i =? c mod WindowSize then g (rw_bit bm i) else rw_bit bm i.
Proof.
  intros Hlen Hi word k Hf. unfold rw_bit.
  pose proof (Z.mod_pos_bound i BitsPerWord eq_refl).
  pose proof (Z.mod_pos_bound c WindowSize eq_refl).
  rewrite (bit_split i) by lia. fold word.
  destruct (Nat.eqb_spec (Z.to_nat (i / BitsPerWord)) word) as [->|Hne]; simpl.
  - rewrite list_lookup_total_insert_eq by (by apply word_lt).
    rewrite Hf by (unfold BitsPerWord in *; lia). by rewrite Z.eqb_sym.
  - by rewrite list_lookup_total_insert_ne by congruence.
Qed.

Lemma ReplayWindow_Set_bit bm c i :
  length bm = Z.to_nat WordCount → 0 <= i →
  rw_bit (ReplayWindow_Set bm c) i = (i =? c mod WindowSize) || rw_bit bm i.
Proof.
  intros Hlen Hi. unfold ReplayWindow_Set.
  pose proof (Z.mod_pos_bound (c mod WindowSize) BitsPerWord eq_refl).
  rewrite (rw_bit_update (fun x => Z.lor x (u64 (Z.shiftl 1 (c mod WindowSize mod BitsPerWord))))
             (fun _ => true)); [by destruct (i =? _)|done..|].
  intros x j Hj. rewrite mask_pow, Z.lor_spec, testbit_pow2 by (unfold BitsPerWord in *; lia).
  destruct (_ =? j); [apply orb_true_r|apply orb_false_r].
Qed.

Lemma ReplayWindow_Clear_bit bm c i :
  length bm = Z.to_nat WordCount → 0 <= i →
  rw_bit (ReplayWindow_Clear bm c) i = negb (i =? c mod WindowSize) && rw_bit bm i.
Proof.
  intros Hlen Hi. unfold ReplayWindow_Clear.
  pose proof (Z.mod_pos_bound (c mod WindowSize) BitsPerWord eq_refl).
  rewrite (rw_bit_update (fun x => Z.land x (u64 (Z.lnot (u64 (Z.shiftl 1
             (c mod WindowSize mod BitsPerWord)))))) (fun _ => false));
    [by destruct (i =? _)|done..|].
  intros x j Hj. rewrite mask_pow by (unfold BitsPerWord in *; lia). unfold wrap.
  rewrite Z.land_spec, Z.mod_pow2_bits_low, Z.lnot_spec, testbit_pow2 by lia.
  destruct (_ =? j); [apply andb_false_r|apply andb_true_r].
Qed.

Lemma length_Set bm c : length (ReplayWindow_Set bm c) = length bm.
Proof. apply length_insert. Qed.

Lemma length_Clear bm c : length (ReplayWindow_Clear bm c) = length bm.
Proof. apply length_insert. Qed.

(** Counters less than a window apart have distinct residues. *)
Lemma residue_inj a b :
  - WindowSize < a - b < WindowSize → (a mod WindowSize =? b mod WindowSize) = (a =? b).
Proof.
  intros Hd. destruct (Z.eqb_spec a b) as [->|Hne]; [apply Z.eqb_refl|].
  apply Z.eqb_neq. unfold WindowSize in *.
  pose proof (Z.div_mod a 8192). pose proof (Z.div_mod b 8192). lia.
Qed.

Lemma IsSet_Set bm c c' :
  length bm = Z.to_nat WordCount → - WindowSize < c' - c < WindowSize →
  ReplayWindow_IsSet (ReplayWindow_Set bm c) c' = (c' =? c) || ReplayWindow_IsSet bm c'.
Proof.
  intros Hlen Hd. rewrite !ReplayWindow_IsSet_bit, ReplayWindow_Set_bit, residue_inj by (done || by apply Z.mod_pos_bound). done.
Qed.

Lemma IsSet_Clear bm c c' :
  length bm = Z.to_nat WordCount → - WindowSize < c' - c < WindowSize →
  ReplayWindow_IsSet (ReplayWindow_Clear bm c) c'
  = negb (c' =? c) && ReplayWindow_IsSet bm c'.
Proof.
  intros Hlen Hd. rewrite !ReplayWindow_IsSet_bit, ReplayWindow_Clear_bit, residue_inj by (done || by apply Z.mod_pos_bound). done.
Qed.

Lemma IsSet_zeros c : ReplayWindow_IsSet (replicate (Z.to_nat WordCount) 0) c = false.
Proof.
  rewrite ReplayWindow_IsSet_bit. unfold rw_bit.
  rewrite lookup_total_replicate_2; [apply Z.bits_0|].
  rewrite <- (length_replicate (Z.to_nat WordCount) 0).
  apply word_lt, length_replicate.
Qed.

(** ** The clearing loop *)

(** With a counter below the last representable value, as many iterations as
    the advance clear exactly the counters the window moves over. *)
Lemma clear_loop_spec fuel value counter bm :
  length bm = Z.to_nat WordCount →
  0 <= value → counter < 2 ^ 64 - 1 → counter - WindowSize < value →
  counter - value < Z.of_nat fuel →
  ∃ bm', ReplayWindow_clear_loop fuel value counter bm = Some bm'
         ∧ length bm' = Z.to_nat WordCount
         ∧ ∀ c, counter - WindowSize < c <= counter →
                ReplayWindow_IsSet bm' c = (c <? value) && ReplayWindow_IsSet bm c.
Proof.
  revert value bm. induction fuel as [|fuel IH]; intros value bm Hlen Hv Hc Hw Hf; simpl.
  - ifb; [lia|]. exists bm. split_and!; [done..|]. intros c Hcc.
    by rewrite (proj2 (Z.ltb_lt _ _)) by lia.
  - ifb; last first.
    { exists bm. split_and!; [done..|]. intros c Hcc.
      by rewrite (proj2 (Z.ltb_lt _ _)) by lia. }
    rewrite wrap_id by (unfold in_width; lia).
    destruct (IH (value + 1) (ReplayWindow_Clear bm value)) as (bm' & -> & Hlen' & Hbits);
      [by rewrite length_Clear|lia..|].
    exists bm'. split_and!; [done..|]. intros c Hcc.
    rewrite Hbits, IsSet_Clear by (done || lia). rewrite andb_assoc. f_equal. lia.
Qed.

(** ** The window represents the accepted counters *)

Record replay_rep (w : ReplayWindow) (seen : list Z) : Prop := {
  rep_length : length (rw_bitmap w) = Z.to_nat WordCount;
  rep_init : rw_initialized w = negb (bool_decide (seen = []));
  rep_range : Forall (in_width 64) seen;
  rep_highest : rw_highest w = spec_highest seen;
  rep_bits : seen ≠ [] → ∀ c, rw_highest w - WindowSize < c <= rw_highest w →
    ReplayWindow_IsSet (rw_bitmap w) c = bool_decide (c ∈ seen);
  rep_zero : seen = [] → ∀ c, ReplayWindow_IsSet (rw_bitmap w) c = false
}.

Lemma spec_highest_ge seen c : c ∈ seen → c <= spec_highest seen.
Proof. induction 1; simpl; lia. Qed.

Lemma spec_highest_range seen :
  Forall (in_width 64) seen → in_width 64 (spec_highest seen).
Proof. unfold in_width. induction 1; simpl; lia. Qed.

Lemma bool_decide_elem_cons (c d : Z) seen :
  bool_decide (c ∈ d :: seen) = (c =? d) || bool_decide (c ∈ seen).
Proof.
  destruct (Z.eqb_spec c d) as [->|]; simpl.
  - apply bool_decide_eq_true. set_solver.
  - apply bool_decide_ext. set_solver.
Qed.

Lemma replay_rep_new : replay_rep ReplayWindow_new [].
Proof. split; try done. intros _ c. apply IsSet_zeros. Qed.

(** Setting the bit of a fresh counter at or above every accepted one. *)
Lemma replay_rep_push w bm seen c :
  replay_rep w seen → length bm = Z.to_nat WordCount → in_width 64 c →
  spec_highest seen <= c →
  (∀ c', c - WindowSize < c' <= c →
     ReplayWindow_IsSet bm c' = bool_decide (c' ∈ seen) || ((c' =? c) && ReplayWindow_IsSet bm c')) →
  replay_rep {| rw_bitmap := ReplayWindow_Set bm c; rw_highest := c; rw_initialized := true |}
    (c :: seen).
Proof.
  intros Hrep Hlen Hc Hhi Hbits. split; simpl.
  - by rewrite length_Set.
  - done.
  - constructor; [done|apply Hrep].
  - lia.
  - intros _ c' Hc'. rewrite IsSet_Set, bool_decide_elem_cons, Hbits by (done || lia).
    destruct (c' =? c); simpl; [done|by rewrite orb_false_r].
  - done.
Qed.

Lemma replay_Accept_step fuel w seen c :
  WindowSize <= Z.of_nat fuel →
  replay_rep w seen → 0 <= c < 2 ^ 64 - 1 →
  ∃ w', ReplayWindow_Accept fuel w c = Some (w', spec_accepts seen c)
        ∧ replay_rep w' (spec_step seen c).
Proof.
  intros Hfuel Hrep Hc. unfold ReplayWindow_Accept, spec_step.
  pose proof (spec_highest_range _ (rep_range _ _ Hrep)) as Hr. unfold in_width in Hr.
  pose proof (rep_highest _ _ Hrep) as Hh.
  assert (in_width 64 c) as Hcw by (unfold in_width; lia).
  rewrite (rep_init _ _ Hrep). destruct seen as [|s seen']; cbn [negb bool_decide decide_rel spec_accepts].
  { eexists; split; [done|]. eapply replay_rep_push; [exact Hrep|apply Hrep|done|simpl; lia|].
    intros c' _. rewrite (rep_zero _ _ Hrep) by done. by rewrite andb_false_r. }
  remember (s :: seen') as seen eqn:Hs. assert (seen ≠ []) as Hne by (by subst).
  clear s seen' Hs. rewrite Hh, (bool_decide_eq_false_2 (seen = [])) by done.
  cbn [negb]. destruct (Z.ltb_spec (spec_highest seen) c) as [Hlt|Hge]; cbn [orb].
  - rewrite (wrap_id _ (c - _)) by (unfold in_width; lia).
    rewrite (wrap_id _ (spec_highest seen + 1)) by (unfold in_width; lia).
    destruct (Z.leb_spec WindowSize (c - spec_highest seen)) as [Hfar|Hnear].
    + eexists; split; [done|]. eapply replay_rep_push; [exact Hrep|apply length_replicate|done|lia|].
      intros c' Hc'. rewrite IsSet_zeros, andb_false_r, orb_false_r. symmetry.
      apply bool_decide_eq_false. intros Hin%spec_highest_ge. lia.
    + destruct (clear_loop_spec fuel (spec_highest seen + 1) c (rw_bitmap w))
        as (bm & -> & Hlen & Hbits); [apply Hrep|lia..|].
      eexists; split; [done|]. eapply replay_rep_push; [exact Hrep|exact Hlen|done|lia|].
      intros c' Hc'. rewrite Hbits by lia.
      destruct (Z.ltb_spec c' (spec_highest seen + 1)) as [Hle|Hgt]; simpl.
      * rewrite (rep_bits _ _ Hrep) by (done || lia).
        replace (c' =? c) with false by lia. by rewrite orb_false_r.
      * rewrite andb_false_r, orb_false_r. symmetry. apply bool_decide_eq_false.
        intros Hin%spec_highest_ge. lia.
  - rewrite (wrap_id _ (_ - c)) by (unfold in_width; lia).
    replace (WindowSize <=? spec_highest seen - c)
      with (negb (spec_highest seen - c <? WindowSize)) by lia.
    destruct (Z.ltb_spec (spec_highest seen - c) WindowSize) as [Hin|Hout]; simpl; [|by eexists].
    rewrite (rep_bits _ _ Hrep) by (done || lia).
    rewrite bool_decide_not. destruct (bool_decide (c ∈ seen)) eqn:Hseen; simpl; [by eexists|].
    eexists; split; [done|]. split; simpl.
    + rewrite length_Set. apply Hrep.
    + done.
    + constructor; [done|apply Hrep].
    + lia.
    + intros _ c' Hc'. rewrite IsSet_Set, bool_decide_elem_cons by (apply Hrep || lia).
      f_equal. apply (rep_bits _ _ Hrep); [done|lia].
    + done.
Qed.

Lemma replay_run_spec fuel w seen cs :
  WindowSize <= Z.of_nat fuel →
  replay_rep w seen → Forall (fun c => 0 <= c < 2 ^ 64 - 1) cs →
  ∃ w', replay_run fuel w cs = Some (w', spec_run seen cs).
Proof.
  intros Hfuel Hrep Hcs. revert w seen Hrep.
  induction Hcs as [|c cs Hc Hcs IH]; intros w seen Hrep; simpl; [by eexists|].
  destruct (replay_Accept_step fuel w seen c) as (w' & -> & Hrep'); [done..|].
  destruct (IH _ _ Hrep') as (w'' & ->). by eexists.
Qed.

(** ** Properties of the specification *)

Lemma spec_accepts_fresh seen c : spec_accepts seen c = true → c ∉ seen.
Proof.
  destruct seen as [|s seen]; [set_solver|]. cbn [spec_accepts]. intros H Hin.
  apply orb_true_iff in H as [H|H].
  - apply spec_highest_ge in Hin. lia.
  - apply andb_true_iff in H as [_ H]. by apply bool_decide_eq_true in H.
Qed.

Lemma accepted_cons c cs r rs :
  accepted (c :: cs) (r :: rs) = if r then c :: accepted cs rs else accepted cs rs.
Proof.
  unfold accepted. simpl. destruct r;
    [by rewrite filter_cons_True|by rewrite filter_cons_False].
Qed.

Lemma accepted_spec_run seen cs :
  NoDup seen →
  NoDup (accepted cs (spec_run seen cs))
  ∧ ∀ c, c ∈ accepted cs (spec_run seen cs) → c ∉ seen.
Proof.
  revert seen. induction cs as [|c cs IH]; intros seen Hnd; [split; [constructor|set_solver]|].
  cbn [spec_run]. rewrite accepted_cons. unfold spec_step.
  destruct (spec_accepts seen c) eqn:E; [|by apply IH].
  pose proof (spec_accepts_fresh _ _ E) as Hfresh.
  destruct (IH (c :: seen)) as [H1 H2]; [by constructor|]. split.
  - constructor; [|done]. intros Hin. apply H2 in Hin. set_solver.
  - intros c' [->|Hin]%elem_of_cons; [done|]. apply H2 in Hin. set_solver.
Qed.

Lemma clear_loop_wraps fuel value bm :
  0 <= value < 2 ^ 64 → ReplayWindow_clear_loop fuel value (2 ^ 64 - 1) bm = None.
Proof.
  revert value bm. induction fuel as [|fuel IH]; intros value bm Hv; simpl.
  - by rewrite (proj2 (Z.leb_le _ _)) by lia.
  - rewrite (proj2 (Z.leb_le _ _)) by lia. apply IH.
    by apply (wrap_range 64 (value + 1)).
Qed.

(** ** Properties *)

(** C32: on every sequence of transport counters below 2^64 - 1, the bitmap
    implementation returns, with at most 8192 iterations per call, exactly the
    verdicts of the specification that remembers every accepted counter:
    a counter is accepted iff it is the first one, is above every accepted one,
    or is less than 8192 behind the highest and was not accepted before. *)
Theorem ReplayWindow_refines_spec (counters : list Z)
    (Hcs : Forall (fun c => 0 <= c < 2 ^ 64 - 1) counters) :
  option_map snd (replay_run (Z.to_nat WindowSize) ReplayWindow_new counters)
  = Some (spec_run [] counters).
Proof.
  destruct (replay_run_spec (Z.to_nat WindowSize) _ _ counters (ltac:(lia)) replay_rep_new Hcs)
    as (w & Hrun).
  by rewrite Hrun.
Qed.

Lemma ReplayWindow_refines_spec_witness :
  option_map snd (replay_run (Z.to_nat WindowSize) ReplayWindow_new
                    [5; 8200; 5; 9000; 8200; 8199; 100000; 91808; 91809])
  = Some [true; true; false; true; false; true; true; false; true].
Proof.
  rewrite ReplayWindow_refines_spec; [vm_compute; reflexivity|].
  repeat constructor; vm_compute; congruence.
Defined.

(** No transport counter is accepted twice in a session, whatever the order
    in which the packets arrive. *)
Theorem ReplayWindow_no_replay (counters : list Z) (w : ReplayWindow) (verdicts : list bool)
    (Hcs : Forall (fun c => 0 <= c < 2 ^ 64 - 1) counters)
    (Hrun : replay_run (Z.to_nat WindowSize) ReplayWindow_new counters = Some (w, verdicts)) :
  NoDup (accepted counters verdicts).
Proof.
  destruct (replay_run_spec (Z.to_nat WindowSize) _ _ counters (ltac:(lia)) replay_rep_new Hcs)
    as (w' & Hrun').
  rewrite Hrun in Hrun'. simplify_eq. by apply accepted_spec_run, NoDup_nil.
Qed.

Lemma ReplayWindow_no_replay_witness : NoDup (accepted [3; 1; 3; 2; 1] [true; true; false; true; false]).
Proof.
  refine (ReplayWindow_no_replay [3; 1; 3; 2; 1] _ _ _ _);
    [repeat constructor; vm_compute; congruence|].
  vm_compute. reflexivity.
Defined.

(** A packet with the counter 2^64 - 1 that arrives when the window is less
    than 8192 behind never gets a verdict: [++value] wraps to zero, [value <=
    counter] always holds, and no number of iterations ends the loop. *)
Theorem ReplayWindow_Accept_diverges (fuel : nat) (w : ReplayWindow)
    (Hinit : rw_initialized w = true)
    (Hnear : 2 ^ 64 - 1 - WindowSize < rw_highest w < 2 ^ 64 - 1) :
  ReplayWindow_Accept fuel w (2 ^ 64 - 1) = None.
Proof.
  unfold ReplayWindow_Accept. rewrite Hinit. cbn [negb]. unfold WindowSize in *.
  rewrite (proj2 (Z.ltb_lt _ _)) by lia.
  rewrite !wrap_id by (unfold in_width; lia).
  rewrite (proj2 (Z.leb_gt _ _)) by lia.
  by rewrite clear_loop_wraps by lia.
Qed.

Lemma ReplayWindow_Accept_diverges_witness :
  ∃ w, ReplayWindow_Accept (Z.to_nat WindowSize) ReplayWindow_new (2 ^ 64 - 2) = Some (w, true)
       ∧ ReplayWindow_Accept (Z.to_nat 1000000) w (2 ^ 64 - 1) = None.
Proof.
  eexists. split; [unfold ReplayWindow_Accept; cbn [negb rw_initialized ReplayWindow_new]; reflexivity|].
  apply ReplayWindow_Accept_diverges; [reflexivity|split; vm_compute; reflexivity].
Defined.
