(* ===== verification/Text.v ===== *)
(** * C++ strings

    [std::string] and [std::string_view] are byte sequences.  This file models
    what the program uses of them and of [<charconv>] and [std::format]:
    [find], [rfind], [from_chars] for unsigned integers, the decimal
    formatting of unsigned integers, and the ASCII lower casing of
    [boost::algorithm::to_lower] in the classic locale. *)

From S2P Require Import Prelude.

(** A string literal as its bytes. *)
Fixpoint lit (s : String.string) : bytes :=
  match s with
  | String.EmptyString => []
  | String.String a s' => Z.of_N (Ascii.N_of_ascii a) :: lit s'
  end.

Definition chr_dot : Z := 46.
Definition chr_colon : Z := 58.
Definition chr_slash : Z := 47.
Definition chr_dash : Z := 45.

(** [find(c, start)] on a string seen from [start]: the first index of [c]. *)
Fixpoint find_char (c : Z) (l : bytes) : option nat :=
  match l with
  | [] => None
  | x :: l' => if x =? c then Some 0%nat else S <$> find_char c l'
  end.

(** [rfind(c)]: the last index of [c]. *)
Fixpoint rfind_char (c : Z) (l : bytes) : option nat :=
  match l with
  | [] => None
  | x :: l' =>
      match rfind_char c l' with
      | Some i => Some (S i)
      | None => if x =? c then Some 0%nat else None
      end
  end.

Definition is_digit (b : Z) : bool := (48 <=? b) && (b <=? 57).

(** The longest prefix of decimal digits, and the rest. *)
Fixpoint span_digits (l : bytes) : bytes * bytes :=
  match l with
  | [] => ([], [])
  | b :: l' =>
      if is_digit b then (b :: (span_digits l').1, (span_digits l').2) else ([], l)
  end.

Definition digits_from (acc : Z) (l : bytes) : Z :=
  fold_left (fun v b => v * 10 + (b - 48)) l acc.
Abbreviation digits_val := (digits_from 0).

(** [std::from_chars(first, last, value)] for [unsigned]: the value and the
    unread rest, or [None] when [ec] is [invalid_argument] (no digit) or
    [result_out_of_range]. *)
Definition from_chars_unsigned (l : bytes) : option (Z * bytes) :=
  let '(d, rest) := span_digits l in
  match d with
  | [] => None
  | _ => if digits_val d <? 2 ^ 32 then Some (digits_val d, rest) else None
  end.

(** The whole text is one [unsigned] number: [ec == errc{}] and [ptr == end]. *)
Definition parse_unsigned (l : bytes) : option Z :=
  match from_chars_unsigned l with
  | Some (v, []) => Some v
  | _ => None
  end.

(** [std::format("{}", n)] for a nonnegative [n]; [fuel] bounds the number of
    digits after the first. *)
Fixpoint format_dec_aux (fuel : nat) (n : Z) (acc : bytes) : bytes :=
  if n <? 10 then (48 + n) :: acc
  else match fuel with
       | O => acc
       | S fuel' => format_dec_aux fuel' (n / 10) ((48 + n mod 10) :: acc)
       end.

(** Nineteen more digits than the first cover every 64-bit value. *)
Definition format_dec (n : Z) : bytes := format_dec_aux 19 n [].

#[global] Arguments format_dec : simpl never.

Definition to_lower_char (b : Z) : Z :=
  if (65 <=? b) && (b <=? 90) then b + 32 else b.
Definition to_lower (l : bytes) : bytes := map to_lower_char l.

(** ** Searching *)

Lemma find_char_app c l r : c ∉ l → find_char c (l ++ c :: r) = Some (length l).
Proof.
  induction l as [|x l IH]; simpl; intros Hc; [by rewrite Z.eqb_refl|].
  replace (x =? c) with false by (symmetry; apply Z.eqb_neq; set_solver).
  rewrite IH; [done|set_solver].
Qed.

Lemma find_char_None c l : find_char c l = None ↔ c ∉ l.
Proof.
  induction l as [|x l IH]; simpl; [set_solver|].
  destruct (Z.eqb_spec x c) as [->|Hne]; [set_solver|].
  rewrite fmap_None, IH. set_solver.
Qed.

Lemma find_char_Some c l i :
  find_char c l = Some i → l = take i l ++ c :: drop (S i) l ∧ c ∉ take i l.
Proof.
  revert i. induction l as [|x l IH]; simpl; intros i; [done|].
  destruct (Z.eqb_spec x c) as [->|Hne]; intros H; [simplify_eq; set_solver|].
  apply fmap_Some in H as (j & Hj & ->). apply IH in Hj as [Heq Hni].
  simpl. split; [by f_equal|set_solver].
Qed.

Lemma find_char_lt c l i : find_char c l = Some i → (i < length l)%nat.
Proof.
  intros [Hl _]%find_char_Some. apply (f_equal length) in Hl.
  rewrite length_app, length_take in Hl. simpl in Hl. lia.
Qed.

Lemma drop_app_cons {A} (l r : list A) c : drop (S (length l)) (l ++ c :: r) = r.
Proof. by induction l. Qed.

Lemma rfind_char_app c l r : c ∉ r → rfind_char c (l ++ c :: r) = Some (length l).
Proof.
  intros Hr. assert (rfind_char c r = None) as Hn.
  { induction r as [|x r IH]; simpl; [done|]. rewrite IH by set_solver.
    by replace (x =? c) with false by (symmetry; apply Z.eqb_neq; set_solver). }
  induction l as [|x l IH]; simpl; [by rewrite Hn, Z.eqb_refl|by rewrite IH].
Qed.

(** ** Decimal numbers *)

Abbreviation all_digits := (Forall (fun b => is_digit b = true)).

Lemma span_digits_app d r :
  all_digits d → (∀ b r', r = b :: r' → is_digit b = false) →
  span_digits (d ++ r) = (d, r).
Proof.
  intros Hd Hr. induction Hd as [|b d Hb Hd IH]; simpl.
  - destruct r as [|b r]; simpl; [done|]. by rewrite (Hr b r).
  - by rewrite Hb, IH.
Qed.

Lemma span_digits_spec l :
  l = (span_digits l).1 ++ (span_digits l).2 ∧ all_digits (span_digits l).1.
Proof.
  induction l as [|b l [IH1 IH2]]; simpl; [done|].
  destruct (is_digit b) eqn:E; simpl; [|done].
  split; [by rewrite <- IH1|by constructor].
Qed.

Lemma parse_unsigned_spec l v :
  parse_unsigned l = Some v ↔ l ≠ [] ∧ all_digits l ∧ v = digits_val l ∧ v < 2 ^ 32.
Proof.
  unfold parse_unsigned, from_chars_unsigned. split.
  - destruct (span_digits_spec l) as [Hl Hd].
    destruct (span_digits l) as [d r]; simpl in *. subst l.
    destruct d as [|b d]; [done|]. ifb; [|done]. destruct r; [|done].
    intros; simplify_eq. rewrite app_nil_r. split_and!; [done..|lia].
  - intros (Hne & Hd & -> & Hv).
    rewrite <- (app_nil_r l) at 1. rewrite span_digits_app by done.
    destruct l; [done|]. by rewrite (proj2 (Z.ltb_lt _ _)) by lia.
Qed.

Lemma digits_from_app acc l k : digits_from acc (l ++ k) = digits_from (digits_from acc l) k.
Proof. apply fold_left_app. Qed.

Lemma format_dec_aux_spec fuel n acc :
  0 <= n < 10 ^ (Z.of_nat fuel + 1) →
  ∃ d, format_dec_aux fuel n acc = d ++ acc ∧ all_digits d ∧ d ≠ [] ∧ digits_val d = n.
Proof.
  revert n acc. induction fuel as [|fuel IH]; intros n acc Hn; simpl.
  - rewrite (proj2 (Z.ltb_lt _ _)) by (simpl in *; lia).
    exists [48 + n]. split_and!; [done| |done|unfold digits_from; simpl; lia].
    constructor; [|done]. unfold is_digit. simpl in Hn. lia.
  - ifb.
    + exists [48 + n]. split_and!; [done| |done|unfold digits_from; simpl; lia].
      constructor; [|done]. unfold is_digit. lia.
    + destruct (IH (n / 10) ((48 + n mod 10) :: acc)) as (d & -> & Hd & Hne & Hv).
      { split; [apply Z.div_pos; lia|]. apply Z.div_lt_upper_bound; [lia|].
        rewrite <- Z.pow_succ_r by lia. rewrite Nat2Z.inj_succ in Hn.
        replace (Z.succ (Z.of_nat fuel + 1)) with (Z.succ (Z.of_nat fuel) + 1) by lia.
        apply Hn. }
      pose proof (Z.mod_pos_bound n 10).
      exists (d ++ [48 + n mod 10]). split_and!.
      * by rewrite <- app_assoc.
      * apply Forall_app. split; [done|]. constructor; [|done]. unfold is_digit. lia.
      * by destruct d.
      * rewrite digits_from_app, Hv. unfold digits_from. simpl.
        pose proof (Z.div_mod n 10). lia.
Qed.

Lemma format_dec_spec n :
  0 <= n < 2 ^ 64 →
  all_digits (format_dec n) ∧ format_dec n ≠ [] ∧ digits_val (format_dec n) = n.
Proof.
  intros Hn. unfold format_dec.
  destruct (format_dec_aux_spec 19 n []) as (d & -> & Hd & Hne & Hv).
  { split; [lia|]. eapply Z.lt_le_trans; [apply Hn|]. by vm_compute. }
  rewrite app_nil_r. done.
Qed.

(** Formatting and parsing an [unsigned] are inverse. *)
Lemma parse_format_dec n : 0 <= n < 2 ^ 32 → parse_unsigned (format_dec n) = Some n.
Proof.
  intros Hn. destruct (format_dec_spec n) as (Hd & Hne & Hv); [lia|].
  apply parse_unsigned_spec. split_and!; [done..|by rewrite Hv|lia].
Qed.

Lemma digits_not_elem c l : all_digits l → is_digit c = false → c ∉ l.
Proof. intros Hl Hc Hin. rewrite Forall_forall in Hl. specialize (Hl _ Hin). congruence. Qed.
