(* ===== verification/StdMap.v ===== *)
(** * [std::map] with strings as keys

    The maps of the connection, of the peer table, of JSON objects and of capability filters: an
    association list sorted by key, which is the order in which the code iterates. *)

From Stdlib Require Import Sorted.
From S2P Require Import Prelude.

(** ** Operations *)

Section map.
  Context {A : Type}.

Fixpoint map_find (k : bytes) (m : list (bytes * A)) : option A :=
  match m with
  | [] => None
  | (k', v) :: rest => if bool_decide (k = k') then Some v else map_find k rest
  end.

(** [emplace], which keeps the value of a key that is present. *)
Fixpoint map_emplace (k : bytes) (v : A) (m : list (bytes * A)) : list (bytes * A) :=
  match m with
  | [] => [(k, v)]
  | (k', v') :: rest =>
      if bool_decide (k = k') then m
      else if lex_ltb k k' then (k, v) :: m
      else (k', v') :: map_emplace k v rest
  end.

Definition map_erase (k : bytes) (m : list (bytes * A)) : list (bytes * A) :=
  List.filter (fun e => negb (bool_decide (k = e.1))) m.

(** A change of the value that [find(k)] refers to. *)
Definition map_alter (k : bytes) (f : A → A) (m : list (bytes * A)) : list (bytes * A) :=
  map (fun e => if bool_decide (k = e.1) then (e.1, f e.2) else e) m.

(** [m[k] = v] *)
Definition map_assign (k : bytes) (v : A) (m : list (bytes * A)) : list (bytes * A) :=
  map_alter k (fun _ => v) (map_emplace k v m).

End map.

(** ** Lemmas *)

Lemma lex_ltb_irrefl k : lex_ltb k k = false.
Proof. induction k as [|x k IH]; simpl; [done|]. rewrite IH. lia. Qed.

Lemma lex_ltb_trans a b c : lex_ltb a b = true → lex_ltb b c = true → lex_ltb a c = true.
Proof.
  revert b c. induction a as [|x a IH]; intros [|y b] [|z c]; simpl; try done.
  intros H1 H2. b2p.
  destruct H1 as [?|[-> ?]], H2 as [?|[-> ?]]; [left; lia|left; lia|left; lia|].
  right. split; [done|]. by eapply IH.
Qed.

Lemma lex_ltb_total a b : a ≠ b → lex_ltb a b = false → lex_ltb b a = true.
Proof.
  revert b. induction a as [|x a IH]; intros [|y b]; simpl; try done.
  intros Hne H. b2p. destruct H as [H1 H2]. destruct (decide (x = y)) as [->|].
  - right. split; [done|]. apply IH; [congruence|]. destruct H2; lia || done.
  - left. lia.
Qed.

Section map_lemmas.
  Context {A : Type}.
  Implicit Types m : list (bytes * A).

Definition key_lt (e e' : bytes * A) : Prop := lex_ltb e.1 e'.1 = true.

Definition map_ok m : Prop := StronglySorted key_lt m.

Lemma map_find_elem k v m : map_find k m = Some v → (k, v) ∈ m.
Proof.
  induction m as [|[k' v'] m IH]; simpl; [done|]. rewrite elem_of_cons.
  case_bool_decide; [intros; simplify_eq; by left|]. intros ?%IH. by right.
Qed.

Lemma map_ok_head k v m : map_ok ((k, v) :: m) → ∀ v', (k, v') ∉ m.
Proof.
  intros [_ H]%StronglySorted_inv v' Hin. rewrite Forall_forall in H.
  specialize (H _ Hin). unfold key_lt in H. simpl in H. by rewrite lex_ltb_irrefl in H.
Qed.

Lemma map_elem_find k v m : map_ok m → (k, v) ∈ m → map_find k m = Some v.
Proof.
  induction m as [|[k' v'] m IH]; intros Hm; [by intros ?%elem_of_nil|].
  rewrite elem_of_cons. simpl. intros [|Hin]; [simplify_eq; by rewrite bool_decide_true|].
  rewrite bool_decide_false; [by apply IH; [apply StronglySorted_inv in Hm as [? _]|]|].
  intros ->. by eapply map_ok_head.
Qed.

Lemma map_find_alter k k' f m :
  map_find k' (map_alter k f m)
  = if bool_decide (k = k') then f <$> map_find k' m else map_find k' m.
Proof.
  induction m as [|[k1 v1] m IH]; simpl; [by case_bool_decide|].
  rewrite IH. repeat (case_bool_decide; simpl); by simplify_eq.
Qed.

Lemma map_find_erase k k' m :
  map_find k' (map_erase k m) = if bool_decide (k = k') then None else map_find k' m.
Proof.
  unfold map_erase. induction m as [|[k1 v1] m IH]; simpl; [by case_bool_decide|].
  repeat (case_bool_decide; simpl in *); simplify_eq; try done.
Qed.

Lemma map_find_below k m : Forall (fun e => lex_ltb k e.1 = true) m → map_find k m = None.
Proof.
  induction m as [|[k1 v1] m IH]; [done|]. intros [H Hm]%Forall_cons. simpl in *.
  rewrite bool_decide_false; [by apply IH|]. intros ->. by rewrite lex_ltb_irrefl in H.
Qed.

Lemma map_find_emplace k k' v m :
  map_ok m →
  map_find k' (map_emplace k v m)
  = if bool_decide (k = k') then Some (default v (map_find k m)) else map_find k' m.
Proof.
  induction m as [|[k1 v1] m IH]; intros Hm; simpl.
  { repeat case_bool_decide; naive_solver. }
  apply StronglySorted_inv in Hm as [Hm Hlt].
  destruct (bool_decide (k = k1)) eqn:E1; [apply bool_decide_eq_true in E1 as ->|].
  { simpl. repeat case_bool_decide; naive_solver. }
  apply bool_decide_eq_false in E1.
  destruct (lex_ltb k k1) eqn:E2; simpl.
  - rewrite (map_find_below k m).
    { repeat case_bool_decide; naive_solver. }
    eapply Forall_impl; [exact Hlt|]. intros e He. by eapply lex_ltb_trans.
  - rewrite IH by done. repeat case_bool_decide; naive_solver.
Qed.

Lemma elem_of_map_emplace k v m e : e ∈ map_emplace k v m → e = (k, v) ∨ e ∈ m.
Proof.
  induction m as [|[k2 v2] m IH]; simpl; intros He.
  - apply list_elem_of_singleton in He. by left.
  - destruct (bool_decide _); [by right|]. destruct (lex_ltb k k2).
    + apply elem_of_cons in He as [->|?]; [by left|by right].
    + rewrite !elem_of_cons in *. naive_solver.
Qed.

Lemma map_ok_emplace k v m : map_ok m → map_ok (map_emplace k v m).
Proof.
  induction m as [|[k1 v1] m IH]; intros Hm; simpl.
  { repeat constructor. }
  destruct (bool_decide (k = k1)) eqn:E1; [done|]. apply bool_decide_eq_false in E1.
  pose proof Hm as [Hm' Hlt]%StronglySorted_inv. unfold key_lt in Hlt. simpl in Hlt.
  destruct (lex_ltb k k1) eqn:E2.
  - constructor; [done|]. constructor; [done|]. eapply Forall_impl; [exact Hlt|].
    intros e He. unfold key_lt. simpl. by eapply lex_ltb_trans.
  - constructor; [by apply IH|]. apply Forall_forall. intros e He. unfold key_lt. simpl.
    apply elem_of_map_emplace in He as [->|Hin].
    + simpl. by apply lex_ltb_total.
    + rewrite Forall_forall in Hlt. by apply Hlt.
Qed.

Lemma map_ok_erase k m : map_ok m → map_ok (map_erase k m).
Proof.
  unfold map_erase. induction m as [|e m IH]; intros Hm; simpl; [done|].
  apply StronglySorted_inv in Hm as [Hm Hlt]. destruct (negb _); [|by apply IH].
  constructor; [by apply IH|]. rewrite Forall_forall in *. intros e' He'.
  apply Hlt. apply list_elem_of_In in He'. apply filter_In in He' as [? _].
  by apply list_elem_of_In.
Qed.

Lemma map_ok_values (g : bytes * A → A) m :
  map_ok m → map_ok (map (fun e => (e.1, g e)) m).
Proof.
  induction 1 as [|e m Hm IH Hlt]; simpl; constructor; [done|].
  rewrite Forall_forall in *. intros e' (e1 & -> & Hin)%list_elem_of_fmap. exact (Hlt e1 Hin).
Qed.

Lemma map_ok_alter k f m : map_ok m → map_ok (map_alter k f m).
Proof.
  intros Hm. apply (map_ok_values (fun e => if bool_decide (k = e.1) then f e.2 else e.2)) in Hm.
  unfold map_alter. erewrite map_ext; [exact Hm|]. intros [k' v]. simpl. by case_bool_decide.
Qed.

Lemma map_find_assign k k' v m :
  map_ok m → map_find k' (map_assign k v m) = if bool_decide (k = k') then Some v else map_find k' m.
Proof.
  intros Hm. unfold map_assign. rewrite map_find_alter, map_find_emplace by done. by case_bool_decide.
Qed.

Lemma map_ok_assign k v m : map_ok m → map_ok (map_assign k v m).
Proof. intros Hm. by apply map_ok_alter, map_ok_emplace. Qed.

(** A map of its own order is what its elements build. *)
Lemma map_ok_find_elem k v m : map_ok m → map_find k m = Some v ↔ (k, v) ∈ m.
Proof. intros Hm. split; [apply map_find_elem|by apply map_elem_find]. Qed.

Lemma map_emplace_last k v m : Forall (fun e => lex_ltb e.1 k = true) m → map_emplace k v m = m ++ [(k, v)].
Proof.
  induction 1 as [|[k1 v1] m H _ IH]; simpl in *; [done|].
  rewrite bool_decide_false by (intros ->; by rewrite lex_ltb_irrefl in H).
  destruct (lex_ltb k k1) eqn:E; [|by rewrite IH].
  pose proof (lex_ltb_trans _ _ _ H E) as Hc. by rewrite lex_ltb_irrefl in Hc.
Qed.

(** Inserting the elements of a map in turn gives the map. *)
Lemma map_emplace_all m acc :
  map_ok (acc ++ m) → foldl (fun l e => map_emplace e.1 e.2 l) acc m = acc ++ m.
Proof.
  revert acc. induction m as [|[k v] m IH]; intros acc Hok; [by rewrite app_nil_r|]. cbn [foldl fst snd].
  rewrite map_emplace_last, IH; [by rewrite <- app_assoc|by rewrite <- app_assoc|].
  clear IH. induction acc as [|e acc IH]; [constructor|]. cbn [app] in Hok. apply StronglySorted_inv in Hok as [Hok Hall].
  constructor; [|by apply IH]. rewrite Forall_forall in Hall. apply (Hall (k, v)). apply elem_of_app. right. by left.
Qed.

End map_lemmas.
