(* ===== verification/Json.v ===== *)
(** * JSON values

    What the code uses of nlohmann::json: the values, the access to them with the exceptions that it
    throws, and the construction of objects.  The library's parser and printer are the class
    [JsonText].  The network map of the control server (control/client/NetworkMapParser.cpp) and the
    documents of the hosted protocol (hosted/Protocol.cpp) are read and written with it. *)

From Stdlib Require Import Sorted.
From stdpp Require Import countable.
From S2P Require Import Prelude Text StdMap.

(** ** Values

    A [JInt] is a signed or unsigned integer of 64 bits, and a [JFloat] any other number, with its
    integral part; that is all that the code reads of one.  The members of an object are in the
    order of their names. *)
Inductive json :=
  | JNull
  | JBool (b : bool)
  | JInt (n : Z)
  | JFloat (whole : Z)
  | JString (s : bytes)
  | JArray (l : list json)
  | JObject (l : list (bytes * json)).

(** The numbers of the library's exceptions. *)
Definition type_error_get : exn := JsonError 302.
Definition type_error_at : exn := JsonError 304.
Definition type_error_value : exn := JsonError 306.
Definition out_of_range_key : exn := JsonError 403.

Definition is_null (v : json) : bool := match v with JNull => true | _ => false end.
Definition is_string (v : json) : bool := match v with JString _ => true | _ => false end.
Definition is_boolean (v : json) : bool := match v with JBool _ => true | _ => false end.
Definition is_array (v : json) : bool := match v with JArray _ => true | _ => false end.
Definition is_object (v : json) : bool := match v with JObject _ => true | _ => false end.

(** [v.empty()] *)
Definition json_empty (v : json) : bool :=
  match v with JNull | JArray [] | JObject [] => true | _ => false end.

(** [v.find(name)], which finds nothing in a value that is not an object. *)
Definition json_find (name : bytes) (v : json) : option json :=
  match v with JObject l => map_find name l | _ => None end.

Definition json_contains (name : bytes) (v : json) : bool := bool_decide (is_Some (json_find name v)).

(** [v.at(name)] *)
Definition json_at (name : bytes) (v : json) : outcome json :=
  match v with
  | JObject l => match map_find name l with Some x => Ok x | None => Throw out_of_range_key end
  | _ => Throw type_error_at
  end.

(** The values of a [for] loop over [v]: a value that is neither an array, an object nor null is
    its own only element. *)
Definition json_elements (v : json) : list json :=
  match v with
  | JNull => []
  | JArray l => l
  | JObject l => map snd l
  | _ => [v]
  end.

(** [v.items()]: the names of the elements of an array are their indices. *)
Definition json_items (v : json) : list (bytes * json) :=
  match v with
  | JNull => []
  | JArray l => imap (fun i x => (format_dec (Z.of_nat i), x)) l
  | JObject l => l
  | _ => [([], v)]
  end.

(** ** [v.get<T>()] *)

Definition get_string (v : json) : outcome bytes :=
  match v with JString s => Ok s | _ => Throw type_error_get end.

Definition get_bool (v : json) : outcome bool :=
  match v with JBool b => Ok b | _ => Throw type_error_get end.

(** An integer type with the values between [low] and [high]: an integer is cast, which keeps it
    modulo the size of the type, and so is the integral part of another number, which is undefined
    when it does not fit.  A type that is none of the library's own number types reads a boolean. *)
Definition get_integer (low high : Z) (booleans : bool) (v : json) : outcome Z :=
  match v with
  | JInt n => Ok (low + (n - low) mod (high - low))
  | JFloat n => if (low <=? n) && (n <? high) then Ok n else UB
  | JBool b => if booleans then Ok (Z.b2z b) else Throw type_error_get
  | _ => Throw type_error_get
  end.

(** [std::uint64_t] is [unsigned long], a number type of the library, and [0ULL] is not. *)
Definition get_uint64 : json → outcome Z := get_integer 0 (2 ^ 64) false.
Definition get_ull : json → outcome Z := get_integer 0 (2 ^ 64) true.
Definition get_int : json → outcome Z := get_integer (- 2 ^ 31) (2 ^ 31) true.
Definition get_uint32 : json → outcome Z := get_integer 0 (2 ^ 32) true.
Definition get_uint8 : json → outcome Z := get_integer 0 (2 ^ 8) true.

Fixpoint try_map {A B} (f : A → outcome B) (l : list A) : outcome (list B) :=
  match l with
  | [] => Ok []
  | x :: l => let! y := f x in let! ys := try_map f l in Ok (y :: ys)
  end.

(** A loop whose body can throw, on the state that it carries. *)
Fixpoint ofold {A B} (f : B → A → outcome B) (b : B) (l : list A) : outcome B :=
  match l with
  | [] => Ok b
  | x :: l => let! b := f b x in ofold f b l
  end.

(** [v.get<std::vector<std::string>>()] *)
Definition get_strings (v : json) : outcome (list bytes) :=
  match v with JArray l => try_map get_string l | _ => Throw type_error_get end.

Definition get_json (v : json) : outcome json := Ok v.

(** [v.value(name, otherwise)] *)
Definition json_value {A} (get : json → outcome A) (name : bytes) (otherwise : A) (v : json) : outcome A :=
  match v with
  | JObject l => match map_find name l with Some x => get x | None => Ok otherwise end
  | _ => Throw type_error_value
  end.

(** ** Construction *)

(** An object from an initializer list. *)
Definition json_object (fields : list (bytes * json)) : json :=
  JObject (foldl (fun l e => map_emplace e.1 e.2 l) [] fields).

Definition json_strings (l : list bytes) : json := JArray (map JString l).

(** ** Parser and printer *)

(** Every text in the value is as [T] says, every number that is not an integer as [F] says, the
    integers have 64 bits, and the members of objects are in order. *)
Inductive json_ok (T : bytes → Prop) (F : Z → Prop) : json → Prop :=
  | ok_null : json_ok T F JNull
  | ok_bool b : json_ok T F (JBool b)
  | ok_int n : - 2 ^ 63 <= n < 2 ^ 64 → json_ok T F (JInt n)
  | ok_float n : F n → json_ok T F (JFloat n)
  | ok_string s : T s → json_ok T F (JString s)
  | ok_array l : Forall (json_ok T F) l → json_ok T F (JArray l)
  | ok_object l : map_ok l → Forall (fun e => T e.1 ∧ json_ok T F e.2) l → json_ok T F (JObject l).

(** No number is anything but an integer of 64 bits. *)
Definition whole_numbers : json → Prop := json_ok (fun _ => True) (fun _ => False).

Class JsonText := {
  json_parse : bytes → outcome json;
  json_dump : json → outcome bytes;
  (** The texts that can be printed. *)
  json_utf8 : bytes → Prop
}.

(** The parser and the printer return or throw; what is printed is parsed again; ASCII can be printed. *)
Class JsonTextLaws `{!JsonText} : Prop := {
  jt_parse : ∀ b, safe (json_parse b);
  jt_print : ∀ v, safe (json_dump v);
  jt_parsed : ∀ b v, json_parse b = Ok v → json_ok (fun _ => True) (fun _ => True) v;
  jt_ascii : ∀ s, Forall (fun c => 0 <= c < 128) s → json_utf8 s;
  jt_dump : ∀ v, json_ok json_utf8 (fun _ => False) v →
    ∃ b, json_dump v = Ok b ∧ b ≠ [] ∧ bytes_ok b ∧ json_parse b = Ok v
}.

(** ** Lemmas *)

Section ok.
  Context {T : bytes → Prop} {F : Z → Prop}.

Lemma json_find_ok name v x : json_ok T F v → json_find name v = Some x → json_ok T F x.
Proof.
  intros Hv Hf. destruct v; try done. inversion Hv as [| | | | | |? _ Hl]; subst.
  apply map_find_elem in Hf. rewrite Forall_forall in Hl. by apply (Hl (name, x)).
Qed.

Lemma json_at_find name v x : json_at name v = Ok x → json_find name v = Some x.
Proof. destruct v; try done. cbn. destruct (map_find name l); congruence. Qed.

Lemma json_at_ok name v x : json_ok T F v → json_at name v = Ok x → json_ok T F x.
Proof. intros Hv Ha%json_at_find. by eapply json_find_ok. Qed.

Lemma json_elements_ok v : json_ok T F v → Forall (json_ok T F) (json_elements v).
Proof.
  intros Hv. destruct v; cbn; try (by apply Forall_singleton); [constructor|..].
  - inversion Hv; subst; done.
  - inversion Hv as [| | | | | |? _ Hl]; subst. apply Forall_map. eapply Forall_impl; [exact Hl|]. by intros ? [_ ?].
Qed.

Lemma json_items_ok v : json_ok T F v → Forall (fun e => json_ok T F e.2) (json_items v).
Proof.
  intros Hv. destruct v; cbn; try (by apply Forall_singleton); [constructor|..].
  - inversion Hv as [| | | | |? Hl|]; subst. apply Forall_forall. intros e (i & x & -> & Hx)%elem_of_lookup_imap.
    by eapply (Forall_lookup_1 _ _ _ _ Hl).
  - inversion Hv as [| | | | | |? _ Hl]; subst. eapply Forall_impl; [exact Hl|]. by intros ? [_ ?].
Qed.

End ok.

Lemma safe_try_map {A B} (f : A → outcome B) l : Forall (fun x => safe (f x)) l → safe (try_map f l).
Proof.
  induction 1 as [|x l Hx _ IH]; cbn; [done|]. apply safe_obind; [done|]. intros y _.
  apply safe_obind; [done|]. by intros ys _.
Qed.

Lemma safe_ofold {A B} (f : B → A → outcome B) l b : (∀ b x, x ∈ l → safe (f b x)) → safe (ofold f b l).
Proof.
  revert b. induction l as [|x l IH]; intros b Hf; cbn; [done|]. apply safe_obind; [apply Hf; by left|].
  intros b' _. apply IH. intros b'' y Hy. apply Hf. by right.
Qed.

Lemma ofold_inv {A B} (P : B → Prop) (f : B → A → outcome B) l b b' :
  (∀ b x b', P b → x ∈ l → f b x = Ok b' → P b') → P b → ofold f b l = Ok b' → P b'.
Proof.
  revert b. induction l as [|x l IH]; intros b Hf Hb Hr; cbn in Hr; [by injection Hr as <-|].
  apply obind_Ok_inv in Hr as (b1 & Hb1 & Hr). apply (IH b1); [|by apply (Hf b x); [|left|]|done].
  intros c y c' Hc Hy. apply Hf; [done|by right].
Qed.

Lemma safe_get_string v : safe (get_string v).
Proof. by destruct v. Qed.

Lemma safe_get_bool v : safe (get_bool v).
Proof. by destruct v. Qed.

Lemma safe_get_strings v : safe (get_strings v).
Proof. destruct v; try done. apply safe_try_map, Forall_true. apply safe_get_string. Qed.

Lemma safe_get_integer low high booleans v : whole_numbers v → safe (get_integer low high booleans v).
Proof. intros Hv. inversion Hv; subst; cbn; try done. by destruct booleans. Qed.

Lemma safe_json_at name v : safe (json_at name v).
Proof. destruct v; try done. cbn. by destruct (map_find name l). Qed.

Lemma safe_json_value {A} (get : json → outcome A) name otherwise v :
  (∀ x, json_find name v = Some x → safe (get x)) → safe (json_value get name otherwise v).
Proof. intros Hg. destruct v; try done. cbn in *. destruct (map_find name l); [by apply Hg|done]. Qed.

Lemma safe_value_string name otherwise v : safe (json_value get_string name otherwise v).
Proof. apply safe_json_value. intros x _. apply safe_get_string. Qed.

Lemma safe_value_bool name otherwise v : safe (json_value get_bool name otherwise v).
Proof. apply safe_json_value. intros x _. apply safe_get_bool. Qed.

Lemma safe_value_strings name otherwise v : safe (json_value get_strings name otherwise v).
Proof. apply safe_json_value. intros x _. apply safe_get_strings. Qed.

Lemma safe_value_integer low high booleans name otherwise v :
  whole_numbers v → safe (json_value (get_integer low high booleans) name otherwise v).
Proof. intros Hv. apply safe_json_value. intros x Hx. by eapply safe_get_integer, json_find_ok. Qed.

Lemma safe_value_json name otherwise v : safe (json_value get_json name otherwise v).
Proof. apply safe_json_value. by intros x _. Qed.

Create HintDb json.
#[export] Hint Resolve safe_get_string safe_get_bool safe_get_strings safe_get_integer safe_json_at
  safe_value_string safe_value_bool safe_value_strings safe_value_integer safe_value_json : json.

(** The first of the fields with that name. *)
Lemma json_find_object name fields :
  json_find name (json_object fields) = map_find name fields.
Proof.
  cbn. assert (∀ l, map_ok l → map_find name (foldl (fun l e => map_emplace e.1 e.2 l) l fields)
    = match map_find name l with Some x => Some x | None => map_find name fields end) as H.
  { induction fields as [|[k v] fields IH]; intros l Hl; cbn [foldl map_find fst snd]; [by destruct (map_find name l)|].
    rewrite IH by (by apply map_ok_emplace). rewrite map_find_emplace by done.
    case_bool_decide as Hk; [|rewrite bool_decide_false by congruence; done].
    subst k. rewrite bool_decide_true by done. by destruct (map_find name l). }
  rewrite H; [done|constructor].
Qed.

Lemma json_object_ok T F fields :
  Forall (fun e => T e.1 ∧ json_ok T F e.2) fields → json_ok T F (json_object fields).
Proof.
  intros Hf. unfold json_object.
  assert (∀ l, map_ok l → Forall (fun e => T e.1 ∧ json_ok T F e.2) l →
    let l' := foldl (fun l e => map_emplace e.1 e.2 l) l fields in
    map_ok l' ∧ Forall (fun e => T e.1 ∧ json_ok T F e.2) l') as H.
  { induction Hf as [|e fields He _ IH]; intros l Hl Hok; [done|]. cbn [foldl]. apply IH; [by apply map_ok_emplace|].
    apply Forall_forall. intros x [->|Hx]%elem_of_map_emplace; [done|]. rewrite Forall_forall in Hok. by apply Hok. }
  destruct (H [] ltac:(constructor) ltac:(constructor)). by constructor.
Qed.

(** ** A parser and a printer with the laws

    A value is written in prefix form, a number by its bits, and an item of a text, an array or an
    object behind a mark. *)

Lemma json_nested (P : json → Prop) :
  P JNull → (∀ b, P (JBool b)) → (∀ n, P (JInt n)) → (∀ n, P (JFloat n)) → (∀ s, P (JString s)) →
  (∀ l, Forall P l → P (JArray l)) → (∀ l, Forall (fun e => P e.2) l → P (JObject l)) → ∀ v, P v.
Proof.
  intros Hn Hb Hi Hf Hs Ha Ho. fix go 1. intros [|b|n|n|s|l|l]; [exact Hn|apply Hb|apply Hi|apply Hf|apply Hs| |].
  - apply Ha. induction l as [|x l IH]; constructor; [apply go|exact IH].
  - apply Ho. induction l as [|x l IH]; constructor; [apply go|exact IH].
Qed.

Fixpoint no_floats (v : json) : bool :=
  match v with
  | JFloat _ => false
  | JArray l => forallb no_floats l
  | JObject l => forallb (fun e => no_floats e.2) l
  | _ => true
  end.

Lemma no_floats_whole T F v : json_ok T F v → no_floats v = true → whole_numbers v.
Proof.
  induction v as [|b|n|n|s|l IH|l IH] using json_nested; intros Hv Hn; cbn [no_floats] in Hn; try done.
  - constructor.
  - constructor.
  - inversion Hv. by constructor.
  - by constructor.
  - inversion Hv as [| | | | |? Hl|]; subst. constructor. apply Is_true_true, forallb_True in Hn.
    rewrite Forall_forall in *. intros x Hx. apply IH; auto. by apply Is_true_true, Hn.
  - inversion Hv as [| | | | | |? Hm Hl]; subst. constructor; [done|]. apply Is_true_true, forallb_True in Hn.
    rewrite Forall_forall in *. intros x Hx. split; [done|]. destruct (Hl x Hx). apply IH; auto. by apply Is_true_true, Hn.
Qed.

Fixpoint json_norm (v : json) : json :=
  match v with
  | JInt n => JInt (if bool_decide (- 2 ^ 63 <= n < 2 ^ 64) then n else 0)
  | JArray l => JArray (map json_norm l)
  | JObject l => json_object (map (fun e => (e.1, json_norm e.2)) l)
  | _ => v
  end.

Lemma json_norm_ok v : json_ok (fun _ => True) (fun _ => True) (json_norm v).
Proof.
  induction v as [|b|n|n|s|l IH|l IH] using json_nested; cbn [json_norm]; try (by constructor).
  - constructor. case_bool_decide; [done|lia].
  - constructor. by apply Forall_map.
  - apply json_object_ok, Forall_map. eapply Forall_impl; [exact IH|]. done.
Qed.

Lemma json_norm_id T F v : json_ok T F v → json_norm v = v.
Proof.
  induction v as [|b|n|n|s|l IH|l IH] using json_nested; intros Hv; cbn [json_norm]; try done.
  - inversion Hv. by rewrite bool_decide_true.
  - f_equal. inversion Hv as [| | | | |? Hl|]; subst. clear Hv. induction Hl as [|x l Hx _ IHl]; [done|].
    apply Forall_cons in IH as [IHx IH]. cbn. by rewrite IHx, IHl.
  - inversion Hv as [| | | | | |? Hs Hl]; subst. clear Hv. unfold json_object. f_equal.
    assert (map (fun e => (e.1, json_norm e.2)) l = l) as ->.
    { clear Hs. induction Hl as [|[k x] l [_ Hx] _ IHl]; [done|]. apply Forall_cons in IH as [IHx IH].
      cbn in *. by rewrite IHx, IHl. }
    by rewrite map_emplace_all.
Qed.

Fixpoint number_bits (p : positive) : bytes :=
  match p with xH => [2] | xO p => 0 :: number_bits p | xI p => 1 :: number_bits p end.

Fixpoint unbits (l : bytes) : option (positive * bytes) :=
  match l with
  | 2 :: l => Some (xH, l)
  | 0 :: l => match unbits l with Some (p, l) => Some (xO p, l) | None => None end
  | 1 :: l => match unbits l with Some (p, l) => Some (xI p, l) | None => None end
  | _ => None
  end.

Lemma unbits_bits p rest : unbits (number_bits p ++ rest) = Some (p, rest).
Proof. induction p as [p IH|p IH|]; cbn; by rewrite ?IH. Qed.

Definition print_number (n : Z) : bytes := number_bits (encode n).

Definition parse_number (l : bytes) : option (Z * bytes) :=
  match unbits l with
  | Some (p, l) => match decode p with Some n => Some (n, l) | None => None end
  | None => None
  end.

Lemma parse_print_number n rest : parse_number (print_number n ++ rest) = Some (n, rest).
Proof. unfold parse_number, print_number. by rewrite unbits_bits, decode_encode. Qed.

Section items.
  Context {A : Type} (print : A → bytes) (parse : bytes → option (A * bytes)).

Fixpoint print_items (l : list A) : bytes :=
  match l with
  | [] => [0]
  | x :: l => 1 :: print x ++ print_items l
  end.

Fixpoint parse_items (fuel : nat) (b : bytes) : option (list A * bytes) :=
  match fuel, b with
  | S fuel, 1 :: b =>
      match parse b with
      | Some (x, b) => match parse_items fuel b with Some (l, b) => Some (x :: l, b) | None => None end
      | None => None
      end
  | S _, 0 :: b => Some ([], b)
  | _, _ => None
  end.

Lemma parse_print_items l rest fuel :
  Forall (fun x => ∀ rest, parse (print x ++ rest) = Some (x, rest)) l → (length (print_items l) <= fuel)%nat →
  parse_items fuel (print_items l ++ rest) = Some (l, rest).
Proof.
  intros Hl. revert fuel. induction Hl as [|x l Hx _ IH]; intros [|fuel] Hf; cbn in *; try lia; [done|].
  rewrite <- app_assoc, Hx, IH; [done|]. rewrite length_app in Hf. lia.
Qed.

Lemma print_items_item x l : x ∈ l → (length (print x) < length (print_items l))%nat.
Proof.
  induction 1 as [x l|x y l _ IH]; cbn [print_items length]; rewrite length_app; lia.
Qed.

End items.

Definition print_text (s : bytes) : bytes := print_items print_number s.
Definition parse_text (b : bytes) : option (bytes * bytes) := parse_items parse_number (length b) b.

Lemma parse_print_text s rest : parse_text (print_text s ++ rest) = Some (s, rest).
Proof.
  apply parse_print_items; [apply Forall_true; apply parse_print_number|]. rewrite length_app. unfold print_text. lia.
Qed.

Fixpoint print_json (v : json) : bytes :=
  match v with
  | JNull => [0]
  | JBool b => [if b then 1 else 2]
  | JInt n => 3 :: print_number n
  | JFloat n => 4 :: print_number n
  | JString s => 5 :: print_text s
  | JArray l => 6 :: print_items print_json l
  | JObject l => 7 :: print_items (fun e => print_text e.1 ++ print_json e.2) l
  end.

(** A name and a value. *)
Definition parse_member (parse : bytes → option (json * bytes)) (b : bytes) : option (bytes * json * bytes) :=
  match parse_text b with
  | Some (k, b) => match parse b with Some (v, b) => Some (k, v, b) | None => None end
  | None => None
  end.

Definition parsed_as {A} (f : A → json) (r : option (A * bytes)) : option (json * bytes) :=
  match r with Some (x, b) => Some (f x, b) | None => None end.

Fixpoint parse_value (fuel : nat) (b : bytes) : option (json * bytes) :=
  match fuel, b with
  | S _, 0 :: b => Some (JNull, b)
  | S _, 1 :: b => Some (JBool true, b)
  | S _, 2 :: b => Some (JBool false, b)
  | S _, 3 :: b => parsed_as JInt (parse_number b)
  | S _, 4 :: b => parsed_as JFloat (parse_number b)
  | S _, 5 :: b => parsed_as JString (parse_text b)
  | S fuel, 6 :: b => parsed_as JArray (parse_items (parse_value fuel) fuel b)
  | S fuel, 7 :: b => parsed_as JObject (parse_items (parse_member (parse_value fuel)) fuel b)
  | _, _ => None
  end.

Lemma parse_print_json v fuel rest :
  (length (print_json v) <= fuel)%nat → parse_value fuel (print_json v ++ rest) = Some (v, rest).
Proof.
  revert fuel rest. induction v as [|b|n|n|s|l IH|l IH] using json_nested;
    intros [|fuel] rest Hf; cbn [print_json length] in Hf; try lia; cbn [print_json app parse_value]; try done.
  - by destruct b.
  - by rewrite parse_print_number.
  - by rewrite parse_print_number.
  - by rewrite parse_print_text.
  - rewrite parse_print_items; [done| |lia]. rewrite Forall_forall in *. intros x Hx r. apply IH; [done|].
    pose proof (print_items_item print_json x l Hx). lia.
  - rewrite parse_print_items; [done| |lia]. rewrite Forall_forall in *. intros [k x] Hx r.
    unfold parse_member. cbn [fst snd]. rewrite <- app_assoc, parse_print_text. specialize (IH (k, x) Hx). cbn [snd] in IH.
    rewrite IH; [done|]. pose proof (print_items_item (fun e => print_text e.1 ++ print_json e.2) (k, x) l Hx) as Hi.
    cbn [fst snd] in Hi. rewrite length_app in Hi. lia.
Qed.

Lemma bytes_ok_bits p : bytes_ok (number_bits p).
Proof. induction p; cbn; repeat constructor; try done. Qed.

Lemma bytes_ok_items {A} (print : A → bytes) l : Forall (fun x => bytes_ok (print x)) l → bytes_ok (print_items print l).
Proof.
  induction 1 as [|x l Hx _ IH]; cbn; [by repeat constructor|]. constructor; [done|]. by apply Forall_app.
Qed.

Lemma bytes_ok_text s : bytes_ok (print_text s).
Proof. apply bytes_ok_items, Forall_true. intros c. apply bytes_ok_bits. Qed.

Lemma bytes_ok_json v : bytes_ok (print_json v).
Proof.
  induction v as [|b|n|n|s|l IH|l IH] using json_nested; cbn [print_json]; (constructor; [by repeat case_match|]);
    try apply bytes_ok_bits; try apply bytes_ok_text; try by constructor.
  - by apply bytes_ok_items.
  - apply bytes_ok_items. eapply Forall_impl; [exact IH|]. intros e He. apply Forall_app. split; [apply bytes_ok_text|done].
Qed.

#[export] Instance demo_json : JsonText := {
  json_parse b := match parse_value (length b) b with
                  | Some (v, []) => Ok (json_norm v)
                  | _ => Throw (JsonError 101)
                  end;
  json_dump v := Ok (print_json v);
  json_utf8 s := True
}.

Lemma demo_parse_print T F v : json_ok T F v → json_parse (print_json v) = Ok v.
Proof.
  intros Hv. cbn [json_parse demo_json].
  pose proof (parse_print_json v (length (print_json v)) [] (le_n _)) as Hp. rewrite app_nil_r in Hp.
  by rewrite Hp, (json_norm_id _ _ _ Hv).
Qed.

#[export] Instance demo_json_laws : JsonTextLaws.
Proof.
  split; cbn [json_parse json_dump json_utf8 demo_json].
  - intros b. by destruct (parse_value _ _) as [[? []]|].
  - done.
  - intros b v Hp. destruct (parse_value _ _) as [[? []]|]; [|done|done]. injection Hp as <-. apply json_norm_ok.
  - done.
  - intros v Hv. eexists. split; [done|]. split; [by destruct v as [|[]| | | | |]|split; [apply bytes_ok_json|]].
    by eapply demo_parse_print.
Qed.
