(* ===== verification/Net.v ===== *)
(** * Network addresses

    [Ipv4Address], [Endpoint], [IpAddress] and [IpRange] of
    include/tailgate/net/ and src/core/net/.  IPv6 text is parsed by lwIP
    ([ip6addr_aton]), a parameter of the model. *)

From S2P Require Import Prelude Text.

(** ** Ipv4Address *)

Record Ipv4Address := { ip4_value : Z }.

#[export] Instance Ipv4Address_eq_dec : EqDecision Ipv4Address.
Proof. solve_decision. Defined.

(** The arguments are bytes, so no bit is shifted out of the 32. *)
Definition Ipv4Address_FromOctets (first second third fourth : Z) : Ipv4Address :=
  {| ip4_value := Z.lor (Z.lor (Z.lor (Z.shiftl first 24) (Z.shiftl second 16))
                           (Z.shiftl third 8)) fourth |}.

Definition Ipv4Address_FromHostOrder (value : Z) : Ipv4Address := {| ip4_value := value |}.

Definition Ipv4Address_HostOrder (a : Ipv4Address) : Z := ip4_value a.

Definition Ipv4Address_Octets (a : Ipv4Address) : bytes :=
  [u8 (Z.shiftr (ip4_value a) 24); u8 (Z.shiftr (ip4_value a) 16);
   u8 (Z.shiftr (ip4_value a) 8); u8 (ip4_value a)].

Definition Ipv4Address_IsPrivate (a : Ipv4Address) : bool :=
  let masked mask := Z.land (ip4_value a) (ip4_value mask) in
  (masked (Ipv4Address_FromOctets 255 0 0 0)
     =? ip4_value (Ipv4Address_FromOctets 10 0 0 0))
  || (masked (Ipv4Address_FromOctets 255 240 0 0)
     =? ip4_value (Ipv4Address_FromOctets 172 16 0 0))
  || (masked (Ipv4Address_FromOctets 255 255 0 0)
     =? ip4_value (Ipv4Address_FromOctets 192 168 0 0)).

(** The loop of [TryParse]: [todo] iterations left at [index], the scan at
    [start]. *)
Fixpoint Ipv4Address_parse_octets (text : bytes) (todo : nat) (index : Z)
    (start : nat) (octets : bytes) : option bytes :=
  match todo with
  | O => Some octets
  | S todo' =>
      let stop := Nat.add start <$> find_char chr_dot (drop start text) in
      if Bool.eqb (index + 1 <? 4) (bool_decide (stop ≠ None)) then
        let component :=
          match stop with
          | Some e => take (e - start) (drop start text)
          | None => drop start text
          end in
        match parse_unsigned component with
        | Some value =>
            if 255 <? value then None
            else Ipv4Address_parse_octets text todo' (index + 1)
                   (match stop with Some e => S e | None => length text end)
                   (octets ++ [u8 value])
        | None => None
        end
      else None
  end.

Definition Ipv4Address_TryParse (text : bytes) : option Ipv4Address :=
  match Ipv4Address_parse_octets text 4 0 0 [] with
  | Some [a; b; c; d] => Some (Ipv4Address_FromOctets a b c d)
  | _ => None
  end.

Definition Ipv4Address_Parse (text : bytes) : outcome Ipv4Address :=
  match Ipv4Address_TryParse text with
  | Some a => Ok a
  | None => Throw (ParseError "invalid IPv4 address")
  end.

Definition Ipv4Address_ToString (a : Ipv4Address) : bytes :=
  match Ipv4Address_Octets a with
  | [o0; o1; o2; o3] =>
      format_dec o0 ++ chr_dot :: format_dec o1 ++ chr_dot ::
      format_dec o2 ++ chr_dot :: format_dec o3
  | _ => []
  end.

Definition Ipv4Address_ok (a : Ipv4Address) : Prop := in_width 32 (ip4_value a).

(** *** Octets *)

Lemma FromOctets_be a b c d :
  ip4_value (Ipv4Address_FromOctets a b c d) = be_decode [a; b; c; d].
Proof.
  unfold be_decode. simpl. rewrite !Z.shiftl_lor, !Z.shiftl_shiftl by lia. done.
Qed.

Lemma Octets_be a : Ipv4Address_Octets a = be_encode 4 (ip4_value a).
Proof. done. Qed.

Lemma FromOctets_ok a b c d :
  bytes_ok [a; b; c; d] → Ipv4Address_ok (Ipv4Address_FromOctets a b c d).
Proof.
  intros H. unfold Ipv4Address_ok. rewrite FromOctets_be. by apply be_decode_range in H.
Qed.

Lemma Octets_FromOctets a b c d :
  bytes_ok [a; b; c; d] →
  Ipv4Address_Octets (Ipv4Address_FromOctets a b c d) = [a; b; c; d].
Proof.
  intros H. rewrite Octets_be, FromOctets_be. by apply (be_encode_decode [a; b; c; d]).
Qed.

Lemma FromOctets_Octets a :
  Ipv4Address_ok a →
  match Ipv4Address_Octets a with
  | [o0; o1; o2; o3] => Ipv4Address_FromOctets o0 o1 o2 o3 = a
  | _ => False
  end.
Proof.
  intros Ha. destruct a as [v]. simpl.
  match goal with |- ?x = _ => destruct x as [w] eqn:E end.
  apply (f_equal ip4_value) in E. rewrite FromOctets_be in E. simpl in E. f_equal.
  rewrite <- E. change (be_decode (be_encode 4 v) = v). rewrite be_decode_encode.
  by apply Z.mod_small.
Qed.

(** *** Dotted decimal text *)

(** A decimal number of at most 255, with any number of leading zeros. *)
Definition octet_text (c : bytes) : Prop :=
  c ≠ [] ∧ all_digits c ∧ digits_val c <= 255.

Lemma digits_from_nonneg acc l : 0 <= acc → all_digits l → 0 <= digits_from acc l.
Proof.
  intros Hacc Hl. revert acc Hacc. induction Hl as [|b l Hb Hl IH]; intros acc Hacc; [done|].
  unfold is_digit in Hb. apply IH. lia.
Qed.

Lemma octet_text_parse c :
  octet_text c ↔ ∃ v, parse_unsigned c = Some v ∧ (255 <? v) = false.
Proof.
  unfold octet_text. setoid_rewrite parse_unsigned_spec. split.
  - intros (? & ? & ?). exists (digits_val c). split_and!; [done..|lia|lia].
  - intros (v & (? & ? & -> & ?) & ?). split_and!; [done..|lia].
Qed.

Lemma octet_text_u8 c : octet_text c → u8 (digits_val c) = digits_val c.
Proof.
  intros (_ & Hd & Hv). apply wrap_id. split; [by apply digits_from_nonneg|lia].
Qed.

Lemma octet_text_no_dot c : octet_text c → chr_dot ∉ c.
Proof. intros (_ & Hd & _). by apply (digits_not_elem _ _ Hd). Qed.

(** One iteration of the loop, on the text that is left. *)
Lemma parse_octets_step pre rest todo index octs r :
  Ipv4Address_parse_octets (pre ++ rest) (S todo) index (length pre) octs = Some r ↔
  if index + 1 <? 4 then
    ∃ c rest', rest = c ++ chr_dot :: rest' ∧ octet_text c ∧
      Ipv4Address_parse_octets ((pre ++ c ++ [chr_dot]) ++ rest') todo (index + 1)
        (length (pre ++ c ++ [chr_dot])) (octs ++ [digits_val c]) = Some r
  else
    octet_text rest ∧
    Ipv4Address_parse_octets (pre ++ rest) todo (index + 1)
      (length (pre ++ rest)) (octs ++ [digits_val rest]) = Some r.
Proof.
  cbn [Ipv4Address_parse_octets]. rewrite drop_app_length. split.
  - destruct (find_char chr_dot rest) as [i|] eqn:Hfind; simpl.
    + destruct (index + 1 <? 4); simpl; [|done].
      replace (length pre + i - length pre)%nat with i by lia.
      destruct (find_char_Some _ _ _ Hfind) as [Hrest Hnot].
      destruct (parse_unsigned (take i rest)) as [v|] eqn:Hp; [|done].
      destruct (255 <? v) eqn:Hv; [done|]. intros Hr.
      assert (octet_text (take i rest)) as Hoct by (apply octet_text_parse; eauto).
      exists (take i rest), (drop (S i) rest). split_and!; [done..|].
      apply parse_unsigned_spec in Hp as (_ & _ & -> & _).
      rewrite octet_text_u8 in Hr by done.
      rewrite <- app_assoc, <- app_assoc. simpl. rewrite <- Hrest.
      pose proof (find_char_lt _ _ _ Hfind) as Hlt.
      rewrite !length_app, length_take. simpl.
      replace (length pre + (i `min` length rest + 1))%nat with (S (length pre + i)) by lia.
      done.
    + destruct (index + 1 <? 4); simpl; [done|].
      destruct (parse_unsigned rest) as [v|] eqn:Hp; [|done].
      destruct (255 <? v) eqn:Hv; [done|]. intros Hr.
      assert (octet_text rest) as Hoct by (apply octet_text_parse; eauto).
      split; [done|]. apply parse_unsigned_spec in Hp as (_ & _ & -> & _).
      by rewrite octet_text_u8 in Hr.
  - destruct (index + 1 <? 4).
    + intros (c & rest' & -> & Hoct & Hr).
      rewrite find_char_app by (by apply octet_text_no_dot). simpl.
      replace (length pre + length c - length pre)%nat with (length c) by lia.
      rewrite take_app_length.
      destruct (proj1 (octet_text_parse c) Hoct) as (v & Hp & Hv). rewrite Hp, Hv.
      apply parse_unsigned_spec in Hp as (_ & _ & -> & _). rewrite octet_text_u8 by done.
      rewrite <- app_assoc, <- app_assoc in Hr. simpl in Hr. rewrite !length_app in Hr.
      simpl in Hr.
      replace (length pre + (length c + 1))%nat with (S (length pre + length c)) in Hr by lia.
      done.
    + intros (Hoct & Hr).
      rewrite (proj2 (find_char_None _ _)) by (by apply octet_text_no_dot). simpl.
      destruct (proj1 (octet_text_parse rest) Hoct) as (v & Hp & Hv). rewrite Hp, Hv.
      apply parse_unsigned_spec in Hp as (_ & _ & -> & _). by rewrite octet_text_u8.
Qed.

(** The accepted texts: four octets separated by single dots. *)
Lemma parse_octets_spec text r :
  Ipv4Address_parse_octets text 4 0 0 [] = Some r ↔
  ∃ c0 c1 c2 c3, Forall octet_text [c0; c1; c2; c3] ∧
    text = c0 ++ chr_dot :: c1 ++ chr_dot :: c2 ++ chr_dot :: c3 ∧
    r = [digits_val c0; digits_val c1; digits_val c2; digits_val c3].
Proof.
  split.
  - intros H. apply (parse_octets_step []) in H as (c0 & r0 & -> & H0 & H).
    apply parse_octets_step in H as (c1 & r1 & -> & H1 & H).
    apply parse_octets_step in H as (c2 & r2 & -> & H2 & H).
    apply parse_octets_step in H as (H3 & H). simpl in H. simplify_eq.
    exists c0, c1, c2, r2. split_and!; [by forall_intro|done..].
  - intros (c0 & c1 & c2 & c3 & Hf & -> & ->).
    forall_elim Hf.
    apply (parse_octets_step []). exists c0; eexists. split_and!; [done..|].
    apply parse_octets_step. exists c1; eexists. split_and!; [done..|].
    apply parse_octets_step. exists c2; eexists. split_and!; [done..|].
    by apply parse_octets_step.
Qed.

Lemma TryParse_spec text a :
  Ipv4Address_TryParse text = Some a ↔
  ∃ c0 c1 c2 c3, Forall octet_text [c0; c1; c2; c3] ∧
    text = c0 ++ chr_dot :: c1 ++ chr_dot :: c2 ++ chr_dot :: c3 ∧
    a = Ipv4Address_FromOctets (digits_val c0) (digits_val c1) (digits_val c2) (digits_val c3).
Proof.
  unfold Ipv4Address_TryParse. split.
  - destruct (Ipv4Address_parse_octets text 4 0 0 []) as [r|] eqn:H; [|done].
    apply parse_octets_spec in H as (c0 & c1 & c2 & c3 & Hf & -> & ->).
    intros; simplify_eq. exists c0, c1, c2, c3. done.
  - intros (c0 & c1 & c2 & c3 & Hf & -> & ->).
    by rewrite (proj2 (parse_octets_spec _ [_; _; _; _])) by (exists c0, c1, c2, c3; done).
Qed.

Lemma octet_text_format b : in_width 8 b → octet_text (format_dec b).
Proof.
  unfold in_width. intros Hb. destruct (format_dec_spec b) as (? & ? & Hv); [lia|].
  split_and!; [done..|]. rewrite Hv. lia.
Qed.

Lemma TryParse_ToString a :
  Ipv4Address_ok a → Ipv4Address_TryParse (Ipv4Address_ToString a) = Some a.
Proof.
  intros Ha. pose proof (FromOctets_Octets a Ha) as Hoct.
  pose proof (bytes_ok_be_encode 4 (ip4_value a)) as Hok. rewrite <- Octets_be in Hok.
  unfold Ipv4Address_ToString.
  destruct (Ipv4Address_Octets a) as [|o0 [|o1 [|o2 [|o3 [|]]]]] eqn:E; try done.
  apply TryParse_spec. exists (format_dec o0), (format_dec o1), (format_dec o2), (format_dec o3).
  assert (∀ o, o ∈ [o0; o1; o2; o3] → octet_text (format_dec o) ∧ digits_val (format_dec o) = o)
    as Ho.
  { intros o Hin. rewrite Forall_forall in Hok. specialize (Hok o Hin).
    split; [by apply octet_text_format|]. unfold in_width in Hok.
    apply format_dec_spec. lia. }
  split_and!; [|done|].
  - forall_intro; apply Ho; set_solver.
  - rewrite <- Hoct. f_equal; symmetry; apply Ho; set_solver.
Qed.

Lemma TryParse_ok text a : Ipv4Address_TryParse text = Some a → Ipv4Address_ok a.
Proof.
  intros (c0 & c1 & c2 & c3 & Hf & _ & ->)%TryParse_spec. apply FromOctets_ok.
  assert (∀ c, octet_text c → in_width 8 (digits_val c)) as Hin.
  { intros c (? & ? & ?). split; [by apply digits_from_nonneg|lia]. }
  forall_elim Hf. forall_intro; by apply Hin.
Qed.

(** ** Endpoint *)

Record Endpoint := { ep_address : Ipv4Address; ep_port : Z }.

#[export] Instance Endpoint_eq_dec : EqDecision Endpoint.
Proof. solve_decision. Defined.

Definition Endpoint_TryParse (text : bytes) : option Endpoint :=
  match rfind_char chr_colon text with
  | None => None
  | Some separator =>
      match Ipv4Address_TryParse (take separator text),
            parse_unsigned (drop (S separator) text) with
      | Some address, Some port =>
          if 65535 <? port then None
          else Some {| ep_address := address; ep_port := u16 port |}
      | _, _ => None
      end
  end.

Definition Endpoint_Parse (text : bytes) : outcome Endpoint :=
  match Endpoint_TryParse text with
  | Some e => Ok e
  | None => Throw (ParseError "invalid IPv4 endpoint")
  end.

Definition Endpoint_ToString (e : Endpoint) : bytes :=
  Ipv4Address_ToString (ep_address e) ++ chr_colon :: format_dec (ep_port e).

Definition Endpoint_ok (e : Endpoint) : Prop :=
  Ipv4Address_ok (ep_address e) ∧ in_width 16 (ep_port e).

Lemma Endpoint_TryParse_ToString e :
  Endpoint_ok e → Endpoint_TryParse (Endpoint_ToString e) = Some e.
Proof.
  destruct e as [a p]. intros [Ha Hp]. unfold in_width in Hp. cbn [ep_address ep_port] in *.
  unfold Endpoint_TryParse, Endpoint_ToString. cbn [ep_address ep_port].
  destruct (format_dec_spec p) as (Hd & _ & _); [lia|].
  rewrite rfind_char_app by (by apply (digits_not_elem _ _ Hd)).
  rewrite take_app_length, TryParse_ToString by done.
  rewrite drop_app_cons, parse_format_dec by lia. rewrite (proj2 (Z.ltb_ge _ _)) by lia.
  by rewrite wrap_id.
Qed.

Lemma Endpoint_TryParse_ok text e : Endpoint_TryParse text = Some e → Endpoint_ok e.
Proof.
  unfold Endpoint_TryParse. intros H. repeat case_match; simplify_eq.
  split; simpl; [by eapply TryParse_ok|by apply wrap_range].
Qed.

(** ** IpAddress *)

Inductive AddressFamily := Family_Ipv4 | Family_Ipv6.

#[export] Instance AddressFamily_eq_dec : EqDecision AddressFamily.
Proof. solve_decision. Defined.

Record IpAddress := { ia_family : AddressFamily; ia_bytes : bytes }.

#[export] Instance IpAddress_eq_dec : EqDecision IpAddress.
Proof. solve_decision. Defined.

Definition IpAddress_default : IpAddress :=
  {| ia_family := Family_Ipv4; ia_bytes := replicate 16 0 |}.

Definition IpAddress_of_Ipv4 (a : Ipv4Address) : IpAddress :=
  {| ia_family := Family_Ipv4; ia_bytes := Ipv4Address_Octets a ++ replicate 12 0 |}.

Definition IpAddress_FromIpv6 (b : bytes) : IpAddress :=
  {| ia_family := Family_Ipv6; ia_bytes := b |}.

Definition IpAddress_Bytes (a : IpAddress) : bytes :=
  take (match ia_family a with Family_Ipv4 => 4 | Family_Ipv6 => 16 end) (ia_bytes a).

Definition IpAddress_IsUnspecified (a : IpAddress) : bool :=
  forallb (fun b => b =? 0) (ia_bytes a).

(** Sixteen bytes, of which an IPv4 address uses the first four. *)
Definition IpAddress_ok (a : IpAddress) : Prop :=
  length (ia_bytes a) = 16%nat ∧ bytes_ok (ia_bytes a)
  ∧ (ia_family a = Family_Ipv4 → drop 4 (ia_bytes a) = replicate 12 0).

Lemma IpAddress_Bytes_length a :
  IpAddress_ok a →
  length (IpAddress_Bytes a)
  = match ia_family a with Family_Ipv4 => 4 | Family_Ipv6 => 16 end%nat.
Proof.
  intros (Hlen & _ & _). unfold IpAddress_Bytes. rewrite length_take, Hlen.
  by destruct (ia_family a).
Qed.

Lemma IpAddress_Bytes_ok a : IpAddress_ok a → bytes_ok (IpAddress_Bytes a).
Proof. intros (_ & Hok & _). by apply Forall_take. Qed.

Lemma IpAddress_of_Ipv4_ok a : IpAddress_ok (IpAddress_of_Ipv4 a).
Proof.
  split_and!; [done| |done]. apply Forall_app; split; [apply (bytes_ok_be_encode 4)|].
  by apply Forall_replicate.
Qed.

Section IpText.
(** [ip6addr_aton] of lwIP: the sixteen bytes of an IPv6 text, and
    [ip6addr_ntoa_r], its printer. *)
  Context (ip6addr_aton : bytes → option bytes).
  Context (ip6addr_ntoa : bytes → bytes).

Definition IpAddress_TryParse (text : bytes) : option IpAddress :=
  match Ipv4Address_TryParse text with
  | Some a => Some (IpAddress_of_Ipv4 a)
  | None =>
      if bool_decide (find_char chr_colon text = None)
         || existsb (fun b => negb (existsb (Z.eqb b) (lit "0123456789abcdefABCDEF:."))) text
      then None
      else match ip6addr_aton text with
           | None => None
           | Some b => Some (IpAddress_FromIpv6 b)
           end
  end.

Definition IpAddress_Parse (text : bytes) : outcome IpAddress :=
  match IpAddress_TryParse text with
  | Some a => Ok a
  | None => Throw (ParseError "invalid IP address")
  end.

Definition IpAddress_ToString (a : IpAddress) : bytes :=
  match ia_family a with
  | Family_Ipv4 =>
      match ia_bytes a with
      | b0 :: b1 :: b2 :: b3 :: _ =>
          Ipv4Address_ToString (Ipv4Address_FromOctets b0 b1 b2 b3)
      | _ => []
      end
  | Family_Ipv6 => ip6addr_ntoa (ia_bytes a)
  end.

(** What the callers rely on of [ip6addr_aton]: it fills sixteen bytes. *)
Definition aton_fills : Prop :=
  ∀ text b, ip6addr_aton text = Some b → length b = 16%nat ∧ bytes_ok b.

Lemma IpAddress_TryParse_ok text a :
  aton_fills → IpAddress_TryParse text = Some a → IpAddress_ok a.
Proof.
  intros Haton. unfold IpAddress_TryParse.
  destruct (Ipv4Address_TryParse text); [intros; simplify_eq; apply IpAddress_of_Ipv4_ok|].
  ifb; [done|]. destruct (ip6addr_aton text) as [b|] eqn:Hb; [|done].
  intros; simplify_eq. apply Haton in Hb as [? ?]. by split_and!.
Qed.

(** ** IpRange *)

Record IpRange := { ir_first : IpAddress; ir_last : IpAddress }.

Definition IpRange_FromBytes (family : AddressFamily) (b : bytes) : IpAddress :=
  match family with
  | Family_Ipv6 => IpAddress_FromIpv6 b
  | Family_Ipv4 =>
      match b with
      | b0 :: b1 :: b2 :: b3 :: _ => IpAddress_of_Ipv4 (Ipv4Address_FromOctets b0 b1 b2 b3)
      | _ => IpAddress_default
      end
  end.

Definition IpRange_Less (left right : IpAddress) : bool :=
  lex_ltb (IpAddress_Bytes left) (IpAddress_Bytes right).

(** [for (unsigned bit = prefix; bit < width; ++bit)], [todo = width - bit]:
    clear the bit in [first], set it in [last]. *)
Fixpoint IpRange_mask_loop (todo : nat) (bit : Z) (first last : bytes) : bytes * bytes :=
  match todo with
  | O => (first, last)
  | S todo' =>
      let mask := u8 (Z.shiftl 1 (8 - 1 - bit mod 8)) in
      let i := Z.to_nat (bit / 8) in
      IpRange_mask_loop todo' (bit + 1)
        (<[i := Z.land (first !!! i) (u8 (Z.lnot mask))]> first)
        (<[i := Z.lor (last !!! i) mask]> last)
  end.

Definition IpRange_TryParse (text : bytes) : option IpRange :=
  match find_char chr_dash text with
  | Some dash =>
      match IpAddress_TryParse (take dash text), IpAddress_TryParse (drop (S dash) text) with
      | Some first, Some last =>
          if negb (bool_decide (ia_family first = ia_family last)) || IpRange_Less last first
          then None else Some {| ir_first := first; ir_last := last |}
      | _, _ => None
      end
  | None =>
      let slash := find_char chr_slash text in
      match IpAddress_TryParse (match slash with Some s => take s text | None => text end) with
      | None => None
      | Some address =>
          match slash with
          | None => Some {| ir_first := address; ir_last := address |}
          | Some s =>
              let width := zlen (IpAddress_Bytes address) * 8 in
              match parse_unsigned (drop (S s) text) with
              | None => None
              | Some prefix =>
                  if width <? prefix then None
                  else
                    let array := IpAddress_Bytes address
                      ++ replicate (16 - length (IpAddress_Bytes address)) 0 in
                    let '(first, last) :=
                      IpRange_mask_loop (Z.to_nat (width - prefix)) prefix array array in
                    Some {| ir_first := IpRange_FromBytes (ia_family address) first;
                            ir_last := IpRange_FromBytes (ia_family address) last |}
              end
          end
      end
  end.

Definition IpRange_Contains (r : IpRange) (address : IpAddress) : bool :=
  bool_decide (ia_family address = ia_family (ir_first r))
  && negb (IpRange_Less address (ir_first r))
  && negb (IpRange_Less (ir_last r) address).
End IpText.

(** *** The mask loop on the address as a number *)

Section MaskLoop.
(** The array, and the [nb] bytes of it that hold the address. *)
  Context (nb : nat).
Let width := 8 * Z.of_nat nb.

(** [l'] differs from [l] only in the low [k] bits of the address, which are
    all [v]. *)
Definition low_bits (v : bool) (k : Z) (l l' : bytes) : Prop :=
  length l' = length l ∧ bytes_ok l' ∧
  ∀ q, 0 <= q < width →
    Z.testbit (be_decode (take nb l')) q
    = if q <? k then v else Z.testbit (be_decode (take nb l)) q.

Lemma mask_bit bit :
  0 <= bit → u8 (Z.shiftl 1 (8 - 1 - bit mod 8)) = 2 ^ (7 - bit mod 8).
Proof.
  intros. pose proof (Z.mod_pos_bound bit 8). rewrite Z.shiftl_1_l.
  replace (8 - 1 - bit mod 8) with (7 - bit mod 8) by lia. apply wrap_id.
  split; [lia|]. apply Z.pow_lt_mono_r; lia.
Qed.

(** Updating one byte so that one bit becomes [v]. *)
Lemma mask_step v (f : Z → Z) (l : bytes) bit :
  (nb <= length l)%nat → bytes_ok l → 0 <= bit < width →
  (∀ x, in_width 8 x → in_width 8 (f x)) →
  (∀ x j, 0 <= j < 8 → Z.testbit (f x) j
     = if j =? 7 - bit mod 8 then v else Z.testbit x j) →
  let i := Z.to_nat (bit / 8) in
  let l' := <[i := f (l !!! i)]> l in
  length l' = length l ∧ bytes_ok l' ∧
  ∀ q, 0 <= q < width →
    Z.testbit (be_decode (take nb l')) q
    = if q =? width - 1 - bit then v else Z.testbit (be_decode (take nb l)) q.
Proof.
  intros Hnb Hok Hbit Hf Hfb i l'. unfold width in *.
  pose proof (Z.div_mod bit 8). pose proof (Z.mod_pos_bound bit 8).
  assert (i < nb)%nat as Hi by (unfold i; lia).
  assert (in_width 8 (l !!! i)) as Hli.
  { rewrite Forall_forall in Hok. apply Hok. apply list_elem_of_lookup_total_2. lia. }
  split_and!.
  - apply length_insert.
  - apply Forall_insert; [done|by apply Hf].
  - intros q Hq. unfold l'. rewrite take_insert_lt by done.
    assert (zlen (take nb l) = Z.of_nat nb) as Hz by (unfold zlen; rewrite length_take; lia).
    rewrite be_decode_insert_testbit; [|by apply Forall_take|by apply Hf
      |rewrite length_take; lia|rewrite Hz; lia].
    rewrite Hz. pose proof (Z.div_mod q 8). pose proof (Z.mod_pos_bound q 8).
    destruct (Z.eqb_spec (q / 8) (Z.of_nat nb - 1 - Z.of_nat i)) as [Hqi|Hqi].
    + rewrite Hfb by lia. unfold i in *.
      assert ((q mod 8 =? 7 - bit mod 8) = (q =? 8 * Z.of_nat nb - 1 - bit)) as -> by lia.
      destruct (q =? _) eqn:E; [done|].
      replace q with (8 * (zlen (take nb l) - 1 - Z.of_nat (Z.to_nat (bit / 8))) + q mod 8)
        at 2 by (rewrite Hz; lia).
      rewrite be_decode_testbit; [|by apply Forall_take|rewrite length_take; lia|lia].
      rewrite <- (take_drop nb l) at 1. rewrite lookup_total_app_l; [done|].
      rewrite length_take. lia.
    + replace (q =? 8 * Z.of_nat nb - 1 - bit) with false by (unfold i in *; lia). done.
Qed.

Lemma mask_loop_bits todo bit first last :
  (nb <= length first)%nat → (nb <= length last)%nat →
  bytes_ok first → bytes_ok last →
  0 <= bit → bit + Z.of_nat todo = width →
  low_bits false (Z.of_nat todo) first (IpRange_mask_loop todo bit first last).1
  ∧ low_bits true (Z.of_nat todo) last (IpRange_mask_loop todo bit first last).2.
Proof.
  revert bit first last. induction todo as [|todo IH];
    intros bit first last Hl1 Hl2 Hok1 Hok2 Hbit Hsum.
  { split; split_and!; try done; intros q Hq;
      by rewrite (proj2 (Z.ltb_ge q (Z.of_nat 0))) by lia. }
  pose proof (Z.mod_pos_bound bit 8).
  cbn [IpRange_mask_loop]. rewrite mask_bit by done.
  destruct (mask_step false (fun x => Z.land x (u8 (Z.lnot (2 ^ (7 - bit mod 8))))) first bit)
    as (A1 & A2 & A3); [done|done|lia|..].
  { intros x Hx. by apply in_width_land. }
  { intros x j Hj. unfold wrap. rewrite Z.land_spec, Z.mod_pow2_bits_low, Z.lnot_spec by lia.
    rewrite Z.pow2_bits_eqb by lia. rewrite (Z.eqb_sym j).
    destruct (_ =? j); [apply andb_false_r|apply andb_true_r]. }
  destruct (mask_step true (fun x => Z.lor x (2 ^ (7 - bit mod 8))) last bit)
    as (B1 & B2 & B3); [done|done|lia|..].
  { intros x Hx. apply in_width_lor; [done..|apply in_width_pow2; lia]. }
  { intros x j Hj. rewrite Z.lor_spec, Z.pow2_bits_eqb by lia. rewrite (Z.eqb_sym j).
    destruct (_ =? j); [apply orb_true_r|apply orb_false_r]. }
  destruct (IH (bit + 1) _ _ (eq_ind_r (fun n => (nb <= n)%nat) Hl1 A1)
              (eq_ind_r (fun n => (nb <= n)%nat) Hl2 B1) A2 B2 ltac:(lia) ltac:(lia))
    as [(C1 & C2 & C3) (D1 & D2 & D3)].
  split; split_and!; try done; try congruence.
  - intros q Hq. rewrite C3, A3 by done.
    destruct (Z.ltb_spec q (Z.of_nat todo)), (Z.eqb_spec q (width - 1 - bit)),
      (Z.ltb_spec q (Z.of_nat (S todo))); done || lia.
  - intros q Hq. rewrite D3, B3 by done.
    destruct (Z.ltb_spec q (Z.of_nat todo)), (Z.eqb_spec q (width - 1 - bit)),
      (Z.ltb_spec q (Z.of_nat (S todo))); done || lia.
Qed.
End MaskLoop.

(** *** Ranges of addresses as intervals of numbers *)

Definition address_bytes (f : AddressFamily) : nat :=
  match f with Family_Ipv4 => 4 | Family_Ipv6 => 16 end.

Lemma take_bytes_facts nb (l : bytes) :
  (nb <= length l)%nat → bytes_ok l →
  bytes_ok (take nb l) ∧ in_width (8 * Z.of_nat nb) (be_decode (take nb l)).
Proof.
  intros Hnb Hok. assert (bytes_ok (take nb l)) as Ht by (by apply Forall_take).
  split; [done|]. apply be_decode_range in Ht. revert Ht.
  unfold zlen. rewrite length_take. by replace (nb `min` length l)%nat with nb by lia.
Qed.

Lemma low_bits_range v nb k (l l' : bytes) :
  (nb <= length l)%nat → bytes_ok l → 0 <= k <= 8 * Z.of_nat nb → low_bits nb v k l l' →
  be_decode (take nb l')
  = be_decode (take nb l) / 2 ^ k * 2 ^ k + (if v then 2 ^ k - 1 else 0).
Proof.
  intros Hnb Hok Hk (Hlen & Hok' & Hbits).
  destruct (take_bytes_facts nb l Hnb Hok) as [_ Hr].
  destruct (take_bytes_facts nb l' ltac:(lia) Hok') as [_ Hr'].
  pose proof (Z.pow_pos_nonneg 2 k).
  rewrite <- lor_shiftl_add by (destruct v; lia).
  apply Z.bits_inj'. intros q Hq. rewrite Z.lor_spec, Z.shiftl_spec by done.
  assert (Z.testbit (if v then 2 ^ k - 1 else 0) q = (q <? k) && v) as ->.
  { destruct v; [|by rewrite Z.bits_0, andb_false_r].
    rewrite andb_true_r. replace (2 ^ k - 1) with (Z.ones k) by (rewrite Z.ones_equiv; lia).
    destruct (Z.ltb_spec q k); [apply Z.ones_spec_low; lia|apply Z.ones_spec_high; lia]. }
  destruct (Z.ltb_spec q (8 * Z.of_nat nb)) as [Hlo|Hhi].
  - rewrite Hbits by done. destruct (Z.ltb_spec q k).
    + rewrite Z.testbit_neg_r by lia. done.
    + rewrite Z.div_pow2_bits by lia. rewrite orb_false_r. f_equal. lia.
  - rewrite (in_width_high _ _ _ Hr') by lia. rewrite (proj2 (Z.ltb_ge _ _)) by lia.
    rewrite Z.div_pow2_bits by lia. rewrite (in_width_high _ _ _ Hr) by lia. done.
Qed.

Lemma Bytes_FromBytes f (l : bytes) :
  length l = 16%nat → bytes_ok l →
  IpAddress_Bytes (IpRange_FromBytes f l) = take (address_bytes f) l
  ∧ ia_family (IpRange_FromBytes f l) = f ∧ IpAddress_ok (IpRange_FromBytes f l).
Proof.
  intros Hlen Hok. destruct f; [|by split_and!].
  destruct l as [|b0 [|b1 [|b2 [|b3 l]]]]; try done. cbn [IpRange_FromBytes].
  split_and!; [|done|apply IpAddress_of_Ipv4_ok].
  unfold IpAddress_Bytes, IpAddress_of_Ipv4.
  rewrite Octets_FromOctets; [done|]. apply (Forall_take _ 4) in Hok. done.
Qed.

Lemma IpRange_Less_spec a b :
  IpAddress_ok a → IpAddress_ok b → ia_family a = ia_family b →
  IpRange_Less a b = (be_decode (IpAddress_Bytes a) <? be_decode (IpAddress_Bytes b)).
Proof.
  intros Ha Hb Hf. apply lex_ltb_be; [|by apply IpAddress_Bytes_ok..].
  rewrite !IpAddress_Bytes_length by done. by rewrite Hf.
Qed.

Lemma IpRange_Contains_spec r x :
  IpAddress_ok (ir_first r) → IpAddress_ok (ir_last r) → IpAddress_ok x →
  ia_family (ir_last r) = ia_family (ir_first r) →
  IpRange_Contains r x = true ↔
  ia_family x = ia_family (ir_first r)
  ∧ be_decode (IpAddress_Bytes (ir_first r)) <= be_decode (IpAddress_Bytes x)
    <= be_decode (IpAddress_Bytes (ir_last r)).
Proof.
  intros Hf Hl Hx Hfam. unfold IpRange_Contains.
  destruct (decide (ia_family x = ia_family (ir_first r))) as [Hfx|Hfx]; last first.
  { rewrite bool_decide_eq_false_2 by done. split; [done|naive_solver]. }
  rewrite bool_decide_eq_true_2, !IpRange_Less_spec by congruence.
  split; [intros; split; [done|lia]|lia].
Qed.

Lemma div_interval N x k :
  0 <= k → N / 2 ^ k * 2 ^ k <= x <= N / 2 ^ k * 2 ^ k + (2 ^ k - 1) ↔ x / 2 ^ k = N / 2 ^ k.
Proof.
  intros Hk. pose proof (Z.pow_pos_nonneg 2 k). set (m := 2 ^ k) in *.
  pose proof (Z.div_mod x m). pose proof (Z.mod_pos_bound x m). split; [|nia].
  intros. apply Z.le_antisymm.
  - apply Z.lt_succ_r, Z.div_lt_upper_bound; lia.
  - apply Z.div_le_lower_bound; lia.
Qed.

(** A CIDR text is rejected exactly when its prefix is longer than the
    address, and otherwise the two-ended byte range that the bit loop builds
    contains an address iff it is of the same family and its leading [prefix]
    bits are those of the written address. *)
Theorem IpRange_cidr_is_prefix_match (aton : bytes → option bytes) (text : bytes) (s : nat)
    (address x : IpAddress) (prefix : Z)
    (Haton : aton_fills aton)
    (Hdash : find_char chr_dash text = None)
    (Hslash : find_char chr_slash text = Some s)
    (Ha : IpAddress_TryParse aton (take s text) = Some address)
    (Hp : parse_unsigned (drop (S s) text) = Some prefix)
    (Hx : IpAddress_ok x) :
  let width := 8 * Z.of_nat (address_bytes (ia_family address)) in
  match IpRange_TryParse aton text with
  | None => width < prefix
  | Some r =>
      prefix <= width ∧
      (IpRange_Contains r x = true ↔
       ia_family x = ia_family address ∧
       be_decode (IpAddress_Bytes x) / 2 ^ (width - prefix)
       = be_decode (IpAddress_Bytes address) / 2 ^ (width - prefix))
  end.
Proof.
  intros width. pose proof (IpAddress_TryParse_ok _ _ _ Haton Ha) as Hok.
  pose proof (IpAddress_Bytes_length _ Hok) as Hlen.
  pose proof (IpAddress_Bytes_ok _ Hok) as Hbok.
  assert (0 <= prefix) as Hp0.
  { apply parse_unsigned_spec in Hp as (_ & Hd & -> & _). by apply digits_from_nonneg. }
  unfold IpRange_TryParse. rewrite Hdash, Hslash, Ha, Hp.
  assert (zlen (IpAddress_Bytes address) * 8 = width) as ->.
  { unfold width, zlen. rewrite Hlen. by destruct (ia_family address). }
  destruct (Z.ltb_spec width prefix) as [Hlt|Hle]; [done|].
  set (nb := address_bytes (ia_family address)) in *.
  set (arr := IpAddress_Bytes address ++ _).
  assert (length arr = 16%nat) as Harr.
  { unfold arr. rewrite length_app, length_replicate, Hlen. by destruct (ia_family address). }
  assert (bytes_ok arr) as Harrok.
  { apply Forall_app; split; [done|]. by apply Forall_replicate. }
  assert (nb <= 16)%nat as Hnb by (unfold nb; destruct (ia_family address); simpl; lia).
  assert (take nb arr = IpAddress_Bytes address) as Htake.
  { unfold arr. rewrite take_app_le by (rewrite Hlen; by destruct (ia_family address)).
    apply take_ge. rewrite Hlen. by destruct (ia_family address). }
  destruct (mask_loop_bits nb (Z.to_nat (width - prefix)) prefix arr arr) as [H1 H2];
    [lia|lia|done|done|lia|unfold width in *; lia|].
  rewrite Z2Nat.id in H1, H2 by lia.
  destruct (IpRange_mask_loop _ _ _ _) as [first last]. cbn [fst snd] in *.
  assert (V1 := H1). apply low_bits_range in V1; [|lia|done|unfold width in *; lia].
  assert (V2 := H2). apply low_bits_range in V2; [|lia|done|unfold width in *; lia].
  destruct H1 as (L1 & O1 & _), H2 as (L2 & O2 & _).
  destruct (Bytes_FromBytes (ia_family address) first) as (B1 & F1 & K1); [congruence|done|].
  destruct (Bytes_FromBytes (ia_family address) last) as (B2 & F2 & K2); [congruence|done|].
  split; [done|]. rewrite IpRange_Contains_spec by (simpl; congruence || done). cbn [ir_first ir_last].
  rewrite B1, B2, F1. fold nb. rewrite V1, V2, Htake, Z.add_0_r.
  rewrite div_interval by lia. done.
Qed.

Lemma aton_fills_none : aton_fills (fun _ => None).
Proof. intros text b H. discriminate H. Qed.

Lemma IpRange_cidr_is_prefix_match_witness :
  match IpRange_TryParse (fun _ => None) (lit "100.64.0.0/10") with
  | None => False
  | Some r =>
      IpRange_Contains r (IpAddress_of_Ipv4 (Ipv4Address_FromOctets 100 127 255 255)) = true
      ∧ IpRange_Contains r (IpAddress_of_Ipv4 (Ipv4Address_FromOctets 100 128 0 0)) = false
  end.
Proof.
  pose proof (fun x Hx => IpRange_cidr_is_prefix_match (fun _ => None) (lit "100.64.0.0/10") 10
    (IpAddress_of_Ipv4 (Ipv4Address_FromOctets 100 64 0 0)) x 10
    aton_fills_none eq_refl eq_refl eq_refl eq_refl Hx) as H.
  pose proof (H (IpAddress_of_Ipv4 (Ipv4Address_FromOctets 100 127 255 255))
                (IpAddress_of_Ipv4_ok _)) as H1.
  pose proof (H (IpAddress_of_Ipv4 (Ipv4Address_FromOctets 100 128 0 0))
                (IpAddress_of_Ipv4_ok _)) as H2.
  clear H. destruct (IpRange_TryParse _ _) as [r|]; [|discriminate].
  destruct H1 as [_ H1], H2 as [_ H2]. split.
  - apply H1. split; vm_compute; reflexivity.
  - apply not_true_iff_false. rewrite H2. intros [_ H]. vm_compute in H. discriminate.
Defined.

(** The dotted-decimal parser accepts exactly four decimal numbers of at
    most 255 separated by single dots, and returns the address of these four
    octets; formatting an address gives a text that it parses back. *)
Theorem Ipv4Address_TryParse_spec (text : bytes) (a : Ipv4Address) :
  (Ipv4Address_TryParse text = Some a ↔
   ∃ c0 c1 c2 c3, Forall octet_text [c0; c1; c2; c3] ∧
     text = c0 ++ chr_dot :: c1 ++ chr_dot :: c2 ++ chr_dot :: c3 ∧
     a = Ipv4Address_FromOctets (digits_val c0) (digits_val c1) (digits_val c2) (digits_val c3))
  ∧ (Ipv4Address_ok a → Ipv4Address_TryParse (Ipv4Address_ToString a) = Some a).
Proof. split; [apply TryParse_spec|apply TryParse_ToString]. Qed.

(** Every IPv4 endpoint survives formatting and parsing. *)
Theorem Endpoint_roundtrip (e : Endpoint) (He : Endpoint_ok e) :
  Endpoint_Parse (Endpoint_ToString e) = Ok e.
Proof. unfold Endpoint_Parse. by rewrite Endpoint_TryParse_ToString. Qed.

Lemma Endpoint_roundtrip_witness :
  Endpoint_Parse (lit "192.168.1.20:41641")
  = Ok {| ep_address := Ipv4Address_FromOctets 192 168 1 20; ep_port := 41641 |}.
Proof.
  refine (Endpoint_roundtrip {| ep_address := Ipv4Address_FromOctets 192 168 1 20;
                                ep_port := 41641 |} _).
  split; split; vm_compute; congruence.
Defined.
