(* ===== verification/Packet.v ===== *)
(** * IPv4 packets

    include/tailgate/net/packet/Ipv4.h and src/core/net/packet/Ipv4.cpp:
    prefixes, the Internet checksum, and the builders and parsers of IPv4 and
    UDP headers.  Every access to a packet is a checked access of the model, so
    that the theorems can say that no input makes a parser read outside it. *)

From S2P Require Import Prelude Text Net.

Definition Ipv4HeaderSize : Z := 20.
Definition UdpHeaderSize : Z := 8.
Definition Ipv4UdpHeaderSize : Z := Ipv4HeaderSize + UdpHeaderSize.
Definition Ipv4Version : Z := 4.
Definition UdpProtocol : Z := 17.
Definition DefaultTimeToLive : Z := 64.
Definition Ipv4SourceOffset : Z := 12.
Definition Ipv4DestinationOffset : Z := 16.
Definition UdpSourcePortOffset : Z := Ipv4HeaderSize.
Definition UdpDestinationPortOffset : Z := Ipv4HeaderSize + 2.
Definition UdpLengthOffset : Z := Ipv4HeaderSize + 4.

(** ** Prefixes *)

Record Ipv4Prefix := { px_network : Z; px_length : Z }.

#[export] Instance Ipv4Prefix_eq_dec : EqDecision Ipv4Prefix.
Proof. solve_decision. Defined.

(** A shift by 32 or more, from a length above 32, is undefined. *)
Definition PrefixMask (prefixLength : Z) : outcome Z :=
  if prefixLength =? 0 then Ok 0
  else if 32 <? prefixLength then UB
  else Ok (u32 (Z.shiftl 0xffffffff (32 - prefixLength))).

Definition Ipv4Prefix_Parse (text : bytes) : outcome (option Ipv4Prefix) :=
  let slash := find_char chr_slash text in
  match Ipv4Address_TryParse (match slash with Some s => take s text | None => text end) with
  | None => Ok None
  | Some address =>
      match (match slash with
             | None => Some 32
             | Some s => parse_unsigned (drop (S s) text)
             end) with
      | None => Ok None
      | Some length =>
          if 32 <? length then Ok None
          else
            let prefixLength := u8 length in
            let! mask := PrefixMask prefixLength in
            Ok (Some {| px_network := Z.land (Ipv4Address_HostOrder address) mask;
                        px_length := prefixLength |})
      end
  end.

Definition Ipv4Prefix_Contains (p : Ipv4Prefix) (address : Z) : outcome bool :=
  let! mask := PrefixMask (px_length p) in
  Ok (Z.land address mask =? px_network p).

(** ** Checksum *)

Definition checksum_step (sum word : Z) : Z :=
  let sum := u32 (sum + word) in
  u32 (Z.land sum 0xffff + Z.shiftr sum 16).

(** The loop over [index += 2]. *)
Fixpoint checksum_loop (data : bytes) (sum : Z) : Z :=
  match data with
  | [] => sum
  | [a] => checksum_step sum (u16 (Z.shiftl a 8))
  | a :: b :: rest => checksum_loop rest (checksum_step sum (Z.lor (u16 (Z.shiftl a 8)) b))
  end.

Definition InternetChecksum (data : bytes) : Z := u16 (Z.lnot (checksum_loop data 0)).

(** ** Accessors *)

Definition Ipv4_read32 (packet : bytes) (offset : Z) : outcome Z :=
  let! b0 := rd packet offset in
  let! b1 := rd packet (offset + 1) in
  let! b2 := rd packet (offset + 2) in
  let! b3 := rd packet (offset + 3) in
  Ok (Z.lor (Z.lor (Z.lor (Z.shiftl b0 24) (Z.shiftl b1 16)) (Z.shiftl b2 8)) b3).

Definition Ipv4_read16 (packet : bytes) (offset : Z) : outcome Z :=
  let! b0 := rd packet offset in
  let! b1 := rd packet (offset + 1) in
  Ok (u16 (Z.lor (Z.shiftl b0 8) b1)).

(** [packet.size() < Ipv4HeaderSize || (packet[0] >> 4U) != Ipv4Version] *)
Definition not_ipv4 (packet : bytes) : outcome bool :=
  if zlen packet <? Ipv4HeaderSize then Ok true
  else let! b0 := rd packet 0 in Ok (negb (Z.shiftr b0 4 =? Ipv4Version)).

Definition Ipv4Packet_Destination (packet : bytes) : outcome (option Z) :=
  let! bad := not_ipv4 packet in
  if bad then Ok None
  else let! v := Ipv4_read32 packet Ipv4DestinationOffset in Ok (Some v).

Definition Ipv4Packet_Source (packet : bytes) : outcome (option Z) :=
  let! bad := not_ipv4 packet in
  if bad then Ok None
  else let! v := Ipv4_read32 packet Ipv4SourceOffset in Ok (Some v).

Definition Ipv4Packet_Protocol (packet : bytes) : outcome Z :=
  let! bad := not_ipv4 packet in
  if bad then Ok 0 else rd packet 9.

(** ** Builders *)

(** [for (int index = 0; index < 4; ++index)]: the address bytes. *)
Fixpoint write_addresses (todo : nat) (index source destination : Z) (packet : bytes)
    : outcome bytes :=
  match todo with
  | O => Ok packet
  | S todo' =>
      let! packet := wr packet (Ipv4SourceOffset + index)
                       (u8 (Z.shiftr source (24 - index * 8))) in
      let! packet := wr packet (Ipv4DestinationOffset + index)
                       (u8 (Z.shiftr destination (24 - index * 8))) in
      write_addresses todo' (index + 1) source destination packet
  end.

Definition WriteIpv4Header (packet : bytes) (source destination protocol : Z) : outcome bytes :=
  let! packet := wr packet 0 0x45 in
  let! packet := wr packet 2 (u8 (Z.shiftr (zlen packet) 8)) in
  let! packet := wr packet 3 (u8 (zlen packet)) in
  let! packet := wr packet 8 DefaultTimeToLive in
  let! packet := wr packet 9 protocol in
  let! packet := write_addresses 4 0 source destination packet in
  let! header := slice packet 0 Ipv4HeaderSize in
  let ipChecksum := InternetChecksum header in
  let! packet := wr packet 10 (u8 (Z.shiftr ipChecksum 8)) in
  wr packet 11 (u8 ipChecksum).

Definition zeros (n : Z) : bytes := replicate (Z.to_nat n) 0.

Definition Ipv4Packet_Build (source destination protocol : Z) (payload : bytes) : outcome bytes :=
  let packet := zeros (Ipv4HeaderSize + zlen payload) in
  let! packet := WriteIpv4Header packet source destination protocol in
  copy_at packet Ipv4HeaderSize payload.

Record Ipv4UdpDatagram := {
  udp_source : Z;
  udp_destination : Z;
  udp_sourcePort : Z;
  udp_destinationPort : Z;
  udp_payload : bytes
}.

Definition Ipv4UdpDatagram_Build (source destination sourcePort destinationPort : Z)
    (payload : bytes) : outcome bytes :=
  let udpLength := UdpHeaderSize + zlen payload in
  let packet := zeros (Ipv4HeaderSize + udpLength) in
  let! packet := WriteIpv4Header packet source destination UdpProtocol in
  let! packet := wr packet UdpSourcePortOffset (u8 (Z.shiftr sourcePort 8)) in
  let! packet := wr packet (UdpSourcePortOffset + 1) (u8 sourcePort) in
  let! packet := wr packet UdpDestinationPortOffset (u8 (Z.shiftr destinationPort 8)) in
  let! packet := wr packet (UdpDestinationPortOffset + 1) (u8 destinationPort) in
  let! packet := wr packet UdpLengthOffset (u8 (Z.shiftr udpLength 8)) in
  let! packet := wr packet (UdpLengthOffset + 1) (u8 udpLength) in
  copy_at packet Ipv4UdpHeaderSize payload.

(** ** Parsers *)

(** Dereferencing an empty [std::optional] is undefined. *)
Definition deref {A} (o : option A) : outcome A :=
  match o with Some a => Ok a | None => UB end.

Definition Ipv4UdpDatagram_Parse (packet : bytes) : outcome (option Ipv4UdpDatagram) :=
  let! bad := not_ipv4 packet in
  if bad then Ok None else
  let! protocol := rd packet 9 in
  if negb (protocol =? UdpProtocol) then Ok None else
  let! b0 := rd packet 0 in
  let ipv4HeaderSize := Z.land b0 0x0f * 4 in
  if (ipv4HeaderSize <? Ipv4HeaderSize) || (zlen packet <? ipv4HeaderSize + UdpHeaderSize)
  then Ok None else
  let! udpLength := Ipv4_read16 packet (ipv4HeaderSize + 4) in
  if (udpLength <? UdpHeaderSize) || (zlen packet <? ipv4HeaderSize + udpLength)
  then Ok None else
  let! payload := slice packet (ipv4HeaderSize + UdpHeaderSize) (ipv4HeaderSize + udpLength) in
  let! source := Ipv4Packet_Source packet in
  let! source := deref source in
  let! destination := Ipv4Packet_Destination packet in
  let! destination := deref destination in
  let! sourcePort := Ipv4_read16 packet ipv4HeaderSize in
  let! destinationPort := Ipv4_read16 packet (ipv4HeaderSize + 2) in
  Ok (Some {| udp_source := source; udp_destination := destination;
              udp_sourcePort := sourcePort; udp_destinationPort := destinationPort;
              udp_payload := payload |}).

Definition Ipv4UdpDatagram_ExtractPayload (packet : bytes)
    (source destination sourcePort destinationPort : Z) : outcome (option bytes) :=
  if zlen packet <? Ipv4UdpHeaderSize then Ok None else
  let! protocol := rd packet 9 in
  if negb (protocol =? UdpProtocol) then Ok None else
  let! length := Ipv4_read16 packet UdpLengthOffset in
  let! s := Ipv4_read32 packet Ipv4SourceOffset in
  if negb (s =? source) then Ok None else
  let! d := Ipv4_read32 packet Ipv4DestinationOffset in
  if negb (d =? destination) then Ok None else
  let! sp := Ipv4_read16 packet UdpSourcePortOffset in
  if negb (sp =? sourcePort) then Ok None else
  let! dp := Ipv4_read16 packet UdpDestinationPortOffset in
  if negb (dp =? destinationPort) then Ok None else
  if (length <? UdpHeaderSize) || (zlen packet <? Ipv4HeaderSize + length) then Ok None else
  let! payload := slice packet Ipv4UdpHeaderSize (Ipv4HeaderSize + length) in
  Ok (Some payload).

(** ** Prefix masks *)

Lemma PrefixMask_land p address :
  0 <= p <= 32 → in_width 32 address →
  ∃ mask, PrefixMask p = Ok mask
    ∧ Z.land address mask = address / 2 ^ (32 - p) * 2 ^ (32 - p).
Proof.
  intros Hp Ha. unfold PrefixMask.
  destruct (Z.eqb_spec p 0) as [->|Hne].
  { exists 0. split; [done|]. rewrite Z.land_0_r.
    unfold in_width in Ha. rewrite Z.sub_0_r, Z.div_small by done. done. }
  rewrite (proj2 (Z.ltb_ge _ _)) by lia. eexists; split; [done|].
  rewrite <- Z.shiftl_mul_pow2 by lia. unfold wrap.
  apply Z.bits_inj'. intros i Hi.
  rewrite Z.land_spec, Z.shiftl_spec by done.
  destruct (Z.ltb_spec i 32) as [Hlo|Hhi]; last first.
  { rewrite (in_width_high _ _ _ Ha), Z.div_pow2_bits by lia.
    rewrite (in_width_high _ _ _ Ha) by lia. done. }
  rewrite Z.mod_pow2_bits_low, Z.shiftl_spec by lia. change 0xffffffff with (Z.ones 32).
  destruct (Z.ltb_spec i (32 - p)).
  - rewrite (Z.testbit_neg_r (Z.ones 32)), (Z.testbit_neg_r (address / _)) by lia.
    apply andb_false_r.
  - rewrite Z.ones_spec_low, andb_true_r, Z.div_pow2_bits by lia. f_equal. lia.
Qed.

Lemma mul_div_eq x y m : 0 < m → x * m = y * m ↔ x = y.
Proof. nia. Qed.

(** A parsed prefix has its host bits clear, and [Contains] compares the
    leading bits. *)
Lemma Ipv4Prefix_Parse_Contains text s address length x :
  find_char chr_slash text = Some s →
  Ipv4Address_TryParse (take s text) = Some address →
  parse_unsigned (drop (S s) text) = Some length →
  length <= 32 → in_width 32 x →
  ∃ p, Ipv4Prefix_Parse text = Ok (Some p)
    ∧ Ipv4Prefix_Contains p x
      = Ok (x / 2 ^ (32 - length) =? ip4_value address / 2 ^ (32 - length)).
Proof.
  intros Hs Ha Hl Hle Hx.
  assert (0 <= length) as H0.
  { apply parse_unsigned_spec in Hl as (_ & Hd & -> & _). by apply digits_from_nonneg. }
  unfold Ipv4Prefix_Parse. rewrite Hs, Ha, Hl, (proj2 (Z.ltb_ge _ _)) by lia.
  rewrite wrap_id by (split; lia).
  destruct (PrefixMask_land length (ip4_value address)) as (mask & Hm & Hland);
    [lia|by eapply TryParse_ok|].
  rewrite Hm. simpl. eexists; split; [done|].
  unfold Ipv4Prefix_Contains, Ipv4Address_HostOrder. simpl. rewrite Hm. simpl.
  destruct (PrefixMask_land length x) as (mask' & Hm' & Hland'); [lia|done|].
  rewrite Hm in Hm'. simplify_eq. rewrite Hland, Hland'. f_equal.
  pose proof (Z.pow_pos_nonneg 2 (32 - length)).
  apply Bool.eq_true_iff_eq. rewrite !Z.eqb_eq. apply mul_div_eq. lia.
Qed.

(** ** The checksum *)

(** The sum of the 16-bit words. *)
Fixpoint word_sum (data : bytes) : Z :=
  match data with
  | [] => 0
  | [a] => a * 256
  | a :: b :: rest => a * 256 + b + word_sum rest
  end.

Lemma word_sum_nonneg data : bytes_ok data → 0 <= word_sum data.
Proof.
  induction data as [data IH] using (induction_ltof1 _ (@length Z)).
  unfold ltof in IH. intros Hok. destruct data as [|a [|b rest]]; simpl; [done|..].
  - apply Forall_cons in Hok as [[? ?] _]. lia.
  - apply Forall_cons in Hok as [[? ?] Hok]. apply Forall_cons in Hok as [[? ?] Hok].
    specialize (IH rest ltac:(simpl; lia) Hok). lia.
Qed.

(** One's-complement representative of a sum: 0 only for 0, else 1..65535. *)
Definition oc_rep (s : Z) : Z := if s =? 0 then 0 else (s - 1) mod 65535 + 1.

Lemma checksum_step_spec sum word :
  0 <= sum -> 0 <= word < 65536 → checksum_step (oc_rep sum) word = oc_rep (sum + word).
Proof.
  intros Hs Hw. unfold checksum_step, oc_rep.
  pose proof (Z.mod_pos_bound (sum - 1) 65535 eq_refl).
  set (r := if sum =? 0 then 0 else (sum - 1) mod 65535 + 1).
  assert (0 <= r <= 65535) as Hr by (unfold r; ifb; lia).
  rewrite (wrap_id 32 (r + word)) by (split; lia).
  change (Z.land (r + word) 65535) with (Z.land (r + word) (Z.ones 16)).
  rewrite Z.land_ones, Z.shiftr_div_pow2 by lia. change (2 ^ 16) with 65536.
  rewrite wrap_id by (unfold in_width; Z.to_euclidean_division_equations; lia).
  assert (r = sum ∧ sum = 0 ∨ ∃ q, sum = 65535 * q + r ∧ 0 < r ∧ 0 <= q) as Hq.
  { unfold r. destruct (Z.eqb_spec sum 0); [lia|right].
    exists ((sum - 1) / 65535). Z.to_euclidean_division_equations. lia. }
  clearbody r. destruct (Z.eqb_spec (sum + word) 0) as [?|Hne].
  { assert (r = 0 ∧ word = 0) as [-> ->] by (destruct Hq as [|(? & ? & ?)]; lia). done. }
  assert ((sum + word - 1) mod 65535 = (r + word - 1) mod 65535) as ->.
  { destruct Hq as [[-> ->]|(q & -> & _)]; [done|].
    rewrite <- (Z_mod_plus_full (r + word - 1) q 65535). f_equal. lia. }
  assert (0 < r + word) by (destruct Hq as [|(? & ? & ?)]; lia).
  clear Hq Hne. Z.to_euclidean_division_equations. lia.
Qed.

Lemma checksum_loop_spec data sum :
  bytes_ok data → 0 <= sum → checksum_loop data (oc_rep sum) = oc_rep (sum + word_sum data).
Proof.
  revert sum. induction data as [data IH] using (induction_ltof1 _ (@length Z)).
  unfold ltof in IH. intros sum Hok Hs.
  destruct data as [|a [|b rest]]; simpl; [by rewrite Z.add_0_r|..].
  - apply Forall_cons in Hok as [Ha _]. unfold in_width in Ha.
    rewrite Z.shiftl_mul_pow2, wrap_id by (unfold in_width; lia).
    by apply checksum_step_spec; lia.
  - apply Forall_cons in Hok as [Ha Hok]. apply Forall_cons in Hok as [Hb Hok].
    unfold in_width in Ha, Hb.
    rewrite (wrap_id 16) by (rewrite Z.shiftl_mul_pow2; unfold in_width; lia).
    rewrite lor_shiftl_add, checksum_step_spec by lia.
    rewrite IH by (simpl; done || lia). f_equal. lia.
Qed.

Lemma InternetChecksum_spec data :
  bytes_ok data → InternetChecksum data = 65535 - oc_rep (word_sum data).
Proof.
  intros Hok. unfold InternetChecksum.
  change (checksum_loop data 0) with (checksum_loop data (oc_rep 0)).
  rewrite checksum_loop_spec by done. rewrite Z.add_0_l.
  assert (0 <= oc_rep (word_sum data) <= 65535) as Hr.
  { unfold oc_rep. pose proof (Z.mod_pos_bound (word_sum data - 1) 65535). ifb; lia. }
  unfold wrap. rewrite <- (Z_mod_plus_full _ 1). rewrite Z.mod_small; [|]; unfold Z.lnot; lia.
Qed.

Lemma oc_rep_range s : 0 <= s → 0 <= oc_rep s <= 65535.
Proof.
  intros. unfold oc_rep. pose proof (Z.mod_pos_bound (s - 1) 65535). ifb; lia.
Qed.

(** Adding the complement of the sum makes the sum 65535, the checksum 0. *)
Lemma oc_rep_complete s : 0 < s → oc_rep (s + (65535 - oc_rep s)) = 65535.
Proof.
  intros Hs. unfold oc_rep. rewrite (proj2 (Z.eqb_neq s 0)) by lia.
  pose proof (Z.mod_pos_bound (s - 1) 65535).
  rewrite (proj2 (Z.eqb_neq _ 0)) by lia.
  replace (s + (65535 - ((s - 1) mod 65535 + 1)) - 1)
    with (65534 + (s - 1) / 65535 * 65535)
    by (pose proof (Z.div_mod (s - 1) 65535); lia).
  by rewrite Z_mod_plus_full.
Qed.

Lemma u8_range x : in_width 8 (u8 x).
Proof. by apply wrap_range. Qed.

(** ** The header that [WriteIpv4Header] writes *)

Definition ipv4_header (total source destination protocol checksum : Z) : bytes :=
  [0x45; 0; u8 (Z.shiftr total 8); u8 total; 0; 0; 0; 0; 64; protocol;
   u8 (Z.shiftr checksum 8); u8 checksum]
  ++ be_encode 4 source ++ be_encode 4 destination.

Lemma ipv4_header_ok total source destination protocol checksum :
  in_width 8 protocol → bytes_ok (ipv4_header total source destination protocol checksum).
Proof.
  intros Hp. unfold ipv4_header. repeat apply Forall_app_2; try apply bytes_ok_be_encode.
  forall_intro; apply u8_range || by split.
Qed.

Definition header_checksum (total source destination protocol : Z) : Z :=
  InternetChecksum (ipv4_header total source destination protocol 0).

(** [wr] on a vector whose first 20 bytes are written out. *)
Ltac wr_header :=
  erewrite wr_app_l by (cbv [wr zlen length]; simpl; reflexivity); cbn [obind].

Lemma WriteIpv4Header_spec rest source destination protocol :
  let total := 20 + zlen rest in
  WriteIpv4Header (zeros 20 ++ rest) source destination protocol
  = Ok (ipv4_header total source destination protocol
          (header_checksum total source destination protocol) ++ rest).
Proof.
  intros total. unfold WriteIpv4Header. change (zeros 20) with (replicate 20 0).
  cbv [replicate]. wr_header.
  rewrite zlen_app. change (zlen (_ :: _) + zlen rest) with total. wr_header.
  rewrite zlen_app. change (zlen (_ :: _) + zlen rest) with total.
  wr_header. wr_header. wr_header.
  unfold write_addresses, Ipv4SourceOffset, Ipv4DestinationOffset.
  do 8 wr_header.
  rewrite slice_prefix by done. cbn [obind].
  unfold header_checksum.
  match goal with |- context [InternetChecksum ?l] =>
    change l with (ipv4_header total source destination protocol 0)
  end.
  generalize (InternetChecksum (ipv4_header total source destination protocol 0)).
  intros c. wr_header. erewrite wr_app_l by (cbv [wr zlen length]; simpl; reflexivity).
  reflexivity.
Qed.

Lemma be32_lor b0 b1 b2 b3 :
  Z.lor (Z.lor (Z.lor (Z.shiftl b0 24) (Z.shiftl b1 16)) (Z.shiftl b2 8)) b3
  = be_decode [b0; b1; b2; b3].
Proof.
  unfold be_decode. cbn [fold_left]. rewrite Z.shiftl_0_l, Z.lor_0_l.
  by rewrite !Z.shiftl_lor, !Z.shiftl_shiftl by lia.
Qed.

Lemma Ipv4_read32_app l q r offset :
  zlen l = offset → length q = 4%nat → Ipv4_read32 (l ++ q ++ r) offset = Ok (be_decode q).
Proof.
  intros <- Hq. destruct q as [|b0 [|b1 [|b2 [|b3 [|]]]]]; try done.
  unfold Ipv4_read32. rewrite !(rd_app_r l) by lia.
  replace (zlen l - zlen l) with 0 by lia. replace (zlen l + 1 - zlen l) with 1 by lia.
  replace (zlen l + 2 - zlen l) with 2 by lia. replace (zlen l + 3 - zlen l) with 3 by lia.
  change (rd ([b0; b1; b2; b3] ++ r)) with (rd (b0 :: b1 :: b2 :: b3 :: r)).
  change (rd (b0 :: b1 :: b2 :: b3 :: r) 0) with (Ok b0).
  change (rd (b0 :: b1 :: b2 :: b3 :: r) 1) with (Ok b1).
  change (rd (b0 :: b1 :: b2 :: b3 :: r) 2) with (Ok b2).
  change (rd (b0 :: b1 :: b2 :: b3 :: r) 3) with (Ok b3).
  cbn [obind]. by rewrite be32_lor.
Qed.

Lemma Ipv4_read16_app l q r offset :
  zlen l = offset → length q = 2%nat → bytes_ok q →
  Ipv4_read16 (l ++ q ++ r) offset = Ok (be_decode q).
Proof.
  intros <- Hq Hok. pose proof (be_decode_range q Hok).
  destruct q as [|b0 [|b1 [|]]]; try done.
  unfold Ipv4_read16. rewrite !(rd_app_r l) by lia.
  replace (zlen l - zlen l) with 0 by lia. replace (zlen l + 1 - zlen l) with 1 by lia.
  change (rd ([b0; b1] ++ r) 0) with (Ok b0). change (rd ([b0; b1] ++ r) 1) with (Ok b1).
  cbn [obind]. f_equal. by apply wrap_id.
Qed.

Lemma ipv4_header_split total source destination protocol checksum rest :
  ipv4_header total source destination protocol checksum ++ rest
  = [0x45; 0] ++ be_encode 2 total ++ [0; 0; 0; 0; 64; protocol] ++ be_encode 2 checksum
    ++ be_encode 4 source ++ be_encode 4 destination ++ rest.
Proof. unfold ipv4_header, be_encode. simpl. by rewrite !Z.shiftr_0_r. Qed.

Section built_header.
  Context (total source destination protocol checksum : Z) (rest : bytes).
Let packet := ipv4_header total source destination protocol checksum ++ rest.

Lemma built_not_ipv4 : not_ipv4 packet = Ok false.
Proof.
  unfold not_ipv4, packet, Ipv4HeaderSize. rewrite zlen_app.
  change (zlen (ipv4_header total source destination protocol checksum)) with 20.
  pose proof (zlen_nonneg rest). ifb; [b2p; lia|done].
Qed.

Lemma built_read32_source : Ipv4_read32 packet Ipv4SourceOffset = Ok (u32 source).
Proof.
  unfold packet. rewrite ipv4_header_split, !app_assoc, <- app_assoc.
  rewrite <- (app_assoc _ (be_encode 4 source)).
  rewrite Ipv4_read32_app, be_decode_encode; done.
Qed.

Lemma built_read32_destination :
  Ipv4_read32 packet Ipv4DestinationOffset = Ok (u32 destination).
Proof.
  unfold packet. rewrite ipv4_header_split, !app_assoc, <- app_assoc.
  rewrite Ipv4_read32_app, be_decode_encode; done.
Qed.

Lemma built_Source : Ipv4Packet_Source packet = Ok (Some (u32 source)).
Proof.
  unfold Ipv4Packet_Source. rewrite built_not_ipv4. cbn [obind]. by rewrite built_read32_source.
Qed.

Lemma built_Destination : Ipv4Packet_Destination packet = Ok (Some (u32 destination)).
Proof.
  unfold Ipv4Packet_Destination. rewrite built_not_ipv4. cbn [obind].
  by rewrite built_read32_destination.
Qed.

Lemma built_Protocol : Ipv4Packet_Protocol packet = Ok protocol.
Proof. unfold Ipv4Packet_Protocol. by rewrite built_not_ipv4. Qed.
End built_header.

Lemma header_checksum_zero total source destination protocol :
  in_width 8 protocol →
  InternetChecksum (ipv4_header total source destination protocol
                      (header_checksum total source destination protocol)) = 0.
Proof.
  intros Hp. pose proof (ipv4_header_ok total source destination protocol 0 Hp) as Hok0.
  set (S0 := word_sum (ipv4_header total source destination protocol 0)).
  assert (header_checksum total source destination protocol = 65535 - oc_rep S0) as Hc
    by (unfold header_checksum; by rewrite InternetChecksum_spec).
  rewrite InternetChecksum_spec, Hc by (by apply ipv4_header_ok).
  assert (0 < S0) as Hpos.
  { unfold S0, ipv4_header. apply Forall_drop with (n := 2%nat) in Hok0.
    pose proof (word_sum_nonneg _ Hok0) as H. revert H.
    unfold ipv4_header. cbn [app drop word_sum]. lia. }
  assert (word_sum (ipv4_header total source destination protocol (65535 - oc_rep S0))
          = S0 + (65535 - oc_rep S0)) as ->; [|by rewrite oc_rep_complete].
  pose proof (oc_rep_range S0). set (c := 65535 - oc_rep S0) in *.
  assert (u8 (Z.shiftr c 8) * 256 + u8 c = c) as Hcc.
  { unfold wrap. rewrite Z.shiftr_div_pow2 by lia.
    Z.to_euclidean_division_equations. lia. }
  unfold S0, ipv4_header. cbn [app word_sum]. change (u8 (Z.shiftr 0 8)) with 0.
  change (u8 0) with 0. lia.
Qed.

Lemma zlen_zeros n : 0 <= n → zlen (zeros n) = n.
Proof. intros. unfold zeros. rewrite zlen_replicate. lia. Qed.

Lemma zeros_add n m : 0 <= n → 0 <= m → zeros (n + m) = zeros n ++ zeros m.
Proof. intros. unfold zeros. rewrite Z2Nat.inj_add by lia. apply replicate_add. Qed.

Lemma zlen_ipv4_header total source destination protocol checksum :
  zlen (ipv4_header total source destination protocol checksum) = 20.
Proof. done. Qed.

Lemma Ipv4Packet_Build_eq source destination protocol payload :
  let total := 20 + zlen payload in
  Ipv4Packet_Build source destination protocol payload
  = Ok (ipv4_header total source destination protocol
          (header_checksum total source destination protocol) ++ payload).
Proof.
  intros total. unfold Ipv4Packet_Build, Ipv4HeaderSize.
  rewrite zeros_add, WriteIpv4Header_spec by zlia. cbn [obind].
  rewrite zlen_zeros by zlia.
  apply copy_at_app; [done|]. rewrite zlen_zeros; zlia.
Qed.

(** The UDP header as written, its checksum field zero. *)
Definition udp_header (sourcePort destinationPort length : Z) : bytes :=
  be_encode 2 sourcePort ++ be_encode 2 destinationPort ++ be_encode 2 length ++ [0; 0].

Lemma Ipv4UdpDatagram_Build_eq source destination sourcePort destinationPort payload :
  let udpLength := 8 + zlen payload in
  let total := 20 + udpLength in
  Ipv4UdpDatagram_Build source destination sourcePort destinationPort payload
  = Ok (ipv4_header total source destination UdpProtocol
          (header_checksum total source destination UdpProtocol)
        ++ udp_header sourcePort destinationPort udpLength ++ payload).
Proof.
  intros udpLength total. pose proof (zlen_nonneg payload) as Hp.
  unfold Ipv4UdpDatagram_Build, Ipv4HeaderSize. fold udpLength.
  rewrite zeros_add, WriteIpv4Header_spec by (unfold udpLength, UdpHeaderSize; lia).
  cbn [obind]. rewrite zlen_zeros by (unfold udpLength, UdpHeaderSize; lia).
  fold udpLength. fold total.
  change (UdpHeaderSize + zlen payload) with udpLength.
  set (hdr := ipv4_header _ _ _ _ _).
  change (ipv4_header total source destination UdpProtocol
    (header_checksum total source destination UdpProtocol)) with hdr.
  replace (zeros udpLength) with ([0; 0; 0; 0; 0; 0; 0; 0] ++ zeros (zlen payload))
    by (unfold udpLength; by rewrite zeros_add).
  unfold udp_header, be_encode.
  generalize hdr (eq_refl : zlen hdr = 20). clear hdr. intros hdr Hh.
  unfold UdpSourcePortOffset, UdpDestinationPortOffset, UdpLengthOffset, Ipv4HeaderSize.
  rewrite <- Hh. rewrite <- (Z.add_0_r (zlen hdr)) at 1. rewrite <- !Z.add_assoc.
  do 6 (erewrite wr_app_r
          by (apply wr_app_l; cbv [wr zlen length]; simpl; reflexivity); cbn [obind]).
  rewrite app_assoc, copy_at_app, <- app_assoc;
    [|by rewrite zlen_app, Hh|by rewrite zlen_zeros].
  simpl. by rewrite !Z.shiftr_0_r.
Qed.

Lemma built_udp_read16 source destination protocol checksum sp dp len total payload :
  let packet := ipv4_header total source destination protocol checksum
                ++ udp_header sp dp len ++ payload in
  Ipv4_read16 packet UdpSourcePortOffset = Ok (u16 sp)
  ∧ Ipv4_read16 packet UdpDestinationPortOffset = Ok (u16 dp)
  ∧ Ipv4_read16 packet UdpLengthOffset = Ok (u16 len).
Proof.
  intros packet. unfold packet, udp_header. set (hdr := ipv4_header _ _ _ _ _).
  assert (zlen hdr = 20) as Hh by done. clearbody hdr.
  rewrite <- !(app_assoc (be_encode 2 _)). split_and!.
  - rewrite Ipv4_read16_app, be_decode_encode; try done. apply bytes_ok_be_encode.
  - rewrite (app_assoc hdr), Ipv4_read16_app, be_decode_encode; try done.
    + by rewrite zlen_app, Hh.
    + apply bytes_ok_be_encode.
  - rewrite (app_assoc hdr), (app_assoc (hdr ++ _)), Ipv4_read16_app, be_decode_encode; try done.
    + by rewrite !zlen_app, Hh.
    + apply bytes_ok_be_encode.
Qed.

(** [Parse] on a packet that starts with 0x45, its header size evaluated. *)
Definition Parse_45 (packet : bytes) : outcome (option Ipv4UdpDatagram) :=
  if zlen packet <? 28 then Ok None else
  let! protocol := rd packet 9 in
  if negb (protocol =? 17) then Ok None else
  let! udpLength := Ipv4_read16 packet 24 in
  if (udpLength <? 8) || (zlen packet <? 20 + udpLength) then Ok None else
  let! payload := slice packet 28 (20 + udpLength) in
  let! source := Ipv4_read32 packet 12 in
  let! destination := Ipv4_read32 packet 16 in
  let! sourcePort := Ipv4_read16 packet 20 in
  let! destinationPort := Ipv4_read16 packet 22 in
  Ok (Some {| udp_source := source; udp_destination := destination;
              udp_sourcePort := sourcePort; udp_destinationPort := destinationPort;
              udp_payload := payload |}).

Lemma Parse_45_eq packet :
  rd packet 0 = Ok 0x45 → Ipv4UdpDatagram_Parse packet = Parse_45 packet.
Proof.
  intros R0. unfold Ipv4UdpDatagram_Parse, Parse_45, Ipv4Packet_Source, Ipv4Packet_Destination,
    not_ipv4. rewrite R0. cbn [obind].
  change (negb (Z.shiftr 69 4 =? Ipv4Version)) with false.
  change (Z.land 69 15 * 4) with 20. unfold Ipv4HeaderSize.
  destruct (zlen packet <? 20) eqn:E; cbn [obind].
  { ifb; [done|]. b2p. lia. }
  change (20 <? 20) with false. cbn [orb]. unfold UdpHeaderSize, UdpProtocol.
  change (20 + 8) with 28.
  destruct (rd_Ok packet 9) as [p ->]; [b2p; lia|]. cbn [obind].
  destruct (negb (p =? 17)), (zlen packet <? 28); try done.
  unfold Ipv4SourceOffset, Ipv4DestinationOffset.
  change (20 + 4) with 24. change (20 + 2) with 22.
  destruct (Ipv4_read16 packet 24); cbn [obind]; [|done..]. ifb; [done|].
  destruct (slice _ _ _); cbn [obind]; [|done..].
  destruct (Ipv4_read32 packet 12); cbn [obind]; [|done..].
  by destruct (Ipv4_read32 packet 16).
Qed.

(** [Ipv4Packet::Build] never fails; the 20-byte header it writes carries a
    checksum that makes the header's Internet checksum zero, as RFC 791 asks,
    its addresses and protocol read back through the accessors, and the payload
    follows it unchanged. *)
Theorem Ipv4Packet_Build_valid source destination protocol payload :
  in_width 8 protocol →
  ∃ packet, Ipv4Packet_Build source destination protocol payload = Ok packet
    ∧ InternetChecksum (take 20 packet) = 0
    ∧ Ipv4Packet_Source packet = Ok (Some (u32 source))
    ∧ Ipv4Packet_Destination packet = Ok (Some (u32 destination))
    ∧ Ipv4Packet_Protocol packet = Ok protocol
    ∧ drop 20 packet = payload.
Proof.
  intros Hp. eexists; split; [apply Ipv4Packet_Build_eq|]. split_and!.
  - rewrite take_app_length' by done. by apply header_checksum_zero.
  - apply built_Source.
  - apply built_Destination.
  - apply built_Protocol.
  - by rewrite drop_app_length' by done.
Qed.

Lemma Ipv4Packet_Build_valid_witness :
  ∃ packet, Ipv4Packet_Build 0x64400001 0x64400002 99 [1; 2; 3] = Ok packet
    ∧ InternetChecksum (take 20 packet) = 0
    ∧ Ipv4Packet_Source packet = Ok (Some (u32 0x64400001))
    ∧ Ipv4Packet_Destination packet = Ok (Some (u32 0x64400002))
    ∧ Ipv4Packet_Protocol packet = Ok 99
    ∧ drop 20 packet = [1; 2; 3].
Proof. apply Ipv4Packet_Build_valid. by split. Defined.

(** A datagram built by [Ipv4UdpDatagram::Build] is read back by [Parse],
    field by field, whenever its length fits the 16-bit UDP length field, and
    [ExtractPayload] asked for the same addresses and ports returns its
    payload. *)
Theorem Ipv4UdpDatagram_roundtrip source destination sourcePort destinationPort payload :
  in_width 32 source → in_width 32 destination →
  in_width 16 sourcePort → in_width 16 destinationPort →
  8 + zlen payload < 65536 →
  ∃ packet,
    Ipv4UdpDatagram_Build source destination sourcePort destinationPort payload = Ok packet
    ∧ Ipv4UdpDatagram_Parse packet
      = Ok (Some {| udp_source := source; udp_destination := destination;
                    udp_sourcePort := sourcePort; udp_destinationPort := destinationPort;
                    udp_payload := payload |})
    ∧ Ipv4UdpDatagram_ExtractPayload packet source destination sourcePort destinationPort
      = Ok (Some payload).
Proof.
  intros Hs Hd Hsp Hdp Hlen. eexists; split; [apply Ipv4UdpDatagram_Build_eq|].
  set (total := 20 + (8 + zlen payload)). set (c := header_checksum _ _ _ _).
  set (udp := udp_header sourcePort destinationPort (8 + zlen payload)).
  pose proof (zlen_nonneg payload) as Hp0.
  destruct (built_udp_read16 source destination UdpProtocol c sourcePort destinationPort
    (8 + zlen payload) total payload) as (Rsp & Rdp & Rlen).
  fold udp in Rsp, Rdp, Rlen. rewrite wrap_id in Rsp, Rdp by done.
  rewrite wrap_id in Rlen by (split; lia).
  pose proof (built_read32_source total source destination UdpProtocol c (udp ++ payload)) as Rs.
  pose proof (built_read32_destination total source destination UdpProtocol c (udp ++ payload)) as Rd.
  pose proof (built_Source total source destination UdpProtocol c (udp ++ payload)) as Rs'.
  pose proof (built_Destination total source destination UdpProtocol c (udp ++ payload)) as Rd'.
  pose proof (built_not_ipv4 total source destination UdpProtocol c (udp ++ payload)) as Rn.
  rewrite wrap_id in Rs, Rd, Rs', Rd' by done.
  set (packet := ipv4_header _ _ _ _ _ ++ udp ++ payload) in *.
  assert (rd packet 0 = Ok 0x45) as R0 by done.
  assert (rd packet 9 = Ok UdpProtocol) as R9 by done.
  assert (zlen packet = 28 + zlen payload) as Hz.
  { unfold packet. rewrite !zlen_app, zlen_ipv4_header. change (zlen udp) with 8. lia. }
  assert (slice packet 28 (20 + (8 + zlen payload)) = Ok payload) as Hsl.
  { unfold packet. rewrite app_assoc. apply slice_app_drop; [done|].
    rewrite zlen_app, zlen_ipv4_header. change (zlen udp) with 8. lia. }
  clearbody packet. rewrite Parse_45_eq by done.
  unfold Parse_45, Ipv4UdpDatagram_ExtractPayload.
  change (zlen packet <? Ipv4UdpHeaderSize) with (zlen packet <? 28).
  rewrite (proj2 (Z.ltb_ge (zlen packet) 28)), R9 by lia. cbn [obind].
  change (negb (UdpProtocol =? 17)) with false. cbn [negb].
  change (negb (UdpProtocol =? UdpProtocol)) with false. cbn [negb].
  unfold UdpSourcePortOffset, UdpDestinationPortOffset, UdpLengthOffset, Ipv4HeaderSize,
    Ipv4SourceOffset, Ipv4DestinationOffset in *.
  change (20 + 4) with 24 in *. change (20 + 2) with 22 in *.
  rewrite Rlen. cbn [obind]. unfold UdpHeaderSize, Ipv4UdpHeaderSize, Ipv4HeaderSize.
  replace ((8 + zlen payload <? 8) || (zlen packet <? 20 + (8 + zlen payload))) with false
    by (symmetry; b2p; lia).
  change (20 + UdpHeaderSize) with 28. rewrite Hsl, Rs, Rd, Rsp, Rdp. cbn [obind].
  by rewrite !Z.eqb_refl.
Qed.

Lemma Ipv4UdpDatagram_roundtrip_witness :
  ∃ packet,
    Ipv4UdpDatagram_Build 0x0a000001 0x0a000002 41641 53 [1; 2; 3] = Ok packet
    ∧ Ipv4UdpDatagram_Parse packet
      = Ok (Some {| udp_source := 0x0a000001; udp_destination := 0x0a000002;
                    udp_sourcePort := 41641; udp_destinationPort := 53;
                    udp_payload := [1; 2; 3] |})
    ∧ Ipv4UdpDatagram_ExtractPayload packet 0x0a000001 0x0a000002 41641 53
      = Ok (Some [1; 2; 3]).
Proof. apply Ipv4UdpDatagram_roundtrip; by split || done. Defined.

Lemma safe_read16 packet offset :
  0 <= offset ∧ offset + 2 <= zlen packet → safe (Ipv4_read16 packet offset).
Proof. intros. unfold Ipv4_read16. safe_auto. Qed.

Lemma safe_read32 packet offset :
  0 <= offset ∧ offset + 4 <= zlen packet → safe (Ipv4_read32 packet offset).
Proof. intros. unfold Ipv4_read32. safe_auto. Qed.

Lemma not_ipv4_false packet :
  not_ipv4 packet = Ok false → 20 <= zlen packet.
Proof. unfold not_ipv4, Ipv4HeaderSize. ifb; [done|]. b2p. lia. Qed.

Lemma not_ipv4_total packet : ∃ b, not_ipv4 packet = Ok b.
Proof.
  unfold not_ipv4. ifb; [by eexists|]. unfold Ipv4HeaderSize in *. b2p.
  destruct (rd_Ok packet 0) as [b ->]; [lia|]. by eexists.
Qed.

Lemma safe_not_ipv4 packet : safe (not_ipv4 packet).
Proof. unfold not_ipv4, Ipv4HeaderSize. safe_auto. Qed.

Lemma Ipv4_read32_Ok packet offset :
  0 <= offset ∧ offset + 4 <= zlen packet → ∃ v, Ipv4_read32 packet offset = Ok v.
Proof.
  intros. unfold Ipv4_read32.
  repeat (edestruct (rd_Ok packet) as [? ->]; [|cbn [obind]]; [lia|]). eauto.
Qed.

Lemma Ipv4_read32_width packet offset v :
  bytes_ok packet → Ipv4_read32 packet offset = Ok v → in_width 32 v.
Proof.
  unfold Ipv4_read32. intros Hok.
  intros (b0 & H0 & (b1 & H1 & (b2 & H2 & (b3 & H3 & [= <-])%obind_Ok_inv)%obind_Ok_inv)
    %obind_Ok_inv)%obind_Ok_inv.
  rewrite be32_lor. apply (be_decode_range [b0; b1; b2; b3]).
  forall_intro; by eapply bytes_ok_rd.
Qed.

Lemma Ipv4_read16_Ok packet offset :
  0 <= offset ∧ offset + 2 <= zlen packet →
  ∃ v, Ipv4_read16 packet offset = Ok v ∧ in_width 16 v.
Proof.
  intros. unfold Ipv4_read16.
  repeat (edestruct (rd_Ok packet) as [? ->]; [|cbn [obind]]; [lia|]).
  eexists; split; [done|]. by apply wrap_range.
Qed.

Lemma Ipv4UdpDatagram_Parse_total packet : ∃ o, Ipv4UdpDatagram_Parse packet = Ok o.
Proof.
  unfold Ipv4UdpDatagram_Parse, Ipv4Packet_Source, Ipv4Packet_Destination.
  destruct (not_ipv4_total packet) as ([|] & Hn); rewrite Hn; cbn [obind]; [by eexists|].
  pose proof (not_ipv4_false _ Hn) as H20.
  unfold UdpHeaderSize, Ipv4SourceOffset, Ipv4DestinationOffset, Ipv4HeaderSize.
  destruct (rd_Ok packet 9) as [p ->]; [lia|]. cbn [obind]. ifb; [by eexists|].
  destruct (rd_Ok packet 0) as [b0 ->]; [lia|]. cbn [obind]. ifb; [by eexists|]. b2p.
  set (h := Z.land b0 15 * 4) in *. clearbody h.
  destruct (Ipv4_read16_Ok packet (h + 4)) as (len & -> & _); [lia|]. cbn [obind].
  ifb; [by eexists|]. b2p. rewrite slice_Ok by lia. cbn [obind].
  destruct (Ipv4_read32_Ok packet 12) as [src ->]; [lia|]. cbn [obind deref].
  destruct (Ipv4_read32_Ok packet 16) as [dst ->]; [lia|]. cbn [obind deref].
  destruct (Ipv4_read16_Ok packet h) as (sp & -> & _); [lia|]. cbn [obind].
  destruct (Ipv4_read16_Ok packet (h + 2)) as (dp & -> & _); [lia|]. by eexists.
Qed.

Lemma safe_Ipv4UdpDatagram_Parse packet : safe (Ipv4UdpDatagram_Parse packet).
Proof. by destruct (Ipv4UdpDatagram_Parse_total packet) as (o & ->). Qed.

Lemma safe_Ipv4UdpDatagram_ExtractPayload packet source destination sp dp :
  safe (Ipv4UdpDatagram_ExtractPayload packet source destination sp dp).
Proof.
  unfold Ipv4UdpDatagram_ExtractPayload.
  unfold UdpSourcePortOffset, UdpDestinationPortOffset, UdpLengthOffset, Ipv4SourceOffset,
    Ipv4DestinationOffset, Ipv4UdpHeaderSize, Ipv4HeaderSize, UdpHeaderSize.
  repeat first [ apply safe_read16; b2p; lia | apply safe_read32; b2p; lia | safe_step ].
Qed.

(** Neither UDP parser reads outside the packet, whatever its bytes and its
    length; and on packets with a plain 20-byte IPv4 header the fast path
    [ExtractPayload] is the reference [Parse] followed by the comparison of the
    four address fields. *)
Theorem Ipv4UdpDatagram_parsers_safe_and_agree packet source destination sp dp :
  safe (Ipv4UdpDatagram_Parse packet)
  ∧ safe (Ipv4UdpDatagram_ExtractPayload packet source destination sp dp)
  ∧ (rd packet 0 = Ok 0x45 →
     Ipv4UdpDatagram_ExtractPayload packet source destination sp dp
     = let! r := Ipv4UdpDatagram_Parse packet in
       Ok (match r with
           | Some g =>
               if (udp_source g =? source) && (udp_destination g =? destination)
                  && (udp_sourcePort g =? sp) && (udp_destinationPort g =? dp)
               then Some (udp_payload g) else None
           | None => None
           end)).
Proof.
  split; [apply safe_Ipv4UdpDatagram_Parse|].
  split; [apply safe_Ipv4UdpDatagram_ExtractPayload|]. intros R0.
  rewrite Parse_45_eq by done. unfold Parse_45, Ipv4UdpDatagram_ExtractPayload.
  unfold UdpSourcePortOffset, UdpDestinationPortOffset, UdpLengthOffset, Ipv4SourceOffset,
    Ipv4DestinationOffset, Ipv4UdpHeaderSize, Ipv4HeaderSize, UdpHeaderSize, UdpProtocol.
  change (20 + 8) with 28. change (20 + 4) with 24. change (20 + 2) with 22.
  destruct (zlen packet <? 28) eqn:E; [done|]. b2p.
  destruct (rd_Ok packet 9) as [p ->]; [lia|]. cbn [obind]. destruct (negb (p =? 17)); [done|].
  destruct (Ipv4_read16_Ok packet 24) as (len & -> & Hlen); [lia|]. cbn [obind].
  destruct (Ipv4_read32_Ok packet 12) as [src ->]; [lia|]. cbn [obind].
  destruct (Ipv4_read32_Ok packet 16) as [dst ->]; [lia|]. cbn [obind].
  destruct (Ipv4_read16_Ok packet 20) as (a & -> & _); [lia|]. cbn [obind].
  destruct (Ipv4_read16_Ok packet 22) as (b & -> & _); [lia|]. cbn [obind].
  destruct ((len <? 8) || (zlen packet <? 20 + len)) eqn:E'.
  { cbn [obind]. by repeat case_match. }
  b2p. destruct (slice packet 28 (20 + len)) eqn:Hsl; cbn [obind udp_source udp_destination
    udp_sourcePort udp_destinationPort udp_payload].
  - by destruct (src =? source), (dst =? destination), (a =? sp), (b =? dp).
  - unfold slice in Hsl. ifb_in Hsl; discriminate.
  - by destruct (safe_slice packet 28 (20 + len)); [lia|].
Qed.
