(* ===== verification/Envelope.v ===== *)
(** * IP envelopes and TSMP messages

    src/core/net/packet/Ip.cpp ([ParseIpEnvelope], which skips the IPv6
    extension headers) and src/core/net/packet/Tsmp.cpp (the ping and pong of
    the peer-to-peer control messages). *)

From S2P Require Import Prelude Text Net Packet.

(** ** Envelopes *)

Definition Ipv6HeaderLength : Z := 40.
Definition HopByHop : Z := 0.
Definition Routing : Z := 43.
Definition Fragment : Z := 44.
Definition DestinationOptions : Z := 60.
Definition MaximumExtensions : Z := 16.

Record IpEnvelope := {
  env_Source : IpAddress;
  env_Destination : IpAddress;
  env_Protocol : Z;
  env_PayloadOffset : Z;
  env_Fragmented : bool;
  env_FirstFragment : bool;
  env_FragmentProtocol : option Z
}.

Definition Ip_Read16 (packet : bytes) (offset : Z) : outcome Z :=
  let! b0 := rd packet offset in
  let! b1 := rd packet (offset + 1) in
  Ok (u16 (Z.lor (Z.shiftl b0 8) b1)).

(** The copy into the 16-byte array is undefined for a longer span. *)
Definition ReadAddress (b : bytes) : outcome IpAddress :=
  if zlen b =? 4 then
    let! b0 := rd b 0 in
    let! b1 := rd b 1 in
    let! b2 := rd b 2 in
    let! b3 := rd b 3 in
    Ok (IpAddress_of_Ipv4 (Ipv4Address_FromOctets b0 b1 b2 b3))
  else
    let! address := copy_at (zeros 16) 0 b in
    Ok (IpAddress_FromIpv6 address).

Definition is_extension (protocol : Z) : bool :=
  (protocol =? HopByHop) || (protocol =? Routing) || (protocol =? Fragment)
  || (protocol =? DestinationOptions).

(** The body of the extension loop: [inl] leaves the function, [inr] goes round
    the loop again.  [packet.size() - PayloadOffset] is unsigned. *)
Definition extension_step (packet : bytes) (extensions : Z) (result : IpEnvelope)
    : outcome (option IpEnvelope + IpEnvelope) :=
  if (MaximumExtensions <? extensions) || (u64 (zlen packet - env_PayloadOffset result) <? 8)
  then Ok (inl None) else
  let offset := env_PayloadOffset result in
  let fragment := env_Protocol result =? Fragment in
  let! length := (if fragment then Ok 8
                  else let! b := rd packet (offset + 1) in Ok ((b + 1) * 8)) in
  if u64 (zlen packet - offset) <? length then Ok (inl None) else
  let! protocol := rd packet offset in
  if fragment then
    let! flags := Ip_Read16 packet (offset + 2) in
    let first := Z.land flags 0xfff8 =? 0 in
    let result :=
      {| env_Source := env_Source result; env_Destination := env_Destination result;
         env_Protocol := protocol; env_PayloadOffset := u64 (offset + length);
         env_Fragmented := negb (Z.land flags (Z.lor 0xfff8 1) =? 0);
         env_FirstFragment := first; env_FragmentProtocol := Some protocol |} in
    Ok (if first then inr result else inl (Some result))
  else
    Ok (inr {| env_Source := env_Source result; env_Destination := env_Destination result;
               env_Protocol := protocol; env_PayloadOffset := u64 (offset + length);
               env_Fragmented := env_Fragmented result;
               env_FirstFragment := env_FirstFragment result;
               env_FragmentProtocol := env_FragmentProtocol result |}).

(** The [while] loop; running out of rounds counts as undefined, and
    [ParseIpEnvelope_total] shows that the 17 rounds given are enough. *)
Fixpoint extension_loop (fuel : nat) (packet : bytes) (extensions : Z) (result : IpEnvelope)
    : outcome (option IpEnvelope) :=
  if is_extension (env_Protocol result) then
    match fuel with
    | O => UB
    | S fuel' =>
        let! r := extension_step packet (extensions + 1) result in
        match r with
        | inl res => Ok res
        | inr result' => extension_loop fuel' packet (extensions + 1) result'
        end
    end
  else Ok (Some result).

Definition ParseIpEnvelope (packet : bytes) : outcome (option IpEnvelope) :=
  if zlen packet =? 0 then Ok None else
  let! b0 := rd packet 0 in
  if Z.shiftr b0 4 =? 4 then
    if zlen packet <? Ipv4HeaderSize then Ok None else
    let payloadOffset := Z.land b0 15 * 4 in
    let! total := Ip_Read16 packet 2 in
    if (payloadOffset <? Ipv4HeaderSize) || (zlen packet <? payloadOffset)
       || negb (total =? zlen packet)
    then Ok None else
    let! s := slice packet 12 16 in
    let! source := ReadAddress s in
    let! d := slice packet 16 20 in
    let! destination := ReadAddress d in
    let! protocol := rd packet 9 in
    let! flags := Ip_Read16 packet 6 in
    Ok (Some {| env_Source := source; env_Destination := destination;
                env_Protocol := protocol; env_PayloadOffset := payloadOffset;
                env_Fragmented := negb (Z.land flags (Z.lor 0x1fff 0x2000) =? 0);
                env_FirstFragment := Z.land flags 0x1fff =? 0;
                env_FragmentProtocol := None |})
  else
    if negb (Z.shiftr b0 4 =? 6) || (zlen packet <? Ipv6HeaderLength) then Ok None else
    let! length := Ip_Read16 packet 4 in
    if negb (length + Ipv6HeaderLength =? zlen packet) then Ok None else
    let! s := slice packet 8 24 in
    let! source := ReadAddress s in
    let! d := slice packet 24 40 in
    let! destination := ReadAddress d in
    let! protocol := rd packet 6 in
    extension_loop 17 packet 0
      {| env_Source := source; env_Destination := destination;
         env_Protocol := protocol; env_PayloadOffset := Ipv6HeaderLength;
         env_Fragmented := false; env_FirstFragment := true; env_FragmentProtocol := None |}.

(** ** TSMP *)

Definition TsmpIpProtocol : Z := 99.
Definition PingType : Z := 112.
Definition PongType : Z := 111.
Definition PingPayloadSize : Z := 9.
Definition PongPayloadSize : Z := PingPayloadSize + 2.
Definition Ipv4MoreFragmentsOrOffsetMask : Z := 0x3f.

Record TsmpPong := { pong_token : bytes; pong_peerApiPort : Z }.

Definition Tsmp_PayloadOffset (packet : bytes) : outcome (option Z) :=
  let! is4 := (if zlen packet <? 20 then Ok false else
               let! b0 := rd packet 0 in
               if negb (Z.shiftr b0 4 =? 4) then Ok false else
               let! protocol := Ipv4Packet_Protocol packet in
               Ok (protocol =? TsmpIpProtocol)) in
  if is4 then
    let! b6 := rd packet 6 in
    let! b7 := rd packet 7 in
    if negb (Z.land b6 Ipv4MoreFragmentsOrOffsetMask =? 0) || negb (b7 =? 0) then Ok None else
    let! b0 := rd packet 0 in
    let headerSize := Z.land b0 0x0f * 4 in
    Ok (if (20 <=? headerSize) && (headerSize <=? zlen packet) then Some headerSize else None)
  else if zlen packet <? 40 then Ok None
  else
    let! b0 := rd packet 0 in
    if negb (Z.shiftr b0 4 =? 6) then Ok None else
    let! next := rd packet 6 in
    Ok (if next =? TsmpIpProtocol then Some 40 else None).

Definition BuildIpv6Response (request payload : bytes) : outcome bytes :=
  let packet := zeros (40 + zlen payload) in
  let! packet := wr packet 0 (u8 (Z.shiftl 6 4)) in
  let! packet := wr packet 4 (u8 (Z.shiftr (zlen payload) 8)) in
  let! packet := wr packet 5 (u8 (zlen payload)) in
  let! packet := wr packet 6 TsmpIpProtocol in
  let! packet := wr packet 7 64 in
  let! destination := slice request 24 40 in
  let! packet := copy_at packet 8 destination in
  let! source := slice request 8 24 in
  let! packet := copy_at packet 24 source in
  copy_at packet 40 payload.

Definition TsmpPacket_BuildPing (source destination : Z) (token : bytes) : outcome bytes :=
  let payload := zeros PingPayloadSize in
  let! payload := wr payload 0 PingType in
  let! payload := copy_at payload 1 token in
  Ipv4Packet_Build source destination TsmpIpProtocol payload.

(** [!offset || packet.size() < *offset + PingPayloadSize || packet[*offset] != type] *)
Definition not_message (packet : bytes) (offset : option Z) (type : Z) : outcome bool :=
  match offset with
  | None => Ok true
  | Some off =>
      if zlen packet <? off + PingPayloadSize then Ok true
      else let! b := rd packet off in Ok (negb (b =? type))
  end.

Definition TsmpPacket_BuildPong (packet : bytes) (peerApiPort : Z) : outcome (option bytes) :=
  let! payloadOffset := Tsmp_PayloadOffset packet in
  let! bad := not_message packet payloadOffset PingType in
  if bad then Ok None else
  let! off := deref payloadOffset in
  let payload := zeros PongPayloadSize in
  let! payload := wr payload 0 PongType in
  let! token := slice packet (off + 1) (off + 9) in
  let! payload := copy_at payload 1 token in
  let! payload := wr payload PingPayloadSize (u8 (Z.shiftr peerApiPort 8)) in
  let! payload := wr payload (PingPayloadSize + 1) (u8 peerApiPort) in
  let! b0 := rd packet 0 in
  if Z.shiftr b0 4 =? 4 then
    let! source := Ipv4Packet_Source packet in
    let! destination := Ipv4Packet_Destination packet in
    match source, destination with
    | Some s, Some d =>
        let! pong := Ipv4Packet_Build d s TsmpIpProtocol payload in Ok (Some pong)
    | _, _ => Ok None
    end
  else let! pong := BuildIpv6Response packet payload in Ok (Some pong).

Definition TsmpPacket_ParsePong (packet : bytes) : outcome (option TsmpPong) :=
  let! payloadOffset := Tsmp_PayloadOffset packet in
  let! bad := not_message packet payloadOffset PongType in
  if bad then Ok None else
  let! off := deref payloadOffset in
  let! token := slice packet (off + 1) (off + 9) in
  let! peerApiPort :=
    (if off + PongPayloadSize <=? zlen packet then
       let! hi := rd packet (off + PingPayloadSize) in
       let! lo := rd packet (off + PingPayloadSize + 1) in
       Ok (u16 (Z.lor (Z.shiftl hi 8) lo))
     else Ok 0) in
  Ok (Some {| pong_token := token; pong_peerApiPort := peerApiPort |}).

(** ** Envelopes are well formed *)

Definition envelope_ok (packet : bytes) (e : IpEnvelope) : Prop :=
  0 <= env_PayloadOffset e <= zlen packet
  ∧ in_width 8 (env_Protocol e)
  ∧ IpAddress_ok (env_Source e) ∧ IpAddress_ok (env_Destination e)
  ∧ (env_FirstFragment e = false → env_Fragmented e = true).

Lemma Ip_Read16_Ok packet offset :
  0 <= offset ∧ offset + 2 <= zlen packet → ∃ v, Ip_Read16 packet offset = Ok v.
Proof. intros (v & Hv & _)%Ipv4_read16_Ok. by exists v. Qed.

Lemma Ip_Read16_width packet offset v : Ip_Read16 packet offset = Ok v → in_width 16 v.
Proof.
  unfold Ip_Read16. intros (? & _ & (? & _ & [= <-])%obind_Ok_inv)%obind_Ok_inv.
  by apply wrap_range.
Qed.

(** The two fragment tests are consistent for any pair of masks. *)
Lemma fragment_masks flags a b :
  (Z.land flags a =? 0) = false → negb (Z.land flags (Z.lor a b) =? 0) = true.
Proof.
  intros H. b2p. rewrite Z.land_lor_distr_r, Z.lor_eq_0_iff. intros [? _]. done.
Qed.

Lemma ReadAddress_spec b :
  bytes_ok b → zlen b = 4 ∨ zlen b = 16 →
  ∃ addr, ReadAddress b = Ok addr ∧ IpAddress_ok addr ∧ IpAddress_Bytes addr = b.
Proof.
  intros Hok Hz. unfold ReadAddress.
  destruct Hz as [Hz|Hz]; rewrite Hz; unfold zlen in Hz.
  - destruct b as [|b0 [|b1 [|b2 [|b3 [|? ?]]]]]; simpl in Hz; try lia.
    eexists; split_and!; [done|apply IpAddress_of_Ipv4_ok|].
    change (Ipv4Address_Octets (Ipv4Address_FromOctets b0 b1 b2 b3) = [b0; b1; b2; b3]).
    by apply Octets_FromOctets.
  - unfold copy_at, zlen. rewrite Hz. simpl.
    change (Z.to_nat 16) with 16%nat. simpl. rewrite app_nil_r.
    eexists; split_and!; [done| |].
    + split_and!; [simpl; lia|done|done].
    + unfold IpAddress_Bytes. simpl. rewrite take_ge; [done|lia].
Qed.

Lemma ReadAddress_take packet a n :
  bytes_ok packet → n = 4%nat ∨ n = 16%nat → Z.of_nat (a + n) <= zlen packet →
  ∃ addr, ReadAddress (take n (drop a packet)) = Ok addr ∧ IpAddress_ok addr
    ∧ IpAddress_Bytes addr = take n (drop a packet).
Proof.
  intros Hok Hn Hle. apply ReadAddress_spec; [by apply Forall_take, Forall_drop|].
  zsimp. lia.
Qed.

(** A round keeps the addresses and moves the payload offset forward. *)
Definition envelope_extends (e e' : IpEnvelope) : Prop :=
  env_Source e' = env_Source e ∧ env_Destination e' = env_Destination e
  ∧ env_PayloadOffset e <= env_PayloadOffset e'.

Lemma extension_step_ok packet extensions e :
  bytes_ok packet → zlen packet < 2 ^ 17 → envelope_ok packet e →
  ∃ r, extension_step packet extensions e = Ok r
    ∧ match r with
      | inl None => True
      | inl (Some e') => envelope_ok packet e' ∧ env_FirstFragment e' = false
                  ∧ envelope_extends e e'
      | inr e' => extensions <= MaximumExtensions ∧ envelope_ok packet e'
                  ∧ envelope_extends e e'
      end.
Proof.
  intros Hok Hlen (Hoff & Hp & Hs & Hd & Hf). unfold extension_step.
  set (off := env_PayloadOffset e) in *.
  assert (∀ x, 0 <= x <= zlen packet → u64 x = x) as Hu
    by (intros; apply wrap_id; split; lia).
  rewrite (Hu (zlen packet - off)) by lia. ifb; [by eexists|]. b2p.
  destruct (rd_Ok packet (off + 1)) as [b1 Hb1]; [lia|].
  destruct (rd_Ok packet off) as [b0 Hb0]; [lia|].
  destruct (Ip_Read16_Ok packet (off + 2)) as [flags Hfl]; [lia|].
  pose proof (bytes_ok_rd _ _ _ Hok Hb0). pose proof (bytes_ok_rd _ _ _ Hok Hb1) as Hb1w.
  unfold in_width in Hb1w.
  rewrite Hb1, Hb0, Hfl. destruct (env_Protocol e =? Fragment); cbn [obind]; ifb;
    try (by eexists); b2p; rewrite Hu by lia.
  - eexists; split; [done|]. destruct (Z.land flags 65528 =? 0) eqn:Ef; simpl.
    + split_and!; [lia|..]; split_and!; simpl; try done; lia.
    + split_and!; [|done|]; split_and!; simpl; try done; try lia.
      intros _. by apply fragment_masks.
  - eexists; split; [done|]. split_and!; [lia|..]; split_and!; simpl; try done; lia.
Qed.

Lemma extension_loop_ok fuel packet extensions e :
  bytes_ok packet → zlen packet < 2 ^ 17 → envelope_ok packet e →
  0 <= extensions <= MaximumExtensions → Z.of_nat fuel + extensions = 17 →
  ∃ r, extension_loop fuel packet extensions e = Ok r
    ∧ ∀ e', r = Some e' → envelope_ok packet e' ∧ envelope_extends e e'
         ∧ (is_extension (env_Protocol e') = true → env_FirstFragment e' = false).
Proof.
  intros Hok Hlen. revert extensions e. induction fuel as [|fuel IH]; intros n e He Hn Hfuel;
    unfold MaximumExtensions in Hn; [lia|]. cbn [extension_loop].
  destruct (is_extension (env_Protocol e)) eqn:Hx.
  2: { eexists; split; [done|]. intros e' [= <-]. split_and!; try done. by rewrite Hx. }
  destruct (extension_step_ok packet (n + 1) e) as ([[e1|]|e1] & -> & H); try done; cbn [obind].
  - eexists; split; [done|]. intros e' [= <-]. by destruct H as (H & -> & ?).
  - by eexists.
  - destruct H as (Hm & He1 & Hmono). unfold MaximumExtensions in Hm.
    destruct (IH (n + 1) e1) as (r & -> & Hr); [done|unfold MaximumExtensions; lia|lia|].
    eexists; split; [done|]. intros e' He'. destruct (Hr e' He') as (? & (Hs' & Hd' & ?) & ?).
    destruct Hmono as (Hs & Hd & ?).
    split_and!; [done|split_and!; [congruence..|lia]|done].
Qed.

(** [ParseIpEnvelope] returns on every packet: it never reads outside it,
    and the extension loop ends within its 17 rounds.  The envelope it returns
    has its payload offset inside the packet, the source and destination bytes of
    the header of that version, and names a transport protocol, never an
    extension header, unless the packet is a later fragment. *)
Theorem ParseIpEnvelope_total packet :
  bytes_ok packet →
  ∃ r, ParseIpEnvelope packet = Ok r
    ∧ ∀ e, r = Some e →
        envelope_ok packet e
        ∧ ((Z.shiftr (packet !!! 0%nat) 4 = 4
            ∧ IpAddress_Bytes (env_Source e) = take 4 (drop 12 packet)
            ∧ IpAddress_Bytes (env_Destination e) = take 4 (drop 16 packet)
            ∧ env_Protocol e = packet !!! 9%nat ∧ 20 <= env_PayloadOffset e)
           ∨ (Z.shiftr (packet !!! 0%nat) 4 = 6
              ∧ IpAddress_Bytes (env_Source e) = take 16 (drop 8 packet)
              ∧ IpAddress_Bytes (env_Destination e) = take 16 (drop 24 packet)
              ∧ (is_extension (env_Protocol e) = true → env_FirstFragment e = false)
              ∧ 40 <= env_PayloadOffset e)).
Proof.
  intros Hok. unfold ParseIpEnvelope, Ipv4HeaderSize, Ipv6HeaderLength.
  ifb; [by eexists|]. b2p. pose proof (zlen_nonneg packet).
  destruct (rd_Ok packet 0) as [b0 Hb0]; [lia|].
  pose proof (proj1 (rd_lookup _ _ _) Hb0) as [_ Hl0].
  apply list_lookup_total_correct in Hl0. change (Z.to_nat 0) with 0%nat in Hl0.
  rewrite Hb0. cbn [obind].
  destruct (Z.shiftr b0 4 =? 4) eqn:E4; b2p.
  - ifb; [by eexists|]. b2p. destruct (Ip_Read16_Ok packet 2) as [total Ht]; [lia|].
    rewrite Ht. cbn [obind]. ifb; [by eexists|]. b2p.
    rewrite !slice_Ok by lia. cbn [obind].
    change (Z.to_nat (16 - 12)) with 4%nat. change (Z.to_nat (20 - 16)) with 4%nat.
    change (Z.to_nat 12) with 12%nat. change (Z.to_nat 16) with 16%nat.
    destruct (ReadAddress_take packet 12 4) as (src & -> & Hs & Bs); [done|lia..|].
    destruct (ReadAddress_take packet 16 4) as (dst & -> & Hd & Bd); [done|lia..|].
    destruct (rd_Ok packet 9) as [p Hp]; [lia|].
    destruct (Ip_Read16_Ok packet 6) as [flags Hf]; [lia|].
    rewrite Hp, Hf. cbn [obind]. eexists; split; [done|]. intros e [= <-].
    apply rd_lookup in Hp as Hp'. destruct Hp' as [_ Hp'%list_lookup_total_correct].
    split.
    + split_and!; simpl; try done; try lia; [by eapply bytes_ok_rd..|].
      by apply fragment_masks.
    + left. rewrite Hl0. split_and!; simpl; try done. lia.
  - ifb; [by eexists|]. b2p. destruct (Ip_Read16_Ok packet 4) as [len Ht]; [lia|].
    rewrite Ht. cbn [obind]. ifb; [by eexists|]. b2p.
    pose proof (Ip_Read16_width _ _ _ Ht) as [_ Hw].
    rewrite !slice_Ok by lia. cbn [obind].
    change (Z.to_nat (24 - 8)) with 16%nat. change (Z.to_nat (40 - 24)) with 16%nat.
    change (Z.to_nat 8) with 8%nat. change (Z.to_nat 24) with 24%nat.
    destruct (ReadAddress_take packet 8 16) as (src & -> & Hs & Bs); [done|lia..|].
    destruct (ReadAddress_take packet 24 16) as (dst & -> & Hd & Bd); [done|lia..|].
    destruct (rd_Ok packet 6) as [p Hp]; [lia|]. rewrite Hp. cbn [obind].
    set (e0 := {| env_Source := src |}).
    destruct (extension_loop_ok 17 packet 0 e0) as (r & Hr & Hrok); try done; try lia.
    { split_and!; simpl; try done; try lia; by eapply bytes_ok_rd. }
    eexists; split; [exact Hr|]. intros e He.
    destruct (Hrok e He) as (? & (Hse & Hde & Hoff) & ?). split; [done|right].
    rewrite Hl0, Hse, Hde. simpl in Hoff. destruct E0. by split_and!.
Qed.

(** An IPv6 packet with a hop-by-hop header before its UDP payload. *)
Definition envelope_sample : bytes :=
  [0x60; 0; 0; 0; 0; 16; 0; 64] ++ replicate 15 0 ++ [1] ++ replicate 15 0 ++ [2]
  ++ [17; 0; 1; 4; 0; 0; 0; 0] ++ [0; 7; 0; 7; 0; 8; 0; 0].

Lemma ParseIpEnvelope_total_witness :
  bytes_ok envelope_sample
  ∧ (∃ e, ParseIpEnvelope envelope_sample = Ok (Some e) ∧ env_PayloadOffset e = 48)
  ∧ ∃ r, ParseIpEnvelope envelope_sample = Ok r
      ∧ ∀ e, r = Some e → envelope_ok envelope_sample e.
Proof.
  assert (bytes_ok envelope_sample) as Hok by (forall_intro; by split).
  split; [done|]. split; [by eexists|].
  destruct (ParseIpEnvelope_total envelope_sample Hok) as (r & Hr & He).
  exists r. split; [done|]. intros e ->. by apply He.
Defined.

(** ** TSMP answers *)

Lemma Tsmp_PayloadOffset_Ok packet :
  ∃ r, Tsmp_PayloadOffset packet = Ok r
    ∧ ∀ off, r = Some off →
        20 <= off <= zlen packet
        ∧ (rd packet 0 = Ok (packet !!! 0%nat))
        ∧ (Z.shiftr (packet !!! 0%nat) 4 = 4 ∨ 40 <= zlen packet).
Proof.
  unfold Tsmp_PayloadOffset, Ipv4Packet_Protocol, not_ipv4, Ipv4HeaderSize.
  destruct (zlen packet <? 20) eqn:E; b2p; cbn [obind].
  { ifb; [by eexists|]. b2p. lia. }
  destruct (rd_Ok packet 0) as [b0 Hb0]; [lia|].
  pose proof (proj1 (rd_lookup _ _ _) Hb0) as [_ Hl0%list_lookup_total_correct].
  change (Z.to_nat 0) with 0%nat in Hl0. rewrite Hl0, Hb0. cbn [obind].
  destruct (rd_Ok packet 9) as [b9 ->]; [lia|].
  destruct (rd_Ok packet 6) as [b6 ->]; [lia|].
  destruct (rd_Ok packet 7) as [b7 ->]; [lia|].
  change Ipv4Version with 4.
  destruct (Z.eqb_spec (Z.shiftr b0 4) 4); cbn [obind negb]; [destruct (b9 =? _)|];
    cbn [obind negb].
  - ifb; [by eexists|]. eexists; split; [done|]. intros off Ho. ifb_in Ho; [|done].
    simplify_eq. b2p. split_and!; [lia..|done|by left].
  - ifb; [by eexists|]. rewrite (proj2 (Z.eqb_neq (Z.shiftr b0 4) 6)) by lia. by eexists.
  - ifb; [by eexists|]. b2p. ifb; [by eexists|]. cbn [obind].
    eexists; split; [done|]. intros off Ho. ifb_in Ho; [|done]. simplify_eq.
    split_and!; [lia..|done|by right].
Qed.

Lemma not_message_Ok packet off type :
  (∀ o, off = Some o → 0 <= o) →
  ∃ b, not_message packet off type = Ok b
    ∧ (b = false → ∃ o, off = Some o ∧ o + 9 <= zlen packet ∧ rd packet o = Ok type).
Proof.
  intros Ho. unfold not_message, PingPayloadSize. destruct off as [o|]; [|by eexists].
  specialize (Ho o eq_refl). ifb; [by eexists|]. b2p.
  destruct (rd_Ok packet o) as [v Hv]; [lia|]. rewrite Hv. cbn [obind].
  eexists; split; [done|]. intros Hb. b2p. subst v. exists o. by split_and!.
Qed.

Lemma safe_TsmpPacket_ParsePong packet : safe (TsmpPacket_ParsePong packet).
Proof.
  unfold TsmpPacket_ParsePong, PingPayloadSize, PongPayloadSize.
  destruct (Tsmp_PayloadOffset_Ok packet) as (o & -> & Ho). cbn [obind].
  destruct (not_message_Ok packet o PongType) as (b & -> & Hb).
  { intros off ->. destruct (Ho off eq_refl). lia. }
  cbn [obind]. destruct b; [done|]. destruct (Hb eq_refl) as (off & -> & Hlen & _).
  destruct (Ho off eq_refl) as (? & _). cbn [deref obind].
  unfold PingPayloadSize. safe_auto.
Qed.

Definition pong_payload (token : bytes) (port : Z) : bytes :=
  [PongType] ++ token ++ be_encode 2 port.

Lemma zlen_pong_payload token port : zlen token = 8 → zlen (pong_payload token port) = 11.
Proof. intros Ht. unfold pong_payload. rewrite !zlen_app, Ht. done. Qed.

(** A message whose payload starts at [zlen hdr] and is a pong is read back. *)
Lemma ParsePong_built hdr token port :
  Tsmp_PayloadOffset (hdr ++ pong_payload token port) = Ok (Some (zlen hdr)) →
  zlen token = 8 → in_width 16 port →
  TsmpPacket_ParsePong (hdr ++ pong_payload token port)
  = Ok (Some {| pong_token := token; pong_peerApiPort := port |}).
Proof.
  intros Hoff Ht Hport. unfold TsmpPacket_ParsePong. rewrite Hoff.
  assert (slice (hdr ++ pong_payload token port) (zlen hdr + 1) (zlen hdr + 9) = Ok token) as Hsl.
  { unfold pong_payload. rewrite app_assoc. apply slice_full; rewrite zlen_app, ?Ht.
    all: change (zlen [PongType]) with 1; lia. }
  assert (Ipv4_read16 (hdr ++ pong_payload token port) (zlen hdr + 9) = Ok port) as Hp.
  { unfold pong_payload. rewrite !app_assoc, <- (app_nil_r (be_encode 2 port)).
    rewrite Ipv4_read16_app, be_decode_encode; [by rewrite Z.mod_small| |done|].
    - rewrite !zlen_app, Ht. change (zlen [PongType]) with 1. lia.
    - apply bytes_ok_be_encode. }
  cbn [obind not_message deref]. rewrite Hsl.
  rewrite zlen_app, zlen_pong_payload by done.
  unfold PongPayloadSize, PingPayloadSize.
  rewrite (proj2 (Z.ltb_ge _ _)), (proj2 (Z.leb_le _ _)) by lia.
  rewrite (rd_app_r hdr _ (zlen hdr)), Z.sub_diag by lia.
  change (rd (pong_payload token port) 0) with (Ok PongType).
  cbn [obind]. rewrite Z.eqb_refl. cbn [negb].
  change (let! hi := rd (hdr ++ pong_payload token port) (zlen hdr + 9) in
          let! lo := rd (hdr ++ pong_payload token port) (zlen hdr + 9 + 1) in
          Ok (u16 (Z.lor (Z.shiftl hi 8) lo)))
    with (Ipv4_read16 (hdr ++ pong_payload token port) (zlen hdr + 9)).
  by rewrite Hp.
Qed.

Lemma Tsmp_PayloadOffset_ipv4 total source destination checksum payload :
  Tsmp_PayloadOffset (ipv4_header total source destination TsmpIpProtocol checksum ++ payload)
  = Ok (Some 20).
Proof.
  unfold Tsmp_PayloadOffset. rewrite built_Protocol. set (packet := ipv4_header _ _ _ _ _ ++ _).
  assert (20 <= zlen packet).
  { unfold packet. rewrite zlen_app, zlen_ipv4_header. pose proof (zlen_nonneg payload). lia. }
  rewrite (proj2 (Z.ltb_ge _ _)) by done.
  change (rd packet 0) with (Ok 69). change (rd packet 6) with (Ok 0).
  change (rd packet 7) with (Ok 0). clearbody packet. cbn [obind].
  change (Z.land 69 15 * 4) with 20.
  rewrite (proj2 (Z.leb_le 20 (zlen packet))) by done. done.
Qed.

(** The header [BuildIpv6Response] writes. *)
Definition ipv6_header (length : Z) (source destination : bytes) : bytes :=
  [0x60; 0; 0; 0] ++ be_encode 2 length ++ [TsmpIpProtocol; 64] ++ source ++ destination.

Lemma BuildIpv6Response_eq request payload :
  40 <= zlen request →
  BuildIpv6Response request payload
  = Ok (ipv6_header (zlen payload) (take 16 (drop 24 request)) (take 16 (drop 8 request))
        ++ payload).
Proof.
  intros Hr. unfold BuildIpv6Response. rewrite !slice_Ok by lia.
  change (Z.to_nat (24 - 8)) with 16%nat. change (Z.to_nat (40 - 24)) with 16%nat.
  change (Z.to_nat 8) with 8%nat. change (Z.to_nat 24) with 24%nat.
  assert (zlen (take 16 (drop 24 request)) = 16) as Hd by (zsimp; lia).
  assert (zlen (take 16 (drop 8 request)) = 16) as Hs by (zsimp; lia).
  revert Hd Hs. generalize (take 16 (drop 24 request)) (take 16 (drop 8 request)).
  intros dst src Hd Hs.
  replace (zeros (40 + zlen payload))
    with ([0; 0; 0; 0; 0; 0; 0; 0] ++ zeros 16 ++ zeros 16 ++ zeros (zlen payload))
    by (rewrite zeros_add by zlia; done).
  remember (zlen payload) as n eqn:Hn.
  do 5 (erewrite wr_app_l by (cbv [wr zlen length]; simpl; reflexivity); cbn [obind]).
  rewrite copy_at_mid by done. cbn [obind].
  rewrite (app_assoc _ dst), copy_at_mid by (by rewrite ?zlen_app, ?Hd). cbn [obind].
  rewrite (app_assoc _ src), copy_at_app.
  - unfold ipv6_header. cbn [be_encode app]. rewrite Z.shiftr_0_r, <- !app_assoc. done.
  - by rewrite !zlen_app, Hd, Hs.
  - subst n. rewrite zlen_zeros; zlia.
Qed.

Lemma Tsmp_PayloadOffset_ipv6 n source destination payload :
  zlen source = 16 → zlen destination = 16 →
  Tsmp_PayloadOffset (ipv6_header n source destination ++ payload) = Ok (Some 40).
Proof.
  intros Hs Hd. unfold Tsmp_PayloadOffset.
  set (packet := ipv6_header _ _ _ ++ _).
  assert (40 <= zlen packet).
  { unfold packet, ipv6_header. rewrite !zlen_app, Hs, Hd, zlen_be_encode.
    pose proof (zlen_nonneg payload). change (zlen [_; _; _; _]) with 4.
    change (zlen [_; _]) with 2. lia. }
  rewrite (proj2 (Z.ltb_ge (zlen packet) 20)), (proj2 (Z.ltb_ge (zlen packet) 40)) by lia.
  change (rd packet 0) with (Ok 0x60). change (rd packet 6) with (Ok TsmpIpProtocol). done.
Qed.

(** The pong's addresses are the ping's, swapped. *)
Definition addresses_swapped (ping pong : bytes) : Prop :=
  if Z.shiftr (ping !!! 0%nat) 4 =? 4
  then Ipv4Packet_Source pong = Ipv4Packet_Destination ping
       ∧ Ipv4Packet_Destination pong = Ipv4Packet_Source ping
  else take 16 (drop 8 pong) = take 16 (drop 24 ping)
       ∧ take 16 (drop 24 pong) = take 16 (drop 8 ping).

Lemma Ipv4Packet_addresses_Ok packet :
  bytes_ok packet → 20 <= zlen packet → rd packet 0 = Ok (packet !!! 0%nat) →
  Z.shiftr (packet !!! 0%nat) 4 = 4 →
  ∃ s d, Ipv4Packet_Source packet = Ok (Some s) ∧ Ipv4Packet_Destination packet = Ok (Some d)
    ∧ in_width 32 s ∧ in_width 32 d.
Proof.
  intros Hok Hz Hb0 H4. unfold Ipv4Packet_Source, Ipv4Packet_Destination, not_ipv4.
  rewrite (proj2 (Z.ltb_ge (zlen packet) Ipv4HeaderSize)), Hb0 by done. cbn [obind].
  rewrite H4. change (negb (4 =? Ipv4Version)) with false. cbn [obind].
  destruct (Ipv4_read32_Ok packet Ipv4SourceOffset) as [s Hs];
    [unfold Ipv4SourceOffset; lia|].
  destruct (Ipv4_read32_Ok packet Ipv4DestinationOffset) as [d Hd];
    [unfold Ipv4DestinationOffset; lia|].
  rewrite Hs, Hd. cbn [obind].
  exists s, d. split_and!; [done..| |]; by eapply Ipv4_read32_width.
Qed.

Lemma ipv6_header_addresses n source destination payload :
  length source = 16%nat → length destination = 16%nat →
  take 16 (drop 8 (ipv6_header n source destination ++ payload)) = source
  ∧ take 16 (drop 24 (ipv6_header n source destination ++ payload)) = destination.
Proof.
  intros Hs Hd. unfold ipv6_header. cbn [be_encode app].
  change (drop 24 (?a :: ?b :: ?c :: ?d :: ?e :: ?f :: ?g :: ?h :: ?l)) with (drop 16 l).
  cbn [drop]. rewrite <- !app_assoc. split; [by apply take_app_length'|].
  by rewrite drop_app_length', take_app_length' by done.
Qed.

(** What [BuildPong] answers to a ping at offset [off], as bytes. *)
Lemma BuildPong_eq packet port off :
  bytes_ok packet → Tsmp_PayloadOffset packet = Ok (Some off) →
  off + 9 <= zlen packet → rd packet off = Ok PingType →
  ∃ hdr, TsmpPacket_BuildPong packet port
         = Ok (Some (hdr ++ pong_payload (take 8 (drop (Z.to_nat (off + 1)) packet)) port))
    ∧ Tsmp_PayloadOffset (hdr ++ pong_payload (take 8 (drop (Z.to_nat (off + 1)) packet)) port)
      = Ok (Some (zlen hdr))
    ∧ addresses_swapped packet
        (hdr ++ pong_payload (take 8 (drop (Z.to_nat (off + 1)) packet)) port).
Proof.
  intros Hok Ho Hlen Hty. unfold TsmpPacket_BuildPong. rewrite Ho. cbn [obind not_message].
  destruct (Tsmp_PayloadOffset_Ok packet) as (o & Ho' & Hoff). rewrite Ho in Ho'. simplify_eq.
  destruct (Hoff off eq_refl) as (Hb & Hb0 & Hver).
  change PingPayloadSize with 9. rewrite (proj2 (Z.ltb_ge _ _)), Hty by lia.
  cbn [obind deref]. change (negb (PingType =? PingType)) with false. cbn [obind].
  change (zeros PongPayloadSize) with [0; 0; 0; 0; 0; 0; 0; 0; 0; 0; 0].
  change (wr [0; 0; 0; 0; 0; 0; 0; 0; 0; 0; 0] 0 PongType)
    with (Ok ([PongType] ++ [0; 0; 0; 0; 0; 0; 0; 0] ++ [0; 0])).
  rewrite slice_Ok by lia. replace (Z.to_nat (off + 9 - (off + 1))) with 8%nat by lia.
  set (token := take 8 _). assert (zlen token = 8) as Ht by (unfold token; zsimp; lia).
  cbn [obind]. rewrite copy_at_mid by done. cbn [obind]. rewrite app_assoc.
  assert (zlen ([PongType] ++ token) = 9) as H9 by (rewrite zlen_app, Ht; done).
  replace 9 with (zlen ([PongType] ++ token) + 0) by lia.
  rewrite <- Z.add_assoc, (wr_app_r _ [0; 0] 0 _ [u8 (Z.shiftr port 8); 0] eq_refl).
  cbn [obind]. rewrite (wr_app_r _ [_; 0] (0 + 1) (u8 port) [_; u8 port] eq_refl).
  cbn [obind]. rewrite Hb0. cbn [obind].
  replace (([PongType] ++ token) ++ _) with (pong_payload token port)
    by (unfold pong_payload; cbn [be_encode]; by rewrite Z.shiftr_0_r, <- app_assoc).
  unfold addresses_swapped. destruct (Z.shiftr (packet !!! 0%nat) 4 =? 4) eqn:E4; b2p.
  - destruct (Ipv4Packet_addresses_Ok packet) as (s & d & -> & -> & Hs & Hd); [done|lia|done..|].
    cbn [obind]. rewrite Ipv4Packet_Build_eq. cbn [obind]. eexists; split_and!; [done|..].
    + by rewrite Tsmp_PayloadOffset_ipv4.
    + by rewrite built_Source, wrap_id.
    + by rewrite built_Destination, wrap_id.
  - rewrite BuildIpv6Response_eq by lia. cbn [obind]. eexists; split_and!; [done|..].
    + rewrite Tsmp_PayloadOffset_ipv6; [|zsimp; lia..]. unfold ipv6_header.
      do 2 f_equal. rewrite !zlen_app, zlen_be_encode. zsimp. lia.
    + apply ipv6_header_addresses; rewrite length_take, length_drop; unfold zlen in *; lia.
    + apply ipv6_header_addresses; rewrite length_take, length_drop; unfold zlen in *; lia.
Qed.

(** [BuildPong] and [ParsePong] return on every packet.  A pong that
    [BuildPong] makes, from an IPv4 or an IPv6 ping, is read back by [ParsePong]
    with the ping's token and the given port, and its addresses are those of the
    ping, swapped. *)
Theorem TsmpPacket_answers packet port :
  bytes_ok packet → in_width 16 port →
  safe (TsmpPacket_ParsePong packet)
  ∧ (∃ r, TsmpPacket_BuildPong packet port = Ok r
     ∧ ∀ pong, r = Some pong →
         addresses_swapped packet pong
         ∧ ∃ off, Tsmp_PayloadOffset packet = Ok (Some off)
           ∧ rd packet off = Ok PingType
           ∧ TsmpPacket_ParsePong pong
             = Ok (Some {| pong_token := take 8 (drop (Z.to_nat (off + 1)) packet);
                           pong_peerApiPort := port |})).
Proof.
  intros Hok Hport. split; [apply safe_TsmpPacket_ParsePong|].
  destruct (Tsmp_PayloadOffset_Ok packet) as (o & Ho & Hoff).
  destruct (not_message_Ok packet o PingType) as (b & Hb & Hm).
  { intros off ->. destruct (Hoff off eq_refl). lia. }
  destruct b.
  { unfold TsmpPacket_BuildPong. rewrite Ho. cbn [obind]. rewrite Hb. by eexists. }
  destruct (Hm eq_refl) as (off & -> & Hlen & Hty).
  destruct (BuildPong_eq packet port off) as (hdr & -> & Hp & Hsw); try done.
  eexists; split; [done|]. intros pong [= <-]. split; [done|]. exists off. split_and!; try done.
  apply ParsePong_built; try done. destruct (Hoff off eq_refl). zsimp. lia.
Qed.

(** The answer to a ping built by [BuildPing] carries the ping's token and
    the answering node's port back to the pinging node. *)
Theorem TsmpPacket_ping_pong source destination token port :
  in_width 32 source → in_width 32 destination → bytes_ok token → zlen token = 8 →
  in_width 16 port →
  ∃ ping pong,
    TsmpPacket_BuildPing source destination token = Ok ping
    ∧ TsmpPacket_BuildPong ping port = Ok (Some pong)
    ∧ TsmpPacket_ParsePong pong
      = Ok (Some {| pong_token := token; pong_peerApiPort := port |})
    ∧ Ipv4Packet_Source pong = Ok (Some destination)
    ∧ Ipv4Packet_Destination pong = Ok (Some source).
Proof.
  intros Hs Hd Htok Ht Hport. unfold TsmpPacket_BuildPing.
  change (zeros PingPayloadSize) with [0; 0; 0; 0; 0; 0; 0; 0; 0].
  change (wr [0; 0; 0; 0; 0; 0; 0; 0; 0] 0 PingType)
    with (Ok ([PingType] ++ [0; 0; 0; 0; 0; 0; 0; 0])). cbn [obind].
  rewrite copy_at_app by done. cbn [obind]. rewrite Ipv4Packet_Build_eq.
  set (hdr := ipv4_header _ _ _ _ _).
  assert (zlen hdr = 20) as Hh by done.
  pose proof (Tsmp_PayloadOffset_ipv4 (20 + zlen ([PingType] ++ token)) source destination
    (header_checksum (20 + zlen ([PingType] ++ token)) source destination TsmpIpProtocol)
    ([PingType] ++ token)) as Hoff. fold hdr in Hoff.
  destruct (BuildPong_eq (hdr ++ [PingType] ++ token) port 20) as (h' & Hb & Hp & Hsw).
  { apply Forall_app_2; [by apply ipv4_header_ok|]. apply Forall_cons_2; [by split|done]. }
  { done. }
  { rewrite !zlen_app, Hh, Ht. done. }
  { done. }
  change (Z.to_nat (20 + 1)) with 21%nat in *.
  assert (take 8 (drop 21 (hdr ++ [PingType] ++ token)) = token) as Hdrop.
  { rewrite app_assoc, drop_app_length' by done. apply take_ge. unfold zlen in Ht. lia. }
  rewrite Hdrop in *. eexists _, _. split_and!; [done|done|by apply ParsePong_built|..].
  - destruct Hsw as [-> _]. unfold hdr. by rewrite built_Destination, wrap_id.
  - destruct Hsw as [_ ->]. unfold hdr. by rewrite built_Source, wrap_id.
Qed.

Lemma TsmpPacket_ping_pong_witness :
  ∃ ping pong,
    TsmpPacket_BuildPing 0x64400001 0x64400002 [1; 2; 3; 4; 5; 6; 7; 8] = Ok ping
    ∧ TsmpPacket_BuildPong ping 443 = Ok (Some pong)
    ∧ TsmpPacket_ParsePong pong
      = Ok (Some {| pong_token := [1; 2; 3; 4; 5; 6; 7; 8]; pong_peerApiPort := 443 |})
    ∧ Ipv4Packet_Source pong = Ok (Some 0x64400002)
    ∧ Ipv4Packet_Destination pong = Ok (Some 0x64400001).
Proof. apply TsmpPacket_ping_pong; try done; forall_intro; by split. Defined.

(** A ping over IPv6. *)
Definition ping6_sample : bytes :=
  [0x60; 0; 0; 0; 0; 9; 99; 64] ++ replicate 15 0 ++ [1] ++ replicate 15 0 ++ [2]
  ++ [PingType; 1; 2; 3; 4; 5; 6; 7; 8].

Lemma TsmpPacket_answers_witness :
  (∃ pong, TsmpPacket_BuildPong ping6_sample 443 = Ok (Some pong))
  ∧ safe (TsmpPacket_ParsePong ping6_sample)
  ∧ ∃ r, TsmpPacket_BuildPong ping6_sample 443 = Ok r
      ∧ ∀ pong, r = Some pong → addresses_swapped ping6_sample pong.
Proof.
  split; [by eexists|].
  destruct (TsmpPacket_answers ping6_sample 443) as [Hs (r & Hr & Hp)];
    [forall_intro; by split|by split|].
  split; [done|]. exists r. split; [done|]. intros pong ->. by apply Hp.
Defined.
