(* ===== verification/Stun.v ===== *)
(** * STUN binding requests and responses

    src/core/net/stun/Stun.cpp: the request a node sends to learn its mapped
    address, and the parser of the response, which walks the attributes of a
    datagram any host can send. *)

From S2P Require Import Prelude Text Net Packet.

Definition BindingRequest : Z := 0x0001.
Definition BindingSuccessResponse : Z := 0x0101.
Definition SoftwareAttribute : Z := 0x8022.
Definition FingerprintAttribute : Z := 0x8028.
Definition XorMappedAddressAttribute : Z := 0x0020.
Definition AlternateXorMappedAddressAttribute : Z := 0x8020.
Definition MagicCookie : Z := 0x2112A442.
Definition FingerprintXor : Z := 0x5354554e.
Definition Stun_HeaderSize : Z := 20.
Definition Ipv4XorMappedAddressSize : Z := 8.
Definition Stun_Software : bytes := lit "tailnode".

Definition Stun_Write16 (output : bytes) (value : Z) : bytes :=
  output ++ [u8 (Z.shiftr value 8); u8 value].

Definition Stun_Write32 (output : bytes) (value : Z) : bytes :=
  output ++ [u8 (Z.shiftr value 24); u8 (Z.shiftr value 16); u8 (Z.shiftr value 8); u8 value].

Definition Stun_Read16 (input : bytes) (offset : Z) : outcome Z :=
  let! b0 := rd input offset in
  let! b1 := rd input (offset + 1) in
  Ok (u16 (Z.lor (Z.shiftl b0 8) b1)).

Definition Stun_Read32 (input : bytes) (offset : Z) : outcome Z :=
  let! b0 := rd input offset in
  let! b1 := rd input (offset + 1) in
  let! b2 := rd input (offset + 2) in
  let! b3 := rd input (offset + 3) in
  Ok (Z.lor (Z.lor (Z.lor (Z.shiftl b0 24) (Z.shiftl b1 16)) (Z.shiftl b2 8)) b3).

(** One step of the inner loop over the bits. *)
Definition Crc32_bit (crc : Z) : Z :=
  let mask := u32 (0 - Z.land crc 1) in
  Z.lxor (Z.shiftr crc 1) (Z.land 0xedb88320 mask).

Definition Crc32_byte (crc byte : Z) : Z := Nat.iter 8 Crc32_bit (Z.lxor crc byte).

Definition Crc32 (input : bytes) : Z := u32 (Z.lnot (fold_left Crc32_byte input 0xffffffff)).

(** The check value of the CRC-32 of IEEE 802.3. *)
Example Crc32_check : Crc32 (lit "123456789") = 0xcbf43926.
Proof. vm_compute. reflexivity. Qed.

Definition TransactionId_BuildBindingRequest (id : bytes) : bytes :=
  let softwareLength := zlen Stun_Software in
  let attributeLength := 4 + softwareLength + 8 in
  let request := Stun_Write16 [] BindingRequest in
  let request := Stun_Write16 request attributeLength in
  let request := Stun_Write32 request MagicCookie in
  let request := request ++ id in
  let request := Stun_Write16 request SoftwareAttribute in
  let request := Stun_Write16 request softwareLength in
  let request := request ++ Stun_Software in
  let request := Stun_Write16 request FingerprintAttribute in
  let request := Stun_Write16 request 4 in
  Stun_Write32 request (Z.lxor (Crc32 request) FingerprintXor).

(** The [while] loop over the attributes; running out of rounds counts as
    undefined, which [ParseMappedIpv4Endpoint_total] excludes. *)
Fixpoint attribute_loop (fuel : nat) (response : bytes) (messageLength offset : Z)
    : outcome (option Endpoint) :=
  if offset + 4 <=? Stun_HeaderSize + messageLength then
    match fuel with
    | O => UB
    | S fuel' =>
        let! type := Stun_Read16 response offset in
        let! length := Stun_Read16 response (offset + 2) in
        let offset := offset + 4 in
        if zlen response <? offset + length then Ok None else
        let! mapped :=
          (if ((type =? XorMappedAddressAttribute)
               || (type =? AlternateXorMappedAddressAttribute))
              && (Ipv4XorMappedAddressSize <=? length)
           then let! family := rd response (offset + 1) in Ok (family =? 0x01)
           else Ok false) in
        if mapped then
          let! p := Stun_Read16 response (offset + 2) in
          let port := u16 (Z.lxor p (Z.shiftr MagicCookie 16)) in
          let! a := Stun_Read32 response (offset + 4) in
          let address := Z.lxor a MagicCookie in
          Ok (Some {| ep_address := Ipv4Address_FromHostOrder address; ep_port := port |})
        else
          attribute_loop fuel' response messageLength
            (offset + Z.land (length + 3) (u64 (Z.lnot 3)))
    end
  else Ok None.

Definition TransactionId_ParseMappedIpv4Endpoint (id response : bytes)
    : outcome (option Endpoint) :=
  if zlen response <? Stun_HeaderSize then Ok None else
  let! type := Stun_Read16 response 0 in
  if negb (type =? BindingSuccessResponse) then Ok None else
  let! cookie := Stun_Read32 response 4 in
  if negb (cookie =? MagicCookie) then Ok None else
  let! theirs := slice response 8 (8 + zlen id) in
  if negb (bool_decide (theirs = id)) then Ok None else
  let! messageLength := Stun_Read16 response 2 in
  if zlen response <? Stun_HeaderSize + messageLength then Ok None else
  attribute_loop (S (Z.to_nat messageLength)) response messageLength Stun_HeaderSize.

(** ** The parser returns on every datagram *)

Lemma Stun_Read16_Ok packet offset :
  0 <= offset ∧ offset + 2 <= zlen packet →
  ∃ v, Stun_Read16 packet offset = Ok v ∧ in_width 16 v.
Proof. apply Ipv4_read16_Ok. Qed.

Lemma Stun_Read32_Ok packet offset :
  0 <= offset ∧ offset + 4 <= zlen packet → ∃ v, Stun_Read32 packet offset = Ok v.
Proof. apply Ipv4_read32_Ok. Qed.

(** [(length + 3) & ~3] rounds up to a multiple of four. *)
Lemma pad4_spec length :
  in_width 16 length → Z.land (length + 3) (u64 (Z.lnot 3)) = (length + 3) / 4 * 4.
Proof.
  intros Hl. unfold in_width in Hl. change (u64 (Z.lnot 3)) with (Z.ldiff (Z.ones 64) (Z.ones 2)).
  rewrite Z.ldiff_land, Z.land_assoc, Z.land_ones by lia.
  rewrite Z.mod_small by lia. rewrite <- Z.ldiff_land, Z.ldiff_ones_r by lia.
  by rewrite Z.shiftl_mul_pow2, Z.shiftr_div_pow2 by lia.
Qed.

Lemma attribute_loop_total fuel response messageLength offset :
  Stun_HeaderSize + messageLength <= zlen response → 0 <= offset →
  Stun_HeaderSize + messageLength < offset + 4 + Z.of_nat fuel →
  ∃ r, attribute_loop fuel response messageLength offset = Ok r.
Proof.
  intros Hlen. revert offset. induction fuel as [|fuel IH]; intros offset Hoff Hfuel;
    cbn [attribute_loop]; ifb; try (by eexists); b2p; [lia|].
  destruct (Stun_Read16_Ok response offset) as (type & -> & _); [lia|]. cbn [obind].
  destruct (Stun_Read16_Ok response (offset + 2)) as (length & -> & Hl); [lia|]. cbn [obind].
  ifb; [by eexists|]. b2p. rewrite pad4_spec by done. unfold in_width in Hl.
  assert (0 <= (length + 3) / 4) by (apply Z.div_pos; lia).
  assert (∃ r, attribute_loop fuel response messageLength (offset + 4 + (length + 3) / 4 * 4)
               = Ok r) as Hrec by (apply IH; lia).
  ifb; cbn [obind]; [|done]. unfold Ipv4XorMappedAddressSize in *. b2p.
  destruct (rd_Ok response (offset + 4 + 1)) as [f ->]; [lia|]. cbn [obind].
  destruct (f =? 1); [|done].
  destruct (Stun_Read16_Ok response (offset + 4 + 2)) as (p & -> & _); [lia|]. cbn [obind].
  destruct (Stun_Read32_Ok response (offset + 4 + 4)) as (a & ->); [lia|]. by eexists.
Qed.

(** Whatever datagram arrives, [ParseMappedIpv4Endpoint] returns: it reads
    nothing outside the datagram and its attribute loop ends. *)
Theorem ParseMappedIpv4Endpoint_total id response :
  zlen id = 12 → ∃ r, TransactionId_ParseMappedIpv4Endpoint id response = Ok r.
Proof.
  intros Hid. unfold TransactionId_ParseMappedIpv4Endpoint, Stun_HeaderSize.
  ifb; [by eexists|]. b2p.
  destruct (Stun_Read16_Ok response 0) as (type & -> & _); [lia|]. cbn [obind].
  ifb; [by eexists|]. destruct (Stun_Read32_Ok response 4) as (c & ->); [lia|]. cbn [obind].
  ifb; [by eexists|]. rewrite slice_Ok by lia. cbn [obind]. ifb; [by eexists|].
  destruct (Stun_Read16_Ok response 2) as (len & -> & Hl); [lia|]. cbn [obind].
  ifb; [by eexists|]. b2p. unfold in_width in Hl.
  apply attribute_loop_total; unfold Stun_HeaderSize; lia.
Qed.

Lemma ParseMappedIpv4Endpoint_total_witness :
  ∃ r, TransactionId_ParseMappedIpv4Endpoint (replicate 12 7)
         ([1; 1; 0; 4; 0x21; 0x12; 0xa4; 0x42] ++ replicate 12 7 ++ [0; 0x20; 0; 8]) = Ok r.
Proof. by apply ParseMappedIpv4Endpoint_total. Defined.

(** ** Responses as RFC 5389 encodes them *)

Definition encode_attribute (a : Z * bytes) : bytes :=
  be_encode 2 a.1 ++ be_encode 2 (zlen a.2) ++ a.2
  ++ zeros ((zlen a.2 + 3) / 4 * 4 - zlen a.2).

Definition encode_attributes (l : list (Z * bytes)) : bytes := concat (map encode_attribute l).

Definition stun_response (id : bytes) (attributes : list (Z * bytes)) : bytes :=
  be_encode 2 BindingSuccessResponse ++ be_encode 2 (zlen (encode_attributes attributes))
  ++ be_encode 4 MagicCookie ++ id ++ encode_attributes attributes.

(** The value of XOR-MAPPED-ADDRESS for an IPv4 endpoint. *)
Definition mapped_value (e : Endpoint) : bytes :=
  [0; 1] ++ be_encode 2 (Z.lxor (ep_port e) (Z.shiftr MagicCookie 16))
  ++ be_encode 4 (Z.lxor (ip4_value (ep_address e)) MagicCookie).

(** An attribute that does not carry an IPv4 mapped address. *)
Definition other_attribute (a : Z * bytes) : Prop :=
  in_width 16 a.1
  ∧ (a.1 = XorMappedAddressAttribute ∨ a.1 = AlternateXorMappedAddressAttribute →
     zlen a.2 < 8 ∨ a.2 !!! 1%nat ≠ 1).

Lemma zlen_encode_attribute a : zlen (encode_attribute a) = 4 + (zlen a.2 + 3) / 4 * 4.
Proof.
  unfold encode_attribute. rewrite !zlen_app, !zlen_be_encode. pose proof (zlen_nonneg a.2).
  rewrite zlen_zeros; [lia|]. Z.to_euclidean_division_equations. lia.
Qed.

(** The attribute header at [zlen hd], and the bytes after it. *)
Lemma encode_attribute_reads hd a rest :
  in_width 16 a.1 → zlen a.2 < 65536 →
  let response := hd ++ encode_attribute a ++ rest in
  Stun_Read16 response (zlen hd) = Ok a.1
  ∧ Stun_Read16 response (zlen hd + 2) = Ok (zlen a.2)
  ∧ ∀ i, 0 <= i < zlen a.2 → rd response (zlen hd + 4 + i) = Ok (a.2 !!! Z.to_nat i).
Proof.
  intros Ht Hl response. unfold response, encode_attribute. rewrite <- !app_assoc.
  change Stun_Read16 with Ipv4_read16. split_and!.
  - rewrite (Ipv4_read16_app hd), be_decode_encode; try done.
    + by rewrite Z.mod_small.
    + apply bytes_ok_be_encode.
  - rewrite (app_assoc hd).
    rewrite (Ipv4_read16_app (hd ++ be_encode 2 a.1)), be_decode_encode; try done.
    + rewrite Z.mod_small; [done|]. split; [apply zlen_nonneg|done].
    + by rewrite zlen_app.
    + apply bytes_ok_be_encode.
  - intros i Hi. rewrite (app_assoc hd), (app_assoc (hd ++ _)), rd_app_r;
      rewrite !zlen_app, !zlen_be_encode; [|lia].
    replace (zlen hd + 4 + i - (zlen hd + Z.of_nat 2 + Z.of_nat 2)) with i by lia.
    rewrite rd_app_l by lia. apply rd_lookup. split; [lia|].
    apply list_lookup_lookup_total_lt. unfold zlen in *. lia.
Qed.

Lemma attribute_loop_skip fuel hd a rest messageLength :
  other_attribute a → zlen a.2 < 65536 →
  zlen hd + 4 <= Stun_HeaderSize + messageLength →
  attribute_loop (S fuel) (hd ++ encode_attribute a ++ rest) messageLength (zlen hd)
  = attribute_loop fuel (hd ++ encode_attribute a ++ rest) messageLength
      (zlen hd + zlen (encode_attribute a)).
Proof.
  intros [Ht Ho] Hl Hin. cbn [attribute_loop].
  rewrite (proj2 (Z.leb_le _ _)) by done.
  destruct (encode_attribute_reads hd a rest Ht Hl) as (-> & -> & Hrd). cbn [obind].
  pose proof (zlen_nonneg a.2) as Hnn. pose proof (zlen_encode_attribute a) as He.
  rewrite (proj2 (Z.ltb_ge _ _)); last first.
  { rewrite !zlen_app, He. pose proof (zlen_nonneg rest).
    Z.to_euclidean_division_equations. lia. }
  rewrite pad4_spec by (split; lia).
  replace (zlen hd + 4 + (zlen a.2 + 3) / 4 * 4) with (zlen hd + zlen (encode_attribute a)) by lia.
  destruct ((_ || _) && _) eqn:Eb; [|done]. unfold Ipv4XorMappedAddressSize in Eb. b2p.
  rewrite Hrd by lia. cbn [obind]. destruct Ho as [Ho|Ho]; [tauto|lia|].
  rewrite (proj2 (Z.eqb_neq _ _)) by done. done.
Qed.

Lemma lxor_lxor_cancel a b : Z.lxor (Z.lxor a b) b = a.
Proof. by rewrite Z.lxor_assoc, Z.lxor_nilpotent, Z.lxor_0_r. Qed.

Lemma in_width_lxor w x y : 0 <= w → in_width w x → in_width w y → in_width w (Z.lxor x y).
Proof.
  intros Hw Hx Hy. apply in_width_bits; [done| |].
  - apply Z.lxor_nonneg. unfold in_width in *. lia.
  - intros i Hi. by rewrite Z.lxor_spec, (in_width_high w x), (in_width_high w y) by done.
Qed.

Lemma attribute_loop_mapped fuel hd e rest messageLength :
  Endpoint_ok e → zlen hd + 4 <= Stun_HeaderSize + messageLength →
  attribute_loop (S fuel)
    (hd ++ encode_attribute (XorMappedAddressAttribute, mapped_value e) ++ rest)
    messageLength (zlen hd) = Ok (Some e).
Proof.
  intros [Ha Hp] Hin. set (a := (XorMappedAddressAttribute, mapped_value e)).
  cbn [attribute_loop]. rewrite (proj2 (Z.leb_le _ _)) by done.
  destruct (encode_attribute_reads hd a rest) as (-> & -> & Hrd); [by split|done|].
  change (zlen a.2) with 8 in *. cbn [obind].
  pose proof (zlen_encode_attribute a) as He. change (4 + (zlen a.2 + 3) / 4 * 4) with 12 in He.
  rewrite (proj2 (Z.ltb_ge _ _)).
  2: { rewrite !zlen_app, He. pose proof (zlen_nonneg rest). lia. }
  change ((_ || _) && _) with true. cbn match. rewrite Hrd by lia. cbn [obind].
  change (_ =? 1) with true. cbn match.
  change Stun_Read16 with Ipv4_read16. change Stun_Read32 with Ipv4_read32.
  set (px := Z.lxor (ep_port e) (Z.shiftr MagicCookie 16)).
  set (ax := Z.lxor (ip4_value (ep_address e)) MagicCookie).
  set (pre := hd ++ be_encode 2 a.1 ++ be_encode 2 8 ++ [0; 1]).
  assert (hd ++ encode_attribute a ++ rest = pre ++ be_encode 2 px ++ be_encode 4 ax ++ rest) as ->.
  { unfold pre. rewrite <- !app_assoc. done. }
  assert (zlen pre = zlen hd + 4 + 2) as Hpre.
  { unfold pre. rewrite !zlen_app, !zlen_be_encode. change (zlen [0; 1]) with 2. lia. }
  rewrite Ipv4_read16_app, be_decode_encode; [|done..|apply bytes_ok_be_encode].
  rewrite (app_assoc pre), Ipv4_read32_app, be_decode_encode;
    [|rewrite zlen_app, zlen_be_encode; lia|done].
  cbn [obind]. rewrite !Z.mod_small by (by apply in_width_lxor).
  unfold px, ax. rewrite !lxor_lxor_cancel, wrap_id by done.
  by destruct e as [[?] ?].
Qed.

Lemma attribute_loop_finds fuel hd pre e post messageLength :
  Forall other_attribute pre → Endpoint_ok e → zlen (encode_attributes pre) < 65536 →
  zlen hd + zlen (encode_attributes pre) + 4 <= Stun_HeaderSize + messageLength →
  Stun_HeaderSize + messageLength < zlen hd + 4 + Z.of_nat fuel →
  attribute_loop fuel
    (hd ++ encode_attributes pre
     ++ encode_attribute (XorMappedAddressAttribute, mapped_value e) ++ post)
    messageLength (zlen hd) = Ok (Some e).
Proof.
  intros Hpre He. revert fuel hd.
  induction Hpre as [|a pre Ha Hpre IH]; intros fuel hd Hsz Hin Hfuel.
  { destruct fuel; [change (zlen (encode_attributes [])) with 0 in *; lia|].
    apply attribute_loop_mapped; [done|]. change (zlen (encode_attributes [])) with 0 in *. lia. }
  change (encode_attributes (a :: pre)) with (encode_attribute a ++ encode_attributes pre) in *.
  rewrite zlen_app in Hsz, Hin.
  pose proof (zlen_nonneg (encode_attributes pre)). pose proof (zlen_nonneg a.2).
  pose proof (zlen_encode_attribute a) as Hza.
  assert (zlen a.2 <= (zlen a.2 + 3) / 4 * 4) by (Z.to_euclidean_division_equations; lia).
  destruct fuel as [|fuel]; [lia|].
  rewrite <- (app_assoc (encode_attribute a)), attribute_loop_skip by (done || lia).
  rewrite app_assoc, <- zlen_app. apply IH; rewrite ?zlen_app; lia.
Qed.

(** A binding response encoded as RFC 5389 prescribes, with any attributes
    before and after its XOR-MAPPED-ADDRESS, is parsed to the endpoint it
    carries. *)
Theorem ParseMappedIpv4Endpoint_response id pre e post :
  zlen id = 12 → Forall other_attribute pre → Endpoint_ok e →
  let attributes := pre ++ (XorMappedAddressAttribute, mapped_value e) :: post in
  zlen (encode_attributes attributes) < 65536 →
  TransactionId_ParseMappedIpv4Endpoint id (stun_response id attributes) = Ok (Some e).
Proof.
  intros Hid Hpre He attributes Hsz.
  set (mapped := (XorMappedAddressAttribute, mapped_value e)) in *.
  assert (encode_attributes attributes
    = encode_attributes pre ++ encode_attribute mapped ++ encode_attributes post) as Hbody.
  { unfold attributes, encode_attributes. by rewrite map_app, concat_app. }
  pose proof (zlen_nonneg (encode_attributes pre)). pose proof (zlen_nonneg (encode_attributes post)).
  pose proof (zlen_nonneg (encode_attributes attributes)).
  assert (zlen (encode_attribute mapped) = 12) as Hm by done.
  unfold TransactionId_ParseMappedIpv4Endpoint, stun_response.
  set (body := encode_attributes attributes) in *.
  set (t := be_encode 2 BindingSuccessResponse). set (l := be_encode 2 (zlen body)).
  set (c := be_encode 4 MagicCookie). set (response := t ++ l ++ c ++ id ++ body).
  assert (zlen response = 20 + zlen body) as Hz.
  { unfold response. rewrite !zlen_app, Hid. unfold t, l, c. rewrite !zlen_be_encode. lia. }
  unfold Stun_HeaderSize at 1 2. rewrite Hz, (proj2 (Z.ltb_ge _ 20)) by lia.
  change Stun_Read16 with Ipv4_read16. change Stun_Read32 with Ipv4_read32.
  assert (Ipv4_read16 response 0 = Ok BindingSuccessResponse) as ->.
  { apply (Ipv4_read16_app []); [done..|apply bytes_ok_be_encode]. }
  assert (Ipv4_read16 response 2 = Ok (zlen body)) as ->.
  { unfold response, l. rewrite (Ipv4_read16_app t), be_decode_encode;
      [|done..|apply bytes_ok_be_encode]. by rewrite Z.mod_small. }
  assert (Ipv4_read32 response 4 = Ok MagicCookie) as ->.
  { unfold response. rewrite app_assoc. by apply (Ipv4_read32_app (t ++ l)). }
  assert (slice response 8 (8 + zlen id) = Ok id) as ->.
  { unfold response. rewrite 2!app_assoc. by apply slice_full. }
  cbn [obind]. rewrite !Z.eqb_refl, bool_decide_true by done. cbn [negb].
  rewrite (proj2 (Z.ltb_ge _ _)) by lia.
  unfold response. rewrite 3!app_assoc, Hbody.
  replace Stun_HeaderSize with (zlen (((t ++ l) ++ c) ++ id)).
  2: { rewrite !zlen_app, Hid. done. }
  rewrite Hbody, !zlen_app in Hsz.
  apply attribute_loop_finds; try done; rewrite ?Hbody, ?zlen_app, ?Hm, ?Hid in *.
  all: unfold Stun_HeaderSize, t, l, c; rewrite ?zlen_be_encode; lia.
Qed.

Lemma ParseMappedIpv4Endpoint_response_witness :
  let e := {| ep_address := {| ip4_value := 0xc0000201 |}; ep_port := 41641 |} in
  TransactionId_ParseMappedIpv4Endpoint (replicate 12 7)
    (stun_response (replicate 12 7)
       ([(SoftwareAttribute, lit "derper")]
        ++ (XorMappedAddressAttribute, mapped_value e) :: [(FingerprintAttribute, [1; 2; 3; 4])]))
  = Ok (Some e).
Proof.
  apply ParseMappedIpv4Endpoint_response; [done| |by split|done].
  apply Forall_cons_2; [|done]. split; [by split|]. intros [H|H]; discriminate H.
Defined.
