(* ===== verification/Framing.v ===== *)
(** * Frames and transport fragments of the hosted protocol

    src/core/hosted/Protocol.cpp ([Frame], [NextFrame]) and
    src/core/hosted/PacketFraming.cpp ([PacketEncoder], [PacketReassembler]):
    the frames a hosted client and its relay exchange, and the fragments that
    carry the frame stream over a transport that may reorder its buffers. *)

From stdpp Require Import sorting.
From S2P Require Import Prelude Text Net Packet.

(** ** Frames *)

Definition MessageType_Authenticate : Z := 1.
Definition MessageType_Fragment : Z := 23.
Definition MessageType_NetworkMapAck : Z := 26.

Definition Frame_HeaderSize : Z := 12.
Definition Frame_MaximumPayloadSize : Z := 1024 * 1024.
Definition Frame_MaximumEncodedSize : Z := Frame_HeaderSize + Frame_MaximumPayloadSize.

(** [MessageType] is an enumeration over [std::uint16_t]: a frame can hold a
    value that names no message. *)
Record Frame := { fr_type : Z; fr_payload : bytes }.

#[export] Instance Frame_eq_dec : EqDecision Frame.
Proof. solve_decision. Defined.

Definition Magic : bytes := [84; 71; 82; 49].

Definition Append16 (output : bytes) (value : Z) : bytes :=
  output ++ [u8 (Z.shiftr value 8); u8 value].

Definition Append32 (output : bytes) (value : Z) : bytes :=
  output ++ [u8 (Z.shiftr value 24); u8 (Z.shiftr value 16); u8 (Z.shiftr value 8); u8 value].

(** [for (int shift = 56; shift >= 0; shift -= 8)] *)
Definition Append64 (output : bytes) (value : Z) : bytes :=
  fold_left (fun out shift => out ++ [u8 (Z.shiftr value shift)])
    [56; 48; 40; 32; 24; 16; 8; 0] output.

(** The readers take a pointer: here a vector and an offset. *)
Definition Hosted_Read16 (data : bytes) (offset : Z) : outcome Z :=
  let! b0 := rd data offset in
  let! b1 := rd data (offset + 1) in
  Ok (u16 (Z.lor (Z.shiftl b0 8) b1)).

Definition Hosted_Read32 (data : bytes) (offset : Z) : outcome Z :=
  let! b0 := rd data offset in
  let! b1 := rd data (offset + 1) in
  let! b2 := rd data (offset + 2) in
  let! b3 := rd data (offset + 3) in
  Ok (Z.lor (Z.lor (Z.lor (Z.shiftl b0 24) (Z.shiftl b1 16)) (Z.shiftl b2 8)) b3).

Fixpoint Read64_loop (todo : nat) (data : bytes) (offset value : Z) : outcome Z :=
  match todo with
  | O => Ok value
  | S todo' =>
      let! b := rd data offset in
      Read64_loop todo' data (offset + 1) (Z.lor (u64 (Z.shiftl value 8)) b)
  end.

Definition Hosted_Read64 (data : bytes) (offset : Z) : outcome Z := Read64_loop 8 data offset 0.

Definition IsKnownType (value : Z) : bool :=
  (MessageType_Authenticate <=? value) && (value <=? MessageType_NetworkMapAck).

Definition Frame_EncodedSize (f : Frame) : outcome Z :=
  if (Frame_MaximumPayloadSize <? zlen (fr_payload f)) || (2 ^ 32 - 1 <? zlen (fr_payload f))
  then Throw (RuntimeError "Relay frame payload is too large.")
  else if negb (IsKnownType (fr_type f))
  then Throw (RuntimeError "Relay frame has an unknown message type.")
  else Ok (Frame_HeaderSize + zlen (fr_payload f)).

Definition Frame_AppendTo (f : Frame) (output : bytes) : bytes :=
  let output := output ++ Magic in
  let output := Append16 output (fr_type f) in
  let output := Append16 output 0 in
  let output := Append32 output (u32 (zlen (fr_payload f))) in
  output ++ fr_payload f.

Definition Frame_Encode (f : Frame) : outcome bytes :=
  let! _ := Frame_EncodedSize f in
  Ok (Frame_AppendTo f []).

(** [output.max_size()] of a byte vector. *)
Definition vector_max_size : Z := 2 ^ 63 - 1.

Fixpoint EncodeAll_size (frames : list Frame) (size : Z) : outcome Z :=
  match frames with
  | [] => Ok size
  | frame :: rest =>
      let! frameSize := Frame_EncodedSize frame in
      if vector_max_size - size <? frameSize
      then Throw (LengthError "Relay frame batch is too large.")
      else EncodeAll_size rest (size + frameSize)
  end.

Definition Frame_EncodeAll (frames : list Frame) : outcome bytes :=
  let! _ := EncodeAll_size frames 0 in
  Ok (fold_left (fun output frame => Frame_AppendTo frame output) frames []).

(** The frame at [offset], and the offset after it; [None] leaves the offset. *)
Definition NextFrame (buffer : bytes) (offset : Z) : outcome (option Frame * Z) :=
  let available := u64 (zlen buffer - offset) in
  if available <? Frame_HeaderSize then Ok (None, offset) else
  let! magic := slice buffer offset (offset + 4) in
  if negb (bool_decide (magic = Magic))
  then Throw (RuntimeError "Relay frame has invalid magic.") else
  let! type := Hosted_Read16 buffer (offset + 4) in
  if negb (IsKnownType type)
  then Throw (RuntimeError "Relay frame has an unknown message type.") else
  let! flags := Hosted_Read16 buffer (offset + 6) in
  if negb (flags =? 0)
  then Throw (RuntimeError "Relay frame uses unsupported flags.") else
  let! payloadSize := Hosted_Read32 buffer (offset + 8) in
  if Frame_MaximumPayloadSize <? payloadSize
  then Throw (RuntimeError "Relay frame payload exceeds the limit.") else
  if available <? Frame_HeaderSize + payloadSize then Ok (None, offset) else
  let! payload := slice buffer (offset + Frame_HeaderSize)
                    (offset + Frame_HeaderSize + payloadSize) in
  Ok (Some {| fr_type := type; fr_payload := payload |},
      offset + (Frame_HeaderSize + payloadSize)).

(** ** Fragments *)

Definition InvalidCapacity : exn := FramingError "InvalidCapacity".
Definition InvalidFragment : exn := FramingError "InvalidFragment".
Definition OverlappingFragment : exn := FramingError "OverlappingFragment".
Definition WindowExceeded : exn := FramingError "WindowExceeded".
Definition NestedFragment : exn := FramingError "NestedFragment".
Definition MixedFraming : exn := FramingError "MixedFraming".

Definition OffsetSize : Z := 8.
Definition MaximumPendingBytes : Z := 4 * 1024 * 1024.
Definition MaximumWindow : Z := 4 * 1024 * 1024.
Definition MaximumFragments : Z := 4096.
Definition uint64_max : Z := 2 ^ 64 - 1.

Record PacketEncoder := {
  enc_offset : Z;
  enc_pending : list bytes;
  enc_pendingOffset : Z;
  enc_pendingBytes : Z
}.

Definition PacketEncoder_new : PacketEncoder :=
  {| enc_offset := 0; enc_pending := []; enc_pendingOffset := 0; enc_pendingBytes := 0 |}.

Definition PacketEncoder_Queue (data : bytes) (e : PacketEncoder) : outcome unit * PacketEncoder :=
  if u64 (MaximumPendingBytes - enc_pendingBytes e) <? zlen data then (Throw WindowExceeded, e)
  else if zlen data =? 0 then (Ok tt, e)
  else (Ok tt, {| enc_offset := enc_offset e;
                  enc_pending := enc_pending e ++ [data];
                  enc_pendingOffset := enc_pendingOffset e;
                  enc_pendingBytes := enc_pendingBytes e + zlen data |}).

Definition PacketEncoder_HasPending (e : PacketEncoder) : bool :=
  negb (bool_decide (enc_pending e = [])).

(** The [for] loop over the parts; the first part starts at [m_pendingOffset]. *)
Fixpoint gather (parts : list bytes) (offset remaining : Z) (payload : bytes) : outcome bytes :=
  if remaining =? 0 then Ok payload
  else match parts with
       | [] => UB
       | part :: rest =>
           let size := Z.min remaining (u64 (zlen part - offset)) in
           let! data := slice part offset (offset + size) in
           gather rest 0 (remaining - size) (payload ++ data)
       end.

(** The [while] loop that drops what was sent. *)
Fixpoint consume (fuel : nat) (pending : list bytes) (pendingOffset remaining : Z)
    : outcome (list bytes * Z) :=
  if remaining =? 0 then Ok (pending, pendingOffset)
  else match fuel, pending with
       | S fuel', front :: rest =>
           let size := Z.min remaining (u64 (zlen front - pendingOffset)) in
           let pendingOffset := pendingOffset + size in
           let remaining := remaining - size in
           if pendingOffset =? zlen front then consume fuel' rest 0 remaining
           else consume fuel' pending pendingOffset remaining
       | _, _ => UB
       end.

Definition PacketEncoder_Next (capacity : Z) (e : PacketEncoder)
    : outcome bytes * PacketEncoder :=
  let overhead := Frame_HeaderSize + OffsetSize in
  if capacity <=? overhead then (Throw InvalidCapacity, e) else
  let count := Z.min (enc_pendingBytes e)
                 (Z.min (capacity - overhead) (Frame_MaximumPayloadSize - OffsetSize)) in
  if count =? 0 then (Ok [], e) else
  if uint64_max - enc_offset e <? count then (Throw InvalidFragment, e) else
  match gather (enc_pending e) (enc_pendingOffset e) count (be_encode 8 (enc_offset e)) with
  | Ok payload =>
      match Frame_Encode {| fr_type := MessageType_Fragment; fr_payload := payload |} with
      | Ok encoded =>
          match consume (S (length (enc_pending e))) (enc_pending e) (enc_pendingOffset e) count with
          | Ok (pending, pendingOffset) =>
              (Ok encoded,
               {| enc_offset := enc_offset e + count;
                  enc_pending := pending;
                  enc_pendingOffset := pendingOffset;
                  enc_pendingBytes := enc_pendingBytes e - count |})
          | Throw x => (Throw x, e)
          | UB => (UB, e)
          end
      | Throw x => (Throw x, e)
      | UB => (UB, e)
      end
  | Throw x => (Throw x, e)
  | UB => (UB, e)
  end.

(** [std::map<std::uint64_t, std::vector<std::uint8_t>>] as the list of its
    entries in key order. *)
Record PacketReassembler := {
  re_fragments : list (Z * bytes);
  re_offset : Z;
  re_bytes : Z
}.

Definition PacketReassembler_new : PacketReassembler :=
  {| re_fragments := []; re_offset := 0; re_bytes := 0 |}.

(** The entries before and from [lower_bound(key)]. *)
Fixpoint lower_bound (key : Z) (m : list (Z * bytes)) : list (Z * bytes) * list (Z * bytes) :=
  match m with
  | [] => ([], [])
  | (k, v) :: rest =>
      if k <? key then let '(lo, hi) := lower_bound key rest in ((k, v) :: lo, hi)
      else ([], m)
  end.

(** [emplace_hint] keeps an entry that has the key already. *)
Definition emplace (lo hi : list (Z * bytes)) (key : Z) (data : bytes) : list (Z * bytes) :=
  match hi with
  | (k, _) :: _ => if k =? key then lo ++ hi else lo ++ (key, data) :: hi
  | [] => lo ++ [(key, data)]
  end.

Definition PacketReassembler_Accept (payload : bytes) (r : PacketReassembler)
    : outcome unit * PacketReassembler :=
  if zlen payload <=? OffsetSize then (Throw InvalidFragment, r) else
  let offset := fold_left (fun v b => Z.lor (u64 (Z.shiftl v 8)) b) (take 8 payload) 0 in
  let data := drop 8 payload in
  if offset <? re_offset r then (Throw OverlappingFragment, r) else
  if (MaximumWindow <? zlen data) || (MaximumWindow - zlen data <? offset - re_offset r)
     || (uint64_max - offset <? zlen data) || (MaximumFragments <=? zlen (re_fragments r))
  then (Throw WindowExceeded, r) else
  let '(lo, hi) := lower_bound offset (re_fragments r) in
  if (match hi with (k, _) :: _ => k <? u64 (offset + zlen data) | [] => false end)
     || (match last lo with
         | Some (k, v) => offset <? u64 (k + zlen v)
         | None => false
         end)
  then (Throw OverlappingFragment, r) else
  (Ok tt, {| re_fragments := emplace lo hi offset data;
             re_offset := re_offset r;
             re_bytes := re_bytes r + zlen data |}).

Definition PacketReassembler_Take (r : PacketReassembler) : bytes * PacketReassembler :=
  match re_fragments r with
  | (k, data) :: rest =>
      if k =? re_offset r
      then (data, {| re_fragments := rest;
                     re_offset := u64 (re_offset r + zlen data);
                     re_bytes := re_bytes r - zlen data |})
      else ([], r)
  | [] => ([], r)
  end.

Definition PacketReassembler_BufferedBytes (r : PacketReassembler) : Z := re_bytes r.

(** ** Encoding and decoding one frame *)

Definition Frame_ok (f : Frame) : Prop :=
  IsKnownType (fr_type f) = true ∧ zlen (fr_payload f) <= Frame_MaximumPayloadSize.

Definition frame_header (f : Frame) : bytes :=
  Magic ++ be_encode 2 (fr_type f) ++ [0; 0] ++ be_encode 4 (zlen (fr_payload f)).

Definition frame_bytes (f : Frame) : bytes := frame_header f ++ fr_payload f.

Lemma zlen_frame_header f : zlen (frame_header f) = 12.
Proof. done. Qed.

Lemma zlen_frame_bytes f : zlen (frame_bytes f) = 12 + zlen (fr_payload f).
Proof. unfold frame_bytes. by rewrite zlen_app. Qed.

Lemma Frame_EncodedSize_ok f :
  Frame_ok f → Frame_EncodedSize f = Ok (zlen (frame_bytes f)).
Proof.
  intros [Hk Hl]. unfold Frame_EncodedSize. rewrite Hk, zlen_frame_bytes.
  unfold Frame_MaximumPayloadSize in *.
  ifb; [b2p; lia|]. done.
Qed.

Lemma Frame_AppendTo_eq f output :
  zlen (fr_payload f) < 2 ^ 32 → Frame_AppendTo f output = output ++ frame_bytes f.
Proof.
  intros Hl. unfold Frame_AppendTo, Append16, Append32, frame_bytes, frame_header.
  rewrite (wrap_id 32) by (split; [apply zlen_nonneg|done]).
  cbn [be_encode]. rewrite !Z.shiftr_0_r, <- !app_assoc. done.
Qed.

Lemma Frame_ok_payload f : Frame_ok f → zlen (fr_payload f) < 2 ^ 32.
Proof. intros [_ H]. unfold Frame_MaximumPayloadSize in H. lia. Qed.

Lemma Frame_Encode_eq f : Frame_ok f → Frame_Encode f = Ok (frame_bytes f).
Proof.
  intros Hf. unfold Frame_Encode. rewrite Frame_EncodedSize_ok by done. cbn [obind].
  by rewrite Frame_AppendTo_eq by (by apply Frame_ok_payload).
Qed.

Lemma NextFrame_short buffer offset :
  0 <= offset <= zlen buffer → zlen buffer - offset < 12 →
  NextFrame buffer offset = Ok (None, offset).
Proof.
  intros Ho Hs. unfold NextFrame, Frame_HeaderSize.
  rewrite wrap_id by (split; lia). by rewrite (proj2 (Z.ltb_lt _ _)) by lia.
Qed.

(** The header of a frame at [zlen hd], whatever follows it. *)
Lemma NextFrame_header f hd rest :
  Frame_ok f → zlen (hd ++ frame_header f ++ rest) < 2 ^ 64 →
  NextFrame (hd ++ frame_header f ++ rest) (zlen hd)
  = if zlen rest <? zlen (fr_payload f) then Ok (None, zlen hd)
    else Ok (Some {| fr_type := fr_type f;
                     fr_payload := take (length (fr_payload f)) rest |},
             zlen hd + zlen (frame_bytes f)).
Proof.
  intros [Hk Hl] Hsz. set (buffer := hd ++ frame_header f ++ rest) in *.
  assert (zlen buffer = zlen hd + 12 + zlen rest) as Hz.
  { unfold buffer. rewrite !zlen_app, zlen_frame_header. lia. }
  pose proof (zlen_nonneg hd). pose proof (zlen_nonneg rest).
  pose proof (zlen_nonneg (fr_payload f)).
  unfold NextFrame, Frame_HeaderSize.
  rewrite wrap_id by (split; lia). rewrite (proj2 (Z.ltb_ge _ 12)) by lia.
  assert (slice buffer (zlen hd) (zlen hd + 4) = Ok Magic) as ->.
  { unfold buffer, frame_header. rewrite <- !app_assoc. by apply slice_full. }
  cbn [obind]. rewrite bool_decide_true by done. cbn [negb].
  change Hosted_Read16 with Ipv4_read16. change Hosted_Read32 with Ipv4_read32.
  unfold IsKnownType, MessageType_Authenticate, MessageType_NetworkMapAck in Hk. b2p.
  assert (Ipv4_read16 buffer (zlen hd + 4) = Ok (fr_type f)) as ->.
  { unfold buffer, frame_header. rewrite <- !app_assoc, (app_assoc hd).
    rewrite Ipv4_read16_app, be_decode_encode; [rewrite Z.mod_small by lia; done|..].
    - by rewrite zlen_app.
    - done.
    - apply bytes_ok_be_encode. }
  assert (Ipv4_read16 buffer (zlen hd + 6) = Ok 0) as ->.
  { unfold buffer, frame_header. rewrite <- !app_assoc, (app_assoc hd), (app_assoc (hd ++ _)).
    apply (Ipv4_read16_app ((hd ++ Magic) ++ be_encode 2 (fr_type f)) [0; 0]); [|done|].
    - by rewrite !zlen_app, zlen_be_encode, <- Z.add_assoc.
    - forall_intro; by split. }
  assert (Ipv4_read32 buffer (zlen hd + 8) = Ok (zlen (fr_payload f))) as ->.
  { unfold buffer, frame_header. rewrite <- !app_assoc.
    rewrite (app_assoc hd), (app_assoc (hd ++ _)), (app_assoc ((hd ++ _) ++ _)).
    rewrite Ipv4_read32_app, be_decode_encode; [rewrite Z.mod_small; [done|]|..].
    - unfold Frame_MaximumPayloadSize in Hl. simpl. lia.
    - by rewrite !zlen_app, zlen_be_encode, <- !Z.add_assoc.
    - done. }
  cbn [obind]. unfold IsKnownType, MessageType_Authenticate, MessageType_NetworkMapAck.
  rewrite (proj2 (Z.leb_le 1 _)), (proj2 (Z.leb_le _ 26)), (proj2 (Z.ltb_ge _ _)) by lia.
  cbn [andb negb]. change (negb (0 =? 0)) with false. cbn match.
  rewrite Hz. replace (zlen hd + 12 + zlen rest - zlen hd) with (12 + zlen rest) by lia.
  replace (12 + zlen rest <? 12 + zlen (fr_payload f)) with (zlen rest <? zlen (fr_payload f))
    by (apply Bool.eq_true_iff_eq; b2p; lia).
  ifb; [done|]. b2p. rewrite slice_Ok by lia. cbn [obind]. rewrite zlen_frame_bytes. do 4 f_equal.
  unfold buffer. rewrite app_assoc, drop_app_length'.
  - f_equal. unfold zlen. lia.
  - rewrite length_app. unfold zlen. simpl. lia.
Qed.

(** A whole frame is returned and the offset moves past it. *)
Lemma NextFrame_whole f hd rest :
  Frame_ok f → zlen (hd ++ frame_bytes f ++ rest) < 2 ^ 64 →
  NextFrame (hd ++ frame_bytes f ++ rest) (zlen hd)
  = Ok (Some f, zlen hd + zlen (frame_bytes f)).
Proof.
  intros Hf Hsz. unfold frame_bytes in *. rewrite <- app_assoc in *.
  rewrite NextFrame_header by done. rewrite (proj2 (Z.ltb_ge _ _)) by zlia.
  rewrite take_app_length. by destruct f.
Qed.

(** A frame of which only a strict prefix has arrived is not returned. *)
Lemma NextFrame_partial f hd part missing :
  Frame_ok f → frame_bytes f = part ++ missing → 0 < zlen missing →
  zlen hd + zlen part < 2 ^ 64 →
  NextFrame (hd ++ part) (zlen hd) = Ok (None, zlen hd).
Proof.
  intros Hf Heq Hm Hsz.
  destruct (Z.lt_ge_cases (zlen part) 12) as [Hs|Hl].
  { apply NextFrame_short; rewrite zlen_app; zlia. }
  assert (∃ body, part = frame_header f ++ body) as [body ->].
  { assert (take 12 (frame_bytes f) = frame_header f) as Hh by done.
    rewrite Heq, take_app_le in Hh by (unfold zlen in Hl; lia).
    exists (drop 12 part). by rewrite <- Hh, take_drop. }
  rewrite NextFrame_header; [|done|].
  2: { rewrite zlen_app. done. }
  unfold frame_bytes in Heq. rewrite <- app_assoc in Heq. apply app_inv_head in Heq.
  rewrite (proj2 (Z.ltb_lt _ _)); [done|]. rewrite Heq, zlen_app. lia.
Qed.

(** On any buffer [NextFrame] reads inside it, and a frame moves the offset
    forward, inside the buffer. *)
Lemma NextFrame_result buffer offset :
  bytes_ok buffer → 0 <= offset <= zlen buffer → zlen buffer < 2 ^ 64 →
  safe (NextFrame buffer offset)
  ∧ ∀ r offset', NextFrame buffer offset = Ok (r, offset') →
      (r = None → offset' = offset)
      ∧ (∀ f, r = Some f → Frame_ok f ∧ bytes_ok (fr_payload f)
              ∧ offset' = offset + 12 + zlen (fr_payload f) ∧ offset' <= zlen buffer).
Proof.
  intros Hok Ho Hsz. unfold NextFrame, Frame_HeaderSize. rewrite wrap_id by (split; lia).
  ifb; b2p; [split; [done|]; intros r o [= <- <-]; done|].
  rewrite slice_Ok by lia. cbn [obind]. ifb; [done|].
  change Hosted_Read16 with Ipv4_read16. change Hosted_Read32 with Ipv4_read32.
  destruct (Ipv4_read16_Ok buffer (offset + 4)) as (t & -> & _); [lia|]. cbn [obind].
  destruct (IsKnownType t) eqn:Hk; cbn [negb]; [|done].
  destruct (Ipv4_read16_Ok buffer (offset + 6)) as (fl & -> & _); [lia|]. cbn [obind].
  ifb; [done|].
  destruct (Ipv4_read32_Ok buffer (offset + 8)) as (n & Hn); [lia|].
  pose proof (Ipv4_read32_width _ _ _ Hok Hn) as [Hn0 _]. rewrite Hn. cbn [obind].
  ifb; [done|]. b2p. ifb; b2p; [split; [done|]; intros r o [= <- <-]; done|].
  destruct (slice buffer (offset + 12) (offset + 12 + n)) as [p| |] eqn:Hs; cbn [obind].
  - split; [done|]. intros r o [= <- <-]. split; [done|]. intros f [= <-]. simpl.
    pose proof (zlen_slice _ _ _ _ Hs). split_and!; [split; simpl; [done|lia]| |lia..].
    by eapply bytes_ok_slice.
  - unfold slice in Hs. ifb_in Hs; done.
  - by destruct (safe_slice buffer (offset + 12) (offset + 12 + n)); [lia|].
Qed.

(** ** Reassembly: the invariant *)

(** Entries in key order, not overlapping, none empty, none before [lo]. *)
Fixpoint chain (lo : Z) (m : list (Z * bytes)) : Prop :=
  match m with
  | [] => True
  | (k, v) :: rest => lo <= k ∧ 0 < zlen v ∧ chain (k + zlen v) rest
  end.

(** Where the last entry ends. *)
Definition chain_end (lo : Z) (m : list (Z * bytes)) : Z :=
  match last m with Some (k, v) => k + zlen v | None => lo end.

Definition total_bytes (m : list (Z * bytes)) : Z := foldr (fun e n => zlen e.2 + n) 0 m.

Definition Reassembler_inv (r : PacketReassembler) : Prop :=
  0 <= re_offset r
  ∧ chain (re_offset r) (re_fragments r)
  ∧ chain_end (re_offset r) (re_fragments r) <= re_offset r + MaximumWindow
  ∧ chain_end (re_offset r) (re_fragments r) <= uint64_max
  ∧ re_bytes r = total_bytes (re_fragments r)
  ∧ zlen (re_fragments r) <= MaximumFragments.

Lemma chain_end_cons lo k v m : chain_end lo ((k, v) :: m) = chain_end (k + zlen v) m.
Proof. unfold chain_end. rewrite last_cons. by destruct (last m). Qed.

Lemma chain_weaken lo lo' m : lo' <= lo → chain lo m → chain lo' m.
Proof. destruct m as [|[k v] m]; simpl; [done|]. intuition lia. Qed.

Lemma chain_app lo l h : chain lo (l ++ h) ↔ chain lo l ∧ chain (chain_end lo l) h.
Proof.
  revert lo. induction l as [|[k v] l IH]; intros lo; simpl.
  - split; [done|]. by intros [_ ?].
  - rewrite IH, chain_end_cons. tauto.
Qed.

Lemma chain_end_app lo l h : chain_end lo (l ++ h) = chain_end (chain_end lo l) h.
Proof.
  revert lo. induction l as [|[k v] l IH]; intros lo; [done|].
  rewrite <- app_comm_cons, !chain_end_cons. apply IH.
Qed.

Lemma chain_total lo m : chain lo m → total_bytes m <= chain_end lo m - lo.
Proof.
  revert lo. induction m as [|[k v] m IH]; intros lo; [unfold chain_end; simpl; lia|].
  intros (? & ? & H). rewrite chain_end_cons. apply IH in H. simpl. lia.
Qed.

Lemma chain_end_le lo m : chain lo m → lo <= chain_end lo m.
Proof.
  revert lo. induction m as [|[k v] m IH]; intros lo; [unfold chain_end; simpl; lia|].
  intros (? & ? & H). rewrite chain_end_cons. apply IH in H. lia.
Qed.

Lemma chain_elem lo m k v : chain lo m → (k, v) ∈ m → lo <= k ∧ 0 < zlen v ∧ k + zlen v <= chain_end lo m.
Proof.
  revert lo. induction m as [|[k' v'] m IH]; intros lo; [by rewrite elem_of_nil|].
  intros (? & ? & H) [Heq|Hin]%elem_of_cons; rewrite chain_end_cons.
  - simplify_eq. split_and!; [done..|]. by apply chain_end_le.
  - destruct (IH _ H Hin) as (? & ? & ?). split_and!; [lia..|done].
Qed.

Lemma lower_bound_spec key lo m l h :
  chain lo m → lower_bound key m = (l, h) →
  m = l ++ h
  ∧ match last l with Some (k, _) => k < key | None => True end
  ∧ match h with (k, _) :: _ => key <= k | [] => True end.
Proof.
  revert lo l. induction m as [|[k v] m IH]; intros lo l; simpl; [intros _ [= <- <-]; done|].
  intros (? & ? & Hc) Hlb. destruct (k <? key) eqn:E; b2p.
  - destruct (lower_bound key m) as [l' h'] eqn:E'. simplify_eq.
    destruct (IH _ _ Hc eq_refl) as (-> & Hl & Hh). split_and!; [done| |done].
    rewrite last_cons. destruct (last l') as [[]|]; done.
  - simplify_eq. done.
Qed.

(** The offset the loop reads is the big-endian one. *)
Lemma read_offset_be l :
  bytes_ok l → (length l <= 8)%nat →
  fold_left (fun v b => Z.lor (u64 (Z.shiftl v 8)) b) l 0 = be_decode l.
Proof.
  induction l as [|b l IH] using rev_ind; intros Hok Hlen; [done|].
  rewrite length_app in Hlen. simpl in Hlen. apply Forall_app in Hok as [Hl Hb].
  unfold be_decode. rewrite !fold_left_app. cbn [fold_left].
  rewrite IH by (done || lia).
  rewrite wrap_id; [done|]. rewrite Z.shiftl_mul_pow2 by lia.
  pose proof (be_decode_range l Hl) as [H0 H1]. split; [lia|].
  assert (2 ^ (8 * zlen l) <= 2 ^ 56) by (apply Z.pow_le_mono_r; unfold zlen; lia).
  change (2 ^ 64) with (2 ^ 56 * 2 ^ 8). apply Z.mul_lt_mono_pos_r; lia.
Qed.

(** The first key of a list of entries, or [d]. *)
Definition first_key (d : Z) (m : list (Z * bytes)) : Z :=
  match m with (k, _) :: _ => k | [] => d end.

(** [Accept] on a well-formed state: it throws and changes nothing, or inserts
    the fragment between the entries before and after it. *)
Lemma PacketReassembler_Accept_eq off data r :
  Reassembler_inv r → in_width 64 off → bytes_ok data → 0 < zlen data →
  ∃ lo hi, lower_bound off (re_fragments r) = (lo, hi) ∧ re_fragments r = lo ++ hi
    ∧ PacketReassembler_Accept (be_encode 8 off ++ data) r
      = if off <? re_offset r then (Throw OverlappingFragment, r) else
        if (re_offset r + MaximumWindow <? off + zlen data) || (uint64_max <? off + zlen data)
           || (MaximumFragments <=? zlen (re_fragments r))
        then (Throw WindowExceeded, r) else
        if (first_key (off + zlen data) hi <? off + zlen data)
           || (off <? chain_end (re_offset r) lo)
        then (Throw OverlappingFragment, r) else
        (Ok tt, {| re_fragments := lo ++ (off, data) :: hi;
                   re_offset := re_offset r;
                   re_bytes := re_bytes r + zlen data |}).
Proof.
  intros (H0 & Hc & Hw & Hm & Hb & Hn) Hoff Hok Hd. unfold PacketReassembler_Accept, OffsetSize.
  rewrite zlen_app, zlen_be_encode, (proj2 (Z.leb_gt _ _)) by lia.
  rewrite take_app_length', drop_app_length' by done.
  rewrite read_offset_be, be_decode_encode, Z.mod_small by (done || apply bytes_ok_be_encode).
  destruct (lower_bound off (re_fragments r)) as [lo hi] eqn:Elb. exists lo, hi.
  destruct (lower_bound_spec _ _ _ _ _ Hc Elb) as (Hsplit & _ & Hhi).
  split_and!; [done..|]. destruct (off <? re_offset r) eqn:Eo; [done|]. b2p.
  replace ((MaximumWindow <? zlen data) || (MaximumWindow - zlen data <? off - re_offset r)
           || (uint64_max - off <? zlen data))
    with ((re_offset r + MaximumWindow <? off + zlen data) || (uint64_max <? off + zlen data))
    by (apply Bool.eq_true_iff_eq; b2p; lia).
  destruct (_ || (MaximumFragments <=? zlen (re_fragments r))) eqn:Ew; [done|]. b2p.
  rewrite Hsplit in Hc. apply chain_app in Hc as [Hclo Hchi].
  rewrite Hsplit, chain_end_app in Hm. pose proof (chain_end_le _ _ Hchi).
  rewrite (wrap_id 64 (off + zlen data)) by (unfold uint64_max in *; split; lia).
  assert (match last lo with Some (k, v) => off <? u64 (k + zlen v) | None => false end
          = (off <? chain_end (re_offset r) lo)) as ->.
  { unfold chain_end in *. destruct (last lo) as [[k v]|] eqn:El; [|symmetry; b2p; lia].
    apply last_Some_elem_of in El. destruct (chain_elem _ _ _ _ Hclo El) as (? & ? & Hend).
    rewrite wrap_id; [done|]. unfold uint64_max, chain_end in *. split; [lia|].
    destruct (last lo) as [[? ?]|]; lia. }
  destruct hi as [|[k v] hi]; simpl; [by rewrite Z.ltb_irrefl|].
  destruct (k <? off + zlen data) eqn:Ek; [done|]. b2p.
  rewrite (proj2 (Z.eqb_neq k off)) by lia. done.
Qed.

Lemma total_bytes_app l h : total_bytes (l ++ h) = total_bytes l + total_bytes h.
Proof. induction l as [|[k v] l IH]; simpl; [done|]. lia. Qed.

Lemma total_bytes_nonneg m : 0 <= total_bytes m.
Proof. induction m as [|[k v] m IH]; simpl; zlia. Qed.

(** Inserting a fragment that the checks let through keeps the invariant. *)
Lemma Reassembler_inv_insert r lo hi off data :
  Reassembler_inv r → re_fragments r = lo ++ hi → 0 < zlen data →
  re_offset r <= off → off + zlen data <= re_offset r + MaximumWindow →
  off + zlen data <= uint64_max → zlen (re_fragments r) < MaximumFragments →
  off + zlen data <= first_key (off + zlen data) hi → chain_end (re_offset r) lo <= off →
  Reassembler_inv {| re_fragments := lo ++ (off, data) :: hi; re_offset := re_offset r;
                     re_bytes := re_bytes r + zlen data |}.
Proof.
  intros (H0 & Hc & Hw & Hm & Hb & Hn) Hsplit Hd Ho Hwin Hmax Hcnt Hhi Hlo.
  rewrite Hsplit in *. apply chain_app in Hc as [Hclo Hchi]. rewrite chain_end_app in *.
  assert (chain (off + zlen data) hi) as Hc'.
  { destruct hi as [|[k v] hi]; [done|]. simpl in *. intuition lia. }
  assert (chain_end (off + zlen data) hi = off + zlen data
          ∨ chain_end (off + zlen data) hi = chain_end (chain_end (re_offset r) lo) hi) as Hend.
  { destruct hi as [|[k v] hi]; [by left|right]. by rewrite !chain_end_cons. }
  split_and!; simpl; rewrite ?chain_app, ?chain_end_app, ?chain_end_cons; simpl.
  - done.
  - done.
  - lia.
  - lia.
  - rewrite Hb, !total_bytes_app. simpl. lia.
  - rewrite zlen_app, zlen_cons. rewrite zlen_app in Hcnt. lia.
Qed.

Lemma payload_split payload :
  bytes_ok payload → 8 < zlen payload →
  payload = be_encode 8 (be_decode (take 8 payload)) ++ drop 8 payload
  ∧ in_width 64 (be_decode (take 8 payload)) ∧ bytes_ok (drop 8 payload)
  ∧ 0 < zlen (drop 8 payload).
Proof.
  intros Hok Hl. assert (length (take 8 payload) = 8%nat) as H8
    by (rewrite length_take; unfold zlen in Hl; lia).
  assert (bytes_ok (take 8 payload)) as Ht by (by apply Forall_take).
  split_and!.
  - pose proof (be_encode_decode _ Ht) as He. rewrite H8 in He. by rewrite He, take_drop.
  - apply be_decode_range in Ht. unfold zlen in Ht. by rewrite H8 in Ht.
  - by apply Forall_drop.
  - zsimp. lia.
Qed.

Lemma PacketReassembler_Accept_spec payload r :
  bytes_ok payload → Reassembler_inv r →
  (∃ e, PacketReassembler_Accept payload r = (Throw e, r))
  ∨ (∃ lo hi r', PacketReassembler_Accept payload r = (Ok tt, r')
      ∧ Reassembler_inv r' ∧ re_offset r' = re_offset r
      ∧ re_fragments r = lo ++ hi ∧ 8 < zlen payload
      ∧ re_fragments r' = lo ++ (be_decode (take 8 payload), drop 8 payload) :: hi).
Proof.
  intros Hok Hinv. destruct (Z.le_gt_cases (zlen payload) 8) as [Hs|Hs].
  { left. unfold PacketReassembler_Accept, OffsetSize.
    rewrite (proj2 (Z.leb_le _ _)) by done. by eexists. }
  destruct (payload_split payload Hok Hs) as (Heq & Hoff & Hdok & Hd).
  set (off := be_decode (take 8 payload)) in *. set (data := drop 8 payload) in *.
  destruct (PacketReassembler_Accept_eq off data r Hinv Hoff Hdok Hd) as (lo & hi & _ & Hsp & Ha).
  rewrite <- Heq in Ha. rewrite Ha.
  ifb; [by left; eexists|]. ifb; [by left; eexists|]. ifb; [by left; eexists|]. b2p.
  right. exists lo, hi. eexists. split_and!; [done| |done..].
  apply Reassembler_inv_insert; try done; lia.
Qed.

Lemma PacketReassembler_Take_spec r out r' :
  Reassembler_inv r → PacketReassembler_Take r = (out, r') →
  Reassembler_inv r' ∧ re_offset r' = re_offset r + zlen out
  ∧ (out = [] ∧ r' = r
     ∨ re_fragments r = (re_offset r, out) :: re_fragments r' ∧ 0 < zlen out).
Proof.
  intros Hinv. pose proof Hinv as (H0 & Hc & Hw & Hm & Hb & Hn).
  unfold PacketReassembler_Take. destruct (re_fragments r) as [|[k data] rest] eqn:Ef.
  { intros [= <- <-]. rewrite zlen_nil, Z.add_0_r. split_and!; [done..|by left]. }
  destruct (k =? re_offset r) eqn:Ek; b2p.
  2: { intros [= <- <-]. rewrite zlen_nil, Z.add_0_r. split_and!; [done..|by left]. }
  intros [= <- <-]. subst k. destruct Hc as (_ & Hd & Hc). rewrite chain_end_cons in Hw, Hm.
  pose proof (chain_end_le _ _ Hc). simpl in Hb. rewrite zlen_cons in Hn.
  rewrite wrap_id by (unfold uint64_max in *; split; lia).
  split_and!; simpl; [|done|by right]. split_and!; simpl; try done; lia.
Qed.

(** ** Reassembly: what a run of calls returns *)

Inductive re_op :=
  | ReAccept (payload : bytes)
  | ReTake.

(** A run of calls from the owner of the reassembler; a call that throws is
    followed by the next one.  The result is what the [Take]s returned. *)
Fixpoint re_run (ops : list re_op) (r : PacketReassembler) : list bytes * PacketReassembler :=
  match ops with
  | [] => ([], r)
  | ReAccept payload :: rest => re_run rest (PacketReassembler_Accept payload r).2
  | ReTake :: rest =>
      let '(out, r) := PacketReassembler_Take r in
      let '(outs, r) := re_run rest r in
      (out :: outs, r)
  end.

Lemma re_run_app ops ops' r :
  re_run (ops ++ ops') r
  = ((re_run ops r).1 ++ (re_run ops' (re_run ops r).2).1, (re_run ops' (re_run ops r).2).2).
Proof.
  revert r. induction ops as [|[payload|] ops IH]; intros r; simpl.
  - by destruct (re_run ops' r).
  - apply IH.
  - destruct (PacketReassembler_Take r) as [out r1]. rewrite IH.
    by destruct (re_run ops r1).
Qed.

Definition op_ok (P : bytes → Prop) (op : re_op) : Prop :=
  match op with ReAccept payload => bytes_ok payload ∧ P payload | ReTake => True end.

(** A fragment of the stream: its offset, then the bytes of the stream there. *)
Definition fragment_of (stream : bytes) (e : Z * bytes) : Prop :=
  slice stream e.1 (e.1 + zlen e.2) = Ok e.2.

Definition payload_of (stream payload : bytes) : Prop :=
  fragment_of stream (be_decode (take 8 payload), drop 8 payload).

Lemma PacketReassembler_new_inv : Reassembler_inv PacketReassembler_new.
Proof. by split_and!. Qed.

(** The invariant holds along every run, and what was returned is the part of
    the stream before the offset. *)
Lemma re_run_stream stream ops r :
  Forall (op_ok (payload_of stream)) ops → Reassembler_inv r →
  Forall (fragment_of stream) (re_fragments r) → re_offset r <= zlen stream →
  let '(outs, r') := re_run ops r in
  Reassembler_inv r' ∧ re_offset r' <= zlen stream
  ∧ take (Z.to_nat (re_offset r)) stream ++ concat outs = take (Z.to_nat (re_offset r')) stream.
Proof.
  intros Hops. revert r. induction Hops as [|op ops Hop Hops IH]; intros r Hinv Hfr Hle.
  { simpl. by rewrite app_nil_r. }
  destruct op as [payload|]; simpl.
  - destruct Hop as [Hok Hp].
    destruct (PacketReassembler_Accept_spec payload r Hok Hinv)
      as [[e ->]|(lo & hi & r' & -> & Hinv' & Ho & Hsp & _ & Hsp')]; simpl; [by apply IH|].
    specialize (IH r'). rewrite Ho in IH. apply IH; [done| |done].
    rewrite Hsp'. rewrite Hsp in Hfr. apply Forall_app in Hfr as [? ?].
    apply Forall_app; split; [done|]. by apply Forall_cons.
  - destruct (PacketReassembler_Take r) as [out r1] eqn:Et.
    destruct (PacketReassembler_Take_spec _ _ _ Hinv Et) as (Hinv1 & Ho1 & Hcase).
    assert (Forall (fragment_of stream) (re_fragments r1) ∧ re_offset r1 <= zlen stream
            ∧ take (Z.to_nat (re_offset r)) stream ++ out = take (Z.to_nat (re_offset r1)) stream)
      as (Hfr1 & Hle1 & Htake).
    { destruct Hcase as [[-> ->]|[Hf Hpos]]; [by rewrite app_nil_r|].
      rewrite Hf in Hfr. apply Forall_cons in Hfr as [Hs Hfr]. split; [done|].
      apply slice_Ok_inv in Hs as (? & ? & Hs). simpl in *. split; [lia|].
      rewrite Ho1, Z2Nat.inj_add by lia. rewrite <- take_take_drop. f_equal.
      rewrite Hs at 1. f_equal. lia. }
    specialize (IH r1 Hinv1 Hfr1 Hle1). destruct (re_run ops r1) as [outs r2].
    destruct IH as (? & ? & IH). split_and!; [done..|]. simpl. by rewrite app_assoc, Htake.
Qed.

(** However fragments arrive, hostile ones included, the reassembler keeps
    at most 4096 of them and at most 4 MiB of data, all of it within a window
    after the current offset, and its byte count is exact. *)
Theorem PacketReassembler_bounded ops :
  Forall (op_ok (fun _ => True)) ops →
  let r := (re_run ops PacketReassembler_new).2 in
  Reassembler_inv r
  ∧ PacketReassembler_BufferedBytes r = total_bytes (re_fragments r)
  ∧ 0 <= PacketReassembler_BufferedBytes r <= MaximumWindow
  ∧ zlen (re_fragments r) <= MaximumFragments.
Proof.
  intros Hops r. assert (Reassembler_inv r) as Hinv.
  { unfold r. clear r. generalize PacketReassembler_new PacketReassembler_new_inv.
    induction Hops as [|[payload|] ops Hop Hops IH]; intros r Hr; simpl; [done|..].
    - apply IH. destruct Hop as [Hop _].
      destruct (PacketReassembler_Accept_spec payload r Hop Hr)
        as [[e ->]|(? & ? & r' & -> & ? & _)]; done.
    - destruct (PacketReassembler_Take r) as [out r1] eqn:Et.
      destruct (PacketReassembler_Take_spec _ _ _ Hr Et) as (Hr1 & _).
      specialize (IH r1 Hr1). by destruct (re_run ops r1). }
  pose proof Hinv as (H0 & Hc & Hw & Hm & Hb & Hn). unfold PacketReassembler_BufferedBytes.
  pose proof (chain_total _ _ Hc). split_and!; [done..| | |done]; rewrite Hb; [|lia].
  apply total_bytes_nonneg.
Qed.

Lemma PacketReassembler_bounded_witness :
  let ops := [ReAccept [0; 0; 0; 0; 0; 0; 0; 2; 7; 8]; ReTake;
              ReAccept [0; 0; 0; 0; 0; 0; 0; 0; 5; 6]; ReTake; ReTake] in
  Reassembler_inv (re_run ops PacketReassembler_new).2
  ∧ (re_run ops PacketReassembler_new).1 = [[]; [5; 6]; [7; 8]].
Proof.
  split; [|done]. apply PacketReassembler_bounded.
  forall_intro; split; try done; forall_intro; by split.
Defined.

(** For any run of [Accept] and [Take] calls whose accepted payloads are
    fragments of one stream, in any order, repeated or missing, what the [Take]
    calls return, concatenated, is the prefix of the stream before the
    reassembler's offset: bytes are never lost, duplicated or reordered. *)
Theorem PacketReassembler_in_order stream ops :
  Forall (op_ok (payload_of stream)) ops →
  let run := re_run ops PacketReassembler_new in
  concat run.1 = take (Z.to_nat (re_offset run.2)) stream
  ∧ zlen (concat run.1) = re_offset run.2.
Proof.
  intros Hops run. unfold run.
  pose proof (re_run_stream stream ops PacketReassembler_new Hops PacketReassembler_new_inv
    (Forall_nil_2 _) (zlen_nonneg stream)) as H.
  destruct (re_run ops PacketReassembler_new) as [outs r]. destruct H as ((H0 & _) & Hle & H).
  simpl in *. rewrite H. split; [done|]. zlia.
Qed.

Lemma PacketReassembler_in_order_witness :
  let ops := [ReAccept [0; 0; 0; 0; 0; 0; 0; 2; 7; 8]; ReTake;
              ReAccept [0; 0; 0; 0; 0; 0; 0; 0; 5; 6]; ReTake; ReTake] in
  concat (re_run ops PacketReassembler_new).1 = [5; 6; 7; 8]
  ∧ re_offset (re_run ops PacketReassembler_new).2 = 4
  ∧ zlen (concat (re_run ops PacketReassembler_new).1)
    = re_offset (re_run ops PacketReassembler_new).2.
Proof.
  split_and!; [done..|]. apply (PacketReassembler_in_order [5; 6; 7; 8; 9]).
  forall_intro; split; try done; forall_intro; by split.
Defined.

(** ** Reassembly: any order is enough *)

(** The fragments of [pieces], laid one after the other from [off]. *)
Fixpoint fragments_from (off : Z) (pieces : list bytes) : list (Z * bytes) :=
  match pieces with
  | [] => []
  | p :: rest => (off, p) :: fragments_from (off + zlen p) rest
  end.

Definition fragment_payload (e : Z * bytes) : bytes := be_encode 8 e.1 ++ e.2.

Definition key_le (a b : Z * bytes) : Prop := a.1 <= b.1.

Lemma chain_StronglySorted lo m : chain lo m → StronglySorted key_le m.
Proof.
  revert lo. induction m as [|[k v] m IH]; intros lo Hc; constructor; destruct Hc as (? & ? & Hc).
  - by eapply IH.
  - apply Forall_forall. intros [k' v'] Hin. destruct (chain_elem _ _ _ _ Hc Hin).
    unfold key_le. simpl. lia.
Qed.

(** Two entries of a chain are the same entry or do not overlap. *)
Lemma chain_disjoint lo m k v k' v' :
  chain lo m → (k, v) ∈ m → (k', v') ∈ m →
  (k, v) = (k', v') ∨ k + zlen v <= k' ∨ k' + zlen v' <= k.
Proof.
  revert lo. induction m as [|[k0 v0] m IH]; intros lo; [by rewrite elem_of_nil|].
  intros (? & ? & Hc) [H1|H1]%elem_of_cons [H2|H2]%elem_of_cons; simplify_eq.
  - by left.
  - destruct (chain_elem _ _ _ _ Hc H2). right. left. lia.
  - destruct (chain_elem _ _ _ _ Hc H1). right. right. lia.
  - by eapply IH.
Qed.

Lemma chain_perm_eq lo lo' l m : chain lo l → chain lo' m → l ≡ₚ m → l = m.
Proof.
  intros Hl Hm Hp. apply (StronglySorted_unique_strong key_le); [|by eapply chain_StronglySorted..|done].
  intros [k v] [k' v'] H1 H2 Ha Hb. rewrite Hp in H1. unfold key_le in *. simpl in *.
  destruct (chain_elem _ _ _ _ Hm H1) as (? & ? & _).
  destruct (chain_elem _ _ _ _ Hm H2) as (? & ? & _).
  destruct (chain_disjoint _ _ _ _ _ _ Hm H1 H2); [done|lia].
Qed.

Lemma chain_NoDup lo m : chain lo m → NoDup m.
Proof.
  revert lo. induction m as [|[k v] m IH]; intros lo Hc; constructor; destruct Hc as (? & ? & Hc).
  - intros Hin. destruct (chain_elem _ _ _ _ Hc Hin). lia.
  - by eapply IH.
Qed.

Lemma fragments_from_chain off pieces :
  Forall (fun p => bytes_ok p ∧ 0 < zlen p) pieces →
  chain off (fragments_from off pieces)
  ∧ chain_end off (fragments_from off pieces) = off + zlen (concat pieces).
Proof.
  intros Hp. revert off. induction Hp as [|p pieces [_ Hp] Hps IH]; intros off; simpl.
  { unfold chain_end. simpl. split; [done|zlia]. }
  destruct (IH (off + zlen p)) as [Hc He]. rewrite chain_end_cons, He, zlen_app.
  split_and!; [lia|done|done|lia].
Qed.

Lemma fragments_from_bytes_ok off pieces e :
  Forall (fun p => bytes_ok p ∧ 0 < zlen p) pieces → e ∈ fragments_from off pieces →
  bytes_ok e.2 ∧ 0 < zlen e.2.
Proof.
  intros Hp. revert off. induction Hp as [|p pieces Hp Hps IH]; intros off; simpl.
  { by rewrite elem_of_nil. }
  intros [->|Hin]%elem_of_cons; [done|]. by eapply IH.
Qed.

Lemma length_fragments_from off pieces : length (fragments_from off pieces) = length pieces.
Proof. revert off. induction pieces; intros; simpl; auto. Qed.

(** A fragment of a chain is accepted next to other fragments of it, if it ends within
    the window and there is a place for it. *)
Lemma Accept_from_chain F k v r :
  chain (re_offset r) F → chain_end (re_offset r) F <= uint64_max →
  k + zlen v <= re_offset r + MaximumWindow → zlen (re_fragments r) < MaximumFragments →
  bytes_ok v → Reassembler_inv r → re_fragments r ++ [(k, v)] ⊆+ F →
  ∃ r', PacketReassembler_Accept (fragment_payload (k, v)) r = (Ok tt, r')
    ∧ Reassembler_inv r' ∧ re_offset r' = re_offset r
    ∧ re_fragments r' ≡ₚ (k, v) :: re_fragments r.
Proof.
  intros HF Hend Hwin Hcnt Hok Hinv Hsub.
  assert (∀ e, e ∈ re_fragments r ++ [(k, v)] → e ∈ F) as Hin.
  { intros e He. by eapply elem_of_submseteq. }
  assert ((k, v) ∈ F) as HkF by (apply Hin, elem_of_app; right; by apply list_elem_of_singleton).
  destruct (chain_elem _ _ _ _ HF HkF) as (Hk0 & Hv & Hke).
  assert (NoDup (re_fragments r ++ [(k, v)])) as (_ & Hnew & _)%NoDup_app.
  { apply submseteq_Permutation in Hsub as [rest HP].
    pose proof (chain_NoDup _ _ HF) as Hnd. rewrite HP in Hnd. by apply NoDup_app in Hnd as [? _]. }
  pose proof Hinv as (H0 & Hc & _).
  destruct (PacketReassembler_Accept_eq k v r Hinv) as (lo & hi & Hlb & Hsp & Ha);
    [unfold uint64_max in *; split; lia|done..|].
  unfold fragment_payload. cbn [fst snd]. rewrite Ha. clear Ha.
  destruct (lower_bound_spec _ _ _ _ _ Hc Hlb) as (_ & Hlo & Hhi).
  assert (∀ k' v', (k', v') ∈ re_fragments r → k + zlen v <= k' ∨ k' + zlen v' <= k) as Hdis.
  { intros k' v' He. destruct (chain_disjoint _ _ k v k' v' HF HkF) as [Heq|?]; [|exfalso|done].
    - apply Hin, elem_of_app. by left.
    - eapply Hnew; [exact He|]. rewrite Heq. by apply list_elem_of_singleton. }
  rewrite (proj2 (Z.ltb_ge k (re_offset r))) by done.
  destruct ((re_offset r + MaximumWindow <? k + zlen v) || _ || _) eqn:Ew; [exfalso; b2p; lia|].
  destruct ((first_key _ _ <? _) || _) eqn:Eov.
  - exfalso. apply orb_true_iff in Eov as [Eh|El]; b2p.
    + destruct hi as [|[k' v'] hi]; simpl in *; [lia|].
      assert ((k', v') ∈ re_fragments r) as He by (rewrite Hsp; set_solver).
      destruct (chain_elem _ _ _ _ Hc He). destruct (Hdis _ _ He); lia.
    + unfold chain_end in El. destruct (last lo) as [[k' v']|] eqn:Elast; [|lia].
      assert ((k', v') ∈ re_fragments r) as He.
      { rewrite Hsp. apply elem_of_app. left. by apply last_Some_elem_of. }
      destruct (chain_elem _ _ _ _ Hc He). destruct (Hdis _ _ He); lia.
  - eexists. split; [done|]. b2p. split_and!; [|done|].
    + apply Reassembler_inv_insert; try done; lia.
    + simpl. rewrite Hsp. by rewrite Permutation_middle.
Qed.

Lemma accept_all F order r :
  chain 0 F → chain_end 0 F <= MaximumWindow → zlen F <= MaximumFragments →
  Forall (fun e => bytes_ok e.2) order → Reassembler_inv r → re_offset r = 0 →
  re_fragments r ++ order ⊆+ F →
  ∃ r', re_run (map (fun e => ReAccept (fragment_payload e)) order) r = ([], r')
    ∧ Reassembler_inv r' ∧ re_offset r' = 0 ∧ re_fragments r' ≡ₚ re_fragments r ++ order.
Proof.
  intros HF Hend Hcnt Hok. revert r.
  induction Hok as [|[k v] order Hv Hok IH]; intros r Hinv H0 Hsub; simpl.
  { exists r. by rewrite app_nil_r. }
  assert (re_fragments r ++ [(k, v)] ⊆+ F) as Hsub1.
  { etrans; [|exact Hsub]. apply submseteq_app; [done|]. apply submseteq_skip, submseteq_nil_l. }
  pose proof (submseteq_length _ _ Hsub1) as Hlen. rewrite length_app in Hlen. simpl in Hlen.
  destruct (chain_elem 0 F k v HF) as (_ & _ & Hke).
  { eapply elem_of_submseteq; [|exact Hsub1]. apply elem_of_app. right. by apply list_elem_of_singleton. }
  destruct (Accept_from_chain F k v r) as (r1 & -> & Hinv1 & H01 & Hp1); rewrite ?H0; try done;
    [unfold MaximumWindow, uint64_max in *; lia|lia|unfold zlen in *; lia|].
  destruct (IH r1) as (r' & Hrun & Hinv' & H0' & Hp'); [done|congruence| |].
  { rewrite Hp1. etrans; [|exact Hsub]. by rewrite <- Permutation_middle. }
  exists r'. split_and!; [exact Hrun|done..|].
  rewrite Hp', Hp1. by rewrite <- Permutation_middle.
Qed.

Lemma take_all pieces r :
  Reassembler_inv r → re_fragments r = fragments_from (re_offset r) pieces →
  ∃ r', re_run (replicate (length pieces) ReTake) r = (pieces, r')
    ∧ re_fragments r' = [] ∧ re_offset r' = re_offset r + zlen (concat pieces).
Proof.
  revert r. induction pieces as [|p pieces IH]; intros r Hinv Hf; simpl.
  { exists r. split_and!; [done..|]. zlia. }
  destruct (PacketReassembler_Take r) as [out r1] eqn:Et.
  destruct (PacketReassembler_Take_spec _ _ _ Hinv Et) as (Hinv1 & Ho1 & [[-> ->]|[Hf1 _]]).
  { exfalso. unfold PacketReassembler_Take in Et. rewrite Hf in Et. simpl in Et.
    rewrite Z.eqb_refl in Et. destruct Hinv as (_ & Hc & _). rewrite Hf in Hc.
    destruct Hc as (_ & Hp & _). injection Et as Hnil _. rewrite Hnil in Hp.
    unfold zlen in Hp. simpl in Hp. lia. }
  rewrite Hf in Hf1. simpl in Hf1. injection Hf1 as <- Hf1.
  destruct (IH r1) as (r' & -> & Hr' & Ho'); [done|by rewrite Ho1|].
  exists r'. split_and!; [done..|]. rewrite Ho', Ho1, zlen_app. lia.
Qed.

Lemma PacketReassembler_any_order_gen pieces order :
  Forall (fun p => bytes_ok p ∧ 0 < zlen p) pieces →
  zlen (concat pieces) <= MaximumWindow → zlen pieces <= MaximumFragments →
  order ≡ₚ fragments_from 0 pieces →
  ∃ r, re_run (map (fun e => ReAccept (fragment_payload e)) order
               ++ replicate (length pieces) ReTake) PacketReassembler_new = (pieces, r)
    ∧ re_fragments r = [] ∧ re_offset r = zlen (concat pieces).
Proof.
  intros Hp Hw Hn Horder. destruct (fragments_from_chain 0 pieces Hp) as [Hc He].
  destruct (accept_all (fragments_from 0 pieces) order PacketReassembler_new)
    as (r1 & Hrun1 & Hinv1 & H01 & Hp1); try done.
  { by rewrite He. }
  { unfold zlen. by rewrite length_fragments_from. }
  { rewrite Horder. apply Forall_forall. intros e Hin.
    by destruct (fragments_from_bytes_ok 0 pieces e). }
  { simpl. by rewrite Horder. }
  simpl in Hp1. rewrite Horder in Hp1.
  destruct (take_all pieces r1) as (r & Hrun & Hr & Ho); [done| |].
  { rewrite H01. destruct Hinv1 as (_ & Hc1 & _). by eapply chain_perm_eq. }
  exists r. rewrite H01 in Ho. split_and!; [|done..]. rewrite re_run_app, Hrun1. simpl.
  by rewrite Hrun.
Qed.

(** The fragments of a stream that fits the window, delivered in any order,
    are all accepted, and taking them returns the pieces of the stream in order,
    leaving nothing behind. *)
Theorem PacketReassembler_any_order pieces order :
  Forall (fun p => bytes_ok p ∧ 0 < zlen p) pieces →
  zlen (concat pieces) <= MaximumWindow → zlen pieces <= MaximumFragments →
  order ≡ₚ fragments_from 0 pieces →
  ∃ r, re_run (map (fun e => ReAccept (fragment_payload e)) order
               ++ replicate (length pieces) ReTake) PacketReassembler_new = (pieces, r)
    ∧ re_fragments r = [] ∧ re_offset r = zlen (concat pieces).
Proof. apply PacketReassembler_any_order_gen. Qed.

Lemma PacketReassembler_any_order_witness :
  ∃ r, re_run (map (fun e => ReAccept (fragment_payload e)) [(5, [8; 9]); (0, [1; 2]); (2, [3; 4; 5])]
               ++ replicate 3 ReTake) PacketReassembler_new
       = ([[1; 2]; [3; 4; 5]; [8; 9]], r)
    ∧ re_fragments r = [] ∧ re_offset r = 7.
Proof.
  apply (PacketReassembler_any_order [[1; 2]; [3; 4; 5]; [8; 9]]); [|done..|].
  - forall_intro; split; try done; forall_intro; by split.
  - simpl. change (Permutation ([(5, [8; 9])] ++ [(0, [1; 2]); (2, [3; 4; 5])])
                     ([(0, [1; 2]); (2, [3; 4; 5])] ++ [(5, [8; 9])])). apply Permutation_app_comm.
Defined.

(** ** The encoder sends its queue in order *)

(** The parts of the queue: none empty, and the offset inside the first. *)
Definition parts_ok (off : Z) (parts : list bytes) : Prop :=
  match parts with
  | [] => off = 0
  | p :: rest => 0 <= off < zlen p ∧ Forall (fun q => 0 < zlen q) rest
  end.

(** The bytes still to be sent. *)
Definition parts_stream (off : Z) (parts : list bytes) : bytes :=
  drop (Z.to_nat off) (concat parts).

Definition enc_stream (e : PacketEncoder) : bytes :=
  parts_stream (enc_pendingOffset e) (enc_pending e).

Definition Encoder_inv (e : PacketEncoder) : Prop :=
  0 <= enc_offset e <= uint64_max
  ∧ parts_ok (enc_pendingOffset e) (enc_pending e)
  ∧ Forall bytes_ok (enc_pending e)
  ∧ enc_pendingBytes e = zlen (enc_stream e)
  ∧ enc_pendingBytes e <= MaximumPendingBytes.

Lemma parts_ok_tail off p rest : parts_ok off (p :: rest) → parts_ok 0 rest.
Proof. intros [_ H]. destruct rest; [done|]. apply Forall_cons in H as [? ?]. by split. Qed.

Lemma parts_stream_cons off p rest :
  parts_ok off (p :: rest) →
  parts_stream off (p :: rest) = drop (Z.to_nat off) p ++ parts_stream 0 rest.
Proof.
  intros [H _]. unfold parts_stream. simpl. rewrite drop_app_le; [done|]. unfold zlen in H. lia.
Qed.

Lemma gather_spec parts off remaining payload :
  parts_ok off parts → 0 <= remaining <= zlen (parts_stream off parts) →
  zlen (parts_stream off parts) < 2 ^ 64 →
  gather parts off remaining payload
  = Ok (payload ++ take (Z.to_nat remaining) (parts_stream off parts)).
Proof.
  revert off remaining payload.
  induction parts as [|p rest IH]; intros off remaining payload Hwf Hr Hlt; cbn [gather].
  { simpl in Hwf. subst off. change (zlen (parts_stream 0 [])) with 0 in Hr.
    replace remaining with 0 by lia. simpl. by rewrite app_nil_r. }
  destruct (remaining =? 0) eqn:E0; b2p.
  { subst. simpl. by rewrite app_nil_r. }
  pose proof (parts_ok_tail _ _ _ Hwf) as Hwf'. pose proof (parts_stream_cons _ _ _ Hwf) as Hs.
  rewrite Hs in *. destruct Hwf as [Hoff _]. rewrite zlen_app, zlen_drop in *.
  pose proof (zlen_nonneg (parts_stream 0 rest)).
  rewrite wrap_id by (split; lia).
  rewrite slice_Ok by lia. cbn [obind]. rewrite IH by (done || lia). f_equal.
  rewrite <- app_assoc. f_equal. rewrite take_app.
  replace (Z.to_nat remaining - length (drop (Z.to_nat off) p))%nat
    with (Z.to_nat (remaining - Z.min remaining (zlen p - off)))
    by (rewrite length_drop; unfold zlen in *; lia).
  f_equal. destruct (Z.le_ge_cases remaining (zlen p - off)).
  - f_equal. lia.
  - rewrite !take_ge; [done|rewrite length_drop; unfold zlen in *; lia..].
Qed.

Lemma consume_spec fuel parts off remaining :
  parts_ok off parts → 0 <= remaining <= zlen (parts_stream off parts) →
  zlen (parts_stream off parts) < 2 ^ 64 → (length parts < fuel)%nat →
  ∃ parts' off', consume fuel parts off remaining = Ok (parts', off')
    ∧ parts_ok off' parts' ∧ (∀ P, Forall P parts → Forall P parts')
    ∧ parts_stream off' parts' = drop (Z.to_nat remaining) (parts_stream off parts).
Proof.
  revert parts off remaining.
  induction fuel as [|fuel IH]; intros parts off remaining Hwf Hr Hlt Hfuel; [lia|].
  cbn [consume]. destruct (remaining =? 0) eqn:E0; b2p.
  { subst. exists parts, off. by rewrite drop_0. }
  destruct parts as [|p rest].
  { simpl in Hwf. subst off. change (zlen (parts_stream 0 [])) with 0 in Hr. lia. }
  pose proof (parts_ok_tail _ _ _ Hwf) as Hwf'. pose proof (parts_stream_cons _ _ _ Hwf) as Hs.
  rewrite Hs in *. pose proof Hwf as [Hoff Hrest]. rewrite zlen_app, zlen_drop in *.
  pose proof (zlen_nonneg (parts_stream 0 rest)). rewrite wrap_id by (split; lia).
  destruct (Z.le_gt_cases (zlen p - off) remaining) as [Hge|Hlt'].
  - rewrite Z.min_r by lia. rewrite (proj2 (Z.eqb_eq _ _)) by lia.
    destruct (IH rest 0 (remaining - (zlen p - off))) as (parts' & off' & -> & Hok' & HP & Hst);
      [done|lia..|simpl in Hfuel; lia|].
    exists parts', off'. split_and!; [done..| |].
    + intros P HF. apply HP. by apply Forall_cons in HF as [_ ?].
    + rewrite Hst. rewrite drop_app_ge by (rewrite length_drop; unfold zlen in *; lia).
      f_equal. rewrite length_drop. unfold zlen in *. lia.
  - rewrite Z.min_l by lia. rewrite (proj2 (Z.eqb_neq _ _)) by lia.
    rewrite Z.sub_diag. exists (p :: rest), (off + remaining).
    assert (parts_ok (off + remaining) (p :: rest)) as Hwf2 by (split; [lia|done]).
    split_and!; [by destruct fuel|done|done|].
    rewrite parts_stream_cons by done. rewrite drop_app_le by (rewrite length_drop; unfold zlen in *; lia).
    f_equal. rewrite drop_drop. f_equal. lia.
Qed.

(** The frame that carries one fragment. *)
Definition fragment_frame (entry : Z * bytes) : Frame :=
  {| fr_type := MessageType_Fragment; fr_payload := fragment_payload entry |}.

Lemma PacketEncoder_Next_spec e capacity :
  Encoder_inv e → 20 < capacity → enc_offset e + enc_pendingBytes e <= uint64_max →
  ∃ out piece e', PacketEncoder_Next capacity e = (Ok out, e') ∧ Encoder_inv e'
    ∧ enc_stream e = piece ++ enc_stream e'
    ∧ enc_offset e' = enc_offset e + zlen piece
    ∧ (piece = [] ∧ out = [] ∧ enc_stream e = []
       ∨ 0 < zlen piece ∧ zlen out <= capacity
         ∧ Frame_ok (fragment_frame (enc_offset e, piece))
         ∧ out = frame_bytes (fragment_frame (enc_offset e, piece))).
Proof.
  intros (Ho & Hp & Hb & Hn & Hmax) Hcap Hfit. unfold PacketEncoder_Next.
  change (Frame_HeaderSize + OffsetSize) with 20.
  change (Frame_MaximumPayloadSize - OffsetSize) with 1048568.
  rewrite (proj2 (Z.leb_gt _ _)) by done. rewrite Hn.
  set (count := Z.min _ _). pose proof (zlen_nonneg (enc_stream e)) as Hz.
  destruct (count =? 0) eqn:Ec; b2p.
  { exists [], [], e. rewrite zlen_nil, Z.add_0_r. split_and!; try done. left.
    destruct (enc_stream e); [done|]. unfold count in Ec. rewrite zlen_cons in *. zlia. }
  rewrite (proj2 (Z.ltb_ge _ _)) by (unfold count; lia).
  assert (0 < count <= zlen (enc_stream e)) as Hcount by (unfold count in *; lia).
  unfold MaximumPendingBytes in Hmax.
  rewrite gather_spec by (done || (unfold enc_stream in *; lia)).
  change (parts_stream (enc_pendingOffset e) (enc_pending e)) with (enc_stream e).
  set (piece := take (Z.to_nat count) (enc_stream e)).
  assert (zlen piece = count) as Hpz by (unfold piece; zsimp; lia).
  assert (Frame_ok (fragment_frame (enc_offset e, piece))) as Hf.
  { split; [done|]. unfold fragment_frame, fragment_payload, Frame_MaximumPayloadSize. cbn [fr_payload fst snd].
    rewrite zlen_app, Hpz. change (zlen (be_encode 8 (enc_offset e))) with 8.
    unfold count. lia. }
  change {| fr_type := MessageType_Fragment; fr_payload := be_encode 8 (enc_offset e) ++ piece |}
    with (fragment_frame (enc_offset e, piece)).
  rewrite Frame_Encode_eq by done.
  destruct (consume_spec (S (length (enc_pending e))) (enc_pending e) (enc_pendingOffset e) count)
    as (parts & off & -> & Hok' & HP & Hst); [done|unfold enc_stream in *; lia..|].
  assert (zlen (parts_stream off parts) = zlen (enc_stream e) - count) as Hz'.
  { rewrite Hst. change (parts_stream (enc_pendingOffset e) (enc_pending e)) with (enc_stream e).
    zsimp. lia. }
  eexists _, piece, _. split; [done|]. split_and!.
  - split_and!; simpl; try done; try lia; [by apply HP|].
    unfold MaximumPendingBytes. lia.
  - change (enc_stream e = piece ++ parts_stream off parts). rewrite Hst. symmetry. apply take_drop.
  - by rewrite Hpz.
  - right. split_and!; [lia| |done..]. rewrite zlen_frame_bytes.
    unfold fragment_frame, fragment_payload. cbn [fr_payload fst snd]. rewrite zlen_app, zlen_be_encode, Hpz.
    unfold count. lia.
Qed.

Lemma PacketEncoder_Queue_spec data e :
  bytes_ok data → Encoder_inv e →
  PacketEncoder_Queue data e = (Throw WindowExceeded, e) ∧ MaximumPendingBytes < enc_pendingBytes e + zlen data
  ∨ ∃ e', PacketEncoder_Queue data e = (Ok tt, e') ∧ Encoder_inv e'
      ∧ enc_offset e' = enc_offset e ∧ enc_stream e' = enc_stream e ++ data.
Proof.
  intros Hdok (Ho & Hp & Hb & Hn & Hmax). unfold PacketEncoder_Queue.
  rewrite wrap_id by (unfold MaximumPendingBytes in *; split; zlia).
  destruct (_ <? _) eqn:Ew; b2p; [left; split; [done|lia]|right].
  destruct (zlen data =? 0) eqn:E0; b2p.
  { assert (data = []) as -> by (destruct data; [done|rewrite zlen_cons in E0; zlia]).
    exists e. rewrite app_nil_r. split_and!; done. }
  assert (parts_stream (enc_pendingOffset e) (enc_pending e ++ [data]) = enc_stream e ++ data) as Hst.
  { unfold enc_stream, parts_stream. rewrite concat_app. simpl. rewrite app_nil_r.
    destruct (enc_pending e) as [|p rest]; simpl in Hp; [by rewrite Hp|].
    rewrite drop_app_le; [done|]. simpl. rewrite length_app. unfold zlen in Hp. lia. }
  eexists; split; [done|]. unfold enc_stream at 2. simpl. split_and!; [|done|done].
  split_and!; simpl; try done; try lia.
  - destruct (enc_pending e) as [|p rest]; simpl in *.
    + split; [zlia|done].
    + destruct Hp as [? ?]. split; [done|]. apply Forall_app_2; [done|].
      apply Forall_cons_2; [zlia|done].
  - apply Forall_app_2; [done|]. by apply Forall_cons_2.
  - unfold enc_stream at 1. simpl. rewrite Hst, zlen_app. lia.
Qed.

(** ** From encoder to reassembler *)

Inductive enc_op :=
  | EncQueue (data : bytes)
  | EncNext (capacity : Z).

(** A run of calls on the encoder: the buffers [Next] returned, the data that
    [Queue] accepted, and the encoder. *)
Fixpoint enc_run (ops : list enc_op) (e : PacketEncoder)
    : list (outcome bytes) * bytes * PacketEncoder :=
  match ops with
  | [] => ([], [], e)
  | EncQueue data :: rest =>
      let '(r, e) := PacketEncoder_Queue data e in
      let '(outs, queued, e) := enc_run rest e in
      (outs, match r with Ok _ => data | _ => [] end ++ queued, e)
  | EncNext capacity :: rest =>
      let '(out, e) := PacketEncoder_Next capacity e in
      let '(outs, queued, e) := enc_run rest e in
      (out :: outs, queued, e)
  end.

Definition enc_op_ok (op : enc_op) : Prop :=
  match op with EncQueue data => bytes_ok data | EncNext _ => True end.

(** The capacities of the calls of [Next]. *)
Definition capacities (ops : list enc_op) : list Z :=
  omap (fun op => match op with EncQueue _ => None | EncNext capacity => Some capacity end) ops.

(** What a call of [Next] gives: a capacity without room for a byte of data is refused,
    and any other one is kept to. *)
Definition next_ok (capacity : Z) (out : outcome bytes) : Prop :=
  if capacity <=? 20 then out = Throw InvalidCapacity
  else ∃ buffer, out = Ok buffer ∧ zlen buffer <= capacity.

(** The buffers to be sent. *)
Definition sent (outs : list (outcome bytes)) : list bytes :=
  omap (fun out => match out with Ok (b :: rest) => Some (b :: rest) | _ => None end) outs.

(** The bytes the [Queue] calls of a run offer. *)
Definition offered (ops : list enc_op) : Z :=
  foldr (fun op n => match op with EncQueue data => zlen data | EncNext _ => 0 end + n) 0 ops.

Lemma offered_nonneg ops : 0 <= offered ops.
Proof. induction ops as [|[data|cap] ops IH]; simpl; zlia. Qed.

Definition fragment_buffer (entry : Z * bytes) : bytes := frame_bytes (fragment_frame entry).

Lemma sent_fragment entry outs : sent (Ok (fragment_buffer entry) :: outs) = fragment_buffer entry :: sent outs.
Proof. done. Qed.

Lemma enc_run_spec ops e :
  Forall enc_op_ok ops → Encoder_inv e →
  enc_offset e + enc_pendingBytes e + offered ops <= uint64_max →
  ∃ outs queued e' pieces, enc_run ops e = (outs, queued, e') ∧ Encoder_inv e'
    ∧ concat pieces ++ enc_stream e' = enc_stream e ++ queued
    ∧ Forall (fun p => 0 < zlen p) pieces
    ∧ Forall (fun entry => Frame_ok (fragment_frame entry)) (fragments_from (enc_offset e) pieces)
    ∧ sent outs = map fragment_buffer (fragments_from (enc_offset e) pieces)
    ∧ Forall2 next_ok (capacities ops) outs
    ∧ bytes_ok queued ∧ zlen queued <= offered ops.
Proof.
  intros Hops. revert e.
  induction Hops as [|[data|capacity] ops Hop Hops IH]; intros e Hinv Hfit; simpl in Hfit.
  { exists [], [], e, []. simpl. rewrite app_nil_r. by split_and!. }
  - pose proof (zlen_nonneg data). cbn [enc_run].
    destruct (PacketEncoder_Queue_spec data e Hop Hinv)
      as [[-> _]|(e1 & -> & Hinv1 & Ho1 & Hs1)].
    + destruct (IH e Hinv)
        as (outs & queued & e' & pieces & -> & ? & ? & ? & ? & ? & ? & ? & ?); [lia|].
      exists outs, queued, e', pieces. simpl. split_and!; try done; lia.
    + pose proof Hinv as (_ & _ & _ & Hn & _). pose proof Hinv1 as (_ & _ & _ & Hn1 & _).
      destruct (IH e1 Hinv1)
        as (outs & queued & e' & pieces & -> & ? & Hst & ? & Hok & Hf & ? & ? & ?).
      { rewrite Ho1, Hn1, Hs1, zlen_app. lia. }
      exists outs, (data ++ queued), e', pieces. rewrite Hs1, <- app_assoc in Hst.
      rewrite Ho1 in Hok, Hf. simpl. rewrite zlen_app. split_and!; try done; try lia.
      by apply Forall_app_2.
  - cbn [enc_run]. pose proof (offered_nonneg ops). destruct (Z.le_gt_cases capacity 20) as [Hcap|Hcap].
    { assert (PacketEncoder_Next capacity e = (Throw InvalidCapacity, e)) as ->.
      { unfold PacketEncoder_Next. by rewrite (proj2 (Z.leb_le _ _)). }
      destruct (IH e Hinv)
        as (outs & queued & e' & pieces & -> & ? & ? & ? & ? & ? & Hnext & ? & ?); [lia|].
      exists (Throw InvalidCapacity :: outs), queued, e', pieces. split_and!; try done.
      constructor; [|exact Hnext]. unfold next_ok. by rewrite (proj2 (Z.leb_le _ _)). }
    destruct (PacketEncoder_Next_spec e capacity) as
      (out & piece & e1 & -> & Hinv1 & Hs1 & Ho1 & Hcase); [done..|lia|].
    pose proof Hinv as (_ & _ & _ & Hn & _). pose proof Hinv1 as (_ & _ & _ & Hn1 & _).
    destruct (IH e1 Hinv1)
      as (outs & queued & e' & pieces & -> & Hinv' & Hst & Hpos & Hok & Hf & Hnext & ? & ?).
    { rewrite Ho1, Hn1. rewrite Hn, Hs1, zlen_app in Hfit. lia. }
    assert (zlen out <= capacity → Forall2 next_ok (capacities (EncNext capacity :: ops)) (Ok out :: outs))
      as Hnext1.
    { intros Hout. constructor; [|exact Hnext]. unfold next_ok. rewrite (proj2 (Z.leb_gt _ _)) by done. eauto. }
    destruct Hcase as [(-> & -> & _)|(Hpz & Hout & Hfok & ->)].
    + rewrite zlen_nil, Z.add_0_r in Ho1. rewrite Ho1 in *. simpl in Hs1.
      exists (Ok [] :: outs), queued, e', pieces. rewrite Hs1. simpl in *.
      split_and!; try done. apply Hnext1. change (zlen []) with 0. lia.
    + fold (fragment_buffer (enc_offset e, piece)) in *.
      exists (Ok (fragment_buffer (enc_offset e, piece)) :: outs), queued, e',
        (piece :: pieces). cbn [fragments_from map concat]. rewrite Ho1 in *.
      split_and!; try done.
      * rewrite Hs1, <- app_assoc, Hst. by rewrite app_assoc.
      * by apply Forall_cons_2.
      * by apply Forall_cons_2.
      * by rewrite sent_fragment, Hf.
      * by apply Hnext1.
Qed.

(** *** The receiver *)

Inductive recv_op :=
  | RecvBuffer (buffer : bytes)
  | RecvTake.

(** A run of the receiver: it reads the frame of each buffer and gives its payload to
    [Accept], and takes bytes in between.  A run in which a buffer is not read as a frame
    of fragments, or [Accept] throws, has no result. *)
Fixpoint recv_run (ops : list recv_op) (r : PacketReassembler) : outcome (list bytes * PacketReassembler) :=
  match ops with
  | [] => Ok ([], r)
  | RecvBuffer buffer :: rest =>
      let! (frame, consumed) := NextFrame buffer 0 in
      match frame with
      | Some f =>
          if negb ((fr_type f =? MessageType_Fragment) && (consumed =? zlen buffer))
          then Throw (RuntimeError "not one frame of a fragment") else
          let '(accepted, r) := PacketReassembler_Accept (fr_payload f) r in
          let! _ := accepted in recv_run rest r
      | None => Throw (RuntimeError "not a frame")
      end
  | RecvTake :: rest =>
      let '(out, r) := PacketReassembler_Take r in
      let! (outs, r) := recv_run rest r in Ok (out :: outs, r)
  end.

Definition buffers_of (ops : list recv_op) : list bytes :=
  omap (fun op => match op with RecvBuffer buffer => Some buffer | RecvTake => None end) ops.

(** The offset and the data in a buffer. *)
Definition fragment_in (buffer : bytes) : Z * bytes :=
  (be_decode (take 8 (drop 12 buffer)), drop 20 buffer).

(** Each buffer arrives when its data ends within 4 MiB of the bytes taken so far and
    fewer than 4096 fragments wait; [waiting] are the fragments that arrived and were
    not taken yet, of which the one that starts at [taken] is taken next. *)
Fixpoint in_window (ops : list recv_op) (taken : Z) (waiting : list (Z * bytes)) : Prop :=
  match ops with
  | [] => True
  | RecvBuffer buffer :: rest =>
      let e := fragment_in buffer in
      e.1 + zlen e.2 <= taken + MaximumWindow ∧ zlen waiting < MaximumFragments
      ∧ in_window rest taken (e :: waiting)
  | RecvTake :: rest =>
      in_window rest (taken + total_bytes (filter (fun e => e.1 = taken) waiting))
        (filter (fun e => e.1 ≠ taken) waiting)
  end.

Lemma fragment_in_buffer k v : in_width 64 k → fragment_in (fragment_buffer (k, v)) = (k, v).
Proof.
  intros Hk. unfold fragment_in, fragment_buffer, frame_bytes. cbn [fragment_frame fr_payload].
  unfold fragment_payload. cbn [fst snd]. change 20%nat with (12 + 8)%nat.
  rewrite <- drop_drop, !(drop_app_length' (frame_header _)), take_app_length', drop_app_length' by done.
  by rewrite be_decode_encode, Z.mod_small.
Qed.

Lemma NextFrame_buffer entry :
  Frame_ok (fragment_frame entry) →
  NextFrame (fragment_buffer entry) 0 = Ok (Some (fragment_frame entry), zlen (fragment_buffer entry)).
Proof.
  intros Hf. pose proof (Frame_ok_payload _ Hf) as Hlen. unfold fragment_buffer.
  pose proof (NextFrame_whole (fragment_frame entry) [] [] Hf) as H. cbn [app] in H.
  rewrite app_nil_r, zlen_nil in H. apply H. rewrite zlen_frame_bytes. lia.
Qed.

Lemma total_bytes_perm l l' : l ≡ₚ l' → total_bytes l = total_bytes l'.
Proof. induction 1; simpl; lia. Qed.

(** A piece is taken exactly when the first fragment starts at the offset. *)
Lemma take_filter r out r' :
  Reassembler_inv r → PacketReassembler_Take r = (out, r') →
  total_bytes (filter (fun e => e.1 = re_offset r) (re_fragments r)) = zlen out
  ∧ filter (fun e => e.1 ≠ re_offset r) (re_fragments r) = re_fragments r'.
Proof.
  intros (_ & Hc & _) Ht. unfold PacketReassembler_Take in Ht.
  assert (∀ lo l, re_offset r < lo → chain lo l → filter (fun e => e.1 = re_offset r) l = []
            ∧ filter (fun e => e.1 ≠ re_offset r) l = l) as Hbeyond.
  { intros lo l. revert lo. induction l as [|[k v] l IH]; [done|]. intros lo Hlo (Hk & Hv & Hl).
    destruct (IH (k + zlen v) ltac:(lia) Hl) as [H1 H2].
    by rewrite !filter_cons, decide_False, decide_True, H1, H2 by (simpl; lia). }
  destruct (re_fragments r) as [|[k v] rest] eqn:Ef; [by injection Ht as <- <-|].
  destruct Hc as (Hk & Hv & Hc). destruct (Z.eqb_spec k (re_offset r)) as [->|Hne].
  - injection Ht as <- <-. destruct (Hbeyond (re_offset r + zlen v) rest) as [H1 H2]; [lia|done|].
    rewrite !filter_cons, decide_True, decide_False by (simpl; auto). rewrite H1, H2. simpl. split; [lia|done].
  - injection Ht as <- <-. destruct (Hbeyond k ((k, v) :: rest)) as [-> ->]; [lia|by split_and!|]. done.
Qed.

(** What is taken is the first of the pieces that are left, or nothing. *)
Lemma Take_pieces r out r1 todo rest :
  Reassembler_inv r → PacketReassembler_Take r = (out, r1) →
  re_fragments r ++ todo ≡ₚ fragments_from (re_offset r) rest →
  Forall (fun p => bytes_ok p ∧ 0 < zlen p) rest →
  ∃ rest1, concat rest = out ++ concat rest1 ∧ (length rest1 <= length rest)%nat
    ∧ Forall (fun p => bytes_ok p ∧ 0 < zlen p) rest1
    ∧ re_fragments r1 ++ todo ≡ₚ fragments_from (re_offset r1) rest1.
Proof.
  intros Hinv Et Hperm Hrest. destruct (fragments_from_chain (re_offset r) rest Hrest) as [HF _].
  destruct (PacketReassembler_Take_spec _ _ _ Hinv Et) as (_ & Ho1 & [[-> ->]|[Hf1 Hpos]]); [by exists rest|].
  rewrite Hf1 in Hperm. destruct rest as [|p rest]; simpl in Hperm; [by apply Permutation_nil_r in Hperm|].
  assert ((re_offset r, out) ∈ fragments_from (re_offset r) (p :: rest)) as Hin
    by (simpl; rewrite <- Hperm; by left).
  destruct (chain_disjoint _ _ (re_offset r) out (re_offset r) p HF) as [Heq|Hdis]; [done|by left| |].
  2: { destruct HF as (_ & Hp & _). lia. }
  injection Heq as ->. apply Forall_cons in Hrest as [_ Hrest]. exists rest. split_and!; [done|simpl; lia|done|].
  rewrite Ho1. by eapply Permutation_cons_inv.
Qed.

(** Along a run that keeps to the window, the pieces that are left are those of the
    fragments that wait and of those that are to come. *)
Lemma recv_run_spec ops todo rest r waiting :
  buffers_of ops = map fragment_buffer todo →
  Forall (fun e => Frame_ok (fragment_frame e)) todo →
  Reassembler_inv r → waiting ≡ₚ re_fragments r →
  re_fragments r ++ todo ≡ₚ fragments_from (re_offset r) rest →
  Forall (fun p => bytes_ok p ∧ 0 < zlen p) rest → re_offset r + zlen (concat rest) <= uint64_max →
  in_window ops (re_offset r) waiting →
  ∃ outs r' rest', recv_run ops r = Ok (outs, r') ∧ Reassembler_inv r'
    ∧ re_fragments r' = fragments_from (re_offset r') rest' ∧ (length rest' <= length rest)%nat
    ∧ concat outs ++ concat rest' = concat rest.
Proof.
  revert todo rest r waiting.
  induction ops as [|[buffer|] ops IH]; intros todo rest r waiting Hbuf Hfok Hinv Hwait Hperm Hrest Hmax Hwin;
    destruct (fragments_from_chain (re_offset r) rest Hrest) as [HF Hend].
  - destruct todo; [|done]. rewrite app_nil_r in Hperm. exists [], r, rest. split_and!; try done.
    eapply chain_perm_eq; [apply Hinv|exact HF|done].
  - destruct todo as [|[k v] todo]; [done|]. injection Hbuf as -> Hbuf.
    apply Forall_cons in Hfok as [Hf Hfok].
    assert ((k, v) ∈ fragments_from (re_offset r) rest) as Hin by (rewrite <- Hperm; set_solver).
    destruct (fragments_from_bytes_ok _ _ _ Hrest Hin) as [Hv _]. simpl in Hv.
    destruct (chain_elem _ _ _ _ HF Hin) as (Hk & Hv0 & Hke). pose proof (proj1 Hinv) as H0.
    cbn [in_window] in Hwin. rewrite fragment_in_buffer in Hwin by (unfold uint64_max in *; split; lia).
    destruct Hwin as (Hw & Hn & Hwin). simpl in Hw.
    assert (zlen waiting = zlen (re_fragments r)) as Hlen by (unfold zlen; by rewrite Hwait).
    destruct (Accept_from_chain (fragments_from (re_offset r) rest) k v r)
      as (r1 & Ha & Hinv1 & Ho1 & Hp1); [done|lia|done|lia|done|done| |].
    { rewrite <- Hperm. apply submseteq_app; [done|]. apply submseteq_skip, submseteq_nil_l. }
    destruct (IH todo rest r1 ((k, v) :: waiting)) as (outs & r2 & rest' & Hrun & ?); rewrite ?Ho1; try done.
    { by rewrite Hwait, Hp1. }
    { rewrite <- Hperm, Hp1. by rewrite <- Permutation_middle. }
    exists outs, r2, rest'. split; [|done]. cbn [recv_run]. rewrite (NextFrame_buffer _ Hf). cbn [obind].
    rewrite (Z.eqb_refl (zlen _)). cbn [fragment_frame fr_type fr_payload].
    change (MessageType_Fragment =? MessageType_Fragment) with true. cbn [negb andb]. by rewrite Ha.
  - cbn [recv_run]. destruct (PacketReassembler_Take r) as [out r1] eqn:Et.
    destruct (PacketReassembler_Take_spec _ _ _ Hinv Et) as (Hinv1 & Ho1 & Hcase).
    destruct (take_filter _ _ _ Hinv Et) as [Htot Hflt]. cbn [in_window] in Hwin.
    assert (filter (fun e => e.1 ≠ re_offset r) waiting ≡ₚ re_fragments r1) as Hw1 by (by rewrite Hwait, Hflt).
    assert (total_bytes (filter (fun e => e.1 = re_offset r) waiting) = zlen out) as Hout.
    { rewrite <- Htot. apply total_bytes_perm. by rewrite Hwait. }
    rewrite Hout, <- Ho1 in Hwin.
    destruct (Take_pieces r out r1 todo rest Hinv Et Hperm Hrest) as (rest1 & Hcat & Hl1 & Hrest1 & Hperm1).
    destruct (IH todo rest1 r1 _ Hbuf Hfok Hinv1 Hw1 Hperm1 Hrest1) as (outs & r2 & rest2 & -> & ? & ? & Hl & Hc);
      [rewrite Ho1; rewrite Hcat, zlen_app in Hmax; lia|done|].
    exists (out :: outs), r2, rest2. split_and!; [done..|lia|]. simpl. by rewrite <- app_assoc, Hc.
Qed.

Lemma recv_run_takes ops n r outs r1 :
  recv_run ops r = Ok (outs, r1) →
  recv_run (ops ++ replicate n RecvTake) r
  = Ok (outs ++ (re_run (replicate n ReTake) r1).1, (re_run (replicate n ReTake) r1).2).
Proof.
  revert r outs. induction ops as [|[buffer|] ops IH]; intros r outs; cbn [recv_run app].
  - intros [= <- <-]. revert r. induction n as [|n IH]; intros r; simpl; [done|].
    destruct (PacketReassembler_Take r) as [out r2]. rewrite (IH r2). simpl.
    by destruct (re_run (replicate n ReTake) r2).
  - destruct (NextFrame buffer 0) as [[[f|] c]| |]; cbn [obind]; try done. destruct (negb _); [done|].
    destruct (PacketReassembler_Accept _ r) as [[[]| |] r2]; cbn [obind]; try done. apply IH.
  - destruct (PacketReassembler_Take r) as [out r2].
    intros ([outs' r3] & Hrun & [= <- <-])%obind_Ok_inv. by rewrite (IH _ _ Hrun).
Qed.

Lemma takes_nothing n r : re_fragments r = [] → re_run (replicate n ReTake) r = (replicate n [], r).
Proof.
  intros Hr. induction n as [|n IH]; [done|]. simpl. unfold PacketReassembler_Take. by rewrite Hr, IH.
Qed.

Lemma concat_nils n : concat (replicate n (@nil Z)) = [].
Proof. by induction n. Qed.

(** C22: end to end.  Whatever is offered to [Queue], up to 2^64-1 bytes in all, and with
    whatever capacities [Next] is called, a capacity of at most 20 bytes throws and any other one
    is kept to, and the buffers that [Next] returns, delivered in any order, each once,
    and with any calls of [Take] in between, are all read as frames and accepted, as long
    as each arrives when its data ends within 4 MiB of the bytes taken so far and fewer
    than 4096 fragments wait.  Once all were delivered, as many more [Take]s as there were
    buffers complete the queued bytes: all that the [Take]s returned, in their order, is
    what [Queue] accepted, in its order, less the bytes still waiting in the encoder. *)
Theorem framing_end_to_end ops :
  Forall enc_op_ok ops → offered ops <= uint64_max →
  ∃ outs queued e',
    enc_run ops PacketEncoder_new = (outs, queued, e')
    ∧ Forall2 next_ok (capacities ops) outs
    ∧ ∀ deliveries, buffers_of deliveries ≡ₚ sent outs → in_window deliveries 0 [] →
        ∃ taken r,
          recv_run (deliveries ++ replicate (length (sent outs)) RecvTake) PacketReassembler_new = Ok (taken, r)
          ∧ concat taken ++ enc_stream e' = queued.
Proof.
  intros Hops Hoff. assert (Encoder_inv PacketEncoder_new) as Hinv by (split_and!; done).
  destruct (enc_run_spec ops PacketEncoder_new Hops Hinv)
    as (outs & queued & e' & pieces & Hrun & Hinv' & Hst & Hpos & Hok & Hsent & Hnext & Hqok & Hq); [simpl; lia|].
  exists outs, queued, e'. split_and!; [done..|]. intros deliveries Hbuf Hwin.
  change (enc_stream PacketEncoder_new) with (@nil Z) in Hst. simpl in Hst. rewrite <- Hst in Hqok, Hq.
  apply Forall_app in Hqok as [Hcat _]. rewrite zlen_app in Hq.
  rewrite Hsent in Hbuf. apply Permutation_map_inv in Hbuf as (todo & Hbuf & Htodo).
  destruct (recv_run_spec deliveries todo pieces PacketReassembler_new [])
    as (taken & r & rest & Hrecv & Hinvr & Hfr & Hlen & Htaken); try done.
  { by rewrite <- Htodo. }
  { apply Forall_forall. intros p Hp. rewrite Forall_forall in Hpos. split; [|by apply Hpos].
    apply Forall_forall. intros b Hb. rewrite Forall_forall in Hcat. apply Hcat.
    apply list_elem_of_In, in_concat. exists p. by rewrite <- !list_elem_of_In. }
  { simpl. pose proof (zlen_nonneg (enc_stream e')). lia. }
  destruct (take_all rest r Hinvr Hfr) as (r' & Hall & Hr' & _).
  rewrite Hsent, length_map, length_fragments_from.
  replace (length pieces) with (length rest + (length pieces - length rest))%nat by lia.
  eexists _, _. split; [by apply recv_run_takes|].
  rewrite replicate_add, re_run_app, Hall. simpl. rewrite (takes_nothing _ _ Hr'). simpl.
  by rewrite !concat_app, concat_nils, app_nil_r, Htaken.
Qed.

(** The second buffer arrives first, and the first [Take] comes too early. *)
Lemma framing_end_to_end_witness :
  let ops := [EncQueue [1; 2; 3; 4; 5]; EncNext 20; EncNext 23; EncQueue [6; 7]; EncNext 24] in
  let first := fragment_buffer (0, [1; 2; 3]) in
  let second := fragment_buffer (3, [4; 5; 6; 7]) in
  ∃ taken r,
    recv_run ([RecvBuffer second; RecvTake; RecvBuffer first; RecvTake] ++ replicate 2 RecvTake)
      PacketReassembler_new = Ok (taken, r)
    ∧ concat taken = [1; 2; 3; 4; 5; 6; 7].
Proof.
  intros ops first second.
  destruct (framing_end_to_end ops) as (outs & queued & e' & Hrun & _ & Hrecv).
  - forall_intro; simpl; try done; forall_intro; by split.
  - vm_compute. discriminate.
  - vm_compute in Hrun. injection Hrun as <- <- <-.
    destruct (Hrecv [RecvBuffer second; RecvTake; RecvBuffer first; RecvTake]) as (taken & r & H1 & H2).
    + apply Permutation_swap.
    + vm_compute. repeat split; discriminate.
    + exists taken, r. split; [exact H1|]. by rewrite app_nil_r in H2.
Defined.
