(* ===== verification/Decoder.v ===== *)
(** * The stream decoder of the hosted protocol

    [Decoder] of src/core/hosted/Protocol.cpp: it turns the bytes of a
    connection into frames, either directly or through the transport fragments
    of [PacketReassembler]. *)

From S2P Require Import Prelude Text Net Packet Framing.

Definition CompactThreshold : Z := 64 * 1024.

Record Decoder := {
  dec_buffer : bytes;
  dec_offset : Z;
  dec_fragments : PacketReassembler;
  dec_streamBuffer : bytes;
  dec_streamOffset : Z;
  dec_fragmented : bool
}.

Definition Decoder_new : Decoder :=
  {| dec_buffer := []; dec_offset := 0; dec_fragments := PacketReassembler_new;
     dec_streamBuffer := []; dec_streamOffset := 0; dec_fragmented := false |}.

Definition set_buffer (d : Decoder) (buffer : bytes) (offset : Z) : Decoder :=
  {| dec_buffer := buffer; dec_offset := offset; dec_fragments := dec_fragments d;
     dec_streamBuffer := dec_streamBuffer d; dec_streamOffset := dec_streamOffset d;
     dec_fragmented := dec_fragmented d |}.

Definition set_stream (d : Decoder) (r : PacketReassembler) (buffer : bytes) (offset : Z)
    : Decoder :=
  {| dec_buffer := dec_buffer d; dec_offset := dec_offset d; dec_fragments := r;
     dec_streamBuffer := buffer; dec_streamOffset := offset;
     dec_fragmented := dec_fragmented d |}.

Definition set_fragments (d : Decoder) (r : PacketReassembler) : Decoder :=
  {| dec_buffer := dec_buffer d; dec_offset := dec_offset d; dec_fragments := r;
     dec_streamBuffer := dec_streamBuffer d; dec_streamOffset := dec_streamOffset d;
     dec_fragmented := true |}.

(** [Feed] of a vector; its data pointer is not null when its size is not 0. *)
Definition Decoder_Feed (data : bytes) (d : Decoder) : outcome unit * Decoder :=
  if zlen data =? 0 then (Ok tt, d) else
  let d := if negb (dec_offset d =? 0)
              && ((CompactThreshold <=? dec_offset d) || (dec_offset d =? zlen (dec_buffer d)))
           then set_buffer d (drop (Z.to_nat (dec_offset d)) (dec_buffer d)) 0
           else d in
  if (Frame_MaximumEncodedSize <? zlen data)
     || (Frame_MaximumEncodedSize - zlen data <? u64 (zlen (dec_buffer d) - dec_offset d))
  then (Throw (RuntimeError "Relay decoder buffer limit exceeded."), d)
  else (Ok tt, set_buffer d (dec_buffer d ++ data) (dec_offset d)).

(** The [while (true)] loop of [Next]; [Decoder_Next_total] shows that the
    rounds given are enough. *)
Fixpoint next_loop (fuel : nat) (d : Decoder) : outcome (option Frame) * Decoder :=
  match fuel with
  | O => (UB, d)
  | S fuel' =>
      match NextFrame (dec_streamBuffer d) (dec_streamOffset d) with
      | Throw e => (Throw e, d)
      | UB => (UB, d)
      | Ok (Some frame, offset) =>
          let d := set_stream d (dec_fragments d) (dec_streamBuffer d) offset in
          if fr_type frame =? MessageType_Fragment then (Throw NestedFragment, d)
          else (Ok (Some frame), d)
      | Ok (None, _) =>
          let '(taken, r) := PacketReassembler_Take (dec_fragments d) in
          if negb (zlen taken =? 0) then
            next_loop fuel'
              (set_stream d r
                 (drop (Z.to_nat (dec_streamOffset d)) (dec_streamBuffer d) ++ taken) 0)
          else
            let d := set_stream d r (dec_streamBuffer d) (dec_streamOffset d) in
            match NextFrame (dec_buffer d) (dec_offset d) with
            | Throw e => (Throw e, d)
            | UB => (UB, d)
            | Ok (None, _) => (Ok None, d)
            | Ok (Some frame, offset) =>
                let d := set_buffer d (dec_buffer d) offset in
                if negb (fr_type frame =? MessageType_Fragment) then
                  if dec_fragmented d then (Throw MixedFraming, d) else (Ok (Some frame), d)
                else
                  match PacketReassembler_Accept (fr_payload frame) (dec_fragments d) with
                  | (Ok _, r) => next_loop fuel' (set_fragments d r)
                  | (Throw e, r) => (Throw e, set_fragments d r)
                  | (UB, r) => (UB, set_fragments d r)
                  end
            end
      end
  end.

(** Bytes not parsed yet, and the fragments waiting. *)
Definition next_measure (d : Decoder) : Z :=
  2 * (zlen (dec_buffer d) - dec_offset d) + zlen (re_fragments (dec_fragments d)).

Definition Decoder_Next (d : Decoder) : outcome (option Frame) * Decoder :=
  next_loop (S (Z.to_nat (next_measure d))) d.

Definition Decoder_BufferedBytes (d : Decoder) : Z :=
  zlen (dec_buffer d) - dec_offset d + zlen (dec_streamBuffer d) - dec_streamOffset d
  + PacketReassembler_BufferedBytes (dec_fragments d).

(** [while (std::optional<Frame> frame = Next())] *)
Fixpoint drain_loop (fuel : nat) (d : Decoder) (frames : list Frame)
    : outcome (list Frame) * Decoder :=
  match fuel with
  | O => (UB, d)
  | S fuel' =>
      match Decoder_Next d with
      | (Ok (Some frame), d) => drain_loop fuel' d (frames ++ [frame])
      | (Ok None, d) => (Ok frames, d)
      | (Throw e, d) => (Throw e, d)
      | (UB, d) => (UB, d)
      end
  end.

Definition drain (d : Decoder) (frames : list Frame) : outcome (list Frame) * Decoder :=
  drain_loop (S (Z.to_nat (Decoder_BufferedBytes d))) d frames.

Inductive DecoderReadStatus := WouldBlock | Closed.

(** A stream is the list of what its calls return: [None] when a read would
    block, an empty vector when the peer closed.  A stream that has nothing more
    to say blocks. *)
Definition stream_script : Type := list (option bytes).

Fixpoint ReadAvailable_loop (stream : stream_script) (d : Decoder) (frames : list Frame)
    : outcome (list Frame * DecoderReadStatus) * Decoder * stream_script :=
  match drain d frames with
  | (Ok frames, d) =>
      match stream with
      | [] => (Ok (frames, WouldBlock), d, [])
      | None :: rest => (Ok (frames, WouldBlock), d, rest)
      | Some input :: rest =>
          if zlen input =? 0 then (Ok (frames, Closed), d, rest)
          else match Decoder_Feed input d with
               | (Ok _, d) => ReadAvailable_loop rest d frames
               | (Throw e, d) => (Throw e, d, rest)
               | (UB, d) => (UB, d, rest)
               end
      end
  | (Throw e, d) => (Throw e, d, stream)
  | (UB, d) => (UB, d, stream)
  end.

Definition Decoder_ReadAvailable (stream : stream_script) (maximumReadSize : Z) (d : Decoder)
    : outcome (list Frame * DecoderReadStatus) * Decoder * stream_script :=
  if maximumReadSize =? 0
  then (Throw (InvalidArgument "Relay stream read size is zero."), d, stream)
  else ReadAvailable_loop stream d [].

(** [Read] over what the blocking reads return; a stream that ends before the
    frame does blocks for ever, which is [None]. *)
Fixpoint Decoder_Read (stream : list bytes) (d : Decoder)
    : option (outcome Frame * Decoder * list bytes) :=
  match Decoder_Next d with
  | (Ok (Some frame), d) => Some (Ok frame, d, stream)
  | (Ok None, d) =>
      match stream with
      | [] => None
      | input :: rest =>
          if zlen input =? 0
          then Some (Throw (RuntimeError "Relay connection closed while reading a frame."), d, rest)
          else match Decoder_Feed input d with
               | (Ok _, d) => Decoder_Read rest d
               | (Throw e, d) => Some (Throw e, d, rest)
               | (UB, d) => Some (UB, d, rest)
               end
      end
  | (Throw e, d) => Some (Throw e, d, stream)
  | (UB, d) => Some (UB, d, stream)
  end.

(** ** No input makes the decoder fail or grow *)

Definition Decoder_inv (d : Decoder) : Prop :=
  (0 <= dec_offset d <= zlen (dec_buffer d)
   ∧ zlen (dec_buffer d) <= CompactThreshold + Frame_MaximumEncodedSize
   ∧ bytes_ok (dec_buffer d))
  ∧ (0 <= dec_streamOffset d <= zlen (dec_streamBuffer d)
     ∧ zlen (dec_streamBuffer d) <= Frame_MaximumEncodedSize + MaximumWindow
     ∧ bytes_ok (dec_streamBuffer d))
  ∧ Reassembler_inv (dec_fragments d)
  ∧ Forall (fun e => bytes_ok e.2) (re_fragments (dec_fragments d)).

(** A frame that is not complete is smaller than the largest frame. *)
Lemma NextFrame_None_small buffer offset offset' :
  bytes_ok buffer → 0 <= offset <= zlen buffer → zlen buffer < 2 ^ 64 →
  NextFrame buffer offset = Ok (None, offset') →
  zlen buffer - offset < Frame_MaximumEncodedSize.
Proof.
  intros Hok Ho Hsz. unfold NextFrame, Frame_MaximumEncodedSize, Frame_HeaderSize.
  rewrite wrap_id by (split; lia). ifb; b2p.
  { intros _. unfold Frame_MaximumPayloadSize. lia. }
  intros (m & _ & H)%obind_Ok_inv. ifb_in H; [done|].
  apply obind_Ok_inv in H as (t & _ & H). ifb_in H; [done|].
  apply obind_Ok_inv in H as (fl & _ & H). ifb_in H; [done|].
  apply obind_Ok_inv in H as (n & _ & H). ifb_in H; [done|].
  ifb_in H; [b2p; lia|]. by apply obind_Ok_inv in H as (p & _ & [=]).
Qed.

Lemma Accept_fragments_ok payload r :
  bytes_ok payload → Reassembler_inv r → Forall (fun e => bytes_ok e.2) (re_fragments r) →
  let '(o, r') := PacketReassembler_Accept payload r in
  safe o ∧ Reassembler_inv r' ∧ Forall (fun e => bytes_ok e.2) (re_fragments r')
  ∧ (o = Ok tt → re_bytes r' = re_bytes r + (zlen payload - 8)
                 ∧ zlen (re_fragments r') = zlen (re_fragments r) + 1)
  ∧ (∀ e, o = Throw e → r' = r).
Proof.
  intros Hok Hinv Hf.
  destruct (PacketReassembler_Accept_spec payload r Hok Hinv)
    as [[e ->]|(lo & hi & r' & -> & Hinv' & Ho & Hsp & Hlen & Hsp')]; [by split_and!|].
  rewrite Hsp in Hf. apply Forall_app in Hf as [Hlo Hhi].
  pose proof Hinv as (_ & _ & _ & _ & Hb & _). pose proof Hinv' as (_ & _ & _ & _ & Hb' & _).
  split_and!; [done|done| | |done].
  - rewrite Hsp'. apply Forall_app_2; [done|]. apply Forall_cons_2; [|done].
    by apply Forall_drop.
  - intros _. rewrite Hb, Hb', Hsp, Hsp', !total_bytes_app, !zlen_app. simpl.
    rewrite zlen_cons, zlen_drop. lia.
Qed.

Lemma Take_fragments_ok r :
  Reassembler_inv r → Forall (fun e => bytes_ok e.2) (re_fragments r) →
  let '(out, r') := PacketReassembler_Take r in
  Reassembler_inv r' ∧ Forall (fun e => bytes_ok e.2) (re_fragments r') ∧ bytes_ok out
  ∧ re_bytes r' = re_bytes r - zlen out ∧ zlen out <= MaximumWindow
  ∧ (zlen out = 0 → r' = r)
  ∧ (zlen out ≠ 0 → zlen (re_fragments r) = zlen (re_fragments r') + 1).
Proof.
  intros Hinv Hf. destruct (PacketReassembler_Take r) as [out r'] eqn:Et.
  destruct (PacketReassembler_Take_spec _ _ _ Hinv Et) as (Hinv' & Ho & [[-> ->]|[Hfr Hpos]]).
  { rewrite zlen_nil, Z.sub_0_r. by split_and!. }
  pose proof Hinv as (_ & Hc & Hw & _ & Hb & _). pose proof Hinv' as (_ & _ & _ & _ & Hb' & _).
  pose proof (chain_total _ _ Hc) as Ht.
  rewrite Hfr in *. apply Forall_cons in Hf as [Hf1 Hf]. rewrite zlen_cons. simpl in Hb, Ht.
  pose proof (total_bytes_nonneg (re_fragments r')).
  split_and!; try done; lia.
Qed.

(** What a result of [Next] from [d] must satisfy. *)
Definition next_result (d : Decoder) (res : outcome (option Frame) * Decoder) : Prop :=
  let '(o, d') := res in
  safe o ∧ Decoder_inv d'
  ∧ Decoder_BufferedBytes d' <= Decoder_BufferedBytes d
  ∧ (∀ f, o = Ok (Some f) →
       Frame_ok f ∧ Decoder_BufferedBytes d' + 12 <= Decoder_BufferedBytes d).

(** The half of a round that reads the connection's own buffer. *)
Lemma next_loop_buffer fuel d :
  (∀ d, Decoder_inv d → next_measure d < Z.of_nat fuel → next_result d (next_loop fuel d)) →
  Decoder_inv d → next_measure d < Z.of_nat (S fuel) →
  next_result d
    match NextFrame (dec_buffer d) (dec_offset d) with
    | Throw e => (Throw e, d)
    | UB => (UB, d)
    | Ok (None, _) => (Ok None, d)
    | Ok (Some frame, offset) =>
        let d := set_buffer d (dec_buffer d) offset in
        if negb (fr_type frame =? MessageType_Fragment) then
          if dec_fragmented d then (Throw MixedFraming, d) else (Ok (Some frame), d)
        else
          match PacketReassembler_Accept (fr_payload frame) (dec_fragments d) with
          | (Ok _, r) => next_loop fuel (set_fragments d r)
          | (Throw e, r) => (Throw e, set_fragments d r)
          | (UB, r) => (UB, set_fragments d r)
          end
    end.
Proof.
  intros IH Hinv Hm. pose proof Hinv as ((Hb & Hbl & Hbok) & (Hs & Hsl & Hsok) & Hr & Hrf).
  assert (CompactThreshold + Frame_MaximumEncodedSize < 2 ^ 64) as Hlim' by done.
  destruct (NextFrame_result (dec_buffer d) (dec_offset d)) as [Hsafe Hres]; [done..|lia|].
  destruct (NextFrame (dec_buffer d) (dec_offset d)) as [[[f|] o]| |] eqn:Ens;
    [|by split_and!|by split_and!|by destruct Hsafe].
  destruct (Hres _ _ eq_refl) as [_ Hf]. destruct (Hf f eq_refl) as (Hfok & Hfb & -> & Hle).
  pose proof (zlen_nonneg (fr_payload f)) as Hp. cbv zeta.
  set (d1 := set_buffer d (dec_buffer d) (dec_offset d + 12 + zlen (fr_payload f))).
  assert (Decoder_inv d1) as Hinv1 by (split_and!; simpl; try done; lia).
  assert (Decoder_BufferedBytes d1 = Decoder_BufferedBytes d - 12 - zlen (fr_payload f)) as Hbb.
  { unfold Decoder_BufferedBytes. simpl. lia. }
  destruct (fr_type f =? MessageType_Fragment); cbn [negb].
  2: { destruct (dec_fragmented d1); split_and!; try done; try lia. intros f' [= <-].
       split; [done|lia]. }
  change (dec_fragments d1) with (dec_fragments d).
  pose proof (Accept_fragments_ok (fr_payload f) (dec_fragments d) Hfb Hr Hrf) as Ha.
  destruct (PacketReassembler_Accept (fr_payload f) (dec_fragments d)) as [oa r].
  destruct Ha as (Hsa & Hr2 & Hrf2 & Hok2 & Hth2).
  assert (Decoder_inv (set_fragments d1 r)) as Hinv2 by (split_and!; simpl; try done; lia).
  destruct oa as [[]|e|]; [|split_and!; try done|by destruct Hsa].
  - destruct (Hok2 eq_refl) as [Hrb Hrc].
    assert (next_result (set_fragments d1 r) (next_loop fuel (set_fragments d1 r))) as Hn.
    { apply IH; [done|]. unfold next_measure in *. simpl. lia. }
    assert (Decoder_BufferedBytes (set_fragments d1 r) <= Decoder_BufferedBytes d) as Hb2.
    { unfold Decoder_BufferedBytes, PacketReassembler_BufferedBytes in *. simpl in *. lia. }
    destruct (next_loop fuel (set_fragments d1 r)) as [o' d'].
    destruct Hn as (? & ? & ? & Hff). split_and!; [done|done|lia|].
    intros f' Hf'. destruct (Hff f' Hf'). split; [done|lia].
  - rewrite (Hth2 e eq_refl). unfold Decoder_BufferedBytes in *. simpl in *. lia.
Qed.

Lemma next_loop_ok fuel d :
  Decoder_inv d → next_measure d < Z.of_nat fuel → next_result d (next_loop fuel d).
Proof.
  revert d. induction fuel as [|fuel IH]; intros d Hinv Hm.
  { exfalso. unfold next_measure in Hm. destruct Hinv as ((? & _) & _). zlia. }
  pose proof Hinv as ((Hb & Hbl & Hbok) & (Hs & Hsl & Hsok) & Hr & Hrf). cbn [next_loop].
  assert (Frame_MaximumEncodedSize + MaximumWindow < 2 ^ 64) as Hlim by done.
  assert (CompactThreshold + Frame_MaximumEncodedSize < 2 ^ 64) as Hlim' by done.
  destruct (NextFrame_result (dec_streamBuffer d) (dec_streamOffset d)) as [Hsafe Hres]; [done..|lia|].
  destruct (NextFrame (dec_streamBuffer d) (dec_streamOffset d)) as [[[f|] o]| |] eqn:Ens.
  - destruct (Hres _ _ eq_refl) as [_ Hf]. destruct (Hf f eq_refl) as (Hfok & _ & -> & Hle).
    pose proof (zlen_nonneg (fr_payload f)).
    ifb; (split_and!; [done| | |intros f' [=]]); try subst f'; unfold Decoder_BufferedBytes; simpl;
      try lia; try (split_and!; simpl; try done; lia).
  - pose proof (NextFrame_None_small _ _ _ Hsok Hs ltac:(lia) Ens) as Hsmall.
    pose proof (Take_fragments_ok _ Hr Hrf) as Ht.
    destruct (PacketReassembler_Take (dec_fragments d)) as [taken r].
    destruct Ht as (Hr1 & Hrf1 & Htok & Htb & Htw & Ht0 & Ht1).
    destruct (zlen taken =? 0) eqn:Etk; b2p; cbn [negb].
    + rewrite (Ht0 Etk). replace (set_stream d (dec_fragments d) _ _) with d by (by destruct d).
      by apply next_loop_buffer.
    + specialize (Ht1 Etk). set (d1 := set_stream d r _ 0).
      assert (zlen (dec_streamBuffer d1)
              = zlen (dec_streamBuffer d) - dec_streamOffset d + zlen taken) as Hz1.
      { unfold d1. simpl. rewrite zlen_app, zlen_drop. lia. }
      assert (Decoder_BufferedBytes d1 = Decoder_BufferedBytes d) as Hbb.
      { unfold Decoder_BufferedBytes, PacketReassembler_BufferedBytes in *. rewrite Hz1. simpl. lia. }
      assert (next_result d1 (next_loop fuel d1)) as Hn.
      2: { unfold next_result in *. by rewrite Hbb in Hn. }
      apply IH.
      * split_and!; try done; rewrite ?Hz1; try (simpl; zlia).
        apply Forall_app_2; [by apply Forall_drop|done].
      * unfold next_measure in *. simpl. lia.
  - done.
  - by destruct Hsafe.
Qed.

Lemma Decoder_Next_ok d : Decoder_inv d → next_result d (Decoder_Next d).
Proof.
  intros Hinv. apply next_loop_ok; [done|]. pose proof Hinv as ((? & _) & _).
  unfold next_measure. zlia.
Qed.

Lemma Decoder_Feed_ok data d :
  bytes_ok data → Decoder_inv d →
  let '(o, d') := Decoder_Feed data d in safe o ∧ Decoder_inv d'.
Proof.
  intros Hdok Hinv. unfold Decoder_Feed. ifb; [done|]. b2p.
  set (d1 := if negb (dec_offset d =? 0) && _ then _ else d).
  assert (Decoder_inv d1 ∧ dec_offset d1 < CompactThreshold) as [Hinv1 Hoff].
  { pose proof Hinv as ((Hb & Hbl & Hbok) & Hs & Hr & Hrf). unfold d1. ifb.
    - split; [|done]. split_and!; simpl; try done; try apply Hs; try zlia.
      by apply Forall_drop.
    - split; [done|]. unfold CompactThreshold in *. b2p. lia. }
  clearbody d1. pose proof Hinv1 as ((Hb & Hbl & Hbok) & Hs & Hr & Hrf).
  unfold CompactThreshold, Frame_MaximumEncodedSize, Frame_HeaderSize,
    Frame_MaximumPayloadSize in *.
  rewrite wrap_id by (split; lia). ifb; [done|]. b2p. split; [done|].
  split_and!; simpl; try done; try apply Hs; try (by apply Forall_app_2).
  all: unfold CompactThreshold, Frame_MaximumEncodedSize, Frame_HeaderSize,
    Frame_MaximumPayloadSize; zlia.
Qed.

Inductive dec_op :=
  | DecFeed (data : bytes)
  | DecNext.

(** A run of calls on a decoder, with the frames it returned and whether a call
    had undefined behaviour. *)
Fixpoint dec_run (ops : list dec_op) (d : Decoder) : list Frame * bool * Decoder :=
  match ops with
  | [] => ([], true, d)
  | DecFeed data :: rest =>
      let '(o, d) := Decoder_Feed data d in
      let '(frames, ok, d) := dec_run rest d in
      (frames, match o with UB => false | _ => ok end, d)
  | DecNext :: rest =>
      let '(o, d) := Decoder_Next d in
      let '(frames, ok, d) := dec_run rest d in
      (match o with Ok (Some f) => [f] | _ => [] end ++ frames,
       match o with UB => false | _ => ok end, d)
  end.

Definition dec_op_ok (op : dec_op) : Prop :=
  match op with DecFeed data => bytes_ok data | DecNext => True end.

Lemma safe_not_UB {A} (o : outcome A) (b : bool) :
  safe o → b = true → match o with UB => false | _ => b end = true.
Proof. by destruct o. Qed.

Lemma dec_run_ok ops d :
  Forall dec_op_ok ops →
  Decoder_inv d →
  let '(frames, ok, d') := dec_run ops d in
  Decoder_inv d' ∧ ok = true ∧ Forall Frame_ok frames.
Proof.
  intros Hops. revert d. induction Hops as [|[data|] ops Hop Hops IH]; intros d Hinv; [done|..];
    cbn [dec_run].
  - pose proof (Decoder_Feed_ok data d Hop Hinv) as H.
    destruct (Decoder_Feed data d) as [o d1]. destruct H as [Ho Hinv1].
    specialize (IH d1 Hinv1). destruct (dec_run ops d1) as [[frames ok] d2].
    destruct IH as (? & ? & ?). split_and!; [done|by apply safe_not_UB|done].
  - pose proof (Decoder_Next_ok d Hinv) as H.
    destruct (Decoder_Next d) as [o d1]. destruct H as (Ho & Hinv1 & _ & Hf).
    specialize (IH d1 Hinv1). destruct (dec_run ops d1) as [[frames ok] d2].
    destruct IH as (? & ? & ?). split_and!; [done|by apply safe_not_UB|].
    destruct o as [[f|]| |]; try done. apply Forall_cons_2; [|done]. by apply Hf.
Qed.

(** The most a decoder ever holds: one frame and the compaction slack, one
    window of fragments, and one frame with a window behind it. *)
Definition decoder_bound : Z :=
  (CompactThreshold + Frame_MaximumEncodedSize) + (Frame_MaximumEncodedSize + MaximumWindow)
  + MaximumWindow.

(** Whatever bytes a peer sends and however [Feed] and [Next] are
    interleaved, the decoder has no undefined behaviour, every frame it returns
    is of a known type and within the size limit, and the bytes it buffers are
    bounded by a constant. *)
Theorem Decoder_safe_and_bounded ops :
  Forall dec_op_ok ops →
  let run := dec_run ops Decoder_new in
  run.1.2 = true ∧ Forall Frame_ok run.1.1
  ∧ 0 <= Decoder_BufferedBytes run.2 <= decoder_bound.
Proof.
  intros Hops run. unfold run. pose proof (dec_run_ok ops Decoder_new Hops) as H.
  destruct (dec_run ops Decoder_new) as [[frames ok] d].
  destruct H as (Hinv & -> & Hf).
  { by split_and!. }
  split_and!; [done..| |].
  all: pose proof Hinv as ((Hb & Hbl & _) & (Hs & Hsl & _) & (H0 & Hc & Hw & Hm & Hrb & _) & _).
  all: pose proof (chain_total _ _ Hc); pose proof (total_bytes_nonneg (re_fragments (dec_fragments d))).
  all: simpl; unfold Decoder_BufferedBytes, PacketReassembler_BufferedBytes, decoder_bound; lia.
Qed.

Lemma Decoder_safe_and_bounded_witness :
  let ops := [DecFeed Magic; DecNext; DecFeed [0; 8; 0; 0; 0; 0; 0; 2; 7]; DecNext;
              DecFeed [9; 1]; DecNext; DecNext] in
  (dec_run ops Decoder_new).1.1 = [{| fr_type := 8; fr_payload := [7; 9] |}]
  ∧ 0 <= Decoder_BufferedBytes (dec_run ops Decoder_new).2 <= decoder_bound.
Proof.
  intros ops. split; [vm_compute; reflexivity|].
  assert (Forall dec_op_ok ops) as Hops
    by (forall_intro; simpl; try done; forall_intro; by split).
  exact (proj2 (proj2 (Decoder_safe_and_bounded ops Hops))).
Defined.

(** ** Frames survive any chunking *)

(** A decoder that has seen no fragments, with [rem] left to parse. *)
Definition direct (d : Decoder) (rem : bytes) : Prop :=
  dec_fragmented d = false ∧ dec_fragments d = PacketReassembler_new
  ∧ dec_streamBuffer d = [] ∧ dec_streamOffset d = 0
  ∧ 0 <= dec_offset d <= zlen (dec_buffer d)
  ∧ zlen (dec_buffer d) <= CompactThreshold + Frame_MaximumEncodedSize
  ∧ drop (Z.to_nat (dec_offset d)) (dec_buffer d) = rem.

Lemma direct_zlen d rem : direct d rem → zlen (dec_buffer d) = dec_offset d + zlen rem.
Proof. intros (_ & _ & _ & _ & Ho & _ & <-). zlia. Qed.

Lemma direct_split d rem :
  direct d rem →
  ∃ hd, dec_buffer d = hd ++ rem ∧ dec_offset d = zlen hd.
Proof.
  intros (_ & _ & _ & _ & Ho & _ & Hrem). exists (take (Z.to_nat (dec_offset d)) (dec_buffer d)).
  rewrite <- Hrem, take_drop. split; [done|]. zlia.
Qed.

(** The first half of a round does nothing for such a decoder. *)
Lemma next_loop_direct fuel d rem res :
  direct d rem → NextFrame (dec_buffer d) (dec_offset d) = Ok res →
  (∀ f, res.1 = Some f → fr_type f ≠ MessageType_Fragment) → (res.1 = None → res.2 = dec_offset d) →
  next_loop (S fuel) d = (Ok res.1, set_buffer d (dec_buffer d) res.2).
Proof.
  intros (Hfr & Hf & Hs & Hso & Ho & _) Hn Hty Hnone. cbn [next_loop].
  rewrite Hs, Hso. change (NextFrame [] 0) with (@Ok (option Frame * Z) (None, 0)). cbn match.
  rewrite Hf. cbn [PacketReassembler_Take re_fragments PacketReassembler_new].
  change (negb (zlen [] =? 0)) with false. cbn match.
  fold PacketReassembler_new.
  replace (set_stream d PacketReassembler_new [] 0) with d by (destruct d; simpl in *; by subst).
  rewrite Hn. destruct res as [[f|] o]; simpl in *.
  - rewrite (proj2 (Z.eqb_neq _ _)) by (by apply Hty). cbn [negb]. by rewrite Hfr.
  - rewrite Hnone by done. by destruct d.
Qed.

Lemma Decoder_Next_whole d f rest :
  direct d (frame_bytes f ++ rest) → Frame_ok f → fr_type f ≠ MessageType_Fragment →
  ∃ d', Decoder_Next d = (Ok (Some f), d') ∧ direct d' rest.
Proof.
  intros Hd Hf Hty. pose proof (direct_zlen _ _ Hd) as Hz.
  destruct (direct_split _ _ Hd) as (hd & Hb & Ho).
  pose proof Hd as (? & ? & ? & ? & ? & Hlim & ?).
  assert (CompactThreshold + Frame_MaximumEncodedSize < 2 ^ 64) by done.
  unfold Decoder_Next. erewrite next_loop_direct; [|exact Hd| | |].
  2: { rewrite Hb, Ho. apply NextFrame_whole; [done|]. rewrite <- Hb. lia. }
  - eexists; split; [done|]. simpl. rewrite zlen_app in Hz.
    split_and!; simpl; try done; try zlia.
    rewrite Hb, app_assoc. apply drop_app_length'. rewrite length_app. unfold zlen. lia.
  - intros f' [= <-]. done.
  - done.
Qed.

Lemma Decoder_Next_partial d f part missing :
  direct d part → Frame_ok f → frame_bytes f = part ++ missing → 0 < zlen missing →
  Decoder_Next d = (Ok None, d).
Proof.
  intros Hd Hf Heq Hm. pose proof (direct_zlen _ _ Hd) as Hz.
  destruct (direct_split _ _ Hd) as (hd & Hb & Ho).
  pose proof Hd as (? & ? & ? & ? & ? & Hlim & ?).
  assert (CompactThreshold + Frame_MaximumEncodedSize < 2 ^ 64) by done.
  unfold Decoder_Next. erewrite next_loop_direct; [|exact Hd| | |].
  2: { rewrite Hb, Ho. eapply NextFrame_partial; [exact Hf|done..|lia]. }
  - simpl. rewrite <- Ho. by destruct d.
  - done.
  - done.
Qed.

Lemma Decoder_Next_empty d : direct d [] → Decoder_Next d = (Ok None, d).
Proof.
  intros Hd. apply (Decoder_Next_partial d {| fr_type := 8; fr_payload := [] |} []
    (frame_bytes {| fr_type := 8; fr_payload := [] |})); by done || split.
Qed.

Lemma Decoder_Feed_direct d rem data :
  direct d rem → 0 < zlen data → zlen rem + zlen data <= Frame_MaximumEncodedSize →
  ∃ d', Decoder_Feed data d = (Ok tt, d') ∧ direct d' (rem ++ data).
Proof.
  intros Hd Hpos Hfit. unfold Decoder_Feed. rewrite (proj2 (Z.eqb_neq _ _)) by lia.
  set (d1 := if negb (dec_offset d =? 0) && _ then _ else d).
  assert (direct d1 rem ∧ dec_offset d1 < CompactThreshold) as [Hd1 Hoff].
  { pose proof Hd as (? & ? & ? & ? & Ho & Hlim & Hrem). unfold d1. ifb.
    - split; [|done]. split_and!; simpl; try done; try zlia.
    - split; [done|]. unfold CompactThreshold in *. b2p. lia. }
  clearbody d1. pose proof (direct_zlen _ _ Hd1) as Hz.
  pose proof Hd1 as (? & ? & ? & ? & Ho & Hlim & Hrem).
  assert (CompactThreshold + Frame_MaximumEncodedSize < 2 ^ 64) by done.
  rewrite wrap_id by (split; lia). rewrite (proj2 (orb_false_iff _ _)) by (b2p; zlia).
  eexists; split; [done|]. split_and!; simpl; try done; try zlia.
  rewrite drop_app_le by (unfold zlen in *; lia). by rewrite Hrem.
Qed.

Definition plain_frame (maximumReadSize : Z) (f : Frame) : Prop :=
  Frame_ok f ∧ fr_type f ≠ MessageType_Fragment
  ∧ zlen (fr_payload f) + maximumReadSize <= Frame_MaximumPayloadSize.

Definition frames_bytes (frames : list Frame) : bytes := concat (map frame_bytes frames).

(** Either the first frame has arrived whole, or a strict prefix of it. *)
Lemma frames_bytes_prefix f frames rem rest :
  rem ++ rest = frames_bytes (f :: frames) →
  (∃ rem', rem = frame_bytes f ++ rem' ∧ rem' ++ rest = frames_bytes frames)
  ∨ (∃ missing, frame_bytes f = rem ++ missing ∧ 0 < zlen missing).
Proof.
  change (frames_bytes (f :: frames)) with (frame_bytes f ++ frames_bytes frames).
  intros [(k & -> & Hk)|(k & Hk & ->)]%app_eq_inv; [by left; eexists|].
  destruct k as [|b k].
  - left. exists []. rewrite app_nil_r in *. by rewrite Hk.
  - right. exists (b :: k). rewrite zlen_cons. split; [done|zlia].
Qed.

(** Draining returns the frames that have arrived whole and keeps the part of
    the next one. *)
Lemma drain_loop_spec B frames fuel d rem rest acc :
  0 <= B <= Frame_MaximumPayloadSize → Forall (plain_frame B) frames → direct d rem →
  rem ++ rest = frames_bytes frames → zlen rem < Z.of_nat fuel →
  ∃ got left part d', frames = got ++ left
    ∧ drain_loop fuel d acc = (Ok (acc ++ got), d')
    ∧ direct d' part ∧ part ++ rest = frames_bytes left
    ∧ zlen part + B <= Frame_MaximumEncodedSize ∧ (rest = [] → left = []).
Proof.
  intros HB Hf. revert fuel d rem acc.
  induction Hf as [|f frames (Hfok & Hty & Hsz) Hf IH]; intros fuel d rem acc Hd Heq Hfuel;
    (destruct fuel as [|fuel]; [zlia|]); cbn [drain_loop].
  - apply app_nil in Heq as [-> ->]. rewrite Decoder_Next_empty by done.
    exists [], [], [], d. rewrite app_nil_r. split_and!; try done; [by rewrite app_nil_r|].
    unfold Frame_MaximumEncodedSize, Frame_HeaderSize. zlia.
  - destruct (frames_bytes_prefix _ _ _ _ Heq) as [(rem' & -> & Hrest)|(missing & Hm & Hpos)].
    + destruct (Decoder_Next_whole d f rem') as (d1 & -> & Hd1); [done..|].
      rewrite zlen_app, zlen_frame_bytes in Hfuel.
      destruct (IH fuel d1 rem' (acc ++ [f])) as (got & left & part & d' & -> & -> & ?);
        [done..|zlia|].
      exists (f :: got), left, part, d'. by rewrite <- app_assoc.
    + rewrite (Decoder_Next_partial d f rem missing) by done.
      exists [], (f :: frames), rem, d. rewrite app_nil_r. split_and!; try done.
      * pose proof (zlen_frame_bytes f) as Hz. rewrite Hm, zlen_app in Hz.
        unfold Frame_MaximumEncodedSize, Frame_HeaderSize. lia.
      * intros ->. exfalso. apply (f_equal zlen) in Heq.
        change (frames_bytes (f :: frames)) with (frame_bytes f ++ frames_bytes frames) in Heq.
        rewrite Hm in Heq. zlia.
Qed.

Lemma direct_BufferedBytes d rem : direct d rem → Decoder_BufferedBytes d = zlen rem.
Proof.
  intros Hd. pose proof (direct_zlen _ _ Hd). destruct Hd as (_ & Hr & Hs & Hso & _).
  unfold Decoder_BufferedBytes. rewrite Hs, Hso, Hr.
  change (PacketReassembler_BufferedBytes PacketReassembler_new) with 0. zlia.
Qed.

Lemma drain_spec B frames d rem rest acc :
  0 <= B <= Frame_MaximumPayloadSize → Forall (plain_frame B) frames → direct d rem →
  rem ++ rest = frames_bytes frames →
  ∃ got left part d', frames = got ++ left ∧ drain d acc = (Ok (acc ++ got), d')
    ∧ direct d' part ∧ part ++ rest = frames_bytes left
    ∧ zlen part + B <= Frame_MaximumEncodedSize ∧ (rest = [] → left = []).
Proof.
  intros HB Hf Hd Heq. eapply drain_loop_spec; try done.
  rewrite (direct_BufferedBytes _ _ Hd). zlia.
Qed.

Lemma ReadAvailable_loop_spec B frames d rem chunks acc :
  0 < B <= Frame_MaximumPayloadSize → Forall (plain_frame B) frames →
  Forall (fun c => 0 < zlen c <= B) chunks → direct d rem →
  rem ++ concat chunks = frames_bytes frames →
  ∃ d', ReadAvailable_loop (map Some chunks ++ [None]) d acc
        = (Ok (acc ++ frames, WouldBlock), d', []) ∧ direct d' [].
Proof.
  intros HB Hf Hc. revert frames Hf d rem acc.
  induction Hc as [|c chunks [Hc0 HcB] Hc IH]; intros frames Hf d rem acc Hd Heq; simpl in Heq.
  - destruct (drain_spec B frames d rem [] acc)
      as (got & left & part & d1 & -> & Hdr & Hd1 & Hpart & Hfit & Hleft); [lia|done..|].
    rewrite (Hleft eq_refl) in *. rewrite app_nil_r in Hpart. simpl in Hpart. subst part.
    simpl. rewrite Hdr. exists d1. by rewrite app_nil_r.
  - destruct (drain_spec B frames d rem (c ++ concat chunks) acc)
      as (got & left & part & d1 & -> & Hdr & Hd1 & Hpart & Hfit & _); [lia|done..|].
    apply Forall_app in Hf as [_ Hf].
    destruct (Decoder_Feed_direct d1 part c) as (d2 & Hfeed & Hd2); [done|lia..|].
    destruct (IH left Hf d2 (part ++ c) (acc ++ got)) as (d' & Hloop & Hd');
      [done|by rewrite <- app_assoc|].
    exists d'. split; [|done]. simpl. rewrite Hdr, (proj2 (Z.eqb_neq _ _)), Hfeed by lia.
    by rewrite Hloop, <- app_assoc.
Qed.

(** A sequence of frames, cut into chunks in any way, is read back whole and
    in order by [ReadAvailable]: nothing is left in the decoder.  The frames must
    be smaller than the limit by one read, for the reason [Decoder_Read_rejects]
    shows. *)
Theorem Decoder_ReadAvailable_any_chunks B frames chunks :
  0 < B <= Frame_MaximumPayloadSize → Forall (plain_frame B) frames →
  Forall (fun c => 0 < zlen c <= B) chunks → concat chunks = frames_bytes frames →
  ∃ d, Decoder_ReadAvailable (map Some chunks ++ [None]) B Decoder_new
       = (Ok (frames, WouldBlock), d, []) ∧ Decoder_BufferedBytes d = 0.
Proof.
  intros HB Hf Hc Heq. unfold Decoder_ReadAvailable. rewrite (proj2 (Z.eqb_neq _ _)) by lia.
  destruct (ReadAvailable_loop_spec B frames Decoder_new [] chunks []) as (d & -> & Hd); try done.
  exists d. by rewrite (direct_BufferedBytes _ _ Hd).
Qed.

Lemma Decoder_ReadAvailable_any_chunks_witness :
  let frames := [{| fr_type := 8; fr_payload := [7; 9] |}; {| fr_type := 10; fr_payload := [] |}] in
  ∃ d, Decoder_ReadAvailable
         (map Some [[84]; [71; 82; 49; 0; 8; 0; 0; 0; 0; 0; 2; 7; 9; 84; 71];
                    [82; 49; 0; 10; 0; 0; 0; 0; 0; 0]] ++ [None]) 16384 Decoder_new
       = (Ok (frames, WouldBlock), d, []) ∧ Decoder_BufferedBytes d = 0.
Proof.
  apply Decoder_ReadAvailable_any_chunks; [done| |forall_intro; done|reflexivity].
  forall_intro; by repeat split.
Defined.

Lemma Decoder_Read_partial d rem f pre rest missing :
  direct d rem → Frame_ok f → Forall (fun c => 0 < zlen c) pre →
  frame_bytes f = rem ++ concat pre ++ missing → 0 < zlen missing →
  ∃ d', Decoder_Read (pre ++ rest) d = Decoder_Read rest d' ∧ direct d' (rem ++ concat pre).
Proof.
  intros Hd Hf Hpre. revert d rem Hd.
  induction Hpre as [|c pre Hc Hpre IH]; intros d rem Hd Heq Hm; simpl in *.
  { exists d. by rewrite app_nil_r. }
  rewrite (Decoder_Next_partial d f rem ((c ++ concat pre) ++ missing)) by (done || zlia).
  rewrite (proj2 (Z.eqb_neq _ _)) by lia.
  pose proof (zlen_frame_bytes f) as Hz. destruct Hf as [Hf1 Hf2].
  rewrite Heq in Hz.
  destruct (Decoder_Feed_direct d rem c) as (d1 & -> & Hd1); [done..| |].
  { unfold Frame_MaximumEncodedSize, Frame_HeaderSize. zlia. }
  destruct (IH d1 (rem ++ c)) as (d' & Hr & Hd'); [done| |done|].
  { by rewrite Heq, <- !app_assoc. }
  exists d'. rewrite <- app_assoc in Hd'. done.
Qed.

(** [Decoder::Read] rejects streams of valid frames.  It reads up to 16 KiB
    at a time, and [Feed] refuses a chunk that brings the buffered bytes above the
    size of the largest frame; when a large frame is nearly complete, a chunk
    that completes it and carries the start of the next frame is such a chunk. *)
Theorem Decoder_Read_rejects f pre missing more rest :
  Frame_ok f → Forall (fun c => 0 < zlen c <= 16 * 1024) pre →
  frame_bytes f = concat pre ++ missing → 0 < zlen missing →
  zlen missing + zlen more <= 16 * 1024 →
  Frame_MaximumEncodedSize < zlen (frame_bytes f) + zlen more →
  ∃ d, Decoder_Read (pre ++ (missing ++ more) :: rest) Decoder_new
       = Some (Throw (RuntimeError "Relay decoder buffer limit exceeded."), d, rest).
Proof.
  intros Hf Hpre Heq Hm Hread Hbig.
  destruct (Decoder_Read_partial Decoder_new [] f pre ((missing ++ more) :: rest) missing)
    as (d & -> & Hd); try done.
  { eapply Forall_impl; [exact Hpre|]. simpl. lia. }
  simpl in Hd. cbn [Decoder_Read].
  rewrite (Decoder_Next_partial d f (concat pre) missing) by done.
  rewrite (proj2 (Z.eqb_neq _ _)) by zlia.
  assert (∃ d', Decoder_Feed (missing ++ more) d
    = (Throw (RuntimeError "Relay decoder buffer limit exceeded."), d')) as [d' ->];
    [|by exists d'].
  unfold Decoder_Feed. rewrite (proj2 (Z.eqb_neq _ _)) by zlia.
  set (d1 := if negb (dec_offset d =? 0) && _ then _ else d).
  assert (zlen (dec_buffer d1) - dec_offset d1 = zlen (concat pre)) as Hrem.
  { pose proof (direct_zlen _ _ Hd) as Hz. destruct Hd as (_ & _ & _ & _ & Ho & _).
    unfold d1. ifb; simpl; [zlia|lia]. }
  rewrite Hrem. pose proof (zlen_frame_bytes f) as Hz. rewrite Heq in Hz, Hbig.
  destruct Hf as [_ Hf]. exists d1.
  unfold Frame_MaximumEncodedSize, Frame_HeaderSize, Frame_MaximumPayloadSize in *.
  rewrite wrap_id by (split; zlia). rewrite (proj2 (orb_true_iff _ _)); [done|].
  right. b2p. zlia.
Qed.

Lemma concat_replicate {A} n m (x : A) :
  concat (replicate n (replicate m x)) = replicate (n * m) x.
Proof. induction n; simpl; [done|]. by rewrite IHn, replicate_add. Qed.

Lemma replicate_split3 {A} n a b c (x : A) :
  n = (a + b + c)%nat → replicate n x = (replicate a x ++ replicate b x) ++ replicate c x.
Proof. intros ->. by rewrite !replicate_add. Qed.

(** A network map of 1 MiB that arrives in full reads, with a ping behind it. *)
Definition largest_map : Frame :=
  {| fr_type := 4; fr_payload := replicate (Z.to_nat 1048576) 0 |}.

Lemma zlen_largest_map : zlen (fr_payload largest_map) = 1048576.
Proof. unfold largest_map. cbn [fr_payload]. rewrite zlen_replicate. lia. Qed.

Lemma largest_map_split n k :
  n = Z.to_nat 16372 → k = Z.to_nat 16384 →
  frame_bytes largest_map
  = concat ((frame_header largest_map ++ replicate n 0) :: replicate 63 (replicate k 0))
    ++ replicate 12 0.
Proof.
  intros Hn Hk. cbn [concat]. rewrite concat_replicate.
  transitivity (frame_header largest_map ++ fr_payload largest_map); [done|].
  unfold largest_map at 2. cbn [fr_payload].
  rewrite (replicate_split3 _ n (63 * k) 12) by lia. by rewrite <- !app_assoc.
Qed.

Lemma Decoder_Read_rejects_witness :
  let k := Z.to_nat 16384 in
  let pre := (frame_header largest_map ++ replicate (Z.to_nat 16372) 0)
             :: replicate 63 (replicate k 0) in
  let missing := replicate 12 0 in
  let more := replicate (Z.to_nat 16372) 84 in
  ∃ d, Decoder_Read (pre ++ (missing ++ more) :: []) Decoder_new
       = Some (Throw (RuntimeError "Relay decoder buffer limit exceeded."), d, []).
Proof.
  intros k pre missing more. apply (Decoder_Read_rejects largest_map).
  - split; [done|]. rewrite zlen_largest_map. done.
  - unfold pre. apply Forall_cons_2.
    + rewrite zlen_app, zlen_frame_header, zlen_replicate. lia.
    + apply Forall_replicate. unfold k. rewrite zlen_replicate. lia.
  - by apply largest_map_split.
  - done.
  - unfold missing, more. rewrite !zlen_replicate. lia.
  - unfold more. rewrite zlen_frame_bytes, zlen_largest_map, zlen_replicate.
    unfold Frame_MaximumEncodedSize, Frame_HeaderSize, Frame_MaximumPayloadSize. lia.
Defined.
