(* ===== verification/Codec.v ===== *)
(** * The messages of the hosted protocol

    The binary message payloads of src/core/hosted/Protocol.cpp
    ([ProtocolCodec]), src/core/hosted/Pump.cpp and
    src/core/hosted/Delegation.cpp.  Each pair of an encoder and a decoder is an
    instance of the [Codec] interface, so that what a session needs of a message
    is proved once against the interface. *)

From S2P Require Import Prelude Text Net Packet Framing Decoder.

(** ** The interface *)

(** What a message promises: encoding a well-formed value succeeds and decoding
    gives it back, and decoding any bytes has no undefined behaviour. *)
Class Codec {A : Type} (enc : A → outcome bytes) (dec : bytes → outcome (option A))
    (wf : A → Prop) : Prop := {
  codec_roundtrip : ∀ a, wf a → ∃ b, enc a = Ok b ∧ bytes_ok b ∧ dec b = Ok (Some a);
  codec_safe : ∀ b, bytes_ok b → safe (dec b)
}.

(** A decoder that throws on a malformed payload. *)
Definition throwing {A} (decode : bytes → outcome A) (b : bytes) : outcome (option A) :=
  let! a := decode b in Ok (Some a).

(** ** Peer packets *)

Record DerpRoute := { dr_token : Z; dr_region : Z }.

Record PeerPacket := {
  pp_peer : bytes;
  pp_payload : bytes;
  pp_control : bool;
  pp_disco : bool;
  pp_endpointAddress : Z;
  pp_endpointPort : Z;
  pp_derpRoute : option DerpRoute
}.

Definition ControlFlag : Z := Z.shiftl 1 0.
Definition DiscoFlag : Z := Z.shiftl 1 1.
Definition EndpointFlag : Z := Z.shiftl 1 2.
Definition DerpRouteFlag : Z := Z.shiftl 1 3.
Definition KnownFlags : Z := Z.lor (Z.lor (Z.lor ControlFlag DiscoFlag) EndpointFlag) DerpRouteFlag.

Definition ProtocolCodec_EncodePeerPacket (packet : PeerPacket) : outcome bytes :=
  if zlen (pp_payload packet) =? 0
  then Throw (InvalidArgument "Relay peer packet has no payload.") else
  let hasEndpoint := negb (pp_endpointAddress packet =? 0) && negb (pp_endpointPort packet =? 0) in
  let hasDerpRoute := match pp_derpRoute packet with Some _ => true | None => false end in
  if hasEndpoint && hasDerpRoute
  then Throw (InvalidArgument "Relay peer packet has conflicting routes.") else
  if match pp_derpRoute packet with
     | Some r => (dr_token r =? 0) || (dr_region r =? 0)
     | None => false
     end
  then Throw (InvalidArgument "Relay peer packet has an invalid DERP route.") else
  let flags := Z.lor (Z.lor (Z.lor (if pp_control packet then ControlFlag else 0)
                                   (if pp_disco packet then DiscoFlag else 0))
                            (if hasEndpoint then EndpointFlag else 0))
                     (if hasDerpRoute then DerpRouteFlag else 0) in
  let result := pp_peer packet ++ [flags] in
  let result :=
    if hasEndpoint
    then Append16 (Append32 result (pp_endpointAddress packet)) (pp_endpointPort packet)
    else match pp_derpRoute packet with
         | Some r => Append16 (Append64 result (dr_token r)) (dr_region r)
         | None => result
         end in
  Ok (result ++ pp_payload packet).

Definition ProtocolCodec_DecodePeerPacket (payload : bytes) : outcome PeerPacket :=
  if zlen payload <=? 32 + 1 then Throw (RuntimeError "Relay peer packet is truncated.") else
  let! peer := slice payload 0 32 in
  let! flags := rd payload 32 in
  if negb (Z.land flags (u8 (Z.lnot KnownFlags)) =? 0)
  then Throw (RuntimeError "Relay peer packet has unknown flags.") else
  if negb (Z.land flags EndpointFlag =? 0) && negb (Z.land flags DerpRouteFlag =? 0)
  then Throw (RuntimeError "Relay peer packet has conflicting routes.") else
  let control := negb (Z.land flags ControlFlag =? 0) in
  let disco := negb (Z.land flags DiscoFlag =? 0) in
  let dataOffset := 32 + 1 in
  let! (endpointAddress, endpointPort, derpRoute, dataOffset) :=
    (if negb (Z.land flags EndpointFlag =? 0) then
       if zlen payload <=? dataOffset + 6
       then Throw (RuntimeError "Relay peer packet endpoint is truncated.") else
       let! address := Hosted_Read32 payload dataOffset in
       let! port := Hosted_Read16 payload (dataOffset + 4) in
       Ok (address, port, None, dataOffset + 6)
     else if negb (Z.land flags DerpRouteFlag =? 0) then
       if zlen payload <=? dataOffset + 10
       then Throw (RuntimeError "Relay peer packet DERP route is truncated.") else
       let! token := Hosted_Read64 payload dataOffset in
       let! region := Hosted_Read16 payload (dataOffset + 8) in
       if (token =? 0) || (region =? 0)
       then Throw (RuntimeError "Relay peer packet has an invalid DERP route.") else
       Ok (0, 0, Some {| dr_token := token; dr_region := region |}, dataOffset + 10)
     else Ok (0, 0, None, dataOffset)) in
  let! data := slice payload dataOffset (zlen payload) in
  Ok {| pp_peer := peer; pp_payload := data; pp_control := control; pp_disco := disco;
        pp_endpointAddress := endpointAddress; pp_endpointPort := endpointPort;
        pp_derpRoute := derpRoute |}.

(** ** Endpoints *)

Record PeerEndpoint := { pe_peer : bytes; pe_endpoint : Endpoint }.

Definition unspecified (e : Endpoint) : bool :=
  (Ipv4Address_HostOrder (ep_address e) =? 0) || (ep_port e =? 0).

Definition ProtocolCodec_EncodePeerEndpoint (e : PeerEndpoint) : outcome bytes :=
  if unspecified (pe_endpoint e)
  then Throw (InvalidArgument "Relay peer endpoint is unspecified.") else
  let result := pe_peer e in
  let result := Append32 result (Ipv4Address_HostOrder (ep_address (pe_endpoint e))) in
  Ok (Append16 result (ep_port (pe_endpoint e))).

Definition ProtocolCodec_DecodePeerEndpoint (payload : bytes) : outcome PeerEndpoint :=
  if negb (zlen payload =? 32 + 4 + 2)
  then Throw (RuntimeError "Relay peer endpoint has an invalid size.") else
  let! peer := slice payload 0 32 in
  let! a := Hosted_Read32 payload 32 in
  let address := Ipv4Address_FromHostOrder a in
  let! port := Hosted_Read16 payload (32 + 4) in
  if (Ipv4Address_HostOrder address =? 0) || (port =? 0)
  then Throw (RuntimeError "Relay peer endpoint is unspecified.") else
  Ok {| pe_peer := peer; pe_endpoint := {| ep_address := address; ep_port := port |} |}.

Definition ServerEndpointCandidates_MaximumCount : Z := 16.

Fixpoint candidates_bytes (endpoints : list Endpoint) (result : bytes) : outcome bytes :=
  match endpoints with
  | [] => Ok result
  | endpoint :: rest =>
      if unspecified endpoint
      then Throw (InvalidArgument "Relay server endpoint candidate is unspecified.") else
      let result := Append32 result (Ipv4Address_HostOrder (ep_address endpoint)) in
      candidates_bytes rest (Append16 result (ep_port endpoint))
  end.

Definition ProtocolCodec_EncodeServerEndpointCandidates (endpoints : list Endpoint)
    : outcome bytes :=
  if zlen endpoints =? 0
  then Throw (InvalidArgument "Relay server has no endpoint candidates.") else
  if ServerEndpointCandidates_MaximumCount <? zlen endpoints
  then Throw (InvalidArgument "Relay server has too many endpoint candidates.") else
  candidates_bytes endpoints [].

(** [for (offset = 0; offset < payload.size(); offset += EndpointSize)]; running
    out of rounds counts as undefined. *)
Fixpoint candidates_loop (fuel : nat) (payload : bytes) (offset : Z) (endpoints : list Endpoint)
    : outcome (list Endpoint) :=
  if offset <? zlen payload then
    match fuel with
    | O => UB
    | S fuel' =>
        let! a := Hosted_Read32 payload offset in
        let address := Ipv4Address_FromHostOrder a in
        let! port := Hosted_Read16 payload (offset + 4) in
        if (Ipv4Address_HostOrder address =? 0) || (port =? 0)
        then Throw (RuntimeError "Relay server endpoint candidate is unspecified.") else
        candidates_loop fuel' payload (offset + 6)
          (endpoints ++ [{| ep_address := address; ep_port := port |}])
    end
  else Ok endpoints.

Definition ProtocolCodec_DecodeServerEndpointCandidates (payload : bytes)
    : outcome (list Endpoint) :=
  if (zlen payload =? 0) || negb (zlen payload mod 6 =? 0)
     || (ServerEndpointCandidates_MaximumCount <? zlen payload / 6)
  then Throw (RuntimeError "Relay server endpoint candidates have an invalid size.") else
  candidates_loop (length payload) payload 0 [].

(** ** DERP authentication *)

Record DerpAuthenticationChallenge := { dc_requestId : Z; dc_serverKey : bytes }.

Record DerpAuthenticationResponse := { da_requestId : Z; da_clientInfo : bytes }.

Definition ProtocolCodec_EncodeDerpChallenge (c : DerpAuthenticationChallenge) : outcome bytes :=
  Ok (Append64 [] (dc_requestId c) ++ dc_serverKey c).

Definition ProtocolCodec_DecodeDerpChallenge (payload : bytes)
    : outcome DerpAuthenticationChallenge :=
  if negb (zlen payload =? 8 + 32)
  then Throw (RuntimeError "Relay DERP challenge has an invalid size.") else
  let! requestId := Hosted_Read64 payload 0 in
  let! serverKey := slice payload 8 (zlen payload) in
  Ok {| dc_requestId := requestId; dc_serverKey := serverKey |}.

Definition ProtocolCodec_EncodeDerpResponse (r : DerpAuthenticationResponse) : outcome bytes :=
  if zlen (da_clientInfo r) =? 0
  then Throw (InvalidArgument "Relay DERP response has no ClientInfo envelope.") else
  Ok (Append64 [] (da_requestId r) ++ da_clientInfo r).

Definition ProtocolCodec_DecodeDerpResponse (payload : bytes)
    : outcome DerpAuthenticationResponse :=
  if zlen payload <=? 8 then Throw (RuntimeError "Relay DERP response is truncated.") else
  let! requestId := Hosted_Read64 payload 0 in
  let! clientInfo := slice payload 8 (zlen payload) in
  Ok {| da_requestId := requestId; da_clientInfo := clientInfo |}.

(** ** Pump schedules *)

Definition MessageType_PumpSchedule : Z := 21.
Definition MessageType_Pump : Z := 22.
Definition MaximumPumpDelay : Z := 60 * 1000.
Definition CancelDeadline : Z := 2 ^ 32 - 1.

Record PumpSchedule := { ps_RequestId : Z; ps_Delay : option Z }.

Definition DecodeInteger (b : bytes) : Z :=
  fold_left (fun value byte => Z.lor (u64 (Z.shiftl value 8)) byte) b 0.

(** The bytes of the span from the last to the first. *)
Fixpoint EncodeInteger_loop (n : nat) (value : Z) (written : bytes) : bytes :=
  match n with
  | O => written
  | S n' => EncodeInteger_loop n' (Z.shiftr value 8) (u8 value :: written)
  end.

Definition EncodeInteger (n : nat) (value : Z) : bytes := EncodeInteger_loop n value [].

Definition TryDecodePumpSchedule (payload : bytes) : option PumpSchedule :=
  if negb (zlen payload =? 12) then None else
  let id := DecodeInteger (take 8 payload) in
  let delay := DecodeInteger (drop 8 payload) in
  if (id =? 0) || (negb (delay =? CancelDeadline) && (MaximumPumpDelay <? delay)) then None else
  Some {| ps_RequestId := id;
          ps_Delay := if negb (delay =? CancelDeadline) then Some delay else None |}.

Definition EncodePumpSchedule (schedule : PumpSchedule) : outcome Frame :=
  if (ps_RequestId schedule =? 0)
     || match ps_Delay schedule with
        | Some delay => (delay <? 0) || (MaximumPumpDelay <? delay)
        | None => false
        end
  then Throw (PumpException "InvalidMessage") else
  let delay := match ps_Delay schedule with Some delay => u64 delay | None => CancelDeadline end in
  Ok {| fr_type := MessageType_PumpSchedule;
        fr_payload := EncodeInteger 8 (ps_RequestId schedule) ++ EncodeInteger 4 delay |}.

Definition TryDecodePumpReply (payload : bytes) : option Z :=
  if negb (zlen payload =? 8) then None else
  let id := DecodeInteger payload in
  if id =? 0 then None else Some id.

Definition EncodePumpReply (requestId : Z) : outcome Frame :=
  if requestId =? 0 then Throw (PumpException "InvalidMessage") else
  Ok {| fr_type := MessageType_Pump; fr_payload := EncodeInteger 8 requestId |}.

(** ** Delegation *)

Definition MessageType_Delegation : Z := 24.
Definition MessageType_DelegationReply : Z := 25.

Inductive DelegationAction := Action_Prepare | Action_Release | Action_Acquire | Action_Commit.

Inductive DelegationStatus :=
  | Status_Prepared | Status_Released | Status_Ready | Status_Committed | Status_Failed.

Inductive DelegationFailure :=
  | Failure_None | Failure_StaleGeneration | Failure_StaleMap | Failure_InvalidState
  | Failure_UnknownRegion | Failure_LeaseExpired.

#[export] Instance DelegationAction_eq_dec : EqDecision DelegationAction.
Proof. solve_decision. Defined.
#[export] Instance DelegationStatus_eq_dec : EqDecision DelegationStatus.
Proof. solve_decision. Defined.
#[export] Instance DelegationFailure_eq_dec : EqDecision DelegationFailure.
Proof. solve_decision. Defined.

(** The enumerators in the order of their values. *)
Definition DelegationActions : list DelegationAction :=
  [Action_Prepare; Action_Release; Action_Acquire; Action_Commit].
Definition DelegationStatuses : list DelegationStatus :=
  [Status_Prepared; Status_Released; Status_Ready; Status_Committed; Status_Failed].
Definition DelegationFailures : list DelegationFailure :=
  [Failure_None; Failure_StaleGeneration; Failure_StaleMap; Failure_InvalidState;
   Failure_UnknownRegion; Failure_LeaseExpired].

Definition Action_value (a : DelegationAction) : Z :=
  match a with Action_Prepare => 0 | Action_Release => 1 | Action_Acquire => 2 | Action_Commit => 3 end.
Definition Status_value (s : DelegationStatus) : Z :=
  match s with
  | Status_Prepared => 0 | Status_Released => 1 | Status_Ready => 2 | Status_Committed => 3
  | Status_Failed => 4
  end.
Definition Failure_value (f : DelegationFailure) : Z :=
  match f with
  | Failure_None => 0 | Failure_StaleGeneration => 1 | Failure_StaleMap => 2
  | Failure_InvalidState => 3 | Failure_UnknownRegion => 4 | Failure_LeaseExpired => 5
  end.

(** [static_cast] of a byte to an enumeration of which it is a value. *)
Definition enum_cast {E} (values : list E) (byte : Z) : outcome E := rd values byte.

Record DelegationRequest := {
  rq_Generation : Z;
  rq_RequestId : Z;
  rq_MapRevision : Z;
  rq_Action : DelegationAction;
  rq_Regions : list Z
}.

Record DelegationReply := {
  rp_Generation : Z;
  rp_RequestId : Z;
  rp_MapRevision : Z;
  rp_Status : DelegationStatus;
  rp_Failure : DelegationFailure
}.

#[export] Instance DelegationRequest_eq_dec : EqDecision DelegationRequest.
Proof. solve_decision. Defined.
#[export] Instance DelegationReply_eq_dec : EqDecision DelegationReply.
Proof. solve_decision. Defined.

(** [for (index = sizeof(value); index != 0; --index)] *)
Definition Delegation_Append64 (b : bytes) (value : Z) : bytes :=
  fold_left (fun out index => out ++ [u8 (Z.shiftr value ((index - 1) * 8))])
    [8; 7; 6; 5; 4; 3; 2; 1] b.

Definition Delegation_Read64 (b : bytes) (offset : Z) : outcome Z := Read64_loop 8 b offset 0.

Definition Identity (generation request revision : Z) : outcome bytes :=
  if (generation =? 0) || (request =? 0) || (revision =? 0)
  then Throw (InvalidArgument "delegation identity must be nonzero") else
  let b := Delegation_Append64 [] generation in
  let b := Delegation_Append64 b request in
  Ok (Delegation_Append64 b revision).

Definition EncodeMapAcknowledgement (revision : Z) : outcome Frame :=
  if revision =? 0 then Throw (InvalidArgument "map revision must be nonzero") else
  Ok {| fr_type := MessageType_NetworkMapAck; fr_payload := Delegation_Append64 [] revision |}.

Definition DecodeMapAcknowledgement (frame : Frame) : outcome (option Z) :=
  if negb (fr_type frame =? MessageType_NetworkMapAck) || negb (zlen (fr_payload frame) =? 8)
  then Ok None else
  let! revision := Delegation_Read64 (fr_payload frame) 0 in
  Ok (if revision =? 0 then None else Some revision).

(** [std::ranges::is_sorted] and [adjacent_find] over the regions. *)
Fixpoint is_sorted (l : list Z) : bool :=
  match l with
  | a :: (b :: _) as rest => (a <=? b) && is_sorted rest
  | _ => true
  end.

Fixpoint has_adjacent (l : list Z) : bool :=
  match l with
  | a :: (b :: _) as rest => (a =? b) || has_adjacent rest
  | _ => false
  end.

Definition EncodeDelegationRequest (request : DelegationRequest) : outcome Frame :=
  if (zlen (rq_Regions request) =? 0) || (255 <? zlen (rq_Regions request))
     || negb (is_sorted (rq_Regions request)) || has_adjacent (rq_Regions request)
     || match rq_Regions request with front :: _ => front =? 0 | [] => false end
     || (Action_value Action_Commit <? Action_value (rq_Action request))
  then Throw (InvalidArgument "invalid delegation request") else
  let! b := Identity (rq_Generation request) (rq_RequestId request) (rq_MapRevision request) in
  let b := b ++ [u8 (Action_value (rq_Action request))] in
  let b := b ++ [u8 (zlen (rq_Regions request))] in
  let b := fold_left (fun b region => b ++ [u8 (Z.shiftr region 8); u8 region])
             (rq_Regions request) b in
  Ok {| fr_type := MessageType_Delegation; fr_payload := b |}.

(** [(reply.Status == Failed) != (reply.Failure != None)] *)
Definition reply_inconsistent (status : DelegationStatus) (failure : DelegationFailure) : bool :=
  negb (Bool.eqb (bool_decide (status = Status_Failed)) (bool_decide (failure ≠ Failure_None))).

Definition EncodeDelegationReply (reply : DelegationReply) : outcome Frame :=
  if (Status_value Status_Failed <? Status_value (rp_Status reply))
     || (Failure_value Failure_LeaseExpired <? Failure_value (rp_Failure reply))
     || reply_inconsistent (rp_Status reply) (rp_Failure reply)
  then Throw (InvalidArgument "invalid delegation reply") else
  let! b := Identity (rp_Generation reply) (rp_RequestId reply) (rp_MapRevision reply) in
  let b := b ++ [u8 (Status_value (rp_Status reply))] in
  let b := b ++ [u8 (Failure_value (rp_Failure reply))] in
  Ok {| fr_type := MessageType_DelegationReply; fr_payload := b |}.

(** [for (index = 0; index < count; ++index)] *)
Fixpoint regions_loop (todo : nat) (index : Z) (b : bytes) (regions : list Z)
    : outcome (option (list Z)) :=
  match todo with
  | O => Ok (Some regions)
  | S todo' =>
      let offset := 26 + index * 2 in
      let! hi := rd b offset in
      let! lo := rd b (offset + 1) in
      let region := u16 (Z.lor (Z.shiftl hi 8) lo) in
      if (region =? 0) || match last regions with Some r => region <=? r | None => false end
      then Ok None
      else regions_loop todo' (index + 1) b (regions ++ [region])
  end.

Definition DecodeDelegationRequest (frame : Frame) : outcome (option DelegationRequest) :=
  let b := fr_payload frame in
  if negb (fr_type frame =? MessageType_Delegation) || (zlen b <? 26) then Ok None else
  let! action := rd b 24 in
  if Action_value Action_Commit <? action then Ok None else
  let! count := rd b 25 in
  if (count =? 0) || (255 <? count) || negb (zlen b =? 26 + count * 2) then Ok None else
  let! generation := Delegation_Read64 b 0 in
  let! requestId := Delegation_Read64 b 8 in
  let! mapRevision := Delegation_Read64 b 16 in
  let! action := enum_cast DelegationActions action in
  if (generation =? 0) || (requestId =? 0) || (mapRevision =? 0) then Ok None else
  let! regions := regions_loop (Z.to_nat count) 0 b [] in
  Ok (match regions with
      | Some regions =>
          Some {| rq_Generation := generation; rq_RequestId := requestId;
                  rq_MapRevision := mapRevision; rq_Action := action; rq_Regions := regions |}
      | None => None
      end).

Definition DecodeDelegationReply (frame : Frame) : outcome (option DelegationReply) :=
  let b := fr_payload frame in
  if negb (fr_type frame =? MessageType_DelegationReply) || negb (zlen b =? 26) then Ok None else
  let! status := rd b 24 in
  if Status_value Status_Failed <? status then Ok None else
  let! failure := rd b 25 in
  if Failure_value Failure_LeaseExpired <? failure then Ok None else
  let! generation := Delegation_Read64 b 0 in
  let! requestId := Delegation_Read64 b 8 in
  let! mapRevision := Delegation_Read64 b 16 in
  let! status := enum_cast DelegationStatuses status in
  let! failure := enum_cast DelegationFailures failure in
  if (generation =? 0) || (requestId =? 0) || (mapRevision =? 0)
     || reply_inconsistent status failure
  then Ok None
  else Ok (Some {| rp_Generation := generation; rp_RequestId := requestId;
                   rp_MapRevision := mapRevision; rp_Status := status; rp_Failure := failure |}).

(** ** Integers on the wire *)

Lemma Append16_be out v : Append16 out v = out ++ be_encode 2 v.
Proof. unfold Append16. cbn [be_encode]. by rewrite Z.shiftr_0_r. Qed.

Lemma Append32_be out v : Append32 out v = out ++ be_encode 4 v.
Proof. unfold Append32. cbn [be_encode]. by rewrite Z.shiftr_0_r. Qed.

Lemma Append64_be out v : Append64 out v = out ++ be_encode 8 v.
Proof. unfold Append64. cbn [fold_left be_encode]. by rewrite <- !app_assoc. Qed.

Lemma Delegation_Append64_be out v : Delegation_Append64 out v = out ++ be_encode 8 v.
Proof. unfold Delegation_Append64. cbn [fold_left be_encode]. by rewrite <- !app_assoc. Qed.

Lemma be_encode_snoc n v : be_encode (S n) v = be_encode n (Z.shiftr v 8) ++ [u8 v].
Proof.
  induction n as [|n IH]; [simpl; by rewrite Z.shiftr_0_r|].
  change (be_encode (S (S n)) v) with (u8 (Z.shiftr v (8 * Z.of_nat (S n))) :: be_encode (S n) v).
  rewrite IH. cbn [be_encode app]. f_equal. f_equal. rewrite Z.shiftr_shiftr by lia. f_equal. lia.
Qed.

Lemma EncodeInteger_be n v : EncodeInteger n v = be_encode n v.
Proof.
  unfold EncodeInteger. rewrite <- (app_nil_r (be_encode n v)). generalize (@nil Z).
  revert v. induction n as [|n IH]; intros v w; [done|].
  cbn [EncodeInteger_loop]. by rewrite IH, be_encode_snoc, <- app_assoc.
Qed.

Lemma Read64_loop_app l q r v todo :
  length q = todo →
  Read64_loop todo (l ++ q ++ r) (zlen l) v
  = Ok (fold_left (fun v b => Z.lor (u64 (Z.shiftl v 8)) b) q v).
Proof.
  revert l v todo. induction q as [|b q IH]; intros l v todo <-; [done|]. cbn [length Read64_loop].
  rewrite rd_app_r, Z.sub_diag by lia. change (rd ((b :: q) ++ r) 0) with (Ok b). cbn [obind].
  specialize (IH (l ++ [b]) (Z.lor (u64 (Z.shiftl v 8)) b) (length q) eq_refl).
  rewrite <- app_assoc, zlen_app in IH. exact IH.
Qed.

Lemma Hosted_Read64_app l q r offset :
  zlen l = offset → length q = 8%nat → bytes_ok q →
  Hosted_Read64 (l ++ q ++ r) offset = Ok (be_decode q).
Proof.
  intros <- Hq Hok. unfold Hosted_Read64. rewrite Read64_loop_app by done.
  by rewrite read_offset_be by (done || lia).
Qed.

Lemma Read64_loop_safe todo b offset v :
  0 <= offset → offset + Z.of_nat todo <= zlen b → ∃ w, Read64_loop todo b offset v = Ok w.
Proof.
  revert offset v. induction todo as [|todo IH]; intros offset v Ho Hl; cbn [Read64_loop]; [eauto|].
  destruct (rd_Ok b offset) as [x ->]; [lia|]. cbn [obind]. apply IH; lia.
Qed.

Lemma Hosted_Read64_Ok b offset :
  0 <= offset ∧ offset + 8 <= zlen b → ∃ w, Hosted_Read64 b offset = Ok w.
Proof. intros [? ?]. apply Read64_loop_safe; lia. Qed.

Lemma Hosted_Read16_be l v r p offset :
  p = l ++ be_encode 2 v ++ r → zlen l = offset → in_width 16 v →
  Hosted_Read16 p offset = Ok v.
Proof.
  intros -> <- Hv. change Hosted_Read16 with Ipv4_read16.
  rewrite Ipv4_read16_app, be_decode_encode; [by rewrite Z.mod_small|done..|].
  apply bytes_ok_be_encode.
Qed.

Lemma Hosted_Read32_be l v r p offset :
  p = l ++ be_encode 4 v ++ r → zlen l = offset → in_width 32 v →
  Hosted_Read32 p offset = Ok v.
Proof.
  intros -> <- Hv. change Hosted_Read32 with Ipv4_read32.
  by rewrite Ipv4_read32_app, be_decode_encode, Z.mod_small.
Qed.

Lemma Hosted_Read64_be l v r p offset :
  p = l ++ be_encode 8 v ++ r → zlen l = offset → in_width 64 v →
  Hosted_Read64 p offset = Ok v.
Proof.
  intros -> <- Hv. rewrite Hosted_Read64_app, be_decode_encode;
    [by rewrite Z.mod_small|done..|apply bytes_ok_be_encode].
Qed.

(** [reads]: read the fields of a payload written as a concatenation, each field
    at the size of what stands before it. *)
Ltac prefix_len :=
  rewrite ?zlen_app, ?zlen_be_encode, ?zlen_cons, ?zlen_nil; lia.

(** ** Peer packets *)

Definition key_ok (k : bytes) : Prop := zlen k = 32 ∧ bytes_ok k.

Definition PeerPacket_wf (p : PeerPacket) : Prop :=
  key_ok (pp_peer p) ∧ bytes_ok (pp_payload p) ∧ 0 < zlen (pp_payload p)
  ∧ in_width 32 (pp_endpointAddress p) ∧ in_width 16 (pp_endpointPort p)
  ∧ (pp_endpointAddress p = 0 ↔ pp_endpointPort p = 0)
  ∧ match pp_derpRoute p with
    | Some r => pp_endpointAddress p = 0
                ∧ in_width 64 (dr_token r) ∧ dr_token r ≠ 0
                ∧ in_width 16 (dr_region r) ∧ dr_region r ≠ 0
    | None => True
    end.

(** The flags byte and the route bytes [EncodePeerPacket] writes. *)
Definition peer_flags (control disco endpoint route : bool) : Z :=
  Z.lor (Z.lor (Z.lor (if control then ControlFlag else 0) (if disco then DiscoFlag else 0))
               (if endpoint then EndpointFlag else 0)) (if route then DerpRouteFlag else 0).

Lemma peer_flags_in_width c d e r : in_width 8 (peer_flags c d e r).
Proof. by destruct c, d, e, r. Qed.

Lemma peer_flags_tests c d e r :
  let flags := peer_flags c d e r in
  (Z.land flags (u8 (Z.lnot KnownFlags)) =? 0) = true
  ∧ negb (Z.land flags ControlFlag =? 0) = c ∧ negb (Z.land flags DiscoFlag =? 0) = d
  ∧ negb (Z.land flags EndpointFlag =? 0) = e ∧ negb (Z.land flags DerpRouteFlag =? 0) = r.
Proof. by destruct c, d, e, r. Qed.

(** Decoding what was built from a key, the flags, a route and the data. *)
Section decode_peer_packet.
  Context (peer data : bytes) (control disco : bool).
  Hypothesis Hpeer : zlen peer = 32.
  Hypothesis Hdata : 0 < zlen data.

Definition built_packet (e r : bool) (body : bytes) : bytes :=
  peer ++ [peer_flags control disco e r] ++ body ++ data.

Lemma built_packet_start e r body :
  zlen (built_packet e r body) = 33 + zlen body + zlen data
  ∧ slice (built_packet e r body) 0 32 = Ok peer
  ∧ rd (built_packet e r body) 32 = Ok (peer_flags control disco e r)
  ∧ slice (built_packet e r body) (33 + zlen body) (33 + zlen body + zlen data) = Ok data.
Proof using Hpeer.
  unfold built_packet. split_and!.
  - prefix_len.
  - by apply slice_prefix.
  - rewrite rd_app_r, Hpeer by lia. done.
  - rewrite 2!app_assoc. apply slice_app_drop; prefix_len.
Qed.

Definition packet_of (a port : Z) (route : option DerpRoute) : PeerPacket :=
  {| pp_peer := peer; pp_payload := data; pp_control := control; pp_disco := disco;
     pp_endpointAddress := a; pp_endpointPort := port; pp_derpRoute := route |}.

Lemma decode_plain :
  ProtocolCodec_DecodePeerPacket (built_packet false false []) = Ok (packet_of 0 0 None).
Proof using Hpeer Hdata.
  destruct (built_packet_start false false []) as (Hz & Hs & Hf & Hd).
  destruct (peer_flags_tests control disco false false) as (Tk & Tc & Td & Te & Tr).
  unfold ProtocolCodec_DecodePeerPacket. change (zlen []) with 0 in *.
  rewrite (proj2 (Z.leb_gt _ _)), Hs, Hf by lia. cbn [obind].
  rewrite Tk, Te, Tr, Tc, Td. cbn [negb andb obind]. rewrite Hz.
  change (32 + 1) with 33. change (33 + 0) with 33 in *. by rewrite Hd.
Qed.

Lemma decode_endpoint a port :
  in_width 32 a → in_width 16 port →
  ProtocolCodec_DecodePeerPacket
    (built_packet true false (be_encode 4 a ++ be_encode 2 port)) = Ok (packet_of a port None).
Proof using Hpeer Hdata.
  intros Ha Hp. set (body := be_encode 4 a ++ be_encode 2 port).
  destruct (built_packet_start true false body) as (Hz & Hs & Hf & Hd).
  destruct (peer_flags_tests control disco true false) as (Tk & Tc & Td & Te & Tr).
  unfold ProtocolCodec_DecodePeerPacket. change (zlen body) with 6 in *.
  change (32 + 1) with 33.
  rewrite (proj2 (Z.leb_gt _ 33)), Hs, Hf by lia. cbn [obind].
  rewrite Tk, Te, Tr, Tc, Td. cbn [negb andb obind].
  rewrite (proj2 (Z.leb_gt _ _)) by lia.
  assert (Hosted_Read32 (built_packet true false body) 33 = Ok a) as ->.
  { apply (Hosted_Read32_be (peer ++ [peer_flags control disco true false]) _
      (be_encode 2 port ++ data)); [|prefix_len|done].
    unfold built_packet, body. by rewrite <- !app_assoc. }
  assert (Hosted_Read16 (built_packet true false body) (33 + 4) = Ok port) as ->.
  { apply (Hosted_Read16_be (peer ++ [peer_flags control disco true false] ++ be_encode 4 a) _
      data); [|prefix_len|done].
    unfold built_packet, body. by rewrite <- !app_assoc. }
  cbn [obind]. rewrite Hz.  change (33 + 6) with 39 in *. by rewrite Hd.
Qed.

Lemma decode_derp_route token region :
  in_width 64 token → token ≠ 0 → in_width 16 region → region ≠ 0 →
  ProtocolCodec_DecodePeerPacket
    (built_packet false true (be_encode 8 token ++ be_encode 2 region))
  = Ok (packet_of 0 0 (Some {| dr_token := token; dr_region := region |})).
Proof using Hpeer Hdata.
  intros Ht Ht0 Hr Hr0. set (body := be_encode 8 token ++ be_encode 2 region).
  destruct (built_packet_start false true body) as (Hz & Hs & Hf & Hd).
  destruct (peer_flags_tests control disco false true) as (Tk & Tc & Td & Te & Tr).
  unfold ProtocolCodec_DecodePeerPacket. change (zlen body) with 10 in *.
  change (32 + 1) with 33.
  rewrite (proj2 (Z.leb_gt _ 33)), Hs, Hf by lia. cbn [obind].
  rewrite Tk, Te, Tr, Tc, Td. cbn [negb andb obind].
  rewrite (proj2 (Z.leb_gt _ _)) by lia.
  assert (Hosted_Read64 (built_packet false true body) 33 = Ok token) as ->.
  { apply (Hosted_Read64_be (peer ++ [peer_flags control disco false true]) _
      (be_encode 2 region ++ data)); [|prefix_len|done].
    unfold built_packet, body. by rewrite <- !app_assoc. }
  assert (Hosted_Read16 (built_packet false true body) (33 + 8) = Ok region) as ->.
  { apply (Hosted_Read16_be (peer ++ [peer_flags control disco false true]
      ++ be_encode 8 token) _ data); [|prefix_len|done].
    unfold built_packet, body. by rewrite <- !app_assoc. }
  cbn [obind]. rewrite (proj2 (Z.eqb_neq token 0)), (proj2 (Z.eqb_neq region 0)) by done.
  cbn [orb obind]. rewrite Hz.  change (33 + 10) with 43 in *.
  by rewrite Hd.
Qed.
End decode_peer_packet.

Lemma built_packet_ok peer data c d e r body :
  bytes_ok peer → bytes_ok data → bytes_ok body → bytes_ok (built_packet peer data c d e r body).
Proof.
  intros. unfold built_packet. repeat apply Forall_app_2; try done.
  apply Forall_cons_2; [apply peer_flags_in_width|done].
Qed.

Lemma PeerPacket_roundtrip p :
  PeerPacket_wf p →
  ∃ b, ProtocolCodec_EncodePeerPacket p = Ok b ∧ bytes_ok b
    ∧ ProtocolCodec_DecodePeerPacket b = Ok p.
Proof.
  intros ([Hk Hkok] & Hdok & Hd & Ha & Hport & Hiff & Hroute).
  unfold ProtocolCodec_EncodePeerPacket. rewrite (proj2 (Z.eqb_neq _ _)) by lia.
  destruct p as [peer data c d a port route]. simpl in *.
  destruct (Z.eqb_spec a 0) as [->|Hane].
  - rewrite (proj1 Hiff eq_refl) in *. cbn [negb andb]. destruct route as [[token region]|]; simpl.
    + destruct Hroute as (_ & Ht & Ht0 & Hr & Hr0). simpl in *.
      rewrite (proj2 (Z.eqb_neq token 0)), (proj2 (Z.eqb_neq region 0)) by done. cbn [orb].
      rewrite Append16_be, Append64_be, <- !app_assoc.
      exists (built_packet peer data c d false true (be_encode 8 token ++ be_encode 2 region)).
      split_and!; [unfold built_packet; by rewrite <- !app_assoc| |by apply decode_derp_route].
      apply built_packet_ok; try done. apply Forall_app_2; apply bytes_ok_be_encode.
    + exists (built_packet peer data c d false false []).
      split_and!; [unfold built_packet; by rewrite <- !app_assoc| |by apply decode_plain].
      by apply built_packet_ok.
  - assert (port ≠ 0) by tauto. rewrite (proj2 (Z.eqb_neq port 0)) by done. cbn [negb andb].
    destruct route as [r|]; [by destruct Hroute|].
    rewrite Append16_be, Append32_be, <- !app_assoc.
    exists (built_packet peer data c d true false (be_encode 4 a ++ be_encode 2 port)).
    split_and!; [unfold built_packet; by rewrite <- !app_assoc| |by apply decode_endpoint].
    apply built_packet_ok; try done. apply Forall_app_2; apply bytes_ok_be_encode.
Qed.

Lemma safe_Hosted_Read16 b o : 0 <= o ∧ o + 2 <= zlen b → safe (Hosted_Read16 b o).
Proof. apply safe_read16. Qed.
Lemma safe_Hosted_Read32 b o : 0 <= o ∧ o + 4 <= zlen b → safe (Hosted_Read32 b o).
Proof. apply safe_read32. Qed.
Lemma safe_Hosted_Read64 b o : 0 <= o ∧ o + 8 <= zlen b → safe (Hosted_Read64 b o).
Proof. intros [w ->]%Hosted_Read64_Ok. done. Qed.

(** [safe_step] with the readers of the protocol. *)
Ltac safe_codec :=
  repeat first
    [ apply safe_Hosted_Read16; b2p; zlia
    | apply safe_Hosted_Read32; b2p; zlia
    | apply safe_Hosted_Read64; b2p; zlia
    | safe_step ].

Lemma DecodePeerPacket_safe b : safe (throwing ProtocolCodec_DecodePeerPacket b).
Proof.
  unfold throwing, ProtocolCodec_DecodePeerPacket.
  apply safe_obind; [|done]. apply safe_if; [done|]. intros Hl. b2p.
  apply safe_obind; [by safe_codec|]. intros peer _.
  apply safe_obind; [by safe_codec|]. intros flags _.
  apply safe_if; [done|]. intros _. apply safe_if; [done|]. intros _. cbv zeta.
  apply safe_obind; [by safe_codec|]. intros [[[a p] r] off] Hoff.
  apply safe_obind; [|done]. apply safe_slice. ok_inv Hoff; b2p; simplify_eq; lia.
Qed.

#[export] Instance PeerPacket_Codec :
  Codec ProtocolCodec_EncodePeerPacket (throwing ProtocolCodec_DecodePeerPacket) PeerPacket_wf.
Proof.
  split.
  - intros p Hp. destruct (PeerPacket_roundtrip p Hp) as (b & ? & ? & Hd). exists b.
    unfold throwing. by rewrite Hd.
  - intros b _. apply DecodePeerPacket_safe.
Qed.

(** ** Endpoints *)

Definition Endpoint_specified (e : Endpoint) : Prop :=
  Endpoint_ok e ∧ ip4_value (ep_address e) ≠ 0 ∧ ep_port e ≠ 0.

Lemma specified_not_unspecified e : Endpoint_specified e → unspecified e = false.
Proof. intros (_ & ? & ?). unfold unspecified, Ipv4Address_HostOrder. b2p. done. Qed.

Definition PeerEndpoint_wf (e : PeerEndpoint) : Prop :=
  key_ok (pe_peer e) ∧ Endpoint_specified (pe_endpoint e).

Definition endpoint_bytes (e : Endpoint) : bytes :=
  be_encode 4 (ip4_value (ep_address e)) ++ be_encode 2 (ep_port e).

(** The endpoint at [zlen l] of a payload. *)
Lemma read_endpoint l e r p offset :
  Endpoint_specified e → p = l ++ endpoint_bytes e ++ r → zlen l = offset →
  Hosted_Read32 p offset = Ok (ip4_value (ep_address e))
  ∧ Hosted_Read16 p (offset + 4) = Ok (ep_port e).
Proof.
  intros ((Ha & Hp) & _) -> <-. unfold endpoint_bytes. split.
  - apply (Hosted_Read32_be l _ (be_encode 2 (ep_port e) ++ r)); [|done..].
    by rewrite <- !app_assoc.
  - apply (Hosted_Read16_be (l ++ be_encode 4 (ip4_value (ep_address e))) _ r); [|prefix_len|done].
    by rewrite <- !app_assoc.
Qed.

Lemma bytes_ok_endpoint_bytes e : bytes_ok (endpoint_bytes e).
Proof. apply Forall_app_2; apply bytes_ok_be_encode. Qed.

#[export] Instance PeerEndpoint_Codec :
  Codec ProtocolCodec_EncodePeerEndpoint (throwing ProtocolCodec_DecodePeerEndpoint) PeerEndpoint_wf.
Proof.
  split.
  - intros [peer e] [[Hk Hkok] He]. simpl in *. unfold ProtocolCodec_EncodePeerEndpoint. simpl.
    rewrite specified_not_unspecified, Append16_be, Append32_be, <- app_assoc by done.
    change (_ ++ be_encode 2 (ep_port e)) with (endpoint_bytes e).
    exists (peer ++ endpoint_bytes e). split_and!; [done| |].
    { apply Forall_app_2; [done|apply bytes_ok_endpoint_bytes]. }
    unfold throwing, ProtocolCodec_DecodePeerEndpoint.
    rewrite zlen_app, Hk. change (zlen (endpoint_bytes e)) with 6. cbn [Z.eqb negb].
    rewrite slice_prefix by done.
    destruct (read_endpoint peer e [] (peer ++ endpoint_bytes e) 32) as [-> ->];
      [done|by rewrite app_nil_r|done|]. cbn [obind].
    pose proof (specified_not_unspecified e He) as Hu. unfold unspecified in Hu.
    change (Ipv4Address_HostOrder (Ipv4Address_FromHostOrder (ip4_value (ep_address e))))
      with (Ipv4Address_HostOrder (ep_address e)).
    rewrite Hu. cbn [obind]. by destruct e as [[?] ?].
  - intros b _. unfold throwing, ProtocolCodec_DecodePeerEndpoint. safe_codec.
Qed.

Definition Candidates_wf (l : list Endpoint) : Prop :=
  0 < zlen l <= ServerEndpointCandidates_MaximumCount ∧ Forall Endpoint_specified l.

Definition candidates_payload (l : list Endpoint) : bytes := concat (map endpoint_bytes l).

Lemma zlen_candidates_payload l : zlen (candidates_payload l) = 6 * zlen l.
Proof.
  unfold candidates_payload. induction l as [|e l IH]; [done|]. simpl map. cbn [concat].
  rewrite zlen_app, IH, zlen_cons. change (zlen (endpoint_bytes e)) with 6. lia.
Qed.

Lemma candidates_bytes_spec l result :
  Forall Endpoint_specified l → candidates_bytes l result = Ok (result ++ candidates_payload l).
Proof.
  intros Hl. revert result. induction Hl as [|e l He Hl IH]; intros result; cbn [candidates_bytes].
  { by rewrite app_nil_r. }
  rewrite specified_not_unspecified by done. rewrite IH, Append16_be, Append32_be.
  unfold candidates_payload. simpl map. cbn [concat]. unfold endpoint_bytes.
  by rewrite <- !app_assoc.
Qed.

Lemma candidates_loop_spec l hd acc fuel :
  Forall Endpoint_specified l → (length l <= fuel)%nat →
  candidates_loop fuel (hd ++ candidates_payload l) (zlen hd) acc = Ok (acc ++ l).
Proof.
  intros Hl. revert hd acc fuel.
  induction Hl as [|e l He Hl IH]; intros hd acc fuel Hfuel.
  - unfold candidates_payload. cbn [map concat]. rewrite app_nil_r.
    destruct fuel; cbn [candidates_loop]; rewrite Z.ltb_irrefl; by rewrite app_nil_r.
  - destruct fuel as [|fuel]; [simpl in Hfuel; lia|]. cbn [candidates_loop].
    assert (candidates_payload (e :: l) = endpoint_bytes e ++ candidates_payload l) as Hp by done.
    rewrite (proj2 (Z.ltb_lt _ _)).
    2: { rewrite zlen_app, zlen_candidates_payload, zlen_cons. zlia. }
    destruct (read_endpoint hd e (candidates_payload l) (hd ++ candidates_payload (e :: l)) (zlen hd))
      as [-> ->]; [done|by rewrite Hp|done|]. cbn [obind].
    pose proof (specified_not_unspecified e He) as Hu. unfold unspecified in Hu.
    change (Ipv4Address_HostOrder (Ipv4Address_FromHostOrder (ip4_value (ep_address e))))
      with (Ipv4Address_HostOrder (ep_address e)).
    rewrite Hu, Hp, app_assoc. specialize (IH (hd ++ endpoint_bytes e)
      (acc ++ [{| ep_address := Ipv4Address_FromHostOrder (ip4_value (ep_address e));
                  ep_port := ep_port e |}]) fuel).
    rewrite zlen_app in IH. change (zlen (endpoint_bytes e)) with 6 in IH.
    rewrite IH by (simpl in Hfuel; lia). rewrite <- app_assoc. by destruct e as [[?] ?].
Qed.

Lemma candidates_loop_safe fuel payload offset acc :
  0 <= offset → (zlen payload - offset) mod 6 = 0 → zlen payload - offset <= 6 * Z.of_nat fuel →
  safe (candidates_loop fuel payload offset acc).
Proof.
  revert offset acc. induction fuel as [|fuel IH]; intros offset acc Ho Hm Hf; cbn [candidates_loop];
    apply safe_if; try done; intros Hl; b2p; [lia|].
  assert (offset + 6 <= zlen payload) by (Z.to_euclidean_division_equations; lia).
  apply safe_obind; [apply safe_Hosted_Read32; lia|intros a _].
  apply safe_obind; [apply safe_Hosted_Read16; lia|intros port _].
  apply safe_if; [done|]. intros _. apply IH; [lia| |lia].
  rewrite <- Hm, <- (Z_mod_plus_full (zlen payload - (offset + 6)) 1 6). f_equal. lia.
Qed.

#[export] Instance Candidates_Codec :
  Codec ProtocolCodec_EncodeServerEndpointCandidates
    (throwing ProtocolCodec_DecodeServerEndpointCandidates) Candidates_wf.
Proof.
  split.
  - intros l [Hn Hl]. unfold ProtocolCodec_EncodeServerEndpointCandidates.
    rewrite (proj2 (Z.eqb_neq _ _)), (proj2 (Z.ltb_ge _ _)), candidates_bytes_spec by (done || lia).
    exists (candidates_payload l). split_and!; [done| |].
    { unfold candidates_payload. clear. induction l; cbn [map concat]; [done|].
      apply Forall_app_2; [apply bytes_ok_endpoint_bytes|done]. }
    unfold throwing, ProtocolCodec_DecodeServerEndpointCandidates.
    rewrite zlen_candidates_payload. unfold ServerEndpointCandidates_MaximumCount in *.
    replace (6 * zlen l / 6) with (zlen l) by (Z.to_euclidean_division_equations; lia).
    replace (6 * zlen l mod 6) with 0 by (Z.to_euclidean_division_equations; lia).
    rewrite (proj2 (Z.eqb_neq (6 * zlen l) 0)), (proj2 (Z.ltb_ge 16 _)) by lia.
    change (negb (0 =? 0)) with false. cbn [orb].
    rewrite (candidates_loop_spec l []); [done..|].
    pose proof (zlen_candidates_payload l). unfold zlen in *. lia.
  - intros b _. unfold throwing, ProtocolCodec_DecodeServerEndpointCandidates.
    apply safe_obind; [|done]. apply safe_if; [done|]. intros H. b2p.
    apply candidates_loop_safe; [lia|rewrite Z.sub_0_r; tauto|unfold zlen; lia].
Qed.

(** ** DERP authentication *)

Definition Challenge_wf (c : DerpAuthenticationChallenge) : Prop :=
  in_width 64 (dc_requestId c) ∧ key_ok (dc_serverKey c).

Definition Response_wf (r : DerpAuthenticationResponse) : Prop :=
  in_width 64 (da_requestId r) ∧ bytes_ok (da_clientInfo r) ∧ 0 < zlen (da_clientInfo r).

(** A 64-bit identifier followed by data, as both messages have it. *)
Lemma id_data_reads id data :
  in_width 64 id →
  Hosted_Read64 (be_encode 8 id ++ data) 0 = Ok id
  ∧ slice (be_encode 8 id ++ data) 8 (zlen (be_encode 8 id ++ data)) = Ok data
  ∧ zlen (be_encode 8 id ++ data) = 8 + zlen data.
Proof.
  intros Hid. split_and!.
  - by apply (Hosted_Read64_be [] id data).
  - apply slice_app_drop; [done|]. prefix_len.
  - prefix_len.
Qed.

#[export] Instance DerpChallenge_Codec :
  Codec ProtocolCodec_EncodeDerpChallenge (throwing ProtocolCodec_DecodeDerpChallenge) Challenge_wf.
Proof.
  split.
  - intros [id key] (Hid & Hk & Hkok). simpl in *. unfold ProtocolCodec_EncodeDerpChallenge.
    rewrite Append64_be. exists (be_encode 8 id ++ key). split_and!; [done| |].
    { apply Forall_app_2; [apply bytes_ok_be_encode|done]. }
    unfold throwing, ProtocolCodec_DecodeDerpChallenge.
    destruct (id_data_reads id key Hid) as (-> & -> & ->). by rewrite Hk.
  - intros b _. unfold throwing, ProtocolCodec_DecodeDerpChallenge. safe_codec.
Qed.

#[export] Instance DerpResponse_Codec :
  Codec ProtocolCodec_EncodeDerpResponse (throwing ProtocolCodec_DecodeDerpResponse) Response_wf.
Proof.
  split.
  - intros [id info] (Hid & Hiok & Hi). simpl in *. unfold ProtocolCodec_EncodeDerpResponse.
    cbn [da_clientInfo da_requestId].
    rewrite (proj2 (Z.eqb_neq _ _)), Append64_be by lia.
    exists (be_encode 8 id ++ info). split_and!; [done| |].
    { apply Forall_app_2; [apply bytes_ok_be_encode|done]. }
    unfold throwing, ProtocolCodec_DecodeDerpResponse.
    destruct (id_data_reads id info Hid) as (-> & -> & ->).
    by rewrite (proj2 (Z.leb_gt _ _)) by lia.
  - intros b _. unfold throwing, ProtocolCodec_DecodeDerpResponse. safe_codec.
Qed.

(** ** Pump schedules *)

Definition PumpSchedule_wf (s : PumpSchedule) : Prop :=
  in_width 64 (ps_RequestId s) ∧ ps_RequestId s ≠ 0
  ∧ match ps_Delay s with Some delay => 0 <= delay <= MaximumPumpDelay | None => True end.

(** The payload of the frame an encoder returns. *)
Definition payload_bytes {A} (encode : A → outcome Frame) (a : A) : outcome bytes :=
  let! f := encode a in Ok (fr_payload f).

Lemma DecodeInteger_be n v :
  (n <= 8)%nat → in_width (8 * Z.of_nat n) v → DecodeInteger (be_encode n v) = v.
Proof.
  intros Hn Hv. unfold DecodeInteger. rewrite read_offset_be, be_decode_encode.
  - by apply Z.mod_small.
  - apply bytes_ok_be_encode.
  - by rewrite length_be_encode.
Qed.

#[export] Instance PumpSchedule_Codec :
  Codec (payload_bytes EncodePumpSchedule) (fun b => Ok (TryDecodePumpSchedule b)) PumpSchedule_wf.
Proof.
  split; [|done]. intros [id delay] (Hid & Hid0 & Hd). simpl in *.
  unfold payload_bytes, EncodePumpSchedule. cbn [ps_RequestId ps_Delay]. rewrite (proj2 (Z.eqb_neq _ _)) by done.
  set (wire := match delay with Some delay => u64 delay | None => CancelDeadline end).
  assert (in_width 32 wire ∧ match delay with Some d => wire = d ∧ d <= MaximumPumpDelay
                                     | None => wire = CancelDeadline end) as [Hw Hwd].
  { unfold wire. unfold MaximumPumpDelay in Hd. destruct delay as [d|]; [|done].
    rewrite wrap_id by (split; lia). unfold MaximumPumpDelay. split; [split; lia|lia]. }
  assert (match delay with Some delay0 => (delay0 <? 0) || (MaximumPumpDelay <? delay0)
          | None => false end = false) as ->.
  { destruct delay; [b2p; lia|done]. }
  cbn [orb obind fr_payload]. rewrite !EncodeInteger_be. eexists; split_and!; [done| |].
  { apply Forall_app_2; apply bytes_ok_be_encode. }
  unfold TryDecodePumpSchedule.
  rewrite zlen_app, !zlen_be_encode, take_app_length', drop_app_length' by done.
  rewrite !DecodeInteger_be by (done || lia). cbn [Z.eqb negb].
  change (negb (Z.of_nat 8 + Z.of_nat 4 =? 12)) with false. cbn match.
  rewrite (proj2 (Z.eqb_neq id 0)) by done. unfold CancelDeadline, MaximumPumpDelay in *.
  destruct delay as [d|].
  - destruct Hwd as [-> Hle]. rewrite (proj2 (Z.eqb_neq d _)), (proj2 (Z.ltb_ge _ d)) by lia. done.
  - rewrite Hwd. done.
Qed.

#[export] Instance PumpReply_Codec :
  Codec (payload_bytes EncodePumpReply) (fun b => Ok (TryDecodePumpReply b))
    (fun id => in_width 64 id ∧ id ≠ 0).
Proof.
  split; [|done]. intros id [Hid H0]. unfold payload_bytes, EncodePumpReply.
  rewrite (proj2 (Z.eqb_neq _ _)) by done. cbn [obind fr_payload]. rewrite EncodeInteger_be.
  eexists; split_and!; [done|apply bytes_ok_be_encode|].
  unfold TryDecodePumpReply. rewrite zlen_be_encode, DecodeInteger_be by (done || lia).
  by rewrite (proj2 (Z.eqb_neq id 0)).
Qed.

(** ** Delegation *)

Fixpoint increasing (prev : Z) (l : list Z) : Prop :=
  match l with
  | [] => True
  | a :: rest => prev < a ∧ increasing a rest
  end.

Definition identity_wf (generation request revision : Z) : Prop :=
  (in_width 64 generation ∧ generation ≠ 0) ∧ (in_width 64 request ∧ request ≠ 0)
  ∧ (in_width 64 revision ∧ revision ≠ 0).

(** Regions are nonzero, in increasing order, and at most 255 of them. *)
Definition Request_wf (r : DelegationRequest) : Prop :=
  identity_wf (rq_Generation r) (rq_RequestId r) (rq_MapRevision r)
  ∧ 0 < zlen (rq_Regions r) <= 255
  ∧ Forall (in_width 16) (rq_Regions r) ∧ increasing 0 (rq_Regions r).

(** A reply names a failure exactly when its status is [Failed]. *)
Definition Reply_wf (r : DelegationReply) : Prop :=
  identity_wf (rp_Generation r) (rp_RequestId r) (rp_MapRevision r)
  ∧ (rp_Status r = Status_Failed ↔ rp_Failure r ≠ Failure_None).

Lemma increasing_checks prev l :
  increasing prev l → is_sorted l = true ∧ has_adjacent l = false.
Proof.
  revert prev. induction l as [|a [|b l] IH]; intros prev; [done..|]. intros (_ & Hab & Hl).
  destruct (IH a) as [Hs Ha]; [by split|].
  change (is_sorted (a :: b :: l)) with ((a <=? b) && is_sorted (b :: l)).
  change (has_adjacent (a :: b :: l)) with ((a =? b) || has_adjacent (b :: l)).
  rewrite Hs, Ha. split; b2p; lia.
Qed.

Definition identity_bytes (generation request revision : Z) : bytes :=
  be_encode 8 generation ++ be_encode 8 request ++ be_encode 8 revision.

Lemma Identity_spec g q v : identity_wf g q v → Identity g q v = Ok (identity_bytes g q v).
Proof.
  intros ((_ & ?) & (_ & ?) & (_ & ?)). unfold Identity.
  rewrite !(proj2 (Z.eqb_neq _ 0)) by done. cbn [orb].
  by rewrite !Delegation_Append64_be, <- !app_assoc.
Qed.

Lemma bytes_ok_identity g q v : bytes_ok (identity_bytes g q v).
Proof. repeat apply Forall_app_2; apply bytes_ok_be_encode. Qed.

Lemma identity_reads g q v rest :
  identity_wf g q v →
  let b := identity_bytes g q v ++ rest in
  Delegation_Read64 b 0 = Ok g ∧ Delegation_Read64 b 8 = Ok q ∧ Delegation_Read64 b 16 = Ok v.
Proof.
  intros ((Hg & _) & (Hq & _) & (Hv & _)) b. unfold b, identity_bytes.
  change Delegation_Read64 with Hosted_Read64. split_and!.
  - apply (Hosted_Read64_be [] g (be_encode 8 q ++ be_encode 8 v ++ rest)); [|done..].
    by rewrite <- !app_assoc.
  - apply (Hosted_Read64_be (be_encode 8 g) q (be_encode 8 v ++ rest)); [|done..].
    by rewrite <- !app_assoc.
  - apply (Hosted_Read64_be (be_encode 8 g ++ be_encode 8 q) v rest); [|prefix_len|done].
    by rewrite <- !app_assoc.
Qed.

Definition regions_bytes (l : list Z) : bytes := concat (map (be_encode 2) l).

Lemma regions_fold l b :
  fold_left (fun b region => b ++ [u8 (Z.shiftr region 8); u8 region]) l b = b ++ regions_bytes l.
Proof.
  revert b. induction l as [|r l IH]; intros b; cbn [fold_left]; [by rewrite app_nil_r|].
  rewrite IH. unfold regions_bytes. cbn [map concat be_encode]. by rewrite Z.shiftr_0_r, <- app_assoc.
Qed.

Lemma zlen_regions_bytes l : zlen (regions_bytes l) = 2 * zlen l.
Proof.
  unfold regions_bytes. induction l as [|r l IH]; [done|]. cbn [map concat].
  rewrite zlen_app, IH, zlen_cons, zlen_be_encode. lia.
Qed.

Lemma regions_loop_spec l hd index acc prev :
  Forall (in_width 16) l → increasing prev l → 0 <= prev →
  match last acc with Some r => r = prev | None => True end → zlen hd = 26 + index * 2 →
  regions_loop (length l) index (hd ++ regions_bytes l) acc = Ok (Some (acc ++ l)).
Proof.
  intros Hl. revert hd index acc prev.
  induction Hl as [|r l Hr Hl IH]; intros hd index acc prev Hinc Hprev Hlast Hhd.
  { simpl. by rewrite app_nil_r. }
  destruct Hinc as [Hpr Hinc]. cbn [length regions_loop].
  assert (Hosted_Read16 (hd ++ regions_bytes (r :: l)) (26 + index * 2) = Ok r) as Hrd.
  { by apply (Hosted_Read16_be hd r (regions_bytes l)). }
  unfold Hosted_Read16 in Hrd. cbv zeta.
  apply obind_Ok_inv in Hrd as (hi & -> & Hrd). apply obind_Ok_inv in Hrd as (lo & -> & [= Hrd]).
  cbn [obind]. rewrite Hrd, (proj2 (Z.eqb_neq r 0)) by lia. cbn [orb].
  assert (match last acc with Some r0 => r <=? r0 | None => false end = false) as ->.
  { destruct (last acc); [|done]. subst. b2p. lia. }
  change (regions_bytes (r :: l)) with (be_encode 2 r ++ regions_bytes l). rewrite app_assoc.
  rewrite (IH (hd ++ be_encode 2 r) (index + 1) (acc ++ [r]) r); [by rewrite <- app_assoc|..].
  - done.
  - lia.
  - by rewrite last_snoc.
  - prefix_len.
Qed.

Lemma regions_loop_safe todo index b acc :
  0 <= index → 26 + (index + Z.of_nat todo) * 2 <= zlen b → safe (regions_loop todo index b acc).
Proof.
  revert index acc. induction todo as [|todo IH]; intros index acc Hi Hl; cbn [regions_loop]; [done|].
  cbv zeta. apply safe_obind; [apply safe_rd; lia|intros hi _].
  apply safe_obind; [apply safe_rd; lia|intros lo _]. apply safe_if; [done|]. intros _.
  apply IH; lia.
Qed.

Lemma Action_of_value a : enum_cast DelegationActions (Action_value a) = Ok a.
Proof. by destruct a. Qed.
Lemma Status_of_value s : enum_cast DelegationStatuses (Status_value s) = Ok s.
Proof. by destruct s. Qed.
Lemma Failure_of_value f : enum_cast DelegationFailures (Failure_value f) = Ok f.
Proof. by destruct f. Qed.

Lemma reply_consistent s f :
  reply_inconsistent s f = false ↔ (s = Status_Failed ↔ f ≠ Failure_None).
Proof.
  unfold reply_inconsistent. rewrite negb_false_iff, Bool.eqb_true_iff.
  destruct (bool_decide_reflect (s = Status_Failed)), (bool_decide_reflect (f ≠ Failure_None));
    naive_solver.
Qed.

(** A delegation message: identity, two bytes, and the regions. *)
Lemma delegation_payload_reads g q v x y rest :
  let b := identity_bytes g q v ++ [x; y] ++ rest in
  zlen b = 26 + zlen rest ∧ rd b 24 = Ok x ∧ rd b 25 = Ok y.
Proof.
  intros b. unfold b. split_and!.
  - rewrite !zlen_app. change (zlen (identity_bytes g q v)) with 24.
    change (zlen [x; y]) with 2. lia.
  - rewrite rd_app_r by (change (zlen (identity_bytes g q v)) with 24; lia). done.
  - rewrite rd_app_r by (change (zlen (identity_bytes g q v)) with 24; lia). done.
Qed.

Lemma Request_roundtrip r :
  Request_wf r →
  ∃ f, EncodeDelegationRequest r = Ok f ∧ bytes_ok (fr_payload f)
    ∧ fr_type f = MessageType_Delegation ∧ DecodeDelegationRequest f = Ok (Some r).
Proof.
  intros (Hid & Hn & Hw & Hinc). destruct r as [g q v act regs]. simpl in *.
  destruct (increasing_checks _ _ Hinc) as [Hs Ha].
  unfold EncodeDelegationRequest. cbn [rq_Regions rq_Generation rq_RequestId rq_MapRevision rq_Action].
  rewrite Hs, Ha, (proj2 (Z.eqb_neq _ _)), (proj2 (Z.ltb_ge 255 _)) by lia.
  assert (match regs with front :: _ => front =? 0 | [] => false end = false) as ->.
  { destruct regs as [|a regs]; [done|]. destruct Hinc. b2p. lia. }
  assert ((Action_value Action_Commit <? Action_value act) = false) as -> by (by destruct act).
  cbn [negb orb]. rewrite Identity_spec by done. cbn [obind].
  rewrite regions_fold. eexists; split_and!; [done| |done|].
  { cbn [fr_payload]. apply Forall_app_2.
    - apply Forall_app_2; [apply Forall_app_2; [apply bytes_ok_identity|]|];
        forall_intro; apply u8_range.
    - unfold regions_bytes. clear. induction regs; cbn [map concat]; [done|].
      apply Forall_app_2; [apply bytes_ok_be_encode|done]. }
  unfold DecodeDelegationRequest. cbn [fr_payload fr_type]. rewrite <- !app_assoc. cbn [app].
  rewrite (wrap_id 8 (zlen regs)) by (split; lia).
  rewrite (wrap_id 8 (Action_value act)) by (by destruct act).
  destruct (delegation_payload_reads g q v (Action_value act) (zlen regs) (regions_bytes regs))
    as (Hz & H24 & H25). cbn [app] in *.
  destruct (identity_reads g q v (Action_value act :: zlen regs :: regions_bytes regs) Hid)
    as (Hg & Hq & Hv).
  set (b := identity_bytes g q v ++ _) in *. rewrite zlen_regions_bytes in Hz.
  rewrite Hz, H24, H25, Hg, Hq, Hv. rewrite (proj2 (Z.ltb_ge _ 26)) by lia.
  change (negb (MessageType_Delegation =? MessageType_Delegation)) with false. cbn [orb obind].
  assert ((Action_value Action_Commit <? Action_value act) = false) as -> by (by destruct act).
  replace (26 + 2 * zlen regs) with (26 + zlen regs * 2) by lia.
  rewrite Z.eqb_refl, (proj2 (Z.eqb_neq (zlen regs) 0)), (proj2 (Z.ltb_ge 255 _)) by lia.
  cbn [negb orb obind]. rewrite Action_of_value. cbn [obind].
  destruct Hid as ((_ & ?) & (_ & ?) & (_ & ?)). rewrite !(proj2 (Z.eqb_neq _ 0)) by done.
  cbn [orb]. unfold zlen at 1. rewrite Nat2Z.id.
  unfold b. change (Action_value act :: zlen regs :: regions_bytes regs)
    with ([Action_value act; zlen regs] ++ regions_bytes regs). rewrite app_assoc.
  by rewrite (regions_loop_spec regs _ 0 [] 0).
Qed.

Lemma Reply_roundtrip r :
  Reply_wf r →
  ∃ f, EncodeDelegationReply r = Ok f ∧ bytes_ok (fr_payload f)
    ∧ fr_type f = MessageType_DelegationReply ∧ DecodeDelegationReply f = Ok (Some r).
Proof.
  intros [Hid Hcons]. destruct r as [g q v st fl]. simpl in *.
  apply reply_consistent in Hcons. unfold EncodeDelegationReply.
  cbn [rp_Status rp_Failure rp_Generation rp_RequestId rp_MapRevision].
  rewrite Hcons.
  assert ((Status_value Status_Failed <? Status_value st) = false) as Est by (by destruct st).
  assert ((Failure_value Failure_LeaseExpired <? Failure_value fl) = false) as Efl by (by destruct fl).
  rewrite Est, Efl. cbn [orb]. rewrite Identity_spec by done. cbn [obind].
  eexists; split_and!; [done| |done|].
  { cbn [fr_payload]. apply Forall_app_2; [apply Forall_app_2; [apply bytes_ok_identity|]|];
      forall_intro; apply u8_range. }
  unfold DecodeDelegationReply. cbn [fr_payload fr_type]. rewrite <- !app_assoc. cbn [app].
  rewrite (wrap_id 8 (Status_value st)) by (by destruct st).
  rewrite (wrap_id 8 (Failure_value fl)) by (by destruct fl).
  destruct (delegation_payload_reads g q v (Status_value st) (Failure_value fl) [])
    as (Hz & H24 & H25). cbn [app] in *.
  destruct (identity_reads g q v [Status_value st; Failure_value fl] Hid) as (Hg & Hq & Hv).
  rewrite Hz, H24, H25, Hg, Hq, Hv. change (zlen []) with 0. cbn [obind].
  change (negb (MessageType_DelegationReply =? MessageType_DelegationReply)) with false.
  change (negb (26 + 0 =? 26)) with false. cbn [orb]. rewrite Est, Efl.
  rewrite Status_of_value, Failure_of_value. cbn [obind].
  destruct Hid as ((_ & ?) & (_ & ?) & (_ & ?)). rewrite !(proj2 (Z.eqb_neq _ 0)) by done.
  cbn [orb]. by rewrite Hcons.
Qed.

Lemma Delegation_Read64_width b offset v :
  bytes_ok b → Delegation_Read64 b offset = Ok v → in_width 64 v.
Proof.
  intros Hok. unfold Delegation_Read64.
  assert (∀ todo offset acc, in_width 64 acc → Read64_loop todo b offset acc = Ok v → in_width 64 v)
    as H; [|by apply H].
  clear offset. intros todo. induction todo as [|todo IH]; intros offset acc Ha; cbn [Read64_loop].
  { by intros [= <-]. }
  intros (x & Hx & H)%obind_Ok_inv. eapply IH; [|exact H].
  apply in_width_lor; [done|by apply wrap_range|].
  pose proof (bytes_ok_rd _ _ _ Hok Hx) as [? ?]. split; [done|]. etrans; [done|]. done.
Qed.

(** What the region loop accepts is in increasing order after what it has. *)
Lemma regions_loop_increasing todo index b acc l prev :
  bytes_ok b → match last acc with Some r => r = prev | None => prev = 0 end → 0 <= prev →
  regions_loop todo index b acc = Ok (Some l) →
  ∃ rest, l = acc ++ rest ∧ length rest = todo ∧ increasing prev rest ∧ Forall (in_width 16) rest.
Proof.
  intros Hok. revert index acc prev.
  induction todo as [|todo IH]; intros index acc prev Hlast Hprev; cbn [regions_loop].
  { intros [= <-]. exists []. by rewrite app_nil_r. }
  cbv zeta. intros (hi & Hhi & (lo & Hlo & H)%obind_Ok_inv)%obind_Ok_inv.
  destruct (_ || _) eqn:E in H; [done|]. apply orb_false_iff in E as [E0 El]. b2p.
  set (region := u16 (Z.lor (Z.shiftl hi 8) lo)) in *.
  assert (in_width 16 region) as Hw by (by apply wrap_range).
  assert (prev < region) as Hlt.
  { destruct (last acc); subst; b2p; [done|]. unfold in_width in Hw. lia. }
  destruct (IH (index + 1) (acc ++ [region]) region) as (rest & -> & Hlen & Hinc & HF);
    [by rewrite last_snoc|lia|done|].
  exists (region :: rest). rewrite <- app_assoc. simpl. split_and!; try done; [by rewrite Hlen|].
  by apply Forall_cons_2.
Qed.

Lemma DecodeDelegationRequest_wf f r :
  bytes_ok (fr_payload f) → DecodeDelegationRequest f = Ok (Some r) → Request_wf r.
Proof.
  intros Hok H. unfold DecodeDelegationRequest in H. ok_inv H. b2p.
  destruct a5 as [regs|]; [|done]. injection H as <-.
  pose proof (bytes_ok_rd _ _ _ Hok Ha0) as [? ?].
  destruct (regions_loop_increasing _ _ _ [] _ 0 Hok eq_refl ltac:(lia) Ha5)
    as (rest & Hr & Hlen & Hinc & HF). simpl in Hr. subst regs.
  assert (zlen rest = a0) by (unfold zlen; lia). split_and!; simpl; try done; try lia.
  split_and!; try (by eapply Delegation_Read64_width); tauto.
Qed.

Lemma DecodeDelegationReply_wf f r :
  bytes_ok (fr_payload f) → DecodeDelegationReply f = Ok (Some r) → Reply_wf r.
Proof.
  intros Hok H. unfold DecodeDelegationReply in H. ok_inv H. injection H as <-.
  apply orb_false_iff in E2 as [E2 Hc]. apply reply_consistent in Hc. b2p.
  split; [|done]. split_and!; simpl; try (by eapply Delegation_Read64_width); tauto.
Qed.

Lemma safe_Delegation_Read64 b o : 0 <= o ∧ o + 8 <= zlen b → safe (Delegation_Read64 b o).
Proof. apply safe_Hosted_Read64. Qed.

Lemma DecodeDelegationRequest_safe f :
  bytes_ok (fr_payload f) → safe (DecodeDelegationRequest f).
Proof.
  intros Hok. unfold DecodeDelegationRequest. apply safe_if; [done|]. intros H. b2p.
  apply safe_obind; [apply safe_rd; lia|intros act Hact].
  apply safe_if; [done|]. intros Ha. b2p.
  apply safe_obind; [apply safe_rd; lia|intros count Hcount].
  apply safe_if; [done|]. intros Hc. b2p.
  do 3 (apply safe_obind; [apply safe_Delegation_Read64; lia|intros ? _]).
  pose proof (bytes_ok_rd _ _ _ Hok Hact) as [? _]. simpl in Ha.
  pose proof (bytes_ok_rd _ _ _ Hok Hcount) as [? _].
  apply safe_obind; [apply safe_rd; change (zlen DelegationActions) with 4; lia|intros ? _].
  apply safe_if; [done|]. intros _. apply safe_obind; [|done].
  apply regions_loop_safe; lia.
Qed.

Lemma DecodeDelegationReply_safe f : bytes_ok (fr_payload f) → safe (DecodeDelegationReply f).
Proof.
  intros Hok. unfold DecodeDelegationReply. apply safe_if; [done|]. intros H. b2p.
  apply safe_obind; [apply safe_rd; lia|intros st Hst]. apply safe_if; [done|]. intros Hs. b2p.
  apply safe_obind; [apply safe_rd; lia|intros fl Hfl]. apply safe_if; [done|]. intros Hf. b2p.
  do 3 (apply safe_obind; [apply safe_Delegation_Read64; lia|intros ? _]).
  pose proof (bytes_ok_rd _ _ _ Hok Hst) as [? _]. pose proof (bytes_ok_rd _ _ _ Hok Hfl) as [? _].
  simpl in Hs, Hf.
  apply safe_obind; [apply safe_rd; change (zlen DelegationStatuses) with 5; lia|intros ? _].
  apply safe_obind; [apply safe_rd; change (zlen DelegationFailures) with 6; lia|intros ? _].
  by apply safe_if.
Qed.

(** The decoders of delegation messages report a malformed frame as [None]; they
    do not throw. *)
Definition nothrow {A} (m : outcome A) : Prop := ∀ e, m ≠ Throw e.

Lemma nothrow_obind {A B} (m : outcome A) (k : A → outcome B) :
  nothrow m → (∀ a, nothrow (k a)) → nothrow (obind m k).
Proof. intros Hm Hk e. destruct m; simpl; [apply Hk|by destruct (Hm e0)|done]. Qed.

Lemma nothrow_rd {A} (l : list A) i : nothrow (rd l i).
Proof. intros e. unfold rd. ifb; [done|]. by destruct (l !! Z.to_nat i). Qed.

Lemma nothrow_Read64_loop todo b offset v : nothrow (Read64_loop todo b offset v).
Proof.
  revert offset v. induction todo as [|todo IH]; intros offset v; cbn [Read64_loop]; [done|].
  apply nothrow_obind; [apply nothrow_rd|intros; apply IH].
Qed.

Lemma nothrow_regions_loop todo index b acc : nothrow (regions_loop todo index b acc).
Proof.
  revert index acc. induction todo as [|todo IH]; intros index acc; cbn [regions_loop]; [done|].
  cbv zeta. do 2 (apply nothrow_obind; [apply nothrow_rd|intros ?]). ifb; [done|]. apply IH.
Qed.

Ltac nothrow_auto :=
  repeat first
    [ done
    | apply nothrow_rd
    | apply nothrow_Read64_loop
    | apply nothrow_regions_loop
    | apply nothrow_obind; [|intros ?]
    | ifb ].

Lemma DecodeDelegationRequest_nothrow f : nothrow (DecodeDelegationRequest f).
Proof. unfold DecodeDelegationRequest, enum_cast, Delegation_Read64. nothrow_auto. Qed.

Lemma DecodeDelegationReply_nothrow f : nothrow (DecodeDelegationReply f).
Proof. unfold DecodeDelegationReply, enum_cast, Delegation_Read64. nothrow_auto. Qed.

#[export] Instance DelegationRequest_Codec :
  Codec (payload_bytes EncodeDelegationRequest)
    (fun b => DecodeDelegationRequest {| fr_type := MessageType_Delegation; fr_payload := b |})
    Request_wf.
Proof.
  split; [|intros b Hb; by apply DecodeDelegationRequest_safe].
  intros r (f & Hf & Hok & Hty & Hd)%Request_roundtrip. unfold payload_bytes. rewrite Hf.
  exists (fr_payload f). destruct f. simpl in *. by rewrite <- Hty.
Qed.

#[export] Instance DelegationReply_Codec :
  Codec (payload_bytes EncodeDelegationReply)
    (fun b => DecodeDelegationReply {| fr_type := MessageType_DelegationReply; fr_payload := b |})
    Reply_wf.
Proof.
  split; [|intros b Hb; by apply DecodeDelegationReply_safe].
  intros r (f & Hf & Hok & Hty & Hd)%Reply_roundtrip. unfold payload_bytes. rewrite Hf.
  exists (fr_payload f). destruct f. simpl in *. by rewrite <- Hty.
Qed.

#[export] Instance MapAcknowledgement_Codec :
  Codec (payload_bytes EncodeMapAcknowledgement)
    (fun b => DecodeMapAcknowledgement {| fr_type := MessageType_NetworkMapAck; fr_payload := b |})
    (fun revision => in_width 64 revision ∧ revision ≠ 0).
Proof.
  split.
  - intros v [Hv H0]. unfold payload_bytes, EncodeMapAcknowledgement.
    rewrite (proj2 (Z.eqb_neq _ _)) by done. cbn [obind fr_payload].
    rewrite Delegation_Append64_be. exists (be_encode 8 v).
    split_and!; [done|apply bytes_ok_be_encode|].
    unfold DecodeMapAcknowledgement. cbn [fr_payload fr_type].
    rewrite zlen_be_encode. cbn [orb]. change (negb _ || negb _) with false. cbn match.
    change Delegation_Read64 with Hosted_Read64.
    rewrite (Hosted_Read64_be [] v []); [|by rewrite app_nil_r|done..]. cbn [obind].
    by rewrite (proj2 (Z.eqb_neq _ _)).
  - intros b _. unfold DecodeMapAcknowledgement. cbn [fr_payload fr_type].
    apply safe_if; [done|]. intros H. b2p. apply safe_obind; [|done].
    apply safe_Delegation_Read64. lia.
Qed.

(** ** Messages over a connection *)

(** Any message with a [Codec], framed under a known type and sent over a
    connection that cuts it into chunks in any way, reaches the other side as one
    frame of that type whose payload decodes to the value that was sent. *)
Theorem message_over_connection {A} (enc : A → outcome bytes) (dec : bytes → outcome (option A))
    (wf : A → Prop) `{!Codec enc dec wf} (type B : Z) (a : A) (chunks : list bytes) :
  wf a → IsKnownType type = true → type ≠ MessageType_Fragment →
  0 < B <= Frame_MaximumPayloadSize →
  (∀ b, enc a = Ok b → zlen b + B <= Frame_MaximumPayloadSize
        ∧ concat chunks = frame_bytes {| fr_type := type; fr_payload := b |}) →
  Forall (fun c => 0 < zlen c <= B) chunks →
  ∃ f d, Decoder_ReadAvailable (map Some chunks ++ [None]) B Decoder_new
         = (Ok ([f], WouldBlock), d, [])
    ∧ fr_type f = type ∧ dec (fr_payload f) = Ok (Some a) ∧ Decoder_BufferedBytes d = 0.
Proof.
  intros Hwf Hk Hnf HB Henc Hc. destruct (codec_roundtrip a Hwf) as (b & Hb & _ & Hd).
  destruct (Henc b Hb) as [Hsz Hcat].
  destruct (ReadAvailable_loop_spec B [{| fr_type := type; fr_payload := b |}]
    Decoder_new [] chunks []) as (d & Hrun & Hdir); try done.
  { apply Forall_cons_2; [|done]. split_and!; [split; simpl; [done|lia]|done|done]. }
  { simpl. rewrite Hcat. unfold frames_bytes. simpl. by rewrite app_nil_r. }
  exists {| fr_type := type; fr_payload := b |}, d. split_and!; try done.
  - unfold Decoder_ReadAvailable. by rewrite (proj2 (Z.eqb_neq _ _)), Hrun by lia.
  - by rewrite (direct_BufferedBytes _ _ Hdir).
Qed.

Definition sample_packet : PeerPacket :=
  {| pp_peer := replicate 32 5; pp_payload := [1; 2; 3]; pp_control := true; pp_disco := false;
     pp_endpointAddress := 0; pp_endpointPort := 0;
     pp_derpRoute := Some {| dr_token := 77; dr_region := 901 |} |}.

Lemma sample_packet_wf : PeerPacket_wf sample_packet.
Proof.
  split_and!; try done; try (forall_intro; by split); try by split.
  split; [done|]. forall_intro; by split.
Qed.

Lemma message_over_connection_witness :
  ∃ f d, Decoder_ReadAvailable
           (map Some [frame_bytes {| fr_type := 5; fr_payload := replicate 32 5
              ++ [9] ++ be_encode 8 77 ++ be_encode 2 901 ++ [1; 2; 3] |}] ++ [None]) 100 Decoder_new
         = (Ok ([f], WouldBlock), d, [])
    ∧ fr_type f = 5
    ∧ throwing ProtocolCodec_DecodePeerPacket (fr_payload f) = Ok (Some sample_packet)
    ∧ Decoder_BufferedBytes d = 0.
Proof.
  apply (message_over_connection ProtocolCodec_EncodePeerPacket
    (throwing ProtocolCodec_DecodePeerPacket) PeerPacket_wf).
  - apply sample_packet_wf.
  - done.
  - done.
  - done.
  - intros b [= <-]. split; [done|]. reflexivity.
  - by forall_intro.
Defined.

(** The peer packets a relay and its client exchange.  Encoding a packet
    with a payload and at most one route succeeds and decoding gives it back, and
    decoding whatever a peer sends either throws or returns; it has no undefined
    behaviour. *)
Theorem PeerPacket_codec :
  (∀ p, PeerPacket_wf p →
     ∃ b, ProtocolCodec_EncodePeerPacket p = Ok b ∧ bytes_ok b
       ∧ ProtocolCodec_DecodePeerPacket b = Ok p)
  ∧ (∀ b, safe (ProtocolCodec_DecodePeerPacket b)).
Proof.
  split; [apply PeerPacket_roundtrip|]. intros b.
  pose proof (DecodePeerPacket_safe b) as H. unfold throwing in H.
  by destruct (ProtocolCodec_DecodePeerPacket b).
Qed.

(** The delegation messages.  A request with a nonzero identity and nonzero
    regions in increasing order, and a reply that names a failure exactly when it
    failed, survive the wire; and conversely whatever frame arrives, the decoders
    return, and what they return is such a request or reply. *)
Theorem Delegation_codec :
  (∀ r, Request_wf r →
     ∃ f, EncodeDelegationRequest r = Ok f ∧ DecodeDelegationRequest f = Ok (Some r))
  ∧ (∀ r, Reply_wf r →
     ∃ f, EncodeDelegationReply r = Ok f ∧ DecodeDelegationReply f = Ok (Some r))
  ∧ (∀ f, bytes_ok (fr_payload f) →
     (∃ o, DecodeDelegationRequest f = Ok o ∧ ∀ r, o = Some r → Request_wf r)
     ∧ (∃ o, DecodeDelegationReply f = Ok o ∧ ∀ r, o = Some r → Reply_wf r)).
Proof.
  split_and!.
  - intros r (f & ? & _ & _ & ?)%Request_roundtrip. by exists f.
  - intros r (f & ? & _ & _ & ?)%Reply_roundtrip. by exists f.
  - intros f Hok. split.
    + pose proof (DecodeDelegationRequest_safe f Hok) as Hs.
      pose proof (DecodeDelegationRequest_nothrow f) as Ht.
      destruct (DecodeDelegationRequest f) as [o|e|] eqn:E; [|by destruct (Ht e)|by destruct Hs].
      exists o. split; [done|]. intros r ->. by eapply DecodeDelegationRequest_wf.
    + pose proof (DecodeDelegationReply_safe f Hok) as Hs.
      pose proof (DecodeDelegationReply_nothrow f) as Ht.
      destruct (DecodeDelegationReply f) as [o|e|] eqn:E; [|by destruct (Ht e)|by destruct Hs].
      exists o. split; [done|]. intros r ->. by eapply DecodeDelegationReply_wf.
Qed.

Lemma PeerPacket_codec_witness :
  ∃ b, ProtocolCodec_EncodePeerPacket sample_packet = Ok b ∧ bytes_ok b
    ∧ ProtocolCodec_DecodePeerPacket b = Ok sample_packet.
Proof. apply (proj1 PeerPacket_codec). apply sample_packet_wf. Defined.

Definition sample_request : DelegationRequest :=
  {| rq_Generation := 3; rq_RequestId := 4; rq_MapRevision := 1; rq_Action := Action_Release;
     rq_Regions := [1; 9; 900] |}.

Lemma Delegation_codec_witness :
  ∃ f, EncodeDelegationRequest sample_request = Ok f
    ∧ DecodeDelegationRequest f = Ok (Some sample_request).
Proof.
  apply (proj1 Delegation_codec). split_and!; try done; try by split_and!.
  forall_intro; by split.
Defined.
