(* ===== verification/DerpClient.v ===== *)
(** * The DERP client

    src/core/derp/Client.cpp over the stream interface of
    include/tailgate/base/ByteStream.h.  A stream is any type with the operations
    of the class [ByteStream]; what an implementation owes its callers is the
    class [ByteStreamLaws], against which the client's theorems are proved.  A
    loop that runs out of fuel is undefined behaviour here, so that the absence of
    undefined behaviour includes that the fuel suffices. *)

From S2P Require Import Prelude Text Net Packet.

(** ** Streams *)

Class ByteStream (S : Type) := {
  st_TryWriteSome : bytes → eff S (option Z);
  st_TryReadSome : Z → eff S (option bytes);
  st_HasBufferedInput : S → bool;
  (** The bytes that the stream has taken and given out so far. *)
  st_sent : S → bytes;
  st_received : S → bytes
}.

(** A write takes a prefix of the bytes offered, a read gives at most the bytes
    asked for, and a call that throws does neither. *)
Class ByteStreamLaws (S : Type) `{!ByteStream S} : Prop := {
  st_write_law : ∀ data s,
    wp (st_TryWriteSome data) (fun r s' => st_received s' = st_received s ∧
      match r with
      | Ok (Some n) => 0 <= n <= zlen data ∧ st_sent s' = st_sent s ++ take (Z.to_nat n) data
      | Ok None | Throw _ => st_sent s' = st_sent s
      | UB => False
      end) s;
  st_read_law : ∀ maximum s,
    wp (st_TryReadSome maximum) (fun r s' => st_sent s' = st_sent s ∧
      match r with
      | Ok (Some b) => zlen b <= Z.max 0 maximum ∧ bytes_ok b ∧ st_received s' = st_received s ++ b
      | Ok None | Throw _ => st_received s' = st_received s
      | UB => False
      end) s
}.

Section client.
  Context {S : Type} `{!ByteStream S}.

(** The default methods of [ByteStream]. *)
Fixpoint WriteAll_loop (fuel : nat) (data : bytes) (offset : Z) : eff S unit :=
  match fuel with
  | O => elift UB
  | Datatypes.S fuel' =>
      if offset <? zlen data then
        let* rest := elift (slice data offset (zlen data)) in
        let* written := st_TryWriteSome rest in
        match written with
        | None => ethrow (RuntimeError "Stream would block.")
        | Some n =>
            if n =? 0 then ethrow (RuntimeError "Stream closed during write.")
            else WriteAll_loop fuel' data (offset + n)
        end
      else eret tt
  end.

Definition ByteStream_WriteAll (data : bytes) : eff S unit :=
  WriteAll_loop (Datatypes.S (length data)) data 0.

Definition ByteStream_ReadSome (maxBytes : Z) : eff S bytes :=
  let* result := st_TryReadSome maxBytes in
  match result with
  | None => ethrow (RuntimeError "Stream would block.")
  | Some b => eret b
  end.

Fixpoint ReadExact_loop (fuel : nat) (byteCount : Z) (result : bytes) : eff S bytes :=
  match fuel with
  | O => elift UB
  | Datatypes.S fuel' =>
      if zlen result <? byteCount then
        let* part := ByteStream_ReadSome (byteCount - zlen result) in
        if bool_decide (part = [])
        then ethrow (RuntimeError "Stream closed before enough bytes were read.")
        else ReadExact_loop fuel' byteCount (result ++ part)
      else eret result
  end.

Definition ByteStream_ReadExact (byteCount : Z) : eff S bytes :=
  ReadExact_loop (Datatypes.S (Z.to_nat byteCount)) byteCount [].

(** ** The client *)

Definition ServerKeyFrame : Z := 1.
Definition ClientInfoFrame : Z := 2.
Definition ServerInfoFrame : Z := 3.
Definition SendPacketFrame : Z := 4.
Definition ReceivePacketFrame : Z := 5.
Definition KeepAliveFrame : Z := 6.
Definition PreferredFrame : Z := 7.
Definition PongFrame : Z := 19.
Definition PingFrame : Z := 18.
Definition Derp_MaximumFrameSize : Z := Z.shiftl 1 20.
Definition FrameHeaderSize : Z := 5.
Definition MaximumHttpHeaderSize : Z := 8192.
Definition ServerGreetingSize : Z := 40.
Definition MaximumReceiveBatchFrames : nat := 256.
Definition DerpMagic : bytes := [68; 69; 82; 80; 240; 159; 148; 145].
Definition KeySize : Z := 32.
Definition crypto_box_NONCEBYTES : Z := 24.
Definition crypto_box_MACBYTES : Z := 16.

Record DerpPacket := { dp_Source : bytes; dp_Payload : bytes }.

Record DerpClient := {
  cl_stream : S;
  cl_ServerKey : bytes;
  cl_ReceiveBuffer : bytes;
  cl_SendBuffer : bytes;
  cl_SendOffset : Z
}.

Definition DerpClient_new (stream : S) : DerpClient :=
  {| cl_stream := stream; cl_ServerKey := replicate 32 0; cl_ReceiveBuffer := [];
     cl_SendBuffer := []; cl_SendOffset := 0 |}.

Definition set_stream (s : S) (c : DerpClient) : DerpClient :=
  {| cl_stream := s; cl_ServerKey := cl_ServerKey c; cl_ReceiveBuffer := cl_ReceiveBuffer c;
     cl_SendBuffer := cl_SendBuffer c; cl_SendOffset := cl_SendOffset c |}.

Definition on_stream {A} (m : eff S A) : eff DerpClient A := fun c =>
  let '(r, s) := m (cl_stream c) in (r, set_stream s c).

Definition set_send (b : bytes) (offset : Z) (c : DerpClient) : DerpClient :=
  {| cl_stream := cl_stream c; cl_ServerKey := cl_ServerKey c;
     cl_ReceiveBuffer := cl_ReceiveBuffer c; cl_SendBuffer := b; cl_SendOffset := offset |}.

Definition set_receive (b : bytes) (c : DerpClient) : DerpClient :=
  {| cl_stream := cl_stream c; cl_ServerKey := cl_ServerKey c; cl_ReceiveBuffer := b;
     cl_SendBuffer := cl_SendBuffer c; cl_SendOffset := cl_SendOffset c |}.

Definition set_server_key (k : bytes) (c : DerpClient) : DerpClient :=
  {| cl_stream := cl_stream c; cl_ServerKey := k; cl_ReceiveBuffer := cl_ReceiveBuffer c;
     cl_SendBuffer := cl_SendBuffer c; cl_SendOffset := cl_SendOffset c |}.

(** The loop of [Flush]: whether it ended with nothing left to send. *)
Fixpoint Flush_loop (fuel : nat) : eff DerpClient bool :=
  match fuel with
  | O => elift UB
  | Datatypes.S fuel' =>
      let* c := eget in
      if cl_SendOffset c <? zlen (cl_SendBuffer c) then
        let* data := elift (slice (cl_SendBuffer c) (cl_SendOffset c) (zlen (cl_SendBuffer c))) in
        let* written := on_stream (st_TryWriteSome data) in
        match written with
        | None => eret false
        | Some n =>
            if n =? 0 then ethrow (RuntimeError "DERP stream closed during write.") else
            emod (fun c => set_send (cl_SendBuffer c) (cl_SendOffset c + n) c) ;;*
            Flush_loop fuel'
        end
      else eret true
  end.

Definition DerpClient_Flush : eff DerpClient unit :=
  let* c := eget in
  let* drained := Flush_loop (Datatypes.S (Z.to_nat (zlen (cl_SendBuffer c) - cl_SendOffset c))) in
  if drained then emod (set_send [] 0) else eret tt.

Definition DerpClient_HasPendingOutput (c : DerpClient) : bool :=
  cl_SendOffset c <? zlen (cl_SendBuffer c).

Definition derp_header (type size : Z) : bytes :=
  [type; u8 (Z.shiftr size 24); u8 (Z.shiftr size 16); u8 (Z.shiftr size 8); u8 size].

Definition DerpClient_WriteFrame (type : Z) (payload prefix : bytes) : eff DerpClient unit :=
  if (Derp_MaximumFrameSize <? zlen prefix)
     || (Derp_MaximumFrameSize - zlen prefix <? zlen payload)
  then ethrow (RuntimeError "DERP frame is too large.") else
  let size := u32 (zlen prefix + zlen payload) in
  emod (fun c => set_send (cl_SendBuffer c ++ derp_header type size) (cl_SendOffset c) c) ;;*
  emod (fun c => set_send (cl_SendBuffer c ++ prefix) (cl_SendOffset c) c) ;;*
  emod (fun c => set_send (cl_SendBuffer c ++ payload) (cl_SendOffset c) c) ;;*
  DerpClient_Flush.

Definition DerpClient_Send (destination packet : bytes) : eff DerpClient unit :=
  DerpClient_WriteFrame SendPacketFrame packet destination.

Definition DerpClient_SendPing (payload : bytes) : eff DerpClient unit :=
  DerpClient_WriteFrame PingFrame payload [].

Definition DerpClient_SetPreferred (preferred : bool) : eff DerpClient unit :=
  DerpClient_WriteFrame PreferredFrame [if preferred then 1 else 0] [].

(** The size field of a frame header. *)
Definition frame_size (b : bytes) : outcome Z :=
  let! b1 := rd b 1 in
  let! b2 := rd b 2 in
  let! b3 := rd b 3 in
  let! b4 := rd b 4 in
  Ok (Z.lor (Z.lor (Z.lor (u32 (Z.shiftl b1 24)) (u32 (Z.shiftl b2 16))) (u32 (Z.shiftl b3 8))) b4).

Definition DerpClient_ReadFrame : eff DerpClient (Z * bytes) :=
  let* header := on_stream (ByteStream_ReadExact FrameHeaderSize) in
  let* size := elift (frame_size header) in
  if Derp_MaximumFrameSize <? size
  then ethrow (RuntimeError "DERP frame exceeds the protocol limit.") else
  let* type := elift (rd header 0) in
  let* payload := on_stream (ByteStream_ReadExact size) in
  eret (type, payload).

(** The packet of a [ReceivePacket] payload. *)
Definition derp_packet_of (payload : bytes) : outcome DerpPacket :=
  let! source := slice payload 0 KeySize in
  let! rest := slice payload KeySize (zlen payload) in
  Ok {| dp_Source := source; dp_Payload := rest |}.

(** [Receive] blocks until a packet arrives; the fuel bounds the frames it skips. *)
Fixpoint DerpClient_Receive (fuel : nat) : eff DerpClient (option DerpPacket) :=
  match fuel with
  | O => eret None
  | Datatypes.S fuel' =>
      let* (type, payload) := DerpClient_ReadFrame in
      if (type =? ReceivePacketFrame) && (KeySize <=? zlen payload) then
        let* packet := elift (derp_packet_of payload) in eret (Some packet)
      else if type =? PingFrame then
        DerpClient_WriteFrame PongFrame payload [] ;;* DerpClient_Receive fuel'
      else DerpClient_Receive fuel'
  end.

Definition hasCompleteFrame (b : bytes) : outcome bool :=
  if zlen b <? FrameHeaderSize then Ok false else
  let! size := frame_size b in
  Ok (FrameHeaderSize + size <=? zlen b).

Definition DerpClient_ReceiveAvailable : eff DerpClient (option DerpPacket) :=
  let* c := eget in
  let* complete := elift (hasCompleteFrame (cl_ReceiveBuffer c)) in
  let* stop :=
    (if complete then eret false else
     let* available := on_stream (st_TryReadSome Derp_MaximumFrameSize) in
     match available with
     | None => eret true
     | Some data =>
         if bool_decide (data = []) then ethrow (RuntimeError "DERP stream closed.") else
         emod (fun c => set_receive (cl_ReceiveBuffer c ++ data) c) ;;* eret false
     end) in
  if (stop : bool) then eret None else
  let* c := eget in
  let b := cl_ReceiveBuffer c in
  if zlen b <? FrameHeaderSize then eret None else
  let* size := elift (frame_size b) in
  if Derp_MaximumFrameSize <? size
  then ethrow (RuntimeError "DERP frame exceeds the protocol limit.") else
  if zlen b <? FrameHeaderSize + size then eret None else
  let* type := elift (rd b 0) in
  let* payload := elift (slice b FrameHeaderSize (FrameHeaderSize + size)) in
  let* rest := elift (slice b (FrameHeaderSize + size) (zlen b)) in
  emod (set_receive rest) ;;*
  if type =? PingFrame then DerpClient_WriteFrame PongFrame payload [] ;;* eret None else
  if negb (type =? ReceivePacketFrame) || (zlen payload <? KeySize) then eret None else
  let* packet := elift (derp_packet_of payload) in eret (Some packet).

(** One iteration of the batch loop: a frame is consumed, or more bytes are read,
    or the loop breaks. *)
Definition batch_frame (b : bytes) (size : Z) (packets : list DerpPacket)
    : eff DerpClient (list DerpPacket) :=
  let* type := elift (rd b 0) in
  let* payload := elift (slice b FrameHeaderSize (FrameHeaderSize + size)) in
  let* rest := elift (slice b (FrameHeaderSize + size) (zlen b)) in
  emod (set_receive rest) ;;*
  if type =? PingFrame then DerpClient_WriteFrame PongFrame payload [] ;;* eret packets
  else if (type =? ReceivePacketFrame) && (KeySize <=? zlen payload) then
    let* packet := elift (derp_packet_of payload) in eret (packets ++ [packet])
  else eret packets.

Fixpoint batch_loop (iterations : nat) (packets : list DerpPacket) : eff DerpClient (list DerpPacket) :=
  match iterations with
  | O => eret packets
  | Datatypes.S iterations' =>
      let* c := eget in
      let b := cl_ReceiveBuffer c in
      let* complete :=
        (if FrameHeaderSize <=? zlen b then
           let* size := elift (frame_size b) in
           if Derp_MaximumFrameSize <? size
           then ethrow (RuntimeError "DERP frame exceeds the protocol limit.")
           else eret (if FrameHeaderSize + size <=? zlen b then Some size else None)
         else eret None) in
      match complete with
      | Some size =>
          let* packets := batch_frame b size packets in batch_loop iterations' packets
      | None =>
          let* available := on_stream (st_TryReadSome (u64 (Derp_MaximumFrameSize - zlen b))) in
          match available with
          | None => eret packets
          | Some data =>
              if bool_decide (data = []) then ethrow (RuntimeError "DERP stream closed.") else
              emod (fun c => set_receive (cl_ReceiveBuffer c ++ data) c) ;;*
              batch_loop iterations' packets
          end
      end
  end.

Definition DerpClient_ReceiveAvailableBatch : eff DerpClient (list DerpPacket) :=
  batch_loop MaximumReceiveBatchFrames [].

Definition DerpClient_HasBufferedInput (c : DerpClient) : outcome bool :=
  let! complete := hasCompleteFrame (cl_ReceiveBuffer c) in
  Ok (complete || st_HasBufferedInput (cl_stream c)).

(** *** The handshake *)

(** [payload = publicKey, nonce, ciphertext], where [box] is [crypto_box_easy]. *)
Definition DerpClient_BuildClientInfo (box : bytes → bytes → option bytes) (nonce publicKey serverKey : bytes)
    : outcome bytes :=
  match box nonce serverKey with
  | None => Throw (RuntimeError "DERP client authentication encryption failed.")
  | Some ciphertext => Ok (publicKey ++ nonce ++ ciphertext)
  end.

Fixpoint starts_with (prefix l : bytes) : bool :=
  match prefix, l with
  | [], _ => true
  | x :: prefix', y :: l' => (x =? y) && starts_with prefix' l'
  | _, [] => false
  end.

(** [response.find("\r\n\r\n") != npos] *)
Fixpoint contains_blank_line (l : bytes) : bool :=
  starts_with [13; 10; 13; 10] l || match l with [] => false | _ :: l' => contains_blank_line l' end.

Fixpoint response_loop (fuel : nat) (response : bytes) : eff DerpClient bytes :=
  match fuel with
  | O => elift UB
  | Datatypes.S fuel' =>
      if contains_blank_line response then eret response else
      let* byte := on_stream (ByteStream_ReadExact 1) in
      let* b := elift (rd byte 0) in
      let response := response ++ [b] in
      if MaximumHttpHeaderSize <? zlen response
      then ethrow (RuntimeError "DERP HTTP response headers are too large.")
      else response_loop fuel' response
  end.

(** [authenticate] is the configured [Authenticator], or [BuildClientInfo] when
    there is none; [opens], present in the latter case, is whether
    [crypto_box_open_easy] opens the server's information. *)
Definition DerpClient_Connect (request : bytes) (authenticate : bytes → outcome bytes)
    (opens : option (bytes → bytes → bool)) : eff DerpClient unit :=
  on_stream (ByteStream_WriteAll request) ;;*
  let* response := response_loop (Z.to_nat MaximumHttpHeaderSize + 2) [] in
  if negb (starts_with [72; 84; 84; 80; 47; 49; 46; 49; 32; 49; 48; 49] response)
  then ethrow (RuntimeError "DERP HTTP upgrade was rejected.") else
  let* (type, greeting) := DerpClient_ReadFrame in
  if negb (type =? ServerKeyFrame) || (zlen greeting <? ServerGreetingSize)
     || negb (starts_with DerpMagic greeting)
  then ethrow (RuntimeError "Invalid DERP server greeting.") else
  let* key := elift (slice greeting 8 40) in
  emod (set_server_key key) ;;*
  let* payload := elift (authenticate key) in
  if zlen payload <? KeySize + crypto_box_NONCEBYTES + crypto_box_MACBYTES
  then ethrow (RuntimeError "DERP authenticator returned an invalid ClientInfo envelope.") else
  DerpClient_WriteFrame ClientInfoFrame payload [] ;;*
  let* (type, info) := DerpClient_ReadFrame in
  if negb (type =? ServerInfoFrame) || (zlen info <? crypto_box_NONCEBYTES + crypto_box_MACBYTES)
  then ethrow (RuntimeError "DERP server did not authenticate the client.") else
  match opens with
  | Some opens =>
      let* c := eget in
      if opens (cl_ServerKey c) info then eret tt
      else ethrow (RuntimeError "DERP server authentication failed.")
  | None => eret tt
  end.

End client.

Arguments DerpClient S : clear implicits.

(** ** Frames as bytes *)

Definition derp_frame (type : Z) (payload : bytes) : bytes :=
  derp_header type (zlen payload) ++ payload.

Lemma derp_header_be type size : derp_header type size = type :: be_encode 4 size.
Proof.
  unfold derp_header. cbn [be_encode Z.of_nat]. change (8 * Z.of_nat 3) with 24.
  change (8 * Z.of_nat 2) with 16. change (8 * Z.of_nat 1) with 8. change (8 * Z.of_nat 0) with 0.
  by rewrite Z.shiftr_0_r.
Qed.

(** A buffer with a whole header: its type, its size, and what follows. *)
Lemma frame_size_spec b :
  bytes_ok b → FrameHeaderSize <= zlen b →
  ∃ type size rest, b = derp_header type size ++ rest ∧ rd b 0 = Ok type
    ∧ frame_size b = Ok size ∧ in_width 32 size ∧ zlen rest = zlen b - FrameHeaderSize.
Proof.
  intros Hok Hlen. unfold FrameHeaderSize in *.
  destruct b as [|t [|b1 [|b2 [|b3 [|b4 rest]]]]]; try (exfalso; zlia).
  exists t, (be_decode [b1; b2; b3; b4]), rest.
  apply Forall_cons in Hok as [Ht Hok]. change (b1 :: b2 :: b3 :: b4 :: rest) with ([b1; b2; b3; b4] ++ rest) in *.
  apply Forall_app in Hok as [Hb _].
  rewrite derp_header_be. split_and!.
  - pose proof (be_encode_decode [b1; b2; b3; b4] Hb) as He. cbn [length] in He. by rewrite He.
  - done.
  - unfold frame_size.
    change (rd (t :: [b1; b2; b3; b4] ++ rest) 1) with (Ok b1).
    change (rd (t :: [b1; b2; b3; b4] ++ rest) 2) with (Ok b2).
    change (rd (t :: [b1; b2; b3; b4] ++ rest) 3) with (Ok b3).
    change (rd (t :: [b1; b2; b3; b4] ++ rest) 4) with (Ok b4). cbn [obind].
    rewrite <- be32_lor. rewrite !Forall_cons in Hb. destruct Hb as (H1 & H2 & H3 & _).
    unfold in_width in H1, H2, H3. rewrite !wrap_id; [done|..];
      unfold in_width; rewrite Z.shiftl_mul_pow2 by lia; lia.
  - apply (be_decode_range _ Hb).
  - zlia.
Qed.

(** The frame at the head of a buffer that holds all of it. *)
Lemma derp_frame_split b type size rest :
  b = derp_header type size ++ rest → 0 <= size → FrameHeaderSize + size <= zlen b →
  ∃ payload rest', rest = payload ++ rest' ∧ zlen payload = size
    ∧ slice b FrameHeaderSize (FrameHeaderSize + size) = Ok payload
    ∧ slice b (FrameHeaderSize + size) (zlen b) = Ok rest'
    ∧ b = derp_frame type payload ++ rest'.
Proof.
  intros -> Hs Hl. unfold FrameHeaderSize in *.
  assert (zlen (derp_header type size) = 5) as Hh by done.
  rewrite zlen_app, Hh in Hl.
  assert (zlen (take (Z.to_nat size) rest) = size) as Hz by zlia.
  pose proof (take_drop (Z.to_nat size) rest) as Htd. revert Htd Hz.
  generalize (take (Z.to_nat size) rest) (drop (Z.to_nat size) rest). intros p r' <- Hz.
  exists p, r'. split_and!; [done|done|..].
  - apply slice_full; [done|]. by rewrite Hh, Hz.
  - rewrite app_assoc. apply slice_app_drop; rewrite !zlen_app, Hh, Hz; [done|lia].
  - unfold derp_frame. by rewrite Hz, <- app_assoc.
Qed.

Section client_proofs.
  Context {S : Type} `{!ByteStream S} `{!ByteStreamLaws S}.

(** ** Sending *)

(** The bytes taken by the stream or waiting to be. *)
Definition written (c : DerpClient S) : bytes :=
  st_sent (cl_stream c) ++ drop (Z.to_nat (cl_SendOffset c)) (cl_SendBuffer c).

Definition send_ok (c : DerpClient S) : Prop := 0 <= cl_SendOffset c <= zlen (cl_SendBuffer c).

(** The part of the client that sending leaves alone. *)
Definition same_input (c c' : DerpClient S) : Prop :=
  st_received (cl_stream c') = st_received (cl_stream c)
  ∧ cl_ReceiveBuffer c' = cl_ReceiveBuffer c ∧ cl_ServerKey c' = cl_ServerKey c.

Lemma same_input_refl c : same_input c c.
Proof. by split_and!. Qed.

Lemma same_input_trans c1 c2 c3 : same_input c1 c2 → same_input c2 c3 → same_input c1 c3.
Proof. intros (? & ? & ?) (? & ? & ?). split_and!; congruence. Qed.

(** A call that sends has no undefined behaviour, and adds [new] to what is
    written. *)
Definition sends {A} (m : eff (DerpClient S) A) (new : bytes) (c : DerpClient S) : Prop :=
  wp m (fun r c' => r ≠ UB ∧ send_ok c' ∧ written c' = written c ++ new ∧ same_input c c') c.

Lemma wp_on_stream {A} (m : eff S A) (Q : outcome A → DerpClient S → Prop) c :
  wp m (fun r s => Q r (set_stream s c)) (cl_stream c) →
  wp (on_stream m) Q c.
Proof. unfold wp, on_stream. by destruct (m (cl_stream c)). Qed.

(** Taking [n] bytes of what is pending. *)
Lemma written_advance (sent b : bytes) off n :
  0 <= off → 0 <= n → off + n <= zlen b →
  (sent ++ take (Z.to_nat n) (drop (Z.to_nat off) b)) ++ drop (Z.to_nat (off + n)) b
  = sent ++ drop (Z.to_nat off) b.
Proof.
  intros. rewrite <- app_assoc. f_equal. rewrite Z2Nat.inj_add by lia.
  rewrite <- drop_drop. apply take_drop.
Qed.

(** What a send has kept after the stream took nothing, and after it took [n]
    bytes. *)
Definition kept (c c' : DerpClient S) : Prop :=
  send_ok c' ∧ written c' = written c ∧ same_input c c'.

Lemma kept_refl c : send_ok c → kept c c.
Proof. intros. split_and!; [done..|apply same_input_refl]. Qed.

Lemma kept_trans c1 c2 c3 : kept c1 c2 → kept c2 c3 → kept c1 c3.
Proof.
  intros (_ & H1 & H2) (? & H3 & H4). split_and!; [done|congruence|by eapply same_input_trans].
Qed.

Lemma kept_stream s c :
  send_ok c → st_received s = st_received (cl_stream c) → st_sent s = st_sent (cl_stream c) →
  kept c (set_stream s c).
Proof. intros ? Hr Hs. split_and!; [done| |by split_and!]. unfold written. simpl. by rewrite Hs. Qed.

Lemma kept_advance s c n :
  send_ok c → st_received s = st_received (cl_stream c) →
  0 <= n <= zlen (drop (Z.to_nat (cl_SendOffset c)) (cl_SendBuffer c)) →
  st_sent s = st_sent (cl_stream c)
    ++ take (Z.to_nat n) (drop (Z.to_nat (cl_SendOffset c)) (cl_SendBuffer c)) →
  kept c (set_send (cl_SendBuffer c) (cl_SendOffset c + n) (set_stream s c)).
Proof.
  unfold send_ok. intros Hc Hr Hn Hs.
  assert (cl_SendOffset c + n <= zlen (cl_SendBuffer c)) by zlia. split_and!; [split; simpl; lia| |by split_and!].
  unfold written. simpl. rewrite Hs. apply written_advance; lia.
Qed.

Lemma Flush_loop_spec fuel c :
  send_ok c → (Z.to_nat (zlen (cl_SendBuffer c) - cl_SendOffset c) < fuel)%nat →
  wp (Flush_loop fuel) (fun r c' => r ≠ UB ∧ kept c c'
    ∧ (r = Ok true → cl_SendOffset c' = zlen (cl_SendBuffer c'))) c.
Proof.
  revert c. induction fuel as [|fuel IH]; intros c Hc Hfuel; [lia|].
  cbn [Flush_loop]. wp_auto. unfold send_ok in Hc.
  destruct (Z.ltb_spec (cl_SendOffset c) (zlen (cl_SendBuffer c))) as [Hlt|Hge].
  2: { wp_auto. split_and!; [done|by apply kept_refl|lia]. }
  wp_auto. rewrite slice_Ok by lia. apply wp_bind, wp_on_stream.
  rewrite take_ge by (rewrite length_drop; unfold zlen; lia).
  eapply wp_mono; [apply st_write_law|]. intros [[n|]|e|] s' [Hrec Hw]; [| | |done].
  - destruct Hw as [Hn Hsent]. destruct (Z.eqb_spec n 0) as [->|Hn0].
    + wp_auto. split_and!; [done| |done]. apply kept_stream; [done..|]. by rewrite Hsent, app_nil_r.
    + wp_auto. pose proof (kept_advance s' c n Hc Hrec Hn Hsent) as Hk.
      eapply wp_mono; [apply IH; [apply Hk|cbn; lia]|]. intros r c' (? & Hk' & ?).
      split_and!; [done|by eapply kept_trans|done].
  - wp_auto. split_and!; [done|by apply kept_stream|done].
  - split_and!; [done|by apply kept_stream|done].
Qed.

Lemma Flush_spec c : send_ok c → wp DerpClient_Flush (fun r c' => r ≠ UB ∧ kept c c') c.
Proof.
  intros Hc. unfold DerpClient_Flush. wp_auto. apply wp_bind.
  eapply wp_mono; [apply Flush_loop_spec; [done|lia]|]. intros [[]|e|] c' (? & Hk & Hd); try done.
  wp_auto. split; [done|]. destruct Hk as (Hok & Hw & Hin). split_and!; [done| |by apply Hin..].
  rewrite <- Hw. unfold written. simpl. rewrite (Hd eq_refl). f_equal. unfold zlen.
  by rewrite Nat2Z.id, drop_all.
Qed.

Definition fits_frame (prefix payload : bytes) : bool :=
  zlen prefix + zlen payload <=? Derp_MaximumFrameSize.

(** A frame is queued whole, behind what is pending, or not at all. *)
Lemma WriteFrame_sends type payload prefix c :
  send_ok c →
  sends (DerpClient_WriteFrame type payload prefix)
    (if fits_frame prefix payload then derp_frame type (prefix ++ payload) else []) c.
Proof.
  intros Hc. unfold sends, DerpClient_WriteFrame, fits_frame.
  pose proof (zlen_nonneg prefix). pose proof (zlen_nonneg payload).
  replace (zlen prefix + zlen payload <=? Derp_MaximumFrameSize)
    with (negb ((Derp_MaximumFrameSize <? zlen prefix)
                || (Derp_MaximumFrameSize - zlen prefix <? zlen payload))) by lia.
  destruct (_ || (_ <? zlen payload)) eqn:E; cbn [negb].
  { wp_auto. rewrite app_nil_r. split_and!; [done..|apply same_input_refl]. }
  b2p. change Derp_MaximumFrameSize with 1048576 in E.
  rewrite wrap_id by (unfold in_width; lia). wp_auto. cbn [set_send cl_SendBuffer cl_SendOffset].
  match goal with |- wp _ _ ?x => set (c1 := x) end.
  assert (send_ok c1) as Hc1 by (unfold send_ok in *; simpl; zlia).
  assert (written c1 = written c ++ derp_frame type (prefix ++ payload)) as Hw1.
  { unfold written, derp_frame. simpl. rewrite zlen_app, <- !app_assoc. f_equal.
    unfold send_ok, zlen in Hc. rewrite drop_app_le by lia. done. }
  eapply wp_mono; [by apply Flush_spec|]. intros r c' (? & ? & Hw & Hin).
  split_and!; [done|done|by rewrite Hw|]. done.
Qed.

Lemma WriteFrame_too_large type payload prefix c :
  fits_frame prefix payload = false →
  DerpClient_WriteFrame type payload prefix c = (Throw (RuntimeError "DERP frame is too large."), c).
Proof.
  intros Hf. unfold DerpClient_WriteFrame, fits_frame in *. b2p.
  by replace (_ || _) with true by lia.
Qed.

(** ** Receiving *)

Definition frames_bytes (fs : list (Z * bytes)) : bytes :=
  concat (map (fun f => derp_frame f.1 f.2) fs).

(** The packets among the frames, and the answers to the pings among them. *)
Definition packets_of (fs : list (Z * bytes)) : list DerpPacket :=
  omap (fun f => if (f.1 =? ReceivePacketFrame) && (KeySize <=? zlen f.2)
                 then Some {| dp_Source := take 32 f.2; dp_Payload := drop 32 f.2 |} else None) fs.

Definition pongs_of (fs : list (Z * bytes)) : bytes :=
  frames_bytes (omap (fun f => if f.1 =? PingFrame then Some (PongFrame, f.2) else None) fs).

Lemma frames_bytes_app fs gs : frames_bytes (fs ++ gs) = frames_bytes fs ++ frames_bytes gs.
Proof. unfold frames_bytes. by rewrite map_app, concat_app. Qed.

Lemma packets_of_app fs gs : packets_of (fs ++ gs) = packets_of fs ++ packets_of gs.
Proof. apply omap_app. Qed.

Lemma pongs_of_app fs gs : pongs_of (fs ++ gs) = pongs_of fs ++ pongs_of gs.
Proof. unfold pongs_of. by rewrite omap_app, frames_bytes_app. Qed.

Definition input_ok (c : DerpClient S) : Prop := send_ok c ∧ bytes_ok (cl_ReceiveBuffer c).

(** From [c] to [c'] the client took [fs] off its input and answered the pings
    among them. *)
Definition took (fs : list (Z * bytes)) (c c' : DerpClient S) : Prop :=
  input_ok c'
  ∧ (∃ new, st_received (cl_stream c') = st_received (cl_stream c) ++ new
      ∧ cl_ReceiveBuffer c ++ new = frames_bytes fs ++ cl_ReceiveBuffer c')
  ∧ written c' = written c ++ pongs_of fs
  ∧ Forall (fun f => zlen f.2 <= Derp_MaximumFrameSize) fs.

Lemma took_nil c : input_ok c → took [] c c.
Proof. intros Hc. split_and!; [done|exists []; by rewrite !app_nil_r|by rewrite app_nil_r|done]. Qed.

Lemma took_trans fs gs c1 c2 c3 : took fs c1 c2 → took gs c2 c3 → took (fs ++ gs) c1 c3.
Proof.
  intros (_ & (n1 & R1 & B1) & W1 & F1) (H3 & (n2 & R2 & B2) & W2 & F2). split_and!; [done|..].
  - exists (n1 ++ n2). rewrite R2, R1, <- app_assoc. split; [done|].
    by rewrite app_assoc, B1, <- app_assoc, B2, frames_bytes_app, <- app_assoc.
  - by rewrite W2, W1, pongs_of_app, <- app_assoc.
  - by apply Forall_app_2.
Qed.

Lemma took_read b s c :
  input_ok c → bytes_ok b → st_sent s = st_sent (cl_stream c) →
  st_received s = st_received (cl_stream c) ++ b →
  took [] c (set_receive (cl_ReceiveBuffer c ++ b) (set_stream s c)).
Proof.
  intros [Hs Hb] Hok Hsent Hrec. split_and!; [|by exists b| |done].
  - split; [done|]. by apply Forall_app_2.
  - unfold written, pongs_of. simpl. by rewrite Hsent, app_nil_r.
Qed.

Lemma took_stream s c :
  input_ok c → st_sent s = st_sent (cl_stream c) → st_received s = st_received (cl_stream c) →
  took [] c (set_stream s c).
Proof.
  intros [Hs Hb] Hsent Hrec. split_and!; [done|exists []; by rewrite !app_nil_r| |done].
  unfold written. simpl. by rewrite Hsent, app_nil_r.
Qed.

Lemma packet_of_spec payload :
  KeySize <= zlen payload →
  derp_packet_of payload = Ok {| dp_Source := take 32 payload; dp_Payload := drop 32 payload |}.
Proof.
  unfold KeySize. intros Hl. unfold derp_packet_of, KeySize. rewrite !slice_Ok by zlia. cbn [obind].
  change (Z.to_nat (32 - 0)) with 32%nat. change (Z.to_nat 32) with 32%nat. rewrite drop_0.
  rewrite (take_ge (drop 32 payload)); [done|]. rewrite length_drop. unfold zlen. lia.
Qed.

Lemma fits_frame_payload p : zlen p <= Derp_MaximumFrameSize → fits_frame [] p = true.
Proof. unfold fits_frame. rewrite zlen_nil. lia. Qed.

Lemma pongs_of_ping p : pongs_of [(PingFrame, p)] = derp_frame PongFrame p.
Proof. unfold pongs_of, frames_bytes. simpl. by rewrite app_nil_r. Qed.

Lemma pongs_of_other type p : type ≠ PingFrame → pongs_of [(type, p)] = [].
Proof. intros. unfold pongs_of. simpl. by rewrite (proj2 (Z.eqb_neq _ _)). Qed.

(** One frame off the input. *)
Lemma took_frame c c' type p rest :
  input_ok c → cl_ReceiveBuffer c = derp_frame type p ++ rest → zlen p <= Derp_MaximumFrameSize →
  send_ok c' → written c' = written c ++ pongs_of [(type, p)] →
  same_input (set_receive rest c) c' → took [(type, p)] c c'.
Proof.
  intros [Hs Hb] Hbuf Hp Hs' Hw (Hr & Hb' & _). simpl in Hr, Hb'. split_and!; [|..|done|by forall_intro].
  - split; [done|]. rewrite Hb'. rewrite Hbuf in Hb. by apply Forall_app in Hb as [_ ?].
  - exists []. rewrite !app_nil_r, Hr, Hb', Hbuf. split; [done|]. unfold frames_bytes. simpl.
    by rewrite app_nil_r.
Qed.

Lemma batch_frame_spec c type size rest packets :
  input_ok c → cl_ReceiveBuffer c = derp_header type size ++ rest →
  rd (cl_ReceiveBuffer c) 0 = Ok type →
  0 <= size <= Derp_MaximumFrameSize → FrameHeaderSize + size <= zlen (cl_ReceiveBuffer c) →
  wp (batch_frame (cl_ReceiveBuffer c) size packets) (fun r c' => r ≠ UB
    ∧ ∃ f, took [f] c c' ∧ (∀ l, r = Ok l → l = packets ++ packets_of [f])) c.
Proof.
  intros Hc Hbuf Htype Hsize Hlen. pose proof Hc as [Hs Hb].
  destruct (derp_frame_split _ _ _ _ Hbuf ltac:(lia) Hlen) as (p & rest' & _ & Hp & Hs1 & Hs2 & Hsplit).
  unfold batch_frame. wp_auto. rewrite Htype. wp_auto. rewrite Hs1. wp_auto. rewrite Hs2. wp_auto.
  assert (∀ c', send_ok c' → written c' = written c ++ pongs_of [(type, p)] →
    same_input (set_receive rest' c) c' → took [(type, p)] c c') as Htook.
  { intros c'. apply took_frame; [done..|lia]. }
  destruct (Z.eqb_spec type PingFrame) as [->|Hping].
  - apply wp_bind. eapply wp_mono; [by apply (WriteFrame_sends _ _ _ (set_receive rest' c))|].
    intros r c' (Hr & Hs' & Hw & Hin). rewrite fits_frame_payload in Hw by lia.
    assert (took [(PingFrame, p)] c c') as Ht.
    { apply Htook; [done| |done]. by rewrite Hw, pongs_of_ping. }
    destruct r; [wp_auto|..|done]; (split; [done|]); exists (PingFrame, p);
      (split; [done|]); intros l [= <-]. by rewrite app_nil_r.
  - assert (took [(type, p)] c (set_receive rest' c)) as Ht.
    { apply Htook; [done| |apply same_input_refl]. by rewrite pongs_of_other, app_nil_r. }
    destruct (_ && _) eqn:E; wp_auto.
    + apply andb_true_iff in E as [Ety Ek]. b2p. rewrite packet_of_spec by done. wp_auto.
      split; [done|]. exists (type, p). split; [done|]. intros l [= <-]. f_equal. simpl.
      subst type. by rewrite (proj2 (Z.leb_le _ _)) by done.
    + split; [done|]. exists (type, p). split; [done|]. intros l [= <-].
      unfold packets_of. simpl. rewrite E. by rewrite app_nil_r.
Qed.

Lemma batch_loop_spec n packets c :
  input_ok c →
  wp (batch_loop n packets) (fun r c' => r ≠ UB
    ∧ ∃ fs, took fs c c' ∧ (∀ l, r = Ok l → l = packets ++ packets_of fs)) c.
Proof.
  revert packets c. induction n as [|n IH]; intros packets c Hc; cbn [batch_loop].
  { wp_auto. split; [done|]. exists []. split; [by apply took_nil|]. intros l [= <-]. by rewrite app_nil_r. }
  assert (∀ c1 c' fs gs packets1 (r : outcome (list DerpPacket)), took fs c c1 → took gs c1 c' →
    packets1 = packets ++ packets_of fs → r ≠ UB → (∀ l, r = Ok l → l = packets1 ++ packets_of gs) →
    r ≠ UB ∧ ∃ fs, took fs c c' ∧ (∀ l, r = Ok l → l = packets ++ packets_of fs)) as Hstep.
  { intros c1 c' fs gs packets1 r H1 H2 -> Hr Hl. split; [done|]. exists (fs ++ gs).
    split; [by eapply took_trans|]. intros l ->. rewrite (Hl l eq_refl), packets_of_app.
    by rewrite app_assoc. }
  assert (wp (let* available := on_stream (st_TryReadSome
      (u64 (Derp_MaximumFrameSize - zlen (cl_ReceiveBuffer c)))) in
    match available with
    | None => eret packets
    | Some data =>
        if bool_decide (data = []) then ethrow (RuntimeError "DERP stream closed.") else
        emod (fun c => set_receive (cl_ReceiveBuffer c ++ data) c) ;;* batch_loop n packets
    end) (fun r c' => r ≠ UB ∧ ∃ fs, took fs c c' ∧ (∀ l, r = Ok l → l = packets ++ packets_of fs)) c)
    as Hread.
  { apply wp_bind, wp_on_stream. eapply wp_mono; [apply st_read_law|].
    intros [[data|]|e|] s' [Hsent Hr]; [| | |done].
    - destruct Hr as (_ & Hok & Hrec). case_bool_decide as Hd.
      + subst data. rewrite app_nil_r in Hrec. wp_auto. split; [done|]. exists [].
        split; [by apply took_stream|done].
      + wp_auto. pose proof (took_read data s' c Hc Hok Hsent Hrec) as Ht.
        eapply wp_mono; [apply IH, Ht|]. intros r c' (Hr' & gs & Hgs & Hl).
        eapply Hstep; [exact Ht|exact Hgs|by rewrite app_nil_r|done|done].
    - wp_auto. split; [done|]. exists []. split; [by apply took_stream|]. intros l [= <-].
      by rewrite app_nil_r.
    - split; [done|]. exists []. split; [by apply took_stream|done]. }
  wp_auto. apply wp_bind. destruct (Z.leb_spec FrameHeaderSize (zlen (cl_ReceiveBuffer c))) as [Hl|Hl].
  2: { by wp_auto. }
  destruct (frame_size_spec _ (proj2 Hc) Hl) as (type & size & rest & Hb & Hty & Hsz & Hw & _).
  wp_auto. rewrite Hsz. destruct (Z.ltb_spec Derp_MaximumFrameSize size) as [Hbig|Hfit].
  { wp_auto. split; [done|]. exists []. split; [by apply took_nil|done]. }
  wp_auto. destruct (Z.leb_spec (FrameHeaderSize + size) (zlen (cl_ReceiveBuffer c))) as [Hcomp|_]; [|done].
  apply wp_bind. eapply wp_mono; [apply (batch_frame_spec c type size rest)|]; try done.
  { unfold in_width in Hw. lia. }
  intros r c1 (Hr & f & Hf & Hpk). destruct r as [l1|e|]; [|split; [done|]; by exists [f]|done].
  eapply wp_mono; [apply IH, Hf|]. intros r c' (Hr' & gs & Hgs & Hl').
  eapply Hstep; [exact Hf|exact Hgs|by apply Hpk|done|done].
Qed.

(** [ReceiveAvailable] takes at most one frame off the input. *)
Lemma ReceiveAvailable_spec c :
  input_ok c →
  wp DerpClient_ReceiveAvailable (fun r c' => r ≠ UB
    ∧ ∃ fs, took fs c c' ∧ (∀ o, r = Ok o → option_list o = packets_of fs)) c.
Proof.
  intros Hc.
  set (Q := fun (r : outcome (option DerpPacket)) (c' : DerpClient S) => r ≠ UB
    ∧ ∃ fs, took fs c c' ∧ (∀ o, r = Ok o → option_list o = packets_of fs)).
  assert (∀ c1, took [] c c1 → Q (Ok None) c1) as Hnone.
  { intros c1 Ht. split; [done|]. exists []. split; [done|]. by intros o [= <-]. }
  assert (∀ c1 e, took [] c c1 → Q (Throw e) c1) as Hthrow.
  { intros c1 e Ht. split; [done|]. by exists []. }
  unfold DerpClient_ReceiveAvailable. wp_auto. unfold hasCompleteFrame at 1.
  assert (∃ b, (if zlen (cl_ReceiveBuffer c) <? FrameHeaderSize then Ok false else
    let! size := frame_size (cl_ReceiveBuffer c) in
    Ok (FrameHeaderSize + size <=? zlen (cl_ReceiveBuffer c))) = Ok b) as [complete ->].
  { ifb; [eauto|]. b2p. destruct (frame_size_spec _ (proj2 Hc) E) as (? & ? & ? & _ & _ & -> & _). eauto. }
  apply wp_bind. eapply wp_mono with (Q := fun r c1 => r ≠ UB ∧ took [] c c1).
  { destruct complete; [by wp_auto; split; [|apply took_nil]|]. apply wp_bind, wp_on_stream.
    eapply wp_mono; [apply st_read_law|]. intros [[data|]|e|] s' [Hsent Hr]; [| | |done].
    - destruct Hr as (_ & Hok & Hrec). case_bool_decide as Hd; wp_auto; (split; [done|]).
      + subst data. rewrite app_nil_r in Hrec. by apply took_stream.
      + exact (took_read data s' c Hc Hok Hsent Hrec).
    - wp_auto. split; [done|]. by apply took_stream.
    - split; [done|]. by apply took_stream. }
  intros [[]|e|] c1 [Hr Ht]; [wp_auto; by apply Hnone| |by apply Hthrow|done].
  pose proof (proj1 Ht) as Hc1. wp_auto. ifb; [wp_auto; by apply Hnone|]. b2p.
  destruct (frame_size_spec _ (proj2 Hc1) E) as (type & size & rest & Hb & Hty & Hsz & Hw & _).
  rewrite Hsz. wp_auto. ifb; b2p; wp_auto; [by apply Hthrow|]. ifb; b2p; wp_auto; [by apply Hnone|].
  unfold in_width in Hw.
  destruct (derp_frame_split _ _ _ _ Hb ltac:(lia) ltac:(lia)) as (p & rest' & _ & Hp & Hs1 & Hs2 & Hsp).
  assert (∀ c', send_ok c' → written c' = written c1 ++ pongs_of [(type, p)] →
    same_input (set_receive rest' c1) c' → took [(type, p)] c c') as Htook.
  { intros c' H1 H2 H3. apply (took_trans [] _ c c1); [done|].
    apply (took_frame c1 c' type p rest'); try done. lia. }
  rewrite Hty. wp_auto. rewrite Hs1. wp_auto. rewrite Hs2. wp_auto.
  destruct (Z.eqb_spec type PingFrame) as [->|Hping].
  - apply wp_bind. eapply wp_mono; [apply (WriteFrame_sends _ _ _ (set_receive rest' c1)), Hc1|].
    intros r c' (Hr' & Hs' & Hw' & Hin). rewrite fits_frame_payload in Hw' by lia.
    assert (took [(PingFrame, p)] c c') as Htp.
    { apply Htook; [done| |done]. by rewrite Hw', pongs_of_ping. }
    destruct r; [wp_auto|..|done]; (split; [done|]); exists [(PingFrame, p)];
      (split; [done|]); by intros l [= <-].
  - assert (took [(type, p)] c (set_receive rest' c1)) as Htf.
    { apply Htook; [apply Hc1| |apply same_input_refl]. by rewrite pongs_of_other, app_nil_r. }
    replace (negb (type =? ReceivePacketFrame) || (zlen p <? KeySize))
      with (negb ((type =? ReceivePacketFrame) && (KeySize <=? zlen p))) by lia.
    destruct ((type =? ReceivePacketFrame) && (KeySize <=? zlen p)) eqn:E2; cbn [negb]; wp_auto.
    + rewrite packet_of_spec by (b2p; lia). wp_auto.
      split; [done|]. exists [(type, p)]. split; [done|]. intros l [= <-].
      unfold packets_of. simpl. by rewrite E2.
    + split; [done|]. exists [(type, p)]. split; [done|]. intros l [= <-].
      unfold packets_of. simpl. by rewrite E2.
Qed.

(** ** The handshake *)

Lemma ReadExact_loop_spec fuel n result s :
  zlen result <= n → (Z.to_nat (n - zlen result) < fuel)%nat →
  wp (ReadExact_loop fuel n result) (fun r s' => r ≠ UB ∧ st_sent s' = st_sent s
    ∧ ∃ new, st_received s' = st_received s ++ new ∧ bytes_ok new
      ∧ (∀ b, r = Ok b → b = result ++ new ∧ zlen b = n)) s.
Proof.
  revert result s. induction fuel as [|fuel IH]; intros result s Hl Hf; [lia|]. cbn [ReadExact_loop].
  destruct (Z.ltb_spec (zlen result) n) as [Hlt|Hge].
  2: { wp_auto. split_and!; [done..|]. exists []. rewrite !app_nil_r. split_and!; try done.
       intros b [= <-]. split; [done|lia]. }
  apply wp_bind. unfold ByteStream_ReadSome. apply wp_bind.
  eapply wp_mono; [apply st_read_law|]. intros [[part|]|e|] s' [Hsent Hr]; [| | |done].
  - destruct Hr as (Hsz & Hok & Hrec). wp_auto. case_bool_decide as Hp; wp_auto.
    { split_and!; [done..|]. exists part. by split_and!. }
    assert (0 < zlen part) by (destruct part; [done|zlia]).
    assert (zlen (result ++ part) = zlen result + zlen part) as Hz by apply zlen_app.
    eapply wp_mono; [apply IH; lia|]. intros r s2 (? & Hs2 & new & Hr2 & Hok2 & Hb).
    split_and!; [done|congruence|]. exists (part ++ new).
    rewrite Hr2, Hrec, <- app_assoc. split_and!; [done|by apply Forall_app_2|].
    intros b Hbb. destruct (Hb b Hbb) as [-> ?]. by rewrite <- app_assoc in *.
  - wp_auto. split_and!; [done..|]. exists []. rewrite app_nil_r. by split_and!.
  - split_and!; [done..|]. exists []. rewrite app_nil_r. by split_and!.
Qed.

Lemma ReadExact_spec n s :
  0 <= n →
  wp (ByteStream_ReadExact n) (fun r s' => r ≠ UB ∧ st_sent s' = st_sent s
    ∧ ∀ b, r = Ok b → st_received s' = st_received s ++ b ∧ bytes_ok b ∧ zlen b = n) s.
Proof.
  intros Hn. eapply wp_mono; [apply ReadExact_loop_spec; rewrite zlen_nil; lia|].
  intros r s' (? & ? & new & Hr & Hok & Hb). split_and!; [done..|]. intros b Hbb.
  by destruct (Hb b Hbb) as [-> ?].
Qed.

(** What a call that only reads leaves: nothing sent, and the bytes it returns
    taken off the stream. *)
Definition reads (c c' : DerpClient S) (b : bytes) : Prop :=
  st_sent (cl_stream c') = st_sent (cl_stream c)
  ∧ st_received (cl_stream c') = st_received (cl_stream c) ++ b
  ∧ cl_SendBuffer c' = cl_SendBuffer c ∧ cl_SendOffset c' = cl_SendOffset c
  ∧ cl_ReceiveBuffer c' = cl_ReceiveBuffer c ∧ cl_ServerKey c' = cl_ServerKey c.

Lemma reads_trans c1 c2 c3 a b : reads c1 c2 a → reads c2 c3 b → reads c1 c3 (a ++ b).
Proof.
  intros (? & R1 & ? & ? & ? & ?) (? & R2 & ? & ? & ? & ?).
  split_and!; try congruence. by rewrite R2, R1, app_assoc.
Qed.

Lemma wp_ReadExact n c :
  0 <= n →
  wp (on_stream (ByteStream_ReadExact n)) (fun r c' => r ≠ UB
    ∧ ∀ b, r = Ok b → reads c c' b ∧ bytes_ok b ∧ zlen b = n) c.
Proof.
  intros Hn. apply wp_on_stream. eapply wp_mono; [by apply ReadExact_spec|].
  intros r s' (? & Hs & Hb). split; [done|]. intros b Hbb. destruct (Hb b Hbb) as (? & ? & ?).
  by split_and!.
Qed.

Lemma wp_ReadFrame c :
  wp DerpClient_ReadFrame (fun r c' => r ≠ UB
    ∧ ∀ t p, r = Ok (t, p) → reads c c' (derp_frame t p) ∧ bytes_ok p) c.
Proof.
  unfold DerpClient_ReadFrame. apply wp_bind. eapply wp_mono; [apply wp_ReadExact; done|].
  intros r c1 [Hr Hb]. destruct r as [header|e|]; [|done|done].
  destruct (Hb header eq_refl) as (Hrd & Hok & Hlen).
  destruct (frame_size_spec header Hok) as (type & size & rest & Hh & Hty & Hsz & Hw & Hrl); [lia|].
  assert (rest = []) as -> by (destruct rest; [done|zlia]). rewrite app_nil_r in Hh.
  wp_auto. rewrite Hsz. ifb; wp_auto; [done|]. rewrite Hty. b2p. unfold in_width in Hw.
  apply wp_bind. eapply wp_mono; [apply wp_ReadExact; lia|].
  intros r c2 [Hr2 Hb2]. destruct r as [payload|e|]; [|done|done].
  destruct (Hb2 payload eq_refl) as (Hrd2 & Hok2 & Hlen2). wp_auto. split; [done|].
  intros t p [= <- <-]. split; [|done]. unfold derp_frame. rewrite Hlen2, <- Hh.
  by eapply reads_trans.
Qed.

Lemma response_loop_spec fuel response c :
  zlen response <= MaximumHttpHeaderSize →
  (Z.to_nat (MaximumHttpHeaderSize + 1 - zlen response) < fuel)%nat →
  wp (response_loop fuel response) (fun r c' => r ≠ UB
    ∧ ∀ b, r = Ok b → contains_blank_line b = true ∧ zlen b <= MaximumHttpHeaderSize
      ∧ ∃ new, b = response ++ new ∧ reads c c' new) c.
Proof.
  revert response c. induction fuel as [|fuel IH]; intros response c Hl Hf; [lia|].
  cbn [response_loop]. destruct (contains_blank_line response) eqn:Hc.
  { wp_auto. split; [done|]. intros b [= <-]. split_and!; [done..|]. exists [].
    rewrite app_nil_r. split; [done|]. unfold reads. by rewrite app_nil_r. }
  apply wp_bind. eapply wp_mono; [apply wp_ReadExact; done|]. intros r c1 [Hr Hb].
  destruct r as [byte|e|]; [|done|done]. destruct (Hb byte eq_refl) as (Hrd & Hok & Hlen).
  destruct byte as [|x [|]]; try (exfalso; zlia). wp_auto. change (rd [x] 0) with (Ok x). wp_auto.
  assert (zlen (response ++ [x]) = zlen response + 1) as Hz by (rewrite zlen_app; done).
  cbv beta iota zeta. ifb; wp_auto; [done|]. b2p.
  eapply wp_mono; [apply IH; lia|]. intros r c2 [Hr2 Hb2]. split; [done|]. intros b Hbb.
  destruct (Hb2 b Hbb) as (? & ? & new & -> & Hrd2). split_and!; [done..|]. exists (x :: new).
  rewrite <- app_assoc. split; [done|]. by apply (reads_trans c c1 c2 [x]).
Qed.

Lemma WriteAll_loop_spec fuel data offset s :
  0 <= offset <= zlen data → (Z.to_nat (zlen data - offset) < fuel)%nat →
  wp (WriteAll_loop fuel data offset) (fun r s' => r ≠ UB ∧ st_received s' = st_received s
    ∧ (r = Ok tt → st_sent s' = st_sent s ++ drop (Z.to_nat offset) data)) s.
Proof.
  revert offset s. induction fuel as [|fuel IH]; intros offset s Ho Hf; [lia|]. cbn [WriteAll_loop].
  destruct (Z.ltb_spec offset (zlen data)) as [Hlt|Hge].
  2: { wp_auto. split_and!; [done..|]. intros _. rewrite drop_ge by (unfold zlen in *; lia).
       by rewrite app_nil_r. }
  wp_auto. rewrite slice_Ok by lia. rewrite take_ge by (rewrite length_drop; unfold zlen; lia).
  apply wp_bind. eapply wp_mono; [apply st_write_law|].
  intros [[n|]|e|] s' [Hrec Hw]; [|wp_auto; done|done|done].
  destruct Hw as [Hn Hsent]. ifb; wp_auto; [done|]. b2p.
  assert (offset + n <= zlen data) by zlia.
  eapply wp_mono; [apply IH; lia|]. intros r s2 (? & Hr2 & Hs2). split_and!; [done|congruence|].
  intros Hok. rewrite (Hs2 Hok), Hsent. apply written_advance; lia.
Qed.

(** The client before and after a successful handshake. *)
Record connected (request : bytes) (authenticate : bytes → outcome bytes)
    (opens : option (bytes → bytes → bool)) (c c' : DerpClient S) : Prop := {
  co_exchange : ∃ response greeting payload info,
    st_received (cl_stream c') = st_received (cl_stream c)
      ++ response ++ derp_frame ServerKeyFrame greeting ++ derp_frame ServerInfoFrame info
    ∧ written c' = (st_sent (cl_stream c) ++ request) ++ derp_frame ClientInfoFrame payload
    ∧ contains_blank_line response = true ∧ zlen response <= MaximumHttpHeaderSize
    ∧ starts_with [72; 84; 84; 80; 47; 49; 46; 49; 32; 49; 48; 49] response = true
    ∧ starts_with DerpMagic greeting = true
    ∧ slice greeting 8 40 = Ok (cl_ServerKey c') ∧ zlen (cl_ServerKey c') = KeySize
    ∧ authenticate (cl_ServerKey c') = Ok payload
    ∧ match opens with Some opens => opens (cl_ServerKey c') info = true | None => True end;
  co_buffer : cl_ReceiveBuffer c' = cl_ReceiveBuffer c;
  co_send : send_ok c'
}.

Lemma wp_Connect request authenticate opens c :
  cl_SendBuffer c = [] → cl_SendOffset c = 0 → (∀ k, authenticate k ≠ UB) →
  wp (DerpClient_Connect request authenticate opens) (fun r c' => r ≠ UB
    ∧ (r = Ok tt → connected request authenticate opens c c')) c.
Proof.
  intros Hb0 Ho0 Hauth. unfold DerpClient_Connect. apply wp_bind, wp_on_stream.
  unfold ByteStream_WriteAll. eapply wp_mono;
    [apply WriteAll_loop_spec; [pose proof (zlen_nonneg request); lia|unfold zlen; lia]|].
  intros [[]|e|] s1 (? & Hrec1 & Hsent1); [|done|done]. specialize (Hsent1 eq_refl).
  change (drop (Z.to_nat 0) request) with request in Hsent1.
  apply wp_bind. eapply wp_mono; [apply response_loop_spec; [done|unfold MaximumHttpHeaderSize; rewrite zlen_nil; lia]|].
  intros [response|e|] c2 [? Hresp]; [|done|done].
  destruct (Hresp response eq_refl) as (Hblank & Hlen & new & -> & Hrd2). cbn [app] in *.
  ifb; wp_auto; [done|]. apply negb_false_iff in E.
  apply wp_bind. eapply wp_mono; [apply wp_ReadFrame|].
  intros [[type greeting]|e|] c3 [? Hfr]; [|done|done].
  destruct (Hfr _ _ eq_refl) as [Hrd3 Hgok]. cbv beta iota.
  destruct (_ || negb (starts_with DerpMagic greeting)) eqn:Eg; [by wp_auto|].
  apply orb_false_iff in Eg as [[Ety Egl]%orb_false_iff Emagic%negb_false_iff].
  apply negb_false_iff in Ety. apply Z.eqb_eq in Ety. apply Z.ltb_ge in Egl. subst type.
  unfold ServerGreetingSize in Egl. wp_auto.
  destruct (slice greeting 8 40) as [key|e|] eqn:Hkey; [|by rewrite slice_Ok in Hkey by lia..].
  wp_auto. destruct (authenticate key) as [payload|e|] eqn:Hau; [|done|by destruct (Hauth key)].
  cbv beta iota. ifb; [by wp_auto|].
  assert (send_ok (set_server_key key c3)) as Hsok.
  { destruct Hrd2 as (_ & _ & B2 & O2 & _), Hrd3 as (_ & _ & B3 & O3 & _). unfold send_ok. simpl.
    rewrite B3, O3, B2, O2. simpl. by rewrite Hb0, Ho0. }
  apply wp_bind. destruct (fits_frame [] payload) eqn:Hfit.
  2: { unfold wp. by rewrite WriteFrame_too_large. }
  eapply wp_mono; [by apply WriteFrame_sends|].
  intros [[]|e|] c4 (? & Hs4 & Hw4 & Hin4); [|done|done]. rewrite Hfit in Hw4.
  apply wp_bind. eapply wp_mono; [apply wp_ReadFrame|].
  intros [[type info]|e|] c5 [? Hfr5]; [|done|done].
  destruct (Hfr5 _ _ eq_refl) as [Hrd5 _]. cbv beta iota.
  destruct (negb (type =? ServerInfoFrame) || _) eqn:Ei; [by wp_auto|].
  apply orb_false_iff in Ei as [Ety%negb_false_iff _]. apply Z.eqb_eq in Ety. subst type.
  assert ((match opens with Some opens => opens (cl_ServerKey c5) info = true | None => True end) →
    connected request authenticate opens c c5) as Hfin.
  { intros Hopen. destruct Hin4 as (R4 & B4 & K4). simpl in R4, B4, K4.
    destruct Hrd2 as (S2 & R2 & SB2 & SO2 & B2 & K2), Hrd3 as (S3 & R3 & SB3 & SO3 & B3 & K3),
      Hrd5 as (S5 & R5 & SB5 & SO5 & B5 & K5). simpl in *.
    assert (cl_ServerKey c5 = key) as Hk5 by congruence.
    constructor; [|congruence|by unfold send_ok; rewrite SB5, SO5]. exists new, greeting, payload, info. split_and!; try done.
    - by rewrite R5, R4, R3, R2, Hrec1, <- !app_assoc.
    - transitivity (written c4).
      { unfold written. by rewrite S5, SB5, SO5. }
      rewrite Hw4. f_equal. unfold written. simpl. rewrite S3, S2, SB3, SB2, SO3, SO2, Hb0, Ho0.
      simpl. by rewrite Hsent1, app_nil_r.
    - by rewrite Hk5.
    - rewrite Hk5. by apply zlen_slice in Hkey.
    - by rewrite Hk5. }
  destruct opens as [opens|]; wp_auto; [|by split; [|intros _; apply Hfin]].
  ifb; wp_auto; [|done]. split; [done|]. intros _. by apply Hfin.
Qed.

(** ** Sequences of calls *)

Inductive client_op :=
  | COp_Send (destination packet : bytes)
  | COp_SendPing (payload : bytes)
  | COp_SetPreferred (preferred : bool)
  | COp_Flush
  | COp_ReceiveAvailable
  | COp_ReceiveAvailableBatch.

(** The packets a call returns; the others return none. *)
Definition client_step (op : client_op) : eff (DerpClient S) (list DerpPacket) :=
  match op with
  | COp_Send destination packet => DerpClient_Send destination packet ;;* eret []
  | COp_SendPing payload => DerpClient_SendPing payload ;;* eret []
  | COp_SetPreferred preferred => DerpClient_SetPreferred preferred ;;* eret []
  | COp_Flush => DerpClient_Flush ;;* eret []
  | COp_ReceiveAvailable => let* o := DerpClient_ReceiveAvailable in eret (option_list o)
  | COp_ReceiveAvailableBatch => DerpClient_ReceiveAvailableBatch
  end.

(** What the calls of a run returned, and the client they leave.  A call that
    throws is followed by the next one on the client it left. *)
Fixpoint client_run (ops : list client_op) (c : DerpClient S)
    : list (outcome (list DerpPacket)) * DerpClient S :=
  match ops with
  | [] => ([], c)
  | op :: ops' =>
      let '(r, c1) := client_step op c in
      let '(rs, c') := client_run ops' c1 in (r :: rs, c')
  end.

Definition frame_if_fits (type : Z) (prefix payload : bytes) : bytes :=
  if fits_frame prefix payload then derp_frame type (prefix ++ payload) else [].

(** What a call puts on the wire when it takes the frames [fs] off it. *)
Definition step_output (op : client_op) (fs : list (Z * bytes)) : bytes :=
  match op with
  | COp_Send destination packet => frame_if_fits SendPacketFrame destination packet
  | COp_SendPing payload => frame_if_fits PingFrame [] payload
  | COp_SetPreferred preferred => frame_if_fits PreferredFrame [] [if preferred then 1 else 0]
  | COp_Flush => []
  | COp_ReceiveAvailable | COp_ReceiveAvailableBatch => pongs_of fs
  end.

(** One call: what it took off the input, and what it put on the output. *)
Definition step_ok (op : client_op) (c : DerpClient S) (r : outcome (list DerpPacket))
    (c' : DerpClient S) (fs : list (Z * bytes)) : Prop :=
  input_ok c' ∧ r ≠ UB ∧ (∀ l, r = Ok l → l = packets_of fs)
  ∧ (∃ new, st_received (cl_stream c') = st_received (cl_stream c) ++ new
      ∧ cl_ReceiveBuffer c ++ new = frames_bytes fs ++ cl_ReceiveBuffer c')
  ∧ written c' = written c ++ step_output op fs.

Lemma sends_step {A} (m : eff (DerpClient S) A) new op c :
  input_ok c → sends m new c → step_output op [] = new →
  wp (m ;;* eret []) (fun r c' => step_ok op c r c' []) c.
Proof.
  intros [Hs Hb] Hm Ho. apply wp_bind. unfold sends in Hm. eapply wp_mono; [exact Hm|].
  intros r c' (Hr & Hs' & Hw & (Hrec & Hbuf & _)).
  assert (∀ r' : outcome (list DerpPacket), r' ≠ UB → (∀ l, r' = Ok l → l = []) → step_ok op c r' c' [])
    as Hok.
  { intros r' Hr' Hl. split_and!; [split; [done|by rewrite Hbuf]|done|done| |by rewrite Hw, Ho].
    exists []. by rewrite !app_nil_r, Hrec, Hbuf. }
  destruct r; [wp_auto|..|done]; apply Hok; try done. by intros l [= <-].
Qed.

Lemma client_step_ok op c :
  input_ok c → wp (client_step op) (fun r c' => ∃ fs, step_ok op c r c' fs) c.
Proof.
  intros Hc.
  assert (∀ m, wp m (fun r c' => step_ok op c r c' []) c →
    wp m (fun r c' => ∃ fs, step_ok op c r c' fs) c) as Hsend.
  { intros m Hm. unfold wp in *. eauto. }
  destruct op; cbn [client_step].
  - apply Hsend, (sends_step (DerpClient_Send destination packet)
      (frame_if_fits SendPacketFrame destination packet)); [done| |done]. apply WriteFrame_sends, Hc.
  - apply Hsend, (sends_step (DerpClient_SendPing payload)
      (frame_if_fits PingFrame [] payload)); [done| |done]. apply WriteFrame_sends, Hc.
  - apply Hsend, (sends_step (DerpClient_SetPreferred preferred)
      (frame_if_fits PreferredFrame [] [if preferred then 1 else 0])); [done| |done].
    apply WriteFrame_sends, Hc.
  - apply Hsend, (sends_step DerpClient_Flush []); [done| |done].
    eapply wp_mono; [apply Flush_spec, Hc|]. intros r c' (? & ? & Hw & ?).
    split_and!; [done|done|by rewrite app_nil_r|done].
  - apply wp_bind. eapply wp_mono; [by apply ReceiveAvailable_spec|].
    intros r c' (Hr & fs & (Hi & Hn & Hw & _) & Hl).
    destruct r as [o|e|]; [wp_auto|..|done]; exists fs; split_and!; try done.
    intros l [= <-]. by apply Hl.
  - eapply wp_mono; [by apply batch_loop_spec|]. intros r c' (Hr & fs & (Hi & Hn & Hw & _) & Hl).
    exists fs. by split_and!.
Qed.

(** C30: the DERP wire, in both directions.  Over any stream that takes and gives
    bytes a piece at a time, and whatever sequence of calls, none of which has
    undefined behaviour: the bytes read so far are whole frames followed by the
    receive buffer, each call returns the packets of the frames it consumed, in
    order, and what has been sent or is still pending is exactly the frames of the
    calls, with every ping answered once, in order. *)
Theorem DerpClient_in_order ops s :
  st_sent s = [] → st_received s = [] →
  let '(rs, c) := client_run ops (DerpClient_new s) in
  ∃ fss, length fss = length ops
    ∧ Forall2 (fun r fs => r ≠ UB ∧ ∀ l, r = Ok l → l = packets_of fs) rs fss
    ∧ st_received (cl_stream c) = frames_bytes (concat fss) ++ cl_ReceiveBuffer c
    ∧ st_sent (cl_stream c) ++ drop (Z.to_nat (cl_SendOffset c)) (cl_SendBuffer c)
      = concat (zip_with step_output ops fss).
Proof.
  intros Hs Hr.
  assert (∀ c, input_ok c → let '(rs, c') := client_run ops c in
    ∃ fss, length fss = length ops
    ∧ Forall2 (fun r fs => r ≠ UB ∧ ∀ l, r = Ok l → l = packets_of fs) rs fss
    ∧ (∃ new, st_received (cl_stream c') = st_received (cl_stream c) ++ new
        ∧ cl_ReceiveBuffer c ++ new = frames_bytes (concat fss) ++ cl_ReceiveBuffer c')
    ∧ written c' = written c ++ concat (zip_with step_output ops fss)) as Hrun.
  { induction ops as [|op ops IH]; intros c Hc; cbn [client_run].
    { exists []. split_and!; [done|constructor|exists []; by rewrite !app_nil_r|by rewrite app_nil_r]. }
    pose proof (client_step_ok op c Hc) as Hop. unfold wp in Hop.
    destruct (client_step op c) as [r c1]. cbn [fst snd] in Hop.
    destruct Hop as (fs & Hc1 & Hr1 & Hl & (n1 & R1 & B1) & W1).
    specialize (IH c1 Hc1). destruct (client_run ops c1) as [rs c'].
    destruct IH as (fss & Hlen & HF & (n2 & R2 & B2) & W2). exists (fs :: fss).
    split_and!; [simpl; by rewrite Hlen|by constructor| |].
    - exists (n1 ++ n2). rewrite R2, R1, <- app_assoc. split; [done|].
      cbn [concat]. by rewrite app_assoc, B1, <- app_assoc, B2, frames_bytes_app, <- app_assoc.
    - cbn [zip_with concat]. by rewrite W2, W1, <- app_assoc. }
  specialize (Hrun (DerpClient_new s)). destruct (client_run ops (DerpClient_new s)) as [rs c].
  destruct Hrun as (fss & ? & ? & (new & R & B) & W); [by split|].
  exists fss. split_and!; [done..| |].
  - simpl in R, B. by rewrite R, Hr.
  - change (written c = concat (zip_with step_output ops fss)). rewrite W. unfold written. simpl.
    by rewrite Hs.
Qed.

(** A successful handshake: the client sent the upgrade request and one
    [ClientInfo] frame made for the key of the server's greeting, the server
    accepted the upgrade within 8 KiB of headers, greeted with the DERP magic and a
    32-byte key, and sent an information frame that opens under that key; and the
    handshake has no undefined behaviour against any server. *)
Theorem DerpClient_Connect_authenticates request authenticate opens s :
  (∀ k, authenticate k ≠ UB) →
  let '(r, c) := DerpClient_Connect request authenticate opens (DerpClient_new s) in
  safe r ∧ (r = Ok tt → connected request authenticate opens (DerpClient_new s) c).
Proof.
  intros Ha. pose proof (wp_Connect request authenticate opens (DerpClient_new s) eq_refl eq_refl Ha) as H.
  unfold wp in H. by destruct (DerpClient_Connect request authenticate opens (DerpClient_new s)).
Qed.

(** A frame whose payload is within 5 bytes of the limit, which
    [WriteFrame] sends and the size check accepts, is never received by
    [ReceiveAvailableBatch]: once the buffer holds [MaximumFrameSize] bytes the
    client asks the stream for no bytes, and whatever the stream answers the frame
    stays incomplete and no packet is returned. *)
Theorem DerpClient_large_frame_stalls c size :
  input_ok c → zlen (cl_ReceiveBuffer c) = Derp_MaximumFrameSize →
  frame_size (cl_ReceiveBuffer c) = Ok size →
  Derp_MaximumFrameSize - FrameHeaderSize < size <= Derp_MaximumFrameSize →
  let '(r, c') := DerpClient_ReceiveAvailableBatch c in
  cl_ReceiveBuffer c' = cl_ReceiveBuffer c ∧ (∀ l, r = Ok l → l = []).
Proof.
  intros Hc Hlen Hsize Hbig.
  assert (wp DerpClient_ReceiveAvailableBatch (fun r c' =>
    cl_ReceiveBuffer c' = cl_ReceiveBuffer c ∧ (∀ l, r = Ok l → l = [])) c) as H.
  { unfold DerpClient_ReceiveAvailableBatch. change MaximumReceiveBatchFrames with (Datatypes.S 255).
    generalize 255%nat. intros n. cbn [batch_loop]. wp_auto.
    apply wp_bind. rewrite (proj2 (Z.leb_le _ _)) by (rewrite Hlen; done). wp_auto. rewrite Hsize.
    rewrite (proj2 (Z.ltb_ge _ _)) by lia. wp_auto.
    rewrite (proj2 (Z.leb_gt _ _)) by (unfold FrameHeaderSize in *; lia).
    apply wp_bind, wp_on_stream. rewrite Hlen, Z.sub_diag. eapply wp_mono; [apply st_read_law|].
    intros [[data|]|e|] s' [_ Hr]; [| | |done].
    - destruct Hr as (Hz & _). change (Z.max 0 (u64 0)) with 0 in Hz.
      assert (data = []) as -> by (destruct data; [done|zlia]). by wp_auto.
    - wp_auto. split; [done|]. by intros l [= <-].
    - done. }
  unfold wp in H. by destruct (DerpClient_ReceiveAvailableBatch c).
Qed.

End client_proofs.

(** ** A concrete stream

    Chunks that arrive, and how many bytes each write takes. *)

Record pipe := {
  pi_incoming : list bytes;
  pi_capacities : list (option Z);
  pi_sent : bytes;
  pi_received : bytes
}.

Definition pipe_write (data : bytes) : eff pipe (option Z) := fun p =>
  match pi_capacities p with
  | Some n :: rest =>
      let n := Z.max 0 (Z.min n (zlen data)) in
      (Ok (Some n), {| pi_incoming := pi_incoming p; pi_capacities := rest;
                       pi_sent := pi_sent p ++ take (Z.to_nat n) data;
                       pi_received := pi_received p |})
  | None :: rest => (Ok None, {| pi_incoming := pi_incoming p; pi_capacities := rest;
                                 pi_sent := pi_sent p; pi_received := pi_received p |})
  | [] => (Ok None, p)
  end.

Definition pipe_read (maximum : Z) : eff pipe (option bytes) := fun p =>
  match pi_incoming p with
  | chunk :: rest =>
      if forallb (fun b => (0 <=? b) && (b <? 256)) chunk then
        let now := take (Z.to_nat maximum) chunk in
        let later := drop (Z.to_nat maximum) chunk in
        (Ok (Some now), {| pi_incoming := match later with [] => rest | _ => later :: rest end;
                           pi_capacities := pi_capacities p; pi_sent := pi_sent p;
                           pi_received := pi_received p ++ now |})
      else (Ok None, p)
  | [] => (Ok None, p)
  end.

#[export] Instance pipe_ByteStream : ByteStream pipe := {
  st_TryWriteSome := pipe_write;
  st_TryReadSome := pipe_read;
  st_HasBufferedInput := fun _ => false;
  st_sent := pi_sent;
  st_received := pi_received
}.

#[export] Instance pipe_laws : ByteStreamLaws pipe.
Proof.
  split.
  - intros data p. unfold wp. simpl. unfold pipe_write.
    destruct (pi_capacities p) as [|[n|] rest]; simpl; try done.
    pose proof (zlen_nonneg data). split_and!; [done|lia|lia|done].
  - intros maximum p. unfold wp. simpl. unfold pipe_read.
    destruct (pi_incoming p) as [|chunk rest]; simpl; [done|].
    destruct (forallb _ chunk) eqn:E; simpl; [|done]. split_and!; [done|zlia| |done].
    apply Forall_take, Forall_forall. intros b Hb. apply forallb_forall with (x := b) in E.
    + unfold in_width. b2p. lia.
    + by apply list_elem_of_In.
Qed.

Definition demo_pipe : pipe :=
  {| pi_incoming := [derp_frame PingFrame [1; 2] ++ [5; 0; 0];
                     [0; 33] ++ replicate 32 7 ++ [9]];
     pi_capacities := [Some 3; None; Some 100]; pi_sent := []; pi_received := [] |}.

Definition demo_calls : list client_op :=
  [COp_ReceiveAvailableBatch; COp_SetPreferred true; COp_Flush].

Lemma DerpClient_in_order_witness :
  (client_run demo_calls (DerpClient_new demo_pipe)).1
    = [Ok [{| dp_Source := replicate 32 7; dp_Payload := [9] |}]; Ok []; Ok []]
  ∧ let '(rs, c) := client_run demo_calls (DerpClient_new demo_pipe) in
    ∃ fss, length fss = length demo_calls
      ∧ Forall2 (fun r fs => r ≠ UB ∧ ∀ l, r = Ok l → l = packets_of fs) rs fss
      ∧ st_received (cl_stream c) = frames_bytes (concat fss) ++ cl_ReceiveBuffer c
      ∧ st_sent (cl_stream c) ++ drop (Z.to_nat (cl_SendOffset c)) (cl_SendBuffer c)
        = concat (zip_with step_output demo_calls fss).
Proof.
  split; [vm_compute; reflexivity|].
  apply (DerpClient_in_order demo_calls demo_pipe); reflexivity.
Defined.

Definition demo_server : pipe :=
  {| pi_incoming := [[72; 84; 84; 80; 47; 49; 46; 49; 32; 49; 48; 49; 13; 10; 13; 10];
                     derp_frame ServerKeyFrame (DerpMagic ++ replicate 32 4);
                     derp_frame ServerInfoFrame (replicate 40 1)];
     pi_capacities := [Some 100; Some 200]; pi_sent := []; pi_received := [] |}.

Definition demo_authenticate (k : bytes) : outcome bytes := Ok (replicate 72 1).

Definition demo_opens (key info : bytes) : bool := true.

Lemma DerpClient_Connect_authenticates_witness :
  (DerpClient_Connect [71] demo_authenticate (Some demo_opens) (DerpClient_new demo_server)).1 = Ok tt
  ∧ let '(r, c) := DerpClient_Connect [71] demo_authenticate (Some demo_opens)
      (DerpClient_new demo_server) in
    safe r ∧ (r = Ok tt → connected [71] demo_authenticate (Some demo_opens)
                            (DerpClient_new demo_server) c).
Proof.
  split; [vm_compute; reflexivity|].
  apply (DerpClient_Connect_authenticates [71] demo_authenticate (Some demo_opens) demo_server).
  discriminate.
Defined.

(** The largest frame the protocol allows, with its last five bytes missing. *)
Definition stalled : DerpClient pipe :=
  {| cl_stream := demo_pipe; cl_ServerKey := [];
     cl_ReceiveBuffer := derp_header ReceivePacketFrame 1048576 ++ replicate (Z.to_nat 1048571) 0;
     cl_SendBuffer := []; cl_SendOffset := 0 |}.

Lemma DerpClient_large_frame_stalls_witness :
  let '(r, c') := DerpClient_ReceiveAvailableBatch stalled in
  cl_ReceiveBuffer c' = cl_ReceiveBuffer stalled ∧ (∀ l, r = Ok l → l = []).
Proof.
  apply (DerpClient_large_frame_stalls stalled 1048576).
  - split; [done|]. unfold stalled. cbn [cl_ReceiveBuffer]. apply Forall_app_2.
    + forall_intro.
    + by apply Forall_replicate.
  - unfold stalled. cbn [cl_ReceiveBuffer]. rewrite zlen_app, zlen_replicate, Z2Nat.id by lia. reflexivity.
  - unfold stalled, frame_size. cbn [cl_ReceiveBuffer].
    rewrite !(rd_app_l (derp_header ReceivePacketFrame 1048576)) by reflexivity.
    vm_compute. reflexivity.
  - split; reflexivity || discriminate.
Defined.
