(* ===== verification/Lease.v ===== *)
(** * Ownership of the DERP connections: the relay side of delegation

    src/core/hosted/DerpRouteTable.cpp, the DERP connections of
    src/core/wgengine/impl/SessionImpl.cpp,
    src/core/ipn/ipnlocal/DerpConnections.cpp and
    src/core/ipn/ipnlocal/DelegationLease.cpp.  A [derp::Connection] is an
    interface of the source; here it is the class [Connection], and what its
    clients rely on is the class [ConnectionLaws]. *)

From S2P Require Import Prelude Text Net Packet Framing Decoder Codec.

(** ** [derp::Connection] *)

Class Connection (C : Type) := {
  conn_SetEnabled : bool → C → C;
  conn_ChangeNetwork : list Z → C → C;
  conn_Connected : C → bool;
  (** The transport's own record of whether it may hold a socket. *)
  conn_Enabled : C → bool
}.

(** What the interface documents: [SetEnabled] takes effect before it returns,
    and a disabled connection holds no client. *)
Class ConnectionLaws (C : Type) `{!Connection C} (ok : C → Prop) : Prop := {
  conn_SetEnabled_ok : ∀ b c, ok c → ok (conn_SetEnabled b c);
  conn_SetEnabled_Enabled : ∀ b c, ok c → conn_Enabled (conn_SetEnabled b c) = b;
  conn_ChangeNetwork_ok : ∀ i c, ok c → ok (conn_ChangeNetwork i c);
  conn_ChangeNetwork_Enabled : ∀ i c, ok c → conn_Enabled (conn_ChangeNetwork i c) = conn_Enabled c;
  conn_disabled_disconnected : ∀ c, ok c → conn_Enabled c = false → conn_Connected c = false
}.

(** ** [DerpRouteTable] *)

Record RouteEntry := { re_Route : DerpRoute; re_Connection : Z }.

#[export] Instance DerpRoute_eq_dec : EqDecision DerpRoute.
Proof. solve_decision. Defined.

(** The table and the process-wide [NextRouteToken]. *)
Record DerpRouteTable := { rt_entries : list RouteEntry; rt_NextRouteToken : Z }.

Definition DerpRouteTable_Register (connection region : Z) : eff DerpRouteTable DerpRoute :=
  if region =? 0 then ethrow (InvalidArgument "Hosted DERP route has no region.") else
  let* s := eget in
  let token := rt_NextRouteToken s in
  emod (fun s => {| rt_entries := rt_entries s; rt_NextRouteToken := u64 (token + 1) |}) ;;*
  if token =? 0 then ethrow (OverflowError "Hosted DERP route tokens are exhausted.") else
  let route := {| dr_token := token; dr_region := region |} in
  emod (fun s => {| rt_entries := rt_entries s ++ [{| re_Route := route; re_Connection := connection |}];
                    rt_NextRouteToken := rt_NextRouteToken s |}) ;;*
  eret route.

Definition DerpRouteTable_Resolve (t : DerpRouteTable) (route : DerpRoute) : option Z :=
  re_Connection <$> List.find (fun e => bool_decide (re_Route e = route)) (rt_entries t).

(** ** [DerpConnections] over the connections of the session *)

Record DerpRuntime := {
  de_Region : Z;
  de_Host : list Z;
  de_Connection : Z;
  de_Route : DerpRoute
}.

(** [SessionImpl::m_derps] *)
Record DerpState (C : Type) := { ds_Region : Z; ds_Connection : C }.
Arguments ds_Region {C}.
Arguments ds_Connection {C}.

Record DerpConnections (C : Type) := {
  dc_session : list (DerpState C);
  dc_routes : DerpRouteTable;
  dc_entries : list DerpRuntime;
  dc_enabled : bool
}.
Arguments dc_session {C}.
Arguments dc_routes {C}.
Arguments dc_entries {C}.
Arguments dc_enabled {C}.

Section derps.
  Context {C : Type} `{!Connection C}.
  (** [DerpTransportFactory::Create] *)
  Variable Create : Z → list Z → bool → Z → bool → C.

Definition SessionImpl_AddDerpConnection (region : Z) (connection : C)
    : eff (list (DerpState C)) Z :=
  if region =? 0 then ethrow (InvalidArgument "The DERP connection is required.") else
  let* derps := eget in
  emod (fun derps => derps ++ [{| ds_Region := region; ds_Connection := connection |}]) ;;*
  eret (zlen derps).

Definition SessionImpl_DerpConnection (derps : list (DerpState C)) (connection : Z) : outcome C :=
  if zlen derps <=? connection then Throw (OutOfRange "The DERP connection does not exist.") else
  let! d := rd derps connection in Ok (ds_Connection d).

(** A call through the reference [DerpConnection] returns. *)
Definition SessionImpl_update (f : C → C) (connection : Z) : eff (list (DerpState C)) unit :=
  let* derps := eget in
  let* _ := elift (SessionImpl_DerpConnection derps connection) in
  emod (alter (fun d => {| ds_Region := ds_Region d; ds_Connection := f (ds_Connection d) |})
          (Z.to_nat connection)).

(** A method of a member object. *)
Definition on_session {A} (m : eff (list (DerpState C)) A) : eff (DerpConnections C) A := fun s =>
  let '(r, d) := m (dc_session s) in
  (r, {| dc_session := d; dc_routes := dc_routes s; dc_entries := dc_entries s;
         dc_enabled := dc_enabled s |}).

Definition on_routes {A} (m : eff DerpRouteTable A) : eff (DerpConnections C) A := fun s =>
  let '(r, t) := m (dc_routes s) in
  (r, {| dc_session := dc_session s; dc_routes := t; dc_entries := dc_entries s;
         dc_enabled := dc_enabled s |}).

Fixpoint find_region (region : Z) (index : Z) (entries : list DerpRuntime) : option Z :=
  match entries with
  | [] => None
  | e :: rest => if de_Region e =? region then Some index else find_region region (index + 1) rest
  end.

Definition DerpConnections_Ensure (region : Z) (host : list Z) (preferred : bool)
    : eff (DerpConnections C) Z :=
  let* s := eget in
  match find_region region 0 (dc_entries s) with
  | Some index => eret index
  | None =>
      if (region <=? 0) || (65535 <? region) || bool_decide (host = [])
      then ethrow (NodeError "InvalidDerpRegion") else
      let* connectionId := on_session (SessionImpl_AddDerpConnection region
        (Create region host preferred (zlen (dc_entries s)) (dc_enabled s))) in
      let* route := on_routes (DerpRouteTable_Register connectionId (u16 region)) in
      emod (fun s => {| dc_session := dc_session s; dc_routes := dc_routes s;
        dc_entries := dc_entries s ++ [{| de_Region := region; de_Host := host;
          de_Connection := connectionId; de_Route := route |}];
        dc_enabled := dc_enabled s |}) ;;*
      let* s := eget in
      eret (zlen (dc_entries s) - 1)
  end.

(** The home region of a network map and those of its peers. *)
Definition DerpConnections_ApplyNetworkMap (home : Z * list Z) (peers : list (Z * list Z))
    : eff (DerpConnections C) unit :=
  DerpConnections_Ensure home.1 home.2 false ;;*
  (fix loop peers :=
     match peers with
     | [] => eret tt
     | (region, host) :: rest =>
         if negb (region =? 0) && negb (bool_decide (host = []))
         then DerpConnections_Ensure region host false ;;* loop rest
         else loop rest
     end) peers.

Fixpoint for_entries (f : C → C) (entries : list DerpRuntime) : eff (DerpConnections C) unit :=
  match entries with
  | [] => eret tt
  | entry :: rest => on_session (SessionImpl_update f (de_Connection entry)) ;;* for_entries f rest
  end.

Definition DerpConnections_ChangeNetwork (networkInterface : list Z) : eff (DerpConnections C) unit :=
  let* s := eget in
  for_entries (conn_ChangeNetwork networkInterface) (dc_entries s).

Definition DerpConnections_SetEnabled (enabled : bool) : eff (DerpConnections C) unit :=
  emod (fun s => {| dc_session := dc_session s; dc_routes := dc_routes s;
                    dc_entries := dc_entries s; dc_enabled := enabled |}) ;;*
  let* s := eget in
  for_entries (conn_SetEnabled enabled) (dc_entries s).

Definition DerpConnections_ForRegion (s : DerpConnections C) (region : Z) : outcome C :=
  let found := List.find (fun e => de_Region e =? region) (dc_entries s) in
  match dc_entries s with
  | [] => Throw (NodeError "DerpNotProvisioned")
  | front :: _ =>
      SessionImpl_DerpConnection (dc_session s)
        (match found with Some e => de_Connection e | None => de_Connection front end)
  end.

Definition DerpConnections_ForRoute (s : DerpConnections C) (route : DerpRoute)
    : outcome (option C) :=
  match DerpRouteTable_Resolve (dc_routes s) route with
  | Some connection => let! c := SessionImpl_DerpConnection (dc_session s) connection in Ok (Some c)
  | None => Ok None
  end.

(** ** [DelegationLease] *)

Record DelegationLease := {
  dl_derps : DerpConnections C;
  dl_revision : Z;
  dl_request : option DelegationRequest;
  dl_reply : option DelegationReply;
  dl_deadline : option Z;
  dl_output : list Frame;
  dl_changedOwnership : bool
}.

(** Time points and durations are in nanoseconds. *)
Definition LeaseDuration : Z := 20 * 1000000000.
Definition MaximumReplies : Z := 64.

Definition dl_set_derps d s := {| dl_derps := d; dl_revision := dl_revision s;
  dl_request := dl_request s; dl_reply := dl_reply s; dl_deadline := dl_deadline s;
  dl_output := dl_output s; dl_changedOwnership := dl_changedOwnership s |}.
Definition dl_set_request r s := {| dl_derps := dl_derps s; dl_revision := dl_revision s;
  dl_request := r; dl_reply := dl_reply s; dl_deadline := dl_deadline s;
  dl_output := dl_output s; dl_changedOwnership := dl_changedOwnership s |}.
Definition dl_set_reply r s := {| dl_derps := dl_derps s; dl_revision := dl_revision s;
  dl_request := dl_request s; dl_reply := r; dl_deadline := dl_deadline s;
  dl_output := dl_output s; dl_changedOwnership := dl_changedOwnership s |}.
Definition dl_set_deadline t s := {| dl_derps := dl_derps s; dl_revision := dl_revision s;
  dl_request := dl_request s; dl_reply := dl_reply s; dl_deadline := t;
  dl_output := dl_output s; dl_changedOwnership := dl_changedOwnership s |}.
Definition dl_set_output o s := {| dl_derps := dl_derps s; dl_revision := dl_revision s;
  dl_request := dl_request s; dl_reply := dl_reply s; dl_deadline := dl_deadline s;
  dl_output := o; dl_changedOwnership := dl_changedOwnership s |}.
Definition dl_set_changed b s := {| dl_derps := dl_derps s; dl_revision := dl_revision s;
  dl_request := dl_request s; dl_reply := dl_reply s; dl_deadline := dl_deadline s;
  dl_output := dl_output s; dl_changedOwnership := b |}.

Definition on_derps {A} (m : eff (DerpConnections C) A) : eff DelegationLease A := fun s =>
  let '(r, d) := m (dl_derps s) in (r, dl_set_derps d s).

(** [*m_request], where the source dereferences it. *)
Definition deref {S A} (o : option A) : eff S A :=
  match o with Some a => eret a | None => elift UB end.

Definition DelegationLease_ApplyMap (revision : Z) : eff DelegationLease unit :=
  emod (fun s => {| dl_derps := dl_derps s; dl_revision := revision;
    dl_request := dl_request s; dl_reply := dl_reply s; dl_deadline := dl_deadline s;
    dl_output := dl_output s; dl_changedOwnership := dl_changedOwnership s |}).

(** [m_output.push_back(EncodeDelegation(reply))] *)
Definition push_reply (reply : DelegationReply) : eff DelegationLease unit :=
  let* frame := elift (EncodeDelegationReply reply) in
  emod (fun s => dl_set_output (dl_output s ++ [frame]) s).

Definition no_buffer_space : exn := SystemError "no_buffer_space".

Definition DelegationLease_Fail (request : DelegationRequest) (failure : DelegationFailure)
    : eff DelegationLease unit :=
  let* s := eget in
  if MaximumReplies <=? zlen (dl_output s) then ethrow no_buffer_space else
  push_reply {| rp_Generation := rq_Generation request; rp_RequestId := rq_RequestId request;
                rp_MapRevision := rq_MapRevision request; rp_Status := Status_Failed;
                rp_Failure := failure |}.

Definition DelegationLease_Reply (status : DelegationStatus) (failure : DelegationFailure)
    : eff DelegationLease unit :=
  let* s := eget in
  if MaximumReplies <=? zlen (dl_output s) then ethrow no_buffer_space else
  let* request := deref (dl_request s) in
  let reply := {| rp_Generation := rq_Generation request; rp_RequestId := rq_RequestId request;
                  rp_MapRevision := rq_MapRevision request; rp_Status := status;
                  rp_Failure := failure |} in
  emod (dl_set_reply (Some reply)) ;;*
  push_reply reply.

Definition DelegationLease_Enable (enabled : bool) : eff DelegationLease unit :=
  on_derps (DerpConnections_SetEnabled enabled).

(** [std::ranges::all_of] stops at the first region that is not connected. *)
Fixpoint all_connected (d : DerpConnections C) (regions : list Z) : outcome bool :=
  match regions with
  | [] => Ok true
  | region :: rest =>
      let! c := DerpConnections_ForRegion d region in
      if conn_Connected c then all_connected d rest else Ok false
  end.

Definition DelegationLease_Ready : eff DelegationLease bool :=
  let* s := eget in
  let* request := deref (dl_request s) in
  elift (all_connected (dl_derps s) (rq_Regions request)).

(** [now] is what [m_time.Now()] returns. *)
Definition DelegationLease_Poll (now : Z) : eff DelegationLease unit :=
  let* s := eget in
  match dl_deadline s with
  | None => eret tt
  | Some deadline =>
      if deadline <=? now then
        (if dl_changedOwnership s then DelegationLease_Enable false else eret tt) ;;*
        emod (dl_set_deadline None) ;;*
        DelegationLease_Reply Status_Failed Failure_LeaseExpired
      else
        let* request := deref (dl_request s) in
        if bool_decide (rq_Action request = Action_Acquire) && bool_decide (dl_reply s = None) then
          let* ready := DelegationLease_Ready in
          if ready then DelegationLease_Reply Status_Ready Failure_None else eret tt
        else eret tt
  end.

(** The conditions of [Accept], in the source's order. *)
Definition is_stale (s : DelegationLease) (request : DelegationRequest) : bool :=
  match dl_request s with
  | Some r => (rq_Generation request <? rq_Generation r)
              || ((rq_Generation request =? rq_Generation r)
                  && (rq_RequestId request <=? rq_RequestId r))
  | None => false
  end.

Definition unknown_region (s : DelegationLease) (request : DelegationRequest) : bool :=
  existsb (fun region => negb (existsb (fun e => de_Region e =? region) (dc_entries (dl_derps s))))
    (rq_Regions request).

Definition outside_lease (s : DelegationLease) (request : DelegationRequest) : bool :=
  negb (bool_decide (rq_Action request = Action_Prepare))
  && match dl_request s with
     | None => true
     | Some r => negb (rq_Generation request =? rq_Generation r)
                 || negb (bool_decide (rq_Regions request = rq_Regions r))
                 || bool_decide (dl_deadline s = None)
     end.

Definition reply_status_is (s : DelegationLease) (status : DelegationStatus) : bool :=
  bool_decide (rp_Status <$> dl_reply s = Some status).

Definition not_prepared (s : DelegationLease) (request : DelegationRequest) : bool :=
  (bool_decide (rq_Action request = Action_Prepare)
   && match dl_request s with
      | Some r => rq_Generation request =? rq_Generation r
      | None => false
      end)
  || ((bool_decide (rq_Action request = Action_Release)
       || bool_decide (rq_Action request = Action_Acquire))
      && negb (reply_status_is s Status_Prepared)).

Definition not_committable (s : DelegationLease) (request : DelegationRequest) : bool :=
  bool_decide (rq_Action request = Action_Commit)
  && negb (reply_status_is s Status_Ready) && negb (reply_status_is s Status_Released).

(** The transition of an accepted request: [now] sets the deadline, [later] is
    the time of the closing [Poll]. *)
Definition Accept_transition (request : DelegationRequest) (now later : Z)
    : eff DelegationLease unit :=
  let* s := eget in
  (match dl_request s with
   | Some r => if (rq_Generation r <? rq_Generation request) && dl_changedOwnership s
               then DelegationLease_Enable false else eret tt
   | None => eret tt
   end) ;;*
  emod (dl_set_request (Some request)) ;;*
  emod (dl_set_reply None) ;;*
  emod (dl_set_deadline (Some (now + LeaseDuration))) ;;*
  match rq_Action request with
  | Action_Prepare =>
      emod (dl_set_changed false) ;;* DelegationLease_Reply Status_Prepared Failure_None
  | Action_Release =>
      DelegationLease_Enable false ;;* emod (dl_set_changed true) ;;*
      DelegationLease_Reply Status_Released Failure_None
  | Action_Acquire =>
      DelegationLease_Enable true ;;* emod (dl_set_changed true) ;;* DelegationLease_Poll later
  | Action_Commit =>
      emod (dl_set_deadline None) ;;* emod (dl_set_changed false) ;;*
      DelegationLease_Reply Status_Committed Failure_None
  end.

(** The three times are those of the clock readings of one call. *)
Definition DelegationLease_Accept (request : DelegationRequest) (before now later : Z)
    : eff DelegationLease unit :=
  DelegationLease_Poll before ;;*
  let* s := eget in
  if bool_decide (dl_request s = Some request) then
    match dl_reply s with
    | Some reply =>
        if MaximumReplies <=? zlen (dl_output s) then ethrow no_buffer_space else push_reply reply
    | None => eret tt
    end
  else if is_stale s request then DelegationLease_Fail request Failure_StaleGeneration
  else if negb (rq_MapRevision request =? dl_revision s)
  then DelegationLease_Fail request Failure_StaleMap
  else if unknown_region s request then DelegationLease_Fail request Failure_UnknownRegion
  else if outside_lease s request then DelegationLease_Fail request Failure_InvalidState
  else if not_prepared s request then DelegationLease_Fail request Failure_InvalidState
  else if not_committable s request then DelegationLease_Fail request Failure_InvalidState
  else Accept_transition request now later.

Definition DelegationLease_TakeOutput : eff DelegationLease (list Frame) :=
  let* s := eget in
  emod (dl_set_output []) ;;* eret (dl_output s).

End derps.

Arguments DelegationLease C : clear implicits.

(** ** The connections: invariant *)

Section derps_proofs.
  Context {C : Type} `{!Connection C} (ok : C → Prop) `{!ConnectionLaws C ok}.

Definition on_conn (f : C → C) (d : DerpState C) : DerpState C :=
  {| ds_Region := ds_Region d; ds_Connection := f (ds_Connection d) |}.

(** The session after a call on the connection of each entry. *)
Definition visit (f : C → C) (entries : list DerpRuntime) (session : list (DerpState C))
    : list (DerpState C) :=
  foldl (fun session e => alter (on_conn f) (Z.to_nat (de_Connection e)) session) session entries.

Definition entry_at (session : list (DerpState C)) (e : DerpRuntime) : Prop :=
  0 <= de_Connection e
  ∧ ∃ d, session !! Z.to_nat (de_Connection e) = Some d ∧ ds_Region d = de_Region e.

Lemma SessionImpl_DerpConnection_at (session : list (DerpState C)) e d :
  0 <= de_Connection e → session !! Z.to_nat (de_Connection e) = Some d →
  SessionImpl_DerpConnection session (de_Connection e) = Ok (ds_Connection d).
Proof.
  intros Hp Hd. unfold SessionImpl_DerpConnection.
  pose proof (lookup_lt_Some _ _ _ Hd). ifb; [unfold zlen in *; lia|].
  unfold rd. rewrite (proj2 (Z.ltb_ge _ _)) by lia. by rewrite Hd.
Qed.

Lemma visit_lookup f entries session i d :
  session !! i = Some d →
  ∃ d', visit f entries session !! i = Some d' ∧ ds_Region d' = ds_Region d.
Proof.
  revert session d. induction entries as [|e entries IH]; intros session d Hd; simpl; [eauto|].
  destruct (decide (Z.to_nat (de_Connection e) = i)) as [<-|Hne].
  - destruct (IH (alter (on_conn f) (Z.to_nat (de_Connection e)) session) (on_conn f d))
      as (d' & ? & ?); [|by eauto]. by rewrite list_lookup_alter_eq, Hd.
  - destruct (IH (alter (on_conn f) (Z.to_nat (de_Connection e)) session) d)
      as (d' & ? & ?); [|by eauto]. by rewrite list_lookup_alter_ne.
Qed.

Lemma entry_at_visit f entries session e :
  entry_at session e → entry_at (visit f entries session) e.
Proof.
  intros [Hp (d & Hd & Hr)]. split; [done|].
  destruct (visit_lookup f entries session _ d Hd) as (d' & ? & Hr'). exists d'.
  split; [done|congruence].
Qed.

Lemma for_entries_visit f entries s :
  Forall (entry_at (dc_session s)) entries →
  for_entries f entries s
  = (Ok tt, {| dc_session := visit f entries (dc_session s); dc_routes := dc_routes s;
               dc_entries := dc_entries s; dc_enabled := dc_enabled s |}).
Proof.
  revert s. induction entries as [|e entries IH]; intros s He; simpl; [by destruct s|].
  apply Forall_cons in He as [[Hp (d & Hd & _)] He].
  assert (on_session (SessionImpl_update f (de_Connection e)) s
    = (Ok tt, {| dc_session := alter (on_conn f) (Z.to_nat (de_Connection e)) (dc_session s);
                 dc_routes := dc_routes s; dc_entries := dc_entries s;
                 dc_enabled := dc_enabled s |})) as Hu.
  { unfold on_session, SessionImpl_update, ebind, eget, elift, emod.
    by rewrite (SessionImpl_DerpConnection_at _ _ d). }
  rewrite (ebind_Ok _ _ _ _ _ Hu). rewrite IH; [done|]. simpl.
  eapply Forall_impl; [done|]. intros e' He'. by apply (entry_at_visit f [e]).
Qed.

(** A property that the call keeps holds of every connection that had it. *)
Lemma visit_keep (P : C → Prop) f entries session :
  (∀ c, P c → P (f c)) → Forall (fun d => P (ds_Connection d)) session →
  Forall (fun d => P (ds_Connection d)) (visit f entries session).
Proof.
  intros Hf. revert session. induction entries as [|e entries IH]; intros session HP; simpl; [done|].
  apply IH. rewrite Forall_lookup in *. intros i d. rewrite list_lookup_alter. case_decide; [|eauto].
  destruct (session !! Z.to_nat (de_Connection e)) eqn:Hi; simpl; [|done]. intros [= <-]. apply Hf. by eapply HP.
Qed.

(** The property that the call establishes holds of every connection visited. *)
Lemma visit_hit (Q : C → Prop) f entries session i d e :
  (∀ c, ok c → Q (f c)) → (∀ c, ok c → ok (f c)) →
  Forall (fun d => ok (ds_Connection d)) session →
  e ∈ entries → Z.to_nat (de_Connection e) = i →
  visit f entries session !! i = Some d → Q (ds_Connection d).
Proof.
  intros HQ Hf. revert session. induction entries as [|e' entries IH] using rev_ind; intros session Hok.
  { by intros ?%not_elem_of_nil. }
  intros He <-. unfold visit. rewrite foldl_snoc. fold (visit f entries session).
  rewrite list_lookup_alter.
  pose proof (visit_keep ok f entries session Hf Hok) as Hv. rewrite Forall_lookup in Hv.
  case_decide as Heq.
  - destruct (visit f entries session !! Z.to_nat (de_Connection e')) eqn:Hi; simpl; [|done].
    intros [= <-]. apply HQ. by eapply Hv.
  - intros Hd. apply elem_of_app in He as [He|He%list_elem_of_singleton]; [by eapply IH|].
    by subst.
Qed.

Definition route_of (e : DerpRuntime) : RouteEntry :=
  {| re_Route := de_Route e; re_Connection := de_Connection e |}.

(** Regions are distinct and nonzero, each entry owns a connection of its region
    in the session and the route the table resolves to it, tokens are distinct,
    and every connection is enabled exactly when the node owns them. *)
Record derps_inv (s : DerpConnections C) : Prop := {
  di_regions : NoDup (de_Region <$> dc_entries s);
  di_region : Forall (fun e => 0 < de_Region e <= 65535) (dc_entries s);
  di_at : Forall (entry_at (dc_session s)) (dc_entries s);
  di_ok : Forall (fun d => ok (ds_Connection d)) (dc_session s);
  di_enabled : Forall (fun e => ∀ d, dc_session s !! Z.to_nat (de_Connection e) = Some d →
                 conn_Enabled (ds_Connection d) = dc_enabled s) (dc_entries s);
  di_routes : rt_entries (dc_routes s) = route_of <$> dc_entries s;
  di_route : Forall (fun e => dr_region (de_Route e) = de_Region e) (dc_entries s);
  di_tokens : NoDup ((fun e => dr_token (de_Route e)) <$> dc_entries s);
  di_next : rt_NextRouteToken (dc_routes s) ≠ 0 →
            Forall (fun e => dr_token (de_Route e) < rt_NextRouteToken (dc_routes s)) (dc_entries s);
  di_width : in_width 64 (rt_NextRouteToken (dc_routes s))
}.

Lemma DerpConnections_SetEnabled_spec b s :
  derps_inv s →
  ∃ session, DerpConnections_SetEnabled b s
    = (Ok tt, {| dc_session := session; dc_routes := dc_routes s;
                 dc_entries := dc_entries s; dc_enabled := b |})
  ∧ derps_inv {| dc_session := session; dc_routes := dc_routes s;
                 dc_entries := dc_entries s; dc_enabled := b |}.
Proof.
  intros []. exists (visit (conn_SetEnabled b) (dc_entries s) (dc_session s)). split.
  { unfold DerpConnections_SetEnabled, ebind, emod, eget. simpl.
    rewrite for_entries_visit by assumption. done. }
  constructor; simpl; try done.
  - eapply Forall_impl; [exact di_at0|]. intros. by apply entry_at_visit.
  - apply visit_keep; [|done]. intros. by apply conn_SetEnabled_ok.
  - apply Forall_forall. intros e He d Hd.
    apply (visit_hit (fun c => conn_Enabled c = b) _ _ _ _ _ e) with (6 := Hd); try done.
    + intros. by apply (conn_SetEnabled_Enabled (ok := ok)).
    + intros. by apply conn_SetEnabled_ok.
Qed.

Lemma DerpConnections_ChangeNetwork_spec i s :
  derps_inv s →
  ∃ session, DerpConnections_ChangeNetwork i s
    = (Ok tt, {| dc_session := session; dc_routes := dc_routes s;
                 dc_entries := dc_entries s; dc_enabled := dc_enabled s |})
  ∧ derps_inv {| dc_session := session; dc_routes := dc_routes s;
                 dc_entries := dc_entries s; dc_enabled := dc_enabled s |}.
Proof.
  intros []. exists (visit (conn_ChangeNetwork i) (dc_entries s) (dc_session s)). split.
  { unfold DerpConnections_ChangeNetwork, ebind, eget. by rewrite for_entries_visit by assumption. }
  constructor; simpl; try done.
  - eapply Forall_impl; [exact di_at0|]. intros. by apply entry_at_visit.
  - apply visit_keep; [|done]. intros. by apply conn_ChangeNetwork_ok.
  - clear -di_ok0 di_enabled0 ConnectionLaws0.
    assert (∀ L session, Forall (fun d => ok (ds_Connection d)) session →
      ∀ j d', visit (conn_ChangeNetwork i) L session !! j = Some d' →
      ∃ d, session !! j = Some d ∧ conn_Enabled (ds_Connection d') = conn_Enabled (ds_Connection d))
      as Hv.
    { intros L. induction L as [|e L IH]; intros session Hok j d' Hd'; simpl in Hd'; [eauto|].
      apply IH in Hd' as (d & Hd & ->).
      - rewrite list_lookup_alter in Hd. case_decide; [|eauto]. subst j.
        rewrite Forall_lookup in Hok.
        destruct (session !! _) as [d0|] eqn:Hd0; simpl in Hd; [|done]. injection Hd as <-.
        exists d0. split; [done|]. simpl. apply conn_ChangeNetwork_Enabled. by eapply Hok.
      - apply (visit_keep ok _ [e]); [|done]. intros. by apply conn_ChangeNetwork_ok. }
    eapply Forall_impl; [exact di_enabled0|]. intros e He d' Hd'.
    apply Hv in Hd' as (d & Hd & ->); [by apply He|done].
Qed.

Lemma find_region_spec region i l :
  match find_region region i l with
  | Some j => ∃ e, i <= j ∧ l !! Z.to_nat (j - i) = Some e ∧ de_Region e = region
  | None => Forall (fun e => de_Region e ≠ region) l
  end.
Proof.
  revert i. induction l as [|e l IH]; intros i; simpl; [constructor|].
  destruct (de_Region e =? region) eqn:E; b2p.
  - exists e. rewrite Z.sub_diag. split_and!; [lia|done|done].
  - specialize (IH (i + 1)). destruct (find_region _ _ l) as [j|]; [|by constructor].
    destruct IH as (e' & ? & Hj & ?). exists e'. split_and!; [lia| |done].
    by replace (Z.to_nat (j - i)) with (S (Z.to_nat (j - (i + 1)))) by lia.
Qed.

Lemma entry_at_app session ext e : entry_at session e → entry_at (session ++ ext) e.
Proof.
  intros [Hp (d & Hd & Hr)]. split; [done|]. exists d. split; [|done].
  by rewrite lookup_app_l by (by eapply lookup_lt_Some).
Qed.

Section ensure.
  Variable Create : Z → list Z → bool → Z → bool → C.
  Hypothesis Create_ok : ∀ region host preferred index enabled,
    ok (Create region host preferred index enabled)
    ∧ conn_Enabled (Create region host preferred index enabled) = enabled.

(** What a new entry adds. *)
Definition ensured (s : DerpConnections C) (region : Z) (host : list Z) (preferred : bool)
    : DerpConnections C :=
  let id := zlen (dc_session s) in
  let token := rt_NextRouteToken (dc_routes s) in
  let route := {| dr_token := token; dr_region := region |} in
  {| dc_session := dc_session s ++ [{| ds_Region := region;
       ds_Connection := Create region host preferred (zlen (dc_entries s)) (dc_enabled s) |}];
     dc_routes := {| rt_entries := rt_entries (dc_routes s)
                       ++ [{| re_Route := route; re_Connection := id |}];
                     rt_NextRouteToken := u64 (token + 1) |};
     dc_entries := dc_entries s ++ [{| de_Region := region; de_Host := host;
                                       de_Connection := id; de_Route := route |}];
     dc_enabled := dc_enabled s |}.

Lemma DerpConnections_Ensure_eq region host preferred s :
  rt_NextRouteToken (dc_routes s) ≠ 0 →
  DerpConnections_Ensure Create region host preferred s
  = match find_region region 0 (dc_entries s) with
    | Some index => (Ok index, s)
    | None =>
        if (region <=? 0) || (65535 <? region) || bool_decide (host = [])
        then (Throw (NodeError "InvalidDerpRegion"), s)
        else (Ok (zlen (dc_entries s)), ensured s region host preferred)
    end.
Proof.
  intros Ht. unfold DerpConnections_Ensure, ebind, eget. simpl.
  destruct (find_region _ _ _) eqn:Ef; [done|].
  destruct (_ || bool_decide _) eqn:E; [done|]. b2p. destruct E as [[E1 E2] _].
  unfold on_session, SessionImpl_AddDerpConnection, ebind, eget, emod, eret.
  rewrite (proj2 (Z.eqb_neq region 0)) by lia. simpl.
  unfold on_routes, DerpRouteTable_Register, ebind, eget, emod, eret.
  rewrite (wrap_id 16 region) by (unfold in_width; lia).
  rewrite (proj2 (Z.eqb_neq region 0)) by lia. simpl.
  rewrite (proj2 (Z.eqb_neq _ 0)) by done. simpl. f_equal. zsimp. f_equal. lia.
Qed.

Lemma derps_inv_ensured region host preferred s :
  derps_inv s → rt_NextRouteToken (dc_routes s) ≠ 0 → 0 < region <= 65535 →
  Forall (fun e => de_Region e ≠ region) (dc_entries s) →
  derps_inv (ensured s region host preferred).
Proof.
  intros [Hregs Hreg Hat Hok Hen Hroutes Hroute Htok Hnext Hw] Ht Hr Hnew.
  specialize (Hnext Ht). set (new := zlen (dc_session s)).
  assert (dc_session (ensured s region host preferred) !! Z.to_nat new
    = Some {| ds_Region := region; ds_Connection :=
        Create region host preferred (zlen (dc_entries s)) (dc_enabled s) |}) as Hlast.
  { simpl. unfold new, zlen. rewrite Nat2Z.id. by rewrite lookup_app_r, Nat.sub_diag by lia. }
  constructor; cbn [ensured dc_session dc_routes dc_entries dc_enabled rt_entries rt_NextRouteToken].
  - rewrite fmap_app. apply NoDup_app. split_and!; [done| |apply NoDup_singleton].
    intros x (e & -> & He)%list_elem_of_fmap. rewrite Forall_forall in Hnew.
    intros Hx%list_elem_of_singleton. simpl in Hx. by apply (Hnew e He).
  - apply Forall_app_2; [done|]. by forall_intro.
  - apply Forall_app_2.
    + eapply Forall_impl; [exact Hat|]. intros. by apply entry_at_app.
    + forall_intro. split; [apply zlen_nonneg|]. eexists. by split; [exact Hlast|].
  - apply Forall_app_2; [done|]. forall_intro. simpl. apply Create_ok.
  - apply Forall_app_2.
    + rewrite Forall_forall in Hat, Hen. apply Forall_forall. intros e He d.
      destruct (Hat e He) as [_ (d0 & Hd0 & _)].
      rewrite lookup_app_l by (by eapply lookup_lt_Some). by apply Hen.
    + forall_intro. intros d. cbn [de_Connection]. fold new.
      change (dc_session s ++ _) with (dc_session (ensured s region host preferred)).
      rewrite Hlast. intros [= <-]. apply Create_ok.
  - by rewrite fmap_app, Hroutes.
  - apply Forall_app_2; [done|]. by forall_intro.
  - rewrite fmap_app. apply NoDup_app. split_and!; [done| |apply NoDup_singleton].
    intros x (e & -> & He)%list_elem_of_fmap. rewrite Forall_forall in Hnext.
    intros Hx%list_elem_of_singleton. simpl in Hx. specialize (Hnext e He). lia.
  - intros Hn0. unfold in_width in Hw.
    assert (u64 (rt_NextRouteToken (dc_routes s) + 1) = rt_NextRouteToken (dc_routes s) + 1) as ->.
    { destruct (Z.eq_dec (rt_NextRouteToken (dc_routes s) + 1) (2 ^ 64)) as [He|He].
      - exfalso. apply Hn0. by rewrite He.
      - apply wrap_id. unfold in_width. lia. }
    apply Forall_app_2; [|forall_intro; simpl; lia].
    eapply Forall_impl; [exact Hnext|]. simpl. lia.
  - by apply wrap_range.
Qed.

End ensure.

Lemma find_In {A} (f : A → bool) l x :
  x ∈ l → f x = true → ∃ y, List.find f l = Some y ∧ y ∈ l ∧ f y = true.
Proof.
  intros Hx Hf. destruct (List.find f l) as [y|] eqn:E.
  - apply find_some in E as [Hin ?]. exists y. by rewrite list_elem_of_In.
  - eapply find_none in E; [by rewrite Hf in E|]. by apply list_elem_of_In.
Qed.

(** [ForRegion] of a known region is the connection of that region. *)
Lemma DerpConnections_ForRegion_known s region :
  derps_inv s → region ∈ (de_Region <$> dc_entries s) →
  ∃ d, d ∈ dc_session s ∧ ds_Region d = region
    ∧ conn_Enabled (ds_Connection d) = dc_enabled s ∧ ok (ds_Connection d)
    ∧ DerpConnections_ForRegion s region = Ok (ds_Connection d).
Proof.
  intros [] (e & -> & He)%list_elem_of_fmap.
  destruct (find_In (fun e' => de_Region e' =? de_Region e) _ _ He) as (e' & Hf & He' & Heq);
    [apply Z.eqb_refl|]. b2p.
  rewrite Forall_forall in di_at0, di_enabled0.
  destruct (di_at0 e' He') as [Hp (d & Hd & Hr)]. exists d.
  rewrite Forall_forall in di_ok0. pose proof (list_elem_of_lookup_2 _ _ _ Hd).
  split_and!; [done|congruence|by apply (di_enabled0 e')|by apply di_ok0|].
  unfold DerpConnections_ForRegion. rewrite Hf.
  destruct (dc_entries s); [by apply not_elem_of_nil in He|].
  by apply SessionImpl_DerpConnection_at.
Qed.

Lemma DerpConnections_ForRegion_entry s e x :
  derps_inv s → e ∈ dc_entries s → dc_session s !! Z.to_nat (de_Connection e) = Some x →
  DerpConnections_ForRegion s (de_Region e) = Ok (ds_Connection x).
Proof.
  intros Hs He Hx.
  destruct (find_In (fun e' => de_Region e' =? de_Region e) _ _ He) as (e' & Hf & He' & Heq);
    [apply Z.eqb_refl|]. b2p. unfold DerpConnections_ForRegion. rewrite Hf.
  assert (e' = e) as ->.
  { apply list_elem_of_lookup in He as [i Hi], He' as [j Hj].
    assert (i = j) as ->; [|congruence].
    apply (NoDup_lookup _ i j (de_Region e) (di_regions s Hs));
      rewrite list_lookup_fmap, ?Hi, ?Hj; simpl; congruence. }
  destruct (dc_entries s) eqn:E; [by apply not_elem_of_nil in He|].
  apply SessionImpl_DerpConnection_at; [|done].
  pose proof (di_at s Hs) as Hat. rewrite Forall_forall, E in Hat. by apply (Hat e).
Qed.

(** [ForRoute] of a registered route is the connection of its entry. *)
Lemma DerpConnections_ForRoute_known s e :
  derps_inv s → e ∈ dc_entries s →
  ∃ d, dc_session s !! Z.to_nat (de_Connection e) = Some d ∧ ds_Region d = de_Region e
    ∧ DerpConnections_ForRoute s (de_Route e) = Ok (Some (ds_Connection d)).
Proof.
  intros [] He. rewrite Forall_forall in di_at0.
  destruct (di_at0 e He) as [Hp (d & Hd & Hr)]. exists d. split_and!; [done..|].
  unfold DerpConnections_ForRoute, DerpRouteTable_Resolve. rewrite di_routes0.
  destruct (find_In (fun e' => bool_decide (re_Route e' = de_Route e)) (route_of <$> dc_entries s)
    (route_of e)) as (y & -> & Hy & Hroute).
  { apply list_elem_of_fmap. eauto. }
  { by apply bool_decide_eq_true. }
  apply bool_decide_eq_true in Hroute. apply list_elem_of_fmap in Hy as (e' & -> & He').
  simpl in *. assert (e' = e) as ->.
  { apply list_elem_of_lookup in He as [i Hi], He' as [j Hj].
    assert (i = j) as ->.
    { apply (NoDup_lookup _ i j (dr_token (de_Route e)) di_tokens0);
        rewrite list_lookup_fmap, ?Hi, ?Hj; simpl; congruence. }
    congruence. }
  by rewrite (SessionImpl_DerpConnection_at _ _ d).
Qed.

Lemma all_connected_known d regions :
  derps_inv d → Forall (fun r => r ∈ (de_Region <$> dc_entries d)) regions →
  ∃ b, all_connected d regions = Ok b
    ∧ (b = true → regions ≠ [] → dc_enabled d = true).
Proof.
  intros Hd. induction 1 as [|r regions Hr _ (b & IH & _)]; simpl; [by exists true|].
  destruct (DerpConnections_ForRegion_known d r Hd Hr) as (c & _ & _ & Hen & Hok & ->). simpl.
  destruct (conn_Connected _) eqn:Hc; [|by exists false]. exists b. split; [done|]. intros _ _.
  rewrite <- Hen. destruct (conn_Enabled (ds_Connection c)) eqn:E; [done|].
  by rewrite (conn_disabled_disconnected (ok := ok)) in Hc.
Qed.

(** ** The lease *)

Definition reply_for (r : DelegationRequest) status failure : DelegationReply :=
  {| rp_Generation := rq_Generation r; rp_RequestId := rq_RequestId r;
     rp_MapRevision := rq_MapRevision r; rp_Status := status; rp_Failure := failure |}.

Definition known_regions (d : DerpConnections C) (r : DelegationRequest) : Prop :=
  Forall (fun region => region ∈ (de_Region <$> dc_entries d)) (rq_Regions r).

(** The status with which the lease answers each action. *)
Definition answers (a : DelegationAction) : DelegationStatus :=
  match a with
  | Action_Prepare => Status_Prepared
  | Action_Release => Status_Released
  | Action_Acquire => Status_Ready
  | Action_Commit => Status_Committed
  end.

(** The recorded reply is to the current request: its action's answer, or that
    the lease expired. *)
Definition recorded (r : DelegationRequest) (p : DelegationReply) : Prop :=
  p = reply_for r (answers (rq_Action r)) Failure_None
  ∨ p = reply_for r Status_Failed Failure_LeaseExpired.

Definition is_reply_frame (f : Frame) : Prop :=
  ∃ p, Reply_wf p ∧ EncodeDelegationReply p = Ok f ∧ DecodeDelegationReply f = Ok (Some p).

Record lease_inv (s : DelegationLease C) : Prop := {
  li_derps : derps_inv (dl_derps s);
  li_request : ∀ r, dl_request s = Some r → Request_wf r ∧ known_regions (dl_derps s) r;
  li_reply : ∀ p, dl_reply s = Some p → ∃ r, dl_request s = Some r ∧ recorded r p;
  li_deadline : ∀ t, dl_deadline s = Some t →
    ∃ r, dl_request s = Some r ∧ rq_Action r ≠ Action_Commit;
  li_output : zlen (dl_output s) <= MaximumReplies;
  li_frames : Forall is_reply_frame (dl_output s);
  (** Ownership taken by [Release] or [Acquire] and not committed: it is given up
      once the lease has ended, and during a release. *)
  li_changed : dl_changedOwnership s = true → ∃ r, dl_request s = Some r
    ∧ (rq_Action r = Action_Release ∨ rq_Action r = Action_Acquire)
    ∧ (dl_deadline s = None ∨ rq_Action r = Action_Release → dc_enabled (dl_derps s) = false)
}.

Lemma reply_for_wf r status failure :
  Request_wf r → (status = Status_Failed ↔ failure ≠ Failure_None) →
  Reply_wf (reply_for r status failure).
Proof. intros [Hid _] Hc. by split. Qed.

Lemma recorded_wf r p : Request_wf r → recorded r p → Reply_wf p.
Proof.
  intros Hr [->| ->]; apply reply_for_wf; try done. by destruct (rq_Action r).
Qed.

(** The state after a reply is queued. *)
Definition queued (p : DelegationReply) (f : Frame) (s : DelegationLease C) : DelegationLease C :=
  dl_set_output (dl_output s ++ [f]) (dl_set_reply (Some p) s).

Lemma wp_push_reply p (s : DelegationLease C) :
  Reply_wf p →
  wp (push_reply p) (fun r s' => ∃ f, r = Ok tt ∧ is_reply_frame f
    ∧ EncodeDelegationReply p = Ok f ∧ s' = dl_set_output (dl_output s ++ [f]) s) s.
Proof.
  intros Hp. destruct (Reply_roundtrip p Hp) as (f & Hf & _ & _ & Hd).
  unfold push_reply. wp_auto. rewrite Hf. wp_auto. exists f. split_and!; try done. by exists p.
Qed.

Lemma wp_Reply r status failure (s : DelegationLease C) :
  dl_request s = Some r → Request_wf r → (status = Status_Failed ↔ failure ≠ Failure_None) →
  wp (DelegationLease_Reply status failure) (fun res s' =>
    (∃ f, res = Ok tt ∧ zlen (dl_output s) < MaximumReplies ∧ is_reply_frame f
       ∧ EncodeDelegationReply (reply_for r status failure) = Ok f
       ∧ s' = queued (reply_for r status failure) f s)
    ∨ (res = Throw no_buffer_space ∧ MaximumReplies <= zlen (dl_output s) ∧ s' = s)) s.
Proof.
  intros Hr Hwf Hc. unfold DelegationLease_Reply. wp_auto.
  ifb; b2p; wp_auto; [by right|]. rewrite Hr. cbn [deref]. wp_auto.
  eapply wp_mono; [by apply wp_push_reply, (reply_for_wf r)|].
  intros res s' (f & -> & Hf & He & ->). left. exists f. by split_and!.
Qed.

Lemma wp_Fail r failure (s : DelegationLease C) :
  Request_wf r → failure ≠ Failure_None →
  wp (DelegationLease_Fail r failure) (fun res s' =>
    (∃ f, res = Ok tt ∧ zlen (dl_output s) < MaximumReplies ∧ is_reply_frame f
       ∧ EncodeDelegationReply (reply_for r Status_Failed failure) = Ok f
       ∧ s' = dl_set_output (dl_output s ++ [f]) s)
    ∨ (res = Throw no_buffer_space ∧ MaximumReplies <= zlen (dl_output s) ∧ s' = s)) s.
Proof.
  intros Hwf Hf. unfold DelegationLease_Fail. wp_auto. ifb; b2p; wp_auto; [by right|].
  eapply wp_mono; [by apply wp_push_reply, (reply_for_wf r Status_Failed failure)|].
  intros res s' (f & -> & ? & ? & ->). left. eauto 8.
Qed.

(** The connections after [Enable]. *)
Definition owned (b : bool) (d d' : DerpConnections C) : Prop :=
  derps_inv d' ∧ dc_entries d' = dc_entries d ∧ dc_routes d' = dc_routes d ∧ dc_enabled d' = b.

Lemma wp_Enable b (s : DelegationLease C) :
  derps_inv (dl_derps s) →
  wp (DelegationLease_Enable b) (fun res s' => ∃ d, res = Ok tt ∧ owned b (dl_derps s) d
    ∧ s' = dl_set_derps d s) s.
Proof.
  intros (session & He & Hinv)%(DerpConnections_SetEnabled_spec b).
  unfold wp, DelegationLease_Enable, on_derps. rewrite He. eexists. by split_and!.
Qed.

(** The connections after an optional [Enable(false)]. *)
Definition released_if (c : bool) (d d' : DerpConnections C) : Prop :=
  if c then owned false d d' else d' = d.

Lemma wp_Enable_if (c : bool) (s : DelegationLease C) :
  derps_inv (dl_derps s) →
  wp (if c then DelegationLease_Enable false else eret tt) (fun res s' => ∃ d, res = Ok tt
    ∧ released_if c (dl_derps s) d ∧ s' = dl_set_derps d s) s.
Proof.
  intros Hd. destruct c; [by apply wp_Enable|]. apply wp_ret. exists (dl_derps s).
  split_and!; [done..|by destruct s].
Qed.

(** What [Poll] does. *)
Inductive poll_result (now : Z) (s : DelegationLease C) : outcome unit → DelegationLease C → Prop :=
  | poll_idle :
      (∀ d, dl_deadline s = Some d → now < d) → poll_result now s (Ok tt) s
  | poll_ready r d f :
      dl_request s = Some r → dl_deadline s = Some d → now < d →
      rq_Action r = Action_Acquire → dl_reply s = None → dc_enabled (dl_derps s) = true →
      zlen (dl_output s) < MaximumReplies → is_reply_frame f →
      EncodeDelegationReply (reply_for r Status_Ready Failure_None) = Ok f →
      poll_result now s (Ok tt) (queued (reply_for r Status_Ready Failure_None) f s)
  | poll_full d :
      dl_deadline s = Some d → now < d → MaximumReplies <= zlen (dl_output s) →
      poll_result now s (Throw no_buffer_space) s
  | poll_expired r d derps f :
      dl_request s = Some r → dl_deadline s = Some d → d <= now →
      released_if (dl_changedOwnership s) (dl_derps s) derps →
      zlen (dl_output s) < MaximumReplies → is_reply_frame f →
      EncodeDelegationReply (reply_for r Status_Failed Failure_LeaseExpired) = Ok f →
      poll_result now s (Ok tt)
        (queued (reply_for r Status_Failed Failure_LeaseExpired) f
           (dl_set_deadline None (dl_set_derps derps s)))
  | poll_expired_full d derps :
      dl_deadline s = Some d → d <= now →
      released_if (dl_changedOwnership s) (dl_derps s) derps →
      MaximumReplies <= zlen (dl_output s) →
      poll_result now s (Throw no_buffer_space) (dl_set_deadline None (dl_set_derps derps s)).

Lemma Request_wf_regions r : Request_wf r → rq_Regions r ≠ [].
Proof. intros (_ & Hl & _) H. rewrite H in Hl. simpl in Hl. change (zlen (@nil Z)) with 0 in Hl. lia. Qed.

Lemma wp_Poll now s :
  lease_inv s → wp (DelegationLease_Poll now) (poll_result now s) s.
Proof.
  intros Hinv. unfold DelegationLease_Poll. wp_auto.
  destruct (dl_deadline s) as [d|] eqn:Hd; [|wp_auto; by apply poll_idle; congruence].
  destruct (li_deadline s Hinv d Hd) as (r & Hr & _).
  destruct (li_request s Hinv r Hr) as [Hwf Hknown].
  destruct (d <=? now) eqn:E; b2p.
  - apply wp_bind. eapply wp_mono; [by apply wp_Enable_if, li_derps|].
    intros res s' (derps & -> & Hderps & ->). wp_auto.
    eapply wp_mono; [by apply (wp_Reply r)|]. intros res s' [(f & -> & ? & ? & ? & ->)|(-> & ? & ->)].
    + by eapply poll_expired.
    + by eapply poll_expired_full.
  - rewrite Hr. cbn [deref]. wp_auto. ifb; [|wp_auto; apply poll_idle; congruence].
    apply andb_true_iff in E0 as [Ea%bool_decide_eq_true Erep%bool_decide_eq_true].
    unfold DelegationLease_Ready. apply wp_bind. wp_auto. rewrite Hr. cbn [deref]. wp_auto.
    destruct (all_connected_known _ _ (li_derps s Hinv) Hknown) as (b & -> & Hen).
    destruct b; [|wp_auto; apply poll_idle; congruence].
    eapply wp_mono; [by apply (wp_Reply r)|]. intros res s' [(f & -> & ? & ? & ? & ->)|(-> & ? & ->)].
    + eapply poll_ready; try done. apply Hen; [done|by apply Request_wf_regions].
    + by eapply poll_full.
Qed.

Lemma released_if_inv c d d' :
  derps_inv d → released_if c d d' → derps_inv d' ∧ dc_entries d' = dc_entries d
    ∧ dc_enabled d' = if c then false else dc_enabled d.
Proof. destruct c; [by intros _ (? & ? & ? & ?)|by intros ? ->]. Qed.

Lemma known_regions_entries d d' r :
  dc_entries d' = dc_entries d → known_regions d r → known_regions d' r.
Proof. unfold known_regions. by intros ->. Qed.

Lemma recorded_expired r : recorded r (reply_for r Status_Failed Failure_LeaseExpired).
Proof. by right. Qed.

Lemma lease_inv_queue s f :
  lease_inv s → zlen (dl_output s) < MaximumReplies → is_reply_frame f →
  lease_inv (dl_set_output (dl_output s ++ [f]) s).
Proof.
  intros [] Hl Hf. constructor; simpl; try done.
  - unfold zlen. rewrite length_app. simpl. unfold zlen in Hl. lia.
  - apply Forall_app_2; [done|by forall_intro].
Qed.

Lemma lease_inv_reply s r p :
  lease_inv s → dl_request s = Some r → recorded r p → lease_inv (dl_set_reply (Some p) s).
Proof. intros [] Hr Hp. constructor; simpl; try done. intros ? [= <-]. eauto. Qed.

Lemma lease_inv_queued s r p f :
  lease_inv s → dl_request s = Some r → recorded r p → zlen (dl_output s) < MaximumReplies →
  is_reply_frame f → lease_inv (queued p f s).
Proof.
  intros Hs Hr Hp Hl Hf.
  by apply (lease_inv_queue (dl_set_reply (Some p) s)); [eapply lease_inv_reply|..].
Qed.

(** Ending the lease with the ownership it took given up. *)
Lemma lease_inv_ended s derps :
  lease_inv s → released_if (dl_changedOwnership s) (dl_derps s) derps →
  lease_inv (dl_set_deadline None (dl_set_derps derps s)).
Proof.
  intros Hinv Hd. destruct (released_if_inv _ _ _ (li_derps s Hinv) Hd) as (Hd' & He & Hen).
  destruct Hinv. constructor; simpl; try done.
  - intros r Hr. destruct (li_request0 r Hr). split; [done|]. by eapply known_regions_entries.
  - intros Hc. destruct (li_changed0 Hc) as (r & ? & ? & _). exists r. split_and!; try done.
    intros _. by rewrite Hen, Hc.
Qed.

Lemma poll_result_inv now s res s' :
  lease_inv s → poll_result now s res s' → lease_inv s'.
Proof.
  intros Hinv Hp. destruct Hp as
    [Hidle|r d f Hr Hd Hnow Ha Hrep Hen Hl Hf He|d Hd Hnow Hl|r d derps f Hr Hd Hnow Hrel Hl Hf He
    |d derps Hd Hnow Hrel Hl]; try done.
  - eapply lease_inv_queued; try done. left. by rewrite Ha.
  - pose proof (lease_inv_ended s derps Hinv Hrel) as Hend.
    eapply lease_inv_queued with (r := r); try done. apply recorded_expired.
  - by apply lease_inv_ended.
Qed.

Lemma poll_result_outcome now s res s' :
  poll_result now s res s' →
  res = Ok tt ∨ (res = Throw no_buffer_space ∧ MaximumReplies <= zlen (dl_output s')).
Proof. destruct 1; auto. Qed.

(** The state an accepted request starts its action from. *)
Definition entered (r : DelegationRequest) (now : Z) (derps : DerpConnections C)
    (s : DelegationLease C) : DelegationLease C :=
  dl_set_deadline (Some (now + LeaseDuration)) (dl_set_reply None
    (dl_set_request (Some r) (dl_set_derps derps s))).

Definition supersedes (s : DelegationLease C) (r : DelegationRequest) : bool :=
  match dl_request s with
  | Some r0 => (rq_Generation r0 <? rq_Generation r) && dl_changedOwnership s
  | None => false
  end.

Lemma wp_entered (k : eff (DelegationLease C) unit) r now s Q :
  derps_inv (dl_derps s) →
  (∀ derps, released_if (supersedes s r) (dl_derps s) derps → wp k Q (entered r now derps s)) →
  wp ((match dl_request s with
       | Some r0 => if (rq_Generation r0 <? rq_Generation r) && dl_changedOwnership s
                    then DelegationLease_Enable false else eret tt
       | None => eret tt
       end) ;;*
      emod (dl_set_request (Some r)) ;;* emod (dl_set_reply None) ;;*
      emod (dl_set_deadline (Some (now + LeaseDuration))) ;;* k) Q s.
Proof.
  intros Hd Hk. apply wp_bind. eapply wp_mono with (Q := fun res s' => ∃ d, res = Ok tt
    ∧ released_if (supersedes s r) (dl_derps s) d ∧ s' = dl_set_derps d s).
  - pose proof (wp_Enable_if (supersedes s r) s Hd) as H. unfold supersedes in *.
    by destruct (dl_request s).
  - intros res s' (derps & -> & Hrel & ->). wp_auto. by apply Hk.
Qed.

(** The state from which an action of [r] answers. *)
Definition acting (r : DelegationRequest) (derps : DerpConnections C) (deadline : option Z)
    (changed : bool) (s : DelegationLease C) : DelegationLease C :=
  {| dl_derps := derps; dl_revision := dl_revision s; dl_request := Some r; dl_reply := None;
     dl_deadline := deadline; dl_output := dl_output s; dl_changedOwnership := changed |}.

Lemma lease_inv_acting r derps deadline changed s :
  lease_inv s → Request_wf r → known_regions (dl_derps s) r →
  derps_inv derps → dc_entries derps = dc_entries (dl_derps s) →
  (deadline = None ↔ rq_Action r = Action_Commit) →
  (changed = true ↔ rq_Action r = Action_Release ∨ rq_Action r = Action_Acquire) →
  (rq_Action r = Action_Release → dc_enabled derps = false) →
  lease_inv (acting r derps deadline changed s).
Proof.
  intros [] Hwf Hk Hd He Hdl Hc Hen. constructor; simpl; try done.
  - intros ? [= <-]. split; [done|]. by eapply known_regions_entries.
  - intros t ->. exists r. split; [done|]. intros H. by apply Hdl in H.
  - intros H. apply Hc in H. exists r. split_and!; [done..|]. intros [Hdn|Hr]; [|by apply Hen].
    apply Hdl in Hdn. by destruct H; congruence.
Qed.

(** What an accepted request does: the connections it leaves enabled, and the
    reply it queues. *)
Definition transition_post (r : DelegationRequest) (s : DelegationLease C) (res : outcome unit)
    (s' : DelegationLease C) : Prop :=
  lease_inv s' ∧ dl_request s' = Some r
  ∧ (res = Ok tt ∨ (res = Throw no_buffer_space ∧ MaximumReplies <= zlen (dl_output s')))
  ∧ (dc_enabled (dl_derps s') = true → dc_enabled (dl_derps s) = true ∨ rq_Action r = Action_Acquire).

(** The closing reply of an action other than [Acquire]. *)
Lemma wp_answer r derps deadline changed s :
  lease_inv (acting r derps deadline changed s) → rq_Action r ≠ Action_Acquire →
  (dc_enabled derps = true → dc_enabled (dl_derps s) = true) →
  wp (DelegationLease_Reply (answers (rq_Action r)) Failure_None) (transition_post r s)
    (acting r derps deadline changed s).
Proof.
  intros Hinv Ha Hen. destruct (li_request _ Hinv r eq_refl) as [Hwf _].
  eapply wp_mono; [apply (wp_Reply r); [done|done|by destruct (rq_Action r)]|].
  intros res s' [(f & -> & Hl & Hf & He & ->)|(-> & Hl & ->)]; split_and!; auto.
  - eapply lease_inv_queued with (r := r); try done. by left.
Qed.

Lemma wp_Accept_transition r now later s :
  lease_inv s → Request_wf r → known_regions (dl_derps s) r →
  wp (Accept_transition r now later) (transition_post r s) s.
Proof.
  intros Hinv Hwf Hk. unfold Accept_transition. wp_auto.
  apply wp_entered; [by apply li_derps|]. intros derps Hrel.
  destruct (released_if_inv _ _ _ (li_derps s Hinv) Hrel) as (Hd & He & Hen).
  assert (dc_enabled derps = true → dc_enabled (dl_derps s) = true) as Hen'.
  { rewrite Hen. by destruct (supersedes s r). }
  pose proof (fun t d => wp_answer r derps t d s) as Hans.
  destruct (rq_Action r) eqn:Ha; simpl in Hans; wp_auto.
  - apply (Hans (Some (now + LeaseDuration)) false); [|done..].
    by apply lease_inv_acting; try done; rewrite ?Ha; naive_solver.
  - apply wp_bind. eapply wp_mono; [by apply wp_Enable|].
    intros res s' (d & -> & (Hd' & He' & _ & Hoff) & ->). wp_auto.
    pose proof (wp_answer r d (Some (now + LeaseDuration)) true s) as H. rewrite Ha in H.
    apply H; [|done|by rewrite Hoff].
    apply lease_inv_acting; try done; rewrite ?Ha; [simpl in He'; congruence|naive_solver..].
  - apply wp_bind. eapply wp_mono; [by apply wp_Enable|].
    intros res s' (d & -> & (Hd' & He' & _ & Hon) & ->). wp_auto.
    assert (lease_inv (acting r d (Some (now + LeaseDuration)) true s)) as Hact.
    { apply lease_inv_acting; try done; rewrite ?Ha; [simpl in He'; congruence|naive_solver..]. }
    eapply wp_mono; [apply (wp_Poll later _ Hact)|]. intros res s' Hp. split_and!.
    + by eapply poll_result_inv.
    + by destruct Hp.
    + by apply poll_result_outcome in Hp.
    + intros _. by right.
  - apply (Hans None false); [|done..].
    by apply lease_inv_acting; try done; rewrite ?Ha; naive_solver.
Qed.

Lemma unknown_region_false (s : DelegationLease C) r :
  unknown_region s r = false → known_regions (dl_derps s) r.
Proof.
  unfold unknown_region, known_regions. intros H. apply Forall_forall. intros region Hr.
  apply not_true_iff_false in H. rewrite existsb_exists in H.
  destruct (existsb (fun e => de_Region e =? region) (dc_entries (dl_derps s))) eqn:E.
  - apply existsb_exists in E as (e & He & Heq). b2p. apply list_elem_of_fmap. exists e.
    split; [done|by apply list_elem_of_In].
  - exfalso. apply H. exists region. split; [by apply list_elem_of_In|by rewrite E].
Qed.

(** The request is answered without touching the lease. *)
Definition answered (s : DelegationLease C) (res : outcome unit) (s' : DelegationLease C) : Prop :=
  (∃ frames, res = Ok tt ∧ s' = dl_set_output (dl_output s ++ frames) s
     ∧ Forall is_reply_frame frames ∧ zlen frames <= 1
     ∧ zlen (dl_output s ++ frames) <= MaximumReplies)
  ∨ (res = Throw no_buffer_space ∧ MaximumReplies <= zlen (dl_output s) ∧ s' = s).

Lemma answered_inv s res s' : lease_inv s → answered s res s' → lease_inv s'.
Proof.
  intros Hinv [(frames & -> & -> & Hf & _ & Hl)|(-> & _ & ->)]; [|done].
  destruct Hinv. constructor; simpl; try done. by apply Forall_app_2.
Qed.

Lemma wp_Fail_answered r failure s :
  Request_wf r → failure ≠ Failure_None →
  wp (DelegationLease_Fail r failure) (answered s) s.
Proof.
  intros Hwf Hf. eapply wp_mono; [by apply wp_Fail|].
  intros res s' [(f & -> & Hl & ? & _ & ->)|(-> & ? & ->)]; [left|by right].
  exists [f]. split_and!; [done..|by forall_intro|done|]. rewrite zlen_app. change (zlen [f]) with 1. lia.
Qed.

Lemma wp_repeat_answered s r :
  lease_inv s → dl_request s = Some r →
  wp (match dl_reply s with
      | Some reply =>
          if MaximumReplies <=? zlen (dl_output s) then ethrow no_buffer_space else push_reply reply
      | None => eret tt
      end) (answered s) s.
Proof.
  intros Hinv Hr. destruct (dl_reply s) as [p|] eqn:Hp.
  - destruct (li_reply s Hinv p Hp) as (r' & Hr' & Hrec).
    destruct (li_request s Hinv r' Hr') as [Hwf _].
    ifb; b2p; [apply wp_throw; by right|].
    eapply wp_mono; [by eapply wp_push_reply, recorded_wf|].
    intros res s' (f & -> & ? & _ & ->). left. exists [f].
    split_and!; [done..|by forall_intro|done|]. rewrite zlen_app. change (zlen [f]) with 1. lia.
  - apply wp_ret. left. exists []. rewrite app_nil_r. split_and!; try done; [by destruct s|].
    by apply li_output.
Qed.

(** The guards of [Accept] that lead to a transition. *)
Record acceptable (s : DelegationLease C) (r : DelegationRequest) : Prop := {
  ac_new : dl_request s ≠ Some r ∧ is_stale s r = false;
  ac_map : rq_MapRevision r = dl_revision s;
  ac_known : known_regions (dl_derps s) r;
  ac_lease : outside_lease s r = false;
  ac_state : not_prepared s r = false ∧ not_committable s r = false
}.

(** [Accept] polls, then either answers without touching the lease, or carries
    out a request that passes the guards. *)
Inductive accept_result (r : DelegationRequest) (before : Z) (s : DelegationLease C)
    : outcome unit → DelegationLease C → Prop :=
  | accept_poll res s' :
      poll_result before s res s' → res ≠ Ok tt → accept_result r before s res s'
  | accept_answered s1 res s' :
      poll_result before s (Ok tt) s1 → answered s1 res s' → accept_result r before s res s'
  | accept_transition s1 res s' :
      poll_result before s (Ok tt) s1 → acceptable s1 r → transition_post r s1 res s' →
      accept_result r before s res s'.

Lemma wp_Accept r before now later s :
  lease_inv s → Request_wf r →
  wp (DelegationLease_Accept r before now later) (accept_result r before s) s.
Proof.
  intros Hinv Hwf. unfold DelegationLease_Accept. apply wp_bind.
  eapply wp_mono; [by apply wp_Poll|]. intros res s1 Hp.
  destruct (poll_result_outcome _ _ _ _ Hp) as [->|[-> _]]; [|by apply accept_poll].
  pose proof (poll_result_inv _ _ _ _ Hinv Hp) as Hinv1. wp_auto.
  case_bool_decide as Hdup.
  { eapply wp_mono; [by apply (wp_repeat_answered s1 r)|]. intros. by eapply accept_answered. }
  assert (∀ failure, failure ≠ Failure_None →
    wp (DelegationLease_Fail r failure) (accept_result r before s) s1) as Hfail.
  { intros failure Hf. eapply wp_mono; [by apply wp_Fail_answered|].
    intros. by eapply accept_answered. }
  ifb; [by apply Hfail|]. destruct (negb _) eqn:Emap; [by apply Hfail|]. b2p.
  destruct (unknown_region s1 r) eqn:Ek; [by apply Hfail|]. apply unknown_region_false in Ek.
  destruct (outside_lease s1 r) eqn:El; [by apply Hfail|].
  destruct (not_prepared s1 r) eqn:Ep; [by apply Hfail|].
  destruct (not_committable s1 r) eqn:Ec; [by apply Hfail|].
  eapply wp_mono; [by apply wp_Accept_transition|]. intros. by eapply accept_transition.
Qed.

(** ** Sequences of operations *)

Section lease_ops.
  Variable Create : Z → list Z → bool → Z → bool → C.
  Hypothesis Create_ok : ∀ region host preferred index enabled,
    ok (Create region host preferred index enabled)
    ∧ conn_Enabled (Create region host preferred index enabled) = enabled.

(** What can happen to a lease: the calls of [DelegatedNode], a new region of a
    later map, and progress of the transports on their own. *)
Inductive lease_op :=
  | OpApplyMap (revision : Z)
  | OpAccept (request : DelegationRequest) (before now later : Z)
  | OpPoll (now : Z)
  | OpTakeOutput
  | OpEnsure (region : Z) (host : list Z) (preferred : bool)
  | OpProgress (f : nat → C → C).

Definition progress (f : nat → C → C) (d : DerpConnections C) : DerpConnections C :=
  {| dc_session := imap (fun i d => {| ds_Region := ds_Region d;
       ds_Connection := f i (ds_Connection d) |}) (dc_session d);
     dc_routes := dc_routes d; dc_entries := dc_entries d; dc_enabled := dc_enabled d |}.

Definition discard {S A} (m : eff S A) : eff S unit := m ;;* eret tt.

Definition lease_step (op : lease_op) : eff (DelegationLease C) unit :=
  match op with
  | OpApplyMap revision => DelegationLease_ApplyMap revision
  | OpAccept request before now later => DelegationLease_Accept request before now later
  | OpPoll now => DelegationLease_Poll now
  | OpTakeOutput => discard DelegationLease_TakeOutput
  | OpEnsure region host preferred =>
      discard (on_derps (DerpConnections_Ensure Create region host preferred))
  | OpProgress f => emod (fun s => dl_set_derps (progress f (dl_derps s)) s)
  end.

(** Requests come from [DecodeDelegationRequest], transports do not enable
    themselves, and fewer than 2^64 routes are registered. *)
Definition lease_op_ok (s : DelegationLease C) (op : lease_op) : Prop :=
  match op with
  | OpAccept request _ _ _ => Request_wf request
  | OpEnsure _ _ _ => rt_NextRouteToken (dc_routes (dl_derps s)) ≠ 0
  | OpProgress f => ∀ i c, ok c → ok (f i c) ∧ conn_Enabled (f i c) = conn_Enabled c
  | _ => True
  end.

Definition lease_initial (d : DerpConnections C) : DelegationLease C :=
  {| dl_derps := d; dl_revision := 0; dl_request := None; dl_reply := None; dl_deadline := None;
     dl_output := []; dl_changedOwnership := false |}.

Inductive lease_reachable : DelegationLease C → Prop :=
  | reach_initial d : derps_inv d → lease_reachable (lease_initial d)
  | reach_step s op : lease_reachable s → lease_op_ok s op → lease_reachable (lease_step op s).2.

Lemma derps_inv_progress f d :
  derps_inv d → (∀ i c, ok c → ok (f i c) ∧ conn_Enabled (f i c) = conn_Enabled c) →
  derps_inv (progress f d).
Proof.
  intros [] Hf. constructor; simpl; try done.
  - eapply Forall_impl; [exact di_at0|]. intros e [Hp (x & Hx & Hr)]. split; [done|].
    rewrite list_lookup_imap, Hx. simpl. by eexists.
  - apply Forall_lookup. intros i x. rewrite list_lookup_imap.
    destruct (dc_session d !! i) eqn:Hi; simpl; [|done]. intros [= <-]. simpl.
    rewrite Forall_lookup in di_ok0. by apply Hf, (di_ok0 i).
  - eapply Forall_impl; [exact di_enabled0|]. intros e He x. rewrite list_lookup_imap.
    destruct (dc_session d !! Z.to_nat (de_Connection e)) eqn:Hi; simpl; [|done]. intros [= <-]. simpl.
    rewrite Forall_lookup in di_ok0. rewrite (proj2 (Hf _ _ (di_ok0 _ _ Hi))). by apply He.
Qed.

(** Replacing the connections by others with at least the same entries and the
    same ownership. *)
Lemma lease_inv_set_derps s d :
  lease_inv s → derps_inv d → dc_entries (dl_derps s) `prefix_of` dc_entries d →
  dc_enabled d = dc_enabled (dl_derps s) → lease_inv (dl_set_derps d s).
Proof.
  intros [] Hd [ext He] Hen. constructor; simpl; try done.
  - intros r Hr. destruct (li_request0 r Hr) as [? Hk]. split; [done|].
    eapply Forall_impl; [exact Hk|]. intros region Hin. rewrite He, fmap_app. apply elem_of_app. by left.
  - rewrite Hen. done.
Qed.

Lemma Ensure_entries region host preferred d :
  derps_inv d → rt_NextRouteToken (dc_routes d) ≠ 0 →
  let d' := (DerpConnections_Ensure Create region host preferred d).2 in
  derps_inv d' ∧ dc_entries d `prefix_of` dc_entries d' ∧ dc_enabled d' = dc_enabled d.
Proof.
  intros Hd Ht d'. unfold d'. rewrite DerpConnections_Ensure_eq by done.
  pose proof (find_region_spec region 0 (dc_entries d)) as Hf.
  destruct (find_region _ _ _); [by split_and!|].
  destruct (_ || bool_decide _) eqn:E; [by split_and!|]. b2p. destruct E as [[] _].
  split_and!; [apply derps_inv_ensured; done || lia|by eexists|done].
Qed.

Lemma accept_result_inv r before s res s' :
  lease_inv s → accept_result r before s res s' → lease_inv s'.
Proof.
  intros Hinv Ha. destruct Ha as [res s' Hp _|s1 res s' Hp Ha|s1 res s' Hp _ Ht].
  - by eapply poll_result_inv.
  - eapply answered_inv, Ha. by eapply poll_result_inv.
  - apply Ht.
Qed.

Lemma lease_inv_step s op : lease_inv s → lease_op_ok s op → lease_inv (lease_step op s).2.
Proof.
  intros Hinv Hop. destruct op as [rev|r t0 t1 t2|t| |region host preferred|f]; simpl.
  - destruct Hinv. by constructor.
  - by eapply accept_result_inv, wp_Accept.
  - by eapply poll_result_inv, wp_Poll.
  - destruct Hinv. constructor; simpl; try done.
  - unfold discard, ebind, on_derps.
    destruct (Ensure_entries region host preferred (dl_derps s) (li_derps s Hinv) Hop)
      as (Hd & He & Hen).
    destruct (DerpConnections_Ensure _ _ _ _ _) as [[] d]; simpl in *; by apply lease_inv_set_derps.
  - apply lease_inv_set_derps; try done. apply derps_inv_progress; [by apply li_derps|done].
Qed.

Lemma lease_reachable_inv s : lease_reachable s → lease_inv s.
Proof.
  induction 1 as [d Hd|s op _ IH Hop]; [|by apply lease_inv_step].
  constructor; simpl; try done.
Qed.

(** An operation that turns the connections on. *)
Lemma poll_result_enabled now s res s' :
  lease_inv s → poll_result now s res s' →
  dc_enabled (dl_derps s') = true → dc_enabled (dl_derps s) = true.
Proof.
  intros Hinv. destruct 1 as [| | |r d derps f Hr Hd Hnow Hrel|d derps Hd Hnow Hrel]; try done;
    simpl; destruct (released_if_inv _ _ _ (li_derps s Hinv) Hrel) as (_ & _ & ->);
    by destruct (dl_changedOwnership s).
Qed.

(** The lease is live for the generation and regions of [r] at [now]: it was
    prepared for them under the current map, and has not been used. *)
Definition prepared_for (s : DelegationLease C) (r : DelegationRequest) (now : Z) : Prop :=
  ∃ r0 deadline,
    dl_request s = Some r0 ∧ dl_reply s = Some (reply_for r0 Status_Prepared Failure_None)
    ∧ rq_Action r0 = Action_Prepare
    ∧ rq_Generation r0 = rq_Generation r ∧ rq_Regions r0 = rq_Regions r
    ∧ rq_RequestId r0 < rq_RequestId r ∧ rq_MapRevision r = dl_revision s
    ∧ dl_deadline s = Some deadline ∧ now < deadline.

Lemma outside_lease_false (s : DelegationLease C) r :
  outside_lease s r = false → rq_Action r ≠ Action_Prepare →
  ∃ r0 d, dl_request s = Some r0 ∧ rq_Generation r = rq_Generation r0
    ∧ rq_Regions r = rq_Regions r0 ∧ dl_deadline s = Some d.
Proof.
  unfold outside_lease. intros H Ha. rewrite (bool_decide_eq_false_2 _ Ha) in H. simpl in H.
  destruct (dl_request s) as [r0|]; [|done].
  apply orb_false_iff in H as [[Hg Hr]%orb_false_iff Hd%bool_decide_eq_false].
  apply negb_false_iff, bool_decide_eq_true in Hr. b2p.
  destruct (dl_deadline s) as [d|]; [|done]. by exists r0, d.
Qed.

Lemma reply_status_is_true (s : DelegationLease C) st :
  reply_status_is s st = true → ∃ p, dl_reply s = Some p ∧ rp_Status p = st.
Proof.
  unfold reply_status_is. intros H%bool_decide_eq_true.
  destruct (dl_reply s) as [p|]; [|done]. injection H as <-. by exists p.
Qed.

Lemma acceptable_acquire before s s1 r :
  lease_inv s → poll_result before s (Ok tt) s1 → acceptable s1 r →
  rq_Action r = Action_Acquire ∨ rq_Action r = Action_Release → prepared_for s r before.
Proof.
  intros Hinv Hp [[Hne Hst] Hmap _ Hout [Hprep _]] Ha.
  destruct (outside_lease_false _ _ Hout) as (r0 & d & Hr0 & Hg & Hregs & Hd).
  { by destruct Ha as [-> | ->]. }
  unfold not_prepared in Hprep. apply orb_false_iff in Hprep as [_ Hprep].
  assert (reply_status_is s1 Status_Prepared = true) as Hs1.
  { destruct (reply_status_is s1 Status_Prepared); [done|]. by destruct Ha as [Ha|Ha]; rewrite Ha in Hprep. }
  apply reply_status_is_true in Hs1 as (p & Hp1 & Hps).
  remember (Ok tt) as res eqn:Eres.
  destruct Hp as [Hidle|r1 d1 f Hr1 Hd1 Hnow Ha1 Hrep Hen Hl Hf He| |r1 d1 derps f Hr1 Hd1 Hnow Hrel Hl Hf He|];
    simpl in *; simplify_eq/=.
  destruct (li_reply s Hinv p Hp1) as (r1 & Hr1 & [-> | ->]); [|done]. simplify_eq/=.
  exists r0, d. unfold is_stale in Hst. rewrite Hr0 in Hst.
  apply orb_false_iff in Hst as [_ Hst]. rewrite Hg, Z.eqb_refl in Hst. simpl in Hst. b2p.
  split_and!; try done; try lia; [|by destruct (rq_Action r0)|by apply Hidle].
  rewrite Hp1. by rewrite Hps.
Qed.

(** [DerpConnections::Ensure] of a region and host either finds the region,
    adds it, or rejects an invalid one without changing anything; on success the
    region's connection is the one [ForRegion] returns, it is enabled exactly when
    the node owns its connections, and the route of its entry resolves to it. *)
Theorem DerpConnections_Ensure_routes region host preferred d :
  derps_inv d → rt_NextRouteToken (dc_routes d) ≠ 0 →
  match DerpConnections_Ensure Create region host preferred d with
  | (Ok index, d') =>
      derps_inv d' ∧ dc_entries d `prefix_of` dc_entries d'
      ∧ ∃ e x, dc_entries d' !! Z.to_nat index = Some e ∧ de_Region e = region
        ∧ dc_session d' !! Z.to_nat (de_Connection e) = Some x ∧ ds_Region x = region
        ∧ conn_Enabled (ds_Connection x) = dc_enabled d
        ∧ DerpConnections_ForRegion d' region = Ok (ds_Connection x)
        ∧ DerpConnections_ForRoute d' (de_Route e) = Ok (Some (ds_Connection x))
  | (r, d') =>
      r = Throw (NodeError "InvalidDerpRegion") ∧ d' = d
      ∧ (region <= 0 ∨ 65535 < region ∨ host = [])
  end.
Proof.
  intros Hd Ht. pose proof (Ensure_entries region host preferred d Hd Ht) as (Hd' & Hpre & Hen).
  rewrite DerpConnections_Ensure_eq in * by done.
  pose proof (find_region_spec region 0 (dc_entries d)) as Hf.
  assert (∀ index e d', derps_inv d' → dc_enabled d' = dc_enabled d →
    dc_entries d' !! index = Some e → de_Region e = region →
    ∃ e x, dc_entries d' !! index = Some e ∧ de_Region e = region
      ∧ dc_session d' !! Z.to_nat (de_Connection e) = Some x ∧ ds_Region x = region
      ∧ conn_Enabled (ds_Connection x) = dc_enabled d
      ∧ DerpConnections_ForRegion d' region = Ok (ds_Connection x)
      ∧ DerpConnections_ForRoute d' (de_Route e) = Ok (Some (ds_Connection x))) as Hfound.
  { clear Hf. intros index e d' Hd1 He1 Hi Hreg. exists e.
    pose proof (list_elem_of_lookup_2 _ _ _ Hi) as He.
    destruct (DerpConnections_ForRoute_known d' e Hd1 He) as (x & Hx & Hxr & Hroute).
    exists x. split_and!; try done; [congruence|..].
    - destruct Hd1. rewrite Forall_forall in di_enabled0. rewrite <- He1. by apply (di_enabled0 e).
    - rewrite <- Hreg. by apply DerpConnections_ForRegion_entry. }
  destruct (find_region _ _ _) as [index|] eqn:Ei.
  - destruct Hf as (e & Hi & He & Hr). rewrite Z.sub_0_r in He. split_and!; [done..|].
    by apply (Hfound _ e).
  - destruct (_ || bool_decide _) eqn:E.
    + split_and!; [done..|]. b2p. rewrite bool_decide_eq_true in E. tauto.
    + split_and!; [done..|].
      eapply (Hfound _ _ (ensured Create d region host preferred) Hd' eq_refl).
      * cbn [ensured dc_entries]. unfold zlen at 1. rewrite Nat2Z.id, lookup_app_r, Nat.sub_diag by lia.
        reflexivity.
      * reflexivity.
Qed.

(** Whatever requests, polls, maps, new regions and transport events a lease
    goes through, its invariant holds (recorded replies answer the current
    request, queued frames are at most [MaximumReplies] and all decode, ownership
    taken is given up when the lease ends), and a call returns, or throws
    [no_buffer_space] because that many replies wait; it never dereferences an
    empty request or misses a connection. *)
Theorem DelegationLease_reachable_ok s op :
  lease_reachable s → lease_op_ok s op →
  lease_inv s
  ∧ match op with
    | OpEnsure _ _ _ => True
    | _ => (lease_step op s).1 = Ok tt
           ∨ ((lease_step op s).1 = Throw no_buffer_space
              ∧ zlen (dl_output (lease_step op s).2) = MaximumReplies)
    end.
Proof.
  intros Hs Hop. pose proof (lease_reachable_inv s Hs) as Hinv. split; [done|].
  pose proof (li_output _ (lease_inv_step s op Hinv Hop)) as Ho.
  destruct op as [rev|r t0 t1 t2|t| |region host preferred|f]; auto; simpl in *.
  - destruct (wp_Accept r t0 t1 t2 s Hinv Hop)
      as [res s' Hp _|s1 res s' Hp Ha|s1 res s' Hp _ (_ & _ & Ht & _)].
    + apply poll_result_outcome in Hp as [->|[-> ?]]; [auto|right; split; [done|lia]].
    + destruct Ha as [(? & -> & _)|(-> & ? & ->)]; [auto|right; split; [done|lia]].
    + destruct Ht as [->|[-> ?]]; [auto|right; split; [done|lia]].
  - destruct (poll_result_outcome _ _ _ _ (wp_Poll t s Hinv)) as [->|[-> ?]];
      [auto|right; split; [done|lia]].
Qed.

(** The connections go from released to owned only by an [Acquire] request
    for the generation and the regions of a live lease that is prepared and not
    yet used, under the map the relay has; in particular neither time, nor an
    expired lease, nor a map turns them on. *)
Theorem DelegationLease_acquires_only_when_prepared s op :
  lease_reachable s → lease_op_ok s op →
  dc_enabled (dl_derps s) = false → dc_enabled (dl_derps (lease_step op s).2) = true →
  ∃ r before now later, op = OpAccept r before now later ∧ rq_Action r = Action_Acquire
    ∧ prepared_for s r before.
Proof.
  intros Hs Hop Hoff Hon. pose proof (lease_reachable_inv s Hs) as Hinv.
  destruct op as [rev|r t0 t1 t2|t| |region host preferred|f]; simpl in *; try congruence.
  - exists r, t0, t1, t2. split; [done|].
    destruct (wp_Accept r t0 t1 t2 s Hinv Hop)
      as [res s' Hp _|s1 res s' Hp Ha|s1 res s' Hp Hacc (_ & _ & _ & Ht)].
    + eapply poll_result_enabled in Hp; [|done..]. congruence.
    + exfalso. eapply (poll_result_enabled t0 s _ s1) in Hp; [congruence|done|].
      by destruct Ha as [(? & _ & -> & _)|(_ & _ & ->)].
    + destruct (Ht Hon) as [H1|Ha].
      { eapply poll_result_enabled in H1; [|done..]. congruence. }
      split; [done|]. eapply acceptable_acquire; eauto.
  - eapply poll_result_enabled in Hon; [|done|by apply wp_Poll]. congruence.
  - unfold discard, ebind, on_derps in Hon.
    destruct (Ensure_entries region host preferred (dl_derps s) (li_derps s Hinv) Hop)
      as (_ & _ & Hen).
    destruct (DerpConnections_Ensure _ _ _ _ _) as [[] d]; simpl in *; congruence.
Qed.

(** Polling at or after the deadline ends the lease with a [LeaseExpired]
    reply to its request; if the lease had taken ownership, every connection is
    disabled and disconnected when [Poll] returns. *)
Theorem DelegationLease_expiry_releases s now deadline r :
  lease_reachable s → dl_deadline s = Some deadline → deadline <= now →
  dl_request s = Some r → zlen (dl_output s) < MaximumReplies →
  let s' := (DelegationLease_Poll now s).2 in
  (DelegationLease_Poll now s).1 = Ok tt
  ∧ dl_deadline s' = None ∧ dl_request s' = Some r
  ∧ (∃ f, dl_output s' = dl_output s ++ [f]
       ∧ DecodeDelegationReply f = Ok (Some (reply_for r Status_Failed Failure_LeaseExpired)))
  ∧ (dl_changedOwnership s = true →
     dc_enabled (dl_derps s') = false
     ∧ ∀ region, region ∈ (de_Region <$> dc_entries (dl_derps s')) →
       ∃ c, DerpConnections_ForRegion (dl_derps s') region = Ok c
         ∧ conn_Enabled c = false ∧ conn_Connected c = false).
Proof.
  intros Hs Hd Hnow Hr Hl. pose proof (lease_reachable_inv s Hs) as Hinv. cbv zeta.
  destruct (wp_Poll now s Hinv) as [Hidle|r1 d1 f Hr1 Hd1 Hnow1|d1 Hd1 Hnow1
    |r1 d1 derps f Hr1 Hd1 Hnow1 Hrel _ (p & Hpwf & Hpe & Hpd) He|d1 derps Hd1 Hnow1 Hrel Hl1];
    simplify_eq/=; try lia.
  { specialize (Hidle _ Hd). lia. }
  destruct (li_request s Hinv r Hr) as [Hwf _].
  destruct (Reply_roundtrip (reply_for r Status_Failed Failure_LeaseExpired)) as (f' & Hf' & _ & _ & Hdec).
  { by apply reply_for_wf. }
  split_and!; try done.
  - exists f. split; [done|]. rewrite He in Hf'. by injection Hf' as <-.
  - intros Hc. rewrite Hc in Hrel. destruct Hrel as (Hdi & _ & _ & Hoff). split; [done|].
    intros region Hregion.
    destruct (DerpConnections_ForRegion_known derps region Hdi Hregion)
      as (x & _ & _ & Hen & Hok & ->).
    exists (ds_Connection x). split_and!; [done|congruence|].
    apply (conn_disabled_disconnected (ok := ok)); [done|congruence].
Qed.

(** A request that repeats the current one, or is older than it, changes
    neither ownership nor the lease: beyond the poll that precedes it, it only
    queues frames, all of them decodable replies. *)
Theorem DelegationLease_retransmission s r before now later :
  lease_reachable s → Request_wf r →
  (dl_request s = Some r ∨ is_stale s r = true) →
  let s1 := (DelegationLease_Poll before s).2 in
  (DelegationLease_Poll before s).1 = Ok tt →
  ∃ frames, (DelegationLease_Accept r before now later s).2
            = dl_set_output (dl_output s1 ++ frames) s1
    ∧ Forall is_reply_frame frames ∧ zlen frames <= 1.
Proof.
  intros Hs Hwf Hold s1 HOk. pose proof (lease_reachable_inv s Hs) as Hinv.
  pose proof (wp_Poll before s Hinv) as Hp. unfold wp in Hp. fold s1 in Hp. rewrite HOk in Hp.
  pose proof (poll_result_inv _ _ _ _ Hinv Hp) as Hinv1.
  assert (dl_request s1 = dl_request s) as Hreq by (by destruct Hp).
  assert (wp (DelegationLease_Accept r before now later) (answered s1) s) as Ha.
  { unfold DelegationLease_Accept. apply wp_bind. unfold wp at 1. rewrite HOk. fold s1. wp_auto.
    case_bool_decide as Hdup; [by eapply wp_repeat_answered|].
    assert (is_stale s1 r = true) as ->; [|by apply wp_Fail_answered].
    unfold is_stale. rewrite Hreq. by destruct Hold; [congruence|]. }
  destruct Ha as [(frames & _ & -> & ? & ? & _)|(_ & _ & ->)]; [eauto|].
  exists []. rewrite app_nil_r. split_and!; [by destruct s1|done..].
Qed.

End lease_ops.

End derps_proofs.

Arguments lease_op C : clear implicits.

(** ** A concrete run

    A transport that is connected as soon as it is enabled, one region, and a
    lease that prepares, releases, and acquires. *)

#[export] Instance loopback_Connection : Connection bool := {
  conn_SetEnabled := fun b _ => b;
  conn_ChangeNetwork := fun _ c => c;
  conn_Connected := fun c => c;
  conn_Enabled := fun c => c
}.

#[export] Instance loopback_laws : ConnectionLaws bool (fun _ => True).
Proof. by split. Qed.

Definition loopback_create (_ : Z) (_ : list Z) (_ : bool) (_ : Z) (enabled : bool) : bool := enabled.

Lemma loopback_create_ok region host preferred index enabled :
  True ∧ conn_Enabled (loopback_create region host preferred index enabled) = enabled.
Proof. done. Qed.

Definition no_derps : DerpConnections bool :=
  {| dc_session := []; dc_routes := {| rt_entries := []; rt_NextRouteToken := 1 |};
     dc_entries := []; dc_enabled := true |}.

Lemma no_derps_inv : derps_inv (fun _ => True) no_derps.
Proof. constructor; simpl; try done; constructor. Qed.

Definition one_region : DerpConnections bool :=
  (DerpConnections_Ensure loopback_create 7 [100; 52] true no_derps).2.

Definition demo_request (id : Z) (a : DelegationAction) : DelegationRequest :=
  {| rq_Generation := 5; rq_RequestId := id; rq_MapRevision := 1; rq_Action := a;
     rq_Regions := [7] |}.

Lemma demo_request_wf id a : id = 1 ∨ id = 2 ∨ id = 3 → Request_wf (demo_request id a).
Proof.
  intros Hid. split_and!; try done; simpl.
  - unfold identity_wf, in_width. lia.
  - by forall_intro.
Qed.

Definition run_lease (ops : list (lease_op bool)) (s : DelegationLease bool) : DelegationLease bool :=
  foldl (fun s op => (lease_step loopback_create op s).2) s ops.

Definition demo_prepare : list (lease_op bool) :=
  [OpEnsure 7 [100; 52] true; OpApplyMap 1; OpAccept (demo_request 1 Action_Prepare) 0 10 20].
Definition demo_start : DelegationLease bool := lease_initial no_derps.
Definition demo_prepared : DelegationLease bool := run_lease demo_prepare demo_start.
Definition demo_released : DelegationLease bool :=
  (lease_step loopback_create (OpAccept (demo_request 2 Action_Release) 30 40 50) demo_prepared).2.

Ltac reach_demo :=
  repeat (apply reach_step; [|first [done | apply demo_request_wf; lia]]);
  apply reach_initial, no_derps_inv.

Lemma demo_prepared_reachable : lease_reachable (fun _ => True) loopback_create demo_prepared.
Proof. unfold demo_prepared, run_lease, demo_prepare, foldl. reach_demo. Qed.

Lemma demo_released_reachable : lease_reachable (fun _ => True) loopback_create demo_released.
Proof. apply reach_step; [apply demo_prepared_reachable|]. apply demo_request_wf. lia. Qed.

Lemma DerpConnections_Ensure_routes_witness :
  DerpConnections_ForRegion one_region 7 = Ok true
  ∧ match DerpConnections_Ensure loopback_create 9 [100] false one_region with
    | (Ok index, d') => derps_inv (fun _ => True) d'
    | _ => False
    end.
Proof.
  split; [vm_compute; reflexivity|].
  assert (derps_inv (fun _ => True) one_region) as Hinv.
  { by apply (Ensure_entries (fun _ => True) loopback_create loopback_create_ok 7 [100; 52] true
      no_derps no_derps_inv). }
  assert (rt_NextRouteToken (dc_routes one_region) ≠ 0) as Ht by (by vm_compute).
  pose proof (DerpConnections_Ensure_routes (fun _ => True) loopback_create loopback_create_ok
    9 [100] false one_region Hinv Ht) as H.
  destruct (DerpConnections_Ensure loopback_create 9 [100] false one_region) as [[index|e|] d'] eqn:E.
  - apply H.
  - vm_compute in E. discriminate E.
  - vm_compute in E. discriminate E.
Defined.

Lemma DelegationLease_reachable_ok_witness :
  lease_inv (fun _ => True) demo_prepared
  ∧ (lease_step loopback_create (OpAccept (demo_request 2 Action_Release) 30 40 50) demo_prepared).1
    = Ok tt.
Proof.
  assert (Request_wf (demo_request 2 Action_Release)) as Hop by (apply demo_request_wf; lia).
  split; [|vm_compute; reflexivity].
  exact (proj1 (DelegationLease_reachable_ok (fun _ => True) loopback_create loopback_create_ok
    demo_prepared (OpAccept (demo_request 2 Action_Release) 30 40 50)
    demo_prepared_reachable Hop)).
Defined.

(** A second generation of the lease acquires what the first released. *)
Definition demo_request2 (id : Z) (a : DelegationAction) : DelegationRequest :=
  {| rq_Generation := 6; rq_RequestId := id; rq_MapRevision := 1; rq_Action := a;
     rq_Regions := [7] |}.

Lemma demo_request2_wf id a : id = 1 ∨ id = 2 → Request_wf (demo_request2 id a).
Proof.
  intros Hid. split_and!; try done; simpl; [unfold identity_wf, in_width; lia|by forall_intro].
Qed.

Definition demo_again : DelegationLease bool :=
  (lease_step loopback_create (OpAccept (demo_request2 1 Action_Prepare) 60 70 80) demo_released).2.

Lemma demo_again_reachable : lease_reachable (fun _ => True) loopback_create demo_again.
Proof. apply reach_step; [apply demo_released_reachable|]. apply demo_request2_wf. lia. Qed.

Lemma DelegationLease_acquires_only_when_prepared_witness :
  dc_enabled (dl_derps demo_again) = false
  ∧ ∃ r before now later,
      OpAccept (demo_request2 2 Action_Acquire) 90 100 110 = OpAccept (C := bool) r before now later
      ∧ rq_Action r = Action_Acquire ∧ prepared_for demo_again r before.
Proof.
  split; [vm_compute; reflexivity|].
  apply (DelegationLease_acquires_only_when_prepared (fun _ => True) loopback_create
    loopback_create_ok demo_again (OpAccept (demo_request2 2 Action_Acquire) 90 100 110)).
  - apply demo_again_reachable.
  - apply demo_request2_wf. lia.
  - vm_compute. reflexivity.
  - vm_compute. reflexivity.
Defined.

Lemma DelegationLease_expiry_releases_witness :
  dl_changedOwnership demo_released = true
  ∧ dl_deadline (DelegationLease_Poll (40 + LeaseDuration) demo_released).2 = None.
Proof.
  split; [vm_compute; reflexivity|].
  apply (DelegationLease_expiry_releases (fun _ => True) loopback_create loopback_create_ok
    demo_released (40 + LeaseDuration) (40 + LeaseDuration) (demo_request 2 Action_Release)).
  - apply demo_released_reachable.
  - vm_compute. reflexivity.
  - reflexivity.
  - vm_compute. reflexivity.
  - vm_compute. reflexivity.
Defined.

Lemma DelegationLease_retransmission_witness :
  ∃ frames, (DelegationLease_Accept (demo_request 2 Action_Release) 60 70 80 demo_released).2
    = dl_set_output (dl_output (DelegationLease_Poll 60 demo_released).2 ++ frames)
        (DelegationLease_Poll 60 demo_released).2
    ∧ Forall is_reply_frame frames ∧ zlen frames <= 1.
Proof.
  apply (DelegationLease_retransmission (fun _ => True) loopback_create loopback_create_ok
    demo_released (demo_request 2 Action_Release) 60 70 80).
  - apply demo_released_reachable.
  - apply demo_request_wf. lia.
  - left. vm_compute. reflexivity.
  - vm_compute. reflexivity.
Defined.
