(* ===== verification/Transition.v ===== *)
(** * The transition between native and hosted mode: the client side of delegation

    src/core/ipn/ipnlocal/TransitionCoordinator.cpp, the policy that moves the
    DERP connections of a node between itself and a relay.  Each method is a
    function in [eff TransitionCoordinator]; the [TimeProvider] is a clock whose
    readings are consumed in order. *)

From S2P Require Import Prelude Text Net Packet Framing Decoder Codec.

Inductive NodeMode := Mode_Native | Mode_Hosted.

Inductive TransitionPhase :=
  | Phase_Idle | Phase_Preparing | Phase_AwaitingMap | Phase_PreparingDelegation
  | Phase_Releasing | Phase_Activating | Phase_Committing | Phase_Draining | Phase_Failed.

Inductive TransitionFailure :=
  | TFailure_None | TFailure_PolicyChanged | TFailure_PreparationFailed | TFailure_Timeout
  | TFailure_Cancelled | TFailure_DelegationRejected | TFailure_RollbackFailed.

Inductive TransitionActionKind :=
  | Kind_PrepareNative | Kind_PrepareHosted | Kind_ActivateNative | Kind_ActivateHosted
  | Kind_SuspendNative | Kind_SelectNative | Kind_SelectHosted | Kind_RetireNative
  | Kind_RetireHosted | Kind_RecoverHosted | Kind_Delegation.

#[export] Instance NodeMode_eq_dec : EqDecision NodeMode.
Proof. solve_decision. Defined.
#[export] Instance TransitionPhase_eq_dec : EqDecision TransitionPhase.
Proof. solve_decision. Defined.
#[export] Instance TransitionActionKind_eq_dec : EqDecision TransitionActionKind.
Proof. solve_decision. Defined.

Record TransitionStatus := {
  ts_Desired : NodeMode;
  ts_Effective : NodeMode;
  ts_Phase : TransitionPhase;
  ts_Failure : TransitionFailure;
  ts_Generation : Z;
  ts_RollingBack : bool
}.

Record TransitionAction := {
  ta_Kind : TransitionActionKind;
  ta_Generation : Z;
  ta_Delegation : option DelegationRequest
}.

Record TransitionCoordinator := {
  tc_status : TransitionStatus;
  tc_original : NodeMode;
  tc_mapRevision : Z;
  tc_appliedRevision : Z;
  tc_requestId : Z;
  tc_pending : option DelegationRequest;
  tc_regions : list Z;
  tc_deadline : option Z;
  tc_actions : list TransitionAction;
  tc_ownershipChanged : bool;
  tc_relayAvailable : bool;
  tc_clock : nat → Z;
  tc_ticks : nat
}.

(** Assignments to the members. *)
Definition ts_set_Desired v (s : TransitionStatus) : TransitionStatus :=
  {| ts_Desired := v; ts_Effective := ts_Effective s; ts_Phase := ts_Phase s; ts_Failure :=
     ts_Failure s; ts_Generation := ts_Generation s; ts_RollingBack := ts_RollingBack s |}.
Definition ts_set_Effective v (s : TransitionStatus) : TransitionStatus :=
  {| ts_Desired := ts_Desired s; ts_Effective := v; ts_Phase := ts_Phase s; ts_Failure :=
     ts_Failure s; ts_Generation := ts_Generation s; ts_RollingBack := ts_RollingBack s |}.
Definition ts_set_Phase v (s : TransitionStatus) : TransitionStatus :=
  {| ts_Desired := ts_Desired s; ts_Effective := ts_Effective s; ts_Phase := v; ts_Failure :=
     ts_Failure s; ts_Generation := ts_Generation s; ts_RollingBack := ts_RollingBack s |}.
Definition ts_set_Failure v (s : TransitionStatus) : TransitionStatus :=
  {| ts_Desired := ts_Desired s; ts_Effective := ts_Effective s; ts_Phase := ts_Phase s;
     ts_Failure := v; ts_Generation := ts_Generation s; ts_RollingBack := ts_RollingBack s |}.
Definition ts_set_Generation v (s : TransitionStatus) : TransitionStatus :=
  {| ts_Desired := ts_Desired s; ts_Effective := ts_Effective s; ts_Phase := ts_Phase s;
     ts_Failure := ts_Failure s; ts_Generation := v; ts_RollingBack := ts_RollingBack s |}.
Definition ts_set_RollingBack v (s : TransitionStatus) : TransitionStatus :=
  {| ts_Desired := ts_Desired s; ts_Effective := ts_Effective s; ts_Phase := ts_Phase s;
     ts_Failure := ts_Failure s; ts_Generation := ts_Generation s; ts_RollingBack := v |}.
Definition tc_set_status v (s : TransitionCoordinator) : TransitionCoordinator :=
  {| tc_status := v; tc_original := tc_original s; tc_mapRevision := tc_mapRevision s;
     tc_appliedRevision := tc_appliedRevision s; tc_requestId := tc_requestId s; tc_pending :=
     tc_pending s; tc_regions := tc_regions s; tc_deadline := tc_deadline s; tc_actions :=
     tc_actions s; tc_ownershipChanged := tc_ownershipChanged s; tc_relayAvailable :=
     tc_relayAvailable s; tc_clock := tc_clock s; tc_ticks := tc_ticks s |}.
Definition tc_set_original v (s : TransitionCoordinator) : TransitionCoordinator :=
  {| tc_status := tc_status s; tc_original := v; tc_mapRevision := tc_mapRevision s;
     tc_appliedRevision := tc_appliedRevision s; tc_requestId := tc_requestId s; tc_pending :=
     tc_pending s; tc_regions := tc_regions s; tc_deadline := tc_deadline s; tc_actions :=
     tc_actions s; tc_ownershipChanged := tc_ownershipChanged s; tc_relayAvailable :=
     tc_relayAvailable s; tc_clock := tc_clock s; tc_ticks := tc_ticks s |}.
Definition tc_set_mapRevision v (s : TransitionCoordinator) : TransitionCoordinator :=
  {| tc_status := tc_status s; tc_original := tc_original s; tc_mapRevision := v;
     tc_appliedRevision := tc_appliedRevision s; tc_requestId := tc_requestId s; tc_pending :=
     tc_pending s; tc_regions := tc_regions s; tc_deadline := tc_deadline s; tc_actions :=
     tc_actions s; tc_ownershipChanged := tc_ownershipChanged s; tc_relayAvailable :=
     tc_relayAvailable s; tc_clock := tc_clock s; tc_ticks := tc_ticks s |}.
Definition tc_set_appliedRevision v (s : TransitionCoordinator) : TransitionCoordinator :=
  {| tc_status := tc_status s; tc_original := tc_original s; tc_mapRevision := tc_mapRevision
     s; tc_appliedRevision := v; tc_requestId := tc_requestId s; tc_pending := tc_pending s;
     tc_regions := tc_regions s; tc_deadline := tc_deadline s; tc_actions := tc_actions s;
     tc_ownershipChanged := tc_ownershipChanged s; tc_relayAvailable := tc_relayAvailable s;
     tc_clock := tc_clock s; tc_ticks := tc_ticks s |}.
Definition tc_set_requestId v (s : TransitionCoordinator) : TransitionCoordinator :=
  {| tc_status := tc_status s; tc_original := tc_original s; tc_mapRevision := tc_mapRevision
     s; tc_appliedRevision := tc_appliedRevision s; tc_requestId := v; tc_pending := tc_pending
     s; tc_regions := tc_regions s; tc_deadline := tc_deadline s; tc_actions := tc_actions s;
     tc_ownershipChanged := tc_ownershipChanged s; tc_relayAvailable := tc_relayAvailable s;
     tc_clock := tc_clock s; tc_ticks := tc_ticks s |}.
Definition tc_set_pending v (s : TransitionCoordinator) : TransitionCoordinator :=
  {| tc_status := tc_status s; tc_original := tc_original s; tc_mapRevision := tc_mapRevision
     s; tc_appliedRevision := tc_appliedRevision s; tc_requestId := tc_requestId s; tc_pending
     := v; tc_regions := tc_regions s; tc_deadline := tc_deadline s; tc_actions := tc_actions
     s; tc_ownershipChanged := tc_ownershipChanged s; tc_relayAvailable := tc_relayAvailable s;
     tc_clock := tc_clock s; tc_ticks := tc_ticks s |}.
Definition tc_set_regions v (s : TransitionCoordinator) : TransitionCoordinator :=
  {| tc_status := tc_status s; tc_original := tc_original s; tc_mapRevision := tc_mapRevision
     s; tc_appliedRevision := tc_appliedRevision s; tc_requestId := tc_requestId s; tc_pending
     := tc_pending s; tc_regions := v; tc_deadline := tc_deadline s; tc_actions := tc_actions
     s; tc_ownershipChanged := tc_ownershipChanged s; tc_relayAvailable := tc_relayAvailable s;
     tc_clock := tc_clock s; tc_ticks := tc_ticks s |}.
Definition tc_set_deadline v (s : TransitionCoordinator) : TransitionCoordinator :=
  {| tc_status := tc_status s; tc_original := tc_original s; tc_mapRevision := tc_mapRevision
     s; tc_appliedRevision := tc_appliedRevision s; tc_requestId := tc_requestId s; tc_pending
     := tc_pending s; tc_regions := tc_regions s; tc_deadline := v; tc_actions := tc_actions s;
     tc_ownershipChanged := tc_ownershipChanged s; tc_relayAvailable := tc_relayAvailable s;
     tc_clock := tc_clock s; tc_ticks := tc_ticks s |}.
Definition tc_set_actions v (s : TransitionCoordinator) : TransitionCoordinator :=
  {| tc_status := tc_status s; tc_original := tc_original s; tc_mapRevision := tc_mapRevision
     s; tc_appliedRevision := tc_appliedRevision s; tc_requestId := tc_requestId s; tc_pending
     := tc_pending s; tc_regions := tc_regions s; tc_deadline := tc_deadline s; tc_actions :=
     v; tc_ownershipChanged := tc_ownershipChanged s; tc_relayAvailable := tc_relayAvailable s;
     tc_clock := tc_clock s; tc_ticks := tc_ticks s |}.
Definition tc_set_ownershipChanged v (s : TransitionCoordinator) : TransitionCoordinator :=
  {| tc_status := tc_status s; tc_original := tc_original s; tc_mapRevision := tc_mapRevision
     s; tc_appliedRevision := tc_appliedRevision s; tc_requestId := tc_requestId s; tc_pending
     := tc_pending s; tc_regions := tc_regions s; tc_deadline := tc_deadline s; tc_actions :=
     tc_actions s; tc_ownershipChanged := v; tc_relayAvailable := tc_relayAvailable s; tc_clock
     := tc_clock s; tc_ticks := tc_ticks s |}.
Definition tc_set_relayAvailable v (s : TransitionCoordinator) : TransitionCoordinator :=
  {| tc_status := tc_status s; tc_original := tc_original s; tc_mapRevision := tc_mapRevision
     s; tc_appliedRevision := tc_appliedRevision s; tc_requestId := tc_requestId s; tc_pending
     := tc_pending s; tc_regions := tc_regions s; tc_deadline := tc_deadline s; tc_actions :=
     tc_actions s; tc_ownershipChanged := tc_ownershipChanged s; tc_relayAvailable := v;
     tc_clock := tc_clock s; tc_ticks := tc_ticks s |}.
Definition tc_set_ticks v (s : TransitionCoordinator) : TransitionCoordinator :=
  {| tc_status := tc_status s; tc_original := tc_original s; tc_mapRevision := tc_mapRevision
     s; tc_appliedRevision := tc_appliedRevision s; tc_requestId := tc_requestId s; tc_pending
     := tc_pending s; tc_regions := tc_regions s; tc_deadline := tc_deadline s; tc_actions :=
     tc_actions s; tc_ownershipChanged := tc_ownershipChanged s; tc_relayAvailable :=
     tc_relayAvailable s; tc_clock := tc_clock s; tc_ticks := v |}.

Definition on_status (f : TransitionStatus → TransitionStatus) : eff TransitionCoordinator unit :=
  emod (fun s => tc_set_status (f (tc_status s)) s).

Definition OperationTimeout : Z := 15 * 1000000000.
Definition DrainInterval : Z := 400 * 1000000.

(** [m_time.Now()] *)
Definition Now : eff TransitionCoordinator Z :=
  let* s := eget in
  emod (tc_set_ticks (S (tc_ticks s))) ;;* eret (tc_clock s (tc_ticks s)).

(** [m_deadline = m_time.Now() + interval] *)
Definition set_deadline_in (interval : Z) : eff TransitionCoordinator unit :=
  let* now := Now in emod (tc_set_deadline (Some (now + interval))).

Definition phase_active (p : TransitionPhase) : bool :=
  negb (bool_decide (p = Phase_Idle)) && negb (bool_decide (p = Phase_Failed)).

Definition TransitionCoordinator_Active (s : TransitionCoordinator) : bool :=
  phase_active (ts_Phase (tc_status s)).

Definition TransitionCoordinator_Action (kind : TransitionActionKind)
    : eff TransitionCoordinator unit :=
  emod (fun s => tc_set_actions (tc_actions s ++
    [{| ta_Kind := kind; ta_Generation := ts_Generation (tc_status s); ta_Delegation := None |}]) s).

Definition TransitionCoordinator_Request (action : DelegationAction)
    : eff TransitionCoordinator unit :=
  emod (fun s => tc_set_requestId (u64 (tc_requestId s + 1)) s) ;;*
  let* s := eget in
  let request := {| rq_Generation := ts_Generation (tc_status s); rq_RequestId := tc_requestId s;
                    rq_MapRevision := tc_mapRevision s; rq_Action := action;
                    rq_Regions := tc_regions s |} in
  emod (tc_set_pending (Some request)) ;;*
  emod (fun s => tc_set_actions (tc_actions s ++
    [{| ta_Kind := Kind_Delegation; ta_Generation := ts_Generation (tc_status s);
        ta_Delegation := tc_pending s |}]) s) ;;*
  set_deadline_in OperationTimeout.

Definition TransitionCoordinator_PrepareDelegation : eff TransitionCoordinator unit :=
  on_status (ts_set_Phase Phase_PreparingDelegation) ;;*
  TransitionCoordinator_Request Action_Prepare.

(** [++m_status.Generation] *)
Definition next_generation : eff TransitionCoordinator unit :=
  on_status (fun t => ts_set_Generation (u64 (ts_Generation t + 1)) t).

(** [std::ranges::sort] followed by [std::unique]. *)
Fixpoint insert_region (r : Z) (l : list Z) : list Z :=
  match l with
  | [] => [r]
  | x :: l' => if r <? x then r :: l else if r =? x then l else x :: insert_region r l'
  end.

Definition sort_unique (l : list Z) : list Z := foldr insert_region [] l.

Definition TransitionCoordinator_Begin (desired : NodeMode) (mapRevision : Z) (regions : list Z)
    (policyUnchanged : bool) : eff TransitionCoordinator bool :=
  let* s := eget in
  if TransitionCoordinator_Active s then eret false else
  if (mapRevision =? 0) || bool_decide (regions = []) || existsb (Z.eqb 0) regions
  then ethrow (InvalidArgument "transition requires a map revision and DERP regions") else
  on_status (ts_set_Desired desired) ;;*
  on_status (ts_set_Failure TFailure_None) ;;*
  on_status (ts_set_RollingBack false) ;;*
  next_generation ;;*
  if negb policyUnchanged then
    on_status (ts_set_Phase Phase_Failed) ;;*
    on_status (ts_set_Failure TFailure_PolicyChanged) ;;*
    eret false
  else
  let* s := eget in
  if bool_decide (desired = ts_Effective (tc_status s)) then
    on_status (ts_set_Phase Phase_Idle) ;;* eret true
  else
    emod (tc_set_original (ts_Effective (tc_status s))) ;;*
    emod (tc_set_mapRevision mapRevision) ;;*
    emod (tc_set_appliedRevision 0) ;;*
    emod (tc_set_regions (sort_unique regions)) ;;*
    emod (tc_set_ownershipChanged false) ;;*
    emod (tc_set_relayAvailable true) ;;*
    emod (tc_set_pending None) ;;*
    on_status (ts_set_Phase Phase_Preparing) ;;*
    set_deadline_in OperationTimeout ;;*
    TransitionCoordinator_Action
      (if bool_decide (desired = Mode_Native) then Kind_PrepareNative else Kind_PrepareHosted) ;;*
    eret true.

Definition TransitionCoordinator_Rollback (reason : TransitionFailure)
    : eff TransitionCoordinator unit :=
  let* s := eget in
  if negb (TransitionCoordinator_Active s) then eret tt else
  emod (tc_set_actions []) ;;*
  emod (tc_set_pending None) ;;*
  if ts_RollingBack (tc_status s) then
    TransitionCoordinator_Action Kind_SuspendNative ;;*
    TransitionCoordinator_Action Kind_RetireHosted ;;*
    (if bool_decide (tc_original s = Mode_Hosted)
     then TransitionCoordinator_Action Kind_RecoverHosted
     else TransitionCoordinator_Action Kind_ActivateNative) ;;*
    on_status (ts_set_Effective (tc_original s)) ;;*
    on_status (ts_set_Phase Phase_Failed) ;;*
    on_status (ts_set_Failure TFailure_RollbackFailed) ;;*
    emod (tc_set_deadline None)
  else
  on_status (ts_set_Failure reason) ;;*
  if negb (tc_ownershipChanged s) then
    TransitionCoordinator_Action
      (if bool_decide (ts_Desired (tc_status s) = Mode_Native)
       then Kind_RetireNative else Kind_RetireHosted) ;;*
    on_status (ts_set_Phase Phase_Failed) ;;*
    emod (tc_set_deadline None)
  else
  next_generation ;;*
  on_status (ts_set_RollingBack true) ;;*
  TransitionCoordinator_Action Kind_SuspendNative ;;*
  if negb (tc_relayAvailable s) then
    TransitionCoordinator_Action Kind_RetireHosted ;;*
    if bool_decide (tc_original s = Mode_Hosted) then
      TransitionCoordinator_Action Kind_RecoverHosted ;;*
      on_status (ts_set_Effective (tc_original s)) ;;*
      on_status (ts_set_Phase Phase_Failed) ;;*
      emod (tc_set_deadline None)
    else
      on_status (ts_set_Phase Phase_Activating) ;;*
      TransitionCoordinator_Action Kind_ActivateNative ;;*
      set_deadline_in OperationTimeout
  else TransitionCoordinator_PrepareDelegation.

Definition TransitionCoordinator_Prepared (generation : Z) (success : bool)
    : eff TransitionCoordinator unit :=
  let* s := eget in
  if negb (generation =? ts_Generation (tc_status s))
     || negb (bool_decide (ts_Phase (tc_status s) = Phase_Preparing)) then eret tt else
  if negb success then TransitionCoordinator_Rollback TFailure_PreparationFailed else
  if bool_decide (ts_Desired (tc_status s) = Mode_Native) && negb (tc_relayAvailable s) then
    on_status (ts_set_Phase Phase_Activating) ;;*
    emod (tc_set_ownershipChanged true) ;;*
    TransitionCoordinator_Action Kind_ActivateNative ;;*
    set_deadline_in OperationTimeout
  else
  (if bool_decide (ts_Desired (tc_status s) = Mode_Hosted) then
     TransitionCoordinator_Action Kind_SuspendNative ;;*
     emod (tc_set_ownershipChanged true) ;;*
     TransitionCoordinator_Action Kind_ActivateHosted
   else eret tt) ;;*
  on_status (ts_set_Phase Phase_AwaitingMap) ;;*
  set_deadline_in OperationTimeout ;;*
  let* s := eget in
  if tc_appliedRevision s =? tc_mapRevision s
  then TransitionCoordinator_PrepareDelegation else eret tt.

Definition TransitionCoordinator_MapApplied (revision : Z) : eff TransitionCoordinator unit :=
  let* s := eget in
  if negb (TransitionCoordinator_Active s) then eret tt else
  emod (tc_set_appliedRevision revision) ;;*
  if negb (revision =? tc_mapRevision s) then eret tt else
  if bool_decide (ts_Phase (tc_status s) = Phase_AwaitingMap)
  then TransitionCoordinator_PrepareDelegation else eret tt.

Definition TransitionCoordinator_MapChanged (revision : Z) (regions : list Z)
    : eff TransitionCoordinator unit :=
  let* s := eget in
  if negb (TransitionCoordinator_Active s) then eret tt else
  emod (tc_set_mapRevision revision) ;;*
  emod (tc_set_regions (sort_unique regions)) ;;*
  emod (tc_set_appliedRevision 0) ;;*
  if bool_decide (ts_Phase (tc_status s) = Phase_Preparing)
     || bool_decide (ts_Phase (tc_status s) = Phase_Draining) then eret tt else
  next_generation ;;*
  emod (tc_set_pending None) ;;*
  emod (tc_set_actions []) ;;*
  TransitionCoordinator_Action Kind_SuspendNative ;;*
  on_status (ts_set_Phase Phase_AwaitingMap) ;;*
  set_deadline_in OperationTimeout.

Definition TransitionCoordinator_Abort (failure : TransitionFailure)
    : eff TransitionCoordinator unit :=
  let* s := eget in
  if negb (TransitionCoordinator_Active s) then eret tt else
  next_generation ;;*
  on_status (ts_set_Phase Phase_Failed) ;;*
  on_status (ts_set_Failure failure) ;;*
  on_status (ts_set_RollingBack false) ;;*
  emod (tc_set_pending None) ;;*
  emod (tc_set_actions []) ;;*
  emod (tc_set_deadline None).

Definition TransitionCoordinator_CommitSelection (selected : NodeMode)
    : eff TransitionCoordinator unit :=
  on_status (ts_set_Effective selected) ;;*
  TransitionCoordinator_Action
    (if bool_decide (selected = Mode_Native) then Kind_SelectNative else Kind_SelectHosted) ;;*
  let* s := eget in
  if negb (tc_relayAvailable s) then
    on_status (ts_set_Phase Phase_Draining) ;;*
    set_deadline_in DrainInterval
  else
  on_status (ts_set_Phase Phase_Committing) ;;*
  TransitionCoordinator_Request Action_Commit.

(** The mode a transition is heading for. *)
Definition target (s : TransitionCoordinator) : NodeMode :=
  if ts_RollingBack (tc_status s) then tc_original s else ts_Desired (tc_status s).

Definition TransitionCoordinator_Reply (reply : DelegationReply) : eff TransitionCoordinator unit :=
  let* s := eget in
  match tc_pending s with
  | Some pending =>
    if negb (TransitionCoordinator_Active s)
       || negb (rp_Generation reply =? ts_Generation (tc_status s))
       || negb (rp_RequestId reply =? rq_RequestId pending)
       || negb (rp_MapRevision reply =? rq_MapRevision pending) then eret tt else
    if bool_decide (rp_Status reply = Status_Failed)
    then TransitionCoordinator_Rollback TFailure_DelegationRejected else
    match rq_Action pending, rp_Status reply with
    | Action_Prepare, Status_Prepared =>
        on_status (ts_set_Phase (if bool_decide (target s = Mode_Native)
                                 then Phase_Releasing else Phase_Activating)) ;;*
        TransitionCoordinator_Request
          (if bool_decide (target s = Mode_Native) then Action_Release else Action_Acquire)
    | Action_Release, Status_Released =>
        emod (tc_set_ownershipChanged true) ;;*
        on_status (ts_set_Phase Phase_Activating) ;;*
        emod (tc_set_pending None) ;;*
        TransitionCoordinator_Action Kind_ActivateNative ;;*
        set_deadline_in OperationTimeout
    | Action_Acquire, Status_Ready => TransitionCoordinator_CommitSelection Mode_Hosted
    | Action_Commit, Status_Committed =>
        emod (tc_set_pending None) ;;*
        on_status (ts_set_Phase Phase_Draining) ;;*
        set_deadline_in DrainInterval
    | _, _ => eret tt
    end
  | None => eret tt
  end.

Definition TransitionCoordinator_NativeReady (generation : Z) : eff TransitionCoordinator unit :=
  let* s := eget in
  if negb (generation =? ts_Generation (tc_status s))
     || negb (bool_decide (ts_Phase (tc_status s) = Phase_Activating))
     || negb (bool_decide (target s = Mode_Native)) then eret tt else
  TransitionCoordinator_CommitSelection Mode_Native.

Definition TransitionCoordinator_RelayFailed : eff TransitionCoordinator unit :=
  emod (tc_set_relayAvailable false) ;;*
  let* s := eget in
  if negb (TransitionCoordinator_Active s) then eret tt else
  TransitionCoordinator_Action Kind_RetireHosted ;;*
  emod (tc_set_pending None) ;;*
  if bool_decide (ts_Phase (tc_status s) = Phase_Preparing)
     && bool_decide (ts_Desired (tc_status s) = Mode_Native) then eret tt else
  if bool_decide (ts_Desired (tc_status s) = Mode_Native) && negb (ts_RollingBack (tc_status s)) then
    emod (tc_set_ownershipChanged true) ;;*
    on_status (ts_set_Phase Phase_Activating) ;;*
    TransitionCoordinator_Action Kind_ActivateNative ;;*
    set_deadline_in OperationTimeout
  else TransitionCoordinator_Rollback TFailure_PreparationFailed.

Definition TransitionCoordinator_Cancel (reason : TransitionFailure)
    : eff TransitionCoordinator unit :=
  TransitionCoordinator_Rollback reason.

Definition TransitionCoordinator_Finish : eff TransitionCoordinator unit :=
  let* s := eget in
  TransitionCoordinator_Action
    (if bool_decide (ts_Effective (tc_status s) = Mode_Native)
     then Kind_RetireHosted else Kind_RetireNative) ;;*
  on_status (ts_set_Phase (if ts_RollingBack (tc_status s) then Phase_Failed else Phase_Idle)) ;;*
  emod (tc_set_deadline None) ;;*
  emod (tc_set_pending None).

(** The clock is read only when a deadline is set. *)
Definition TransitionCoordinator_Poll : eff TransitionCoordinator unit :=
  let* s := eget in
  match tc_deadline s with
  | None => eret tt
  | Some deadline =>
      let* now := Now in
      if now <? deadline then eret tt else
      if bool_decide (ts_Phase (tc_status s) = Phase_Draining)
      then TransitionCoordinator_Finish
      else TransitionCoordinator_Rollback TFailure_Timeout
  end.

Definition TransitionCoordinator_TakeActions : eff TransitionCoordinator (list TransitionAction) :=
  let* s := eget in
  emod (tc_set_actions []) ;;* eret (tc_actions s).

Definition TransitionCoordinator_initial (clock : nat → Z) (initial : NodeMode)
    : TransitionCoordinator :=
  {| tc_status := {| ts_Desired := initial; ts_Effective := initial; ts_Phase := Phase_Idle;
       ts_Failure := TFailure_None; ts_Generation := 0; ts_RollingBack := false |};
     tc_original := initial; tc_mapRevision := 0; tc_appliedRevision := 0; tc_requestId := 0;
     tc_pending := None; tc_regions := []; tc_deadline := None; tc_actions := [];
     tc_ownershipChanged := false; tc_relayAvailable := true; tc_clock := clock; tc_ticks := 0 |}.

(** ** Sequences of events *)

Inductive tc_op :=
  | OpBegin (desired : NodeMode) (mapRevision : Z) (regions : list Z) (policyUnchanged : bool)
  | OpPrepared (generation : Z) (success : bool)
  | OpMapApplied (revision : Z)
  | OpMapChanged (revision : Z) (regions : list Z)
  | OpAbort (failure : TransitionFailure)
  | OpReply (reply : DelegationReply)
  | OpNativeReady (generation : Z)
  | OpRelayFailed
  | OpCancel (reason : TransitionFailure)
  | OpPollTransition
  | OpTakeActions.

Definition forget {S A} (m : eff S A) : eff S unit := m ;;* eret tt.

Definition tc_step (op : tc_op) : eff TransitionCoordinator unit :=
  match op with
  | OpBegin desired mapRevision regions policyUnchanged =>
      forget (TransitionCoordinator_Begin desired mapRevision regions policyUnchanged)
  | OpPrepared generation success => TransitionCoordinator_Prepared generation success
  | OpMapApplied revision => TransitionCoordinator_MapApplied revision
  | OpMapChanged revision regions => TransitionCoordinator_MapChanged revision regions
  | OpAbort failure => TransitionCoordinator_Abort failure
  | OpReply reply => TransitionCoordinator_Reply reply
  | OpNativeReady generation => TransitionCoordinator_NativeReady generation
  | OpRelayFailed => TransitionCoordinator_RelayFailed
  | OpCancel reason => TransitionCoordinator_Cancel reason
  | OpPollTransition => TransitionCoordinator_Poll
  | OpTakeActions => forget TransitionCoordinator_TakeActions
  end.

Inductive tc_reachable (clock : nat → Z) : TransitionCoordinator → Prop :=
  | tc_reach_initial initial : tc_reachable clock (TransitionCoordinator_initial clock initial)
  | tc_reach_step s op : tc_reachable clock s → tc_reachable clock (tc_step op s).2.

(** ** Invariant *)

(** The phase in which each request waits for its reply. *)
Definition pending_phase (s : TransitionCoordinator) (a : DelegationAction) : Prop :=
  match a with
  | Action_Prepare => ts_Phase (tc_status s) = Phase_PreparingDelegation
  | Action_Release => ts_Phase (tc_status s) = Phase_Releasing ∧ target s = Mode_Native
  | Action_Acquire => (ts_Phase (tc_status s) = Phase_Activating
                       ∨ ts_Phase (tc_status s) = Phase_Draining ∧ tc_relayAvailable s = false)
                      ∧ target s = Mode_Hosted
  | Action_Commit => ts_Phase (tc_status s) = Phase_Committing ∧ target s = ts_Effective (tc_status s)
  end.

Record tc_inv (s : TransitionCoordinator) : Prop := {
  (** A running transition has a deadline, and only a running one has. *)
  ti_deadline : TransitionCoordinator_Active s = bool_decide (is_Some (tc_deadline s));
  (** The outstanding request carries the current generation, map and regions. *)
  ti_pending : ∀ p, tc_pending s = Some p →
    rq_Generation p = ts_Generation (tc_status s) ∧ rq_RequestId p = tc_requestId s
    ∧ (ts_Phase (tc_status s) ≠ Phase_Draining →
       rq_MapRevision p = tc_mapRevision s ∧ rq_Regions p = tc_regions s)
    ∧ pending_phase s (rq_Action p);
  (** A phase that waits for the relay has a request outstanding. *)
  ti_waiting : ts_Phase (tc_status s) = Phase_PreparingDelegation
    ∨ ts_Phase (tc_status s) = Phase_Releasing ∨ ts_Phase (tc_status s) = Phase_Committing →
    is_Some (tc_pending s);
  (** Outside of preparation a move to hosted mode, and any rollback, has taken
      ownership away from the original side. *)
  ti_owner : TransitionCoordinator_Active s = true → ts_Phase (tc_status s) ≠ Phase_Preparing →
    ts_Desired (tc_status s) = Mode_Hosted ∨ ts_RollingBack (tc_status s) = true →
    tc_ownershipChanged s = true;
  ti_preparing : ts_Phase (tc_status s) = Phase_Preparing →
    ts_RollingBack (tc_status s) = false ∧ tc_ownershipChanged s = false
}.

Ltac tc_unfold :=
  unfold tc_step, forget, TransitionCoordinator_Begin, TransitionCoordinator_Prepared,
    TransitionCoordinator_MapApplied, TransitionCoordinator_MapChanged, TransitionCoordinator_Abort,
    TransitionCoordinator_Reply, TransitionCoordinator_NativeReady,
    TransitionCoordinator_RelayFailed, TransitionCoordinator_Cancel, TransitionCoordinator_Poll,
    TransitionCoordinator_TakeActions,
    TransitionCoordinator_CommitSelection, TransitionCoordinator_Finish,
    TransitionCoordinator_PrepareDelegation, TransitionCoordinator_Request,
    TransitionCoordinator_Action, set_deadline_in, next_generation, on_status, Now.

Ltac tc_simpl :=
  cbv beta iota delta [
    tc_status tc_original tc_mapRevision tc_appliedRevision tc_requestId tc_pending
    tc_regions tc_deadline tc_actions tc_ownershipChanged tc_relayAvailable tc_clock
    tc_ticks ts_Desired ts_Effective ts_Phase ts_Failure ts_Generation ts_RollingBack
    tc_set_status tc_set_original tc_set_mapRevision tc_set_appliedRevision
    tc_set_requestId tc_set_pending tc_set_regions tc_set_deadline tc_set_actions
    tc_set_ownershipChanged tc_set_relayAvailable tc_set_ticks ts_set_Desired
    ts_set_Effective ts_set_Phase ts_set_Failure ts_set_Generation ts_set_RollingBack
    TransitionCoordinator_Active target phase_active].

(** The tests that led to a branch, as equations. *)
Ltac tc_tests :=
  repeat match goal with
  | E : negb _ = true |- _ => apply negb_true_iff in E
  | E : negb _ = false |- _ => apply negb_false_iff in E
  | E : (_ || _) = false |- _ => apply orb_false_iff in E as [? ?]
  | E : (_ && _) = true |- _ => apply andb_true_iff in E as [? ?]
  | E : (_ || _) = true |- _ => apply orb_true_iff in E as [?|?]
  | E : (_ && _) = false |- _ => apply andb_false_iff in E as [?|?]
  | E : bool_decide _ = true |- _ => apply bool_decide_eq_true in E
  | E : bool_decide _ = false |- _ => apply bool_decide_eq_false in E
  | E : (_ =? _) = true |- _ => apply Z.eqb_eq in E
  end.

(** [tc_run]: the branches of an event on a state given by its members, each with
    its final state. *)
Ltac tc_run :=
  repeat match goal with
  | |- wp (ebind (ebind _ _) _) _ _ => apply wp_bind
  | |- wp (ebind (if ?b then _ else _) _) _ _ => apply wp_bind
  | |- wp (ebind (match ?b with _ => _ end) _) _ _ => apply wp_bind
  | |- wp (ebind (emod _) _) _ _ => apply wp_bind, wp_mod; tc_simpl
  | |- wp (emod _) _ _ => apply wp_mod; tc_simpl
  | |- wp (ebind eget _) _ _ => apply wp_bind, wp_get; tc_simpl
  | |- wp (if ?b then _ else _) _ _ => let E := fresh "E" in destruct b eqn:E
  | |- wp (match ?b with _ => _ end) _ _ => let E := fresh "E" in destruct b eqn:E
  | _ => wp_step
  end.

(** [tc_members s]: the members of the coordinator. *)
Ltac tc_members s := destruct s as [[d e p f g rb] o mr ar rq pe rg dl ac oc ra ck tk].

(** No request is outstanding in a phase that is not one of [pending_phase]. *)
Ltac tc_no_pending I2 :=
  let q := fresh "q" in let Hq := fresh "Hq" in let Hph := fresh "Hph" in
  intros q Hq; exfalso; destruct (I2 q Hq) as (_ & _ & _ & Hph);
  destruct (rq_Action q); unfold pending_phase, target in Hph; simpl in Hph; destruct_and?; destruct_or?; destruct_and?; congruence.

(** The outstanding request is that of the state before. *)
Ltac tc_same_pending I2 :=
  let q := fresh "q" in let Hq := fresh "Hq" in let Hph := fresh "Hph" in
  intros q Hq; destruct (I2 q Hq) as (? & ? & ? & Hph);
  split_and!; first [assumption | done | exact Hph].

Lemma phase_active_intro p : p ≠ Phase_Idle → p ≠ Phase_Failed → phase_active p = true.
Proof. by destruct p. Qed.

(** [tc_leaf]: the invariant of a final state, from that of the state before. *)
Ltac tc_leaf I1 I2 I3 I4 I5 :=
  tc_tests; simplify_eq/=; (constructor;
  [ first [exact I1 | reflexivity | done]
  | first [exact I2 | intros ? [=]; subst; split_and!;
            first [reflexivity | done | by split; [left|] | by split; [right|]]
          | tc_no_pending I2 | tc_same_pending I2]
  | first [exact I3 | intros; by eexists | intros [?|[?|?]]; discriminate | done]
  | first [exact I4 | simpl; intros; first [reflexivity | assumption | discriminate | done | apply I4; first [assumption | done | by apply phase_active_intro | tauto]
                      | destruct (I5 eq_refl); intuition congruence]]
  | first [exact I5 | discriminate | done] ]).

(** A rollback of a running transition establishes the invariant by itself. *)
Lemma tc_inv_Rollback_active reason s :
  TransitionCoordinator_Active s = true →
  wp (TransitionCoordinator_Rollback reason) (fun r s' => r = Ok tt ∧ tc_inv s') s.
Proof.
  intros Ha. tc_members s. unfold TransitionCoordinator_Rollback. tc_unfold.
  apply wp_bind, wp_get. rewrite Ha. clear Ha. cbn [negb]. tc_simpl. tc_run.
  all: split; [done|].
  all: tc_tests; simplify_eq/=; constructor; simpl; intros; try done.
  all: try (by eexists). all: try (destruct_or?; done). all: simplify_eq/=; by split_and!.
Qed.

Lemma tc_inv_Rollback reason s :
  tc_inv s → wp (TransitionCoordinator_Rollback reason) (fun r s' => r = Ok tt ∧ tc_inv s') s.
Proof.
  intros Hinv. destruct (TransitionCoordinator_Active s) eqn:Ha; [by apply tc_inv_Rollback_active|].
  unfold TransitionCoordinator_Rollback. apply wp_bind, wp_get. by rewrite Ha.
Qed.

(** An event returns and keeps the invariant. *)
Definition tc_keeps (m : eff TransitionCoordinator unit) : Prop :=
  ∀ s, tc_inv s → wp m (fun r s' => r = Ok tt ∧ tc_inv s') s.

Lemma tc_inv_Prepared generation success : tc_keeps (TransitionCoordinator_Prepared generation success).
Proof.
  intros s Hinv. pose proof Hinv as [I1 I2 I3 I4 I5]. tc_members s. tc_unfold. tc_run.
  all: try by apply tc_inv_Rollback.
  all: split; [done|].
  all: tc_leaf I1 I2 I3 I4 I5.
Qed.

Lemma tc_inv_MapApplied revision : tc_keeps (TransitionCoordinator_MapApplied revision).
Proof.
  intros s [I1 I2 I3 I4 I5]. tc_members s. tc_unfold. tc_run.
  all: split; [done|].
  all: tc_leaf I1 I2 I3 I4 I5.
Qed.

Lemma tc_inv_MapChanged revision regions : tc_keeps (TransitionCoordinator_MapChanged revision regions).
Proof.
  intros s [I1 I2 I3 I4 I5]. tc_members s. tc_unfold. tc_run.
  all: split; [done|].
  all: tc_leaf I1 I2 I3 I4 I5.
Qed.

Lemma tc_inv_Abort failure : tc_keeps (TransitionCoordinator_Abort failure).
Proof.
  intros s [I1 I2 I3 I4 I5]. tc_members s. tc_unfold. tc_run.
  all: split; [done|].
  all: tc_leaf I1 I2 I3 I4 I5.
Qed.

Lemma tc_inv_NativeReady generation : tc_keeps (TransitionCoordinator_NativeReady generation).
Proof.
  intros s [I1 I2 I3 I4 I5]. tc_members s. tc_unfold. tc_run.
  all: split; [done|].
  all: tc_leaf I1 I2 I3 I4 I5.
Qed.

Lemma tc_inv_RelayFailed : tc_keeps TransitionCoordinator_RelayFailed.
Proof.
  intros s [I1 I2 I3 I4 I5]. tc_members s. tc_unfold. tc_run.
  all: try (apply tc_inv_Rollback_active; tc_tests; by apply phase_active_intro).
  all: split; [done|].
  all: tc_leaf I1 I2 I3 I4 I5.
Qed.

Lemma tc_inv_Poll : tc_keeps TransitionCoordinator_Poll.
Proof.
  intros s Hinv. pose proof Hinv as [I1 I2 I3 I4 I5]. tc_members s. tc_unfold.
  destruct rb; tc_run.
  all: try (apply tc_inv_Rollback).
  all: try (split; [done|]).
  all: tc_leaf I1 I2 I3 I4 I5.
Qed.

Lemma tc_inv_Reply reply : tc_keeps (TransitionCoordinator_Reply reply).
Proof.
  intros s Hinv. pose proof Hinv as [I1 I2 I3 I4 I5]. tc_members s.
  destruct pe as [[qg qi qm qa qr]|]; [|by tc_unfold; tc_run].
  destruct (I2 _ eq_refl) as (Hg & Hq & Hm & Hph). unfold pending_phase, target in Hph. simpl in *.
  tc_unfold. destruct qa, rb, d, o; destruct_and?; destruct_or?; destruct_and?; simplify_eq/=; tc_run.
  all: try by apply tc_inv_Rollback.
  all: split; [done|].
  all: tc_leaf I1 I2 I3 I4 I5.
Qed.

Lemma tc_inv_Begin desired revision regions unchanged s :
  tc_inv s →
  wp (TransitionCoordinator_Begin desired revision regions unchanged) (fun r s' => r ≠ UB ∧ tc_inv s') s.
Proof.
  intros [I1 I2 I3 I4 I5]. tc_members s. tc_unfold. tc_run.
  all: split; [done|].
  all: try by constructor.
  all: tc_leaf I1 I2 I3 I4 I5.
Qed.

Lemma tc_inv_step s op :
  tc_inv s → wp (tc_step op) (fun r s' => r ≠ UB ∧ tc_inv s') s.
Proof.
  intros Hinv.
  assert (∀ m, tc_keeps m → wp m (fun r s' => r ≠ UB ∧ tc_inv s') s) as Hk.
  { intros m Hm. eapply wp_mono; [by apply Hm|]. by intros r s' [-> ?]. }
  destruct op; cbn [tc_step]; [|apply Hk..|].
  - unfold forget. apply wp_bind. eapply wp_mono; [by apply tc_inv_Begin|].
    intros [] s' [? ?]; try done; by split.
  - apply tc_inv_Prepared.
  - apply tc_inv_MapApplied.
  - apply tc_inv_MapChanged.
  - apply tc_inv_Abort.
  - apply tc_inv_Reply.
  - apply tc_inv_NativeReady.
  - apply tc_inv_RelayFailed.
  - intros ? ?. by apply tc_inv_Rollback.
  - apply tc_inv_Poll.
  - unfold forget, TransitionCoordinator_TakeActions. apply wp_bind. wp_auto. split; [done|].
    destruct Hinv. by constructor.
Qed.

Lemma tc_reachable_inv clock s : tc_reachable clock s → tc_inv s.
Proof.
  induction 1 as [initial|s op _ IH]; [|by apply (tc_inv_step s op IH)].
  constructor; simpl; try done. intros [?|[?|?]]; done.
Qed.

(** ** What activates the native side *)

(** In a list of actions, whether every [ActivateNative] comes after a
    [RetireHosted]. *)
Fixpoint retires_first (retired : bool) (l : list TransitionAction) : bool :=
  match l with
  | [] => true
  | a :: l' =>
      match ta_Kind a with
      | Kind_ActivateNative => retired && retires_first retired l'
      | Kind_RetireHosted => retires_first true l'
      | _ => retires_first retired l'
      end
  end.

Lemma retires_first_spec r l l1 a l2 :
  retires_first r l = true → l = l1 ++ a :: l2 → ta_Kind a = Kind_ActivateNative →
  r = true ∨ ∃ b, b ∈ l1 ∧ ta_Kind b = Kind_RetireHosted.
Proof.
  revert r l. induction l1 as [|b l1 IH]; intros r l Hr -> Ha; simpl in Hr.
  { rewrite Ha in Hr. apply andb_true_iff in Hr as [-> _]. by left. }
  destruct (ta_Kind b) eqn:Hb.
  all: try (apply andb_true_iff in Hr as [_ Hr]).
  all: destruct (IH _ _ Hr eq_refl Ha) as [?|(c & ? & ?)]; auto;
    try (right; exists c; split; [by right|done]).
  right. exists b. split; [by left|done].
Qed.

(** The actions an event emits. *)
Definition emitted (op : tc_op) (s : TransitionCoordinator) : list TransitionAction :=
  tc_actions (tc_step op (tc_set_actions [] s)).2.

Lemma Rollback_retires_first reason s :
  TransitionCoordinator_Active s = true ∨ tc_actions s = [] →
  wp (TransitionCoordinator_Rollback reason) (fun _ s' => retires_first false (tc_actions s') = true) s.
Proof.
  intros Ha. tc_members s. unfold TransitionCoordinator_Rollback. tc_unfold.
  apply wp_bind, wp_get. destruct Ha as [Ha|Ha]; [rewrite Ha; cbn [negb]|simpl in Ha; subst ac].
  all: tc_simpl; tc_run; try done.
  all: tc_simpl; repeat case_bool_decide; done.
Qed.

(** The reply that permits the native side to take over. *)
Definition released_by (reply : DelegationReply) (s : TransitionCoordinator) : Prop :=
  ∃ pending, tc_pending s = Some pending ∧ rq_Action pending = Action_Release
    ∧ rp_Status reply = Status_Released ∧ rp_Generation reply = ts_Generation (tc_status s)
    ∧ rp_RequestId reply = rq_RequestId pending ∧ rp_MapRevision reply = rq_MapRevision pending.

Definition activation_justified (op : tc_op) (s : TransitionCoordinator) : Prop :=
  match op with
  | OpReply reply => released_by reply s
  | OpPrepared _ success => success = true ∧ tc_relayAvailable s = false
  | _ => False
  end.

Lemma emitted_activation op s :
  retires_first false (emitted op s) = true ∨ activation_justified op s.
Proof.
  assert (wp (tc_step op) (fun _ s' => retires_first false (tc_actions s') = true
    ∨ activation_justified op s) (tc_set_actions [] s)) as H; [|exact H].
  assert (∀ reason s', TransitionCoordinator_Active s' = true ∨ tc_actions s' = [] →
    wp (TransitionCoordinator_Rollback reason) (fun _ s' => retires_first false (tc_actions s') = true
      ∨ activation_justified op s) s') as Hroll.
  { intros reason s' Ha. eapply wp_mono; [by apply Rollback_retires_first|]. auto. }
  tc_members s. destruct op; tc_unfold; tc_simpl; tc_run.
  all: try (apply Hroll; first [by right | left; tc_tests; by apply phase_active_intro]).
  all: try (left; tc_simpl; repeat case_bool_decide; done).
  all: right; tc_tests; subst; simpl; try (split; congruence).
  eexists. by split_and!.
Qed.

(** ** Timeouts *)

(** A poll that finds the deadline passed. *)
Definition poll_expires (s : TransitionCoordinator) : Prop :=
  ∀ d, tc_deadline s = Some d → d <= tc_clock s (tc_ticks s).

(** One expired poll ends the transition or starts its rollback. *)
Lemma Poll_expired s :
  tc_inv s → poll_expires s →
  let s' := (TransitionCoordinator_Poll s).2 in
  TransitionCoordinator_Active s' = false
  ∨ (ts_RollingBack (tc_status s) = false ∧ ts_RollingBack (tc_status s') = true
     ∧ ts_Phase (tc_status s') ≠ Phase_Draining).
Proof.
  intros Hinv Hexp.
  assert (wp TransitionCoordinator_Poll (fun _ s' => TransitionCoordinator_Active s' = false
    ∨ (ts_RollingBack (tc_status s) = false ∧ ts_RollingBack (tc_status s') = true
       ∧ ts_Phase (tc_status s') ≠ Phase_Draining)) s) as H; [|exact H].
  pose proof (ti_deadline s Hinv) as Hd. unfold poll_expires in Hexp.
  tc_members s. unfold TransitionCoordinator_Poll, TransitionCoordinator_Rollback. tc_unfold.
  tc_simpl. destruct dl as [d'|]; [|wp_auto; by left]. simpl in Hexp. specialize (Hexp d' eq_refl).
  tc_run.
  all: try (b2p; lia).
  all: try (left; first [reflexivity | tc_tests; subst; reflexivity]).
  all: try (left; destruct rb; reflexivity).
  all: try (right; tc_tests; by split_and!).
Qed.

(** Every deadline is within [OperationTimeout] of a reading of the clock. *)
Definition deadline_bounded (s : TransitionCoordinator) : Prop :=
  ∀ d, tc_deadline s = Some d → ∃ k, (k < tc_ticks s)%nat ∧ d <= tc_clock s k + OperationTimeout.

Lemma deadline_bounded_step s op :
  deadline_bounded s →
  wp (tc_step op) (fun _ s' => deadline_bounded s' ∧ tc_clock s' = tc_clock s) s.
Proof.
  intros Hb. unfold deadline_bounded in *. tc_members s. simpl in Hb.
  destruct op; tc_unfold; unfold TransitionCoordinator_Rollback; tc_unfold; tc_simpl; tc_run.
  all: tc_simpl; split; [|reflexivity]; intros dl0 Hdl0.
  all: try discriminate Hdl0.
  all: try (destruct (Hb _ Hdl0) as (k & ? & ?); exists k; split; [lia|done]).
  all: injection Hdl0 as <-; unfold DrainInterval, OperationTimeout;
    first [exists tk; split; [lia|lia] | exists (S tk); split; [lia|lia]].
Qed.

(** ** Claims *)

(** Whatever events a coordinator receives, in whatever order, a transition
    that is running has a deadline and no other has one, the outstanding request
    carries the current generation and fits the phase, and no event has undefined
    behaviour. *)
Theorem TransitionCoordinator_reachable_inv clock s op :
  tc_reachable clock s → tc_inv s ∧ safe (tc_step op s).1.
Proof.
  intros Hs. pose proof (tc_reachable_inv clock s Hs) as Hinv. split; [done|].
  apply (tc_inv_step s op Hinv).
Qed.

(** The native side is told to take the DERP connections only by a
    [Released] reply to the outstanding [Release] request of the current
    generation, or once the relay has failed, or after a [RetireHosted] in the same
    batch of actions. *)
Theorem TransitionCoordinator_activates_native_safely clock s op l1 a l2 :
  tc_reachable clock s → emitted op s = l1 ++ a :: l2 → ta_Kind a = Kind_ActivateNative →
  (∃ b, b ∈ l1 ∧ ta_Kind b = Kind_RetireHosted)
  ∨ (∃ reply, op = OpReply reply ∧ released_by reply s)
  ∨ (∃ generation, op = OpPrepared generation true ∧ tc_relayAvailable s = false).
Proof.
  intros _ Hl Ha. destruct (emitted_activation op s) as [Hr|Hj].
  - destruct (retires_first_spec _ _ _ _ _ Hr Hl Ha) as [?|?]; [done|by left].
  - right. destruct op; simpl in Hj; try done; [|by left; eauto].
    destruct Hj as [-> ?]. right. eauto.
Qed.

(** A relay that never answers cannot hold a transition: two polls past the
    deadline end it, and every deadline is at most [OperationTimeout] after a
    reading of the clock. *)
Theorem TransitionCoordinator_times_out clock s :
  tc_reachable clock s → poll_expires s → poll_expires (TransitionCoordinator_Poll s).2 →
  let s2 := (TransitionCoordinator_Poll (TransitionCoordinator_Poll s).2).2 in
  TransitionCoordinator_Active s2 = false ∧ tc_deadline s2 = None ∧ deadline_bounded s.
Proof.
  intros Hs H1 H2 s2. pose proof (tc_reachable_inv clock s Hs) as Hinv.
  assert (tc_inv (TransitionCoordinator_Poll s).2) as Hinv1 by (by apply tc_inv_Poll).
  assert (tc_inv s2) as Hinv2 by (by apply tc_inv_Poll).
  assert (TransitionCoordinator_Active s2 = false) as Ha.
  { destruct (Poll_expired _ Hinv1 H2) as [?|(Hrb & _)]; [done|].
    destruct (Poll_expired _ Hinv H1) as [Hi|(_ & Hrb' & _)]; [|congruence].
    pose proof Hi as Hi'. rewrite (ti_deadline _ Hinv1) in Hi'. apply bool_decide_eq_false in Hi'.
    unfold s2, TransitionCoordinator_Poll at 1, ebind, eget.
    destruct (tc_deadline (TransitionCoordinator_Poll s).2); [by destruct Hi'|].
    exact Hi. }
  split_and!; [done|..].
  - pose proof (ti_deadline _ Hinv2) as Hd. rewrite Ha in Hd. symmetry in Hd.
    apply bool_decide_eq_false in Hd. destruct (tc_deadline s2); [by destruct Hd|done].
  - clear -Hs. induction Hs as [initial|s op _ IH]; [intros d; done|].
    by apply (deadline_bounded_step s op IH).
Qed.

(** ** A concrete transition from hosted to native mode *)

Definition demo_clock (k : nat) : Z := Z.of_nat k * 20000000000.

Definition run_events (ops : list tc_op) (s : TransitionCoordinator) : TransitionCoordinator :=
  foldl (fun s op => (tc_step op s).2) s ops.

Definition demo_reply (id : Z) (status : DelegationStatus) : DelegationReply :=
  {| rp_Generation := 1; rp_RequestId := id; rp_MapRevision := 1; rp_Status := status;
     rp_Failure := Failure_None |}.

(** Up to the outstanding [Release]. *)
Definition demo_events : list tc_op :=
  [OpBegin Mode_Native 1 [7; 3; 7] true; OpMapApplied 1; OpPrepared 1 true;
   OpReply (demo_reply 1 Status_Prepared)].

Definition demo_transition : TransitionCoordinator :=
  run_events demo_events (TransitionCoordinator_initial demo_clock Mode_Hosted).

Lemma run_events_reachable clock ops s :
  tc_reachable clock s → tc_reachable clock (run_events ops s).
Proof. revert s. induction ops as [|op ops IH]; intros s Hs; [done|]. by apply IH, tc_reach_step. Qed.

Lemma demo_transition_reachable : tc_reachable demo_clock demo_transition.
Proof. apply run_events_reachable, tc_reach_initial. Qed.

Lemma TransitionCoordinator_reachable_inv_witness :
  ts_Phase (tc_status demo_transition) = Phase_Releasing ∧ tc_inv demo_transition.
Proof.
  split; [vm_compute; reflexivity|].
  exact (proj1 (TransitionCoordinator_reachable_inv demo_clock demo_transition OpRelayFailed
    demo_transition_reachable)).
Defined.

Lemma TransitionCoordinator_activates_native_safely_witness :
  let op := OpReply (demo_reply 2 Status_Released) in
  emitted op demo_transition
  = [{| ta_Kind := Kind_ActivateNative; ta_Generation := 1; ta_Delegation := None |}]
  ∧ ((∃ b, b ∈ @nil TransitionAction ∧ ta_Kind b = Kind_RetireHosted)
     ∨ (∃ reply, op = OpReply reply ∧ released_by reply demo_transition)
     ∨ (∃ generation, op = OpPrepared generation true ∧ tc_relayAvailable demo_transition = false)).
Proof.
  split; [vm_compute; reflexivity|].
  apply (TransitionCoordinator_activates_native_safely demo_clock demo_transition
    (OpReply (demo_reply 2 Status_Released)) []
    {| ta_Kind := Kind_ActivateNative; ta_Generation := 1; ta_Delegation := None |} []).
  - apply demo_transition_reachable.
  - vm_compute. reflexivity.
  - reflexivity.
Defined.

Lemma TransitionCoordinator_times_out_witness :
  TransitionCoordinator_Active demo_transition = true
  ∧ TransitionCoordinator_Active
      (TransitionCoordinator_Poll (TransitionCoordinator_Poll demo_transition).2).2 = false.
Proof.
  split; [vm_compute; reflexivity|].
  apply (TransitionCoordinator_times_out demo_clock demo_transition).
  - apply demo_transition_reachable.
  - intros d Hd. vm_compute in Hd. injection Hd as <-. vm_compute. discriminate.
  - intros d Hd. vm_compute in Hd. discriminate Hd.
Defined.
