(* ===== verification/Handover.v ===== *)
(** * The handover of the DERP connections

    The requests of the client's [TransitionCoordinator] against the encoder of
    src/core/hosted/Delegation.cpp and the relay's [DelegationLease]. *)

From S2P Require Import Prelude Text Net Packet Framing Decoder Codec Lease Transition.

(** ** The requests *)

Lemma insert_region_elem r l x : x ∈ insert_region r l ↔ x = r ∨ x ∈ l.
Proof.
  induction l as [|y l IH]; simpl; [by rewrite list_elem_of_singleton, elem_of_nil; intuition|].
  destruct (Z.ltb_spec r y); [by rewrite !elem_of_cons|].
  destruct (Z.eqb_spec r y); rewrite ?elem_of_cons, ?IH; naive_solver.
Qed.

Lemma sort_unique_elem l x : x ∈ sort_unique l ↔ x ∈ l.
Proof.
  induction l as [|y l IH]; [done|]. change (sort_unique (y :: l)) with (insert_region y (sort_unique l)).
  by rewrite insert_region_elem, IH, elem_of_cons.
Qed.

Lemma insert_region_increasing r l prev :
  prev < r → increasing prev l → increasing prev (insert_region r l).
Proof.
  revert prev. induction l as [|y l IH]; intros prev Hr Hl; simpl in *; [by split|].
  destruct Hl as [Hy Hl]. destruct (Z.ltb_spec r y); [by split_and!|].
  destruct (Z.eqb_spec r y); [by split|]. simpl. split; [done|]. apply IH; [lia|done].
Qed.

(** Regions a request can carry. *)
Definition regions_ok (l : list Z) : Prop :=
  l ≠ [] ∧ zlen (sort_unique l) <= 255 ∧ Forall (fun r => in_width 16 r ∧ r ≠ 0) l.

Lemma sort_unique_ok l :
  regions_ok l →
  0 < zlen (sort_unique l) <= 255 ∧ Forall (in_width 16) (sort_unique l)
  ∧ increasing 0 (sort_unique l).
Proof.
  intros (Hne & Hlen & Hf). rewrite Forall_forall in Hf.
  split_and!; [|done|..].
  - destruct l as [|y l]; [done|]. assert (y ∈ sort_unique (y :: l)) as Hy.
    { apply sort_unique_elem. by left. }
    destruct (sort_unique (y :: l)); [by apply not_elem_of_nil in Hy|]. zlia.
  - apply Forall_forall. intros x Hx. apply (proj1 (sort_unique_elem l x)) in Hx. by destruct (Hf x Hx).
  - clear Hne Hlen. induction l as [|y l IH]; [done|].
    change (sort_unique (y :: l)) with (insert_region y (sort_unique l)).
    apply insert_region_increasing.
    + destruct (Hf y) as [[? ?] ?]; [by left|]. lia.
    + apply IH. intros x Hx. apply Hf. by right.
Qed.

(** The maps given to the coordinator. *)
Definition op_map_ok (op : tc_op) : Prop :=
  match op with
  | OpBegin _ revision regions _ | OpMapChanged revision regions =>
      in_width 64 revision ∧ revision ≠ 0 ∧ regions_ok regions
  | _ => True
  end.

Inductive tc_valid (clock : nat → Z) : TransitionCoordinator → Prop :=
  | tc_valid_initial initial : tc_valid clock (TransitionCoordinator_initial clock initial)
  | tc_valid_step s op : tc_valid clock s → op_map_ok op → tc_valid clock (tc_step op s).2.

(** Every request the coordinator has queued or is waiting for can be encoded, up
    to its generation and identifier. *)
Definition request_ok (r : DelegationRequest) : Prop :=
  in_width 64 (rq_Generation r) ∧ in_width 64 (rq_RequestId r)
  ∧ (rq_Generation r ≠ 0 → rq_RequestId r ≠ 0 → Request_wf r).

Record tc_map_ok (s : TransitionCoordinator) : Prop := {
  tm_map : TransitionCoordinator_Active s = true →
    in_width 64 (tc_mapRevision s) ∧ tc_mapRevision s ≠ 0
    ∧ 0 < zlen (tc_regions s) <= 255 ∧ Forall (in_width 16) (tc_regions s)
    ∧ increasing 0 (tc_regions s);
  tm_width : in_width 64 (ts_Generation (tc_status s)) ∧ in_width 64 (tc_requestId s);
  tm_actions : Forall (fun a => ∀ r, ta_Delegation a = Some r → request_ok r) (tc_actions s)
}.

Lemma request_ok_intro g i m a l :
  in_width 64 g → in_width 64 i →
  in_width 64 m ∧ m ≠ 0 ∧ 0 < zlen l <= 255 ∧ Forall (in_width 16) l ∧ increasing 0 l →
  request_ok {| rq_Generation := g; rq_RequestId := i; rq_MapRevision := m; rq_Action := a;
                rq_Regions := l |}.
Proof. intros Hg Hi (? & ? & ? & ? & ?). split_and!; [done..|]. intros ? ?. split; simpl; [unfold identity_wf; by split_and!|split_and!; done || lia]. Qed.

Lemma actions_snoc_plain l k g :
  Forall (fun a => ∀ r, ta_Delegation a = Some r → request_ok r) l →
  Forall (fun a => ∀ r, ta_Delegation a = Some r → request_ok r)
    (l ++ [{| ta_Kind := k; ta_Generation := g; ta_Delegation := None |}]).
Proof. intros. apply Forall_app_2; [done|by forall_intro]. Qed.

Lemma actions_snoc_request l k g q :
  Forall (fun a => ∀ r, ta_Delegation a = Some r → request_ok r) l → request_ok q →
  Forall (fun a => ∀ r, ta_Delegation a = Some r → request_ok r)
    (l ++ [{| ta_Kind := k; ta_Generation := g; ta_Delegation := Some q |}]).
Proof. intros. apply Forall_app_2; [done|]. forall_intro. by intros ? [= <-]. Qed.

Create HintDb requests.
#[export] Hint Resolve actions_snoc_plain actions_snoc_request request_ok_intro Forall_nil_2 : requests.

Lemma u64_width x : in_width 64 (u64 x).
Proof. by apply wrap_range. Qed.
#[export] Hint Resolve u64_width : requests.

Lemma tc_map_ok_step s op :
  tc_map_ok s → op_map_ok op → wp (tc_step op) (fun _ s' => tc_map_ok s') s.
Proof.
  intros [Hm [Hg Hi] Hact] Hop. tc_members s. simpl in Hm, Hg, Hi, Hact.
  destruct op; cbn [op_map_ok] in Hop; tc_unfold; unfold TransitionCoordinator_Rollback; tc_unfold;
    tc_simpl; tc_run.
  all: try (destruct Hop as (Hr1 & Hr2 & (Hr3 & Hr4 & Hr5)%sort_unique_ok)).
  all: try (assert (phase_active p = true) as Hp
    by (tc_tests; subst; first [reflexivity | by apply phase_active_intro]);
    specialize (Hm Hp)).
  all: constructor; tc_simpl; [try done; try (intros _; by split_and!); try (intros; by apply Hm)
    |split; auto with requests|auto 8 with requests].
Qed.

Lemma tc_valid_map_ok clock s : tc_valid clock s → tc_map_ok s.
Proof.
  induction 1 as [initial|s op _ IH Hop]; [|by apply (tc_map_ok_step s op IH)].
  constructor; simpl; [done|done|constructor].
Qed.

(** Every request a coordinator emits can be sent: when the maps it is given
    have a revision and at most 255 distinct nonzero regions, the request is well
    formed, so that [EncodeDelegation] succeeds and the relay decodes the same
    request (unless the 64-bit generation or request counter wrapped to zero). *)
Theorem TransitionCoordinator_requests_encode clock s op a r :
  tc_valid clock s → op_map_ok op →
  a ∈ tc_actions (tc_step op s).2 → ta_Delegation a = Some r →
  rq_Generation r ≠ 0 → rq_RequestId r ≠ 0 →
  Request_wf r
  ∧ ∃ f, EncodeDelegationRequest r = Ok f ∧ DecodeDelegationRequest f = Ok (Some r).
Proof.
  intros Hs Hop Ha Hr Hg Hi.
  pose proof (tc_map_ok_step s op (tc_valid_map_ok clock s Hs) Hop) as [_ _ Hact].
  rewrite Forall_forall in Hact. destruct (Hact a Ha r Hr) as (_ & _ & Hwf).
  specialize (Hwf Hg Hi). split; [done|].
  destruct (Request_roundtrip r Hwf) as (f & ? & _ & _ & ?). eauto.
Qed.

(** The smallest region of a map comes first. *)
Lemma sort_unique_zero l :
  0 ∈ l → Forall (fun r => 0 <= r) l → ∃ rest, sort_unique l = 0 :: rest.
Proof.
  intros H0 Hl. assert (0 ∈ sort_unique l) as Hin by (by apply sort_unique_elem).
  assert (increasing (-1) (sort_unique l)) as Hinc.
  { clear H0 Hin. induction Hl as [|y l Hy Hl IH]; [done|].
    apply insert_region_increasing; [lia|done]. }
  destruct (sort_unique l) as [|x rest]; [by apply not_elem_of_nil in Hin|].
  destruct Hinc as [Hx Hinc]. apply elem_of_cons in Hin as [<-|Hin]; [eauto|].
  exfalso. assert (∀ m k, increasing m k → Forall (fun r => m < r) k) as Hlt.
  { clear. intros m k. revert m. induction k as [|y k IH]; intros m; [constructor|].
    intros [Hm Hk]. constructor; [done|]. eapply Forall_impl; [by apply IH|]. simpl. lia. }
  apply Hlt in Hinc. rewrite Forall_forall in Hinc. specialize (Hinc 0 Hin). lia.
Qed.

(** A request that [EncodeDelegation] throws on. *)
Definition refused (r : DelegationRequest) : Prop :=
  EncodeDelegationRequest r = Throw (InvalidArgument "invalid delegation request").

(** [MapChanged] does not repeat the check of [Begin]: when a map that
    arrives during a transition names region 0, the [Prepare] request sent for it is
    one that [EncodeDelegation] refuses with [invalid_argument]. *)
Theorem TransitionCoordinator_MapChanged_unchecked s revision regions :
  TransitionCoordinator_Active s = true →
  ts_Phase (tc_status s) ≠ Phase_Preparing → ts_Phase (tc_status s) ≠ Phase_Draining →
  0 ∈ regions → Forall (fun r => 0 <= r) regions →
  let s1 := (TransitionCoordinator_MapChanged revision regions s).2 in
  let s2 := (TransitionCoordinator_MapApplied revision s1).2 in
  ∃ r, tc_pending s2 = Some r ∧ rq_Action r = Action_Prepare
    ∧ refused r.
Proof.
  intros Ha Hp Hd H0 Hr s1 s2. destruct (sort_unique_zero regions H0 Hr) as [rest Hrest].
  tc_members s.
  assert (s1 = {| tc_status := {| ts_Desired := d; ts_Effective := e; ts_Phase := Phase_AwaitingMap;
                    ts_Failure := f; ts_Generation := u64 (g + 1); ts_RollingBack := rb |};
    tc_original := o; tc_mapRevision := revision; tc_appliedRevision := 0; tc_requestId := rq;
    tc_pending := None; tc_regions := sort_unique regions; tc_deadline := Some (ck tk + OperationTimeout);
    tc_actions := [{| ta_Kind := Kind_SuspendNative; ta_Generation := u64 (g + 1);
                      ta_Delegation := None |}];
    tc_ownershipChanged := oc; tc_relayAvailable := ra; tc_clock := ck; tc_ticks := S tk |}) as ->.
  { unfold s1, TransitionCoordinator_MapChanged, ebind, eget. rewrite Ha. simpl in *.
    rewrite !bool_decide_eq_false_2 by done. reflexivity. }
  assert (tc_pending s2 = Some {| rq_Generation := u64 (g + 1); rq_RequestId := u64 (rq + 1);
    rq_MapRevision := revision; rq_Action := Action_Prepare; rq_Regions := sort_unique regions |}) as ->.
  { unfold s2, TransitionCoordinator_MapApplied, ebind, eget, emod. simpl. rewrite Z.eqb_refl. reflexivity. }
  eexists; split_and!; [done..|]. unfold refused, EncodeDelegationRequest. simpl rq_Regions. rewrite Hrest.
  rewrite !orb_true_r. reflexivity.
Qed.

(** ** The requests of a concrete transition *)

Lemma run_events_valid clock ops s :
  Forall op_map_ok ops → tc_valid clock s → tc_valid clock (run_events ops s).
Proof.
  intros Hops. revert s. induction Hops as [|op ops Hop _ IH]; intros s Hs; [done|].
  apply IH. by apply tc_valid_step.
Qed.

Lemma demo_transition_valid : tc_valid demo_clock demo_transition.
Proof.
  apply run_events_valid; [|apply tc_valid_initial]. forall_intro.
  split_and!; [done..|]. split_and!; [done..|]. forall_intro.
Qed.

Definition demo_release : DelegationRequest :=
  {| rq_Generation := 1; rq_RequestId := 3; rq_MapRevision := 1; rq_Action := Action_Commit;
     rq_Regions := [3; 7] |}.

Lemma TransitionCoordinator_requests_encode_witness :
  Request_wf demo_release
  ∧ ∃ f, EncodeDelegationRequest demo_release = Ok f
    ∧ DecodeDelegationRequest f = Ok (Some demo_release).
Proof.
  apply (TransitionCoordinator_requests_encode demo_clock
    (tc_step (OpReply (demo_reply 2 Status_Released)) demo_transition).2 (OpNativeReady 1)
    {| ta_Kind := Kind_Delegation; ta_Generation := 1; ta_Delegation := Some demo_release |}).
  - apply tc_valid_step; [apply demo_transition_valid|done].
  - done.
  - vm_compute. repeat (first [left | right]).
  - reflexivity.
  - done.
  - done.
Defined.

Lemma TransitionCoordinator_MapChanged_unchecked_witness :
  ∃ r, tc_pending (TransitionCoordinator_MapApplied 2
         (TransitionCoordinator_MapChanged 2 [5; 0] demo_transition).2).2 = Some r
    ∧ rq_Action r = Action_Prepare
    ∧ refused r.
Proof.
  apply (TransitionCoordinator_MapChanged_unchecked demo_transition 2 [5; 0]).
  - vm_compute. reflexivity.
  - vm_compute. discriminate.
  - vm_compute. discriminate.
  - right. left.
  - by forall_intro.
Defined.
