(* ===== verification/DerpConnection.v ===== *)
(** * DERP connections

    The send queue of src/core/derp/SendQueue.cpp and the reconnecting connection
    of src/core/derp/impl/ConnectionImpl.cpp, which implements the interface
    [Connection] that the relay's ownership code is proved against. *)

From S2P Require Import Prelude Text Net Packet Framing Decoder Codec DerpClient Lease.

(** ** [DerpSendQueue] *)

Inductive Priority := Priority_Data | Priority_Control.

Record QueuedPacket := { qp_Destination : bytes; qp_Payload : bytes }.

Record PushResult := { pr_Accepted : bool; pr_DroppedPackets : Z }.

Record DerpSendQueue := {
  sq_maximumPackets : Z;
  sq_maximumBytes : Z;
  sq_bytes : Z;
  sq_control : list QueuedPacket;
  sq_data : list QueuedPacket
}.

Definition DerpSendQueue_new (maximumPackets maximumBytes : Z) : outcome DerpSendQueue :=
  if (maximumPackets =? 0) || (maximumBytes =? 0)
  then Throw (InvalidArgument "DERP queue limits must be positive.") else
  Ok {| sq_maximumPackets := maximumPackets; sq_maximumBytes := maximumBytes; sq_bytes := 0;
        sq_control := []; sq_data := [] |}.

Definition DerpSendQueue_Size (q : DerpSendQueue) : Z := zlen (sq_control q) + zlen (sq_data q).

Definition payload_size (p : QueuedPacket) : Z := zlen (qp_Payload p).

(** [std::deque& queue = m_data.empty() ? m_control : m_data], its front, and the
    queue without it. *)
Definition drop_oldest (q : DerpSendQueue) : outcome DerpSendQueue :=
  match sq_data q with
  | p :: rest =>
      Ok {| sq_maximumPackets := sq_maximumPackets q; sq_maximumBytes := sq_maximumBytes q;
            sq_bytes := u64 (sq_bytes q - payload_size p); sq_control := sq_control q;
            sq_data := rest |}
  | [] =>
      match sq_control q with
      | p :: rest =>
          Ok {| sq_maximumPackets := sq_maximumPackets q; sq_maximumBytes := sq_maximumBytes q;
                sq_bytes := u64 (sq_bytes q - payload_size p); sq_control := rest;
                sq_data := [] |}
      | [] => UB
      end
  end.

(** The loop that makes room for [size] bytes; the fuel is the number of queued
    packets. *)
Fixpoint make_room (fuel : nat) (size : Z) (dropped : Z) (q : DerpSendQueue)
    : outcome (Z * DerpSendQueue) :=
  if (0 <? DerpSendQueue_Size q)
     && ((sq_maximumPackets q <=? DerpSendQueue_Size q)
         || (sq_maximumBytes q <? u64 (sq_bytes q + size)))
  then
    match fuel with
    | O => UB
    | S fuel' => let! q := drop_oldest q in make_room fuel' size (dropped + 1) q
    end
  else Ok (dropped, q).

Definition DerpSendQueue_Push (packet : QueuedPacket) (priority : Priority) (q : DerpSendQueue)
    : outcome (PushResult * DerpSendQueue) :=
  if sq_maximumBytes q <? payload_size packet
  then Ok ({| pr_Accepted := false; pr_DroppedPackets := 0 |}, q) else
  let! (dropped, q) := make_room (Z.to_nat (DerpSendQueue_Size q)) (payload_size packet) 0 q in
  let result := {| pr_Accepted := true; pr_DroppedPackets := dropped |} in
  match priority with
  | Priority_Control =>
      Ok (result, {| sq_maximumPackets := sq_maximumPackets q; sq_maximumBytes := sq_maximumBytes q;
                     sq_bytes := u64 (sq_bytes q + payload_size packet);
                     sq_control := sq_control q ++ [packet]; sq_data := sq_data q |})
  | Priority_Data =>
      Ok (result, {| sq_maximumPackets := sq_maximumPackets q; sq_maximumBytes := sq_maximumBytes q;
                     sq_bytes := u64 (sq_bytes q + payload_size packet);
                     sq_control := sq_control q; sq_data := sq_data q ++ [packet] |})
  end.

Definition DerpSendQueue_Pop (q : DerpSendQueue) : option QueuedPacket * DerpSendQueue :=
  match sq_control q with
  | p :: rest =>
      (Some p, {| sq_maximumPackets := sq_maximumPackets q; sq_maximumBytes := sq_maximumBytes q;
                  sq_bytes := u64 (sq_bytes q - payload_size p); sq_control := rest;
                  sq_data := sq_data q |})
  | [] =>
      match sq_data q with
      | p :: rest =>
          (Some p, {| sq_maximumPackets := sq_maximumPackets q; sq_maximumBytes := sq_maximumBytes q;
                      sq_bytes := u64 (sq_bytes q - payload_size p); sq_control := [];
                      sq_data := rest |})
      | [] => (None, q)
      end
  end.

(** ** [ConnectionImpl] *)

(** A TCP socket is a stream that also reports what a TLS session waits for, and
    whose readiness is registered with the event loop. *)
Class TcpSocket (S : Type) := {
  so_ReadNeedsWrite : S → bool;
  so_WriteNeedsRead : S → bool;
  so_SetNonBlocking : bool → eff S unit;
  so_SetWriteInterest : bool → eff S unit
}.

(** The platform's socket calls return or throw. *)
Class TcpSocketLaws (S : Type) `{!TcpSocket S} : Prop := {
  so_SetNonBlocking_safe : ∀ b s, (so_SetNonBlocking b s).1 ≠ UB;
  so_SetWriteInterest_safe : ∀ b s, (so_SetWriteInterest b s).1 ≠ UB
}.

(** [EventReadiness], a set of flags in a byte. *)
Definition Readiness_Readable : Z := Z.shiftl 1 0.
Definition Readiness_Writable : Z := Z.shiftl 1 1.
Definition Readiness_Closed : Z := Z.shiftl 1 2.
Definition Readiness_Error : Z := Z.shiftl 1 3.

Definition HasReadiness (value readiness : Z) : bool := negb (Z.land value readiness =? 0).

Record Event := { ev_Token : Z; ev_Readiness : Z }.

Inductive ConnectionEventStatus := EventStatus_Ready | EventStatus_Disconnected.

Record ConnectionEventResult := {
  er_Handled : bool;
  er_Status : ConnectionEventStatus;
  er_Packets : list DerpPacket
}.

Definition InitialReconnectDelay : Z := 1 * 1000000000.
Definition MaximumReconnectDelay : Z := 30 * 1000000000.
Definition MaximumQueuedPackets : Z := 4096.
Definition MaximumQueuedBytes : Z := 8 * 1024 * 1024.
Definition MaximumFramesPerFlush : nat := 64.
(** [TimePoint::max()] *)
Definition TimePoint_max : Z := 2 ^ 63 - 1.

Definition empty_queue : DerpSendQueue :=
  {| sq_maximumPackets := MaximumQueuedPackets; sq_maximumBytes := MaximumQueuedBytes;
     sq_bytes := 0; sq_control := []; sq_data := [] |}.

Section connection.
  Context {S : Type} `{!ByteStream S} `{!TcpSocket S}.

(** What [DialOperation::TakeResult] returns at one call: nothing yet, the
    exception of the attempt, or its socket and client. *)
Inductive DialResult :=
  | Dial_Pending
  | Dial_Error (e : exn)
  | Dial_Connected (client : DerpClient S).

(** The worker of a [DialOperation]: a socket is opened, the handshake is made
    over it and the preference sent.  [opened] is what [OpenTcpSocket] gave. *)
Definition DialOperation_run (opened : outcome S) (request : bytes)
    (authenticate : bytes → outcome bytes) (opens : option (bytes → bytes → bool))
    (preferred : bool) : outcome DialResult :=
  match opened with
  | UB => UB
  | Throw e => Ok (Dial_Error e)
  | Ok socket =>
      match (DerpClient_Connect request authenticate opens ;;*
             DerpClient_SetPreferred preferred ;;* DerpClient_Flush) (DerpClient_new socket) with
      | (Ok _, client) => Ok (Dial_Connected client)
      | (Throw e, _) => Ok (Dial_Error e)
      | (UB, _) => UB
      end
  end.

(** [m_socket] and [m_client] are set and reset together, and the client holds the
    socket.  The clock and the results of the dials to come are those of the
    connection's environment, and so is the readable event it posts to itself. *)
Record ConnectionImpl := {
  ci_enabled : bool;
  ci_dial : bool;
  ci_client : option (DerpClient S);
  ci_outgoing : DerpSendQueue;
  ci_nextReconnect : Z;
  ci_reconnectDelay : Z;
  ci_networkInterface : bytes;
  ci_token : Z;
  ci_now : Z;
  ci_dials : list DialResult;
  ci_posted : bool
}.

Definition ci_set_enabled v c := {| ci_enabled := v; ci_dial := ci_dial c; ci_client := ci_client c;
  ci_outgoing := ci_outgoing c; ci_nextReconnect := ci_nextReconnect c;
  ci_reconnectDelay := ci_reconnectDelay c; ci_networkInterface := ci_networkInterface c;
  ci_token := ci_token c; ci_now := ci_now c; ci_dials := ci_dials c; ci_posted := ci_posted c |}.
Definition ci_set_dial v c := {| ci_enabled := ci_enabled c; ci_dial := v; ci_client := ci_client c;
  ci_outgoing := ci_outgoing c; ci_nextReconnect := ci_nextReconnect c;
  ci_reconnectDelay := ci_reconnectDelay c; ci_networkInterface := ci_networkInterface c;
  ci_token := ci_token c; ci_now := ci_now c; ci_dials := ci_dials c; ci_posted := ci_posted c |}.
Definition ci_set_client v c := {| ci_enabled := ci_enabled c; ci_dial := ci_dial c; ci_client := v;
  ci_outgoing := ci_outgoing c; ci_nextReconnect := ci_nextReconnect c;
  ci_reconnectDelay := ci_reconnectDelay c; ci_networkInterface := ci_networkInterface c;
  ci_token := ci_token c; ci_now := ci_now c; ci_dials := ci_dials c; ci_posted := ci_posted c |}.
Definition ci_set_outgoing v c := {| ci_enabled := ci_enabled c; ci_dial := ci_dial c;
  ci_client := ci_client c; ci_outgoing := v; ci_nextReconnect := ci_nextReconnect c;
  ci_reconnectDelay := ci_reconnectDelay c; ci_networkInterface := ci_networkInterface c;
  ci_token := ci_token c; ci_now := ci_now c; ci_dials := ci_dials c; ci_posted := ci_posted c |}.
Definition ci_set_reconnect next delay c := {| ci_enabled := ci_enabled c; ci_dial := ci_dial c;
  ci_client := ci_client c; ci_outgoing := ci_outgoing c; ci_nextReconnect := next;
  ci_reconnectDelay := delay; ci_networkInterface := ci_networkInterface c;
  ci_token := ci_token c; ci_now := ci_now c; ci_dials := ci_dials c; ci_posted := ci_posted c |}.
Definition ci_set_interface v c := {| ci_enabled := ci_enabled c; ci_dial := ci_dial c;
  ci_client := ci_client c; ci_outgoing := ci_outgoing c; ci_nextReconnect := ci_nextReconnect c;
  ci_reconnectDelay := ci_reconnectDelay c; ci_networkInterface := v;
  ci_token := ci_token c; ci_now := ci_now c; ci_dials := ci_dials c; ci_posted := ci_posted c |}.
Definition ci_set_dials v c := {| ci_enabled := ci_enabled c; ci_dial := ci_dial c;
  ci_client := ci_client c; ci_outgoing := ci_outgoing c; ci_nextReconnect := ci_nextReconnect c;
  ci_reconnectDelay := ci_reconnectDelay c; ci_networkInterface := ci_networkInterface c;
  ci_token := ci_token c; ci_now := ci_now c; ci_dials := v; ci_posted := ci_posted c |}.
Definition ci_set_posted posted c := {| ci_enabled := ci_enabled c; ci_dial := ci_dial c;
  ci_client := ci_client c; ci_outgoing := ci_outgoing c; ci_nextReconnect := ci_nextReconnect c;
  ci_reconnectDelay := ci_reconnectDelay c; ci_networkInterface := ci_networkInterface c;
  ci_token := ci_token c; ci_now := ci_now c; ci_dials := ci_dials c; ci_posted := posted |}.

(** [try { m } catch (const std::exception&) { handler }] *)
Definition etry {St A} (m : eff St A) (handler : eff St A) : eff St A := fun s =>
  match m s with
  | (Throw _, s') => handler s'
  | r => r
  end.

(** [m_client->...]; a null client is undefined behaviour. *)
Definition on_client {A} (m : eff (DerpClient S) A) : eff ConnectionImpl A := fun c =>
  match ci_client c with
  | Some client => let '(r, client') := m client in (r, ci_set_client (Some client') c)
  | None => (UB, c)
  end.

Definition the_client : eff ConnectionImpl (DerpClient S) :=
  let* c := eget in
  match ci_client c with Some client => eret client | None => elift UB end.

Definition take_dial : eff ConnectionImpl DialResult :=
  let* c := eget in
  match ci_dials c with
  | [] => eret Dial_Pending
  | r :: rest => emod (ci_set_dials rest) ;;* eret r
  end.

(** The loop of [FlushOutgoing], over the frames it may still send. *)
Fixpoint flush_frames (frames : nat) : eff ConnectionImpl unit :=
  match frames with
  | O => eret tt
  | Datatypes.S frames' =>
      let* client := the_client in
      if DerpClient_HasPendingOutput client then eret tt else
      let* c := eget in
      let '(outgoing, q) := DerpSendQueue_Pop (ci_outgoing c) in
      emod (ci_set_outgoing q) ;;*
      match outgoing with
      | None => eret tt
      | Some p =>
          on_client (DerpClient_Send (qp_Destination p) (qp_Payload p)) ;;* flush_frames frames'
      end
  end.

Definition ConnectionImpl_FlushOutgoing : eff ConnectionImpl unit :=
  let* c := eget in
  match ci_client c with
  | None => eret tt
  | Some _ =>
      flush_frames MaximumFramesPerFlush ;;*
      let* client := the_client in
      if DerpClient_HasPendingOutput client then on_client DerpClient_Flush else eret tt
  end.

Definition ConnectionImpl_DrainIncoming : eff ConnectionImpl (list DerpPacket) :=
  let* c := eget in
  match ci_client c with
  | None => eret []
  | Some _ => on_client DerpClient_ReceiveAvailableBatch
  end.

Definition ConnectionImpl_UpdateWriteInterest : eff ConnectionImpl unit :=
  let* c := eget in
  match ci_client c with
  | None => eret tt
  | Some client =>
      let* buffered := elift (DerpClient_HasBufferedInput client) in
      let socket := cl_stream client in
      (if (buffered : bool) then emod (ci_set_posted true) else eret tt) ;;*
      on_client (on_stream (so_SetWriteInterest
        (so_ReadNeedsWrite socket
         || (negb (so_WriteNeedsRead socket)
             && (DerpClient_HasPendingOutput client
                 || negb (DerpSendQueue_Size (ci_outgoing c) =? 0))))))
  end.

Definition ConnectionImpl_Disconnect : eff ConnectionImpl unit :=
  emod (ci_set_dial false) ;;* emod (ci_set_client None).

Definition ConnectionImpl_ScheduleReconnect : eff ConnectionImpl unit :=
  ConnectionImpl_Disconnect ;;*
  emod (fun c => ci_set_reconnect (ci_now c + ci_reconnectDelay c) (ci_reconnectDelay c) c) ;;*
  emod (fun c => ci_set_reconnect (ci_nextReconnect c)
                   (Z.min (ci_reconnectDelay c * 2) MaximumReconnectDelay) c).

Definition ConnectionImpl_Connect : eff ConnectionImpl unit :=
  emod (ci_set_dial true) ;;*
  let* result := take_dial in
  match result with
  | Dial_Pending => eret tt
  | Dial_Error e => emod (ci_set_dial false) ;;* ethrow e
  | Dial_Connected client =>
      emod (ci_set_dial false) ;;*
      emod (ci_set_client (Some client)) ;;*
      on_client (on_stream (so_SetNonBlocking true)) ;;*
      emod (ci_set_reconnect TimePoint_max InitialReconnectDelay) ;;*
      ConnectionImpl_FlushOutgoing ;;*
      ConnectionImpl_UpdateWriteInterest
  end.

Definition ConnectionImpl_Maintain : eff ConnectionImpl unit :=
  let* c := eget in
  if negb (ci_enabled c) then eret tt else
  match ci_client c with
  | Some _ =>
      etry (ConnectionImpl_FlushOutgoing ;;* ConnectionImpl_UpdateWriteInterest)
        ConnectionImpl_ScheduleReconnect
  | None =>
      if ci_now c <? ci_nextReconnect c then eret tt else
      etry ConnectionImpl_Connect ConnectionImpl_ScheduleReconnect
  end.

(** [DiscardPostedEvents] drops what the connection had posted. *)
Definition restart_reconnect : eff ConnectionImpl unit :=
  emod (ci_set_posted false) ;;*
  emod (fun c => ci_set_reconnect (ci_now c) InitialReconnectDelay c).

Definition ConnectionImpl_SetEnabled (enabled : bool) : eff ConnectionImpl unit :=
  let* c := eget in
  if Bool.eqb (ci_enabled c) enabled then eret tt else
  emod (ci_set_enabled enabled) ;;*
  ConnectionImpl_Disconnect ;;*
  emod (ci_set_outgoing empty_queue) ;;*
  restart_reconnect ;;*
  if enabled then ConnectionImpl_Maintain else eret tt.

Definition ConnectionImpl_ChangeNetwork (networkInterface : bytes) : eff ConnectionImpl unit :=
  emod (ci_set_interface networkInterface) ;;*
  ConnectionImpl_Disconnect ;;*
  restart_reconnect ;;*
  ConnectionImpl_Maintain.

Definition ConnectionImpl_Send (destination packet : bytes) (priority : Priority)
    : eff ConnectionImpl unit :=
  let* c := eget in
  if negb (ci_enabled c) then eret tt else
  let* (pushed, q) := elift (DerpSendQueue_Push
    {| qp_Destination := destination; qp_Payload := packet |} priority (ci_outgoing c)) in
  emod (ci_set_outgoing q) ;;*
  if negb (pr_Accepted pushed) then eret tt else ConnectionImpl_Maintain.

(** The part of [ProcessEvent] up to the packets a writable event yields, and the
    part after it, which an exception leaves with those packets kept. *)
Definition process_writable (event : Event) : eff ConnectionImpl (list DerpPacket) :=
  ConnectionImpl_FlushOutgoing ;;*
  if negb (HasReadiness (ev_Readiness event) Readiness_Writable) then eret [] else
  let* client := the_client in
  if so_ReadNeedsWrite (cl_stream client) then ConnectionImpl_DrainIncoming else eret [].

Definition process_readable (event : Event) : eff ConnectionImpl (list DerpPacket) :=
  (if negb (HasReadiness (ev_Readiness event) Readiness_Writable) then eret tt else
   let* client := the_client in
   if negb (so_ReadNeedsWrite (cl_stream client)) && DerpClient_HasPendingOutput client
   then on_client DerpClient_Flush else eret tt) ;;*
  let* client := the_client in
  let* buffered := elift (DerpClient_HasBufferedInput client) in
  if negb (HasReadiness (ev_Readiness event) Readiness_Readable || (buffered : bool)) then eret [] else
  (if DerpClient_HasPendingOutput client && so_WriteNeedsRead (cl_stream client)
   then on_client DerpClient_Flush else eret tt) ;;*
  let* client := the_client in
  if negb (so_WriteNeedsRead (cl_stream client)) then ConnectionImpl_DrainIncoming else eret [].

Definition ready (packets : list DerpPacket) : ConnectionEventResult :=
  {| er_Handled := true; er_Status := EventStatus_Ready; er_Packets := packets |}.

Definition disconnected (packets : list DerpPacket) : ConnectionEventResult :=
  {| er_Handled := true; er_Status := EventStatus_Disconnected; er_Packets := packets |}.

Definition not_handled : ConnectionEventResult :=
  {| er_Handled := false; er_Status := EventStatus_Ready; er_Packets := [] |}.

(** The handler; [packets] are those the result already holds. *)
Definition lost (packets : list DerpPacket) : eff ConnectionImpl ConnectionEventResult :=
  ConnectionImpl_ScheduleReconnect ;;* eret (disconnected packets).

(** The second drain's packets are appended before [UpdateWriteInterest] can
    throw. *)
Definition process_readiness (event : Event) : eff ConnectionImpl ConnectionEventResult :=
  etry (let* packets := process_writable event in
        etry (let* more := process_readable event in
              etry (ConnectionImpl_UpdateWriteInterest ;;* eret (ready (packets ++ more)))
                (lost (packets ++ more)))
          (lost packets))
    (lost []).

Definition ConnectionImpl_ProcessEvent (event : Event) : eff ConnectionImpl ConnectionEventResult :=
  let* c := eget in
  if negb (ev_Token event =? ci_token c) then eret not_handled else
  (match ci_client c with
   | None => ConnectionImpl_Maintain
   | Some _ => eret tt
   end) ;;*
  let* c := eget in
  match ci_client c with
  | None => eret (ready [])
  | Some _ =>
      if HasReadiness (ev_Readiness event) Readiness_Error
         || HasReadiness (ev_Readiness event) Readiness_Closed
      then lost [] else process_readiness event
  end.

Definition ConnectionImpl_Connected (c : ConnectionImpl) : bool :=
  match ci_client c with Some _ => true | None => false end.

(** The constructor, on the environment's clock and dials. *)
Definition ConnectionImpl_new (enabled : bool) (networkInterface : bytes) (token now : Z)
    (dials : list DialResult) : outcome unit * ConnectionImpl :=
  ConnectionImpl_Maintain
     {| ci_enabled := enabled; ci_dial := false; ci_client := None; ci_outgoing := empty_queue;
        ci_nextReconnect := now; ci_reconnectDelay := InitialReconnectDelay;
        ci_networkInterface := networkInterface; ci_token := token; ci_now := now;
        ci_dials := dials; ci_posted := false |}.

End connection.

Arguments ConnectionImpl S : clear implicits.
Arguments DialResult S : clear implicits.

(** ** The queue's contract *)

Definition total_size (l : list QueuedPacket) : Z := foldr (fun p n => payload_size p + n) 0 l.

Lemma total_size_app l k : total_size (l ++ k) = total_size l + total_size k.
Proof. induction l as [|p l IH]; simpl; lia. Qed.

Lemma total_size_nonneg l : 0 <= total_size l.
Proof. induction l as [|p l IH]; simpl; [done|]. pose proof (zlen_nonneg (qp_Payload p)). unfold payload_size. lia. Qed.

(** The byte count is exact and both limits hold. *)
Record queue_inv (q : DerpSendQueue) : Prop := {
  qi_bytes : sq_bytes q = total_size (sq_control q) + total_size (sq_data q);
  qi_packets : DerpSendQueue_Size q <= sq_maximumPackets q;
  qi_limit : sq_bytes q <= sq_maximumBytes q;
  qi_positive : 0 < sq_maximumPackets q ∧ 0 < sq_maximumBytes q < 2 ^ 63
}.

(** The queue as its consumer sees it. *)
Definition pending_packets (q : DerpSendQueue) : list QueuedPacket := sq_control q ++ sq_data q.

(** The order in which room is made: data before control, oldest first. *)
Definition drop_order (q : DerpSendQueue) : list QueuedPacket := sq_data q ++ sq_control q.

Lemma u64_id x : 0 <= x < 2 ^ 64 → u64 x = x.
Proof. apply Z.mod_small. Qed.

Lemma drop_oldest_spec q :
  queue_inv q → 0 < DerpSendQueue_Size q →
  ∃ p q', drop_oldest q = Ok q' ∧ queue_inv q' ∧ drop_order q = p :: drop_order q'
    ∧ DerpSendQueue_Size q' = DerpSendQueue_Size q - 1
    ∧ sq_maximumPackets q' = sq_maximumPackets q ∧ sq_maximumBytes q' = sq_maximumBytes q
    ∧ sq_bytes q' = sq_bytes q - payload_size p
    ∧ (sq_data q' `suffix_of` sq_data q) ∧ (sq_control q' `suffix_of` sq_control q).
Proof.
  intros [Hb Hp Hl Hpos] Hs. unfold DerpSendQueue_Size in *. unfold drop_oldest, drop_order.
  pose proof (total_size_nonneg (sq_control q)). pose proof (total_size_nonneg (sq_data q)).
  destruct (sq_data q) as [|p rest] eqn:Hd.
  - destruct (sq_control q) as [|p rest] eqn:Hc; [exfalso; zlia|].
    simpl in Hb. pose proof (total_size_nonneg rest). pose proof (zlen_nonneg (qp_Payload p)).
    rewrite u64_id by (unfold payload_size in *; lia).
    eexists p, _. split_and!; [done|..|done|simpl; zlia|done|done|done|done|by apply suffix_cons_r].
    constructor; simpl; unfold DerpSendQueue_Size, payload_size in *; simpl; try lia. zlia.
  - simpl in Hb. pose proof (total_size_nonneg rest). pose proof (zlen_nonneg (qp_Payload p)).
    rewrite u64_id by (unfold payload_size in *; lia).
    eexists p, _. split_and!; [done|..|done|simpl; zlia|done|done|done|by apply suffix_cons_r|done].
    constructor; simpl; unfold DerpSendQueue_Size, payload_size in *; simpl; try lia. zlia.
Qed.

Definition has_room (size : Z) (q : DerpSendQueue) : Prop :=
  DerpSendQueue_Size q = 0
  ∨ (DerpSendQueue_Size q < sq_maximumPackets q ∧ sq_bytes q + size <= sq_maximumBytes q).

Lemma queue_bytes_nonneg q : queue_inv q → 0 <= sq_bytes q.
Proof.
  intros []. pose proof (total_size_nonneg (sq_control q)). pose proof (total_size_nonneg (sq_data q)). lia.
Qed.

Lemma make_room_test size q :
  queue_inv q → 0 <= size <= sq_maximumBytes q →
  ((0 <? DerpSendQueue_Size q)
     && ((sq_maximumPackets q <=? DerpSendQueue_Size q)
         || (sq_maximumBytes q <? u64 (sq_bytes q + size)))) = true ↔ ¬ has_room size q.
Proof.
  intros Hq Hs. pose proof (queue_bytes_nonneg q Hq). destruct Hq.
  rewrite u64_id by lia. unfold has_room. b2p.
  assert (0 <= DerpSendQueue_Size q) by (unfold DerpSendQueue_Size; zlia). lia.
Qed.

Lemma make_room_else size q :
  queue_inv q → 0 <= size <= sq_maximumBytes q →
  ((0 <? DerpSendQueue_Size q)
     && ((sq_maximumPackets q <=? DerpSendQueue_Size q)
         || (sq_maximumBytes q <? u64 (sq_bytes q + size)))) = false → has_room size q.
Proof.
  intros Hq Hs E. pose proof (queue_bytes_nonneg q Hq). destruct Hq.
  rewrite u64_id in E by lia. unfold has_room.
  assert (0 <= DerpSendQueue_Size q) by (unfold DerpSendQueue_Size; zlia). b2p. lia.
Qed.

Lemma make_room_spec fuel size dropped q :
  queue_inv q → 0 <= size <= sq_maximumBytes q → (Z.to_nat (DerpSendQueue_Size q) <= fuel)%nat →
  ∃ gone q', make_room fuel size dropped q = Ok (dropped + zlen gone, q') ∧ queue_inv q'
    ∧ has_room size q' ∧ drop_order q = gone ++ drop_order q' ∧ (has_room size q → gone = [])
    ∧ sq_maximumPackets q' = sq_maximumPackets q ∧ sq_maximumBytes q' = sq_maximumBytes q
    ∧ sq_data q' `suffix_of` sq_data q ∧ sq_control q' `suffix_of` sq_control q.
Proof.
  revert dropped q. induction fuel as [|fuel IH]; intros dropped q Hq Hs Hf; cbn [make_room].
  all: pose proof (make_room_test size q Hq Hs) as Ht;
    destruct (_ && (_ || (_ <? u64 (_ + _)))) eqn:E.
  - exfalso. b2p. lia.
  - exists [], q. rewrite zlen_nil, Z.add_0_r. split_and!; try done.
    by apply make_room_else.
  - assert (0 < DerpSendQueue_Size q) as Hpos by (b2p; lia).
    destruct (drop_oldest_spec q Hq Hpos)
      as (p & q1 & -> & Hq1 & Hord & Hsz & Hmp & Hmb & _ & Hd & Hc). cbn [obind].
    destruct (IH (dropped + 1) q1 Hq1) as (gone & q' & -> & Hq' & Hroom & Hord' & _ & Hmp' & Hmb' & Hd' & Hc');
      [by rewrite Hmb|lia|].
    exists (p :: gone), q'. rewrite zlen_cons.
    split_and!; [do 2 f_equal; lia|done|done|by rewrite Hord, Hord'| |congruence|congruence|by etrans|by etrans].
    intros Hno. by destruct (proj1 Ht eq_refl).
  - exists [], q. rewrite zlen_nil, Z.add_0_r. split_and!; try done.
    by apply make_room_else.
Qed.

Lemma queue_Push_spec q packet priority :
  queue_inv q →
  ∃ result q', DerpSendQueue_Push packet priority q = Ok (result, q') ∧ queue_inv q'
    ∧ (pr_Accepted result = true ↔ payload_size packet <= sq_maximumBytes q)
    ∧ (pr_Accepted result = false → q' = q ∧ pr_DroppedPackets result = 0)
    ∧ (pr_Accepted result = true → ∃ gone control data,
         drop_order q = gone ++ data ++ control ∧ zlen gone = pr_DroppedPackets result
         ∧ (has_room (payload_size packet) q → gone = [])
         ∧ control `suffix_of` sq_control q ∧ data `suffix_of` sq_data q
         ∧ match priority with
           | Priority_Control => sq_control q' = control ++ [packet] ∧ sq_data q' = data
           | Priority_Data => sq_control q' = control ∧ sq_data q' = data ++ [packet]
           end)
    ∧ sq_maximumPackets q' = sq_maximumPackets q ∧ sq_maximumBytes q' = sq_maximumBytes q.
Proof.
  intros Hq. pose proof (zlen_nonneg (qp_Payload packet)) as Hnn.
  unfold DerpSendQueue_Push. destruct (Z.ltb_spec (sq_maximumBytes q) (payload_size packet)) as [Hbig|Hfit].
  { do 2 eexists. split; [done|]. simpl. split_and!; try done. split; [done|lia]. }
  destruct (make_room_spec (Z.to_nat (DerpSendQueue_Size q)) (payload_size packet) 0 q Hq)
    as (gone & q1 & -> & Hq1 & Hroom & Hord & Hnone & Hmp & Hmb & Hd & Hc); [unfold payload_size in *; lia..|].
  cbn [obind]. pose proof (queue_bytes_nonneg q1 Hq1) as Hb0. destruct Hq1 as [Hb Hp Hl Hpos].
  destruct Hq as [_ _ _ Hpos0].
  assert (sq_bytes q1 + payload_size packet <= sq_maximumBytes q1
    ∧ DerpSendQueue_Size q1 + 1 <= sq_maximumPackets q1) as [Hb1 Hs1].
  { destruct Hroom as [H0|[? ?]]; [|lia]. unfold DerpSendQueue_Size in H0.
    assert (sq_control q1 = [] ∧ sq_data q1 = []) as [E1 E2].
    { destruct (sq_control q1), (sq_data q1); try (exfalso; zlia). done. }
    rewrite E1, E2 in Hb. simpl in Hb. unfold DerpSendQueue_Size. rewrite E1, E2. zlia. }
  rewrite u64_id by (unfold payload_size in *; lia).
  unfold DerpSendQueue_Size in *.
  destruct priority; (do 2 eexists; split; [done|]; simpl; split_and!;
    [|done|done|intros _; exists gone, (sq_control q1), (sq_data q1); by split_and!|done|done]).
  all: constructor; simpl; unfold DerpSendQueue_Size in *; simpl; rewrite ?total_size_app; simpl; try zlia.
Qed.

Lemma queue_Pop_spec q :
  queue_inv q →
  match DerpSendQueue_Pop q with
  | (Some p, q') => pending_packets q = p :: pending_packets q' ∧ queue_inv q'
      ∧ sq_maximumPackets q' = sq_maximumPackets q ∧ sq_maximumBytes q' = sq_maximumBytes q
  | (None, q') => pending_packets q = [] ∧ q' = q
  end.
Proof.
  intros Hq.
  unfold DerpSendQueue_Pop, pending_packets. destruct Hq as [Hb Hp Hl Hpos].
  unfold DerpSendQueue_Size in *.
  pose proof (total_size_nonneg (sq_control q)). pose proof (total_size_nonneg (sq_data q)).
  destruct (sq_control q) as [|p rest] eqn:Hc; [destruct (sq_data q) as [|p rest] eqn:Hd; [done|]|];
    (split; [done|]); (split; [|done]); simpl in Hb; pose proof (total_size_nonneg rest);
    pose proof (zlen_nonneg (qp_Payload p)); rewrite u64_id by (unfold payload_size in *; simpl in *; lia).
  all: constructor; simpl; unfold DerpSendQueue_Size, payload_size in *; simpl; try lia; zlia.
Qed.

(** The send queue.  From any queue within its limits, [Push] refuses a
    packet exactly when it is larger than the whole queue may be; otherwise it
    accepts it behind the packets of its priority, after dropping as many packets
    as it reports, data before control and oldest first, and none when there is
    room.  [Pop] returns control packets before data and otherwise the oldest.  The
    byte count stays exact and the limits on packets and bytes hold throughout. *)
Theorem DerpSendQueue_contract q packet priority :
  queue_inv q →
  (∃ result q', DerpSendQueue_Push packet priority q = Ok (result, q') ∧ queue_inv q'
    ∧ (pr_Accepted result = true ↔ payload_size packet <= sq_maximumBytes q)
    ∧ (pr_Accepted result = false → q' = q ∧ pr_DroppedPackets result = 0)
    ∧ (pr_Accepted result = true → ∃ gone control data,
         drop_order q = gone ++ data ++ control ∧ zlen gone = pr_DroppedPackets result
         ∧ (has_room (payload_size packet) q → gone = [])
         ∧ control `suffix_of` sq_control q ∧ data `suffix_of` sq_data q
         ∧ match priority with
           | Priority_Control => sq_control q' = control ++ [packet] ∧ sq_data q' = data
           | Priority_Data => sq_control q' = control ∧ sq_data q' = data ++ [packet]
           end))
  ∧ match DerpSendQueue_Pop q with
    | (Some p, q') => pending_packets q = p :: pending_packets q' ∧ queue_inv q'
    | (None, q') => pending_packets q = [] ∧ q' = q
    end.
Proof.
  intros Hq. split.
  - destruct (queue_Push_spec q packet priority Hq) as (result & q' & ? & ? & ? & ? & ? & _).
    by exists result, q'.
  - pose proof (queue_Pop_spec q Hq). by destruct (DerpSendQueue_Pop q) as [[p|] q']; destruct_and?.
Qed.

Definition demo_packet (n : nat) : QueuedPacket :=
  {| qp_Destination := replicate 32 1; qp_Payload := replicate n 0 |}.

(** A full queue of two packets. *)
Definition demo_queue : DerpSendQueue :=
  {| sq_maximumPackets := 2; sq_maximumBytes := 10; sq_bytes := 7;
     sq_control := [demo_packet 3]; sq_data := [demo_packet 4] |}.

Lemma DerpSendQueue_contract_witness :
  match DerpSendQueue_Pop demo_queue with
  | (Some p, q') => pending_packets demo_queue = p :: pending_packets q' ∧ queue_inv q'
  | (None, q') => pending_packets demo_queue = [] ∧ q' = demo_queue
  end.
Proof.
  apply (DerpSendQueue_contract demo_queue (demo_packet 5) Priority_Control).
  constructor; vm_compute; try reflexivity; try discriminate. split; [|split]; reflexivity.
Defined.

(** ** The connection's contract *)

Section connection_proofs.
  Context {S : Type} `{!ByteStream S} `{!ByteStreamLaws S} `{!TcpSocket S} `{!TcpSocketLaws S}.

(** A dial hands over a client in order. *)
Definition dial_ok (r : DialResult S) : Prop :=
  match r with Dial_Connected client => input_ok client | _ => True end.

(** What every operation keeps.  A disabled connection holds no socket, no dial
    and no packet. *)
Record ci_inv (c : ConnectionImpl S) : Prop := {
  cii_client : ∀ client, ci_client c = Some client → input_ok client ∧ ci_dial c = false;
  cii_disabled : ci_enabled c = false →
    ci_client c = None ∧ ci_dial c = false ∧ DerpSendQueue_Size (ci_outgoing c) = 0;
  cii_dials : Forall dial_ok (ci_dials c);
  cii_queue : queue_inv (ci_outgoing c)
    ∧ sq_maximumPackets (ci_outgoing c) = MaximumQueuedPackets
    ∧ sq_maximumBytes (ci_outgoing c) = MaximumQueuedBytes;
  cii_delay : InitialReconnectDelay <= ci_reconnectDelay c <= MaximumReconnectDelay
}.

(** The part of the connection that I/O on its client leaves alone. *)
Definition same_control (c c' : ConnectionImpl S) : Prop :=
  ci_enabled c' = ci_enabled c ∧ ci_dial c' = ci_dial c ∧ ci_dials c' = ci_dials c
  ∧ ci_nextReconnect c' = ci_nextReconnect c ∧ ci_reconnectDelay c' = ci_reconnectDelay c
  ∧ ci_networkInterface c' = ci_networkInterface c ∧ ci_token c' = ci_token c ∧ ci_now c' = ci_now c.

Lemma same_control_refl c : same_control c c.
Proof. by split_and!. Qed.

Lemma same_control_trans c1 c2 c3 : same_control c1 c2 → same_control c2 c3 → same_control c1 c3.
Proof. intros (?&?&?&?&?&?&?&?) (?&?&?&?&?&?&?&?). split_and!; congruence. Qed.

(** Connected, and in order. *)
Definition live (c : ConnectionImpl S) : Prop := ci_inv c ∧ is_Some (ci_client c).

(** A call on a live connection that leaves it live. *)
Definition io {A} (m : eff (ConnectionImpl S) A) : Prop := ∀ c, live c →
  wp m (fun r c' => r ≠ UB ∧ live c' ∧ same_control c c') c.

Lemma live_enabled c : live c → ci_enabled c = true ∧ ci_dial c = false.
Proof.
  intros [Hc [k Hk]]. destruct (cii_client c Hc k Hk) as [_ ?].
  destruct (ci_enabled c) eqn:E; [done|]. destruct (cii_disabled c Hc E) as [? _]. congruence.
Qed.

Lemma live_client client client' c :
  ci_client c = Some client → live c → input_ok client' →
  live (ci_set_client (Some client') c) ∧ same_control c (ci_set_client (Some client') c).
Proof.
  intros Hk Hl Hi. destruct (live_enabled c Hl) as [He Hd]. destruct Hl as [[] _].
  split; [split; [constructor|]|by split_and!]; cbn; try done.
  - intros k [= <-]. done.
  - congruence.
Qed.

Lemma io_ret {A} (a : A) : io (eret a).
Proof. intros c Hc. apply wp_ret. split_and!; [done|done|apply same_control_refl]. Qed.

Lemma io_bind {A B} (m : eff (ConnectionImpl S) A) (k : A → eff (ConnectionImpl S) B) :
  io m → (∀ a, io (k a)) → io (ebind m k).
Proof.
  intros Hm Hk c Hc. apply wp_bind. eapply wp_mono; [by apply Hm|].
  intros [a|e|] c1 (Hr & Hc1 & Hs1); [|by split_and!|done].
  eapply wp_mono; [by apply Hk|]. intros r c2 (? & ? & ?).
  split_and!; [done|done|by eapply same_control_trans].
Qed.

Lemma io_if {A} (b : bool) (m k : eff (ConnectionImpl S) A) : io m → io k → io (if b then m else k).
Proof. by destruct b. Qed.

Lemma io_on_client {A} (m : eff (DerpClient S) A) :
  (∀ k, input_ok k → wp m (fun r k' => r ≠ UB ∧ input_ok k') k) → io (on_client m).
Proof.
  intros Hm c Hc. pose proof Hc as [Hi [k Hk]]. destruct (cii_client c Hi k Hk) as [Hin _].
  pose proof (Hm k Hin) as [Hr Hin'].
  unfold wp, on_client. rewrite Hk. destruct (m k) as [r k']. cbn in *.
  split; [done|]. by eapply live_client.
Qed.

Lemma input_ok_sends {A} (m : eff (DerpClient S) A) new k :
  input_ok k → sends m new k → wp m (fun r k' => r ≠ UB ∧ input_ok k') k.
Proof.
  intros [Hs Hb] Hm. unfold sends in Hm. eapply wp_mono; [exact Hm|].
  intros r k' (? & ? & _ & (_ & Hbuf & _)). split; [done|]. split; [done|by rewrite Hbuf].
Qed.

Lemma io_Flush : io (on_client DerpClient_Flush).
Proof.
  apply io_on_client. intros k [Hs Hb]. eapply wp_mono; [by apply Flush_spec|].
  intros r k' (? & ? & _ & (_ & Hbuf & _)). split; [done|]. split; [done|by rewrite Hbuf].
Qed.

Lemma io_Send destination packet : io (on_client (DerpClient_Send destination packet)).
Proof.
  apply io_on_client. intros k Hk. eapply input_ok_sends; [done|]. apply WriteFrame_sends, Hk.
Qed.

Lemma io_the_client : io the_client.
Proof.
  intros c [Hi [k Hk]]. unfold the_client. wp_auto. rewrite Hk. wp_auto.
  split_and!; [done|by split; [|eexists]|apply same_control_refl].
Qed.

Lemma io_stream (m : eff S unit) : (∀ s, (m s).1 ≠ UB) → io (on_client (on_stream m)).
Proof.
  intros Hm. apply io_on_client. intros k Hk. apply wp_on_stream. unfold wp. split; [|done].
  pose proof (Hm (cl_stream k)). by destruct (m (cl_stream k)) as [[] ?].
Qed.


Lemma hasCompleteFrame_total b : bytes_ok b → ∃ complete, hasCompleteFrame b = Ok complete.
Proof.
  intros Hb. unfold hasCompleteFrame. destruct (Z.ltb_spec (zlen b) FrameHeaderSize) as [|H]; [by eexists|].
  destruct (frame_size_spec b Hb H) as (type & size & rest & _ & _ & E & _). rewrite E. by eexists.
Qed.

Lemma HasBufferedInput_total k : input_ok k → ∃ b, DerpClient_HasBufferedInput k = Ok b.
Proof.
  intros [_ Hb]. unfold DerpClient_HasBufferedInput.
  destruct (hasCompleteFrame_total _ Hb) as [b ->]. by eexists.
Qed.

Lemma live_outgoing q c :
  live c → queue_inv q → sq_maximumPackets q = MaximumQueuedPackets →
  sq_maximumBytes q = MaximumQueuedBytes → live (ci_set_outgoing q c).
Proof.
  intros Hl Hq Hp Hb. destruct (live_enabled c Hl) as [He _]. destruct Hl as [[] Hk].
  split; [constructor|done]; cbn; try done. congruence.
Qed.

Lemma io_flush_frames n : io (flush_frames n).
Proof.
  induction n as [|n IH]; cbn [flush_frames]; [apply io_ret|].
  apply io_bind; [apply io_the_client|]. intros k. apply io_if; [apply io_ret|].
  intros c Hc. wp_auto. pose proof (cii_queue c (proj1 Hc)) as (Hq & Hp & Hb).
  pose proof (queue_Pop_spec _ Hq) as Hpop. destruct (DerpSendQueue_Pop _) as [[p|] q].
  - destruct Hpop as (_ & Hq' & Hp' & Hb'). wp_auto.
    assert (live (ci_set_outgoing q c)) as Hl by (apply live_outgoing; congruence).
    eapply wp_mono; [apply (io_bind _ _ (io_Send _ _) (fun _ => IH)), Hl|].
    intros r c' (? & ? & Hs). split_and!; [done|done|]. eapply same_control_trans; [|done]. by split_and!.
  - destruct Hpop as [_ ->]. wp_auto. split_and!; [done| |by split_and!]. by apply live_outgoing.
Qed.

Lemma io_FlushOutgoing : io ConnectionImpl_FlushOutgoing.
Proof.
  intros c Hc. unfold ConnectionImpl_FlushOutgoing. wp_auto. pose proof Hc as [_ [k ->]].
  apply (io_bind _ _ (io_flush_frames _)); [|done]. intros _.
  apply io_bind; [apply io_the_client|]. intros k'. apply io_if; [apply io_Flush|apply io_ret].
Qed.

Lemma io_DrainIncoming : io ConnectionImpl_DrainIncoming.
Proof.
  intros c Hc. unfold ConnectionImpl_DrainIncoming. wp_auto. pose proof Hc as [_ [k ->]].
  refine (io_on_client _ _ c Hc). intros k' Hk'. eapply wp_mono; [by apply batch_loop_spec|].
  by intros r k'' (? & fs & (? & _) & _).
Qed.

Lemma io_UpdateWriteInterest : io ConnectionImpl_UpdateWriteInterest.
Proof.
  intros c Hc. unfold ConnectionImpl_UpdateWriteInterest. wp_auto. pose proof Hc as [Hi [k Hk]].
  rewrite Hk. destruct (cii_client c Hi k Hk) as [Hin _].
  destruct (HasBufferedInput_total k Hin) as [b ->]. wp_auto.
  refine (io_bind _ _ _ (fun _ => io_stream _ _) c Hc); [|intros; apply so_SetWriteInterest_safe].
  destruct b; [|apply io_ret]. intros c' Hc'. wp_auto. split_and!; [done| |by split_and!].
  destruct Hc' as [[] ?]. by split; [constructor|].
Qed.

(** What no operation but [SetEnabled] and [ChangeNetwork] changes. *)
Definition same_options (c c' : ConnectionImpl S) : Prop :=
  ci_enabled c' = ci_enabled c ∧ ci_networkInterface c' = ci_networkInterface c
  ∧ ci_token c' = ci_token c ∧ ci_now c' = ci_now c.

Lemma same_control_options c c' : same_control c c' → same_options c c'.
Proof. intros (?&?&?&?&?&?&?&?). by split_and!. Qed.

Lemma same_options_trans c1 c2 c3 : same_options c1 c2 → same_options c2 c3 → same_options c1 c3.
Proof. intros (?&?&?&?) (?&?&?&?). split_and!; congruence. Qed.

(** The connection after a failure: it waits, and will wait up to twice as long
    after the next one. *)
Definition waiting (c : ConnectionImpl S) : Prop :=
  ci_client c = None ∧ ci_dial c = false
  ∧ InitialReconnectDelay <= ci_nextReconnect c - ci_now c <= MaximumReconnectDelay
  ∧ ci_reconnectDelay c = Z.min (2 * (ci_nextReconnect c - ci_now c)) MaximumReconnectDelay.

(** A call that returns and keeps the invariant. *)
Definition returns {A} (m : eff (ConnectionImpl S) A) (Q : A → ConnectionImpl S → Prop)
    (c : ConnectionImpl S) : Prop :=
  wp m (fun r c' => ci_inv c' ∧ same_options c c' ∧ ∃ a, r = Ok a ∧ Q a c') c.

Lemma ScheduleReconnect_returns c :
  ci_inv c → returns ConnectionImpl_ScheduleReconnect (fun _ c' => waiting c') c.
Proof.
  intros []. unfold returns, ConnectionImpl_ScheduleReconnect, ConnectionImpl_Disconnect.
  apply wp_bind. wp_auto. unfold InitialReconnectDelay, MaximumReconnectDelay in *.
  split; [constructor; cbn; try done|split; [by split_and!|exists tt; split; [done|]]].
  - intros He. by destruct (cii_disabled0 He) as (_ & _ & ?).
  - unfold InitialReconnectDelay, MaximumReconnectDelay in *. lia.
  - unfold waiting, InitialReconnectDelay, MaximumReconnectDelay. cbn. split_and!; try done; lia.
Qed.

(** [try] around I/O on a live connection. *)
Lemma etry_io {A} (m handler : eff (ConnectionImpl S) A) (Q : A → ConnectionImpl S → Prop) c :
  live c → io m → (∀ a c', live c' → Q a c') →
  (∀ c', ci_inv c' → same_options c c' → returns handler Q c') →
  returns (etry m handler) Q c.
Proof.
  intros Hc Hm HQ Hh. pose proof (Hm c Hc) as (Hr & Hl & Hs%same_control_options).
  specialize (Hh _ (proj1 Hl) Hs). unfold returns, wp, etry in *.
  destruct (m c) as [[a|e|] c1]; cbn in *; [|destruct Hh as (? & ? & ?)|done].
  - split_and!; [apply Hl|done|]. exists a. split; [done|]. by apply HQ.
  - split_and!; [done|by eapply same_options_trans|done].
Qed.

(** [Maintain] leaves a client, a dial in progress, a time to wait for, or an
    idle connection. *)
Definition maintained (c c' : ConnectionImpl S) : Prop :=
  live c' ∨ c' = c ∨ (ci_client c' = None ∧ ci_dial c' = true) ∨ waiting c'.

Lemma Connect_live c client :
  ci_inv c → ci_enabled c = true → input_ok client →
  live (ci_set_client (Some client) (ci_set_dial false c)).
Proof.
  intros [] He Hin. split; [|by eexists]. constructor; cbn; try done.
  - by intros k [= <-].
  - congruence.
Qed.

Lemma take_dial_inv c r c' :
  ci_inv c → take_dial c = (r, c') →
  ∃ d, r = Ok d ∧ dial_ok d ∧ ci_inv c' ∧ same_options c c' ∧ ci_dial c' = ci_dial c
    ∧ ci_client c' = ci_client c.
Proof.
  intros Hi. unfold take_dial, ebind, eget. destruct (ci_dials c) as [|d rest] eqn:E; intros [= <- <-].
  - exists Dial_Pending. by split_and!.
  - destruct Hi. rewrite E in *. apply Forall_cons in cii_dials0 as [Hd Hrest].
    exists d. by split_and!.
Qed.

Lemma wp_etry {A} (m handler : eff (ConnectionImpl S) A) Q c :
  wp m (fun r c' => match r with Throw _ => wp handler Q c' | _ => Q r c' end) c →
  wp (etry m handler) Q c.
Proof. unfold wp, etry. by destruct (m c) as [[] ?]. Qed.

(** A dial's result on a connection that has none. *)
Lemma Connect_spec c :
  ci_inv c → ci_enabled c = true → ci_client c = None →
  wp ConnectionImpl_Connect (fun r c' => r ≠ UB ∧ ci_inv c' ∧ same_options c c'
    ∧ (r = Ok tt → live c' ∨ (ci_client c' = None ∧ ci_dial c' = true))) c.
Proof.
  intros Hi He Hk. unfold ConnectionImpl_Connect.
  assert (ci_inv (ci_set_dial true c)) as Hi1.
  { destruct Hi; constructor; cbn; try done; congruence. }
  wp_auto. apply wp_bind. destruct (take_dial (ci_set_dial true c)) as [r c1] eqn:Ht.
  destruct (take_dial_inv _ _ _ Hi1 Ht) as (d & -> & Hd & Hc1 & Hs & Hdial & Hcl).
  unfold wp at 1. rewrite Ht. cbn [fst snd]. cbn in Hdial, Hcl. rewrite Hk in Hcl.
  assert (same_options c c1) as Hsc by (destruct Hs as (?&?&?&?); by split_and!).
  assert (ci_enabled c1 = true) as He1 by (destruct Hsc; congruence).
  destruct d as [|e|client]; wp_auto.
  - split_and!; [done|done|done|by right].
  - split_and!; [done| |by destruct Hsc as (?&?&?&?); split_and!|done].
    destruct Hc1; constructor; cbn; try done; [congruence|]. by rewrite He1.
  - pose proof (Connect_live c1 client Hc1 He1 Hd) as Hl.
    assert (io (on_client (on_stream (so_SetNonBlocking true)))) as Hnb
      by (apply io_stream; intros; apply so_SetNonBlocking_safe).
    apply wp_bind. eapply wp_mono; [by apply Hnb|].
    intros r c2 (Hr & Hl2 & Hs2%same_control_options).
    assert (same_options c c2) as Hsc2
      by (eapply same_options_trans; [|done]; destruct Hsc as (?&?&?&?); by split_and!).
    destruct r as [[]|e|]; [|by split_and!; [|apply Hl2| |]|done]. wp_auto.
    assert (live (ci_set_reconnect TimePoint_max InitialReconnectDelay c2)) as Hl3
      by (destruct Hl2 as [[] ?]; by split; [constructor|]).
    eapply wp_mono; [apply (io_bind _ _ io_FlushOutgoing (fun _ => io_UpdateWriteInterest) _ Hl3)|].
    intros r c' (? & Hl' & Hs'%same_control_options). split_and!; [done|apply Hl'| |by left].
    eapply same_options_trans; [|done]. destruct Hsc2 as (?&?&?&?); by split_and!.
Qed.

Lemma returns_ret {A} (a : A) (Q : A → ConnectionImpl S → Prop) c :
  ci_inv c → Q a c → returns (eret a) Q c.
Proof. intros. apply wp_ret. split_and!; [done|by split_and!|by exists a]. Qed.

Lemma Maintain_returns c :
  ci_inv c → returns ConnectionImpl_Maintain (fun _ c' => maintained c c') c.
Proof.
  intros Hi. unfold ConnectionImpl_Maintain. apply wp_bind, wp_get.
  assert (same_options c c) as Hrefl by by split_and!.
  destruct (ci_enabled c) eqn:He; cbn [negb].
  2: { wp_auto. split_and!; [done..|]. exists tt. split; [done|by right; left]. }
  destruct (ci_client c) as [k|] eqn:Hk.
  - assert (live c) as Hl by by split; [|eexists].
    refine (etry_io _ _ (fun _ c' => maintained c c') c Hl (io_bind _ _ io_FlushOutgoing (fun _ => io_UpdateWriteInterest)) _ _); [by left|].
    intros c' Hi' _. eapply wp_mono; [by apply ScheduleReconnect_returns|].
    intros r c2 (? & ? & a & ? & ?). split_and!; [done..|]. exists a. split; [done|by right; right; right].
  - ifb; wp_auto. { split_and!; [done..|]. exists tt. split; [done|by right; left]. }
    apply wp_etry. eapply wp_mono; [by apply Connect_spec|].
    intros [[]|e|] c1 (? & Hi1 & Hs1 & Hok); [| |done].
    { split_and!; [done..|]. exists tt. split; [done|]. unfold maintained. destruct (Hok eq_refl); auto. }
    eapply wp_mono; [by apply ScheduleReconnect_returns|]. intros r c2 (? & ? & a & ? & ?).
    split_and!; [done|by eapply same_options_trans|]. exists a. split; [done|by right; right; right].
Qed.

Lemma restart_returns c :
  ci_inv c → returns restart_reconnect
    (fun _ c' => ci_client c' = ci_client c ∧ ci_dial c' = ci_dial c ∧ ci_outgoing c' = ci_outgoing c
      ∧ ci_nextReconnect c' = ci_now c' ∧ ci_dials c' = ci_dials c) c.
Proof.
  intros []. unfold returns, restart_reconnect. wp_auto. split_and!; [|by split_and!|by exists tt].
  constructor; cbn; try done.
Qed.

Lemma returns_wp {A} (m : eff (ConnectionImpl S) A) P (Q : outcome A → ConnectionImpl S → Prop) c :
  returns m P c → (∀ a c', ci_inv c' → same_options c c' → P a c' → Q (Ok a) c') → wp m Q c.
Proof.
  unfold returns, wp. intros (? & ? & a & -> & ?) HQ. by apply HQ.
Qed.

Lemma SetEnabled_returns b c :
  ci_inv c →
  wp (ConnectionImpl_SetEnabled b) (fun r c' => r = Ok tt ∧ ci_inv c' ∧ ci_enabled c' = b
    ∧ ci_token c' = ci_token c ∧ ci_now c' = ci_now c
    ∧ (b = false → ci_dials c' = ci_dials c)) c.
Proof.
  intros Hi. unfold ConnectionImpl_SetEnabled. apply wp_bind, wp_get.
  destruct (Bool.eqb_spec (ci_enabled c) b) as [<-|Hne]; [by apply wp_ret; split_and!|].
  set (c0 := ci_set_outgoing empty_queue (ci_set_client None (ci_set_dial false (ci_set_enabled b c)))).
  assert (ci_inv c0) as Hi0.
  { destruct Hi; constructor; cbn; try done. }
  wp_auto. unfold ConnectionImpl_Disconnect. apply wp_bind. wp_auto. fold c0.
  apply wp_bind. eapply wp_mono; [by apply restart_returns|].
  intros r c1 (Hi1 & Hs1 & [] & -> & _ & _ & _ & _ & Hd1). cbn in Hd1.
  destruct Hs1 as (He1 & _ & Ht1 & Hn1). cbn in He1, Ht1, Hn1. destruct b.
  - eapply wp_mono; [by apply Maintain_returns|]. intros r c2 (? & (He2 & _ & Ht2 & Hn2) & [] & -> & _).
    split_and!; congruence.
  - apply wp_ret. by split_and!.
Qed.

Lemma ChangeNetwork_returns i c :
  ci_inv c →
  wp (ConnectionImpl_ChangeNetwork i) (fun r c' => r = Ok tt ∧ ci_inv c' ∧ ci_enabled c' = ci_enabled c
    ∧ ci_token c' = ci_token c ∧ ci_now c' = ci_now c ∧ ci_networkInterface c' = i) c.
Proof.
  intros Hi. unfold ConnectionImpl_ChangeNetwork, ConnectionImpl_Disconnect. wp_auto.
  set (c0 := ci_set_client None (ci_set_dial false (ci_set_interface i c))).
  assert (ci_inv c0) as Hi0.
  { destruct Hi; constructor; cbn; try done. intros E. by destruct (cii_disabled0 E) as (_ & _ & ?). }
  apply wp_bind. wp_auto. fold c0.
  apply wp_bind. eapply wp_mono; [by apply restart_returns|].
  intros r c1 (Hi1 & (? & ? & ? & ?) & [] & -> & _).
  eapply wp_mono; [by apply Maintain_returns|].
  intros r c2 (? & (? & ? & ? & ?) & [] & -> & _). cbn in *. split_and!; congruence.
Qed.

Lemma Send_returns destination packet priority c :
  ci_inv c → returns (ConnectionImpl_Send destination packet priority) (fun _ _ => True) c.
Proof.
  intros Hi. unfold ConnectionImpl_Send. apply wp_bind, wp_get.
  destruct (ci_enabled c) eqn:He; cbn [negb]; [|by apply returns_ret].
  destruct (cii_queue c Hi) as (Hq & Hp & Hb).
  destruct (queue_Push_spec _ {| qp_Destination := destination; qp_Payload := packet |} priority Hq)
    as (result & q' & -> & Hq' & _ & _ & _ & Hp' & Hb').
  apply wp_bind, wp_lift. apply wp_bind, wp_mod.
  assert (ci_inv (ci_set_outgoing q' c)) as Hi1.
  { destruct Hi; constructor; cbn; try done; [congruence|split_and!; congruence]. }
  assert (same_options c (ci_set_outgoing q' c)) as Hs by by split_and!.
  destruct (negb _).
  - apply wp_ret. split_and!; [done|done|by exists tt].
  - eapply wp_mono; [by apply Maintain_returns|]. intros r c2 (? & ? & [] & -> & _).
    split_and!; [done|by eapply same_options_trans|by exists tt].
Qed.

Lemma io_process_writable event : io (process_writable event).
Proof.
  unfold process_writable. apply io_bind; [apply io_FlushOutgoing|]. intros _.
  apply io_if; [apply io_ret|]. apply io_bind; [apply io_the_client|]. intros k.
  apply io_if; [apply io_DrainIncoming|apply io_ret].
Qed.

Lemma io_buffered {B} (f : DerpClient S → bool → eff (ConnectionImpl S) B) :
  (∀ k b, io (f k b)) →
  io (let* client := the_client in let* b := elift (DerpClient_HasBufferedInput client) in f client b).
Proof.
  intros Hf c Hc. pose proof Hc as [Hi [k Hk]]. destruct (cii_client c Hi k Hk) as [Hin _].
  destruct (HasBufferedInput_total k Hin) as [b Hb].
  apply wp_bind. unfold the_client. wp_auto. rewrite Hk. wp_auto. rewrite Hb. by apply Hf.
Qed.

Lemma io_process_readable event : io (process_readable event).
Proof.
  unfold process_readable. apply io_bind.
  { apply io_if; [apply io_ret|]. apply io_bind; [apply io_the_client|]. intros k.
    apply io_if; [apply io_Flush|apply io_ret]. }
  intros _. apply io_buffered. intros k b. apply io_if; [apply io_ret|].
  apply io_bind; [apply io_if; [apply io_Flush|apply io_ret]|]. intros _.
  apply io_bind; [apply io_the_client|]. intros k'. apply io_if; [apply io_DrainIncoming|apply io_ret].
Qed.

(** What an event leaves: a live connection, or one that waits to reconnect. *)
Definition handled (result : ConnectionEventResult) (c : ConnectionImpl S) : Prop :=
  er_Handled result = true
  ∧ match er_Status result with EventStatus_Ready => live c | EventStatus_Disconnected => waiting c end.

Lemma lost_returns packets c : ci_inv c → returns (lost packets) handled c.
Proof.
  intros Hi. unfold lost, returns. apply wp_bind. eapply returns_wp; [by apply ScheduleReconnect_returns|].
  intros [] c' Hi' Hs Hw. apply wp_ret. split_and!; [done|done|]. eexists. split; [done|]. by split.
Qed.

(** A guarded call, followed by a part that handles its own exceptions. *)
Lemma etry_step {A B} (m : eff (ConnectionImpl S) A) (k : A → eff (ConnectionImpl S) B) handler Q c :
  live c → io m → (∀ a c', live c' → returns (k a) Q c') →
  (∀ c', ci_inv c' → returns handler Q c') → returns (etry (ebind m k) handler) Q c.
Proof.
  intros Hc Hm Hk Hh. apply wp_etry, wp_bind. eapply wp_mono; [by apply Hm|].
  intros [a|e|] c1 (Hr & Hl & Hs%same_control_options); [| |done].
  - eapply returns_wp; [by apply Hk|]. intros b c' ? ? ?. split_and!; [done|by eapply same_options_trans|by exists b].
  - eapply returns_wp; [by apply Hh, Hl|]. intros b c' ? ? ?.
    split_and!; [done|by eapply same_options_trans|by exists b].
Qed.

Lemma process_readiness_returns event c : live c → returns (process_readiness event) handled c.
Proof.
  intros Hc. unfold process_readiness.
  apply etry_step; [done|apply io_process_writable| |intros; by apply lost_returns].
  intros packets c1 Hc1. apply etry_step; [done|apply io_process_readable| |intros; by apply lost_returns].
  intros more c2 Hc2. apply etry_step; [done|apply io_UpdateWriteInterest| |intros; by apply lost_returns].
  intros [] c3 Hc3. apply returns_ret; [apply Hc3|]. by split.
Qed.

Lemma ProcessEvent_returns event c :
  ci_inv c → returns (ConnectionImpl_ProcessEvent event) (fun result c' =>
    (ev_Token event ≠ ci_token c → result = not_handled ∧ c' = c)
    ∧ (ev_Token event = ci_token c → er_Handled result = true
       ∧ (er_Status result = EventStatus_Disconnected → waiting c')
       ∧ (er_Status result = EventStatus_Ready → live c' ∨ er_Packets result = []))) c.
Proof.
  intros Hi. unfold ConnectionImpl_ProcessEvent. apply wp_bind, wp_get.
  destruct (Z.eqb_spec (ev_Token event) (ci_token c)) as [Ht|Ht]; cbn [negb].
  2: { apply wp_ret. split_and!; [done|by split_and!|]. eexists. by split_and!. }
  apply wp_bind. apply (returns_wp _ (fun _ _ => True)).
  { destruct (ci_client c); [by apply returns_ret|]. apply Maintain_returns in Hi as (? & ? & a & ? & ?).
    split_and!; [done..|]. by exists a. }
  intros [] c1 Hi1 Hs1 _. apply wp_bind, wp_get. destruct (ci_client c1) as [k|] eqn:Hk.
  2: { apply wp_ret. split_and!; [done|done|]. eexists. split_and!; [done|done|]. by intros _; split_and!; [|..|right]. }
  assert (live c1) as Hl by by split; [|eexists].
  apply (returns_wp _ handled); [by destruct (_ || _); [apply lost_returns|apply process_readiness_returns]|].
  intros result c' Hi' Hs' [Hh Hst]. split_and!; [done|by eapply same_options_trans|].
  exists result. split_and!; [done|done|]. intros _. split_and!; [done| |]; intros E; rewrite E in Hst; auto.
Qed.

(** A dial that runs to completion hands over a client in order. *)
Lemma DialOperation_run_ok opened request authenticate opens preferred :
  safe opened → (∀ k, authenticate k ≠ UB) →
  ∃ r, DialOperation_run opened request authenticate opens preferred = Ok r ∧ dial_ok r.
Proof.
  intros Ho Ha. unfold DialOperation_run. destruct opened as [s|e|]; [|by eexists|done].
  assert (wp (DerpClient_Connect request authenticate opens ;;* DerpClient_SetPreferred preferred ;;*
    DerpClient_Flush) (fun r c => r ≠ UB ∧ (r = Ok tt → input_ok c)) (DerpClient_new s)) as [Hr Hc].
  { apply wp_bind. eapply wp_mono; [by apply wp_Connect|]. intros [[]|e|] c1 [? Hc]; [|done..].
    destruct (Hc eq_refl) as [_ Hb Hs]. apply wp_bind. eapply wp_mono; [by apply WriteFrame_sends|].
    intros [[]|e|] c2 (? & Hs2 & _ & (_ & Hb2 & _)); [|done..].
    eapply wp_mono; [by apply Flush_spec|]. intros r c3 (? & Hs3 & _ & (_ & Hb3 & _)).
    split; [done|]. intros _. split; [done|]. by rewrite Hb3, Hb2, Hb. }
  match goal with |- context [match ?x with _ => _ end] => destruct x as [[[]|e|] c] end;
    cbn in *; [|by eexists|done].
  eexists. split; [done|]. by apply Hc.
Qed.

(** The interface that the relay's ownership is proved against. *)
#[export] Instance ConnectionImpl_Connection : Connection (ConnectionImpl S) := {
  conn_SetEnabled := fun b c => (ConnectionImpl_SetEnabled b c).2;
  conn_ChangeNetwork := fun i c => (ConnectionImpl_ChangeNetwork i c).2;
  conn_Connected := ConnectionImpl_Connected;
  conn_Enabled := ci_enabled
}.

#[export] Instance ConnectionImpl_laws : ConnectionLaws (ConnectionImpl S) ci_inv.
Proof.
  split; cbn; intros.
  - by apply SetEnabled_returns.
  - by apply SetEnabled_returns.
  - by apply ChangeNetwork_returns.
  - by apply ChangeNetwork_returns.
  - unfold ConnectionImpl_Connected. by destruct (cii_disabled c) as [-> _].
Qed.

(** ** Sequences of operations *)

Inductive connection_op :=
  | CnOp_Send (destination packet : bytes) (priority : Priority)
  | CnOp_ProcessEvent (event : Event)
  | CnOp_Maintain
  | CnOp_SetEnabled (enabled : bool)
  | CnOp_ChangeNetwork (networkInterface : bytes)
  | CnOp_Clock (now : Z).

Definition ci_set_now v (c : ConnectionImpl S) := {| ci_enabled := ci_enabled c; ci_dial := ci_dial c;
  ci_client := ci_client c; ci_outgoing := ci_outgoing c; ci_nextReconnect := ci_nextReconnect c;
  ci_reconnectDelay := ci_reconnectDelay c; ci_networkInterface := ci_networkInterface c;
  ci_token := ci_token c; ci_now := v; ci_dials := ci_dials c; ci_posted := ci_posted c |}.

Definition connection_step (op : connection_op) : eff (ConnectionImpl S) unit :=
  match op with
  | CnOp_Send destination packet priority => ConnectionImpl_Send destination packet priority
  | CnOp_ProcessEvent event => ConnectionImpl_ProcessEvent event ;;* eret tt
  | CnOp_Maintain => ConnectionImpl_Maintain
  | CnOp_SetEnabled enabled => ConnectionImpl_SetEnabled enabled
  | CnOp_ChangeNetwork networkInterface => ConnectionImpl_ChangeNetwork networkInterface
  | CnOp_Clock now => emod (ci_set_now now)
  end.

Inductive connection_run : list connection_op → ConnectionImpl S → ConnectionImpl S → Prop :=
  | connection_run_nil c : connection_run [] c c
  | connection_run_cons op ops c c1 r c' :
      connection_step op c = (r, c1) → connection_run ops c1 c' → connection_run (op :: ops) c c'.

Lemma connection_step_ok op c :
  ci_inv c → wp (connection_step op) (fun r c' => r = Ok tt ∧ ci_inv c') c.
Proof.
  intros Hi. destruct op; cbn [connection_step].
  - eapply returns_wp; [by apply Send_returns|]. by intros [] c' ? ? _.
  - apply wp_bind. eapply returns_wp; [by apply ProcessEvent_returns|]. intros. by wp_auto.
  - eapply returns_wp; [by apply Maintain_returns|]. by intros [] c' ? ? _.
  - eapply wp_mono; [by apply SetEnabled_returns|]. by intros r c' (? & ? & _).
  - eapply wp_mono; [by apply ChangeNetwork_returns|]. by intros r c' (? & ? & _).
  - wp_auto. split; [done|]. by destruct Hi.
Qed.

(** A disabled connection stays as it is. *)
Definition enables (op : connection_op) : bool :=
  match op with CnOp_SetEnabled b => b | _ => false end.

Lemma connection_step_disabled op c :
  ci_inv c → ci_enabled c = false → enables op = false →
  let c' := (connection_step op c).2 in
  ci_enabled c' = false ∧ ci_dials c' = ci_dials c.
Proof.
  intros Hi He Hop. destruct (cii_disabled c Hi He) as (Hk & Hd & _).
  destruct op as [| | |[]|i|]; cbn [connection_step enables] in *; try done.
  - unfold ConnectionImpl_Send, ebind, eget. by rewrite He.
  - unfold ConnectionImpl_ProcessEvent, ConnectionImpl_Maintain, ebind, eget.
    destruct (negb _); [done|]. rewrite Hk, He. cbn. by rewrite Hk.
  - unfold ConnectionImpl_Maintain, ebind, eget. by rewrite He.
  - unfold ConnectionImpl_SetEnabled, ebind, eget. by rewrite He.
  - unfold ConnectionImpl_ChangeNetwork, ConnectionImpl_Disconnect, restart_reconnect,
      ConnectionImpl_Maintain, ebind, eget, emod. cbn. by rewrite He.
Qed.

(** C31: the reconnecting connection, over any socket and any course of dials.
    After any sequence of operations the invariant holds: the client's buffers are
    in order, the queue is within 4096 packets and 8 MiB, the reconnect delay
    within 1 and 30 seconds, and a disabled connection has neither socket, dial
    nor queued packet.  Every further operation returns: no exception escapes and
    there is no undefined behaviour.  A disabled connection stays disabled and takes
    no dial until it is enabled; an event that loses the connection leaves it
    waiting, with the next delay doubled, and until that time [Maintain] does
    nothing. *)
Theorem ConnectionImpl_contract enabled networkInterface token now dials ops c :
  Forall dial_ok dials →
  connection_run ops (ConnectionImpl_new enabled networkInterface token now dials).2 c →
  ci_inv c
  ∧ (∀ op, (connection_step op c).1 = Ok tt)
  ∧ (ci_enabled c = false → ∀ op, enables op = false →
      ci_enabled (connection_step op c).2 = false
      ∧ ci_dials (connection_step op c).2 = ci_dials c)
  ∧ (∀ event result c', ConnectionImpl_ProcessEvent event c = (Ok result, c') →
      er_Status result = EventStatus_Disconnected → waiting c')
  ∧ (ci_client c = None → ci_now c < ci_nextReconnect c →
      ConnectionImpl_Maintain c = (Ok tt, c)).
Proof.
  intros Hd Hrun.
  assert (ci_inv c) as Hi.
  { revert Hrun. set (c0 := (ConnectionImpl_new _ _ _ _ _).2).
    assert (ci_inv c0) as Hi0.
    { eapply (Maintain_returns {| ci_enabled := enabled |}). constructor; cbn; try done. }
    clearbody c0. intros Hrun. induction Hrun as [|op ops c c1 r c' Hstep _ IH]; [done|].
    apply IH. pose proof (connection_step_ok op c Hi0) as [_ H]. by rewrite Hstep in H. }
  split_and!; [done|intros op; by apply connection_step_ok|intros; by apply connection_step_disabled| |].
  - intros event result c' E Hst. pose proof (ProcessEvent_returns event c Hi) as (_ & _ & a & Ha & Hno & Hyes).
    rewrite E in *. cbn in *. simplify_eq.
    destruct (decide (ev_Token event = ci_token c)) as [Ht|Ht]; [by apply Hyes|].
    destruct (Hno Ht) as [-> _]. done.
  - intros Hk Hn. unfold ConnectionImpl_Maintain, ebind, eget. rewrite Hk.
    destruct (ci_enabled c); cbn; [|done]. by rewrite (proj2 (Z.ltb_lt _ _) Hn).
Qed.

End connection_proofs.

(** A pipe as a socket that never waits for the other direction. *)
#[export] Instance pipe_socket : TcpSocket pipe := {
  so_ReadNeedsWrite := fun _ => false;
  so_WriteNeedsRead := fun _ => false;
  so_SetNonBlocking := fun _ => eret tt;
  so_SetWriteInterest := fun _ => eret tt
}.

#[export] Instance pipe_socket_laws : TcpSocketLaws pipe.
Proof. by split. Qed.

(** A dial that fails, and one that succeeds. *)
Definition demo_dials : list (DialResult pipe) :=
  [Dial_Error (RuntimeError "refused"); Dial_Connected (DerpClient_new demo_pipe)].

Definition demo_connection_ops : list connection_op :=
  [CnOp_Send (replicate 32 1) [1; 2; 3] Priority_Data; CnOp_Clock 2000000000; CnOp_Maintain;
   CnOp_ProcessEvent {| ev_Token := 7; ev_Readiness := Readiness_Readable |}].

Definition demo_connection : ConnectionImpl pipe :=
  foldl (fun c op => (connection_step op c).2) (ConnectionImpl_new true [] 7 0 demo_dials).2
    demo_connection_ops.

Example demo_connection_connected : ConnectionImpl_Connected demo_connection = true.
Proof. vm_compute. reflexivity. Qed.

Lemma ConnectionImpl_contract_witness :
  ConnectionImpl_Connected demo_connection = true
  ∧ (∀ op, (connection_step op demo_connection).1 = Ok tt).
Proof.
  split; [vm_compute; reflexivity|].
  apply (ConnectionImpl_contract true [] 7 0 demo_dials demo_connection_ops).
  - repeat constructor; vm_compute; congruence.
  - unfold demo_connection, demo_connection_ops. cbn [foldl].
    repeat (eapply connection_run_cons; [apply surjective_pairing|]). apply connection_run_nil.
Defined.
