(* ===== verification/Switching.v ===== *)
(** * The node that switches between native and hosted mode

    src/core/ipn/ipnlocal/SwitchingNode.cpp, which carries out the actions of the
    [TransitionCoordinator] on a native node, a hosted node and the bootstrap of a
    relay connection.  The three are reached through interfaces, the classes
    [NativeNode], [HostedNode] and [Recovery]. *)

From S2P Require Import Prelude Text Net Packet Framing Decoder Codec Transition.

(** ** The data of the interfaces *)

(** What the switching node reads of a network map. *)
Record NetworkRegions := { nc_DerpRegion : Z; nc_PeerRegions : list Z }.

Record NativeEndpoints := {
  nep_BoundEndpoint : Endpoint;
  nep_PublicEndpoint : option Endpoint
}.

(** [hosted::ConnectionOptions]: the members that the switching node uses. *)
Record ConnectionOptions := {
  co_ConnectAddress : bytes;
  co_TlsServerName : option bytes;
  co_Network : NetworkRegions;
  co_ExitNode : bytes
}.

Section switching.
  (** The rest of [SessionWaitResult], [NodeReceiveResult] and [ConnectionResult],
      which are passed on unread, and the error codes. *)
  Context {Transport Received Stream Code : Type}.
  (** The nodes and the bootstrap. *)
  Context {N H P : Type}.

Record NodeEvents := {
  ne_Transport : Transport;
  ne_Received : list Received;
  ne_Endpoints : option NativeEndpoints;
  ne_TransportFailure : option Code;
  ne_DelegationReplies : list DelegationReply;
  ne_AppliedMapRevision : option Z;
  ne_NetworkChanged : bool;
  ne_DataPathReady : bool
}.

Record ConnectionResult := { cr_Network : NetworkRegions; cr_Stream : Stream }.

Class NativeNode := {
  nn_Select : eff N unit;
  nn_SetDerpEnabled : bool → eff N unit;
  nn_PrepareTransport : eff N unit;
  nn_SuspendNetwork : eff N unit;
  nn_PollTransport : eff N unit;
  nn_TakeEndpoints : eff N (option NativeEndpoints);
  nn_SetStunServer : option Endpoint → eff N unit;
  nn_ChangeNetwork : bytes → eff N unit;
  nn_UpdateNetwork : NetworkRegions → eff N unit;
  nn_Wait : Z → Z → Z → eff N NodeEvents;
  nn_Shutdown : eff N unit;
  nn_Connected : N → bool;
  nn_OwnershipReady : N → bool;
  nn_TransportPrepared : N → bool;
  nn_Network : N → NetworkRegions
}.

Class HostedNode := {
  hn_Select : eff H unit;
  hn_Start : ConnectionResult → bytes → bytes → eff H unit;
  hn_StopRecovery : eff H unit;
  hn_ResumeRecovery : eff H unit;
  hn_RetireTransport : eff H unit;
  hn_RequestDelegation : DelegationRequest → eff H unit;
  hn_PollTransport : Z → eff H NodeEvents;
  hn_ChangeNetwork : bytes → eff H unit;
  hn_UpdateNetwork : NetworkRegions → eff H unit;
  hn_Wait : Z → Z → Z → eff H NodeEvents;
  hn_Shutdown : eff H unit;
  hn_HasTransport : H → bool;
  hn_Ready : H → bool;
  hn_MapRevision : H → Z;
  hn_Network : H → NetworkRegions
}.

Class Recovery := {
  rc_Configure : ConnectionOptions → eff P unit;
  rc_Failed : eff P unit;
  rc_Cancel : eff P unit;
  rc_Poll : eff P (option ConnectionResult)
}.

Context `{!NativeNode} `{!HostedNode} `{!Recovery}.

(** ** The state *)

Record SwitchingNode := {
  sn_native : N;
  sn_hosted : H;
  sn_preparation : P;
  sn_transition : TransitionCoordinator;
  sn_selected : NodeMode;
  sn_exitNode : bytes;
  sn_relayName : bytes;
  sn_relayOptions : option ConnectionOptions;
  sn_preparedRelay : option ConnectionResult;
  sn_appliedMap : Z;
  sn_preparationGeneration : Z
}.

Definition sn_set_native v s := {| sn_native := v; sn_hosted := sn_hosted s;
  sn_preparation := sn_preparation s; sn_transition := sn_transition s;
  sn_selected := sn_selected s; sn_exitNode := sn_exitNode s; sn_relayName := sn_relayName s;
  sn_relayOptions := sn_relayOptions s; sn_preparedRelay := sn_preparedRelay s;
  sn_appliedMap := sn_appliedMap s; sn_preparationGeneration := sn_preparationGeneration s |}.
Definition sn_set_hosted v s := {| sn_native := sn_native s; sn_hosted := v;
  sn_preparation := sn_preparation s; sn_transition := sn_transition s;
  sn_selected := sn_selected s; sn_exitNode := sn_exitNode s; sn_relayName := sn_relayName s;
  sn_relayOptions := sn_relayOptions s; sn_preparedRelay := sn_preparedRelay s;
  sn_appliedMap := sn_appliedMap s; sn_preparationGeneration := sn_preparationGeneration s |}.
Definition sn_set_preparation v s := {| sn_native := sn_native s; sn_hosted := sn_hosted s;
  sn_preparation := v; sn_transition := sn_transition s;
  sn_selected := sn_selected s; sn_exitNode := sn_exitNode s; sn_relayName := sn_relayName s;
  sn_relayOptions := sn_relayOptions s; sn_preparedRelay := sn_preparedRelay s;
  sn_appliedMap := sn_appliedMap s; sn_preparationGeneration := sn_preparationGeneration s |}.
Definition sn_set_transition v s := {| sn_native := sn_native s; sn_hosted := sn_hosted s;
  sn_preparation := sn_preparation s; sn_transition := v;
  sn_selected := sn_selected s; sn_exitNode := sn_exitNode s; sn_relayName := sn_relayName s;
  sn_relayOptions := sn_relayOptions s; sn_preparedRelay := sn_preparedRelay s;
  sn_appliedMap := sn_appliedMap s; sn_preparationGeneration := sn_preparationGeneration s |}.
Definition sn_set_selected v s := {| sn_native := sn_native s; sn_hosted := sn_hosted s;
  sn_preparation := sn_preparation s; sn_transition := sn_transition s;
  sn_selected := v; sn_exitNode := sn_exitNode s; sn_relayName := sn_relayName s;
  sn_relayOptions := sn_relayOptions s; sn_preparedRelay := sn_preparedRelay s;
  sn_appliedMap := sn_appliedMap s; sn_preparationGeneration := sn_preparationGeneration s |}.
Definition sn_set_relay options name s := {| sn_native := sn_native s; sn_hosted := sn_hosted s;
  sn_preparation := sn_preparation s; sn_transition := sn_transition s;
  sn_selected := sn_selected s; sn_exitNode := sn_exitNode s; sn_relayName := name;
  sn_relayOptions := options; sn_preparedRelay := sn_preparedRelay s;
  sn_appliedMap := sn_appliedMap s; sn_preparationGeneration := sn_preparationGeneration s |}.
Definition sn_set_preparedRelay v s := {| sn_native := sn_native s; sn_hosted := sn_hosted s;
  sn_preparation := sn_preparation s; sn_transition := sn_transition s;
  sn_selected := sn_selected s; sn_exitNode := sn_exitNode s; sn_relayName := sn_relayName s;
  sn_relayOptions := sn_relayOptions s; sn_preparedRelay := v;
  sn_appliedMap := sn_appliedMap s; sn_preparationGeneration := sn_preparationGeneration s |}.
Definition sn_set_appliedMap v s := {| sn_native := sn_native s; sn_hosted := sn_hosted s;
  sn_preparation := sn_preparation s; sn_transition := sn_transition s;
  sn_selected := sn_selected s; sn_exitNode := sn_exitNode s; sn_relayName := sn_relayName s;
  sn_relayOptions := sn_relayOptions s; sn_preparedRelay := sn_preparedRelay s;
  sn_appliedMap := v; sn_preparationGeneration := sn_preparationGeneration s |}.
Definition sn_set_preparationGeneration v s := {| sn_native := sn_native s;
  sn_hosted := sn_hosted s; sn_preparation := sn_preparation s; sn_transition := sn_transition s;
  sn_selected := sn_selected s; sn_exitNode := sn_exitNode s; sn_relayName := sn_relayName s;
  sn_relayOptions := sn_relayOptions s; sn_preparedRelay := sn_preparedRelay s;
  sn_appliedMap := sn_appliedMap s; sn_preparationGeneration := v |}.

(** Calls on the members. *)
Definition on_native {A} (m : eff N A) : eff SwitchingNode A := fun s =>
  let '(r, n) := m (sn_native s) in (r, sn_set_native n s).
Definition on_hosted {A} (m : eff H A) : eff SwitchingNode A := fun s =>
  let '(r, h) := m (sn_hosted s) in (r, sn_set_hosted h s).
Definition on_preparation {A} (m : eff P A) : eff SwitchingNode A := fun s =>
  let '(r, p) := m (sn_preparation s) in (r, sn_set_preparation p s).
Definition on_transition {A} (m : eff TransitionCoordinator A) : eff SwitchingNode A := fun s =>
  let '(r, t) := m (sn_transition s) in (r, sn_set_transition t s).

(** [try { m } catch (const std::system_error&) { handler }] *)
Definition catch_system {S} (m handler : eff S unit) : eff S unit := fun s =>
  match m s with
  | (Throw (SystemError _), s') => handler s'
  | r => r
  end.

Definition sn_status (s : SwitchingNode) : TransitionStatus := tc_status (sn_transition s).

(** [Active().Network()] *)
Definition SwitchingNode_Network (s : SwitchingNode) : NetworkRegions :=
  match sn_selected s with
  | Mode_Native => nn_Network (sn_native s)
  | Mode_Hosted => hn_Network (sn_hosted s)
  end.

(** The regions as 16-bit integers, the node's own first. *)
Definition SwitchingNode_Regions (s : SwitchingNode) : list Z :=
  let network := SwitchingNode_Network s in
  u16 (nc_DerpRegion network)
    :: map u16 (List.filter (fun r => 0 <? r) (nc_PeerRegions network)).

Definition SwitchingNode_TransportReady (s : SwitchingNode) : bool :=
  match sn_selected s with
  | Mode_Native => nn_Connected (sn_native s)
  | Mode_Hosted => hn_Ready (sn_hosted s)
  end.

(** ** The operations *)

(** One action of the coordinator. *)
Definition apply_action (a : TransitionAction) : eff SwitchingNode unit :=
  let* s := eget in
  if negb (ta_Generation a =? ts_Generation (sn_status s)) then eret tt else
  match ta_Kind a with
  | Kind_PrepareNative =>
      on_hosted hn_StopRecovery ;;*
      on_native (nn_SetDerpEnabled false) ;;*
      on_native nn_PrepareTransport ;;*
      emod (sn_set_preparationGeneration (ta_Generation a))
  | Kind_PrepareHosted =>
      let* options := elift (match sn_relayOptions s with Some o => Ok o | None => UB end) in
      on_preparation (rc_Configure options) ;;*
      on_preparation rc_Failed ;;*
      emod (sn_set_preparationGeneration (ta_Generation a))
  | Kind_SuspendNative => on_native (nn_SetDerpEnabled false)
  | Kind_ActivateNative =>
      on_native (nn_SetDerpEnabled true) ;;*
      let* s := eget in
      if bool_decide (ts_Phase (sn_status s) = Phase_Failed) then
        on_native nn_Select ;;* emod (sn_set_selected Mode_Native)
      else eret tt
  | Kind_ActivateHosted =>
      match sn_preparedRelay s with
      | None => on_transition (TransitionCoordinator_Cancel TFailure_PreparationFailed)
      | Some relay =>
          let relay := {| cr_Network := nn_Network (sn_native s); cr_Stream := cr_Stream relay |} in
          emod (sn_set_preparedRelay (Some relay)) ;;*
          on_hosted (hn_Start relay (sn_exitNode s) (sn_relayName s)) ;;*
          emod (sn_set_preparedRelay None)
      end
  | Kind_SelectNative => on_native nn_Select ;;* emod (sn_set_selected Mode_Native)
  | Kind_SelectHosted => on_hosted hn_Select ;;* emod (sn_set_selected Mode_Hosted)
  | Kind_RetireNative =>
      on_native (nn_SetDerpEnabled false) ;;*
      on_native nn_SuspendNetwork ;;*
      let* s := eget in
      if bool_decide (sn_selected s = Mode_Hosted) then on_hosted hn_ResumeRecovery else eret tt
  | Kind_RetireHosted =>
      on_preparation rc_Cancel ;;*
      emod (sn_set_preparedRelay None) ;;*
      on_hosted hn_StopRecovery ;;*
      on_hosted hn_RetireTransport
  | Kind_RecoverHosted =>
      on_hosted hn_ResumeRecovery ;;*
      on_hosted hn_Select ;;*
      emod (sn_set_selected Mode_Hosted)
  | Kind_Delegation =>
      let* request := elift (match ta_Delegation a with Some r => Ok r | None => UB end) in
      catch_system (on_hosted (hn_RequestDelegation request))
        (on_transition TransitionCoordinator_RelayFailed)
  end.

Fixpoint apply_actions (l : list TransitionAction) : eff SwitchingNode unit :=
  match l with
  | [] => eret tt
  | a :: l' => apply_action a ;;* apply_actions l'
  end.

Definition SwitchingNode_ApplyActions : eff SwitchingNode unit :=
  let* l := on_transition TransitionCoordinator_TakeActions in apply_actions l.

(** [name.substr(0, name.find('.'))] *)
Definition relay_name (options : ConnectionOptions) : bytes :=
  let name := default (co_ConnectAddress options) (co_TlsServerName options) in
  match find_char chr_dot name with
  | Some i => take i name
  | None => name
  end.

Definition SwitchingNode_RequestMode (desired : NodeMode) (relay : option ConnectionOptions)
    : eff SwitchingNode bool :=
  let* s := eget in
  let phase := ts_Phase (sn_status s) in
  if bool_decide (desired = sn_selected s) && bool_decide (phase = Phase_Idle) then eret true else
  if bool_decide (desired = Mode_Hosted) && bool_decide (relay = None)
  then ethrow (NodeError "InvalidTransportOptions") else
  if negb (bool_decide (phase = Phase_Idle)) && negb (bool_decide (phase = Phase_Failed))
  then eret false else
  (match relay with
   | None => emod (sn_set_relay None (sn_relayName s))
   | Some o =>
       let options := {| co_ConnectAddress := co_ConnectAddress o;
                         co_TlsServerName := co_TlsServerName o;
                         co_Network := SwitchingNode_Network s; co_ExitNode := sn_exitNode s |} in
       emod (sn_set_relay (Some options) (relay_name options))
   end) ;;*
  let regions := SwitchingNode_Regions s in
  let revision := if bool_decide (desired = Mode_Native) then hn_MapRevision (sn_hosted s) else 1 in
  let* accepted := on_transition (TransitionCoordinator_Begin desired revision regions true) in
  (if bool_decide (desired = Mode_Native)
   then on_transition (TransitionCoordinator_MapApplied (sn_appliedMap s))
   else emod (sn_set_appliedMap 0)) ;;*
  SwitchingNode_ApplyActions ;;*
  eret accepted.

Definition SwitchingNode_ReconcileMap : eff SwitchingNode unit :=
  let* s := eget in
  if hn_HasTransport (sn_hosted s) then
    on_transition (TransitionCoordinator_MapChanged (hn_MapRevision (sn_hosted s))
      (SwitchingNode_Regions s)) ;;*
    on_transition (TransitionCoordinator_MapApplied (sn_appliedMap s))
  else eret tt.

Definition SwitchingNode_SetStunServer (server : option Endpoint) : eff SwitchingNode unit :=
  on_native (nn_SetStunServer server).

Definition SwitchingNode_ChangeNetwork (networkInterface : option bytes) : eff SwitchingNode unit :=
  on_preparation rc_Cancel ;;*
  emod (sn_set_preparedRelay None) ;;*
  on_native (nn_SetDerpEnabled false) ;;*
  on_native nn_SuspendNetwork ;;*
  on_hosted hn_StopRecovery ;;*
  on_hosted hn_RetireTransport ;;*
  on_transition (TransitionCoordinator_Abort TFailure_Cancelled) ;;*
  match networkInterface with
  | None => eret tt
  | Some i =>
      on_native (nn_ChangeNetwork i) ;;*
      let* s := eget in
      on_native (nn_SetDerpEnabled (bool_decide (sn_selected s = Mode_Native))) ;;*
      if bool_decide (sn_selected s = Mode_Hosted) then on_hosted (hn_ChangeNetwork i) else eret tt
  end.

Definition SwitchingNode_CancelTransition (reason : TransitionFailure) : eff SwitchingNode unit :=
  on_preparation rc_Cancel ;;*
  emod (sn_set_preparedRelay None) ;;*
  on_transition (TransitionCoordinator_Cancel reason) ;;*
  SwitchingNode_ApplyActions.

Fixpoint observe_replies (replies : list DelegationReply) : eff SwitchingNode unit :=
  match replies with
  | [] => eret tt
  | r :: rest => on_transition (TransitionCoordinator_Reply r) ;;* observe_replies rest
  end.

Definition SwitchingNode_Observe (result : NodeEvents) : eff SwitchingNode unit :=
  (match ne_AppliedMapRevision result with
   | Some revision =>
       emod (sn_set_appliedMap revision) ;;*
       on_transition (TransitionCoordinator_MapApplied revision)
   | None => eret tt
   end) ;;*
  observe_replies (ne_DelegationReplies result) ;;*
  match ne_TransportFailure result with
  | Some _ => on_transition TransitionCoordinator_RelayFailed
  | None => eret tt
  end.

Definition SwitchingNode_Merge (destination source : NodeEvents) : NodeEvents :=
  {| ne_Transport := ne_Transport destination;
     ne_Received := ne_Received destination ++ ne_Received source;
     ne_Endpoints := match ne_Endpoints source with
                     | Some e => Some e | None => ne_Endpoints destination end;
     ne_TransportFailure := match ne_TransportFailure source with
                            | Some c => Some c | None => ne_TransportFailure destination end;
     ne_DelegationReplies := ne_DelegationReplies destination ++ ne_DelegationReplies source;
     ne_AppliedMapRevision := match ne_AppliedMapRevision source with
                              | Some r => Some r | None => ne_AppliedMapRevision destination end;
     ne_NetworkChanged := ne_NetworkChanged destination || ne_NetworkChanged source;
     ne_DataPathReady := ne_DataPathReady destination || ne_DataPathReady source |}.

Definition set_endpoints (e : option NativeEndpoints) (r : NodeEvents) : NodeEvents :=
  {| ne_Transport := ne_Transport r; ne_Received := ne_Received r; ne_Endpoints := e;
     ne_TransportFailure := ne_TransportFailure r; ne_DelegationReplies := ne_DelegationReplies r;
     ne_AppliedMapRevision := ne_AppliedMapRevision r; ne_NetworkChanged := ne_NetworkChanged r;
     ne_DataPathReady := ne_DataPathReady r |}.

Definition set_transport (t : Transport) (r : NodeEvents) : NodeEvents :=
  {| ne_Transport := t; ne_Received := ne_Received r; ne_Endpoints := ne_Endpoints r;
     ne_TransportFailure := ne_TransportFailure r; ne_DelegationReplies := ne_DelegationReplies r;
     ne_AppliedMapRevision := ne_AppliedMapRevision r; ne_NetworkChanged := ne_NetworkChanged r;
     ne_DataPathReady := ne_DataPathReady r |}.

(** The parts of [Advance], in order: a prepared relay, the endpoints of the native
    node, its preparation, the passive hosted transport. *)
Definition advance_relay (status : TransitionStatus) : eff SwitchingNode unit :=
  if bool_decide (ts_Phase status = Phase_Preparing) && bool_decide (ts_Desired status = Mode_Hosted)
  then
    let* candidate := on_preparation rc_Poll in
    match candidate with
    | Some _ =>
        emod (sn_set_preparedRelay candidate) ;;*
        let* s := eget in
        on_transition (TransitionCoordinator_Prepared (sn_preparationGeneration s) true)
    | None => eret tt
    end
  else eret tt.

Definition advance_endpoints (result : NodeEvents) : eff SwitchingNode NodeEvents :=
  let* s := eget in
  if bool_decide (sn_selected s = Mode_Hosted) then
    on_native nn_PollTransport ;;*
    let* endpoints := on_native nn_TakeEndpoints in
    eret (match endpoints with Some _ => set_endpoints endpoints result | None => result end)
  else eret result.

Definition advance_native (status : TransitionStatus) : eff SwitchingNode unit :=
  let* s := eget in
  if bool_decide (ts_Phase status = Phase_Preparing) && bool_decide (ts_Desired status = Mode_Native)
     && nn_TransportPrepared (sn_native s)
  then on_transition (TransitionCoordinator_Prepared (sn_preparationGeneration s) true)
  else eret tt.

Definition advance_passive (maximumPackets : Z) (result : NodeEvents)
    : eff SwitchingNode NodeEvents :=
  let* s := eget in
  if bool_decide (sn_selected s = Mode_Native) && hn_HasTransport (sn_hosted s) then
    let* passive := on_hosted (hn_PollTransport maximumPackets) in
    SwitchingNode_Observe passive ;;*
    (if ne_NetworkChanged passive then
       let* s := eget in
       on_native (nn_UpdateNetwork (hn_Network (sn_hosted s))) ;;*
       SwitchingNode_ReconcileMap
     else eret tt) ;;*
    eret (SwitchingNode_Merge result passive)
  else eret result.

Definition SwitchingNode_Advance (maximumPackets : Z) (result : NodeEvents)
    : eff SwitchingNode NodeEvents :=
  SwitchingNode_ApplyActions ;;*
  let* s := eget in
  let status := sn_status s in
  advance_relay status ;;*
  let* result := advance_endpoints result in
  advance_native status ;;*
  let* result := advance_passive maximumPackets result in
  let* s := eget in
  (if nn_OwnershipReady (sn_native s)
   then on_transition (TransitionCoordinator_NativeReady (ts_Generation (sn_status s)))
   else eret tt) ;;*
  on_transition TransitionCoordinator_Poll ;;*
  SwitchingNode_ApplyActions ;;*
  eret result.

(** [Active().Wait(...)] *)
Definition active_wait (maximumEvents maximumPackets maximumPacketSize : Z)
    : eff SwitchingNode NodeEvents :=
  let* s := eget in
  match sn_selected s with
  | Mode_Native => on_native (nn_Wait maximumEvents maximumPackets maximumPacketSize)
  | Mode_Hosted => on_hosted (hn_Wait maximumEvents maximumPackets maximumPacketSize)
  end.

(** [empty] is [NodeEvents{}]. *)
Definition SwitchingNode_Wait (empty : NodeEvents)
    (maximumEvents maximumPackets maximumPacketSize : Z) : eff SwitchingNode NodeEvents :=
  let* result := SwitchingNode_Advance maximumPackets empty in
  let* completed := active_wait maximumEvents maximumPackets maximumPacketSize in
  SwitchingNode_Observe completed ;;*
  (if ne_NetworkChanged completed then
     let* s := eget in
     (if bool_decide (sn_selected s = Mode_Hosted)
      then on_native (nn_UpdateNetwork (hn_Network (sn_hosted s)))
      else if hn_HasTransport (sn_hosted s)
      then on_hosted (hn_UpdateNetwork (nn_Network (sn_native s)))
      else eret tt) ;;*
     SwitchingNode_ReconcileMap
   else eret tt) ;;*
  let result := SwitchingNode_Merge (set_transport (ne_Transport completed) result) completed in
  SwitchingNode_Advance maximumPackets result.

Definition SwitchingNode_UpdateNetwork (network : NetworkRegions) : eff SwitchingNode unit :=
  on_native (nn_UpdateNetwork network) ;;*
  let* s := eget in
  (if hn_HasTransport (sn_hosted s) then on_hosted (hn_UpdateNetwork network) else eret tt) ;;*
  SwitchingNode_ReconcileMap ;;*
  SwitchingNode_ApplyActions.

Definition SwitchingNode_Shutdown : eff SwitchingNode unit :=
  on_preparation rc_Cancel ;;*
  on_hosted hn_StopRecovery ;;*
  on_native nn_Shutdown ;;*
  let* s := eget in
  if hn_HasTransport (sn_hosted s) then on_hosted hn_Shutdown else eret tt.

(** The constructor. *)
Definition SwitchingNode_new (native : N) (hosted : H) (preparation : P) (clock : nat → Z)
    (initial : NodeMode) (exitNode : bytes) : outcome unit * SwitchingNode :=
  let s := {| sn_native := native; sn_hosted := hosted; sn_preparation := preparation;
              sn_transition := TransitionCoordinator_initial clock initial;
              sn_selected := initial; sn_exitNode := exitNode; sn_relayName := [];
              sn_relayOptions := None; sn_preparedRelay := None; sn_appliedMap := 0;
              sn_preparationGeneration := 0 |} in
  match initial with
  | Mode_Hosted => on_hosted hn_Select s
  | Mode_Native => on_native nn_Select s
  end.

(** ** Runs *)

Inductive sn_op :=
  | OpRequestMode (desired : NodeMode) (relay : option ConnectionOptions)
  | OpWait (empty : NodeEvents) (maximumEvents maximumPackets maximumPacketSize : Z)
  | OpUpdateNetwork (network : NetworkRegions)
  | OpChangeNetwork (networkInterface : option bytes)
  | OpCancelTransition (reason : TransitionFailure)
  | OpSetStunServer (server : option Endpoint)
  | OpShutdown.

Definition sn_step (op : sn_op) : eff SwitchingNode unit :=
  match op with
  | OpRequestMode desired relay => forget (SwitchingNode_RequestMode desired relay)
  | OpWait empty events packets size => forget (SwitchingNode_Wait empty events packets size)
  | OpUpdateNetwork network => SwitchingNode_UpdateNetwork network
  | OpChangeNetwork networkInterface => SwitchingNode_ChangeNetwork networkInterface
  | OpCancelTransition reason => SwitchingNode_CancelTransition reason
  | OpSetStunServer server => SwitchingNode_SetStunServer server
  | OpShutdown => SwitchingNode_Shutdown
  end.

Definition sn_run (ops : list sn_op) (s : SwitchingNode) : SwitchingNode :=
  foldl (fun s op => (sn_step op s).2) s ops.

(** ** Invariant *)

Create HintDb keeps discriminated.

(** An action that can be carried out with these relay options. *)
Definition action_ok (options : option ConnectionOptions) (a : TransitionAction) : Prop :=
  (ta_Kind a = Kind_Delegation → ta_Delegation a ≠ None)
  ∧ (ta_Kind a = Kind_PrepareHosted → options ≠ None).

(** Between the operations the queue holds no [PrepareHosted]. *)
Definition sn_inv (s : SwitchingNode) : Prop :=
  tc_inv (sn_transition s) ∧ Forall (action_ok None) (tc_actions (sn_transition s)).

(** An operation that keeps the invariant and the relay options and has no
    undefined behaviour. *)
Definition keeps {A} (m : eff SwitchingNode A) : Prop :=
  ∀ s, sn_inv s →
    wp m (fun r s' => safe r ∧ sn_inv s' ∧ sn_relayOptions s' = sn_relayOptions s) s.

Lemma keeps_ret {A} (a : A) : keeps (eret a).
Proof. by intros s Hs. Qed.

Lemma keeps_throw {A} e : keeps (@ethrow SwitchingNode A e).
Proof. by intros s Hs. Qed.

Lemma keeps_get : keeps eget.
Proof. by intros s Hs. Qed.

Lemma keeps_lift {A} (m : outcome A) : safe m → keeps (elift m).
Proof. by intros Hm s Hs. Qed.

Lemma keeps_mod f :
  (∀ s, sn_transition (f s) = sn_transition s ∧ sn_relayOptions (f s) = sn_relayOptions s) →
  keeps (emod f).
Proof. intros Hf s Hs. destruct (Hf s) as [Ht Ho]. split_and!; [done| |done]. unfold sn_inv. simpl. by rewrite Ht. Qed.

Lemma keeps_bind {A B} (m : eff SwitchingNode A) (k : A → eff SwitchingNode B) :
  keeps m → (∀ a, keeps (k a)) → keeps (ebind m k).
Proof.
  intros Hm Hk s Hs. apply wp_bind. eapply wp_mono; [by apply Hm|].
  intros [a|e|] s' (Hr & Hs' & Ho); [|by split_and!|by destruct Hr].
  eapply wp_mono; [by apply Hk|]. intros r s'' (? & ? & ?). split_and!; congruence || done.
Qed.

Lemma keeps_catch (m handler : eff SwitchingNode unit) :
  keeps m → keeps handler → keeps (catch_system m handler).
Proof.
  intros Hm Hh s Hs. specialize (Hm s Hs). unfold wp, catch_system in *.
  destruct (m s) as [[a|[]|] s'] eqn:E; simpl in *; destruct Hm as (? & ? & Ho);
    try done.
  eapply wp_mono; [by apply Hh|]. intros r s'' (? & ? & ?). split_and!; congruence || done.
Qed.

Lemma tc_step_actions options op s :
  (∀ r g p, op = OpBegin Mode_Hosted r g p → options ≠ None) →
  Forall (action_ok None) (tc_actions s) →
  wp (tc_step op) (fun _ s' => Forall (action_ok options) (tc_actions s')) s.
Proof.
  intros Hop Ha. assert (Forall (action_ok options) (tc_actions s)) as Ha'.
  { eapply Forall_impl; [exact Ha|]. intros a [Hd Hp]. split; [done|]. intros Hk. by destruct (Hp Hk). }
  clear Ha. tc_members s. simpl in Ha'.
  destruct op; tc_unfold; unfold TransitionCoordinator_Rollback; tc_unfold; tc_simpl; tc_run.
  all: tc_simpl; repeat apply Forall_app_2; try assumption; repeat constructor; simpl; try done.
  all: try (destruct desired; [done|intros _; by eapply Hop]).
  all: repeat case_bool_decide; done.
Qed.

(** A transition that is refused by an exception changes nothing. *)
Lemma tc_begin_throws revision regions policy s :
  match TransitionCoordinator_Begin Mode_Hosted revision regions policy s with
  | (Throw _, s') => s' = s
  | _ => True
  end.
Proof.
  assert (wp (TransitionCoordinator_Begin Mode_Hosted revision regions policy)
    (fun r s' => match r with Throw _ => s' = s | _ => True end) s) as Hw.
  { unfold TransitionCoordinator_Begin, TransitionCoordinator_Action, set_deadline_in, next_generation,
      on_status, Now. tc_members s. tc_run; done. }
  unfold wp in Hw. by destruct (TransitionCoordinator_Begin _ _ _ _ s) as [[] ?].
Qed.

(** The result of an event beside its effect. *)
Lemma wp_forget {S A} (m : eff S A) (I : S → Prop) s :
  wp (forget m) (fun r s' => r ≠ UB ∧ I s') s → wp m (fun r s' => safe r ∧ I s') s.
Proof. unfold wp, forget, ebind. destruct (m s) as [[a|e|] s']; simpl; by intros [? ?]. Qed.

Lemma keeps_on_transition {A} (m : eff TransitionCoordinator A) :
  (∀ s, tc_inv s → Forall (action_ok None) (tc_actions s) →
    wp m (fun r s' => safe r ∧ tc_inv s' ∧ Forall (action_ok None) (tc_actions s')) s) →
  keeps (on_transition m).
Proof.
  intros Hm s [Hi Ha]. specialize (Hm _ Hi Ha). unfold wp, on_transition in *.
  destruct (m (sn_transition s)) as [r t]. simpl in *. destruct Hm as (? & ? & ?). by split_and!.
Qed.

Lemma tc_step_keeps op s :
  (∀ r g p, op ≠ OpBegin Mode_Hosted r g p) → tc_inv s → Forall (action_ok None) (tc_actions s) →
  wp (tc_step op) (fun r s' => r ≠ UB ∧ tc_inv s' ∧ Forall (action_ok None) (tc_actions s')) s.
Proof.
  intros Hop Hi Ha. destruct (tc_inv_step s op Hi). split_and!; [done..|].
  apply tc_step_actions; [|done]. intros r g p ->. by destruct (Hop r g p).
Qed.

Lemma keeps_transition op :
  (∀ r g p, op ≠ OpBegin Mode_Hosted r g p) → keeps (on_transition (tc_step op)).
Proof. intros Hop. apply keeps_on_transition. intros s Hi Ha. by apply tc_step_keeps. Qed.

Lemma keeps_Begin_native revision regions policy :
  keeps (on_transition (TransitionCoordinator_Begin Mode_Native revision regions policy)).
Proof.
  apply keeps_on_transition. intros s Hi Ha. apply wp_forget.
  by apply (tc_step_keeps (OpBegin Mode_Native revision regions policy)).
Qed.

(** The interfaces have no undefined behaviour: every call of theirs returns or
    throws. *)
Record interfaces_safe : Prop := {
  is_native : ∀ n,
    safe (nn_Select n).1 ∧ (∀ b, safe (nn_SetDerpEnabled b n).1) ∧ safe (nn_PrepareTransport n).1
    ∧ safe (nn_SuspendNetwork n).1 ∧ safe (nn_PollTransport n).1 ∧ safe (nn_TakeEndpoints n).1
    ∧ (∀ e, safe (nn_SetStunServer e n).1) ∧ (∀ i, safe (nn_ChangeNetwork i n).1)
    ∧ (∀ c, safe (nn_UpdateNetwork c n).1) ∧ (∀ x y z, safe (nn_Wait x y z n).1)
    ∧ safe (nn_Shutdown n).1;
  is_hosted : ∀ h,
    safe (hn_Select h).1 ∧ (∀ c x y, safe (hn_Start c x y h).1) ∧ safe (hn_StopRecovery h).1
    ∧ safe (hn_ResumeRecovery h).1 ∧ safe (hn_RetireTransport h).1
    ∧ (∀ r, safe (hn_RequestDelegation r h).1) ∧ (∀ n, safe (hn_PollTransport n h).1)
    ∧ (∀ i, safe (hn_ChangeNetwork i h).1) ∧ (∀ c, safe (hn_UpdateNetwork c h).1)
    ∧ (∀ x y z, safe (hn_Wait x y z h).1) ∧ safe (hn_Shutdown h).1;
  is_recovery : ∀ p,
    (∀ o, safe (rc_Configure o p).1) ∧ safe (rc_Failed p).1 ∧ safe (rc_Cancel p).1
    ∧ safe (rc_Poll p).1
}.

Lemma keeps_native {A} (m : eff N A) : (∀ n, safe (m n).1) → keeps (on_native m).
Proof.
  intros Hm s Hs. specialize (Hm (sn_native s)). unfold wp, on_native.
  by destruct (m (sn_native s)) as [r n].
Qed.

Lemma keeps_hosted {A} (m : eff H A) : (∀ h, safe (m h).1) → keeps (on_hosted m).
Proof.
  intros Hm s Hs. specialize (Hm (sn_hosted s)). unfold wp, on_hosted.
  by destruct (m (sn_hosted s)) as [r h].
Qed.

Lemma keeps_preparation {A} (m : eff P A) : (∀ p, safe (m p).1) → keeps (on_preparation m).
Proof.
  intros Hm s Hs. specialize (Hm (sn_preparation s)). unfold wp, on_preparation.
  by destruct (m (sn_preparation s)) as [r p].
Qed.

Context (Hsafe : interfaces_safe).

(** The operations of the switching node are built from those of its members by
    the combinators above. *)
Ltac keep_member H :=
  let x := fresh "x" in intros x; pose proof (H Hsafe x); destruct_and?; by auto.

Ltac keep_event :=
  match goal with
  | |- keeps (on_transition (TransitionCoordinator_Prepared ?g ?b)) =>
      apply (keeps_transition (OpPrepared g b))
  | |- keeps (on_transition (TransitionCoordinator_MapApplied ?r)) =>
      apply (keeps_transition (OpMapApplied r))
  | |- keeps (on_transition (TransitionCoordinator_MapChanged ?r ?l)) =>
      apply (keeps_transition (OpMapChanged r l))
  | |- keeps (on_transition (TransitionCoordinator_Abort ?f)) => apply (keeps_transition (OpAbort f))
  | |- keeps (on_transition (TransitionCoordinator_Reply ?p)) => apply (keeps_transition (OpReply p))
  | |- keeps (on_transition (TransitionCoordinator_NativeReady ?g)) =>
      apply (keeps_transition (OpNativeReady g))
  | |- keeps (on_transition TransitionCoordinator_RelayFailed) =>
      apply (keeps_transition OpRelayFailed)
  | |- keeps (on_transition (TransitionCoordinator_Cancel ?f)) => apply (keeps_transition (OpCancel f))
  | |- keeps (on_transition TransitionCoordinator_Poll) => apply (keeps_transition OpPollTransition)
  end; done.

Ltac keep :=
  repeat match goal with
  | |- keeps (ebind _ _) => apply keeps_bind; [|intros ?]
  | |- keeps (eret _) => apply keeps_ret
  | |- keeps (ethrow _) => apply keeps_throw
  | |- keeps eget => apply keeps_get
  | |- keeps (emod _) => by apply keeps_mod
  | |- keeps (on_native _) => apply keeps_native; keep_member is_native
  | |- keeps (on_hosted _) => apply keeps_hosted; keep_member is_hosted
  | |- keeps (on_preparation _) => apply keeps_preparation; keep_member is_recovery
  | |- keeps (on_transition _) => keep_event
  | |- keeps (catch_system _ _) => apply keeps_catch
  | |- keeps (if ?b then _ else _) => destruct b
  | |- keeps (match ?x with _ => _ end) => destruct x
  | _ => solve [eauto with keeps]
  end.

(** An action that is possible with the relay options of the state. *)
Lemma wp_apply_action a s :
  sn_inv s → action_ok (sn_relayOptions s) a →
  wp (apply_action a)
    (fun r s' => safe r ∧ sn_inv s' ∧ sn_relayOptions s' = sn_relayOptions s) s.
Proof.
  intros Hs [Hd Hp]. unfold apply_action. apply wp_bind, wp_get.
  destruct (negb _); [by split_and!|].
  match goal with |- wp ?m _ s => assert (keeps m) as Hk; [|by apply Hk] end.
  destruct (ta_Kind a) eqn:Ek; try by keep.
  - specialize (Hp eq_refl). destruct (sn_relayOptions s) as [o|]; [|done].
    apply keeps_bind; [by apply keeps_lift|intros o']. keep.
  - specialize (Hd eq_refl). destruct (ta_Delegation a) as [r|]; [|done].
    apply keeps_bind; [by apply keeps_lift|intros r']. keep.
Qed.

(** The actions of a batch, each possible with the relay options. *)
Lemma wp_apply_actions l s :
  sn_inv s → Forall (action_ok (sn_relayOptions s)) l →
  wp (apply_actions l)
    (fun r s' => safe r ∧ sn_inv s' ∧ sn_relayOptions s' = sn_relayOptions s) s.
Proof.
  intros Hs Hl. revert s Hs Hl. induction l as [|a l IH]; intros s Hs Hl; [by split_and!|].
  apply Forall_cons in Hl as [Ha Hl]. cbn [apply_actions]. apply wp_bind.
  eapply wp_mono; [by apply wp_apply_action|]. intros [[]|e|] s' (Hr & Hs' & Ho); [|by split_and!|done].
  eapply wp_mono; [apply IH; [done|by rewrite Ho]|]. intros r s'' (? & ? & ?).
  split_and!; congruence || done.
Qed.

(** [ApplyActions] on a queue whose actions are possible. *)
Lemma wp_ApplyActions s :
  tc_inv (sn_transition s) →
  Forall (action_ok (sn_relayOptions s)) (tc_actions (sn_transition s)) →
  wp SwitchingNode_ApplyActions
    (fun r s' => safe r ∧ sn_inv s' ∧ sn_relayOptions s' = sn_relayOptions s) s.
Proof.
  intros Hi Ha. unfold SwitchingNode_ApplyActions. apply wp_bind.
  apply (wp_apply_actions (tc_actions (sn_transition s))
    (sn_set_transition (tc_set_actions [] (sn_transition s)) s)); [|done].
  split; [|by constructor]. apply (tc_inv_step _ OpTakeActions Hi).
Qed.

Lemma keeps_ApplyActions : keeps SwitchingNode_ApplyActions.
Proof.
  intros s [Hi Ha]. apply wp_ApplyActions; [done|]. eapply Forall_impl; [exact Ha|].
  intros a [? Hp]. split; [done|]. intros Hk. by destruct (Hp Hk).
Qed.
Hint Resolve keeps_ApplyActions : keeps.

Lemma keeps_observe_replies l : keeps (observe_replies l).
Proof. induction l as [|p l IH]; cbn [observe_replies]; keep. Qed.
Hint Resolve keeps_observe_replies : keeps.

Lemma keeps_Observe result : keeps (SwitchingNode_Observe result).
Proof. unfold SwitchingNode_Observe. keep. Qed.
Hint Resolve keeps_Observe : keeps.

Lemma keeps_ReconcileMap : keeps SwitchingNode_ReconcileMap.
Proof. unfold SwitchingNode_ReconcileMap. keep. Qed.
Hint Resolve keeps_ReconcileMap : keeps.

Lemma keeps_Advance maximumPackets result : keeps (SwitchingNode_Advance maximumPackets result).
Proof.
  unfold SwitchingNode_Advance, advance_relay, advance_endpoints, advance_native, advance_passive. keep.
Qed.
Hint Resolve keeps_Advance : keeps.

Lemma keeps_Wait empty x y z : keeps (SwitchingNode_Wait empty x y z).
Proof. unfold SwitchingNode_Wait, active_wait. keep. Qed.

(** [PrepareHosted] is queued with the relay options set and carried out at once. *)
Lemma wp_request_hosted regions s :
  tc_inv (sn_transition s) → Forall (action_ok None) (tc_actions (sn_transition s)) →
  sn_relayOptions s ≠ None →
  wp (let* accepted := on_transition (TransitionCoordinator_Begin Mode_Hosted 1 regions true) in
      emod (sn_set_appliedMap 0) ;;* SwitchingNode_ApplyActions ;;* eret accepted)
    (fun r s' => safe r ∧ sn_inv s') s.
Proof.
  intros Hi Ha Ho. set (op := OpBegin Mode_Hosted 1 regions true).
  assert (wp (TransitionCoordinator_Begin Mode_Hosted 1 regions true) (fun r t => safe r ∧ tc_inv t
    ∧ Forall (action_ok (match r with Ok _ => sn_relayOptions s | _ => None end)) (tc_actions t))
    (sn_transition s)) as Hb.
  { pose proof (tc_inv_step _ op Hi) as H3.
    pose proof (tc_step_actions (sn_relayOptions s) op _ (fun _ _ _ _ => Ho) Ha) as H4.
    pose proof (tc_begin_throws 1 regions true (sn_transition s)) as H5.
    unfold wp, op, tc_step, forget, ebind in *.
    destruct (TransitionCoordinator_Begin _ _ _ _ _) as [[b|e|] t]; simpl in *; destruct H3; try done.
    split_and!; [done|done|]. by rewrite H5. }
  apply wp_bind. unfold on_transition, wp in *.
  destruct (TransitionCoordinator_Begin _ _ _ _ _) as [[b|e|] t]; simpl in *; destruct Hb as (? & Ht & Hacts);
    try done.
  match goal with |- ?G =>
    change (wp (SwitchingNode_ApplyActions ;;* eret b) (fun r s' => safe r ∧ sn_inv s')
      (sn_set_appliedMap 0 (sn_set_transition t s))) end.
  apply wp_bind. eapply wp_mono; [by apply wp_ApplyActions|].
  intros [[]|e|] s' (? & ? & _); by split.
Qed.

Lemma wp_RequestMode desired relay s :
  sn_inv s →
  wp (SwitchingNode_RequestMode desired relay) (fun r s' => safe r ∧ sn_inv s') s.
Proof.
  intros Hs. unfold SwitchingNode_RequestMode. apply wp_bind, wp_get.
  do 3 (match goal with |- wp (if ?b then _ else _) _ _ => let E := fresh "E" in destruct b eqn:E end;
    [by split|]).
  apply wp_bind. destruct desired.
  - assert (∀ (m : eff SwitchingNode bool) o n, keeps m →
      wp m (fun r s' => safe r ∧ sn_inv s') (sn_set_relay o n s)) as Hk.
    { intros m o n Hm. eapply wp_mono; [by apply Hm|]. intros r s' (? & ? & _). by split. }
    destruct relay; apply wp_mod, Hk; (apply keeps_bind; [apply keeps_Begin_native|intros accepted]); keep.
  - destruct Hs. destruct relay as [o|]; [|done]. apply wp_mod. by apply wp_request_hosted.
Qed.

Lemma sn_inv_step op s :
  sn_inv s → wp (sn_step op) (fun r s' => safe r ∧ sn_inv s') s.
Proof.
  intros Hs. assert (∀ m : eff SwitchingNode unit, keeps m →
    wp m (fun r s' => safe r ∧ sn_inv s') s) as Hk.
  { intros m Hm. eapply wp_mono; [by apply Hm|]. intros r s' (? & ? & _). by split. }
  destruct op; cbn [sn_step].
  - unfold forget. apply wp_bind. eapply wp_mono; [by apply wp_RequestMode|].
    intros [b|e|] s' [? ?]; by split.
  - apply Hk. unfold forget. apply keeps_bind; [apply keeps_Wait|intros result]. keep.
  - apply Hk. unfold SwitchingNode_UpdateNetwork. keep.
  - apply Hk. unfold SwitchingNode_ChangeNetwork. keep.
  - apply Hk. unfold SwitchingNode_CancelTransition. keep.
  - apply Hk. unfold SwitchingNode_SetStunServer. keep.
  - apply Hk. unfold SwitchingNode_Shutdown. keep.
Qed.

Lemma sn_inv_run ops s : sn_inv s → sn_inv (sn_run ops s).
Proof.
  revert s. induction ops as [|op ops IH]; intros s Hs; [done|]. apply IH. by apply sn_inv_step.
Qed.

Lemma sn_inv_new native hosted preparation clock initial exitNode :
  let '(r, s) := SwitchingNode_new native hosted preparation clock initial exitNode in
  safe r ∧ sn_inv s.
Proof.
  unfold SwitchingNode_new. set (s := {| sn_native := native |}).
  assert (sn_inv s) as Hs.
  { split; [|constructor]. apply (tc_reachable_inv clock). apply tc_reach_initial. }
  assert (∀ m : eff SwitchingNode unit, keeps m → let '(r, s) := m s in safe r ∧ sn_inv s) as Hk.
  { intros m Hm. specialize (Hm s Hs). unfold wp in Hm. destruct (m s), Hm as (? & ? & _). by split. }
  destruct initial; apply Hk; keep.
Qed.

Lemma wp_eq {S A} (m : eff S A) Q s r s' : m s = (r, s') → Q r s' → wp m Q s.
Proof. intros Hm HQ. unfold wp. by rewrite Hm. Qed.

(** Actions of another generation are dropped. *)
Lemma apply_actions_stale l s :
  Forall (fun a => ta_Generation a ≠ ts_Generation (sn_status s)) l → apply_actions l s = (Ok tt, s).
Proof.
  induction 1 as [|a l Ha _ IH]; [done|]. cbn [apply_actions]. unfold ebind, apply_action at 1.
  unfold ebind, eget. rewrite (proj2 (Z.eqb_neq _ _) Ha). exact IH.
Qed.

(** C33: whatever operations a switching node receives, in whatever order, with
    members that may throw at any call: no operation dereferences an empty
    [m_relayOptions] or an action without a request, and the transition keeps its
    invariant. *)
Theorem SwitchingNode_runs_safely native hosted preparation clock initial exitNode ops op :
  let s := sn_run ops (SwitchingNode_new native hosted preparation clock initial exitNode).2 in
  safe (sn_step op s).1 ∧ tc_inv (sn_transition (sn_step op s).2).
Proof.
  pose proof (sn_inv_new native hosted preparation clock initial exitNode) as Hnew. cbn zeta.
  destruct (SwitchingNode_new _ _ _ _ _ _) as [r s0]. destruct Hnew as [_ Hs0].
  destruct (sn_inv_step op _ (sn_inv_run ops s0 Hs0)) as [Hr [Ht _]]. by split.
Qed.

(** A transition to the mode in effect ends at once. *)
Definition idle_at (mode : NodeMode) (t : TransitionCoordinator) : TransitionCoordinator :=
  tc_set_status {| ts_Desired := mode; ts_Effective := mode; ts_Phase := Phase_Idle;
    ts_Failure := TFailure_None; ts_Generation := u64 (ts_Generation (tc_status t) + 1);
    ts_RollingBack := false |} t.

Lemma Begin_effective mode revision regions t :
  ts_Phase (tc_status t) = Phase_Failed → ts_Effective (tc_status t) = mode →
  revision ≠ 0 → regions ≠ [] → 0 ∉ regions →
  TransitionCoordinator_Begin mode revision regions true t = (Ok true, idle_at mode t).
Proof.
  intros Hp He Hr Hne Hz. tc_members t. simpl in *. subst.
  assert (existsb (Z.eqb 0) regions = false) as Hex.
  { destruct (existsb _ _) eqn:E; [|done]. apply existsb_exists in E as (x & Hx & Hx').
    apply Z.eqb_eq in Hx'. subst. by apply list_elem_of_In in Hx. }
  unfold TransitionCoordinator_Begin, ebind, eget, next_generation, on_status, emod. simpl.
  rewrite (proj2 (Z.eqb_neq _ _) Hr), (bool_decide_eq_false_2 _ Hne), Hex. simpl.
  by rewrite bool_decide_eq_true_2.
Qed.

(** A request for the mode that is already in effect, after a failed
    transition, discards the actions that the failure has queued: the switching node
    reports success and an idle transition, and the native and hosted nodes stay as
    the failed transition left them. *)
Theorem SwitchingNode_RequestMode_drops_actions mode relay s :
  (mode = Mode_Hosted → relay ≠ None) →
  ts_Phase (sn_status s) = Phase_Failed → ts_Effective (sn_status s) = mode →
  0 <= ts_Generation (sn_status s) < 2 ^ 64 - 1 →
  Forall (fun a => ta_Generation a <= ts_Generation (sn_status s)) (tc_actions (sn_transition s)) →
  hn_MapRevision (sn_hosted s) ≠ 0 → 0 ∉ SwitchingNode_Regions s →
  ∃ s', SwitchingNode_RequestMode mode relay s = (Ok true, s')
    ∧ sn_native s' = sn_native s ∧ sn_hosted s' = sn_hosted s ∧ sn_selected s' = sn_selected s
    ∧ ts_Phase (sn_status s') = Phase_Idle ∧ tc_actions (sn_transition s') = [].
Proof.
  intros Hm Hp He Hg Ha Hr Hz.
  assert (∀ revision s1, revision ≠ 0 → sn_transition s1 = sn_transition s →
    on_transition (TransitionCoordinator_Begin mode revision (SwitchingNode_Regions s) true) s1
    = (Ok true, sn_set_transition (idle_at mode (sn_transition s)) s1)) as Hbegin.
  { intros revision s1 Hrev Hs1. unfold on_transition. rewrite Hs1.
    by rewrite (Begin_effective _ _ _ (sn_transition s)). }
  assert (Forall (fun a => ta_Generation a ≠ u64 (ts_Generation (sn_status s) + 1))
    (tc_actions (sn_transition s))) as Hstale.
  { eapply Forall_impl; [exact Ha|]. intros a Hle. simpl in Hle. unfold u64. rewrite Z.mod_small; lia. }
  assert (∀ s1, sn_transition s1 = idle_at mode (sn_transition s) →
    wp (SwitchingNode_ApplyActions ;;* eret true) (fun r s2 => r = Ok true
      ∧ s2 = sn_set_transition (tc_set_actions [] (sn_transition s1)) s1) s1) as Hdrop.
  { intros s1 Hs1. apply wp_bind.
    apply (wp_eq _ _ _ (Ok tt) (sn_set_transition (tc_set_actions [] (sn_transition s1)) s1)); [|done].
    apply apply_actions_stale. simpl. by rewrite Hs1. }
  assert (wp (SwitchingNode_RequestMode mode relay) (fun r s' => r = Ok true
    ∧ sn_native s' = sn_native s ∧ sn_hosted s' = sn_hosted s ∧ sn_selected s' = sn_selected s
    ∧ ts_Phase (sn_status s') = Phase_Idle ∧ tc_actions (sn_transition s') = []) s) as Hw;
    [|unfold wp in Hw; destruct (SwitchingNode_RequestMode mode relay s) as [r s'];
      simpl in Hw; destruct Hw as (-> & ?); by exists s'].
  unfold SwitchingNode_RequestMode. apply wp_bind, wp_get. rewrite Hp, andb_false_r.
  rewrite (bool_decide_eq_false_2 (Phase_Failed = Phase_Idle)) by done.
  rewrite (bool_decide_eq_true_2 (Phase_Failed = Phase_Failed)) by done. simpl.
  destruct mode, relay as [o|]; try (by destruct (Hm eq_refl)); simpl.
  all: apply wp_bind, wp_mod, wp_bind; (eapply wp_eq; [by apply Hbegin|]); apply wp_bind;
    (eapply wp_eq; [reflexivity|]); cbv beta iota; (eapply wp_mono; [by apply Hdrop|]);
    intros r s' (-> & ->); simpl; by split_and!.
Qed.

End switching.

(** ** A concrete run

    A native node given by whether its DERP connections are enabled, and a hosted
    node given by its transport and the number of requests that the transport
    accepts before it fails. *)

Record demo_hosted := { dh_transport : bool; dh_budget : nat }.

Definition demo_network : NetworkRegions := {| nc_DerpRegion := 7; nc_PeerRegions := [3; 0] |}.

Definition demo_node_events : @NodeEvents unit unit unit :=
  {| ne_Transport := tt; ne_Received := []; ne_Endpoints := None; ne_TransportFailure := None;
     ne_DelegationReplies := []; ne_AppliedMapRevision := Some 1; ne_NetworkChanged := false;
     ne_DataPathReady := false |}.

#[local] Instance demo_native_node : @NativeNode unit unit unit bool := {|
  nn_Select := eret tt;
  nn_SetDerpEnabled := fun b => emod (fun _ => b);
  nn_PrepareTransport := eret tt;
  nn_SuspendNetwork := eret tt;
  nn_PollTransport := eret tt;
  nn_TakeEndpoints := eret None;
  nn_SetStunServer := fun _ => eret tt;
  nn_ChangeNetwork := fun _ => eret tt;
  nn_UpdateNetwork := fun _ => eret tt;
  nn_Wait := fun _ _ _ => eret demo_node_events;
  nn_Shutdown := eret tt;
  nn_Connected := fun n => n;
  nn_OwnershipReady := fun n => n;
  nn_TransportPrepared := fun _ => true;
  nn_Network := fun _ => demo_network
|}.

#[local] Instance demo_hosted_node : @HostedNode unit unit unit unit demo_hosted := {|
  hn_Select := eret tt;
  hn_Start := fun _ _ _ =>
    emod (fun h => {| dh_transport := true; dh_budget := dh_budget h |});
  hn_StopRecovery := eret tt;
  hn_ResumeRecovery := eret tt;
  hn_RetireTransport := emod (fun h => {| dh_transport := false; dh_budget := dh_budget h |});
  hn_RequestDelegation := fun _ =>
    let* h := eget in
    match dh_budget h with
    | 0%nat => ethrow (SystemError "not_connected")
    | S n => emod (fun h => {| dh_transport := dh_transport h; dh_budget := n |})
    end;
  hn_PollTransport := fun _ => eret demo_node_events;
  hn_ChangeNetwork := fun _ => eret tt;
  hn_UpdateNetwork := fun _ => eret tt;
  hn_Wait := fun _ _ _ => eret demo_node_events;
  hn_Shutdown := eret tt;
  hn_HasTransport := dh_transport;
  hn_Ready := dh_transport;
  hn_MapRevision := fun _ => 1;
  hn_Network := fun _ => demo_network
|}.

#[local] Instance demo_recovery : @Recovery unit unit := {|
  rc_Configure := fun _ => eret tt;
  rc_Failed := eret tt;
  rc_Cancel := eret tt;
  rc_Poll := eret (Some {| cr_Network := demo_network; cr_Stream := tt |})
|}.

Lemma demo_interfaces_safe : interfaces_safe.
Proof.
  constructor; [done| |done]. intros h. split_and!; try done. intros r. simpl. unfold ebind, eget.
  by destruct (dh_budget h).
Qed.

(** The deadline of the [Prepare] request passes. *)
Definition demo_switching_clock (k : nat) : Z := if (k <? 4)%nat then 0 else 1000000000000.

Definition demo_options : ConnectionOptions :=
  {| co_ConnectAddress := [114; 46; 97]; co_TlsServerName := None; co_Network := demo_network;
     co_ExitNode := [] |}.

Definition demo_switching : @SwitchingNode unit bool demo_hosted unit :=
  sn_run [OpRequestMode Mode_Hosted (Some demo_options); OpWait demo_node_events 1 1 1]
    (SwitchingNode_new true {| dh_transport := false; dh_budget := 1 |} tt demo_switching_clock
       Mode_Native []).2.

Lemma SwitchingNode_runs_safely_witness :
  ts_Failure (sn_status demo_switching) = TFailure_RollbackFailed
  ∧ safe (sn_step (OpWait demo_node_events 1 1 1) demo_switching).1.
Proof.
  split; [vm_compute; reflexivity|].
  exact (proj1 (SwitchingNode_runs_safely demo_interfaces_safe true
    {| dh_transport := false; dh_budget := 1 |} tt demo_switching_clock Mode_Native []
    [OpRequestMode Mode_Hosted (Some demo_options); OpWait demo_node_events 1 1 1]
    (OpWait demo_node_events 1 1 1))).
Defined.

(** The failed transition has queued the actions that retire the relay and enable
    the native node again; after the request they are gone, the native node has no
    DERP connections and the relay's transport is still there. *)
Lemma SwitchingNode_RequestMode_drops_actions_witness :
  map ta_Kind (tc_actions (sn_transition demo_switching))
  = [Kind_SuspendNative; Kind_RetireHosted; Kind_ActivateNative]
  ∧ ∃ s', SwitchingNode_RequestMode Mode_Native None demo_switching = (Ok true, s')
    ∧ sn_native s' = false ∧ dh_transport (sn_hosted s') = true ∧ sn_selected s' = Mode_Native
    ∧ ts_Phase (sn_status s') = Phase_Idle ∧ tc_actions (sn_transition s') = [].
Proof.
  split; [vm_compute; reflexivity|].
  destruct (SwitchingNode_RequestMode_drops_actions Mode_Native None demo_switching)
    as (s' & Hs & Hn & Hh & Hsel & Hrest).
  - discriminate.
  - vm_compute. reflexivity.
  - vm_compute. reflexivity.
  - vm_compute. split; [discriminate|reflexivity].
  - by vm_compute; repeat constructor.
  - discriminate.
  - apply (bool_decide_unpack _). vm_compute. exact I.
  - exists s'. rewrite Hn, Hh, Hsel. split_and!; [exact Hs|vm_compute; reflexivity..|apply Hrest|apply Hrest].
Defined.
