(* ===== verification/Exclusion.v ===== *)
(** * Exclusive ownership of the DERP connections

    The composition of a node's [TransitionCoordinator] and its relay's
    [DelegationLease] over one hosted connection: the requests that the node has
    sent and the relay has not received yet, the replies under way, and both sides.
    The main theorem is that a release holds: once the node has learned that the
    relay released the connections in the node's current generation, and for as
    long as that generation lasts, the relay's connections are disabled. *)

From S2P Require Import Prelude Text Net Packet Framing Decoder Codec Lease Transition.

(** ** What an operation of the relay can do *)

Section relay.
  Context {C : Type} `{!Connection C} (ok : C → Prop) `{!ConnectionLaws C ok}.
  Variable Create : Z → list Z → bool → Z → bool → C.
  Hypothesis Create_ok : ∀ region host preferred index enabled,
    ok (Create region host preferred index enabled)
    ∧ conn_Enabled (Create region host preferred index enabled) = enabled.

(** A reply that reports a release is to the current request. *)
Definition said (s : DelegationLease C) (p : DelegationReply) : Prop :=
  rp_Status p = Status_Released →
  ∃ r, dl_request s = Some r ∧ rq_Action r = Action_Release ∧ rp_Generation p = rq_Generation r.

Definition says (s : DelegationLease C) (f : Frame) : Prop :=
  ∃ p, DecodeDelegationReply f = Ok (Some p) ∧ said s p.

(** While the current request is a release the connections are disabled. *)
Definition release_holds (s : DelegationLease C) : Prop :=
  ∀ r, dl_request s = Some r → rq_Action r = Action_Release → dc_enabled (dl_derps s) = false.

(** [s'] is [s] after an operation, [by] the request it was given if any. *)
Record moved (request : option DelegationRequest) (s s' : DelegationLease C) : Prop := {
  mv_request : dl_request s' = dl_request s
    ∨ ∃ r, request = Some r ∧ dl_request s' = Some r
        ∧ ∀ r0, dl_request s = Some r0 → rq_Generation r0 <= rq_Generation r;
  mv_enabled : dc_enabled (dl_derps s') = true → dc_enabled (dl_derps s) = true
    ∨ ∃ r, request = Some r ∧ rq_Action r = Action_Acquire ∧ dl_request s' = Some r;
  mv_release : release_holds s → release_holds s';
  mv_output : ∃ new, dl_output s' = dl_output s ++ new ∧ Forall (says s') new
}.

Lemma says_reply (s : DelegationLease C) p f :
  Reply_wf p → EncodeDelegationReply p = Ok f → said s p → says s f.
Proof.
  intros Hwf Hf Hs. exists p. split; [|done].
  destruct (Reply_roundtrip p Hwf) as (f' & Hf' & _ & _ & Hd). congruence.
Qed.

Lemma moved_output request (s : DelegationLease C) new :
  Forall (says s) new → moved request s (dl_set_output (dl_output s ++ new) s).
Proof.
  intros Hn. constructor; simpl; [by left|by left|done|]. by exists new.
Qed.

Lemma moved_refl request (s : DelegationLease C) : moved request s s.
Proof. constructor; [by left|by left|done|]. exists []. split; [by rewrite app_nil_r|done]. Qed.

(** A poll keeps the request, reports no release and enables nothing. *)
Record quiet (s s' : DelegationLease C) : Prop := {
  qu_request : dl_request s' = dl_request s;
  qu_enabled : dc_enabled (dl_derps s') = true → dc_enabled (dl_derps s) = true;
  qu_output : ∃ new, dl_output s' = dl_output s ++ new
    ∧ Forall (fun f => ∃ p, DecodeDelegationReply f = Ok (Some p) ∧ rp_Status p ≠ Status_Released) new
}.

Lemma quiet_frame r status failure f :
  Request_wf r → (status = Status_Failed ↔ failure ≠ Failure_None) → status ≠ Status_Released →
  EncodeDelegationReply (reply_for r status failure) = Ok f →
  ∃ p, DecodeDelegationReply f = Ok (Some p) ∧ rp_Status p ≠ Status_Released.
Proof.
  intros Hwf Hc Hs He. exists (reply_for r status failure). split; [|done].
  destruct (Reply_roundtrip _ (reply_for_wf r status failure Hwf Hc)) as (f' & He' & _ & _ & Hd). congruence.
Qed.

Lemma quiet_poll now (s : DelegationLease C) res s' :
  lease_inv ok s → poll_result ok now s res s' → quiet s s'.
Proof.
  intros Hinv Hp. constructor.
  - by destruct Hp.
  - by eapply poll_result_enabled.
  - destruct Hp as [|r d f Hreq _ _ _ _ _ _ _ He| |r d derps f Hreq _ _ _ _ _ He|]; simpl.
    all: try (exists []; split; [by rewrite app_nil_r|by constructor]).
    all: exists [f]; split; [done|]; constructor; [|by constructor].
    all: destruct (li_request ok s Hinv r Hreq) as [Hwf _].
    all: eapply (quiet_frame r); [done| | |exact He]; done.
Qed.

Lemma quiet_moved request (s s1 s2 : DelegationLease C) :
  quiet s s1 → moved request s1 s2 → moved request s s2.
Proof.
  intros [Hr1 He1 (new1 & Ho1 & Hn1)] [Hr2 He2 Hrel2 (new2 & Ho2 & Hn2)]. constructor.
  - by rewrite Hr1 in Hr2.
  - intros H. destruct (He2 H) as [?|?]; auto.
  - intros Hh. apply Hrel2. intros r. rewrite Hr1. intros Hreq Ha. specialize (Hh r Hreq Ha).
    destruct (dc_enabled (dl_derps s1)); [|done]. rewrite He1 in Hh by done. done.
  - exists (new1 ++ new2). rewrite Ho2, Ho1, app_assoc. split; [done|]. apply Forall_app. split; [|done].
    eapply Forall_impl; [exact Hn1|]. intros f (p & Hd & Hs). exists p. split; [done|]. by intros ?.
Qed.

(** The closing reply of an accepted request. *)
Lemma moved_acting r derps deadline changed (s : DelegationLease C) res s' :
  Request_wf r → (∀ r0, dl_request s = Some r0 → rq_Generation r0 <= rq_Generation r) →
  (dc_enabled derps = true → dc_enabled (dl_derps s) = true) →
  (rq_Action r = Action_Release → dc_enabled derps = false) →
  ((∃ f, res = Ok tt ∧ zlen (dl_output (acting r derps deadline changed s)) < MaximumReplies
      ∧ is_reply_frame f
      ∧ EncodeDelegationReply (reply_for r (answers (rq_Action r)) Failure_None) = Ok f
      ∧ s' = queued (reply_for r (answers (rq_Action r)) Failure_None) f
               (acting r derps deadline changed s))
   ∨ (res = Throw no_buffer_space
      ∧ MaximumReplies <= zlen (dl_output (acting r derps deadline changed s))
      ∧ s' = acting r derps deadline changed s)) →
  moved (Some r) s s'.
Proof.
  intros Hwf Hg Hen Hrel Hs.
  assert (dl_request s' = Some r ∧ dl_derps s' = derps) as [Hr Hd]
    by (by destruct Hs as [(f & _ & _ & _ & _ & ->)|(_ & _ & ->)]).
  constructor.
  - right. by exists r.
  - rewrite Hd. auto.
  - intros _ r0. rewrite Hr, Hd. by intros [= <-].
  - destruct Hs as [(f & _ & _ & _ & He & ->)|(_ & _ & ->)].
    + exists [f]. split; [done|]. constructor; [|done].
      eapply says_reply; [apply (reply_for_wf r (answers (rq_Action r)) Failure_None);
        [done|by destruct (rq_Action r)]|exact He|].
      intros Hst. exists r. split_and!; try done. simpl in Hst. by destruct (rq_Action r).
    + exists []. split; [by rewrite app_nil_r|done].
Qed.

Lemma moved_transition r now later (s : DelegationLease C) :
  lease_inv ok s → acceptable s r → Request_wf r →
  wp (Accept_transition r now later) (fun _ s' => moved (Some r) s s') s.
Proof.
  intros Hinv Hacc Hwf. pose proof (ac_known _ _ Hacc) as Hk.
  assert (∀ r0, dl_request s = Some r0 → rq_Generation r0 <= rq_Generation r) as Hg.
  { intros r0 Hr0. destruct Hacc as [[_ Hst] _ _ _ _]. unfold is_stale in Hst. rewrite Hr0 in Hst.
    apply orb_false_iff in Hst as [Hst _]. b2p. lia. }
  unfold Accept_transition. wp_auto. apply (wp_entered ok); [by apply li_derps|]. intros derps Hrel.
  destruct (released_if_inv ok _ _ _ (li_derps ok s Hinv) Hrel) as (Hd & He & Hen).
  assert (dc_enabled derps = true → dc_enabled (dl_derps s) = true) as Hen'.
  { rewrite Hen. by destruct (supersedes s r). }
  assert (∀ d t c, (dc_enabled d = true → dc_enabled (dl_derps s) = true) →
    (rq_Action r = Action_Release → dc_enabled d = false) → rq_Action r ≠ Action_Acquire →
    wp (DelegationLease_Reply (answers (rq_Action r)) Failure_None) (fun _ s' => moved (Some r) s s')
      (acting r d t c s)) as Hans.
  { intros d t c H1 H2 H3. eapply wp_mono; [apply (wp_Reply r); [done|done|by destruct (rq_Action r)]|].
    intros res s' Hs. exact (moved_acting r d t c s res s' Hwf Hg H1 H2 Hs). }
  destruct (rq_Action r) eqn:Ha; wp_auto.
  - apply (Hans derps (Some (now + LeaseDuration)) false); done.
  - apply wp_bind. eapply wp_mono; [by apply (wp_Enable ok)|].
    intros res s' (d & -> & (_ & _ & _ & Hoff) & ->). wp_auto.
    apply (Hans d (Some (now + LeaseDuration)) true); [by rewrite Hoff|done|done].
  - apply wp_bind. eapply wp_mono; [by apply (wp_Enable ok)|].
    intros res s' (d & -> & (Hd' & He' & _ & Hon) & ->). wp_auto.
    assert (lease_inv ok (acting r d (Some (now + LeaseDuration)) true s)) as Hact.
    { apply lease_inv_acting; try done; rewrite ?Ha; [simpl in He'; congruence|naive_solver..]. }
    eapply wp_mono; [apply (wp_Poll ok later _ Hact)|].
    intros res s' Hp. apply (quiet_poll _ _ _ _ Hact) in Hp as [Hq1 Hq2 (new & Hq3 & Hq4)]. simpl in *.
    constructor.
    + right. by exists r.
    + intros _. right. by exists r.
    + intros _ r0. rewrite Hq1. intros [= <-] Hrel'. congruence.
    + exists new. split; [done|]. eapply Forall_impl; [exact Hq4|]. intros f (p & Hdp & Hs).
      exists p. split; [done|]. by intros ?.
  - apply (Hans derps None false); done.
Qed.

Lemma moved_push p (s : DelegationLease C) request :
  Reply_wf p → said s p → wp (push_reply p) (fun _ s' => moved request s s') s.
Proof.
  intros Hwf Hs. eapply wp_mono; [by apply wp_push_reply|]. intros res s' (f & _ & _ & He & ->).
  apply moved_output. constructor; [|done]. by eapply says_reply.
Qed.

Lemma moved_Fail r failure (s : DelegationLease C) request :
  Request_wf r → failure ≠ Failure_None →
  wp (DelegationLease_Fail r failure) (fun _ s' => moved request s s') s.
Proof.
  intros Hwf Hf. unfold DelegationLease_Fail. wp_auto. ifb; wp_auto; [apply moved_refl|].
  apply moved_push; [by apply (reply_for_wf r Status_Failed failure)|done].
Qed.

Lemma moved_Accept r before now later (s : DelegationLease C) :
  lease_inv ok s → Request_wf r →
  wp (DelegationLease_Accept r before now later) (fun _ s' => moved (Some r) s s') s.
Proof.
  intros Hinv Hwf. unfold DelegationLease_Accept. apply wp_bind.
  eapply wp_mono; [by apply (wp_Poll ok)|]. intros res s1 Hp.
  pose proof (quiet_poll _ _ _ _ Hinv Hp) as Hq.
  assert (∀ s2, moved (Some r) s1 s2 → moved (Some r) s s2) as Hm by (intros s2; by apply quiet_moved).
  destruct (poll_result_outcome ok _ _ _ _ Hp) as [->|[-> _]]; [|by apply Hm, moved_refl].
  pose proof (poll_result_inv ok _ _ _ _ Hinv Hp) as Hinv1. wp_auto.
  eapply wp_mono with (Q := fun _ s' => moved (Some r) s1 s'); [|intros; by apply Hm].
  case_bool_decide as Hdup.
  { destruct (dl_reply s1) as [p|] eqn:Hrep; [|wp_auto; apply moved_refl].
    destruct (li_reply ok s1 Hinv1 p Hrep) as (r' & Hr' & Hrec).
    assert (r' = r) as -> by congruence.
    ifb; wp_auto; [apply moved_refl|]. apply moved_push; [by eapply recorded_wf|].
    intros Hst. exists r. destruct Hrec as [-> | ->]; [|done]. split_and!; try done.
    simpl in Hst. by destruct (rq_Action r). }
  destruct (is_stale s1 r) eqn:Es; [by apply moved_Fail|].
  destruct (negb _) eqn:Emap; [by apply moved_Fail|]. b2p.
  destruct (unknown_region s1 r) eqn:Ek; [by apply moved_Fail|]. apply unknown_region_false in Ek.
  destruct (outside_lease s1 r) eqn:El; [by apply moved_Fail|].
  destruct (not_prepared s1 r) eqn:Ep; [by apply moved_Fail|].
  destruct (not_committable s1 r) eqn:Ec; [by apply moved_Fail|].
  apply moved_transition; [done| |done]. by split.
Qed.

Definition op_request (op : lease_op C) : option DelegationRequest :=
  match op with OpAccept r _ _ _ => Some r | _ => None end.

Lemma moved_derps request d (s : DelegationLease C) :
  dc_enabled d = dc_enabled (dl_derps s) → moved request s (dl_set_derps d s).
Proof.
  intros He. constructor; simpl; [by left|rewrite He; by left| |].
  - intros Hh r Hr Ha. simpl. rewrite He. by apply (Hh r).
  - exists []. split; [by rewrite app_nil_r|done].
Qed.

Lemma moved_step op (s : DelegationLease C) :
  lease_inv ok s → lease_op_ok ok s op → op ≠ OpTakeOutput →
  moved (op_request op) s (lease_step Create op s).2.
Proof.
  intros Hinv Hop Hne. destruct op as [rev|r t0 t1 t2|t| |region host preferred|f]; simpl.
  - constructor; simpl; [by left|by left|done|]. exists []. split; [by rewrite app_nil_r|done].
  - by apply moved_Accept.
  - eapply quiet_moved; [|apply moved_refl]. eapply quiet_poll; [done|by apply (wp_Poll ok)].
  - done.
  - destruct (Ensure_entries ok Create Create_ok region host preferred (dl_derps s)
      (li_derps ok s Hinv) Hop) as (_ & _ & Hen).
    unfold discard, ebind, on_derps.
    destruct (DerpConnections_Ensure _ _ _ _ _) as [[] d]; simpl in *; by apply moved_derps.
  - by apply moved_derps.
Qed.

End relay.

(** ** What an event of the coordinator can do *)

(** A request is of the current generation at most, and within it takes or
    releases the connections as the transition aims to. *)
Definition aims (s : TransitionCoordinator) (r : DelegationRequest) : Prop :=
  (rq_Action r = Action_Acquire → target s = Mode_Hosted)
  ∧ (rq_Action r = Action_Release → target s = Mode_Native).

Definition current (s : TransitionCoordinator) (r : DelegationRequest) : Prop :=
  rq_Generation r <= ts_Generation (tc_status s)
  ∧ (rq_Generation r = ts_Generation (tc_status s) → aims s r).

Definition requests_ok (s : TransitionCoordinator) (l : list TransitionAction) : Prop :=
  Forall (fun a => ∀ r, ta_Delegation a = Some r → current s r) l.

(** The generation moves by at most one, and within a generation the aim is
    fixed. *)
Definition aim_kept (s s' : TransitionCoordinator) : Prop :=
  (ts_Generation (tc_status s') = ts_Generation (tc_status s) ∧ target s' = target s)
  ∨ ts_Generation (tc_status s') = ts_Generation (tc_status s) + 1.

(** What an event adds to the queue. *)
Definition adds (s s' : TransitionCoordinator) : Prop :=
  Forall (fun a => a ∈ tc_actions s
    ∨ ∀ r, ta_Delegation a = Some r → rq_Generation r = ts_Generation (tc_status s') ∧ aims s' r)
    (tc_actions s').

Lemma Forall_snoc_2 {A} (P : A → Prop) l a : Forall P l → P a → Forall P (l ++ [a]).
Proof. intros. apply Forall_app_2; [done|]. by constructor. Qed.

Lemma step_aims op s :
  0 <= ts_Generation (tc_status s) < 2 ^ 64 - 1 →
  wp (tc_step op) (fun _ s' => aim_kept s s' ∧ adds s s') s.
Proof.
  intros Hg. tc_members s. simpl in Hg.
  assert (u64 (g + 1) = g + 1) as Hu by (apply Z.mod_small; lia).
  destruct op; tc_unfold; unfold TransitionCoordinator_Rollback; tc_unfold; tc_simpl; tc_run.
  all: rewrite ?Hu.
  all: split; [first [by left | by right]|].
  all: unfold adds; tc_simpl; repeat apply Forall_snoc_2;
    try (constructor; fail); try (apply Forall_forall; by left).
  all: right; intros ? Heq; simpl in Heq; try discriminate Heq; injection Heq as <-.
  all: split; [done|]; split; simpl; intros; try done.
  all: tc_tests; repeat case_bool_decide; try done.
  unfold target in *. simpl in *. by destruct rb, d, o.
Qed.

Lemma current_kept s s' r : aim_kept s s' → current s r → current s' r.
Proof.
  intros [[Hg Ht]|Hg] [Hle Ha]; split; try lia. rewrite Hg. intros Heq. destruct (Ha Heq).
  split; by rewrite Ht.
Qed.

Lemma requests_ok_kept s s' l : aim_kept s s' → requests_ok s l → requests_ok s' l.
Proof. intros Hk Hl. eapply Forall_impl; [exact Hl|]. intros a Ha r Hr. by eapply current_kept, Ha. Qed.

Lemma requests_ok_step s s' :
  aim_kept s s' → adds s s' → requests_ok s (tc_actions s) → requests_ok s' (tc_actions s').
Proof.
  intros Hk Hn Hl. unfold requests_ok, adds in *. rewrite Forall_forall in *. intros a Ha r Hr.
  destruct (Hn a Ha) as [Hin|Hnew]; [by eapply current_kept, Hl|].
  destruct (Hnew r Hr) as [Hg ?]. split; [lia|done].
Qed.

(** The states of a coordinator whose generation is not exhausted. *)
Inductive node_reachable (clock : nat → Z) : TransitionCoordinator → Prop :=
  | node_initial initial : node_reachable clock (TransitionCoordinator_initial clock initial)
  | node_step s op : node_reachable clock s → ts_Generation (tc_status s) < 2 ^ 64 - 1 →
      node_reachable clock (tc_step op s).2.

(** The generation is a 64-bit integer and the queued requests are current. *)
Definition node_ok (s : TransitionCoordinator) : Prop :=
  0 <= ts_Generation (tc_status s) ∧ requests_ok s (tc_actions s).

Lemma node_ok_step op s :
  node_ok s → ts_Generation (tc_status s) < 2 ^ 64 - 1 →
  node_ok (tc_step op s).2 ∧ aim_kept s (tc_step op s).2.
Proof.
  intros [Hg Hr] Hlt. pose proof (step_aims op s (conj Hg Hlt)) as [Hk Hn].
  split; [|done]. split; [|by eapply requests_ok_step]. destruct Hk as [[-> _]| ->]; lia.
Qed.

Lemma node_reachable_ok clock s : node_reachable clock s → node_ok s.
Proof.
  induction 1 as [initial|s op _ IH Hlt]; [by split; [|constructor]|by apply node_ok_step].
Qed.

(** ** The two sides of a hosted connection *)

Section exclusion.
  Context {C : Type} `{!Connection C} (ok : C → Prop) `{!ConnectionLaws C ok}.
  Variable Create : Z → list Z → bool → Z → bool → C.
  Hypothesis Create_ok : ∀ region host preferred index enabled,
    ok (Create region host preferred index enabled)
    ∧ conn_Enabled (Create region host preferred index enabled) = enabled.

(** The coordinator, the actions that [ApplyActions] has taken and not applied
    yet, all requests sent on the connection, those that the relay has not received
    yet, the relay, and the replies that it has written. *)
Record system := {
  sy_node : TransitionCoordinator;
  sy_todo : list TransitionAction;
  sy_sent : list DelegationRequest;
  sy_up : list DelegationRequest;
  sy_relay : DelegationLease C;
  sy_down : list DelegationReply
}.

Definition decoded (f : Frame) : option DelegationReply :=
  match DecodeDelegationReply f with Ok o => o | _ => None end.

(** The node's events other than replies and [TakeActions]. *)
Definition local_op (op : tc_op) : Prop :=
  match op with OpReply _ | OpTakeActions => False | _ => True end.

(** The relay's operations other than [Accept] and [TakeOutput]. *)
Definition relay_op (op : lease_op C) : Prop :=
  match op with OpAccept _ _ _ _ | OpTakeOutput => False | _ => True end.

(** An event of the coordinator. *)
Definition node_event (op : tc_op) (st : system) : system :=
  {| sy_node := (tc_step op (sy_node st)).2; sy_todo := sy_todo st; sy_sent := sy_sent st;
     sy_up := sy_up st; sy_relay := sy_relay st; sy_down := sy_down st |}.

(** The node takes the queued actions. *)
Definition take_actions (st : system) : system :=
  {| sy_node := (TransitionCoordinator_TakeActions (sy_node st)).2;
     sy_todo := tc_actions (sy_node st); sy_sent := sy_sent st; sy_up := sy_up st;
     sy_relay := sy_relay st; sy_down := sy_down st |}.

(** It is done with the first of them, which has sent [requests]. *)
Definition next_action (requests : list DelegationRequest) (st : system) : system :=
  {| sy_node := sy_node st; sy_todo := tail (sy_todo st); sy_sent := sy_sent st ++ requests;
     sy_up := sy_up st ++ requests; sy_relay := sy_relay st; sy_down := sy_down st |}.

(** An operation of the relay's lease, with the requests that are left for it. *)
Definition relay_event (op : lease_op C) (up : list DelegationRequest) (st : system) : system :=
  {| sy_node := sy_node st; sy_todo := sy_todo st; sy_sent := sy_sent st; sy_up := up;
     sy_relay := (lease_step Create op (sy_relay st)).2; sy_down := sy_down st |}.

(** The relay writes its replies. *)
Definition relay_output (st : system) : system :=
  {| sy_node := sy_node st; sy_todo := sy_todo st; sy_sent := sy_sent st; sy_up := sy_up st;
     sy_relay := (lease_step Create OpTakeOutput (sy_relay st)).2;
     sy_down := sy_down st ++ omap decoded (dl_output (sy_relay st)) |}.

(** The steps; a step of the coordinator presumes that its 64-bit generation is
    not exhausted.  Requests arrive in the order in which they were sent; replies
    that arrive have been written by the relay, in whatever order and any number of
    times.  An action may be dropped, as [ApplyActions] does with one of an earlier
    generation. *)
Inductive system_step : system → system → Prop :=
  | sys_local op st :
      local_op op → ts_Generation (tc_status (sy_node st)) < 2 ^ 64 - 1 →
      system_step st (node_event op st)
  | sys_reply p st :
      p ∈ sy_down st → ts_Generation (tc_status (sy_node st)) < 2 ^ 64 - 1 →
      system_step st (node_event (OpReply p) st)
  | sys_take st : sy_todo st = [] → system_step st (take_actions st)
  | sys_skip st : system_step st (next_action [] st)
  | sys_send a r rest st :
      sy_todo st = a :: rest → ta_Generation a = ts_Generation (tc_status (sy_node st)) →
      ta_Delegation a = Some r → system_step st (next_action [r] st)
  | sys_accept r rest before now later st :
      sy_up st = r :: rest → Request_wf r →
      system_step st (relay_event (OpAccept r before now later) rest st)
  | sys_relay op st :
      relay_op op → lease_op_ok ok (sy_relay st) op → system_step st (relay_event op (sy_up st) st)
  | sys_output st : system_step st (relay_output st).

(** A connection starts with a fresh lease, at any time of the node's life. *)
Inductive system_reachable (clock : nat → Z) : system → Prop :=
  | sys_start node d :
      node_reachable clock node → derps_inv ok d →
      system_reachable clock {| sy_node := node; sy_todo := []; sy_sent := []; sy_up := [];
        sy_relay := lease_initial d; sy_down := [] |}
  | sys_step st st' :
      system_reachable clock st → system_step st st' → system_reachable clock st'.

(** A release reported for generation [g] binds the relay: it has taken a request
    of that generation or a later one, and its connections are disabled unless a
    request to acquire them, of that generation or later, was sent. *)
Record bound (g : Z) (st : system) : Prop := {
  bo_request : ∃ r, dl_request (sy_relay st) = Some r ∧ g <= rq_Generation r;
  bo_released : ∃ r, r ∈ sy_sent st ∧ rq_Action r = Action_Release ∧ rq_Generation r = g;
  bo_disabled : (∀ r, r ∈ sy_sent st → g <= rq_Generation r → rq_Action r ≠ Action_Acquire) →
    dc_enabled (dl_derps (sy_relay st)) = false
}.

Definition heard (st : system) (p : DelegationReply) : Prop :=
  rp_Status p = Status_Released → bound (rp_Generation p) st.

Record system_inv (st : system) : Prop := {
  sv_node : node_ok (sy_node st);
  sv_todo : requests_ok (sy_node st) (sy_todo st);
  sv_sent : Forall (current (sy_node st)) (sy_sent st);
  sv_up : sy_up st ⊆ sy_sent st;
  sv_lease : lease_inv ok (sy_relay st);
  sv_holds : release_holds (sy_relay st);
  sv_request : ∀ r, dl_request (sy_relay st) = Some r → r ∈ sy_sent st;
  sv_output : Forall (fun f => ∀ p, decoded f = Some p → heard st p) (dl_output (sy_relay st));
  sv_down : Forall (heard st) (sy_down st)
}.

(** The relay side of a step that keeps [sy_sent]. *)
Lemma bound_moved g st st' request :
  moved request (sy_relay st) (sy_relay st') → sy_sent st' = sy_sent st →
  (∀ r, request = Some r → r ∈ sy_sent st) → bound g st → bound g st'.
Proof.
  intros Hm Hsent Hreq [(r0 & Hr0 & Hg0) Hrel Hdis].
  destruct (mv_request _ _ _ Hm) as [Hsame|(r & Hr & Hr' & Hge)].
  - constructor; rewrite ?Hsent, ?Hsame; [by eauto|done|]. intros Hno. specialize (Hdis Hno).
    destruct (dc_enabled (dl_derps (sy_relay st'))) eqn:E; [|done].
    destruct (mv_enabled _ _ _ Hm E) as [?|(r & Hr & Ha & Hr')]; [congruence|].
    exfalso. rewrite Hsame, Hr0 in Hr'. injection Hr' as ->. by apply (Hno r (Hreq r Hr)).
  - specialize (Hge r0 Hr0). constructor; rewrite ?Hsent; [exists r; split; [done|lia]|done|].
    intros Hno. specialize (Hdis Hno).
    destruct (dc_enabled (dl_derps (sy_relay st'))) eqn:E; [|done].
    destruct (mv_enabled _ _ _ Hm E) as [?|(r1 & Hr1 & Ha & Hr1')]; [congruence|].
    exfalso. assert (r1 = r) as -> by congruence. apply (Hno r (Hreq r Hr)); [lia|done].
Qed.

(** More requests sent, the relay the same. *)
Lemma bound_sent g st st' :
  sy_relay st' = sy_relay st → sy_sent st ⊆ sy_sent st' → bound g st → bound g st'.
Proof.
  intros Hr Hs [Hreq (r & Hin & ?) Hdis]. constructor; rewrite ?Hr; [done|exists r; auto|].
  intros Hno. apply Hdis. intros r' Hr'. by apply Hno, Hs.
Qed.

(** A reported release of the current request binds the relay. *)
Lemma said_heard st p :
  release_holds (sy_relay st) → (∀ r, dl_request (sy_relay st) = Some r → r ∈ sy_sent st) →
  said (sy_relay st) p → heard st p.
Proof.
  intros Hh Hreq Hs Hst. destruct (Hs Hst) as (r & Hr & Ha & Hg). constructor.
  - exists r. split; [done|lia].
  - exists r. auto.
  - intros _. by apply (Hh r).
Qed.

Lemma heard_mono st st' p : (∀ g, bound g st → bound g st') → heard st p → heard st' p.
Proof. intros Hb Hp Hst. by apply Hb, Hp. Qed.

(** A step of the node: the relay and what it has written stay. *)
Lemma system_inv_node st st' :
  system_inv st → sy_relay st' = sy_relay st → sy_down st' = sy_down st → sy_sent st ⊆ sy_sent st' →
  node_ok (sy_node st') → requests_ok (sy_node st') (sy_todo st') →
  Forall (current (sy_node st')) (sy_sent st') → sy_up st' ⊆ sy_sent st' → system_inv st'.
Proof.
  intros [] Hr Hd Hs ????.
  assert (∀ g, bound g st → bound g st') as Hb by (intros g; by apply bound_sent).
  constructor; rewrite ?Hr, ?Hd; try done.
  - intros r Hr'. by apply Hs, sv_request0.
  - eapply Forall_impl; [exact sv_output0|]. intros f Hf p Hp'. by eapply heard_mono, Hf.
  - eapply Forall_impl; [exact sv_down0|]. intros p. by apply heard_mono.
Qed.

(** The requests that the node has taken or sent after an event. *)
Lemma sent_kept st s' :
  system_inv st → aim_kept (sy_node st) s' →
  requests_ok s' (sy_todo st) ∧ Forall (current s') (sy_sent st).
Proof.
  intros [] Hk. split; [by eapply requests_ok_kept|].
  eapply Forall_impl; [exact sv_sent0|]. intros r. by apply current_kept.
Qed.

(** A step of the relay alone. *)
Lemma system_inv_relay st up relay request :
  system_inv st → moved request (sy_relay st) relay → lease_inv ok relay → up ⊆ sy_up st →
  (∀ r, request = Some r → r ∈ sy_sent st) →
  system_inv {| sy_node := sy_node st; sy_todo := sy_todo st; sy_sent := sy_sent st; sy_up := up;
    sy_relay := relay; sy_down := sy_down st |}.
Proof.
  intros [] Hm Hl Hup Hreq. set (st' := {| sy_node := _ |}).
  assert (∀ g, bound g st → bound g st') as Hb by (intros g; by apply (bound_moved g st st' request)).
  assert (∀ r, dl_request relay = Some r → r ∈ sy_sent st) as Hreq'.
  { intros r Hr. destruct (mv_request _ _ _ Hm) as [Hs|(r' & Hr1 & Hr2 & _)]; [apply sv_request0; congruence|].
    apply Hreq. congruence. }
  pose proof (mv_release _ _ _ Hm sv_holds0) as Hh.
  constructor; simpl; try done.
  - by etrans.
  - destruct (mv_output _ _ _ Hm) as (new & -> & Hnew). apply Forall_app. split.
    + eapply Forall_impl; [exact sv_output0|]. intros f Hf p Hp. by eapply heard_mono, Hf.
    + eapply Forall_impl; [exact Hnew|]. intros f (p & Hd & Hs) p' Hp'.
      unfold decoded in Hp'. rewrite Hd in Hp'. injection Hp' as <-. by apply said_heard.
  - eapply Forall_impl; [exact sv_down0|]. intros p. by apply heard_mono.
Qed.

Lemma system_inv_step st st' : system_inv st → system_step st st' → system_inv st'.
Proof.
  intros Hi Hstep. destruct Hstep as [op st Hop Hlt|p st Hp Hlt|st Ht|st|a r rest st Ht Hg Hd
    |r rest before now later st Hup Hwf|op st Hop Hok|st].
  - destruct (node_ok_step op _ (sv_node _ Hi) Hlt) as [Hn Hk].
    destruct (sent_kept st _ Hi Hk). apply (system_inv_node st); simpl; auto. apply Hi.
  - destruct (node_ok_step (OpReply p) _ (sv_node _ Hi) Hlt) as [Hn Hk].
    destruct (sent_kept st _ Hi Hk). apply (system_inv_node st); simpl; auto. apply Hi.
  - pose proof Hi as [[]]. apply (system_inv_node st); simpl; auto. by split; [|constructor].
  - pose proof Hi as []. apply (system_inv_node st); simpl; rewrite ?app_nil_r; auto.
    by apply Forall_tail.
  - pose proof Hi as []. rewrite Ht in sv_todo0. apply Forall_cons in sv_todo0 as [Ha Hrest].
    apply (system_inv_node st); simpl; rewrite ?Ht; auto; [set_solver| |set_solver].
    apply Forall_snoc_2; [done|]. by apply Ha.
  - apply (system_inv_relay st rest _ (Some r)); [done| | |rewrite Hup; set_solver|].
    + apply (moved_step ok Create Create_ok (OpAccept r before now later)); [apply Hi|done|done].
    + apply (lease_inv_step ok Create Create_ok); [apply Hi|done].
    + intros r' [= <-]. apply (sv_up _ Hi). rewrite Hup. left.
  - apply (system_inv_relay st _ _ (op_request op)); [done| | |done|by destruct op].
    + apply (moved_step ok Create Create_ok); [apply Hi|done|by destruct op].
    + apply (lease_inv_step ok Create Create_ok); [apply Hi|done].
  - pose proof (lease_inv_step ok Create Create_ok _ OpTakeOutput (sv_lease _ Hi) I) as Hl.
    destruct Hi. assert (∀ g, bound g st → bound g (relay_output st)) as Hb by (intros g []; by constructor).
    constructor; simpl; try done.
    + apply Forall_app. split.
      * eapply Forall_impl; [exact sv_down0|]. intros p. by apply heard_mono.
      * apply Forall_forall. intros p (f & Hf & Hp)%list_elem_of_omap. rewrite Forall_forall in sv_output0.
        eapply heard_mono; [done|]. by apply (sv_output0 f).
Qed.

Lemma system_reachable_inv clock st : system_reachable clock st → system_inv st.
Proof.
  induction 1 as [node d Hn Hd|st st' _ IH Hs]; [|by eapply system_inv_step].
  pose proof (node_reachable_ok _ _ Hn).
  assert (lease_inv ok (lease_initial d)).
  { apply (lease_reachable_inv ok Create Create_ok). by apply reach_initial. }
  constructor; simpl; try done; constructor.
Qed.

(** Within its generation a release that the relay has written excludes every
    request to acquire. *)
Lemma released_disabled st p :
  system_inv st → p ∈ sy_down st → rp_Status p = Status_Released →
  rp_Generation p = ts_Generation (tc_status (sy_node st)) →
  dc_enabled (dl_derps (sy_relay st)) = false.
Proof.
  intros [] Hp Hst Hg. rewrite Forall_forall in sv_down0. rewrite Forall_forall in sv_sent0.
  destruct (sv_down0 p Hp Hst) as [_ (r & Hr & Ha & Hgr) Hdis]. apply Hdis.
  intros r' Hr' Hle Ha'. destruct (sv_sent0 r Hr) as [_ Haim]. destruct (sv_sent0 r' Hr') as [Hle' Haim'].
  destruct (Haim ltac:(lia)) as [_ Hn]. destruct (Haim' ltac:(lia)) as [Hh _].
  specialize (Hn Ha). specialize (Hh Ha'). congruence.
Qed.

(** No DERP connection of the relay is enabled. *)
Definition relay_idle (s : DelegationLease C) : Prop :=
  dc_enabled (dl_derps s) = false
  ∧ ∀ e d, e ∈ dc_entries (dl_derps s) →
      dc_session (dl_derps s) !! Z.to_nat (de_Connection e) = Some d →
      conn_Enabled (ds_Connection d) = false.

Lemma disabled_idle s : lease_inv ok s → dc_enabled (dl_derps s) = false → relay_idle s.
Proof.
  intros Hinv He. split; [done|]. intros e d Hin Hd.
  pose proof (di_enabled ok _ (li_derps ok s Hinv)) as Hen. rewrite Forall_forall in Hen.
  by rewrite (Hen e Hin d Hd).
Qed.

(** C1: in every interleaving of a node's coordinator and its relay's lease, with
    requests delayed and replies delayed, reordered and repeated, once the relay has
    written that it released the connections in the node's current generation none
    of its DERP connections is enabled for as long as that generation lasts. *)
Theorem Handover_release_excludes clock st p :
  system_reachable clock st → p ∈ sy_down st → rp_Status p = Status_Released →
  rp_Generation p = ts_Generation (tc_status (sy_node st)) → relay_idle (sy_relay st).
Proof.
  intros Hr Hp Hst Hg. pose proof (system_reachable_inv clock st Hr) as Hinv.
  apply disabled_idle; [apply Hinv|]. by eapply released_disabled.
Qed.

(** C2: whenever a reply of the relay makes the coordinator emit [ActivateNative]
    with no [RetireHosted] before it, all DERP connections of the relay are disabled
    at that moment: the two sides never own them at once. *)
Theorem Handover_activation_exclusive clock st p l1 a l2 :
  system_reachable clock st → p ∈ sy_down st →
  emitted (OpReply p) (sy_node st) = l1 ++ a :: l2 → ta_Kind a = Kind_ActivateNative →
  Forall (fun b => ta_Kind b ≠ Kind_RetireHosted) l1 → relay_idle (sy_relay st).
Proof.
  intros Hr Hp Hl Ha Hno. rewrite Forall_forall in Hno.
  destruct (emitted_activation (OpReply p) (sy_node st)) as [Hret|(r & _ & _ & Hst & Hg & _)].
  - destruct (retires_first_spec _ _ _ _ _ Hret Hl Ha) as [?|(b & Hb & Hk)]; [done|].
    by destruct (Hno b Hb).
  - pose proof (system_reachable_inv clock st Hr) as Hinv.
    apply disabled_idle; [apply Hinv|]. by eapply released_disabled.
Qed.

End exclusion.

Arguments system C : clear implicits.

(** ** A concrete handover to native mode *)

Definition demo_connect : system bool :=
  {| sy_node := TransitionCoordinator_initial demo_clock Mode_Hosted; sy_todo := []; sy_sent := [];
     sy_up := []; sy_relay := lease_initial no_derps; sy_down := [] |}.

(** The relay learns of a region and its map, and the node starts the transition. *)
Definition demo_begin : system bool :=
  node_event (OpMapApplied 1) (node_event (OpBegin Mode_Native 1 [7] true)
    (relay_event loopback_create (OpApplyMap 1) []
      (relay_event loopback_create (OpEnsure 7 [100; 52] true) [] demo_connect))).

(** The node applies [n] actions, the last of which sends [r]; the relay accepts
    it and writes its reply. *)
Definition demo_exchange (n : nat) (r : DelegationRequest) (st : system bool) : system bool :=
  relay_output loopback_create (relay_event loopback_create (OpAccept r 0 10 20) []
    (next_action [r] (Nat.iter n (next_action []) (take_actions st)))).

Definition demo_ask (id : Z) (a : DelegationAction) : DelegationRequest :=
  {| rq_Generation := 1; rq_RequestId := id; rq_MapRevision := 1; rq_Action := a;
     rq_Regions := [7] |}.

Lemma demo_ask_wf id a : id = 1 ∨ id = 2 → Request_wf (demo_ask id a).
Proof. intros Hid. split_and!; try done; simpl; [unfold identity_wf, in_width; lia|by forall_intro]. Qed.

(** The relay has released and its reply is under way. *)
Definition demo_handover : system bool :=
  demo_exchange 0 (demo_ask 2 Action_Release) (node_event (OpReply (demo_reply 1 Status_Prepared))
    (demo_exchange 1 (demo_ask 1 Action_Prepare) (node_event (OpPrepared 1 true) demo_begin))).

Lemma tail_drop {A} m (l : list A) : tail (drop m l) = drop (S m) l.
Proof. revert l. induction m as [|m IH]; intros [|x l]; try done. apply IH. Qed.

Lemma demo_skip_reachable m st :
  sy_todo st = [] → sy_up st = [] → system_reachable (fun _ => True) loopback_create demo_clock st →
  let st' := Nat.iter m (next_action []) (take_actions st) in
  system_reachable (fun _ => True) loopback_create demo_clock st'
  ∧ sy_todo st' = drop m (tc_actions (sy_node st))
  ∧ tc_status (sy_node st') = tc_status (sy_node st) ∧ sy_up st' = [].
Proof.
  intros Ht Hup Hst. induction m as [|m (IH1 & IH2 & IH3 & IH4)].
  - split_and!; [|done..]. eapply sys_step; [exact Hst|by apply sys_take].
  - split_and!; [eapply sys_step; [exact IH1|apply sys_skip]|simpl..]; [|done|].
    + by rewrite IH2, tail_drop.
    + by rewrite IH4.
Qed.

Lemma demo_exchange_reachable n r a st :
  Request_wf r → sy_todo st = [] → sy_up st = [] → tc_actions (sy_node st) !! n = Some a →
  ta_Generation a = ts_Generation (tc_status (sy_node st)) → ta_Delegation a = Some r →
  system_reachable (fun _ => True) loopback_create demo_clock st →
  system_reachable (fun _ => True) loopback_create demo_clock (demo_exchange n r st).
Proof.
  intros Hwf Ht Hup Ha Hg Hd Hst.
  destruct (demo_skip_reachable n st Ht Hup Hst) as (H1 & H2 & H3 & H4).
  eapply sys_step; [|by apply sys_output]. eapply sys_step; [|apply sys_accept; [|done]].
  - eapply sys_step; [exact H1|]. eapply sys_send; [rewrite H2; by apply drop_S|by rewrite H3|done].
  - simpl. by rewrite H4.
Qed.

Lemma demo_handover_reachable :
  system_reachable (fun _ => True) loopback_create demo_clock demo_handover.
Proof.
  unfold demo_handover.
  eapply demo_exchange_reachable; [apply demo_ask_wf; by right|vm_compute; reflexivity..|].
  eapply sys_step; [|apply sys_reply; [|done]]; [|vm_compute; left].
  eapply demo_exchange_reachable; [apply demo_ask_wf; by left|vm_compute; reflexivity..|].
  unfold demo_begin.
  do 3 (eapply sys_step; [|by apply sys_local]).
  do 2 (eapply sys_step; [|by apply (sys_relay (fun _ => True) loopback_create)]).
  apply sys_start; [apply node_initial|apply no_derps_inv].
Qed.

Lemma Handover_release_excludes_witness :
  demo_reply 2 Status_Released ∈ sy_down demo_handover
  ∧ zlen (dc_entries (dl_derps (sy_relay demo_handover))) = 1
  ∧ relay_idle (sy_relay demo_handover).
Proof.
  assert (demo_reply 2 Status_Released ∈ sy_down demo_handover) as Hin by (vm_compute; right; left).
  split_and!; [done|vm_compute; reflexivity|].
  apply (Handover_release_excludes (fun _ => True) loopback_create loopback_create_ok demo_clock
    demo_handover (demo_reply 2 Status_Released)).
  - apply demo_handover_reachable.
  - exact Hin.
  - reflexivity.
  - vm_compute. reflexivity.
Defined.

Lemma Handover_activation_exclusive_witness :
  emitted (OpReply (demo_reply 2 Status_Released)) (sy_node demo_handover)
  = [{| ta_Kind := Kind_ActivateNative; ta_Generation := 1; ta_Delegation := None |}]
  ∧ relay_idle (sy_relay demo_handover).
Proof.
  split; [vm_compute; reflexivity|].
  apply (Handover_activation_exclusive (fun _ => True) loopback_create loopback_create_ok demo_clock
    demo_handover (demo_reply 2 Status_Released) []
    {| ta_Kind := Kind_ActivateNative; ta_Generation := 1; ta_Delegation := None |} []).
  - apply demo_handover_reachable.
  - vm_compute. right. left.
  - vm_compute. reflexivity.
  - reflexivity.
  - constructor.
Defined.
