(* ===== verification/Dns.v ===== *)
(** * DNS messages and the resolution of trusted names

    src/core/net/dns/Dns.cpp: the query builder and parser, the answer parser with
    its compressed names and alias chains, the suffix test, and the resolution of a
    target over a chain of queries; src/core/net/dns/ResolverSelection.cpp.

    Names are byte strings.  Offsets into a message are sums of a size and a few
    16-bit lengths and do not wrap.  [boost::algorithm::to_lower] is a parameter, a
    function on the characters of a name. *)

From S2P Require Import Prelude Text Net DerpClient.

Definition DnsHeaderSize : Z := 12.
Definition MaximumDnsNameDepth : nat := 32.
Definition DnsResponseFlag : Z := 0x80.
Definition DnsResponseCodeMask : Z := 0x0f.
Definition DnsTypeA : Z := 1.
Definition DnsTypeCname : Z := 5.
Definition DnsTypeDname : Z := 39.

(** [message[offset] << 8 | message[offset + 1]], guarded. *)
Definition Dns_Read16 (message : bytes) (offset : Z) : outcome Z :=
  if zlen message <? offset + 2 then Throw (RuntimeError "Truncated DNS message.") else
  let! high := rd message offset in
  let! low := rd message (offset + 1) in
  Ok (Z.lor (Z.shiftl high 8) low).

(** [if (!result.empty()) result.push_back('.')] *)
Definition dot_after (result : bytes) : bytes :=
  match result with [] => [] | _ => result ++ [chr_dot] end.

(** The loop of [ReadName]; [deeper] reads the name at a pointer, one level down. *)
Fixpoint ReadName_loop (deeper : Z → outcome (bytes * Z)) (fuel : nat) (message : bytes)
    (offset : Z) (result : bytes) : outcome (bytes * Z) :=
  match fuel with
  | O => UB
  | S fuel' =>
      if zlen message <=? offset then Throw (RuntimeError "Unterminated DNS name.") else
      let! length := rd message offset in
      let offset := offset + 1 in
      if length =? 0 then Ok (result, offset) else
      if Z.land length 0xc0 =? 0xc0 then
        if zlen message <=? offset then Throw (RuntimeError "Truncated DNS name pointer.") else
        let! low := rd message offset in
        let pointer := Z.lor (Z.shiftl (Z.land length 0x3f) 8) low in
        let! (suffix, _) := deeper pointer in
        Ok ((match suffix with [] => result | _ => dot_after result end) ++ suffix, offset + 1)
      else if negb (Z.land length 0xc0 =? 0) || (63 <? length) || (zlen message <? offset + length)
      then Throw (RuntimeError "Invalid DNS label.") else
      let! label := slice message offset (offset + length) in
      ReadName_loop deeper fuel' message (offset + length) (dot_after result ++ label)
  end.

(** [ReadName] with [levels] levels of compression left. *)
Fixpoint ReadName (levels : nat) (message : bytes) (offset : Z) : outcome (bytes * Z) :=
  match levels with
  | O => Throw (RuntimeError "DNS name compression loop.")
  | S levels' => ReadName_loop (ReadName levels' message) (S (length message)) message offset []
  end.

Record ResourceRecord := {
  rr_Name : bytes;
  rr_Type : Z;
  rr_NameValue : bytes;
  rr_Address : bytes
}.

Record DnsAnswer := { da_CanonicalName : bytes; da_Addresses : list bytes }.

Record DnsTarget := { dt_ValidationName : bytes; dt_ConnectAddress : bytes }.

Record DnsRoute := { rou_Suffix : bytes; rou_Resolvers : list bytes }.

Record ResolverSelection := { rs_Address : bytes; rs_RouteMatched : bool }.

Section dns.
  Context (lower : Z → Z).

Definition Dns_NormalizeName (value : bytes) : bytes :=
  map lower (match last value with
             | Some c => if c =? chr_dot then removelast value else value
             | None => value
             end).

(** ** Queries *)

Fixpoint DnsQuery_Name_loop (fuel : nat) (message : bytes) (offset : Z) (result : bytes)
    : outcome (option (bytes * Z)) :=
  match fuel with
  | O => UB
  | S fuel' =>
      if zlen message <=? offset then Ok (Some (result, offset)) else
      let! length := rd message offset in
      if length =? 0 then Ok (Some (result, offset)) else
      let offset := offset + 1 in
      if (63 <? length) || (zlen message <? offset + length) then Ok None else
      let! label := slice message offset (offset + length) in
      DnsQuery_Name_loop fuel' message (offset + length) (dot_after result ++ label)
  end.

Definition DnsQuery_Name (message : bytes) : outcome (option bytes) :=
  if zlen message <? DnsHeaderSize then Ok None else
  let! high := rd message 4 in
  let! low := rd message 5 in
  if Z.lor (Z.shiftl high 8) low =? 0 then Ok None else
  let! read := DnsQuery_Name_loop (S (length message)) message DnsHeaderSize [] in
  match read with
  | None => Ok None
  | Some (result, offset) =>
      if (zlen message <=? offset) || (zlen message <? offset + 1 + 4) then Ok None
      else Ok (Some (map lower result))
  end.

(** The loop of [Build], on the part of the name from [start]. *)
Fixpoint Build_labels (fuel : nat) (rest result : bytes) : outcome bytes :=
  match fuel with
  | O => UB
  | S fuel' =>
      match rest with
      | [] => Ok result
      | _ =>
          let n := default (length rest) (find_char chr_dot rest) in
          if (n =? 0)%nat || (63 <? n)%nat then Throw (InvalidArgument "Invalid DNS query name.") else
          Build_labels fuel' (drop (S n) rest) (result ++ Z.of_nat n :: take n rest)
      end
  end.

Definition DnsQuery_Build (name : bytes) (transactionId : Z) : outcome bytes :=
  let header := [u8 (Z.shiftr transactionId 8); u8 transactionId; 1; 0; 0; 1; 0; 0; 0; 0; 0; 0] in
  let normalized := Dns_NormalizeName name in
  let! result := Build_labels (S (length normalized)) normalized header in
  Ok (result ++ [0; 0; DnsTypeA; 0; 1]).

(** ** Answers *)

Definition DnsNameHasSuffix (name suffix : bytes) : bool :=
  let normalizedName := Dns_NormalizeName name in
  let normalizedSuffix := Dns_NormalizeName suffix in
  let prefix := (length normalizedName - length normalizedSuffix)%nat in
  bool_decide (normalizedName = normalizedSuffix)
  || ((length normalizedSuffix <? length normalizedName)%nat
      && bool_decide (drop prefix normalizedName = normalizedSuffix)
      && bool_decide (normalizedName !! (prefix - 1)%nat = Some chr_dot)).

Fixpoint Parse_questions (count : nat) (message : bytes) (offset : Z) : outcome Z :=
  match count with
  | O => Ok offset
  | S count' =>
      let! (_, offset) := ReadName MaximumDnsNameDepth message offset in
      if zlen message <? offset + 4 then Throw (RuntimeError "Truncated DNS question.") else
      Parse_questions count' message (offset + 4)
  end.

(** [std::format("{}.{}.{}.{}", ...)] *)
Definition format_quad (a b c d : Z) : bytes :=
  format_dec a ++ chr_dot :: format_dec b ++ chr_dot :: format_dec c ++ chr_dot :: format_dec d.

(** The data of a record: the name of an alias, or an address. *)
Definition Parse_data (message : bytes) (type length offset : Z) : outcome (bytes * bytes) :=
  if ((type =? DnsTypeCname) || (type =? DnsTypeDname)) && negb (length =? 0) then
    let! (value, _) := ReadName MaximumDnsNameDepth message offset in
    Ok (Dns_NormalizeName value, [])
  else if (type =? DnsTypeA) && (length =? 4) then
    let! a := rd message offset in
    let! b := rd message (offset + 1) in
    let! c := rd message (offset + 2) in
    let! d := rd message (offset + 3) in
    Ok ([], format_quad a b c d)
  else Ok ([], []).

Fixpoint Parse_answers (count : nat) (message : bytes) (offset : Z) (records : list ResourceRecord)
    : outcome (list ResourceRecord) :=
  match count with
  | O => Ok records
  | S count' =>
      let! (name, offset) := ReadName MaximumDnsNameDepth message offset in
      if zlen message <? offset + 10 then Throw (RuntimeError "Truncated DNS answer.") else
      let! type := Dns_Read16 message offset in
      let! length := Dns_Read16 message (offset + 8) in
      let offset := offset + 10 in
      if zlen message <? offset + length
      then Throw (RuntimeError "Truncated DNS answer data.") else
      let! (value, address) := Parse_data message type length offset in
      Parse_answers count' message (offset + length)
        (records ++ [{| rr_Name := Dns_NormalizeName name; rr_Type := type;
                        rr_NameValue := value; rr_Address := address |}])
  end.

(** [s.substr(0, count)] *)
Definition substr0 (s : bytes) (count : Z) : bytes :=
  if zlen s <=? count then s else take (Z.to_nat count) s.

(** One pass over the records: the first alias of the name. *)
Fixpoint alias_of (records : list ResourceRecord) (canonicalName : bytes) : option bytes :=
  match records with
  | [] => None
  | record :: rest =>
      if (rr_Type record =? DnsTypeCname) && bool_decide (rr_Name record = canonicalName)
      then Some (rr_NameValue record)
      else if (rr_Type record =? DnsTypeDname) && DnsNameHasSuffix canonicalName (rr_Name record)
      then Some (substr0 canonicalName (u64 (zlen canonicalName - zlen (rr_Name record)))
                 ++ rr_NameValue record)
      else alias_of rest canonicalName
  end.

Fixpoint follow_aliases (passes : nat) (records : list ResourceRecord) (canonicalName : bytes)
    : bytes :=
  match passes with
  | O => canonicalName
  | S passes' =>
      match alias_of records canonicalName with
      | None => canonicalName
      | Some name => follow_aliases passes' records name
      end
  end.

Definition record_address (canonicalName : bytes) (record : ResourceRecord) : option bytes :=
  if (rr_Type record =? DnsTypeA) && bool_decide (rr_Name record = canonicalName)
  then Some (rr_Address record) else None.

Definition DnsAnswer_Parse (message : bytes) (transactionId : Z) (queriedName : bytes)
    : outcome DnsAnswer :=
  let mismatch := Throw (RuntimeError "DNS response transaction does not match.") in
  if zlen message <? DnsHeaderSize then mismatch else
  let! id := Dns_Read16 message 0 in
  if negb (id =? transactionId) then mismatch else
  let! flags := rd message 2 in
  if Z.land flags DnsResponseFlag =? 0
  then Throw (RuntimeError "DNS query returned a message without the response flag.") else
  let! b3 := rd message 3 in
  let responseCode := Z.land b3 DnsResponseCodeMask in
  if negb (responseCode =? 0)
  then Throw (DnsResponseError (Dns_NormalizeName queriedName) responseCode) else
  let! questionCount := Dns_Read16 message 4 in
  let! answerCount := Dns_Read16 message 6 in
  let! offset := Parse_questions (Z.to_nat questionCount) message DnsHeaderSize in
  let! records := Parse_answers (Z.to_nat answerCount) message offset [] in
  let canonicalName := follow_aliases (length records) records (Dns_NormalizeName queriedName) in
  Ok {| da_CanonicalName := canonicalName;
        da_Addresses := omap (record_address canonicalName) records |}.

(** ** Resolution *)

Definition DnsNameUsesTrustedResolver (name : bytes) : bool := DnsNameHasSuffix name (lit "ts.net").

Section resolve.
  Context {S : Type} (query : bytes → eff S DnsAnswer).

Fixpoint ResolveDnsChain_loop (queries : nat) (current : bytes) : eff S DnsAnswer :=
  match queries with
  | O => ethrow (RuntimeError "Trusted DNS alias chain is too deep.")
  | Datatypes.S queries' =>
      let* answer := query current in
      let canonicalName := Dns_NormalizeName (da_CanonicalName answer) in
      if negb (bool_decide (da_Addresses answer = [])) || bool_decide (canonicalName = current)
      then eret {| da_CanonicalName := canonicalName; da_Addresses := da_Addresses answer |}
      else if bool_decide (canonicalName = [])
      then ethrow (RuntimeError "Trusted DNS returned an empty canonical name.")
      else ResolveDnsChain_loop queries' canonicalName
  end.

Definition ResolveDnsChain (name : bytes) (maximumQueries : nat) : eff S DnsAnswer :=
  if (maximumQueries =? 0)%nat then ethrow (InvalidArgument "DNS query limit must be positive.") else
  ResolveDnsChain_loop maximumQueries (Dns_NormalizeName name).

Definition ResolveDnsTarget (name : bytes) (addressIndex : Z) (maximumQueries : nat)
    : eff S DnsTarget :=
  let* answer := ResolveDnsChain name maximumQueries in
  let validationName := da_CanonicalName answer in
  if negb (DnsNameUsesTrustedResolver validationName)
  then eret {| dt_ValidationName := validationName; dt_ConnectAddress := validationName |} else
  if bool_decide (da_Addresses answer = [])
  then ethrow (RuntimeError "Trusted DNS returned no address.") else
  let* address := elift (rd (da_Addresses answer) (addressIndex mod zlen (da_Addresses answer))) in
  eret {| dt_ValidationName := validationName; dt_ConnectAddress := address |}.

End resolve.

(** The query over a TLS stream; [keys] are the random keys that
    [crypto::GeneratePrivateKey] returns, the second component of the state counts
    those used. *)
Definition with_stream {S A} (m : eff S A) : eff (S * nat) A := fun s =>
  let '(r, stream) := m (s.1) in (r, (stream, s.2)).

Definition tls_query {S} `{!ByteStream S} (keys : nat → bytes) (current : bytes)
    : eff (S * nat) DnsAnswer :=
  let* s := eget in
  emod (fun s => (s.1, Datatypes.S s.2)) ;;*
  let* high := elift (rd (keys s.2) 0) in
  let* low := elift (rd (keys s.2) 1) in
  let transactionId := Z.lor (Z.shiftl high 8) low in
  let* message := elift (DnsQuery_Build current transactionId) in
  if 65535 <? zlen message
  then ethrow (LengthError "DNS-over-TLS query exceeds the message size limit.") else
  with_stream (ByteStream_WriteAll
    (u8 (Z.shiftr (zlen message) 8) :: u8 (zlen message) :: message)) ;;*
  let* length := with_stream (ByteStream_ReadExact 2) in
  let* l0 := elift (rd length 0) in
  let* l1 := elift (rd length 1) in
  let responseSize := Z.lor (Z.shiftl l0 8) l1 in
  let* response := with_stream (ByteStream_ReadExact responseSize) in
  elift (DnsAnswer_Parse response transactionId current).

Definition ResolveDnsOverTlsTarget {S} `{!ByteStream S} (keys : nat → bytes) (name : bytes)
    (addressIndex : Z) (maximumQueries : nat) : eff (S * nat) DnsTarget :=
  ResolveDnsTarget (tls_query keys) name addressIndex maximumQueries.

(** ** Resolver selection *)

(** The loop over the routes: a route at least as long as the selected one
    replaces it. *)
Fixpoint select_route (name : option bytes) (routes : list DnsRoute) (selected : option (list bytes))
    (selectedSuffixLength : Z) : option (list bytes) :=
  match routes with
  | [] => selected
  | route :: rest =>
      match name with
      | Some n =>
          if (selectedSuffixLength <=? zlen (rou_Suffix route)) && DnsNameHasSuffix n (rou_Suffix route)
          then select_route name rest (Some (rou_Resolvers route)) (zlen (rou_Suffix route))
          else select_route name rest selected selectedSuffixLength
      | None => select_route name rest selected selectedSuffixLength
      end
  end.

Definition first_or (primaryResolver : bytes) (resolvers : list bytes) : bytes :=
  match resolvers with [] => primaryResolver | r :: _ => r end.

Definition SelectResolver (query primaryResolver : bytes) (routes : list DnsRoute)
    (defaultResolvers : list bytes) : outcome (option ResolverSelection) :=
  let! name := DnsQuery_Name query in
  let '(address, matched) :=
    match select_route name routes None 0 with
    | Some resolvers => (first_or primaryResolver resolvers, true)
    | None => (first_or primaryResolver defaultResolvers, false)
    end in
  Ok (match address with
      | [] => None
      | _ => Some {| rs_Address := address; rs_RouteMatched := matched |}
      end).

(** ** Names on the wire *)

(** The labels of a name, each with its length. *)
Definition wire (labels : list bytes) : bytes := concat (map (fun l => zlen l :: l) labels).

(** The name as the parsers put it together, and its part after the first label. *)
Definition joined (result : bytes) (labels : list bytes) : bytes :=
  foldl (fun r l => dot_after r ++ l) result labels.
Definition dotted (labels : list bytes) : bytes := concat (map (cons chr_dot) labels).

Definition label_ok (l : bytes) : Prop := 0 < zlen l <= 63.

Lemma joined_dotted result labels :
  result ≠ [] → Forall label_ok labels → joined result labels = result ++ dotted labels.
Proof.
  intros Hr Hl. revert result Hr. induction Hl as [|l labels Hl _ IH]; intros result Hr.
  { unfold dotted. simpl. by rewrite app_nil_r. }
  unfold joined in *. simpl. rewrite IH by (destruct result; simpl; by try destruct l).
  unfold dotted. simpl. destruct result as [|b result]; [done|]. simpl. by rewrite <- !app_assoc.
Qed.

Lemma wire_cons l labels : wire (l :: labels) = zlen l :: l ++ wire labels.
Proof. done. Qed.

Lemma zlen_wire_nonneg labels : 0 <= zlen (wire labels).
Proof. apply zlen_nonneg. Qed.

Lemma length_wire labels : (length labels <= length (wire labels))%nat.
Proof.
  induction labels as [|l labels IH]; [done|]. rewrite wire_cons. simpl. rewrite length_app. lia.
Qed.

Lemma rd_at {A} (l r : list A) b i : i = zlen l → rd (l ++ b :: r) i = Ok b.
Proof.
  intros ->. rewrite rd_app_r by lia. replace (zlen l - zlen l) with 0 by lia. done.
Qed.

Lemma Dns_Read16_app l q r offset :
  zlen l = offset → length q = 2%nat → bytes_ok q →
  Dns_Read16 (l ++ q ++ r) offset = Ok (be_decode q).
Proof.
  intros <- Hq Hok. destruct q as [|b0 [|b1 [|]]]; try done. unfold Dns_Read16.
  ifb; [b2p; exfalso; zlia|]. rewrite !(rd_app_r l) by lia.
  replace (zlen l - zlen l) with 0 by lia. by replace (zlen l + 1 - zlen l) with 1 by lia.
Qed.

(** Labels are shorter than 64: neither pointers nor reserved. *)
Lemma label_length_bits n : 0 < n <= 63 → Z.land n 0xc0 = 0.
Proof.
  intros Hn. apply Z.bits_inj'. intros i Hi. rewrite Z.land_spec, Z.bits_0.
  destruct (Z.testbit n i) eqn:E; [|done]. simpl.
  assert (i < 6).
  { apply Z.nle_gt. intros Hi'. rewrite (in_width_high 6 n i) in E; [done| |lia]. unfold in_width. lia. }
  assert (i = 0 ∨ i = 1 ∨ i = 2 ∨ i = 3 ∨ i = 4 ∨ i = 5) as Hc by lia.
  by destruct Hc as [-> |[-> |[-> |[-> |[-> | ->]]]]].
Qed.

(** What both parsers do with the labels of a name. *)
Lemma ReadName_loop_labels deeper fuel pre labels rest result :
  Forall label_ok labels → (length labels < fuel)%nat →
  ReadName_loop deeper fuel (pre ++ wire labels ++ rest) (zlen pre) result
  = ReadName_loop deeper (fuel - length labels) (pre ++ wire labels ++ rest)
      (zlen pre + zlen (wire labels)) (joined result labels).
Proof.
  intros Hl. revert fuel pre result. induction Hl as [|l labels Hl Hls IH]; intros fuel pre result Hf.
  { unfold wire. simpl. by rewrite Nat.sub_0_r, Z.add_0_r. }
  destruct fuel as [|fuel]; [simpl in Hf; lia|]. unfold label_ok in Hl. rewrite wire_cons.
  replace (pre ++ (zlen l :: l ++ wire labels) ++ rest) with ((pre ++ zlen l :: l) ++ wire labels ++ rest)
    by (simpl; by rewrite <- !app_assoc).
  cbn [ReadName_loop]. ifb; [b2p; exfalso; zlia|].
  rewrite <- (app_assoc pre (zlen l :: l)). cbn [app]. rewrite rd_at by done. cbn [obind].
  ifb; [b2p; lia|]. rewrite label_length_bits by lia. cbn [Z.eqb negb orb].
  ifb; [b2p; exfalso; destruct E1; zlia|].
  replace (slice _ _ _) with (Ok l).
  2:{ symmetry. rewrite (cons_middle (zlen l) pre). rewrite app_assoc. apply slice_full; zlia. }
  cbn [obind]. replace (zlen pre + 1 + zlen l) with (zlen (pre ++ zlen l :: l)) by zlia.
  replace (pre ++ zlen l :: l ++ wire labels ++ rest) with ((pre ++ zlen l :: l) ++ wire labels ++ rest)
    by (by rewrite <- !app_assoc).
  rewrite IH by (simpl in Hf; lia). f_equal; zlia.
Qed.

(** A name written out, and a name that is a pointer. *)
Lemma ReadName_written levels pre labels rest :
  Forall label_ok labels →
  ReadName (S levels) (pre ++ wire labels ++ 0 :: rest) (zlen pre)
  = Ok (joined [] labels, zlen pre + zlen (wire labels) + 1).
Proof.
  intros Hl. pose proof (length_wire labels) as Hw. cbn [ReadName]. set (m := pre ++ _).
  assert (length labels < S (length m))%nat as Hf by (unfold m; rewrite !length_app; simpl; lia).
  unfold m at 3. rewrite ReadName_loop_labels by done. fold m.
  replace (S (length m) - length labels)%nat with (S (length m - length labels)) by lia.
  cbn [ReadName_loop]. pose proof (zlen_nonneg rest). ifb; [b2p; exfalso; unfold m in *; zlia|].
  replace (rd m _) with (Ok 0); [done|]. symmetry. unfold m. rewrite app_assoc. apply rd_at. zlia.
Qed.

Lemma ReadName_pointer levels pre p rest name o :
  0 <= p < 256 → ReadName levels (pre ++ [0xc0; p] ++ rest) p = Ok (name, o) →
  ReadName (S levels) (pre ++ [0xc0; p] ++ rest) (zlen pre) = Ok (name, zlen pre + 2).
Proof.
  intros Hp Hn. cbn [ReadName ReadName_loop]. set (m := pre ++ _) in *.
  assert (zlen m = zlen pre + 2 + zlen rest) as Hz by (unfold m; zlia). pose proof (zlen_nonneg rest).
  ifb; [b2p; lia|]. replace (rd m (zlen pre)) with (Ok 0xc0) by (symmetry; by apply rd_at).
  cbn [obind]. change (0xc0 =? 0) with false. change (Z.land 0xc0 0xc0 =? 0xc0) with true. cbv iota zeta.
  ifb; [b2p; lia|]. replace (rd m (zlen pre + 1)) with (Ok p).
  2:{ symmetry. unfold m. change ([0xc0; p] ++ rest) with ([0xc0] ++ p :: rest). rewrite app_assoc.
      apply rd_at. zlia. }
  cbn [obind]. change (Z.lor (Z.shiftl (Z.land 0xc0 0x3f) 8) p) with p.
  rewrite Hn. cbn [obind]. f_equal. f_equal; [by destruct name|lia].
Qed.

Lemma DnsQuery_Name_loop_labels fuel pre labels rest result :
  Forall label_ok labels → (length labels < fuel)%nat →
  DnsQuery_Name_loop fuel (pre ++ wire labels ++ rest) (zlen pre) result
  = DnsQuery_Name_loop (fuel - length labels) (pre ++ wire labels ++ rest)
      (zlen pre + zlen (wire labels)) (joined result labels).
Proof.
  intros Hl. revert fuel pre result. induction Hl as [|l labels Hl Hls IH]; intros fuel pre result Hf.
  { unfold wire. simpl. by rewrite Nat.sub_0_r, Z.add_0_r. }
  destruct fuel as [|fuel]; [simpl in Hf; lia|]. unfold label_ok in Hl. rewrite wire_cons.
  replace (pre ++ (zlen l :: l ++ wire labels) ++ rest) with (pre ++ zlen l :: l ++ wire labels ++ rest)
    by (simpl; by rewrite <- !app_assoc).
  cbn [DnsQuery_Name_loop]. ifb; [b2p; exfalso; zlia|].
  rewrite rd_at by done. cbn [obind].
  ifb; [b2p; lia|]. ifb; [b2p; exfalso; destruct E1; zlia|].
  replace (slice _ _ _) with (Ok l).
  2:{ symmetry. rewrite (cons_middle (zlen l) pre). rewrite app_assoc. apply slice_full; zlia. }
  cbn [obind]. replace (zlen pre + 1 + zlen l) with (zlen (pre ++ zlen l :: l)) by zlia.
  replace (pre ++ zlen l :: l ++ wire labels ++ rest) with ((pre ++ zlen l :: l) ++ wire labels ++ rest)
    by (by rewrite <- !app_assoc).
  rewrite IH by (simpl in Hf; lia). f_equal; zlia.
Qed.

(** The first label of a text. *)
Lemma first_label (text : bytes) :
  let n := default (length text) (find_char chr_dot text) in
  (n <= length text)%nat ∧ (chr_dot ∉ take n text)
  ∧ (text = take n text ++ chr_dot :: drop (S n) text ∨ (text = take n text ∧ drop (S n) text = [])).
Proof.
  cbv zeta. destruct (find_char chr_dot text) as [i|] eqn:E; simpl.
  - pose proof (find_char_lt _ _ _ E). apply find_char_Some in E as (Hi & Ht).
    split_and!; [lia|done|by left].
  - apply find_char_None in E. rewrite firstn_all. split_and!; [done|done|right].
    split; [done|]. apply drop_ge. lia.
Qed.

Lemma joined_cons l labels :
  label_ok l → Forall label_ok labels → joined [] (l :: labels) = l ++ dotted labels.
Proof. intros Hl Hls. apply (joined_dotted l labels); [|done]. intros ->. by destruct Hl. Qed.

Lemma dotted_joined labels :
  labels ≠ [] → Forall label_ok labels → dotted labels = chr_dot :: joined [] labels.
Proof.
  intros Hne Hl. destruct Hl as [|l labels Hl Hls]; [done|]. rewrite joined_cons by done. done.
Qed.

(** [Build] writes the labels of the name, whose text may end in one more dot. *)
Lemma Build_labels_spec fuel rest result q :
  Build_labels fuel rest result = Ok q →
  ∃ labels, q = result ++ wire labels ∧ Forall label_ok labels ∧ Forall (fun l => chr_dot ∉ l) labels
    ∧ (rest = joined [] labels ∨ (labels ≠ [] ∧ rest = joined [] labels ++ [chr_dot])).
Proof.
  revert rest result. induction fuel as [|fuel IH]; intros rest result H; [done|].
  cbn [Build_labels] in H. destruct rest as [|b rest]; [injection H as <-; exists []; rewrite app_nil_r; auto|].
  set (all := b :: rest) in *. destruct (first_label all) as (Hn & Hdot & Hall).
  set (n := default (length all) (find_char chr_dot all)) in *.
  destruct ((n =? 0)%nat || (63 <? n)%nat) eqn:En; [done|].
  apply orb_false_iff in En as [En0%Nat.eqb_neq En63%Nat.ltb_ge].
  destruct (IH _ _ H) as (labels & -> & Hl & Hd & Hrest).
  assert (zlen (take n all) = Z.of_nat n) as Hz by (unfold zlen; rewrite length_take; lia).
  assert (label_ok (take n all)) as Hok by (unfold label_ok; lia).
  exists (take n all :: labels). split_and!.
  - rewrite wire_cons, Hz. by rewrite <- app_assoc.
  - by constructor.
  - by constructor.
  - rewrite joined_cons by done. destruct (decide (labels = [])) as [->|Hne].
    + destruct Hrest as [Hr|[? _]]; [|done]. unfold joined, dotted in *. simpl in *. rewrite app_nil_r.
      destruct Hall as [Hall|[Hall _]]; [|by left]. right. split; [done|]. by rewrite Hr in Hall.
    + rewrite dotted_joined by done. destruct Hall as [Hall|[_ He]].
      * destruct Hrest as [Hr|[_ Hr]]; rewrite Hr in Hall; [by left|right].
        split; [done|]. rewrite Hall at 1. by rewrite <- app_assoc.
      * exfalso. destruct Hl as [|l labels' Hl Hl']; [done|]. rewrite joined_cons in Hrest by done.
        rewrite He in Hrest. destruct l; [by destruct Hl|]. by destruct Hrest as [|[]].
Qed.

(** A name without empty labels and dots within them is built. *)
Lemma Build_labels_total labels fuel result :
  Forall label_ok labels → Forall (fun l => chr_dot ∉ l) labels → (length labels < fuel)%nat →
  Build_labels fuel (joined [] labels) result = Ok (result ++ wire labels).
Proof.
  intros Hl Hd. revert fuel result. induction Hl as [|l labels Hl Hls IH]; intros fuel result Hf.
  { destruct fuel; [simpl in Hf; lia|]. by rewrite app_nil_r. }
  destruct fuel as [|fuel]; [simpl in Hf; lia|]. apply Forall_cons in Hd as [Hdl Hd].
  rewrite joined_cons by done. cbn [Build_labels].
  assert (default (length (l ++ dotted labels)) (find_char chr_dot (l ++ dotted labels)) = length l
    ∧ drop (S (length l)) (l ++ dotted labels) = joined [] labels) as [Hn Hdrop].
  { destruct (decide (labels = [])) as [->|Hne].
    - unfold dotted. simpl. rewrite app_nil_r. rewrite (proj2 (find_char_None _ _) Hdl).
      split; [done|]. apply drop_ge. lia.
    - rewrite dotted_joined by done. rewrite find_char_app by done. split; [done|]. apply drop_app_cons. }
  rewrite Hn, Hdrop, take_app_length. unfold label_ok, zlen in Hl.
  destruct (l ++ dotted labels) eqn:E; [destruct l; [simpl in Hl; lia|done]|].
  replace ((length l =? 0)%nat || (63 <? length l)%nat) with false
    by (symmetry; apply orb_false_iff; split; [apply Nat.eqb_neq|apply Nat.ltb_ge]; lia).
  rewrite IH by (simpl in Hf; done || lia). by rewrite wire_cons, <- app_assoc.
Qed.

(** The query of a list of labels. *)
Definition query_header (transactionId : Z) : bytes :=
  [u8 (Z.shiftr transactionId 8); u8 transactionId; 1; 0; 0; 1; 0; 0; 0; 0; 0; 0].
Definition query_of (transactionId : Z) (labels : list bytes) : bytes :=
  query_header transactionId ++ wire labels ++ [0; 0; DnsTypeA; 0; 1].

Lemma DnsQuery_Build_labels name transactionId q :
  DnsQuery_Build name transactionId = Ok q →
  ∃ labels, q = query_of transactionId labels ∧ Forall label_ok labels
    ∧ Forall (fun l => chr_dot ∉ l) labels
    ∧ (Dns_NormalizeName name = joined [] labels
       ∨ (labels ≠ [] ∧ Dns_NormalizeName name = joined [] labels ++ [chr_dot])).
Proof.
  intros H. unfold DnsQuery_Build in H. apply obind_Ok_inv in H as (r & Hr & [= <-]).
  apply Build_labels_spec in Hr as (labels & -> & Hl & Hd & Hn). exists labels.
  by rewrite <- app_assoc.
Qed.

Lemma DnsQuery_Build_joined name transactionId labels :
  Dns_NormalizeName name = joined [] labels → Forall label_ok labels →
  Forall (fun l => chr_dot ∉ l) labels →
  DnsQuery_Build name transactionId = Ok (query_of transactionId labels).
Proof.
  intros Hn Hl Hd. unfold DnsQuery_Build. rewrite Hn, Build_labels_total; [|done|done|].
  - simpl. unfold query_of, query_header. simpl. done.
  - assert (length labels <= length (joined [] labels))%nat; [|lia].
    clear -Hl. induction Hl as [|l labels Hl Hls IH]; [done|]. rewrite joined_cons by done.
    rewrite length_app. destruct (decide (labels = [])) as [->|Hne].
    + destruct Hl. unfold zlen in *. simpl. lia.
    + rewrite dotted_joined by done. simpl. lia.
Qed.

Lemma zlen_query transactionId labels :
  zlen (query_of transactionId labels) = 12 + zlen (wire labels) + 5.
Proof. unfold query_of, query_header. zlia. Qed.

Lemma DnsQuery_Name_loop_query transactionId labels :
  Forall label_ok labels →
  let q := query_of transactionId labels in
  DnsQuery_Name_loop (S (length q)) q DnsHeaderSize []
  = Ok (Some (joined [] labels, 12 + zlen (wire labels))).
Proof.
  intros Hl q. pose proof (zlen_query transactionId labels) as Hz. fold q in Hz.
  pose proof (zlen_wire_nonneg labels). pose proof (length_wire labels) as Hlen.
  assert (S (length q) - length labels = S (length q - length labels))%nat as Hf.
  { unfold zlen in Hz. lia. }
  replace (DnsQuery_Name_loop _ q _ []) with
    (DnsQuery_Name_loop (S (length q)) (query_header transactionId ++ wire labels ++ [0; 0; DnsTypeA; 0; 1])
      (zlen (query_header transactionId)) []) by done.
  rewrite DnsQuery_Name_loop_labels; [|done|unfold zlen in Hz; lia].
  rewrite Hf. cbn [DnsQuery_Name_loop]. fold (query_of transactionId labels). fold q.
  change (zlen (query_header transactionId)) with 12.
  ifb; [b2p; lia|]. replace (rd q (12 + zlen (wire labels))) with (Ok 0); [done|].
  symmetry. unfold q, query_of. rewrite app_assoc. apply rd_at. unfold query_header. zlia.
Qed.

Lemma DnsQuery_Name_query transactionId labels :
  Forall label_ok labels →
  DnsQuery_Name (query_of transactionId labels) = Ok (Some (map lower (joined [] labels))).
Proof.
  intros Hl. pose proof (DnsQuery_Name_loop_query transactionId labels Hl) as Hloop.
  pose proof (zlen_query transactionId labels) as Hz. pose proof (zlen_wire_nonneg labels).
  unfold DnsQuery_Name. set (q := query_of transactionId labels) in *. unfold DnsHeaderSize in *.
  ifb; [b2p; lia|]. change (rd q 4) with (Ok 0). change (rd q 5) with (Ok 1). cbn [obind].
  change (Z.lor (Z.shiftl 0 8) 1 =? 0) with false. cbv iota. rewrite Hloop. cbn [obind].
  ifb; [b2p; lia|]. done.
Qed.

Lemma DnsQuery_Read16_id transactionId labels :
  in_width 16 transactionId → Dns_Read16 (query_of transactionId labels) 0 = Ok transactionId.
Proof.
  intros Hw.
  change (query_of transactionId labels) with ([] ++ be_encode 2 transactionId
    ++ [1; 0; 0; 1; 0; 0; 0; 0; 0; 0] ++ wire labels ++ [0; 0; DnsTypeA; 0; 1]).
  rewrite Dns_Read16_app; [|done|done|apply bytes_ok_be_encode].
  rewrite be_decode_encode. f_equal. by apply Z.mod_small.
Qed.

Lemma query_of_id id0 id1 labels :
  in_width 8 id0 → in_width 8 id1 →
  query_of (be_decode [id0; id1]) labels
  = [id0; id1; 1; 0; 0; 1; 0; 0; 0; 0; 0; 0] ++ wire labels ++ [0; 0; 1; 0; 1].
Proof.
  intros H0 H1. assert (be_encode 2 (be_decode [id0; id1]) = [id0; id1]) as Hid
    by (apply (be_encode_decode [id0; id1]); by forall_intro).
  unfold query_of, query_header.
  change ([?a; ?b; 1; 0; 0; 1; 0; 0; 0; 0; 0; 0] ++ ?r)
    with ([a; b] ++ [1; 0; 0; 1; 0; 0; 0; 0; 0; 0] ++ r).
  f_equal. exact Hid.
Qed.

(** ** The round trip of a query *)

Section case.
  Hypothesis lower_lower : ∀ c, lower (lower c) = lower c.

Lemma map_lower_idem (l : bytes) : map lower (map lower l) = map lower l.
Proof. rewrite map_map. apply map_ext. done. Qed.

Lemma NormalizeName_lower name : map lower (Dns_NormalizeName name) = Dns_NormalizeName name.
Proof. apply map_lower_idem. Qed.

(** A name that is normal is its own normal form. *)
Lemma NormalizeName_normal name :
  map lower name = name → last name ≠ Some chr_dot → Dns_NormalizeName name = name.
Proof.
  intros Hn Hl. unfold Dns_NormalizeName. destruct (last name) as [c|] eqn:E; [|done].
  destruct (Z.eqb_spec c chr_dot) as [->|]; done.
Qed.

(** The labels of a name that does not end in a dot. *)
Lemma DnsQuery_Build_normal name transactionId q :
  DnsQuery_Build name transactionId = Ok q → last (Dns_NormalizeName name) ≠ Some chr_dot →
  ∃ labels, q = query_of transactionId labels ∧ Forall label_ok labels
    ∧ Dns_NormalizeName name = joined [] labels.
Proof.
  intros Hq Hlast. destruct (DnsQuery_Build_labels _ _ _ Hq) as (labels & -> & Hl & _ & Hn).
  exists labels. split_and!; [done|done|]. destruct Hn as [|[_ Hn]]; [done|].
  rewrite Hn, last_snoc in Hlast. done.
Qed.

(** A query that is built for a name carries the transaction identifier, and
    the query parser reads the normalised name back, unless that still ends in a
    dot; every name whose labels have 1 to 63 bytes is built. *)
Theorem DnsQuery_roundtrip name transactionId :
  in_width 16 transactionId →
  (∀ q, DnsQuery_Build name transactionId = Ok q →
     last (Dns_NormalizeName name) ≠ Some chr_dot →
     Dns_Read16 q 0 = Ok transactionId ∧ DnsQuery_Name q = Ok (Some (Dns_NormalizeName name)))
  ∧ (∀ labels, Dns_NormalizeName name = joined [] labels → Forall label_ok labels →
     Forall (fun l => chr_dot ∉ l) labels → ∃ q, DnsQuery_Build name transactionId = Ok q).
Proof.
  intros Hw. split.
  - intros q Hq Hlast. destruct (DnsQuery_Build_normal _ _ _ Hq Hlast) as (labels & -> & Hl & Hn).
    split; [by apply DnsQuery_Read16_id|]. rewrite DnsQuery_Name_query by done.
    by rewrite <- Hn, NormalizeName_lower.
  - intros labels Hn Hl Hd. eexists. by apply DnsQuery_Build_joined.
Qed.

End case.

(** ** Safety *)

(** [ReadName] returns or throws, and ends behind the name. *)
Definition reads_name (message : bytes) (offset : Z) (r : outcome (bytes * Z)) : Prop :=
  safe r ∧ ∀ n o, r = Ok (n, o) → offset < o <= zlen message.

Lemma ReadName_loop_reads deeper fuel message offset result :
  bytes_ok message → 0 <= offset → (∀ p, 0 <= p → safe (deeper p)) →
  (Z.to_nat (zlen message - offset) < fuel)%nat →
  reads_name message offset (ReadName_loop deeper fuel message offset result).
Proof.
  intros Hm Ho Hdeep. revert offset result Ho. induction fuel as [|fuel IH]; intros offset result Ho Hf; [lia|].
  cbn [ReadName_loop]. ifb; [by split|]. b2p.
  destruct (rd_Ok message offset) as (b & Hb); [lia|]. rewrite Hb. cbn [obind].
  pose proof (bytes_ok_rd _ _ _ Hm Hb) as Hw. destruct Hw as [Hb0 Hb255].
  ifb; [split; [done|]; intros n o [= <- <-]; lia|].
  ifb.
  - ifb; [by split|]. b2p. destruct (rd_Ok message (offset + 1)) as (c & Hc); [lia|]. rewrite Hc. cbn [obind].
    pose proof (bytes_ok_rd _ _ _ Hm Hc) as [? ?].
    assert (0 <= Z.lor (Z.shiftl (Z.land b 0x3f) 8) c) as Hp.
    { apply Z.lor_nonneg. split; [|done]. apply Z.shiftl_nonneg, Z.land_nonneg. by right. }
    specialize (Hdeep _ Hp). destruct (deeper _) as [[suffix ?]|e|]; [|by split|done].
    simpl. split; [done|]. intros n o [= _ <-]. lia.
  - ifb; [by split|]. b2p. destruct_and?.
    rewrite slice_Ok by lia. cbn [obind]. set (label := take _ _).
    destruct (IH (offset + 1 + b) (dot_after result ++ label)) as [Hs Hr]; [lia|lia|].
    split; [done|]. intros n o Hno. specialize (Hr n o Hno). lia.
Qed.

Lemma ReadName_reads levels message offset :
  bytes_ok message → 0 <= offset → reads_name message offset (ReadName levels message offset).
Proof.
  intros Hm. revert offset. induction levels as [|levels IH]; intros offset Ho; [by split|].
  apply ReadName_loop_reads; [done|done| |unfold zlen; lia]. intros q Hq. by apply IH.
Qed.

Lemma Dns_Read16_safe message offset : 0 <= offset → safe (Dns_Read16 message offset).
Proof. intros Ho. unfold Dns_Read16. safe_auto. Qed.

Lemma Dns_Read16_range message offset v :
  bytes_ok message → 0 <= offset → Dns_Read16 message offset = Ok v → 0 <= v.
Proof.
  intros Hm Ho H. unfold Dns_Read16 in H. ok_inv H.
  pose proof (bytes_ok_rd _ _ _ Hm Ha) as [? _]. pose proof (bytes_ok_rd _ _ _ Hm Ha0) as [? _].
  injection H as <-. apply Z.lor_nonneg. split; [by apply Z.shiftl_nonneg|done].
Qed.

Lemma Parse_questions_safe count message offset :
  bytes_ok message → 0 <= offset →
  safe (Parse_questions count message offset)
  ∧ ∀ o, Parse_questions count message offset = Ok o → 0 <= o.
Proof.
  intros Hm. revert offset. induction count as [|count IH]; intros offset Ho; [split; [done|]; intros ? [= <-]; done|].
  cbn [Parse_questions]. destruct (ReadName_reads MaximumDnsNameDepth message offset Hm Ho) as [Hs Hr].
  destruct (ReadName _ _ _) as [[n o]|e|]; [|by split|done]. specialize (Hr n o eq_refl). cbn [obind].
  ifb; [by split|]. apply IH. lia.
Qed.

Lemma Parse_data_safe message type length offset :
  bytes_ok message → 0 <= offset → offset + length <= zlen message →
  safe (Parse_data message type length offset).
Proof.
  intros Hm Ho Hl. unfold Parse_data. ifb.
  - destruct (ReadName_reads MaximumDnsNameDepth message offset Hm Ho) as [Hs _].
    by destruct (ReadName _ _ _) as [[n o]|e|].
  - ifb; [|done]. b2p. safe_auto.
Qed.

Lemma Parse_answers_safe count message offset records :
  bytes_ok message → 0 <= offset → safe (Parse_answers count message offset records).
Proof.
  intros Hm. revert offset records. induction count as [|count IH]; intros offset records Ho; [done|].
  cbn [Parse_answers]. destruct (ReadName_reads MaximumDnsNameDepth message offset Hm Ho) as [Hs Hr].
  destruct (ReadName _ _ _) as [[n o]|e|]; [|done|done]. specialize (Hr n o eq_refl). cbn [obind].
  ifb; [done|]. b2p. apply safe_obind; [apply Dns_Read16_safe; lia|]. intros type _.
  apply safe_obind; [apply Dns_Read16_safe; lia|]. intros length Hlen.
  apply Dns_Read16_range in Hlen; [|done|lia].
  ifb; [done|]. b2p. apply safe_obind; [apply Parse_data_safe; [done|lia|lia]|].
  intros [value address] _. apply IH. lia.
Qed.

(** C38: the answer parser is given any bytes at all, compression pointers that
    form a loop included, and any expectation: it returns an answer or throws, and
    reads nothing outside the message. *)
Theorem DnsAnswer_Parse_total message transactionId queriedName :
  bytes_ok message → safe (DnsAnswer_Parse message transactionId queriedName).
Proof.
  intros Hm. unfold DnsAnswer_Parse, DnsHeaderSize. ifb; [done|]. b2p.
  apply safe_obind; [by apply Dns_Read16_safe|]. intros id _. ifb; [done|].
  apply safe_obind; [apply safe_rd; lia|]. intros flags _. ifb; [done|].
  apply safe_obind; [apply safe_rd; lia|]. intros b3 _. ifb; [done|].
  apply safe_obind; [by apply Dns_Read16_safe|]. intros questions _.
  apply safe_obind; [by apply Dns_Read16_safe|]. intros answers _.
  destruct (Parse_questions_safe (Z.to_nat questions) message 12 Hm) as [Hs Ho]; [done|].
  apply safe_obind; [exact Hs|]. intros offset Hoff.
  apply safe_obind; [apply Parse_answers_safe; auto|]. done.
Qed.

(** ** The suffix test *)

Lemma DnsNameHasSuffix_spec name suffix :
  DnsNameHasSuffix name suffix = true ↔
  Dns_NormalizeName name = Dns_NormalizeName suffix
  ∨ ∃ prefix, Dns_NormalizeName name = prefix ++ chr_dot :: Dns_NormalizeName suffix.
Proof.
  unfold DnsNameHasSuffix. set (n := Dns_NormalizeName name). set (x := Dns_NormalizeName suffix).
  rewrite orb_true_iff, !andb_true_iff, !bool_decide_eq_true, Nat.ltb_lt. split.
  - intros [?|[[Hlt Hd] Hdot]]; [by left|right]. exists (take (length n - length x - 1) n).
    rewrite <- (take_drop_middle n _ _ Hdot) at 1. do 2 f_equal.
    etrans; [|exact Hd]. f_equal. lia.
  - intros [?|(p & ->)]; [by left|right]. rewrite length_app. simpl length.
    split_and!; [lia| |].
    + replace (length p + S (length x) - length x)%nat with (S (length p)) by lia. apply drop_app_cons.
    + apply list_lookup_middle. lia.
Qed.

(** ** Resolver selection *)

Lemma select_route_spec n routes selected k :
  let m r := DnsNameHasSuffix n (rou_Suffix r) = true in
  (∃ route, route ∈ routes ∧ m route ∧ k <= zlen (rou_Suffix route)
    ∧ (∀ r, r ∈ routes → m r → zlen (rou_Suffix r) <= zlen (rou_Suffix route))
    ∧ select_route (Some n) routes selected k = Some (rou_Resolvers route))
  ∨ ((∀ r, r ∈ routes → m r → zlen (rou_Suffix r) < k)
     ∧ select_route (Some n) routes selected k = selected).
Proof.
  cbv zeta. revert selected k. induction routes as [|route routes IH]; intros selected k.
  { right. split; [set_solver|done]. }
  cbn [select_route]. destruct (_ && _) eqn:E.
  - apply andb_true_iff in E as [Hk%Z.leb_le Hm]. left.
    destruct (IH (Some (rou_Resolvers route)) (zlen (rou_Suffix route)))
      as [(r & Hr & Hm' & Hk' & Hmax & Hsel)|[Hmax Hsel]].
    + exists r. split_and!; [set_solver|done|lia| |done].
      intros r' [->|Hr']%elem_of_cons; [done|by apply Hmax].
    + exists route. split_and!; [set_solver|done|done| |done].
      intros r' [->|Hr']%elem_of_cons Hmr; [done|]. specialize (Hmax r' Hr' Hmr). lia.
  - destruct (IH selected k) as [(r & Hr & Hm' & Hk' & Hmax & Hsel)|[Hmax Hsel]].
    + left. exists r. split_and!; [set_solver|done|done| |done].
      intros r' [->|Hr']%elem_of_cons Hmr; [|by apply Hmax].
      rewrite Hmr, andb_true_r in E. apply Z.leb_gt in E. lia.
    + right. split; [|done]. intros r' [->|Hr']%elem_of_cons Hmr; [|by apply Hmax].
      rewrite Hmr, andb_true_r in E. by apply Z.leb_gt in E.
Qed.

(** The selection of an address, none if it is empty. *)
Definition selection (address : bytes) (matched : bool) : option ResolverSelection :=
  match address with
  | [] => None
  | _ => Some {| rs_Address := address; rs_RouteMatched := matched |}
  end.

(** A query goes to the resolver of a route whose suffix matches the queried
    name, label by label and without regard to case, and is the longest of those
    that match; to the default resolver when no route matches; a route or a default
    without resolvers falls back to the primary one. *)
Theorem SelectResolver_longest_match query primary routes defaults n :
  DnsQuery_Name query = Ok (Some n) →
  let matches r := Dns_NormalizeName n = Dns_NormalizeName (rou_Suffix r)
    ∨ ∃ prefix, Dns_NormalizeName n = prefix ++ chr_dot :: Dns_NormalizeName (rou_Suffix r) in
  (∃ route, route ∈ routes ∧ matches route
     ∧ (∀ r, r ∈ routes → matches r → zlen (rou_Suffix r) <= zlen (rou_Suffix route))
     ∧ SelectResolver query primary routes defaults
       = Ok (selection (first_or primary (rou_Resolvers route)) true))
  ∨ ((∀ r, r ∈ routes → ¬ matches r)
     ∧ SelectResolver query primary routes defaults = Ok (selection (first_or primary defaults) false)).
Proof.
  intros Hn matches. unfold SelectResolver. rewrite Hn. cbn [obind].
  assert (∀ r, matches r ↔ DnsNameHasSuffix n (rou_Suffix r) = true) as Hm
    by (intros r; by rewrite DnsNameHasSuffix_spec).
  destruct (select_route_spec n routes None 0) as [(route & Hr & Hmr & _ & Hmax & ->)|[Hno ->]].
  - left. exists route. split_and!; [done|by apply Hm| |done]. intros r Hin Hmatch. apply Hmax; [done|by apply Hm].
  - right. split; [|done]. intros r Hin Hmatch. apply Hm in Hmatch. specialize (Hno r Hin Hmatch).
    pose proof (zlen_nonneg (rou_Suffix r)). lia.
Qed.

(** ** Resolution *)

Lemma Build_labels_safe fuel rest result :
  (length rest < fuel)%nat → safe (Build_labels fuel rest result).
Proof.
  revert rest result. induction fuel as [|fuel IH]; intros rest result Hf; [lia|].
  cbn [Build_labels]. destruct rest as [|b rest]; [done|]. ifb; [done|]. apply IH.
  rewrite length_drop. simpl in *. lia.
Qed.

Lemma DnsQuery_Build_safe name transactionId : safe (DnsQuery_Build name transactionId).
Proof.
  unfold DnsQuery_Build. apply safe_obind; [apply Build_labels_safe; lia|]. done.
Qed.

(** A name at or under another one, in lower case and without a final dot. *)
Definition dns_under (name suffix : bytes) : Prop :=
  Dns_NormalizeName name = Dns_NormalizeName suffix
  ∨ ∃ labels, Dns_NormalizeName name = labels ++ chr_dot :: Dns_NormalizeName suffix.

(** A chain over any query that is counted by [count] and whose answers satisfy
    [E]: the query, the answer, and the states before and after. *)
Section chain.
  Context {S : Type} (query : bytes → eff S DnsAnswer) (count : S → nat)
    (E : bytes → DnsAnswer → S → S → Prop).
  Context (query_law : ∀ current s, wp (query current) (fun r s' => r ≠ UB
    ∧ count s' = Datatypes.S (count s) ∧ ∀ a, r = Ok a → E current a s s') s).

(** From a name and a state, by exchanges, each for the name that the answer before it
    gave instead of addresses, to the last answer and the state after it. *)
Inductive resolved_by (final : DnsAnswer) (s' : S) : bytes → S → Prop :=
  | Resolved_last current s :
      E current final s s' →
      da_Addresses final ≠ [] ∨ Dns_NormalizeName (da_CanonicalName final) = current →
      resolved_by final s' current s
  | Resolved_alias current answer s s1 :
      E current answer s s1 → da_Addresses answer = [] →
      Dns_NormalizeName (da_CanonicalName answer) ≠ [] →
      resolved_by final s' (Dns_NormalizeName (da_CanonicalName answer)) s1 →
      resolved_by final s' current s.

Lemma wp_chain_loop queries current s :
  wp (ResolveDnsChain_loop query queries current) (fun r s' => r ≠ UB
    ∧ (count s' <= count s + queries)%nat
    ∧ ∀ a, r = Ok a → ∃ answer, resolved_by answer s' current s
        ∧ da_CanonicalName a = Dns_NormalizeName (da_CanonicalName answer)
        ∧ da_Addresses a = da_Addresses answer) s.
Proof.
  revert current s. induction queries as [|queries IH]; intros current s.
  { cbn [ResolveDnsChain_loop]. wp_auto. split_and!; [done|lia|done]. }
  cbn [ResolveDnsChain_loop]. apply wp_bind. eapply wp_mono; [apply query_law|].
  intros [a|e|] s1 (Hr & Hc & HE); [|split_and!; [done|lia|done]|done].
  specialize (HE a eq_refl). destruct (negb _ || _) eqn:Elast; wp_auto.
  { split_and!; [done|lia|]. intros ? [= <-]. exists a. split_and!; [|done..]. apply Resolved_last; [done|].
    rewrite orb_true_iff, negb_true_iff, bool_decide_eq_false, bool_decide_eq_true in Elast. tauto. }
  apply orb_false_iff in Elast as [Hnil%negb_false_iff%bool_decide_eq_true _].
  destruct (bool_decide _) eqn:Eempty; wp_auto; [split_and!; [done|lia|done]|].
  apply bool_decide_eq_false in Eempty.
  eapply wp_mono; [apply IH|]. intros r s2 (? & ? & Hok). split_and!; [done|lia|].
  intros b Hb. destruct (Hok b Hb) as (answer & Hby & ?). exists answer. split; [|done].
  by eapply Resolved_alias.
Qed.

(** The target that comes from an answer. *)
Definition target_from (addressIndex : Z) (t : DnsTarget) (answer : DnsAnswer) : Prop :=
  dt_ValidationName t = Dns_NormalizeName (da_CanonicalName answer)
  ∧ (dns_under (dt_ValidationName t) (lit "ts.net")
     ∧ da_Addresses answer !! Z.to_nat (addressIndex mod zlen (da_Addresses answer))
       = Some (dt_ConnectAddress t)
     ∨ ~ dns_under (dt_ValidationName t) (lit "ts.net")
       ∧ dt_ConnectAddress t = dt_ValidationName t).

Lemma wp_ResolveDnsTarget name addressIndex maximumQueries s :
  wp (ResolveDnsTarget query name addressIndex maximumQueries) (fun r s' => r ≠ UB
    ∧ (count s' <= count s + maximumQueries)%nat
    ∧ ∀ t, r = Ok t → ∃ answer, resolved_by answer s' (Dns_NormalizeName name) s
        ∧ target_from addressIndex t answer) s.
Proof.
  unfold ResolveDnsTarget, ResolveDnsChain. apply wp_bind.
  destruct (maximumQueries =? 0)%nat; [wp_auto; split_and!; [done|lia|done]|].
  eapply wp_mono; [apply wp_chain_loop|]. intros [a|e|] s1 (Hr & Hc & HE); [|by split_and!|done].
  destruct (HE a eq_refl) as (answer & He & Hcan & Haddr).
  pose proof (DnsNameHasSuffix_spec (da_CanonicalName a) (lit "ts.net")) as Htrust.
  fold (dns_under (da_CanonicalName a) (lit "ts.net")) in Htrust.
  unfold DnsNameUsesTrustedResolver. destruct (DnsNameHasSuffix _ _); cbn [negb]; wp_auto.
  2: { split_and!; [done|done|]. intros t [= <-]. exists answer. split; [done|].
       split; simpl; [done|right]. split; [|done]. intros H. by apply Htrust in H. }
  ifb; wp_auto; [by split_and!|]. b2p.
  assert (0 < zlen (da_Addresses a)) as Hpos.
  { destruct (da_Addresses a); [done|zlia]. }
  pose proof (Z.mod_pos_bound addressIndex (zlen (da_Addresses a)) Hpos) as Hb.
  destruct (rd_Ok (da_Addresses a) (addressIndex mod zlen (da_Addresses a))) as (x & Hx); [lia|].
  rewrite Hx. split_and!; [done|done|]. intros t [= <-]. exists answer. split; [done|].
  split; simpl; [done|left]. split; [by apply Htrust|]. rewrite <- Haddr. by apply rd_lookup in Hx as [_ Hx].
Qed.

End chain.

(** *** What a response says *)

(** An alias record takes one name to another: from the very name of a CNAME to its
    value, and from a name at or under that of a DNAME to the one in which the value
    replaces it. *)
Definition alias_step (records : list ResourceRecord) (from to : bytes) : Prop :=
  ∃ record, record ∈ records
    ∧ (rr_Type record = 5 ∧ rr_Name record = from ∧ to = rr_NameValue record
       ∨ rr_Type record = 39 ∧ dns_under from (rr_Name record)
         ∧ to = substr0 from (u64 (zlen from - zlen (rr_Name record))) ++ rr_NameValue record).

Lemma alias_of_step records from to : alias_of records from = Some to → alias_step records from to.
Proof.
  induction records as [|record records IH]; [done|]. cbn [alias_of].
  destruct (_ && bool_decide _) eqn:Ecname.
  { intros [= <-]. apply andb_true_iff in Ecname as [Ht%Z.eqb_eq Hn%bool_decide_eq_true].
    exists record. split; [by left|]. by left. }
  destruct (_ && DnsNameHasSuffix _ _) eqn:Edname.
  { intros [= <-]. apply andb_true_iff in Edname as [Ht%Z.eqb_eq Hn%DnsNameHasSuffix_spec].
    exists record. split; [by left|]. by right. }
  intros (r & Hin & Hr)%IH. exists r. split; [by right|done].
Qed.

Lemma follow_aliases_steps passes records from :
  rtc (alias_step records) from (follow_aliases passes records from).
Proof.
  revert from. induction passes as [|passes IH]; intros from; cbn [follow_aliases]; [done|].
  destruct (alias_of records from) as [to|] eqn:E; [|done]. apply alias_of_step in E. by eapply rtc_l.
Qed.

(** *** Over a stream *)

Section tls.
  Context {S : Type} `{!ByteStream S} `{!ByteStreamLaws S} (keys : nat → bytes).
  Hypothesis keys_random : ∀ n, length (keys n) = 32%nat ∧ bytes_ok (keys n).

(** A message with its 16-bit length. *)
Definition framed_dns (message : bytes) : bytes := be_encode 2 (zlen message) ++ message.

(** A response to the transaction with these bytes: it repeats them, has the response
    flag and no error code, and its answer, by its records, is reached from the name asked
    for over aliases and has the addresses of the name reached. *)
Definition response_says (id0 id1 : Z) (current response : bytes) (answer : DnsAnswer) : Prop :=
  ∃ flags code questions answers offset records,
    take 4 response = [id0; id1; flags; code] ∧ Z.land flags 0x80 ≠ 0 ∧ Z.land code 0x0f = 0
    ∧ Dns_Read16 response 4 = Ok questions ∧ Dns_Read16 response 6 = Ok answers
    ∧ Parse_questions (Z.to_nat questions) response 12 = Ok offset
    ∧ Parse_answers (Z.to_nat answers) response offset [] = Ok records
    ∧ rtc (alias_step records) (Dns_NormalizeName current) (da_CanonicalName answer)
    ∧ da_Addresses answer
      = map rr_Address (filter (fun r => rr_Type r = 1 ∧ rr_Name r = da_CanonicalName answer) records).

(** One exchange on the stream, for a name: the query that was sent has the next random
    transaction identifier, the labels of the name and the type and class of addresses,
    and the response that was received answers it. *)
Definition exchanged (current : bytes) (answer : DnsAnswer) (s s' : S * nat) : Prop :=
  ∃ id0 id1 labels response,
    take 2 (keys s.2) = [id0; id1]
    ∧ Forall (fun label => label_ok label ∧ chr_dot ∉ label) labels
    ∧ (Dns_NormalizeName current = joined [] labels ∨ Dns_NormalizeName current = joined [] labels ++ [chr_dot])
    ∧ st_sent s'.1 = st_sent s.1
        ++ framed_dns ([id0; id1; 1; 0; 0; 1; 0; 0; 0; 0; 0; 0] ++ wire labels ++ [0; 0; 1; 0; 1])
    ∧ st_received s'.1 = st_received s.1 ++ framed_dns response
    ∧ response_says id0 id1 current response answer.

Lemma record_addresses name records :
  omap (record_address name) records
  = map rr_Address (filter (fun r => rr_Type r = 1 ∧ rr_Name r = name) records).
Proof.
  induction records as [|r records IH]; [done|]. rewrite filter_cons. cbn [omap list_omap].
  unfold record_address at 1. destruct (Z.eqb_spec (rr_Type r) DnsTypeA) as [Ht|Ht]; cbn [andb].
  - destruct (bool_decide_reflect (rr_Name r = name)) as [Hn|Hn].
    + rewrite decide_True by done. cbn [map]. by f_equal.
    + rewrite decide_False by tauto. exact IH.
  - rewrite decide_False by tauto. exact IH.
Qed.

Lemma DnsAnswer_Parse_says id0 id1 current response answer :
  bytes_ok response → in_width 8 id0 → in_width 8 id1 →
  DnsAnswer_Parse response (be_decode [id0; id1]) current = Ok answer →
  response_says id0 id1 current response answer.
Proof.
  intros Hok Hid0 Hid1. unfold DnsAnswer_Parse, DnsHeaderSize. ifb; [done|]. b2p. unfold Dns_Read16 at 1.
  ifb; [done|]. destruct response as [|b0 [|b1 [|flags [|code rest]]]]; try (exfalso; zlia).
  cbn [obind]. change (rd (b0 :: b1 :: ?r) 0) with (Ok b0). change (rd (b0 :: b1 :: ?r) (0 + 1)) with (Ok b1).
  change (rd (b0 :: b1 :: flags :: ?r) 2) with (Ok flags). change (rd (b0 :: b1 :: flags :: code :: ?r) 3) with (Ok code).
  cbn [obind]. change (Z.lor (Z.shiftl b0 8) b1) with (be_decode [b0; b1]).
  destruct (Z.eqb_spec (be_decode [b0; b1]) (be_decode [id0; id1])) as [Hid|]; cbn [negb]; [|done].
  assert ([b0; b1] = [id0; id1]) as [= -> ->].
  { rewrite <- (be_encode_decode [b0; b1]), <- (be_encode_decode [id0; id1]), Hid; [done|by forall_intro|].
    apply Forall_cons in Hok as [? [? _]%Forall_cons]. by forall_intro. }
  unfold DnsResponseFlag, DnsResponseCodeMask. destruct (Z.eqb_spec (Z.land flags 0x80) 0) as [|Hf]; [done|].
  destruct (Z.eqb_spec (Z.land code 0x0f) 0) as [Hc|]; cbn [negb]; [|done].
  set (m := id0 :: id1 :: flags :: code :: rest).
  intros (questions & Hq & H)%obind_Ok_inv. apply obind_Ok_inv in H as (answers & Ha & H).
  apply obind_Ok_inv in H as (offset & Ho & H). apply obind_Ok_inv in H as (records & Hr & [= <-]).
  exists flags, code, questions, answers, offset, records. simpl.
  split_and!; [done..|apply follow_aliases_steps|apply record_addresses].
Qed.

Lemma wp_with_stream {A} (m : eff S A) Q (s : S * nat) :
  wp m (fun r stream => Q r (stream, s.2)) s.1 → wp (with_stream m) Q s.
Proof. unfold wp, with_stream. by destruct (m s.1). Qed.

Lemma wp_lift_bind {St A B} (m : outcome A) (k : A → eff St B) (Q : outcome B → St → Prop) s :
  safe m → (∀ e, Q (Throw e) s) → (∀ a, m = Ok a → wp (k a) Q s) → wp (let* x := elift m in k x) Q s.
Proof. intros Hm He Hk. apply wp_bind, wp_lift. destruct m; [by apply Hk|by apply He|done]. Qed.

Lemma tls_query_law current (s : S * nat) :
  wp (tls_query keys current) (fun r s' => r ≠ UB ∧ s'.2 = Datatypes.S s.2
    ∧ ∀ a, r = Ok a → exchanged current a s s') s.
Proof.
  unfold tls_query. do 2 wp_step. destruct (keys_random s.2) as [Hlen Hkey].
  set (s1 := (s.1, Datatypes.S s.2)).
  destruct (keys s.2) as [|id0 [|id1 key]] eqn:Ekeys; [done..|]. clear Hlen.
  apply Forall_cons in Hkey as [Hid0 [Hid1 _]%Forall_cons].
  apply wp_lift_bind; [done|done|intros ? [= <-]]. apply wp_lift_bind; [done|done|intros ? [= <-]].
  change (Z.lor (Z.shiftl id0 8) id1) with (be_decode [id0; id1]).
  apply wp_lift_bind; [apply DnsQuery_Build_safe|by intros e; split_and!|intros message Hmsg].
  ifb; [wp_auto; by split_and!|]. b2p. apply wp_bind, wp_with_stream. unfold ByteStream_WriteAll.
  eapply wp_mono; [apply WriteAll_loop_spec; [pose proof (zlen_nonneg (u8 (zlen message ≫ 8) :: u8 (zlen message) :: message)); lia|unfold zlen; lia]|].
  intros [[]|e|] s2 (Hr2 & Hrec2 & Hsent2); [|by split_and!|done]. specialize (Hsent2 eq_refl).
  apply wp_bind, wp_with_stream. eapply wp_mono; [by apply ReadExact_spec|].
  intros [b2|e|] s3 (Hr3 & Hsent3 & Hb); [|by split_and!|done].
  destruct (Hb b2 eq_refl) as (Hrec3 & Hok2 & Hl2).
  apply wp_lift_bind; [apply safe_rd; lia|by intros e; split_and!|intros l0 Hl0].
  apply wp_lift_bind; [apply safe_rd; lia|by intros e; split_and!|intros l1 Hl1].
  destruct b2 as [|x0 [|x1 [|]]]; try (exfalso; zlia). injection Hl0 as ->. injection Hl1 as ->.
  replace (Z.lor (Z.shiftl l0 8) l1) with (be_decode [l0; l1]) by done.
  pose proof (be_decode_range _ Hok2) as [Hpos _].
  apply wp_bind, wp_with_stream. eapply wp_mono; [by apply ReadExact_spec|].
  intros [response|e|] s4 (Hr4 & Hsent4 & Hb4); [|by split_and!|done].
  destruct (Hb4 response eq_refl) as (Hrec4 & Hok4 & Hl4). apply wp_lift.
  split_and!; [by apply DnsAnswer_Parse_total|done|]. intros a Ha.
  cbn [fst snd] in *. destruct (DnsQuery_Build_labels _ _ _ Hmsg) as (labels & Hq & Hlabels & Hdots & Hname).
  exists id0, id1, labels, response. split_and!.
  - by rewrite Ekeys.
  - apply Forall_and; by split.
  - destruct Hname as [|[_ ?]]; [by left|by right].
  - rewrite <- (query_of_id id0 id1 labels Hid0 Hid1), <- Hq.
    change (st_sent s4 = st_sent s.1 ++ framed_dns message). by rewrite Hsent4, Hsent3, Hsent2.
  - change (st_received s4 = st_received s.1 ++ framed_dns response). rewrite Hrec4, Hrec3, Hrec2.
    unfold framed_dns. rewrite Hl4. change (be_encode 2 ?v) with (be_encode (length [l0; l1]) v).
    rewrite (be_encode_decode [l0; l1]) by done. by rewrite <- app_assoc.
  - by apply DnsAnswer_Parse_says.
Qed.

(** C37: a target resolved over a DNS-over-TLS stream, whatever the stream does.  At most
    [maximumQueries] queries are made, and nothing outside a message is read.  If there
    is a target, the stream carried a chain of exchanges: the first query asks, label by
    label, for the name given (in lower case, without the dot at its end), each next one
    for the canonical name of the answer before it, which had no addresses, and each under
    the two bytes of a fresh random key; the response to each repeats those two bytes, has
    the response flag and no error code, and its canonical name is reached from the name
    asked for over the CNAME and DNAME records it has.  The validated name is that of the
    last answer.  At or under ts.net, it is connected to the address that [addressIndex]
    picks of those of the A records with that name in that last response; any other
    name is left to the system resolver. *)
Theorem ResolveDnsOverTlsTarget_trust name addressIndex maximumQueries (s : S * nat) :
  wp (ResolveDnsOverTlsTarget keys name addressIndex maximumQueries) (fun r s' => safe r
    ∧ (s'.2 <= s.2 + maximumQueries)%nat
    ∧ ∀ t, r = Ok t → ∃ answer, resolved_by exchanged answer s' (Dns_NormalizeName name) s
        ∧ dt_ValidationName t = Dns_NormalizeName (da_CanonicalName answer)
        ∧ (dns_under (dt_ValidationName t) (lit "ts.net")
           ∧ da_Addresses answer !! Z.to_nat (addressIndex mod zlen (da_Addresses answer))
             = Some (dt_ConnectAddress t)
           ∨ ~ dns_under (dt_ValidationName t) (lit "ts.net")
             ∧ dt_ConnectAddress t = dt_ValidationName t)) s.
Proof. apply (wp_ResolveDnsTarget (tls_query keys) snd exchanged). apply tls_query_law. Qed.

End tls.

End dns.

(** ** Concrete messages

    With the characters lower-cased as in the classic locale. *)

Lemma to_lower_char_idem c : to_lower_char (to_lower_char c) = to_lower_char c.
Proof. unfold to_lower_char. repeat ifb; b2p; try done; lia. Qed.

(** A response whose name is a pointer to itself. *)
Definition looping_response : bytes :=
  [0; 7; 0x80; 0; 0; 1; 0; 0; 0; 0; 0; 0; 0xc0; 12; 0; 1; 0; 1].

Lemma DnsAnswer_Parse_total_witness :
  DnsAnswer_Parse to_lower_char looping_response 7 (lit "a.ts.net")
  = Throw (RuntimeError "DNS name compression loop.")
  ∧ safe (DnsAnswer_Parse to_lower_char looping_response 7 (lit "a.ts.net")).
Proof.
  split; [vm_compute; reflexivity|].
  apply (DnsAnswer_Parse_total to_lower_char looping_response 7 (lit "a.ts.net")).
  unfold looping_response. by forall_intro.
Defined.

Lemma DnsQuery_roundtrip_witness :
  Dns_NormalizeName to_lower_char (lit "Host.TS.net.") = lit "host.ts.net"
  ∧ ∃ q, DnsQuery_Build to_lower_char (lit "Host.TS.net.") 7 = Ok q
      ∧ DnsQuery_Name to_lower_char q = Ok (Some (lit "host.ts.net")).
Proof.
  split; [vm_compute; reflexivity|].
  assert (in_width 16 7) as Hw by done.
  destruct (DnsQuery_roundtrip to_lower_char to_lower_char_idem (lit "Host.TS.net.") 7 Hw) as [Hread Hbuild].
  destruct (Hbuild [lit "host"; lit "ts"; lit "net"]) as (q & Hq).
  - vm_compute. reflexivity.
  - by forall_intro.
  - repeat constructor; apply (bool_decide_unpack _); vm_compute; exact I.
  - exists q. split; [exact Hq|]. apply (Hread q Hq). vm_compute. discriminate.
Defined.

Definition demo_query : bytes :=
  match DnsQuery_Build to_lower_char (lit "www.Corp.example") 7 with Ok q => q | _ => [] end.

Definition demo_routes : list DnsRoute :=
  [{| rou_Suffix := lit "corp.example"; rou_Resolvers := [lit "10.0.0.1"] |};
   {| rou_Suffix := lit "example."; rou_Resolvers := [lit "10.0.0.2"] |}].

Lemma SelectResolver_longest_match_witness :
  SelectResolver to_lower_char demo_query [] demo_routes []
  = Ok (Some {| rs_Address := lit "10.0.0.1"; rs_RouteMatched := true |})
  ∧ ∃ route, route ∈ demo_routes
      ∧ SelectResolver to_lower_char demo_query [] demo_routes []
        = Ok (selection (first_or [] (rou_Resolvers route)) true).
Proof.
  split; [vm_compute; reflexivity|].
  destruct (SelectResolver_longest_match to_lower_char demo_query [] demo_routes []
    (lit "www.corp.example")) as [(route & Hr & _ & _ & Hs)|[_ Hs]].
  - vm_compute. reflexivity.
  - exists route. split; [exact Hr|exact Hs].
  - vm_compute in Hs. discriminate Hs.
Defined.

(** A resolver that knows one address of host.ts.net. *)
Definition demo_response : bytes :=
  [9; 9; 0x80; 0; 0; 1; 0; 1; 0; 0; 0; 0] ++ wire [lit "host"; lit "ts"; lit "net"]
  ++ [0; 0; 1; 0; 1] ++ [0xc0; 12; 0; 1; 0; 1; 0; 0; 0; 30; 0; 4; 100; 64; 0; 9].

(** An A record whose data has three bytes gives an empty address. *)
Example DnsAnswer_empty_address :
  DnsAnswer_Parse to_lower_char
    ([9; 9; 0x80; 0; 0; 1; 0; 1; 0; 0; 0; 0] ++ wire [lit "host"; lit "ts"; lit "net"]
     ++ [0; 0; 1; 0; 1] ++ [0xc0; 12; 0; 1; 0; 1; 0; 0; 0; 30; 0; 3; 100; 64; 0]) 0x0909 (lit "host.ts.net")
  = Ok {| da_CanonicalName := lit "host.ts.net"; da_Addresses := [[]] |}.
Proof. vm_compute. reflexivity. Qed.

Definition demo_resolver : pipe :=
  {| pi_incoming := [framed_dns demo_response]; pi_capacities := [Some 10; Some 500]; pi_sent := [];
     pi_received := [] |}.

Definition demo_keys (_ : nat) : bytes := replicate 32 9.

Lemma demo_keys_ok n : length (demo_keys n) = 32%nat ∧ bytes_ok (demo_keys n).
Proof. split; [done|]. by apply Forall_replicate. Qed.

Lemma ResolveDnsOverTlsTarget_trust_witness :
  (ResolveDnsOverTlsTarget to_lower_char demo_keys (lit "host.ts.net") 3 8
     (demo_resolver, 0%nat)).1
  = Ok {| dt_ValidationName := lit "host.ts.net"; dt_ConnectAddress := lit "100.64.0.9" |}
  ∧ (snd (snd (ResolveDnsOverTlsTarget to_lower_char demo_keys (lit "host.ts.net") 3 8
     (demo_resolver, 0%nat))) <= 8)%nat.
Proof.
  split; [vm_compute; reflexivity|].
  pose proof (ResolveDnsOverTlsTarget_trust to_lower_char demo_keys demo_keys_ok
    (lit "host.ts.net") 3 8 (demo_resolver, 0%nat)) as (_ & Hcount & _).
  exact Hcount.
Defined.
