(* ===== verification/Tailnet.v ===== *)
(** * The resolver of tailnet names

    src/core/net/dns/TailnetDns.cpp: the answer to a DNS query that a host sends to
    the MagicDNS address, from the names and addresses of the network map, as an
    IPv4 UDP datagram.  [boost::algorithm::to_lower] and [boost::algorithm::unhex]
    are parameters; [unhex] gives [None] where the library throws
    [hex_decode_error]. *)

From S2P Require Import Prelude Text Net Packet DerpClient Dns.

Definition DnsQuestionFooterSize : Z := 4.
Definition MaximumDnsLabelLength : Z := 63.
Definition DnsQueryResponseFlag : Z := 0x8000.
Definition DnsAuthoritativeFlag : Z := 0x0400.
Definition DnsRecursionDesiredFlag : Z := 0x0100.
Definition DnsOpcodeMask : Z := 0x7800.
Definition DnsResponseCodeNameError : Z := 3.
Definition DnsResponseCodeRefused : Z := 5.
Definition DnsTypeAaaa : Z := 28.
Definition DnsTypeAny : Z := 255.
Definition DnsClassInternet : Z := 1.
Definition TailnetRecordTimeToLive : Z := 30.
Definition DnsQuestionNamePointer : Z := 0xc00c.
Definition MagicDnsIpv4Address : Z := ip4_value (Ipv4Address_FromOctets 100 100 100 100).
Definition DnsPort : Z := 53.

Record DnsQuestion := {
  qu_Name : bytes;
  qu_Type : Z;
  qu_Class : Z;
  qu_EndOffset : Z
}.

Record TailnetHost := {
  th_Found : bool;
  th_Ipv4 : list Z;
  th_Ipv6 : list bytes
}.

(** What the resolver reads of a network map: a node's name and addresses. *)
Record TailnetNode := { tn_Name : bytes; tn_PrimaryAddress : bytes; tn_Addresses : list bytes }.

Record TailnetConfig := {
  tl_Self : TailnetNode;
  tl_Peers : list TailnetNode;
  tl_MagicDnsDomain : bytes;
  tl_Domain : bytes
}.

Definition Tailnet_Append16 (value : Z) : bytes := [u8 (Z.shiftr value 8); u8 value].

Definition Tailnet_Append32 (value : Z) : bytes :=
  [u8 (Z.shiftr value 24); u8 (Z.shiftr value 16); u8 (Z.shiftr value 8); u8 value].

Definition Tailnet_Read16 (input : bytes) (offset : Z) : outcome Z :=
  let! high := rd input offset in
  let! low := rd input (offset + 1) in
  Ok (u16 (Z.lor (Z.shiftl high 8) low)).

(** [text.find("::")] and [text.rfind("::")] *)
Fixpoint find_compression (text : bytes) : option nat :=
  match text with
  | a :: (b :: _) as rest =>
      if (a =? chr_colon) && (b =? chr_colon) then Some 0%nat else S <$> find_compression rest
  | _ => None
  end.

Fixpoint rfind_compression (text : bytes) : option nat :=
  match text with
  | a :: (b :: _) as rest =>
      match rfind_compression rest with
      | Some i => Some (S i)
      | None => if (a =? chr_colon) && (b =? chr_colon) then Some 0%nat else None
      end
  | _ => None
  end.

Section tailnet.
  Context (lower : Z → Z) (unhex : bytes → option bytes).

(** [while (!value.empty() && value.back() == '.') value.pop_back()] *)
Definition strip_dots (value : bytes) : bytes :=
  reverse ((fix strip (l : bytes) : bytes :=
              match l with
              | c :: l' => if c =? chr_dot then strip l' else l
              | [] => []
              end) (reverse value)).

Definition Tailnet_NormalizeName (value : bytes) : bytes := map lower (strip_dots value).

Fixpoint ParseQuestion_loop (fuel : nat) (query : bytes) (offset : Z) (name : bytes)
    : outcome (option (bytes * Z)) :=
  match fuel with
  | O => UB
  | S fuel' =>
      if zlen query <=? offset then Ok (Some (name, offset)) else
      let! length := rd query offset in
      if length =? 0 then Ok (Some (name, offset)) else
      let offset := offset + 1 in
      if (length =? 0) || (MaximumDnsLabelLength <? length) || (zlen query <? offset + length)
      then Ok None else
      let! label := slice query offset (offset + length) in
      ParseQuestion_loop fuel' query (offset + length) (dot_after name ++ label)
  end.

Definition ParseQuestion (query : bytes) : outcome (option DnsQuestion) :=
  if zlen query <? DnsHeaderSize then Ok None else
  let! count := Tailnet_Read16 query 4 in
  if negb (count =? 1) then Ok None else
  let! read := ParseQuestion_loop (S (length query)) query DnsHeaderSize [] in
  match read with
  | None => Ok None
  | Some (name, offset) =>
      if bool_decide (name = []) || (zlen query <=? offset)
         || (zlen query <? offset + 1 + DnsQuestionFooterSize) then Ok None else
      let offset := offset + 1 in
      let! type := Tailnet_Read16 query offset in
      let! class := Tailnet_Read16 query (offset + 2) in
      Ok (Some {| qu_Name := Tailnet_NormalizeName name; qu_Type := type; qu_Class := class;
                  qu_EndOffset := offset + DnsQuestionFooterSize |})
  end.

Definition FirstLabel (name : bytes) : bytes :=
  let normalized := Tailnet_NormalizeName name in
  match find_char chr_dot normalized with
  | Some i => take i normalized
  | None => normalized
  end.

(** [if (std::find(result...) == result.end()) result.push_back(x)] *)
Definition push_new {A} `{!EqDecision A} (result : list A) (x : A) : list A :=
  if bool_decide (x ∈ result) then result else result ++ [x].

Definition append_ipv4 (result : list Z) (text : bytes) : list Z :=
  match Ipv4Address_TryParse text with
  | Some address => push_new result (Ipv4Address_HostOrder address)
  | None => result
  end.

Definition Ipv4Addresses (addresses : list bytes) (primary : bytes) : list Z :=
  append_ipv4 (foldl append_ipv4 [] addresses) primary.

(** [parseSide]: the words of a side, seen from [start]. *)
Fixpoint parseSide (fuel : nat) (side : bytes) (words : list Z) : outcome (option (list Z)) :=
  match fuel with
  | O => UB
  | S fuel' =>
      match side with
      | [] => Ok (Some words)
      | _ =>
          let n := default (length side) (find_char chr_colon side) in
          if (n =? 0)%nat || (4 <? n)%nat then Ok None else
          let wordText := take n side in
          let wordText := if Nat.even n then wordText else 48 :: wordText in
          match unhex wordText with
          | None => Ok None
          | Some b =>
              let word := foldl (fun w x => u16 (Z.lor (Z.shiftl w 8) x)) 0 b in
              parseSide fuel' (drop (S n) side) (words ++ [word])
          end
      end
  end.

(** The eight words are the sixteen bytes of the result. *)
Definition ParseIpv6 (text : bytes) : outcome (option bytes) :=
  let compression := find_compression text in
  if bool_decide (text = []) || bool_decide (is_Some (find_char chr_dot text))
     || negb (bool_decide (compression = rfind_compression text)) then Ok None else
  let leftText := match compression with Some i => take i text | None => text end in
  let rightText := match compression with Some i => drop (i + 2) text | None => [] end in
  let! parsedLeft := parseSide (S (length leftText)) leftText [] in
  let! parsedRight := parseSide (S (length rightText)) rightText [] in
  match parsedLeft, parsedRight with
  | Some leftWords, Some rightWords =>
      let short := match compression with
                   | None => negb (length leftWords =? 8)%nat
                   | Some _ => (8 <=? length leftWords + length rightWords)%nat
                   end in
      if short then Ok None else
      let words := leftWords ++ replicate (8 - length leftWords - length rightWords) 0
                   ++ rightWords in
      Ok (Some (concat (map (fun w => [u8 (Z.shiftr w 8); u8 w]) words)))
  | _, _ => Ok None
  end.

Fixpoint Ipv6Addresses (addresses : list bytes) (result : list bytes) : outcome (list bytes) :=
  match addresses with
  | [] => Ok result
  | text :: rest =>
      let! address := ParseIpv6 text in
      Ipv6Addresses rest (match address with Some a => push_new result a | None => result end)
  end.

Definition NoHost : TailnetHost := {| th_Found := false; th_Ipv4 := []; th_Ipv6 := [] |}.

(** The node a name stands for: none, one, or [None] when it is ambiguous. *)
Fixpoint find_match (queriedName : bytes) (nodes : list TailnetNode) (found : option TailnetNode)
    : option TailnetNode :=
  match nodes with
  | [] => found
  | node :: rest =>
      let singleLabel := bool_decide (find_char chr_dot queriedName = None) in
      let normalized := Tailnet_NormalizeName (tn_Name node) in
      let matches := bool_decide (normalized = queriedName)
                     || (singleLabel && bool_decide (FirstLabel normalized = queriedName)) in
      if matches then
        match found with
        | Some _ => None
        | None => find_match queriedName rest (Some node)
        end
      else find_match queriedName rest found
  end.

Definition FindHost (config : TailnetConfig) (queriedName : bytes) : outcome TailnetHost :=
  match find_match queriedName (tl_Self config :: tl_Peers config) None with
  | None => Ok NoHost
  | Some node =>
      let! ipv6 := Ipv6Addresses (tn_Addresses node) [] in
      Ok {| th_Found := true;
            th_Ipv4 := Ipv4Addresses (tn_Addresses node) (tn_PrimaryAddress node);
            th_Ipv6 := ipv6 |}
  end.

Definition IsTailnetName (config : TailnetConfig) (name : bytes) : bool :=
  if bool_decide (find_char chr_dot name = None) then true else
  let magicDomain := match tl_MagicDnsDomain config with
                     | [] => tl_Domain config
                     | domain => domain
                     end in
  negb (bool_decide (magicDomain = [])) && DnsNameHasSuffix lower name magicDomain.

Definition record_ipv4 (address : Z) : bytes :=
  Tailnet_Append16 DnsQuestionNamePointer ++ Tailnet_Append16 DnsTypeA ++ Tailnet_Append16 DnsClassInternet
  ++ Tailnet_Append32 TailnetRecordTimeToLive ++ Tailnet_Append16 4 ++ Tailnet_Append32 address.

Definition record_ipv6 (address : bytes) : bytes :=
  Tailnet_Append16 DnsQuestionNamePointer ++ Tailnet_Append16 DnsTypeAaaa ++ Tailnet_Append16 DnsClassInternet
  ++ Tailnet_Append32 TailnetRecordTimeToLive ++ Tailnet_Append16 (zlen address) ++ address.

Definition BuildDnsResponse (query : bytes) (question : DnsQuestion) (ipv4 : list Z)
    (ipv6 : list bytes) (responseCode : Z) : outcome bytes :=
  let! requestFlags := Tailnet_Read16 query 2 in
  let flags := Z.lor (Z.lor (Z.lor DnsQueryResponseFlag DnsAuthoritativeFlag)
                        (Z.land requestFlags DnsRecursionDesiredFlag)) responseCode in
  let! id := Tailnet_Read16 query 0 in
  let! echoed := slice query DnsHeaderSize (qu_EndOffset question) in
  Ok (Tailnet_Append16 id ++ Tailnet_Append16 flags ++ Tailnet_Append16 1 ++ Tailnet_Append16 (u16 (zlen ipv4 + zlen ipv6))
      ++ Tailnet_Append16 0 ++ Tailnet_Append16 0 ++ echoed
      ++ concat (map record_ipv4 ipv4) ++ concat (map record_ipv6 ipv6)).

(** The addresses and the response code for a question. *)
Definition answer_question (config : TailnetConfig) (question : DnsQuestion)
    : outcome (list Z * list bytes * Z) :=
  if negb (qu_Class question =? DnsClassInternet)
     || (negb (qu_Type question =? DnsTypeA) && negb (qu_Type question =? DnsTypeAaaa)
         && negb (qu_Type question =? DnsTypeAny))
  then Ok ([], [], 0)
  else if negb (IsTailnetName config (qu_Name question))
  then Ok ([], [], DnsResponseCodeRefused)
  else
    let! host := FindHost config (qu_Name question) in
    if negb (th_Found host) then Ok ([], [], DnsResponseCodeNameError) else
    Ok (if (qu_Type question =? DnsTypeA) || (qu_Type question =? DnsTypeAny)
        then th_Ipv4 host else [],
        if (qu_Type question =? DnsTypeAaaa) || (qu_Type question =? DnsTypeAny)
        then th_Ipv6 host else [], 0).

Definition TailnetDnsResponse_Build (config : TailnetConfig) (request : bytes)
    : outcome (option bytes) :=
  let! datagram := Ipv4UdpDatagram_Parse request in
  match datagram with
  | None => Ok None
  | Some d =>
      if negb (udp_destination d =? MagicDnsIpv4Address) || negb (udp_destinationPort d =? DnsPort)
         || (zlen (udp_payload d) <? DnsHeaderSize) then Ok None else
      let! flags := Tailnet_Read16 (udp_payload d) 2 in
      let! question := ParseQuestion (udp_payload d) in
      match question with
      | Some question =>
          if negb (Z.land flags (Z.lor DnsQueryResponseFlag DnsOpcodeMask) =? 0) then Ok None else
          let! (ipv4, ipv6, responseCode) := answer_question config question in
          let! dnsResponse := BuildDnsResponse (udp_payload d) question ipv4 ipv6 responseCode in
          let! reply := Ipv4UdpDatagram_Build MagicDnsIpv4Address (udp_source d) DnsPort
                          (udp_sourcePort d) dnsResponse in
          Ok (Some reply)
      | None => Ok None
      end
  end.

(** ** Lists without repetitions *)

Lemma elem_of_push_new {A} `{!EqDecision A} (l : list A) x y :
  y ∈ push_new l x ↔ y ∈ l ∨ y = x.
Proof. unfold push_new. case_bool_decide; set_solver. Qed.

Lemma NoDup_push_new {A} `{!EqDecision A} (l : list A) x : NoDup l → NoDup (push_new l x).
Proof.
  unfold push_new. case_bool_decide; [done|]. intros. apply NoDup_app.
  split_and!; [done|set_solver|apply NoDup_singleton].
Qed.

(** ** Questions *)

(** Both parsers read the labels of a query in the same way. *)
Lemma ParseQuestion_loop_eq fuel query offset name :
  ParseQuestion_loop fuel query offset name = DnsQuery_Name_loop fuel query offset name.
Proof.
  revert offset name. induction fuel as [|fuel IH]; intros offset name; [done|].
  cbn [ParseQuestion_loop DnsQuery_Name_loop]. ifb; [done|].
  destruct (rd query offset) as [n|e|]; [|done|done]. cbn [obind]. ifb; [done|]. cbn [orb].
  unfold MaximumDnsLabelLength. ifb; [done|]. destruct (slice _ _ _); [|done|done]. apply IH.
Qed.

Lemma Tailnet_Read16_app l q r offset :
  zlen l = offset → length q = 2%nat → bytes_ok q →
  Tailnet_Read16 (l ++ q ++ r) offset = Ok (be_decode q).
Proof.
  intros Hl Hq Hok. unfold Tailnet_Read16.
  exact (Ipv4_read16_app l q r offset Hl Hq Hok).
Qed.

Lemma Tailnet_Read16_Ok input offset :
  0 <= offset ∧ offset + 2 <= zlen input → ∃ v, Tailnet_Read16 input offset = Ok v ∧ in_width 16 v.
Proof. apply Ipv4_read16_Ok. Qed.

Lemma joined_nonempty labels : labels ≠ [] → Forall label_ok labels → joined [] labels ≠ [].
Proof.
  intros Hne Hl. destruct Hl as [|l labels Hl Hls]; [done|]. rewrite joined_cons by done.
  destruct l; [by destruct Hl|done].
Qed.

Lemma ParseQuestion_query transactionId labels :
  labels ≠ [] → Forall label_ok labels →
  ParseQuestion (query_of transactionId labels)
  = Ok (Some {| qu_Name := Tailnet_NormalizeName (joined [] labels); qu_Type := DnsTypeA;
                qu_Class := DnsClassInternet; qu_EndOffset := 12 + zlen (wire labels) + 5 |}).
Proof.
  intros Hne Hl. pose proof (DnsQuery_Name_loop_query transactionId labels Hl) as Hloop.
  pose proof (zlen_query transactionId labels) as Hz. pose proof (zlen_nonneg (wire labels)).
  unfold ParseQuestion. set (q := query_of transactionId labels) in *.
  unfold DnsHeaderSize, DnsQuestionFooterSize in *. ifb; [b2p; lia|].
  change (Tailnet_Read16 q 4) with (Ok 1). cbn [obind]. change (negb (1 =? 1)) with false. cbv iota.
  rewrite ParseQuestion_loop_eq, Hloop. cbn [obind].
  rewrite (bool_decide_eq_false_2 _ (joined_nonempty labels Hne Hl)). cbn [orb].
  ifb; [b2p; lia|].
  set (pre := query_header transactionId ++ wire labels ++ [0]).
  assert (zlen pre = 12 + zlen (wire labels) + 1) as Hpre by (unfold pre, query_header; zlia).
  assert (q = pre ++ [0; 1] ++ [0; 1]) as Hq.
  { unfold q, query_of, pre. by rewrite <- !app_assoc. }
  rewrite Hq. rewrite Tailnet_Read16_app by (done || by forall_intro). cbn [obind].
  rewrite app_assoc, <- (app_nil_r ((pre ++ [0; 1]) ++ [0; 1])), <- app_assoc.
  rewrite Tailnet_Read16_app by (zlia || done || by forall_intro). cbn [obind].
  do 2 f_equal. f_equal. lia.
Qed.

(** ** Responses *)

Lemma zlen_record_ipv4 a : zlen (record_ipv4 a) = 16.
Proof. done. Qed.

Lemma u8_ok x : in_width 8 (u8 x).
Proof. by apply wrap_range. Qed.

(** The address record of a name at offset 12. *)
Definition address_record (name : bytes) (a : Z) : ResourceRecord :=
  {| rr_Name := Dns_NormalizeName lower name; rr_Type := DnsTypeA; rr_NameValue := [];
     rr_Address := Ipv4Address_ToString {| ip4_value := a |} |}.

(** One address record is parsed. *)
Lemma Parse_answers_record count pre a rest records name o :
  let message := pre ++ record_ipv4 a ++ rest in
  ReadName 31 message 12 = Ok (name, o) →
  Parse_answers lower (S count) message (zlen pre) records
  = Parse_answers lower count message (zlen pre + 16) (records ++ [address_record name a]).
Proof.
  intros message Hn. cbn [Parse_answers]. pose proof (zlen_nonneg rest).
  assert (zlen message = zlen pre + 16 + zlen rest) as Hz
    by (unfold message; rewrite !zlen_app, zlen_record_ipv4; lia).
  assert (message = pre ++ [0xc0; 12] ++ ([0; 1] ++ [0; 1; 0; 0; 0; 30] ++ [0; 4] ++ Tailnet_Append32 a ++ rest))
    as Hm by (unfold message, record_ipv4; by rewrite <- !app_assoc).
  rewrite Hm in Hn |- *. unfold MaximumDnsNameDepth. rewrite (ReadName_pointer 31 pre 12 _ name o) by (lia || exact Hn).
  rewrite <- Hm. cbn [obind]. ifb; [b2p; lia|].
  replace (Dns_Read16 message (zlen pre + 2)) with (Ok 1).
  2:{ symmetry. rewrite Hm, app_assoc. rewrite Dns_Read16_app by (zlia || done || by forall_intro). done. }
  replace (Dns_Read16 message (zlen pre + 2 + 8)) with (Ok 4).
  2:{ symmetry. rewrite Hm.
      replace (pre ++ _) with ((pre ++ [0xc0; 12; 0; 1; 0; 1; 0; 0; 0; 30]) ++ [0; 4] ++ Tailnet_Append32 a ++ rest)
        by (by rewrite <- !app_assoc).
      rewrite Dns_Read16_app by (zlia || done || by forall_intro). done. }
  cbn [obind]. ifb; [b2p; lia|].
  assert (∀ i b, Tailnet_Append32 a !! i = Some b → rd message (zlen pre + 12 + Z.of_nat i) = Ok b) as Hrd.
  { intros i b Hi. rewrite Hm.
    replace (pre ++ _) with ((pre ++ [0xc0; 12; 0; 1; 0; 1; 0; 0; 0; 30; 0; 4]) ++ Tailnet_Append32 a ++ rest)
      by (by rewrite <- !app_assoc).
    rewrite rd_app_r by zlia. replace (_ - _) with (Z.of_nat i) by zlia.
    pose proof (lookup_lt_Some _ _ _ Hi). rewrite rd_app_l by (unfold zlen; lia).
    unfold rd. ifb; [b2p; lia|]. by rewrite Nat2Z.id, Hi. }
  unfold Parse_data. change (1 =? DnsTypeCname) with false. change (1 =? DnsTypeDname) with false.
  cbn [orb andb]. change ((1 =? DnsTypeA) && (4 =? 4)) with true. cbv iota.
  replace (zlen pre + 2 + 10) with (zlen pre + 12) by lia.
  pose proof (Hrd 0%nat _ eq_refl) as R0. pose proof (Hrd 1%nat _ eq_refl) as R1.
  pose proof (Hrd 2%nat _ eq_refl) as R2. pose proof (Hrd 3%nat _ eq_refl) as R3.
  change (Z.of_nat 0) with 0 in R0. change (Z.of_nat 1) with 1 in R1. change (Z.of_nat 2) with 2 in R2.
  change (Z.of_nat 3) with 3 in R3. rewrite Z.add_0_r in R0.
  rewrite R0, R1, R2, R3. cbn [obind].
  replace (zlen pre + 12 + 4) with (zlen pre + 16) by lia. done.
Qed.

Lemma Parse_answers_records addresses pre records name o :
  let message := pre ++ concat (map record_ipv4 addresses) in
  ReadName 31 message 12 = Ok (name, o) →
  Parse_answers lower (length addresses) message (zlen pre) records
  = Ok (records ++ map (address_record name) addresses).
Proof.
  cbv zeta. revert pre records. induction addresses as [|a addresses IH]; intros pre records Hn.
  { cbn [length map Parse_answers]. by rewrite (app_nil_r records). }
  cbn [map concat length] in *. rewrite (Parse_answers_record _ pre a _ _ name o) by done.
  replace (zlen pre + 16) with (zlen (pre ++ record_ipv4 a)) by (rewrite zlen_app; by rewrite zlen_record_ipv4).
  rewrite app_assoc in Hn |- *. rewrite IH by done. by rewrite <- app_assoc.
Qed.

(** The response to the query of [labels] with these addresses and this code. *)
Definition response_header (id count code : Z) : bytes :=
  Tailnet_Append16 id ++ Tailnet_Append16 (Z.lor 0x8500 code) ++ Tailnet_Append16 1 ++ Tailnet_Append16 (u16 count)
  ++ Tailnet_Append16 0 ++ Tailnet_Append16 0.
Definition response_of (id : Z) (labels : list bytes) (ipv4 : list Z) (code : Z) : bytes :=
  response_header id (zlen ipv4) code ++ (wire labels ++ [0; 0; 1; 0; 1])
  ++ concat (map record_ipv4 ipv4).

Lemma Tailnet_Append16_be v : Tailnet_Append16 v = be_encode 2 v.
Proof. done. Qed.

Lemma query_Read16_id id labels : in_width 16 id → Tailnet_Read16 (query_of id labels) 0 = Ok id.
Proof.
  intros Hid. unfold query_of, query_header.
  change (Tailnet_Read16 (?q ++ ?r) 0) with (Tailnet_Read16 ([] ++ be_encode 2 id ++ (drop 2 q ++ r)) 0).
  rewrite Tailnet_Read16_app by (done || apply bytes_ok_be_encode).
  rewrite be_decode_encode. f_equal. by apply Z.mod_small.
Qed.

Lemma BuildDnsResponse_query id labels name type class ipv4 code :
  in_width 16 id →
  BuildDnsResponse (query_of id labels) {| qu_Name := name; qu_Type := type; qu_Class := class;
    qu_EndOffset := 12 + zlen (wire labels) + 5 |} ipv4 [] code = Ok (response_of id labels ipv4 code).
Proof.
  intros Hid. unfold BuildDnsResponse. rewrite query_Read16_id by done.
  change (Tailnet_Read16 (query_of id labels) 2) with (Ok 256). cbn [obind qu_EndOffset].
  replace (slice _ _ _) with (Ok (wire labels ++ [0; 0; 1; 0; 1])).
  2:{ symmetry. unfold query_of, DnsHeaderSize. rewrite <- (app_nil_r (wire labels ++ _)).
      apply slice_full; unfold query_header; zlia. }
  cbn [obind map concat]. rewrite app_nil_r. f_equal. unfold response_of, response_header.
  change (zlen []) with 0. rewrite Z.add_0_r. by rewrite <- !app_assoc.
Qed.

Lemma Dns_Read16_append pre v rest offset :
  zlen pre = offset → Dns_Read16 (pre ++ Tailnet_Append16 v ++ rest) offset = Ok (u16 v).
Proof.
  intros Hp. rewrite Tailnet_Append16_be, Dns_Read16_app by (done || apply bytes_ok_be_encode).
  by rewrite be_decode_encode.
Qed.

Lemma response_code code :
  0 <= code < 16 →
  u8 (Z.shiftr (Z.lor 0x8500 code) 8) = 0x85 ∧ Z.land (u8 (Z.lor 0x8500 code)) 0x0f = code.
Proof.
  intros Hc.
  assert (Forall (fun c => u8 (Z.shiftr (Z.lor 0x8500 c) 8) = 0x85
    ∧ Z.land (u8 (Z.lor 0x8500 c)) 0x0f = c) (seqZ 0 16)) as Hall by (by forall_intro).
  rewrite Forall_forall in Hall. apply Hall, elem_of_seqZ. lia.
Qed.

Lemma alias_of_addresses name addresses current :
  alias_of lower (map (address_record name) addresses) current = None.
Proof. induction addresses as [|a addresses IH]; [done|]. exact IH. Qed.

Lemma follow_aliases_addresses passes name addresses current :
  follow_aliases lower passes (map (address_record name) addresses) current = current.
Proof. destruct passes; [done|]. cbn [follow_aliases]. by rewrite alias_of_addresses. Qed.

Lemma addresses_of_records name addresses :
  omap (record_address (Dns_NormalizeName lower name)) (map (address_record name) addresses)
  = map (fun a => Ipv4Address_ToString {| ip4_value := a |}) addresses.
Proof.
  induction addresses as [|a addresses IH]; [done|]. cbn [map omap list_omap].
  unfold record_address at 1. simpl. rewrite bool_decide_eq_true_2 by done. by f_equal.
Qed.

Context (lower_lower : ∀ c, lower (lower c) = lower c).

Lemma DnsAnswer_Parse_response id labels ipv4 code name :
  in_width 16 id → zlen ipv4 < 65536 → 0 <= code < 16 → Forall label_ok labels →
  Dns_NormalizeName lower name = joined [] labels → last (joined [] labels) ≠ Some chr_dot →
  DnsAnswer_Parse lower (response_of id labels ipv4 code) id name
  = if code =? 0 then Ok {| da_CanonicalName := Dns_NormalizeName lower name;
      da_Addresses := map (fun a => Ipv4Address_ToString {| ip4_value := a |}) ipv4 |}
    else Throw (DnsResponseError (Dns_NormalizeName lower name) code).
Proof.
  intros Hid Hcount Hcode Hl Hname Hlast. pose proof (zlen_nonneg ipv4).
  set (hdr := response_header id (zlen ipv4) code). set (m := response_of id labels ipv4 code).
  assert (zlen hdr = 12) as Hhdr by done.
  assert (m = hdr ++ wire labels ++ 0 :: [0; 1; 0; 1] ++ concat (map record_ipv4 ipv4)) as Hm.
  { unfold m, response_of. by rewrite <- !app_assoc. }
  assert (zlen m = 12 + zlen (wire labels) + 5 + zlen (concat (map record_ipv4 ipv4))) as Hz
    by (rewrite Hm; zlia).
  pose proof (zlen_nonneg (wire labels)). pose proof (zlen_nonneg (concat (map record_ipv4 ipv4))).
  assert (∀ levels, ReadName (S levels) m 12 = Ok (joined [] labels, 12 + zlen (wire labels) + 1)) as Hread.
  { intros levels. rewrite Hm, <- Hhdr. by apply ReadName_written. }
  unfold DnsAnswer_Parse, DnsHeaderSize. ifb; [b2p; lia|].
  destruct (response_code code Hcode) as [Hflags Hresponse].
  assert (Dns_Read16 m 0 = Ok id) as ->.
  { change m with ([] ++ Tailnet_Append16 id ++ drop 2 m). by rewrite Dns_Read16_append, wrap_id. }
  change (rd m 2) with (Ok (u8 (Z.shiftr (Z.lor 0x8500 code) 8))).
  change (rd m 3) with (Ok (u8 (Z.lor 0x8500 code))).
  cbn [obind]. rewrite Z.eqb_refl, Hflags. cbn [negb]. change (Z.land 0x85 DnsResponseFlag =? 0) with false.
  cbv iota. unfold DnsResponseCodeMask. rewrite Hresponse.
  destruct (Z.eqb_spec code 0) as [->|Hne]; cbn [negb]; [|done].
  assert (Dns_Read16 m 4 = Ok 1) as ->.
  { change m with ((take 4 m) ++ Tailnet_Append16 1 ++ drop 6 m). by rewrite Dns_Read16_append. }
  assert (Dns_Read16 m 6 = Ok (zlen ipv4)) as ->.
  { change m with ((take 6 m) ++ Tailnet_Append16 (u16 (zlen ipv4)) ++ drop 8 m).
    rewrite Dns_Read16_append by done. rewrite (wrap_id 16 (zlen ipv4)) by (unfold in_width; lia).
    by rewrite wrap_id by (unfold in_width; lia). }
  cbn [obind]. change (Z.to_nat 1) with 1%nat. cbn [Parse_questions]. unfold MaximumDnsNameDepth.
  rewrite Hread. cbn [obind]. ifb; [b2p; lia|]. cbn [obind].
  replace (Z.to_nat (zlen ipv4)) with (length ipv4) by (unfold zlen; lia).
  set (pre := hdr ++ wire labels ++ [0; 0; 1; 0; 1]).
  assert (m = pre ++ concat (map record_ipv4 ipv4)) as Hpre.
  { rewrite Hm. unfold pre. by rewrite <- !app_assoc. }
  replace (12 + zlen (wire labels) + 1 + 4) with (zlen pre) by (unfold pre; zlia).
  rewrite Hpre in Hread |- *. rewrite (Parse_answers_records ipv4 pre [] _ _ (Hread 30%nat)).
  cbn [obind app]. rewrite follow_aliases_addresses.
  assert (Dns_NormalizeName lower (joined [] labels) = Dns_NormalizeName lower name) as Hnn.
  { rewrite Hname. apply NormalizeName_normal; [|done]. rewrite <- Hname. by apply NormalizeName_lower. }
  by rewrite <- Hnn, addresses_of_records.
Qed.

Lemma Tailnet_NormalizeName_normal name :
  map lower name = name → last name ≠ Some chr_dot → Tailnet_NormalizeName name = name.
Proof.
  intros Hn Hl. unfold Tailnet_NormalizeName, strip_dots. rewrite <- head_reverse in Hl.
  destruct (reverse name) as [|c l] eqn:E; [by apply (f_equal length) in E; rewrite length_reverse in E; destruct name|].
  simpl in Hl. destruct (Z.eqb_spec c chr_dot) as [->|]; [done|].
  by rewrite <- E, reverse_involutive.
Qed.

(** *** The addresses of a host *)

Lemma parseSide_total fuel side words :
  (length side < fuel)%nat → ∃ o, parseSide fuel side words = Ok o.
Proof.
  revert side words. induction fuel as [|fuel IH]; intros side words Hf; [lia|].
  cbn [parseSide]. destruct side as [|b side]; [by eexists|]. ifb; [by eexists|].
  destruct (unhex _); [|by eexists]. apply IH. rewrite length_drop. simpl in *. lia.
Qed.

Lemma ParseIpv6_total text : ∃ o, ParseIpv6 text = Ok o.
Proof.
  unfold ParseIpv6. ifb; [by eexists|].
  destruct (parseSide_total (S (length (match find_compression text with Some i => take i text | None => text end)))
    (match find_compression text with Some i => take i text | None => text end) []) as (l & ->); [lia|].
  cbn [obind].
  destruct (parseSide_total (S (length (match find_compression text with Some i => drop (i + 2) text | None => [] end)))
    (match find_compression text with Some i => drop (i + 2) text | None => [] end) []) as (r & ->); [lia|].
  cbn [obind]. destruct l, r; try by eexists. ifb; by eexists.
Qed.

Lemma Ipv6Addresses_total addresses result : ∃ l, Ipv6Addresses addresses result = Ok l.
Proof.
  revert result. induction addresses as [|a addresses IH]; intros result; [by eexists|].
  cbn [Ipv6Addresses]. destruct (ParseIpv6_total a) as (o & ->). apply IH.
Qed.

Lemma FindHost_total config name : ∃ host, FindHost config name = Ok host.
Proof.
  unfold FindHost. destruct (find_match _ _ _) as [node|]; [|by eexists].
  destruct (Ipv6Addresses_total (tn_Addresses node) []) as (l & ->). by eexists.
Qed.

(** *** What a name stands for *)

(** A name at or under a domain, which is given in any case and with or without a
    final dot. *)
Definition name_under (name domain : bytes) : Prop :=
  ∃ text, (domain = text ++ [chr_dot] ∨ domain = text ∧ last text ≠ Some chr_dot)
    ∧ (name = map lower text ∨ ∃ labels, name = labels ++ chr_dot :: map lower text).

(** The tailnet answers for names of one label, and for those under its MagicDNS domain,
    or under the domain of the tailnet when there is no MagicDNS domain. *)
Definition tailnet_name (config : TailnetConfig) (name : bytes) : Prop :=
  chr_dot ∉ name
  ∨ tl_MagicDnsDomain config ≠ [] ∧ name_under name (tl_MagicDnsDomain config)
  ∨ tl_MagicDnsDomain config = [] ∧ tl_Domain config ≠ [] ∧ name_under name (tl_Domain config).

(** A node has its full name, in lower case and without the dots at the end, and the
    first label of it. *)
Definition node_named (name : bytes) (node : TailnetNode) : Prop :=
  ∃ text dots, tn_Name node = text ++ replicate dots chr_dot ∧ last text ≠ Some chr_dot
    ∧ (map lower text = name
       ∨ (chr_dot ∉ name) ∧ ∃ rest, map lower text = name ++ chr_dot :: rest).

(** The one node, of this one and its peers, that has the name. *)
Definition the_node (config : TailnetConfig) (name : bytes) (node : TailnetNode) : Prop :=
  ∃ before after, tl_Self config :: tl_Peers config = before ++ node :: after
    ∧ node_named name node ∧ Forall (fun other => ~ node_named name other) (before ++ after).

(** The IPv4 addresses of a node: those of its texts that are one, each once and in their
    order, the primary one last. *)
Definition node_addresses (node : TailnetNode) (addresses : list Z) : Prop :=
  let given := omap (fun text => ip4_value <$> Ipv4Address_TryParse text)
                 (tn_Addresses node ++ [tn_PrimaryAddress node]) in
  NoDup addresses ∧ (addresses `sublist_of` given) ∧ ∀ a, a ∈ given → a ∈ addresses.

(** What the answer to an address query for a name says. *)
Definition resolution (config : TailnetConfig) (name : bytes) (answer : outcome DnsAnswer) : Prop :=
  ~ tailnet_name config name ∧ answer = Throw (DnsResponseError name 5)
  ∨ tailnet_name config name ∧ (∀ node, ~ the_node config name node)
    ∧ answer = Throw (DnsResponseError name 3)
  ∨ tailnet_name config name
    ∧ ∃ node addresses, the_node config name node ∧ node_addresses node addresses
        ∧ answer = Ok {| da_CanonicalName := name;
                         da_Addresses := map (fun a => Ipv4Address_ToString {| ip4_value := a |}) addresses |}.

(** The suffix test is that of [name_under]. *)
Lemma HasSuffix_under name domain :
  Dns_NormalizeName lower name = name → DnsNameHasSuffix lower name domain = true ↔ name_under name domain.
Proof.
  intros Hn. rewrite DnsNameHasSuffix_spec, Hn. unfold name_under, Dns_NormalizeName.
  assert (∀ text, (domain = text ++ [chr_dot] ∨ domain = text ∧ last text ≠ Some chr_dot)
            ↔ text = match last domain with
                     | Some c => if c =? chr_dot then removelast domain else domain
                     | None => domain
                     end) as Htext.
  { intros text. destruct (last domain) as [c|] eqn:El.
    - apply last_Some in El as [l ->]. rewrite removelast_last. destruct (Z.eqb_spec c chr_dot) as [->|Hne].
      + split; [|intros ->; by left]. intros [H|[<- H]]; [|by rewrite last_snoc in H].
        by apply app_inj_tail in H as [-> _].
      + split; [|intros ->; right; split; [done|]; rewrite last_snoc; congruence].
        intros [H|[-> _]]; [|done]. apply app_inj_tail in H as [_ ->]. done.
    - apply last_None in El as ->. split; [|intros ->; by right]. intros [H|[<- _]]; [|done].
      by destruct text. }
  setoid_rewrite Htext. naive_solver.
Qed.

Lemma IsTailnetName_spec config name :
  Dns_NormalizeName lower name = name → IsTailnetName config name = true ↔ tailnet_name config name.
Proof.
  intros Hn. unfold IsTailnetName, tailnet_name.
  case_bool_decide as Hdot; rewrite find_char_None in Hdot; [tauto|].
  rewrite andb_true_iff, negb_true_iff, bool_decide_eq_false, HasSuffix_under by done.
  destruct (tl_MagicDnsDomain config); naive_solver.
Qed.

(** The dots at the end. *)
Lemma strip_dots_spec value :
  ∃ dots, value = strip_dots value ++ replicate dots chr_dot ∧ last (strip_dots value) ≠ Some chr_dot.
Proof.
  unfold strip_dots. assert (value = reverse (reverse value)) as Hv by by rewrite reverse_involutive.
  revert Hv. generalize (reverse value) as l. intros l ->.
  induction l as [|c l (dots & Hl & Hlast)]; [by exists 0%nat|].
  destruct (Z.eqb_spec c chr_dot) as [->|Hne].
  - exists (S dots). rewrite reverse_cons, Hl. split; [|done].
    rewrite <- app_assoc. f_equal. by rewrite <- replicate_S_end.
  - exists 0%nat. rewrite app_nil_r. split; [done|].
    rewrite reverse_cons, last_snoc. congruence.
Qed.

Lemma strip_dots_app text dots :
  last text ≠ Some chr_dot → strip_dots (text ++ replicate dots chr_dot) = text.
Proof.
  intros Hlast. unfold strip_dots. rewrite reverse_app, reverse_replicate. rewrite <- head_reverse in Hlast.
  induction dots as [|dots IH]; simpl; [|exact IH].
  destruct (reverse text) as [|c l] eqn:E; [by rewrite <- (reverse_involutive text), E|].
  destruct (Z.eqb_spec c chr_dot) as [->|]; [done|]. by rewrite <- E, reverse_involutive.
Qed.

(** The dots at the end do not count for the first label. *)
Lemma FirstLabel_spec normalized name :
  map lower normalized = normalized → chr_dot ∉ name →
  FirstLabel normalized = name ↔ normalized = name ∨ ∃ rest, normalized = name ++ chr_dot :: rest.
Proof.
  intros Hlow Hname. unfold FirstLabel, Tailnet_NormalizeName.
  destruct (strip_dots_spec normalized) as (dots & Hx & Hlast). set (y := strip_dots normalized) in *.
  assert (map lower y = y) as ->.
  { rewrite Hx, map_app in Hlow. by apply app_inj_1 in Hlow as [? _]; [|rewrite length_map]. }
  destruct (find_char chr_dot y) as [k|] eqn:Ef.
  - apply find_char_Some in Ef as [Hy Hk]. set (first := take k y) in *. rewrite Hx, Hy, <- app_assoc. simpl.
    split; [intros <-; right; by eexists|]. intros [H|(rest & H)].
    + exfalso. apply Hname. rewrite <- H. set_solver.
    + pose proof (find_char_app chr_dot first (drop (S k) y ++ replicate dots chr_dot) Hk) as H1.
      rewrite H, find_char_app in H1 by done. injection H1 as Hlen. by apply app_inj_1 in H as [? _].
  - apply find_char_None in Ef. rewrite Hx. split.
    + intros ->. destruct dots as [|dots]; [left; by rewrite app_nil_r|right; by eexists].
    + intros [H|(rest & H)].
      * destruct dots as [|dots]; [by rewrite app_nil_r in H|]. exfalso. apply Hname. rewrite <- H. simpl. set_solver.
      * destruct dots as [|dots]; [rewrite app_nil_r in H; exfalso; apply Ef; rewrite H; set_solver|].
        pose proof (find_char_app chr_dot y (replicate dots chr_dot) Ef) as H1. simpl in H.
        rewrite H, find_char_app in H1 by done. injection H1 as Hlen. by apply app_inj_1 in H as [? _].
Qed.

Lemma node_named_spec name node :
  let normalized := Tailnet_NormalizeName (tn_Name node) in
  bool_decide (normalized = name)
  || (bool_decide (find_char chr_dot name = None) && bool_decide (FirstLabel normalized = name)) = true
  ↔ node_named name node.
Proof.
  cbv zeta. rewrite orb_true_iff, andb_true_iff, !bool_decide_eq_true, find_char_None.
  assert (map lower (Tailnet_NormalizeName (tn_Name node)) = Tailnet_NormalizeName (tn_Name node)) as Hlow
    by by apply map_lower_idem.
  assert (node_named name node ↔ Tailnet_NormalizeName (tn_Name node) = name
            ∨ (chr_dot ∉ name) ∧ ∃ rest, Tailnet_NormalizeName (tn_Name node) = name ++ chr_dot :: rest) as ->.
  { unfold node_named, Tailnet_NormalizeName. split.
    - intros (text & dots & -> & Hlast & H). by rewrite strip_dots_app.
    - intros H. destruct (strip_dots_spec (tn_Name node)) as (dots & Hx & Hlast). eauto. }
  destruct (decide (chr_dot ∈ name)) as [Hin|Hnin]; [naive_solver|].
  rewrite FirstLabel_spec by done. naive_solver.
Qed.

(** Once a node was found, the name is its own unless another one has it too. *)
Lemma find_match_found name nodes node :
  find_match name nodes (Some node) = Some node ∧ Forall (fun other => ~ node_named name other) nodes
  ∨ find_match name nodes (Some node) = None ∧ Exists (node_named name) nodes.
Proof.
  induction nodes as [|other nodes IH]; cbn [find_match]; [by left|].
  pose proof (node_named_spec name other) as Hspec. cbv zeta in Hspec.
  destruct (_ || _); [right; split; [done|]; apply Exists_cons; left; by apply Hspec|].
  destruct IH as [[-> H]|[-> H]]; [left|right]; split; try done.
  - constructor; [|done]. intros ?%Hspec. done.
  - apply Exists_cons. by right.
Qed.

Lemma find_match_spec name nodes :
  match find_match name nodes None with
  | Some node => ∃ before after, nodes = before ++ node :: after
      ∧ node_named name node ∧ Forall (fun other => ~ node_named name other) (before ++ after)
  | None => ∀ node before after, nodes = before ++ node :: after → node_named name node →
      Forall (fun other => ~ node_named name other) (before ++ after) → False
  end.
Proof.
  induction nodes as [|other nodes IH]; cbn [find_match]; [by intros ? [] ?|].
  pose proof (node_named_spec name other) as Hspec. cbv zeta in Hspec. destruct (_ || _).
  - assert (node_named name other) as Hother by by apply Hspec.
    destruct (find_match_found name nodes other) as [[-> H]|[-> H]]; [by exists [], nodes|].
    intros node [|x before] after [= -> ->] Hnode Hall.
    + apply Exists_exists in H as (x & Hx & Hnx). rewrite Forall_forall in Hall. by apply (Hall x).
    + by apply Forall_cons in Hall as [? _].
  - assert (~ node_named name other) as Hother by by intros ?%Hspec.
    destruct (find_match name nodes None) as [node|].
    + destruct IH as (before & after & -> & Hnode & Hall). exists (other :: before), after.
      split_and!; [done..|]. by constructor.
    + intros node [|x before] after [= -> ->] Hnode Hall; [done|].
      apply Forall_cons in Hall as [_ Hall]. by eapply IH.
Qed.

(** *** The answer *)

Lemma append_ipv4_all texts acc :
  NoDup acc →
  ∃ more, foldl append_ipv4 acc texts = acc ++ more ∧ NoDup (acc ++ more)
    ∧ (more `sublist_of` omap (fun text => ip4_value <$> Ipv4Address_TryParse text) texts)
    ∧ ∀ a, a ∈ omap (fun text => ip4_value <$> Ipv4Address_TryParse text) texts → a ∈ acc ++ more.
Proof.
  revert acc. induction texts as [|text texts IH]; intros acc Hnd; simpl.
  { exists []. rewrite app_nil_r. split_and!; [done|done|done|set_solver]. }
  unfold append_ipv4 at 2. destruct (Ipv4Address_TryParse text) as [a|]; simpl; [|by apply IH].
  change (Ipv4Address_HostOrder a) with (ip4_value a).
  destruct (IH (push_new acc (ip4_value a)) (NoDup_push_new _ _ Hnd)) as (more & -> & Hnd' & Hsub & Hall).
  assert (∀ b, b ∈ acc ∨ b = ip4_value a → b ∈ push_new acc (ip4_value a)) as Hpush
    by (intros b ?; by apply elem_of_push_new).
  unfold push_new in *. case_bool_decide as Hin.
  - exists more. split_and!; [done|done|by apply sublist_cons|]. intros b [->|Hb]%elem_of_cons; [set_solver|auto].
  - exists (ip4_value a :: more). rewrite <- app_assoc in *. split_and!; [done|done|by apply sublist_skip|].
    intros b [->|Hb]%elem_of_cons; [set_solver|]. specialize (Hall b Hb). set_solver.
Qed.

Lemma Ipv4Addresses_spec node :
  node_addresses node (Ipv4Addresses (tn_Addresses node) (tn_PrimaryAddress node))
  ∧ zlen (Ipv4Addresses (tn_Addresses node) (tn_PrimaryAddress node)) <= 1 + zlen (tn_Addresses node).
Proof.
  assert (Ipv4Addresses (tn_Addresses node) (tn_PrimaryAddress node)
          = foldl append_ipv4 [] (tn_Addresses node ++ [tn_PrimaryAddress node])) as ->
    by (unfold Ipv4Addresses; by rewrite foldl_app).
  destruct (append_ipv4_all (tn_Addresses node ++ [tn_PrimaryAddress node]) [] (NoDup_nil_2))
    as (more & -> & Hnd & Hsub & Hall). simpl in *. split; [by split_and!|].
  apply sublist_length in Hsub.
  assert (∀ l, length (omap (fun text => ip4_value <$> Ipv4Address_TryParse text) l) <= length l)%nat as Hl.
  { induction l as [|x l IH]; simpl; [done|]. destruct (Ipv4Address_TryParse x); simpl; unfold omap, list_omap in *; lia. }
  specialize (Hl (tn_Addresses node ++ [tn_PrimaryAddress node])). rewrite length_app in Hl. simpl in Hl.
  unfold zlen. lia.
Qed.

(** The addresses and the code that are sent. *)
Lemma answer_question_A config name endOffset :
  Dns_NormalizeName lower name = name →
  ∃ ipv4 code, answer_question config {| qu_Name := name; qu_Type := DnsTypeA;
      qu_Class := DnsClassInternet; qu_EndOffset := endOffset |} = Ok (ipv4, [], code)
    ∧ (ipv4 = [] ∨ ∃ node, node ∈ tl_Self config :: tl_Peers config ∧ zlen ipv4 <= 1 + zlen (tn_Addresses node))
    ∧ 0 <= code < 16
    ∧ resolution config name (if code =? 0 then Ok {| da_CanonicalName := name;
        da_Addresses := map (fun a => Ipv4Address_ToString {| ip4_value := a |}) ipv4 |}
      else Throw (DnsResponseError name code)).
Proof.
  intros Hn. unfold answer_question, resolution. simpl. pose proof (IsTailnetName_spec config name Hn) as Ht.
  destruct (IsTailnetName config name); simpl.
  2:{ exists [], DnsResponseCodeRefused. split; [done|]. split; [by left|]. split; [done|]. left. split; [|done].
      intros H. by apply Ht in H. }
  assert (tailnet_name config name) as Htail by by apply Ht. unfold FindHost.
  pose proof (find_match_spec name (tl_Self config :: tl_Peers config)) as Hm.
  destruct (find_match _ _ None) as [node|]; simpl.
  2:{ exists [], DnsResponseCodeNameError. split; [done|]. split; [by left|]. split; [done|]. right. left. split_and!; [done| |done].
      intros node (before & after & Heq & Hnode & Hall). by eapply Hm. }
  destruct (Ipv6Addresses_total (tn_Addresses node) []) as (ipv6 & ->). simpl.
  destruct (Ipv4Addresses_spec node) as [Haddr Hlen].
  eexists _, 0. split; [done|]. split; [|split; [done|]].
  - right. exists node. split; [|done]. destruct Hm as (before & after & -> & _). set_solver.
  - right. right. split; [done|]. by eexists node, _.
Qed.

(** C36: a host that sends an address query built by [DnsQuery::Build] to the MagicDNS
    address, for a name with at most one dot at its end, gets a datagram back, from that
    address and to the port of the query, that [DnsAnswer::Parse] reads as what the network
    map says of the name: a name of more than one label that is not at or under the
    MagicDNS domain (or the tailnet's domain, if there is none) is refused with code 5; a
    name that no node has as its full name or, for a single label, as its first label, or
    that more than one node has, does not exist, with code 3; and otherwise the answer has
    the IPv4 addresses of the one node, each once.  Names are compared in lower case and
    without the dot at the end.  It is assumed that lower case is idempotent, that the name
    is not empty, and that the reply fits a datagram: 16 bytes for each address of a node,
    and the query, stay below 64 KiB. *)
Theorem TailnetDns_resolves config name id source sourcePort q :
  let n := Dns_NormalizeName lower name in
  in_width 16 id → in_width 32 source → in_width 16 sourcePort →
  DnsQuery_Build lower name id = Ok q → n ≠ [] → last n ≠ Some chr_dot →
  Forall (fun node => 8 + zlen q + 16 * (1 + zlen (tn_Addresses node)) < 65536)
    (tl_Self config :: tl_Peers config) →
  ∃ request reply dns,
    Ipv4UdpDatagram_Build source MagicDnsIpv4Address sourcePort DnsPort q = Ok request
    ∧ TailnetDnsResponse_Build config request = Ok (Some reply)
    ∧ Ipv4UdpDatagram_Parse reply = Ok (Some {| udp_source := MagicDnsIpv4Address;
        udp_destination := source; udp_sourcePort := DnsPort; udp_destinationPort := sourcePort;
        udp_payload := dns |})
    ∧ resolution config n (DnsAnswer_Parse lower dns id name).
Proof.
  intros n Hid Hsrc Hport Hq Hne Hlast Hsize.
  destruct (DnsQuery_Build_normal lower name id q Hq Hlast) as (labels & -> & Hl & Hn). fold n in Hn.
  assert (labels ≠ []) as Hlabels by (intros ->; by rewrite Hn in Hne).
  pose proof (Forall_inv Hsize) as Hself. cbv beta in Hself. rewrite Forall_forall in Hsize.
  destruct (Ipv4UdpDatagram_roundtrip source MagicDnsIpv4Address sourcePort DnsPort (query_of id labels))
    as (request & Hreq & Hparse & _); [done..| |];
    [pose proof (zlen_nonneg (tn_Addresses (tl_Self config))); lia|].
  assert (map lower n = n) as Hlow by by apply NormalizeName_lower.
  assert (Tailnet_NormalizeName (joined [] labels) = n) as Hqn.
  { rewrite <- Hn. by apply Tailnet_NormalizeName_normal. }
  destruct (answer_question_A config n (12 + zlen (wire labels) + 5)) as (ipv4 & code & Hans & Hcount & Hcode & Hres);
    [by apply NormalizeName_normal|].
  assert (8 + zlen (query_of id labels) + 16 * zlen ipv4 < 65536) as Hfit.
  { destruct Hcount as [->|(node & Hin & Hle)]; [|specialize (Hsize node Hin); simpl in Hsize; lia].
    pose proof (zlen_nonneg (tn_Addresses (tl_Self config))). rewrite (zlen_nil (A := Z)). lia. }
  assert (zlen (response_of id labels ipv4 code) = zlen (query_of id labels) + 16 * zlen ipv4) as Hz.
  { rewrite zlen_query. unfold response_of. rewrite !zlen_app.
    replace (zlen (concat (map record_ipv4 ipv4))) with (16 * zlen ipv4); [change (zlen (response_header _ _ _)) with 12; zlia|].
    clear. induction ipv4 as [|a ipv4 IH]; [done|]. cbn [map concat]. rewrite zlen_app, zlen_record_ipv4, <- IH. zlia. }
  destruct (Ipv4UdpDatagram_roundtrip MagicDnsIpv4Address source DnsPort sourcePort
    (response_of id labels ipv4 code)) as (reply & Hrep & Hparse' & _); [done..|lia|].
  exists request, reply, (response_of id labels ipv4 code).
  split_and!; [done| |done|].
  - unfold TailnetDnsResponse_Build. rewrite Hparse. cbn [obind udp_destination udp_destinationPort udp_payload].
    rewrite !Z.eqb_refl. cbn [negb orb]. pose proof (zlen_nonneg (wire labels)).
    rewrite zlen_query. unfold DnsHeaderSize. ifb; [b2p; lia|].
    change (Tailnet_Read16 (query_of id labels) 2) with (Ok 256). cbn [obind].
    rewrite ParseQuestion_query by done. cbn [obind]. change (negb _) with false. cbv iota.
    rewrite Hqn, Hans. cbn [obind]. rewrite BuildDnsResponse_query by done. cbn [obind udp_source udp_sourcePort].
    by rewrite Hrep.
  - rewrite (DnsAnswer_Parse_response id labels ipv4 code name); try done; [zlia|by rewrite <- Hn].
Qed.

(** ** Any request *)

Lemma DnsQuery_Name_loop_reads fuel message offset result :
  bytes_ok message → 0 <= offset → (Z.to_nat (zlen message - offset) < fuel)%nat →
  ∃ o, DnsQuery_Name_loop fuel message offset result = Ok o
    ∧ ∀ n e, o = Some (n, e) → offset <= e.
Proof.
  intros Hm. revert offset result. induction fuel as [|fuel IH]; intros offset result Ho Hf; [lia|].
  cbn [DnsQuery_Name_loop]. ifb; [eexists; split; [done|]; intros ? ? [= <- <-]; lia|]. b2p.
  destruct (rd_Ok message offset) as (b & Hb); [lia|]. rewrite Hb. cbn [obind].
  pose proof (bytes_ok_rd _ _ _ Hm Hb) as [? ?].
  ifb; [eexists; split; [done|]; intros ? ? [= <- <-]; lia|]. ifb; [by eexists|]. b2p.
  rewrite slice_Ok by lia. cbn [obind].
  destruct (IH (offset + 1 + b) (dot_after result ++ take (Z.to_nat (offset + 1 + b - (offset + 1)))
    (drop (Z.to_nat (offset + 1)) message))) as (o & -> & He); [lia|lia|].
  exists o. split; [done|]. intros n e Hne. specialize (He n e Hne). lia.
Qed.

Lemma ParseQuestion_reads query :
  bytes_ok query →
  ∃ o, ParseQuestion query = Ok o ∧ ∀ q, o = Some q → 12 <= qu_EndOffset q <= zlen query.
Proof.
  intros Hq. unfold ParseQuestion, DnsHeaderSize, DnsQuestionFooterSize. ifb; [by eexists|]. b2p.
  destruct (Tailnet_Read16_Ok query 4) as (count & -> & _); [lia|].
  cbn [obind]. ifb; [by eexists|]. rewrite ParseQuestion_loop_eq.
  destruct (DnsQuery_Name_loop_reads (S (length query)) query 12 [] Hq) as (o & -> & He);
    [done|unfold zlen; lia|].
  cbn [obind]. destruct o as [[n e]|]; [|by eexists]. specialize (He n e eq_refl).
  ifb; [by eexists|]. b2p. destruct_and?.
  destruct (Tailnet_Read16_Ok query (e + 1)) as (? & -> & _); [lia|]. cbn [obind].
  destruct (Tailnet_Read16_Ok query (e + 1 + 2)) as (? & -> & _); [lia|]. cbn [obind].
  eexists. split; [done|]. intros q [= <-]. simpl. lia.
Qed.

Lemma Ipv4UdpDatagram_Parse_payload packet d :
  bytes_ok packet → Ipv4UdpDatagram_Parse packet = Ok (Some d) → bytes_ok (udp_payload d).
Proof.
  intros Hp H. unfold Ipv4UdpDatagram_Parse in H. ok_inv H.
  injection H as <-. by eapply bytes_ok_slice.
Qed.

Lemma answer_question_total config question : ∃ r, answer_question config question = Ok r.
Proof.
  unfold answer_question. ifb; [by eexists|]. ifb; [by eexists|].
  destruct (FindHost_total config (qu_Name question)) as (host & ->). cbn [obind]. ifb; by eexists.
Qed.

(** Whatever packet a host sends, the resolver reads nothing outside it,
    throws nothing, and returns a reply or none. *)
Theorem TailnetDnsResponse_total config request :
  bytes_ok request → ∃ reply, TailnetDnsResponse_Build config request = Ok reply.
Proof.
  intros Hr. unfold TailnetDnsResponse_Build.
  destruct (Ipv4UdpDatagram_Parse_total request) as (o & Ho). rewrite Ho. cbn [obind].
  destruct o as [d|]; [|by eexists]. pose proof (Ipv4UdpDatagram_Parse_payload _ _ Hr Ho) as Hp.
  unfold DnsHeaderSize. ifb; [by eexists|]. b2p. destruct_and?.
  destruct (Tailnet_Read16_Ok (udp_payload d) 2) as (flags & -> & _); [lia|]. cbn [obind].
  destruct (ParseQuestion_reads _ Hp) as (o & -> & Hend). cbn [obind].
  destruct o as [question|]; [|by eexists]. specialize (Hend question eq_refl).
  ifb; [by eexists|]. destruct (answer_question_total config question) as ([[ipv4 ipv6] code] & ->).
  cbn [obind]. unfold BuildDnsResponse.
  destruct (Tailnet_Read16_Ok (udp_payload d) 2) as (? & -> & _); [lia|].
  destruct (Tailnet_Read16_Ok (udp_payload d) 0) as (? & -> & _); [lia|]. cbn [obind].
  rewrite slice_Ok by (unfold DnsHeaderSize; lia). cbn [obind].
  rewrite Ipv4UdpDatagram_Build_eq. by eexists.
Qed.

End tailnet.

(** ** A concrete network

    Two nodes; hexadecimal text is decoded digit by digit. *)

Definition hex_digit (c : Z) : option Z :=
  if is_digit c then Some (c - 48)
  else if (97 <=? c) && (c <=? 102) then Some (c - 87)
  else if (65 <=? c) && (c <=? 70) then Some (c - 55) else None.

Fixpoint demo_unhex (l : bytes) : option bytes :=
  match l with
  | [] => Some []
  | a :: b :: rest =>
      match hex_digit a, hex_digit b, demo_unhex rest with
      | Some x, Some y, Some r => Some (x * 16 + y :: r)
      | _, _, _ => None
      end
  | _ => None
  end.

Definition demo_tailnet : TailnetConfig :=
  {| tl_Self := {| tn_Name := lit "Self.tail.ts.net."; tn_PrimaryAddress := lit "100.64.0.1";
                   tn_Addresses := [lit "100.64.0.1"; lit "fd7a:115c::1"] |};
     tl_Peers := [{| tn_Name := lit "printer.tail.ts.net."; tn_PrimaryAddress := lit "100.64.0.2";
                     tn_Addresses := [lit "100.64.0.2"] |}];
     tl_MagicDnsDomain := lit "tail.ts.net"; tl_Domain := [] |}.

Definition demo_tailnet_query : bytes :=
  match DnsQuery_Build to_lower_char (lit "Printer") 7 with Ok q => q | _ => [] end.

Lemma TailnetDns_resolves_witness :
  ∃ request reply dns,
    Ipv4UdpDatagram_Build 0x64400001 MagicDnsIpv4Address 5353 DnsPort demo_tailnet_query = Ok request
    ∧ TailnetDnsResponse_Build to_lower_char demo_unhex demo_tailnet request = Ok (Some reply)
    ∧ Ipv4UdpDatagram_Parse reply = Ok (Some {| udp_source := MagicDnsIpv4Address;
        udp_destination := 0x64400001; udp_sourcePort := DnsPort; udp_destinationPort := 5353;
        udp_payload := dns |})
    ∧ resolution to_lower_char demo_tailnet (lit "printer") (DnsAnswer_Parse to_lower_char dns 7 (lit "Printer")).
Proof.
  apply (TailnetDns_resolves to_lower_char demo_unhex to_lower_char_idem demo_tailnet (lit "Printer") 7
    0x64400001 5353 demo_tailnet_query).
  - split; [discriminate|reflexivity].
  - split; [discriminate|reflexivity].
  - split; [discriminate|reflexivity].
  - vm_compute. reflexivity.
  - vm_compute. discriminate.
  - vm_compute. discriminate.
  - repeat constructor; vm_compute; reflexivity.
Defined.

(** The name is that of the second node, and its address is the answer. *)
Example demo_tailnet_answer :
  (let! request := Ipv4UdpDatagram_Build 0x64400001 MagicDnsIpv4Address 5353 DnsPort demo_tailnet_query in
   let! reply := TailnetDnsResponse_Build to_lower_char demo_unhex demo_tailnet request in
   let! datagram := Ipv4UdpDatagram_Parse (default [] reply) in
   DnsAnswer_Parse to_lower_char (default [] (udp_payload <$> datagram)) 7 (lit "Printer"))
  = Ok {| da_CanonicalName := lit "printer"; da_Addresses := [lit "100.64.0.2"] |}.
Proof. vm_compute. reflexivity. Qed.

Lemma TailnetDnsResponse_total_witness :
  ∃ reply, TailnetDnsResponse_Build to_lower_char demo_unhex demo_tailnet [0x45; 1; 2] = Ok reply.
Proof. apply (TailnetDnsResponse_total to_lower_char demo_unhex). by forall_intro. Defined.
