(* ===== verification/NetMap.v ===== *)
(** * The network map, routes and the routing policy

    src/core/types/netmap/NetworkMap.cpp, the queries on a network map: which
    peer carries a destination, which peer owns an address, name matching and
    capabilities; src/core/wgengine/router/Config.cpp, the addresses and routes
    that the operating system gets; src/core/ipn/ipnlocal/NetworkPolicy.cpp, which
    ties the two together.  The records have the members that these functions
    read.  [boost::algorithm::join] and lwIP's [ip6addr_aton] are parameters. *)

From stdpp Require Import sorting.
From S2P Require Import Prelude Text Net Packet Dns Tailnet.

(** ** The map *)

Record PeerConfig := {
  pc_name : bytes;
  pc_address : bytes;
  pc_addresses : list bytes;
  pc_key : bytes;
  pc_nodeId : Z;
  pc_discoKey : bytes;
  pc_endpoints : list bytes;
  pc_allowedPrefixes : list Ipv4Prefix;
  pc_derpRegion : Z;
  pc_derpCode : bytes;
  pc_online : bool;
  pc_exitNodeOption : bool
}.

Definition PeerConfig_default : PeerConfig := {|
  pc_name := []; pc_address := []; pc_addresses := []; pc_key := []; pc_allowedPrefixes := [];
  pc_derpRegion := 0; pc_derpCode := []; pc_online := false; pc_exitNodeOption := false;
  pc_nodeId := 0; pc_discoKey := []; pc_endpoints := []
|}.

Record NetworkConfig := {
  nm_selfAddress : bytes;
  nm_selfAddresses : list bytes;
  nm_selfName : bytes;
  nm_capabilities : list bytes;
  nm_dnsResolver : bytes;
  nm_dnsDomains : list bytes;
  nm_dnsDefaultResolvers : list bytes;
  nm_dnsRoutes : list DnsRoute;
  nm_derpRegion : Z;
  nm_derpCode : bytes;
  nm_peers : list PeerConfig
}.

Definition NetworkConfig_default : NetworkConfig := {|
  nm_selfAddress := []; nm_selfAddresses := []; nm_selfName := []; nm_capabilities := [];
  nm_dnsResolver := []; nm_dnsDomains := []; nm_dnsDefaultResolvers := [];
  nm_dnsRoutes := []; nm_derpRegion := 0; nm_derpCode := [];
  nm_peers := []
|}.

(** ** Strings *)

Definition chr_comma : Z := 44.

(** [std::from_chars(first, last, value)] for [int], on the whole of the text:
    an optional minus sign and decimal digits, in range. *)
Definition parse_int (text : bytes) : option Z :=
  let '(sign, digits) :=
    match text with
    | c :: rest => if c =? chr_dash then (-1, rest) else (1, text)
    | [] => (1, [])
    end in
  match span_digits digits with
  | (_ :: _ as d, []) =>
      let value := sign * digits_val d in
      if (- 2 ^ 31 <=? value) && (value <? 2 ^ 31) then Some value else None
  | _ => None
  end.

(** [std::format("{}", n)] for an [int]. *)
Definition format_int (n : Z) : bytes :=
  if n <? 0 then chr_dash :: format_dec (- n) else format_dec n.

(** [text.rfind(prefix, 0) == 0] *)
Definition starts_with (prefix text : bytes) : bool :=
  bool_decide (take (length prefix) text = prefix).

(** [text.find(pattern)] *)
Fixpoint find_text (pattern text : bytes) : option nat :=
  if starts_with pattern text then Some 0%nat
  else match text with
       | [] => None
       | _ :: rest => S <$> find_text pattern rest
       end.

(** [if (!s.empty() && s.back() == '.') s.pop_back()] *)
Definition pop_dot (s : bytes) : bytes :=
  match last s with
  | Some c => if c =? chr_dot then take (length s - 1) s else s
  | None => s
  end.

(** [s.substr(0, s.find('.'))] *)
Definition before_dot (s : bytes) : bytes :=
  match find_char chr_dot s with Some i => take i s | None => s end.

(** ** Ports *)

Definition AllowsPortToken (token : bytes) (port : Z) : bool :=
  match find_char chr_dash token with
  | None => match parse_int token with Some start => start =? port | None => false end
  | Some dash =>
      match parse_int (take dash token) with
      | None => false
      | Some start =>
          match parse_int (drop (S dash) token) with
          | None => false
          | Some end_ => (start <=? port) && (port <=? end_)
          end
      end
  end.

(** The loop over the tokens of one capability; [fuel] bounds the commas. *)
Fixpoint AllowsFunnelPort_loop (fuel : nat) (capability : bytes) (start : nat) (port : Z)
    : bool :=
  match fuel with
  | O => false
  | S fuel' =>
      if (length capability <? start)%nat then false else
      let comma := find_char chr_comma (drop start capability) in
      let token := match comma with
                   | None => drop start capability
                   | Some c => take c (drop start capability)
                   end in
      if AllowsPortToken token port then true else
      match comma with
      | None => false
      | Some c => AllowsFunnelPort_loop fuel' capability (start + c + 1) port
      end
  end.

Definition FunnelPortsPrefix : bytes := lit "https://tailscale.com/cap/funnel-ports".

Definition AllowsFunnelPort_one (capability : bytes) (port : Z) : bool :=
  if negb (starts_with FunnelPortsPrefix capability) then false else
  match find_text (lit "ports=") capability with
  | None => false
  | Some query => AllowsFunnelPort_loop (S (length capability)) capability (query + 6) port
  end.

Definition NetworkConfig_AllowsFunnelPort (n : NetworkConfig) (port : Z) : bool :=
  existsb (fun capability => AllowsFunnelPort_one capability port) (nm_capabilities n).

(** ** Names *)

Definition PeerConfig_MatchesTarget (p : PeerConfig) (nameOrAddress : bytes) : bool :=
  let target := pop_dot nameOrAddress in
  let name := pop_dot (pc_name p) in
  let shortName := before_dot name in
  bool_decide (pc_address p = target) || bool_decide (name = target)
  || bool_decide (shortName = target) || bool_decide (target ∈ pc_addresses p).

Definition PeerConfig_DisplayName (p : PeerConfig) : bytes :=
  let result := before_dot (pop_dot (pc_name p)) in
  if bool_decide (result = []) then pc_address p else result.

Definition NetworkConfig_DisplayName (n : NetworkConfig) : bytes :=
  PeerConfig_DisplayName {|
    pc_name := nm_selfName n; pc_address := nm_selfAddress n; pc_addresses := [];
    pc_key := []; pc_allowedPrefixes := []; pc_derpRegion := 0; pc_derpCode := [];
    pc_online := false; pc_exitNodeOption := false;
  pc_nodeId := 0; pc_discoKey := []; pc_endpoints := [] |}.

(** The index of the first element that satisfies [f]: a loop that returns. *)
Fixpoint find_index {A} (f : A → bool) (l : list A) : option nat :=
  match l with
  | [] => None
  | x :: rest => if f x then Some 0%nat else S <$> find_index f rest
  end.

Definition NetworkConfig_FindPeer (n : NetworkConfig) (nameOrAddress : bytes)
    (requireOnline : bool) : option nat :=
  find_index (fun peer => (negb requireOnline || pc_online peer)
                          && PeerConfig_MatchesTarget peer nameOrAddress) (nm_peers n).

Definition NetworkConfig_FindExitNode (n : NetworkConfig) (nameOrAddress : bytes)
    (requireOnline : bool) : option nat :=
  find_index (fun peer =>
                if requireOnline && negb (pc_online peer) then false
                else pc_exitNodeOption peer && PeerConfig_MatchesTarget peer nameOrAddress)
             (nm_peers n).

Definition NetworkConfig_DerpCodeForRegion (n : NetworkConfig) (region : Z) : bytes :=
  if (region =? nm_derpRegion n) && negb (bool_decide (nm_derpCode n = []))
  then nm_derpCode n
  else match List.find (fun value => (pc_derpRegion value =? region)
                                && negb (bool_decide (pc_derpCode value = []))) (nm_peers n) with
       | None => lit "derp-" ++ format_int region
       | Some peer => pc_derpCode peer
       end.

Definition NetworkConfig_HasCapability (n : NetworkConfig) (capability : bytes) : bool :=
  bool_decide (capability ∈ nm_capabilities n).

Definition NetworkConfig_FirstIpv6Address (n : NetworkConfig) : bytes :=
  match List.find (fun address => bool_decide (chr_colon ∈ address)) (nm_selfAddresses n) with
  | None => []
  | Some address => address
  end.

(** ** Routes of the map *)

(** The loop over the prefixes of one peer. *)
Fixpoint FindRoute_prefixes (destination : Z) (exitNode : option nat) (index : nat)
    (prefixes : list Ipv4Prefix) (best : option nat * Z) : outcome (option nat * Z) :=
  match prefixes with
  | [] => Ok best
  | prefix :: rest =>
      if (px_length prefix =? 0) && negb (bool_decide (exitNode = Some index))
      then FindRoute_prefixes destination exitNode index rest best
      else
        let! contains := Ipv4Prefix_Contains prefix destination in
        FindRoute_prefixes destination exitNode index rest
          (if contains && (best.2 <? px_length prefix)
           then (Some index, px_length prefix) else best)
  end.

Fixpoint FindRoute_peers (destination : Z) (exitNode : option nat) (index : nat)
    (peers : list PeerConfig) (best : option nat * Z) : outcome (option nat * Z) :=
  match peers with
  | [] => Ok best
  | peer :: rest =>
      let! best := FindRoute_prefixes destination exitNode index (pc_allowedPrefixes peer) best in
      FindRoute_peers destination exitNode (S index) rest best
  end.

Definition NetworkConfig_FindRoute (n : NetworkConfig) (destination : Z)
    (exitNode : option nat) : outcome (option nat) :=
  let! best := FindRoute_peers destination exitNode 0 (nm_peers n) (None, -1) in
  match best.1 with
  | Some result => Ok (Some result)
  | None =>
      match exitNode with
      | Some e =>
          if (e <? length (nm_peers n))%nat then
            let! peer := rd (nm_peers n) (Z.of_nat e) in
            Ok (if pc_exitNodeOption peer then exitNode else None)
          else Ok None
      | None => Ok None
      end
  end.

Section queries.
  Context (ip6addr_aton : bytes → option bytes) (join : list bytes → bytes → bytes).

Definition NetworkConfig_CapabilitySummary (n : NetworkConfig) : bytes :=
  match nm_capabilities n with
  | [] => lit "none"
  | capabilities => join capabilities (lit ", ")
  end.

(** [matches(peer.Address()) || any_of(peer.Addresses(), matches)] *)
Definition owns_address (address : IpAddress) (peer : PeerConfig) : bool :=
  let matches text := bool_decide (IpAddress_TryParse ip6addr_aton text = Some address) in
  matches (pc_address peer) || existsb matches (pc_addresses peer).

Fixpoint FindPeerAddress_loop (address : IpAddress) (index : nat) (peers : list PeerConfig)
    (owner : option nat) : option nat :=
  match peers with
  | [] => owner
  | peer :: rest =>
      if owns_address address peer then
        match owner with
        | Some _ => None
        | None => FindPeerAddress_loop address (S index) rest (Some index)
        end
      else FindPeerAddress_loop address (S index) rest owner
  end.

Definition NetworkConfig_FindPeerAddress (n : NetworkConfig) (address : IpAddress) : option nat :=
  FindPeerAddress_loop address 0 (nm_peers n) None.

End queries.

(** ** Router configuration *)

Record ConfigOptions := { op_AdditionalRoutes : list Ipv4Prefix; op_RouteAllTraffic : bool }.

Record Config := { cf_localAddresses : list bytes; cf_routes : list Ipv4Prefix }.

Definition Config_default : Config := {| cf_localAddresses := []; cf_routes := [] |}.

Definition TailnetRoute : Ipv4Prefix :=
  {| px_network := Ipv4Address_HostOrder (Ipv4Address_FromOctets 100 64 0 0); px_length := 10 |}.
Definition LowerDefaultRoute : Ipv4Prefix :=
  {| px_network := Ipv4Address_HostOrder (Ipv4Address_FromOctets 0 0 0 0); px_length := 1 |}.
Definition UpperDefaultRoute : Ipv4Prefix :=
  {| px_network := Ipv4Address_HostOrder (Ipv4Address_FromOctets 128 0 0 0); px_length := 1 |}.

Definition AppendAddress (addresses : list bytes) (address : bytes) : list bytes :=
  if bool_decide (address = []) then addresses else push_new addresses address.

Definition AppendRoute (routes : list Ipv4Prefix) (route : Ipv4Prefix) : list Ipv4Prefix :=
  if px_length route <=? 32 then push_new routes route else routes.

(** The body of the loop over a peer's prefixes. *)
Definition append_peer_route (routes : list Ipv4Prefix) (route : Ipv4Prefix)
    : outcome (list Ipv4Prefix) :=
  if px_length route =? 0 then Ok routes
  else if px_length TailnetRoute <=? px_length route then
    let! inside := Ipv4Prefix_Contains TailnetRoute (px_network route) in
    Ok (if inside then routes else AppendRoute routes route)
  else Ok (AppendRoute routes route).

Fixpoint append_peer_routes (routes prefixes : list Ipv4Prefix) : outcome (list Ipv4Prefix) :=
  match prefixes with
  | [] => Ok routes
  | route :: rest =>
      let! routes := append_peer_route routes route in
      append_peer_routes routes rest
  end.

(** The order of the comparison that [std::sort] gets, made reflexive; it is
    total, so that the sorted sequence is unique. *)
Definition route_le (x y : Ipv4Prefix) : Prop :=
  px_network x < px_network y ∨ px_network x = px_network y ∧ px_length x <= px_length y.

#[export] Instance route_le_dec : RelDecision route_le.
Proof. unfold RelDecision, Decision, route_le. intros. solve_decision. Defined.

Definition Config_Build (networkMap : NetworkConfig) (options : ConfigOptions)
    : outcome Config :=
  let localAddresses :=
    foldl AppendAddress (AppendAddress [] (nm_selfAddress networkMap))
          (nm_selfAddresses networkMap) in
  let routes := AppendRoute [] TailnetRoute in
  let routes := if op_RouteAllTraffic options
                then AppendRoute (AppendRoute routes LowerDefaultRoute) UpperDefaultRoute
                else routes in
  let routes := match Ipv4Address_TryParse (nm_dnsResolver networkMap) with
                | Some dnsResolver =>
                    AppendRoute routes {| px_network := Ipv4Address_HostOrder dnsResolver;
                                          px_length := 32 |}
                | None => routes
                end in
  let! routes :=
    append_peer_routes routes (concat (map pc_allowedPrefixes (nm_peers networkMap))) in
  let routes := foldl AppendRoute routes (op_AdditionalRoutes options) in
  Ok {| cf_localAddresses := localAddresses; cf_routes := merge_sort route_le routes |}.

(** ** The policy *)

Record NetworkPolicy := {
  np_exitNode : bytes;
  np_network : NetworkConfig;
  np_routes : Config;
  np_exitPeer : option nat
}.

Record PolicyChange := { ch_PreviousRoutes : Config; ch_DnsChanged : bool }.

Definition NetworkPolicy_new (exitNode : bytes) : NetworkPolicy := {|
  np_exitNode := exitNode; np_network := NetworkConfig_default;
  np_routes := Config_default; np_exitPeer := None
|}.

Definition NetworkPolicy_Apply (p : NetworkPolicy) (config : NetworkConfig)
    : outcome (PolicyChange * NetworkPolicy) :=
  let exitPeer := if bool_decide (np_exitNode p = []) then None
                  else NetworkConfig_FindExitNode config (np_exitNode p) true in
  let! routes := Config_Build config {| op_AdditionalRoutes := [];
                                        op_RouteAllTraffic := bool_decide (is_Some exitPeer) |} in
  let change := {|
    ch_PreviousRoutes := np_routes p;
    ch_DnsChanged := negb (bool_decide (nm_dnsResolver (np_network p) = nm_dnsResolver config))
                     || negb (bool_decide (nm_dnsDomains (np_network p) = nm_dnsDomains config))
  |} in
  Ok (change, {| np_exitNode := np_exitNode p; np_network := config; np_routes := routes;
                 np_exitPeer := exitPeer |}).

(** ** Prefix matching *)

Definition prefix_ok (p : Ipv4Prefix) : Prop := 0 <= px_length p <= 32.

(** The leading [px_length p] bits of [destination], the others cleared, are the
    network of [p]. *)
Definition prefix_matches (p : Ipv4Prefix) (destination : Z) : Prop :=
  destination / 2 ^ (32 - px_length p) * 2 ^ (32 - px_length p) = px_network p.

#[export] Instance prefix_matches_dec p destination : Decision (prefix_matches p destination).
Proof. unfold prefix_matches. solve_decision. Defined.

Lemma Contains_matches p destination :
  prefix_ok p → in_width 32 destination →
  Ipv4Prefix_Contains p destination = Ok (bool_decide (prefix_matches p destination)).
Proof.
  intros Hp Hd. unfold Ipv4Prefix_Contains.
  destruct (PrefixMask_land _ _ Hp Hd) as (mask & -> & Hland). simpl. f_equal.
  apply Bool.eq_true_iff_eq. rewrite Z.eqb_eq, bool_decide_eq_true, Hland. done.
Qed.

(** What lies in a prefix lies in every shorter prefix that has its network. *)
Lemma prefix_matches_shorter p q destination :
  prefix_ok p → prefix_ok q → px_length q <= px_length p →
  prefix_matches q (px_network p) → prefix_matches p destination →
  prefix_matches q destination.
Proof.
  unfold prefix_ok, prefix_matches. intros Hp Hq Hle Hnet Hd. rewrite <- Hnet, <- Hd.
  replace (32 - px_length q) with ((32 - px_length p) + (px_length p - px_length q)) by lia.
  rewrite Z.pow_add_r by lia.
  pose proof (Z.pow_pos_nonneg 2 (32 - px_length p)).
  pose proof (Z.pow_pos_nonneg 2 (px_length p - px_length q)).
  rewrite <- !Z.div_div, Z.div_mul by lia. done.
Qed.

(** ** The route of a destination *)

Definition eligible (exitNode : option nat) (i : nat) (p : Ipv4Prefix) : Prop :=
  px_length p ≠ 0 ∨ exitNode = Some i.

(** [best] is the longest of the candidates [C], and the first among those. *)
Definition best_ok (C : nat → Ipv4Prefix → Prop) (best : option nat * Z) : Prop :=
  match best.1 with
  | None => best.2 = -1 ∧ ∀ i p, ¬ C i p
  | Some i => (∃ p, C i p ∧ px_length p = best.2)
              ∧ ∀ j q, C j q → px_length q < best.2 ∨ px_length q = best.2 ∧ (i <= j)%nat
  end.

Lemma best_ok_iff C C' best : (∀ i p, C i p ↔ C' i p) → best_ok C best → best_ok C' best.
Proof.
  unfold best_ok. intros HC. destruct best.1 as [i|].
  - intros [(p & Hp & Hlen) Hall]. split; [exists p; by rewrite <- HC|].
    intros j q Hq. apply Hall. by apply HC.
  - intros [? Hall]. split; [done|]. intros i p Hp. by apply (Hall i p), HC.
Qed.

Lemma best_ok_step C best index p :
  best_ok C best → (∀ j q, C j q → (j <= index)%nat ∧ 0 <= px_length q) → 0 <= px_length p →
  best_ok (λ i q, C i q ∨ i = index ∧ q = p)
          (if best.2 <? px_length p then (Some index, px_length p) else best).
Proof.
  destruct best as [r b]. unfold best_ok. simpl. intros Hb HC Hp.
  destruct (Z.ltb_spec b (px_length p)) as [Hlt|Hge]; simpl.
  - split; [exists p; split; [by right|done]|].
    intros j q [Hq|[-> ->]]; [|by right]. left.
    destruct r as [i|]; [|exfalso; naive_solver].
    destruct Hb as [_ Hall]. apply Hall in Hq. lia.
  - destruct r as [i|]; [|lia]. destruct Hb as [(q & Hq & Hlen) Hall].
    split; [exists q; split; [by left|done]|].
    intros j q' [Hq'|[-> ->]]; [by apply Hall|].
    apply HC in Hq as [? _]. lia.
Qed.

Section route.
  Context (destination : Z) (exitNode : option nat).
  Context (Hdest : in_width 32 destination).

Definition candidate (i : nat) (p : Ipv4Prefix) : Prop :=
  eligible exitNode i p ∧ prefix_matches p destination.

Lemma FindRoute_prefixes_best index prefixes C best :
  Forall prefix_ok prefixes → best_ok C best →
  (∀ j q, C j q → (j <= index)%nat ∧ 0 <= px_length q) →
  ∃ best', FindRoute_prefixes destination exitNode index prefixes best = Ok best'
    ∧ best_ok (λ i q, C i q ∨ i = index ∧ q ∈ prefixes ∧ candidate i q) best'.
Proof.
  intros Hok. revert C best. induction Hok as [|p prefixes Hp Hok IH]; intros C best Hb HC; simpl.
  { exists best. split; [done|]. eapply best_ok_iff, Hb. set_solver. }
  destruct (decide (candidate index p)) as [Hc|Hc].
  - pose proof Hc as [He Hm].
    replace ((px_length p =? 0) && _) with false; last first.
    { symmetry. apply andb_false_iff.
      destruct He as [He|He]; [left; by apply Z.eqb_neq|right; by rewrite bool_decide_true]. }
    rewrite Contains_matches, bool_decide_true by done. simpl.
    destruct (IH (λ i q, C i q ∨ i = index ∧ q = p) _
                (best_ok_step C best index p Hb HC ltac:(apply Hp))) as (best' & -> & Hb').
    { intros j q [Hq|[-> ->]]; [by apply HC|split; [done|apply Hp]]. }
    exists best'. split; [done|]. eapply best_ok_iff, Hb'. set_solver.
  - destruct (IH C best Hb HC) as (best' & Heq & Hb').
    exists best'. split; last first.
    { eapply best_ok_iff, Hb'. set_solver. }
    case_match eqn:Hskip; [done|]. rewrite Contains_matches by done. simpl.
    replace (bool_decide (prefix_matches p destination)) with false; [done|].
    symmetry. apply bool_decide_eq_false. intros Hm. apply Hc. split; [|done].
    apply andb_false_iff in Hskip as [H|H]; [left; by apply Z.eqb_neq|].
    right. by apply negb_false_iff, bool_decide_eq_true in H.
Qed.

Lemma FindRoute_peers_best index peers C best :
  Forall (λ peer, Forall prefix_ok (pc_allowedPrefixes peer)) peers → best_ok C best →
  (∀ j q, C j q → (j < index)%nat ∧ 0 <= px_length q) →
  ∃ best', FindRoute_peers destination exitNode index peers best = Ok best'
    ∧ best_ok (λ i q, C i q ∨ ∃ k peer, i = (index + k)%nat ∧ peers !! k = Some peer
                                       ∧ q ∈ pc_allowedPrefixes peer ∧ candidate i q) best'.
Proof.
  intros Hok. revert index C best.
  induction Hok as [|peer peers Hpeer Hok IH]; intros index C best Hb HC; simpl.
  { exists best. split; [done|]. eapply best_ok_iff, Hb.
    intros i p. split; [by left|]. intros [?|(k & peer & _ & Hk & _)]; [done|].
    by rewrite lookup_nil in Hk. }
  destruct (FindRoute_prefixes_best index _ C best Hpeer Hb) as (b1 & -> & Hb1).
  { intros j q Hq. apply HC in Hq. lia. }
  simpl. destruct (IH (S index) _ b1 Hb1) as (best' & -> & Hb').
  { intros j q [Hq|(-> & Hq & _)]; [apply HC in Hq; lia|].
    split; [lia|]. rewrite Forall_forall in Hpeer. by apply Hpeer. }
  exists best'. split; [done|]. eapply best_ok_iff, Hb'. intros i p. split.
  - intros [[?|(-> & ? & ?)]|(k & peer' & -> & ? & ? & ?)]; [by left| |]; right.
    + exists 0%nat, peer. split_and!; [lia|done|done|done].
    + exists (S k), peer'. split_and!; [lia|done|done|done].
  - intros [?|([|k] & peer' & -> & Hk & ? & ?)]; [by left; left| |]; simpl in Hk.
    + simplify_eq. left. right. split_and!; [lia|done|done].
    + right. exists k, peer'. split_and!; [lia|done|done|done].
Qed.

(** The prefix [q] of peer [i] is one that may carry the destination. *)
Definition route_candidate (n : NetworkConfig) (i : nat) (q : Ipv4Prefix) : Prop :=
  ∃ peer, nm_peers n !! i = Some peer ∧ q ∈ pc_allowedPrefixes peer ∧ candidate i q.

Definition network_ok (n : NetworkConfig) : Prop :=
  Forall (λ peer, Forall prefix_ok (pc_allowedPrefixes peer)) (nm_peers n).

Lemma FindRoute_peers_spec n :
  network_ok n →
  ∃ best, FindRoute_peers destination exitNode 0 (nm_peers n) (None, -1) = Ok best
    ∧ best_ok (route_candidate n) best.
Proof.
  intros Hn.
  destruct (FindRoute_peers_best 0 (nm_peers n) (λ _ _, False) (None, -1)) as (best & Heq & Hb);
    [done|split; [done|tauto]|done|].
  exists best. split; [done|]. eapply best_ok_iff, Hb. intros i q. split.
  - intros [[]|(k & peer & -> & ? & ? & ?)]. by exists peer.
  - intros (peer & ? & ? & ?). right. by exists i, peer.
Qed.

End route.

Lemma FindRoute_Some n destination exitNode i :
  network_ok n → in_width 32 destination →
  NetworkConfig_FindRoute n destination exitNode = Ok (Some i) →
  (∃ p, route_candidate destination exitNode n i p) ∨ exitNode = Some i.
Proof.
  intros Hn Hd. unfold NetworkConfig_FindRoute.
  destruct (FindRoute_peers_spec destination exitNode Hd n Hn) as ([r b] & -> & Hb).
  unfold best_ok in Hb. simpl in *. destruct r as [j|].
  { intros; simplify_eq. left. destruct Hb as [(p & Hp & _) _]. eauto. }
  destruct exitNode as [e|]; [|done]. case_match; [|done].
  intros (peer & _ & Heq)%obind_Ok_inv. right. case_match; by simplify_eq.
Qed.

Lemma FindRoute_total n destination exitNode :
  network_ok n → in_width 32 destination →
  ∃ route, NetworkConfig_FindRoute n destination exitNode = Ok route.
Proof.
  intros Hn Hd. unfold NetworkConfig_FindRoute.
  destruct (FindRoute_peers_spec destination exitNode Hd n Hn) as ([[i|] b] & -> & _); simpl; [eauto|].
  destruct exitNode as [e|]; [|eauto]. case_match eqn:He; [|eauto].
  apply Nat.ltb_lt in He. destruct (rd_Ok (nm_peers n) (Z.of_nat e)) as [peer ->]; [unfold zlen; lia|].
  simpl. eauto.
Qed.

(** C18: [FindRoute] is longest-prefix matching.  For every destination and every
    map whose prefixes have at most 32 bits, the call returns; a peer it returns has a
    prefix that matches the destination and is at least as long as every matching
    prefix of any peer, with the first peer winning a tie, where a default prefix
    counts for the exit node alone; only when no prefix matches does the exit node
    carry the destination, and only if it offers to; otherwise there is no route. *)
Theorem FindRoute_longest_prefix n destination exitNode :
  network_ok n → in_width 32 destination →
  ∃ route, NetworkConfig_FindRoute n destination exitNode = Ok route
    ∧ match route with
      | Some i =>
          (∃ p, route_candidate destination exitNode n i p
             ∧ ∀ j q, route_candidate destination exitNode n j q →
                 px_length q < px_length p ∨ px_length q = px_length p ∧ (i <= j)%nat)
          ∨ (∀ j q, ¬ route_candidate destination exitNode n j q)
            ∧ exitNode = Some i
            ∧ ∃ peer, nm_peers n !! i = Some peer ∧ pc_exitNodeOption peer = true
      | None =>
          (∀ j q, ¬ route_candidate destination exitNode n j q)
          ∧ ∀ i peer, exitNode = Some i → nm_peers n !! i = Some peer →
              pc_exitNodeOption peer = false
      end.
Proof.
  intros Hn Hd. unfold NetworkConfig_FindRoute.
  destruct (FindRoute_peers_spec destination exitNode Hd n Hn) as ([r b] & -> & Hb).
  unfold best_ok in Hb. simpl in *. destruct r as [i|].
  { exists (Some i). split; [done|]. left. destruct Hb as [(p & Hp & <-) Hall]. eauto. }
  destruct Hb as [_ Hnone]. destruct exitNode as [e|]; [|by exists None].
  destruct (Nat.ltb_spec e (length (nm_peers n))) as [Hlt|Hge].
  - apply lookup_lt_is_Some in Hlt as [peer Hpeer].
    unfold rd. rewrite (proj2 (Z.ltb_ge _ _)), Nat2Z.id, Hpeer by lia. simpl.
    destruct (pc_exitNodeOption peer) eqn:Hopt; eexists; (split; [done|]).
    + right. eauto.
    + split; [done|]. intros i peer' ? ?. by simplify_eq.
  - exists None. split; [done|]. split; [done|]. intros i peer ? Hp. simplify_eq.
    apply lookup_lt_Some in Hp. lia.
Qed.

(** ** Building routes *)

Definition network_typed (n : NetworkConfig) : Prop :=
  ∀ peer p, peer ∈ nm_peers n → p ∈ pc_allowedPrefixes peer →
    in_width 32 (px_network p) ∧ in_width 8 (px_length p).

Lemma elem_of_AppendRoute l x y :
  y ∈ AppendRoute l x ↔ y ∈ l ∨ y = x ∧ px_length y <= 32.
Proof.
  unfold AppendRoute. destruct (Z.leb_spec (px_length x) 32).
  - rewrite elem_of_push_new. naive_solver.
  - split; [by left|]. intros [?|[-> ?]]; [done|lia].
Qed.

Lemma NoDup_AppendRoute l x : NoDup l → NoDup (AppendRoute l x).
Proof. unfold AppendRoute. case_match; auto using NoDup_push_new. Qed.

Lemma foldl_AppendRoute xs l :
  (NoDup l → NoDup (foldl AppendRoute l xs))
  ∧ ∀ y, y ∈ foldl AppendRoute l xs ↔ y ∈ l ∨ y ∈ xs ∧ px_length y <= 32.
Proof.
  revert l. induction xs as [|x xs IH]; intros l; simpl.
  { split; [done|]. set_solver. }
  destruct (IH (AppendRoute l x)) as [Hnd Hin].
  split; [auto using NoDup_AppendRoute|]. intros y. rewrite Hin, elem_of_AppendRoute. set_solver.
Qed.

(** The routes that the range of the tailnet already covers. *)
Definition covered_by_tailnet (route : Ipv4Prefix) : Prop :=
  px_length TailnetRoute <= px_length route ∧ prefix_matches TailnetRoute (px_network route).

Lemma append_peer_routes_spec prefixes routes :
  Forall (λ p, in_width 32 (px_network p)) prefixes →
  ∃ routes', append_peer_routes routes prefixes = Ok routes'
    ∧ (NoDup routes → NoDup routes')
    ∧ ∀ y, y ∈ routes' ↔ y ∈ routes
        ∨ y ∈ prefixes ∧ px_length y <= 32 ∧ px_length y ≠ 0 ∧ ¬ covered_by_tailnet y.
Proof.
  intros Hok. revert routes. induction Hok as [|p prefixes Hp Hok IH]; intros routes; simpl.
  { exists routes. set_solver. }
  assert (∃ r, append_peer_route routes p = Ok r ∧ (NoDup routes → NoDup r)
            ∧ ∀ y, y ∈ r ↔ y ∈ routes
                ∨ y = p ∧ px_length y <= 32 ∧ px_length y ≠ 0 ∧ ¬ covered_by_tailnet y)
    as (r & -> & Hnd & Hin).
  { unfold append_peer_route, covered_by_tailnet.
    destruct (Z.eqb_spec (px_length p) 0); [exists routes; naive_solver|].
    destruct (Z.leb_spec (px_length TailnetRoute) (px_length p)).
    - rewrite Contains_matches by (done || unfold prefix_ok; simpl; lia). simpl.
      case_bool_decide; [exists routes; naive_solver|].
      exists (AppendRoute routes p). split_and!; [done|apply NoDup_AppendRoute|].
      intros y. rewrite elem_of_AppendRoute. naive_solver.
    - exists (AppendRoute routes p). split_and!; [done|apply NoDup_AppendRoute|].
      intros y. rewrite elem_of_AppendRoute. naive_solver lia. }
  simpl. destruct (IH r) as (r' & -> & Hnd' & Hin').
  exists r'. split_and!; [done|auto|]. intros y. rewrite Hin', Hin. set_solver.
Qed.

#[export] Instance route_le_total : Total route_le.
Proof. intros x y. unfold route_le. lia. Qed.

#[export] Instance route_le_trans : Transitive route_le.
Proof. intros x y z. unfold route_le. lia. Qed.

Lemma foldl_AppendAddress xs l :
  (NoDup l → NoDup (foldl AppendAddress l xs))
  ∧ ∀ y, y ∈ foldl AppendAddress l xs ↔ y ∈ l ∨ y ∈ xs ∧ y ≠ [].
Proof.
  revert l. induction xs as [|x xs IH]; intros l; simpl.
  { split; [done|]. set_solver. }
  destruct (IH (AppendAddress l x)) as [Hnd Hin]. unfold AppendAddress in *.
  case_bool_decide as Hx.
  - split; [done|]. intros y. rewrite Hin. set_solver.
  - split; [auto using NoDup_push_new|]. intros y. rewrite Hin, elem_of_push_new. set_solver.
Qed.

Lemma elem_of_peer_prefixes p peers :
  p ∈ concat (map pc_allowedPrefixes peers)
  ↔ ∃ peer, peer ∈ peers ∧ p ∈ pc_allowedPrefixes peer.
Proof.
  induction peers as [|peer peers IH]; simpl; [set_solver|].
  rewrite elem_of_app, IH. set_solver.
Qed.

(** The routes before those of the peers. *)
Lemma resolver_route l n y :
  let routes := match Ipv4Address_TryParse (nm_dnsResolver n) with
                | Some dnsResolver =>
                    AppendRoute l {| px_network := Ipv4Address_HostOrder dnsResolver;
                                     px_length := 32 |}
                | None => l
                end in
  (NoDup l → NoDup routes)
  ∧ (y ∈ routes ↔ y ∈ l ∨ px_length y = 32 ∧ Ipv4Address_TryParse (nm_dnsResolver n)
                                            = Some {| ip4_value := px_network y |}).
Proof.
  simpl. destruct (Ipv4Address_TryParse _) as [[v]|].
  - split; [apply NoDup_AppendRoute|]. rewrite elem_of_AppendRoute. simpl.
    destruct y as [w k]. simpl. naive_solver lia.
  - split; [done|]. naive_solver.
Qed.

Lemma default_routes (all : bool) y :
  let l := AppendRoute [] TailnetRoute in
  let routes := if all then AppendRoute (AppendRoute l LowerDefaultRoute) UpperDefaultRoute
                else l in
  NoDup routes
  ∧ (y ∈ routes ↔ px_length y <= 32
       ∧ (y = TailnetRoute ∨ all = true ∧ (y = LowerDefaultRoute ∨ y = UpperDefaultRoute))).
Proof.
  simpl. destruct all.
  - split; [auto using NoDup_AppendRoute, NoDup_nil_2|]. rewrite !elem_of_AppendRoute. set_solver.
  - split; [auto using NoDup_AppendRoute, NoDup_nil_2|]. rewrite elem_of_AppendRoute. set_solver.
Qed.

(** The routes that a configuration has to have. *)
Definition wanted_route (n : NetworkConfig) (options : ConfigOptions) (route : Ipv4Prefix)
    : Prop :=
  route = TailnetRoute
  ∨ op_RouteAllTraffic options = true ∧ (route = LowerDefaultRoute ∨ route = UpperDefaultRoute)
  ∨ px_length route = 32 ∧ Ipv4Address_TryParse (nm_dnsResolver n)
                           = Some {| ip4_value := px_network route |}
  ∨ (∃ peer, peer ∈ nm_peers n ∧ route ∈ pc_allowedPrefixes peer
             ∧ px_length route ≠ 0 ∧ ¬ covered_by_tailnet route)
  ∨ route ∈ op_AdditionalRoutes options.

Lemma Config_Build_elem n options :
  network_typed n →
  ∃ c, Config_Build n options = Ok c
    ∧ (∀ route, route ∈ cf_routes c ↔ px_length route <= 32 ∧ wanted_route n options route)
    ∧ StronglySorted route_le (cf_routes c) ∧ NoDup (cf_routes c)
    ∧ cf_localAddresses c = foldl AppendAddress [] (nm_selfAddress n :: nm_selfAddresses n).
Proof.
  intros Hn. unfold Config_Build. set (r0 := match Ipv4Address_TryParse _ with
                                             | Some _ => _ | None => _ end).
  destruct (append_peer_routes_spec (concat (map pc_allowedPrefixes (nm_peers n))) r0)
    as (r1 & -> & Hnd1 & Hin1).
  { apply Forall_forall. intros p (peer & Hpeer & Hp)%elem_of_peer_prefixes. by apply (Hn peer). }
  simpl. eexists. split; [reflexivity|]. simpl.
  destruct (foldl_AppendRoute (op_AdditionalRoutes options) r1) as [Hnd2 Hin2].
  assert (NoDup r0) as Hnd0.
  { apply (resolver_route _ _ TailnetRoute), (default_routes _ TailnetRoute). }
  split_and!; [|apply StronglySorted_merge_sort; apply _|rewrite merge_sort_Permutation; auto|done].
  intros route. rewrite merge_sort_Permutation, Hin2, Hin1, elem_of_peer_prefixes.
  unfold wanted_route, r0. rewrite (proj2 (resolver_route _ n route)),
    (proj2 (default_routes (op_RouteAllTraffic options) route)).
  naive_solver lia.
Qed.

(** [Config::Build] succeeds on every map; its routes are, up to 32 bits of
    prefix, exactly the tailnet range, the two halves of the address space when all
    traffic is routed, the host route of the DNS resolver, the peers' prefixes other
    than default prefixes and those inside the tailnet range, and the additional
    routes: no other traffic of the host is taken.  They are sorted by network and
    length without a duplicate, and the local addresses are the non-empty self
    addresses without a duplicate. *)
Theorem Config_Build_routes n options :
  network_typed n →
  ∃ c, Config_Build n options = Ok c
    ∧ (∀ route, route ∈ cf_routes c ↔ px_length route <= 32 ∧ wanted_route n options route)
    ∧ StronglySorted route_le (cf_routes c) ∧ NoDup (cf_routes c)
    ∧ NoDup (cf_localAddresses c)
    ∧ ∀ a, a ∈ cf_localAddresses c ↔ a ≠ [] ∧ (a = nm_selfAddress n ∨ a ∈ nm_selfAddresses n).
Proof.
  intros Hn. destruct (Config_Build_elem n options Hn) as (c & Hc & Hin & Hs & Hnd & Hloc).
  exists c. rewrite Hloc. split_and!; [done..|apply foldl_AppendAddress; constructor|].
  intros a. rewrite (proj2 (foldl_AppendAddress _ _)). set_solver.
Qed.

(** ** The policy *)

Lemma find_index_Some {A} (f : A → bool) l i :
  find_index f l = Some i →
  ∃ x, l !! i = Some x ∧ f x = true ∧ ∀ j y, (j < i)%nat → l !! j = Some y → f y = false.
Proof.
  revert i. induction l as [|x l IH]; simpl; intros i; [done|].
  destruct (f x) eqn:Hf; [intros; simplify_eq; exists x; split_and!; [done|done|lia]|].
  intros (i' & (y & Hy & Hfy & Hmin)%IH & ->)%fmap_Some.
  exists y. split_and!; [done|done|]. intros [|j] z Hj Hz; simpl in *; [naive_solver|].
  apply (Hmin j); [lia|done].
Qed.

Lemma find_index_None {A} (f : A → bool) l :
  find_index f l = None → ∀ i x, l !! i = Some x → f x = false.
Proof.
  induction l as [|x l IH]; simpl; intros H i y; [done|].
  destruct (f x) eqn:Hf; [done|]. apply fmap_None in H.
  destruct i as [|i]; simpl; [by intros; simplify_eq|]. by apply IH.
Qed.

Lemma default_halves destination :
  in_width 32 destination →
  ∃ r, (r = LowerDefaultRoute ∨ r = UpperDefaultRoute) ∧ prefix_matches r destination.
Proof.
  unfold in_width, prefix_matches. intros H.
  destruct (decide (destination < 2 ^ 31)).
  - exists LowerDefaultRoute. split; [by left|]. change (px_length _) with 1.
    rewrite Z.div_small by lia. done.
  - exists UpperDefaultRoute. split; [by right|]. change (px_length _) with 1.
    replace (destination / 2 ^ (32 - 1)) with 1; [done|].
    apply Z.div_unique_pos with (destination - 2 ^ 31); lia.
Qed.

(** The routes of a map cover what [FindRoute] sends to a peer. *)
Lemma FindRoute_covered n options c destination exitNode i :
  network_ok n → network_typed n → in_width 32 destination →
  Config_Build n options = Ok c →
  op_RouteAllTraffic options = bool_decide (is_Some exitNode) →
  NetworkConfig_FindRoute n destination exitNode = Ok (Some i) →
  ∃ route, route ∈ cf_routes c ∧ Ipv4Prefix_Contains route destination = Ok true.
Proof.
  intros Hok Hty Hd Hc Hall Hroute.
  destruct (Config_Build_elem n options Hty) as (c' & Hc' & Hin & _).
  rewrite Hc in Hc'. injection Hc' as <-.
  assert (exitNode = Some i → ∃ route, route ∈ cf_routes c
            ∧ Ipv4Prefix_Contains route destination = Ok true) as Hexit.
  { intros ->. destruct (default_halves destination Hd) as (r & Hr & Hm).
    exists r. assert (prefix_ok r) by (destruct Hr as [-> | ->]; by split).
    rewrite Contains_matches, bool_decide_true by done. split; [|done].
    apply Hin. split; [unfold prefix_ok in *; lia|]. right. left. by rewrite Hall. }
  apply FindRoute_Some in Hroute as [(p & peer & Hpeer & Hp & Hel & Hm)|He];
    [|by apply Hexit|done..].
  destruct Hel as [Hlen|He]; [|by apply Hexit].
  assert (prefix_ok p) as Hpok.
  { unfold network_ok in Hok. rewrite Forall_lookup in Hok. apply Hok in Hpeer.
    rewrite Forall_forall in Hpeer. by apply Hpeer. }
  assert (prefix_ok TailnetRoute) by by split.
  destruct (decide (covered_by_tailnet p)) as [[Hle Hcov]|Hcov].
  - exists TailnetRoute.
    rewrite Contains_matches, bool_decide_true;
      [|by apply (prefix_matches_shorter p TailnetRoute)|done..].
    split; [|done]. apply Hin. split; [done|by left].
  - exists p. rewrite Contains_matches, bool_decide_true by done. split; [|done].
    apply Hin. split; [apply Hpok|]. do 3 right. left. exists peer.
    split_and!; [by eapply list_elem_of_lookup_2|done..].
Qed.

(** After [Apply] the policy is consistent: the call succeeds, the exit peer is
    the first one online that matches the configured name and offers to be an exit
    node, and every destination that [FindRoute] gives to a peer is contained in a
    route of the configuration built with it, so that the host hands the packets over;
    without an exit node, no route is a default route or one half of the address
    space unless a peer advertises it. *)
Theorem NetworkPolicy_Apply_consistent policy config :
  network_ok config → network_typed config →
  ∃ change policy', NetworkPolicy_Apply policy config = Ok (change, policy')
    ∧ np_network policy' = config ∧ np_exitNode policy' = np_exitNode policy
    ∧ ch_PreviousRoutes change = np_routes policy
    ∧ (∀ e, np_exitPeer policy' = Some e →
         np_exitNode policy ≠ []
         ∧ ∃ peer, nm_peers config !! e = Some peer ∧ pc_online peer = true
           ∧ pc_exitNodeOption peer = true
           ∧ PeerConfig_MatchesTarget peer (np_exitNode policy) = true)
    ∧ (∀ destination i, in_width 32 destination →
         NetworkConfig_FindRoute config destination (np_exitPeer policy') = Ok (Some i) →
         ∃ route, route ∈ cf_routes (np_routes policy')
           ∧ Ipv4Prefix_Contains route destination = Ok true)
    ∧ (np_exitPeer policy' = None →
       ∀ route, route ∈ cf_routes (np_routes policy') → px_length route <= 1 →
         px_length route = 1 ∧ ∃ peer, peer ∈ nm_peers config
                                       ∧ route ∈ pc_allowedPrefixes peer).
Proof.
  intros Hok Hty. unfold NetworkPolicy_Apply. set (exitPeer := if bool_decide _ then _ else _).
  destruct (Config_Build_elem config
              {| op_AdditionalRoutes := []; op_RouteAllTraffic := bool_decide (is_Some exitPeer) |}
              Hty) as (c & Hc & Hin & _).
  rewrite Hc. simpl. do 2 eexists. split; [reflexivity|]. simpl.
  split_and!; [done..| | |].
  - intros e He. unfold exitPeer in He. case_bool_decide as Hne; [done|]. split; [done|].
    apply find_index_Some in He as (peer & Hpeer & Hf & _). exists peer.
    destruct (pc_online peer), (pc_exitNodeOption peer); by simpl in Hf.
  - intros destination i Hd Hroute. by eapply FindRoute_covered.
  - intros Hnone route Hr Hlen. apply Hin in Hr as [_ Hw].
    destruct Hw as [->|[[Hall _]|[[? _]|[(peer & Hp & Hr & Hne & _)|Hr]]]]; simpl in *.
    + done.
    + rewrite Hnone in Hall. done.
    + lia.
    + destruct (Hty peer route Hp Hr) as [_ [? _]]. split; [lia|]. by exists peer.
    + set_solver.
Qed.

(** ** Owners of addresses *)

Section owners.
  Context (ip6addr_aton : bytes → option bytes).

Definition owner_of (address : IpAddress) (peers : list PeerConfig) (i : nat) : Prop :=
  ∃ peer, peers !! i = Some peer ∧ owns_address ip6addr_aton address peer = true.

Lemma owner_of_cons address peer peers i :
  owner_of address (peer :: peers) i
  ↔ i = 0%nat ∧ owns_address ip6addr_aton address peer = true
    ∨ ∃ k, i = S k ∧ owner_of address peers k.
Proof.
  unfold owner_of. destruct i as [|i]; simpl.
  - split; [intros (? & ? & ?); simplify_eq; by left|].
    intros [[_ H]|(k & ? & _)]; [by exists peer|done].
  - split; [intros (p & ? & ?); right; exists i; eauto|].
    intros [[? _]|(k & ? & H)]; [done|]. by simplify_eq.
Qed.

Lemma FindPeerAddress_loop_spec address peers index owner i :
  FindPeerAddress_loop ip6addr_aton address index peers owner = Some i
  ↔ owner = Some i ∧ (∀ k, ¬ owner_of address peers k)
    ∨ owner = None ∧ ∃ k, i = (index + k)%nat ∧ owner_of address peers k
        ∧ ∀ j, owner_of address peers j → j = k.
Proof.
  revert index owner. induction peers as [|peer peers IH]; intros index owner; simpl.
  { assert (∀ k, ¬ owner_of address [] k) by (intros k (p & Hp & _); by rewrite lookup_nil in Hp).
    naive_solver. }
  setoid_rewrite owner_of_cons. destruct (owns_address ip6addr_aton address peer) eqn:Ho.
  - destruct owner as [o|].
    + split; [done|]. intros [[_ H]|[? _]]; [|done]. exfalso. apply (H 0%nat). by left.
    + rewrite IH. split.
      * intros [[? H]|[? _]]; [|done]. simplify_eq. right. split; [done|]. exists 0%nat.
        split_and!; [lia|by left|]. intros j [[? _]|(k & -> & Hk)]; [done|]. by destruct (H k).
      * intros [[? _]|(_ & k & -> & Hk & Hall)]; [done|].
        assert (k = 0%nat) as -> by (symmetry; apply Hall; by left).
        left. split; [f_equal; lia|]. intros k Hk'. by discriminate (Hall (S k) ltac:(right; eauto)).
  - rewrite IH. split.
    + intros [[-> H]|(-> & k & -> & Hk & Hall)]; [left|right]; (split; [done|]).
      * intros k [[_ ?]|(k' & -> & Hk')]; [done|]. by apply (H k').
      * exists (S k). split_and!; [lia|right; eauto|].
        intros j [[_ ?]|(k' & -> & Hk')]; [done|]. f_equal. by apply Hall.
    + intros [[-> H]|(-> & k & -> & Hk & Hall)]; [left|right]; (split; [done|]).
      * intros k Hk. apply (H (S k)). right. eauto.
      * destruct Hk as [[_ ?]|(k' & -> & Hk')]; [done|]. exists k'. split_and!; [lia|done|].
        intros j Hj. enough (S j = S k') by congruence. apply Hall. right. eauto.
Qed.

(** [FindPeerAddress] names a peer exactly when that peer, by its address or one
    of its addresses, is the only owner of the address: an address that two peers
    claim belongs to nobody, whatever spelling each uses. *)
Theorem FindPeerAddress_unique n address i :
  NetworkConfig_FindPeerAddress ip6addr_aton n address = Some i
  ↔ owner_of address (nm_peers n) i ∧ ∀ j, owner_of address (nm_peers n) j → j = i.
Proof.
  unfold NetworkConfig_FindPeerAddress. rewrite FindPeerAddress_loop_spec. split.
  - intros [[? _]|(_ & k & -> & H)]; done.
  - intros H. right. split; [done|]. by exists i.
Qed.

End owners.

(** ** Funnel ports *)

(** The pieces of a text between the separators [c]. *)
Fixpoint split_at (c : Z) (text : bytes) : list bytes :=
  match text with
  | [] => [[]]
  | x :: rest =>
      if x =? c then [] :: split_at c rest
      else match split_at c rest with
           | piece :: pieces => (x :: piece) :: pieces
           | [] => [[x]]
           end
  end.

Lemma split_at_find c text :
  split_at c text = match find_char c text with
                    | None => [text]
                    | Some i => take i text :: split_at c (drop (S i) text)
                    end.
Proof.
  induction text as [|x text IH]; simpl; [done|].
  destruct (x =? c); [done|]. rewrite IH. by destruct (find_char c text).
Qed.

Lemma AllowsFunnelPort_loop_spec fuel capability start port :
  (start <= length capability)%nat → (length capability - start < fuel)%nat →
  AllowsFunnelPort_loop fuel capability start port
  = existsb (fun token => AllowsPortToken token port) (split_at chr_comma (drop start capability)).
Proof.
  revert start. induction fuel as [|fuel IH]; intros start Hs Hf; [lia|].
  simpl. rewrite (proj2 (Nat.ltb_ge _ _)) by lia. rewrite split_at_find.
  destruct (find_char chr_comma (drop start capability)) as [c|] eqn:Hc; simpl.
  - assert (c < length (drop start capability))%nat as Hlt.
    { apply find_char_Some in Hc as [Hc _]. apply (f_equal length) in Hc.
      rewrite length_app, length_cons, !length_drop, length_take, length_drop in Hc.
      rewrite length_drop. lia. }
    rewrite length_drop in Hlt. rewrite drop_drop.
    replace (start + S c)%nat with (start + c + 1)%nat by lia. rewrite <- IH by lia.
    by destruct (AllowsPortToken _ _).
  - by destruct (AllowsPortToken _ _).
Qed.

Lemma find_text_bound pattern text i :
  find_text pattern text = Some i → (i + length pattern <= length text)%nat.
Proof.
  revert i. induction text as [|x text IH]; intros i.
  - simpl. unfold starts_with. case_bool_decide as H; [|done]. intros; simplify_eq.
    rewrite take_nil in H. by subst.
  - change (find_text pattern (x :: text)) with
      (if starts_with pattern (x :: text) then Some 0%nat else S <$> find_text pattern text).
    unfold starts_with. case_bool_decide as H.
    + intros; simplify_eq. rewrite <- H, length_take. lia.
    + intros (j & Hj & ->)%fmap_Some. apply IH in Hj. simpl. lia.
Qed.

(** A port may be funnelled exactly when a funnel-ports capability lists it: one of
    the comma-separated tokens after [ports=] is that port or a range with it. *)
Theorem AllowsFunnelPort_tokens n port :
  NetworkConfig_AllowsFunnelPort n port = true
  ↔ ∃ capability query token, capability ∈ nm_capabilities n
      ∧ starts_with FunnelPortsPrefix capability = true
      ∧ find_text (lit "ports=") capability = Some query
      ∧ token ∈ split_at chr_comma (drop (query + 6) capability)
      ∧ AllowsPortToken token port = true.
Proof.
  assert (∀ capability query, find_text (lit "ports=") capability = Some query →
            AllowsFunnelPort_loop (S (length capability)) capability (query + 6) port = true
            ↔ ∃ token, token ∈ split_at chr_comma (drop (query + 6) capability)
                ∧ AllowsPortToken token port = true) as Hloop.
  { intros capability query Hq. apply find_text_bound in Hq.
    rewrite AllowsFunnelPort_loop_spec, existsb_exists by (simpl in Hq; lia).
    by setoid_rewrite list_elem_of_In. }
  unfold NetworkConfig_AllowsFunnelPort. rewrite existsb_exists. setoid_rewrite <- list_elem_of_In.
  unfold AllowsFunnelPort_one. split.
  - intros (capability & Hin & H). destruct (starts_with _ capability) eqn:Hsw; [|done].
    simpl in H. destruct (find_text _ capability) as [query|] eqn:Hq; [|done].
    apply Hloop in H as (token & ? & ?); [|done]. by exists capability, query, token.
  - intros (capability & query & token & Hin & Hsw & Hq & Ht & Ha). exists capability.
    split; [done|]. rewrite Hsw, Hq. apply Hloop; eauto.
Qed.

(** ** A concrete map *)

Definition demo_prefix (a b c d length : Z) : Ipv4Prefix :=
  {| px_network := ip4_value (Ipv4Address_FromOctets a b c d); px_length := length |}.

Definition demo_peer (name address : String.string) (prefixes : list Ipv4Prefix) (exit : bool)
    : PeerConfig := {|
  pc_name := lit name; pc_address := lit address; pc_addresses := [lit address]; pc_key := [];
  pc_allowedPrefixes := prefixes; pc_derpRegion := 1; pc_derpCode := [];
  pc_online := true; pc_exitNodeOption := exit;
  pc_nodeId := 0; pc_discoKey := []; pc_endpoints := []
|}.

Definition demo_map : NetworkConfig := {|
  nm_selfAddress := lit "100.64.0.1"; nm_selfAddresses := [lit "100.64.0.1"];
  nm_selfName := lit "self.example.ts.net."; nm_capabilities := [];
  nm_dnsResolver := lit "100.100.100.100"; nm_dnsDomains := []; nm_dnsDefaultResolvers := [];
  nm_dnsRoutes := []; nm_derpRegion := 1;
  nm_derpCode := [];
  nm_peers := [
    demo_peer "laptop.example.ts.net." "100.64.0.2" [demo_prefix 100 64 0 2 32] false;
    demo_peer "exit.example.ts.net." "100.64.0.3"
      [demo_prefix 0 0 0 0 0; demo_prefix 10 0 0 0 8] true;
    demo_peer "subnet.example.ts.net." "100.64.0.4" [demo_prefix 10 1 0 0 16] false]
|}.

Example FindRoute_demo :
  map (fun d => NetworkConfig_FindRoute demo_map d (Some 1%nat))
      [px_network (demo_prefix 100 64 0 2 0); px_network (demo_prefix 10 1 2 3 0);
       px_network (demo_prefix 10 2 0 0 0); px_network (demo_prefix 8 8 8 8 0)]
  = [Ok (Some 0%nat); Ok (Some 2%nat); Ok (Some 1%nat); Ok (Some 1%nat)].
Proof. vm_compute. reflexivity. Qed.

Example Config_Build_demo :
  NetworkPolicy_Apply (NetworkPolicy_new (lit "exit.example.ts.net")) demo_map
  = Ok ({| ch_PreviousRoutes := Config_default; ch_DnsChanged := true |},
        {| np_exitNode := lit "exit.example.ts.net"; np_network := demo_map;
           np_routes := {| cf_localAddresses := [lit "100.64.0.1"];
                           cf_routes := [LowerDefaultRoute; demo_prefix 10 0 0 0 8;
                                         demo_prefix 10 1 0 0 16; TailnetRoute;
                                         demo_prefix 100 100 100 100 32; UpperDefaultRoute] |};
           np_exitPeer := Some 1%nat |}).
Proof. vm_compute. reflexivity. Qed.

Lemma demo_map_ok : network_ok demo_map.
Proof. repeat constructor; vm_compute; discriminate. Qed.

Lemma demo_map_typed : network_typed demo_map.
Proof.
  intros peer p Hpeer Hp. simpl in Hpeer.
  repeat (apply elem_of_cons in Hpeer as [->|Hpeer]; [
    simpl in Hp; repeat (apply elem_of_cons in Hp as [->|Hp]; [by split|]);
    by apply elem_of_nil in Hp|]).
  by apply elem_of_nil in Hpeer.
Qed.

Lemma FindRoute_longest_prefix_witness :
  let destination := px_network (demo_prefix 10 1 2 3 0) in
  NetworkConfig_FindRoute demo_map destination (Some 1%nat) = Ok (Some 2%nat)
  ∧ ∃ route, NetworkConfig_FindRoute demo_map destination (Some 1%nat) = Ok route
    ∧ (route = None → ∀ j q, ¬ route_candidate destination (Some 1%nat) demo_map j q).
Proof.
  split; [vm_compute; reflexivity|].
  destruct (FindRoute_longest_prefix demo_map (px_network (demo_prefix 10 1 2 3 0)) (Some 1%nat))
    as (route & Hr & Hspec); [apply demo_map_ok|by split|].
  exists route. split; [exact Hr|]. intros ->. apply Hspec.
Defined.

Lemma Config_Build_routes_witness :
  ∃ c, Config_Build demo_map {| op_AdditionalRoutes := []; op_RouteAllTraffic := false |} = Ok c
    ∧ NoDup (cf_routes c).
Proof.
  destruct (Config_Build_routes demo_map
              {| op_AdditionalRoutes := []; op_RouteAllTraffic := false |} demo_map_typed)
    as (c & Hc & _ & _ & Hnd & _).
  exists c. split; [exact Hc|exact Hnd].
Defined.

Lemma NetworkPolicy_Apply_consistent_witness :
  ∃ change policy',
    NetworkPolicy_Apply (NetworkPolicy_new (lit "exit.example.ts.net")) demo_map
    = Ok (change, policy')
    ∧ np_network policy' = demo_map.
Proof.
  destruct (NetworkPolicy_Apply_consistent (NetworkPolicy_new (lit "exit.example.ts.net"))
              demo_map demo_map_ok demo_map_typed) as (change & policy' & Ha & Hn & _).
  exists change, policy'. split; [exact Ha|exact Hn].
Defined.
