(* ===== verification/Forward.v ===== *)
(** * DNS forwarding

    src/core/ipn/ipnlocal/DnsForwarder.cpp: the queries that the host sends to the
    resolver address are forwarded under a wire identifier of their own, and each
    answer goes back to its client under the identifier the client chose; and
    src/core/hosted/Dns.cpp, which checks the tailnet queries and responses that a
    hosted node exchanges with its server.  [boost::algorithm::to_lower] is a
    parameter; the random bytes of a call are arguments; logging is left out. *)

From stdpp Require Import gmap.
From S2P Require Import Prelude Text Net Packet Framing Dns Tailnet NetMap.

(** ** Identifiers *)

Definition PendingTimeout : Z := 10 * 1000000000.
Definition MaximumPending : Z := 4096.
Definition IdSize : Z := 2.

Definition DnsForwarder_Id (payload : bytes) : outcome Z :=
  let! high := rd payload 0 in
  let! low := rd payload 1 in
  Ok (u16 (Z.lor (Z.shiftl high 8) low)).

Definition DnsForwarder_SetId (payload : bytes) (id : Z) : outcome bytes :=
  let! payload := wr payload 0 (u8 (Z.shiftr id 8)) in
  wr payload 1 (u8 id).

(** ** State *)

Record Pending := {
  pe_Client : Endpoint;
  pe_Self : Ipv4Address;
  pe_Resolver : Ipv4Address;
  pe_OriginalId : Z;
  pe_WireId : Z;
  pe_Tunneled : bool;
  pe_Started : Z
}.

(** [m_wireIds], a bitset over the 16-bit identifiers, is the set of its ones. *)
Record DnsForwarder := { df_pending : list Pending; df_wireIds : gset Z }.

Definition DnsForwarder_new : DnsForwarder := {| df_pending := []; df_wireIds := ∅ |}.

Inductive DnsForwardStatus := Forward_Ready | Forward_InvalidQuery | Forward_UnsupportedResolver
  | Forward_Full.

Record DnsReply := { re_Client : Endpoint; re_Payload : bytes }.

Record DnsForward := {
  fw_Status : DnsForwardStatus;
  fw_Resolver : Endpoint;
  fw_Payload : bytes;
  fw_TunnelPacket : option bytes;
  fw_LocalReply : option DnsReply
}.

Definition DnsForward_empty (status : DnsForwardStatus) : DnsForward := {|
  fw_Status := status;
  fw_Resolver := {| ep_address := {| ip4_value := 0 |}; ep_port := 0 |};
  fw_Payload := []; fw_TunnelPacket := None; fw_LocalReply := None
|}.

(** ** Operations *)

(** [std::erase_if] with a predicate that also clears the identifier bit. *)
Fixpoint erase_pending (f : Pending → bool) (pending : list Pending) (wireIds : gset Z)
    : list Pending * gset Z :=
  match pending with
  | [] => ([], wireIds)
  | p :: rest =>
      if f p then erase_pending f rest (wireIds ∖ {[pe_WireId p]})
      else let '(rest', wireIds') := erase_pending f rest wireIds in (p :: rest', wireIds')
  end.

Definition DnsForwarder_erase_if (f : Pending → bool) (s : DnsForwarder) : DnsForwarder :=
  let '(pending, wireIds) := erase_pending f (df_pending s) (df_wireIds s) in
  {| df_pending := pending; df_wireIds := wireIds |}.

Definition is_expired (now : Z) (p : Pending) : bool := PendingTimeout <=? now - pe_Started p.

Definition DnsForwarder_Expire (now : Z) : eff DnsForwarder unit :=
  emod (DnsForwarder_erase_if (is_expired now)).

Definition DnsForwarder_Reset : eff DnsForwarder unit := emod (fun _ => DnsForwarder_new).

Definition is_replaced (client : Endpoint) (originalId : Z) (p : Pending) : bool :=
  bool_decide (pe_Client p = client) && (pe_OriginalId p =? originalId).

(** [while (m_wireIds.test(wireId)) ++wireId;] on a 16-bit identifier. *)
Fixpoint free_id (fuel : nat) (wireIds : gset Z) (wireId : Z) : outcome Z :=
  match fuel with
  | O => UB
  | S fuel' =>
      if bool_decide (wireId ∈ wireIds) then free_id fuel' wireIds (u16 (wireId + 1))
      else Ok wireId
  end.

Definition free_id_fuel : nat := Z.to_nat 4096.

Definition DnsForwarder_push (p : Pending) : eff DnsForwarder unit :=
  emod (fun s => {| df_pending := df_pending s ++ [p]; df_wireIds := df_wireIds s ∪ {[pe_WireId p]} |}).

Section forwarder.
  Context (lower : Z → Z).

Definition begin_defaults (network : NetworkConfig) (originalResolvers : list bytes) : list bytes :=
  match nm_dnsDefaultResolvers network with [] => originalResolvers | defaults => defaults end.

(** What [Begin] does once the resolver is known. *)
Definition begin_forward (client : Endpoint) (payload : bytes) (policy : NetworkPolicy)
    (resolver self : Ipv4Address) (now : Z) (randomId : Z * Z) : eff DnsForwarder DnsForward :=
  let* originalId := elift (DnsForwarder_Id payload) in
  DnsForwarder_Expire now ;;*
  emod (DnsForwarder_erase_if (is_replaced client originalId)) ;;*
  let* s := eget in
  if MaximumPending <=? zlen (df_pending s) then eret (DnsForward_empty Forward_Full) else
  let wireId := u16 (Z.lor (Z.shiftl randomId.1 8) randomId.2) in
  let* wireId := elift (free_id (S free_id_fuel) (df_wireIds s) wireId) in
  let* payload := elift (DnsForwarder_SetId payload wireId) in
  let* tunneled := elift (
    if Ipv4Address_HostOrder resolver =? MagicDnsIpv4Address then Ok true
    else let! route := NetworkConfig_FindRoute (np_network policy) (Ipv4Address_HostOrder resolver)
                         (np_exitPeer policy) in
         Ok (bool_decide (is_Some route))) in
  let* tunnelPacket := elift (
    if tunneled : bool then
      let! packet := Ipv4UdpDatagram_Build (Ipv4Address_HostOrder self)
                       (Ipv4Address_HostOrder resolver) (ep_port client) DnsPort payload in
      Ok (Some packet)
    else Ok None) in
  DnsForwarder_push {| pe_Client := client; pe_Self := self; pe_Resolver := resolver;
                       pe_OriginalId := originalId; pe_WireId := wireId;
                       pe_Tunneled := tunneled; pe_Started := now |} ;;*
  eret {| fw_Status := Forward_Ready;
          fw_Resolver := {| ep_address := resolver; ep_port := DnsPort |};
          fw_Payload := payload; fw_TunnelPacket := tunnelPacket; fw_LocalReply := None |}.

Definition DnsForwarder_Begin (client : Endpoint) (payload : bytes) (policy : NetworkPolicy)
    (originalResolvers : list bytes) (now : Z) (randomId : Z * Z)
    : eff DnsForwarder DnsForward :=
  if zlen payload <? IdSize then eret (DnsForward_empty Forward_InvalidQuery) else
  let network := np_network policy in
  let* selected := elift (SelectResolver lower payload (nm_dnsResolver network)
                            (nm_dnsRoutes network) (begin_defaults network originalResolvers)) in
  let resolver := match selected with
                  | Some selection => Ipv4Address_TryParse (rs_Address selection)
                  | None => None
                  end in
  match resolver, Ipv4Address_TryParse (nm_selfAddress network) with
  | Some resolver, Some self => begin_forward client payload policy resolver self now randomId
  | _, _ => eret (DnsForward_empty Forward_UnsupportedResolver)
  end.

End forwarder.

(** [m_pending.erase(pending)], the iterator as an index. *)
Definition DnsForwarder_Finish (i : nat) (payload : bytes) : eff DnsForwarder DnsReply :=
  let* s := eget in
  let* pending := elift (rd (df_pending s) (Z.of_nat i)) in
  let* payload := elift (DnsForwarder_SetId payload (pe_OriginalId pending)) in
  emod (fun s => {| df_pending := delete i (df_pending s);
                    df_wireIds := df_wireIds s ∖ {[pe_WireId pending]} |}) ;;*
  eret {| re_Client := pe_Client pending; re_Payload := payload |}.

(** [found == m_pending.end() ? std::nullopt : std::optional(Finish(found, payload))] *)
Definition finish_found (f : Pending → bool) (payload : bytes)
    : eff DnsForwarder (option DnsReply) :=
  let* s := eget in
  match find_index f (df_pending s) with
  | None => eret None
  | Some i => let* reply := DnsForwarder_Finish i payload in eret (Some reply)
  end.

Definition packet_matches (d : Ipv4UdpDatagram) (id : Z) (p : Pending) : bool :=
  pe_Tunneled p && (Ipv4Address_HostOrder (pe_Resolver p) =? udp_source d)
  && (Ipv4Address_HostOrder (pe_Self p) =? udp_destination d)
  && (ep_port (pe_Client p) =? udp_destinationPort d) && (pe_WireId p =? id).

Definition DnsForwarder_CompletePacket (packet : bytes) : eff DnsForwarder (option DnsReply) :=
  let* datagram := elift (Ipv4UdpDatagram_Parse packet) in
  match datagram with
  | None => eret None
  | Some d =>
      if negb (udp_sourcePort d =? DnsPort) || (zlen (udp_payload d) <? IdSize) then eret None else
      let* id := elift (DnsForwarder_Id (udp_payload d)) in
      finish_found (packet_matches d id) (udp_payload d)
  end.

Definition datagram_matches (source : Endpoint) (id : Z) (p : Pending) : bool :=
  negb (pe_Tunneled p) && bool_decide (pe_Resolver p = ep_address source) && (pe_WireId p =? id).

Definition DnsForwarder_CompleteDatagram (source : Endpoint) (payload : bytes)
    : eff DnsForwarder (option DnsReply) :=
  if negb (ep_port source =? DnsPort) || (zlen payload <? IdSize) then eret None else
  let* id := elift (DnsForwarder_Id payload) in
  finish_found (datagram_matches source id) payload.

(** [std::ranges::min_element(m_pending, {}, &Pending::Started)] *)
Definition DnsForwarder_NextDeadline (s : DnsForwarder) : option Z :=
  match df_pending s with
  | [] => None
  | p :: rest => Some (foldl (fun t q => Z.min t (pe_Started q)) (pe_Started p) rest + PendingTimeout)
  end.

(** ** Tailnet queries of a hosted node *)

Definition MessageType_TailnetDnsQuery : Z := 16.
Definition MessageType_TailnetDnsResponse : Z := 17.

Inductive DnsStatus := DnsStatus_Unhandled | DnsStatus_Invalid | DnsStatus_Complete.

Record DnsResult := {
  dr_Status : DnsStatus;
  dr_RemoteFrame : option Frame;
  dr_LocalPacket : option bytes;
  dr_Name : option bytes
}.

Definition DnsResult_empty (status : DnsStatus) : DnsResult :=
  {| dr_Status := status; dr_RemoteFrame := None; dr_LocalPacket := None; dr_Name := None |}.

Section hosted.
  Context (lower : Z → Z).

Definition HostedDns_ProcessQuery (packet : bytes) (network : NetworkConfig) : outcome DnsResult :=
  let! query := Ipv4UdpDatagram_Parse packet in
  match query with
  | None => Ok (DnsResult_empty DnsStatus_Unhandled)
  | Some query =>
      if negb (udp_destination query =? MagicDnsIpv4Address)
         || negb (udp_destinationPort query =? DnsPort)
      then Ok (DnsResult_empty DnsStatus_Unhandled) else
      match Ipv4Address_TryParse (nm_selfAddress network) with
      | None => Ok (DnsResult_empty DnsStatus_Invalid)
      | Some self =>
          if negb (udp_source query =? Ipv4Address_HostOrder self)
          then Ok (DnsResult_empty DnsStatus_Invalid) else
          let! name := DnsQuery_Name lower (udp_payload query) in
          Ok {| dr_Status := DnsStatus_Complete;
                dr_RemoteFrame := Some {| fr_type := MessageType_TailnetDnsQuery;
                                          fr_payload := packet |};
                dr_LocalPacket := None; dr_Name := name |}
      end
  end.

Definition HostedDns_ProcessResponse (frame : Frame) (network : NetworkConfig)
    : outcome DnsResult :=
  if negb (fr_type frame =? MessageType_TailnetDnsResponse)
  then Ok (DnsResult_empty DnsStatus_Unhandled) else
  let! response := Ipv4UdpDatagram_Parse (fr_payload frame) in
  match response, Ipv4Address_TryParse (nm_selfAddress network) with
  | Some response, Some self =>
      if negb (udp_source response =? MagicDnsIpv4Address)
         || negb (udp_destination response =? Ipv4Address_HostOrder self)
         || negb (udp_sourcePort response =? DnsPort)
      then Ok (DnsResult_empty DnsStatus_Invalid) else
      let! name := DnsQuery_Name lower (udp_payload response) in
      Ok {| dr_Status := DnsStatus_Complete; dr_RemoteFrame := None;
            dr_LocalPacket := Some (fr_payload frame); dr_Name := name |}
  | _, _ => Ok (DnsResult_empty DnsStatus_Invalid)
  end.

End hosted.

(** ** Identifiers *)

Lemma Id_bytes a b rest :
  in_width 8 a → in_width 8 b → DnsForwarder_Id (a :: b :: rest) = Ok (a * 256 + b).
Proof.
  intros Ha Hb. change (Ok (u16 (Z.lor (Z.shiftl a 8) b)) = Ok (a * 256 + b)).
  rewrite lor_shiftl_add by done. f_equal. apply wrap_id. unfold in_width in *. lia.
Qed.

Lemma SetId_bytes a b rest id :
  DnsForwarder_SetId (a :: b :: rest) id = Ok (u8 (Z.shiftr id 8) :: u8 id :: rest).
Proof.
  unfold DnsForwarder_SetId. change (a :: b :: rest) with ([a; b] ++ rest).
  erewrite wr_app_l by reflexivity.
  by apply (wr_app_l [u8 (Z.shiftr id 8); b] rest 1 _ [u8 (Z.shiftr id 8); u8 id]).
Qed.

(** The two bytes of an identifier, and their value. *)
Definition id_bytes (id : Z) : bytes := [u8 (Z.shiftr id 8); u8 id].

Lemma id_bytes_value a b : in_width 8 a → in_width 8 b → id_bytes (a * 256 + b) = [a; b].
Proof.
  intros Ha Hb. unfold id_bytes, wrap, in_width in *. rewrite Z.shiftr_div_pow2 by done.
  change (2 ^ 8) with 256 in *.
  rewrite (Z.add_comm (a * 256)), Z.div_add, Z.mod_add, (Z.div_small b) by lia.
  rewrite !Z.mod_small by lia. done.
Qed.

Lemma id_value id : in_width 16 id → u8 (Z.shiftr id 8) * 256 + u8 id = id.
Proof.
  unfold wrap, in_width. intros Hid. rewrite Z.shiftr_div_pow2 by done. change (2 ^ 8) with 256.
  rewrite (Z.mod_small (id / 256)) by (split; [apply Z.div_pos|apply Z.div_lt_upper_bound]; lia).
  pose proof (Z.div_mod id 256). lia.
Qed.

(** The identifier of a payload is its first two bytes. *)
Lemma id_prefix payload id :
  bytes_ok payload → 2 <= zlen payload → DnsForwarder_Id payload = Ok id →
  id_bytes id = take 2 payload.
Proof.
  intros Hp Hlen Hid. destruct payload as [|a [|b rest]]; [zlia..|].
  apply Forall_cons in Hp as [Ha Hp]. apply Forall_cons in Hp as [Hb _].
  rewrite Id_bytes in Hid by done. injection Hid as <-. by rewrite id_bytes_value.
Qed.

Lemma two_bytes (payload : bytes) :
  2 <= zlen payload → ∃ a b rest, payload = a :: b :: rest.
Proof. destruct payload as [|a [|b rest]]; [zlia..|eauto]. Qed.

(** ** Erasing *)

Lemma erase_pending_filter f l w :
  erase_pending f l w
  = (List.filter (fun p => negb (f p)) l, w ∖ list_to_set (map pe_WireId (List.filter f l))).
Proof.
  revert w. induction l as [|p l IH]; intros w; simpl; [f_equal; set_solver|].
  destruct (f p); simpl; rewrite IH; [|done]. f_equal. set_solver.
Qed.

Lemma erase_if_pending f s :
  df_pending (DnsForwarder_erase_if f s) = List.filter (fun p => negb (f p)) (df_pending s).
Proof. unfold DnsForwarder_erase_if. by rewrite erase_pending_filter. Qed.

(** The client and its identifier, by which a query replaces an earlier one. *)
Definition pe_key (p : Pending) : Endpoint * Z := (pe_Client p, pe_OriginalId p).

Definition pending_ok (p : Pending) : Prop :=
  in_width 16 (pe_OriginalId p) ∧ in_width 16 (pe_WireId p).

(** The bits of [m_wireIds] are the identifiers of the pending queries, which are
    distinct, as are the clients' own; there are at most [MaximumPending]. *)
Record forwarder_ok (s : DnsForwarder) : Prop := {
  fo_ids : ∀ id, id ∈ df_wireIds s ↔ id ∈ map pe_WireId (df_pending s);
  fo_distinct : NoDup (map pe_WireId (df_pending s));
  fo_keys : NoDup (map pe_key (df_pending s));
  fo_count : zlen (df_pending s) <= MaximumPending;
  fo_pending : Forall pending_ok (df_pending s)
}.

Lemma elem_of_filter_bool {A} (f : A → bool) l x :
  x ∈ List.filter f l ↔ x ∈ l ∧ f x = true.
Proof. rewrite !list_elem_of_In. apply filter_In. Qed.

Lemma NoDup_map_filter {A B} (g : A → B) (f : A → bool) l :
  NoDup (map g l) → NoDup (map g (List.filter f l)).
Proof.
  induction l as [|x l IH]; simpl; [done|]. intros [Hx Hl]%NoDup_cons.
  destruct (f x); simpl; [|by apply IH]. apply NoDup_cons. split; [|by apply IH].
  intros (y & Hy & Hin)%list_elem_of_fmap. apply Hx. apply list_elem_of_fmap.
  apply elem_of_filter_bool in Hin as [? _]. eauto.
Qed.

Lemma length_filter_le {A} (f : A → bool) l : (length (List.filter f l) <= length l)%nat.
Proof. induction l as [|x l IH]; simpl; [done|]. destruct (f x); simpl; lia. Qed.

(** Distinct identifiers name one pending query. *)
Lemma wire_id_unique s p q :
  forwarder_ok s → p ∈ df_pending s → q ∈ df_pending s → pe_WireId p = pe_WireId q → p = q.
Proof.
  intros [_ Hnd _ _ _]. induction (df_pending s) as [|x l IH]; [set_solver|].
  apply NoDup_cons in Hnd as [Hx Hnd]. fold (map pe_WireId l) in *.
  assert (∀ y, y ∈ l → pe_WireId y ≠ pe_WireId x) as Hne.
  { intros y Hy Heq. apply Hx. apply list_elem_of_fmap. eauto. }
  intros [->|Hp]%elem_of_cons [->|Hq]%elem_of_cons Heq; [done| | |auto].
  - by destruct (Hne q Hq).
  - by destruct (Hne p Hp).
Qed.

Lemma erase_if_ok f s : forwarder_ok s → forwarder_ok (DnsForwarder_erase_if f s).
Proof.
  intros Hs. pose proof Hs as [Hids Hnd Hkeys Hcount Hok].
  constructor; rewrite ?erase_if_pending; try by apply NoDup_map_filter.
  - intros id. unfold DnsForwarder_erase_if. rewrite erase_pending_filter. simpl.
    rewrite elem_of_difference, Hids, elem_of_list_to_set, !list_elem_of_fmap.
    setoid_rewrite elem_of_filter_bool. split.
    + intros [(p & -> & Hp) Hno]. exists p. split_and!; [done|done|].
      destruct (f p) eqn:Hf; [|done]. destruct Hno. eauto.
    + intros (p & -> & Hp & Hf). split; [eauto|]. intros (q & Heq & Hq & Hfq).
      rewrite (wire_id_unique s p q) in Hf by done. by rewrite Hfq in Hf.
  - pose proof (length_filter_le (fun p => negb (f p)) (df_pending s)). unfold zlen in *. lia.
  - apply Forall_forall. intros p [Hp _]%elem_of_filter_bool.
    rewrite Forall_forall in Hok. auto.
Qed.

(** ** A free identifier *)

Lemma u16_add id i : u16 (u16 (id + 1) + i) = u16 (id + (1 + i)).
Proof. unfold wrap. rewrite Zplus_mod_idemp_l. f_equal. lia. Qed.

Lemma free_id_spec fuel w id :
  in_width 16 id →
  (∃ id', free_id fuel w id = Ok id' ∧ (id' ∉ w) ∧ in_width 16 id')
  ∨ ∀ i, (i < fuel)%nat → u16 (id + Z.of_nat i) ∈ w.
Proof.
  revert id. induction fuel as [|fuel IH]; intros id Hid; [right; lia|].
  simpl. case_bool_decide as Hin; [|left; eauto].
  destruct (IH (u16 (id + 1))) as [?|Hall]; [by apply wrap_range|by left|].
  right. intros [|i] Hi; [by rewrite Z.add_0_r, wrap_id|].
  specialize (Hall i ltac:(lia)). rewrite u16_add in Hall. by rewrite Nat2Z.inj_succ, <- Z.add_1_l.
Qed.

Lemma u16_add_inj id i j :
  Z.of_nat i < 65536 → Z.of_nat j < 65536 →
  u16 (id + Z.of_nat i) = u16 (id + Z.of_nat j) → i = j.
Proof.
  unfold wrap. change (2 ^ 16) with 65536. intros Hi Hj Heq.
  assert ((Z.of_nat i - Z.of_nat j) mod 65536 = 0) as H.
  { replace (Z.of_nat i - Z.of_nat j) with ((id + Z.of_nat i) - (id + Z.of_nat j)) by lia.
    rewrite Zminus_mod, Heq, Z.sub_diag. done. }
  apply Z.mod_divide in H as [k Hk]; [|done]. lia.
Qed.

(** At most [MaximumPending] identifiers are taken, so that the search ends. *)
Lemma free_id_found w id :
  in_width 16 id → (size w <= free_id_fuel)%nat →
  ∃ id', free_id (S free_id_fuel) w id = Ok id' ∧ (id' ∉ w) ∧ in_width 16 id'.
Proof.
  intros Hid Hsize. destruct (free_id_spec (S free_id_fuel) w id Hid) as [?|Hall]; [done|].
  exfalso. assert (Z.of_nat free_id_fuel = 4096) as Hf by (unfold free_id_fuel; lia).
  set (ids := (fun i => u16 (id + Z.of_nat i)) <$> seq 0 (S free_id_fuel)).
  assert (NoDup ids) as Hnd.
  { apply NoDup_fmap_2_strong; [|apply NoDup_seq]. intros i j Hi%elem_of_seq Hj%elem_of_seq.
    apply u16_add_inj; lia. }
  assert (list_to_set (C := gset Z) ids ⊆ w) as Hsub.
  { intros x (i & -> & Hi%elem_of_seq)%elem_of_list_to_set%list_elem_of_fmap. apply Hall. lia. }
  apply subseteq_size in Hsub. rewrite size_list_to_set in Hsub by done.
  unfold ids in Hsub. rewrite length_fmap, length_seq in Hsub. lia.
Qed.

Lemma wire_ids_size s : forwarder_ok s → (size (df_wireIds s) <= length (df_pending s))%nat.
Proof.
  intros [Hids Hnd _ _ _].
  replace (df_wireIds s) with (list_to_set (C := gset Z) (map pe_WireId (df_pending s))).
  - rewrite size_list_to_set by done. by rewrite length_map.
  - apply set_eq. intros x. by rewrite Hids, elem_of_list_to_set.
Qed.

(** A query of a client replaces its earlier one of the same identifier, so that
    the new entry is unlike those kept. *)
Lemma push_ok s p :
  forwarder_ok s → zlen (df_pending s) < MaximumPending → pending_ok p →
  pe_WireId p ∉ df_wireIds s → pe_key p ∉ map pe_key (df_pending s) →
  forwarder_ok {| df_pending := df_pending s ++ [p];
                  df_wireIds := df_wireIds s ∪ {[pe_WireId p]} |}.
Proof.
  intros [Hids Hnd Hkeys Hcount Hok] Hlt Hp Hw Hk. constructor; simpl.
  - intros id. rewrite elem_of_union, Hids, elem_of_singleton, map_app, elem_of_app.
    simpl. by rewrite list_elem_of_singleton.
  - rewrite map_app. apply NoDup_app. split_and!; [done| |apply NoDup_singleton].
    intros id Hid. simpl. rewrite list_elem_of_singleton. intros ->. by apply Hw, Hids.
  - rewrite map_app. apply NoDup_app. split_and!; [done| |apply NoDup_singleton].
    intros k Hin. simpl. rewrite list_elem_of_singleton. by intros ->.
  - rewrite zlen_app. unfold zlen in *. simpl. lia.
  - apply Forall_app. by split; [|constructor].
Qed.

(** The pending queries that a query of [client] under [originalId] leaves. *)
Definition kept (now : Z) (client : Endpoint) (originalId : Z) (pending : list Pending)
    : list Pending :=
  List.filter (fun p => negb (is_replaced client originalId p))
         (List.filter (fun p => negb (is_expired now p)) pending).

(** What a policy gives to a query: [FindRoute] is defined on its map. *)
Definition policy_ok (policy : NetworkPolicy) : Prop := network_ok (np_network policy).

Section begin.
  Context (lower : Z → Z).

Lemma policy_route policy resolver :
  policy_ok policy → in_width 32 resolver →
  ∃ route, NetworkConfig_FindRoute (np_network policy) resolver (np_exitPeer policy) = Ok route.
Proof. intros Hp Hr. by apply FindRoute_total. Qed.

Definition forwarded (client : Endpoint) (payload : bytes) (self resolver : Ipv4Address) (now : Z)
    (r : DnsForward) (p : Pending) : Prop :=
  fw_Status r = Forward_Ready ∧ pe_Client p = client ∧ pe_Self p = self ∧ pe_Resolver p = resolver
  ∧ pe_Started p = now ∧ pending_ok p ∧ DnsForwarder_Id payload = Ok (pe_OriginalId p)
  ∧ fw_Resolver r = {| ep_address := resolver; ep_port := DnsPort |}
  ∧ fw_Payload r = id_bytes (pe_WireId p) ++ drop 2 payload
  ∧ (fw_TunnelPacket r = None ∧ pe_Tunneled p = false
     ∨ ∃ packet, fw_TunnelPacket r = Some packet ∧ pe_Tunneled p = true
       ∧ Ipv4UdpDatagram_Build (Ipv4Address_HostOrder self) (Ipv4Address_HostOrder resolver)
           (ep_port client) DnsPort (fw_Payload r) = Ok packet).

Lemma is_replaced_key client originalId p :
  is_replaced client originalId p = bool_decide (pe_key p = (client, originalId)).
Proof.
  unfold is_replaced, pe_key. destruct (Z.eqb_spec (pe_OriginalId p) originalId);
    repeat case_bool_decide; simplify_eq/=; naive_solver.
Qed.

Lemma begin_forward_spec client payload policy resolver self now randomId s :
  forwarder_ok s → policy_ok policy → bytes_ok payload → 2 <= zlen payload →
  Ipv4Address_ok resolver →
  ∃ r s' originalId, begin_forward client payload policy resolver self now randomId s = (Ok r, s')
    ∧ forwarder_ok s' ∧ DnsForwarder_Id payload = Ok originalId
    ∧ (fw_Status r = Forward_Full ∧ MaximumPending <= zlen (df_pending s')
         ∧ df_pending s' = kept now client originalId (df_pending s)
       ∨ ∃ p, df_pending s' = kept now client originalId (df_pending s) ++ [p]
           ∧ forwarded client payload self resolver now r p).
Proof.
  intros Hs Hpol Hpay Hlen Hres. destruct (two_bytes payload Hlen) as (a & b & rest & ->).
  apply Forall_cons in Hpay as [Ha Hpay]. apply Forall_cons in Hpay as [Hb _].
  unfold begin_forward. rewrite Id_bytes by done. set (originalId := a * 256 + b).
  pose proof (erase_if_ok (is_replaced client originalId) _ (erase_if_ok (is_expired now) s Hs)) as Hs'.
  set (s1 := DnsForwarder_erase_if _ (DnsForwarder_erase_if _ s)) in *.
  assert (df_pending s1 = kept now client originalId (df_pending s)) as Hkept
    by (unfold s1, kept; by rewrite !erase_if_pending).
  unfold DnsForwarder_Expire, ebind, elift, emod, eget. fold s1.
  destruct (Z.leb_spec MaximumPending (zlen (df_pending s1))) as [Hfull|Hroom].
  { exists (DnsForward_empty Forward_Full), s1, originalId. split_and!; auto. }
  destruct (free_id_found (df_wireIds s1) (u16 (Z.lor (Z.shiftl randomId.1 8) randomId.2)))
    as (wireId & -> & Hfree & Hw); [by apply wrap_range| |].
  { pose proof (wire_ids_size s1 Hs'). unfold MaximumPending, zlen, free_id_fuel in *. lia. }
  rewrite SetId_bytes.
  assert (∃ tunneled, (if Ipv4Address_HostOrder resolver =? MagicDnsIpv4Address then Ok true
            else let! route := NetworkConfig_FindRoute (np_network policy)
                                 (Ipv4Address_HostOrder resolver) (np_exitPeer policy) in
                 Ok (bool_decide (is_Some route))) = Ok tunneled) as [tunneled ->].
  { ifb; [eauto|]. destruct (policy_route policy (Ipv4Address_HostOrder resolver)) as (route & ->);
      [done|done|simpl; eauto]. }
  set (p := {| pe_Client := client; pe_Self := self; pe_Resolver := resolver;
               pe_OriginalId := originalId; pe_WireId := wireId; pe_Tunneled := tunneled;
               pe_Started := now |}).
  assert (pending_ok p) as Hpok.
  { split; [|done]. unfold in_width, p, originalId in *. simpl. lia. }
  assert (forwarder_ok {| df_pending := df_pending s1 ++ [p];
                          df_wireIds := df_wireIds s1 ∪ {[pe_WireId p]} |}) as Hs2.
  { apply push_ok; try done. rewrite Hkept. unfold kept.
    intros (q & Heq & [_ Hq]%elem_of_filter_bool)%list_elem_of_fmap.
    rewrite is_replaced_key, bool_decide_true in Hq; done. }
  destruct tunneled.
  - rewrite Ipv4UdpDatagram_Build_eq. cbn [obind].
    do 3 eexists. split; [reflexivity|]. split_and!; [exact Hs2|reflexivity|right].
    exists p. simpl. rewrite Hkept. split; [done|].
    unfold forwarded. simpl. rewrite Id_bytes by done. split_and!; try done.
    right. eexists. split_and!; [done|done|]. apply Ipv4UdpDatagram_Build_eq.
  - do 3 eexists. split; [reflexivity|]. split_and!; [exact Hs2|reflexivity|right].
    exists p. simpl. rewrite Hkept. split; [done|].
    unfold forwarded. simpl. rewrite Id_bytes by done. split_and!; try done. by left.
Qed.

End begin.

(** ** Completing *)

Lemma find_index_unique {A} (f : A → bool) l i x :
  l !! i = Some x → f x = true → (∀ j y, l !! j = Some y → f y = true → j = i) →
  find_index f l = Some i.
Proof.
  intros Hx Hf Huniq. destruct (find_index f l) as [j|] eqn:Hj.
  - apply find_index_Some in Hj as (y & Hy & Hfy & _). f_equal. eauto.
  - by rewrite (find_index_None _ _ Hj i x Hx) in Hf.
Qed.

Definition reply_for (p : Pending) (payload : bytes) : DnsReply :=
  {| re_Client := pe_Client p; re_Payload := id_bytes (pe_OriginalId p) ++ drop 2 payload |}.

Lemma Finish_spec s i p payload :
  forwarder_ok s → df_pending s !! i = Some p → 2 <= zlen payload →
  ∃ s', DnsForwarder_Finish i payload s = (Ok (reply_for p payload), s')
    ∧ forwarder_ok s' ∧ df_pending s ≡ₚ p :: df_pending s'.
Proof.
  intros [Hids Hnd Hkeys Hcount Hok] Hp Hlen.
  destruct (two_bytes payload Hlen) as (a & b & rest & ->).
  assert (rd (df_pending s) (Z.of_nat i) = Ok p) as Hrd.
  { apply rd_lookup. split; [lia|]. by rewrite Nat2Z.id. }
  unfold DnsForwarder_Finish, ebind, eget, elift, emod, eret. rewrite Hrd, SetId_bytes.
  eexists. split; [reflexivity|]. pose proof (delete_Permutation _ _ _ Hp) as Hperm.
  set (l := delete i (df_pending s)) in *. clearbody l.
  rewrite Hperm in Hnd, Hkeys, Hok. simpl in Hnd, Hkeys.
  apply NoDup_cons in Hnd as [Hw Hnd]. apply NoDup_cons in Hkeys as [_ Hkeys].
  apply Forall_cons in Hok as [_ Hok]. split; [|done]. constructor; simpl; try done.
  - intros id. rewrite elem_of_difference, Hids, Hperm, elem_of_singleton. simpl.
    rewrite elem_of_cons. split; [tauto|]. intros Hin. split; [by right|]. by intros ->.
  - apply Permutation_length in Hperm. unfold zlen in *. simpl in Hperm. lia.
Qed.

(** A completion answers the one pending query that it matches, or changes nothing. *)
Lemma finish_found_spec s f payload :
  forwarder_ok s → 2 <= zlen payload →
  (∃ p s', p ∈ df_pending s ∧ f p = true
     ∧ finish_found f payload s = (Ok (Some (reply_for p payload)), s')
     ∧ forwarder_ok s' ∧ df_pending s ≡ₚ p :: df_pending s')
  ∨ (∀ p, p ∈ df_pending s → f p = false) ∧ finish_found f payload s = (Ok None, s).
Proof.
  intros Hs Hlen. unfold finish_found, ebind, eget, eret.
  destruct (find_index f (df_pending s)) as [i|] eqn:Hi.
  - left. apply find_index_Some in Hi as (p & Hp & Hf & _).
    destruct (Finish_spec s i p payload Hs Hp Hlen) as (s' & -> & Hs' & Hperm).
    exists p, s'. split_and!; try done. by eapply list_elem_of_lookup_2.
  - right. split; [|done]. intros p [i' Hp]%list_elem_of_lookup. by eapply find_index_None.
Qed.

(** The one that matches is found, when the match fixes the wire identifier. *)
Lemma finish_found_hit s f payload p :
  forwarder_ok s → 2 <= zlen payload → p ∈ df_pending s → f p = true →
  (∀ q, f q = true → pe_WireId q = pe_WireId p) →
  ∃ s', finish_found f payload s = (Ok (Some (reply_for p payload)), s')
    ∧ forwarder_ok s' ∧ df_pending s ≡ₚ p :: df_pending s'.
Proof.
  intros Hs Hlen Hp Hf Hw.
  destruct (finish_found_spec s f payload Hs Hlen) as [(q & s' & Hq & Hfq & Hr & H)|[Hno _]].
  - assert (q = p) as -> by (eapply wire_id_unique; eauto). eauto.
  - by rewrite (Hno p Hp) in Hf.
Qed.

(** ** Sequences of events *)

Inductive dns_event :=
  | Ev_Begin (client : Endpoint) (payload : bytes) (policy : NetworkPolicy)
      (originalResolvers : list bytes) (now : Z) (randomId : Z * Z)
  | Ev_Packet (packet : bytes)
  | Ev_Datagram (source : Endpoint) (payload : bytes)
  | Ev_Reset
  | Ev_Expire (now : Z).

Definition event_ok (ev : dns_event) : Prop :=
  match ev with
  | Ev_Begin client payload policy _ _ _ => bytes_ok payload ∧ policy_ok policy
  | Ev_Packet packet => bytes_ok packet
  | Ev_Datagram _ payload => bytes_ok payload
  | _ => True
  end.

Lemma new_ok : forwarder_ok DnsForwarder_new.
Proof. constructor; simpl; [set_solver|constructor|constructor|done|constructor]. Qed.

Section events.
  Context (lower : Z → Z).

Definition dns_event_run (ev : dns_event) : eff DnsForwarder (option DnsReply) :=
  match ev with
  | Ev_Begin client payload policy originalResolvers now randomId =>
      DnsForwarder_Begin lower client payload policy originalResolvers now randomId ;;* eret None
  | Ev_Packet packet => DnsForwarder_CompletePacket packet
  | Ev_Datagram source payload => DnsForwarder_CompleteDatagram source payload
  | Ev_Reset => DnsForwarder_Reset ;;* eret None
  | Ev_Expire now => DnsForwarder_Expire now ;;* eret None
  end.

Fixpoint dns_run (evs : list dns_event) : eff DnsForwarder (list DnsReply) :=
  match evs with
  | [] => eret []
  | ev :: rest =>
      let* reply := dns_event_run ev in
      let* replies := dns_run rest in
      eret (match reply with Some r => r :: replies | None => replies end)
  end.

(** ** Every event *)

Lemma DnsQuery_Name_total message :
  bytes_ok message → ∃ name, DnsQuery_Name lower message = Ok name.
Proof.
  intros Hm. unfold DnsQuery_Name, DnsHeaderSize. ifb; [eauto|]. b2p.
  destruct (rd_Ok message 4) as [? ->]; [lia|]. destruct (rd_Ok message 5) as [? ->]; [lia|].
  cbn [obind]. ifb; [eauto|].
  destruct (DnsQuery_Name_loop_reads (S (length message)) message 12 [] Hm) as (o & -> & _);
    [done|unfold zlen; lia|].
  cbn [obind]. destruct o as [[n e]|]; [|eauto]. ifb; eauto.
Qed.

Lemma SelectResolver_total payload primary routes defaults :
  bytes_ok payload → ∃ selected, SelectResolver lower payload primary routes defaults = Ok selected.
Proof.
  intros Hp. unfold SelectResolver. destruct (DnsQuery_Name_total payload Hp) as (name & ->).
  cbn [obind]. destruct (select_route _ _ _ _); simpl; eauto.
Qed.

(** What a [Begin] does to the pending queries. *)
Lemma Begin_spec client payload policy originalResolvers now randomId s :
  forwarder_ok s → bytes_ok payload → policy_ok policy →
  ∃ r s', DnsForwarder_Begin lower client payload policy originalResolvers now randomId s = (Ok r, s')
    ∧ forwarder_ok s'
    ∧ ((fw_Status r = Forward_InvalidQuery ∨ fw_Status r = Forward_UnsupportedResolver) ∧ s' = s
       ∨ ∃ self resolver originalId, 2 <= zlen payload
           ∧ Ipv4Address_TryParse (nm_selfAddress (np_network policy)) = Some self
           ∧ Ipv4Address_ok self ∧ Ipv4Address_ok resolver
           ∧ DnsForwarder_Id payload = Ok originalId
           ∧ (fw_Status r = Forward_Full ∧ MaximumPending <= zlen (df_pending s')
                ∧ df_pending s' = kept now client originalId (df_pending s)
              ∨ ∃ p, df_pending s' = kept now client originalId (df_pending s) ++ [p]
                  ∧ forwarded client payload self resolver now r p)).
Proof.
  intros Hs Hpay Hpol. unfold DnsForwarder_Begin, IdSize.
  destruct (Z.ltb_spec (zlen payload) 2) as [|Hlen].
  { do 2 eexists. split; [reflexivity|]. split; [done|]. by left; split; [left|]. }
  edestruct SelectResolver_total as (selected & Hsel); [exact Hpay|].
  unfold ebind at 1, elift at 1. rewrite Hsel.
  destruct (match selected with Some _ => _ | None => _ end) as [resolver|] eqn:Hres; last first.
  { do 2 eexists. split; [reflexivity|]. split; [done|]. by left; split; [right|]. }
  destruct (Ipv4Address_TryParse (nm_selfAddress _)) as [self|] eqn:Hself; last first.
  { do 2 eexists. split; [reflexivity|]. split; [done|]. by left; split; [right|]. }
  assert (Ipv4Address_ok resolver) as Hrok.
  { destruct selected; [|done]. by eapply TryParse_ok. }
  destruct (begin_forward_spec client payload policy resolver self now randomId s)
    as (r & s' & originalId & Hr & Hs' & Hid & Hcase); [done..|].
  exists r, s'. split_and!; [done|done|]. right. exists self, resolver, originalId.
  split_and!; try done. by eapply TryParse_ok.
Qed.

(** A completion: the answer to the pending query of its identifier, or nothing. *)
Definition completes (s : DnsForwarder) (payload : bytes)
    (m : outcome (option DnsReply) * DnsForwarder) : Prop :=
  (∃ p s', m = (Ok (Some (reply_for p payload)), s') ∧ forwarder_ok s' ∧ p ∈ df_pending s
     ∧ df_pending s ≡ₚ p :: df_pending s' ∧ 2 <= zlen payload
     ∧ DnsForwarder_Id payload = Ok (pe_WireId p))
  ∨ m = (Ok None, s).

Lemma complete_found s f payload id :
  forwarder_ok s → 2 <= zlen payload → DnsForwarder_Id payload = Ok id →
  (∀ p, f p = true → pe_WireId p = id) →
  completes s payload (finish_found f payload s).
Proof.
  intros Hs Hlen Hid Hf.
  destruct (finish_found_spec s f payload Hs Hlen) as [(p & s' & Hp & Hfp & -> & Hs' & Hperm)|[_ ->]];
    [left|by right].
  exists p, s'. rewrite Hid, (Hf p Hfp). by split_and!.
Qed.

Lemma packet_matches_id d id p : packet_matches d id p = true → pe_WireId p = id.
Proof. unfold packet_matches. intros [_ H]%andb_true_iff. by apply Z.eqb_eq. Qed.

Lemma datagram_matches_id source id p : datagram_matches source id p = true → pe_WireId p = id.
Proof. unfold datagram_matches. intros [_ H]%andb_true_iff. by apply Z.eqb_eq. Qed.

Lemma Id_total payload :
  bytes_ok payload → 2 <= zlen payload → ∃ id, DnsForwarder_Id payload = Ok id.
Proof.
  intros Hp Hlen. destruct (two_bytes payload Hlen) as (a & b & rest & ->).
  apply Forall_cons in Hp as [Ha Hp]. apply Forall_cons in Hp as [Hb _].
  rewrite Id_bytes by done. eauto.
Qed.

Lemma CompleteDatagram_spec source payload s :
  bytes_ok payload → forwarder_ok s →
  completes s payload (DnsForwarder_CompleteDatagram source payload s).
Proof.
  intros Hp Hs. unfold DnsForwarder_CompleteDatagram, IdSize. ifb; [by right|]. b2p. destruct_and?.
  destruct (Id_total payload Hp) as (id & Hid); [lia|].
  unfold ebind, elift. rewrite Hid. eapply complete_found; eauto using datagram_matches_id.
Qed.

Lemma CompletePacket_spec packet s :
  bytes_ok packet → forwarder_ok s →
  DnsForwarder_CompletePacket packet s = (Ok None, s)
  ∨ ∃ d, Ipv4UdpDatagram_Parse packet = Ok (Some d)
      ∧ completes s (udp_payload d) (DnsForwarder_CompletePacket packet s).
Proof.
  intros Hp Hs. destruct (Ipv4UdpDatagram_Parse_total packet) as (o & Ho).
  unfold DnsForwarder_CompletePacket, ebind, elift, IdSize. rewrite Ho.
  destruct o as [d|]; [|by left]. right. exists d. split; [done|].
  pose proof (Ipv4UdpDatagram_Parse_payload _ _ Hp Ho) as Hd. ifb; [by right|]. b2p. destruct_and?.
  destruct (Id_total (udp_payload d) Hd) as (id & Hid); [lia|].
  rewrite Hid. eapply complete_found; eauto using packet_matches_id.
Qed.

Lemma dns_event_ok ev s :
  event_ok ev → forwarder_ok s →
  ∃ reply s', dns_event_run ev s = (Ok reply, s') ∧ forwarder_ok s'.
Proof.
  intros Hev Hs. destruct ev as [client payload policy resolvers now rid|packet|source payload| |now];
    simpl in *.
  - destruct Hev as [Hp Hpol]. destruct (Begin_spec client payload policy resolvers now rid s)
      as (r & s' & Hr & Hs' & _); [done..|]. unfold ebind. rewrite Hr. by do 2 eexists.
  - destruct (CompletePacket_spec packet s) as [->|(d & _ & [(p & s' & -> & H & _)| ->])]; eauto.
  - destruct (CompleteDatagram_spec source payload s) as [(p & s' & -> & H & _)| ->]; eauto.
  - do 2 eexists. split; [reflexivity|apply new_ok].
  - do 2 eexists. split; [reflexivity|by apply erase_if_ok].
Qed.

(** Whatever sequence of queries, answers, resets and expiries reaches the
    forwarder, every call returns (the search for a free wire identifier ends within
    4097 steps), at most 4096 queries are pending, their wire identifiers are
    distinct and are exactly the bits that are set, and no client has two pending
    queries under one identifier. *)
Theorem DnsForwarder_reachable_ok evs :
  Forall event_ok evs →
  ∃ replies s, dns_run evs DnsForwarder_new = (Ok replies, s) ∧ forwarder_ok s.
Proof.
  intros Hevs. generalize DnsForwarder_new new_ok.
  induction Hevs as [|ev evs Hev _ IH]; intros s Hs; simpl; [by do 2 eexists|].
  destruct (dns_event_ok ev s Hev Hs) as (reply & s' & Hr & Hs').
  unfold ebind. rewrite Hr. destruct (IH s' Hs') as (replies & s'' & -> & Hs'').
  by do 2 eexists.
Qed.

(** ** Answers *)

(** The events that leave the pending query [p] alone: no reset, no expiry, no
    query of its client under its identifier, no answer under its wire identifier. *)
Definition harmless (p : Pending) (ev : dns_event) : Prop :=
  match ev with
  | Ev_Begin client payload _ _ now _ =>
      now - pe_Started p < PendingTimeout
      ∧ (client ≠ pe_Client p ∨ DnsForwarder_Id payload ≠ Ok (pe_OriginalId p))
  | Ev_Packet packet =>
      ∀ d, Ipv4UdpDatagram_Parse packet = Ok (Some d) →
        DnsForwarder_Id (udp_payload d) ≠ Ok (pe_WireId p)
  | Ev_Datagram _ payload => DnsForwarder_Id payload ≠ Ok (pe_WireId p)
  | Ev_Reset => False
  | Ev_Expire now => now - pe_Started p < PendingTimeout
  end.

Lemma kept_harmless p now client originalId l :
  p ∈ l → now - pe_Started p < PendingTimeout → (client, originalId) ≠ pe_key p →
  p ∈ kept now client originalId l.
Proof.
  intros Hp Hnow Hkey. unfold kept. apply elem_of_filter_bool. split.
  - apply elem_of_filter_bool. split; [done|]. apply negb_true_iff, Z.leb_gt. lia.
  - rewrite is_replaced_key, bool_decide_false; [done|]. congruence.
Qed.

Lemma completes_keeps s payload m p :
  completes s payload m → forwarder_ok s → p ∈ df_pending s →
  DnsForwarder_Id payload ≠ Ok (pe_WireId p) → p ∈ df_pending m.2.
Proof.
  intros [(q & s' & -> & _ & Hq & Hperm & _ & Hid)| ->] Hs Hp Hne; [|done]. simpl.
  rewrite Hperm in Hp. apply elem_of_cons in Hp as [->|Hp]; [|done]. by rewrite Hid in Hne.
Qed.

Lemma harmless_keeps ev s p :
  event_ok ev → forwarder_ok s → harmless p ev → p ∈ df_pending s →
  p ∈ df_pending (dns_event_run ev s).2.
Proof.
  intros Hev Hs Hh Hp. destruct ev as [client payload policy resolvers now rid|packet|source payload| |now];
    simpl in *.
  - destruct Hev as [Hpay Hpol], Hh as [Hnow Hkey].
    destruct (Begin_spec client payload policy resolvers now rid s)
      as (r & s' & Hr & _ & Hcase); [done..|]. unfold ebind. rewrite Hr. simpl.
    destruct Hcase as [[_ ->]|(self & resolver & id & _ & _ & _ & _ & Hid & Hcase)]; [done|].
    assert (p ∈ kept now client id (df_pending s)) as Hk.
    { apply kept_harmless; [done|done|]. unfold pe_key. intros [= -> ->]. naive_solver. }
    destruct Hcase as [(_ & _ & ->)|(q & -> & _)]; set_solver.
  - destruct (CompletePacket_spec packet s Hev Hs) as [->|(d & Hd & Hc)]; [done|].
    eapply completes_keeps; eauto.
  - eapply completes_keeps; eauto using CompleteDatagram_spec.
  - done.
  - rewrite erase_if_pending. apply elem_of_filter_bool. split; [done|].
    apply negb_true_iff, Z.leb_gt. lia.
Qed.

Lemma dns_run_keeps evs s p :
  Forall event_ok evs → Forall (harmless p) evs → forwarder_ok s → p ∈ df_pending s →
  ∃ replies s', dns_run evs s = (Ok replies, s') ∧ forwarder_ok s' ∧ p ∈ df_pending s'.
Proof.
  intros Hevs. revert s. induction Hevs as [|ev evs Hev _ IH]; intros s Hh Hs Hp; simpl.
  { by do 2 eexists. }
  apply Forall_cons in Hh as [Hh Hhs]. pose proof (harmless_keeps ev s p Hev Hs Hh Hp) as Hp'.
  destruct (dns_event_ok ev s Hev Hs) as (reply & s' & Hr & Hs').
  unfold ebind. rewrite Hr in *. simpl in Hp'.
  destruct (IH s' Hhs Hs' Hp') as (replies & s'' & -> & H). by do 2 eexists.
Qed.

(** The answer of the resolver to what [Begin] returned: a datagram from the
    resolver, or through the tunnel a packet from it to the query's source. *)
Definition deliver (r : DnsForward) (self : Ipv4Address) (client : Endpoint) (answer : bytes)
    : eff DnsForwarder (option DnsReply) :=
  match fw_TunnelPacket r with
  | None => DnsForwarder_CompleteDatagram (fw_Resolver r) answer
  | Some _ =>
      let* packet := elift (Ipv4UdpDatagram_Build
                              (Ipv4Address_HostOrder (ep_address (fw_Resolver r)))
                              (Ipv4Address_HostOrder self) DnsPort (ep_port client) answer) in
      DnsForwarder_CompletePacket packet
  end.

(** A delivery is a search for the pending query with the answer's identifier. *)
Lemma deliver_search client payload self resolver now r p answer :
  forwarded client payload self resolver now r p →
  in_width 16 (ep_port client) → Ipv4Address_ok self → Ipv4Address_ok resolver →
  2 <= zlen answer → 8 + zlen answer < 65536 → DnsForwarder_Id answer = Ok (pe_WireId p) →
  ∃ f, (∀ s, deliver r self client answer s = finish_found f answer s)
    ∧ f p = true ∧ ∀ q, f q = true → pe_WireId q = pe_WireId p.
Proof.
  intros (_ & Hc & Hself & Hres & _ & _ & _ & Hep & _ & Ht) Hport Hs Hr Hlen Hmax Hid.
  unfold deliver. rewrite Hep. destruct Ht as [[-> Htun]|(packet & -> & Htun & _)].
  - eexists (datagram_matches {| ep_address := resolver; ep_port := DnsPort |} (pe_WireId p)).
    split_and!; [|unfold datagram_matches; by rewrite Htun, Hres, bool_decide_true, Z.eqb_refl
                |apply datagram_matches_id].
    intros s. unfold DnsForwarder_CompleteDatagram, IdSize. simpl.
    rewrite (proj2 (Z.ltb_ge _ _)) by lia. unfold ebind, elift. by rewrite Hid.
  - destruct (Ipv4UdpDatagram_roundtrip (Ipv4Address_HostOrder resolver) (Ipv4Address_HostOrder self)
                DnsPort (ep_port client) answer) as (reply & Hb & Hparse & _); [done..|].
    eexists (packet_matches _ (pe_WireId p)).
    split_and!; [| |apply packet_matches_id].
    + intros s. unfold ebind at 1, elift. simpl. rewrite Hb.
      unfold DnsForwarder_CompletePacket, IdSize, ebind, elift. rewrite Hparse. simpl.
      rewrite (proj2 (Z.ltb_ge _ _)) by lia. by rewrite Hid.
    + unfold packet_matches. simpl. by rewrite Htun, Hres, Hself, Hc, !Z.eqb_refl.
Qed.

(** C21: an answer reaches its client.  When [Begin] accepts a query, then after any
    sequence of events among which there is no reset, no expiry of the query, no
    repetition of it by its client and no other answer under its wire identifier,
    the answer of the resolver under that identifier, by datagram or through the
    tunnel as [Begin] chose, is delivered to the client that asked, with the two
    bytes of the client's own identifier in front; the same answer a second time
    is delivered to nobody. *)
Theorem DnsForwarder_answers s client payload policy originalResolvers now randomId r s1 :
  forwarder_ok s → bytes_ok payload → policy_ok policy → in_width 16 (ep_port client) →
  DnsForwarder_Begin lower client payload policy originalResolvers now randomId s = (Ok r, s1) →
  fw_Status r = Forward_Ready →
  ∃ p self, p ∈ df_pending s1 ∧ pe_Client p = client ∧ pe_Started p = now
    ∧ Ipv4Address_TryParse (nm_selfAddress (np_network policy)) = Some self
    ∧ DnsForwarder_Id payload = Ok (pe_OriginalId p)
    ∧ DnsForwarder_Id (fw_Payload r) = Ok (pe_WireId p) ∧ drop 2 (fw_Payload r) = drop 2 payload
    ∧ ∀ evs answer, Forall event_ok evs → Forall (harmless p) evs →
        2 <= zlen answer → 8 + zlen answer < 65536 → DnsForwarder_Id answer = Ok (pe_WireId p) →
        ∃ replies s2 s3, dns_run evs s1 = (Ok replies, s2)
          ∧ deliver r self client answer s2
            = (Ok (Some {| re_Client := client; re_Payload := take 2 payload ++ drop 2 answer |}), s3)
          ∧ deliver r self client answer s3 = (Ok None, s3).
Proof.
  intros Hs Hpay Hpol Hport Hbegin Hready.
  destruct (Begin_spec client payload policy originalResolvers now randomId s)
    as (r' & s1' & Hr & Hs1 & Hcase); [done..|]. rewrite Hbegin in Hr. simplify_eq.
  destruct Hcase as [[[?|?] _]|(self & resolver & originalId & Hlen & Hself & Hsok & Hrok & _ & Hcase)];
    [congruence..|]. destruct Hcase as [(? & _)|(p & Hpend & Hfw)]; [congruence|].
  pose proof Hfw as (_ & Hc & _ & _ & Hst & [Ho Hw] & Hid & _ & Hpayload & _).
  exists p, self. split_and!; try done.
  - rewrite Hpend. set_solver.
  - rewrite Hpayload. unfold id_bytes. simpl. rewrite Id_bytes by by apply wrap_range.
    f_equal. by apply id_value.
  - by rewrite Hpayload.
  - intros evs answer Hevs Hh Hlen' Hmax Hans.
    destruct (dns_run_keeps evs s1' p) as (replies & s2 & Hrun & Hs2 & Hp2);
      [done..|rewrite Hpend; set_solver|].
    destruct (deliver_search client payload self resolver now r' p answer)
      as (f & Hdel & Hfp & Hfq); [done..|].
    destruct (finish_found_hit s2 f answer p) as (s3 & Hfin & Hs3 & Hperm); [done..|].
    exists replies, s2, s3. rewrite !Hdel, Hfin. split_and!; [done| |].
    + unfold reply_for. by rewrite Hc, (id_prefix payload).
    + destruct (finish_found_spec s3 f answer Hs3 Hlen') as [(q & s' & Hq & Hf & _)|[_ ->]]; [|done].
      exfalso. pose proof (fo_distinct _ Hs2) as Hnd. rewrite Hperm in Hnd.
      apply NoDup_cons in Hnd as [Hnin _]. apply Hnin. rewrite <- (Hfq q Hf).
      apply list_elem_of_fmap. eauto.
Qed.

End events.

(** ** Tailnet queries through a hosted server *)

Lemma Parse_widths packet d :
  bytes_ok packet → Ipv4UdpDatagram_Parse packet = Ok (Some d) → in_width 16 (udp_sourcePort d).
Proof.
  intros Hp H. unfold Ipv4UdpDatagram_Parse in H. ok_inv H. injection H as <-. simpl.
  lazymatch goal with H : Ipv4_read16 packet (_ * 4) = Ok ?v |- in_width 16 ?v =>
    unfold Ipv4_read16 in H; ok_inv H; injection H as <-; by apply wrap_range end.
Qed.

(** A reply of the resolver is a datagram from the MagicDNS address to the port
    and the source of the query. *)
Lemma TailnetDnsResponse_addresses lower unhex config packet d reply :
  bytes_ok packet → Ipv4UdpDatagram_Parse packet = Ok (Some d) → in_width 32 (udp_source d) →
  TailnetDnsResponse_Build lower unhex config packet = Ok (Some reply) → zlen reply < 65536 →
  ∃ dns, Ipv4UdpDatagram_Parse reply = Ok (Some {| udp_source := MagicDnsIpv4Address;
      udp_destination := udp_source d; udp_sourcePort := DnsPort;
      udp_destinationPort := udp_sourcePort d; udp_payload := dns |}).
Proof.
  intros Hp Hd Hsrc H Hsize. unfold TailnetDnsResponse_Build in H. rewrite Hd in H. cbn [obind] in H.
  ok_inv H. destruct a0 as [question|]; [|done]. ok_inv H. destruct a0 as [[ipv4 ipv6] code].
  ok_inv H. injection H as <-. rename a0 into dns.
  match goal with H : Ipv4UdpDatagram_Build _ _ _ _ ?x = Ok _ |- _ =>
    rename x into dns'; rename H into Hb end.
  destruct (Ipv4UdpDatagram_roundtrip MagicDnsIpv4Address (udp_source d) DnsPort
              (udp_sourcePort d) dns') as (reply' & Hb' & Hparse & _); try done.
  { by eapply Parse_widths. }
  { rewrite Ipv4UdpDatagram_Build_eq in Hb.
    apply (f_equal (fun o => match o with Ok l => zlen l | _ => 0 end)) in Hb.
    cbv beta iota in Hb. rewrite !zlen_app in Hb.
    change (zlen (ipv4_header _ _ _ _ _)) with 20 in Hb.
    change (zlen (udp_header _ _ _)) with 8 in Hb. lia. }
  rewrite Hb in Hb'. injection Hb' as <-. by exists dns'.
Qed.

(** A tailnet query of a hosted node survives the way to the server and back:
    for every query datagram that the node accepts and every reply of the server's
    resolver to it of fewer than 65536 bytes, the frame the node sends carries the
    datagram unchanged, and the response frame with that reply is accepted, the reply
    being handed to the host as it is.  A datagram from another source, or one that
    answers another host, is refused. *)
Theorem HostedDns_exchange lower unhex packet network config d self :
  bytes_ok packet → Ipv4UdpDatagram_Parse packet = Ok (Some d) →
  udp_destination d = MagicDnsIpv4Address → udp_destinationPort d = DnsPort →
  Ipv4Address_TryParse (nm_selfAddress network) = Some self →
  (udp_source d = Ipv4Address_HostOrder self →
   ∃ query, HostedDns_ProcessQuery lower packet network = Ok query
     ∧ dr_Status query = DnsStatus_Complete
     ∧ dr_RemoteFrame query = Some {| fr_type := MessageType_TailnetDnsQuery; fr_payload := packet |}
     ∧ ∀ reply, TailnetDnsResponse_Build lower unhex config packet = Ok (Some reply) →
         zlen reply < 65536 → bytes_ok reply →
         ∃ response,
           HostedDns_ProcessResponse lower
             {| fr_type := MessageType_TailnetDnsResponse; fr_payload := reply |} network = Ok response
           ∧ dr_Status response = DnsStatus_Complete ∧ dr_LocalPacket response = Some reply)
  ∧ (udp_source d ≠ Ipv4Address_HostOrder self →
     HostedDns_ProcessQuery lower packet network = Ok (DnsResult_empty DnsStatus_Invalid)).
Proof.
  intros Hp Hd Hdst Hport Hself. pose proof (Ipv4UdpDatagram_Parse_payload _ _ Hp Hd) as Hpay.
  unfold HostedDns_ProcessQuery. rewrite Hd. cbn [obind]. rewrite Hdst, Hport, !Z.eqb_refl.
  cbn [negb orb]. rewrite Hself. split; last first.
  { intros Hne. apply Z.eqb_neq in Hne. by rewrite Hne. }
  intros Hsrc. rewrite Hsrc, Z.eqb_refl. cbn [negb].
  destruct (DnsQuery_Name_total lower _ Hpay) as (name & ->). cbn [obind].
  eexists. split_and!; [reflexivity|done|done|]. intros reply Hreply Hsize Hrok.
  destruct (TailnetDnsResponse_addresses lower unhex config packet d reply) as (dns & Hparse);
    [done|done|rewrite Hsrc; by eapply TryParse_ok|done|done|].
  pose proof (Ipv4UdpDatagram_Parse_payload _ _ Hrok Hparse) as Hdns.
  unfold HostedDns_ProcessResponse. cbn [fr_type fr_payload]. rewrite Z.eqb_refl. cbn [negb].
  rewrite Hparse, Hself. cbn [obind udp_source udp_destination udp_sourcePort udp_payload] in *.
  rewrite Hsrc, !Z.eqb_refl. cbn [negb orb].
  destruct (DnsQuery_Name_total lower dns Hdns) as (name' & ->). by eexists.
Qed.

(** ** Deadlines *)

Lemma foldl_min_spec (l : list Pending) t :
  let m := foldl (fun t q => Z.min t (pe_Started q)) t l in
  m <= t ∧ (∀ q, q ∈ l → m <= pe_Started q) ∧ (m = t ∨ ∃ q, q ∈ l ∧ m = pe_Started q).
Proof.
  revert t. induction l as [|p l IH]; intros t; simpl; [split_and!; [done|set_solver|by left]|].
  destruct (IH (Z.min t (pe_Started p))) as (Hle & Hall & Hex). split_and!; [lia| |].
  - intros q [->|Hq]%elem_of_cons; [lia|auto].
  - destruct Hex as [->|(q & Hq & ->)]; [|right; exists q; set_solver].
    destruct (Z.min_spec t (pe_Started p)) as [[_ ->]|[_ ->]]; [by left|right].
    exists p. set_solver.
Qed.

(** [NextDeadline] is when the next query expires: before it, [Expire] leaves every
    query pending, and at it a query goes; there is none when nothing is pending. *)
Theorem DnsForwarder_NextDeadline_exact s :
  match DnsForwarder_NextDeadline s with
  | None => df_pending s = []
  | Some t =>
      (∀ now, now < t → df_pending (DnsForwarder_Expire now s).2 = df_pending s)
      ∧ ∀ now, t <= now →
          (length (df_pending (DnsForwarder_Expire now s).2) < length (df_pending s))%nat
  end.
Proof.
  unfold DnsForwarder_NextDeadline, DnsForwarder_Expire, emod. simpl.
  destruct (df_pending s) as [|p l] eqn:Hp; [done|].
  destruct (foldl_min_spec l (pe_Started p)) as (Hle & Hall & Hex). set (m := foldl _ _ _) in *.
  assert (∀ q, q ∈ p :: l → m <= pe_Started q) as Hmin.
  { intros q [->|Hq]%elem_of_cons; [lia|auto]. }
  split; intros now Hnow; rewrite erase_if_pending, Hp.
  - assert (∀ q, q ∈ p :: l → negb (is_expired now q) = true) as Hno.
    { intros q Hq%Hmin. apply negb_true_iff, Z.leb_gt. lia. }
    revert Hno. generalize (p :: l). clear. intros l. induction l as [|q l IH]; [done|].
    intros Hno. simpl. rewrite Hno by set_solver. f_equal. apply IH. set_solver.
  - assert (∃ q, q ∈ p :: l ∧ m = pe_Started q) as (q & Hq & Hm).
    { destruct Hex as [?|(q & ? & ?)]; [exists p|exists q]; set_solver. }
    assert (negb (is_expired now q) = false) as Hexp.
    { apply negb_false_iff, Z.leb_le. lia. }
    revert Hq Hexp. generalize (p :: l). clear. intros l Hq Hexp.
    induction l as [|x l IH]; [set_solver|]. simpl. apply elem_of_cons in Hq as [<-|Hq].
    + rewrite Hexp. pose proof (length_filter_le (fun p => negb (is_expired now p)) l). lia.
    + specialize (IH Hq). destruct (negb (is_expired now x)); simpl; lia.
Qed.

(** ** A concrete forwarder *)

Definition demo_policy : NetworkPolicy := {|
  np_exitNode := []; np_network := demo_map; np_routes := Config_default; np_exitPeer := None |}.

Definition demo_client : Endpoint :=
  {| ep_address := Ipv4Address_FromOctets 127 0 0 1; ep_port := 40000 |}.

(** A query under the identifier 7, and the same one of another client. *)
Definition demo_dns : bytes := [0; 7; 1; 0; 0; 1; 0; 0; 0; 0; 0; 0; 1; 97; 0; 0; 1; 0; 1].
Definition demo_client' : Endpoint :=
  {| ep_address := Ipv4Address_FromOctets 127 0 0 1; ep_port := 40001 |}.

Definition demo_begin : outcome DnsForward * DnsForwarder :=
  DnsForwarder_Begin to_lower_char demo_client demo_dns demo_policy [lit "8.8.8.8"] 0 (1, 2)
    DnsForwarder_new.

Definition demo_events : list dns_event :=
  [Ev_Begin demo_client' demo_dns demo_policy [lit "8.8.8.8"] 5 (1, 2);
   Ev_Datagram {| ep_address := Ipv4Address_FromOctets 8 8 8 8; ep_port := 53 |} [1; 3; 0; 0];
   Ev_Expire 100].

Lemma demo_policy_ok : policy_ok demo_policy.
Proof. apply demo_map_ok. Qed.

Lemma demo_events_ok : Forall event_ok demo_events.
Proof.
  repeat constructor; try apply demo_policy_ok; vm_compute; try done; by intros [=].
Qed.

Lemma DnsForwarder_reachable_ok_witness :
  ∃ replies s, dns_run to_lower_char demo_events DnsForwarder_new = (Ok replies, s)
    ∧ forwarder_ok s.
Proof. exact (DnsForwarder_reachable_ok to_lower_char demo_events demo_events_ok). Defined.

Definition demo_forward : DnsForward :=
  match demo_begin.1 with Ok r => r | _ => DnsForward_empty Forward_Full end.
Definition demo_state : DnsForwarder := demo_begin.2.

Definition demo_answer : bytes := [1; 2; 0x81; 0x80; 0; 0].

Lemma DnsForwarder_answers_witness :
  DnsForwarder_Begin to_lower_char demo_client demo_dns demo_policy [lit "8.8.8.8"] 0 (1, 2)
    DnsForwarder_new = (Ok demo_forward, demo_state)
  ∧ ∃ self replies s2 s3, dns_run to_lower_char demo_events demo_state = (Ok replies, s2)
      ∧ deliver demo_forward self demo_client demo_answer s2
        = (Ok (Some {| re_Client := demo_client; re_Payload := [0; 7; 0x81; 0x80; 0; 0] |}), s3)
      ∧ deliver demo_forward self demo_client demo_answer s3 = (Ok None, s3).
Proof.
  assert (DnsForwarder_Begin to_lower_char demo_client demo_dns demo_policy [lit "8.8.8.8"] 0 (1, 2)
    DnsForwarder_new = (Ok demo_forward, demo_state)) as Hb by (vm_compute; reflexivity).
  split; [exact Hb|].
  destruct (DnsForwarder_answers to_lower_char DnsForwarder_new demo_client demo_dns demo_policy
              [lit "8.8.8.8"] 0 (1, 2) demo_forward demo_state)
    as (p & self & _ & Hc & Hst & _ & _ & Hid & _ & Hall).
  { exact new_ok. }
  { repeat constructor; vm_compute; discriminate. }
  { exact demo_policy_ok. }
  { by split. }
  { exact Hb. }
  { vm_compute. reflexivity. }
  assert (pe_WireId p = 258) as Hw.
  { assert (DnsForwarder_Id (fw_Payload demo_forward) = Ok 258) as H by (vm_compute; reflexivity).
    rewrite Hid in H. by injection H. }
  exists self. apply (Hall demo_events demo_answer); [exact demo_events_ok| |done|done|].
  - unfold demo_events. repeat constructor; simpl; rewrite ?Hst, ?Hc, ?Hw;
      first [done | left; discriminate | vm_compute; discriminate].
  - rewrite Hw. vm_compute. reflexivity.
Defined.

Definition demo_hosted_packet : bytes :=
  match Ipv4UdpDatagram_Build 0x64400001 MagicDnsIpv4Address 5353 DnsPort demo_tailnet_query with
  | Ok packet => packet
  | _ => []
  end.

Definition demo_hosted_reply : bytes :=
  match TailnetDnsResponse_Build to_lower_char demo_unhex demo_tailnet demo_hosted_packet with
  | Ok (Some reply) => reply
  | _ => []
  end.

Lemma HostedDns_exchange_witness :
  ∃ query response,
    HostedDns_ProcessQuery to_lower_char demo_hosted_packet demo_map = Ok query
    ∧ dr_Status query = DnsStatus_Complete
    ∧ TailnetDnsResponse_Build to_lower_char demo_unhex demo_tailnet demo_hosted_packet
      = Ok (Some demo_hosted_reply)
    ∧ HostedDns_ProcessResponse to_lower_char
        {| fr_type := MessageType_TailnetDnsResponse; fr_payload := demo_hosted_reply |} demo_map
      = Ok response
    ∧ dr_LocalPacket response = Some demo_hosted_reply.
Proof.
  assert (TailnetDnsResponse_Build to_lower_char demo_unhex demo_tailnet demo_hosted_packet
          = Ok (Some demo_hosted_reply)) as Hr by (vm_compute; reflexivity).
  destruct (HostedDns_exchange to_lower_char demo_unhex demo_hosted_packet demo_map demo_tailnet
              {| udp_source := 0x64400001; udp_destination := MagicDnsIpv4Address;
                 udp_sourcePort := 5353; udp_destinationPort := DnsPort;
                 udp_payload := demo_tailnet_query |} {| ip4_value := 0x64400001 |}) as [Hok _];
    [|vm_compute; reflexivity|reflexivity|reflexivity|vm_compute; reflexivity|].
  { vm_compute. repeat constructor; vm_compute; discriminate. }
  destruct (Hok eq_refl) as (query & Hq & Hst & _ & Hall).
  destruct (Hall demo_hosted_reply Hr) as (response & Hresp & _ & Hlocal).
  { vm_compute. reflexivity. }
  { vm_compute. repeat constructor; vm_compute; discriminate. }
  exists query, response. split; [exact Hq|]. split; [exact Hst|]. split; [exact Hr|].
  split; [exact Hresp|exact Hlocal].
Defined.
