(* ===== verification/Tunnel.v ===== *)
(** * The WireGuard tunnel

    src/core/wgengine/wireguard/Tunnel.cpp: sessions, transport packets, replay
    protection and timers over the wireguard-lwip library, a submodule whose code is
    not part of the sources.  The library, and the ChaCha20-Poly1305 functions of
    libsodium, are the class [Wireguard]; what the tunnel relies on of them is the
    class [WireguardLaws].  Every operation takes the reading of
    [wireguard_sys_now] during the call as the argument [now].  Logging, and the check
    that libsodium could be started ([EnsureSodium]), are left out. *)

From S2P Require Import Prelude Replay.

(** ** Data of the library that the tunnel reads and writes *)

Record wireguard_keypair := {
  kp_valid : bool;
  kp_initiator : bool;
  kp_keypair_millis : Z;
  kp_sending_key : bytes;
  kp_sending_counter : Z;
  kp_receiving_valid : bool;
  kp_receiving_key : bytes;
  kp_last_tx : Z;
  kp_last_rx : Z;
  kp_local_index : Z;
  kp_remote_index : Z
}.

Record wireguard_peer := {
  wp_curr : wireguard_keypair;
  wp_prev : wireguard_keypair;
  wp_next : wireguard_keypair;
  wp_active : bool;
  wp_keepalive_interval : Z;
  wp_send_handshake : bool;
  wp_last_initiation_tx : Z;
  wp_last_tx : Z;
  wp_last_rx : Z
}.

(** A [wireguard_keypair*] into a peer. *)
Inductive keypair_slot := Slot_Curr | Slot_Prev | Slot_Next.

#[export] Instance keypair_slot_eq_dec : EqDecision keypair_slot.
Proof. solve_decision. Defined.

Definition keypair_of (peer : wireguard_peer) (slot : keypair_slot) : wireguard_keypair :=
  match slot with
  | Slot_Curr => wp_curr peer
  | Slot_Prev => wp_prev peer
  | Slot_Next => wp_next peer
  end.

Definition set_keypair (peer : wireguard_peer) (slot : keypair_slot) (k : wireguard_keypair)
    : wireguard_peer := {|
  wp_curr := match slot with Slot_Curr => k | _ => wp_curr peer end;
  wp_prev := match slot with Slot_Prev => k | _ => wp_prev peer end;
  wp_next := match slot with Slot_Next => k | _ => wp_next peer end;
  wp_active := wp_active peer; wp_keepalive_interval := wp_keepalive_interval peer;
  wp_send_handshake := wp_send_handshake peer;
  wp_last_initiation_tx := wp_last_initiation_tx peer;
  wp_last_tx := wp_last_tx peer; wp_last_rx := wp_last_rx peer
|}.

Definition wp_set_active b p := {|
  wp_curr := wp_curr p; wp_prev := wp_prev p; wp_next := wp_next p; wp_active := b;
  wp_keepalive_interval := wp_keepalive_interval p; wp_send_handshake := wp_send_handshake p;
  wp_last_initiation_tx := wp_last_initiation_tx p; wp_last_tx := wp_last_tx p;
  wp_last_rx := wp_last_rx p |}.
Definition wp_set_keepalive i p := {|
  wp_curr := wp_curr p; wp_prev := wp_prev p; wp_next := wp_next p; wp_active := wp_active p;
  wp_keepalive_interval := i; wp_send_handshake := wp_send_handshake p;
  wp_last_initiation_tx := wp_last_initiation_tx p; wp_last_tx := wp_last_tx p;
  wp_last_rx := wp_last_rx p |}.
Definition wp_set_send_handshake b p := {|
  wp_curr := wp_curr p; wp_prev := wp_prev p; wp_next := wp_next p; wp_active := wp_active p;
  wp_keepalive_interval := wp_keepalive_interval p; wp_send_handshake := b;
  wp_last_initiation_tx := wp_last_initiation_tx p; wp_last_tx := wp_last_tx p;
  wp_last_rx := wp_last_rx p |}.
Definition wp_set_last_initiation_tx t p := {|
  wp_curr := wp_curr p; wp_prev := wp_prev p; wp_next := wp_next p; wp_active := wp_active p;
  wp_keepalive_interval := wp_keepalive_interval p; wp_send_handshake := wp_send_handshake p;
  wp_last_initiation_tx := t; wp_last_tx := wp_last_tx p; wp_last_rx := wp_last_rx p |}.
Definition wp_set_last_tx t p := {|
  wp_curr := wp_curr p; wp_prev := wp_prev p; wp_next := wp_next p; wp_active := wp_active p;
  wp_keepalive_interval := wp_keepalive_interval p; wp_send_handshake := wp_send_handshake p;
  wp_last_initiation_tx := wp_last_initiation_tx p; wp_last_tx := t; wp_last_rx := wp_last_rx p |}.
Definition wp_set_last_rx t p := {|
  wp_curr := wp_curr p; wp_prev := wp_prev p; wp_next := wp_next p; wp_active := wp_active p;
  wp_keepalive_interval := wp_keepalive_interval p; wp_send_handshake := wp_send_handshake p;
  wp_last_initiation_tx := wp_last_initiation_tx p; wp_last_tx := wp_last_tx p; wp_last_rx := t |}.

Definition kp_set_last_rx t k := {|
  kp_valid := kp_valid k; kp_initiator := kp_initiator k; kp_keypair_millis := kp_keypair_millis k;
  kp_sending_key := kp_sending_key k; kp_sending_counter := kp_sending_counter k;
  kp_receiving_valid := kp_receiving_valid k; kp_receiving_key := kp_receiving_key k;
  kp_last_tx := kp_last_tx k; kp_last_rx := t; kp_local_index := kp_local_index k;
  kp_remote_index := kp_remote_index k |}.
Definition kp_set_last_tx t k := {|
  kp_valid := kp_valid k; kp_initiator := kp_initiator k; kp_keypair_millis := kp_keypair_millis k;
  kp_sending_key := kp_sending_key k; kp_sending_counter := kp_sending_counter k;
  kp_receiving_valid := kp_receiving_valid k; kp_receiving_key := kp_receiving_key k;
  kp_last_tx := t; kp_last_rx := kp_last_rx k; kp_local_index := kp_local_index k;
  kp_remote_index := kp_remote_index k |}.
Definition kp_set_sending_counter c k := {|
  kp_valid := kp_valid k; kp_initiator := kp_initiator k; kp_keypair_millis := kp_keypair_millis k;
  kp_sending_key := kp_sending_key k; kp_sending_counter := c;
  kp_receiving_valid := kp_receiving_valid k; kp_receiving_key := kp_receiving_key k;
  kp_last_tx := kp_last_tx k; kp_last_rx := kp_last_rx k; kp_local_index := kp_local_index k;
  kp_remote_index := kp_remote_index k |}.

(** [wireguard_get_message_type] *)
Inductive wireguard_message :=
  | MESSAGE_INVALID | MESSAGE_HANDSHAKE_INITIATION | MESSAGE_HANDSHAKE_RESPONSE
  | MESSAGE_COOKIE_REPLY | MESSAGE_TRANSPORT_DATA.

#[export] Instance wireguard_message_eq_dec : EqDecision wireguard_message.
Proof. solve_decision. Defined.

(** ** The library *)

(** [D] is [wireguard_device] with its peers; [peer_at] and [set_peer] read and
    write the members of a peer that the tunnel uses.  A message is its bytes. *)
Class Wireguard (D : Type) := {
  wireguard_device_init : bytes → option D;
  peer_alloc : D → option nat;
  wireguard_peer_init : D → nat → bytes → bytes → bool * D;
  peer_at : D → nat → wireguard_peer;
  set_peer : D → nat → wireguard_peer → D;
  wireguard_create_handshake_initiation : D → nat → option bytes * D;
  wireguard_process_initiation_message : D → bytes → option nat * D;
  wireguard_create_handshake_response : D → nat → option bytes * D;
  wireguard_process_handshake_response : D → nat → bytes → bool * D;
  wireguard_process_cookie_message : D → nat → bytes → bool * D;
  wireguard_start_session : D → nat → bool → D;
  get_peer_keypair_for_idx : wireguard_peer → Z → option keypair_slot;
  keypair_update : wireguard_peer → keypair_slot → wireguard_peer;
  keypair_destroy : wireguard_keypair → wireguard_keypair;
  (** [wireguard_expired(created, seconds)] when the clock reads the first argument *)
  wireguard_expired : Z → Z → Z → bool;
  wireguard_get_message_type : bytes → wireguard_message;
  (** the bytes of a [message_transport_data] before [enc_packet], from its
      [receiver] and [counter], and the two members of one that was received *)
  transport_header : Z → bytes → bytes;
  header_receiver : bytes → Z;
  header_counter : bytes → bytes;
  sizeof_message_handshake_initiation : Z;
  sizeof_message_handshake_response : Z;
  sizeof_message_cookie_reply : Z;
  sizeof_message_transport_data : Z;
  WIREGUARD_AUTHTAG_LEN : Z;
  REJECT_AFTER_TIME : Z;
  REKEY_AFTER_TIME : Z;
  REKEY_TIMEOUT : Z;
  REJECT_AFTER_MESSAGES : Z;
  REKEY_AFTER_MESSAGES : Z;
  (** [crypto_aead_chacha20poly1305_ietf_encrypt] and [..._decrypt] with a key, a
      nonce and no additional data; [None] when they return an error *)
  aead_encrypt : bytes → bytes → bytes → option bytes;
  aead_decrypt : bytes → bytes → bytes → option bytes
}.

(** ** State *)

Record SessionReplay := { sr_LocalIndex : Z; sr_StartedAt : Z; sr_Window : ReplayWindow }.

Record PeerReference := {
  pr_device : nat;
  pr_peer : nat;
  pr_replaySessions : list SessionReplay
}.

Record WireGuardTunnel (D : Type) := {
  wt_PrivateKey : bytes;
  wt_Devices : list D;
  wt_Peers : list PeerReference
}.
Arguments wt_PrivateKey {D} _.
Arguments wt_Devices {D} _.
Arguments wt_Peers {D} _.

Record ReceivedPacket := {
  rp_Peer : nat;
  rp_Plaintext : bytes;
  rp_Reply : bytes;
  rp_SessionEstablished : bool
}.

Inductive TimerAction := Timer_None | Timer_SendHandshake | Timer_SendKeepalive.

(** ** Counters *)

Definition WireGuardCounterSize : nat := 8.
Definition WireGuardPaddingAlignment : Z := 16.

Fixpoint ReadCounter_loop (index : Z) (b : bytes) (value : Z) : Z :=
  match b with
  | [] => value
  | x :: rest => ReadCounter_loop (index + 1) rest (Z.lor value (u64 (Z.shiftl x (index * 8))))
  end.

Definition ReadCounter (b : bytes) : Z := ReadCounter_loop 0 (take WireGuardCounterSize b) 0.

Definition WriteCounter (value : Z) : bytes :=
  map (fun index => u8 (Z.shiftr value (Z.of_nat index * 8))) (seq 0 WireGuardCounterSize).

(** Twelve bytes, the counter in the last eight. *)
Definition TransportNonce (counter : Z) : bytes := replicate 4 0 ++ WriteCounter counter.

(** ** Replay sessions *)

Definition maximumRetainedSessions : nat := 3.

Definition is_session (k : wireguard_keypair) (session : SessionReplay) : bool :=
  (sr_LocalIndex session =? kp_local_index k) && (sr_StartedAt session =? kp_keypair_millis k).

Fixpoint find_session (k : wireguard_keypair) (sessions : list SessionReplay) : option nat :=
  match sessions with
  | [] => None
  | s :: rest => if is_session k s then Some 0%nat else S <$> find_session k rest
  end.

(** The index of the window of [k] among the sessions, and the sessions. *)
Definition ReplayFor (k : wireguard_keypair) (sessions : list SessionReplay)
    : nat * list SessionReplay :=
  match find_session k sessions with
  | Some i => (i, sessions)
  | None =>
      let kept := if (length sessions =? maximumRetainedSessions)%nat then drop 1 sessions
                  else sessions in
      (length kept, kept ++ [{| sr_LocalIndex := kp_local_index k;
                                sr_StartedAt := kp_keypair_millis k;
                                sr_Window := ReplayWindow_new |}])
  end.

(** [reference.ReplayFor(keypair).Accept(counter)]; a call of [Accept] that does not
    return has no outcome. *)
Definition ReplayFor_Accept (k : wireguard_keypair) (counter : Z) (sessions : list SessionReplay)
    : outcome (bool * list SessionReplay) :=
  let '(i, sessions) := ReplayFor k sessions in
  match sessions !! i with
  | None => UB
  | Some session =>
      match ReplayWindow_Accept (Z.to_nat WindowSize) (sr_Window session) counter with
      | None => UB
      | Some (window, accepted) =>
          Ok (accepted, <[i := {| sr_LocalIndex := sr_LocalIndex session;
                                  sr_StartedAt := sr_StartedAt session;
                                  sr_Window := window |}]> sessions)
      end
  end.

Section tunnel.
  Context {D : Type} `{!Wireguard D}.

(** ** Session keys *)

Definition FindSendingKeypair (now : Z) (peer : wireguard_peer) : option keypair_slot :=
  let curr := wp_curr peer in
  let slot := if kp_valid curr && negb (kp_initiator curr) && (kp_last_rx curr =? 0)
              then Slot_Prev else Slot_Curr in
  let keypair := keypair_of peer slot in
  if negb (kp_valid keypair) || (negb (kp_initiator keypair) && (kp_last_rx keypair =? 0))
     || wireguard_expired now (kp_keypair_millis keypair) REJECT_AFTER_TIME
     || (REJECT_AFTER_MESSAGES <=? kp_sending_counter keypair)
  then None else Some slot.

Definition EncryptTransport (input : bytes) (keypair : wireguard_keypair)
    : outcome (bytes * wireguard_keypair) :=
  match aead_encrypt (kp_sending_key keypair) (TransportNonce (kp_sending_counter keypair)) input with
  | Some output =>
      if zlen output =? zlen input + WIREGUARD_AUTHTAG_LEN
      then Ok (output, kp_set_sending_counter (u64 (kp_sending_counter keypair + 1)) keypair)
      else Throw (RuntimeError "WireGuard transport encryption failed.")
  | None => Throw (RuntimeError "WireGuard transport encryption failed.")
  end.

Definition DecryptTransport (input : bytes) (counter : Z) (keypair : wireguard_keypair)
    : option bytes :=
  match aead_decrypt (kp_receiving_key keypair) (TransportNonce counter) input with
  | Some plaintext =>
      if zlen plaintext + WIREGUARD_AUTHTAG_LEN =? zlen input then Some plaintext else None
  | None => None
  end.

(** ** The tunnel's objects *)

Abbreviation tun := (WireGuardTunnel D).

Definition wt_set_devices (devices : list D) (t : tun) : tun :=
  {| wt_PrivateKey := wt_PrivateKey t; wt_Devices := devices; wt_Peers := wt_Peers t |}.
Definition wt_set_peers (peers : list PeerReference) (t : tun) : tun :=
  {| wt_PrivateKey := wt_PrivateKey t; wt_Devices := wt_Devices t; wt_Peers := peers |}.

Definition Impl_GetPeer (id : nat) : eff tun PeerReference :=
  let* t := eget in
  match wt_Peers t !! id with
  | Some reference => eret reference
  | None => ethrow (OutOfRange "Invalid WireGuard peer.")
  end.

(** [*reference.Device()] and a write of it *)
Definition get_device (i : nat) : eff tun D :=
  let* t := eget in elift (rd (wt_Devices t) (Z.of_nat i)).
Definition put_device (i : nat) (d : D) : eff tun unit :=
  emod (fun t => wt_set_devices (<[i := d]> (wt_Devices t)) t).

(** [*reference.Peer()] and a write of it *)
Definition get_peer (reference : PeerReference) : eff tun wireguard_peer :=
  let* d := get_device (pr_device reference) in eret (peer_at d (pr_peer reference)).
Definition put_peer (reference : PeerReference) (peer : wireguard_peer) : eff tun unit :=
  let* d := get_device (pr_device reference) in
  put_device (pr_device reference) (set_peer d (pr_peer reference) peer).

Definition put_sessions (id : nat) (reference : PeerReference) (sessions : list SessionReplay)
    : eff tun unit :=
  emod (fun t => wt_set_peers (<[id := {| pr_device := pr_device reference;
                                          pr_peer := pr_peer reference;
                                          pr_replaySessions := sessions |}]> (wt_Peers t)) t).

(** ** Peers *)

Definition Impl_AddDevice : eff tun nat :=
  let* t := eget in
  match wireguard_device_init (wt_PrivateKey t) with
  | None => ethrow (RuntimeError "Failed to initialize WireGuard device.")
  | Some d =>
      emod (fun t => wt_set_devices (wt_Devices t ++ [d]) t) ;;* eret (length (wt_Devices t))
  end.

Definition WireGuardTunnel_new (privateKey : bytes) : outcome tun :=
  let '(r, t) := Impl_AddDevice {| wt_PrivateKey := privateKey; wt_Devices := []; wt_Peers := [] |} in
  let! _ := r in Ok t.

Definition WireGuardTunnel_AddPeer (publicKey presharedKey : bytes) (keepalive : Z)
    (initiateAutomatically : bool) : eff tun nat :=
  let* t := eget in
  let back := (length (wt_Devices t) - 1)%nat in
  let* d := get_device back in
  let* (device, allocated) :=
    match peer_alloc d with
    | Some peer => eret (back, Some peer)
    | None =>
        let* device := Impl_AddDevice in
        let* d := get_device device in
        eret (device, peer_alloc d)
    end in
  match allocated with
  | None => ethrow (RuntimeError "Failed to initialize WireGuard peer.")
  | Some peer =>
      let* d := get_device device in
      let '(ok, d) := wireguard_peer_init d peer publicKey presharedKey in
      put_device device d ;;*
      if negb ok then ethrow (RuntimeError "Failed to initialize WireGuard peer.") else
      put_device device
        (set_peer d peer (wp_set_keepalive keepalive
                            (wp_set_active initiateAutomatically (peer_at d peer)))) ;;*
      emod (fun t => wt_set_peers (wt_Peers t ++ [{| pr_device := device; pr_peer := peer;
                                                     pr_replaySessions := [] |}]) t) ;;*
      let* t := eget in
      eret (length (wt_Peers t) - 1)%nat
  end.

Definition WireGuardTunnel_ActivatePeer (peerId : nat) : eff tun unit :=
  let* reference := Impl_GetPeer peerId in
  let* peer := get_peer reference in
  put_peer reference (wp_set_active true peer).

Definition WireGuardTunnel_CreateHandshake (now : Z) (peerId : nat) : eff tun bytes :=
  let* reference := Impl_GetPeer peerId in
  let* d := get_device (pr_device reference) in
  let '(message, d) := wireguard_create_handshake_initiation d (pr_peer reference) in
  put_device (pr_device reference) d ;;*
  match message with
  | None => ethrow (RuntimeError "Failed to create WireGuard handshake.")
  | Some message =>
      let* peer := get_peer reference in
      put_peer reference (wp_set_last_initiation_tx now (wp_set_send_handshake false peer)) ;;*
      eret message
  end.

Definition WireGuardTunnel_IsPacket (packet : bytes) : bool :=
  negb (bool_decide (wireguard_get_message_type packet = MESSAGE_INVALID)).

(** ** Encrypting *)

(** [(n + 15) & ~15] *)
Definition paddedLength (n : Z) : Z :=
  Z.land (n + WireGuardPaddingAlignment - 1) (Z.lnot (WireGuardPaddingAlignment - 1)).

Definition WireGuardTunnel_Encrypt (now : Z) (peerId : nat) (plaintext : bytes) : eff tun bytes :=
  let* reference := Impl_GetPeer peerId in
  let* peer := get_peer reference in
  match FindSendingKeypair now peer with
  | None => ethrow (RuntimeError "WireGuard peer has no usable session.")
  | Some slot =>
      let keypair := keypair_of peer slot in
      let header := transport_header (kp_remote_index keypair)
                      (WriteCounter (kp_sending_counter keypair)) in
      let padded := plaintext
                    ++ replicate (Z.to_nat (paddedLength (zlen plaintext) - zlen plaintext)) 0 in
      let* (encrypted, keypair) := elift (EncryptTransport padded keypair) in
      let keypair := kp_set_last_tx now keypair in
      let peer := wp_set_last_tx now (set_keypair peer slot keypair) in
      let peer := if (REKEY_AFTER_MESSAGES <=? kp_sending_counter keypair)
                     || (kp_initiator keypair
                         && wireguard_expired now (kp_keypair_millis keypair) REKEY_AFTER_TIME)
                  then wp_set_send_handshake true peer else peer in
      put_peer reference peer ;;*
      eret (header ++ encrypted)
  end.

Definition WireGuardTunnel_HasSession (now : Z) (peerId : nat) : eff tun bool :=
  let* reference := Impl_GetPeer peerId in
  let* peer := get_peer reference in
  eret (bool_decide (is_Some (FindSendingKeypair now peer))).

(** ** Receiving *)

(** The length of the IP packet in a plaintext, without the padding. *)
Definition innerLength (plaintext : bytes) : outcome Z :=
  let size := zlen plaintext in
  if 1 <=? size then
    let! b0 := rd plaintext 0 in
    if (4 <=? size) && (Z.shiftr b0 4 =? 4) then
      let! b2 := rd plaintext 2 in
      let! b3 := rd plaintext 3 in
      Ok (Z.lor (Z.shiftl b2 8) b3)
    else if (6 <=? size) && (Z.shiftr b0 4 =? 6) then
      let! b4 := rd plaintext 4 in
      let! b5 := rd plaintext 5 in
      Ok (40 + Z.lor (Z.shiftl b4 8) b5)
    else Ok size
  else Ok size.

Definition receive_initiation (peerId : nat) (packet : bytes) : eff tun (option ReceivedPacket) :=
  let* reference := Impl_GetPeer peerId in
  let* d := get_device (pr_device reference) in
  let '(initiatingPeer, d) := wireguard_process_initiation_message d packet in
  put_device (pr_device reference) d ;;*
  if negb (bool_decide (initiatingPeer = Some (pr_peer reference))) then eret None else
  let '(response, d) := wireguard_create_handshake_response d (pr_peer reference) in
  put_device (pr_device reference) d ;;*
  match response with
  | None => eret None
  | Some response =>
      put_device (pr_device reference) (wireguard_start_session d (pr_peer reference) false) ;;*
      eret (Some {| rp_Peer := peerId; rp_Plaintext := []; rp_Reply := response;
                    rp_SessionEstablished := true |})
  end.

Definition receive_response (now : Z) (peerId : nat) (packet : bytes)
    : eff tun (option ReceivedPacket) :=
  let* reference := Impl_GetPeer peerId in
  let* d := get_device (pr_device reference) in
  let '(ok, d) := wireguard_process_handshake_response d (pr_peer reference) packet in
  put_device (pr_device reference) d ;;*
  if negb ok then eret None else
  put_device (pr_device reference) (wireguard_start_session d (pr_peer reference) true) ;;*
  let* confirmation := WireGuardTunnel_Encrypt now peerId [] in
  eret (Some {| rp_Peer := peerId; rp_Plaintext := []; rp_Reply := confirmation;
                rp_SessionEstablished := true |}).

Definition receive_cookie (peerId : nat) (packet : bytes) : eff tun (option ReceivedPacket) :=
  let* reference := Impl_GetPeer peerId in
  let* d := get_device (pr_device reference) in
  let '(ok, d) := wireguard_process_cookie_message d (pr_peer reference) packet in
  put_device (pr_device reference)
    (if ok : bool then set_peer d (pr_peer reference)
                         (wp_set_send_handshake true (peer_at d (pr_peer reference)))
     else d) ;;*
  eret None.

(** What the tunnel does to a peer that received a valid packet through [slot]: the
    pointer to the key pair stays where it is when [keypair_update] moves the pairs. *)
Definition received_update (now : Z) (peer : wireguard_peer) (slot : keypair_slot)
    : wireguard_peer :=
  let peer := set_keypair peer slot (kp_set_last_rx now (keypair_of peer slot)) in
  let peer := keypair_update (wp_set_last_rx now peer) slot in
  let keypair := keypair_of peer slot in
  if kp_initiator keypair
     && wireguard_expired now (kp_keypair_millis keypair)
          (REJECT_AFTER_TIME - wp_keepalive_interval peer - REKEY_TIMEOUT)
  then wp_set_send_handshake true peer else peer.

Definition receive_transport (now : Z) (peerId : nat) (packet : bytes)
    : eff tun (option ReceivedPacket) :=
  let* reference := Impl_GetPeer peerId in
  let* peer := get_peer reference in
  match get_peer_keypair_for_idx peer (header_receiver packet) with
  | None => eret None
  | Some slot =>
      let keypair := keypair_of peer slot in
      if negb (kp_receiving_valid keypair)
         || wireguard_expired now (kp_keypair_millis keypair) REJECT_AFTER_TIME
      then eret None else
      let counter := ReadCounter (header_counter packet) in
      match DecryptTransport (drop (Z.to_nat sizeof_message_transport_data) packet) counter keypair with
      | None => eret None
      | Some plaintext =>
          let* (accepted, sessions) :=
            elift (ReplayFor_Accept keypair counter (pr_replaySessions reference)) in
          put_sessions peerId reference sessions ;;*
          if negb accepted then eret None else
          put_peer reference (received_update now peer slot) ;;*
          let* inner := elift (innerLength plaintext) in
          if zlen plaintext <? inner then eret None else
          eret (Some {| rp_Peer := peerId; rp_Plaintext := take (Z.to_nat inner) plaintext;
                        rp_Reply := []; rp_SessionEstablished := false |})
      end
  end.

Definition WireGuardTunnel_ProcessPacketFrom (now : Z) (peerId : nat) (packet : bytes)
    : eff tun (option ReceivedPacket) :=
  let* _ := Impl_GetPeer peerId in
  let type := wireguard_get_message_type packet in
  if bool_decide (type = MESSAGE_HANDSHAKE_INITIATION)
     && (zlen packet =? sizeof_message_handshake_initiation)
  then receive_initiation peerId packet
  else if bool_decide (type = MESSAGE_HANDSHAKE_RESPONSE)
          && (zlen packet =? sizeof_message_handshake_response)
  then receive_response now peerId packet
  else if bool_decide (type = MESSAGE_COOKIE_REPLY)
          && (zlen packet =? sizeof_message_cookie_reply)
  then receive_cookie peerId packet
  else if negb (bool_decide (type = MESSAGE_TRANSPORT_DATA))
          || (zlen packet <? sizeof_message_transport_data + WIREGUARD_AUTHTAG_LEN)
  then eret None
  else receive_transport now peerId packet.

(** The loop over the devices, for an initiation. *)
Fixpoint receive_by_device (todo index : nat) (packet : bytes) : eff tun (option ReceivedPacket) :=
  match todo with
  | O => eret None
  | S todo' =>
      let* d := get_device index in
      let '(initiatingPeer, d) := wireguard_process_initiation_message d packet in
      put_device index d ;;*
      match initiatingPeer with
      | None => receive_by_device todo' (S index) packet
      | Some peer =>
          let* t := eget in
          match list_find (fun candidate => pr_device candidate = index ∧ pr_peer candidate = peer)
                  (wt_Peers t) with
          | None => eret None
          | Some (peerId, _) =>
              let '(response, d) := wireguard_create_handshake_response d peer in
              put_device index d ;;*
              match response with
              | None => eret None
              | Some response =>
                  put_device index (wireguard_start_session d peer false) ;;*
                  eret (Some {| rp_Peer := peerId; rp_Plaintext := []; rp_Reply := response;
                                rp_SessionEstablished := true |})
              end
          end
      end
  end.

(** The loop over the peers, for every other packet. *)
Fixpoint receive_by_peer (now : Z) (todo peerId : nat) (packet : bytes)
    : eff tun (option ReceivedPacket) :=
  match todo with
  | O => eret None
  | S todo' =>
      let* received := WireGuardTunnel_ProcessPacketFrom now peerId packet in
      match received with
      | Some received => eret (Some received)
      | None => receive_by_peer now todo' (S peerId) packet
      end
  end.

Definition WireGuardTunnel_ProcessPacket (now : Z) (packet : bytes)
    : eff tun (option ReceivedPacket) :=
  let* t := eget in
  if bool_decide (wireguard_get_message_type packet = MESSAGE_HANDSHAKE_INITIATION)
     && (zlen packet =? sizeof_message_handshake_initiation)
  then receive_by_device (length (wt_Devices t)) 0 packet
  else receive_by_peer now (length (wt_Peers t)) 0 packet.

(** ** Timers *)

Definition WireGuardTunnel_UpdateTimers (now : Z) (peerId : nat) : eff tun TimerAction :=
  let* reference := Impl_GetPeer peerId in
  let* peer := get_peer reference in
  let curr := wp_curr peer in
  let peer := if kp_valid curr
                 && (wireguard_expired now (kp_keypair_millis curr) REJECT_AFTER_TIME
                     || (REJECT_AFTER_MESSAGES <=? kp_sending_counter curr))
              then set_keypair peer Slot_Curr (keypair_destroy curr) else peer in
  put_peer reference peer ;;*
  let hasUsableSession := bool_decide (is_Some (FindSendingKeypair now peer)) in
  let curr := wp_curr peer in
  let handshakeNeeded :=
    wp_send_handshake peer || (negb hasUsableSession && wp_active peer)
    || (kp_valid curr && negb (kp_initiator curr)
        && wireguard_expired now (kp_keypair_millis curr)
             (REJECT_AFTER_TIME - wp_keepalive_interval peer)) in
  let initiationAllowed :=
    (wp_last_initiation_tx peer =? 0)
    || wireguard_expired now (wp_last_initiation_tx peer) REKEY_TIMEOUT in
  if handshakeNeeded && initiationAllowed then eret Timer_SendHandshake
  else if (0 <? wp_keepalive_interval peer) && hasUsableSession
          && wireguard_expired now (wp_last_tx peer) (wp_keepalive_interval peer)
  then eret Timer_SendKeepalive
  else eret Timer_None.

End tunnel.

(** ** Counters *)

Lemma lor_mod_chunk v i :
  0 <= i → Z.lor (v mod 2 ^ (i * 8)) (Z.shiftl (u8 (Z.shiftr v (i * 8))) (i * 8))
           = v mod 2 ^ ((i + 1) * 8).
Proof.
  intros Hi. rewrite Z.lor_comm, lor_shiftl_add by (try apply Z.mod_pos_bound; lia).
  unfold wrap. rewrite Z.shiftr_div_pow2 by lia.
  replace ((i + 1) * 8) with (i * 8 + 8) by lia. rewrite Z.pow_add_r by lia.
  rewrite Z.rem_mul_r by lia. lia.
Qed.

Lemma ReadCounter_loop_write v n i :
  (n + i <= 8)%nat →
  ReadCounter_loop (Z.of_nat i)
    (map (fun index => u8 (Z.shiftr v (Z.of_nat index * 8))) (seq i n))
    (v mod 2 ^ (Z.of_nat i * 8))
  = v mod 2 ^ (Z.of_nat (i + n) * 8).
Proof.
  revert i. induction n as [|n IH]; intros i Hi; cbn [seq map ReadCounter_loop].
  { by rewrite Nat.add_0_r. }
  rewrite (wrap_id 64).
  - rewrite lor_mod_chunk by lia. replace (Z.of_nat i + 1) with (Z.of_nat (S i)) by lia.
    rewrite IH by lia. do 3 f_equal. lia.
  - pose proof (wrap_range 8 (Z.shiftr v (Z.of_nat i * 8)) ltac:(done)) as [H1 H2].
    rewrite Z.shiftl_mul_pow2 by lia. unfold in_width.
    assert (2 ^ (Z.of_nat i * 8) <= 2 ^ 56) by (apply Z.pow_le_mono_r; lia).
    pose proof (Z.pow_pos_nonneg 2 (Z.of_nat i * 8)).
    change (2 ^ 64) with (2 ^ 8 * 2 ^ 56). nia.
Qed.

Lemma Read_WriteCounter v : in_width 64 v → ReadCounter (WriteCounter v) = v.
Proof.
  intros Hv. unfold ReadCounter.
  change (take WireGuardCounterSize (WriteCounter v)) with (WriteCounter v).
  pose proof (ReadCounter_loop_write v 8 0 ltac:(lia)) as H.
  change (v mod 2 ^ (Z.of_nat 0 * 8)) with (v mod 1) in H. rewrite Z.mod_1_r in H.
  change (Z.of_nat 0) with 0 in H. unfold WriteCounter, WireGuardCounterSize. rewrite H.
  change (2 ^ (Z.of_nat (0 + 8) * 8)) with (2 ^ 64). by apply Z.mod_small.
Qed.

Lemma length_WriteCounter v : length (WriteCounter v) = 8%nat.
Proof. done. Qed.

Lemma paddedLength_spec n : paddedLength n = (n + 15) / 16 * 16.
Proof.
  unfold paddedLength, WireGuardPaddingAlignment.
  rewrite <- Z.ldiff_land. change (16 - 1) with (Z.ones 4).
  rewrite Z.ldiff_ones_r, Z.shiftl_mul_pow2, Z.shiftr_div_pow2 by lia.
  by replace (n + 16 - 1) with (n + 15) by lia.
Qed.

Lemma paddedLength_ge n : n <= paddedLength n.
Proof. rewrite paddedLength_spec. pose proof (Z.div_mod (n + 15) 16). pose proof (Z.mod_pos_bound (n + 15) 16). lia. Qed.

(** ** Replay sessions *)

Definition session_key (k : wireguard_keypair) : Z * Z := (kp_local_index k, kp_keypair_millis k).
Definition sr_key (s : SessionReplay) : Z * Z := (sr_LocalIndex s, sr_StartedAt s).

Lemma is_session_key k s : is_session k s = bool_decide (sr_key s = session_key k).
Proof.
  unfold is_session, sr_key, session_key. apply Bool.eq_true_iff_eq.
  rewrite bool_decide_eq_true, andb_true_iff, !Z.eqb_eq.
  split; [by intros [-> ->]|by intros [= -> ->]].
Qed.

Lemma find_session_Some k sessions i :
  find_session k sessions = Some i → ∃ s, sessions !! i = Some s ∧ sr_key s = session_key k.
Proof.
  revert i. induction sessions as [|s sessions IH]; simpl; intros i; [done|].
  rewrite is_session_key. case_bool_decide; [intros; simplify_eq; eauto|].
  intros (j & Hj & ->)%fmap_Some. by apply IH.
Qed.

Lemma find_session_None k sessions :
  find_session k sessions = None ↔ session_key k ∉ map sr_key sessions.
Proof.
  induction sessions as [|s sessions IH]; simpl; [set_solver|].
  rewrite is_session_key. case_bool_decide as H; [set_solver|].
  rewrite fmap_None, IH. set_solver.
Qed.

(** The counters of a session among the accepted ones. *)
Definition of_session (key : Z * Z) (seen : list ((Z * Z) * Z)) : list Z :=
  (filter (fun p => p.1 = key) seen).*2.

(** Every retained window knows the counters that its session accepted, and a
    session that has none has accepted nothing. *)
Record sessions_rep (sessions : list SessionReplay) (seen : list ((Z * Z) * Z)) : Prop := {
  sp_keys : NoDup (map sr_key sessions);
  sp_windows : ∀ s, s ∈ sessions → replay_rep (sr_Window s) (of_session (sr_key s) seen);
  sp_fresh : ∀ key, key ∉ map sr_key sessions → of_session key seen = []
}.

Lemma sessions_rep_nil : sessions_rep [] [].
Proof. constructor; [constructor|set_solver|done]. Qed.

Lemma of_session_cons key c seen key' :
  of_session key ((key', c) :: seen)
  = if bool_decide (key' = key) then c :: of_session key seen else of_session key seen.
Proof. unfold of_session. rewrite filter_cons. simpl. case_decide; case_bool_decide; done. Qed.

(** A table that is not full, or with the session in it, has the session's window. *)
Lemma ReplayFor_spec k sessions seen :
  sessions_rep sessions seen →
  session_key k ∈ map sr_key sessions ∨ length sessions ≠ maximumRetainedSessions →
  ∃ i s sessions', ReplayFor k sessions = (i, sessions') ∧ sessions' !! i = Some s
    ∧ sr_key s = session_key k ∧ sessions_rep sessions' seen
    ∧ (∀ key, key ∈ map sr_key sessions' ↔ key = session_key k ∨ key ∈ map sr_key sessions).
Proof.
  intros [Hnd Hwin Hfresh] Hroom. unfold ReplayFor.
  destruct (find_session k sessions) as [i|] eqn:Hfind.
  - apply find_session_Some in Hfind as (s & Hs & Hk). exists i, s, sessions.
    split_and!; [done..|]. intros key. split; [by right|]. intros [->|?]; [|done].
    rewrite <- Hk. apply list_elem_of_fmap_2. by eapply list_elem_of_lookup_2.
  - apply find_session_None in Hfind. destruct Hroom as [?|Hlen]; [done|].
    rewrite (proj2 (Nat.eqb_neq _ _)) by lia. set (s := {| sr_LocalIndex := _ |}).
    exists (length sessions), s, (sessions ++ [s]).
    split_and!; [done|by rewrite lookup_app_r, Nat.sub_diag by lia|done| |].
    + constructor.
      * rewrite map_app. apply NoDup_app. split_and!; [done| |apply NoDup_singleton].
        intros key Hkey. simpl. rewrite list_elem_of_singleton. by intros ->.
      * intros s' [Hs'|Hs']%elem_of_app; [by apply Hwin|].
        apply list_elem_of_singleton in Hs' as ->.
        rewrite (Hfresh (sr_key s)) by done. apply replay_rep_new.
      * intros key Hkey. apply Hfresh. rewrite map_app in Hkey. set_solver.
    + intros key. rewrite map_app, elem_of_app. simpl. rewrite list_elem_of_singleton.
      change (sr_key s) with (session_key k). tauto.
Qed.

Lemma sr_key_inj sessions s s' :
  NoDup (map sr_key sessions) → s ∈ sessions → s' ∈ sessions → sr_key s = sr_key s' → s = s'.
Proof.
  induction sessions as [|x l IH]; simpl; [set_solver|]. intros [Hx Hnd]%NoDup_cons.
  assert (∀ y, y ∈ l → sr_key y ≠ sr_key x) as Hne.
  { intros y Hy Heq. apply Hx. apply list_elem_of_fmap. eauto. }
  intros [->|Hs]%elem_of_cons [->|Hs']%elem_of_cons Heq; [done| | |auto].
  - by destruct (Hne s' Hs').
  - by destruct (Hne s Hs).
Qed.

(** Its window decides as the specification of the session's counters does. *)
Lemma ReplayFor_Accept_spec k c sessions seen :
  sessions_rep sessions seen → 0 <= c < 2 ^ 64 - 1 →
  session_key k ∈ map sr_key sessions ∨ length sessions ≠ maximumRetainedSessions →
  let accepted := spec_accepts (of_session (session_key k) seen) c in
  ∃ sessions', ReplayFor_Accept k c sessions = Ok (accepted, sessions')
    ∧ sessions_rep sessions' (if accepted then (session_key k, c) :: seen else seen)
    ∧ (∀ key, key ∈ map sr_key sessions' ↔ key = session_key k ∨ key ∈ map sr_key sessions).
Proof.
  intros Hrep Hc Hroom accepted. unfold ReplayFor_Accept.
  destruct (ReplayFor_spec k sessions seen Hrep Hroom) as (i & s & l & -> & Hs & Hk & Hl & Hkeys).
  rewrite Hs. pose proof (sp_windows _ _ Hl s ltac:(by eapply list_elem_of_lookup_2)) as Hw.
  rewrite Hk in Hw.
  destruct (replay_Accept_step (Z.to_nat WindowSize) _ _ c ltac:(done) Hw Hc) as (w & -> & Hw').
  fold accepted. set (s' := {| sr_LocalIndex := _ |}).
  assert (map sr_key (<[i := s']> l) = map sr_key l) as Hmap.
  { rewrite list_fmap_insert. apply list_insert_id. by rewrite list_lookup_fmap, Hs. }
  exists (<[i := s']> l). split; [done|]. rewrite Hmap. split; [|done].
  pose proof Hl as [Hnd Hwin Hfresh].
  assert (∀ key, key ≠ session_key k →
            of_session key (if accepted then (session_key k, c) :: seen else seen)
            = of_session key seen) as Hother.
  { intros key Hne. destruct accepted; [|done]. rewrite of_session_cons.
    by rewrite bool_decide_false by congruence. }
  constructor; rewrite ?Hmap; [done| |].
  - intros x (j & Hx)%list_elem_of_lookup. destruct (decide (j = i)) as [->|Hne].
    + rewrite list_lookup_insert_eq in Hx by (by eapply lookup_lt_Some). injection Hx as <-.
      change (sr_key s') with (sr_key s). rewrite Hk. change (sr_Window s') with w.
      unfold spec_step in Hw'. fold accepted in Hw'. destruct accepted; [|done].
      by rewrite of_session_cons, bool_decide_true.
    + rewrite list_lookup_insert_ne in Hx by done.
      rewrite Hother; [apply Hwin; by eapply list_elem_of_lookup_2|].
      intros Heq. apply Hne. apply (NoDup_lookup (map sr_key l) j i (session_key k) Hnd);
        rewrite list_lookup_fmap, ?Hx, ?Hs; simpl; congruence.
  - intros key Hkey. rewrite Hother; [by apply Hfresh|]. intros ->. apply Hkey, Hkeys. by left.
Qed.

(** Forgetting the oldest window, and with it the counters it accepted. *)
Lemma of_session_forget key seen key' :
  of_session key (filter (fun p => p.1 ≠ key') seen)
  = if bool_decide (key = key') then [] else of_session key seen.
Proof.
  unfold of_session. rewrite list_filter_filter. case_bool_decide as Hkey.
  - subst key'. induction seen as [|p seen IH]; [done|]. by rewrite filter_cons, decide_False by tauto.
  - f_equal. apply list_filter_iff. intros p. split; [tauto|]. intros ->. done.
Qed.

Lemma sessions_rep_forget s sessions seen :
  sessions_rep (s :: sessions) seen →
  sessions_rep sessions (filter (fun p => p.1 ≠ sr_key s) seen).
Proof.
  intros [[Hs Hnd]%NoDup_cons Hwin Hfresh]. constructor; [done| |].
  - intros x Hx. rewrite of_session_forget, bool_decide_false; [apply Hwin; by right|].
    intros Heq. apply Hs. rewrite <- Heq. by apply list_elem_of_fmap_2.
  - intros key Hkey. rewrite of_session_forget. case_bool_decide as Hne; [done|].
    apply Hfresh. intros [?|?]%elem_of_cons; done.
Qed.

(** The call in any table: a session without a window gets an empty one, for which
    the oldest window goes when three are retained. *)
Lemma ReplayFor_Accept_any k c sessions seen :
  sessions_rep sessions seen → 0 <= c < 2 ^ 64 - 1 →
  let accepted := spec_accepts (of_session (session_key k) seen) c in
  ∃ sessions' kept, ReplayFor_Accept k c sessions = Ok (accepted, sessions')
    ∧ sessions_rep sessions' (if accepted then (session_key k, c) :: kept else kept)
    ∧ of_session (session_key k) kept = of_session (session_key k) seen.
Proof.
  intros Hrep Hc accepted.
  destruct (decide (session_key k ∈ map sr_key sessions ∨ length sessions ≠ maximumRetainedSessions))
    as [Hroom|[Hnin Hfull%dec_stable]%Decidable.not_or].
  { destruct (ReplayFor_Accept_spec k c sessions seen Hrep Hc Hroom) as (l & Hl & Hrep' & _). eauto. }
  destruct sessions as [|s sessions]; [done|].
  pose proof (sessions_rep_forget _ _ _ Hrep) as Hkept. set (kept := filter _ seen) in Hkept.
  assert (of_session (session_key k) kept = of_session (session_key k) seen) as Hof.
  { unfold kept. rewrite of_session_forget, bool_decide_false; [done|]. set_solver. }
  destruct (ReplayFor_Accept_spec k c sessions kept Hkept Hc) as (l & Hl & Hrep' & _);
    [right; simpl in Hfull; lia|]. rewrite Hof in Hl, Hrep'. exists l, kept. split_and!; [|done..].
  fold accepted in Hl. rewrite <- Hl. unfold ReplayFor_Accept, ReplayFor.
  rewrite (proj2 (find_session_None k _) Hnin), (proj2 (find_session_None k sessions)) by set_solver.
  rewrite Hfull, Nat.eqb_refl. simpl in Hfull. by rewrite (proj2 (Nat.eqb_neq _ _)) by lia.
Qed.

(** ** A peer's sessions over time *)

(** The packets of a peer's sessions, in the order in which they are decrypted. *)
Fixpoint replay_sessions_run (sessions : list SessionReplay) (events : list (wireguard_keypair * Z))
    : outcome (list bool * list SessionReplay) :=
  match events with
  | [] => Ok ([], sessions)
  | (k, c) :: rest =>
      let! (accepted, sessions) := ReplayFor_Accept k c sessions in
      let! (verdicts, sessions) := replay_sessions_run sessions rest in
      Ok (accepted :: verdicts, sessions)
  end.

Definition accepted_events (events : list (wireguard_keypair * Z)) (verdicts : list bool)
    : list ((Z * Z) * Z) :=
  (fun p => (session_key p.1.1, p.1.2)) <$> filter (fun p => p.2 = true) (zip events verdicts).

Lemma of_session_elem key c seen : (key, c) ∈ seen → c ∈ of_session key seen.
Proof.
  intros H. unfold of_session. apply list_elem_of_fmap. exists (key, c). split; [done|].
  by apply list_elem_of_filter.
Qed.

Lemma replay_sessions_run_spec keys events sessions seen :
  (length keys <= maximumRetainedSessions)%nat →
  Forall (fun e => session_key e.1 ∈ keys ∧ 0 <= e.2 < 2 ^ 64 - 1) events →
  (∀ key, key ∈ map sr_key sessions → key ∈ keys) → sessions_rep sessions seen → NoDup seen →
  ∃ verdicts sessions', replay_sessions_run sessions events = Ok (verdicts, sessions')
    ∧ NoDup (accepted_events events verdicts)
    ∧ ∀ e, e ∈ accepted_events events verdicts → e ∉ seen.
Proof.
  intros Hlen Hev. revert sessions seen.
  induction Hev as [|[k c] events [Hk Hc] _ IH]; intros sessions seen Hkeys Hrep Hnd; simpl.
  { do 2 eexists. split; [reflexivity|]. split; [constructor|set_solver]. }
  simpl in Hk, Hc. destruct (ReplayFor_Accept_spec k c sessions seen Hrep Hc)
    as (sessions1 & -> & Hrep1 & Hkeys1).
  { destruct (decide (session_key k ∈ map sr_key sessions)) as [?|Hnin]; [by left|right].
    enough (length (session_key k :: map sr_key sessions) <= length keys)%nat as H
      by (simpl in H; rewrite length_map in H; lia).
    apply NoDup_incl_length.
    - apply NoDup_ListNoDup, NoDup_cons. split; [done|apply Hrep].
    - intros x Hx%list_elem_of_In. apply list_elem_of_In.
      apply elem_of_cons in Hx as [->|Hx]; auto. }
  simpl. set (accepted := spec_accepts _ _) in *.
  assert (accepted = true → (session_key k, c) ∉ seen) as Hfresh.
  { intros Ha Hin. apply of_session_elem in Hin. by apply (spec_accepts_fresh _ _ Ha). }
  destruct (IH sessions1 (if accepted then (session_key k, c) :: seen else seen))
    as (verdicts & sessions2 & -> & Hnd2 & Hnew);
    [intros key [->|?]%Hkeys1; auto|done| |].
  { destruct accepted; [|done]. apply NoDup_cons. auto. }
  do 2 eexists. split; [reflexivity|]. unfold accepted_events in *. cbn [zip]. simpl.
  rewrite filter_cons. simpl. destruct accepted; simpl; [|by split].
  split.
  - apply NoDup_cons. split; [|done]. intros Hin. apply (Hnew _ Hin). by left.
  - intros e [->|He]%elem_of_cons; [by apply Hfresh|]. intros Hin. apply (Hnew _ He). by right.
Qed.

(** As long as the packets of a peer belong to at most three sessions, which is
    what a peer holds keys for, no packet is accepted twice: whatever the order and
    the interleaving of the sessions, each call returns and the accepted pairs of
    session and counter are distinct. *)
Theorem Tunnel_sessions_no_replay keys events :
  (length keys <= maximumRetainedSessions)%nat →
  Forall (fun e => session_key e.1 ∈ keys ∧ 0 <= e.2 < 2 ^ 64 - 1) events →
  ∃ verdicts sessions, replay_sessions_run [] events = Ok (verdicts, sessions)
    ∧ NoDup (accepted_events events verdicts).
Proof.
  intros Hlen Hev.
  destruct (replay_sessions_run_spec keys events [] [] Hlen Hev) as (verdicts & sessions & Hr & Hnd & _);
    [set_solver|apply sessions_rep_nil|constructor|]. eauto.
Qed.

(** ** What the tunnel relies on *)

(** Two key pairs that [get_peer_keypair_for_idx] cannot tell apart. *)
Definition same_index (k k' : wireguard_keypair) : Prop :=
  kp_valid k = kp_valid k' ∧ kp_local_index k = kp_local_index k'.

Class WireguardLaws (D : Type) `{!Wireguard D} : Prop := {
  law_peer_at_set d i p : peer_at (set_peer d i p) i = p;
  law_peer_at_set_ne d i j p : i ≠ j → peer_at (set_peer d i p) j = peer_at d j;
  (** The library looks a pair up by validity and local index alone, *)
  law_index peer peer' idx :
    (∀ slot, same_index (keypair_of peer slot) (keypair_of peer' slot)) →
    get_peer_keypair_for_idx peer idx = get_peer_keypair_for_idx peer' idx;
  (** and [keypair_update] may move the pair that received to another slot, where
      its index finds it as it was. *)
  law_update peer slot idx :
    get_peer_keypair_for_idx peer idx = Some slot →
    ∃ slot', get_peer_keypair_for_idx (keypair_update peer slot) idx = Some slot'
      ∧ keypair_of (keypair_update peer slot) slot' = keypair_of peer slot;
  law_destroy k : kp_valid (keypair_destroy k) = false;
  (** The wire format of a transport message, *)
  law_header_size receiver counter :
    length counter = 8%nat → zlen (transport_header receiver counter) = sizeof_message_transport_data;
  law_header_receiver receiver counter rest :
    in_width 32 receiver → length counter = 8%nat →
    header_receiver (transport_header receiver counter ++ rest) = receiver;
  law_header_counter receiver counter rest :
    length counter = 8%nat → header_counter (transport_header receiver counter ++ rest) = counter;
  law_header_type receiver counter rest :
    length counter = 8%nat → WIREGUARD_AUTHTAG_LEN <= zlen rest →
    wireguard_get_message_type (transport_header receiver counter ++ rest) = MESSAGE_TRANSPORT_DATA;
  law_messages : 0 <= REJECT_AFTER_MESSAGES < 2 ^ 64;
  (** and authenticated encryption. *)
  law_aead key nonce message output :
    aead_encrypt key nonce message = Some output →
    zlen output = zlen message + WIREGUARD_AUTHTAG_LEN
    ∧ aead_decrypt key nonce output = Some message;
  law_aead_total key nonce message : is_Some (aead_encrypt key nonce message)
}.

Section transport.
  Context {D : Type} `{!Wireguard D} `{!WireguardLaws D}.

(** The peer [id] of a tunnel. *)
Definition tunnel_peer (t : WireGuardTunnel D) (id : nat) : option (PeerReference * D) :=
  reference ← wt_Peers t !! id;
  d ← wt_Devices t !! pr_device reference;
  Some (reference, d).

Lemma tunnel_peer_Some t id reference d :
  tunnel_peer t id = Some (reference, d) ↔
  wt_Peers t !! id = Some reference ∧ wt_Devices t !! pr_device reference = Some d.
Proof.
  unfold tunnel_peer. destruct (wt_Peers t !! id) as [r|]; simpl; [|naive_solver].
  destruct (wt_Devices t !! pr_device r) as [d'|] eqn:E; simpl; naive_solver.
Qed.

Lemma GetPeer_spec t id reference d :
  tunnel_peer t id = Some (reference, d) → Impl_GetPeer id t = (Ok reference, t).
Proof. intros [H _]%tunnel_peer_Some. unfold Impl_GetPeer, ebind, eget. by rewrite H. Qed.

Lemma get_device_spec (t : WireGuardTunnel D) i d :
  wt_Devices t !! i = Some d → get_device i t = (Ok d, t).
Proof.
  intros H. unfold get_device, ebind, eget, elift. f_equal. apply rd_lookup.
  rewrite Nat2Z.id. split; [lia|done].
Qed.

Lemma get_peer_spec t id reference d :
  tunnel_peer t id = Some (reference, d) →
  get_peer reference t = (Ok (peer_at d (pr_peer reference)), t).
Proof.
  intros [_ H]%tunnel_peer_Some. unfold get_peer. by rewrite (ebind_Ok _ _ _ _ _ (get_device_spec _ _ _ H)).
Qed.

(** The tunnel after a write of the members of a peer. *)
Definition with_peer (t : WireGuardTunnel D) (reference : PeerReference) (d : D)
    (peer : wireguard_peer) : WireGuardTunnel D :=
  wt_set_devices (<[pr_device reference := set_peer d (pr_peer reference) peer]> (wt_Devices t)) t.

Lemma put_peer_spec t id reference d peer :
  tunnel_peer t id = Some (reference, d) →
  put_peer reference peer t = (Ok tt, with_peer t reference d peer).
Proof.
  intros [_ H]%tunnel_peer_Some. unfold put_peer.
  by rewrite (ebind_Ok _ _ _ _ _ (get_device_spec _ _ _ H)).
Qed.

Lemma tunnel_peer_with t id reference d peer :
  tunnel_peer t id = Some (reference, d) →
  tunnel_peer (with_peer t reference d peer) id
  = Some (reference, set_peer d (pr_peer reference) peer).
Proof.
  intros [Hr Hd]%tunnel_peer_Some. apply tunnel_peer_Some. split; [done|].
  simpl. apply list_lookup_insert_eq. by eapply lookup_lt_Some.
Qed.

(** A sending pair is usable: its counter is below the limit. *)
Lemma FindSendingKeypair_Some now peer slot :
  FindSendingKeypair now peer = Some slot →
  let k := keypair_of peer slot in
  (slot = Slot_Curr ∨ slot = Slot_Prev) ∧ kp_valid k = true
  ∧ wireguard_expired now (kp_keypair_millis k) REJECT_AFTER_TIME = false
  ∧ kp_sending_counter k < REJECT_AFTER_MESSAGES
  ∧ (kp_initiator k = true ∨ kp_last_rx k ≠ 0).
Proof.
  unfold FindSendingKeypair. set (s := if (_ : bool) then Slot_Prev else Slot_Curr).
  intros H. cbv zeta. destruct (negb _ || _ || _ || _) eqn:E; [done|].
  assert (s = slot) as <- by congruence. clear H.
  apply orb_false_iff in E as [E Hm]. apply orb_false_iff in E as [E He].
  apply orb_false_iff in E as [Hv Hi]. split_and!.
  - unfold s. case_match; auto.
  - by apply negb_false_iff.
  - done.
  - by apply Z.leb_gt.
  - apply andb_false_iff in Hi as [Hi|Hi]; [left; by apply negb_false_iff|right; by apply Z.eqb_neq].
Qed.

Definition encrypted_peer (now : Z) (peer : wireguard_peer) (slot : keypair_slot) : wireguard_peer :=
  let k := keypair_of peer slot in
  let k' := kp_set_last_tx now (kp_set_sending_counter (u64 (kp_sending_counter k + 1)) k) in
  let peer := wp_set_last_tx now (set_keypair peer slot k') in
  if (REKEY_AFTER_MESSAGES <=? kp_sending_counter k')
     || (kp_initiator k' && wireguard_expired now (kp_keypair_millis k') REKEY_AFTER_TIME)
  then wp_set_send_handshake true peer else peer.

Definition padding (plaintext : bytes) : bytes :=
  replicate (Z.to_nat (paddedLength (zlen plaintext) - zlen plaintext)) 0.

(** What a successful [Encrypt] did. *)
Lemma Encrypt_Ok_inv now id plaintext t packet t' reference d :
  tunnel_peer t id = Some (reference, d) →
  WireGuardTunnel_Encrypt now id plaintext t = (Ok packet, t') →
  ∃ slot output,
    let peer := peer_at d (pr_peer reference) in
    let k := keypair_of peer slot in
    FindSendingKeypair now peer = Some slot
    ∧ aead_encrypt (kp_sending_key k) (TransportNonce (kp_sending_counter k))
        (plaintext ++ padding plaintext) = Some output
    ∧ packet = transport_header (kp_remote_index k) (WriteCounter (kp_sending_counter k)) ++ output
    ∧ t' = with_peer t reference d (encrypted_peer now peer slot).
Proof.
  intros Hp. unfold WireGuardTunnel_Encrypt.
  rewrite (ebind_Ok _ _ _ _ _ (GetPeer_spec _ _ _ _ Hp)), (ebind_Ok _ _ _ _ _ (get_peer_spec _ _ _ _ Hp)).
  set (peer := peer_at d (pr_peer reference)).
  destruct (FindSendingKeypair now peer) as [slot|] eqn:Hslot; [|done]. cbv zeta.
  fold (padding plaintext). unfold EncryptTransport at 1.
  destruct (aead_encrypt _ _ _) as [output|] eqn:Henc; [|done].
  destruct (law_aead _ _ _ _ Henc) as [Hlen _]. rewrite Hlen, Z.eqb_refl.
  set (k' := kp_set_sending_counter _ _). rewrite (ebind_Ok _ _ _ (output, k') t) by done.
  cbv beta iota. intros H. exists slot, output. split_and!; [done|done| |].
  - rewrite (ebind_Ok _ _ _ _ _ (put_peer_spec _ _ _ _ _ Hp)) in H. by injection H as <- _.
  - rewrite (ebind_Ok _ _ _ _ _ (put_peer_spec _ _ _ _ _ Hp)) in H. by injection H as _ <-.
Qed.

(** ** Packets from one tunnel to the other *)

(** A plaintext that the tunnel can carry: an IP packet whose length field says how
    long it is, or nothing. *)
Definition framed (plaintext : bytes) : Prop :=
  innerLength plaintext = Ok (zlen plaintext)
  ∧ (plaintext = []
     ∨ ∃ b0 rest, plaintext = b0 :: rest
         ∧ (4 <= zlen plaintext ∧ Z.shiftr b0 4 = 4 ∨ 6 <= zlen plaintext ∧ Z.shiftr b0 4 = 6)).

Lemma innerLength_padding plaintext :
  framed plaintext → innerLength (plaintext ++ padding plaintext) = Ok (zlen plaintext).
Proof.
  intros [Hin [->|(b0 & rest & -> & Hv)]]; [done|].
  set (p := b0 :: rest) in *. set (q := padding p). revert Hin. unfold innerLength.
  pose proof (zlen_nonneg q). rewrite zlen_app.
  rewrite (proj2 (Z.leb_le 1 (zlen p))), (proj2 (Z.leb_le 1 (zlen p + zlen q))) by lia.
  rewrite (rd_app_l p q 0) by lia. change (rd p 0) with (Ok b0). cbn [obind].
  destruct Hv as [[Hlen Hv]|[Hlen Hv]]; rewrite Hv.
  - rewrite (proj2 (Z.leb_le 4 _)), (proj2 (Z.leb_le 4 (zlen p + zlen q))) by lia. simpl.
    by rewrite !(rd_app_l p q) by lia.
  - rewrite !andb_false_r, (proj2 (Z.leb_le 6 (zlen p))), (proj2 (Z.leb_le 6 (zlen p + zlen q))) by lia.
    simpl. by rewrite !(rd_app_l p q) by lia.
Qed.

Definition with_sessions (reference : PeerReference) (sessions : list SessionReplay)
    : PeerReference :=
  {| pr_device := pr_device reference; pr_peer := pr_peer reference;
     pr_replaySessions := sessions |}.

Lemma tunnel_peer_sessions t id reference d sessions :
  tunnel_peer t id = Some (reference, d) →
  tunnel_peer (wt_set_peers (<[id := with_sessions reference sessions]> (wt_Peers t)) t) id
  = Some (with_sessions reference sessions, d).
Proof.
  intros [Hr Hd]%tunnel_peer_Some. apply tunnel_peer_Some. simpl. split; [|done].
  apply list_lookup_insert_eq. by eapply lookup_lt_Some.
Qed.

(** A transport packet that decrypts: the replay window decides. *)
Lemma receive_transport_spec now id packet t reference d slot padded accepted sessions n :
  let peer := peer_at d (pr_peer reference) in
  let k := keypair_of peer slot in
  let c := ReadCounter (header_counter packet) in
  tunnel_peer t id = Some (reference, d) →
  get_peer_keypair_for_idx peer (header_receiver packet) = Some slot →
  kp_receiving_valid k = true →
  wireguard_expired now (kp_keypair_millis k) REJECT_AFTER_TIME = false →
  DecryptTransport (drop (Z.to_nat sizeof_message_transport_data) packet) c k = Some padded →
  ReplayFor_Accept k c (pr_replaySessions reference) = Ok (accepted, sessions) →
  innerLength padded = Ok n → n <= zlen padded →
  ∃ t', receive_transport now id packet t
    = (Ok (if accepted : bool then Some {| rp_Peer := id; rp_Plaintext := take (Z.to_nat n) padded;
                                           rp_Reply := []; rp_SessionEstablished := false |}
           else None), t')
    ∧ tunnel_peer t' id
      = Some (with_sessions reference sessions,
              if accepted then set_peer d (pr_peer reference) (received_update now peer slot) else d).
Proof.
  intros peer k c Hp Hidx Hval Hexp Hdec Hacc Hin Hn. unfold receive_transport.
  rewrite (ebind_Ok _ _ _ _ _ (GetPeer_spec _ _ _ _ Hp)), (ebind_Ok _ _ _ _ _ (get_peer_spec _ _ _ _ Hp)).
  fold peer. rewrite Hidx. fold k. cbv zeta. rewrite Hval, Hexp. cbn [negb orb]. fold c.
  rewrite Hdec. rewrite (ebind_Ok _ _ _ (accepted, sessions) t) by (unfold elift; by rewrite Hacc).
  cbv beta iota. unfold put_sessions. fold (with_sessions reference sessions).
  pose proof (tunnel_peer_sessions t id reference d sessions Hp) as Hp1.
  set (t1 := wt_set_peers _ t) in *. rewrite (ebind_Ok _ _ _ tt t1) by done.
  destruct accepted; cbn [negb]; [|eauto].
  change (put_peer reference) with (@put_peer D _ (with_sessions reference sessions)).
  rewrite (ebind_Ok _ _ _ _ _ (put_peer_spec _ _ _ _ (received_update now peer slot) Hp1)).
  unfold elift. rewrite Hin. unfold ebind at 1. rewrite (proj2 (Z.ltb_ge _ _)) by lia.
  eexists. split; [reflexivity|]. exact (tunnel_peer_with _ _ _ _ _ Hp1).
Qed.

Lemma same_index_refl k : same_index k k.
Proof. done. Qed.

(** After a packet was received through [slot], its index still finds the pair. *)
Lemma received_update_finds now peer slot idx :
  get_peer_keypair_for_idx peer idx = Some slot →
  ∃ slot', get_peer_keypair_for_idx (received_update now peer slot) idx = Some slot'
    ∧ keypair_of (received_update now peer slot) slot'
      = kp_set_last_rx now (keypair_of peer slot).
Proof.
  intros Hidx. unfold received_update.
  set (peer1 := wp_set_last_rx now (set_keypair peer slot (kp_set_last_rx now (keypair_of peer slot)))).
  assert (get_peer_keypair_for_idx peer1 idx = Some slot) as Hidx1.
  { rewrite <- Hidx. apply law_index. intros s. by destruct s, slot. }
  destruct (law_update peer1 slot idx Hidx1) as (slot' & Hs & Hk).
  assert (keypair_of peer1 slot = kp_set_last_rx now (keypair_of peer slot)) as Hpeer1
    by by destruct slot.
  exists slot'. rewrite <- Hpeer1, <- Hk. cbv zeta. case_match; [|done]. split.
  - rewrite <- Hs. apply law_index. intros s. by destruct s.
  - by destruct slot'.
Qed.

(** A transport packet under a key, for the pair with the index [receiver]. *)
Definition sealed (key : bytes) (receiver c : Z) (padded packet : bytes) : Prop :=
  wireguard_get_message_type packet = MESSAGE_TRANSPORT_DATA
  ∧ sizeof_message_transport_data + WIREGUARD_AUTHTAG_LEN <= zlen packet
  ∧ header_receiver packet = receiver ∧ ReadCounter (header_counter packet) = c
  ∧ ∀ k, kp_receiving_key k = key →
      DecryptTransport (drop (Z.to_nat sizeof_message_transport_data) packet) c k = Some padded.

Lemma sealed_output key receiver c padded output :
  in_width 32 receiver → in_width 64 c →
  aead_encrypt key (TransportNonce c) padded = Some output →
  sealed key receiver c padded (transport_header receiver (WriteCounter c) ++ output).
Proof.
  intros Hr Hc Ha. destruct (law_aead _ _ _ _ Ha) as [Hout Hdec].
  pose proof (zlen_nonneg padded) as H0.
  pose proof (law_header_size receiver (WriteCounter c) ltac:(done)) as Hsz.
  split_and!.
  - apply law_header_type; [done|lia].
  - rewrite zlen_app, Hsz. lia.
  - by apply law_header_receiver.
  - rewrite law_header_counter by done. by apply Read_WriteCounter.
  - intros k Hk. rewrite <- Hsz. unfold zlen at 1. rewrite Nat2Z.id, drop_app_length.
    unfold DecryptTransport. by rewrite Hk, Hdec, Hout, Z.eqb_refl.
Qed.

(** A sealed packet that the pair of its index can open: the replay window decides. *)
Lemma ProcessPacketFrom_sealed now id packet t reference d slot key receiver c padded n seen :
  let peer := peer_at d (pr_peer reference) in
  let k := keypair_of peer slot in
  let accepted := spec_accepts (of_session (session_key k) seen) c in
  sealed key receiver c padded packet → 0 <= c < 2 ^ 64 - 1 →
  tunnel_peer t id = Some (reference, d) →
  get_peer_keypair_for_idx peer receiver = Some slot →
  kp_receiving_valid k = true → kp_receiving_key k = key →
  wireguard_expired now (kp_keypair_millis k) REJECT_AFTER_TIME = false →
  sessions_rep (pr_replaySessions reference) seen →
  innerLength padded = Ok n → n <= zlen padded →
  ∃ t' sessions kept, WireGuardTunnel_ProcessPacketFrom now id packet t
    = (Ok (if accepted then Some {| rp_Peer := id; rp_Plaintext := take (Z.to_nat n) padded;
                                    rp_Reply := []; rp_SessionEstablished := false |}
           else None), t')
    ∧ tunnel_peer t' id
      = Some (with_sessions reference sessions,
              if accepted then set_peer d (pr_peer reference) (received_update now peer slot) else d)
    ∧ sessions_rep sessions (if accepted then (session_key k, c) :: kept else kept).
Proof.
  intros peer k accepted (Htype & Hlen & Hrecv & Hcnt & Hdec) Hc Hp Hidx Hval Hkey Hexp Hrep Hin Hn.
  destruct (ReplayFor_Accept_any k c _ seen Hrep Hc) as (sessions & kept & Hacc & Hrep' & _).
  destruct (receive_transport_spec now id packet t reference d slot padded accepted sessions n)
    as (t' & Hrec & Hp'); try (rewrite ?Hrecv, ?Hcnt; by auto).
  exists t', sessions, kept. split_and!; [|done..].
  rewrite <- Hrec. unfold WireGuardTunnel_ProcessPacketFrom.
  rewrite (ebind_Ok _ _ _ _ _ (GetPeer_spec _ _ _ _ Hp)). cbv zeta. rewrite Htype. simpl.
  by rewrite (proj2 (Z.ltb_ge _ _)).
Qed.

(** A pair that is out of time takes nothing. *)
Lemma ProcessPacketFrom_expired now id packet t reference d slot key receiver c padded :
  let peer := peer_at d (pr_peer reference) in
  sealed key receiver c padded packet → tunnel_peer t id = Some (reference, d) →
  get_peer_keypair_for_idx peer receiver = Some slot →
  wireguard_expired now (kp_keypair_millis (keypair_of peer slot)) REJECT_AFTER_TIME = true →
  WireGuardTunnel_ProcessPacketFrom now id packet t = (Ok None, t).
Proof.
  intros peer (Htype & Hlen & Hrecv & _) Hp Hidx Hexp. unfold WireGuardTunnel_ProcessPacketFrom.
  rewrite (ebind_Ok _ _ _ _ _ (GetPeer_spec _ _ _ _ Hp)). cbv zeta. rewrite Htype. simpl.
  rewrite (proj2 (Z.ltb_ge _ _)) by done. unfold receive_transport.
  rewrite (ebind_Ok _ _ _ _ _ (GetPeer_spec _ _ _ _ Hp)), (ebind_Ok _ _ _ _ _ (get_peer_spec _ _ _ _ Hp)).
  fold peer. by rewrite Hrecv, Hidx, Hexp, orb_true_r.
Qed.

(** C3: what one tunnel encrypts the other decrypts, once.  Let a tunnel encrypt an IPv4
    or IPv6 packet whose length field is its length, or an empty keep-alive, with a
    sending counter below 2^64-1 and a 32-bit remote index, and let the receiver's pair
    of that index be valid, not expired, and hold the sending key as its receiving key.
    Let the receiver's retained replay windows be those of the counters they accepted,
    however many they are, and let the counters accepted for this session not refuse the
    packet's.  Then the receiver accepts the packet and returns exactly the plaintext,
    without the padding, also when the session has no window yet and its new one takes
    the place of the oldest of three; and, at whatever time the same packet comes again
    as the next one, it refuses it. *)
Theorem Tunnel_transport_once now id plaintext s packet s' reference d slot
    now' id' t reference' d' slot' seen :
  let k := keypair_of (peer_at d (pr_peer reference)) slot in
  let peer' := peer_at d' (pr_peer reference') in
  let k' := keypair_of peer' slot' in
  tunnel_peer s id = Some (reference, d) →
  FindSendingKeypair now (peer_at d (pr_peer reference)) = Some slot →
  WireGuardTunnel_Encrypt now id plaintext s = (Ok packet, s') →
  0 <= kp_sending_counter k < 2 ^ 64 - 1 → in_width 32 (kp_remote_index k) → framed plaintext →
  tunnel_peer t id' = Some (reference', d') →
  get_peer_keypair_for_idx peer' (kp_remote_index k) = Some slot' →
  kp_receiving_valid k' = true → kp_receiving_key k' = kp_sending_key k →
  wireguard_expired now' (kp_keypair_millis k') REJECT_AFTER_TIME = false →
  sessions_rep (pr_replaySessions reference') seen →
  spec_accepts (of_session (session_key k') seen) (kp_sending_counter k) = true →
  ∃ t', WireGuardTunnel_ProcessPacketFrom now' id' packet t
        = (Ok (Some {| rp_Peer := id'; rp_Plaintext := plaintext; rp_Reply := [];
                       rp_SessionEstablished := false |}), t')
    ∧ ∀ now'', ∃ t'', WireGuardTunnel_ProcessPacketFrom now'' id' packet t' = (Ok None, t'').
Proof.
  intros k peer' k' Hp Hslot Henc Hc Hr Hf Hp' Hidx Hval Hkey Hexp Hrep Hacc.
  destruct (Encrypt_Ok_inv _ _ _ _ _ _ _ _ Hp Henc) as (slot0 & output & Hslot0 & Ha & -> & _).
  rewrite Hslot in Hslot0. injection Hslot0 as <-. fold k in Ha |- *.
  set (c := kp_sending_counter k) in *.
  pose proof (sealed_output _ (kp_remote_index k) c _ _ Hr ltac:(unfold in_width; lia) Ha) as Hsealed.
  set (packet := _ ++ output) in *. set (padded := plaintext ++ padding plaintext) in *.
  pose proof (innerLength_padding plaintext Hf) as Hinner. fold padded in Hinner.
  assert (zlen plaintext <= zlen padded) as Hle.
  { unfold padded. rewrite zlen_app. pose proof (zlen_nonneg (padding plaintext)). lia. }
  destruct (ProcessPacketFrom_sealed now' id' packet t reference' d' slot' _ _ c padded
              (zlen plaintext) seen Hsealed) as (t' & sessions & kept & Hrecv & Hp1 & Hrep1);
    [done..|]. fold peer' k' in Hrecv, Hp1, Hrep1. rewrite Hacc in Hrecv, Hp1, Hrep1.
  exists t'. rewrite Hrecv. split.
  { unfold padded, zlen. by rewrite Nat2Z.id, take_app_length. }
  intros now''. destruct (received_update_finds now' peer' slot' _ Hidx) as (slot1 & Hidx1 & Hk1).
  set (reference1 := with_sessions reference' sessions) in *. set (d1 := set_peer d' _ _) in Hp1.
  assert (peer_at d1 (pr_peer reference1) = received_update now' peer' slot') as Hd1
    by apply law_peer_at_set.
  destruct (wireguard_expired now'' (kp_keypair_millis (keypair_of (peer_at d1 (pr_peer reference1))
              slot1)) REJECT_AFTER_TIME) eqn:Hexp1.
  { exists t'. eapply (ProcessPacketFrom_expired now'' id' packet t' reference1 d1 slot1); eauto.
    by rewrite Hd1. }
  destruct (ProcessPacketFrom_sealed now'' id' packet t' reference1 d1 slot1 _ _ c padded
              (zlen plaintext) ((session_key k', c) :: kept) Hsealed) as (t'' & ? & ? & Hrecv2 & _);
    try first [exact Hexp1 | rewrite ?Hd1, ?Hk1; by auto].
  exists t''. rewrite Hrecv2, Hd1, Hk1. fold k'.
  change (session_key (kp_set_last_rx now' k')) with (session_key k').
  destruct (spec_accepts (of_session (session_key k') ((session_key k', c) :: kept)) c) eqn:Hagain;
    [|done].
  exfalso. apply spec_accepts_fresh in Hagain. apply Hagain.
  rewrite of_session_cons, bool_decide_true by done. by left.
Qed.

(** ** Nonces *)

(** A call that fails leaves the tunnel as it was. *)
Lemma Encrypt_not_Ok now id plaintext t r t' :
  WireGuardTunnel_Encrypt now id plaintext t = (r, t') → (∀ packet, r ≠ Ok packet) →
  ∀ reference d, tunnel_peer t id = Some (reference, d) → t' = t.
Proof.
  intros H Hno reference d Hp. revert H. unfold WireGuardTunnel_Encrypt.
  rewrite (ebind_Ok _ _ _ _ _ (GetPeer_spec _ _ _ _ Hp)), (ebind_Ok _ _ _ _ _ (get_peer_spec _ _ _ _ Hp)).
  destruct (FindSendingKeypair now _) as [slot|]; [|by intros [= _ <-]].
  cbv zeta. unfold ebind at 1, elift, EncryptTransport at 1.
  destruct (aead_encrypt _ _ _) as [output|]; [|by intros [= _ <-]].
  destruct (zlen output =? _); [|by intros [= _ <-]]. cbv beta iota.
  rewrite (ebind_Ok _ _ _ _ _ (put_peer_spec _ _ _ _ _ Hp)). intros [= <- _]. by destruct (Hno _ eq_refl).
Qed.

(** The plaintexts that a sequence of calls encrypts, with the packets they return. *)
Fixpoint packets_of (id : nat) (calls : list (Z * bytes)) (t : WireGuardTunnel D)
    : list (bytes * bytes) :=
  match calls with
  | [] => []
  | (now, plaintext) :: rest =>
      let '(r, t') := WireGuardTunnel_Encrypt now id plaintext t in
      match r with Ok packet => [(plaintext, packet)] | _ => [] end ++ packets_of id rest t'
  end.

(** The bytes after a packet's header are what the cipher makes of the padded plaintext
    under this key and nonce, and the nonce is that of the counter in the header. *)
Definition encrypted_under (key_nonce plaintext_packet : bytes * bytes) : Prop :=
  let '(key, nonce) := key_nonce in
  let '(plaintext, packet) := plaintext_packet in
  aead_encrypt key nonce (plaintext ++ padding plaintext)
  = Some (drop (Z.to_nat sizeof_message_transport_data) packet)
  ∧ nonce = TransportNonce (ReadCounter (header_counter packet)).

Lemma Encrypt_encrypted_under now id plaintext t packet t' reference d :
  tunnel_peer t id = Some (reference, d) →
  WireGuardTunnel_Encrypt now id plaintext t = (Ok packet, t') →
  let peer := peer_at d (pr_peer reference) in
  (∀ slot, FindSendingKeypair now peer = Some slot →
           in_width 64 (kp_sending_counter (keypair_of peer slot))) →
  ∃ slot, FindSendingKeypair now peer = Some slot
    ∧ t' = with_peer t reference d (encrypted_peer now peer slot)
    ∧ encrypted_under (kp_sending_key (keypair_of peer slot),
                       TransportNonce (kp_sending_counter (keypair_of peer slot))) (plaintext, packet).
Proof.
  intros Hp Henc peer Hwidth.
  destruct (Encrypt_Ok_inv _ _ _ _ _ _ _ _ Hp Henc) as (slot & output & Hslot & Ha & -> & ->).
  fold peer in Hslot, Ha |- *. exists slot. split_and!; [done..|]. unfold encrypted_under.
  set (c := kp_sending_counter _) in *. set (receiver := kp_remote_index _).
  pose proof (law_header_size receiver (WriteCounter c) ltac:(done)) as Hsz. split.
  - rewrite <- Hsz. unfold zlen. by rewrite Nat2Z.id, drop_app_length.
  - rewrite law_header_counter by done. by rewrite Read_WriteCounter by by apply Hwidth.
Qed.

Lemma TransportNonce_inj c c' :
  in_width 64 c → in_width 64 c' → TransportNonce c = TransportNonce c' → c = c'.
Proof.
  intros Hc Hc' H. unfold TransportNonce in H. apply app_inv_head in H.
  by rewrite <- (Read_WriteCounter c), <- (Read_WriteCounter c'), H by done.
Qed.

(** The pairs a peer sends with: different keys, counters that fit. *)
Definition sends_ok (peer : wireguard_peer) : Prop :=
  kp_sending_key (wp_curr peer) ≠ kp_sending_key (wp_prev peer)
  ∧ in_width 64 (kp_sending_counter (wp_curr peer)) ∧ in_width 64 (kp_sending_counter (wp_prev peer)).

Lemma encrypted_peer_key now peer slot slot' :
  kp_sending_key (keypair_of (encrypted_peer now peer slot) slot')
  = kp_sending_key (keypair_of peer slot').
Proof. unfold encrypted_peer. cbv zeta. case_match; by destruct slot, slot'. Qed.

Lemma encrypted_peer_counter now peer slot slot' :
  kp_sending_counter (keypair_of (encrypted_peer now peer slot) slot')
  = if bool_decide (slot' = slot) then u64 (kp_sending_counter (keypair_of peer slot') + 1)
    else kp_sending_counter (keypair_of peer slot').
Proof. unfold encrypted_peer. cbv zeta. case_match; by destruct slot, slot'. Qed.

Lemma sends_ok_encrypted now peer slot :
  sends_ok peer → FindSendingKeypair now peer = Some slot →
  sends_ok (encrypted_peer now peer slot)
  ∧ kp_sending_counter (keypair_of (encrypted_peer now peer slot) slot)
    = kp_sending_counter (keypair_of peer slot) + 1.
Proof.
  intros (Hk & Hc & Hp) Hslot. pose proof law_messages as Hmax.
  apply FindSendingKeypair_Some in Hslot as (Hs & _ & _ & Hlt & _).
  assert (u64 (kp_sending_counter (keypair_of peer slot) + 1)
          = kp_sending_counter (keypair_of peer slot) + 1) as Hw.
  { apply wrap_id. unfold in_width in *. destruct Hs as [-> | ->]; simpl in *; lia. }
  split; [|by rewrite encrypted_peer_counter, bool_decide_true].
  pose proof (encrypted_peer_key now peer slot Slot_Curr) as K1.
  pose proof (encrypted_peer_key now peer slot Slot_Prev) as K2.
  pose proof (encrypted_peer_counter now peer slot Slot_Curr) as C1.
  pose proof (encrypted_peer_counter now peer slot Slot_Prev) as C2. simpl in K1, K2, C1, C2.
  unfold sends_ok. rewrite K1, K2, C1, C2. clear K1 K2 C1 C2.
  refine (conj Hk (conj _ _)); case_bool_decide; try done; by apply wrap_range.
Qed.

(** The pairs of key and nonce of a sequence: none twice, and for each session no
    counter below the one it starts from. *)
Lemma packets_of_fresh id calls t reference d :
  tunnel_peer t id = Some (reference, d) → sends_ok (peer_at d (pr_peer reference)) →
  ∃ uses, Forall2 encrypted_under uses (packets_of id calls t) ∧ NoDup uses
    ∧ ∀ key nonce, (key, nonce) ∈ uses →
        ∃ slot c, (slot = Slot_Curr ∨ slot = Slot_Prev) ∧ nonce = TransportNonce c ∧ in_width 64 c
          ∧ key = kp_sending_key (keypair_of (peer_at d (pr_peer reference)) slot)
          ∧ kp_sending_counter (keypair_of (peer_at d (pr_peer reference)) slot) <= c.
Proof.
  revert t d. induction calls as [|[now plaintext] calls IH]; intros t d Hp Hok; simpl.
  { exists []. split_and!; [constructor..|set_solver]. }
  destruct (WireGuardTunnel_Encrypt now id plaintext t) as [r t'] eqn:Henc.
  destruct r as [packet|e|].
  2,3: rewrite (Encrypt_not_Ok _ _ _ _ _ _ Henc ltac:(done) _ _ Hp); by apply IH.
  set (peer := peer_at d (pr_peer reference)) in *.
  assert (∀ slot, FindSendingKeypair now peer = Some slot →
                  (slot = Slot_Curr ∨ slot = Slot_Prev)
                  ∧ in_width 64 (kp_sending_counter (keypair_of peer slot))) as Hwidth.
  { intros slot (Hs & _)%FindSendingKeypair_Some. split; [done|].
    destruct Hok as (_ & ? & ?), Hs as [-> | ->]; done. }
  destruct (Encrypt_encrypted_under _ _ _ _ _ _ _ _ Hp Henc) as (slot & Hslot & -> & Hunder);
    [intros slot Hs; by apply Hwidth|]. fold peer in Hslot, Hunder |- *.
  destruct (Hwidth slot Hslot) as [Hs Hck]. set (k := keypair_of peer slot) in *.
  pose proof (sends_ok_encrypted now peer slot Hok Hslot) as [Hok' Hnext]. fold k in Hnext.
  destruct (IH _ _ (tunnel_peer_with t id reference d (encrypted_peer now peer slot) Hp))
    as (uses & Huses & Hnd & Hlow); [by rewrite law_peer_at_set|]. rewrite law_peer_at_set in Hlow.
  exists ((kp_sending_key k, TransportNonce (kp_sending_counter k)) :: uses).
  split_and!; [by constructor| |].
  - apply NoDup_cons. split; [|done]. intros (slot' & c & Hs' & Hn & Hc & Hkey & Hle)%Hlow.
    apply TransportNonce_inj in Hn; [|done..]. rewrite encrypted_peer_key in Hkey.
    assert (slot' = slot) as ->.
    { destruct Hok as (Hk & _), Hs as [-> | ->], Hs' as [-> | ->]; try done; unfold k in Hkey;
        simpl in Hkey; congruence. }
    rewrite Hnext in Hle. lia.
  - intros key nonce [[= -> ->]|Hin]%elem_of_cons.
    { exists slot, (kp_sending_counter k). split_and!; try done; apply Hck. }
    apply Hlow in Hin as (slot' & c & Hs' & Hn & Hc & Hkey & Hle). exists slot', c.
    rewrite encrypted_peer_key in Hkey. split_and!; try done.
    destruct (decide (slot' = slot)) as [->|Hne]; [fold k; lia|].
    by rewrite encrypted_peer_counter, bool_decide_false in Hle.
Qed.

(** C8: no nonce is used twice.  In any sequence of calls of [Encrypt] for a peer, at
    whatever times and with whatever failures, the packets that the calls return are the
    cipher's outputs, for any cipher, under pairwise different pairs of key and nonce:
    the bytes after each packet's header are the encryption of that call's plaintext,
    padded, under the pair's key and nonce, where the key is the sending key of the
    peer's current or previous session and the nonce is that of the counter the packet's
    header carries.  It is assumed that these two sessions start with different sending
    keys and with 64-bit counters. *)
Theorem Tunnel_Encrypt_nonces_unique id calls t reference d :
  let peer := peer_at d (pr_peer reference) in
  tunnel_peer t id = Some (reference, d) → sends_ok peer →
  ∃ uses, Forall2 encrypted_under uses (packets_of id calls t) ∧ NoDup uses
    ∧ Forall (fun use => use.1 = kp_sending_key (wp_curr peer)
                         ∨ use.1 = kp_sending_key (wp_prev peer)) uses.
Proof.
  intros peer Hp Hok. destruct (packets_of_fresh id calls t reference d Hp Hok) as (uses & Hu & Hnd & Hlow).
  exists uses. split_and!; [done..|]. apply Forall_forall.
  intros [key nonce] (slot & c & Hs & _ & _ & -> & _)%Hlow. destruct Hs as [-> | ->]; [by left|by right].
Qed.

(** The timers keep a wanted session alive and spare the network.  A peer that is
    active and has no usable session is due for a handshake as soon as the last
    initiation is [REKEY_TIMEOUT] old, and never earlier; a keep-alive is asked for only
    when a usable session is there to encrypt it. *)
Theorem Tunnel_UpdateTimers_actions now id t reference d :
  let peer := peer_at d (pr_peer reference) in
  let allowed := wp_last_initiation_tx peer = 0
                 ∨ wireguard_expired now (wp_last_initiation_tx peer) REKEY_TIMEOUT = true in
  tunnel_peer t id = Some (reference, d) →
  ∃ action t' d', WireGuardTunnel_UpdateTimers now id t = (Ok action, t')
    ∧ tunnel_peer t' id = Some (reference, d')
    ∧ (wp_active peer = true → FindSendingKeypair now peer = None → allowed →
       action = Timer_SendHandshake)
    ∧ (action = Timer_SendHandshake → allowed)
    ∧ (action = Timer_SendKeepalive →
       is_Some (FindSendingKeypair now (peer_at d' (pr_peer reference)))
       ∧ wireguard_expired now (wp_last_tx peer) (wp_keepalive_interval peer) = true).
Proof.
  intros peer allowed Hp. unfold WireGuardTunnel_UpdateTimers.
  rewrite (ebind_Ok _ _ _ _ _ (GetPeer_spec _ _ _ _ Hp)), (ebind_Ok _ _ _ _ _ (get_peer_spec _ _ _ _ Hp)).
  fold peer. cbv zeta. set (peer' := if _ && _ then set_keypair peer Slot_Curr _ else peer).
  assert (wp_active peer' = wp_active peer ∧ wp_last_initiation_tx peer' = wp_last_initiation_tx peer
          ∧ wp_last_tx peer' = wp_last_tx peer
          ∧ wp_keepalive_interval peer' = wp_keepalive_interval peer
          ∧ (FindSendingKeypair now peer = None → FindSendingKeypair now peer' = None))
    as (Hact & Hinit & Htx & Hkeep & Hfind).
  { unfold peer'. case_match; [|done]. split_and!; try done. intros _.
    unfold FindSendingKeypair. simpl. rewrite law_destroy. simpl. by rewrite law_destroy. }
  rewrite (ebind_Ok _ _ _ _ _ (put_peer_spec _ _ _ _ peer' Hp)).
  pose proof (tunnel_peer_with t id reference d peer' Hp) as Hp'.
  rewrite Hact, Hinit, Htx, Hkeep. set (usable := bool_decide (is_Some (FindSendingKeypair now peer'))).
  assert ((wp_last_initiation_tx peer =? 0)
          || wireguard_expired now (wp_last_initiation_tx peer) REKEY_TIMEOUT = true ↔ allowed) as Hall.
  { unfold allowed. by rewrite orb_true_iff, Z.eqb_eq. }
  destruct (_ && (_ || wireguard_expired now (wp_last_initiation_tx peer) _)) eqn:Hhs.
  { do 3 eexists. split; [reflexivity|]. split; [exact Hp'|]. split_and!; [done| |done].
    intros _. apply Hall. by apply andb_true_iff in Hhs as [_ ?]. }
  assert (wp_active peer = true → FindSendingKeypair now peer = None → allowed → False) as Hno.
  { intros Ha Hn%Hfind Hal%Hall. rewrite Ha, Hal in Hhs. unfold usable in Hhs.
    rewrite Hn, andb_true_r in Hhs. rewrite bool_decide_false in Hhs by (by intros [? ?]).
    simpl in Hhs. by rewrite orb_true_r in Hhs. }
  destruct (_ && usable && _) eqn:Hka; do 3 eexists; (split; [reflexivity|]); (split; [exact Hp'|]);
    split_and!; try done; try (intros; exfalso; by apply Hno).
  intros _. rewrite law_peer_at_set. apply andb_true_iff in Hka as [Hka ?].
  apply andb_true_iff in Hka as [_ Hu]. split; [by apply bool_decide_eq_true in Hu|done].
Qed.

End transport.

(** ** A concrete library *)

(** A library that satisfies the laws: a device is the function from its slots to
    its peers, and the cipher appends sixteen zeros. *)
Definition demo_keypair_none : wireguard_keypair := {|
  kp_valid := false; kp_initiator := false; kp_keypair_millis := 0; kp_sending_key := [];
  kp_sending_counter := 0; kp_receiving_valid := false; kp_receiving_key := []; kp_last_tx := 0;
  kp_last_rx := 0; kp_local_index := 0; kp_remote_index := 0 |}.

Definition demo_wg_peer (initiator : bool) (local remote : Z) (sending receiving : bytes)
    : wireguard_peer :=
  let k := {| kp_valid := true; kp_initiator := initiator; kp_keypair_millis := 1000;
              kp_sending_key := sending; kp_sending_counter := 0; kp_receiving_valid := true;
              kp_receiving_key := receiving; kp_last_tx := 0; kp_last_rx := 0;
              kp_local_index := local; kp_remote_index := remote |} in
  {| wp_curr := if initiator then k else demo_keypair_none; wp_prev := demo_keypair_none;
     wp_next := if initiator then demo_keypair_none else k; wp_active := true;
     wp_keepalive_interval := 25; wp_send_handshake := false; wp_last_initiation_tx := 0;
     wp_last_tx := 0; wp_last_rx := 0 |}.

Definition demo_get_idx (peer : wireguard_peer) (idx : Z) : option keypair_slot :=
  if kp_valid (wp_curr peer) && (kp_local_index (wp_curr peer) =? idx) then Some Slot_Curr
  else if kp_valid (wp_next peer) && (kp_local_index (wp_next peer) =? idx) then Some Slot_Next
  else if kp_valid (wp_prev peer) && (kp_local_index (wp_prev peer) =? idx) then Some Slot_Prev
  else None.

(** The pair that was next becomes current. *)
Definition demo_update (peer : wireguard_peer) (slot : keypair_slot) : wireguard_peer :=
  match slot with
  | Slot_Next =>
      set_keypair (set_keypair (set_keypair peer Slot_Prev (wp_curr peer)) Slot_Curr (wp_next peer))
        Slot_Next demo_keypair_none
  | _ => peer
  end.

Definition demo_device (peer : wireguard_peer) : nat → wireguard_peer := fun _ => peer.

#[local] Instance demo_wireguard : Wireguard (nat → wireguard_peer) := {|
  wireguard_device_init _ := Some (demo_device (demo_wg_peer true 1 2 [] []));
  peer_alloc _ := Some 0%nat;
  wireguard_peer_init d _ _ _ := (true, d);
  peer_at d i := d i;
  set_peer d i p := fun j => if (j =? i)%nat then p else d j;
  wireguard_create_handshake_initiation d _ := (Some (1 :: replicate 147 0), d);
  wireguard_process_initiation_message d _ := (Some 0%nat, d);
  wireguard_create_handshake_response d _ := (Some (2 :: replicate 91 0), d);
  wireguard_process_handshake_response d _ _ := (true, d);
  wireguard_process_cookie_message d _ _ := (false, d);
  wireguard_start_session d _ _ := d;
  get_peer_keypair_for_idx := demo_get_idx;
  keypair_update := demo_update;
  keypair_destroy _ := demo_keypair_none;
  wireguard_expired now created seconds := seconds * 1000 <=? now - created;
  wireguard_get_message_type packet :=
    match packet with
    | 1 :: _ => MESSAGE_HANDSHAKE_INITIATION
    | 2 :: _ => MESSAGE_HANDSHAKE_RESPONSE
    | 3 :: _ => MESSAGE_COOKIE_REPLY
    | 4 :: _ => MESSAGE_TRANSPORT_DATA
    | _ => MESSAGE_INVALID
    end;
  transport_header receiver counter := [4; 0; 0; 0] ++ be_encode 4 receiver ++ counter;
  header_receiver packet := be_decode (take 4 (drop 4 packet));
  header_counter packet := take 8 (drop 8 packet);
  sizeof_message_handshake_initiation := 148;
  sizeof_message_handshake_response := 92;
  sizeof_message_cookie_reply := 64;
  sizeof_message_transport_data := 16;
  WIREGUARD_AUTHTAG_LEN := 16;
  REJECT_AFTER_TIME := 180;
  REKEY_AFTER_TIME := 120;
  REKEY_TIMEOUT := 5;
  REJECT_AFTER_MESSAGES := 2 ^ 64 - 2 ^ 13 - 1;
  REKEY_AFTER_MESSAGES := 2 ^ 60;
  aead_encrypt _ _ message := Some (message ++ replicate 16 0);
  aead_decrypt _ _ output := Some (take (length output - 16) output)
|}.

#[local] Instance demo_wireguard_laws : WireguardLaws (nat → wireguard_peer).
Proof.
  split.
  - intros d i p. simpl. by rewrite Nat.eqb_refl.
  - intros d i j p Hne. simpl. by rewrite (proj2 (Nat.eqb_neq _ _)).
  - intros peer peer' idx H. simpl. unfold demo_get_idx.
    destruct (H Slot_Curr) as [Hv1 Hi1], (H Slot_Next) as [Hv2 Hi2], (H Slot_Prev) as [Hv3 Hi3].
    simpl in *. by rewrite Hv1, Hi1, Hv2, Hi2, Hv3, Hi3.
  - intros peer slot idx. simpl. unfold demo_get_idx, demo_update. intros H.
    destruct (kp_valid (wp_curr peer) && _) eqn:Hc; [injection H as <-; exists Slot_Curr; by rewrite Hc|].
    destruct (kp_valid (wp_next peer) && _) eqn:Hn;
      [injection H as <-; exists Slot_Curr; simpl; by rewrite Hn|].
    destruct (kp_valid (wp_prev peer) && _) eqn:Hv; [|done]. injection H as <-.
    exists Slot_Prev. by rewrite Hc, Hn, Hv.
  - done.
  - intros receiver counter Hc. unfold zlen. simpl. rewrite Hc. done.
  - intros receiver counter rest Hr Hc.
    change (be_decode (take 4 (be_encode 4 receiver ++ counter ++ rest)) = receiver).
    rewrite take_app_length'; [|by rewrite length_be_encode]. rewrite be_decode_encode.
    by apply Z.mod_small.
  - intros receiver counter rest Hc. change (take 8 (counter ++ rest) = counter).
    by rewrite take_app_length'.
  - done.
  - by split.
  - intros key nonce message output [= <-]. split.
    + rewrite zlen_app. done.
    + change (Some (take (length (message ++ replicate 16 0) - 16) (message ++ replicate 16 0))
              = Some message).
      rewrite length_app, length_replicate, Nat.add_sub, take_app_length. done.
  - intros. by eexists.
Qed.

Definition demo_tunnel (peer : wireguard_peer) : WireGuardTunnel (nat → wireguard_peer) := {|
  wt_PrivateKey := []; wt_Devices := [demo_device peer];
  wt_Peers := [{| pr_device := 0; pr_peer := 0; pr_replaySessions := [] |}] |}.

Definition demo_sender := demo_tunnel (demo_wg_peer true 11 22 [1; 2; 3] [4; 5; 6]).

(** A receiver that retains the windows of three other sessions. *)
Definition demo_sessions : list SessionReplay :=
  map (fun i => {| sr_LocalIndex := i; sr_StartedAt := 1; sr_Window := ReplayWindow_new |}) [7; 8; 9].

Definition demo_receiver : WireGuardTunnel (nat → wireguard_peer) :=
  wt_set_peers [{| pr_device := 0; pr_peer := 0; pr_replaySessions := demo_sessions |}]
    (demo_tunnel (demo_wg_peer false 22 11 [4; 5; 6] [1; 2; 3])).

Lemma demo_sessions_rep : sessions_rep demo_sessions [].
Proof.
  constructor; [apply (bool_decide_unpack _); vm_compute; exact I| |done].
  intros s Hs. apply list_elem_of_fmap in Hs as (i & -> & _). apply replay_rep_new.
Qed.

(** An IPv4 packet of 21 bytes. *)
Definition demo_ip : bytes := [0x45; 0; 0; 21] ++ replicate 16 7 ++ [9].

Definition demo_packet : bytes :=
  transport_header 22 (WriteCounter 0) ++ demo_ip ++ replicate 27 0.

Lemma Tunnel_transport_once_witness :
  (WireGuardTunnel_Encrypt 2000 0 demo_ip demo_sender).1 = Ok demo_packet
  ∧ ∃ t', WireGuardTunnel_ProcessPacketFrom 3000 0 demo_packet demo_receiver
          = (Ok (Some {| rp_Peer := 0; rp_Plaintext := demo_ip; rp_Reply := [];
                         rp_SessionEstablished := false |}), t')
      ∧ ∀ now'', ∃ t'', WireGuardTunnel_ProcessPacketFrom now'' 0 demo_packet t' = (Ok None, t'').
Proof.
  split; [vm_compute; reflexivity|].
  eapply (Tunnel_transport_once 2000 0 demo_ip demo_sender demo_packet _
            {| pr_device := 0; pr_peer := 0; pr_replaySessions := [] |}
            (demo_device (demo_wg_peer true 11 22 [1; 2; 3] [4; 5; 6])) Slot_Curr
            3000 0 demo_receiver {| pr_device := 0; pr_peer := 0; pr_replaySessions := demo_sessions |}
            (demo_device (demo_wg_peer false 22 11 [4; 5; 6] [1; 2; 3])) Slot_Next []).
  - reflexivity.
  - vm_compute. reflexivity.
  - vm_compute. reflexivity.
  - split; vm_compute; [discriminate|reflexivity].
  - split; vm_compute; [discriminate|reflexivity].
  - split; [vm_compute; reflexivity|]. right. exists 0x45, (drop 1 demo_ip).
    split; [reflexivity|]. left. split; vm_compute; [discriminate|reflexivity].
  - reflexivity.
  - reflexivity.
  - reflexivity.
  - reflexivity.
  - reflexivity.
  - exact demo_sessions_rep.
  - reflexivity.
Defined.

Lemma Tunnel_sessions_no_replay_witness :
  let k i := {| kp_valid := true; kp_initiator := true; kp_keypair_millis := 5; kp_sending_key := [];
                kp_sending_counter := 0; kp_receiving_valid := true; kp_receiving_key := [];
                kp_last_tx := 0; kp_last_rx := 0; kp_local_index := i; kp_remote_index := 0 |} in
  ∃ verdicts sessions, replay_sessions_run [] [(k 1, 3); (k 2, 3); (k 1, 3); (k 1, 2)]
                       = Ok (verdicts, sessions)
    ∧ NoDup (accepted_events [(k 1, 3); (k 2, 3); (k 1, 3); (k 1, 2)] verdicts).
Proof.
  intros k. apply (Tunnel_sessions_no_replay [(1, 5); (2, 5)]).
  - apply Nat.leb_le. reflexivity.
  - repeat constructor; simpl; try (by left); try (right; by left); try lia.
Defined.

Lemma Tunnel_Encrypt_nonces_unique_witness :
  let calls := [(2000, []); (2001, demo_ip); (900000, demo_ip); (2002, [])] in
  let peer := demo_wg_peer true 11 22 [1; 2; 3] [4; 5; 6] in
  length (packets_of 0 calls demo_sender) = 3%nat
  ∧ ∃ uses, Forall2 encrypted_under uses (packets_of 0 calls demo_sender) ∧ NoDup uses
      ∧ Forall (fun use => use.1 = kp_sending_key (wp_curr peer)
                           ∨ use.1 = kp_sending_key (wp_prev peer)) uses.
Proof.
  intros calls peer. split; [vm_compute; reflexivity|].
  refine (Tunnel_Encrypt_nonces_unique 0 calls demo_sender
            {| pr_device := 0; pr_peer := 0; pr_replaySessions := [] |} (demo_device peer) eq_refl _).
  split; [discriminate|]. split; split; vm_compute; first [discriminate | reflexivity].
Defined.

Lemma Tunnel_UpdateTimers_actions_witness :
  ∃ action t' d', WireGuardTunnel_UpdateTimers 900000 0 demo_sender = (Ok action, t')
    ∧ tunnel_peer t' 0 = Some ({| pr_device := 0; pr_peer := 0; pr_replaySessions := [] |}, d')
    ∧ action = Timer_SendHandshake.
Proof.
  destruct (Tunnel_UpdateTimers_actions 900000 0 demo_sender
              {| pr_device := 0; pr_peer := 0; pr_replaySessions := [] |}
              (demo_device (demo_wg_peer true 11 22 [1; 2; 3] [4; 5; 6])))
    as (action & t' & d' & H & Hp & Hact & _); [reflexivity|].
  exists action, t', d'. split; [exact H|]. split; [exact Hp|].
  apply Hact; [reflexivity|vm_compute; reflexivity|left; reflexivity].
Defined.
