(* ===== verification/Router.v ===== *)
(** * The WireGuard router

    src/core/wgengine/wireguard/Router.cpp: the peers of the network map, the queue of
    plaintext packets that wait for a session, and the choice of the peer for a packet,
    over any tunnel that implements the class [TunnelOps]; [WireGuardTunnel] of Tunnel
    is one.  [boost::algorithm::unhex] and lwIP's [ip6addr_aton] are parameters.
    Logging, and the set of destinations that were already reported, are left out. *)

From S2P Require Import Prelude Text Net Packet Envelope Tunnel NetMap.

(** ** The tunnel as the router sees it *)

Class TunnelOps (T : Type) := {
  tun_AddPeer : bytes → eff T nat;
  tun_ActivatePeer : nat → eff T unit;
  tun_CreateHandshake : Z → nat → eff T bytes;
  tun_ProcessPacketFrom : Z → nat → bytes → eff T (option ReceivedPacket);
  tun_ProcessPacket : Z → bytes → eff T (option ReceivedPacket);
  tun_Encrypt : Z → nat → bytes → eff T bytes;
  tun_UpdateTimers : Z → nat → eff T TimerAction;
  tun_HasSession : Z → nat → eff T bool
}.

(** What the tunnel promises: it numbers its peers, asking for a session changes
    nothing, and a peer with a session can be sent to. *)
Class TunnelLaws (T : Type) `{!TunnelOps T} := {
  tun_ok : T → Prop;
  tun_peers : T → nat;
  tun_AddPeer_law key t : tun_ok t →
    wp (tun_AddPeer key) (fun r t' => tun_ok t' ∧
      match r with
      | Ok id => id = tun_peers t ∧ tun_peers t' = S (tun_peers t)
      | _ => tun_peers t' = tun_peers t
      end) t;
  tun_ActivatePeer_law id t : tun_ok t →
    wp (tun_ActivatePeer id) (fun r t' => tun_ok t' ∧ tun_peers t' = tun_peers t) t;
  tun_CreateHandshake_law now id t : tun_ok t →
    wp (tun_CreateHandshake now id) (fun r t' => tun_ok t' ∧ tun_peers t' = tun_peers t) t;
  tun_ProcessPacketFrom_law now id packet t : tun_ok t →
    wp (tun_ProcessPacketFrom now id packet) (fun r t' => tun_ok t' ∧ tun_peers t' = tun_peers t) t;
  tun_ProcessPacket_law now packet t : tun_ok t →
    wp (tun_ProcessPacket now packet) (fun r t' => tun_ok t' ∧ tun_peers t' = tun_peers t) t;
  tun_Encrypt_law now id plaintext t : tun_ok t →
    wp (tun_Encrypt now id plaintext) (fun r t' => tun_ok t' ∧ tun_peers t' = tun_peers t
      ∧ (tun_HasSession now id t = (Ok true, t) → ∃ packet, r = Ok packet)) t;
  tun_UpdateTimers_law now id t : tun_ok t →
    wp (tun_UpdateTimers now id) (fun r t' => tun_ok t' ∧ tun_peers t' = tun_peers t) t;
  tun_HasSession_law now id t : tun_ok t → (id < tun_peers t)%nat →
    ∃ b, tun_HasSession now id t = (Ok b, t)
}.

(** ** State *)

Definition MaximumPendingPacketsPerPeer : Z := 1024.
Definition MaximumPendingBytesPerPeer : Z := 4 * 1024 * 1024.

Record RouterPeer := {
  rt_Config : PeerConfig;
  rt_PublicKey : bytes;
  rt_TunnelPeer : nat;
  rt_Active : bool;
  rt_Pending : list bytes;
  rt_PendingBytes : Z
}.

Definition rt_set_config c p := {|
  rt_Config := c; rt_PublicKey := rt_PublicKey p; rt_TunnelPeer := rt_TunnelPeer p;
  rt_Active := rt_Active p; rt_Pending := rt_Pending p; rt_PendingBytes := rt_PendingBytes p |}.
Definition rt_set_active b p := {|
  rt_Config := rt_Config p; rt_PublicKey := rt_PublicKey p; rt_TunnelPeer := rt_TunnelPeer p;
  rt_Active := b; rt_Pending := rt_Pending p; rt_PendingBytes := rt_PendingBytes p |}.
Definition rt_set_pending l n p := {|
  rt_Config := rt_Config p; rt_PublicKey := rt_PublicKey p; rt_TunnelPeer := rt_TunnelPeer p;
  rt_Active := rt_Active p; rt_Pending := l; rt_PendingBytes := n |}.

(** [Routes], pointers into [Peers], are indices. *)
Record WireGuardRouter (T : Type) := {
  wr_Tunnel : T;
  wr_Peers : list RouterPeer;
  wr_Routes : list nat;
  wr_ExitNode : bytes
}.
Arguments wr_Tunnel {T} _.
Arguments wr_Peers {T} _.
Arguments wr_Routes {T} _.
Arguments wr_ExitNode {T} _.

Record TransportPacket := {
  tp_Peer : bytes;
  tp_Payload : bytes;
  tp_Control : bool;
  tp_ExpectResponse : bool;
  tp_Handshake : bool
}.

Record ReceiveResult := {
  rr_Source : bytes;
  rr_Outbound : list TransportPacket;
  rr_Plaintext : list bytes;
  rr_SessionEstablished : bool;
  rr_Accepted : bool
}.

Definition ReceiveResult_none (source : bytes) : ReceiveResult := {|
  rr_Source := source; rr_Outbound := []; rr_Plaintext := [];
  rr_SessionEstablished := false; rr_Accepted := false |}.

(** [Bytes32{}] *)
Definition zero_key : bytes := replicate 32 0.

(** ** Queues *)

(** The loop that makes room in the queue. *)
Fixpoint queue_room (pending : list bytes) (pendingBytes size : Z) : list bytes * Z :=
  match pending with
  | [] => ([], pendingBytes)
  | front :: rest =>
      if (MaximumPendingPacketsPerPeer <=? zlen pending)
         || (MaximumPendingBytesPerPeer <? pendingBytes + size)
      then queue_room rest (pendingBytes - zlen front) size
      else (pending, pendingBytes)
  end.

Definition Router_Queue (peer : RouterPeer) (plaintext : bytes) : RouterPeer :=
  let '(pending, pendingBytes) := queue_room (rt_Pending peer) (rt_PendingBytes peer) (zlen plaintext) in
  if zlen plaintext <=? MaximumPendingBytesPerPeer
  then rt_set_pending (pending ++ [plaintext]) (pendingBytes + zlen plaintext) peer
  else rt_set_pending pending pendingBytes peer.

Definition Router_Wrap (peer : RouterPeer) (payload : bytes) (control expectResponse handshake : bool)
    : TransportPacket := {|
  tp_Peer := rt_PublicKey peer; tp_Payload := payload; tp_Control := control;
  tp_ExpectResponse := expectResponse; tp_Handshake := handshake |}.

Section router.
  Context (unhex : bytes → option bytes) (ip6addr_aton : bytes → option bytes).
  Context {T : Type} `{!TunnelOps T}.

Abbreviation router := (WireGuardRouter T).

Definition wr_set_tunnel (tunnel : T) (s : router) : router :=
  {| wr_Tunnel := tunnel; wr_Peers := wr_Peers s; wr_Routes := wr_Routes s;
     wr_ExitNode := wr_ExitNode s |}.
Definition wr_set_peers (peers : list RouterPeer) (s : router) : router :=
  {| wr_Tunnel := wr_Tunnel s; wr_Peers := peers; wr_Routes := wr_Routes s;
     wr_ExitNode := wr_ExitNode s |}.
Definition wr_set_routes (routes : list nat) (s : router) : router :=
  {| wr_Tunnel := wr_Tunnel s; wr_Peers := wr_Peers s; wr_Routes := routes;
     wr_ExitNode := wr_ExitNode s |}.
Definition wr_set_exit (exitNode : bytes) (s : router) : router :=
  {| wr_Tunnel := wr_Tunnel s; wr_Peers := wr_Peers s; wr_Routes := wr_Routes s;
     wr_ExitNode := exitNode |}.

(** A call on [Tunnel]. *)
Definition with_tunnel {A} (m : eff T A) : eff router A := fun s =>
  let '(r, tunnel) := m (wr_Tunnel s) in (r, wr_set_tunnel tunnel s).

(** The peer a pointer refers to, and a write of it. *)
Definition at_peer (i : nat) : eff router RouterPeer :=
  let* s := eget in elift (rd (wr_Peers s) (Z.of_nat i)).
Definition put_router_peer (i : nat) (peer : RouterPeer) : eff router unit :=
  emod (fun s => wr_set_peers (<[i := peer]> (wr_Peers s)) s).

(** ** Peers *)

Definition HexToBytes (text : bytes) : outcome bytes :=
  match unhex text with
  | Some b => Ok b
  | None => Throw (RuntimeError "Invalid hexadecimal string.")
  end.

Definition NodeKeyPrefix : bytes := lit "nodekey:".

Definition ParseNodeKey (text : bytes) : outcome bytes :=
  if negb (starts_with NodeKeyPrefix text)
  then Throw (InvalidArgument "Invalid node key prefix.") else
  let! b := HexToBytes (drop (length NodeKeyPrefix) text) in
  if negb (zlen b =? 32) then Throw (InvalidArgument "Invalid node key length.") else Ok b.

Fixpoint update_peers (configs : list PeerConfig) : eff router unit :=
  match configs with
  | [] => eret tt
  | config :: rest =>
      match ParseNodeKey (pc_key config) with
      | Ok publicKey =>
          let* s := eget in
          match find_index (fun peer => bool_decide (rt_PublicKey peer = publicKey)) (wr_Peers s) with
          | None =>
              let* tunnelPeer := with_tunnel (tun_AddPeer publicKey) in
              emod (fun s => wr_set_peers (wr_Peers s ++ [{|
                rt_Config := config; rt_PublicKey := publicKey; rt_TunnelPeer := tunnelPeer;
                rt_Active := true; rt_Pending := []; rt_PendingBytes := 0 |}]) s) ;;*
              emod (fun s => wr_set_routes (wr_Routes s ++ [(length (wr_Peers s) - 1)%nat]) s) ;;*
              update_peers rest
          | Some found =>
              let* peer := at_peer found in
              put_router_peer found (rt_set_active true (rt_set_config config peer)) ;;*
              emod (fun s => wr_set_routes (wr_Routes s ++ [found]) s) ;;*
              update_peers rest
          end
      | Throw _ => update_peers rest
      | UB => elift UB
      end
  end.

Definition WireGuardRouter_UpdatePeers (configs : list PeerConfig) (exitNode : bytes)
    : eff router unit :=
  emod (wr_set_exit exitNode) ;;*
  emod (fun s => wr_set_peers (map (rt_set_active false) (wr_Peers s)) s) ;;*
  emod (wr_set_routes []) ;;*
  update_peers configs.

(** The constructor, from the tunnel that [Tunnel(privateKey)] made. *)
Definition WireGuardRouter_new (tunnel : T) (peers : list PeerConfig) (exitNode : bytes)
    : outcome unit * router :=
  WireGuardRouter_UpdatePeers peers exitNode
    {| wr_Tunnel := tunnel; wr_Peers := []; wr_Routes := []; wr_ExitNode := exitNode |}.

(** ** Routes *)

Definition route_network (configs : list PeerConfig) : NetworkConfig := {|
  nm_selfAddress := []; nm_selfAddresses := []; nm_selfName := []; nm_capabilities := [];
  nm_dnsResolver := []; nm_dnsDomains := []; nm_dnsDefaultResolvers := []; nm_dnsRoutes := [];
  nm_derpRegion := 0; nm_derpCode := []; nm_peers := configs |}.

(** The configurations of the peers that [Routes] points to. *)
Fixpoint route_configs (peers : list RouterPeer) (routes : list nat) : outcome (list PeerConfig) :=
  match routes with
  | [] => Ok []
  | i :: rest =>
      let! peer := rd peers (Z.of_nat i) in
      let! configs := route_configs peers rest in
      Ok (rt_Config peer :: configs)
  end.

Definition Router_FindRoute (packet : bytes) (s : router) : outcome (option nat) :=
  let! destination := Ipv4Packet_Destination packet in
  let! configs := route_configs (wr_Peers s) (wr_Routes s) in
  let network := route_network configs in
  match destination with
  | None =>
      let! envelope := ParseIpEnvelope packet in
      match envelope with
      | Some envelope =>
          if negb (bool_decide (ia_family (env_Destination envelope) = Family_Ipv6)) then Ok None else
          match NetworkConfig_FindPeerAddress ip6addr_aton network (env_Destination envelope) with
          | Some node => let! i := rd (wr_Routes s) (Z.of_nat node) in Ok (Some i)
          | None => Ok None
          end
      | None => Ok None
      end
  | Some destination =>
      let exit := match wr_ExitNode s with
                  | [] => None
                  | exitNode => NetworkConfig_FindExitNode network exitNode true
                  end in
      let! route := NetworkConfig_FindRoute network destination exit in
      match route with
      | Some route => let! i := rd (wr_Routes s) (Z.of_nat route) in Ok (Some i)
      | None => Ok None
      end
  end.

Definition Router_FindPeerByKey (key : bytes) (s : router) : option nat :=
  find_index (fun peer => rt_Active peer && bool_decide (rt_PublicKey peer = key)) (wr_Peers s).

Definition Router_FindPeerByTunnel (tunnelPeer : nat) (s : router) : option nat :=
  find_index (fun peer => rt_Active peer && (rt_TunnelPeer peer =? tunnelPeer)%nat) (wr_Peers s).

(** ** Sending *)

(** The loop ends with the queue: [todo] is its length. *)
Fixpoint flush_loop (todo : nat) (now : Z) (i : nat) (result : list TransportPacket)
    : eff router (list TransportPacket) :=
  match todo with
  | O => eret result
  | S todo' =>
      let* peer := at_peer i in
      let* session := with_tunnel (tun_HasSession now (rt_TunnelPeer peer)) in
      if negb session then eret result else
      match rt_Pending peer with
      | [] => eret result
      | plaintext :: rest =>
          put_router_peer i (rt_set_pending rest (rt_PendingBytes peer - zlen plaintext) peer) ;;*
          let* packet := with_tunnel (tun_Encrypt now (rt_TunnelPeer peer) plaintext) in
          flush_loop todo' now i (result ++ [Router_Wrap peer packet false true false])
      end
  end.

Definition Router_Flush (now : Z) (i : nat) : eff router (list TransportPacket) :=
  let* peer := at_peer i in flush_loop (S (length (rt_Pending peer))) now i [].

Definition Router_Start (now : Z) (i : nat) : eff router (list TransportPacket) :=
  let* peer := at_peer i in
  with_tunnel (tun_ActivatePeer (rt_TunnelPeer peer)) ;;*
  let* session := with_tunnel (tun_HasSession now (rt_TunnelPeer peer)) in
  if session : bool then eret [] else
  let* action := with_tunnel (tun_UpdateTimers now (rt_TunnelPeer peer)) in
  match action with
  | Timer_SendHandshake =>
      let* message := with_tunnel (tun_CreateHandshake now (rt_TunnelPeer peer)) in
      eret [Router_Wrap peer message true true true]
  | _ => eret []
  end.

Definition Router_Send (now : Z) (i : nat) (plaintext : bytes) : eff router (list TransportPacket) :=
  let* peer := at_peer i in
  let* session := with_tunnel (tun_HasSession now (rt_TunnelPeer peer)) in
  if session : bool then
    let* packet := with_tunnel (tun_Encrypt now (rt_TunnelPeer peer) plaintext) in
    eret [Router_Wrap peer packet false true false]
  else
    put_router_peer i (Router_Queue peer plaintext) ;;*
    Router_Start now i.

Definition WireGuardRouter_Send (now : Z) (plaintext : bytes) : eff router (list TransportPacket) :=
  let* s := eget in
  let* route := elift (Router_FindRoute plaintext s) in
  match route with
  | None => eret []
  | Some i => Router_Send now i plaintext
  end.

Definition WireGuardRouter_SendTo (now : Z) (key plaintext : bytes)
    : eff router (list TransportPacket) :=
  let* s := eget in
  match Router_FindPeerByKey key s with
  | None => eret []
  | Some i => Router_Send now i plaintext
  end.

Definition WireGuardRouter_Start (now : Z) (key : bytes) : eff router (list TransportPacket) :=
  let* s := eget in
  match Router_FindPeerByKey key s with
  | None => eret []
  | Some i => Router_Start now i
  end.

(** ** Receiving *)

Definition Router_Receive (now : Z) (i : nat) (received : ReceivedPacket)
    : eff router ReceiveResult :=
  let* peer := at_peer i in
  let reply := match rp_Reply received with
               | [] => []
               | reply => [Router_Wrap peer reply true false false]
               end in
  let* pending := (if rp_SessionEstablished received then Router_Flush now i else eret []) in
  eret {| rr_Source := rt_PublicKey peer; rr_Outbound := reply ++ pending;
          rr_Plaintext := match rp_Plaintext received with [] => [] | p => [p] end;
          rr_SessionEstablished := rp_SessionEstablished received; rr_Accepted := true |}.

Definition WireGuardRouter_ReceiveFrom (now : Z) (source packet : bytes) : eff router ReceiveResult :=
  let* s := eget in
  match Router_FindPeerByKey source s with
  | None => eret (ReceiveResult_none zero_key)
  | Some i =>
      let* peer := at_peer i in
      let* received := with_tunnel (tun_ProcessPacketFrom now (rt_TunnelPeer peer) packet) in
      match received with
      | None => eret (ReceiveResult_none source)
      | Some received => Router_Receive now i received
      end
  end.

Definition WireGuardRouter_Receive (now : Z) (packet : bytes) : eff router ReceiveResult :=
  let* received := with_tunnel (tun_ProcessPacket now packet) in
  match received with
  | None => eret (ReceiveResult_none zero_key)
  | Some received =>
      let* s := eget in
      match Router_FindPeerByTunnel (rp_Peer received) s with
      | None => eret (ReceiveResult_none zero_key)
      | Some i => Router_Receive now i received
      end
  end.

(** ** Timers *)

Fixpoint timers_loop (now : Z) (routes : list nat) (result : list TransportPacket)
    : eff router (list TransportPacket) :=
  match routes with
  | [] => eret result
  | i :: rest =>
      let* peer := at_peer i in
      let* action := with_tunnel (tun_UpdateTimers now (rt_TunnelPeer peer)) in
      match action with
      | Timer_SendHandshake =>
          let* message := with_tunnel (tun_CreateHandshake now (rt_TunnelPeer peer)) in
          timers_loop now rest (result ++ [Router_Wrap peer message true true false])
      | Timer_SendKeepalive =>
          let* packet := with_tunnel (tun_Encrypt now (rt_TunnelPeer peer) []) in
          timers_loop now rest (result ++ [Router_Wrap peer packet true false false])
      | Timer_None => timers_loop now rest result
      end
  end.

Definition WireGuardRouter_UpdateTimers (now : Z) : eff router (list TransportPacket) :=
  let* s := eget in timers_loop now (wr_Routes s) [].

Definition WireGuardRouter_HasSession (now : Z) (key : bytes) : eff router bool :=
  let* s := eget in
  match Router_FindPeerByKey key s with
  | None => eret false
  | Some i => let* peer := at_peer i in with_tunnel (tun_HasSession now (rt_TunnelPeer peer))
  end.

End router.

(** ** The queue *)

Definition bytes_of (pending : list bytes) : Z := foldr (fun p n => zlen p + n) 0 pending.

Lemma bytes_of_app l k : bytes_of (l ++ k) = bytes_of l + bytes_of k.
Proof. induction l as [|p l IH]; simpl; [done|]. rewrite IH. lia. Qed.

Lemma bytes_of_nonneg l : 0 <= bytes_of l.
Proof. induction l as [|p l IH]; simpl; [done|]. pose proof (zlen_nonneg p). lia. Qed.

(** The count of bytes is right and both limits hold. *)
Definition queue_ok (pending : list bytes) (pendingBytes : Z) : Prop :=
  pendingBytes = bytes_of pending ∧ pendingBytes <= MaximumPendingBytesPerPeer
  ∧ zlen pending <= MaximumPendingPacketsPerPeer.

(** A packet of [size] bytes may join the queue. *)
Definition queue_fits (pending : list bytes) (size : Z) : Prop :=
  zlen pending < MaximumPendingPacketsPerPeer
  ∧ bytes_of pending + size <= MaximumPendingBytesPerPeer.

(** The oldest packets are dropped, and no more of them than it takes for the packet
    to fit in. *)
Definition queue_cut (size : Z) (pending dropped kept : list bytes) : Prop :=
  pending = dropped ++ kept ∧ (kept = [] ∨ queue_fits kept size)
  ∧ ∀ n, (n < length dropped)%nat → ~ queue_fits (drop n pending) size.

Lemma queue_room_spec pending pendingBytes size :
  queue_ok pending pendingBytes → 0 <= size →
  ∃ dropped kept, queue_room pending pendingBytes size = (kept, bytes_of kept)
    ∧ queue_cut size pending dropped kept ∧ queue_ok kept (bytes_of kept).
Proof.
  revert pendingBytes. induction pending as [|front rest IH]; intros b (Hb & Hmax & Hlen) Hs.
  { subst b. exists [], []. split_and!; try done. split_and!; [done|by left|]. simpl. lia. }
  cbn [queue_room]. destruct ((MaximumPendingPacketsPerPeer <=? _) || _) eqn:E.
  - destruct (IH (b - zlen front)) as (dropped & kept & -> & (-> & Hroom & Hmin) & Hok); [|done|].
    { simpl in Hb. unfold queue_ok. pose proof (zlen_nonneg front).
      split_and!; [lia|lia|]. unfold zlen in *. simpl in Hlen. lia. }
    exists (front :: dropped), kept. split_and!; try done. split_and!; [done..|].
    intros [|n] Hn; simpl in *; [|apply Hmin; lia]. unfold queue_fits. simpl. intros [H1 H2].
    apply orb_true_iff in E as [E|E]; [apply Z.leb_le in E|apply Z.ltb_lt in E]; lia.
  - apply orb_false_iff in E as [E1 E2]. apply Z.leb_gt in E1. apply Z.ltb_ge in E2. rewrite Hb in *.
    exists [], (front :: rest). split_and!; try done. split_and!; [done|right; by split|]. simpl. lia.
Qed.

(** The queue after a packet: the newest ones that fit with it, in their order, and
    then the packet, unless it is too large for an empty queue. *)
Definition queue_with (plaintext : bytes) (kept : list bytes) : list bytes :=
  kept ++ (if zlen plaintext <=? MaximumPendingBytesPerPeer then [plaintext] else []).

Lemma Router_Queue_spec peer plaintext :
  queue_ok (rt_Pending peer) (rt_PendingBytes peer) →
  ∃ dropped kept, queue_cut (zlen plaintext) (rt_Pending peer) dropped kept
    ∧ queue_ok (queue_with plaintext kept) (bytes_of (queue_with plaintext kept))
    ∧ Router_Queue peer plaintext
      = rt_set_pending (queue_with plaintext kept) (bytes_of (queue_with plaintext kept)) peer.
Proof.
  intros Hok. unfold Router_Queue, queue_with. pose proof (zlen_nonneg plaintext) as Hp.
  destruct (queue_room_spec _ _ (zlen plaintext) Hok Hp)
    as (dropped & kept & -> & Hcut & (Hn & Hmax & Hlen)).
  exists dropped, kept. split; [done|].
  destruct (Z.leb_spec (zlen plaintext) MaximumPendingBytesPerPeer).
  - assert (bytes_of (kept ++ [plaintext]) = bytes_of kept + zlen plaintext) as Hsum.
    { rewrite bytes_of_app. simpl. lia. }
    rewrite Hsum. split; [|done]. unfold queue_ok. rewrite Hsum, zlen_app.
    change (zlen [plaintext]) with 1.
    destruct Hcut as (_ & [->|[H1 H2]] & _); simpl in *; split_and!; try lia; done.
  - rewrite app_nil_r. done.
Qed.

(** ** The invariant *)

Section invariant.
  Context (unhex : bytes → option bytes) (ip6addr_aton : bytes → option bytes).
  Context {T : Type} `{!TunnelOps T} `{!TunnelLaws T}.

Definition peer_ok (count : nat) (peer : RouterPeer) : Prop :=
  (rt_TunnelPeer peer < count)%nat ∧ queue_ok (rt_Pending peer) (rt_PendingBytes peer).

Record router_ok (s : WireGuardRouter T) : Prop := {
  ro_tunnel : tun_ok (wr_Tunnel s);
  ro_peers : Forall (peer_ok (tun_peers (wr_Tunnel s))) (wr_Peers s);
  ro_keys : NoDup (map rt_PublicKey (wr_Peers s));
  ro_ids : NoDup (map rt_TunnelPeer (wr_Peers s));
  ro_routes : Forall (fun i => ∃ peer, wr_Peers s !! i = Some peer ∧ rt_Active peer = true) (wr_Routes s)
}.

Lemma ok_tunnel s t :
  router_ok s → tun_ok t → tun_peers t = tun_peers (wr_Tunnel s) → router_ok (wr_set_tunnel t s).
Proof. intros [? Hp ? ? ?] Ht Hn. constructor; simpl; try done. by rewrite Hn. Qed.

(** A peer may be replaced by one with the same keys and a queue in its limits. *)
Lemma ok_put s i peer peer' :
  router_ok s → wr_Peers s !! i = Some peer →
  rt_PublicKey peer' = rt_PublicKey peer → rt_TunnelPeer peer' = rt_TunnelPeer peer →
  (rt_Active peer = true → rt_Active peer' = true) →
  queue_ok (rt_Pending peer') (rt_PendingBytes peer') →
  router_ok (wr_set_peers (<[i := peer']> (wr_Peers s)) s).
Proof.
  intros [Ht Hp Hk Hi Hr] Hl Ek Ei Ea Hq. constructor; simpl; [done| | | |].
  - rewrite Forall_lookup in Hp. apply Forall_insert; [by apply Forall_lookup|].
    split; [|done]. rewrite Ei. by apply (Hp i).
  - rewrite list_fmap_insert, Ek, list_insert_id; [done|]. by rewrite list_lookup_fmap, Hl.
  - rewrite list_fmap_insert, Ei, list_insert_id; [done|]. by rewrite list_lookup_fmap, Hl.
  - eapply Forall_impl; [exact Hr|]. intros j (q & Hq' & Ha). simpl.
    destruct (decide (j = i)) as [->|Hne].
    + exists peer'. rewrite list_lookup_insert_eq by (by eapply lookup_lt_Some).
      split; [done|]. apply Ea. congruence.
    + exists q. by rewrite list_lookup_insert_ne.
Qed.

(** A call of the tunnel. *)
Lemma wp_tunnel {A} (m : eff T A) Q s :
  wp m (fun r t => Q r (wr_set_tunnel t s)) (wr_Tunnel s) → wp (with_tunnel m) Q s.
Proof. unfold wp, with_tunnel. by destruct (m (wr_Tunnel s)). Qed.

Lemma wp_tunnel_ok {A} (m : eff T A) (Q : outcome A → WireGuardRouter T → Prop) s :
  router_ok s →
  wp m (fun r t => tun_ok t ∧ tun_peers t = tun_peers (wr_Tunnel s)) (wr_Tunnel s) →
  (∀ r t, router_ok (wr_set_tunnel t s) → Q r (wr_set_tunnel t s)) → wp (with_tunnel m) Q s.
Proof.
  intros Hs Hm HQ. apply wp_tunnel. eapply wp_mono; [exact Hm|]. simpl. intros r t [Ht Hn].
  by apply HQ, ok_tunnel.
Qed.

Lemma HasSession_ok s now peer i :
  router_ok s → wr_Peers s !! i = Some peer →
  ∃ b, with_tunnel (tun_HasSession now (rt_TunnelPeer peer)) s = (Ok b, s)
    ∧ tun_HasSession now (rt_TunnelPeer peer) (wr_Tunnel s) = (Ok b, wr_Tunnel s).
Proof.
  intros [Ht Hp _ _ _] Hl. rewrite Forall_lookup in Hp. apply Hp in Hl as [Hlt _].
  destruct (tun_HasSession_law now _ _ Ht Hlt) as [b Hb]. exists b.
  unfold with_tunnel. rewrite Hb. split; [|done]. by destruct s.
Qed.

Lemma at_peer_ok (s : WireGuardRouter T) i peer :
  wr_Peers s !! i = Some peer → at_peer i s = (Ok peer, s).
Proof.
  intros H. unfold at_peer, ebind, eget, elift. f_equal. apply rd_lookup.
  rewrite Nat2Z.id. split; [lia|done].
Qed.

Lemma wp_at_peer (s : WireGuardRouter T) i (Q : outcome RouterPeer → WireGuardRouter T → Prop) :
  Q UB s → (∀ peer, wr_Peers s !! i = Some peer → Q (Ok peer) s) → wp (at_peer i) Q s.
Proof.
  intros HU HQ. unfold at_peer. wp_auto. unfold rd. rewrite (proj2 (Z.ltb_ge _ _)), Nat2Z.id by lia.
  destruct (wr_Peers s !! i) eqn:E; auto.
Qed.

(** ** Flushing *)

(** Encrypting a list of packets, in order. *)
Fixpoint encrypt_run (now : Z) (id : nat) (plaintexts : list bytes) : eff T (list bytes) :=
  match plaintexts with
  | [] => eret []
  | plaintext :: rest =>
      let* packet := tun_Encrypt now id plaintext in
      let* packets := encrypt_run now id rest in
      eret (packet :: packets)
  end.

Definition data_packet (peer : RouterPeer) (packet : bytes) : TransportPacket :=
  Router_Wrap peer packet false true false.

Lemma flush_loop_spec todo now i result s peer :
  router_ok s → wr_Peers s !! i = Some peer → (length (rt_Pending peer) < todo)%nat →
  ∃ n packets s',
    flush_loop todo now i result s = (Ok (result ++ map (data_packet peer) packets), s')
    ∧ router_ok s' ∧ (n <= length (rt_Pending peer))%nat
    ∧ wr_Peers s' !! i = Some (rt_set_pending (drop n (rt_Pending peer))
                                 (bytes_of (drop n (rt_Pending peer))) peer)
    ∧ encrypt_run now (rt_TunnelPeer peer) (take n (rt_Pending peer)) (wr_Tunnel s)
      = (Ok packets, wr_Tunnel s')
    ∧ (n = length (rt_Pending peer)
       ∨ tun_HasSession now (rt_TunnelPeer peer) (wr_Tunnel s') = (Ok false, wr_Tunnel s')).
Proof.
  revert result s peer. induction todo as [|todo IH]; intros result s peer Hs Hp Hlen; [lia|].
  assert (queue_ok (rt_Pending peer) (rt_PendingBytes peer)) as Hq.
  { pose proof (ro_peers _ Hs) as H. rewrite Forall_lookup in H. by apply (H i). }
  assert (rt_set_pending (rt_Pending peer) (bytes_of (rt_Pending peer)) peer = peer) as Hid.
  { destruct Hq as [Hb _], peer; unfold rt_set_pending; simpl in *. by rewrite <- Hb. }
  cbn [flush_loop]. rewrite (ebind_Ok _ _ _ _ _ (at_peer_ok _ _ _ Hp)).
  destruct (HasSession_ok s now peer i Hs Hp) as (b & Hb & Hb'). rewrite (ebind_Ok _ _ _ _ _ Hb).
  destruct b; simpl; last first.
  { exists 0%nat, [], s. rewrite app_nil_r, drop_0, Hid. split_and!; try done; [lia|by right]. }
  destruct (rt_Pending peer) as [|plaintext rest] eqn:Hpend.
  { exists 0%nat, [], s. rewrite app_nil_r, drop_0, Hid. split_and!; try done. by left. }
  set (peer1 := rt_set_pending rest (rt_PendingBytes peer - zlen plaintext) peer).
  assert (queue_ok rest (rt_PendingBytes peer - zlen plaintext)) as Hq1.
  { destruct Hq as (Hbytes & ? & ?). pose proof (zlen_nonneg plaintext). simpl in Hbytes.
    unfold queue_ok. split_and!; [lia|lia|]. unfold zlen in *. simpl in *. lia. }
  set (s1 := wr_set_peers (<[i := peer1]> (wr_Peers s)) s).
  assert (router_ok s1) as Hs1 by (eapply ok_put; eauto).
  unfold put_router_peer. rewrite (ebind_Ok _ _ _ tt s1) by done.
  pose proof (tun_Encrypt_law now (rt_TunnelPeer peer) plaintext (wr_Tunnel s1) ltac:(apply Hs1)) as Henc.
  unfold wp in Henc. destruct (tun_Encrypt now (rt_TunnelPeer peer) plaintext (wr_Tunnel s1))
    as [r t] eqn:HE. simpl in Henc. destruct Henc as (Ht & Hn & Hr).
  destruct (Hr Hb') as [packet ->].
  pose proof (ok_tunnel s1 t Hs1 Ht Hn) as Hs2. set (s2 := wr_set_tunnel t s1) in *.
  rewrite (ebind_Ok _ _ _ packet s2) by (unfold with_tunnel; by rewrite HE).
  destruct (IH (result ++ [data_packet peer packet]) s2 peer1 Hs2) as
    (n & packets & s' & Hf & Hs' & Hle & Hp' & Hrun & Hend).
  { simpl. apply list_lookup_insert_eq. by eapply lookup_lt_Some. }
  { simpl in *. lia. }
  exists (S n), (packet :: packets), s'. change (Router_Wrap peer packet false true false)
    with (data_packet peer packet). rewrite Hf, <- app_assoc. simpl. split_and!; try done; [simpl in Hle; lia| |].
  - simpl in Hrun. change (wr_Tunnel s1) with (wr_Tunnel s) in HE.
    rewrite (ebind_Ok _ _ _ _ _ HE), (ebind_Ok _ _ _ _ _ Hrun). done.
  - destruct Hend as [->|?]; [by left|by right].
Qed.

(** A session releases what waited for it.  On a peer with a queue, [Flush]
    returns, without an error, the packets of the queue encrypted in the order in which
    they were queued and addressed to that peer, and removes exactly those from the
    queue: all of them, unless the session ends on the way, and then the others keep
    waiting. *)
Theorem Router_Flush_in_order now i s peer :
  router_ok s → wr_Peers s !! i = Some peer →
  ∃ n packets s',
    Router_Flush now i s = (Ok (map (data_packet peer) packets), s')
    ∧ router_ok s'
    ∧ (∃ peer', wr_Peers s' !! i = Some peer' ∧ rt_Pending peer' = drop n (rt_Pending peer))
    ∧ encrypt_run now (rt_TunnelPeer peer) (take n (rt_Pending peer)) (wr_Tunnel s)
      = (Ok packets, wr_Tunnel s')
    ∧ (n = length (rt_Pending peer)
       ∨ tun_HasSession now (rt_TunnelPeer peer) (wr_Tunnel s') = (Ok false, wr_Tunnel s')).
Proof.
  intros Hs Hp. unfold Router_Flush. rewrite (ebind_Ok _ _ _ _ _ (at_peer_ok _ _ _ Hp)).
  destruct (flush_loop_spec (S (length (rt_Pending peer))) now i [] s peer Hs Hp ltac:(lia))
    as (n & packets & s' & Hf & Hs' & _ & Hp' & Hrun & Hend).
  exists n, packets, s'. rewrite Hf. split_and!; try done. eexists. split; [exact Hp'|done].
Qed.

(** ** Every operation *)

(** The call rkeeps the invariant, whether it returns or throws. *)
Definition rkeeps {A} (m : eff (WireGuardRouter T) A) : Prop :=
  ∀ s, router_ok s → wp m (fun _ s' => router_ok s') s.

Lemma rkeeps_bind {A B} (m : eff (WireGuardRouter T) A) (k : A → eff (WireGuardRouter T) B) :
  rkeeps m → (∀ a, rkeeps (k a)) → rkeeps (ebind m k).
Proof.
  intros Hm Hk s Hs. apply wp_bind. eapply wp_mono; [by apply Hm|]. simpl.
  intros [a|e|] s' Hs'; [by apply Hk|done|done].
Qed.

Lemma rkeeps_ret {A} (a : A) : rkeeps (eret a).
Proof. intros s Hs. by apply wp_ret. Qed.

Lemma rkeeps_lift {A} (m : outcome A) : rkeeps (elift m).
Proof. intros s Hs. by apply wp_lift. Qed.

Lemma keeps_get_bind {B} (k : WireGuardRouter T → eff (WireGuardRouter T) B) :
  (∀ s, rkeeps (k s)) → rkeeps (ebind eget k).
Proof. intros Hk s Hs. apply wp_bind, wp_get. by apply Hk. Qed.

Lemma rkeeps_tunnel {A} (m : eff T A) :
  (∀ t, tun_ok t → wp m (fun r t' => tun_ok t' ∧ tun_peers t' = tun_peers t) t) →
  rkeeps (with_tunnel m).
Proof. intros Hm s Hs. eapply wp_tunnel_ok; [done|apply Hm, Hs|done]. Qed.

Lemma keeps_at_peer i : rkeeps (at_peer i).
Proof. intros s Hs. by apply wp_at_peer. Qed.

Lemma rkeeps_Encrypt now id plaintext : rkeeps (with_tunnel (tun_Encrypt now id plaintext)).
Proof.
  apply rkeeps_tunnel. intros t Ht. eapply wp_mono; [by apply tun_Encrypt_law|]. simpl. tauto.
Qed.

Lemma rkeeps_HasSession now i (Q : outcome bool → WireGuardRouter T → Prop) peer s :
  router_ok s → wr_Peers s !! i = Some peer → (∀ b, Q (Ok b) s) →
  wp (with_tunnel (tun_HasSession now (rt_TunnelPeer peer))) Q s.
Proof.
  intros Hs Hp HQ. destruct (HasSession_ok s now peer i Hs Hp) as (b & Hb & _).
  unfold wp. rewrite Hb. apply HQ.
Qed.

Lemma rkeeps_Start now i : rkeeps (Router_Start now i).
Proof.
  intros s Hs. unfold Router_Start. apply wp_bind, wp_at_peer; [done|]. intros peer Hp.
  apply wp_bind. eapply wp_tunnel_ok; [done|apply tun_ActivatePeer_law, Hs|]. intros r t Hs1.
  destruct r; [|done..]. apply wp_bind. eapply (rkeeps_HasSession now i); [done|exact Hp|].
  intros b. destruct b; [by apply wp_ret|]. apply wp_bind.
  eapply wp_tunnel_ok; [done|apply tun_UpdateTimers_law, Hs1|]. intros [[]| |] t2 Hs2; try done;
    try by apply wp_ret.
  apply wp_bind. eapply wp_tunnel_ok; [done|apply tun_CreateHandshake_law, Hs2|].
  intros [] t3 Hs3; by try apply wp_ret.
Qed.

Lemma rkeeps_Send now i plaintext : rkeeps (Router_Send now i plaintext).
Proof.
  intros s Hs. unfold Router_Send. apply wp_bind, wp_at_peer; [done|]. intros peer Hp.
  apply wp_bind. eapply (rkeeps_HasSession now i); [done|exact Hp|]. intros [].
  - refine (rkeeps_bind _ _ (rkeeps_Encrypt _ _ _) _ _ Hs). intros packet. apply rkeeps_ret.
  - unfold put_router_peer. apply wp_bind, wp_mod. apply rkeeps_Start.
    assert (queue_ok (rt_Pending peer) (rt_PendingBytes peer)) as Hq.
    { pose proof (ro_peers _ Hs) as H. rewrite Forall_lookup in H. by apply (H i). }
    destruct (Router_Queue_spec peer plaintext Hq) as (dropped & kept & _ & Hqueue & ->).
    by eapply ok_put.
Qed.

Lemma rkeeps_Flush now i : rkeeps (Router_Flush now i).
Proof.
  intros s Hs. unfold Router_Flush. apply wp_bind, wp_at_peer; [done|]. intros peer Hp.
  destruct (flush_loop_spec (S (length (rt_Pending peer))) now i [] s peer Hs Hp ltac:(lia))
    as (n & packets & s' & Hf & Hs' & _). unfold wp. by rewrite Hf.
Qed.

Lemma rkeeps_Receive now i received : rkeeps (Router_Receive now i received).
Proof.
  unfold Router_Receive. apply rkeeps_bind; [apply keeps_at_peer|]. intros peer. cbv zeta.
  apply rkeeps_bind; [|intros; apply rkeeps_ret].
  destruct (rp_SessionEstablished received); [apply rkeeps_Flush|apply rkeeps_ret].
Qed.

Lemma rkeeps_timers now routes result : rkeeps (timers_loop now routes result).
Proof.
  revert result. induction routes as [|i routes IH]; intros result; simpl; [apply rkeeps_ret|].
  apply rkeeps_bind; [apply keeps_at_peer|]. intros peer.
  apply rkeeps_bind; [apply rkeeps_tunnel, tun_UpdateTimers_law|]. intros [].
  - apply IH.
  - apply rkeeps_bind; [apply rkeeps_tunnel, tun_CreateHandshake_law|]. intros; apply IH.
  - apply rkeeps_bind; [apply rkeeps_Encrypt|]. intros; apply IH.
Qed.

(** A new peer, known to the tunnel under a number that no other has. *)
Lemma ok_add s t publicKey config :
  router_ok s → tun_ok t → tun_peers t = S (tun_peers (wr_Tunnel s)) →
  publicKey ∉ map rt_PublicKey (wr_Peers s) →
  router_ok (wr_set_peers (wr_Peers s ++ [{|
    rt_Config := config; rt_PublicKey := publicKey; rt_TunnelPeer := tun_peers (wr_Tunnel s);
    rt_Active := true; rt_Pending := []; rt_PendingBytes := 0 |}]) (wr_set_tunnel t s)).
Proof.
  intros [_ Hp Hk Hi Hr] Ht Hn Hnew. constructor; simpl.
  - done.
  - rewrite Hn. apply Forall_app. split.
    + eapply Forall_impl; [exact Hp|]. intros peer [? ?]. split; [lia|done].
    + constructor; [|constructor]. split; [simpl; lia|]. by split_and!.
  - rewrite map_app. apply NoDup_app. split_and!; [done| |apply NoDup_singleton].
    intros k Hin. simpl. rewrite list_elem_of_singleton. by intros ->.
  - rewrite map_app. apply NoDup_app. split_and!; [done| |apply NoDup_singleton].
    intros k (peer & -> & Hin)%list_elem_of_fmap. simpl. rewrite list_elem_of_singleton. intros Heq.
    rewrite Forall_forall in Hp. apply Hp in Hin as [? _]. lia.
  - eapply Forall_impl; [exact Hr|]. intros i (peer & Hl & Ha). exists peer.
    split; [by apply lookup_app_l_Some|done].
Qed.

Lemma ok_route s i peer :
  router_ok s → wr_Peers s !! i = Some peer → rt_Active peer = true →
  router_ok (wr_set_routes (wr_Routes s ++ [i]) s).
Proof.
  intros [? ? ? ? Hr] Hp Ha. constructor; simpl; try done.
  apply Forall_app. split; [done|]. constructor; [eauto|constructor].
Qed.

Lemma keeps_update_peers configs : rkeeps (update_peers unhex configs).
Proof.
  induction configs as [|config configs IH]; intros s Hs; cbn [update_peers]; [by apply wp_ret|].
  destruct (ParseNodeKey unhex (pc_key config)) as [publicKey|e|]; [|by apply IH|by apply wp_lift].
  apply wp_bind, wp_get. destruct (find_index _ (wr_Peers s)) as [found|] eqn:Hfind.
  - apply wp_bind, wp_at_peer; [done|]. intros peer Hp. unfold put_router_peer. wp_auto.
    assert (queue_ok (rt_Pending peer) (rt_PendingBytes peer)) as Hq.
    { pose proof (ro_peers _ Hs) as H. rewrite Forall_lookup in H. by apply (H found). }
    apply IH. eapply ok_route; [by eapply ok_put|simpl|].
    + apply list_lookup_insert_eq. by eapply lookup_lt_Some.
    + done.
  - apply wp_bind, wp_tunnel. pose proof (tun_AddPeer_law publicKey _ (ro_tunnel _ Hs)) as Hadd.
    eapply wp_mono; [exact Hadd|]. simpl. intros [id|e|] t [Ht Hn].
    2,3: by apply ok_tunnel.
    destruct Hn as [-> Hn].
    assert (publicKey ∉ map rt_PublicKey (wr_Peers s)) as Hnew.
    { intros (peer & Heq & (j & Hj)%list_elem_of_lookup)%list_elem_of_fmap.
      apply (find_index_None _ _ Hfind) in Hj. by apply bool_decide_eq_false in Hj. }
    wp_auto. apply IH. eapply ok_route.
    + exact (ok_add s t publicKey config Hs Ht Hn Hnew).
    + simpl. rewrite length_app. simpl. replace (_ + 1 - 1)%nat with (length (wr_Peers s)) by lia.
      rewrite lookup_app_r, Nat.sub_diag by lia. done.
    + done.
Qed.

Lemma rkeeps_UpdatePeers configs exitNode : rkeeps (WireGuardRouter_UpdatePeers unhex configs exitNode).
Proof.
  intros s Hs. unfold WireGuardRouter_UpdatePeers. wp_auto. apply keeps_update_peers.
  destruct Hs as [Ht Hp Hk Hi _]. constructor; simpl; [done| | | |constructor].
  - apply Forall_map. done.
  - by rewrite map_map.
  - by rewrite map_map.
Qed.

(** ** Sequences of calls *)

Inductive router_call :=
  | Call_UpdatePeers (configs : list PeerConfig) (exitNode : bytes)
  | Call_Send (now : Z) (plaintext : bytes)
  | Call_SendTo (now : Z) (key plaintext : bytes)
  | Call_Start (now : Z) (key : bytes)
  | Call_ReceiveFrom (now : Z) (source packet : bytes)
  | Call_Receive (now : Z) (packet : bytes)
  | Call_UpdateTimers (now : Z).

Definition drop_result {A} (m : eff (WireGuardRouter T) A) (s : WireGuardRouter T)
    : WireGuardRouter T := (m s).2.

(** The router after a call; one that throws leaves what it changed before. *)
Definition router_step (call : router_call) : WireGuardRouter T → WireGuardRouter T :=
  match call with
  | Call_UpdatePeers configs exitNode =>
      drop_result (WireGuardRouter_UpdatePeers unhex configs exitNode)
  | Call_Send now plaintext => drop_result (WireGuardRouter_Send ip6addr_aton now plaintext)
  | Call_SendTo now key plaintext => drop_result (WireGuardRouter_SendTo now key plaintext)
  | Call_Start now key => drop_result (WireGuardRouter_Start now key)
  | Call_ReceiveFrom now source packet => drop_result (WireGuardRouter_ReceiveFrom now source packet)
  | Call_Receive now packet => drop_result (WireGuardRouter_Receive now packet)
  | Call_UpdateTimers now => drop_result (WireGuardRouter_UpdateTimers now)
  end.

Lemma rkeeps_drop {A} (m : eff (WireGuardRouter T) A) s :
  rkeeps m → router_ok s → router_ok (drop_result m s).
Proof. intros Hm Hs. exact (Hm s Hs). Qed.

Lemma router_step_ok call s : router_ok s → router_ok (router_step call s).
Proof.
  destruct call; simpl; apply rkeeps_drop; try apply rkeeps_UpdatePeers.
  - apply keeps_get_bind. intros s'. apply rkeeps_bind; [apply rkeeps_lift|].
    intros [i|]; [apply rkeeps_Send|apply rkeeps_ret].
  - apply keeps_get_bind. intros s'. case_match; [apply rkeeps_Send|apply rkeeps_ret].
  - apply keeps_get_bind. intros s'. case_match; [apply rkeeps_Start|apply rkeeps_ret].
  - apply keeps_get_bind. intros s'. case_match; [|apply rkeeps_ret].
    apply rkeeps_bind; [apply keeps_at_peer|]. intros peer.
    apply rkeeps_bind; [apply rkeeps_tunnel, tun_ProcessPacketFrom_law|].
    intros [received|]; [apply rkeeps_Receive|apply rkeeps_ret].
  - apply rkeeps_bind; [apply rkeeps_tunnel, tun_ProcessPacket_law|].
    intros [received|]; [|apply rkeeps_ret]. apply keeps_get_bind. intros s'.
    case_match; [apply rkeeps_Receive|apply rkeeps_ret].
  - apply keeps_get_bind. intros s'. apply rkeeps_timers.
Qed.

(** C9: whatever happens to a router, from its construction over any sequence of calls,
    including those that throw, each peer's queue holds at most 1024 packets and 4 MiB
    and its byte count is exact, no two peers share a public key or a number in the
    tunnel, every route leads to an active peer, and every peer is one the tunnel
    knows. *)
Theorem WireGuardRouter_reachable_ok tunnel peers exitNode calls :
  tun_ok tunnel →
  router_ok (foldl (fun s call => router_step call s)
                   (WireGuardRouter_new unhex tunnel peers exitNode).2 calls).
Proof.
  intros Ht. assert (router_ok (WireGuardRouter_new unhex tunnel peers exitNode).2) as Hs.
  { unfold WireGuardRouter_new. apply rkeeps_UpdatePeers. constructor; simpl; [done|constructor..]. }
  revert Hs. generalize (WireGuardRouter_new unhex tunnel peers exitNode).2. intros s Hs.
  revert s Hs. induction calls as [|call calls IH]; intros s Hs; simpl; [done|].
  by apply IH, router_step_ok.
Qed.

(** ** Where a packet goes *)

Lemma wp_tunnel_any {A} (m : eff T A) (Q : outcome A → WireGuardRouter T → Prop) s :
  (∀ r t, Q r (wr_set_tunnel t s)) → wp (with_tunnel m) Q s.
Proof. intros HQ. apply wp_tunnel. unfold wp. apply HQ. Qed.

(** What [Start] sends for a peer, and what it makes of the tunnel: a handshake, when
    the activated peer has no session and its timers ask for one, and otherwise
    nothing. *)
Definition started (now : Z) (peer : RouterPeer) (t : T) (packets : list TransportPacket) (t' : T)
    : Prop :=
  let id := rt_TunnelPeer peer in
  ∃ t1, tun_ActivatePeer id t = (Ok tt, t1)
    ∧ (tun_HasSession now id t1 = (Ok true, t') ∧ packets = []
       ∨ ∃ t2 action t3, tun_HasSession now id t1 = (Ok false, t2)
           ∧ tun_UpdateTimers now id t2 = (Ok action, t3)
           ∧ match action with
             | Timer_SendHandshake =>
                 ∃ message, tun_CreateHandshake now id t3 = (Ok message, t')
                   ∧ packets = [{| tp_Peer := rt_PublicKey peer; tp_Payload := message;
                                   tp_Control := true; tp_ExpectResponse := true;
                                   tp_Handshake := true |}]
             | _ => t' = t3 ∧ packets = []
             end).

Lemma Start_started now i s peer :
  wr_Peers s !! i = Some peer →
  wp (Router_Start now i) (fun r s' => ∃ t', s' = wr_set_tunnel t' s
    ∧ ∀ packets, r = Ok packets → started now peer (wr_Tunnel s) packets t') s.
Proof.
  intros Hp. unfold Router_Start, wp. rewrite (ebind_Ok _ _ _ _ _ (at_peer_ok _ _ _ Hp)).
  unfold started. unfold ebind, with_tunnel.
  destruct (tun_ActivatePeer _ _) as [[[]| |] t1]; simpl; [|by eexists..].
  destruct (tun_HasSession now _ t1) as [[[]| |] t2] eqn:H2; simpl; [| |by eexists..].
  { exists t2. split; [done|]. intros packets [= <-]. exists t1. rewrite H2. auto. }
  destruct (tun_UpdateTimers now _ t2) as [[action| |] t3] eqn:H3; simpl; [|by eexists..].
  destruct action; simpl.
  1,3: exists t3; split; [done|]; intros packets [= <-]; exists t1; split; [done|right];
    eexists t2, _, t3; by rewrite H2, H3.
  destruct (tun_CreateHandshake now _ t3) as [[message| |] t4] eqn:H4; simpl; [|by eexists..].
  exists t4. split; [done|]. intros packets [= <-]. exists t1. split; [done|right].
  eexists t2, _, t3. rewrite H2, H3. split_and!; [done..|]. exists message. by rewrite H4.
Qed.

(** What [Send] does with a packet for a peer: if there is a session, one transport
    packet and no change but that of the tunnel; otherwise a place at the end of that
    peer's queue, in which only the oldest packets that leave it no room are dropped,
    and [Start].  No other peer changes, nor does a route or the exit node. *)
Definition sent_to (now : Z) (plaintext : bytes) (s : WireGuardRouter T) (i : nat) (peer : RouterPeer)
    (r : outcome (list TransportPacket)) (s' : WireGuardRouter T) : Prop :=
  ∃ session, tun_HasSession now (rt_TunnelPeer peer) (wr_Tunnel s) = (Ok session, wr_Tunnel s)
    ∧ if session : bool then
        ∃ packet t', tun_Encrypt now (rt_TunnelPeer peer) plaintext (wr_Tunnel s) = (Ok packet, t')
          ∧ r = Ok [{| tp_Peer := rt_PublicKey peer; tp_Payload := packet; tp_Control := false;
                       tp_ExpectResponse := true; tp_Handshake := false |}]
          ∧ s' = wr_set_tunnel t' s
      else
        ∃ dropped kept t', queue_cut (zlen plaintext) (rt_Pending peer) dropped kept
          ∧ s' = {| wr_Tunnel := t';
                    wr_Peers := <[i := rt_set_pending (queue_with plaintext kept)
                                         (bytes_of (queue_with plaintext kept)) peer]> (wr_Peers s);
                    wr_Routes := wr_Routes s; wr_ExitNode := wr_ExitNode s |}
          ∧ ∀ packets, r = Ok packets → started now peer (wr_Tunnel s) packets t'.

Lemma Router_Send_spec now i plaintext s peer :
  router_ok s → wr_Peers s !! i = Some peer →
  wp (Router_Send now i plaintext) (sent_to now plaintext s i peer) s.
Proof.
  intros Hs Hp. unfold Router_Send, wp. rewrite (ebind_Ok _ _ _ _ _ (at_peer_ok _ _ _ Hp)).
  destruct (HasSession_ok s now peer i Hs Hp) as (b & Hb & Hb'). rewrite (ebind_Ok _ _ _ _ _ Hb).
  unfold sent_to. exists b. split; [done|]. destruct b.
  - pose proof (tun_Encrypt_law now (rt_TunnelPeer peer) plaintext _ (ro_tunnel _ Hs)) as Henc.
    unfold wp in Henc. destruct (tun_Encrypt now (rt_TunnelPeer peer) plaintext (wr_Tunnel s))
      as [r t] eqn:HE. destruct Henc as (_ & _ & Hr). destruct (Hr Hb') as [packet Heq]. simpl in Heq.
    subst r. rewrite (ebind_Ok _ _ _ packet (wr_set_tunnel t s)) by (unfold with_tunnel; by rewrite HE).
    by exists packet, t.
  - assert (queue_ok (rt_Pending peer) (rt_PendingBytes peer)) as Hq.
    { pose proof (ro_peers _ Hs) as H. rewrite Forall_lookup in H. by apply (H i). }
    destruct (Router_Queue_spec peer plaintext Hq) as (dropped & kept & Hcut & _ & ->).
    set (peer' := rt_set_pending _ _ peer). set (s1 := wr_set_peers (<[i := peer']> (wr_Peers s)) s).
    unfold put_router_peer. rewrite (ebind_Ok _ _ _ tt s1) by done.
    assert (wr_Peers s1 !! i = Some peer') as Hp1.
    { apply list_lookup_insert_eq. by eapply lookup_lt_Some. }
    destruct (Start_started now i s1 _ Hp1) as (t' & Hs' & Hstart).
    exists dropped, kept, t'. split_and!; [done..|exact Hstart].
Qed.

(** The configurations behind the routes. *)
Lemma route_configs_ok s :
  router_ok s → ∃ configs, route_configs (wr_Peers s) (wr_Routes s) = Ok configs
    ∧ length configs = length (wr_Routes s)
    ∧ ∀ j i peer, wr_Routes s !! j = Some i → wr_Peers s !! i = Some peer →
        configs !! j = Some (rt_Config peer).
Proof.
  intros Hs. pose proof (ro_routes _ Hs) as Hr. induction Hr as [|i routes (peer & Hp & _) _ IH]; simpl.
  { exists []. split_and!; [done|done|]. intros j i peer Hj. by rewrite lookup_nil in Hj. }
  destruct IH as (configs & -> & Hlen & Hall).
  assert (rd (wr_Peers s) (Z.of_nat i) = Ok peer) as ->.
  { apply rd_lookup. rewrite Nat2Z.id. split; [lia|done]. }
  simpl. exists (rt_Config peer :: configs). split_and!; [done|by rewrite <- Hlen|].
  intros [|j] i' peer' Hj Hp'; simpl in *; [|by eapply Hall]. congruence.
Qed.

(** The exit node of a router's map. *)
Definition router_exit (s : WireGuardRouter T) (configs : list PeerConfig) : option nat :=
  match wr_ExitNode s with
  | [] => None
  | exitNode => NetworkConfig_FindExitNode (route_network configs) exitNode true
  end.

Lemma FindRoute_index n destination exitNode j :
  network_ok n → in_width 32 destination →
  NetworkConfig_FindRoute n destination exitNode = Ok (Some j) → (j < length (nm_peers n))%nat.
Proof.
  intros Hn Hd. unfold NetworkConfig_FindRoute.
  destruct (FindRoute_peers_spec destination exitNode Hd n Hn) as ([r b] & -> & Hb).
  unfold best_ok in Hb. simpl in *. destruct r as [i|].
  { intros [= <-]. destruct Hb as [(p & (peer & Hp & _) & _) _]. by eapply lookup_lt_Some. }
  destruct exitNode as [e|]; [|done]. case_match eqn:He; [|done].
  intros (peer & _ & H)%obind_Ok_inv. apply Nat.ltb_lt in He. case_match; simplify_eq; lia.
Qed.

(** C4: a packet goes to the peer that the network map gives for its destination, and
    to no other.  For an IPv4 packet, when longest-prefix matching over the current
    peers, each of whose allowed prefixes has at most 32 bits, has a result, there are
    two cases.  If that peer has a session, [Send] returns one packet, the plaintext
    encrypted for that peer, and only the tunnel changes.  If not, the packet goes to
    the end of that peer's queue, where exactly the oldest packets that leave it no room
    within 1024 packets and 4 MiB are dropped (and the packet itself if it is larger than
    4 MiB), and one handshake for that peer is returned if its timers ask for one, or
    nothing.  No other peer and its queue, no route and not the exit node change.  When
    there is no result, nothing is sent and nothing changes. *)
Theorem WireGuardRouter_Send_routes now packet s destination :
  router_ok s → Ipv4Packet_Destination packet = Ok (Some destination) → in_width 32 destination →
  ∃ configs, route_configs (wr_Peers s) (wr_Routes s) = Ok configs
    ∧ (network_ok (route_network configs) →
       ∃ route, NetworkConfig_FindRoute (route_network configs) destination (router_exit s configs)
                = Ok route
         ∧ match route with
           | Some j => ∃ i peer, wr_Routes s !! j = Some i ∧ wr_Peers s !! i = Some peer
               ∧ configs !! j = Some (rt_Config peer)
               ∧ wp (WireGuardRouter_Send ip6addr_aton now packet) (sent_to now packet s i peer) s
           | None => WireGuardRouter_Send ip6addr_aton now packet s = (Ok [], s)
           end).
Proof.
  intros Hs Hdest Hd. destruct (route_configs_ok s Hs) as (configs & Hc & Hlen & Hall).
  exists configs. split; [done|]. intros Hn.
  destruct (FindRoute_total (route_network configs) destination (router_exit s configs) Hn Hd)
    as (route & Hroute). exists route. split; [done|].
  assert (Router_FindRoute ip6addr_aton packet s
          = match route with
            | Some j => let! i := rd (wr_Routes s) (Z.of_nat j) in Ok (Some i)
            | None => Ok None
            end) as Hfind.
  { unfold Router_FindRoute. rewrite Hdest. cbn [obind]. rewrite Hc. cbn [obind].
    unfold router_exit in Hroute. by rewrite Hroute. }
  unfold WireGuardRouter_Send. destruct route as [j|].
  - pose proof (FindRoute_index _ _ _ _ Hn Hd Hroute) as Hj. simpl in Hj. rewrite Hlen in Hj.
    apply lookup_lt_is_Some in Hj as [i Hi]. pose proof (ro_routes _ Hs) as Hr.
    rewrite Forall_lookup in Hr. destruct (Hr j i Hi) as (peer & Hp & _).
    exists i, peer. split_and!; [done|done|by eapply Hall|].
    apply wp_bind, wp_get. rewrite Hfind.
    assert (rd (wr_Routes s) (Z.of_nat j) = Ok i) as ->.
    { apply rd_lookup. rewrite Nat2Z.id. split; [lia|done]. }
    apply wp_bind, wp_lift. by apply Router_Send_spec.
  - unfold ebind, eget, elift. by rewrite Hfind.
Qed.


End invariant.

(** ** The tunnel of Tunnel implements the interface *)

#[export] Instance WireGuardTunnel_ops {D} `{!Wireguard D} : TunnelOps (WireGuardTunnel D) := {|
  tun_AddPeer key := WireGuardTunnel_AddPeer key (replicate 32 0) 10 false;
  tun_ActivatePeer := WireGuardTunnel_ActivatePeer;
  tun_CreateHandshake := WireGuardTunnel_CreateHandshake;
  tun_ProcessPacketFrom := WireGuardTunnel_ProcessPacketFrom;
  tun_ProcessPacket := WireGuardTunnel_ProcessPacket;
  tun_Encrypt := WireGuardTunnel_Encrypt;
  tun_UpdateTimers := WireGuardTunnel_UpdateTimers;
  tun_HasSession := WireGuardTunnel_HasSession
|}.

Section instance.
  Context {D : Type} `{!Wireguard D} `{!WireguardLaws D}.

(** Every reference is to a device of the tunnel. *)
Definition tunnel_wf (t : WireGuardTunnel D) : Prop :=
  Forall (fun r => (pr_device r < length (wt_Devices t))%nat) (wt_Peers t).

Definition same_peers (n : nat) {A} (r : outcome A) (t : WireGuardTunnel D) : Prop :=
  tunnel_wf t ∧ length (wt_Peers t) = n.

(** The call rkeeps the references and their number. *)
Definition tkeeps {A} (m : eff (WireGuardTunnel D) A) : Prop :=
  ∀ t, tunnel_wf t → wp m (same_peers (length (wt_Peers t))) t.

Lemma tkeeps_bind {A B} (m : eff (WireGuardTunnel D) A) (k : A → eff (WireGuardTunnel D) B) :
  tkeeps m → (∀ a, tkeeps (k a)) → tkeeps (ebind m k).
Proof.
  intros Hm Hk t Ht. apply wp_bind. eapply wp_mono; [by apply Hm|].
  intros [a|e|] t' [Ht' Hn]; [|done..]. rewrite <- Hn. by apply Hk.
Qed.

Lemma tkeeps_ret {A} (a : A) : tkeeps (eret a).
Proof. intros t Ht. by apply wp_ret. Qed.

Lemma tkeeps_throw {A} e : tkeeps (ethrow (A := A) e).
Proof. intros t Ht. by apply wp_throw. Qed.

Lemma tkeeps_lift {A} (m : outcome A) : tkeeps (elift m).
Proof. intros t Ht. by apply wp_lift. Qed.

Lemma tkeeps_GetPeer id : tkeeps (Impl_GetPeer id).
Proof.
  intros t Ht. unfold Impl_GetPeer. apply wp_bind, wp_get.
  destruct (wt_Peers t !! id); [by apply wp_ret|by apply wp_throw].
Qed.

Lemma tkeeps_get_device i : tkeeps (get_device i).
Proof. intros t Ht. unfold get_device. by wp_auto. Qed.

Lemma tkeeps_put_device i d : tkeeps (put_device i d).
Proof.
  intros t Ht. unfold put_device. apply wp_mod. split; [|done].
  unfold tunnel_wf in *. simpl. by rewrite length_insert.
Qed.

Lemma tkeeps_get_peer r : tkeeps (get_peer r).
Proof. apply tkeeps_bind; [apply tkeeps_get_device|]. intros. apply tkeeps_ret. Qed.

Lemma tkeeps_put_peer r peer : tkeeps (put_peer r peer).
Proof. apply tkeeps_bind; [apply tkeeps_get_device|]. intros. apply tkeeps_put_device. Qed.

End instance.

Create HintDb tunnel.
#[export] Hint Resolve tkeeps_ret tkeeps_throw tkeeps_lift tkeeps_GetPeer tkeeps_get_device
  tkeeps_put_device tkeeps_get_peer tkeeps_put_peer : tunnel.

(** [tkeeps_auto]: through a method, step by step and branch by branch. *)
Ltac tkeeps_auto :=
  repeat first
    [ solve [auto with tunnel]
    | match goal with
      | |- tkeeps (ebind _ _) => apply tkeeps_bind; [|intros ?]
      | |- tkeeps (let _ := _ in _) => cbv zeta
      | |- tkeeps (match ?x with _ => _ end) => destruct x
      end ].

Section laws.
  Context {D : Type} `{!Wireguard D} `{!WireguardLaws D}.

Lemma tkeeps_ActivatePeer id : tkeeps (WireGuardTunnel_ActivatePeer id).
Proof. unfold WireGuardTunnel_ActivatePeer. tkeeps_auto. Qed.

Lemma tkeeps_CreateHandshake now id : tkeeps (WireGuardTunnel_CreateHandshake now id).
Proof. unfold WireGuardTunnel_CreateHandshake. tkeeps_auto. Qed.

Lemma tkeeps_Encrypt now id plaintext : tkeeps (WireGuardTunnel_Encrypt now id plaintext).
Proof. unfold WireGuardTunnel_Encrypt. tkeeps_auto. Qed.

Lemma tkeeps_UpdateTimers now id : tkeeps (WireGuardTunnel_UpdateTimers now id).
Proof. unfold WireGuardTunnel_UpdateTimers. tkeeps_auto. Qed.

Lemma tkeeps_receive_initiation id packet : tkeeps (receive_initiation id packet).
Proof. unfold receive_initiation. tkeeps_auto. Qed.

Lemma tkeeps_receive_response now id packet : tkeeps (receive_response now id packet).
Proof. unfold receive_response. pose proof tkeeps_Encrypt. tkeeps_auto. Qed.

Lemma tkeeps_receive_cookie id packet : tkeeps (receive_cookie id packet).
Proof. unfold receive_cookie. tkeeps_auto. Qed.

Lemma tkeeps_receive_transport now id packet : tkeeps (receive_transport now id packet).
Proof.
  intros t Ht. unfold receive_transport, Impl_GetPeer. apply wp_bind, wp_bind, wp_get.
  destruct (wt_Peers t !! id) as [reference|] eqn:Hr; [|by apply wp_throw].
  apply wp_ret. apply wp_bind. unfold get_peer, get_device. apply wp_bind, wp_bind, wp_get, wp_lift.
  destruct (rd _ _) as [d| |]; [|done..]. apply wp_ret.
  destruct (get_peer_keypair_for_idx _ _) as [slot|]; [|by apply wp_ret]. cbv zeta.
  destruct (_ || _); [by apply wp_ret|]. destruct (DecryptTransport _ _ _); [|by apply wp_ret].
  apply wp_bind, wp_lift. destruct (ReplayFor_Accept _ _ _) as [[accepted sessions]| |]; [|done..].
  unfold put_sessions. apply wp_bind, wp_mod. set (t1 := wt_set_peers _ t).
  assert (tunnel_wf t1) as Ht1.
  { unfold tunnel_wf, t1 in *. simpl. apply Forall_insert; [done|].
    rewrite Forall_lookup in Ht. exact (Ht id reference Hr). }
  replace (length (wt_Peers t)) with (length (wt_Peers t1)) by apply length_insert.
  revert Ht1. generalize t1. clear. intros t1 Ht1. revert t1 Ht1.
  change (tkeeps (if negb accepted then eret None
                  else ebind (put_peer reference (received_update now (peer_at d (pr_peer reference)) slot))
                         (fun _ => ebind (elift (innerLength l)) (fun inner =>
                           if zlen l <? inner then eret None
                           else eret (Some {| rp_Peer := id; rp_Plaintext := take (Z.to_nat inner) l;
                                              rp_Reply := []; rp_SessionEstablished := false |}))))).
  tkeeps_auto.
Qed.

Lemma tkeeps_ProcessPacketFrom now id packet : tkeeps (WireGuardTunnel_ProcessPacketFrom now id packet).
Proof.
  unfold WireGuardTunnel_ProcessPacketFrom. pose proof tkeeps_receive_initiation.
  pose proof tkeeps_receive_response. pose proof tkeeps_receive_cookie.
  pose proof tkeeps_receive_transport. tkeeps_auto.
Qed.

Lemma tkeeps_get_bind {B} (k : WireGuardTunnel D → eff (WireGuardTunnel D) B) :
  (∀ t, tkeeps (k t)) → tkeeps (ebind eget k).
Proof. intros Hk t Ht. apply wp_bind, wp_get. by apply Hk. Qed.

Lemma tkeeps_receive_by_device todo index packet : tkeeps (receive_by_device todo index packet).
Proof.
  revert index. induction todo as [|todo IH]; intros index; cbn [receive_by_device]; [tkeeps_auto|].
  apply tkeeps_bind; [auto with tunnel|]. intros d. cbv zeta.
  destruct (wireguard_process_initiation_message d packet) as [initiatingPeer d1].
  apply tkeeps_bind; [auto with tunnel|]. intros _. destruct initiatingPeer as [peer|]; [|apply IH].
  apply tkeeps_get_bind. intros t. tkeeps_auto.
Qed.

Lemma tkeeps_receive_by_peer now todo id packet : tkeeps (receive_by_peer now todo id packet).
Proof.
  revert id. induction todo as [|todo IH]; intros id; cbn [receive_by_peer]; [tkeeps_auto|].
  apply tkeeps_bind; [apply tkeeps_ProcessPacketFrom|]. intros [r|]; [tkeeps_auto|apply IH].
Qed.

Lemma tkeeps_ProcessPacket now packet : tkeeps (WireGuardTunnel_ProcessPacket now packet).
Proof.
  unfold WireGuardTunnel_ProcessPacket. apply tkeeps_get_bind. intros t.
  case_match; [apply tkeeps_receive_by_device|apply tkeeps_receive_by_peer].
Qed.

(** A device more rkeeps the references. *)
Lemma AddDevice_law (t : WireGuardTunnel D) n :
  tunnel_wf t → length (wt_Peers t) = n →
  wp Impl_AddDevice (fun r t' => same_peers n r t'
    ∧ ∀ i, r = Ok i → (i < length (wt_Devices t'))%nat) t.
Proof.
  intros Ht Hn. unfold Impl_AddDevice. apply wp_bind, wp_get.
  destruct (wireguard_device_init _) as [d|]; [|by apply wp_throw].
  apply wp_bind, wp_mod, wp_ret. split; [split; [|done]|].
  - eapply Forall_impl; [exact Ht|]. simpl. intros r Hr. rewrite length_app. lia.
  - intros i [= <-]. simpl. rewrite length_app. simpl. lia.
Qed.

Lemma wf_set_devices (t : WireGuardTunnel D) devices :
  tunnel_wf t → length devices = length (wt_Devices t) → tunnel_wf (wt_set_devices devices t).
Proof. unfold tunnel_wf. simpl. by intros Ht ->. Qed.

Lemma wf_add_peer (t : WireGuardTunnel D) device peer :
  tunnel_wf t → (device < length (wt_Devices t))%nat →
  tunnel_wf (wt_set_peers (wt_Peers t ++ [{| pr_device := device; pr_peer := peer;
                                            pr_replaySessions := [] |}]) t).
Proof.
  unfold tunnel_wf. simpl. intros Ht Hd. apply Forall_app. split; [done|]. by constructor.
Qed.

Lemma wp_get_device t i (Q : outcome D → WireGuardTunnel D → Prop) :
  Q UB t → (∀ d, (i < length (wt_Devices t))%nat → Q (Ok d) t) → wp (get_device i) Q t.
Proof.
  intros HU HQ. unfold get_device. wp_auto. unfold rd. rewrite (proj2 (Z.ltb_ge _ _)), Nat2Z.id by lia.
  destruct (wt_Devices t !! i) eqn:E; [|done]. apply HQ. by eapply lookup_lt_Some.
Qed.

Lemma AddPeer_law key preshared keepalive auto t :
  tunnel_wf t →
  wp (WireGuardTunnel_AddPeer key preshared keepalive auto) (fun r t' => tunnel_wf t'
    ∧ match r with
      | Ok id => id = length (wt_Peers t) ∧ length (wt_Peers t') = S (length (wt_Peers t))
      | _ => length (wt_Peers t') = length (wt_Peers t)
      end) t.
Proof.
  intros Ht. unfold WireGuardTunnel_AddPeer. apply wp_bind, wp_get. cbv zeta.
  apply wp_bind, wp_get_device; [done|]. intros d Hback. apply wp_bind.
  set (n := length (wt_Peers t)). eapply (wp_mono _ (fun r t' => same_peers n r t'
    ∧ ∀ device allocated, r = Ok (device, allocated) → (device < length (wt_Devices t'))%nat)).
  { destruct (peer_alloc d) as [peer|]; [apply wp_ret; split; [done|naive_solver]|].
    apply wp_bind. eapply wp_mono; [by apply AddDevice_law|]. simpl. intros [device| |] t1 [Hs Hd]; [|done..].
    apply wp_bind, wp_get_device; [done|]. intros d1 Hd1. apply wp_ret. split; [done|naive_solver]. }
  simpl. intros [[device allocated]| |] t1 [[Ht1 Hn] Hd]; [|done..].
  specialize (Hd _ _ eq_refl). destruct allocated as [peer|]; [|by apply wp_throw].
  apply wp_bind, wp_get_device; [done|]. intros d1 _.
  destruct (wireguard_peer_init d1 peer key preshared) as [ok d2].
  unfold put_device. apply wp_bind, wp_mod.
  assert (tunnel_wf (wt_set_devices (<[device := d2]> (wt_Devices t1)) t1)) as Ht2
    by (apply wf_set_devices; [done|apply length_insert]).
  destruct ok; cbn [negb]; [|by apply wp_throw].
  apply wp_bind, wp_mod, wp_bind, wp_mod, wp_bind, wp_get, wp_ret. split.
  - apply wf_add_peer; [apply wf_set_devices; [done|apply length_insert]|].
    simpl. by rewrite !length_insert.
  - simpl. rewrite length_app. simpl. lia.
Qed.

Lemma tunnel_wf_peer (t : WireGuardTunnel D) id :
  tunnel_wf t → (id < length (wt_Peers t))%nat → ∃ reference d, tunnel_peer t id = Some (reference, d).
Proof.
  intros Ht [reference Hr]%lookup_lt_is_Some. unfold tunnel_wf in Ht. rewrite Forall_lookup in Ht.
  destruct (lookup_lt_is_Some_2 _ _ (Ht id reference Hr)) as [d Hd].
  exists reference, d. by apply tunnel_peer_Some.
Qed.

Lemma HasSession_eq now (t : WireGuardTunnel D) id reference d :
  tunnel_peer t id = Some (reference, d) →
  WireGuardTunnel_HasSession now id t
  = (Ok (bool_decide (is_Some (FindSendingKeypair now (peer_at d (pr_peer reference))))), t).
Proof.
  intros Hp. unfold WireGuardTunnel_HasSession.
  by rewrite (ebind_Ok _ _ _ _ _ (GetPeer_spec _ _ _ _ Hp)), (ebind_Ok _ _ _ _ _ (get_peer_spec _ _ _ _ Hp)).
Qed.

(** A peer with a session can be sent to. *)
Lemma HasSession_Encrypt now (t : WireGuardTunnel D) id plaintext :
  tunnel_wf t → WireGuardTunnel_HasSession now id t = (Ok true, t) →
  ∃ packet, (WireGuardTunnel_Encrypt now id plaintext t).1 = Ok packet.
Proof.
  intros Ht Hs. destruct (decide (id < length (wt_Peers t))%nat) as [Hid|Hid].
  - destruct (tunnel_wf_peer t id Ht Hid) as (reference & d & Hp).
    rewrite (HasSession_eq _ _ _ _ _ Hp) in Hs. injection Hs as Hs. apply bool_decide_eq_true in Hs as [slot Hs].
    unfold WireGuardTunnel_Encrypt.
    rewrite (ebind_Ok _ _ _ _ _ (GetPeer_spec _ _ _ _ Hp)), (ebind_Ok _ _ _ _ _ (get_peer_spec _ _ _ _ Hp)), Hs.
    cbv zeta. unfold ebind at 1, elift, EncryptTransport at 1.
    destruct (law_aead_total (kp_sending_key (keypair_of (peer_at d (pr_peer reference)) slot))
                (TransportNonce (kp_sending_counter (keypair_of (peer_at d (pr_peer reference)) slot)))
                (plaintext ++ replicate (Z.to_nat (paddedLength (zlen plaintext) - zlen plaintext)) 0))
      as [output Hout]. rewrite Hout. destruct (law_aead _ _ _ _ Hout) as [-> _]. rewrite Z.eqb_refl.
    cbv beta iota. rewrite (ebind_Ok _ _ _ _ _ (put_peer_spec _ _ _ _ _ Hp)). by eexists.
  - revert Hs. unfold WireGuardTunnel_HasSession, Impl_GetPeer, ebind, eget.
    rewrite (proj2 (lookup_ge_None _ _)) by lia. done.
Qed.

#[export] Instance WireGuardTunnel_laws : TunnelLaws (WireGuardTunnel D).
Proof.
  refine {| tun_ok := tunnel_wf; tun_peers t := length (wt_Peers t) |}; simpl.
  - intros key t Ht. by apply AddPeer_law.
  - intros id t Ht. by apply tkeeps_ActivatePeer.
  - intros now id t Ht. by apply tkeeps_CreateHandshake.
  - intros now id packet t Ht. by apply tkeeps_ProcessPacketFrom.
  - intros now packet t Ht. by apply tkeeps_ProcessPacket.
  - intros now id plaintext t Ht. pose proof (tkeeps_Encrypt now id plaintext t Ht) as [Ht' Hn].
    split_and!; [exact Ht'|exact Hn|]. intros Hs. by apply HasSession_Encrypt.
  - intros now id t Ht. by apply tkeeps_UpdateTimers.
  - intros now id t Ht Hid. destruct (tunnel_wf_peer t id Ht Hid) as (reference & d & Hp).
    eexists. by apply HasSession_eq.
Defined.

End laws.

(** ** A concrete router *)

#[local] Existing Instance demo_wireguard.
#[local] Existing Instance demo_wireguard_laws.

Definition demo_key : bytes := replicate 32 7.

Definition demo_router_config : PeerConfig :=
  demo_peer "laptop.example.ts.net." "100.64.0.2" [demo_prefix 7 7 7 7 32] false.

(** A peer with a session and two packets in its queue. *)
Definition demo_router_peer : RouterPeer := {|
  rt_Config := demo_router_config; rt_PublicKey := demo_key; rt_TunnelPeer := 0; rt_Active := true;
  rt_Pending := [demo_ip; demo_ip ++ [1]]; rt_PendingBytes := 43 |}.

Definition demo_router : WireGuardRouter (WireGuardTunnel (nat → wireguard_peer)) := {|
  wr_Tunnel := demo_sender; wr_Peers := [demo_router_peer]; wr_Routes := [0%nat]; wr_ExitNode := [] |}.

Lemma demo_sender_wf : tunnel_wf demo_sender.
Proof. constructor; [apply Nat.ltb_lt; reflexivity|constructor]. Qed.

Lemma demo_router_ok : router_ok demo_router.
Proof.
  constructor.
  - exact demo_sender_wf.
  - constructor; [|constructor]. split; [apply Nat.ltb_lt; reflexivity|].
    split; [vm_compute; reflexivity|]. split; vm_compute; discriminate.
  - apply NoDup_singleton.
  - apply NoDup_singleton.
  - constructor; [by exists demo_router_peer|constructor].
Qed.

Lemma Router_Flush_in_order_witness :
  ∃ n packets s',
    Router_Flush 2000 0 demo_router = (Ok (map (data_packet demo_router_peer) packets), s')
    ∧ encrypt_run 2000 0 (take n [demo_ip; demo_ip ++ [1]]) demo_sender = (Ok packets, wr_Tunnel s').
Proof.
  destruct (Router_Flush_in_order 2000 0 demo_router demo_router_peer demo_router_ok eq_refl)
    as (n & packets & s' & Hf & _ & _ & Hrun & _).
  exists n, packets, s'. split; [exact Hf|exact Hrun].
Defined.

Lemma WireGuardRouter_reachable_ok_witness :
  router_ok (foldl (fun s call => router_step (fun _ => Some demo_key) (fun _ => None) call s)
    (WireGuardRouter_new (fun _ => Some demo_key)
       {| wt_PrivateKey := []; wt_Devices := [demo_device (demo_wg_peer true 11 22 [1] [4])];
          wt_Peers := [] |} [demo_router_config] []).2
    [Call_Send 2000 demo_ip; Call_UpdateTimers 900000; Call_UpdatePeers [] []]).
Proof.
  apply WireGuardRouter_reachable_ok. constructor.
Defined.

Lemma WireGuardRouter_Send_routes_witness :
  ∃ configs, route_configs (wr_Peers demo_router) (wr_Routes demo_router) = Ok configs
    ∧ NetworkConfig_FindRoute (route_network configs) 0x07070707 (router_exit demo_router configs)
      = Ok (Some 0%nat)
    ∧ wp (WireGuardRouter_Send (fun _ => None) 2000 demo_ip)
         (sent_to 2000 demo_ip demo_router 0 demo_router_peer) demo_router.
Proof.
  destruct (WireGuardRouter_Send_routes (fun _ => None) 2000 demo_ip demo_router 0x07070707)
    as (configs & Hc & Hsend); [exact demo_router_ok|vm_compute; reflexivity|by split|].
  injection Hc as <-. destruct Hsend as (route & Hroute & Hspec).
  { repeat constructor; vm_compute; discriminate. }
  assert (route = Some 0%nat) as ->.
  { assert (∀ r, Ok route = Ok r → route = r) as Hinj by by intros r [= ->].
    apply Hinj. rewrite <- Hroute. vm_compute. reflexivity. }
  destruct Hspec as (i & peer & Hi & Hp & _ & Hwp). injection Hi as <-. injection Hp as <-.
  exists [demo_router_config]. split; [reflexivity|]. split; [exact Hroute|exact Hwp].
Defined.

(** ** A responder's queue *)

(** A router whose peer has just answered a handshake of the other side: the session
    waits for its first packet, and a packet waits for the session. *)
Definition responder_peer : RouterPeer := {|
  rt_Config := demo_router_config; rt_PublicKey := demo_key; rt_TunnelPeer := 0; rt_Active := true;
  rt_Pending := [demo_ip]; rt_PendingBytes := 21 |}.

Definition responder_router : WireGuardRouter (WireGuardTunnel (nat → wireguard_peer)) := {|
  wr_Tunnel := demo_receiver; wr_Peers := [responder_peer]; wr_Routes := [0%nat]; wr_ExitNode := [] |}.

Lemma responder_router_ok : router_ok responder_router.
Proof.
  constructor.
  - constructor; [apply Nat.ltb_lt; reflexivity|constructor].
  - constructor; [|constructor]. split; [apply Nat.ltb_lt; reflexivity|].
    split; [vm_compute; reflexivity|]. split; vm_compute; discriminate.
  - apply NoDup_singleton.
  - apply NoDup_singleton.
  - constructor; [by exists responder_peer|constructor].
Qed.

(** A packet that waits for a session can be left behind.  [Receive] flushes the
    queue only when the tunnel reports an established session, which for a responder is
    before the session can be used; the first packet of the other side makes it usable,
    but is not reported as one.  Here the router, in a state that rkeeps the invariant,
    has no session before that packet and has one after it, and yet sends nothing: the
    packet stays in the queue. *)
Theorem Router_confirmed_session_keeps_queue :
  router_ok responder_router
  ∧ (WireGuardRouter_HasSession 3000 demo_key responder_router).1 = Ok false
  ∧ ∃ result s', WireGuardRouter_ReceiveFrom 3000 demo_key demo_packet responder_router = (Ok result, s')
      ∧ rr_Accepted result = true ∧ rr_Plaintext result = [demo_ip] ∧ rr_Outbound result = []
      ∧ (WireGuardRouter_HasSession 3000 demo_key s').1 = Ok true
      ∧ rt_Pending <$> wr_Peers s' = [[demo_ip]].
Proof.
  split; [exact responder_router_ok|]. split; [vm_compute; reflexivity|].
  destruct (WireGuardRouter_ReceiveFrom 3000 demo_key demo_packet responder_router) as [r s'] eqn:E.
  assert (r = Ok {| rr_Source := demo_key; rr_Outbound := []; rr_Plaintext := [demo_ip];
                    rr_SessionEstablished := false; rr_Accepted := true |}) as ->.
  { change r with (r, s').1. rewrite <- E. vm_compute. reflexivity. }
  exists {| rr_Source := demo_key; rr_Outbound := []; rr_Plaintext := [demo_ip];
            rr_SessionEstablished := false; rr_Accepted := true |}, s'.
  assert (s' = (WireGuardRouter_ReceiveFrom 3000 demo_key demo_packet responder_router).2) as ->
    by by rewrite E.
  split_and!; try reflexivity; vm_compute; reflexivity.
Qed.
