(* ===== verification/Magicsock.v ===== *)
(** * Direct paths between peers (wgengine/magicsock)

    [PeerPathState] is what a node knows of the direct path to one peer
    (PeerPathState.cpp); [MagicConnection] is the UDP socket shared by all peers with
    the datagrams queued for each of them (impl/ConnectionImpl.cpp).  The socket is the
    platform's: it is the class [UdpSocket], and [UdpSocketLaws] is what the connection
    relies on.  A [std::map] is an association list sorted by key. *)

From Stdlib Require Import Sorted.
From S2P Require Import Prelude StdMap Net DerpConnection.

(** ** One peer's path *)

Record PeerPathState := {
  ps_directEndpoint : option Endpoint;
  ps_verifiedEndpoints : list Endpoint;
  ps_lastDirectProbe : option Z;
  ps_firstUnansweredDirectSend : option Z
}.

Inductive ResetMode := PreserveVerifiedEndpoints | ForgetVerifiedEndpoints.

#[export] Instance ResetMode_eq_dec : EqDecision ResetMode.
Proof. solve_decision. Defined.

Definition MaximumVerifiedEndpoints : Z := 32.
Definition DirectProbeInterval : Z := 5 * 1000000000.
Definition DirectPathTimeout : Z := 15 * 1000000000.

Definition PeerPathState_new : PeerPathState := {|
  ps_directEndpoint := None; ps_verifiedEndpoints := []; ps_lastDirectProbe := None;
  ps_firstUnansweredDirectSend := None |}.

Definition PeerPathState_HasDirectPath (p : PeerPathState) : bool :=
  match ps_directEndpoint p with Some _ => true | None => false end.

Definition PeerPathState_IsVerified (p : PeerPathState) (endpoint : Endpoint) : bool :=
  bool_decide (endpoint ∈ ps_verifiedEndpoints p).

Definition PeerPathState_TryBeginProbe (now : Z) (p : PeerPathState) : bool * PeerPathState :=
  if PeerPathState_HasDirectPath p
     || match ps_lastDirectProbe p with
        | Some last => now - last <? DirectProbeInterval
        | None => false
        end
  then (false, p)
  else (true, {| ps_directEndpoint := ps_directEndpoint p;
                 ps_verifiedEndpoints := ps_verifiedEndpoints p;
                 ps_lastDirectProbe := Some now;
                 ps_firstUnansweredDirectSend := ps_firstUnansweredDirectSend p |}).

Definition PeerPathState_RememberVerified (endpoint : Endpoint) (p : PeerPathState)
    : PeerPathState :=
  if PeerPathState_IsVerified p endpoint then p else
  let verified := if zlen (ps_verifiedEndpoints p) =? MaximumVerifiedEndpoints
                  then drop 1 (ps_verifiedEndpoints p) else ps_verifiedEndpoints p in
  {| ps_directEndpoint := ps_directEndpoint p;
     ps_verifiedEndpoints := verified ++ [endpoint];
     ps_lastDirectProbe := ps_lastDirectProbe p;
     ps_firstUnansweredDirectSend := ps_firstUnansweredDirectSend p |}.

Definition PeerPathState_MarkDirect (endpoint : Endpoint) (p : PeerPathState)
    : bool * PeerPathState :=
  let changed := negb (bool_decide (ps_directEndpoint p = Some endpoint)) in
  (changed, PeerPathState_RememberVerified endpoint
    {| ps_directEndpoint := Some endpoint;
       ps_verifiedEndpoints := ps_verifiedEndpoints p;
       ps_lastDirectProbe := ps_lastDirectProbe p;
       ps_firstUnansweredDirectSend := None |}).

Definition PeerPathState_MarkDirectSend (now : Z) (p : PeerPathState) : PeerPathState :=
  match ps_directEndpoint p, ps_firstUnansweredDirectSend p with
  | Some _, None =>
      {| ps_directEndpoint := ps_directEndpoint p;
         ps_verifiedEndpoints := ps_verifiedEndpoints p;
         ps_lastDirectProbe := ps_lastDirectProbe p;
         ps_firstUnansweredDirectSend := Some now |}
  | _, _ => p
  end.

Definition PeerPathState_MarkDirectReceive (p : PeerPathState) : PeerPathState :=
  {| ps_directEndpoint := ps_directEndpoint p;
     ps_verifiedEndpoints := ps_verifiedEndpoints p;
     ps_lastDirectProbe := ps_lastDirectProbe p;
     ps_firstUnansweredDirectSend := None |}.

Definition PeerPathState_ExpireDirectPath (now : Z) (p : PeerPathState) : bool * PeerPathState :=
  match ps_directEndpoint p, ps_firstUnansweredDirectSend p with
  | Some _, Some first =>
      if now - first <=? DirectPathTimeout then (false, p)
      else (true, {| ps_directEndpoint := None;
                     ps_verifiedEndpoints := ps_verifiedEndpoints p;
                     ps_lastDirectProbe := ps_lastDirectProbe p;
                     ps_firstUnansweredDirectSend := None |})
  | _, _ => (false, p)
  end.

Definition PeerPathState_Reset (mode : ResetMode) (p : PeerPathState) : PeerPathState :=
  {| ps_directEndpoint := None;
     ps_verifiedEndpoints :=
       if bool_decide (mode = ForgetVerifiedEndpoints) then [] else ps_verifiedEndpoints p;
     ps_lastDirectProbe := ps_lastDirectProbe p;
     ps_firstUnansweredDirectSend := None |}.

(** ** The socket *)

Inductive SocketIoResult := Io_Complete | Io_WouldBlock | Io_Unavailable | Io_Closed.

#[export] Instance SocketIoResult_eq_dec : EqDecision SocketIoResult.
Proof. solve_decision. Defined.

Record UdpDatagram := { ud_Source : Endpoint; ud_Payload : bytes }.

Record UdpReceiveResult := { ur_Result : SocketIoResult; ur_Datagram : UdpDatagram }.

Record UdpSocketOptions := {
  uo_BindEndpoint : Endpoint;
  uo_NetworkInterface : option bytes;
  uo_ReadinessToken : Z
}.

Class UdpSocket (U : Type) := {
  us_TrySendTo : Endpoint → bytes → eff U SocketIoResult;
  us_TryReceive : Z → eff U UdpReceiveResult;
  us_LocalEndpoint : U → outcome Endpoint;
  us_SetWriteInterest : bool → eff U unit;
  (** What the socket shows: the datagrams it took, in order, and whether its owner
      asked for an event when it can take more. *)
  us_sent : U → list (Endpoint * bytes);
  us_writeInterest : U → bool
}.

(** A send takes the datagram when it completes and leaves the socket otherwise, the
    interest is the one last set, and nothing has undefined behaviour.  Sending and
    receiving may throw; setting the interest would only do so for want of memory, which is
    not modelled. *)
Class UdpSocketLaws (U : Type) `{!UdpSocket U} : Prop := {
  us_TrySendTo_law : ∀ destination payload u,
    wp (us_TrySendTo destination payload) (fun r u' =>
      r ≠ UB ∧ us_writeInterest u' = us_writeInterest u
      ∧ us_sent u' = us_sent u ++ match r with
                                  | Ok Io_Complete => [(destination, payload)]
                                  | _ => []
                                  end) u;
  us_TryReceive_law : ∀ maximum u,
    wp (us_TryReceive maximum) (fun r u' =>
      r ≠ UB ∧ us_writeInterest u' = us_writeInterest u ∧ us_sent u' = us_sent u) u;
  us_SetWriteInterest_law : ∀ b u,
    wp (us_SetWriteInterest b) (fun r u' =>
      r = Ok tt ∧ us_writeInterest u' = b ∧ us_sent u' = us_sent u) u;
  us_LocalEndpoint_law : ∀ u, us_LocalEndpoint u ≠ UB
}.

(** ** The connection *)

Inductive MagicStatus := Magic_Ready | Magic_Closed | Magic_Error.

Record MagicEventResult := {
  me_Handled : bool;
  me_Status : MagicStatus;
  me_Datagrams : list UdpDatagram
}.

Inductive DirectSendResult := Direct_Sent | Direct_Queued | Direct_Dropped | Direct_Unavailable.

#[export] Instance DirectSendResult_eq_dec : EqDecision DirectSendResult.
Proof. solve_decision. Defined.

Definition Magic_MaximumPendingPackets : Z := 1024.
Definition Magic_MaximumPendingBytes : Z := 4 * 1024 * 1024.

Record PendingDatagram := { pd_Destination : Endpoint; pd_Payload : bytes }.

Record MagicPeer := {
  mp_Pending : list PendingDatagram;
  mp_Path : PeerPathState;
  mp_PendingBytes : Z
}.

Definition MagicPeer_new : MagicPeer :=
  {| mp_Pending := []; mp_Path := PeerPathState_new; mp_PendingBytes := 0 |}.

Definition mp_set_path path p :=
  {| mp_Pending := mp_Pending p; mp_Path := path; mp_PendingBytes := mp_PendingBytes p |}.
Definition mp_set_pending pending n p :=
  {| mp_Pending := pending; mp_Path := mp_Path p; mp_PendingBytes := n |}.

Record MagicConnection (U : Type) := {
  mc_socket : option U;
  mc_readinessToken : Z;
  mc_peers : list (bytes * MagicPeer)
}.
Arguments mc_socket {U}. Arguments mc_readinessToken {U}. Arguments mc_peers {U}.

(** The loop that makes room in [Queue]. *)
Fixpoint Magic_room (pending : list PendingDatagram) (pendingBytes size : Z)
    : list PendingDatagram * Z :=
  match pending with
  | [] => ([], pendingBytes)
  | front :: rest =>
      if (Magic_MaximumPendingPackets <=? zlen pending)
         || (Magic_MaximumPendingBytes <? pendingBytes + size)
      then Magic_room rest (pendingBytes - zlen (pd_Payload front)) size
      else (pending, pendingBytes)
  end.

Section connection.
  Context {U : Type} `{!UdpSocket U}.

Abbreviation conn := (MagicConnection U).

Definition MagicConnection_new : conn :=
  {| mc_socket := None; mc_readinessToken := 0; mc_peers := [] |}.

Definition mc_set_socket socket token (s : conn) : conn :=
  {| mc_socket := socket; mc_readinessToken := token; mc_peers := mc_peers s |}.
Definition mc_set_peers peers (s : conn) : conn :=
  {| mc_socket := mc_socket s; mc_readinessToken := mc_readinessToken s; mc_peers := peers |}.

(** A call of a method of [*m_socket]. *)
Definition on_socket {A} (m : eff U A) : eff conn A := fun s =>
  match mc_socket s with
  | None => (UB, s)
  | Some u => let '(r, u') := m u in (r, mc_set_socket (Some u') (mc_readinessToken s) s)
  end.

Definition alter_peer (k : bytes) (f : MagicPeer → MagicPeer) : eff conn unit :=
  emod (fun s => mc_set_peers (map_alter k f (mc_peers s)) s).

Definition Magic_CloseSocket : eff conn unit := emod (mc_set_socket None 0).

(** [opened] is what the factory returns for the call. *)
Definition MagicConnection_Open (options : UdpSocketOptions) (opened : outcome (option U))
    : eff conn bool :=
  let* s := eget in
  match mc_socket s with
  | Some _ => eret false
  | None =>
      let* socket := elift opened in
      match socket with
      | None => eret false
      | Some u =>
          emod (mc_set_socket (Some u) (uo_ReadinessToken options)) ;;*
          let* _ := elift (us_LocalEndpoint u) in
          eret true
      end
  end.

Definition MagicConnection_Rebind (options : UdpSocketOptions) (opened : outcome (option U))
    : eff conn bool :=
  Magic_CloseSocket ;;*
  emod (fun s => mc_set_peers
    (map (fun e => (e.1, {| mp_Pending := [];
                            mp_Path := PeerPathState_Reset ForgetVerifiedEndpoints (mp_Path e.2);
                            mp_PendingBytes := 0 |})) (mc_peers s)) s) ;;*
  MagicConnection_Open options opened.

Definition MagicConnection_HasPeer (peer : bytes) (s : conn) : bool :=
  match map_find peer (mc_peers s) with Some _ => true | None => false end.

Definition MagicConnection_AddPeer (peer : bytes) : eff conn bool :=
  let* s := eget in
  let inserted := negb (MagicConnection_HasPeer peer s) in
  emod (fun s => mc_set_peers (map_emplace peer MagicPeer_new (mc_peers s)) s) ;;*
  eret inserted.

Definition any_pending (peers : list (bytes * MagicPeer)) : bool :=
  existsb (fun e => negb (bool_decide (mp_Pending e.2 = []))) peers.

Definition Magic_UpdateWriteInterest : eff conn unit :=
  let* s := eget in
  match mc_socket s with
  | None => eret tt
  | Some _ => on_socket (us_SetWriteInterest (any_pending (mc_peers s)))
  end.

Definition MagicConnection_RemovePeer (peer : bytes) : eff conn bool :=
  let* s := eget in
  if negb (MagicConnection_HasPeer peer s) then eret false else
  emod (fun s => mc_set_peers (map_erase peer (mc_peers s)) s) ;;*
  Magic_UpdateWriteInterest ;;*
  eret true.

Definition MagicConnection_LocalEndpoint (s : conn) : outcome (option Endpoint) :=
  match mc_socket s with
  | None => Ok None
  | Some u => let! e := us_LocalEndpoint u in Ok (Some e)
  end.

Definition MagicConnection_TrySendProbe (destination : Endpoint) (payload : bytes)
    : eff conn (option SocketIoResult) :=
  let* s := eget in
  match mc_socket s with
  | None => eret None
  | Some _ => let* r := on_socket (us_TrySendTo destination payload) in eret (Some r)
  end.

Fixpoint probe_endpoints (endpoints : list Endpoint) (payload : bytes) : eff conn unit :=
  match endpoints with
  | [] => eret tt
  | endpoint :: rest =>
      let* _ := on_socket (us_TrySendTo endpoint payload) in probe_endpoints rest payload
  end.

Definition MagicConnection_ProbePeer (peer payload : bytes) : eff conn unit :=
  let* s := eget in
  match mc_socket s, map_find peer (mc_peers s) with
  | Some _, Some found => probe_endpoints (ps_verifiedEndpoints (mp_Path found)) payload
  | _, _ => eret tt
  end.

Definition MagicConnection_TrySendDirect (peer : bytes) (destination : Endpoint) (payload : bytes)
    : eff conn (option SocketIoResult) :=
  let* s := eget in
  match mc_socket s with
  | None => eret None
  | Some _ =>
      if negb (MagicConnection_HasPeer peer s) then eret None else
      let* r := on_socket (us_TrySendTo destination payload) in eret (Some r)
  end.

(** [Queue(peerState, destination, payload)], [peerState] being the value of [peer]. *)
Definition Magic_Queue (peer : bytes) (destination : Endpoint) (payload : bytes)
    : eff conn bool :=
  alter_peer peer (fun p =>
    let '(pending, n) := Magic_room (mp_Pending p) (mp_PendingBytes p) (zlen payload) in
    mp_set_pending pending n p) ;;*
  if Magic_MaximumPendingBytes <? zlen payload then eret false else
  alter_peer peer (fun p =>
    mp_set_pending (mp_Pending p ++ [{| pd_Destination := destination; pd_Payload := payload |}])
      (mp_PendingBytes p + zlen payload) p) ;;*
  Magic_UpdateWriteInterest ;;*
  eret true.

Definition MagicConnection_SendDirect (peer : bytes) (destination : Endpoint) (payload : bytes)
    : eff conn DirectSendResult :=
  let* s := eget in
  match mc_socket s, map_find peer (mc_peers s) with
  | Some _, Some peerState =>
      if negb (bool_decide (mp_Pending peerState = [])) then
        let* queued := Magic_Queue peer destination payload in
        eret (if queued : bool then Direct_Queued else Direct_Dropped)
      else
        let* sent := on_socket (us_TrySendTo destination payload) in
        match sent with
        | Io_Complete => eret Direct_Sent
        | Io_Closed => eret Direct_Unavailable
        | Io_Unavailable => eret Direct_Unavailable
        | Io_WouldBlock =>
            let* queued := Magic_Queue peer destination payload in
            eret (if queued : bool then Direct_Queued else Direct_Dropped)
        end
  | _, _ => eret Direct_Unavailable
  end.

Definition alter_path (peer : bytes) (f : PeerPathState → PeerPathState) : eff conn unit :=
  alter_peer peer (fun p => mp_set_path (f (mp_Path p)) p).

Definition MagicConnection_Send (now : Z) (peer payload : bytes) (expectResponse : bool)
    : eff conn DirectSendResult :=
  let* s := eget in
  match map_find peer (mc_peers s) with
  | None => eret Direct_Unavailable
  | Some found =>
      match ps_directEndpoint (mp_Path found) with
      | None => eret Direct_Unavailable
      | Some endpoint =>
          let* result := MagicConnection_SendDirect peer endpoint payload in
          (if expectResponse then alter_path peer (PeerPathState_MarkDirectSend now)
           else eret tt) ;;*
          eret result
      end
  end.

Definition MagicConnection_HasDirectPath (peer : bytes) (s : conn) : bool :=
  match map_find peer (mc_peers s) with
  | Some found => PeerPathState_HasDirectPath (mp_Path found)
  | None => false
  end.

Definition MagicConnection_DirectEndpoint (peer : bytes) (s : conn) : option Endpoint :=
  match map_find peer (mc_peers s) with
  | Some found => ps_directEndpoint (mp_Path found)
  | None => None
  end.

Definition MagicConnection_AcceptDirectSource (endpoint : Endpoint) : eff conn (option bytes) :=
  let* s := eget in
  match List.find (fun e => PeerPathState_IsVerified (mp_Path e.2) endpoint) (mc_peers s) with
  | None => eret None
  | Some (peer, _) =>
      alter_path peer PeerPathState_MarkDirectReceive ;;*
      eret (Some peer)
  end.

(** [found != m_peers.end() && found->second.Path.<operation>]: an operation of a
    path that returns a flag. *)
Definition path_flag (peer : bytes) (f : PeerPathState → bool * PeerPathState) : eff conn bool :=
  let* s := eget in
  match map_find peer (mc_peers s) with
  | None => eret false
  | Some found =>
      alter_path peer (fun p => (f p).2) ;;*
      eret (f (mp_Path found)).1
  end.

Definition MagicConnection_TryBeginProbe (now : Z) (peer : bytes) : eff conn bool :=
  path_flag peer (PeerPathState_TryBeginProbe now).

Definition MagicConnection_MarkDirect (peer : bytes) (endpoint : Endpoint) : eff conn bool :=
  path_flag peer (PeerPathState_MarkDirect endpoint).

Definition MagicConnection_ExpireDirectPath (now : Z) (peer : bytes) : eff conn bool :=
  path_flag peer (PeerPathState_ExpireDirectPath now).

Definition MagicConnection_ResetPath (peer : bytes) (mode : ResetMode) : eff conn unit :=
  alter_path peer (PeerPathState_Reset mode).

(** The loop of [FlushPeer]; [pending] is the queue it still has to send. *)
Fixpoint FlushPeer_loop (peer : bytes) (pending : list PendingDatagram)
    : eff conn SocketIoResult :=
  match pending with
  | [] => eret Io_Complete
  | front :: rest =>
      let* sent := on_socket (us_TrySendTo (pd_Destination front) (pd_Payload front)) in
      match sent with
      | Io_Unavailable | Io_Complete =>
          alter_peer peer (fun p =>
            mp_set_pending (drop 1 (mp_Pending p)) (mp_PendingBytes p - zlen (pd_Payload front)) p) ;;*
          FlushPeer_loop peer rest
      | _ => eret sent
      end
  end.

(** The loop of [FlushPending] over the map; flushing a peer changes no other. *)
Fixpoint FlushPending_loop (peers : list (bytes * MagicPeer)) : eff conn MagicStatus :=
  match peers with
  | [] => Magic_UpdateWriteInterest ;;* eret Magic_Ready
  | (peer, state) :: rest =>
      if bool_decide (mp_Pending state = []) then FlushPending_loop rest else
      let* flushed := FlushPeer_loop peer (mp_Pending state) in
      match flushed with
      | Io_Closed => eret Magic_Closed
      | Io_WouldBlock => Magic_UpdateWriteInterest ;;* eret Magic_Ready
      | _ => FlushPending_loop rest
      end
  end.

Definition Magic_FlushPending : eff conn MagicStatus :=
  let* s := eget in FlushPending_loop (mc_peers s).

(** The receive loop of [ProcessEvent]. *)
Fixpoint receive_loop (todo : nat) (maximumDatagramSize : Z) (datagrams : list UdpDatagram)
    : eff conn MagicEventResult :=
  match todo with
  | O => eret {| me_Handled := true; me_Status := Magic_Ready; me_Datagrams := datagrams |}
  | S todo' =>
      let* received := on_socket (us_TryReceive maximumDatagramSize) in
      match ur_Result received with
      | Io_WouldBlock =>
          eret {| me_Handled := true; me_Status := Magic_Ready; me_Datagrams := datagrams |}
      | Io_Closed =>
          eret {| me_Handled := true; me_Status := Magic_Closed; me_Datagrams := datagrams |}
      | _ => receive_loop todo' maximumDatagramSize (datagrams ++ [ur_Datagram received])
      end
  end.

Definition MagicConnection_ProcessEvent (event : Event) (maximumDatagrams maximumDatagramSize : Z)
    : eff conn MagicEventResult :=
  let* s := eget in
  let status st := {| me_Handled := true; me_Status := st; me_Datagrams := [] |} in
  match mc_socket s with
  | None => eret {| me_Handled := false; me_Status := Magic_Ready; me_Datagrams := [] |}
  | Some _ =>
      if (mc_readinessToken s =? 0) || negb (ev_Token event =? mc_readinessToken s)
      then eret {| me_Handled := false; me_Status := Magic_Ready; me_Datagrams := [] |} else
      if HasReadiness (ev_Readiness event) Readiness_Error then eret (status Magic_Error) else
      if HasReadiness (ev_Readiness event) Readiness_Closed then eret (status Magic_Closed) else
      let* flushed :=
        (if HasReadiness (ev_Readiness event) Readiness_Writable then Magic_FlushPending
         else eret Magic_Ready) in
      match flushed with
      | Magic_Ready =>
          if negb (HasReadiness (ev_Readiness event) Readiness_Readable)
          then eret (status Magic_Ready)
          else receive_loop (Z.to_nat maximumDatagrams) maximumDatagramSize []
      | other => eret (status other)
      end
  end.

Definition MagicConnection_QueuedPackets (peer : bytes) (s : conn) : Z :=
  match map_find peer (mc_peers s) with Some found => zlen (mp_Pending found) | None => 0 end.

Definition MagicConnection_QueuedBytes (peer : bytes) (s : conn) : Z :=
  match map_find peer (mc_peers s) with Some found => mp_PendingBytes found | None => 0 end.

Definition MagicConnection_Close : eff conn unit :=
  emod (mc_set_peers []) ;;* Magic_CloseSocket.

End connection.

(** ** Paths *)

(** The path in use was verified, and an answer is only awaited on a path in use. *)
Record path_ok (p : PeerPathState) : Prop := {
  po_nodup : NoDup (ps_verifiedEndpoints p);
  po_bound : zlen (ps_verifiedEndpoints p) <= MaximumVerifiedEndpoints;
  po_direct : ∀ e, ps_directEndpoint p = Some e → e ∈ ps_verifiedEndpoints p;
  po_waiting : ps_firstUnansweredDirectSend p ≠ None → ps_directEndpoint p ≠ None
}.

Lemma path_ok_new : path_ok PeerPathState_new.
Proof. split; try done. constructor. Qed.

Lemma elem_of_drop1 {A} (x : A) l : x ∈ drop 1 l → x ∈ l.
Proof. destruct l; simpl; [done|]. by right. Qed.

Lemma RememberVerified_verified e e' p :
  e' ∈ ps_verifiedEndpoints (PeerPathState_RememberVerified e p) →
  e' ∈ ps_verifiedEndpoints p ∨ e' = e.
Proof.
  unfold PeerPathState_RememberVerified. ifb; [by left|]. simpl.
  rewrite elem_of_app, list_elem_of_singleton. intros [H| ->]; [left|by right].
  ifb_in H; [by apply elem_of_drop1|done].
Qed.

Lemma path_ok_MarkDirect e p :
  path_ok p → path_ok (PeerPathState_MarkDirect e p).2
              ∧ ps_directEndpoint (PeerPathState_MarkDirect e p).2 = Some e
              ∧ e ∈ ps_verifiedEndpoints (PeerPathState_MarkDirect e p).2.
Proof.
  intros [Hn Hb Hd Hw]. unfold PeerPathState_MarkDirect, PeerPathState_RememberVerified,
    PeerPathState_IsVerified. simpl. case_bool_decide as Hin; simpl.
  { split_and!; [|done..]. split; simpl; try done. by intros ? [= <-]. }
  assert (∀ l, (∀ x, x ∈ l → x ∈ ps_verifiedEndpoints p) → NoDup l → NoDup (l ++ [e])) as Hl.
  { intros l Hsub Hl. apply NoDup_app. split_and!; [done| |apply NoDup_singleton].
    intros x Hx ->%list_elem_of_singleton. by apply Hin, Hsub. }
  split_and!; [|done|by apply elem_of_app; right; left].
  split; simpl; try done.
  - ifb; apply Hl; try done; [by intros ?; apply elem_of_drop1|].
    destruct (ps_verifiedEndpoints p); [constructor|]. by apply NoDup_cons in Hn as [_ ?].
  - unfold MaximumVerifiedEndpoints in *. ifb; zlia.
  - intros ? [= <-]. apply elem_of_app. right. by left.
Qed.

Lemma path_ok_TryBeginProbe now p : path_ok p → path_ok (PeerPathState_TryBeginProbe now p).2.
Proof. intros [????]. unfold PeerPathState_TryBeginProbe. ifb; by split. Qed.

Lemma path_ok_MarkDirectSend now p : path_ok p → path_ok (PeerPathState_MarkDirectSend now p).
Proof.
  intros [????]. unfold PeerPathState_MarkDirectSend.
  repeat case_match; split; simpl; naive_solver.
Qed.

Lemma path_ok_MarkDirectReceive p : path_ok p → path_ok (PeerPathState_MarkDirectReceive p).
Proof. intros [????]. by split. Qed.

Lemma path_ok_ExpireDirectPath now p :
  path_ok p → path_ok (PeerPathState_ExpireDirectPath now p).2.
Proof.
  intros [????]. unfold PeerPathState_ExpireDirectPath.
  repeat case_match; split; simpl; naive_solver.
Qed.

Lemma path_ok_Reset mode p : path_ok p → path_ok (PeerPathState_Reset mode p).
Proof. intros [????]. split; simpl; try done; case_bool_decide; done || constructor. Qed.

(** The operations that neither verify nor forget an endpoint. *)
Lemma verified_kept now p :
  ps_verifiedEndpoints (PeerPathState_TryBeginProbe now p).2 = ps_verifiedEndpoints p
  ∧ ps_verifiedEndpoints (PeerPathState_MarkDirectSend now p) = ps_verifiedEndpoints p
  ∧ ps_verifiedEndpoints (PeerPathState_ExpireDirectPath now p).2 = ps_verifiedEndpoints p.
Proof.
  unfold PeerPathState_TryBeginProbe, PeerPathState_MarkDirectSend,
    PeerPathState_ExpireDirectPath. split_and!; repeat case_match; done.
Qed.

(** ** The queue of a peer *)

Definition payloads (l : list PendingDatagram) : list bytes := map pd_Payload l.

Definition pending_bytes (l : list PendingDatagram) : Z :=
  foldr (fun d n => zlen (pd_Payload d) + n) 0 l.

Lemma pending_bytes_app l k : pending_bytes (l ++ k) = pending_bytes l + pending_bytes k.
Proof. induction l as [|p l IH]; simpl; [done|]. rewrite IH. lia. Qed.

Lemma pending_bytes_nonneg l : 0 <= pending_bytes l.
Proof. induction l as [|p l IH]; simpl; [done|]. pose proof (zlen_nonneg (pd_Payload p)). lia. Qed.

Record magic_peer_ok (p : MagicPeer) : Prop := {
  mo_bytes : mp_PendingBytes p = pending_bytes (mp_Pending p);
  mo_maximum : mp_PendingBytes p <= Magic_MaximumPendingBytes;
  mo_packets : zlen (mp_Pending p) <= Magic_MaximumPendingPackets;
  mo_path : path_ok (mp_Path p)
}.

Lemma magic_peer_ok_new : magic_peer_ok MagicPeer_new.
Proof. split; try done. apply path_ok_new. Qed.

Lemma Magic_room_spec pending n size :
  n = pending_bytes pending → n <= Magic_MaximumPendingBytes →
  zlen pending <= Magic_MaximumPendingPackets → 0 <= size →
  ∃ dropped kept, Magic_room pending n size = (kept, pending_bytes kept)
    ∧ pending = dropped ++ kept
    ∧ (kept = [] ∨ zlen kept < Magic_MaximumPendingPackets
                   ∧ pending_bytes kept + size <= Magic_MaximumPendingBytes).
Proof.
  revert n. induction pending as [|front rest IH]; intros n Hn Hmax Hlen Hs.
  { exists [], []. simpl in *. subst n. auto. }
  cbn [Magic_room]. destruct ((Magic_MaximumPendingPackets <=? _) || _) eqn:E.
  - simpl in Hn. pose proof (zlen_nonneg (pd_Payload front)).
    destruct (IH (n - zlen (pd_Payload front))) as (dropped & kept & -> & -> & Hroom);
      [lia|lia|zlia|done|].
    by exists (front :: dropped), kept.
  - apply orb_false_iff in E as [E1 E2]. apply Z.leb_gt in E1. apply Z.ltb_ge in E2.
    exists [], (front :: rest). subst n. split_and!; auto.
Qed.

(** ** The invariant

    [k] is a peer, and [mine] holds of no payload that is sent to another one. *)

Section invariant.
  Context {U : Type} `{!UdpSocket U} `{!UdpSocketLaws U}.
  Context (k : bytes) (mine : bytes → bool).

Abbreviation conn := (MagicConnection U).

Definition interested (s : conn) : bool :=
  match mc_socket s with Some u => us_writeInterest u | None => false end.

(** What the socket took, and what is queued for [k]. *)
Definition wire (s : conn) : list bytes :=
  match mc_socket s with Some u => map snd (us_sent u) | None => [] end.

Definition waiting (s : conn) : list bytes :=
  match map_find k (mc_peers s) with Some p => payloads (mp_Pending p) | None => [] end.

Definition flow (s : conn) : list bytes := List.filter mine (wire s ++ waiting s).

Definition verified (s : conn) (k' : bytes) (e : Endpoint) : Prop :=
  ∃ p, map_find k' (mc_peers s) = Some p ∧ e ∈ ps_verifiedEndpoints (mp_Path p).

Record conn_inv (s : conn) : Prop := {
  mi_map : map_ok (mc_peers s);
  mi_peer : ∀ k' p, map_find k' (mc_peers s) = Some p → magic_peer_ok p;
  mi_tagged : ∀ k' p, map_find k' (mc_peers s) = Some p → k' ≠ k →
    Forall (fun b => mine b = false) (payloads (mp_Pending p));
  mi_interest : ∀ k' p, map_find k' (mc_peers s) = Some p → mp_Pending p ≠ [] →
    interested s = true
}.

Record moved (sub : list bytes) (add : bytes → Endpoint → Prop) (s s' : conn) : Prop := {
  mv_inv : conn_inv s';
  mv_flow : flow s' `sublist_of` flow s ++ List.filter mine sub;
  mv_verified : ∀ k' e, verified s' k' e → verified s k' e ∨ add k' e
}.

Definition nothing (_ : bytes) (_ : Endpoint) : Prop := False.

Definition mkeeps {A} (sub : list bytes) (add : bytes → Endpoint → Prop) (m : eff conn A) : Prop :=
  ∀ s, conn_inv s → wp m (fun r s' => r ≠ UB ∧ moved sub add s s') s.

Lemma mmoved_refl s : conn_inv s → moved [] nothing s s.
Proof. intros Hs. split; [done| |by left]. by rewrite app_nil_r. Qed.

Lemma moved_trans sub1 sub2 add1 add2 s1 s2 s3 :
  moved sub1 add1 s1 s2 → moved sub2 add2 s2 s3 →
  moved (sub1 ++ sub2) (fun k' e => add1 k' e ∨ add2 k' e) s1 s3.
Proof.
  intros [H1 F1 V1] [H2 F2 V2]. split; [done| |].
  - rewrite List.filter_app, app_assoc. etrans; [exact F2|]. by apply sublist_app.
  - intros k' e [H|?]%V2; [|by auto]. apply V1 in H as [|]; auto.
Qed.

Lemma moved_weaken sub sub' add add' s s' :
  moved sub add s s' → sub `sublist_of` sub' → (∀ k' e, add k' e → add' k' e) →
  moved sub' add' s s'.
Proof.
  intros [H F V] Hsub Hadd. split; [done| |].
  - etrans; [exact F|]. apply sublist_app; [done|].
    clear -Hsub. induction Hsub; simpl; [constructor| |]; case_match; auto using sublist.
  - intros k' e [|]%V; auto.
Qed.

(** Two moves that verify nothing. *)
Lemma moved_next sub1 sub2 s1 s2 s3 :
  moved sub1 nothing s1 s2 → moved sub2 nothing s2 s3 → moved (sub1 ++ sub2) nothing s1 s3.
Proof.
  intros H1 H2. eapply moved_weaken; [by eapply moved_trans|done|]. by intros k' e [|].
Qed.

Lemma mkeeps_bind {A B} sub1 sub2 add1 add2 (m : eff conn A) (f : A → eff conn B) :
  mkeeps sub1 add1 m → (∀ a, mkeeps sub2 add2 (f a)) →
  mkeeps (sub1 ++ sub2) (fun k' e => add1 k' e ∨ add2 k' e) (ebind m f).
Proof.
  intros Hm Hf s Hs. apply wp_bind. eapply wp_mono; [by apply Hm|].
  intros r s1 [Hr H1]. destruct r as [a|e|]; [|split; [done|]|done].
  - eapply wp_mono; [apply Hf, (mv_inv _ _ _ _ H1)|]. intros r s2 [Hr2 H2].
    split; [done|]. by eapply moved_trans.
  - eapply moved_weaken; [exact H1|by apply sublist_inserts_r|by left].
Qed.

Lemma mkeeps_ret {A} (a : A) : mkeeps [] nothing (eret a).
Proof. intros s Hs. split; [done|]. by apply mmoved_refl. Qed.

Lemma mkeeps_weaken {A} sub sub' (add add' : bytes → Endpoint → Prop) (m : eff conn A) :
  mkeeps sub add m → sub `sublist_of` sub' → (∀ k' e, add k' e → add' k' e) →
  mkeeps sub' add' m.
Proof.
  intros Hm Hsub Hadd s Hs. eapply wp_mono; [by apply Hm|]. intros r s' [? ?].
  split; [done|]. by eapply moved_weaken.
Qed.

Lemma any_pending_spec peers :
  map_ok peers →
  any_pending peers = true ↔ ∃ k' p, map_find k' peers = Some p ∧ mp_Pending p ≠ [].
Proof.
  intros Hok. unfold any_pending. rewrite existsb_exists. split.
  - intros ([k' p] & Hin & Hp). exists k', p. split.
    + apply map_elem_find; [done|]. by apply list_elem_of_In.
    + simpl in Hp. case_bool_decide; done.
  - intros (k' & p & Hf & Hp). exists (k', p). split.
    + by apply list_elem_of_In, map_find_elem.
    + simpl. by rewrite bool_decide_false.
Qed.

(** One value of the map and the socket change: what has to be shown of them. *)
Lemma moved_alter sub add s s' k0 f p :
  conn_inv s → map_find k0 (mc_peers s) = Some p →
  mc_peers s' = map_alter k0 f (mc_peers s) → magic_peer_ok (f p) →
  (k0 ≠ k → Forall (fun b => mine b = false) (payloads (mp_Pending (f p)))) →
  (∀ e, e ∈ ps_verifiedEndpoints (mp_Path (f p)) →
    e ∈ ps_verifiedEndpoints (mp_Path p) ∨ add k0 e) →
  (interested s' = interested s ∧ (mp_Pending (f p) ≠ [] → mp_Pending p ≠ [])
   ∨ interested s' = any_pending (mc_peers s')) →
  List.filter mine (wire s' ++ (if bool_decide (k0 = k) then payloads (mp_Pending (f p))
                                else waiting s))
    `sublist_of` flow s ++ List.filter mine sub →
  moved sub add s s'.
Proof.
  intros Hs Hp Hpeers Hok Htag Hver Hint Hflow.
  assert (∀ k', map_find k' (mc_peers s')
                = if bool_decide (k0 = k') then Some (f p) else map_find k' (mc_peers s)) as Hfind.
  { intros k'. rewrite Hpeers, map_find_alter. destruct (bool_decide_reflect (k0 = k')) as [<-|]; [by rewrite Hp|done]. }
  assert (map_ok (mc_peers s')) as Hmap by (rewrite Hpeers; apply map_ok_alter, Hs).
  split.
  - split; [done|..]; intros k' q; rewrite Hfind;
      destruct (bool_decide_reflect (k0 = k')); intros; simplify_eq; auto;
      try (by eapply (mi_peer s Hs)); try (by eapply (mi_tagged s Hs)).
    + destruct Hint as [[-> Hi]|Hi].
      * eapply (mi_interest s Hs); eauto.
      * rewrite Hi. apply any_pending_spec; [done|]. exists k', (f p).
        rewrite Hfind, bool_decide_true by done. done.
    + destruct Hint as [[-> _]|Hi].
      * eapply (mi_interest s Hs); eauto.
      * rewrite Hi. apply any_pending_spec; [done|]. exists k', q.
        rewrite Hfind, bool_decide_false by done. done.
  - etrans; [|exact Hflow]. unfold flow. unfold waiting at 1. rewrite Hfind.
    by destruct (bool_decide_reflect (k0 = k)).
  - intros k' e (q & Hq & He). rewrite Hfind in Hq.
    destruct (bool_decide_reflect (k0 = k')); simplify_eq.
    + destruct (Hver e He); [left; by exists p|by right].
    + left. by exists q.
Qed.

Lemma map_alter_missing {A} k0 (f : A → A) m : map_find k0 m = None → map_alter k0 f m = m.
Proof.
  unfold map_alter. induction m as [|[k1 v] m IH]; simpl; [done|].
  case_bool_decide; [done|]. intros ?. by rewrite IH.
Qed.

Lemma mc_set_peers_same (s : conn) : mc_set_peers (mc_peers s) s = s.
Proof. by destruct s. Qed.

(** An operation on the path of a peer. *)
Lemma mkeeps_path add k0 f :
  (∀ p, path_ok p → path_ok (f p)) →
  (∀ p e, e ∈ ps_verifiedEndpoints (f p) → e ∈ ps_verifiedEndpoints p ∨ add k0 e) →
  mkeeps [] add (alter_path k0 f : eff conn unit).
Proof.
  intros Hok Hver s Hs. unfold alter_path, alter_peer. wp_auto. split; [done|].
  destruct (map_find k0 (mc_peers s)) as [p|] eqn:Hp.
  - destruct (mi_peer s Hs _ _ Hp) as [????].
    eapply moved_alter; [done|exact Hp|reflexivity|..]; simpl.
    + split; try done. by apply Hok.
    + intros. by eapply (mi_tagged s Hs).
    + intros e He. by apply Hver.
    + by left.
    + rewrite app_nil_r. unfold flow, wire, waiting. simpl. case_bool_decide; [|done].
      subst k0. by rewrite Hp.
  - rewrite map_alter_missing, mc_set_peers_same by done.
    eapply moved_weaken; [by apply mmoved_refl|done|done].
Qed.

(** ** The socket *)

Lemma wp_socket {A} (m : eff U A) Q s u :
  mc_socket s = Some u →
  wp m (fun r u' => Q r (mc_set_socket (Some u') (mc_readinessToken s) s)) u →
  wp (on_socket m) Q s.
Proof. unfold wp, on_socket. intros ->. by destruct (m u). Qed.

Lemma wp_send (s : conn) u d b :
  mc_socket s = Some u →
  wp (on_socket (us_TrySendTo d b)) (fun r s' => r ≠ UB ∧ ∃ u',
    s' = mc_set_socket (Some u') (mc_readinessToken s) s
    ∧ us_writeInterest u' = us_writeInterest u
    ∧ us_sent u' = us_sent u ++ match r with Ok Io_Complete => [(d, b)] | _ => [] end) s.
Proof.
  intros Hu. eapply wp_socket; [done|]. eapply wp_mono; [apply us_TrySendTo_law|].
  intros r u' (Hr & Hi & Hs). split; [done|]. by exists u'.
Qed.

Lemma moved_socket s u u' token :
  conn_inv s → mc_socket s = Some u → us_writeInterest u' = us_writeInterest u →
  List.filter mine (map snd (us_sent u')) = List.filter mine (map snd (us_sent u)) →
  moved [] nothing s (mc_set_socket (Some u') token s).
Proof.
  intros [Hm Hp Ht Hi] Hu Hint Hsent. split.
  - split; simpl; try done. intros k' p Hf Hne. specialize (Hi k' p Hf Hne).
    unfold interested in *. simpl. rewrite Hu in Hi. congruence.
  - unfold flow, wire, waiting. simpl. rewrite Hu, app_nil_r, !List.filter_app, Hsent. done.
  - by left.
Qed.

Lemma filter_sent_other (d : Endpoint) b (r : outcome SocketIoResult) l :
  mine b = false →
  List.filter mine (map snd (l ++ match r with Ok Io_Complete => [(d, b)] | _ => [] end))
  = List.filter mine (map snd l).
Proof.
  intros Hb. rewrite map_app, List.filter_app.
  destruct r as [[]|?|]; simpl; rewrite ?Hb, app_nil_r; done.
Qed.

(** A datagram that passes by the queues. *)
Lemma mkeeps_send_other s d b :
  conn_inv s → mc_socket s ≠ None → mine b = false →
  wp (on_socket (us_TrySendTo d b)) (fun r s' => r ≠ UB ∧ moved [] nothing s s'
    ∧ mc_socket s' ≠ None ∧ mc_peers s' = mc_peers s) s.
Proof.
  intros Hs Hu Hb. destruct (mc_socket s) as [u|] eqn:Eu; [|done].
  eapply wp_mono; [by apply wp_send|]. intros r s' (Hr & u' & -> & Hi & Hsent).
  split_and!; [done| |done|done]. eapply moved_socket; [done..|].
  rewrite Hsent. by apply filter_sent_other.
Qed.

(** The interest follows the queues. *)
Lemma wp_UpdateWriteInterest (s : conn) :
  map_ok (mc_peers s) →
  wp Magic_UpdateWriteInterest (fun r s' => r = Ok tt ∧ mc_peers s' = mc_peers s
    ∧ wire s' = wire s
    ∧ match mc_socket s with
      | Some _ => interested s' = any_pending (mc_peers s)
      | None => s' = s
      end) s.
Proof.
  intros Hm. unfold Magic_UpdateWriteInterest. wp_auto. destruct (mc_socket s) as [u|] eqn:Eu.
  - eapply wp_socket; [done|]. eapply wp_mono; [apply us_SetWriteInterest_law|].
    intros r u' (-> & Hi & Hs). unfold wire, interested. simpl. rewrite Eu, Hs. done.
  - wp_auto. done.
Qed.

(** The bytes submitted for [k] by a call for [peer]. *)
Definition sub_of (peer payload : bytes) : list bytes :=
  if bool_decide (peer = k) then [payload] else [].

Lemma sublist_filter (f : bytes → bool) l l' :
  l `sublist_of` l' → List.filter f l `sublist_of` List.filter f l'.
Proof. induction 1; simpl; [constructor| |]; case_match; auto using sublist. Qed.

Lemma Queue_ok peer d payload s p :
  conn_inv s → mc_socket s ≠ None → map_find peer (mc_peers s) = Some p →
  (peer ≠ k → mine payload = false) →
  wp (Magic_Queue peer d payload) (fun r s' => r ≠ UB ∧ moved (sub_of peer payload) nothing s s') s.
Proof.
  intros Hs Hu Hp Hmine. unfold Magic_Queue, alter_peer. wp_auto. cbn [mc_peers mc_set_peers].
  destruct (mi_peer s Hs _ _ Hp) as [Hb Hmax Hlen Hpath].
  destruct (Magic_room_spec _ _ (zlen payload) Hb Hmax Hlen (zlen_nonneg _))
    as (dropped & kept & Hroom & Hsplit & Hcase).
  assert (peer ≠ k → Forall (fun b => mine b = false) (payloads kept)) as Htag.
  { intros Hne. pose proof (mi_tagged s Hs _ _ Hp Hne) as Ht. rewrite Hsplit in Ht.
    unfold payloads in Ht. rewrite map_app in Ht. by apply Forall_app in Ht as [_ ?]. }
  assert (payloads kept `sublist_of` payloads (mp_Pending p)) as Hkept.
  { rewrite Hsplit. unfold payloads. rewrite map_app. by apply sublist_inserts_l. }
  destruct (Magic_MaximumPendingBytes <? zlen payload) eqn:Ebig.
  - destruct Hcase as [->|[? ?]]; [|pose proof (pending_bytes_nonneg kept); lia].
    wp_auto. split; [done|].
    eapply moved_alter; [done|exact Hp|reflexivity|..]; simpl; rewrite ?Hroom; simpl.
    + by split.
    + done.
    + by left.
    + by left.
    + unfold flow, wire, waiting. simpl. apply sublist_inserts_r, sublist_filter.
      apply sublist_app; [done|]. case_bool_decide; [apply sublist_nil_l|done].
  - wp_auto. apply wp_bind. eapply wp_mono.
    { apply wp_UpdateWriteInterest. simpl. apply map_ok_alter, map_ok_alter, Hs. }
    intros r s' (-> & Hpeers & Hwire & Hint). wp_auto. split; [done|].
    simpl in Hint. destruct (mc_socket s) as [u|] eqn:Eu; [|done].
    eapply (moved_alter _ _ s s' peer (fun p =>
      mp_set_pending (kept ++ [{| pd_Destination := d; pd_Payload := payload |}])
        (pending_bytes kept + zlen payload) p) p); [done|done| | | | | |].
    + rewrite Hpeers. simpl. unfold map_alter. rewrite map_map. apply map_ext_in.
      intros [k' q] Hin. simpl. destruct (bool_decide_reflect (peer = k')) as [<-|]; simpl.
      * rewrite bool_decide_true by done.
        apply list_elem_of_In, map_elem_find in Hin; [|apply Hs]. simplify_eq. by rewrite Hroom.
      * by rewrite bool_decide_false.
    + split; simpl; [|by destruct Hcase as [->|[? ?]]; simpl; lia| |done].
      * rewrite pending_bytes_app. simpl. lia.
      * destruct Hcase as [->|[? ?]]; [done|zlia].
    + intros Hne. simpl. unfold payloads. rewrite map_app. apply Forall_app_2; [by apply Htag|].
      simpl. auto.
    + by left.
    + right. by rewrite Hint, Hpeers.
    + rewrite Hwire. unfold flow, wire, waiting, sub_of, payloads. simpl. rewrite Eu.
      rewrite <- List.filter_app. apply sublist_filter. rewrite <- app_assoc.
      apply sublist_app; [done|]. case_bool_decide; [|by apply sublist_inserts_r].
      subst peer. rewrite Hp, map_app. simpl. by apply sublist_app.
Qed.

Lemma moved_then {A} sub1 sub2 s s1 (m : eff conn A) :
  moved sub1 nothing s s1 →
  wp m (fun r s' => r ≠ UB ∧ moved sub2 nothing s1 s') s1 →
  wp m (fun r s' => r ≠ UB ∧ moved (sub1 ++ sub2) nothing s s') s1.
Proof.
  intros H1 Hm. eapply wp_mono; [exact Hm|]. intros r s' [Hr H2]. split; [done|].
  by eapply moved_next.
Qed.

Lemma wp_map_result {A B} (f : A → B) (m : eff conn A) sub s0 s :
  wp m (fun r s' => r ≠ UB ∧ moved sub nothing s0 s') s →
  wp (let* a := m in eret (f a)) (fun r s' => r ≠ UB ∧ moved sub nothing s0 s') s.
Proof.
  intros Hm. apply wp_bind. eapply wp_mono; [exact Hm|]. intros [a|e|] s' [Hr H]; wp_auto; done.
Qed.

Lemma mkeeps_SendDirect peer d payload :
  (peer ≠ k → mine payload = false) →
  mkeeps (sub_of peer payload) nothing (MagicConnection_SendDirect peer d payload : eff conn _).
Proof.
  intros Hmine s Hs. unfold MagicConnection_SendDirect. wp_auto.
  assert (moved (sub_of peer payload) nothing s s) as Hsame.
  { eapply moved_weaken; [by apply mmoved_refl|apply sublist_nil_l|done]. }
  destruct (mc_socket s) as [u|] eqn:Eu; [|wp_auto; done].
  destruct (map_find peer (mc_peers s)) as [p|] eqn:Ep; [|wp_auto; done].
  destruct (bool_decide_reflect (mp_Pending p = [])) as [Hnil|]; simpl.
  2:{ apply wp_map_result. eapply Queue_ok; eauto. by rewrite Eu. }
  apply wp_bind. eapply wp_mono; [by apply wp_send|].
  intros r s1 (Hr & u' & -> & Hi & Hsent).
  assert (r ≠ Ok Io_Complete →
    moved [] nothing s (mc_set_socket (Some u') (mc_readinessToken s) s)) as Hfailed.
  { intros Hne. eapply moved_socket; [done..|]. rewrite Hsent.
    destruct r as [[]|?|]; by rewrite ?app_nil_r. }
  assert (r ≠ Ok Io_Complete →
    moved (sub_of peer payload) nothing s (mc_set_socket (Some u') (mc_readinessToken s) s))
    as Hfailed'.
  { intros Hne. eapply moved_weaken; [by apply Hfailed|apply sublist_nil_l|done]. }
  destruct r as [[]|e|]; wp_auto; try (split; [done|by apply Hfailed']); try done.
  - split; [done|]. destruct (bool_decide_reflect (peer = k)) as [->|Hne].
    + destruct Hs as [Hm Hp Ht Hint]. split; [split; simpl; try done| |by left].
      * intros k' q Hf Hq. specialize (Hint k' q Hf Hq). unfold interested in *. simpl.
        rewrite Eu in Hint. congruence.
      * unfold flow, wire, waiting, sub_of. simpl. rewrite Eu, Ep, Hnil, Hsent. simpl.
        rewrite bool_decide_true, !app_nil_r, map_app, List.filter_app by done. done.
    + eapply moved_weaken; [eapply moved_socket; [done..|]|apply sublist_nil_l|done].
      rewrite Hsent. apply (filter_sent_other d payload (Ok Io_Complete)). by apply Hmine.
  - apply wp_map_result. rewrite <- (app_nil_l (sub_of peer payload)).
    eapply moved_then; [by apply Hfailed|].
    eapply Queue_ok; [apply Hfailed; done|done|exact Ep|done].
Qed.

Lemma mkeeps_mono {A} sub (add : bytes → Endpoint → Prop) (m : eff conn A) :
  mkeeps [] nothing m → mkeeps sub add m.
Proof. intros Hm. eapply mkeeps_weaken; [exact Hm|apply sublist_nil_l|done]. Qed.

(** Two calls, the second of which submits nothing. *)
Lemma mkeeps_seq {A B} sub (m : eff conn A) (f : A → eff conn B) :
  mkeeps sub nothing m → (∀ a, mkeeps [] nothing (f a)) → mkeeps sub nothing (ebind m f).
Proof.
  intros Hm Hf. eapply mkeeps_weaken; [by apply mkeeps_bind| |by intros k' e [|]].
  by rewrite app_nil_r.
Qed.

Lemma mkeeps_seq' {A B} sub (m : eff conn A) (f : A → eff conn B) :
  mkeeps [] nothing m → (∀ a, mkeeps sub nothing (f a)) → mkeeps sub nothing (ebind m f).
Proof.
  intros Hm Hf. eapply mkeeps_weaken; [by apply mkeeps_bind|done|by intros k' e [|]].
Qed.

Lemma mkeeps_get {A} sub add (f : conn → eff conn A) :
  (∀ s, mkeeps sub add (f s)) → mkeeps sub add (ebind eget f).
Proof. intros Hf s Hs. wp_auto. by apply Hf. Qed.

Lemma mkeeps_quiet_path k0 f :
  (∀ p, path_ok p → path_ok (f p)) →
  (∀ p e, e ∈ ps_verifiedEndpoints (f p) → e ∈ ps_verifiedEndpoints p) →
  mkeeps [] nothing (alter_path k0 f : eff conn unit).
Proof. intros ? Hver. apply mkeeps_path; [done|]. intros p e He. left. by apply Hver. Qed.

Lemma mkeeps_Send now peer payload expectResponse :
  (peer ≠ k → mine payload = false) →
  mkeeps (sub_of peer payload) nothing
    (MagicConnection_Send now peer payload expectResponse : eff conn _).
Proof.
  intros Hmine. unfold MagicConnection_Send. apply mkeeps_get. intros s.
  destruct (map_find _ _) as [p|]; [|by apply mkeeps_mono, mkeeps_ret].
  destruct (ps_directEndpoint _) as [d|]; [|by apply mkeeps_mono, mkeeps_ret].
  apply mkeeps_seq; [by apply mkeeps_SendDirect|]. intros result.
  apply mkeeps_seq; [|intros; apply mkeeps_ret].
  destruct expectResponse; [|apply mkeeps_ret].
  apply mkeeps_quiet_path; [apply path_ok_MarkDirectSend|].
  intros q e. by rewrite (proj1 (proj2 (verified_kept now q))).
Qed.

Lemma mkeeps_flag add peer f :
  (∀ p, path_ok p → path_ok (f p).2) →
  (∀ p e, e ∈ ps_verifiedEndpoints (f p).2 → e ∈ ps_verifiedEndpoints p ∨ add peer e) →
  mkeeps [] add (path_flag peer f : eff conn bool).
Proof.
  intros Hok Hver. unfold path_flag. apply mkeeps_get. intros s.
  destruct (map_find _ _) as [p|]; [|by apply mkeeps_mono, mkeeps_ret].
  eapply mkeeps_weaken; [apply mkeeps_bind; [by apply (mkeeps_path add)|intros; apply mkeeps_ret]
    |done|by intros k' e [|[]]].
Qed.

Lemma mkeeps_AcceptDirectSource e : mkeeps [] nothing (MagicConnection_AcceptDirectSource e : eff conn _).
Proof.
  unfold MagicConnection_AcceptDirectSource. apply mkeeps_get. intros s.
  destruct (List.find _ _) as [[peer p]|]; [|apply mkeeps_ret].
  apply mkeeps_seq; [|intros; apply mkeeps_ret].
  apply mkeeps_quiet_path; [apply path_ok_MarkDirectReceive|done].
Qed.

(** ** Flushing *)

Definition as_sent (d : PendingDatagram) : Endpoint * bytes := (pd_Destination d, pd_Payload d).

Lemma map_alter_const {A} k0 (f : A → A) v m :
  map_alter k0 (fun _ => v) (map_alter k0 f m) = map_alter k0 (fun _ => v) m.
Proof.
  unfold map_alter. rewrite map_map. apply map_ext. intros [k1 v1]. simpl.
  destruct (bool_decide_reflect (k0 = k1)); simpl;
    [by rewrite bool_decide_true|by rewrite bool_decide_false].
Qed.

Lemma map_alter_same {A} k0 (v : A) m :
  map_ok m → map_find k0 m = Some v → map_alter k0 (fun _ => v) m = m.
Proof.
  intros Hm Hf. unfold map_alter. rewrite <- (map_id m) at 2. apply map_ext_in.
  intros [k1 v1] Hin. simpl. case_bool_decide; [|done]. subst k1.
  apply list_elem_of_In, map_elem_find in Hin; [|done]. congruence.
Qed.

Lemma FlushPeer_spec peer pending s u p :
  mc_socket s = Some u → map_ok (mc_peers s) → map_find peer (mc_peers s) = Some p →
  mp_Pending p = pending → mp_PendingBytes p = pending_bytes pending →
  wp (FlushPeer_loop peer pending) (fun r s' => r ≠ UB ∧ r ≠ Ok Io_Unavailable
    ∧ ∃ u' done taken rest, pending = done ++ rest ∧ taken `sublist_of` done
      ∧ mc_peers s' = map_alter peer (fun _ => mp_set_pending rest (pending_bytes rest) p) (mc_peers s)
      ∧ mc_socket s' = Some u' ∧ us_writeInterest u' = us_writeInterest u
      ∧ us_sent u' = us_sent u ++ map as_sent taken
      ∧ (r = Ok Io_Complete → rest = [])) s.
Proof.
  revert s u p. induction pending as [|front rest IH]; intros s u p Hu Hm Hf Hp Hb; simpl.
  { wp_auto. split_and!; [done..|]. exists u, [], [], [].
    split_and!; try done; [|simpl; by rewrite app_nil_r]. symmetry. apply map_alter_same; [done|].
    rewrite Hf. destruct p. simpl in *. by subst. }
  apply wp_bind. eapply wp_mono; [by apply wp_send|]. intros r s1 (Hr & u1 & -> & Hi & Hsent).
  assert (∀ r', r' ≠ UB → r' ≠ Ok Io_Unavailable → r' ≠ Ok Io_Complete →
    us_sent u1 = us_sent u →
    r' ≠ UB ∧ r' ≠ Ok Io_Unavailable ∧ ∃ u' done taken rest0,
      front :: rest = done ++ rest0 ∧ taken `sublist_of` done
      ∧ mc_peers s = map_alter peer (fun _ => mp_set_pending rest0 (pending_bytes rest0) p) (mc_peers s)
      ∧ Some u1 = Some u' ∧ us_writeInterest u' = us_writeInterest u
      ∧ us_sent u' = us_sent u ++ map as_sent taken
      ∧ (r' = Ok Io_Complete → rest0 = [])) as Hstop.
  { intros r' ? ? ? ?. split_and!; [done..|]. exists u1, [], [], (front :: rest).
    split_and!; try done; [|simpl; by rewrite app_nil_r]. symmetry. apply map_alter_same; [done|].
    rewrite Hf. destruct p. simpl in *. by subst. }
  assert (us_sent u1 = us_sent u ++ map as_sent (match r with Ok Io_Complete => [front] | _ => [] end))
    as Hsent' by (rewrite Hsent; by destruct r as [[]|?|]).
  destruct r as [[]|e|]; unfold alter_peer; wp_auto; try (apply Hstop; try done;
    by rewrite Hsent, app_nil_r); try done; clear Hstop.
  all: eapply wp_mono; [eapply (IH _ u1 (mp_set_pending rest (pending_bytes rest) p))|].
  all: try done.
  all: try (by simpl; apply map_ok_alter).
  all: try (simpl; rewrite map_find_alter, bool_decide_true, Hf by done; simpl; unfold mp_set_pending;
    rewrite Hp, Hb; simpl; do 2 f_equal; lia).
  all: intros r2 s2 (? & ? & u' & done & taken & rest0 & -> & Ht & Hpeers & Hs2 & Hi2 & Hsent2 & Hc).
  all: split_and!; [done..|].
  - exists u', (front :: done), (front :: taken), rest0. split_and!; try done.
    + by apply sublist_skip.
    + rewrite Hpeers. simpl. apply map_alter_const.
    + congruence.
    + rewrite Hsent2, Hsent', <- app_assoc. done.
  - exists u', (front :: done), taken, rest0. split_and!; try done.
    + by apply sublist_cons.
    + rewrite Hpeers. simpl. apply map_alter_const.
    + congruence.
    + by rewrite Hsent2, Hsent', app_nil_r.
Qed.

Lemma filter_none l : Forall (fun b => mine b = false) l → List.filter mine l = [].
Proof. induction 1 as [|b l Hb _ IH]; simpl; [done|]. by rewrite Hb. Qed.

Lemma sublist_Forall {A} (P : A → Prop) l l' : l `sublist_of` l' → Forall P l' → Forall P l.
Proof. induction 1; [done| |]; intros [? ?]%Forall_cons; auto. Qed.

Lemma FlushPeer_ok peer pending s p :
  conn_inv s → mc_socket s ≠ None → map_find peer (mc_peers s) = Some p → mp_Pending p = pending →
  wp (FlushPeer_loop peer pending) (fun r s' => r ≠ UB ∧ r ≠ Ok Io_Unavailable
    ∧ moved [] nothing s s' ∧ mc_socket s' ≠ None
    ∧ ∀ k', k' ≠ peer → map_find k' (mc_peers s') = map_find k' (mc_peers s)) s.
Proof.
  intros Hs Hu Hf <-. destruct (mc_socket s) as [u|] eqn:Eu; [|done].
  pose proof (mi_peer s Hs _ _ Hf) as [Hb Hmax Hlen Hpath].
  eapply wp_mono; [eapply FlushPeer_spec; try done; apply Hs|].
  intros r s' (? & ? & u' & done & taken & rest & Hsplit & Ht & Hpeers & Hu' & Hi & Hsent & _).
  split_and!; [done|done| |by rewrite Hu'|].
  2:{ intros k' Hne. rewrite Hpeers, map_find_alter, bool_decide_false; done. }
  pose proof (pending_bytes_app done rest) as Hbytes. rewrite <- Hsplit in Hbytes.
  pose proof (pending_bytes_nonneg done).
  assert (payloads taken `sublist_of` payloads done) as Htaken.
  { clear -Ht. unfold payloads. induction Ht; simpl; auto using sublist. }
  assert (payloads (mp_Pending p) = payloads done ++ payloads rest) as Hpay.
  { rewrite Hsplit. apply map_app. }
  eapply moved_alter; [done|exact Hf|exact Hpeers|..]; simpl.
  - split; simpl; [done|lia| |done]. rewrite Hsplit in Hlen. zlia.
  - intros Hne. pose proof (mi_tagged s Hs _ _ Hf Hne) as Htag. rewrite Hpay in Htag.
    by apply Forall_app in Htag as [_ ?].
  - by left.
  - left. split; [unfold interested; by rewrite Eu, Hu'|]. rewrite Hsplit. intros ? [_ ?]%app_nil. done.
  - rewrite app_nil_r. unfold flow, wire, waiting. rewrite Eu, Hu', Hsent, map_app, map_map.
    change (map (fun x => (as_sent x).2) taken) with (payloads taken).
    destruct (bool_decide_reflect (peer = k)) as [->|Hne].
    + rewrite Hf. apply sublist_filter. rewrite <- app_assoc, Hpay.
      apply sublist_app; [done|]. by apply sublist_app.
    + rewrite !List.filter_app. apply sublist_app; [|done].
      rewrite (filter_none (payloads taken)), app_nil_r; [done|].
      pose proof (mi_tagged s Hs _ _ Hf Hne) as Htag. rewrite Hpay in Htag.
      apply Forall_app in Htag as [Htag _]. by eapply sublist_Forall.
Qed.

Lemma conn_inv_update s s' :
  conn_inv s → mc_socket s ≠ None → mc_peers s' = mc_peers s → wire s' = wire s →
  interested s' = any_pending (mc_peers s) → moved [] nothing s s'.
Proof.
  intros [Hm Hp Ht Hi] Hu Hpeers Hwire Hint. split.
  - split; rewrite ?Hpeers; try done. intros k' p Hf Hne. rewrite Hint.
    apply any_pending_spec; eauto.
  - unfold flow, waiting. by rewrite Hpeers, Hwire, app_nil_r.
  - intros k' e He. left. unfold verified in *. by rewrite Hpeers in He.
Qed.

Lemma mkeeps_UpdateWriteInterest : mkeeps [] nothing (Magic_UpdateWriteInterest : eff conn unit).
Proof.
  intros s Hs. eapply wp_mono; [apply wp_UpdateWriteInterest, Hs|].
  intros r s' (-> & Hpeers & Hwire & Hint). split; [done|].
  destruct (mc_socket s) eqn:Eu; [|subst s'; by apply mmoved_refl].
  apply conn_inv_update; try done. by rewrite Eu.
Qed.

Lemma FlushPending_loop_ok peers s :
  conn_inv s → mc_socket s ≠ None → map_ok peers →
  (∀ k' p, (k', p) ∈ peers → map_find k' (mc_peers s) = Some p) →
  wp (FlushPending_loop peers) (fun r s' => r ≠ UB ∧ moved [] nothing s s'
    ∧ (mc_socket s' ≠ None)) s.
Proof.
  assert (∀ (m : eff conn MagicStatus) s1 s2, moved [] nothing s1 s2 →
    wp m (fun r s' => r ≠ UB ∧ moved [] nothing s2 s' ∧ mc_socket s' ≠ None) s2 →
    wp m (fun r s' => r ≠ UB ∧ moved [] nothing s1 s' ∧ mc_socket s' ≠ None) s2) as Hthen.
  { intros m s1 s2 H12 Hm. eapply wp_mono; [exact Hm|]. intros r s' (? & H2 & ?).
    split_and!; try done. by eapply (moved_next [] []). }
  assert (∀ s, conn_inv s → mc_socket s ≠ None →
    wp (Magic_UpdateWriteInterest ;;* eret Magic_Ready)
      (fun r s' => r ≠ UB ∧ moved [] nothing s s' ∧ mc_socket s' ≠ None) s) as Hend.
  { clear s peers. intros s Hs Hu. apply wp_bind. unfold Magic_UpdateWriteInterest. wp_auto.
    destruct (mc_socket s) as [u|] eqn:Eu; [|done].
    eapply wp_socket; [done|]. eapply wp_mono; [apply us_SetWriteInterest_law|].
    intros r u' (-> & Hi & Hsent). wp_auto. split_and!; [done| |done].
    apply conn_inv_update; try done; [by rewrite Eu|].
    unfold wire. simpl. by rewrite Eu, Hsent. }
  revert s. induction peers as [|[peer p] rest IH]; intros s Hs Hu Hok Hin; simpl.
  { by apply Hend. }
  pose proof Hok as [Hrest Hlt]%StronglySorted_inv.
  case_bool_decide as Hp.
  { apply IH; try done. intros k' q Hq. apply Hin. by right. }
  apply wp_bind. eapply wp_mono.
  { eapply FlushPeer_ok; try done. apply Hin. left. }
  intros r s1 (Hr & Hr' & H1 & Hu1 & Hother). pose proof (mv_inv _ _ _ _ H1) as Hs1.
  destruct r as [[]|e|]; wp_auto; try done.
  - eapply Hthen; [exact H1|]. apply IH; try done. intros k' q Hq. rewrite Hother.
    + apply Hin. by right.
    + intros ->. by eapply (map_ok_head peer p rest Hok).
  - eapply Hthen; [exact H1|]. by apply Hend.
Qed.

Lemma receive_loop_ok todo size datagrams s :
  conn_inv s → mc_socket s ≠ None →
  wp (receive_loop todo size datagrams) (fun r s' => r ≠ UB ∧ moved [] nothing s s') s.
Proof.
  revert datagrams s. induction todo as [|todo IH]; intros datagrams s Hs Hu; simpl.
  { wp_auto. split; [done|]. by apply mmoved_refl. }
  apply wp_bind. destruct (mc_socket s) as [u|] eqn:Eu; [|done].
  eapply wp_socket; [done|]. eapply wp_mono; [apply us_TryReceive_law|].
  intros r u' (Hr & Hi & Hsent).
  assert (moved [] nothing s (mc_set_socket (Some u') (mc_readinessToken s) s)) as H1.
  { eapply moved_socket; [done..|]. by rewrite Hsent. }
  destruct r as [received|e|]; [|done..].
  destruct (ur_Result received); wp_auto; try done;
    (eapply (moved_then [] []); [exact H1|]; apply IH; [apply H1|done]).
Qed.

Lemma mkeeps_ProcessEvent event count size :
  mkeeps [] nothing (MagicConnection_ProcessEvent event count size : eff conn _).
Proof.
  intros s Hs. unfold MagicConnection_ProcessEvent. wp_auto.
  pose proof (mmoved_refl s Hs) as Hsame. destruct (mc_socket s) as [u|] eqn:Eu; [|wp_auto; done].
  ifb; [wp_auto; done|]. ifb; [wp_auto; done|]. ifb; [wp_auto; done|].
  apply wp_bind. apply wp_mono with (Q := fun r s' => r ≠ UB ∧ moved [] nothing s s'
    ∧ mc_socket s' ≠ None).
  { ifb; [|wp_auto; split_and!; try done; by rewrite Eu].
    unfold Magic_FlushPending. wp_auto. apply FlushPending_loop_ok; [done|by rewrite Eu|apply Hs|].
    intros k' p. apply map_elem_find, Hs. }
  intros r s1 (Hr & H1 & Hu1). destruct r as [[]|e|]; try done; [|wp_auto; done..].
  ifb; [wp_auto; done|]. eapply (moved_then [] []); [exact H1|].
  apply receive_loop_ok; [apply H1|done].
Qed.

(** ** Probes *)

Lemma mkeeps_TrySendProbe d b :
  mine b = false → mkeeps [] nothing (MagicConnection_TrySendProbe d b : eff conn _).
Proof.
  intros Hb s Hs. unfold MagicConnection_TrySendProbe. wp_auto.
  destruct (mc_socket s) as [u|] eqn:Eu; [|wp_auto; split; [done|by apply mmoved_refl]].
  apply wp_map_result. eapply wp_mono; [apply mkeeps_send_other; [done|by rewrite Eu|done]|].
  intros r s' (? & ? & _). done.
Qed.

Lemma mkeeps_TrySendDirect peer d b :
  mine b = false → mkeeps [] nothing (MagicConnection_TrySendDirect peer d b : eff conn _).
Proof.
  intros Hb s Hs. unfold MagicConnection_TrySendDirect. wp_auto.
  destruct (mc_socket s) as [u|] eqn:Eu; [|wp_auto; split; [done|by apply mmoved_refl]].
  ifb; [wp_auto; split; [done|by apply mmoved_refl]|].
  apply wp_map_result. eapply wp_mono; [apply mkeeps_send_other; [done|by rewrite Eu|done]|].
  intros r s' (? & ? & _). done.
Qed.

Lemma mkeeps_ProbePeer peer b :
  mine b = false → mkeeps [] nothing (MagicConnection_ProbePeer peer b : eff conn _).
Proof.
  intros Hb s Hs. unfold MagicConnection_ProbePeer. wp_auto.
  pose proof (mmoved_refl s Hs) as Hsame. destruct (mc_socket s) as [u|] eqn:Eu; [|wp_auto; done].
  destruct (map_find _ _) as [p|]; [|wp_auto; done].
  assert (mc_socket s ≠ None) as Hu by (by rewrite Eu). clear Eu Hsame u.
  generalize (ps_verifiedEndpoints (mp_Path p)) as endpoints. clear p. intros endpoints.
  revert s Hs Hu. induction endpoints as [|d rest IH]; intros s Hs Hu; simpl.
  { wp_auto. split; [done|]. by apply mmoved_refl. }
  apply wp_bind. eapply wp_mono; [by apply mkeeps_send_other|].
  intros r s1 (Hr & H1 & Hu1 & _). destruct r as [r|e|]; [|done..].
  eapply (moved_then [] []); [exact H1|]. apply IH; [apply H1|done].
Qed.

(** ** Peers and sockets *)

Lemma mkeeps_AddPeer peer : mkeeps [] nothing (MagicConnection_AddPeer peer : eff conn _).
Proof.
  intros s Hs. unfold MagicConnection_AddPeer. wp_auto. split; [done|].
  assert (∀ k' q, map_find k' (map_emplace peer MagicPeer_new (mc_peers s)) = Some q →
    map_find k' (mc_peers s) = Some q
    ∨ k' = peer ∧ map_find peer (mc_peers s) = None ∧ q = MagicPeer_new) as Hfind.
  { intros k' q. rewrite map_find_emplace by apply Hs.
    destruct (bool_decide_reflect (peer = k')) as [<-|]; [|by left].
    destruct (map_find peer (mc_peers s)); simpl; naive_solver. }
  split.
  - split; simpl; [by apply map_ok_emplace, Hs|..];
      intros k' q [Hf|(-> & _ & ->)]%Hfind; try done.
    + by eapply mi_peer.
    + apply magic_peer_ok_new.
    + by eapply mi_tagged.
    + exact (mi_interest s Hs k' q Hf).
  - rewrite app_nil_r. unfold flow, wire, waiting. simpl.
    destruct (map_find k (map_emplace _ _ _)) as [q|] eqn:Eq.
    + apply Hfind in Eq as [->|(-> & -> & ->)]; done.
    + rewrite !List.filter_app. apply sublist_app; [done|apply sublist_nil_l].
  - intros k' e (q & [Hf|(-> & _ & ->)]%Hfind & He).
    + left. by exists q.
    + by apply elem_of_nil in He.
Qed.

Lemma wp_RemovePeer peer s :
  conn_inv s →
  wp (MagicConnection_RemovePeer peer) (fun r s' => r ≠ UB ∧ moved [] nothing s s'
    ∧ map_find peer (mc_peers s') = None) s.
Proof.
  intros Hs. unfold MagicConnection_RemovePeer, MagicConnection_HasPeer. wp_auto.
  destruct (map_find peer (mc_peers s)) as [p|] eqn:Ep; simpl.
  2:{ wp_auto. split_and!; [done|by apply mmoved_refl|done]. }
  wp_auto. apply wp_bind. set (s1 := mc_set_peers _ s).
  assert (∀ k' q, map_find k' (mc_peers s1) = Some q → map_find k' (mc_peers s) = Some q) as Hsub.
  { intros k' q. simpl. rewrite map_find_erase. by case_bool_decide. }
  assert (moved [] nothing s s1) as H1.
  { split.
    - split; [by apply map_ok_erase, Hs|..]; intros k' q Hf%Hsub.
      + by eapply mi_peer.
      + by eapply mi_tagged.
      + exact (mi_interest s Hs k' q Hf).
    - rewrite app_nil_r. apply sublist_filter. unfold wire, waiting. apply sublist_app; [done|].
      destruct (map_find k (mc_peers s1)) as [q|] eqn:Eq; [|apply sublist_nil_l].
      by rewrite (Hsub _ _ Eq).
    - intros k' e (q & Hf%Hsub & He). left. by exists q. }
  eapply wp_mono; [apply wp_UpdateWriteInterest; apply (mv_inv _ _ _ _ H1)|].
  intros r s' (-> & Hpeers & Hwire & Hint). wp_auto. split_and!; [done| |].
  - destruct (mc_socket s1) eqn:Eu; [|by subst s'].
    eapply (moved_next [] []); [exact H1|].
    apply conn_inv_update; try done; [apply H1|by rewrite Eu].
  - rewrite Hpeers. simpl. by rewrite map_find_erase, bool_decide_true.
Qed.

(** A connection without socket has nothing queued. *)
Lemma closed_nothing_pending s k' p :
  conn_inv s → mc_socket s = None → map_find k' (mc_peers s) = Some p → mp_Pending p = [].
Proof.
  intros Hs Hu Hf. destruct (mp_Pending p) eqn:Ep; [done|].
  assert (interested s = true) as Hi by (eapply mi_interest; [done..|by rewrite Ep]).
  unfold interested in Hi. by rewrite Hu in Hi.
Qed.

(** The socket that the factory opens has taken nothing yet. *)
Definition fresh (opened : outcome (option U)) : Prop :=
  opened ≠ UB ∧ ∀ u, opened = Ok (Some u) → List.filter mine (map snd (us_sent u)) = [].

Lemma wp_Open options opened s :
  conn_inv s → fresh opened →
  wp (MagicConnection_Open options opened) (fun r s' => r ≠ UB ∧ moved [] nothing s s'
    ∧ mc_peers s' = mc_peers s) s.
Proof.
  intros Hs [Ho Hfresh]. unfold MagicConnection_Open. wp_auto.
  pose proof (mmoved_refl s Hs) as Hsame.
  destruct (mc_socket s) as [u|] eqn:Eu; [wp_auto; done|].
  wp_auto. destruct opened as [[u|]|e|]; [|wp_auto; done|done|done].
  wp_auto. assert (moved [] nothing s (mc_set_socket (Some u) (uo_ReadinessToken options) s)) as H1.
  { split; [|..].
    - destruct Hs as [Hm Hp Ht Hi]. split; simpl; try done.
      intros k' p Hf Hne. destruct Hne. eapply closed_nothing_pending; [|done|done]. by split.
    - unfold flow, wire, waiting. simpl. rewrite Eu, app_nil_r, List.filter_app.
      by rewrite Hfresh.
    - by left. }
  pose proof (us_LocalEndpoint_law u). destruct (us_LocalEndpoint u) eqn:El; wp_auto; done.
Qed.

Lemma wp_Rebind options opened s :
  conn_inv s → fresh opened →
  wp (MagicConnection_Rebind options opened) (fun r s' => r ≠ UB ∧ moved [] nothing s s'
    ∧ ∀ k' e, ¬ verified s' k' e) s.
Proof.
  intros Hs Hopened. unfold MagicConnection_Rebind, Magic_CloseSocket. wp_auto.
  set (s1 := mc_set_peers _ _).
  assert (∀ k' q, map_find k' (mc_peers s1) = Some q → ∃ p, map_find k' (mc_peers s) = Some p
    ∧ q = {| mp_Pending := []; mp_Path := PeerPathState_Reset ForgetVerifiedEndpoints (mp_Path p);
             mp_PendingBytes := 0 |}) as Hfind.
  { intros k' q. simpl. induction (mc_peers s) as [|[k1 v1] m IH]; simpl; [done|].
    case_bool_decide; [intros; simplify_eq; eauto|done]. }
  assert (moved [] nothing s s1) as H1.
  { split.
    - split; [by apply map_ok_values, Hs|..]; intros k' q (p & Hf & ->)%Hfind; try done.
      destruct (mi_peer s Hs _ _ Hf). split; simpl; try done. by apply path_ok_Reset.
    - rewrite app_nil_r. unfold flow, wire, waiting. simpl.
      destruct (map_find k _) as [q|] eqn:Eq; [|apply sublist_nil_l].
      apply Hfind in Eq as (p & _ & ->). apply sublist_nil_l.
    - intros k' e (q & (p & _ & ->)%Hfind & He). by apply elem_of_nil in He. }
  eapply wp_mono; [by apply wp_Open; [apply H1|]|]. intros r s' (? & H2 & Hpeers).
  split_and!; [done| |].
  - by eapply (moved_next [] []).
  - intros k' e (q & Hf & He). rewrite Hpeers in Hf. apply Hfind in Hf as (p & _ & ->).
    by apply elem_of_nil in He.
Qed.

Lemma wp_Close s :
  conn_inv s →
  wp MagicConnection_Close (fun r s' => r ≠ UB ∧ moved [] nothing s s'
    ∧ ∀ k' e, ¬ verified s' k' e) s.
Proof.
  intros Hs. unfold MagicConnection_Close, Magic_CloseSocket. wp_auto. split_and!; [done| |].
  - split; [split; done || constructor|apply sublist_nil_l|].
    intros k' e (p & Hf & _). done.
  - intros k' e (p & Hf & _). done.
Qed.

End invariant.

(** ** Sequences of calls *)

Section calls.
  Context {U : Type} `{!UdpSocket U}.

Abbreviation conn := (MagicConnection U).

Inductive magic_call :=
  | Call_Open (options : UdpSocketOptions) (opened : outcome (option U))
  | Call_Rebind (options : UdpSocketOptions) (opened : outcome (option U))
  | Call_AddPeer (peer : bytes)
  | Call_RemovePeer (peer : bytes)
  | Call_TrySendProbe (destination : Endpoint) (payload : bytes)
  | Call_ProbePeer (peer payload : bytes)
  | Call_TrySendDirect (peer : bytes) (destination : Endpoint) (payload : bytes)
  | Call_SendDirect (peer : bytes) (destination : Endpoint) (payload : bytes)
  | Call_Send (now : Z) (peer payload : bytes) (expectResponse : bool)
  | Call_AcceptDirectSource (endpoint : Endpoint)
  | Call_TryBeginProbe (now : Z) (peer : bytes)
  | Call_MarkDirect (peer : bytes) (endpoint : Endpoint)
  | Call_ExpireDirectPath (now : Z) (peer : bytes)
  | Call_ResetPath (peer : bytes) (mode : ResetMode)
  | Call_ProcessEvent (event : Event) (maximumDatagrams maximumDatagramSize : Z)
  | Call_Close.

Definition ignore {A} (m : eff conn A) : eff conn unit := let* _ := m in eret tt.

Definition magic_run_call (c : magic_call) : eff conn unit :=
  match c with
  | Call_Open options opened => ignore (MagicConnection_Open options opened)
  | Call_Rebind options opened => ignore (MagicConnection_Rebind options opened)
  | Call_AddPeer peer => ignore (MagicConnection_AddPeer peer)
  | Call_RemovePeer peer => ignore (MagicConnection_RemovePeer peer)
  | Call_TrySendProbe d payload => ignore (MagicConnection_TrySendProbe d payload)
  | Call_ProbePeer peer payload => MagicConnection_ProbePeer peer payload
  | Call_TrySendDirect peer d payload => ignore (MagicConnection_TrySendDirect peer d payload)
  | Call_SendDirect peer d payload => ignore (MagicConnection_SendDirect peer d payload)
  | Call_Send now peer payload expect => ignore (MagicConnection_Send now peer payload expect)
  | Call_AcceptDirectSource e => ignore (MagicConnection_AcceptDirectSource e)
  | Call_TryBeginProbe now peer => ignore (MagicConnection_TryBeginProbe now peer)
  | Call_MarkDirect peer e => ignore (MagicConnection_MarkDirect peer e)
  | Call_ExpireDirectPath now peer => ignore (MagicConnection_ExpireDirectPath now peer)
  | Call_ResetPath peer mode => MagicConnection_ResetPath peer mode
  | Call_ProcessEvent event n size => ignore (MagicConnection_ProcessEvent event n size)
  | Call_Close => MagicConnection_Close
  end.

(** The owner of a connection goes on after a call that threw. *)
Definition magic_run (calls : list magic_call) (s : conn) : conn :=
  foldl (fun s c => (magic_run_call c s).2) s calls.

(** The datagrams that the calls submit for [k]. *)
Definition submits (k : bytes) (c : magic_call) : list bytes :=
  match c with
  | Call_SendDirect peer _ payload | Call_Send _ peer payload _ => sub_of k peer payload
  | _ => []
  end.

(** [mine] tells the payloads for [k] from all the others. *)
Definition tagged (k : bytes) (mine : bytes → bool) (c : magic_call) : Prop :=
  match c with
  | Call_SendDirect peer _ payload | Call_Send _ peer payload _ => peer ≠ k → mine payload = false
  | Call_TrySendProbe _ payload | Call_ProbePeer _ payload | Call_TrySendDirect _ _ payload =>
      mine payload = false
  | Call_Open _ opened | Call_Rebind _ opened => fresh mine opened
  | _ => True
  end.

(** What a call verifies, and what it forgets. *)
Definition verifies (c : magic_call) (k : bytes) (e : Endpoint) : bool :=
  match c with
  | Call_MarkDirect k' e' => bool_decide (k' = k) && bool_decide (e' = e)
  | _ => false
  end.

Definition forgets (c : magic_call) (k : bytes) : bool :=
  match c with
  | Call_RemovePeer k' => bool_decide (k' = k)
  | Call_ResetPath k' ForgetVerifiedEndpoints => bool_decide (k' = k)
  | Call_Rebind _ _ | Call_Close => true
  | _ => false
  end.

(** Whether [e] was verified for [k] and not forgotten since. *)
Definition vouched (k : bytes) (e : Endpoint) (calls : list magic_call) : bool :=
  foldl (fun b c => if forgets c k then false else b || verifies c k e) false calls.

Context `{!UdpSocketLaws U}.

Lemma mkeeps_ignore {A} k mine sub add (m : eff conn A) :
  mkeeps k mine sub add m → mkeeps k mine sub add (ignore m).
Proof.
  intros Hm s Hs. unfold ignore. apply wp_bind. eapply wp_mono; [by apply Hm|].
  intros [a|e|] s' [? ?]; wp_auto; done.
Qed.

Lemma mkeeps_unignore {A} k mine sub add (m : eff conn A) :
  mkeeps k mine sub add (ignore m) → mkeeps k mine sub add m.
Proof.
  intros Hm s Hs. specialize (Hm s Hs). unfold wp, ignore, ebind in *.
  destruct (m s) as [[a|e|] s']; destruct Hm; by split.
Qed.

Lemma magic_call_keeps k mine c :
  tagged k mine c →
  mkeeps k mine (submits k c) (fun k' e => verifies c k' e = true) (magic_run_call c).
Proof.
  destruct c; simpl; intros Hc; try apply mkeeps_ignore;
    try (match goal with
         | |- mkeeps _ _ [] _ (MagicConnection_MarkDirect _ _) => idtac
         | |- mkeeps _ _ [] _ _ => apply mkeeps_mono
         | |- mkeeps _ _ (sub_of _ _ _) _ _ => eapply mkeeps_weaken; [|reflexivity|]
         end).
  - intros s Hs. eapply wp_mono; [by apply wp_Open|]. by intros r s' (? & ? & _).
  - intros s Hs. eapply wp_mono; [by apply wp_Rebind|]. by intros r s' (? & ? & _).
  - apply mkeeps_AddPeer.
  - intros s Hs. eapply wp_mono; [by apply wp_RemovePeer|]. by intros r s' (? & ? & _).
  - by apply mkeeps_TrySendProbe.
  - by apply mkeeps_ProbePeer.
  - by apply mkeeps_TrySendDirect.
  - by apply mkeeps_SendDirect.
  - done.
  - by apply mkeeps_Send.
  - done.
  - apply mkeeps_AcceptDirectSource.
  - apply mkeeps_flag; [apply path_ok_TryBeginProbe|]. intros p e.
    rewrite (proj1 (verified_kept now p)). by left.
  - apply mkeeps_flag; [intros p Hp; by apply (path_ok_MarkDirect endpoint)|].
    intros p e [|]%RememberVerified_verified; [by left|]. right. subst e.
    by rewrite !bool_decide_true.
  - apply mkeeps_flag; [apply path_ok_ExpireDirectPath|]. intros p e.
    rewrite (proj2 (proj2 (verified_kept now p))). by left.
  - apply mkeeps_quiet_path; [apply path_ok_Reset|]. intros p e. simpl.
    case_bool_decide; [by intros ?%elem_of_nil|done].
  - apply mkeeps_ProcessEvent.
  - intros s Hs. eapply wp_mono; [by apply wp_Close|]. by intros r s' (? & ? & _).
Qed.

End calls.
Arguments magic_call U : clear implicits.

Section theorems.
  Context {U : Type} `{!UdpSocket U} `{!UdpSocketLaws U}.

Lemma conn_inv_new k mine : conn_inv k mine (MagicConnection_new : MagicConnection U).
Proof. split; simpl; try done. constructor. Qed.

Lemma magic_run_moved k mine (calls : list (magic_call U)) s :
  conn_inv k mine s → Forall (tagged k mine) calls →
  conn_inv k mine (magic_run calls s)
  ∧ flow k mine (magic_run calls s)
    `sublist_of` flow k mine s ++ List.filter mine (concat (map (submits k) calls)).
Proof.
  revert s. induction calls as [|c calls IH]; intros s Hs Hcalls; simpl.
  { by rewrite app_nil_r. }
  apply Forall_cons in Hcalls as [Hc Hcalls].
  destruct (magic_call_keeps k mine c Hc s Hs) as [_ [Hs1 Hf _]].
  destruct (IH _ Hs1 Hcalls) as [H2 Hf2]. split; [done|].
  rewrite List.filter_app, app_assoc. etrans; [exact Hf2|]. by apply sublist_app.
Qed.

(** With no payload of interest every sequence of calls is covered; the factory is
    only asked to return or throw. *)
Definition opens_safely (c : magic_call U) : Prop :=
  match c with Call_Open _ opened | Call_Rebind _ opened => opened ≠ UB | _ => True end.

Lemma tagged_none k c : opens_safely c → tagged k (fun _ => false) c.
Proof.
  assert (∀ l : list bytes, List.filter (fun _ => false) l = []) as Hnil by (by induction l).
  destruct c; simpl; try done; by intros ?; split; intros; rewrite ?Hnil.
Qed.

Lemma magic_reachable k calls :
  Forall opens_safely calls →
  conn_inv k (fun _ => false) (magic_run calls MagicConnection_new).
Proof.
  intros Hc. apply magic_run_moved; [apply conn_inv_new|].
  eapply Forall_impl; [exact Hc|]. apply tagged_none.
Qed.

(** Whatever calls are made on a magicsock connection, and whatever the socket does,
    no call has undefined behaviour; every peer's queue counts its bytes right and stays within
    1024 datagrams and 4 MiB, at most 32 distinct endpoints are remembered for a peer and the one
    in use is among them; and as long as a datagram is queued the socket is open and its owner has
    asked for the event that flushes it, so that no queued datagram is stranded. *)
Theorem MagicConnection_reachable_ok (calls : list (magic_call U)) (c : magic_call U) :
  Forall opens_safely (calls ++ [c]) →
  let s := magic_run calls MagicConnection_new in
  (magic_run_call c s).1 ≠ UB
  ∧ ∀ k p, map_find k (mc_peers s) = Some p →
      magic_peer_ok p
      ∧ (mp_Pending p ≠ [] → ∃ u, mc_socket s = Some u ∧ us_writeInterest u = true).
Proof.
  intros [Hcalls Hc]%Forall_app s. apply Forall_cons in Hc as [Hc _].
  pose proof (magic_reachable [] calls Hcalls) as Hs. split.
  - by apply (magic_call_keeps [] _ c (tagged_none [] c Hc) s Hs).
  - intros k p Hf. split; [by eapply mi_peer|]. intros Hp.
    pose proof (mi_interest _ _ s Hs _ _ Hf Hp) as Hi. unfold interested in Hi.
    destruct (mc_socket s) as [u|]; [by exists u|done].
Qed.

(** C10: datagrams sent to a peer are handed to the socket in the order in which they were
    submitted, each at most once, and those still queued come after those already handed over:
    nothing overtakes a queued datagram, whatever is sent to other peers, however often the socket
    blocks and wherever the calls are interrupted.  [mine] tells the datagrams of the peer from the
    others and from probes, which pass by the queue. *)
Theorem MagicConnection_in_order (k : bytes) (mine : bytes → bool) (calls : list (magic_call U)) :
  Forall (tagged k mine) calls →
  let s := magic_run calls MagicConnection_new in
  List.filter mine (wire s ++ waiting k s)
    `sublist_of` List.filter mine (concat (map (submits k) calls)).
Proof.
  intros Hc s. destruct (magic_run_moved k mine calls _ (conn_inv_new k mine) Hc) as [_ Hf].
  exact Hf.
Qed.

Lemma forgets_verified k e (c : magic_call U) s :
  opens_safely c → conn_inv k (fun _ => false) s → forgets c k = true →
  ¬ verified (magic_run_call c s).2 k e.
Proof.
  intros Hc Hs. assert (∀ A (m : eff (MagicConnection U) A), (ignore m s).2 = (m s).2) as Hig.
  { intros A m. unfold ignore, ebind. by destruct (m s) as [[] ?]. }
  destruct c; simpl; try done; rewrite ?Hig.
  - intros _. by apply (wp_Rebind k (fun _ => false) options opened s Hs (tagged_none k _ Hc)).
  - intros <-%bool_decide_eq_true (p & Hf & _).
    by rewrite (proj2 (proj2 (wp_RemovePeer _ _ peer s Hs))) in Hf.
  - destruct mode; [done|]. intros <-%bool_decide_eq_true (p & Hf & He).
    simpl in Hf. rewrite map_find_alter, bool_decide_true in Hf by done.
    destruct (map_find peer (mc_peers s)); simplify_eq/=. by apply elem_of_nil in He.
  - intros _. by apply (wp_Close k (fun _ => false) s Hs).
Qed.

Lemma vouched_snoc k e calls (c : magic_call U) :
  vouched k e (calls ++ [c])
  = if forgets c k then false else vouched k e calls || verifies c k e.
Proof. unfold vouched. by rewrite foldl_app. Qed.

Lemma verified_vouched k e (calls : list (magic_call U)) :
  Forall opens_safely calls →
  verified (magic_run calls MagicConnection_new) k e → vouched k e calls = true.
Proof.
  induction calls as [|c calls IH] using rev_ind; [by intros _ (p & Hf & _)|].
  intros [Hcalls Hc]%Forall_app. apply Forall_cons in Hc as [Hc _].
  pose proof (magic_reachable k calls Hcalls) as Hs. rewrite vouched_snoc.
  unfold magic_run in *. rewrite foldl_app. simpl. set (s := foldl _ _ calls) in *.
  destruct (forgets c k) eqn:Ef.
  { intros Hv. by destruct (forgets_verified k e c s Hc Hs Ef). }
  destruct (magic_call_keeps k _ c (tagged_none k c Hc) s Hs) as [_ [_ _ Hver]].
  intros [Hv|Hv]%Hver; [by rewrite IH|]. rewrite Hv. by apply orb_true_r.
Qed.

(** A datagram is attributed to a peer by its source only if that source was
    verified as a direct endpoint of that very peer, and neither the socket was rebound or closed,
    nor the peer removed, nor its endpoints forgotten since. *)
Theorem MagicConnection_AcceptDirectSource_vouched (calls : list (magic_call U)) e k s' :
  Forall opens_safely calls →
  MagicConnection_AcceptDirectSource e (magic_run calls MagicConnection_new) = (Ok (Some k), s') →
  vouched k e calls = true.
Proof.
  intros Hcalls Ha. apply verified_vouched; [done|].
  pose proof (magic_reachable k calls Hcalls) as Hs.
  set (s := magic_run calls MagicConnection_new) in *. clearbody s.
  unfold MagicConnection_AcceptDirectSource, ebind, eget in Ha.
  destruct (List.find _ (mc_peers s)) as [[k1 p]|] eqn:Ef; [|done].
  apply find_some in Ef as [Hin Hv]. cbv [eret] in Ha. simpl in *. simplify_eq.
  exists p. split; [|by apply bool_decide_eq_true in Hv].
  apply map_elem_find; [apply Hs|]. by apply list_elem_of_In.
Qed.

End theorems.

(** ** Falling back from a path that does not answer *)

Inductive path_event := Path_Probe (now : Z) | Path_Send (now : Z) | Path_Expire (now : Z).

Definition path_step (p : PeerPathState) (ev : path_event) : PeerPathState :=
  match ev with
  | Path_Probe now => (PeerPathState_TryBeginProbe now p).2
  | Path_Send now => PeerPathState_MarkDirectSend now p
  | Path_Expire now => (PeerPathState_ExpireDirectPath now p).2
  end.

(** Once a datagram that expects a response was sent on a direct path at [t0], and
    as long as no answer arrives, the path is given up by the first check later than 15 seconds
    after [t0] and by none before, however many datagrams are sent meanwhile: sending does not
    extend the deadline.  The endpoint stays verified, so that it can be probed again. *)
Theorem PeerPathState_falls_back p e t0 evs now :
  ps_directEndpoint p = Some e → ps_firstUnansweredDirectSend p = None →
  Forall (fun ev => match ev with Path_Expire t => t - t0 <= DirectPathTimeout | _ => True end) evs →
  let p' := foldl path_step (PeerPathState_MarkDirectSend t0 p) evs in
  ps_directEndpoint p' = Some e
  ∧ ps_verifiedEndpoints (PeerPathState_ExpireDirectPath now p').2 = ps_verifiedEndpoints p
  ∧ (PeerPathState_ExpireDirectPath now p').1 = bool_decide (DirectPathTimeout < now - t0)
  ∧ PeerPathState_HasDirectPath (PeerPathState_ExpireDirectPath now p').2
    = bool_decide (now - t0 <= DirectPathTimeout).
Proof.
  intros Hd Hu Hevs p'.
  assert (ps_directEndpoint p' = Some e ∧ ps_firstUnansweredDirectSend p' = Some t0
          ∧ ps_verifiedEndpoints p' = ps_verifiedEndpoints p) as (H1 & H2 & H3).
  { subst p'. assert (ps_directEndpoint (PeerPathState_MarkDirectSend t0 p) = Some e
      ∧ ps_firstUnansweredDirectSend (PeerPathState_MarkDirectSend t0 p) = Some t0
      ∧ ps_verifiedEndpoints (PeerPathState_MarkDirectSend t0 p) = ps_verifiedEndpoints p) as Hq.
    { unfold PeerPathState_MarkDirectSend. by rewrite Hd, Hu. }
    revert Hq. generalize (PeerPathState_MarkDirectSend t0 p) as q.
    induction Hevs as [|ev evs Hev _ IH]; intros q Hq; [done|]. simpl. apply IH.
    destruct Hq as (Q1 & Q2 & Q3), ev as [t|t|t]; simpl.
    - unfold PeerPathState_TryBeginProbe, PeerPathState_HasDirectPath. by rewrite Q1.
    - unfold PeerPathState_MarkDirectSend. by rewrite Q1, Q2.
    - unfold PeerPathState_ExpireDirectPath. rewrite Q1, Q2.
      by rewrite (proj2 (Z.leb_le _ _) Hev). }
  unfold PeerPathState_ExpireDirectPath, PeerPathState_HasDirectPath. rewrite H1, H2.
  destruct (Z.leb_spec (now - t0) DirectPathTimeout); simpl; split_and!; try done.
  - rewrite bool_decide_false; [done|lia].
  - rewrite H1, bool_decide_true; done.
  - rewrite bool_decide_true; done.
  - rewrite bool_decide_false; [done|lia].
Qed.

(** ** Concrete runs *)

(** A socket that takes [ds_room] datagrams and then blocks until it is read from. *)
Record demo_socket := { ds_sent : list (Endpoint * bytes); ds_interest : bool; ds_room : nat }.

#[export] Instance demo_UdpSocket : UdpSocket demo_socket := {|
  us_TrySendTo d b u :=
    match ds_room u with
    | O => (Ok Io_WouldBlock, u)
    | S n => (Ok Io_Complete, {| ds_sent := ds_sent u ++ [(d, b)]; ds_interest := ds_interest u;
                                 ds_room := n |})
    end;
  us_TryReceive _ u :=
    (Ok {| ur_Result := Io_WouldBlock;
           ur_Datagram := {| ud_Source := {| ep_address := {| ip4_value := 0 |}; ep_port := 0 |};
                             ud_Payload := [] |} |},
     {| ds_sent := ds_sent u; ds_interest := ds_interest u; ds_room := 4 |});
  us_LocalEndpoint _ := Ok {| ep_address := {| ip4_value := 0 |}; ep_port := 41641 |};
  us_SetWriteInterest b u :=
    (Ok tt, {| ds_sent := ds_sent u; ds_interest := b; ds_room := ds_room u |});
  us_sent := ds_sent;
  us_writeInterest := ds_interest |}.

#[export] Instance demo_UdpSocketLaws : UdpSocketLaws demo_socket.
Proof.
  split; try done.
  intros d b u. unfold wp. simpl. destruct (ds_room u); simpl; rewrite ?app_nil_r; done.
Qed.

Definition demo_options : UdpSocketOptions := {|
  uo_BindEndpoint := {| ep_address := {| ip4_value := 0 |}; ep_port := 0 |};
  uo_NetworkInterface := None; uo_ReadinessToken := 7 |}.

Definition demo_magic_peer (n : Z) : bytes := replicate 32 n.
Definition demo_magic_endpoint (n : Z) : Endpoint :=
  {| ep_address := {| ip4_value := 0x0a000000 + n |}; ep_port := 41641 |}.

(** The socket takes one datagram, so that the second one for peer 1 and the one for
    peer 2 wait. *)
Definition demo_calls : list (magic_call demo_socket) :=
  [Call_Open demo_options (Ok (Some {| ds_sent := []; ds_interest := false; ds_room := 1 |}));
   Call_AddPeer (demo_magic_peer 2); Call_AddPeer (demo_magic_peer 1);
   Call_MarkDirect (demo_magic_peer 1) (demo_magic_endpoint 1);
   Call_Send 5 (demo_magic_peer 1) [1; 1] true;
   Call_Send 6 (demo_magic_peer 1) [1; 2] true;
   Call_SendDirect (demo_magic_peer 2) (demo_magic_endpoint 2) [2; 1]].

(** The socket is read from and can then be written to. *)
Definition demo_flush : list (magic_call demo_socket) :=
  [Call_ProcessEvent {| ev_Token := 7; ev_Readiness := Readiness_Readable |} 8 2048;
   Call_ProcessEvent {| ev_Token := 7; ev_Readiness := Readiness_Writable |} 8 2048].

Definition demo_mine (payload : bytes) : bool := match payload with 1 :: _ => true | _ => false end.

Example demo_calls_queue :
  let s := magic_run demo_calls MagicConnection_new in
  wire s = [[1; 1]] ∧ waiting (demo_magic_peer 1) s = [[1; 2]] ∧ interested s = true
  ∧ let s' := magic_run demo_flush s in
    wire s' = [[1; 1]; [1; 2]; [2; 1]] ∧ interested s' = false.
Proof. vm_compute. repeat split. Qed.

Lemma MagicConnection_reachable_ok_witness :
  let s := magic_run demo_calls (MagicConnection_new : MagicConnection demo_socket) in
  (magic_run_call Call_Close s).1 ≠ UB
  ∧ ∀ k p, map_find k (mc_peers s) = Some p →
      magic_peer_ok p
      ∧ (mp_Pending p ≠ [] → ∃ u, mc_socket s = Some u ∧ us_writeInterest u = true).
Proof.
  apply (MagicConnection_reachable_ok demo_calls Call_Close).
  repeat constructor; discriminate.
Defined.

Lemma MagicConnection_in_order_witness :
  let s := magic_run (demo_calls ++ demo_flush) (MagicConnection_new : MagicConnection demo_socket) in
  List.filter demo_mine (wire s ++ waiting (demo_magic_peer 1) s)
    `sublist_of`
  List.filter demo_mine (concat (map (submits (demo_magic_peer 1)) (demo_calls ++ demo_flush))).
Proof.
  apply (MagicConnection_in_order (demo_magic_peer 1) demo_mine).
  repeat constructor; try discriminate; try (intros H; by destruct H).
  intros u [= <-]. reflexivity.
Defined.

Lemma MagicConnection_AcceptDirectSource_vouched_witness :
  vouched (demo_magic_peer 1) (demo_magic_endpoint 1) demo_calls = true.
Proof.
  eapply (MagicConnection_AcceptDirectSource_vouched demo_calls (demo_magic_endpoint 1)
    (demo_magic_peer 1)).
  - repeat constructor; discriminate.
  - vm_compute. reflexivity.
Defined.

Lemma PeerPathState_falls_back_witness :
  let p := {| ps_directEndpoint := Some (demo_magic_endpoint 1);
              ps_verifiedEndpoints := [demo_magic_endpoint 1]; ps_lastDirectProbe := None;
              ps_firstUnansweredDirectSend := None |} in
  let p' := foldl path_step (PeerPathState_MarkDirectSend 100 p)
    [Path_Send 200; Path_Expire 15000000100; Path_Send 15000000100] in
  ps_directEndpoint p' = Some (demo_magic_endpoint 1)
  ∧ ps_verifiedEndpoints (PeerPathState_ExpireDirectPath 15000000101 p').2 = ps_verifiedEndpoints p
  ∧ (PeerPathState_ExpireDirectPath 15000000101 p').1
    = bool_decide (DirectPathTimeout < 15000000101 - 100)
  ∧ PeerPathState_HasDirectPath (PeerPathState_ExpireDirectPath 15000000101 p').2
    = bool_decide (15000000101 - 100 <= DirectPathTimeout).
Proof.
  apply (PeerPathState_falls_back _ (demo_magic_endpoint 1)); [reflexivity|reflexivity|].
  repeat constructor; vm_compute; discriminate.
Defined.
