(* ===== verification/Base64.v ===== *)
(** * Base64 (crypto/Base64.cpp)

    [Base64Encode] and [Base64Decode], which work on groups of three bytes and four
    characters.  The index loops are recursions over the groups. *)

From S2P Require Import Prelude Text.

Definition Alphabet : bytes :=
  lit "ABCDEFGHIJKLMNOPQRSTUVWXYZabcdefghijklmnopqrstuvwxyz0123456789+/".

Definition chr_equals : Z := 61.

Definition DecodeChar (ch : Z) : outcome Z :=
  if (65 <=? ch) && (ch <=? 90) then Ok (ch - 65) else
  if (97 <=? ch) && (ch <=? 122) then Ok (26 + ch - 97) else
  if (48 <=? ch) && (ch <=? 57) then Ok (52 + ch - 48) else
  if ch =? 43 then Ok 62 else
  if ch =? 47 then Ok 63 else
  Throw (RuntimeError "Invalid Base64 character.").

(** One group of the encoder; [second] and [third] are missing in a last group. *)
Definition encode_group (first : Z) (second third : option Z) : outcome bytes :=
  let value := u32 (Z.shiftl first 16) in
  let value := match second with Some b => Z.lor value (u32 (Z.shiftl b 8)) | None => value end in
  let value := match third with Some b => Z.lor value b | None => value end in
  let! c0 := rd Alphabet (Z.land (Z.shiftr value 18) 0x3f) in
  let! c1 := rd Alphabet (Z.land (Z.shiftr value 12) 0x3f) in
  let! c2 := match second with
             | Some _ => rd Alphabet (Z.land (Z.shiftr value 6) 0x3f)
             | None => Ok chr_equals
             end in
  let! c3 := match third with
             | Some _ => rd Alphabet (Z.land value 0x3f)
             | None => Ok chr_equals
             end in
  Ok [c0; c1; c2; c3].

Fixpoint Base64Encode (data : bytes) : outcome bytes :=
  match data with
  | [] => Ok []
  | [a] => encode_group a None None
  | [a; b] => encode_group a (Some b) None
  | a :: b :: c :: rest =>
      let! group := encode_group a (Some b) (Some c) in
      let! output := Base64Encode rest in
      Ok (group ++ output)
  end.

(** One group of the decoder. *)
Definition decode_group (c0 c1 c2 c3 : Z) : outcome bytes :=
  let! d0 := DecodeChar c0 in
  let value := u32 (Z.shiftl d0 18) in
  let! d1 := DecodeChar c1 in
  let value := Z.lor value (u32 (Z.shiftl d1 12)) in
  let hasThird := negb (c2 =? chr_equals) in
  let hasFourth := negb (c3 =? chr_equals) in
  let! value := (if hasThird then let! d2 := DecodeChar c2 in Ok (Z.lor value (u32 (Z.shiftl d2 6)))
                 else Ok value) in
  let! value := (if hasFourth then let! d3 := DecodeChar c3 in Ok (Z.lor value d3)
                 else Ok value) in
  Ok (u8 (Z.land (Z.shiftr value 16) 0xff)
      :: (if hasThird then [u8 (Z.land (Z.shiftr value 8) 0xff)] else [])
      ++ (if hasFourth then [u8 (Z.land value 0xff)] else [])).

(** The loop; the characters that are left are a multiple of four. *)
Fixpoint Base64Decode_loop (text : bytes) : outcome bytes :=
  match text with
  | [] => Ok []
  | c0 :: c1 :: c2 :: c3 :: rest =>
      let! group := decode_group c0 c1 c2 c3 in
      let! output := Base64Decode_loop rest in
      Ok (group ++ output)
  | _ => UB
  end.

Definition Base64Decode (text : bytes) : outcome bytes :=
  if negb (zlen text mod 4 =? 0)
  then Throw (RuntimeError "Base64 length must be a multiple of four.")
  else Base64Decode_loop text.

(** ** The alphabet *)

Lemma Alphabet_decodes i :
  0 <= i < 64 → ∃ c, rd Alphabet i = Ok c ∧ DecodeChar c = Ok i ∧ (c =? chr_equals) = false.
Proof.
  intros Hi. assert (i ∈ map Z.of_nat (seq 0 64)) as Hin.
  { apply list_elem_of_fmap. exists (Z.to_nat i). split; [lia|]. apply elem_of_seq. lia. }
  revert Hin. clear Hi.
  assert (Forall (fun i => ∃ c, rd Alphabet i = Ok c ∧ DecodeChar c = Ok i
    ∧ (c =? chr_equals) = false) (map Z.of_nat (seq 0 64))) as Hall.
  { vm_compute. repeat constructor; (eexists; repeat split; reflexivity). }
  rewrite Forall_forall in Hall. apply Hall.
Qed.

(** ** Values of a group *)

Lemma land_63 v : Z.land v 0x3f = v mod 64.
Proof. change 0x3f with (Z.ones 6). by rewrite Z.land_ones. Qed.

Lemma land_255 v : Z.land v 0xff = v mod 256.
Proof. change 0xff with (Z.ones 8). by rewrite Z.land_ones. Qed.

Lemma u32_shiftl v n : 0 <= n → 0 <= v * 2 ^ n < 2 ^ 32 → u32 (Z.shiftl v n) = v * 2 ^ n.
Proof. intros ? ?. rewrite Z.shiftl_mul_pow2 by lia. by apply wrap_id. Qed.

Lemma lor_add v n b : 0 <= n → 0 <= b < 2 ^ n → Z.lor (v * 2 ^ n) b = v * 2 ^ n + b.
Proof. intros ? ?. rewrite <- lor_shiftl_add by lia. by rewrite Z.shiftl_mul_pow2 by lia. Qed.

(** The four digits of a value in base 64, least significant last. *)
Definition digits64 (v : Z) : Z * Z * Z * Z :=
  (v / 262144 mod 64, v / 4096 mod 64, v / 64 mod 64, v mod 64).

Lemma digits64_value v :
  0 <= v < 2 ^ 24 →
  let '(d0, d1, d2, d3) := digits64 v in
  0 <= d0 < 64 ∧ 0 <= d1 < 64 ∧ 0 <= d2 < 64 ∧ 0 <= d3 < 64
  ∧ v = d0 * 262144 + d1 * 4096 + d2 * 64 + d3.
Proof.
  intros Hv. unfold digits64. cbn beta iota zeta.
  repeat (split; [apply Z.mod_pos_bound; lia|]).
  pose proof (Z.div_mod v 64 ltac:(lia)). pose proof (Z.div_mod (v / 64) 64 ltac:(lia)).
  pose proof (Z.div_mod (v / 64 / 64) 64 ltac:(lia)).
  rewrite !Z.div_div in * by lia. change (64 * 64) with 4096 in *.
  change (4096 * 64) with 262144 in *.
  rewrite (Z.mod_small (v / 262144)); [lia|]. split; [apply Z.div_pos; lia|].
  apply Z.div_lt_upper_bound; lia.
Qed.

Lemma decoded_value d0 d1 d2 d3 :
  0 <= d0 < 64 → 0 <= d1 < 64 → 0 <= d2 < 64 → 0 <= d3 < 64 →
  Z.lor (u32 (Z.shiftl d0 18)) (u32 (Z.shiftl d1 12)) = d0 * 262144 + d1 * 4096
  ∧ Z.lor (d0 * 262144 + d1 * 4096) (u32 (Z.shiftl d2 6)) = d0 * 262144 + d1 * 4096 + d2 * 64
  ∧ Z.lor (d0 * 262144 + d1 * 4096 + d2 * 64) d3 = d0 * 262144 + d1 * 4096 + d2 * 64 + d3.
Proof.
  intros ????. rewrite !u32_shiftl by lia.
  rewrite lor_add by lia.
  replace (d0 * 262144 + d1 * 4096) with ((d0 * 64 + d1) * 2 ^ 12) by lia.
  rewrite lor_add by lia.
  replace ((d0 * 64 + d1) * 2 ^ 12 + d2 * 64) with ((d0 * 4096 + d1 * 64 + d2) * 2 ^ 6) by lia.
  rewrite lor_add by lia. lia.
Qed.

Lemma encoded_value a b c :
  in_width 8 a → in_width 8 b → in_width 8 c →
  u32 (Z.shiftl a 16) = a * 65536
  ∧ Z.lor (a * 65536) (u32 (Z.shiftl b 8)) = a * 65536 + b * 256
  ∧ Z.lor (a * 65536 + b * 256) c = a * 65536 + b * 256 + c.
Proof.
  unfold in_width. intros ???. rewrite !u32_shiftl by lia.
  change (a * 65536) with (a * 2 ^ 16).
  rewrite lor_add by lia.
  replace (a * 2 ^ 16 + b * 2 ^ 8) with ((a * 256 + b) * 2 ^ 8) by lia.
  replace (a * 2 ^ 16 + b * 256) with ((a * 256 + b) * 2 ^ 8) by lia.
  rewrite lor_add by lia. lia.
Qed.

(** The bytes of a value of three bytes. *)
Lemma value_bytes a b c :
  in_width 8 a → in_width 8 b → in_width 8 c →
  let v := a * 65536 + b * 256 + c in
  u8 (Z.land (Z.shiftr v 16) 0xff) = a ∧ u8 (Z.land (Z.shiftr v 8) 0xff) = b
  ∧ u8 (Z.land v 0xff) = c.
Proof.
  intros Ha Hb Hc v. unfold in_width in Ha, Hb, Hc. rewrite !land_255, !Z.shiftr_div_pow2 by lia.
  assert (v / 2 ^ 16 = a) as -> by (symmetry; apply (Z.div_unique _ _ _ (b * 256 + c)); lia).
  assert (v / 2 ^ 8 = a * 256 + b) as -> by (symmetry; apply (Z.div_unique _ _ _ c); lia).
  assert (v mod 256 = c) as -> by (symmetry; apply (Z.mod_unique _ _ (a * 256 + b)); lia).
  assert ((a * 256 + b) mod 256 = b) as -> by (symmetry; apply (Z.mod_unique _ _ a); lia).
  rewrite (Z.mod_small a) by lia. split_and!; apply wrap_id; unfold in_width; lia.
Qed.

(** ** The round trip *)

(** The bytes that a group stands for. *)
Definition group_bytes (a : Z) (b c : option Z) : bytes :=
  a :: match b with Some b => [b] | None => [] end ++ match c with Some c => [c] | None => [] end.

Lemma group_roundtrip a b c :
  in_width 8 a → in_width 8 (default 0 b) → in_width 8 (default 0 c) → (c ≠ None → b ≠ None) →
  ∃ c0 c1 c2 c3, encode_group a b c = Ok [c0; c1; c2; c3]
    ∧ decode_group c0 c1 c2 c3 = Ok (group_bytes a b c).
Proof.
  intros Ha Hb Hc Hbc. unfold encode_group.
  destruct (encoded_value a (default 0 b) (default 0 c) Ha Hb Hc) as (V0 & V1 & V2).
  destruct (value_bytes a (default 0 b) (default 0 c) Ha Hb Hc) as (B0 & B1 & B2).
  set (v := a * 65536 + default 0 b * 256 + default 0 c) in *.
  assert (0 <= v < 2 ^ 24) as Hv by (unfold in_width in *; subst v; lia).
  pose proof (digits64_value v Hv) as Hdigits. unfold digits64 in Hdigits.
  destruct Hdigits as (D0 & D1 & D2 & D3 & Hsum).
  destruct (decoded_value _ _ _ _ D0 D1 D2 D3) as (L0 & L1 & L2).
  assert ((match c with
           | Some c => Z.lor (match b with Some b => Z.lor (u32 (Z.shiftl a 16)) (u32 (Z.shiftl b 8))
                              | None => u32 (Z.shiftl a 16) end) c
           | None => match b with Some b => Z.lor (u32 (Z.shiftl a 16)) (u32 (Z.shiftl b 8))
                     | None => u32 (Z.shiftl a 16) end
           end) = v) as Hval.
  { subst v. rewrite V0. destruct b as [b|], c as [c|]; simpl in *; try (by destruct Hbc);
      rewrite ?V1, ?V2; lia. }
  cbv zeta. rewrite Hval, !land_63, !Z.shiftr_div_pow2 by lia.
  change (2 ^ 18) with 262144. change (2 ^ 12) with 4096. change (2 ^ 6) with 64.
  destruct (Alphabet_decodes _ D0) as (c0 & -> & E0 & _).
  destruct (Alphabet_decodes _ D1) as (c1 & -> & E1 & _).
  destruct (Alphabet_decodes _ D2) as (c2 & F2 & E2 & N2).
  destruct (Alphabet_decodes _ D3) as (c3 & F3 & E3 & N3).
  cbn [obind]. rewrite F2, F3.
  exists c0, c1, (match b with Some _ => c2 | None => chr_equals end),
    (match c with Some _ => c3 | None => chr_equals end).
  split; [by destruct b, c|]. unfold decode_group. rewrite E0, E1. cbn [obind]. cbv zeta.
  rewrite L0. unfold group_bytes.
  destruct b as [b|], c as [c|]; try (by destruct Hbc); simpl in *;
    rewrite ?N2, ?N3; cbn [negb obind]; rewrite ?E2, ?E3; cbn [obind].
  - by rewrite L1, L2, <- Hsum, B0, B1, B2.
  - assert (v mod 64 = 0) as Hz.
    { apply Z.mod_divide; [lia|]. exists (a * 1024 + b * 4). subst v. lia. }
    rewrite Hz, Z.add_0_r in Hsum. by rewrite L1, <- Hsum, B0, B1.
  - assert (v = (a * 1024) * 64) as Hmul by (subst v; lia).
    assert (v mod 64 = 0) as Hz by (rewrite Hmul; apply Z.mod_mul; lia).
    assert (v / 64 mod 64 = 0) as Hz'.
    { rewrite Hmul, Z.div_mul by lia. apply Z.mod_divide; [lia|]. exists (a * 16). lia. }
    rewrite Hz, Hz', Z.mul_0_l, !Z.add_0_r in Hsum. by rewrite <- Hsum, B0.
Qed.

Lemma Base64Encode_groups data :
  bytes_ok data →
  ∃ text, Base64Encode data = Ok text ∧ Base64Decode_loop text = Ok data
    ∧ zlen text = 4 * ((zlen data + 2) / 3).
Proof.
  induction data as [data IH] using (induction_ltof1 _ (@length Z)). unfold ltof in IH.
  intros Hd. destruct data as [|a [|b [|c rest]]]; cbn [Base64Encode].
  - by exists [].
  - forall_elim Hd.
    destruct (group_roundtrip a None None) as (c0 & c1 & c2 & c3 & -> & Hdec); try done.
    exists [c0; c1; c2; c3]. cbn [Base64Decode_loop]. by rewrite Hdec.
  - forall_elim Hd.
    destruct (group_roundtrip a (Some b) None) as (c0 & c1 & c2 & c3 & -> & Hdec); try done.
    exists [c0; c1; c2; c3]. cbn [Base64Decode_loop]. by rewrite Hdec.
  - apply Forall_cons in Hd as [Ha Hd]. apply Forall_cons in Hd as [Hb Hd].
    apply Forall_cons in Hd as [Hc Hd].
    destruct (group_roundtrip a (Some b) (Some c)) as (c0 & c1 & c2 & c3 & -> & Hdec); try done.
    destruct (IH rest) as (text & -> & Hrest & Hlen); [simpl; lia|done|].
    exists ([c0; c1; c2; c3] ++ text). cbn [obind app Base64Decode_loop].
    rewrite Hdec, Hrest. split_and!; [done..|]. rewrite !zlen_cons, Hlen.
    replace (zlen rest + 1 + 1 + 1 + 2) with ((zlen rest + 2) + 1 * 3) by lia.
    rewrite Z.div_add by lia. lia.
Qed.

(** Encoding is total, its text is as long as the buffer reserved for it, and
    decoding the text gives the data back, whatever its length. *)
Theorem Base64_roundtrip data :
  bytes_ok data →
  ∃ text, Base64Encode data = Ok text ∧ zlen text = 4 * ((zlen data + 2) / 3)
    ∧ Base64Decode text = Ok data.
Proof.
  intros Hd. destruct (Base64Encode_groups data Hd) as (text & He & Hdec & Hlen).
  exists text. split_and!; [done..|]. unfold Base64Decode.
  by rewrite Hlen, Z.mul_comm, Z.mod_mul.
Qed.

Lemma safe_DecodeChar c : safe (DecodeChar c).
Proof. unfold DecodeChar. safe_auto. Qed.

(** Decoding reads nothing outside the text, whatever it holds. *)
Lemma Base64Decode_safe text : safe (Base64Decode text).
Proof.
  unfold Base64Decode. destruct (zlen text mod 4 =? 0) eqn:E; simpl; [|done].
  apply Z.eqb_eq, Z.mod_divide in E as [n Hn]; [|done].
  assert (∃ m : nat, length text = (4 * m)%nat) as [m Hm].
  { exists (Z.to_nat n). unfold zlen in Hn. lia. }
  clear n Hn. revert text Hm. induction m as [|m IH]; intros text Hm.
  { by destruct text. }
  destruct text as [|c0 [|c1 [|c2 [|c3 rest]]]]; simpl in Hm; try lia.
  cbn [Base64Decode_loop]. apply safe_obind; [|intros ? _; apply safe_obind; [apply IH; lia|done]].
  unfold decode_group. repeat (safe_step || apply safe_DecodeChar).
Qed.

Lemma Base64_roundtrip_witness :
  ∃ text, Base64Encode [77; 97; 110; 255; 0] = Ok text ∧ zlen text = 8
    ∧ Base64Decode text = Ok [77; 97; 110; 255; 0].
Proof.
  destruct (Base64_roundtrip [77; 97; 110; 255; 0]) as (text & ? & ? & ?);
    [repeat constructor; vm_compute; first [discriminate|reflexivity]|].
  exists text. auto.
Defined.
