(* ===== verification/Disco.v ===== *)
(** * Discovery messages (disco/Disco.cpp) and the probes built from them
    (hosted/DiscoProbes.cpp)

    A discovery packet is a header with the sender's key, a nonce and a sealed message:
    a ping, a pong or an offer of endpoints.  Sealing and opening are libsodium's, behind
    the class [SodiumBox]; [SodiumBoxLaws] is its documented behaviour.  Random bytes come
    from a generator whose state the operations thread. *)

From S2P Require Import Prelude Text Net Codec NetMap Router.

(** [crypto_box_beforenm(public, private)], [crypto_box_easy_afternm(message, nonce, key)],
    [crypto_box_open_easy_afternm(ciphertext, nonce, key)] and
    [crypto_scalarmult_base(private)]. *)
Class SodiumBox := {
  box_beforenm : bytes → bytes → option bytes;
  box_easy : bytes → bytes → bytes → bytes;
  box_open : bytes → bytes → bytes → option bytes;
  box_public : bytes → bytes
}.

(** [randombytes_buf] of a buffer of the given size. *)
Class RandomBytes (R : Type) := { random_bytes : nat → R → bytes * R }.

Definition crypto_box_NONCEBYTES : Z := 24.
Definition crypto_box_MACBYTES : Z := 16.

Definition DiscoMagic : bytes := [0x54; 0x53; 0xf0; 0x9f; 0x92; 0xac].
Definition Disco_HeaderSize : Z := zlen DiscoMagic + 32.
Definition Disco_PingType : Z := 0x01.
Definition Disco_PongType : Z := 0x02.
Definition Disco_CallMeMaybeType : Z := 0x03.
Definition Disco_ProtocolVersion : Z := 0.
Definition Disco_EndpointSize : Z := 18.
Definition MessageHeaderSize : Z := 2.
Definition Ipv4MappedPrefixZeroBytes : nat := 10.
Definition Ipv4MappedMarkerOffset : Z := 10.
Definition Ipv4AddressOffset : Z := 12.
Definition EndpointPortOffset : Z := 16.
Definition TransactionSize : nat := 12.

Inductive DiscoMessageType := Disco_Ping | Disco_Pong | Disco_CallMeMaybe.

Record DiscoMessage := {
  dm_Type : DiscoMessageType;
  dm_Transaction : bytes;
  dm_Sender : bytes;
  dm_SourceEndpoint : option Endpoint;
  dm_Endpoints : list Endpoint
}.

Record Disco := { di_Private : bytes; di_Public : bytes; di_NodePublic : bytes }.

Definition Disco_IsDiscoPacket (packet : bytes) : bool :=
  (Disco_HeaderSize <=? zlen packet) && bool_decide (take (length DiscoMagic) packet = DiscoMagic).

(** An endpoint as an IPv4-mapped address and a port. *)
Definition mapped_endpoint (address : Ipv4Address) (port : Z) : bytes :=
  replicate Ipv4MappedPrefixZeroBytes 0 ++ [0xff; 0xff] ++ Ipv4Address_Octets address
  ++ [u8 (Z.shiftr port 8); u8 port].

(** The test that the endpoint at [offset] holds an IPv4 address. *)
Definition is_ipv4_mapped (plaintext : bytes) (offset : Z) : outcome bool :=
  let! prefix := slice plaintext offset (offset + Z.of_nat Ipv4MappedPrefixZeroBytes) in
  if negb (forallb (fun value => value =? 0) prefix) then Ok false else
  let! m0 := rd plaintext (offset + Ipv4MappedMarkerOffset) in
  if negb (m0 =? 0xff) then Ok false else
  let! m1 := rd plaintext (offset + Ipv4MappedMarkerOffset + 1) in
  Ok (m1 =? 0xff).

Definition mapped_address (plaintext : bytes) (offset : Z) : outcome Ipv4Address :=
  let! a := rd plaintext (offset + Ipv4AddressOffset) in
  let! b := rd plaintext (offset + Ipv4AddressOffset + 1) in
  let! c := rd plaintext (offset + Ipv4AddressOffset + 2) in
  let! d := rd plaintext (offset + Ipv4AddressOffset + 3) in
  Ok (Ipv4Address_FromOctets a b c d).

Definition mapped_port (plaintext : bytes) (offset : Z) : outcome Z :=
  let! high := rd plaintext (offset + EndpointPortOffset) in
  let! low := rd plaintext (offset + EndpointPortOffset + 1) in
  Ok (u16 (Z.lor (Z.shiftl high 8) low)).

Definition DiscoMessage_of (type : DiscoMessageType) (transaction sender : bytes)
    (source : option Endpoint) (endpoints : list Endpoint) : DiscoMessage := {|
  dm_Type := type; dm_Transaction := transaction; dm_Sender := sender;
  dm_SourceEndpoint := source; dm_Endpoints := endpoints |}.

(** The branch of [Parse] for pings and pongs. *)
Definition parse_ping_pong (plaintext sender : bytes) (type : DiscoMessageType)
    : outcome (option DiscoMessage) :=
  let endpointOffset := MessageHeaderSize + Z.of_nat TransactionSize in
  if zlen plaintext <? endpointOffset then Ok None else
  let! transaction := slice plaintext MessageHeaderSize endpointOffset in
  let plain := Ok (Some (DiscoMessage_of type transaction sender None [])) in
  match type with
  | Disco_Pong =>
      if zlen plaintext <? endpointOffset + Disco_EndpointSize then plain else
      let! mapped := is_ipv4_mapped plaintext endpointOffset in
      if mapped : bool then
        let! address := mapped_address plaintext endpointOffset in
        let! port := mapped_port plaintext endpointOffset in
        Ok (Some (DiscoMessage_of type transaction sender
                    (Some {| ep_address := address; ep_port := port |}) []))
      else plain
  | _ => plain
  end.

(** The loop of [Parse] over the endpoints of an offer: [todo] of them are left. *)
Fixpoint parse_endpoints (todo : nat) (plaintext : bytes) (offset : Z) (endpoints : list Endpoint)
    : outcome (list Endpoint) :=
  if negb (offset <? zlen plaintext) then Ok endpoints else
  match todo with
  | O => UB
  | S todo' =>
      let! mapped := is_ipv4_mapped plaintext offset in
      let! port := mapped_port plaintext offset in
      let! endpoints :=
        (if mapped && negb (port =? 0) then
           let! address := mapped_address plaintext offset in
           Ok (endpoints ++ [{| ep_address := address; ep_port := port |}])
         else Ok endpoints) in
      parse_endpoints todo' plaintext (offset + Disco_EndpointSize) endpoints
  end.

Definition parse_call_me_maybe (plaintext sender : bytes) : outcome (option DiscoMessage) :=
  if negb ((zlen plaintext - MessageHeaderSize) mod Disco_EndpointSize =? 0) then Ok None else
  let! endpoints := parse_endpoints (length plaintext) plaintext MessageHeaderSize [] in
  Ok (Some (DiscoMessage_of Disco_CallMeMaybe (replicate TransactionSize 0) sender None endpoints)).

(** [Parse] from the point where the message is open. *)
Definition parse_plaintext (plaintext sender : bytes) : outcome (option DiscoMessage) :=
  let! version := rd plaintext 1 in
  if negb (version =? Disco_ProtocolVersion) then Ok None else
  let! type := rd plaintext 0 in
  if type =? Disco_PingType then parse_ping_pong plaintext sender Disco_Ping else
  if type =? Disco_PongType then parse_ping_pong plaintext sender Disco_Pong else
  if type =? Disco_CallMeMaybeType then parse_call_me_maybe plaintext sender else
  Ok None.

Section disco.
  Context `{!SodiumBox} {R : Type} `{!RandomBytes R}.

Definition Disco_SharedKey (privateKey publicKey : bytes) : bytes :=
  match box_beforenm publicKey privateKey with
  | Some shared => shared
  | None => replicate 32 0
  end.

Definition Disco_new (privateKey nodePublicKey : bytes) : Disco := {|
  di_Private := privateKey; di_Public := box_public privateKey; di_NodePublic := nodePublicKey |}.

Definition randombytes_buf (size : nat) : eff R bytes := fun r =>
  let '(b, r') := random_bytes size r in (Ok b, r').

Definition Disco_NewTransactionId : eff R bytes := randombytes_buf TransactionSize.

Definition Disco_Seal (d : Disco) (recipient message : bytes) : eff R bytes :=
  let shared := Disco_SharedKey (di_Private d) recipient in
  let* nonce := randombytes_buf (Z.to_nat crypto_box_NONCEBYTES) in
  eret (DiscoMagic ++ di_Public d ++ nonce ++ box_easy message nonce shared).

Definition Disco_BuildPing (d : Disco) (recipient transaction : bytes) : eff R bytes :=
  Disco_Seal d recipient ([Disco_PingType; Disco_ProtocolVersion] ++ transaction ++ di_NodePublic d).

Definition Disco_BuildPong (d : Disco) (recipient transaction : bytes)
    (sourceAddress : Ipv4Address) (sourcePort : Z) : eff R bytes :=
  Disco_Seal d recipient ([Disco_PongType; Disco_ProtocolVersion] ++ transaction
                          ++ mapped_endpoint sourceAddress sourcePort).

Definition Disco_BuildCallMeMaybe (d : Disco) (recipient : bytes) (endpoints : list Endpoint)
    : eff R bytes :=
  Disco_Seal d recipient ([Disco_CallMeMaybeType; Disco_ProtocolVersion]
    ++ concat (map (fun e => mapped_endpoint (ep_address e) (ep_port e)) endpoints)).

Definition Disco_Parse (d : Disco) (packet : bytes) : outcome (option DiscoMessage) :=
  if negb (Disco_IsDiscoPacket packet)
     || (zlen packet <? Disco_HeaderSize + crypto_box_NONCEBYTES + crypto_box_MACBYTES
                        + MessageHeaderSize)
  then Ok None else
  let! sender := slice packet (zlen DiscoMagic) (zlen DiscoMagic + 32) in
  let shared := Disco_SharedKey (di_Private d) sender in
  let! nonce := slice packet Disco_HeaderSize (Disco_HeaderSize + crypto_box_NONCEBYTES) in
  let! ciphertext := slice packet (Disco_HeaderSize + crypto_box_NONCEBYTES) (zlen packet) in
  match box_open ciphertext nonce shared with
  | None => Ok None
  | Some plaintext => parse_plaintext plaintext sender
  end.

End disco.

(** ** Hypotheses on libsodium *)

Class SodiumBoxLaws `{!SodiumBox} : Prop := {
  box_easy_length : ∀ m n k, zlen (box_easy m n k) = crypto_box_MACBYTES + zlen m;
  box_open_length : ∀ c n k m, box_open c n k = Some m → zlen c = crypto_box_MACBYTES + zlen m;
  box_open_easy : ∀ m n k, box_open (box_easy m n k) n k = Some m;
  box_public_length : ∀ k, zlen (box_public k) = 32;
  (** Both sides of an exchange compute the same key. *)
  box_shared : ∀ a b, box_beforenm (box_public b) a = box_beforenm (box_public a) b
}.

Class RandomBytesLaws (R : Type) `{!RandomBytes R} : Prop := {
  random_bytes_length : ∀ n r, length (random_bytes n r).1 = n
}.

(** ** Endpoints on the wire *)

Lemma zlen_mapped_endpoint a p : zlen (mapped_endpoint a p) = Disco_EndpointSize.
Proof. done. Qed.

Lemma port_bytes p : in_width 16 p → u16 (Z.lor (Z.shiftl (u8 (Z.shiftr p 8)) 8) (u8 p)) = p.
Proof.
  intros Hp. unfold in_width in Hp. rewrite lor_shiftl_add by (try apply wrap_range; lia).
  rewrite Z.shiftr_div_pow2 by lia. rewrite (wrap_id 8 (p / 2 ^ 8)).
  2:{ split; [apply Z.div_pos; lia|apply Z.div_lt_upper_bound; lia]. }
  unfold wrap at 2. rewrite Z.mul_comm, <- Z.div_mod by lia. by apply wrap_id.
Qed.

Lemma mapped_endpoint_reads pre a p post off :
  off = zlen pre → Ipv4Address_ok a → in_width 16 p →
  let plaintext := pre ++ mapped_endpoint a p ++ post in
  is_ipv4_mapped plaintext off = Ok true
  ∧ mapped_address plaintext off = Ok a ∧ mapped_port plaintext off = Ok p.
Proof.
  intros -> Ha Hp. cbv zeta.
  pose proof (FromOctets_Octets a Ha) as Hoct.
  unfold mapped_endpoint.
  destruct (Ipv4Address_Octets a) as [|o0 [|o1 [|o2 [|o3 [|]]]]] eqn:E; try done.
  assert (∀ i l b, 0 <= i → l !! Z.to_nat i = Some b → rd (pre ++ l) (zlen pre + i) = Ok b) as Hrd.
  { intros i l b Hi Hl. rewrite rd_app_r by lia. apply rd_lookup.
    replace (zlen pre + i - zlen pre) with i by lia. done. }
  split_and!.
  - unfold is_ipv4_mapped.
    rewrite <- app_assoc, (slice_full pre (replicate Ipv4MappedPrefixZeroBytes 0)); [|done|].
    2:{ by rewrite zlen_replicate. }
    cbn [obind]. unfold Ipv4MappedMarkerOffset.
    rewrite (Hrd 10 _ 0xff) by done. cbn [obind].
    change (negb (0xff =? 0xff)) with false. cbn iota.
    rewrite <- Z.add_assoc. change (10 + 1) with 11. by rewrite (Hrd 11 _ 0xff).
  - unfold mapped_address, Ipv4AddressOffset. rewrite <- !Z.add_assoc.
    change (12 + 1) with 13. change (12 + 2) with 14. change (12 + 3) with 15.
    rewrite (Hrd 12 _ o0), (Hrd 13 _ o1), (Hrd 14 _ o2), (Hrd 15 _ o3) by done.
    cbn [obind]. by rewrite Hoct.
  - unfold mapped_port, EndpointPortOffset. rewrite <- !Z.add_assoc. change (16 + 1) with 17.
    rewrite (Hrd 16 _ (u8 (Z.shiftr p 8))), (Hrd 17 _ (u8 p)) by done.
    cbn [obind]. by rewrite port_bytes.
Qed.

Definition offered (e : Endpoint) : bool := negb (ep_port e =? 0).

Definition endpoints_bytes (endpoints : list Endpoint) : bytes :=
  concat (map (fun e => mapped_endpoint (ep_address e) (ep_port e)) endpoints).

Lemma zlen_endpoints_bytes endpoints :
  zlen (endpoints_bytes endpoints) = Disco_EndpointSize * zlen endpoints.
Proof.
  unfold endpoints_bytes. induction endpoints as [|e rest IH]; [done|].
  cbn [map concat]. rewrite zlen_app, zlen_mapped_endpoint, IH, zlen_cons. lia.
Qed.

Lemma parse_endpoints_spec endpoints fuel pre acc :
  Forall Endpoint_ok endpoints → (length endpoints <= fuel)%nat →
  parse_endpoints fuel (pre ++ endpoints_bytes endpoints) (zlen pre) acc
  = Ok (acc ++ List.filter offered endpoints).
Proof.
  intros He. revert fuel pre acc. induction He as [|e rest [Ha Hp] He IH]; intros fuel pre acc Hf.
  - unfold endpoints_bytes. simpl. rewrite !app_nil_r.
    destruct fuel; simpl; by rewrite Z.ltb_irrefl.
  - destruct fuel as [|fuel]; [simpl in Hf; lia|]. cbn [parse_endpoints].
    change (endpoints_bytes (e :: rest))
      with (mapped_endpoint (ep_address e) (ep_port e) ++ endpoints_bytes rest).
    destruct (mapped_endpoint_reads pre (ep_address e) (ep_port e) (endpoints_bytes rest) _ eq_refl
                Ha Hp) as (-> & Haddr & ->).
    replace (zlen pre <? _) with true.
    2:{ symmetry. apply Z.ltb_lt. rewrite !zlen_app, zlen_mapped_endpoint.
        unfold Disco_EndpointSize. pose proof (zlen_nonneg (endpoints_bytes rest)). lia. }
    cbn [negb obind]. rewrite app_assoc, <- (zlen_mapped_endpoint (ep_address e) (ep_port e)),
      <- zlen_app.
    cbn [List.filter]. unfold offered at 1. destruct (ep_port e =? 0); simpl.
    + rewrite IH by (simpl in Hf; lia). done.
    + rewrite <- app_assoc, Haddr. cbn [obind]. rewrite app_assoc, IH by (simpl in Hf; lia).
      destruct e. by rewrite <- app_assoc.
Qed.

(** ** Any message *)

Section total.
  Context (plaintext : bytes) (offset : Z).
  Context (Hoff : 0 <= offset ∧ offset + Disco_EndpointSize <= zlen plaintext).

Lemma endpoint_reads i : 0 <= i < 18 → ∃ b, rd plaintext (offset + i) = Ok b.
Proof. unfold Disco_EndpointSize in Hoff. intros ?. apply rd_Ok. lia. Qed.

Lemma is_ipv4_mapped_total : ∃ b, is_ipv4_mapped plaintext offset = Ok b.
Proof.
  unfold is_ipv4_mapped. unfold Disco_EndpointSize in Hoff.
  rewrite slice_Ok by (unfold Ipv4MappedPrefixZeroBytes; lia). cbn [obind].
  ifb; [eauto|]. destruct (endpoint_reads Ipv4MappedMarkerOffset) as [b ->]; [done|].
  cbn [obind]. ifb; [eauto|]. rewrite <- Z.add_assoc.
  destruct (endpoint_reads (Ipv4MappedMarkerOffset + 1)) as [c ->]; [done|]. simpl. eauto.
Qed.

Lemma mapped_address_total : ∃ a, mapped_address plaintext offset = Ok a.
Proof.
  unfold mapped_address. rewrite <- !Z.add_assoc.
  destruct (endpoint_reads Ipv4AddressOffset) as [a ->]; [done|].
  destruct (endpoint_reads (Ipv4AddressOffset + 1)) as [b ->]; [done|].
  destruct (endpoint_reads (Ipv4AddressOffset + 2)) as [c ->]; [done|].
  destruct (endpoint_reads (Ipv4AddressOffset + 3)) as [d ->]; [done|]. simpl. eauto.
Qed.

Lemma mapped_port_total : ∃ p, mapped_port plaintext offset = Ok p ∧ in_width 16 p.
Proof.
  unfold mapped_port. rewrite <- !Z.add_assoc.
  destruct (endpoint_reads EndpointPortOffset) as [a ->]; [done|].
  destruct (endpoint_reads (EndpointPortOffset + 1)) as [b ->]; [done|]. cbn [obind].
  eexists. split; [done|]. apply wrap_range. lia.
Qed.

End total.

Lemma parse_endpoints_total fuel plaintext offset acc n :
  0 <= offset → 0 <= n → zlen plaintext = offset + Disco_EndpointSize * n → n <= Z.of_nat fuel →
  ∃ l, parse_endpoints fuel plaintext offset acc = Ok (acc ++ l)
    ∧ Forall (fun e => 0 < ep_port e < 2 ^ 16) l ∧ zlen l <= n.
Proof.
  revert offset acc n. induction fuel as [|fuel IH]; intros offset acc n Ho Hn Hlen Hf.
  all: unfold Disco_EndpointSize in Hlen; cbn [parse_endpoints].
  { replace (offset <? _) with false by lia. exists []. by rewrite app_nil_r. }
  destruct (offset <? zlen plaintext) eqn:E; simpl.
  2:{ exists []. rewrite app_nil_r. split_and!; [done..|]. done. }
  apply Z.ltb_lt in E. assert (1 <= n) as Hn1 by lia.
  assert (0 <= offset ∧ offset + Disco_EndpointSize <= zlen plaintext) as Hoff
    by (unfold Disco_EndpointSize; lia).
  destruct (is_ipv4_mapped_total _ _ Hoff) as [mapped ->].
  destruct (mapped_address_total _ _ Hoff) as [address Haddr].
  destruct (mapped_port_total _ _ Hoff) as (port & -> & Hport). cbn [obind]. rewrite Haddr.
  destruct (mapped && negb (port =? 0)) eqn:Em; cbn [obind].
  - destruct (IH (offset + Disco_EndpointSize) (acc ++ [{| ep_address := address; ep_port := port |}])
      (n - 1)) as (l & -> & Hl & Hn'); unfold Disco_EndpointSize; try lia.
    exists ({| ep_address := address; ep_port := port |} :: l).
    rewrite <- app_assoc. split_and!; [done| |rewrite zlen_cons; lia].
    constructor; [|done]. b2p. unfold in_width in Hport. simpl. lia.
  - destruct (IH (offset + Disco_EndpointSize) acc (n - 1)) as (l & -> & Hl & Hn');
      unfold Disco_EndpointSize; try lia.
    exists l. split_and!; [done..|lia].
Qed.

(** What a message may hold. *)
Definition message_ok (m : DiscoMessage) : Prop :=
  length (dm_Transaction m) = TransactionSize
  ∧ Forall (fun e => 0 < ep_port e < 2 ^ 16) (dm_Endpoints m)
  ∧ (dm_Type m ≠ Disco_Pong → dm_SourceEndpoint m = None)
  ∧ (dm_Type m ≠ Disco_CallMeMaybe → dm_Endpoints m = []).

Lemma parse_plaintext_total plaintext sender :
  MessageHeaderSize <= zlen plaintext →
  ∃ r, parse_plaintext plaintext sender = Ok r
    ∧ ∀ m, r = Some m → message_ok m ∧ dm_Sender m = sender.
Proof.
  unfold MessageHeaderSize. intros Hlen. unfold parse_plaintext.
  destruct (rd_Ok plaintext 1) as [version ->]; [lia|]. cbn [obind]. ifb; [by eexists|].
  destruct (rd_Ok plaintext 0) as [type ->]; [lia|]. cbn [obind].
  assert (∀ ty, ty ≠ Disco_CallMeMaybe → ∃ r, parse_ping_pong plaintext sender ty = Ok r
    ∧ ∀ m, r = Some m → message_ok m ∧ dm_Sender m = sender) as Hpp.
  { intros ty Hty. unfold parse_ping_pong, MessageHeaderSize.
    change (2 + Z.of_nat TransactionSize) with 14. ifb; [by eexists|].
    rewrite slice_Ok by lia. cbn [obind].
    set (tx := take _ _). assert (length tx = TransactionSize) as Htx.
    { subst tx. rewrite length_take, length_drop. unfold zlen in *. unfold TransactionSize. lia. }
    clearbody tx.
    assert (∀ source, (ty ≠ Disco_Pong → source = None) → ∀ m,
      Some (DiscoMessage_of ty tx sender source []) = Some m → message_ok m ∧ dm_Sender m = sender)
      as Hm.
    { intros source Hs m [= <-]. repeat split; simpl; try done. }
    destruct ty; [eexists; split; [done|by apply Hm]| |done].
    ifb; [eexists; split; [done|by apply Hm]|].
    destruct (is_ipv4_mapped_total plaintext 14) as [mapped ->]; [lia|]. cbn [obind].
    destruct mapped; [|eexists; split; [done|by apply Hm]].
    destruct (mapped_address_total plaintext 14) as [a ->]; [lia|].
    destruct (mapped_port_total plaintext 14) as (p & -> & _); [lia|]. cbn [obind].
    eexists. split; [done|]. by apply Hm. }
  ifb; [by apply Hpp|]. ifb; [by apply Hpp|]. ifb; [|by eexists].
  unfold parse_call_me_maybe. ifb; [by eexists|]. b2p.
  unfold MessageHeaderSize, Disco_EndpointSize in *.
  pose proof (Z.div_mod (zlen plaintext - 2) 18 ltac:(lia)) as Hdiv.
  assert (0 <= (zlen plaintext - 2) / 18) by (apply Z.div_pos; lia).
  destruct (parse_endpoints_total (length plaintext) plaintext 2 [] ((zlen plaintext - 2) / 18))
    as (l & -> & Hl & _); unfold Disco_EndpointSize; try lia.
  { unfold zlen in *. lia. }
  cbn [obind app]. eexists. split; [done|]. intros m [= <-]. by repeat split.
Qed.

(** ** Exchanges *)

Section exchange.
  Context `{!SodiumBox} `{!SodiumBoxLaws} {R : Type} `{!RandomBytes R} `{!RandomBytesLaws R}.

Lemma Disco_Seal_spec d recipient message (r : R) :
  ∃ nonce r', Disco_Seal d recipient message r
    = (Ok (DiscoMagic ++ di_Public d ++ nonce
           ++ box_easy message nonce (Disco_SharedKey (di_Private d) recipient)), r')
    ∧ zlen nonce = crypto_box_NONCEBYTES.
Proof.
  unfold Disco_Seal, randombytes_buf, ebind, eret.
  pose proof (random_bytes_length (Z.to_nat crypto_box_NONCEBYTES) r) as Hn.
  destruct (random_bytes _ r) as [nonce r']. simpl in Hn. exists nonce, r'.
  split; [done|]. unfold zlen. by rewrite Hn.
Qed.

(** The recipient opens what was sealed for it. *)
Lemma Parse_sealed ka na kb nb message nonce :
  MessageHeaderSize <= zlen message → zlen nonce = crypto_box_NONCEBYTES →
  Disco_Parse (Disco_new kb nb)
    (DiscoMagic ++ di_Public (Disco_new ka na) ++ nonce
     ++ box_easy message nonce
          (Disco_SharedKey (di_Private (Disco_new ka na)) (box_public kb)))
  = parse_plaintext message (box_public ka).
Proof.
  unfold MessageHeaderSize. intros Hm Hn. unfold Disco_Parse. cbn [Disco_new di_Public di_Private].
  set (shared := Disco_SharedKey ka (box_public kb)).
  pose proof (box_public_length ka) as Hpub. pose proof (box_easy_length message nonce shared) as Hc.
  set (cipher := box_easy message nonce shared) in *.
  assert (zlen DiscoMagic = 6) as Hmagic by done.
  unfold crypto_box_NONCEBYTES, crypto_box_MACBYTES, Disco_HeaderSize in *.
  assert (Disco_IsDiscoPacket (DiscoMagic ++ box_public ka ++ nonce ++ cipher) = true) as ->.
  { unfold Disco_IsDiscoPacket, Disco_HeaderSize. rewrite take_app_length, bool_decide_true by done.
    rewrite andb_true_r. apply Z.leb_le. zlia. }
  replace (zlen (_ ++ _) <? _) with false by (symmetry; apply Z.ltb_ge; unfold MessageHeaderSize; zlia).
  cbn [negb orb]. rewrite (slice_full DiscoMagic (box_public ka)) by (done || lia). cbn [obind].
  rewrite (app_assoc DiscoMagic).
  rewrite (slice_full (DiscoMagic ++ box_public ka) nonce) by (rewrite !zlen_app; lia). cbn [obind].
  rewrite (app_assoc _ nonce cipher), <- (app_nil_r (_ ++ cipher)), <- app_assoc.
  rewrite (slice_full ((DiscoMagic ++ box_public ka) ++ nonce) cipher) by (rewrite ?zlen_app, ?zlen_nil; lia).
  cbn [obind]. subst cipher. unfold shared, Disco_SharedKey. rewrite box_shared.
  by rewrite box_open_easy.
Qed.

Lemma parse_ping_message transaction tail sender :
  length transaction = TransactionSize →
  parse_plaintext ([Disco_PingType; Disco_ProtocolVersion] ++ transaction ++ tail) sender
  = Ok (Some (DiscoMessage_of Disco_Ping transaction sender None [])).
Proof.
  intros Ht. unfold parse_plaintext.
  change (rd ([Disco_PingType; Disco_ProtocolVersion] ++ transaction ++ tail) 1) with (Ok (A:=Z) 0).
  change (rd ([Disco_PingType; Disco_ProtocolVersion] ++ transaction ++ tail) 0) with (Ok (A:=Z) 1).
  cbn [obind]. change (negb (0 =? Disco_ProtocolVersion)) with false.
  change (1 =? Disco_PingType) with true. cbn iota. unfold parse_ping_pong.
  assert (zlen transaction = 12) as Hz by (unfold zlen; by rewrite Ht).
  replace (zlen _ <? _) with false.
  2:{ symmetry. apply Z.ltb_ge. rewrite !zlen_app, Hz.
      change (zlen [Disco_PingType; Disco_ProtocolVersion]) with 2.
      change (MessageHeaderSize + Z.of_nat TransactionSize) with 14.
      pose proof (zlen_nonneg tail). lia. }
  rewrite (slice_full [Disco_PingType; Disco_ProtocolVersion] transaction tail) by (done || by rewrite Hz).
  done.
Qed.

Lemma parse_pong_message transaction a p sender :
  length transaction = TransactionSize → Ipv4Address_ok a → in_width 16 p →
  parse_plaintext ([Disco_PongType; Disco_ProtocolVersion] ++ transaction ++ mapped_endpoint a p)
    sender
  = Ok (Some (DiscoMessage_of Disco_Pong transaction sender
                (Some {| ep_address := a; ep_port := p |}) [])).
Proof.
  intros Ht Ha Hp. unfold parse_plaintext.
  change (rd ([Disco_PongType; Disco_ProtocolVersion] ++ transaction ++ mapped_endpoint a p) 1)
    with (Ok (A:=Z) 0).
  change (rd ([Disco_PongType; Disco_ProtocolVersion] ++ transaction ++ mapped_endpoint a p) 0)
    with (Ok (A:=Z) 2).
  cbn [obind]. change (negb (0 =? Disco_ProtocolVersion)) with false.
  change (2 =? Disco_PingType) with false. change (2 =? Disco_PongType) with true.
  cbn iota. unfold parse_ping_pong.
  assert (zlen transaction = 12) as Hz by (unfold zlen; by rewrite Ht).
  set (msg := [Disco_PongType; Disco_ProtocolVersion] ++ transaction ++ mapped_endpoint a p).
  assert (zlen msg = 32) as Hlen.
  { subst msg. rewrite !zlen_app, Hz, zlen_mapped_endpoint. done. }
  rewrite Hlen. change (32 <? MessageHeaderSize + Z.of_nat TransactionSize) with false.
  change (32 <? MessageHeaderSize + Z.of_nat TransactionSize + Disco_EndpointSize) with false.
  cbn iota. subst msg.
  rewrite (slice_full [Disco_PongType; Disco_ProtocolVersion] transaction) by (done || by rewrite Hz).
  cbn [obind]. rewrite app_assoc, <- (app_nil_r (mapped_endpoint a p)).
  destruct (mapped_endpoint_reads ([Disco_PongType; Disco_ProtocolVersion] ++ transaction) a p []
    (MessageHeaderSize + Z.of_nat TransactionSize)) as (-> & Haddr & Hport); [by rewrite zlen_app, Hz|done|done|].
  cbn [obind]. rewrite Haddr, Hport. done.
Qed.

Lemma parse_offer_message endpoints sender :
  Forall Endpoint_ok endpoints →
  parse_plaintext ([Disco_CallMeMaybeType; Disco_ProtocolVersion] ++ endpoints_bytes endpoints) sender
  = Ok (Some (DiscoMessage_of Disco_CallMeMaybe (replicate TransactionSize 0) sender None
                (List.filter offered endpoints))).
Proof.
  intros He. unfold parse_plaintext.
  change (rd ([Disco_CallMeMaybeType; Disco_ProtocolVersion] ++ endpoints_bytes endpoints) 1)
    with (Ok (A:=Z) 0).
  change (rd ([Disco_CallMeMaybeType; Disco_ProtocolVersion] ++ endpoints_bytes endpoints) 0)
    with (Ok (A:=Z) 3).
  cbn [obind]. change (negb (0 =? Disco_ProtocolVersion)) with false.
  change (3 =? Disco_PingType) with false. change (3 =? Disco_PongType) with false.
  change (3 =? Disco_CallMeMaybeType) with true. cbn iota. unfold parse_call_me_maybe.
  rewrite zlen_app, zlen_endpoints_bytes.
  change (zlen [Disco_CallMeMaybeType; Disco_ProtocolVersion]) with 2. unfold MessageHeaderSize.
  replace (2 + Disco_EndpointSize * zlen endpoints - 2) with (zlen endpoints * Disco_EndpointSize) by lia.
  rewrite Z.mod_mul by done. cbn [negb Z.eqb].
  change 2 with (zlen [Disco_CallMeMaybeType; Disco_ProtocolVersion]).
  rewrite parse_endpoints_spec; [done|done|].
  rewrite length_app. pose proof (zlen_endpoints_bytes endpoints) as Hl.
  unfold zlen, Disco_EndpointSize in Hl. lia.
Qed.

(** C35: what a node seals for a peer's discovery key, the peer reads: a ping and a pong
    with their transaction, a pong with the source address and port it reports, and an offer with
    the endpoints that have a port, in order; each with the sender's discovery key. *)
Theorem Disco_exchange ka na kb nb transaction a p endpoints (r : R) :
  length transaction = TransactionSize → Ipv4Address_ok a → in_width 16 p →
  Forall Endpoint_ok endpoints →
  let alice := Disco_new ka na in let bob := Disco_new kb nb in
  (∃ packet r', Disco_BuildPing alice (di_Public bob) transaction r = (Ok packet, r')
     ∧ Disco_Parse bob packet
       = Ok (Some (DiscoMessage_of Disco_Ping transaction (di_Public alice) None [])))
  ∧ (∃ packet r', Disco_BuildPong alice (di_Public bob) transaction a p r = (Ok packet, r')
       ∧ Disco_Parse bob packet
         = Ok (Some (DiscoMessage_of Disco_Pong transaction (di_Public alice)
                       (Some {| ep_address := a; ep_port := p |}) [])))
  ∧ ∃ packet r', Disco_BuildCallMeMaybe alice (di_Public bob) endpoints r = (Ok packet, r')
      ∧ Disco_Parse bob packet
        = Ok (Some (DiscoMessage_of Disco_CallMeMaybe (replicate TransactionSize 0)
                      (di_Public alice) None (List.filter offered endpoints))).
Proof.
  intros Ht Ha Hp He alice bob.
  assert (∀ message m, MessageHeaderSize <= zlen message →
    parse_plaintext message (di_Public alice) = Ok (Some m) →
    ∃ packet r', Disco_Seal alice (di_Public bob) message r = (Ok packet, r')
      ∧ Disco_Parse bob packet = Ok (Some m)) as Hsend.
  { intros message m Hlen Hm. destruct (Disco_Seal_spec alice (di_Public bob) message r)
      as (nonce & r' & Hs & Hn).
    eexists _, r'. split; [exact Hs|]. rewrite <- Hm. by apply Parse_sealed. }
  assert (∀ (x y : Z) tail, MessageHeaderSize <= zlen ([x; y] ++ tail)) as Hlen.
  { intros x y tail. rewrite zlen_app. pose proof (zlen_nonneg tail).
    change (zlen [x; y]) with 2. unfold MessageHeaderSize. lia. }
  split_and!; apply Hsend; try apply Hlen.
  - by apply parse_ping_message.
  - by apply parse_pong_message.
  - by apply parse_offer_message.
Qed.

(** Reading a discovery packet always returns, reads nothing outside it, whatever
    the packet holds, and accepts only what opens under the key shared with the sender it names;
    the message it returns is well formed, offers no endpoint without a port and at most one per
    18 bytes. *)
Theorem Disco_Parse_total d packet :
  ∃ result, Disco_Parse d packet = Ok result
    ∧ ∀ m, result = Some m →
        message_ok m
        ∧ ∃ nonce cipher plaintext, packet = DiscoMagic ++ dm_Sender m ++ nonce ++ cipher
            ∧ zlen (dm_Sender m) = 32 ∧ zlen nonce = crypto_box_NONCEBYTES
            ∧ box_open cipher nonce (Disco_SharedKey (di_Private d) (dm_Sender m)) = Some plaintext.
Proof.
  unfold Disco_Parse.
  destruct (negb (Disco_IsDiscoPacket packet) || (zlen packet <? _)) eqn:E; [by eexists|].
  apply orb_false_iff in E as [E1 E2]. apply negb_false_iff, andb_true_iff in E1 as [_ E1].
  apply bool_decide_eq_true in E1. apply Z.ltb_ge in E2.
  change (Disco_HeaderSize + crypto_box_NONCEBYTES + crypto_box_MACBYTES + MessageHeaderSize)
    with 80 in E2.
  change (zlen DiscoMagic) with 6. change (6 + 32) with 38.
  change Disco_HeaderSize with 38. change (38 + crypto_box_NONCEBYTES) with 62.
  rewrite (slice_Ok packet 6 38) by lia. cbn [obind].
  rewrite (slice_Ok packet 38 62) by lia. cbn [obind].
  rewrite (slice_Ok packet 62 (zlen packet)) by lia. cbn [obind].
  set (sender := take _ (drop (Z.to_nat 6) packet)).
  set (nonce := take _ (drop (Z.to_nat 38) packet)).
  set (cipher := take _ (drop (Z.to_nat 62) packet)).
  assert (packet = DiscoMagic ++ sender ++ nonce ++ cipher) as Hsplit.
  { rewrite <- (take_drop 6 packet) at 1. rewrite <- E1. f_equal.
    rewrite <- (take_drop 32 (drop 6 packet)) at 1. f_equal. rewrite drop_drop.
    rewrite <- (take_drop 24 (drop (6 + 32) packet)) at 1. f_equal. rewrite drop_drop.
    subst cipher. rewrite take_ge; [done|]. rewrite length_drop. unfold zlen. lia. }
  destruct (box_open cipher nonce _) as [plaintext|] eqn:Eo; [|by eexists].
  destruct (parse_plaintext_total plaintext sender) as (r & -> & Hr).
  { pose proof (box_open_length _ _ _ _ Eo) as Hl.
    assert (zlen cipher = zlen packet - 62) as Hc by (subst cipher; zlia).
    unfold crypto_box_MACBYTES, MessageHeaderSize in *. lia. }
  exists r. split; [done|]. intros m Hm. destruct (Hr m Hm) as [Hok ->]. split; [done|].
  exists nonce, cipher, plaintext. split_and!; [done| | |done]; subst sender nonce;
    unfold crypto_box_NONCEBYTES; zlia.
Qed.

End exchange.

(** ** Probes (hosted/DiscoProbes.cpp) *)

Section probes.
  Context (unhex : bytes → option bytes).

Definition DiscoKeyPrefix : bytes := lit "discokey:".

(** [PeerKeys]: the node key and the discovery key. *)
Record PeerKeys := { pk_Node : bytes; pk_Disco : bytes }.

Definition DecodePeerKeys (peer : PeerConfig) : outcome (option PeerKeys) :=
  if negb (pc_online peer) || negb (starts_with NodeKeyPrefix (pc_key peer))
     || negb (starts_with DiscoKeyPrefix (pc_discoKey peer))
  then Ok None else
  let! nodeBytes := HexToBytes unhex (drop (length NodeKeyPrefix) (pc_key peer)) in
  let! discoBytes := HexToBytes unhex (drop (length DiscoKeyPrefix) (pc_discoKey peer)) in
  if negb (zlen nodeBytes =? 32) || negb (zlen discoBytes =? 32) then Ok None else
  Ok (Some {| pk_Node := nodeBytes; pk_Disco := discoBytes |}).

Definition probe_packet (node payload : bytes) (address port : Z) : PeerPacket := {|
  pp_peer := node; pp_payload := payload; pp_control := false; pp_disco := true;
  pp_endpointAddress := address; pp_endpointPort := port; pp_derpRoute := None |}.

Context `{!SodiumBox} {R : Type} `{!RandomBytes R}.

(** The loop over the endpoints of a peer. *)
Fixpoint endpoint_probes (disco : Disco) (keys : PeerKeys) (endpoints : list bytes)
    (probes : list PeerPacket) : eff R (list PeerPacket) :=
  match endpoints with
  | [] => eret probes
  | text :: rest =>
      match Endpoint_TryParse text with
      | None => endpoint_probes disco keys rest probes
      | Some endpoint =>
          if (Ipv4Address_HostOrder (ep_address endpoint) =? 0) || (ep_port endpoint =? 0)
          then endpoint_probes disco keys rest probes else
          let* transaction := Disco_NewTransactionId in
          let* ping := Disco_BuildPing disco (pk_Disco keys) transaction in
          endpoint_probes disco keys rest
            (probes ++ [probe_packet (pk_Node keys) ping
                          (Ipv4Address_HostOrder (ep_address endpoint)) (ep_port endpoint)])
      end
  end.

Definition BuildDiscoEndpointProbes (disco : Disco) (peer : PeerConfig)
    (localCandidates : list Endpoint) : eff R (list PeerPacket) :=
  let* keys := elift (DecodePeerKeys peer) in
  match keys with
  | None => eret []
  | Some keys =>
      if bool_decide (localCandidates = []) then eret [] else
      let* probes := endpoint_probes disco keys (pc_endpoints peer) [] in
      if bool_decide (probes = []) then eret probes else
      let* offer := Disco_BuildCallMeMaybe disco (pk_Disco keys) localCandidates in
      eret (probes ++ [probe_packet (pk_Node keys) offer 0 0])
  end.

(** The loop of [BuildDiscoProbes]. *)
Fixpoint peer_probes (disco : Disco) (peers : list PeerConfig) (localCandidates : list Endpoint)
    (probes : list PeerPacket) : eff R (list PeerPacket) :=
  match peers with
  | [] => eret probes
  | peer :: rest =>
      let* keys := elift (DecodePeerKeys peer) in
      match keys with
      | None => peer_probes disco rest localCandidates probes
      | Some keys =>
          let* transaction := Disco_NewTransactionId in
          let* ping := Disco_BuildPing disco (pk_Disco keys) transaction in
          let* endpointProbes := BuildDiscoEndpointProbes disco peer localCandidates in
          peer_probes disco rest localCandidates
            (probes ++ [probe_packet (pk_Node keys) ping 0 0] ++ endpointProbes)
      end
  end.

Definition BuildDiscoProbes (disco : Disco) (peers : list PeerConfig)
    (localCandidates : list Endpoint) : eff R (list PeerPacket) :=
  peer_probes disco peers localCandidates [].

End probes.

Section plan.
  Context (unhex : bytes → option bytes).
  Context `{!SodiumBox} `{!SodiumBoxLaws} {R : Type} `{!RandomBytes R} `{!RandomBytesLaws R}.
  Context (ka na : bytes) (candidates : list Endpoint).

(** What is to be sent: a ping, through the relay or to an endpoint, or an offer. *)
Inductive planned :=
  | Plan_Ping (keys : PeerKeys) (endpoint : option Endpoint)
  | Plan_Offer (keys : PeerKeys).

Definition usable_endpoints (texts : list bytes) : list Endpoint :=
  List.filter (fun e => negb ((Ipv4Address_HostOrder (ep_address e) =? 0) || (ep_port e =? 0)))
    (omap Endpoint_TryParse texts).

Definition plan_endpoints (keys : PeerKeys) (peer : PeerConfig) : list planned :=
  match candidates, usable_endpoints (pc_endpoints peer) with
  | [], _ | _, [] => []
  | _, endpoints => map (fun e => Plan_Ping keys (Some e)) endpoints ++ [Plan_Offer keys]
  end.

Definition plan_peer (peer : PeerConfig) : list planned :=
  match DecodePeerKeys unhex peer with
  | Ok (Some keys) => Plan_Ping keys None :: plan_endpoints keys peer
  | _ => []
  end.

(** The packet is addressed as planned, and the holder of the discovery key reads it. *)
Definition realises (pl : planned) (packet : PeerPacket) : Prop :=
  match pl with
  | Plan_Ping keys endpoint => ∃ payload transaction,
      packet = match endpoint with
               | Some e => probe_packet (pk_Node keys) payload
                             (Ipv4Address_HostOrder (ep_address e)) (ep_port e)
               | None => probe_packet (pk_Node keys) payload 0 0
               end
      ∧ ∀ kb nb, box_public kb = pk_Disco keys →
          Disco_Parse (Disco_new kb nb) payload
          = Ok (Some (DiscoMessage_of Disco_Ping transaction (box_public ka) None []))
  | Plan_Offer keys => ∃ payload,
      packet = probe_packet (pk_Node keys) payload 0 0
      ∧ ∀ kb nb, box_public kb = pk_Disco keys →
          Disco_Parse (Disco_new kb nb) payload
          = Ok (Some (DiscoMessage_of Disco_CallMeMaybe (replicate TransactionSize 0)
                        (box_public ka) None (List.filter offered candidates)))
  end.

Abbreviation disco := (Disco_new ka na).

Lemma sealed_reads recipient message m (r : R) :
  MessageHeaderSize <= zlen message → parse_plaintext message (box_public ka) = Ok (Some m) →
  ∃ payload r', Disco_Seal disco recipient message r = (Ok payload, r')
    ∧ ∀ kb nb, box_public kb = recipient → Disco_Parse (Disco_new kb nb) payload = Ok (Some m).
Proof.
  intros Hlen Hm. destruct (Disco_Seal_spec disco recipient message r) as (nonce & r' & Hs & Hn).
  eexists _, r'. split; [exact Hs|]. intros kb nb <-. rewrite <- Hm. by apply Parse_sealed.
Qed.

Lemma ping_step {A} keys endpoint (k : bytes → eff R A) (r : R) :
  ∃ payload r', (let* transaction := Disco_NewTransactionId in
                 let* ping := Disco_BuildPing disco (pk_Disco keys) transaction in k ping) r
                = k payload r'
    ∧ realises (Plan_Ping keys endpoint)
        (match endpoint with
         | Some e => probe_packet (pk_Node keys) payload
                       (Ipv4Address_HostOrder (ep_address e)) (ep_port e)
         | None => probe_packet (pk_Node keys) payload 0 0
         end).
Proof.
  unfold Disco_NewTransactionId, randombytes_buf, ebind.
  pose proof (random_bytes_length TransactionSize r) as Ht.
  destruct (random_bytes TransactionSize r) as [tx r1]. simpl in Ht.
  destruct (sealed_reads (pk_Disco keys)
    ([Disco_PingType; Disco_ProtocolVersion] ++ tx ++ di_NodePublic disco)
    (DiscoMessage_of Disco_Ping tx (box_public ka) None []) r1) as (payload & r' & Hs & Hp).
  { rewrite zlen_app. pose proof (zlen_nonneg (tx ++ di_NodePublic disco)).
    change (zlen [Disco_PingType; Disco_ProtocolVersion]) with 2. unfold MessageHeaderSize. lia. }
  { by apply parse_ping_message. }
  exists payload, r'. unfold Disco_BuildPing. rewrite Hs. split; [done|]. by exists payload, tx.
Qed.

Lemma endpoint_probes_spec keys texts probes (r : R) :
  ∃ sent r', endpoint_probes disco keys texts probes r = (Ok (probes ++ sent), r')
    ∧ Forall2 realises (map (fun e => Plan_Ping keys (Some e)) (usable_endpoints texts)) sent.
Proof.
  revert probes r. induction texts as [|text texts IH]; intros probes r.
  { exists [], r. rewrite app_nil_r. split; [done|constructor]. }
  unfold usable_endpoints in *. cbn [endpoint_probes omap list_omap].
  destruct (Endpoint_TryParse text) as [e|] eqn:Ee; [|apply IH]. cbn [List.filter].
  destruct ((Ipv4Address_HostOrder (ep_address e) =? 0) || (ep_port e =? 0)); simpl; [apply IH|].
  destruct (ping_step keys (Some e) (fun ping => endpoint_probes disco keys texts
    (probes ++ [probe_packet (pk_Node keys) ping (Ipv4Address_HostOrder (ep_address e)) (ep_port e)]))
    r) as (payload & r1 & -> & Hp).
  destruct (IH (probes ++ [probe_packet (pk_Node keys) payload
    (Ipv4Address_HostOrder (ep_address e)) (ep_port e)]) r1) as (sent & r' & -> & Hs).
  eexists (_ :: sent), r'. rewrite <- app_assoc. split; [done|]. by constructor.
Qed.

Lemma BuildDiscoEndpointProbes_spec peer keys (r : R) :
  Forall Endpoint_ok candidates → DecodePeerKeys unhex peer = Ok (Some keys) →
  ∃ probes r', BuildDiscoEndpointProbes unhex disco peer candidates r = (Ok probes, r')
    ∧ Forall2 realises (plan_endpoints keys peer) probes.
Proof.
  intros Hc Hk. unfold BuildDiscoEndpointProbes, plan_endpoints. rewrite Hk.
  unfold elift, ebind at 1. case_bool_decide as Hnil.
  { rewrite Hnil. exists [], r. split; [done|constructor]. }
  destruct candidates as [|c cs] eqn:Ecand; [done|].
  destruct (endpoint_probes_spec keys (pc_endpoints peer) [] r) as (sent & r1 & Hs & Hf).
  unfold ebind at 1. rewrite Hs. cbn [app].
  destruct (usable_endpoints (pc_endpoints peer)) as [|e es] eqn:Ee.
  { apply Forall2_nil_inv_l in Hf as ->. exists [], r1. split; [done|constructor]. }
  rewrite bool_decide_false by (intros ->; inversion Hf).
  destruct (sealed_reads (pk_Disco keys)
    ([Disco_CallMeMaybeType; Disco_ProtocolVersion] ++ endpoints_bytes (c :: cs))
    (DiscoMessage_of Disco_CallMeMaybe (replicate TransactionSize 0) (box_public ka) None
       (List.filter offered (c :: cs))) r1) as (payload & r' & Hseal & Hp).
  { rewrite zlen_app. pose proof (zlen_nonneg (endpoints_bytes (c :: cs))).
    change (zlen [Disco_CallMeMaybeType; Disco_ProtocolVersion]) with 2.
    unfold MessageHeaderSize. lia. }
  { by apply parse_offer_message. }
  unfold ebind, Disco_BuildCallMeMaybe. fold (endpoints_bytes (c :: cs)). rewrite Hseal.
  eexists _, r'. split; [done|]. apply Forall2_app; [done|]. constructor; [|constructor].
  exists payload. rewrite Ecand. split; [done|exact Hp].
Qed.

(** The probes a hosted node asks its relay to send are exactly those planned: for every
    online peer with usable keys, in order, a ping through the relay; then, when the relay has
    candidates of its own, a ping to each endpoint of the peer that has an address and a port,
    followed, if there was one, by an offer of the candidates; each addressed to the peer's node
    key and readable by the holder of its discovery key. *)
Theorem BuildDiscoProbes_plan peers (r : R) :
  Forall Endpoint_ok candidates →
  Forall (fun peer => ∃ keys, DecodePeerKeys unhex peer = Ok keys) peers →
  ∃ probes r', BuildDiscoProbes unhex disco peers candidates r = (Ok probes, r')
    ∧ Forall2 realises (concat (map plan_peer peers)) probes.
Proof.
  intros Hc Hpeers. unfold BuildDiscoProbes.
  assert (∀ acc, ∃ sent r', peer_probes unhex disco peers candidates acc r = (Ok (acc ++ sent), r')
    ∧ Forall2 realises (concat (map plan_peer peers)) sent) as Hloop; [|by apply (Hloop [])].
  revert r. induction Hpeers as [|peer peers [keys Hk] _ IH]; intros r acc.
  { exists [], r. rewrite app_nil_r. split; [done|constructor]. }
  cbn [peer_probes map concat]. unfold plan_peer at 1. rewrite Hk. unfold elift, ebind at 1.
  destruct keys as [keys|]; [|apply IH].
  destruct (ping_step keys None (fun ping =>
    let* endpointProbes := BuildDiscoEndpointProbes unhex disco peer candidates in
    peer_probes unhex disco peers candidates
      (acc ++ [probe_packet (pk_Node keys) ping 0 0] ++ endpointProbes)) r)
    as (payload & r1 & -> & Hp).
  destruct (BuildDiscoEndpointProbes_spec peer keys r1 Hc Hk) as (probes & r2 & He & Hf).
  unfold ebind at 1. rewrite He.
  destruct (IH r2 (acc ++ [probe_packet (pk_Node keys) payload 0 0] ++ probes))
    as (sent & r' & -> & Hs).
  eexists _, r'. rewrite <- !app_assoc. split; [done|].
  cbn [app]. constructor; [done|]. by apply Forall2_app.
Qed.

End plan.

(** ** A concrete exchange *)

(** A box that authenticates nothing, with the laws of a real one. *)
Definition demo_public (k : bytes) : bytes := take 32 (k ++ replicate 32 0).

#[export] Instance demo_box : SodiumBox := {|
  box_beforenm public private := Some (zip_with Z.lxor public (demo_public private));
  box_easy m _ _ := replicate 16 0 ++ m;
  box_open c _ _ := if 16 <=? zlen c then Some (drop 16 c) else None;
  box_public := demo_public |}.

Lemma length_demo_public k : length (demo_public k) = 32%nat.
Proof. unfold demo_public. rewrite length_take, length_app, length_replicate. lia. Qed.

#[export] Instance demo_box_laws : SodiumBoxLaws.
Proof.
  split.
  - intros m n k. cbn [box_easy demo_box]. by rewrite zlen_app.
  - intros c n k m. simpl. destruct (Z.leb_spec 16 (zlen c)); [|done]. intros [= <-].
    unfold crypto_box_MACBYTES. zlia.
  - intros m n k. cbn [box_easy box_open demo_box].
    destruct (Z.leb_spec 16 (zlen (replicate 16 0 ++ m))) as [_|Hl]; [done|].
    rewrite zlen_app, zlen_replicate in Hl. pose proof (zlen_nonneg m). lia.
  - intros k. unfold zlen. simpl. by rewrite length_demo_public.
  - intros a b. simpl. f_equal. generalize (demo_public a) (demo_public b).
    intros l. induction l as [|x l IH]; intros [|y l']; try done. simpl. by rewrite Z.lxor_comm, IH.
Qed.

#[export] Instance demo_random : RandomBytes nat := {|
  random_bytes n r := (replicate n (Z.of_nat r mod 256), S r) |}.

#[export] Instance demo_random_laws : RandomBytesLaws nat.
Proof. split. intros n r. apply length_replicate. Qed.

Definition demo_address (n : Z) : Ipv4Address := {| ip4_value := n |}.

Lemma Disco_exchange_witness :
  ∃ packet r', Disco_BuildPong (Disco_new [1] [9]) (di_Public (Disco_new [2] [8])) (replicate 12 7)
      (demo_address 0x7f030328) 5 3%nat = (Ok packet, r')
    ∧ Disco_Parse (Disco_new [2] [8]) packet
      = Ok (Some (DiscoMessage_of Disco_Pong (replicate 12 7) (di_Public (Disco_new [1] [9]))
                    (Some {| ep_address := demo_address 0x7f030328; ep_port := 5 |}) [])).
Proof.
  apply (Disco_exchange [1] [9] [2] [8] (replicate 12 7) (demo_address 0x7f030328) 5 [] 3%nat).
  - reflexivity.
  - split; [discriminate|reflexivity].
  - split; [discriminate|reflexivity].
  - constructor.
Defined.

Lemma Disco_Parse_total_witness :
  ∃ result, Disco_Parse (Disco_new [2] [8]) (DiscoMagic ++ replicate 80 1) = Ok result
    ∧ ∀ m, result = Some m →
        message_ok m
        ∧ ∃ nonce cipher plaintext,
            DiscoMagic ++ replicate 80 1 = DiscoMagic ++ dm_Sender m ++ nonce ++ cipher
            ∧ zlen (dm_Sender m) = 32 ∧ zlen nonce = crypto_box_NONCEBYTES
            ∧ box_open cipher nonce (Disco_SharedKey [2] (dm_Sender m)) = Some plaintext.
Proof. exact (Disco_Parse_total (Disco_new [2] [8]) (DiscoMagic ++ replicate 80 1)). Defined.

(** A peer that is online, with two endpoints of which the second has no port. *)
Definition demo_disco_peer : PeerConfig := {|
  pc_name := lit "a"; pc_address := lit "100.64.0.2"; pc_addresses := []; pc_nodeId := 1;
  pc_key := NodeKeyPrefix ++ replicate 32 5; pc_discoKey := DiscoKeyPrefix ++ demo_public [2];
  pc_endpoints := [lit "10.0.0.1:41641"; lit "10.0.0.2:0"]; pc_allowedPrefixes := [];
  pc_derpRegion := 1; pc_derpCode := []; pc_online := true; pc_exitNodeOption := false |}.

Definition demo_candidates : list Endpoint :=
  [{| ep_address := demo_address 0x0a000009; ep_port := 1000 |}].

Example demo_plan :
  plan_peer (fun text => Some text) demo_candidates demo_disco_peer
  = let keys := {| pk_Node := replicate 32 5; pk_Disco := demo_public [2] |} in
    [Plan_Ping keys None;
     Plan_Ping keys (Some {| ep_address := demo_address 0x0a000001; ep_port := 41641 |});
     Plan_Offer keys].
Proof. vm_compute. reflexivity. Qed.

Lemma BuildDiscoProbes_plan_witness :
  ∃ probes r', BuildDiscoProbes (fun text => Some text) (Disco_new [1] [9]) [demo_disco_peer]
      demo_candidates 0%nat = (Ok probes, r')
    ∧ Forall2 (realises [1] demo_candidates)
        (concat (map (plan_peer (fun text => Some text) demo_candidates) [demo_disco_peer])) probes.
Proof.
  apply (BuildDiscoProbes_plan (fun text => Some text) [1] [9] demo_candidates).
  - repeat constructor; vm_compute; first [discriminate|reflexivity].
  - constructor; [|constructor]. eexists. vm_compute. reflexivity.
Defined.
