(* ===== verification/Ping.v ===== *)
(** * Pings (wgengine/ping/impl/TrackerImpl.cpp) and prefixed keys
    (crypto/PrefixedKey.cpp)

    The tracker matches answers with the pings that were started, repeats discovery pings
    and gives up on those that time out.  The callback that builds a discovery ping works on
    the state of its owner, [W]; the clock and the random token are arguments. *)

From S2P Require Import Prelude Text Net Packet Envelope NetMap Router Disco.

(** ** Prefixed keys *)

Definition isxdigit (c : Z) : bool :=
  ((48 <=? c) && (c <=? 57)) || ((65 <=? c) && (c <=? 70)) || ((97 <=? c) && (c <=? 102)).

Definition PrefixedKey_TryParse (unhex : bytes → option bytes) (text prefix : bytes)
    : outcome (option bytes) :=
  if negb (starts_with prefix text) then Ok None else
  let encoded := drop (length prefix) text in
  if negb (zlen encoded =? 32 * 2) || negb (forallb isxdigit encoded) then Ok None else
  let! b := HexToBytes unhex encoded in
  (** [std::copy] into an array of 32 bytes *)
  if zlen b <=? 32 then Ok (Some (b ++ replicate (32 - length b) 0)) else UB.

(** ** The tracker *)

Inductive PingMode := Mode_Disco | Mode_Tsmp.

#[export] Instance PingMode_eq_dec : EqDecision PingMode.
Proof. solve_decision. Defined.

Inductive StartStatus :=
  | Start_Ready | Start_DuplicateRequest | Start_NoMatchingPeer | Start_NoNodeKey
  | Start_NoDiscoKey | Start_InvalidAddress.

#[export] Instance StartStatus_eq_dec : EqDecision StartStatus.
Proof. solve_decision. Defined.

Record PingRequest := {
  pr_Id : Z;
  pr_Target : bytes;
  pr_PingMode : PingMode;
  pr_Timeout : Z;
  pr_Relay : bytes
}.

Record PingProbe := { pb_RequestId : Z; pb_Peer : bytes; pb_Payload : bytes; pb_Disco : bool }.

Record DiscoProbe := { dp_Transaction : bytes; dp_Payload : bytes }.

Record StartResult := { sr_Status : StartStatus; sr_Outbound : option PingProbe }.

Record PingResult := {
  pg_RequestId : Z;
  pg_Responded : bool;
  pg_Latency : Z;
  pg_PeerName : bytes;
  pg_PeerAddress : bytes;
  pg_Relay : bytes;
  pg_PeerApiPort : Z
}.

Record PingPending := {
  pn_RequestState : PingRequest;
  pn_Peer : bytes;
  pn_DiscoTransaction : bytes;
  pn_TsmpToken : bytes;
  pn_Started : Z;
  pn_LastSent : Z;
  pn_DiscoKey : bytes;
  pn_PeerName : bytes;
  pn_PeerAddress : bytes;
  pn_Relay : bytes
}.

Definition RetryInterval : Z := 1 * 1000000000.

Definition RelayLabel (peer : PeerConfig) (requested : bytes) : bytes :=
  if negb (bool_decide (requested = [])) then requested
  else if bool_decide (pc_derpCode peer = []) then lit "derp-" ++ format_int (pc_derpRegion peer)
  else pc_derpCode peer.

Definition TrackerImpl_Complete (pending : PingPending) (responded : bool) (peerApiPort now : Z)
    : PingResult := {|
  pg_RequestId := pr_Id (pn_RequestState pending); pg_Responded := responded;
  pg_Latency := now - pn_Started pending; pg_PeerName := pn_PeerName pending;
  pg_PeerAddress := pn_PeerAddress pending; pg_Relay := pn_Relay pending;
  pg_PeerApiPort := peerApiPort |}.

Definition ping_expired (now : Z) (pending : PingPending) : bool :=
  pr_Timeout (pn_RequestState pending) <=? now - pn_Started pending.

Definition is_disco (pending : PingPending) : bool :=
  bool_decide (pr_PingMode (pn_RequestState pending) = Mode_Disco).

(** [m_pending], and the state of the owner of the callback. *)
Record TrackerImpl (W : Type) := { tk_pending : list PingPending; tk_world : W }.
Arguments tk_pending {W}. Arguments tk_world {W}.

Section tracker.
  Context (unhex : bytes → option bytes) {W : Type}.

(** [CreateDiscoProbe] *)
Abbreviation create_probe := (bytes → bytes → eff W (option DiscoProbe)).
Abbreviation tracker := (TrackerImpl W).

Definition tk_set_pending (l : list PingPending) (s : tracker) : tracker :=
  {| tk_pending := l; tk_world := tk_world s |}.

Definition on_world {A} (m : eff W A) : eff tracker A := fun s =>
  let '(r, w) := m (tk_world s) in (r, {| tk_pending := tk_pending s; tk_world := w |}).

Definition StartResult_failed (status : StartStatus) : StartResult :=
  {| sr_Status := status; sr_Outbound := None |}.

Definition pending_for (request : PingRequest) (peer : PeerConfig) (nodeKey transaction token discoKey : bytes)
    (now : Z) : PingPending := {|
  pn_RequestState := request; pn_Peer := nodeKey; pn_DiscoTransaction := transaction;
  pn_TsmpToken := token; pn_Started := now; pn_LastSent := now; pn_DiscoKey := discoKey;
  pn_PeerName := pc_name peer; pn_PeerAddress := pc_address peer;
  pn_Relay := RelayLabel peer (pr_Relay request) |}.

Definition start_pending (p : PingPending) (payload : bytes) (disco : bool) : eff tracker StartResult :=
  emod (fun s => tk_set_pending (tk_pending s ++ [p]) s) ;;*
  eret {| sr_Status := Start_Ready;
          sr_Outbound := Some {| pb_RequestId := pr_Id (pn_RequestState p); pb_Peer := pn_Peer p;
                                 pb_Payload := payload; pb_Disco := disco |} |}.

(** [random] is what [GeneratePrivateKey] returns. *)
Definition TrackerImpl_Start (request : PingRequest) (network : NetworkConfig)
    (createDisco : create_probe) (random : bytes) (now : Z) : eff tracker StartResult :=
  let* s := eget in
  if existsb (fun p => pr_Id (pn_RequestState p) =? pr_Id request) (tk_pending s)
  then eret (StartResult_failed Start_DuplicateRequest) else
  match NetworkConfig_FindPeer network (pr_Target request) false with
  | None => eret (StartResult_failed Start_NoMatchingPeer)
  | Some selected =>
      let* peer := elift (rd (nm_peers network) (Z.of_nat selected)) in
      let* nodeKey := elift (PrefixedKey_TryParse unhex (pc_key peer) NodeKeyPrefix) in
      match nodeKey with
      | None => eret (StartResult_failed Start_NoNodeKey)
      | Some nodeKey =>
          match pr_PingMode request with
          | Mode_Disco =>
              let* discoKey := elift (PrefixedKey_TryParse unhex (pc_discoKey peer) DiscoKeyPrefix) in
              match discoKey with
              | None => eret (StartResult_failed Start_NoDiscoKey)
              | Some discoKey =>
                  let* built := on_world (createDisco nodeKey discoKey) in
                  match built with
                  | None => eret (StartResult_failed Start_NoDiscoKey)
                  | Some probe =>
                      start_pending (pending_for request peer nodeKey (dp_Transaction probe)
                                       (replicate 8 0) discoKey now) (dp_Payload probe) true
                  end
              end
          | Mode_Tsmp =>
              match Ipv4Address_TryParse (nm_selfAddress network),
                    Ipv4Address_TryParse (pc_address peer) with
              | Some source, Some destination =>
                  let* token := elift (slice random 0 8) in
                  let* payload := elift (TsmpPacket_BuildPing (Ipv4Address_HostOrder source)
                                           (Ipv4Address_HostOrder destination) token) in
                  start_pending (pending_for request peer nodeKey (replicate 12 0) token
                                   (replicate 32 0) now) payload false
              | _, _ => eret (StartResult_failed Start_InvalidAddress)
              end
          end
      end
  end.

(** [find_if] over [m_pending], then [Complete] and [erase]. *)
Definition tracker_complete (f : PingPending → bool) (peerApiPort now : Z)
    : eff tracker (option PingResult) :=
  let* s := eget in
  match find_index f (tk_pending s) with
  | None => eret None
  | Some i =>
      let* p := elift (rd (tk_pending s) (Z.of_nat i)) in
      emod (fun s => tk_set_pending (delete i (tk_pending s)) s) ;;*
      eret (Some (TrackerImpl_Complete p true peerApiPort now))
  end.

Definition TrackerImpl_CompleteDisco (peer transaction : bytes) (peerApiPort now : Z)
    : eff tracker (option PingResult) :=
  tracker_complete (fun p => is_disco p && bool_decide (pn_Peer p = peer)
                           && bool_decide (pn_DiscoTransaction p = transaction)) peerApiPort now.

Definition TrackerImpl_CompleteTsmp (token : bytes) (peerApiPort now : Z)
    : eff tracker (option PingResult) :=
  tracker_complete (fun p => bool_decide (pr_PingMode (pn_RequestState p) = Mode_Tsmp)
                           && bool_decide (pn_TsmpToken p = token)) peerApiPort now.

Definition TrackerImpl_Expire (now : Z) : eff tracker (list PingResult) :=
  let* s := eget in
  let results := map (fun p => TrackerImpl_Complete p false 0 now)
                   (List.filter (ping_expired now) (tk_pending s)) in
  emod (fun s => tk_set_pending (List.filter (fun p => negb (ping_expired now p)) (tk_pending s)) s) ;;*
  eret results.

Definition pn_set_sent (now : Z) (p : PingPending) : PingPending := {|
  pn_RequestState := pn_RequestState p; pn_Peer := pn_Peer p;
  pn_DiscoTransaction := pn_DiscoTransaction p; pn_TsmpToken := pn_TsmpToken p;
  pn_Started := pn_Started p; pn_LastSent := now; pn_DiscoKey := pn_DiscoKey p;
  pn_PeerName := pn_PeerName p; pn_PeerAddress := pn_PeerAddress p; pn_Relay := pn_Relay p |}.

Definition pn_set_transaction (transaction : bytes) (p : PingPending) : PingPending := {|
  pn_RequestState := pn_RequestState p; pn_Peer := pn_Peer p;
  pn_DiscoTransaction := transaction; pn_TsmpToken := pn_TsmpToken p;
  pn_Started := pn_Started p; pn_LastSent := pn_LastSent p; pn_DiscoKey := pn_DiscoKey p;
  pn_PeerName := pn_PeerName p; pn_PeerAddress := pn_PeerAddress p; pn_Relay := pn_Relay p |}.

Definition retry_due (now : Z) (p : PingPending) : bool :=
  is_disco p && negb (ping_expired now p) && (RetryInterval <=? now - pn_LastSent p).

(** The loop of [RetryDisco], from the element at [index]. *)
Fixpoint retry_loop (todo index : nat) (now : Z) (createDisco : create_probe)
    (probes : list PingProbe) : eff tracker (list PingProbe) :=
  match todo with
  | O => eret probes
  | S todo' =>
      let* s := eget in
      let* p := elift (rd (tk_pending s) (Z.of_nat index)) in
      if negb (retry_due now p) then retry_loop todo' (S index) now createDisco probes else
      emod (fun s => tk_set_pending (<[index := pn_set_sent now p]> (tk_pending s)) s) ;;*
      let* built := on_world (createDisco (pn_Peer p) (pn_DiscoKey p)) in
      match built with
      | None => retry_loop todo' (S index) now createDisco probes
      | Some probe =>
          emod (fun s => tk_set_pending
            (<[index := pn_set_transaction (dp_Transaction probe) (pn_set_sent now p)]> (tk_pending s)) s) ;;*
          retry_loop todo' (S index) now createDisco
            (probes ++ [{| pb_RequestId := pr_Id (pn_RequestState p); pb_Peer := pn_Peer p;
                           pb_Payload := dp_Payload probe; pb_Disco := true |}])
      end
  end.

Definition TrackerImpl_RetryDisco (now : Z) (createDisco : create_probe)
    : eff tracker (list PingProbe) :=
  let* s := eget in retry_loop (length (tk_pending s)) 0 now createDisco [].

Definition ping_deadline (p : PingPending) : Z :=
  let deadline := pn_Started p + pr_Timeout (pn_RequestState p) in
  if is_disco p then Z.min deadline (pn_LastSent p + RetryInterval) else deadline.

Definition TrackerImpl_NextDeadline (s : tracker) : option Z :=
  foldl (fun next p => Some (match next with
                             | Some t => Z.min t (ping_deadline p)
                             | None => ping_deadline p
                             end)) None (tk_pending s).

Definition TrackerImpl_Reset : eff tracker unit := emod (tk_set_pending []).

End tracker.

(** [DiscoProbe::Build], the callback of a node that owns its discovery keys. *)
Definition DiscoProbe_Build `{!SodiumBox} {R} `{!RandomBytes R} (owner : Disco) (discoKey : bytes)
    : eff R DiscoProbe :=
  let* transaction := Disco_NewTransactionId in
  let* payload := Disco_BuildPing owner discoKey transaction in
  eret {| dp_Transaction := transaction; dp_Payload := payload |}.

(** ** Sequences of calls *)

(** Boost's [unhex] decodes 64 hexadecimal digits to 32 bytes. *)
Definition unhex_ok (unhex : bytes → option bytes) : Prop :=
  ∀ text, zlen text = 64 → forallb isxdigit text = true →
    ∃ b, unhex text = Some b ∧ zlen b = 32.

Lemma PrefixedKey_TryParse_total unhex text prefix :
  unhex_ok unhex →
  ∃ r, PrefixedKey_TryParse unhex text prefix = Ok r ∧ ∀ b, r = Some b → zlen b = 32.
Proof.
  intros Hu. unfold PrefixedKey_TryParse. ifb; [by eexists|]. ifb; [by eexists|].
  apply orb_false_iff in E0 as [E1 E2]. apply negb_false_iff in E1, E2. apply Z.eqb_eq in E1.
  destruct (Hu _ E1 E2) as (b & Hb & Hl). unfold HexToBytes. rewrite Hb. cbn [obind].
  rewrite (proj2 (Z.leb_le _ _)) by lia. eexists. split; [done|]. intros b' [= <-].
  unfold zlen in *. rewrite length_app, length_replicate. lia.
Qed.

Definition request_id (p : PingPending) : Z := pr_Id (pn_RequestState p).

Section runs.
  Context (unhex : bytes → option bytes) {W : Type}.

Abbreviation tracker := (TrackerImpl W).

Inductive ping_call :=
  | Ping_Start (request : PingRequest) (network : NetworkConfig)
      (createDisco : bytes → bytes → eff W (option DiscoProbe)) (random : bytes) (now : Z)
  | Ping_CompleteDisco (peer transaction : bytes) (peerApiPort now : Z)
  | Ping_CompleteTsmp (token : bytes) (peerApiPort now : Z)
  | Ping_Expire (now : Z)
  | Ping_Retry (now : Z) (createDisco : bytes → bytes → eff W (option DiscoProbe)).

(** What a call starts and what it finishes. *)
Definition ping_effects : Type := list Z * list PingResult.

Definition ping_run_call (c : ping_call) : eff tracker ping_effects :=
  match c with
  | Ping_Start request network createDisco random now =>
      let* r := TrackerImpl_Start unhex request network createDisco random now in
      eret (if bool_decide (sr_Status r = Start_Ready) then [pr_Id request] else [], [])
  | Ping_CompleteDisco peer transaction port now =>
      let* r := TrackerImpl_CompleteDisco peer transaction port now in eret ([], option_list r)
  | Ping_CompleteTsmp token port now =>
      let* r := TrackerImpl_CompleteTsmp token port now in eret ([], option_list r)
  | Ping_Expire now => let* r := TrackerImpl_Expire now in eret ([], r)
  | Ping_Retry now createDisco =>
      let* _ := TrackerImpl_RetryDisco now createDisco in eret ([], [])
  end.

(** The pings started and the results, over a sequence of calls; a call that throws has
    neither. *)
Fixpoint ping_run (calls : list ping_call) (s : tracker) : list Z * list PingResult * tracker :=
  match calls with
  | [] => ([], [], s)
  | c :: rest =>
      let '(r, s1) := ping_run_call c s in
      let '(started, results, s2) := ping_run rest s1 in
      match r with
      | Ok (started1, results1) => (started1 ++ started, results1 ++ results, s2)
      | _ => (started, results, s2)
      end
  end.

Definition ping_call_ok (c : ping_call) : Prop :=
  match c with
  | Ping_Start _ _ createDisco random _ =>
      8 <= zlen random ∧ ∀ peer key w, (createDisco peer key w).1 ≠ UB
  | Ping_Retry _ createDisco => ∀ peer key w, (createDisco peer key w).1 ≠ UB
  | _ => True
  end.

(** What a call makes of the tracker: nothing is lost, and identifiers stay distinct. *)
Definition conserves (s : tracker) (r : outcome ping_effects) (s' : tracker) : Prop :=
  r ≠ UB
  ∧ (NoDup (map request_id (tk_pending s)) → NoDup (map request_id (tk_pending s')))
  ∧ match r with
    | Ok (started, results) =>
        map request_id (tk_pending s) ++ started
        ≡ₚ map pg_RequestId results ++ map request_id (tk_pending s')
    | _ => map request_id (tk_pending s') = map request_id (tk_pending s)
    end.

Lemma conserves_same s (r : outcome ping_effects) s' :
  r ≠ UB → map request_id (tk_pending s') = map request_id (tk_pending s) →
  match r with Ok e => e = ([], []) | _ => True end → conserves s r s'.
Proof.
  intros Hr Hp He. split_and!; [done|by rewrite Hp|].
  destruct r as [[started results]|e|]; [|done..]. simplify_eq. by rewrite Hp, app_nil_r.
Qed.

Lemma conserves_complete f port now s :
  wp (let* r := tracker_complete f port now in eret ([], option_list r) : eff tracker ping_effects)
    (fun r s' => conserves s r s') s.
Proof.
  unfold tracker_complete. apply wp_bind. wp_auto.
  destruct (find_index f (tk_pending s)) as [i|] eqn:Ei.
  2:{ wp_auto. by apply conserves_same. }
  apply find_index_Some in Ei as (p & Hp & _).
  assert (rd (tk_pending s) (Z.of_nat i) = Ok p) as -> by (apply rd_lookup; rewrite Nat2Z.id; split; [lia|done]).
  wp_auto. pose proof (delete_Permutation _ _ _ Hp) as Hperm.
  split_and!; [done|..]; simpl.
  - intros Hn. assert (NoDup (request_id p :: map request_id (delete i (tk_pending s)))) as Hn'.
    { by apply (NoDup_Permutation_proper _ _ (Permutation_map request_id Hperm)). }
    by apply NoDup_cons in Hn' as [_ ?].
  - rewrite app_nil_r. by rewrite (Permutation_map request_id Hperm).
Qed.

Lemma filter_partition {A} (f : A → bool) (l : list A) :
  l ≡ₚ List.filter f l ++ List.filter (fun x => negb (f x)) l.
Proof.
  induction l as [|x l IH]; simpl; [done|].
  destruct (f x); simpl; [by apply Permutation_skip|].
  rewrite <- Permutation_middle. by apply Permutation_skip.
Qed.

Lemma conserves_Expire now s :
  wp (ping_run_call (Ping_Expire now)) (fun r s' => conserves s r s') s.
Proof.
  simpl. unfold TrackerImpl_Expire. apply wp_bind. wp_auto.
  pose proof (filter_partition (ping_expired now) (tk_pending s)) as Hperm.
  apply (Permutation_map request_id) in Hperm. rewrite map_app in Hperm.
  split_and!; [done|..]; simpl.
  - intros Hn. rewrite Hperm in Hn. by apply NoDup_app in Hn as (_ & _ & ?).
  - rewrite app_nil_r, Hperm, map_map. apply Permutation_app; [|done]. done.
Qed.

Lemma map_insert_same {A B} (f : A → B) i x y l :
  l !! i = Some x → f y = f x → map f (<[i := y]> l) = map f l.
Proof.
  intros Hi Hf. change (f <$> <[i := y]> l = f <$> l). rewrite list_fmap_insert.
  apply list_insert_id. by rewrite list_lookup_fmap, Hi, Hf.
Qed.

(** What [retry_loop] does to the tracker: nothing but the times and the transactions. *)
Definition same_requests (s s' : tracker) : Prop :=
  Forall2 (fun p p' => pn_RequestState p' = pn_RequestState p ∧ pn_Started p' = pn_Started p)
    (tk_pending s) (tk_pending s').

Lemma same_requests_refl s : same_requests s s.
Proof. unfold same_requests. by apply Forall_Forall2_diag, Forall_true. Qed.

Lemma same_requests_trans s1 s2 s3 : same_requests s1 s2 → same_requests s2 s3 → same_requests s1 s3.
Proof.
  unfold same_requests. intros H12. generalize (tk_pending s3).
  induction H12 as [|p1 p2 l1 l2 [? ?] _ IH]; intros l3 H23;
    inversion H23 as [|? p3 ? l ? ?]; subst; constructor; [naive_solver congruence|auto].
Qed.

Lemma same_requests_insert s i p p' w :
  tk_pending s !! i = Some p → pn_RequestState p' = pn_RequestState p →
  pn_Started p' = pn_Started p →
  same_requests s {| tk_pending := <[i := p']> (tk_pending s); tk_world := w |}.
Proof.
  intros Hi Hr Hs. unfold same_requests. simpl. rewrite <- (list_insert_id _ _ _ Hi) at 1.
  apply Forall2_insert; [|done]. by apply Forall_Forall2_diag, Forall_true.
Qed.

Lemma same_requests_ids s s' :
  same_requests s s' → map request_id (tk_pending s') = map request_id (tk_pending s).
Proof.
  unfold same_requests. induction 1 as [|p p' l l' [Hr _] _ IH]; simpl; [done|].
  unfold request_id at 1 3. by rewrite Hr, IH.
Qed.

Lemma wp_world {A} (m : eff W A) Q (s : tracker) :
  wp m (fun r w => Q r {| tk_pending := tk_pending s; tk_world := w |}) (tk_world s) →
  wp (on_world m) Q s.
Proof. unfold wp, on_world. by destruct (m (tk_world s)). Qed.

(** After the loop every ping it visited is not due, unless the callback threw. *)
Lemma retry_loop_spec todo index now createDisco probes s :
  (∀ peer key w, (createDisco peer key w).1 ≠ UB) →
  length (tk_pending s) = (index + todo)%nat →
  wp (retry_loop todo index now createDisco probes) (fun r s' => r ≠ UB ∧ same_requests s s'
    ∧ (∀ j p, (j < index)%nat → tk_pending s !! j = Some p → tk_pending s' !! j = Some p)
    ∧ (∀ probes', r = Ok probes' → ∀ j p, (index <= j)%nat → tk_pending s' !! j = Some p →
        retry_due now p = false)) s.
Proof.
  intros Hcb. revert index probes s.
  induction todo as [|todo IH]; intros index probes s Hlen; simpl.
  { wp_auto. split_and!; [done|apply same_requests_refl|auto|].
    intros _ _ j p Hj Hp%lookup_lt_Some. lia. }
  wp_auto. destruct (lookup_lt_is_Some_2 (tk_pending s) index) as [p Hp]; [lia|].
  assert (rd (tk_pending s) (Z.of_nat index) = Ok p) as ->
    by (apply rd_lookup; rewrite Nat2Z.id; split; [lia|done]).
  (* The rest of the loop, from a tracker whose element at [index] is settled. *)
  assert (∀ probes1 s1 q, same_requests s s1 → tk_pending s1 !! index = Some q →
    retry_due now q = false →
    (∀ j p, (j < index)%nat → tk_pending s !! j = Some p → tk_pending s1 !! j = Some p) →
    wp (retry_loop todo (S index) now createDisco probes1) (fun r s' => r ≠ UB ∧ same_requests s s'
      ∧ (∀ j p, (j < index)%nat → tk_pending s !! j = Some p → tk_pending s' !! j = Some p)
      ∧ (∀ probes', r = Ok probes' → ∀ j p, (index <= j)%nat → tk_pending s' !! j = Some p →
          retry_due now p = false)) s1) as Hrest.
  { intros probes1 s1 q H1 Hq Hdue Hbelow. eapply wp_mono; [apply IH|].
    { apply Forall2_length in H1. lia. }
    intros r s' (Hr & H2 & Hsame & Hend). split_and!; [done|by eapply same_requests_trans|..].
    - intros j p' Hj Hp'. apply Hsame; [lia|]. by apply Hbelow.
    - intros probes' Ho j p' Hj Hp'. destruct (decide (j = index)) as [->|].
      + rewrite (Hsame index q) in Hp' by (lia || done). congruence.
      + by apply (Hend probes' Ho j); [lia|]. }
  destruct (retry_due now p) eqn:Edue; simpl; [|by apply (Hrest probes s p); [apply same_requests_refl|..]].
  apply wp_bind, wp_mod. apply wp_bind, wp_world. unfold wp at 1.
  pose proof (Hcb (pn_Peer p) (pn_DiscoKey p) (tk_world s)) as Hr.
  cbn [tk_world tk_set_pending tk_pending].
  destruct (createDisco (pn_Peer p) (pn_DiscoKey p) (tk_world s)) as [r w]. cbn [fst snd] in *.
  assert (retry_due now (pn_set_sent now p) = false) as Hsent.
  { unfold retry_due. rewrite <- negb_true_iff, negb_andb, orb_true_iff. right.
    rewrite negb_true_iff. simpl. rewrite Z.sub_diag. done. }
  assert (index < length (tk_pending s))%nat as Hi by lia.
  assert (∀ q j p0, (j < index)%nat → tk_pending s !! j = Some p0 →
    <[index := q]> (tk_pending s) !! j = Some p0) as Hother.
  { intros q j p0 Hj Hp0. by rewrite list_lookup_insert_ne by lia. }
  assert (same_requests s {| tk_pending := <[index := pn_set_sent now p]> (tk_pending s);
    tk_world := w |}) as H1 by (by eapply same_requests_insert).
  destruct r as [[probe|]|e|]; [| | |done].
  - wp_auto. cbn [tk_pending tk_set_pending tk_world]. rewrite list_insert_insert_eq.
    eapply (Hrest _ _ (pn_set_transaction (dp_Transaction probe) (pn_set_sent now p))).
    + by eapply same_requests_insert.
    + simpl. by rewrite list_lookup_insert_eq.
    + exact Hsent.
    + simpl. auto.
  - eapply (Hrest _ _ (pn_set_sent now p)); [done| |done|simpl; auto].
    simpl. by rewrite list_lookup_insert_eq.
  - split_and!; [done|done|simpl; auto|done].
Qed.

Lemma BuildPing_total source destination token :
  zlen token = 8 → ∃ ping, TsmpPacket_BuildPing source destination token = Ok ping.
Proof.
  intros Ht. unfold TsmpPacket_BuildPing. change (zeros PingPayloadSize) with [0; 0; 0; 0; 0; 0; 0; 0; 0].
  change (wr [0; 0; 0; 0; 0; 0; 0; 0; 0] 0 PingType)
    with (Ok ([PingType] ++ [0; 0; 0; 0; 0; 0; 0; 0])). cbn [obind].
  rewrite copy_at_app by done. cbn [obind]. rewrite Ipv4Packet_Build_eq. by eexists.
Qed.

(** A start either leaves the pings alone, or adds one whose identifier is new. *)
Definition start_result (request : PingRequest) (now : Z) (s : tracker) (r : outcome StartResult)
    (s' : tracker) : Prop :=
  r ≠ UB
  ∧ ((tk_pending s' = tk_pending s ∧ ∀ res, r = Ok res → sr_Status res ≠ Start_Ready)
     ∨ ∃ p res, r = Ok res ∧ sr_Status res = Start_Ready ∧ tk_pending s' = tk_pending s ++ [p]
         ∧ pn_RequestState p = request ∧ pn_Started p = now
         ∧ pr_Id request ∉ map request_id (tk_pending s)).

Lemma Start_spec request network createDisco random now s :
  unhex_ok unhex → ping_call_ok (Ping_Start request network createDisco random now) →
  wp (TrackerImpl_Start unhex request network createDisco random now)
    (start_result request now s) s.
Proof.
  intros Hu [Hrandom Hcb]. unfold TrackerImpl_Start. wp_auto.
  assert (∀ s1 status, tk_pending s1 = tk_pending s → status ≠ Start_Ready →
    wp (eret (StartResult_failed status)) (start_result request now s) s1) as Hfail.
  { intros s1 status Hs1 Hne. wp_auto. split; [done|]. left. split; [done|]. by intros res [= <-]. }
  destruct (existsb _ _) eqn:Enew; [by apply Hfail|].
  assert (∀ s1 peer nodeKey tx token key payload disco, tk_pending s1 = tk_pending s →
    wp (start_pending (pending_for request peer nodeKey tx token key now) payload disco)
      (start_result request now s) s1) as Hready.
  { intros s1 peer nodeKey tx token key payload disco Hs1. unfold start_pending. wp_auto.
    split; [done|]. right. eexists _, _. split_and!; [done|done|by simpl; rewrite Hs1|done|done|].
    intros (q & Hq & Hin)%list_elem_of_fmap. rewrite <- not_true_iff_false in Enew. apply Enew.
    apply existsb_exists. exists q. split; [by apply list_elem_of_In|]. by apply Z.eqb_eq. }
  destruct (NetworkConfig_FindPeer _ _ _) as [i|] eqn:Ei; [|by apply Hfail].
  apply find_index_Some in Ei as (peer & Hpeer & _).
  assert (rd (nm_peers network) (Z.of_nat i) = Ok peer) as ->
    by (apply rd_lookup; rewrite Nat2Z.id; split; [lia|done]).
  wp_auto.
  destruct (PrefixedKey_TryParse_total unhex (pc_key peer) NodeKeyPrefix Hu) as ([nodeKey|] & -> & _);
    [|by apply Hfail].
  destruct (pr_PingMode request).
  - wp_auto.
    destruct (PrefixedKey_TryParse_total unhex (pc_discoKey peer) DiscoKeyPrefix Hu)
      as ([discoKey|] & -> & _); [|by apply Hfail].
    apply wp_bind, wp_world. unfold wp at 1.
    pose proof (Hcb nodeKey discoKey (tk_world s)) as Hr.
    destruct (createDisco nodeKey discoKey (tk_world s)) as [[[probe|]|e|] w]; simpl in *.
    + by apply Hready.
    + by apply Hfail.
    + split; [done|]. by left.
    + done.
  - destruct (Ipv4Address_TryParse (nm_selfAddress network)) as [source|]; [|by apply Hfail].
    destruct (Ipv4Address_TryParse (pc_address peer)) as [destination|]; [|by apply Hfail].
    wp_auto. rewrite slice_Ok by lia. wp_auto.
    edestruct BuildPing_total as [ping ->]; [|by apply Hready]. zlia.
Qed.

Lemma conserves_Start request network createDisco random now s :
  unhex_ok unhex → ping_call_ok (Ping_Start request network createDisco random now) →
  wp (ping_run_call (Ping_Start request network createDisco random now))
    (fun r s' => conserves s r s') s.
Proof.
  intros Hu Hc. apply wp_bind. eapply wp_mono; [by apply Start_spec|].
  intros r s' [Hr [[Hs Hst]|(p & res & -> & Hst & Hs & Hp & _ & Hnew)]].
  - destruct r as [res|e|]; [|apply conserves_same; by rewrite ?Hs|done].
    wp_auto. rewrite bool_decide_false by auto. apply conserves_same; by rewrite ?Hs.
  - wp_auto. rewrite bool_decide_true by done. split_and!; [done|..]; rewrite Hs, map_app; simpl;
      change (request_id p) with (pr_Id (pn_RequestState p)); rewrite Hp; [|done].
    intros Hn. apply NoDup_app. split_and!; [done| |apply NoDup_singleton].
    by intros id Hin ->%list_elem_of_singleton.
Qed.

Lemma ping_call_conserves c s :
  unhex_ok unhex → ping_call_ok c → wp (ping_run_call c) (fun r s' => conserves s r s') s.
Proof.
  intros Hu Hc. destruct c.
  - by apply conserves_Start.
  - apply conserves_complete.
  - apply conserves_complete.
  - apply conserves_Expire.
  - simpl. unfold TrackerImpl_RetryDisco. apply wp_bind. wp_auto.
    eapply wp_mono; [by apply retry_loop_spec|]. intros r s' (Hr & Hs%same_requests_ids & _).
    destruct r as [probes|e|]; [wp_auto| |done]; by apply conserves_same.
Qed.

(** No ping is lost and none is answered twice: over any sequence of calls, the
    identifiers of the pings that were started are those of the results that were returned and of
    the pings still pending, each as often; the pending ones are distinct, and no call has undefined
    behaviour, whatever the network map and the callback give. *)
Theorem TrackerImpl_conserves (calls : list ping_call) (c : ping_call) (w : W) :
  unhex_ok unhex → Forall ping_call_ok (calls ++ [c]) →
  let '(started, results, s) := ping_run calls {| tk_pending := []; tk_world := w |} in
  map pg_RequestId results ++ map request_id (tk_pending s) ≡ₚ started
  ∧ NoDup (map request_id (tk_pending s))
  ∧ (ping_run_call c s).1 ≠ UB.
Proof.
  intros Hu [Hcalls Hc]%Forall_app. apply Forall_cons in Hc as [Hc _].
  assert (∀ s0, NoDup (map request_id (tk_pending s0)) →
    let '(started, results, s) := ping_run calls s0 in
    map request_id (tk_pending s0) ++ started
    ≡ₚ map pg_RequestId results ++ map request_id (tk_pending s)
    ∧ NoDup (map request_id (tk_pending s))) as Hrun.
  { induction Hcalls as [|c1 calls Hc1 _ IH]; intros s0 Hn; simpl.
    { by rewrite app_nil_r. }
    destruct (ping_call_conserves c1 s0 Hu Hc1) as (Hr & Hnd & Hcons).
    destruct (ping_run_call c1 s0) as [r s1]. cbn [fst snd] in *.
    specialize (IH s1 (Hnd Hn)). destruct (ping_run calls s1) as [[started results] s2].
    destruct IH as [Hp Hn2]. destruct r as [[started1 results1]|e|]; [|by rewrite <- Hcons|done].
    split; [|done]. rewrite app_assoc, Hcons, <- app_assoc, Hp, map_app. by rewrite <- app_assoc. }
  specialize (Hrun {| tk_pending := []; tk_world := w |} (NoDup_nil_2)).
  destruct (ping_run calls _) as [[started results] s]. destruct Hrun as [Hp Hn].
  split_and!; [by symmetry|done|]. by apply (ping_call_conserves c s Hu Hc).
Qed.

End runs.

(** ** Deadlines *)

Section deadlines.
  Context {W : Type}.

Abbreviation tracker := (TrackerImpl W).

Lemma retry_loop_returns todo index now createDisco probes (s : tracker) :
  (∀ peer key w, ∃ built, (createDisco peer key w).1 = Ok built) →
  length (tk_pending s) = (index + todo)%nat →
  ∃ probes' s', retry_loop todo index now createDisco probes s = (Ok probes', s').
Proof.
  intros Hcb. revert index probes s.
  induction todo as [|todo IH]; intros index probes s Hlen; [by eexists _, _|].
  destruct (lookup_lt_is_Some_2 (tk_pending s) index) as [p Hp]; [lia|].
  assert (rd (tk_pending s) (Z.of_nat index) = Ok p) as Hrd
    by (apply rd_lookup; rewrite Nat2Z.id; split; [lia|done]).
  cbn [retry_loop]. unfold ebind at 1, eget. unfold ebind at 1, elift. rewrite Hrd.
  destruct (retry_due now p); simpl; [|apply IH; lia].
  destruct (Hcb (pn_Peer p) (pn_DiscoKey p) (tk_world s)) as [built Hb].
  unfold ebind, emod, on_world. cbn [tk_world tk_set_pending tk_pending].
  destruct (createDisco _ _ _) as [r w]. simpl in Hb. subst r.
  destruct built; apply IH; simpl; rewrite ?length_insert; lia.
Qed.

Lemma NextDeadline_fold (l : list PingPending) acc :
  foldl (fun next p => Some (match next with
                             | Some t => Z.min t (ping_deadline p)
                             | None => ping_deadline p
                             end)) acc l
  = foldl (fun next t => Some (match next with Some t' => Z.min t' t | None => t end)) acc
      (map ping_deadline l).
Proof. revert acc. induction l as [|p l IH]; intros acc; simpl; [done|]. apply IH. Qed.

Lemma fold_min_spec (l : list Z) acc :
  match foldl (fun next t => Some (match next with Some t' => Z.min t' t | None => t end)) acc l with
  | None => acc = None ∧ l = []
  | Some t => (acc = Some t ∨ t ∈ l) ∧ (∀ t', acc = Some t' → t <= t') ∧ Forall (fun t' => t <= t') l
  end.
Proof.
  revert acc. induction l as [|x l IH]; intros acc; simpl.
  { destruct acc as [t|]; [|done]. split_and!; [by left|naive_solver lia|constructor]. }
  specialize (IH (Some (match acc with Some t' => Z.min t' x | None => x end))).
  destruct (foldl _ _ l) as [t|]; [|naive_solver]. destruct IH as (Hin & Hle & Hall).
  specialize (Hle _ eq_refl). split_and!.
  - destruct Hin as [[= <-]|Hin]; [|right; by right]. destruct acc as [t'|]; [|right; by left].
    destruct (Z.min_spec t' x) as [[_ ->]|[_ ->]]; [by left|right; by left].
  - intros t' ->. lia.
  - constructor; [destruct acc; lia|done].
Qed.

Lemma NextDeadline_spec (s : tracker) :
  match TrackerImpl_NextDeadline s with
  | None => tk_pending s = []
  | Some t => ∃ p, p ∈ tk_pending s ∧ ping_deadline p = t
                ∧ ∀ p', p' ∈ tk_pending s → t <= ping_deadline p'
  end.
Proof.
  unfold TrackerImpl_NextDeadline. rewrite NextDeadline_fold.
  pose proof (fold_min_spec (map ping_deadline (tk_pending s)) None) as H.
  destruct (foldl _ _ _) as [t|].
  - destruct H as ([?|(p & -> & Hin)%list_elem_of_fmap] & _ & Hall); [done|].
    exists p. split_and!; [done..|]. intros p' Hp'. rewrite Forall_forall in Hall.
    apply Hall, list_elem_of_fmap. by exists p'.
  - destruct H as [_ H]. by destruct (tk_pending s).
Qed.

(** The tracker asks to be woken exactly when something is due: its next deadline is the
    earliest among the pending pings', none if there is no ping, and once [Expire] and [RetryDisco]
    have run at a time, it lies after that time, so that the event loop does not spin.  [Expire]
    reports every ping whose timeout has passed, as not answered and with its latency, and no
    other. *)
Theorem TrackerImpl_deadlines now createDisco (s : tracker) :
  (∀ peer key w, ∃ built, (createDisco peer key w).1 = Ok built) →
  match TrackerImpl_NextDeadline s with
  | None => tk_pending s = []
  | Some t => ∃ p, p ∈ tk_pending s ∧ ping_deadline p = t
                ∧ ∀ p', p' ∈ tk_pending s → t <= ping_deadline p'
  end
  ∧ ∃ results probes s1 s2,
      TrackerImpl_Expire now s = (Ok results, s1)
      ∧ results = map (fun p => TrackerImpl_Complete p false 0 now)
                    (List.filter (ping_expired now) (tk_pending s))
      ∧ TrackerImpl_RetryDisco now createDisco s1 = (Ok probes, s2)
      ∧ match TrackerImpl_NextDeadline s2 with None => True | Some t => now < t end.
Proof.
  intros Hcb. split; [apply NextDeadline_spec|].
  set (s1 := tk_set_pending (List.filter (fun p => negb (ping_expired now p)) (tk_pending s)) s).
  assert (TrackerImpl_Expire now s = (Ok (map (fun p => TrackerImpl_Complete p false 0 now)
    (List.filter (ping_expired now) (tk_pending s))), s1)) as He by done.
  pose proof (retry_loop_spec (length (tk_pending s1)) 0 now createDisco [] s1) as Hloop.
  destruct Hloop as (Hr & Hsame & _ & Hend); [|done|].
  { intros peer key w. by destruct (Hcb peer key w) as [built ->]. }
  assert (∃ probes, (TrackerImpl_RetryDisco now createDisco s1).1 = Ok probes) as [probes Hok].
  { unfold TrackerImpl_RetryDisco, ebind at 1, eget.
    destruct (retry_loop_returns (length (tk_pending s1)) 0 now createDisco [] s1 Hcb eq_refl)
      as (probes & s2 & ->). by exists probes. }
  destruct (TrackerImpl_RetryDisco now createDisco s1) as [r s2] eqn:Eretry. simpl in Hok. subst r.
  unfold TrackerImpl_RetryDisco, ebind, eget in Eretry. rewrite Eretry in Hsame, Hend. simpl in *.
  exists (map (fun p => TrackerImpl_Complete p false 0 now)
    (List.filter (ping_expired now) (tk_pending s))), probes, s1, s2.
  split_and!; [done..|].
  pose proof (NextDeadline_spec s2) as Hnext. destruct (TrackerImpl_NextDeadline s2) as [t|]; [|done].
  destruct Hnext as (p & Hin & <- & _). apply list_elem_of_lookup in Hin as [j Hj].
  pose proof (Hend probes eq_refl j p (Nat.le_0_l _) Hj) as Hdue.
  assert (ping_expired now p = false) as Hexp.
  { destruct (Forall2_lookup_r _ _ _ _ _ Hsame Hj) as (q & Hq & Hreq & Hst).
    apply list_elem_of_lookup_2, list_elem_of_In, filter_In in Hq as [_ Hq].
    apply negb_true_iff in Hq. unfold ping_expired in *. by rewrite Hreq, Hst. }
  unfold ping_expired in Hexp. apply Z.leb_gt in Hexp.
  unfold ping_deadline. destruct (is_disco p) eqn:Ed; [|lia].
  unfold retry_due in Hdue. rewrite Ed in Hdue. unfold ping_expired in Hdue.
  rewrite (proj2 (Z.leb_gt _ _) Hexp) in Hdue. simpl in Hdue. apply Z.leb_gt in Hdue. lia.
Qed.

End deadlines.

(** ** Concrete pings *)

Definition demo_ping_key (prefix : bytes) (c : Z) : bytes := prefix ++ replicate 64 c.

(** Two digits make one byte. *)
Definition demo_unhex (text : bytes) : option bytes := Some (replicate (length text / 2) 1).

Lemma demo_unhex_ok : unhex_ok demo_unhex.
Proof.
  intros text Hl _. exists (replicate (length text / 2) 1). split; [done|].
  rewrite zlen_replicate. unfold zlen in Hl. replace (length text) with 64%nat by lia. done.
Qed.

Definition demo_ping_network : NetworkConfig := {|
  nm_selfAddress := lit "100.64.0.1"; nm_selfAddresses := []; nm_selfName := []; nm_capabilities := [];
  nm_dnsResolver := []; nm_dnsDomains := []; nm_dnsDefaultResolvers := []; nm_dnsRoutes := [];
  nm_derpRegion := 0; nm_derpCode := [];
  nm_peers := [{|
    pc_name := lit "a"; pc_address := lit "100.64.0.2"; pc_addresses := []; pc_nodeId := 1;
    pc_key := demo_ping_key NodeKeyPrefix 97; pc_discoKey := demo_ping_key DiscoKeyPrefix 98;
    pc_endpoints := []; pc_allowedPrefixes := []; pc_derpRegion := 1; pc_derpCode := [];
    pc_online := true; pc_exitNodeOption := false |}] |}.

Definition demo_ping_request (id : Z) (mode : PingMode) : PingRequest := {|
  pr_Id := id; pr_Target := lit "a"; pr_PingMode := mode; pr_Timeout := 10 * 1000000000;
  pr_Relay := [] |}.

(** The callback numbers its transactions. *)
Definition demo_create (_ _ : bytes) : eff Z (option DiscoProbe) := fun w =>
  (Ok (Some {| dp_Transaction := replicate 12 w; dp_Payload := [1; w] |}), w + 1).

(** A discovery ping that is repeated and answered, and one over the tunnel that times out. *)
Definition demo_pings : list (ping_call (W:=Z)) :=
  [Ping_Start (demo_ping_request 1 Mode_Disco) demo_ping_network demo_create [] 0;
   Ping_Start (demo_ping_request 2 Mode_Tsmp) demo_ping_network demo_create (replicate 32 6) 0;
   Ping_Start (demo_ping_request 1 Mode_Tsmp) demo_ping_network demo_create (replicate 32 6) 5;
   Ping_Retry 1500000000 demo_create;
   Ping_CompleteDisco (replicate 32 1) (replicate 12 0) 443 1600000000;
   Ping_CompleteDisco (replicate 32 1) (replicate 12 1) 443 1600000000;
   Ping_Expire 10000000000].

Example demo_pings_results :
  let '(started, results, s) := ping_run demo_unhex demo_pings {| tk_pending := []; tk_world := 0 |} in
  started = [1; 2] ∧ map pg_RequestId results = [1; 2] ∧ map pg_Responded results = [true; false]
  ∧ tk_pending s = [].
Proof. vm_compute. repeat split. Qed.

Lemma TrackerImpl_conserves_witness :
  let '(started, results, s) :=
    ping_run demo_unhex (drop 1 demo_pings) {| tk_pending := []; tk_world := 0 |} in
  map pg_RequestId results ++ map request_id (tk_pending s) ≡ₚ started
  ∧ NoDup (map request_id (tk_pending s))
  ∧ (ping_run_call demo_unhex (Ping_Expire 20000000000) s).1 ≠ UB.
Proof.
  apply (TrackerImpl_conserves demo_unhex (drop 1 demo_pings) (Ping_Expire 20000000000) 0
           demo_unhex_ok).
  repeat constructor; vm_compute; discriminate.
Defined.

Lemma TrackerImpl_deadlines_witness :
  let s := (ping_run demo_unhex (take 2 demo_pings) {| tk_pending := []; tk_world := 0 |}).2 in
  TrackerImpl_NextDeadline s = Some 1000000000
  ∧ ∃ results probes s1 s2,
      TrackerImpl_Expire 1500000000 s = (Ok results, s1)
      ∧ results = map (fun p => TrackerImpl_Complete p false 0 1500000000)
                    (List.filter (ping_expired 1500000000) (tk_pending s))
      ∧ TrackerImpl_RetryDisco 1500000000 demo_create s1 = (Ok probes, s2)
      ∧ match TrackerImpl_NextDeadline s2 with None => True | Some t => 1500000000 < t end.
Proof.
  intros s. split; [vm_compute; reflexivity|].
  apply (TrackerImpl_deadlines 1500000000 demo_create s). intros peer key w. eexists. reflexivity.
Defined.
