(* ===== verification/PeerTable.v ===== *)
(** * The peer table (ipn/ipnlocal/PeerTable.cpp)

    The table keeps an entry for every peer of the network map, with its traffic counters,
    and registers the peers' keys with the transport of a delegated session.  The transport is
    the class [PeerTransport]; [PeerTransportLaws] is what the table relies on, and the instance
    for [MagicConnection] discharges it. *)

From stdpp Require Import gmap.
From S2P Require Import Prelude Text StdMap Net NetMap Router Disco Magicsock Ping.

(** ** The transport *)

Class PeerTransport (T : Type) := {
  pt_AddPeer : bytes → eff T bool;
  pt_RemovePeer : bytes → eff T bool;
  pt_ResetPath : bytes → ResetMode → eff T unit;
  (** The keys that are registered, and what the transport keeps true of itself. *)
  pt_keys : T → gset bytes;
  pt_ok : T → Prop
}.

Class PeerTransportLaws (T : Type) `{!PeerTransport T} : Prop := {
  pt_AddPeer_law : ∀ key t, pt_ok t →
    wp (pt_AddPeer key) (fun r t' => r = Ok (bool_decide (key ∉ pt_keys t)) ∧ pt_ok t'
      ∧ pt_keys t' = {[key]} ∪ pt_keys t) t;
  pt_RemovePeer_law : ∀ key t, pt_ok t →
    wp (pt_RemovePeer key) (fun r t' => (∃ b, r = Ok b) ∧ pt_ok t'
      ∧ pt_keys t' = pt_keys t ∖ {[key]}) t;
  pt_ResetPath_law : ∀ key mode t, pt_ok t →
    wp (pt_ResetPath key mode) (fun r t' => r = Ok tt ∧ pt_ok t' ∧ pt_keys t' = pt_keys t) t
}.

(** ** The table *)

Record PeerRuntime := {
  rn_Config : PeerConfig;
  rn_PublicKey : bytes;
  rn_DiscoPublicKey : bytes;
  rn_HasDiscoKey : bool;
  rn_TxBytes : Z;
  rn_RxBytes : Z
}.

Definition rn_set_key key p := {|
  rn_Config := rn_Config p; rn_PublicKey := key; rn_DiscoPublicKey := rn_DiscoPublicKey p;
  rn_HasDiscoKey := rn_HasDiscoKey p; rn_TxBytes := rn_TxBytes p; rn_RxBytes := rn_RxBytes p |}.
Definition rn_set_config config p := {|
  rn_Config := config; rn_PublicKey := rn_PublicKey p; rn_DiscoPublicKey := rn_DiscoPublicKey p;
  rn_HasDiscoKey := rn_HasDiscoKey p; rn_TxBytes := rn_TxBytes p; rn_RxBytes := rn_RxBytes p |}.

Record PeerTable (T : Type) := {
  tb_transport : option T;
  tb_peers : list PeerRuntime;
  tb_network : NetworkConfig
}.
Arguments tb_transport {T}. Arguments tb_peers {T}. Arguments tb_network {T}.

(** The same node, by its identifier or by its address. *)
Definition same_node (peer : PeerRuntime) (config : PeerConfig) : bool :=
  (negb (pc_nodeId config =? 0) && (pc_nodeId (rn_Config peer) =? pc_nodeId config))
  || bool_decide (pc_address (rn_Config peer) = pc_address config).

Definition nm_set_peers peers n : NetworkConfig := {|
  nm_selfAddress := nm_selfAddress n; nm_selfAddresses := nm_selfAddresses n;
  nm_selfName := nm_selfName n; nm_capabilities := nm_capabilities n;
  nm_dnsResolver := nm_dnsResolver n; nm_dnsDomains := nm_dnsDomains n;
  nm_dnsDefaultResolvers := nm_dnsDefaultResolvers n; nm_dnsRoutes := nm_dnsRoutes n;
  nm_derpRegion := nm_derpRegion n; nm_derpCode := nm_derpCode n; nm_peers := peers |}.

Section table.
  Context (unhex : bytes → option bytes) {T : Type} `{!PeerTransport T}.

Abbreviation table := (PeerTable T).

Definition PeerTable_new (transport : option T) : table :=
  {| tb_transport := transport; tb_peers := []; tb_network := NetworkConfig_default |}.

Definition tb_set_transport t (s : table) : table :=
  {| tb_transport := t; tb_peers := tb_peers s; tb_network := tb_network s |}.
Definition tb_set_peers l (s : table) : table :=
  {| tb_transport := tb_transport s; tb_peers := l; tb_network := tb_network s |}.
Definition tb_set_network n (s : table) : table :=
  {| tb_transport := tb_transport s; tb_peers := tb_peers s; tb_network := n |}.

(** A call on the transport, if there is one; [absent] is the result otherwise. *)
Definition on_transport {A} (absent : A) (m : eff T A) : eff table A := fun s =>
  match tb_transport s with
  | None => (Ok absent, s)
  | Some t => let '(r, t') := m t in (r, tb_set_transport (Some t') s)
  end.

Definition PeerTable_UpdateDiscoKey (peer : PeerRuntime) : outcome PeerRuntime :=
  let! key := PrefixedKey_TryParse unhex (pc_discoKey (rn_Config peer)) DiscoKeyPrefix in
  Ok {| rn_Config := rn_Config peer; rn_PublicKey := rn_PublicKey peer;
        rn_DiscoPublicKey := default (replicate 32 0) key;
        rn_HasDiscoKey := match key with Some _ => true | None => false end;
        rn_TxBytes := rn_TxBytes peer; rn_RxBytes := rn_RxBytes peer |}.

Definition PeerTable_BuildPeer (config : PeerConfig) : eff table (option PeerRuntime) :=
  let* publicKey := elift (PrefixedKey_TryParse unhex (pc_key config) NodeKeyPrefix) in
  match publicKey with
  | None => eret None
  | Some key =>
      let* added := on_transport true (pt_AddPeer key) in
      if negb added then eret None else
      let* runtime := elift (PeerTable_UpdateDiscoKey
        {| rn_Config := config; rn_PublicKey := key; rn_DiscoPublicKey := replicate 32 0;
           rn_HasDiscoKey := false; rn_TxBytes := 0; rn_RxBytes := 0 |}) in
      eret (Some runtime)
  end.

(** The key change of an existing entry: whether [Apply] goes on with the entry. *)
Definition change_key (i : nat) (existing : PeerRuntime) (config : PeerConfig) : eff table bool :=
  if bool_decide (pc_key (rn_Config existing) = pc_key config) then eret true else
  let* parsed := elift (PrefixedKey_TryParse unhex (pc_key config) NodeKeyPrefix) in
  match parsed with
  | None => eret false
  | Some nextPublicKey =>
      let* added := on_transport true (pt_AddPeer nextPublicKey) in
      if negb added then eret false else
      let* _ := on_transport true (pt_RemovePeer (rn_PublicKey existing)) in
      emod (fun s => tb_set_peers (<[i := rn_set_key nextPublicKey existing]> (tb_peers s)) s) ;;*
      on_transport tt (pt_ResetPath nextPublicKey ForgetVerifiedEndpoints) ;;*
      eret true
  end.

(** The rest of the update of an existing entry. *)
Definition update_entry (i : nat) (config : PeerConfig) : eff table unit :=
  let* s := eget in
  let* existing := elift (rd (tb_peers s) (Z.of_nat i)) in
  let endpointsChanged := negb (bool_decide (pc_endpoints (rn_Config existing) = pc_endpoints config)) in
  let discoKeyChanged := negb (bool_decide (pc_discoKey (rn_Config existing) = pc_discoKey config)) in
  let* updated := elift (PeerTable_UpdateDiscoKey (rn_set_config config existing)) in
  emod (fun s => tb_set_peers (<[i := updated]> (tb_peers s)) s) ;;*
  if negb (pc_online config) || endpointsChanged then
    on_transport tt (pt_ResetPath (rn_PublicKey existing)
      (if negb (pc_online config) || discoKeyChanged then ForgetVerifiedEndpoints
       else PreserveVerifiedEndpoints))
  else eret tt.

(** One iteration of the loop of [Apply]. *)
Definition apply_config (config : PeerConfig) : eff table unit :=
  let* s := eget in
  match find_index (fun peer => same_node peer config) (tb_peers s) with
  | None =>
      let* runtime := PeerTable_BuildPeer config in
      match runtime with
      | None => eret tt
      | Some runtime => emod (fun s => tb_set_peers (tb_peers s ++ [runtime]) s)
      end
  | Some i =>
      let* existing := elift (rd (tb_peers s) (Z.of_nat i)) in
      let* proceed := change_key i existing config in
      if proceed : bool then update_entry i config else eret tt
  end.

Fixpoint apply_configs (configs : list PeerConfig) : eff table unit :=
  match configs with
  | [] => eret tt
  | config :: rest => apply_config config ;;* apply_configs rest
  end.

(** [std::erase_if] over the entries, whose predicate removes the key of an entry it
    drops. *)
Fixpoint erase_absent (configs : list PeerConfig) (peers : list PeerRuntime)
    : eff table (list PeerRuntime) :=
  match peers with
  | [] => eret []
  | peer :: rest =>
      if existsb (same_node peer) configs then
        let* kept := erase_absent configs rest in eret (peer :: kept)
      else
        let* _ := on_transport true (pt_RemovePeer (rn_PublicKey peer)) in
        erase_absent configs rest
  end.

Definition PeerTable_Apply (configs : list PeerConfig) : eff table unit :=
  apply_configs configs ;;*
  let* s := eget in
  let* kept := erase_absent configs (tb_peers s) in
  emod (tb_set_peers kept) ;;*
  emod (fun s => tb_set_network (nm_set_peers (map rn_Config (tb_peers s)) (tb_network s)) s).

Definition PeerTable_FindKey (key : bytes) (s : table) : option nat :=
  find_index (fun peer => bool_decide (rn_PublicKey peer = key)) (tb_peers s).

Definition PeerTable_FindDiscoKey (key : bytes) (s : table) : option nat :=
  find_index (fun peer => rn_HasDiscoKey peer && bool_decide (rn_DiscoPublicKey peer = key))
    (tb_peers s).

End table.

(** ** The invariant: the keys of the entries are those of their configurations, and the
    transport has exactly these registered *)

Section invariant.
  Context (unhex : bytes → option bytes) (Hunhex : unhex_ok unhex).
  Context {T : Type} `{!PeerTransport T} `{!PeerTransportLaws T}.

Abbreviation table := (PeerTable T).

Definition parsed_key (config : PeerConfig) : option bytes :=
  match PrefixedKey_TryParse unhex (pc_key config) NodeKeyPrefix with Ok key => key | _ => None end.

Definition parsed_disco (config : PeerConfig) : option bytes :=
  match PrefixedKey_TryParse unhex (pc_discoKey config) DiscoKeyPrefix with
  | Ok key => key
  | _ => None
  end.

Lemma TryParse_key config :
  PrefixedKey_TryParse unhex (pc_key config) NodeKeyPrefix = Ok (parsed_key config).
Proof.
  unfold parsed_key. destruct (PrefixedKey_TryParse_total unhex (pc_key config) NodeKeyPrefix Hunhex)
    as (r & -> & _). done.
Qed.

Lemma UpdateDiscoKey_eq peer :
  PeerTable_UpdateDiscoKey unhex peer
  = Ok {| rn_Config := rn_Config peer; rn_PublicKey := rn_PublicKey peer;
          rn_DiscoPublicKey := default (replicate 32 0) (parsed_disco (rn_Config peer));
          rn_HasDiscoKey := match parsed_disco (rn_Config peer) with Some _ => true | None => false end;
          rn_TxBytes := rn_TxBytes peer; rn_RxBytes := rn_RxBytes peer |}.
Proof.
  unfold PeerTable_UpdateDiscoKey, parsed_disco.
  destruct (PrefixedKey_TryParse_total unhex (pc_discoKey (rn_Config peer)) DiscoKeyPrefix Hunhex)
    as (r & -> & _). done.
Qed.

Definition entry_ok (p : PeerRuntime) : Prop :=
  parsed_key (rn_Config p) = Some (rn_PublicKey p)
  ∧ rn_DiscoPublicKey p = default (replicate 32 0) (parsed_disco (rn_Config p))
  ∧ rn_HasDiscoKey p = match parsed_disco (rn_Config p) with Some _ => true | None => false end.

Definition keys_of (l : list PeerRuntime) : list bytes := map rn_PublicKey l.

Definition registered (transport : option T) (l : list PeerRuntime) : Prop :=
  match transport with
  | None => True
  | Some t => pt_ok t ∧ NoDup (keys_of l) ∧ pt_keys t = list_to_set (keys_of l)
  end.

Record table_ok (s : table) : Prop := {
  to_entries : Forall entry_ok (tb_peers s);
  to_registered : registered (tb_transport s) (tb_peers s)
}.

Lemma wp_transport {A} (absent : A) (m : eff T A) Q (s : table) :
  (tb_transport s = None → Q (Ok absent) s) →
  (∀ t, tb_transport s = Some t → wp m (fun r t' => Q r (tb_set_transport (Some t') s)) t) →
  wp (on_transport absent m) Q s.
Proof.
  unfold wp, on_transport. intros Hn Hs. destruct (tb_transport s) as [t|]; [|by apply Hn].
  specialize (Hs t eq_refl). by destruct (m t).
Qed.

(** The entry for a configuration, with the counters of [p]. *)
Definition refreshed (config : PeerConfig) (key : bytes) (tx rx : Z) : PeerRuntime := {|
  rn_Config := config; rn_PublicKey := key;
  rn_DiscoPublicKey := default (replicate 32 0) (parsed_disco config);
  rn_HasDiscoKey := match parsed_disco config with Some _ => true | None => false end;
  rn_TxBytes := tx; rn_RxBytes := rx |}.

Lemma refreshed_ok config key tx rx :
  parsed_key config = Some key → entry_ok (refreshed config key tx rx).
Proof. by repeat split. Qed.

(** What a step of the update does to the entries. *)
Inductive step_result (l : list PeerRuntime) (config : PeerConfig) : list PeerRuntime → Prop :=
  | Step_skip :
      (∀ key, parsed_key config = Some key → key ∈ keys_of l
         ∧ ∀ i p, find_index (fun p => same_node p config) l = Some i → l !! i = Some p →
             pc_key (rn_Config p) ≠ pc_key config) →
      step_result l config l
  | Step_add key :
      parsed_key config = Some key → find_index (fun p => same_node p config) l = None →
      step_result l config (l ++ [refreshed config key 0 0])
  | Step_update i p key :
      parsed_key config = Some key → find_index (fun p => same_node p config) l = Some i →
      l !! i = Some p →
      step_result l config (<[i := refreshed config key (rn_TxBytes p) (rn_RxBytes p)]> l).

Lemma keys_insert i p q l :
  l !! i = Some p → rn_PublicKey q = rn_PublicKey p → keys_of (<[i := q]> l) = keys_of l.
Proof. apply map_insert_same. Qed.

Lemma keys_delete_insert i p q l :
  l !! i = Some p → keys_of (<[i := q]> l) ≡ₚ rn_PublicKey q :: keys_of (delete i l).
Proof.
  intros Hi. apply lookup_lt_Some in Hi. unfold keys_of.
  rewrite insert_take_drop, delete_take_drop by done. rewrite !map_app. simpl.
  by rewrite <- Permutation_middle.
Qed.

Lemma registered_perm transport l l' :
  keys_of l ≡ₚ keys_of l' → registered transport l → registered transport l'.
Proof.
  intros Hp. destruct transport as [t|]; simpl; [|done]. intros (Hok & Hn & Hk).
  split_and!; [done|by rewrite <- Hp|]. rewrite Hk. apply leibniz_equiv. intros x.
  by rewrite !elem_of_list_to_set, Hp.
Qed.

(** Registering a key, when it is not in use. *)
Lemma wp_AddPeer key l (s : table) Q :
  registered (tb_transport s) l →
  (∀ t, registered t (l ++ [refreshed PeerConfig_default key 0 0]) →
     Q (Ok true) (tb_set_transport t s)) →
  (∀ t, registered t l → key ∈ keys_of l → Q (Ok false) (tb_set_transport t s)) →
  wp (on_transport true (pt_AddPeer key)) Q s.
Proof.
  intros Hreg Htrue Hfalse. apply wp_transport.
  - intros Hn. specialize (Htrue None). destruct s. simpl in *. subst. by apply Htrue.
  - intros t Ht. rewrite Ht in Hreg. destruct Hreg as (Hok & Hnd & Hk).
    eapply wp_mono; [by apply pt_AddPeer_law|]. intros r t' (-> & Hok' & Hk').
    case_bool_decide as Hin.
    + apply Htrue. assert (key ∉ keys_of l) as Hnew.
      { intros H. apply Hin. rewrite Hk. by apply elem_of_list_to_set. }
      split_and!; [done|..]; unfold keys_of; rewrite map_app; simpl.
      * apply NoDup_app. split_and!; [done| |apply NoDup_singleton].
        by intros x Hx ->%list_elem_of_singleton.
      * rewrite Hk', Hk, list_to_set_app_L. unfold keys_of. simpl. set_solver.
    + rewrite Hk, elem_of_list_to_set in Hin.
      apply Hfalse; [|done]. split_and!; [done..|]. rewrite Hk', Hk.
      assert (key ∈ (list_to_set (keys_of l) : gset bytes)) by (by apply elem_of_list_to_set).
      set_solver.
Qed.

Lemma wp_RemovePeer_table key l l' (s : table) Q :
  registered (tb_transport s) l → keys_of l ≡ₚ key :: keys_of l' →
  (∀ t b, registered t l' → Q (Ok b) (tb_set_transport t s)) →
  wp (on_transport true (pt_RemovePeer key)) Q s.
Proof.
  intros Hreg Hp HQ. apply wp_transport.
  - intros Hn. specialize (HQ None true). destruct s. simpl in *. subst. by apply HQ.
  - intros t Ht. rewrite Ht in Hreg. destruct Hreg as (Hok & Hnd & Hk).
    eapply wp_mono; [by apply pt_RemovePeer_law|]. intros r t' ([b ->] & Hok' & Hk').
    apply HQ. rewrite Hp in Hnd. apply NoDup_cons in Hnd as [Hni Hnd].
    split_and!; [done..|]. rewrite Hk', Hk. apply leibniz_equiv. intros x.
    rewrite elem_of_difference, !elem_of_list_to_set, Hp, elem_of_cons, elem_of_singleton.
    naive_solver.
Qed.

Lemma wp_ResetPath_table key mode l (s : table) Q :
  registered (tb_transport s) l →
  (∀ t, registered t l → Q (Ok tt) (tb_set_transport t s)) →
  wp (on_transport tt (pt_ResetPath key mode)) Q s.
Proof.
  intros Hreg HQ. apply wp_transport.
  - intros Hn. specialize (HQ None). destruct s. simpl in *. subst. by apply HQ.
  - intros t Ht. rewrite Ht in Hreg. destruct Hreg as (Hok & Hnd & Hk).
    eapply wp_mono; [by apply pt_ResetPath_law|]. intros r t' (-> & Hok' & Hk').
    apply HQ. split_and!; [done..|]. congruence.
Qed.

(** ** One configuration *)

Definition stepped (s : table) (config : PeerConfig) (r : outcome unit) (s' : table) : Prop :=
  r = Ok tt ∧ table_ok s' ∧ tb_network s' = tb_network s
  ∧ step_result (tb_peers s) config (tb_peers s').

Lemma stepped_skip s config s' :
  table_ok s → tb_peers s' = tb_peers s → tb_network s' = tb_network s →
  registered (tb_transport s') (tb_peers s) →
  (∀ key, parsed_key config = Some key → key ∈ keys_of (tb_peers s)
     ∧ ∀ i p, find_index (fun p => same_node p config) (tb_peers s) = Some i →
         tb_peers s !! i = Some p → pc_key (rn_Config p) ≠ pc_key config) →
  stepped s config (Ok tt) s'.
Proof.
  intros [He Hr] Hp Hn Hreg Hskip. split_and!; [done| |done|].
  - split; by rewrite Hp.
  - rewrite Hp. by apply Step_skip.
Qed.

Lemma apply_new config s :
  table_ok s → find_index (fun peer => same_node peer config) (tb_peers s) = None →
  wp (let* runtime := PeerTable_BuildPeer unhex config in
      match runtime with
      | None => eret tt
      | Some runtime => emod (fun s => tb_set_peers (tb_peers s ++ [runtime]) s)
      end) (stepped s config) s.
Proof.
  intros Hs Hfind. pose proof Hs as [He Hreg]. unfold PeerTable_BuildPeer.
  apply wp_bind. rewrite TryParse_key. apply wp_bind, wp_lift.
  destruct (parsed_key config) as [key|] eqn:Ek; [|wp_auto; by apply stepped_skip; rewrite ?Ek].
  apply wp_bind. eapply wp_AddPeer; [exact Hreg|..].
  - intros t Ht. simpl. rewrite UpdateDiscoKey_eq. wp_auto. simpl.
    split_and!; [done| |done|by apply Step_add].
    split; simpl; [apply Forall_app_2; [done|]; constructor; [by apply refreshed_ok|constructor]|].
    eapply registered_perm; [|exact Ht]. unfold keys_of. by rewrite !map_app.
  - intros t Ht Hin. wp_auto. apply stepped_skip; try done.
    intros key' Hk'. simplify_eq. split; [done|]. intros i p Hi. congruence.
Qed.

Lemma update_entry_spec i p config key s0 (s : table) :
  tb_peers s0 !! i = Some p → find_index (fun peer => same_node peer config) (tb_peers s0) = Some i →
  Forall entry_ok (tb_peers s0) → parsed_key config = Some key →
  tb_peers s = <[i := rn_set_key key p]> (tb_peers s0) → tb_network s = tb_network s0 →
  registered (tb_transport s) (tb_peers s) →
  wp (update_entry unhex i config) (stepped s0 config) s.
Proof.
  intros Hp Hfind He Hk Hpeers Hnet Hreg. unfold update_entry. wp_auto.
  assert (i < length (tb_peers s0))%nat as Hlt by (by eapply lookup_lt_Some).
  assert (tb_peers s !! i = Some (rn_set_key key p)) as Hi.
  { rewrite Hpeers. by apply list_lookup_insert_eq. }
  assert (rd (tb_peers s) (Z.of_nat i) = Ok (rn_set_key key p)) as ->
    by (apply rd_lookup; rewrite Nat2Z.id; split; [lia|done]).
  rewrite UpdateDiscoKey_eq. wp_auto. simpl.
  set (q := {| rn_Config := config |}).
  change q with (refreshed config key (rn_TxBytes p) (rn_RxBytes p)). clear q.
  set (q := refreshed config key (rn_TxBytes p) (rn_RxBytes p)).
  assert (<[i := q]> (tb_peers s) = <[i := q]> (tb_peers s0)) as Hins.
  { by rewrite Hpeers, list_insert_insert_eq. }
  assert (registered (tb_transport s) (<[i := q]> (tb_peers s))) as Hreg'.
  { eapply registered_perm; [|exact Hreg]. by rewrite (keys_insert i _ q _ Hi). }
  assert (∀ t, registered t (<[i := q]> (tb_peers s)) →
    stepped s0 config (Ok tt) (tb_set_transport t (tb_set_peers (<[i := q]> (tb_peers s)) s))) as Hend.
  { intros t Ht. split_and!; [done| |done|].
    - split; simpl; [|done]. rewrite Hins. apply Forall_insert; [done|]. by apply refreshed_ok.
    - simpl. rewrite Hins. by eapply Step_update. }
  ifb.
  - eapply wp_ResetPath_table; [exact Hreg'|]. intros t Ht. by apply Hend.
  - wp_auto. specialize (Hend (tb_transport s) Hreg'). by destruct s.
Qed.

Lemma apply_config_spec config s :
  table_ok s → wp (apply_config unhex config) (stepped s config) s.
Proof.
  intros Hs. pose proof Hs as [He Hreg]. unfold apply_config. wp_auto.
  destruct (find_index _ _) as [i|] eqn:Ei; [|by apply apply_new].
  pose proof (find_index_Some _ _ _ Ei) as (p & Hp & _).
  assert (rd (tb_peers s) (Z.of_nat i) = Ok p) as ->
    by (apply rd_lookup; rewrite Nat2Z.id; split; [lia|done]).
  wp_auto. apply wp_bind. unfold change_key.
  pose proof (proj1 (Forall_lookup _ _) He i p Hp) as [Hkey _].
  case_bool_decide as Hsame.
  { wp_auto. eapply update_entry_spec; try done.
    - unfold parsed_key in *. rewrite <- Hsame. exact Hkey.
    - symmetry. rewrite list_insert_id; [done|]. rewrite Hp. by destruct p. }
  rewrite TryParse_key. wp_auto.
  destruct (parsed_key config) as [key|] eqn:Ek; [|wp_auto; by apply stepped_skip; rewrite ?Ek].
  apply wp_bind. eapply wp_AddPeer; [exact Hreg|..].
  - intros t Ht. simpl. apply wp_bind.
    assert (i < length (tb_peers s))%nat as Hlt by (by eapply lookup_lt_Some).
    eapply (wp_RemovePeer_table _ _ (<[i := rn_set_key key p]> (tb_peers s))); [exact Ht| |].
    { rewrite (keys_delete_insert i p _ _ Hp). simpl. unfold keys_of. rewrite map_app. simpl.
      rewrite (Permutation_map rn_PublicKey (delete_Permutation _ _ _ Hp)). simpl.
      rewrite <- Permutation_cons_append. by rewrite perm_swap. }
    intros t' b Ht'. wp_auto. apply wp_bind. simpl.
    eapply wp_ResetPath_table; [exact Ht'|]. intros t'' Ht''. wp_auto.
    by eapply update_entry_spec.
  - intros t Ht Hin. wp_auto. simpl. wp_auto. apply stepped_skip; try done.
    intros key' Hk'. simplify_eq. split; [done|]. intros i' p' Hi' Hp'. simplify_eq. done.
Qed.

Lemma erase_absent_spec configs peers prefix (s : table) :
  registered (tb_transport s) (prefix ++ peers) →
  wp (erase_absent configs peers) (fun r s' =>
    r = Ok (List.filter (fun p => existsb (same_node p) configs) peers)
    ∧ tb_peers s' = tb_peers s ∧ tb_network s' = tb_network s
    ∧ registered (tb_transport s')
        (prefix ++ List.filter (fun p => existsb (same_node p) configs) peers)) s.
Proof.
  revert prefix s. induction peers as [|peer rest IH]; intros prefix s Hreg; simpl.
  { wp_auto. done. }
  destruct (existsb (same_node peer) configs).
  - apply wp_bind. eapply wp_mono; [apply (IH (prefix ++ [peer])); by rewrite <- app_assoc|].
    intros r s' (-> & Hp & Hn & Hr). wp_auto. rewrite <- app_assoc in Hr. done.
  - apply wp_bind. eapply (wp_RemovePeer_table _ _ (prefix ++ rest)); [exact Hreg| |].
    { unfold keys_of. rewrite !map_app. simpl. by rewrite <- Permutation_middle. }
    intros t b Ht. eapply wp_mono; [by apply (IH prefix)|]. done.
Qed.

Lemma apply_configs_ok configs (P : list PeerRuntime → Prop) s :
  table_ok s → P (tb_peers s) →
  (∀ c l l', c ∈ configs → Forall entry_ok l → P l → step_result l c l' → P l') →
  wp (apply_configs unhex configs) (fun r s' => r = Ok tt ∧ table_ok s' ∧ P (tb_peers s')
    ∧ tb_network s' = tb_network s) s.
Proof.
  revert s. induction configs as [|c configs IH]; intros s Hs HP Hstep; simpl.
  { wp_auto. done. }
  apply wp_bind. eapply wp_mono; [by apply apply_config_spec|].
  intros r s1 (-> & Hs1 & Hn1 & Hst). eapply wp_mono; [apply IH; [done|..]|].
  - eapply Hstep; [left|apply Hs|done|done].
  - intros c' l l' Hc'. apply Hstep. by right.
  - intros r s2 (-> & Hs2 & HP2 & Hn2). split_and!; try done. congruence.
Qed.

Lemma Apply_spec configs (P : list PeerRuntime → Prop) s :
  table_ok s → P (tb_peers s) →
  (∀ c l l', c ∈ configs → Forall entry_ok l → P l → step_result l c l' → P l') →
  wp (PeerTable_Apply unhex configs) (fun r s' => r = Ok tt ∧ table_ok s'
    ∧ nm_peers (tb_network s') = map rn_Config (tb_peers s')
    ∧ ∃ l, P l ∧ tb_peers s' = List.filter (fun p => existsb (same_node p) configs) l) s.
Proof.
  intros Hs HP Hstep. unfold PeerTable_Apply. apply wp_bind.
  eapply wp_mono; [by apply (apply_configs_ok configs P)|].
  intros r s1 (-> & [He Hreg] & HP1 & Hn1). wp_auto. apply wp_bind.
  eapply wp_mono; [by apply (erase_absent_spec _ _ [])|].
  intros r s2 (-> & Hp & Hn & Hr). wp_auto. simpl. split_and!; [done| |done|by eexists].
  split; simpl; [|done]. rewrite Forall_forall in *. intros p Hin.
  apply He. apply list_elem_of_In in Hin. apply filter_In in Hin as [? _]. by apply list_elem_of_In.
Qed.

Definition apply_all (updates : list (list PeerConfig)) (s : table) : table :=
  foldl (fun s configs => (PeerTable_Apply unhex configs s).2) s updates.

(** C34: whatever updates of the network map are applied, [Apply] returns and leaves a table
    whose entries are consistent with their configurations (node key, discovery key), all of them
    present in the last map, and published to the router; and the transport of a delegated session
    has exactly the keys of the entries registered, each entry with a key of its own. *)
Theorem PeerTable_registers (transport : option T) updates configs :
  match transport with Some t => pt_ok t ∧ pt_keys t = ∅ | None => True end →
  ∃ s', PeerTable_Apply unhex configs (apply_all updates (PeerTable_new transport)) = (Ok tt, s')
    ∧ table_ok s'
    ∧ nm_peers (tb_network s') = map rn_Config (tb_peers s')
    ∧ Forall (fun p => existsb (same_node p) configs = true) (tb_peers s').
Proof.
  intros Ht. assert (table_ok (apply_all updates (PeerTable_new transport))) as Hs.
  { assert (table_ok (PeerTable_new transport)) as Hnew.
    { split; [constructor|]. destruct transport as [t|]; [|done].
      destruct Ht as [? ?]. split_and!; [done|constructor|done]. }
    revert Hnew. unfold apply_all. generalize (PeerTable_new transport) as s.
    induction updates as [|u updates IH]; intros s Hs; simpl; [done|]. apply IH.
    by destruct (Apply_spec u (fun _ => True) s Hs I (fun _ _ _ _ _ _ _ => I)) as (_ & ? & _). }
  set (s := apply_all updates (PeerTable_new transport)) in *. clearbody s.
  destruct (Apply_spec configs (fun _ => True) s Hs I (fun _ _ _ _ _ _ _ => I))
    as (Hr & Hok & Hn & l & _ & Hl).
  destruct (PeerTable_Apply unhex configs s) as [r s']. simpl in *. subst r.
  exists s'. split_and!; [done..|]. rewrite Hl. apply Forall_forall. intros p Hin.
  apply list_elem_of_In, filter_In in Hin as [_ ?]. done.
Qed.

(** ** Updates in which a node keeps its address *)

Definition address_of (p : PeerRuntime) : bytes := pc_address (rn_Config p).

Definition entry_at (l : list PeerRuntime) (a : bytes) : option PeerRuntime :=
  List.find (fun p => bool_decide (address_of p = a)) l.

Definition config_at (configs : list PeerConfig) (a : bytes) : option PeerConfig :=
  List.find (fun c => bool_decide (pc_address c = a)) configs.

Definition view (p : PeerRuntime) : PeerConfig * Z * Z := (rn_Config p, rn_TxBytes p, rn_RxBytes p).

Definition counters (l : list PeerRuntime) (a : bytes) : Z * Z :=
  match entry_at l a with Some p => (rn_TxBytes p, rn_RxBytes p) | None => (0, 0) end.

Record stable_update (l0 : list PeerRuntime) (configs : list PeerConfig) : Prop := {
  su_old : NoDup (map address_of l0);
  su_new : NoDup (map pc_address configs);
  (** A node identifier keeps its address. *)
  su_nodes : ∀ x c, x ∈ map rn_Config l0 ++ configs → c ∈ configs →
    pc_nodeId c ≠ 0 → pc_nodeId x = pc_nodeId c → pc_address x = pc_address c;
  (** A key is not that of another peer, and is written one way. *)
  su_keys : ∀ x c, x ∈ map rn_Config l0 ++ configs → c ∈ configs →
    parsed_key x = parsed_key c → pc_address x = pc_address c ∧ pc_key x = pc_key c;
  su_parsed : ∀ c, c ∈ configs → parsed_key c ≠ None
}.

Lemma entry_at_Some l a p : entry_at l a = Some p → p ∈ l ∧ address_of p = a.
Proof.
  intros [Hin Ha]%find_some. apply list_elem_of_In in Hin. by apply bool_decide_eq_true in Ha.
Qed.

Lemma entry_at_None l a p : entry_at l a = None → p ∈ l → address_of p ≠ a.
Proof.
  intros Hn Hin Ha. apply list_elem_of_In in Hin. pose proof (find_none _ _ Hn p Hin) as H.
  simpl in H. by rewrite bool_decide_true in H.
Qed.

Lemma entry_at_elem l p : NoDup (map address_of l) → p ∈ l → entry_at l (address_of p) = Some p.
Proof.
  induction l as [|q l IH]; intros Hn Hin; [by apply elem_of_nil in Hin|].
  simpl in Hn. apply NoDup_cons in Hn as [Hq Hn]. apply elem_of_cons in Hin as [->|Hin]; unfold entry_at; simpl.
  - by rewrite bool_decide_true.
  - rewrite bool_decide_false; [by apply IH|]. intros Heq. apply Hq. rewrite Heq.
    apply list_elem_of_fmap. eauto.
Qed.

Lemma entry_at_insert l i p q a :
  NoDup (map address_of l) → l !! i = Some p → address_of q = address_of p →
  entry_at (<[i := q]> l) a = if bool_decide (a = address_of p) then Some q else entry_at l a.
Proof.
  intros Hn Hi Hq. assert (map address_of (<[i := q]> l) = map address_of l) as Haddr
    by (by eapply map_insert_same).
  assert (i < length l)%nat as Hlt by (by eapply lookup_lt_Some).
  case_bool_decide as Ha.
  - subst a. rewrite <- Hq. apply entry_at_elem; [by rewrite Haddr|].
    eapply list_elem_of_lookup_2. by apply list_lookup_insert_eq.
  - clear Hn Haddr Hlt. revert i Hi. induction l as [|r l IH]; intros [|i] Hi; simplify_eq/=; unfold entry_at; simpl.
    + rewrite Hq. by rewrite bool_decide_false.
    + case_bool_decide; [done|]. by apply IH.
Qed.

Lemma table_entry_at_app l q a :
  entry_at (l ++ [q]) a
  = match entry_at l a with
    | Some p => Some p
    | None => if bool_decide (a = address_of q) then Some q else None
    end.
Proof.
  unfold entry_at. induction l as [|r l IH]; simpl; [by repeat case_bool_decide|].
  destruct (bool_decide (address_of r = a)); [done|exact IH].
Qed.

Lemma config_at_app l c a :
  config_at (l ++ [c]) a
  = match config_at l a with
    | Some c' => Some c'
    | None => if bool_decide (a = pc_address c) then Some c else None
    end.
Proof.
  unfold config_at. induction l as [|r l IH]; simpl; [by repeat case_bool_decide|].
  destruct (bool_decide (pc_address r = a)); [done|exact IH].
Qed.

Section stable.
  Context (l0 : list PeerRuntime) (configs : list PeerConfig).
  Context (Hstable : stable_update l0 configs).

(** The table after the configurations [seen]. *)
Record synced (seen : list PeerConfig) (l : list PeerRuntime) : Prop := {
  sy_known : Forall (fun p => rn_Config p ∈ map rn_Config l0 ++ configs) l;
  sy_nodup : NoDup (map address_of l);
  sy_view : ∀ a, view <$> entry_at l a
    = match config_at seen a with
      | Some c => Some (c, (counters l0 a).1, (counters l0 a).2)
      | None => view <$> entry_at l0 a
      end
}.

Lemma same_node_address p c :
  rn_Config p ∈ map rn_Config l0 ++ configs → c ∈ configs →
  same_node p c = true ↔ address_of p = pc_address c.
Proof.
  intros Hp Hc. unfold same_node, address_of. rewrite orb_true_iff, andb_true_iff, bool_decide_eq_true.
  split; [|by right]. intros [[Hne Heq]|?]; [|done].
  apply negb_true_iff, Z.eqb_neq in Hne. apply Z.eqb_eq in Heq. by apply (su_nodes _ _ Hstable).
Qed.

Lemma synced_step seen l c l' :
  c ∈ configs → config_at seen (pc_address c) = None → Forall entry_ok l → synced seen l →
  step_result l c l' → synced (seen ++ [c]) l'.
Proof.
  intros Hc Hnew He [Hknown Hnd Hview] Hstep.
  assert (∀ p, p ∈ l → same_node p c = true ↔ address_of p = pc_address c) as Hsame.
  { intros p Hp. apply same_node_address; [|done]. rewrite Forall_forall in Hknown. by apply Hknown. }
  destruct Hstep as [Hskip|key Hkey Hfind|i p key Hkey Hfind Hp].
  - exfalso. destruct (parsed_key c) as [key|] eqn:Ek; [|by apply (su_parsed _ _ Hstable c)].
    destruct (Hskip key eq_refl) as [Hin Hdiff].
    apply list_elem_of_fmap in Hin as (q & -> & Hq).
    assert (entry_ok q) as [Hqk _] by (rewrite Forall_forall in He; by apply He).
    destruct (su_keys _ _ Hstable (rn_Config q) c) as [Ha Hk]; [|done|congruence|].
    { rewrite Forall_forall in Hknown. by apply Hknown. }
    assert (same_node q c = true) as Hsn by (by apply Hsame).
    destruct (find_index (fun p => same_node p c) l) as [i|] eqn:Ei.
    + destruct (find_index_Some _ _ _ Ei) as (p & Hp & Hpn & _).
      apply (Hdiff i p eq_refl Hp). apply Hsame in Hpn; [|by eapply list_elem_of_lookup_2].
      assert (p = q) as ->; [|done].
      pose proof (entry_at_elem l p Hnd (list_elem_of_lookup_2 _ _ _ Hp)) as H1.
      pose proof (entry_at_elem l q Hnd Hq) as H2. unfold address_of in *. congruence.
    + pose proof (find_index_None _ _ Ei) as Hall. apply list_elem_of_lookup in Hq as [j Hj].
      specialize (Hall j q Hj). simpl in Hall. congruence.
  - assert (entry_at l (pc_address c) = None) as Habs.
    { destruct (entry_at l (pc_address c)) as [q|] eqn:Eq; [|done].
      apply entry_at_Some in Eq as [Hq Hqa]. apply (Hsame q Hq) in Hqa.
      pose proof (find_index_None _ _ Hfind) as Hall. apply list_elem_of_lookup in Hq as [j Hj].
      specialize (Hall j q Hj). simpl in Hall. congruence. }
    split.
    + apply Forall_app_2; [done|]. constructor; [|constructor]. apply elem_of_app. by right.
    + rewrite map_app. apply NoDup_app. split_and!; [done| |apply NoDup_singleton].
      intros a Ha ->%list_elem_of_singleton. apply list_elem_of_fmap in Ha as (q & Hqa & Hq).
      by apply (entry_at_None _ _ q Habs Hq).
    + intros a. rewrite table_entry_at_app, config_at_app. specialize (Hview a).
      change (address_of (refreshed c key 0 0)) with (pc_address c).
      destruct (bool_decide_reflect (a = pc_address c)) as [->|Hne].
      * rewrite Habs, Hnew in *. simpl in *. unfold view, counters. simpl.
        by destruct (entry_at l0 (pc_address c)).
      * destruct (entry_at l a), (config_at seen a); simpl in *; done.
  - pose proof (find_index_Some _ _ _ Hfind) as (p' & Hp' & Hpn & _). simplify_eq.
    assert (address_of p = pc_address c) as Hpa.
    { apply Hsame; [by eapply list_elem_of_lookup_2|done]. }
    split.
    + apply Forall_insert; [done|]. apply elem_of_app. by right.
    + by erewrite map_insert_same.
    + intros a. rewrite (entry_at_insert _ _ p), config_at_app by done. rewrite Hpa. specialize (Hview a).
      case_bool_decide as Ha; [|by destruct (config_at seen a)].
      subst a. rewrite Hnew in *. simpl.
      rewrite <- Hpa, (entry_at_elem l p Hnd) in Hview by (by eapply list_elem_of_lookup_2).
      rewrite Hpa in Hview. unfold counters.
      destruct (entry_at l0 (pc_address c)); simpl in *; unfold view in *; [|done].
      simpl. congruence.
Qed.

Lemma apply_configs_synced seen todo s :
  table_ok s → synced seen (tb_peers s) → Forall (fun c => c ∈ configs) todo →
  NoDup (map pc_address todo) →
  (∀ c, c ∈ todo → config_at seen (pc_address c) = None) →
  wp (apply_configs unhex todo) (fun r s' => r = Ok tt ∧ table_ok s'
    ∧ synced (seen ++ todo) (tb_peers s') ∧ tb_network s' = tb_network s) s.
Proof.
  revert seen s. induction todo as [|c todo IH]; intros seen s Hs Hsy Hin Hn Hnew; simpl.
  { wp_auto. by rewrite app_nil_r. }
  apply Forall_cons in Hin as [Hc Hin]. apply NoDup_cons in Hn as [Hcn Hn].
  apply wp_bind. eapply wp_mono; [by apply apply_config_spec|].
  intros r s1 (-> & Hs1 & Hn1 & Hst). eapply wp_mono; [apply (IH (seen ++ [c])); [done| |done|done|]|].
  - eapply synced_step; [done|apply Hnew; left|apply Hs|done|done].
  - intros c' Hc'. rewrite config_at_app, Hnew by (by right).
    rewrite bool_decide_false; [done|]. intros Ha. apply Hcn. rewrite <- Ha.
    apply list_elem_of_fmap. eauto.
  - intros r s2 (-> & Hs2 & Hsy2 & Hn2). rewrite <- app_assoc in Hsy2. split_and!; try done. congruence.
Qed.

Lemma synced_start : synced [] l0.
Proof.
  split; [|apply Hstable|done]. apply Forall_forall. intros p Hp.
  apply elem_of_app. left. apply list_elem_of_fmap. eauto.
Qed.

(** Dropping the entries that no configuration names. *)
Lemma synced_erase l a :
  synced configs l →
  view <$> entry_at (List.filter (fun p => existsb (same_node p) configs) l) a
  = (fun c => (c, (counters l0 a).1, (counters l0 a).2)) <$> config_at configs a.
Proof.
  intros [Hknown Hnd Hview].
  assert (entry_at (List.filter (fun p => existsb (same_node p) configs) l) a
          = match config_at configs a with Some _ => entry_at l a | None => None end) as Hfilter.
  { assert (∀ p, p ∈ l → existsb (same_node p) configs = true ↔ config_at configs (address_of p) ≠ None) as Hex.
    { intros p Hp. rewrite existsb_exists. split.
      - intros (c & Hc & Hsn). apply list_elem_of_In in Hc.
        apply (same_node_address p c) in Hsn; [|by rewrite Forall_forall in Hknown; apply Hknown|done].
        intros Hnone. apply list_elem_of_In in Hc. pose proof (find_none _ _ Hnone c Hc) as Hf.
        simpl in Hf. by rewrite bool_decide_true in Hf.
      - intros Hsome. destruct (config_at configs (address_of p)) as [c|] eqn:Ec; [|done].
        apply find_some in Ec as [Hc Ha]. apply bool_decide_eq_true in Ha.
        exists c. split; [done|]. apply list_elem_of_In in Hc.
        apply same_node_address; [by rewrite Forall_forall in Hknown; apply Hknown|done|done]. }
    clear Hview Hknown Hnd. unfold entry_at. induction l as [|p l IH]; simpl.
    { by destruct (config_at configs a). }
    assert (∀ q, q ∈ l → existsb (same_node q) configs = true ↔ config_at configs (address_of q) ≠ None)
      as Hex' by (intros q Hq; apply Hex; by right).
    specialize (IH Hex'). specialize (Hex p ltac:(left)).
    destruct (existsb (same_node p) configs); simpl.
    - case_bool_decide as Ha; [|done]. subst a.
      destruct (config_at configs (address_of p)); [done|]. by destruct (proj1 Hex eq_refl).
    - case_bool_decide as Ha; [|done]. subst a. rewrite IH.
      destruct (config_at configs (address_of p)); [|done]. by destruct Hex as [_ Hex]; discriminate Hex. }
  rewrite Hfilter. specialize (Hview a). destruct (config_at configs a); [|done].
  rewrite Hview. done.
Qed.

End stable.

(** When nodes keep their addresses and keys are not shared, applying a map leaves
    exactly its peers in the table: the entry at an address has the configuration the map gives
    for it, keeps the traffic counters it had, or starts from zero, and addresses that the map no
    longer names have none.  A peer may have changed its key, its endpoints and its state. *)
Theorem PeerTable_Apply_stable configs s :
  table_ok s → stable_update (tb_peers s) configs →
  ∃ s', PeerTable_Apply unhex configs s = (Ok tt, s')
    ∧ ∀ a, view <$> entry_at (tb_peers s') a
           = (fun c => (c, (counters (tb_peers s) a).1, (counters (tb_peers s) a).2))
             <$> config_at configs a.
Proof.
  intros Hs Hst.
  assert (wp (PeerTable_Apply unhex configs) (fun r s' => r = Ok tt
    ∧ ∀ a, view <$> entry_at (tb_peers s') a
           = (fun c => (c, (counters (tb_peers s) a).1, (counters (tb_peers s) a).2))
             <$> config_at configs a) s) as [Hr Hv].
  { unfold PeerTable_Apply. apply wp_bind. eapply wp_mono.
    { apply (apply_configs_synced (tb_peers s) configs Hst []); [done|by apply synced_start| |apply Hst|done].
      by apply Forall_forall. }
    intros r s1 (-> & [_ Hreg] & Hsy & _). wp_auto. apply wp_bind.
    eapply wp_mono; [by apply (erase_absent_spec _ _ [])|]. intros r s2 (-> & _). wp_auto. simpl.
    split; [done|]. intros a. by apply synced_erase. }
  destruct (PeerTable_Apply unhex configs s) as [r s']. simpl in *. subst r. by exists s'.
Qed.

End invariant.

(** ** The magicsock connection as the transport *)

Section magicsock.
  Context {U : Type} `{!UdpSocket U} `{!UdpSocketLaws U}.

Definition magic_keys (s : MagicConnection U) : gset bytes := list_to_set (map fst (mc_peers s)).

#[export] Instance magic_transport : PeerTransport (MagicConnection U) := {|
  pt_AddPeer := MagicConnection_AddPeer;
  pt_RemovePeer := MagicConnection_RemovePeer;
  pt_ResetPath := MagicConnection_ResetPath;
  pt_keys := magic_keys;
  pt_ok := conn_inv [] (fun _ => false) |}.

Lemma elem_of_magic_keys k s : k ∈ magic_keys s ↔ map_find k (mc_peers s) ≠ None.
Proof.
  unfold magic_keys. rewrite elem_of_list_to_set.
  induction (mc_peers s) as [|[k' v] m IH]; simpl; [by rewrite elem_of_nil|].
  rewrite elem_of_cons, IH. case_bool_decide; naive_solver.
Qed.

Lemma magic_AddPeer_law key s :
  conn_inv [] (fun _ => false) s →
  wp (MagicConnection_AddPeer key) (fun r s' => r = Ok (bool_decide (key ∉ magic_keys s))
    ∧ conn_inv [] (fun _ => false) s' ∧ magic_keys s' = {[key]} ∪ magic_keys s) s.
Proof.
  intros Hs. destruct (mkeeps_AddPeer [] (fun _ => false) key s Hs) as [_ [Hinv _ _]].
  unfold wp. split_and!; [|done|].
  - simpl. f_equal. unfold MagicConnection_HasPeer.
    rewrite (bool_decide_ext _ _ (not_iff_compat (elem_of_magic_keys key s))).
    destruct (map_find key (mc_peers s)); symmetry.
    + by apply bool_decide_false; intros H; apply H.
    + by apply bool_decide_true; intros H.
  - apply leibniz_equiv. intros k. rewrite elem_of_union, elem_of_singleton, !elem_of_magic_keys.
    simpl. rewrite map_find_emplace by apply Hs.
    destruct (bool_decide_reflect (key = k)) as [<-|]; naive_solver.
Qed.

Lemma RemovePeer_peers key (s : MagicConnection U) :
  conn_inv [] (fun _ => false) s →
  wp (MagicConnection_RemovePeer key) (fun r s' => (∃ b, r = Ok b)
    ∧ ∀ k, map_find k (mc_peers s') = if bool_decide (key = k) then None else map_find k (mc_peers s)) s.
Proof.
  intros Hs. unfold MagicConnection_RemovePeer, MagicConnection_HasPeer. wp_auto.
  destruct (map_find key (mc_peers s)) as [p|] eqn:Ek; simpl.
  - wp_auto. apply wp_bind. eapply wp_mono; [apply wp_UpdateWriteInterest; apply map_ok_erase, Hs|].
    intros r s' (-> & Hp & _ & _). wp_auto. split; [by eexists|]. intros k. rewrite Hp. simpl.
    apply map_find_erase.
  - wp_auto. split; [by eexists|]. intros k.
    destruct (bool_decide_reflect (key = k)) as [<-|]; done.
Qed.

#[export] Instance magic_transport_laws : PeerTransportLaws (MagicConnection U).
Proof.
  split; simpl.
  - apply magic_AddPeer_law.
  - intros key s Hs. destruct (wp_RemovePeer [] (fun _ => false) key s Hs) as (_ & [Hinv _ _] & _).
    destruct (RemovePeer_peers key s Hs) as [Hr Hf]. split_and!; [done|done|].
    apply leibniz_equiv. intros k.
    rewrite elem_of_difference, elem_of_singleton, !elem_of_magic_keys, Hf.
    destruct (bool_decide_reflect (key = k)) as [<-|]; naive_solver.
  - intros key mode s Hs.
    destruct (mkeeps_quiet_path [] (fun _ => false) key (PeerPathState_Reset mode)) with (s := s)
      as [_ [Hinv _ _]]; [apply path_ok_Reset| |done|].
    { intros p e. simpl. case_bool_decide; [by intros ?%elem_of_nil|done]. }
    split_and!; [done|done|]. apply leibniz_equiv. intros k. rewrite !elem_of_magic_keys.
    simpl. rewrite map_find_alter. destruct (bool_decide_reflect (key = k)); [|done].
    destruct (map_find k (mc_peers s)); naive_solver.
Qed.

End magicsock.

(** ** Concrete tables *)

(** [unhex] reads the number of a peer out of the first digit. *)
Definition table_unhex (text : bytes) : option bytes :=
  Some (match text with c :: _ => replicate 32 c | [] => replicate 32 0 end).

Lemma table_unhex_ok : unhex_ok table_unhex.
Proof. intros [|c text] _ _; by eexists. Qed.

(** The peer with node identifier [id], key number [key] and the address [address]. *)
Definition table_peer (id key : Z) (address : String.string) : PeerConfig := {|
  pc_name := lit "p"; pc_address := lit address; pc_addresses := []; pc_nodeId := id;
  pc_key := NodeKeyPrefix ++ replicate 64 (48 + key); pc_discoKey := [];
  pc_endpoints := []; pc_allowedPrefixes := []; pc_derpRegion := 1; pc_derpCode := [];
  pc_online := true; pc_exitNodeOption := false |}.
Arguments table_peer id key address%_string.

Definition table_start : PeerTable (MagicConnection demo_socket) :=
  PeerTable_new (Some MagicConnection_new).

Definition table_map : list PeerConfig := [table_peer 1 1 "100.64.0.1"; table_peer 2 2 "100.64.0.2"].

(** What the table says: node, address and key of every entry. *)
Definition table_says {T} (s : PeerTable T) : list (Z * bytes * Z) :=
  map (fun p => (pc_nodeId (rn_Config p), pc_address (rn_Config p),
                 default 0 (rn_PublicKey p !! 0%nat) - 48)) (tb_peers s).

(** In a delegated session, a map in which two peers have exchanged their addresses is
    not applied as given: the entry of one is matched by its new address with the configuration of
    the other, whose key is in use, so that the configuration is skipped; the table is left with
    both peers at the same address and none at the other.  The peers are in the order of the map;
    without a transport the same map is applied. *)
Theorem PeerTable_Apply_swapped_addresses :
  let swapped := [table_peer 2 2 "100.64.0.1"; table_peer 1 1 "100.64.0.2"] in
  let s := (PeerTable_Apply table_unhex table_map table_start).2 in
  let plain := (PeerTable_Apply table_unhex table_map
                  (PeerTable_new None : PeerTable (MagicConnection demo_socket))).2 in
  table_says (PeerTable_Apply table_unhex swapped s).2
  = [(1, lit "100.64.0.2", 1); (2, lit "100.64.0.2", 2)]
  ∧ table_says (PeerTable_Apply table_unhex swapped plain).2
    = [(2, lit "100.64.0.1", 2); (1, lit "100.64.0.2", 1)].
Proof. split; vm_compute; reflexivity. Qed.

Lemma PeerTable_registers_witness :
  ∃ s', PeerTable_Apply table_unhex table_map
          (apply_all table_unhex [[table_peer 1 3 "100.64.0.1"]; []; [table_peer 1 4 "100.64.0.1"]]
             table_start) = (Ok tt, s')
    ∧ table_ok table_unhex s'
    ∧ nm_peers (tb_network s') = map rn_Config (tb_peers s')
    ∧ Forall (fun p => existsb (same_node p) table_map = true) (tb_peers s').
Proof.
  apply (PeerTable_registers table_unhex table_unhex_ok (Some (MagicConnection_new))).
  split; [apply conn_inv_new|reflexivity].
Defined.

Lemma table_start_ok : table_ok table_unhex table_start.
Proof.
  split; [constructor|]. split_and!; [apply conn_inv_new|constructor|reflexivity].
Qed.

Lemma PeerTable_Apply_stable_witness :
  ∃ s', PeerTable_Apply table_unhex table_map table_start = (Ok tt, s')
    ∧ ∀ a, view <$> entry_at (tb_peers s') a
           = (fun c => (c, 0, 0)) <$> config_at table_map a.
Proof.
  apply (PeerTable_Apply_stable table_unhex table_unhex_ok table_map table_start table_start_ok).
  split.
  - constructor.
  - apply (bool_decide_unpack _). vm_compute. exact I.
  - intros x c Hx Hc. apply list_elem_of_In in Hx, Hc.
    destruct Hx as [<-|[<-|[]]], Hc as [<-|[<-|[]]]; intros _ H; reflexivity || discriminate H.
  - intros x c Hx Hc. apply list_elem_of_In in Hx, Hc.
    destruct Hx as [<-|[<-|[]]], Hc as [<-|[<-|[]]]; intros H;
      (split; reflexivity) || (vm_compute in H; discriminate H).
  - intros c Hc. apply list_elem_of_In in Hc. destruct Hc as [<-|[<-|[]]]; vm_compute; discriminate.
Defined.
