(* ===== verification/Underlay.v ===== *)
(** * The network underneath: which one is used, and the workers that look up and connect
    outside the event loop

    ipn/ipnlocal/UnderlaySelection.cpp, UnderlayResolver.cpp, hosted/Recovery.cpp and
    control/client/RetryBackoff.cpp.  A worker thread is a step of its own between the calls of
    its owner: it finishes at any moment with any result, and what it publishes under the lock is
    taken up by a later call.  The clock is an argument of the call that reads it. *)

From S2P Require Import Prelude Net.

(** ** Retry delays *)

Record RetryBackoff := { rb_initialDelay : Z; rb_maximumDelay : Z; rb_nextDelay : Z }.

Definition RetryBackoff_new (initialDelay maximumDelay : Z) : outcome RetryBackoff :=
  if (initialDelay <=? 0) || (maximumDelay <? initialDelay)
  then Throw (InvalidArgument "Retry backoff delays are invalid.")
  else Ok {| rb_initialDelay := initialDelay; rb_maximumDelay := maximumDelay;
             rb_nextDelay := initialDelay |}.

Definition RetryBackoff_NextDelay (b : RetryBackoff) : Z * RetryBackoff :=
  (rb_nextDelay b,
   {| rb_initialDelay := rb_initialDelay b; rb_maximumDelay := rb_maximumDelay b;
      rb_nextDelay := if rb_maximumDelay b - rb_nextDelay b <? rb_nextDelay b
                      then rb_maximumDelay b else rb_nextDelay b * 2 |}).

Definition RetryBackoff_Reset (b : RetryBackoff) : RetryBackoff :=
  {| rb_initialDelay := rb_initialDelay b; rb_maximumDelay := rb_maximumDelay b;
     rb_nextDelay := rb_initialDelay b |}.

(** [m_backoff{std::chrono::seconds(1), std::chrono::seconds(30)}], in milliseconds. *)
Definition worker_backoff : RetryBackoff :=
  {| rb_initialDelay := 1000; rb_maximumDelay := 30000; rb_nextDelay := 1000 |}.

(** A delay in the unit of the clock, nanoseconds. *)
Definition milliseconds (n : Z) : Z := n * 1000000.

(** ** The network in use *)

Record Network := { nw_Interface : option bytes; nw_Addresses : list bytes }.

#[export] Instance Network_eq_dec : EqDecision Network.
Proof. solve_decision. Defined.

Record Snapshot := { sn_Generation : Z; sn_Networks : list Network }.

Record UnderlayChange := { uc_Generation : Z; uc_Network : option Network }.

Definition ReachabilityTimeout : Z := 15 * 1000000000.

Record UnderlaySelection := {
  ul_snapshot : Snapshot;
  ul_selected : Z;
  ul_generation : Z;
  ul_deadline : Z
}.

Definition UnderlaySelection_new : UnderlaySelection := {|
  ul_snapshot := {| sn_Generation := 0; sn_Networks := [] |};
  ul_selected := 0; ul_generation := 0; ul_deadline := 0 |}.

(** The position of the first element that satisfies [f], as [found - begin()]. *)
Fixpoint position {A} (f : A → bool) (l : list A) : option Z :=
  match l with
  | [] => None
  | x :: rest => if f x then Some 0 else (fun i => i + 1) <$> position f rest
  end.

Definition UnderlaySelection_Start (snapshot : Snapshot) (selected : option bytes) (now : Z)
    : eff UnderlaySelection unit :=
  emod (fun s => {|
    ul_snapshot := snapshot;
    ul_selected := default 0 (position (fun n => bool_decide (nw_Interface n = selected))
                                (sn_Networks snapshot));
    ul_generation := u64 (ul_generation s + 1);
    ul_deadline := now + ReachabilityTimeout |}).

(** [m_snapshot.Networks.empty() ? nullopt : m_snapshot.Networks[m_selected]] *)
Definition selected_network (s : UnderlaySelection) : outcome (option Network) :=
  if bool_decide (sn_Networks (ul_snapshot s) = []) then Ok None
  else let! n := rd (sn_Networks (ul_snapshot s)) (ul_selected s) in Ok (Some n).

Definition ul_set snapshot selected s : UnderlaySelection :=
  {| ul_snapshot := snapshot; ul_selected := selected; ul_generation := ul_generation s;
     ul_deadline := ul_deadline s |}.
Definition ul_set_deadline deadline s : UnderlaySelection :=
  {| ul_snapshot := ul_snapshot s; ul_selected := ul_selected s; ul_generation := ul_generation s;
     ul_deadline := deadline |}.
Definition ul_set_generation generation s : UnderlaySelection :=
  {| ul_snapshot := ul_snapshot s; ul_selected := ul_selected s; ul_generation := generation;
     ul_deadline := ul_deadline s |}.

(** The end of [Poll]: a change is reported. *)
Definition report_change (now : Z) : eff UnderlaySelection (option UnderlayChange) :=
  emod (ul_set_deadline (now + ReachabilityTimeout)) ;;*
  emod (fun s => ul_set_generation (u64 (ul_generation s + 1)) s) ;;*
  let* s := eget in
  let* network := elift (selected_network s) in
  eret (Some {| uc_Generation := ul_generation s; uc_Network := network |}).

Definition UnderlaySelection_Poll (snapshot : Snapshot) (ready : bool) (now : Z)
    : eff UnderlaySelection (option UnderlayChange) :=
  let* s := eget in
  if negb (bool_decide (sn_Networks snapshot = sn_Networks (ul_snapshot s))) then
    let* previous := elift (selected_network s) in
    emod (ul_set snapshot 0) ;;*
    match previous with
    | None => report_change now
    | Some network =>
        match position (fun n => bool_decide (n = network)) (sn_Networks snapshot) with
        | None => report_change now
        | Some i =>
            emod (ul_set snapshot i) ;;*
            if ready then eret None else report_change now
        end
    end
  else if ready then
    emod (ul_set_deadline (now + ReachabilityTimeout)) ;;* eret None
  else if (now <? ul_deadline s) || bool_decide (sn_Networks (ul_snapshot s) = []) then eret None
  else
    emod (fun s => ul_set (ul_snapshot s)
                     ((ul_selected s + 1) mod zlen (sn_Networks (ul_snapshot s))) s) ;;*
    report_change now.

(** ** Properties of the delays *)

(** The delay after [n] failures. *)
Definition delay_after (b : RetryBackoff) (n : nat) : Z :=
  Z.min (rb_maximumDelay b) (rb_initialDelay b * 2 ^ Z.of_nat n).

Fixpoint delays (n : nat) (b : RetryBackoff) : list Z :=
  match n with
  | O => []
  | S n' => let '(d, b') := RetryBackoff_NextDelay b in d :: delays n' b'
  end.

Lemma delays_spec n k b :
  0 < rb_initialDelay b <= rb_maximumDelay b → rb_nextDelay b = delay_after b k →
  delays n b = map (delay_after b) (seq k n).
Proof.
  revert k b. induction n as [|n IH]; intros k b Hb Hn; [done|]. simpl. f_equal; [done|].
  assert (0 < rb_initialDelay b * 2 ^ Z.of_nat k) by (apply Z.mul_pos_pos; [lia|apply Z.pow_pos_nonneg; lia]).
  rewrite (IH (S k)).
  - apply map_ext. done.
  - done.
  - simpl. unfold delay_after in *. simpl. rewrite Nat2Z.inj_succ, Z.pow_succ_r by lia.
    rewrite Hn. destruct (Z.ltb_spec (rb_maximumDelay b - Z.min (rb_maximumDelay b) (rb_initialDelay b * 2 ^ Z.of_nat k))
      (Z.min (rb_maximumDelay b) (rb_initialDelay b * 2 ^ Z.of_nat k))); lia.
Qed.

(** The delays between attempts double from the initial one up to the maximum and stay
    there, without overflow, and start over when the backoff is reset. *)
Theorem RetryBackoff_doubles initial maximum b n :
  RetryBackoff_new initial maximum = Ok b →
  delays n b = map (fun k => Z.min maximum (initial * 2 ^ Z.of_nat k)) (seq 0 n)
  ∧ Forall (fun d => initial <= d <= maximum) (delays n b)
  ∧ ∀ b', rb_initialDelay b' = initial → rb_maximumDelay b' = maximum → RetryBackoff_Reset b' = b.
Proof.
  unfold RetryBackoff_new. ifb; [done|]. intros [= <-]. b2p. destruct E as [E1 E2].
  rewrite (delays_spec n 0); simpl; [|lia|unfold delay_after; simpl; lia].
  split_and!; [done| |].
  - apply Forall_forall. intros d (k & -> & _)%list_elem_of_fmap. unfold delay_after. simpl.
    assert (1 <= 2 ^ Z.of_nat k) by (apply (Z.pow_le_mono_r 2 0); lia). nia.
  - intros b' <- <-. done.
Qed.

(** ** Properties of the selection *)

(** The selected index is that of a network, if there is one. *)
Definition selection_ok (s : UnderlaySelection) : Prop :=
  match sn_Networks (ul_snapshot s) with
  | [] => True
  | nets => 0 <= ul_selected s < zlen nets
  end.

Definition current (s : UnderlaySelection) : option Network :=
  if bool_decide (sn_Networks (ul_snapshot s) = []) then None
  else sn_Networks (ul_snapshot s) !! Z.to_nat (ul_selected s).

Lemma position_Some {A} (f : A → bool) l i :
  position f l = Some i → 0 <= i < zlen l ∧ ∃ x, l !! Z.to_nat i = Some x ∧ f x = true.
Proof.
  revert i. induction l as [|y l IH]; intros i; simpl; [done|]. destruct (f y) eqn:Ef.
  - intros [= <-]. split; [zlia|]. by exists y.
  - intros (j & Hj & ->)%fmap_Some. apply IH in Hj as (Hj & x & Hx & Hf). split; [zlia|].
    exists x. replace (Z.to_nat (j + 1)) with (S (Z.to_nat j)) by lia. done.
Qed.

Lemma position_None {A} (f : A → bool) l x : position f l = None → x ∈ l → f x = false.
Proof.
  induction l as [|y l IH]; simpl; [by intros _ ?%elem_of_nil|].
  destruct (f y) eqn:Ef; [done|]. intros Hn%fmap_None Hx.
  apply elem_of_cons in Hx as [->|Hx]; [done|]. by apply IH.
Qed.

Lemma selected_network_ok s : selection_ok s → selected_network s = Ok (current s).
Proof.
  unfold selection_ok, selected_network, current. intros Hs.
  destruct (sn_Networks (ul_snapshot s)) as [|n nets]; [done|].
  rewrite !bool_decide_false by done.
  destruct (rd_Ok _ _ Hs) as [x Hx]. rewrite Hx. apply rd_lookup in Hx as [_ ->]. done.
Qed.

Lemma current_elem s n : current s = Some n → n ∈ sn_Networks (ul_snapshot s).
Proof. unfold current. case_bool_decide; [done|]. apply list_elem_of_lookup_2. Qed.

(** What [Poll] does, with the report it makes. *)
Definition polled (s : UnderlaySelection) (snapshot : Snapshot) (ready : bool) (now : Z)
    (r : outcome (option UnderlayChange)) (s' : UnderlaySelection) : Prop :=
  selection_ok s'
  ∧ sn_Networks (ul_snapshot s') = sn_Networks snapshot
  ∧ match r with
    | Ok None => ul_generation s' = ul_generation s
    | Ok (Some change) =>
        ready = false ∨ (∀ n, current s = Some n → n ∉ sn_Networks snapshot)
    | _ => False
    end
  ∧ (∀ change, r = Ok (Some change) →
       uc_Generation change = u64 (ul_generation s + 1)
       ∧ ul_generation s' = u64 (ul_generation s + 1)
       ∧ uc_Network change = current s')
  ∧ (r = Ok None → ready = true → current s' = current s).

Lemma wp_report_change now s Q :
  selection_ok s →
  Q (Ok (Some {| uc_Generation := u64 (ul_generation s + 1); uc_Network := current s |}))
    (ul_set_generation (u64 (ul_generation s + 1)) (ul_set_deadline (now + ReachabilityTimeout) s)) →
  wp (report_change now) Q s.
Proof.
  intros Hs HQ. unfold report_change. wp_auto. rewrite selected_network_ok by done. wp_auto. exact HQ.
Qed.

Lemma Poll_spec s snapshot ready now :
  selection_ok s → wp (UnderlaySelection_Poll snapshot ready now) (polled s snapshot ready now) s.
Proof.
  intros Hs. unfold UnderlaySelection_Poll. wp_auto.
  assert (∀ s1, selection_ok s1 → sn_Networks (ul_snapshot s1) = sn_Networks snapshot →
    ul_generation s1 = ul_generation s →
    (ready = false ∨ ∀ n, current s = Some n → n ∉ sn_Networks snapshot) →
    wp (report_change now) (polled s snapshot ready now) s1) as Hreport.
  { intros s1 H1 Hn Hg Hwhy. apply wp_report_change; [done|]. rewrite Hg.
    split_and!; [done|done|done| |done]. by intros change [= <-]. }
  case_bool_decide as Hsame; simpl.
  - destruct ready.
    { wp_auto. split_and!; done. }
    destruct ((now <? ul_deadline s) || bool_decide (sn_Networks (ul_snapshot s) = [])) eqn:E.
    { wp_auto. split_and!; done. }
    apply orb_false_iff in E as [_ E]. apply bool_decide_eq_false in E.
    wp_auto. apply Hreport; [|done..|by left]. unfold selection_ok. simpl.
    destruct (sn_Networks (ul_snapshot s)) as [|n nets]; [done|].
    apply Z.mod_pos_bound. zlia.
  - rewrite selected_network_ok by done. wp_auto.
    assert (∀ i, (i = 0 ∨ 0 <= i < zlen (sn_Networks snapshot)) → selection_ok (ul_set snapshot i s)) as Hset.
    { intros i Hi. unfold selection_ok. simpl. destruct (sn_Networks snapshot) as [|n nets] eqn:En; [done|].
      destruct Hi as [->|Hi]; [zlia|done]. }
    destruct (current s) as [network|] eqn:Ec.
    2:{ apply Hreport; [apply Hset; by left|done|done|by right]. }
    destruct (position _ _) as [i|] eqn:Ei.
    + apply position_Some in Ei as (Hi & x & Hx & Hf). apply bool_decide_eq_true in Hf as ->.
      wp_auto. destruct ready; [|apply Hreport; [apply Hset; by right|done|done|by left]].
      wp_auto. split_and!; [apply Hset; by right|done|done|done|]. intros _ _.
      rewrite Ec. unfold current. simpl. rewrite bool_decide_false; [done|]. intros Hnil. by rewrite Hnil in Hx.
    + apply Hreport; [apply Hset; by left|done|done|]. right. intros n [= <-] Hin.
      pose proof (position_None _ _ _ Ei Hin) as Hf. simpl in Hf. by rewrite bool_decide_true in Hf.
Qed.

(** ** Sequences of calls *)

Inductive underlay_call :=
  | Underlay_Start (snapshot : Snapshot) (selected : option bytes) (now : Z)
  | Underlay_Poll (snapshot : Snapshot) (ready : bool) (now : Z).

Definition underlay_step (s : UnderlaySelection) (c : underlay_call) : UnderlaySelection :=
  match c with
  | Underlay_Start snapshot selected now => (UnderlaySelection_Start snapshot selected now s).2
  | Underlay_Poll snapshot ready now => (UnderlaySelection_Poll snapshot ready now s).2
  end.

Lemma underlay_reachable_ok calls : selection_ok (foldl underlay_step UnderlaySelection_new calls).
Proof.
  induction calls as [|c calls IH] using rev_ind; [done|]. rewrite foldl_app. simpl.
  set (s := foldl _ _ calls) in *. destruct c; simpl.
  - unfold selection_ok. simpl. destruct (position _ _) as [i|] eqn:Ei; simpl.
    + apply position_Some in Ei as [Hi _]. by destruct (sn_Networks snapshot).
    + destruct (sn_Networks snapshot); [done|zlia].
  - by destruct (Poll_spec s snapshot ready now IH) as [? _].
Qed.

(** However the networks of the host change, a poll of the underlay never reads
    outside the list, and reports a change only when the transport is not ready or the network in
    use is gone; the report has the next generation and the network that is selected from then on,
    one of those present, none only if there is none.  While the transport is ready and its network
    is still present, other networks that come and go change nothing. *)
Theorem UnderlaySelection_reports calls snapshot ready now :
  let s := foldl underlay_step UnderlaySelection_new calls in
  ∃ r s', UnderlaySelection_Poll snapshot ready now s = (Ok r, s')
    ∧ match r with
      | None => ul_generation s' = ul_generation s
                ∧ (ready = true → current s' = current s)
      | Some change =>
          (ready = false ∨ ∀ n, current s = Some n → n ∉ sn_Networks snapshot)
          ∧ uc_Generation change = u64 (ul_generation s + 1)
          ∧ uc_Network change = current s'
          ∧ match uc_Network change with
            | Some n => n ∈ sn_Networks snapshot
            | None => sn_Networks snapshot = []
            end
      end.
Proof.
  intros s. pose proof (underlay_reachable_ok calls) as Hs. fold s in Hs.
  destruct (Poll_spec s snapshot ready now Hs) as (Hok & Hn & Hr & Hch & Hkeep).
  destruct (UnderlaySelection_Poll snapshot ready now s) as [r s']. simpl in *.
  destruct r as [[change|]|e|]; try done; eexists _, s'; (split; [done|]).
  - destruct (Hch change eq_refl) as (Hg & _ & Hc). split_and!; [done..|]. rewrite Hc, <- Hn.
    destruct (current s') as [n|] eqn:Ec; [by apply current_elem|].
    unfold current in Ec. unfold selection_ok in Hok.
    destruct (sn_Networks (ul_snapshot s')) as [|n nets]; [done|].
    rewrite bool_decide_false in Ec by done. apply lookup_ge_None in Ec. unfold zlen in Hok. lia.
  - split; [done|auto].
Qed.

(** Polls of a transport that is not ready, at the given times. *)
Fixpoint failing_polls (snapshot : Snapshot) (times : list Z)
    : eff UnderlaySelection (list (option UnderlayChange)) :=
  match times with
  | [] => eret []
  | now :: rest =>
      let* r := UnderlaySelection_Poll snapshot false now in
      let* rs := failing_polls snapshot rest in
      eret (r :: rs)
  end.

(** Each poll is no earlier than the deadline that the one before has set. *)
Fixpoint apart (deadline : Z) (times : list Z) : Prop :=
  match times with
  | [] => True
  | now :: rest => deadline <= now ∧ apart (now + ReachabilityTimeout) rest
  end.

(** The networks reported, after the one at [selected]. *)
Definition rotation (nets : list Network) (selected : Z) (n : nat) : list (option Network) :=
  map (fun k => nets !! Z.to_nat ((selected + Z.of_nat k) mod zlen nets)) (seq 1 n).

Lemma failing_polls_spec snapshot times s :
  selection_ok s → sn_Networks (ul_snapshot s) = sn_Networks snapshot →
  sn_Networks snapshot ≠ [] → apart (ul_deadline s) times →
  wp (failing_polls snapshot times) (fun r s' => ∃ changes, r = Ok (map Some changes)
    ∧ map uc_Network changes
      = rotation (sn_Networks snapshot) (ul_selected s) (length times)) s.
Proof.
  set (nets := sn_Networks snapshot). intros Hs Hnets Hne. revert s Hs Hnets.
  induction times as [|now times IH]; intros s Hs Hnets Hap; simpl.
  { wp_auto. by exists []. }
  destruct Hap as [Hnow Hap].
  assert (0 < zlen nets) as Hlen by (unfold nets in *; destruct (sn_Networks snapshot); [done|zlia]).
  apply wp_bind. unfold UnderlaySelection_Poll. wp_auto. fold nets.
  rewrite bool_decide_true by done. simpl.
  rewrite (proj2 (Z.ltb_ge _ _) Hnow), Hnets, bool_decide_false by done. simpl. wp_auto.
  set (s1 := ul_set _ _ s).
  assert (0 <= (ul_selected s + 1) mod zlen nets < zlen nets) as Hmod by (apply Z.mod_pos_bound; lia).
  assert (ul_selected s1 = (ul_selected s + 1) mod zlen nets) as Hsel by (unfold s1; simpl; by rewrite Hnets).
  assert (selection_ok s1) as Hs1.
  { unfold selection_ok. rewrite Hsel. unfold s1. simpl. rewrite Hnets. by destruct nets. }
  apply wp_report_change; [done|]. apply wp_bind. eapply wp_mono.
  { apply IH; [done|by unfold s1|exact Hap]. }
  intros r s' (changes & -> & Hchanges). wp_auto. eexists (_ :: changes). split; [reflexivity|].
  cbn [map]. unfold rotation in *. cbn [uc_Network length seq map]. f_equal.
  - unfold current. rewrite Hsel. unfold s1. simpl. rewrite Hnets, bool_decide_false by done. done.
  - rewrite Hchanges. cbn [ul_selected ul_set_generation ul_set_deadline]. rewrite Hsel.
    rewrite <- (seq_shift (length times) 1), map_map. apply map_ext. intros k. do 2 f_equal.
    rewrite Zplus_mod_idemp_l. f_equal. lia.
Qed.

(** A network whose transport never becomes ready cannot keep the others out: polls that
    are a timeout apart report the networks in turn, from the one after the selected one and
    around, so that as many polls as there are networks report every one of them. *)
Theorem UnderlaySelection_fair calls snapshot times :
  let s := foldl underlay_step UnderlaySelection_new calls in
  sn_Networks (ul_snapshot s) = sn_Networks snapshot → sn_Networks snapshot ≠ [] →
  apart (ul_deadline s) times → zlen (sn_Networks snapshot) <= zlen times →
  ∃ changes s', failing_polls snapshot times s = (Ok (map Some changes), s')
    ∧ map uc_Network changes = rotation (sn_Networks snapshot) (ul_selected s) (length times)
    ∧ ∀ n, n ∈ sn_Networks snapshot → Some n ∈ map uc_Network changes.
Proof.
  intros s Hnets Hne Hap Hlen. pose proof (underlay_reachable_ok calls) as Hs. fold s in Hs.
  destruct (failing_polls_spec snapshot times s Hs Hnets Hne Hap) as (changes & Hr & Hrot).
  destruct (failing_polls snapshot times s) as [r s']. simpl in Hr. subst r.
  exists changes, s'. split_and!; [done..|]. intros n Hn. rewrite Hrot.
  apply list_elem_of_lookup in Hn as [j Hj]. pose proof (lookup_lt_Some _ _ _ Hj) as Hjl.
  set (nets := sn_Networks snapshot) in *.
  assert (0 < zlen nets) as Hpos by (unfold zlen; lia).
  set (k := (Z.of_nat j - ul_selected s - 1) mod zlen nets).
  assert (0 <= k < zlen nets) as Hk by (apply Z.mod_pos_bound; lia).
  unfold rotation. apply list_elem_of_fmap. exists (S (Z.to_nat k)). split.
  - rewrite Nat2Z.inj_succ, Z2Nat.id by lia. unfold k.
    replace (ul_selected s + Z.succ ((Z.of_nat j - ul_selected s - 1) mod zlen nets))
      with (ul_selected s + 1 + (Z.of_nat j - ul_selected s - 1) mod zlen nets) by lia.
    rewrite Zplus_mod_idemp_r.
    replace (ul_selected s + 1 + (Z.of_nat j - ul_selected s - 1)) with (Z.of_nat j) by lia.
    rewrite Z.mod_small by (unfold zlen; lia). by rewrite Nat2Z.id.
  - apply elem_of_seq. unfold zlen in *. lia.
Qed.

(** ** Looking up a name on the network in use *)

Record LookupRequest := { lr_Host : bytes; lr_Port : Z; lr_Interface : option bytes }.

Record LookupCompletion := { lc_Generation : Z; lc_Endpoint : option Endpoint }.

(** A worker that was not joined yet: what it was started with, whether it was asked to stop,
    and whether it has published its completion. *)
Record LookupWorker := {
  lw_Generation : Z;
  lw_Request : LookupRequest;
  lw_Stop : bool;
  lw_Finished : bool
}.

Record UnderlayResolver := {
  ur_backoff : RetryBackoff;
  ur_deadline : option Z;
  ur_pending : option LookupRequest;
  ur_generation : Z;
  ur_completed : option LookupCompletion;
  ur_worker : option LookupWorker
}.

Definition UnderlayResolver_new : UnderlayResolver := {|
  ur_backoff := worker_backoff; ur_deadline := None; ur_pending := None; ur_generation := 0;
  ur_completed := None; ur_worker := None |}.

Definition UnderlayResolver_Cancel : eff UnderlayResolver unit :=
  emod (fun s => {|
    ur_backoff := ur_backoff s; ur_deadline := None; ur_pending := None;
    ur_generation := u64 (ur_generation s + 1); ur_completed := ur_completed s;
    ur_worker := (fun w => {| lw_Generation := lw_Generation w; lw_Request := lw_Request w;
                              lw_Stop := true; lw_Finished := lw_Finished w |}) <$> ur_worker s |}).

Definition UnderlayResolver_Start (request : LookupRequest) (now : Z) : eff UnderlayResolver unit :=
  UnderlayResolver_Cancel ;;*
  emod (fun s => {|
    ur_backoff := RetryBackoff_Reset (ur_backoff s); ur_deadline := Some now;
    ur_pending := Some request; ur_generation := ur_generation s;
    ur_completed := ur_completed s; ur_worker := ur_worker s |}).

(** [m_worker.join()], which throws for a thread that is not joinable. *)
Definition resolver_join : eff UnderlayResolver unit :=
  let* s := eget in
  match ur_worker s with
  | None => ethrow (SystemError "invalid_argument")
  | Some _ =>
      emod (fun s => {|
        ur_backoff := ur_backoff s; ur_deadline := ur_deadline s; ur_pending := ur_pending s;
        ur_generation := ur_generation s; ur_completed := ur_completed s; ur_worker := None |})
  end.

(** The part of [Poll] that takes up a completion. *)
Definition resolver_take (completion : LookupCompletion) (now : Z)
    : eff UnderlayResolver (option Endpoint) :=
  resolver_join ;;*
  let* s := eget in
  if negb (lc_Generation completion =? ur_generation s) then eret None else
  match lc_Endpoint completion with
  | Some e =>
      emod (fun s => {|
        ur_backoff := ur_backoff s; ur_deadline := None; ur_pending := None;
        ur_generation := ur_generation s; ur_completed := ur_completed s;
        ur_worker := ur_worker s |}) ;;*
      eret (Some e)
  | None =>
      emod (fun s =>
        let '(delay, backoff) := RetryBackoff_NextDelay (ur_backoff s) in {|
        ur_backoff := backoff; ur_deadline := Some (now + milliseconds delay); ur_pending := ur_pending s;
        ur_generation := ur_generation s; ur_completed := ur_completed s;
        ur_worker := ur_worker s |}) ;;*
      eret None
  end.

(** The part of [Poll] that starts a worker when a lookup is due. *)
Definition resolver_launch (later : Z) : eff UnderlayResolver unit :=
  let* s := eget in
  match ur_pending s, ur_deadline s, ur_worker s with
  | Some request, Some deadline, None =>
      if deadline <=? later then
        emod (fun s => {|
          ur_backoff := ur_backoff s; ur_deadline := None; ur_pending := ur_pending s;
          ur_generation := ur_generation s; ur_completed := ur_completed s;
          ur_worker := Some {| lw_Generation := ur_generation s; lw_Request := request;
                               lw_Stop := false; lw_Finished := false |} |})
      else eret tt
  | _, _, _ => eret tt
  end.

(** [now] is the time at which a completion is taken up, [later] that at which the deadline is
    checked. *)
Definition UnderlayResolver_Poll (now later : Z) : eff UnderlayResolver (option Endpoint) :=
  let* s := eget in
  let completion := ur_completed s in
  emod (fun s => {|
    ur_backoff := ur_backoff s; ur_deadline := ur_deadline s; ur_pending := ur_pending s;
    ur_generation := ur_generation s; ur_completed := None; ur_worker := ur_worker s |}) ;;*
  let* result := match completion with
                 | Some c => resolver_take c now
                 | None => eret None
                 end in
  resolver_launch later ;;*
  eret result.

(** The body of the worker; [resolved] is what [m_resolver.Resolve] did. *)
Definition UnderlayResolver_worker (resolved : outcome Endpoint) : eff UnderlayResolver unit :=
  emod (fun s =>
    match ur_worker s with
    | Some w =>
        if lw_Finished w then s else {|
          ur_backoff := ur_backoff s; ur_deadline := ur_deadline s; ur_pending := ur_pending s;
          ur_generation := ur_generation s;
          ur_completed := Some {| lc_Generation := lw_Generation w;
                                  lc_Endpoint := match resolved with Ok e => Some e | _ => None end |};
          ur_worker := Some {| lw_Generation := lw_Generation w; lw_Request := lw_Request w;
                               lw_Stop := lw_Stop w; lw_Finished := true |} |}
    | None => s
    end).

(** ** What the owner sees *)

Section resolver.
  (** What a lookup can answer. *)
  Context (answers : LookupRequest → Endpoint → Prop).

Inductive resolver_step : UnderlayResolver → UnderlayResolver → Prop :=
  | Step_Start request now s : resolver_step s (UnderlayResolver_Start request now s).2
  | Step_Cancel s : resolver_step s (UnderlayResolver_Cancel s).2
  | Step_Poll now later s : resolver_step s (UnderlayResolver_Poll now later s).2
  | Step_Worker resolved s :
      (∀ w e, ur_worker s = Some w → resolved = Ok e → answers (lw_Request w) e) →
      resolver_step s (UnderlayResolver_worker resolved s).2.

(** [n] steps from the start. *)
Inductive resolver_reachable : Z → UnderlayResolver → Prop :=
  | Reach_new : resolver_reachable 0 UnderlayResolver_new
  | Reach_step n s s' : resolver_reachable n s → resolver_step s s' → resolver_reachable (n + 1) s'.

Record resolver_inv (n : Z) (s : UnderlayResolver) : Prop := {
  ri_generation : 0 <= ur_generation s <= n;
  ri_worker : ∀ w, ur_worker s = Some w → 0 <= lw_Generation w <= ur_generation s
    ∧ (lw_Generation w = ur_generation s → ur_pending s = Some (lw_Request w) ∧ ur_deadline s = None);
  (** A worker has finished exactly when its completion waits to be taken up. *)
  ri_finished : ∀ w, ur_worker s = Some w → lw_Finished w = true ↔ ur_completed s ≠ None;
  ri_completed : ∀ c, ur_completed s = Some c → ∃ w, ur_worker s = Some w
    ∧ lc_Generation c = lw_Generation w ∧ ∀ e, lc_Endpoint c = Some e → answers (lw_Request w) e;
  (** A request that is pending is either looked up or has a time at which it will be. *)
  ri_pending : ur_pending s ≠ None →
    ur_deadline s ≠ None ∨ ∃ w, ur_worker s = Some w ∧ lw_Generation w = ur_generation s;
  ri_backoff : rb_initialDelay (ur_backoff s) = 1000 ∧ rb_maximumDelay (ur_backoff s) = 30000
    ∧ 1000 <= rb_nextDelay (ur_backoff s) <= 30000
}.

(** What a poll returns and leaves. *)
Definition poll_ok (later : Z) (s : UnderlayResolver) (r : outcome (option Endpoint))
    (s' : UnderlayResolver) : Prop :=
  ∃ result, r = Ok result
    ∧ (∀ e, result = Some e → ur_pending s' = None
         ∧ ∃ request, ur_pending s = Some request ∧ answers request e)
    ∧ (result = None → ur_pending s' = ur_pending s)
    ∧ (∀ w, ur_worker s' = Some w → lw_Finished w = true → False)
    ∧ (ur_pending s' ≠ None →
         (∃ w, ur_worker s' = Some w)
         ∨ ∃ deadline, ur_deadline s' = Some deadline ∧ later < deadline).

Lemma launch_inv n later s :
  resolver_inv n s → ur_completed s = None →
  wp (resolver_launch later) (fun r s' => r = Ok tt ∧ resolver_inv n s'
    ∧ ur_pending s' = ur_pending s ∧ ur_completed s' = None
    ∧ (ur_pending s' ≠ None →
         (∃ w, ur_worker s' = Some w)
         ∨ ∃ deadline, ur_deadline s' = Some deadline ∧ later < deadline)) s.
Proof.
  intros Hs Hc. pose proof Hs as [Hg Hw Hf _ Hp Hb]. unfold resolver_launch. wp_auto.
  destruct (ur_pending s) as [request|] eqn:Ep; [|wp_auto; rewrite Ep; done].
  destruct (ur_deadline s) as [deadline|] eqn:Ed.
  2:{ wp_auto. split_and!; [done..|]. intros _. left. destruct (Hp ltac:(done)) as [?|(w & ? & _)]; [done|].
      by exists w. }
  destruct (ur_worker s) as [w|] eqn:Ew.
  { wp_auto. split_and!; [done..|]. intros _. left. rewrite Ew. by exists w. }
  destruct (Z.leb_spec deadline later); wp_auto; simpl.
  - split_and!; [done| |done|done|by left; eexists].
    split; simpl; try done.
    + intros w [= <-]. simpl. split; [lia|]. intros _. by rewrite Ep.
    + intros w [= <-]. simpl. by rewrite Hc.
    + intros c Hc'. congruence.
    + intros _. right. eexists. split; [done|]. done.
  - split_and!; [done..|]. intros _. right. exists deadline. by rewrite Ed.
Qed.

Lemma NextDelay_range b :
  rb_initialDelay b = 1000 → rb_maximumDelay b = 30000 → 1000 <= rb_nextDelay b <= 30000 →
  let '(d, b') := RetryBackoff_NextDelay b in
  1000 <= d <= 30000 ∧ rb_initialDelay b' = 1000 ∧ rb_maximumDelay b' = 30000
  ∧ 1000 <= rb_nextDelay b' <= 30000.
Proof.
  intros Hi Hm Hn. simpl. split_and!; try done; rewrite ?Hm; try lia; ifb; lia.
Qed.

(** Taking up a completion leaves no worker. *)
Lemma take_inv n c now s w :
  resolver_inv n s → ur_completed s = Some c → ur_worker s = Some w →
  wp (resolver_take c now) (fun r s' => ∃ result, r = Ok result ∧ resolver_inv n s'
    ∧ ur_completed s' = None ∧ ur_worker s' = None
    ∧ (∀ e, result = Some e → ur_pending s' = None
         ∧ ∃ request, ur_pending s = Some request ∧ answers request e)
    ∧ (result = None → ur_pending s' = ur_pending s))
    {| ur_backoff := ur_backoff s; ur_deadline := ur_deadline s; ur_pending := ur_pending s;
       ur_generation := ur_generation s; ur_completed := None; ur_worker := ur_worker s |}.
Proof.
  intros Hs Hcomp Hwork. pose proof Hs as [Hg Hw Hf Hc Hp Hb].
  destruct (Hc c Hcomp) as (w' & Hw' & Hgen & Hans). simplify_eq.
  destruct (Hw w Hwork) as [Hwg Hcur].
  unfold resolver_take, resolver_join. apply wp_bind. wp_auto. simpl. rewrite Hwork. wp_auto.
  cbn [ur_generation]. rewrite Hgen.
  destruct (Z.eqb_spec (lw_Generation w) (ur_generation s)) as [Heq|Hne]; simpl.
  - destruct (Hcur Heq) as [Hpend Hdl].
    destruct (lc_Endpoint c) as [e|] eqn:Ee; wp_auto; simpl; eexists; (split; [done|]).
    + split_and!; [|done|done| |done].
      * split; simpl; done.
      * intros e' [= <-]. split; [done|]. exists (lw_Request w). auto.
    + split_and!; [|done|done|done|done].
      pose proof (NextDelay_range (ur_backoff s)) as Hnd. destruct Hb as (? & ? & ?).
      split; simpl in *; try done; [|naive_solver]. by left.
  - wp_auto. eexists. split; [done|]. split_and!; [|done|done|done|done].
    split; simpl; try done. intros Hpn. destruct (Hp Hpn) as [?|(w1 & ? & ?)]; [by left|].
    exfalso. simplify_eq.
Qed.

Lemma Poll_inv n now later s :
  resolver_inv n s →
  wp (UnderlayResolver_Poll now later) (fun r s' => poll_ok later s r s' ∧ resolver_inv n s') s.
Proof.
  intros Hs. pose proof Hs as [Hg Hw Hf Hc Hp Hb]. unfold UnderlayResolver_Poll. wp_auto. apply wp_bind.
  destruct (ur_completed s) as [c|] eqn:Ec.
  - destruct (Hc c eq_refl) as (w & Ew & _).
    eapply wp_mono; [by eapply take_inv|].
    intros r s1 (result & -> & Hs1 & Hc1 & Hw1 & Hsome & Hnone). apply wp_bind.
    eapply wp_mono; [by apply launch_inv|]. intros r s2 (-> & Hs2 & Hp2 & Hc2 & Hlive). wp_auto.
    split; [|done]. exists result. split_and!; [done| | | |done].
    + intros e He. rewrite Hp2. by apply Hsome.
    + intros He. rewrite Hp2. by apply Hnone.
    + intros w' Hw' Hfin. by apply (ri_finished _ _ Hs2 w' Hw') in Hfin.
  - wp_auto. set (s1 := {| ur_backoff := _ |}).
    assert (s1 = s) as -> by (unfold s1; destruct s; simpl in *; by subst). apply wp_bind.
    eapply wp_mono; [by apply launch_inv|]. intros r s2 (-> & Hs2 & Hp2 & Hc2 & Hlive). wp_auto.
    split; [|done]. exists None. split_and!; [done|done|done| |done].
    intros w' Hw' Hfin. by apply (ri_finished _ _ Hs2 w' Hw') in Hfin.
Qed.

Lemma resolver_inv_step n s s' :
  n < 2 ^ 64 - 1 → resolver_inv n s → resolver_step s s' → resolver_inv (n + 1) s'.
Proof.
  intros Hn Hs Hstep.
  assert (∀ s, resolver_inv n s → resolver_inv (n + 1) s) as Hweak.
  { intros t [Hg ?????]. split; try done. lia. }
  assert (∀ s, resolver_inv n s → resolver_inv (n + 1) (UnderlayResolver_Cancel s).2) as Hcancel.
  { clear s s' Hs Hstep. intros s [Hg Hw Hf Hc Hp Hb]. simpl.
    assert (u64 (ur_generation s + 1) = ur_generation s + 1) as Hu by (apply wrap_id; unfold in_width; lia).
    split; simpl; rewrite ?Hu; try done; try lia.
    - intros w' (w & Hw' & ->)%fmap_Some. destruct (Hw w Hw') as [? _]. simpl. split; [lia|]. lia.
    - intros w' (w & Hw' & ->)%fmap_Some. simpl. by apply Hf.
    - intros c (w & Hw' & Hgen & Hans)%Hc. eexists. rewrite Hw'. split; [done|]. done. }
  destruct Hstep as [request now s|s|now later s|resolved s Hans].
  - destruct (Hcancel s Hs) as [Hg Hw Hf Hc Hp Hb].
    simpl in *. split; simpl; try done.
    + intros w Hw'. split; [by apply Hw|]. intros Heq.
      exfalso. apply fmap_Some in Hw' as (w0 & Hw0 & ->). simpl in Heq.
      destruct (ri_worker _ _ Hs w0 Hw0) as [Hr _].
      rewrite wrap_id in Heq; [lia|]. pose proof (ri_generation _ _ Hs). unfold in_width. lia.
    + by left.
    + destruct Hb as (Hi & Hm & _). rewrite Hi, Hm. lia.
  - by apply Hcancel.
  - apply Hweak. by apply (Poll_inv n now later s Hs).
  - apply Hweak. simpl. destruct (ur_worker s) as [w|] eqn:Ew; [|done].
    destruct (lw_Finished w) eqn:Ef; [done|]. destruct Hs as [Hg Hw Hf Hc Hp Hb].
    split; simpl; try done.
    + intros w' [= <-]. simpl. by apply Hw.
    + intros w' [= <-]. done.
    + intros c [= <-]. eexists. split; [done|]. simpl. split; [done|].
      intros e He. destruct resolved as [e'|?|]; simplify_eq. by apply (Hans w e).
    + intros Hpn. destruct (Hp Hpn) as [?|(w1 & Hw1 & Hgen)]; [by left|]. right. simplify_eq. eauto.
Qed.

(** Whatever the order in which lookups finish, are started and are cancelled, polling the
    resolver returns, joins at most the worker that has finished, and reports an endpoint only if
    it answers the request that is pending: the result of a lookup for an earlier request or network
    is dropped.  A request stays pending until it is answered, and after a poll either a worker is
    running or the next attempt is in the future: it is never forgotten. *)
Theorem UnderlayResolver_current n s now later :
  resolver_reachable n s → n < 2 ^ 64 →
  ∃ result s', UnderlayResolver_Poll now later s = (Ok result, s') ∧ poll_ok later s (Ok result) s'.
Proof.
  intros Hr Hn. assert (resolver_inv n s) as Hs.
  { induction Hr as [|n s s' Hr IH Hstep].
    - split; simpl; try done.
    - apply (resolver_inv_step n s); [lia|apply IH; lia|done]. }
  destruct (Poll_inv n now later s Hs) as [(result & Hres & Hpoll) _].
  destruct (UnderlayResolver_Poll now later s) as [r s']. simpl in *. subst r.
  exists result, s'. split; [done|]. by exists result.
Qed.

End resolver.

(** ** Recovering the connection to the relay (hosted/Recovery.cpp) *)

Section recovery.
  (** The options that recovery passes on, and connections. *)
  Context {X C : Type}.

Record HostedOptions := {
  ho_ConnectAddress : bytes;
  ho_Service : bytes;
  ho_NetworkInterface : option bytes;
  ho_TlsServerName : option bytes;
  ho_AllowTls13 : bool;
  ho_Rest : X
}.

Record RecoveryCompletion := { rc_Generation : Z; rc_Connection : option C }.

Record RecoveryWorker := {
  rw_Generation : Z;
  rw_Options : HostedOptions;
  rw_Stop : bool;
  rw_Finished : bool
}.

Record HostedRecovery := {
  hr_options : option HostedOptions;
  hr_deadline : option Z;
  hr_backoff : RetryBackoff;
  hr_generation : Z;
  hr_completion : option RecoveryCompletion;
  hr_worker : option RecoveryWorker
}.

Definition HostedRecovery_new : HostedRecovery := {|
  hr_options := None; hr_deadline := None; hr_backoff := worker_backoff; hr_generation := 0;
  hr_completion := None; hr_worker := None |}.

Definition hr_set_schedule deadline backoff s : HostedRecovery := {|
  hr_options := hr_options s; hr_deadline := deadline; hr_backoff := backoff;
  hr_generation := hr_generation s; hr_completion := hr_completion s; hr_worker := hr_worker s |}.
Definition hr_set_options options s : HostedRecovery := {|
  hr_options := options; hr_deadline := hr_deadline s; hr_backoff := hr_backoff s;
  hr_generation := hr_generation s; hr_completion := hr_completion s; hr_worker := hr_worker s |}.
Definition hr_set_work completion worker s : HostedRecovery := {|
  hr_options := hr_options s; hr_deadline := hr_deadline s; hr_backoff := hr_backoff s;
  hr_generation := hr_generation s; hr_completion := completion; hr_worker := worker |}.

Definition Recovery_Cancel : eff HostedRecovery unit :=
  emod (fun s => {|
    hr_options := hr_options s; hr_deadline := None; hr_backoff := hr_backoff s;
    hr_generation := u64 (hr_generation s + 1);
    hr_completion := (fun c => {| rc_Generation := rc_Generation c; rc_Connection := None |})
                     <$> hr_completion s;
    hr_worker := (fun w => {| rw_Generation := rw_Generation w; rw_Options := rw_Options w;
                              rw_Stop := true; rw_Finished := rw_Finished w |}) <$> hr_worker s |}).

(** The worker that [Reset] joins may still publish a completion, which is dropped. *)
Definition Recovery_Reset : eff HostedRecovery unit :=
  Recovery_Cancel ;;*
  emod (hr_set_work None None) ;;*
  emod (hr_set_options None) ;;*
  emod (fun s => hr_set_schedule (hr_deadline s) (RetryBackoff_Reset (hr_backoff s)) s).

Definition Recovery_Configure (options : HostedOptions) : eff HostedRecovery unit :=
  Recovery_Cancel ;;*
  emod (hr_set_options (Some options)) ;;*
  emod (fun s => hr_set_schedule (hr_deadline s) (RetryBackoff_Reset (hr_backoff s)) s).

Definition Recovery_Failed (now : Z) : eff HostedRecovery unit :=
  emod (fun s =>
    match hr_options s, hr_deadline s with
    | Some _, None =>
        let '(delay, backoff) := RetryBackoff_NextDelay (hr_backoff s) in
        hr_set_schedule (Some (now + milliseconds delay)) backoff s
    | _, _ => s
    end).

Definition Recovery_ChangeNetwork (networkInterface : bytes) (now : Z) : eff HostedRecovery unit :=
  let* s := eget in
  match hr_options s with
  | None => eret tt
  | Some options =>
      Recovery_Cancel ;;*
      emod (hr_set_options (Some {|
        ho_ConnectAddress := ho_ConnectAddress options; ho_Service := ho_Service options;
        ho_NetworkInterface := Some networkInterface; ho_TlsServerName := ho_TlsServerName options;
        ho_AllowTls13 := ho_AllowTls13 options; ho_Rest := ho_Rest options |})) ;;*
      emod (fun s => hr_set_schedule (Some now) (hr_backoff s) s)
  end.

(** [m_worker.join()] *)
Definition recovery_join : eff HostedRecovery unit :=
  let* s := eget in
  match hr_worker s with
  | None => ethrow (SystemError "invalid_argument")
  | Some _ => emod (fun s => hr_set_work (hr_completion s) None s)
  end.

(** The part of [Poll] that takes up a completion: a connection to return, if there is one. *)
Definition recovery_take (completed : RecoveryCompletion) (now : Z)
    : eff HostedRecovery (option C) :=
  recovery_join ;;*
  let* s := eget in
  if negb (rc_Generation completed =? hr_generation s) then eret None else
  match rc_Connection completed with
  | Some connection =>
      emod (fun s => hr_set_schedule None (RetryBackoff_Reset (hr_backoff s)) s) ;;*
      eret (Some connection)
  | None =>
      emod (fun s => hr_set_schedule None (hr_backoff s) s) ;;*
      Recovery_Failed now ;;*
      eret None
  end.

(** The part of [Poll] that starts a worker when an attempt is due. *)
Definition recovery_launch (later : Z) : eff HostedRecovery unit :=
  let* s := eget in
  match hr_options s, hr_deadline s, hr_worker s with
  | Some options, Some deadline, None =>
      if later <? deadline then eret tt else
      emod (fun s => hr_set_schedule None (hr_backoff s) s) ;;*
      emod (fun s => hr_set_work (hr_completion s)
              (Some {| rw_Generation := hr_generation s; rw_Options := options; rw_Stop := false;
                       rw_Finished := false |}) s)
  | _, _, _ => eret tt
  end.

Definition Recovery_Poll (now later : Z) : eff HostedRecovery (option C) :=
  let* s := eget in
  let completed := hr_completion s in
  emod (fun s => hr_set_work None (hr_worker s) s) ;;*
  let* result := match completed with
                 | Some c => recovery_take c now
                 | None => eret None
                 end in
  match result with
  | Some connection => eret (Some connection)
  | None => recovery_launch later ;;* eret None
  end.

Definition Recovery_Deadline (s : HostedRecovery) : option Z :=
  match hr_worker s with Some _ => None | None => hr_deadline s end.

(** What the worker does: [lookup] is the resolution of a name that is not an address, and
    [connect] opens the connection. *)
Definition recovery_bootstrap (lookup : bytes → option bytes → bool → outcome (bytes * bytes))
    (connect : HostedOptions → outcome C) (options : HostedOptions) : outcome C :=
  let host := default (ho_ConnectAddress options) (ho_TlsServerName options) in
  let! (host, address) :=
    match Ipv4Address_TryParse host with
    | Some _ => Ok (host, host)
    | None => lookup host (ho_NetworkInterface options) (ho_AllowTls13 options)
    end in
  connect {| ho_ConnectAddress := address; ho_Service := ho_Service options;
             ho_NetworkInterface := ho_NetworkInterface options; ho_TlsServerName := Some host;
             ho_AllowTls13 := ho_AllowTls13 options; ho_Rest := ho_Rest options |}.

(** The end of the worker, under the lock. *)
Definition Recovery_worker (established : outcome C) : eff HostedRecovery unit :=
  emod (fun s =>
    match hr_worker s with
    | Some w =>
        if rw_Finished w then s else
        hr_set_work
          (Some {| rc_Generation := rw_Generation w;
                   rc_Connection := match established with
                                    | Ok c => if rw_Stop w then None else Some c
                                    | _ => None
                                    end |})
          (Some {| rw_Generation := rw_Generation w; rw_Options := rw_Options w;
                   rw_Stop := rw_Stop w; rw_Finished := true |}) s
    | None => s
    end).

End recovery.
Arguments HostedOptions X : clear implicits.
Arguments HostedRecovery X C : clear implicits.

Section recovery_runs.
  Context {X C : Type}.
  (** What opening a connection can give. *)
  Context (opened : HostedOptions X → C → Prop).

(** A connection that was opened with the options, to an address found for the relay. *)
Definition opened_for (options : HostedOptions X) (connection : C) : Prop :=
  ∃ host address, opened {|
    ho_ConnectAddress := address; ho_Service := ho_Service options;
    ho_NetworkInterface := ho_NetworkInterface options; ho_TlsServerName := Some host;
    ho_AllowTls13 := ho_AllowTls13 options; ho_Rest := ho_Rest options |} connection.

Inductive recovery_step : HostedRecovery X C → HostedRecovery X C → Prop :=
  | RStep_Configure options s : recovery_step s (Recovery_Configure options s).2
  | RStep_Reset s : recovery_step s (Recovery_Reset s).2
  | RStep_Cancel s : recovery_step s (Recovery_Cancel s).2
  | RStep_Failed now s : recovery_step s (Recovery_Failed now s).2
  | RStep_ChangeNetwork networkInterface now s :
      recovery_step s (Recovery_ChangeNetwork networkInterface now s).2
  | RStep_Poll now later s : recovery_step s (Recovery_Poll now later s).2
  | RStep_Worker lookup connect w s :
      hr_worker s = Some w → (∀ o c, connect o = Ok c → opened o c) →
      recovery_step s (Recovery_worker (recovery_bootstrap lookup connect (rw_Options w)) s).2.

Inductive recovery_reachable : Z → HostedRecovery X C → Prop :=
  | RReach_new : recovery_reachable 0 HostedRecovery_new
  | RReach_step n s s' : recovery_reachable n s → recovery_step s s' → recovery_reachable (n + 1) s'.

Record recovery_inv (n : Z) (s : HostedRecovery X C) : Prop := {
  gi_generation : 0 <= hr_generation s <= n;
  gi_worker : ∀ w, hr_worker s = Some w → 0 <= rw_Generation w <= hr_generation s
    ∧ (rw_Generation w = hr_generation s → hr_options s = Some (rw_Options w));
  gi_finished : ∀ w, hr_worker s = Some w → rw_Finished w = true ↔ hr_completion s ≠ None;
  gi_completion : ∀ c, hr_completion s = Some c → ∃ w, hr_worker s = Some w
    ∧ rc_Generation c = rw_Generation w
    ∧ ∀ connection, rc_Connection c = Some connection → opened_for (rw_Options w) connection;
  gi_deadline : hr_deadline s ≠ None → hr_options s ≠ None;
  gi_backoff : rb_initialDelay (hr_backoff s) = 1000 ∧ rb_maximumDelay (hr_backoff s) = 30000
    ∧ 1000 <= rb_nextDelay (hr_backoff s) <= 30000
}.

Lemma bootstrap_opened lookup connect options connection :
  (∀ o c, connect o = Ok c → opened o c) →
  recovery_bootstrap lookup connect options = Ok connection → opened_for options connection.
Proof.
  intros Hc. unfold recovery_bootstrap. intros ([host address] & _ & H)%obind_Ok_inv.
  exists host, address. by apply Hc.
Qed.

Lemma Cancel_inv n s :
  n < 2 ^ 64 - 1 → recovery_inv n s → recovery_inv (n + 1) (Recovery_Cancel s).2
  ∧ ∀ w, hr_worker (Recovery_Cancel s).2 = Some w →
      rw_Generation w ≠ hr_generation (Recovery_Cancel s).2.
Proof.
  intros Hn [Hg Hw Hf Hc Hd Hb]. simpl.
  assert (u64 (hr_generation s + 1) = hr_generation s + 1) as Hu by (apply wrap_id; unfold in_width; lia).
  assert (∀ w', (fun w => {| rw_Generation := rw_Generation w; rw_Options := rw_Options w;
    rw_Stop := true; rw_Finished := rw_Finished w |}) <$> hr_worker s = Some w' →
    0 <= rw_Generation w' <= hr_generation s) as Hold.
  { intros w' (w & Hw' & ->)%fmap_Some. by destruct (Hw w Hw'). }
  split; [|intros w Hw'; rewrite Hu; specialize (Hold w Hw'); lia].
  split; simpl; rewrite ?Hu; try done; try lia.
  - intros w Hw'. specialize (Hold w Hw'). split; [lia|]. lia.
  - intros w' (w & Hw' & ->)%fmap_Some. simpl. rewrite (Hf w Hw'). by destruct (hr_completion s).
  - intros c' (c & Hc' & ->)%fmap_Some. destruct (Hc c Hc') as (w & Hw' & Hgen & _).
    eexists. rewrite Hw'. split; [done|]. done.
Qed.

Lemma Failed_inv n now s : recovery_inv n s → recovery_inv n (Recovery_Failed now s).2.
Proof.
  intros Hs. simpl. destruct (hr_options s) as [o|] eqn:Eo; [|done].
  destruct (hr_deadline s); [done|]. destruct Hs as [Hg Hw Hf Hc Hd Hb].
  pose proof (NextDelay_range (hr_backoff s)) as Hnd.
  split; simpl in *; try done; [by rewrite Eo|naive_solver].
Qed.

(** The worker has finished an attempt of the current generation. *)
Definition recovery_answered (s : HostedRecovery X C) : bool :=
  match hr_completion s with Some c => rc_Generation c =? hr_generation s | None => false end.

(** When the next attempt is due, and the backoff's next delay, if a poll at [now] returns
    nothing: the backoff's delay after an attempt of the current generation that failed, doubled
    for the next one, and otherwise as before. *)
Definition recovery_due (now : Z) (s : HostedRecovery X C) : option Z :=
  if recovery_answered s then Some (now + milliseconds (rb_nextDelay (hr_backoff s)))
  else hr_deadline s.
Definition recovery_delay (s : HostedRecovery X C) : Z :=
  if recovery_answered s then Z.min 30000 (2 * rb_nextDelay (hr_backoff s))
  else rb_nextDelay (hr_backoff s).

(** What is left once no worker runs: an attempt that is not due yet stays scheduled for
    that very time, and one that is due is started, with the options in force. *)
Definition recovery_scheduled (later : Z) (due : option Z) (s s' : HostedRecovery X C) : Prop :=
  match due with
  | None => hr_worker s' = None ∧ hr_deadline s' = None
  | Some t =>
      if later <? t then hr_worker s' = None ∧ hr_deadline s' = Some t
      else hr_deadline s' = None
           ∧ ∃ options, hr_options s = Some options
               ∧ hr_worker s' = Some {| rw_Generation := hr_generation s; rw_Options := options;
                                        rw_Stop := false; rw_Finished := false |}
  end.

(** What a poll of the recovery returns and leaves. *)
Definition recovery_polled (now later : Z) (s s' : HostedRecovery X C) (result : option C) : Prop :=
  hr_options s' = hr_options s ∧ hr_generation s' = hr_generation s ∧ hr_completion s' = None
  ∧ 1000 <= rb_nextDelay (hr_backoff s) <= 30000
  ∧ match result with
    | Some connection =>
        (∃ c options, hr_completion s = Some c ∧ rc_Generation c = hr_generation s
           ∧ rc_Connection c = Some connection
           ∧ hr_options s = Some options ∧ opened_for options connection)
        ∧ hr_worker s' = None ∧ hr_deadline s' = None ∧ rb_nextDelay (hr_backoff s') = 1000
    | None =>
        (∀ c, hr_completion s = Some c → rc_Generation c = hr_generation s → rc_Connection c = None)
        ∧ rb_nextDelay (hr_backoff s') = recovery_delay s
        ∧ match hr_completion s, hr_worker s with
          | None, Some _ => s' = s
          | _, _ => recovery_scheduled later (recovery_due now s) s s'
          end
    end.

Lemma recovery_launch_inv n later s :
  recovery_inv n s → hr_completion s = None →
  wp (recovery_launch later) (fun r s' => r = Ok tt ∧ recovery_inv n s'
    ∧ hr_options s' = hr_options s ∧ hr_generation s' = hr_generation s ∧ hr_completion s' = None
    ∧ hr_backoff s' = hr_backoff s
    ∧ match hr_worker s with
      | Some _ => s' = s
      | None => recovery_scheduled later (hr_deadline s) s s'
      end) s.
Proof.
  intros Hs Hc. pose proof Hs as [Hg Hw Hf _ Hd Hb]. unfold recovery_launch, recovery_scheduled. wp_auto.
  destruct (hr_options s) as [options|] eqn:Eo.
  2:{ wp_auto. destruct (hr_deadline s) eqn:Ed; [by destruct Hd|]. destruct (hr_worker s) eqn:Ew;
      split_and!; done. }
  destruct (hr_deadline s) as [deadline|] eqn:Ed.
  2:{ wp_auto. destruct (hr_worker s) eqn:Ew; split_and!; done. }
  destruct (hr_worker s) as [w|] eqn:Ew; [by wp_auto|].
  destruct (later <? deadline); wp_auto; simpl; [split_and!; done|].
  split_and!; try done; [|by exists options].
  split; simpl; try done.
  - intros w [= <-]. simpl. split; [lia|done].
  - intros w [= <-]. simpl. by rewrite Hc.
  - intros c Hc'. congruence.
Qed.

Lemma Recovery_Poll_inv n now later s :
  recovery_inv n s →
  wp (Recovery_Poll now later) (fun r s' => recovery_inv n s'
    ∧ ∃ result, r = Ok result ∧ recovery_polled now later s s' result) s.
Proof.
  intros Hs. pose proof Hs as [Hg Hw Hf Hc Hd Hb].
  unfold Recovery_Poll, recovery_polled, recovery_due, recovery_delay, recovery_answered.
  wp_auto. destruct (hr_completion s) as [c|] eqn:Ec.
  2:{ apply wp_bind. wp_auto. set (s1 := hr_set_work _ _ s).
      assert (s1 = s) as -> by (unfold s1; destruct s; simpl in *; by subst). apply wp_bind.
      eapply wp_mono; [by apply recovery_launch_inv|].
      intros r s2 (-> & Hs2 & Ho & Hgn & Hcn & Hbk & Hsch). wp_auto. split; [done|]. exists None.
      rewrite Hbk. split_and!; try done; try apply Hb. }
  destruct (Hc c eq_refl) as (w & Ew & Hgen & Hconn). destruct (Hw w Ew) as [Hwg Hcur].
  unfold recovery_take, recovery_join. apply wp_bind, wp_bind. wp_auto. cbn [hr_worker hr_set_work].
  rewrite Ew. wp_auto. cbn [hr_generation hr_set_work hr_completion].
  set (s1 := hr_set_work _ None _).
  assert (recovery_inv n s1) as Hs1 by (split; simpl; done).
  destruct (Z.eqb_spec (rc_Generation c) (hr_generation s)) as [Heq|Hne]; simpl.
  - assert (hr_options s = Some (rw_Options w)) as Ho by (apply Hcur; congruence).
    destruct (rc_Connection c) as [connection|] eqn:Econn; wp_auto.
    + split.
      { destruct Hs1 as [???? Hd1 Hb1]. split; simpl in *; try done. destruct Hb1 as (Hi & Hm & _). rewrite Hi, Hm. lia. }
      exists (Some connection). split_and!; try done; try apply Hb.
      exists c, (rw_Options w). split_and!; auto.
    + apply wp_bind. set (s2 := hr_set_schedule None _ s1).
      assert (recovery_inv n s2) as Hs2.
      { destruct Hs1 as [???? Hd1 Hb1]. by split; simpl in *. }
      pose proof (Failed_inv n now s2 Hs2) as Hs3. unfold Recovery_Failed in *. wp_auto.
      cbn [snd emod] in Hs3. revert Hs3. cbn [hr_options hr_deadline s2 s1 hr_set_schedule hr_set_work].
      rewrite Ho. cbn [RetryBackoff_NextDelay]. intros Hs3. wp_auto. apply wp_bind.
      eapply wp_mono; [by apply recovery_launch_inv|].
      intros r s4 (-> & Hs4 & Ho4 & Hgn & Hcn & Hbk & Hsch). wp_auto. simpl in *.
      split; [done|]. exists None. rewrite Hbk. simpl.
      destruct Hb as (_ & Hm & Hr). rewrite Hm.
      split_and!; try done; try apply Hr; [by rewrite Ho4|naive_solver|ifb; lia|].
      unfold recovery_scheduled in *. simpl in Hsch. by rewrite <- Ho.
  - wp_auto. apply wp_bind. eapply wp_mono; [by apply recovery_launch_inv|].
    intros r s4 (-> & Hs4 & Ho4 & Hgn & Hcn & Hbk & Hsch). wp_auto. simpl in *.
    split; [done|]. exists None. rewrite Hbk.
    split_and!; try done; try apply Hb. naive_solver.
Qed.

Lemma recovery_inv_step n s s' :
  n < 2 ^ 64 - 1 → recovery_inv n s → recovery_step s s' → recovery_inv (n + 1) s'.
Proof.
  intros Hn Hs Hstep.
  assert (∀ s, recovery_inv n s → recovery_inv (n + 1) s) as Hweak.
  { intros t [Hg ?????]. split; try done. lia. }
  destruct Hstep as [options s|s|s|now s|networkInterface now s|now later s|lookup connect w s Ew Hopen].
  - destruct (Cancel_inv n s Hn Hs) as [[Hg Hw Hf Hc Hd Hb] Hne]. simpl in *.
    split; simpl; try done.
    + intros w Hw'. split; [by apply Hw|]. intros Heq. by destruct (Hne w Hw').
    + destruct Hb as (Hi & Hm & _). rewrite Hi, Hm. lia.
  - destruct (Cancel_inv n s Hn Hs) as [[Hg Hw Hf Hc Hd Hb] _]. simpl in *.
    split; simpl; try done. destruct Hb as (Hi & Hm & _). rewrite Hi, Hm. lia.
  - by apply Cancel_inv.
  - by apply Hweak, Failed_inv.
  - unfold Recovery_ChangeNetwork, ebind at 1, eget. simpl.
    destruct (hr_options s) as [options|] eqn:Eo; [|by apply Hweak].
    destruct (Cancel_inv n s Hn Hs) as [[Hg Hw Hf Hc Hd Hb] Hne]. simpl in *.
    split; simpl; try done.
    intros w Hw'. split; [by apply Hw|]. intros Heq. by destruct (Hne w Hw').
  - apply Hweak. by apply (Recovery_Poll_inv n now later s Hs).
  - apply Hweak. simpl. rewrite Ew. destruct (rw_Finished w) eqn:Ef; [done|].
    destruct Hs as [Hg Hw Hf Hc Hd Hb]. split; simpl; try done.
    + intros w' [= <-]. simpl. by apply Hw.
    + intros w' [= <-]. done.
    + intros c [= <-]. eexists. split; [done|]. simpl. split; [done|]. intros connection Hconn.
      destruct (recovery_bootstrap lookup connect (rw_Options w)) as [c| |] eqn:Eb; [|done..].
      destruct (rw_Stop w); simplify_eq. by eapply bootstrap_opened.
Qed.

(** C17: in every interleaving of the owner of a recovery with its worker, of fewer than
    2^64 steps, polling returns.  A connection is returned exactly when the worker has finished an
    attempt of the current generation with one, and it was opened with the options and on the
    network in force, never with those of an attempt that was cancelled, reconfigured or overtaken
    by a change of network; the backoff then starts over at a second.  Otherwise, while a worker
    runs nothing changes; and once none does, the time of the next attempt is the backoff's delay,
    of one to thirty seconds and doubled after each use, from now if an attempt of the current
    generation has just failed, and else the time it was scheduled for, if any: before that time nothing is started and it stays
    scheduled for exactly that time, and from then on a worker is started with the options in
    force. *)
Theorem HostedRecovery_current n s now later :
  recovery_reachable n s → n < 2 ^ 64 →
  ∃ result s', Recovery_Poll now later s = (Ok result, s')
    ∧ recovery_polled now later s s' result.
Proof.
  intros Hr Hn. assert (recovery_inv n s) as Hs.
  { induction Hr as [|n s s' Hr IH Hstep].
    - split; simpl; done.
    - apply (recovery_inv_step n s); [lia|apply IH; lia|done]. }
  destruct (Recovery_Poll_inv n now later s Hs) as [_ (result & Hres & Hpoll)].
  destruct (Recovery_Poll now later s) as [r s']. simpl in *. subst r. by exists result, s'.
Qed.

End recovery_runs.

(** ** Concrete runs *)

Lemma RetryBackoff_doubles_witness :
  delays 7 worker_backoff = [1000; 2000; 4000; 8000; 16000; 30000; 30000]
  ∧ Forall (fun d => 1000 <= d <= 30000) (delays 7 worker_backoff).
Proof.
  destruct (RetryBackoff_doubles 1000 30000 worker_backoff 7 eq_refl) as (H1 & H2 & _).
  split; [exact H1|exact H2].
Defined.

Definition demo_network (n : Z) : Network := {| nw_Interface := Some [n]; nw_Addresses := [] |}.

Definition demo_snapshot : Snapshot :=
  {| sn_Generation := 1; sn_Networks := [demo_network 1; demo_network 2; demo_network 3] |}.

Definition demo_underlay : list underlay_call := [Underlay_Start demo_snapshot (Some [2]) 100].

Lemma UnderlaySelection_fair_witness :
  let s := foldl underlay_step UnderlaySelection_new demo_underlay in
  ∃ changes s', failing_polls demo_snapshot [15000000100; 30000000100; 45000000200] s
                = (Ok (map Some changes), s')
    ∧ map uc_Network changes = rotation (sn_Networks demo_snapshot) (ul_selected s) 3
    ∧ ∀ n, n ∈ sn_Networks demo_snapshot → Some n ∈ map uc_Network changes.
Proof.
  apply (UnderlaySelection_fair demo_underlay demo_snapshot [15000000100; 30000000100; 45000000200]).
  - reflexivity.
  - discriminate.
  - repeat split; vm_compute; discriminate.
  - vm_compute. discriminate.
Defined.

Definition demo_lookup (n : Z) : LookupRequest :=
  {| lr_Host := [n]; lr_Port := 3478; lr_Interface := None |}.

Definition demo_answer (n : Z) : Endpoint := {| ep_address := {| ip4_value := n |}; ep_port := 3478 |}.

(** The lookup answers with the number of its name. *)
Definition demo_answers (request : LookupRequest) (e : Endpoint) : Prop :=
  ∃ n, request = demo_lookup n ∧ e = demo_answer n.

(** A lookup is overtaken by another one while it runs; it finishes, the second is started, and
    finishes. *)
Definition demo_resolver : UnderlayResolver :=
  let s := (UnderlayResolver_Start (demo_lookup 1) 0 UnderlayResolver_new).2 in
  let s := (UnderlayResolver_Poll 0 0 s).2 in
  let s := (UnderlayResolver_Start (demo_lookup 2) 5 s).2 in
  let s := (UnderlayResolver_worker (Ok (demo_answer 1)) s).2 in
  let s := (UnderlayResolver_Poll 9 9 s).2 in
  (UnderlayResolver_worker (Ok (demo_answer 2)) s).2.

Lemma demo_resolver_reachable : resolver_reachable demo_answers 6 demo_resolver.
Proof.
  unfold demo_resolver. change 6 with (0 + 1 + 1 + 1 + 1 + 1 + 1).
  eapply Reach_step; [|apply Step_Worker; intros w e [= <-] [= <-]; by eexists].
  eapply Reach_step; [|apply Step_Poll].
  eapply Reach_step; [|apply Step_Worker; intros w e [= <-] [= <-]; by eexists].
  eapply Reach_step; [|apply Step_Start]. eapply Reach_step; [|apply Step_Poll].
  eapply Reach_step; [|apply Step_Start]. apply Reach_new.
Qed.

Lemma UnderlayResolver_current_witness :
  ∃ result s', UnderlayResolver_Poll 20 20 demo_resolver = (Ok result, s')
    ∧ poll_ok demo_answers 20 demo_resolver (Ok result) s'.
Proof.
  apply (UnderlayResolver_current demo_answers 6 demo_resolver 20 20 demo_resolver_reachable).
  reflexivity.
Defined.

Example demo_resolver_answer :
  (UnderlayResolver_Poll 20 20 demo_resolver).1 = Ok (Some (demo_answer 2)).
Proof. reflexivity. Qed.

Definition demo_hosted (networkInterface : option bytes) : HostedOptions unit := {|
  ho_ConnectAddress := [49; 46; 49; 46; 49; 46; 49]; ho_Service := [52; 52; 51];
  ho_NetworkInterface := networkInterface; ho_TlsServerName := None; ho_AllowTls13 := true;
  ho_Rest := tt |}.

(** The connection remembers the options it was opened with. *)
Definition demo_connect (options : HostedOptions unit) : outcome (HostedOptions unit) := Ok options.

(** The network changes while a worker connects; its connection is dropped, and the next one is
    made on the new network. *)
Definition demo_recovery : HostedRecovery unit (HostedOptions unit) :=
  let no_lookup := fun (_ : bytes) (_ : option bytes) (_ : bool) => Throw (RuntimeError "no resolver") in
  let s := (Recovery_Configure (demo_hosted None) HostedRecovery_new).2 in
  let s := (Recovery_Failed 0 s).2 in
  let s := (Recovery_Poll 1000000000 1000000000 s).2 in
  let s := (Recovery_ChangeNetwork [2] 1000000005 s).2 in
  let s := (Recovery_worker (recovery_bootstrap no_lookup demo_connect (demo_hosted None)) s).2 in
  let s := (Recovery_Poll 1000000006 1000000006 s).2 in
  (Recovery_worker (recovery_bootstrap no_lookup demo_connect (demo_hosted (Some [2]))) s).2.

Definition demo_opened (options connection : HostedOptions unit) : Prop := connection = options.

Lemma demo_recovery_reachable : recovery_reachable demo_opened 7 demo_recovery.
Proof.
  unfold demo_recovery. change 7 with (0 + 1 + 1 + 1 + 1 + 1 + 1 + 1).
  assert (∀ o c, demo_connect o = Ok c → demo_opened o c) as Hc by (by intros o c [= <-]).
  eapply RReach_step; [|eapply (RStep_Worker _ _ _ {| rw_Options := demo_hosted (Some [2]) |});
    [reflexivity|exact Hc]].
  eapply RReach_step; [|apply RStep_Poll].
  eapply RReach_step; [|eapply (RStep_Worker _ _ _ {| rw_Options := demo_hosted None |});
    [reflexivity|exact Hc]].
  eapply RReach_step; [|apply RStep_ChangeNetwork]. eapply RReach_step; [|apply RStep_Poll].
  eapply RReach_step; [|apply RStep_Failed]. eapply RReach_step; [|apply RStep_Configure].
  apply RReach_new.
Qed.

Lemma HostedRecovery_current_witness :
  ∃ result s', Recovery_Poll 1000000010 1000000010 demo_recovery = (Ok result, s')
    ∧ recovery_polled demo_opened 1000000010 1000000010 demo_recovery s' result.
Proof.
  apply (HostedRecovery_current demo_opened 7 demo_recovery 1000000010 1000000010
           demo_recovery_reachable).
  reflexivity.
Defined.
