(* ===== verification/Engine.v ===== *)
(** * The engine: events, the packet device and binding

    [EventLoop] is base/EventLoop.cpp: the events that completions post, on top of the
    platform's event source, the class [EventSource].  [EngineImpl] (wgengine/impl/EngineImpl.cpp)
    hands events to the magicsock connection, to the packet device (the class [Device]) or back
    to its caller, and queues packets for the device.  [Bind] (wgengine/magicsock/Bind.cpp) opens
    the socket of a connection and waits until it is bound. *)

From Stdlib Require Import Btauto.
From S2P Require Import Prelude StdMap Net DerpConnection Magicsock.

(** ** The event loop *)

Inductive EventWaitStatus := Wait_Events | Wait_DeadlineReached | Wait_Woken.

#[export] Instance EventWaitStatus_eq_dec : EqDecision EventWaitStatus.
Proof. solve_decision. Defined.

Record EventWaitResult := { wt_Status : EventWaitStatus; wt_Events : list Event }.

(** The platform's part of the loop: [Wait], with a deadline or without, and [Wake]. *)
Class EventSource (L : Type) := {
  el_Wait : option Z → Z → eff L EventWaitResult;
  el_Wake : L → L;
  (** The events it has delivered, in order. *)
  el_delivered : L → list Event
}.

Class EventSourceLaws (L : Type) `{!EventSource L} : Prop := {
  el_Wait_law : ∀ deadline maximum l,
    wp (el_Wait deadline maximum) (fun r l' => r ≠ UB ∧
      el_delivered l' = el_delivered l ++ match r with Ok ready => wt_Events ready | _ => [] end) l;
  el_Wake_law : ∀ l, el_delivered (el_Wake l) = el_delivered l
}.

Record EventLoop (L : Type) := { lp_posted : list (Z * Z); lp_source : L }.
Arguments lp_posted {L}. Arguments lp_source {L}.

(** [m[token] = m[token] | readiness] on a [std::map] by token. *)
Fixpoint post_add (token readiness : Z) (m : list (Z * Z)) : list (Z * Z) :=
  match m with
  | [] => [(token, readiness)]
  | (t, r) :: rest =>
      if token =? t then (t, Z.lor r readiness) :: rest
      else if token <? t then (token, readiness) :: m
      else (t, r) :: post_add token readiness rest
  end.

(** The loop of [TakePostedEvents]: what is taken and what remains. *)
Fixpoint take_posted (todo : nat) (m : list (Z * Z)) : list Event * list (Z * Z) :=
  match todo, m with
  | S todo', (t, r) :: rest =>
      let '(events, remaining) := take_posted todo' rest in
      ({| ev_Token := t; ev_Readiness := r |} :: events, remaining)
  | _, _ => ([], m)
  end.

Section loop.
  Context {L : Type} `{!EventSource L}.

Abbreviation loop := (EventLoop L).

Definition lp_set_posted posted (s : loop) : loop :=
  {| lp_posted := posted; lp_source := lp_source s |}.

Definition on_source {A} (m : eff L A) : eff loop A := fun s =>
  let '(r, l) := m (lp_source s) in (r, {| lp_posted := lp_posted s; lp_source := l |}).

Definition EventLoop_Wake : eff loop unit :=
  emod (fun s => {| lp_posted := lp_posted s; lp_source := el_Wake (lp_source s) |}).

Definition EventLoop_Post (event : Event) : eff loop unit :=
  emod (fun s => lp_set_posted (post_add (ev_Token event) (ev_Readiness event) (lp_posted s)) s) ;;*
  EventLoop_Wake.

Definition EventLoop_TakePostedEvents (maximumEvents : Z) : eff loop (list Event) :=
  let* s := eget in
  let '(events, remaining) := take_posted (Z.to_nat maximumEvents) (lp_posted s) in
  emod (lp_set_posted remaining) ;;*
  (if bool_decide (remaining = []) then eret tt else EventLoop_Wake) ;;*
  eret events.

Definition EventLoop_DiscardPostedEvents (token : Z) : eff loop unit :=
  emod (fun s => lp_set_posted (List.filter (fun e => negb (e.1 =? token)) (lp_posted s)) s).

End loop.

(** ** The packet device *)

Inductive DeviceIoResult := Device_Complete | Device_WouldBlock | Device_Closed.

Record DeviceReadResult := { dr_Result : DeviceIoResult; dr_Packet : bytes }.

Record DeviceOptions := { do_Name : bytes; do_ReadinessToken : Z }.

Class Device (D : Type) := {
  dev_Open : DeviceOptions → eff D bool;
  dev_TryRead : Z → eff D DeviceReadResult;
  dev_TryWrite : bytes → eff D DeviceIoResult;
  dev_SetWriteInterest : bool → eff D unit;
  dev_Close : D → D;
  (** What the device shows: the packets it took, and whether its owner asked for an event
      when it can take more. *)
  dev_written : D → list bytes;
  dev_interest : D → bool
}.

(** A write takes the packet when it completes and leaves the device otherwise, and the interest
    is the one last set; setting it would only throw for want of memory, which is not modelled. *)
Class DeviceLaws (D : Type) `{!Device D} : Prop := {
  dev_Open_law : ∀ options d,
    wp (dev_Open options) (fun r d' => r ≠ UB ∧ dev_written d' = dev_written d) d;
  dev_TryRead_law : ∀ maximum d,
    wp (dev_TryRead maximum) (fun r d' => r ≠ UB ∧ dev_interest d' = dev_interest d
      ∧ dev_written d' = dev_written d) d;
  dev_TryWrite_law : ∀ packet d,
    wp (dev_TryWrite packet) (fun r d' => r ≠ UB ∧ dev_interest d' = dev_interest d
      ∧ dev_written d' = dev_written d ++ match r with Ok Device_Complete => [packet] | _ => [] end) d;
  dev_SetWriteInterest_law : ∀ b d,
    wp (dev_SetWriteInterest b) (fun r d' => r = Ok tt ∧ dev_interest d' = b
      ∧ dev_written d' = dev_written d) d;
  dev_Close_law : ∀ d, dev_written (dev_Close d) = dev_written d
}.

(** ** The engine *)

Definition Engine_MaximumPendingPackets : Z := 1024.
Definition Engine_MaximumPendingBytes : Z := 4 * 1024 * 1024.
Definition MaximumCompletionEvents : Z := 64.

Inductive PacketWriteResult := Write_Written | Write_Queued | Write_Dropped | Write_Unavailable.

Record EngineWaitResult := {
  ew_Status : EventWaitStatus;
  ew_Datagrams : list UdpDatagram;
  ew_Packets : list bytes;
  ew_Failures : list MagicStatus;
  ew_PlatformEvents : list Event
}.

Definition ew_add (datagrams : list UdpDatagram) (packets : list bytes) (failures : list MagicStatus)
    (events : list Event) (r : EngineWaitResult) : EngineWaitResult := {|
  ew_Status := ew_Status r;
  ew_Datagrams := ew_Datagrams r ++ datagrams;
  ew_Packets := ew_Packets r ++ packets;
  ew_Failures := ew_Failures r ++ failures;
  ew_PlatformEvents := ew_PlatformEvents r ++ events |}.

Record EngineImpl (L U D : Type) := {
  en_eventLoop : EventLoop L;
  en_connection : MagicConnection U;
  en_device : D;
  en_deviceToken : Z;
  en_pendingPackets : list bytes;
  en_pendingBytes : Z;
  en_deviceOpen : bool
}.
Arguments en_eventLoop {L U D}. Arguments en_connection {L U D}. Arguments en_device {L U D}.
Arguments en_deviceToken {L U D}. Arguments en_pendingPackets {L U D}.
Arguments en_pendingBytes {L U D}. Arguments en_deviceOpen {L U D}.

(** The loop that makes room in [QueuePacket]. *)
Fixpoint engine_room (pending : list bytes) (pendingBytes size : Z) : list bytes * Z :=
  match pending with
  | [] => ([], pendingBytes)
  | front :: rest =>
      if (Engine_MaximumPendingPackets <=? zlen pending)
         || (Engine_MaximumPendingBytes <? pendingBytes + size)
      then engine_room rest (pendingBytes - zlen front) size
      else (pending, pendingBytes)
  end.

Section engine.
  Context {L U D : Type} `{!EventSource L} `{!UdpSocket U} `{!Device D}.

Abbreviation engine := (EngineImpl L U D).

Definition en_set_loop l (s : engine) : engine := {|
  en_eventLoop := l; en_connection := en_connection s; en_device := en_device s;
  en_deviceToken := en_deviceToken s; en_pendingPackets := en_pendingPackets s;
  en_pendingBytes := en_pendingBytes s; en_deviceOpen := en_deviceOpen s |}.
Definition en_set_connection c (s : engine) : engine := {|
  en_eventLoop := en_eventLoop s; en_connection := c; en_device := en_device s;
  en_deviceToken := en_deviceToken s; en_pendingPackets := en_pendingPackets s;
  en_pendingBytes := en_pendingBytes s; en_deviceOpen := en_deviceOpen s |}.
Definition en_set_device d (s : engine) : engine := {|
  en_eventLoop := en_eventLoop s; en_connection := en_connection s; en_device := d;
  en_deviceToken := en_deviceToken s; en_pendingPackets := en_pendingPackets s;
  en_pendingBytes := en_pendingBytes s; en_deviceOpen := en_deviceOpen s |}.
Definition en_set_open token isOpen (s : engine) : engine := {|
  en_eventLoop := en_eventLoop s; en_connection := en_connection s; en_device := en_device s;
  en_deviceToken := token; en_pendingPackets := en_pendingPackets s;
  en_pendingBytes := en_pendingBytes s; en_deviceOpen := isOpen |}.
Definition en_set_pending pending n (s : engine) : engine := {|
  en_eventLoop := en_eventLoop s; en_connection := en_connection s; en_device := en_device s;
  en_deviceToken := en_deviceToken s; en_pendingPackets := pending; en_pendingBytes := n;
  en_deviceOpen := en_deviceOpen s |}.

Definition on_loop {A} (m : eff (EventLoop L) A) : eff engine A := fun s =>
  let '(r, l) := m (en_eventLoop s) in (r, en_set_loop l s).
Definition on_connection {A} (m : eff (MagicConnection U) A) : eff engine A := fun s =>
  let '(r, c) := m (en_connection s) in (r, en_set_connection c s).
Definition on_device {A} (m : eff D A) : eff engine A := fun s =>
  let '(r, d) := m (en_device s) in (r, en_set_device d s).

Definition EngineImpl_new (l : EventLoop L) (c : MagicConnection U) (d : D) : engine := {|
  en_eventLoop := l; en_connection := c; en_device := d; en_deviceToken := 0;
  en_pendingPackets := []; en_pendingBytes := 0; en_deviceOpen := false |}.

Definition EngineImpl_Reset : eff engine unit :=
  emod (fun s => en_set_device (dev_Close (en_device s)) s) ;;*
  on_connection MagicConnection_Close ;;*
  let* s := eget in
  on_loop (EventLoop_DiscardPostedEvents (en_deviceToken s)) ;;*
  emod (en_set_open 0 false) ;;*
  emod (en_set_pending [] 0).

Definition EngineImpl_OpenPacketDevice (options : DeviceOptions) : eff engine bool :=
  let* s := eget in
  if en_deviceOpen s || (do_ReadinessToken options =? 0) then eret false else
  let* opened := on_device (dev_Open options) in
  if negb opened then eret false else
  emod (en_set_open (do_ReadinessToken options) true) ;;*
  eret true.

Definition EngineImpl_QueuePacket (packet : bytes) : eff engine bool :=
  emod (fun s =>
    let '(pending, n) := engine_room (en_pendingPackets s) (en_pendingBytes s) (zlen packet) in
    en_set_pending pending n s) ;;*
  if Engine_MaximumPendingBytes <? zlen packet then eret false else
  emod (fun s => en_set_pending (en_pendingPackets s ++ [packet])
                   (en_pendingBytes s + zlen packet) s) ;;*
  on_device (dev_SetWriteInterest true) ;;*
  eret true.

Definition EngineImpl_WritePacket (packet : bytes) : eff engine PacketWriteResult :=
  let* s := eget in
  if negb (en_deviceOpen s) then eret Write_Unavailable else
  let queue := let* queued := EngineImpl_QueuePacket packet in
               eret (if queued : bool then Write_Queued else Write_Dropped) in
  if negb (bool_decide (en_pendingPackets s = [])) then queue else
  let* written := on_device (dev_TryWrite packet) in
  match written with
  | Device_Complete => eret Write_Written
  | Device_Closed => eret Write_Unavailable
  | Device_WouldBlock => queue
  end.

(** The loop of [FlushPackets] over the packets queued. *)
Fixpoint flush_packets (pending : list bytes) : eff engine DeviceIoResult :=
  match pending with
  | [] => on_device (dev_SetWriteInterest false) ;;* eret Device_Complete
  | front :: rest =>
      let* written := on_device (dev_TryWrite front) in
      match written with
      | Device_Complete =>
          emod (fun s => en_set_pending (drop 1 (en_pendingPackets s))
                           (en_pendingBytes s - zlen front) s) ;;*
          flush_packets rest
      | other => eret other
      end
  end.

Definition EngineImpl_FlushPackets : eff engine DeviceIoResult :=
  let* s := eget in flush_packets (en_pendingPackets s).

(** The loop that reads packets in [ProcessDevice]. *)
Fixpoint read_packets (todo : nat) (maximumPacketSize : Z) (result : EngineWaitResult)
    : eff engine EngineWaitResult :=
  match todo with
  | O => eret result
  | S todo' =>
      let* packet := on_device (dev_TryRead maximumPacketSize) in
      match dr_Result packet with
      | Device_WouldBlock => eret result
      | Device_Closed => ethrow (RuntimeError "packet device closed during read")
      | Device_Complete =>
          read_packets todo' maximumPacketSize (ew_add [] [dr_Packet packet] [] [] result)
      end
  end.

Definition EngineImpl_ProcessDevice (event : Event) (maximumPackets maximumPacketSize : Z)
    (result : EngineWaitResult) : eff engine (bool * EngineWaitResult) :=
  let* s := eget in
  if negb (en_deviceOpen s) || negb (ev_Token event =? en_deviceToken s)
  then eret (false, result) else
  if HasReadiness (ev_Readiness event) Readiness_Error
  then ethrow (RuntimeError "packet device reported an I/O error") else
  if HasReadiness (ev_Readiness event) Readiness_Closed
  then ethrow (RuntimeError "packet device closed") else
  (if HasReadiness (ev_Readiness event) Readiness_Writable
   then let* flushed := EngineImpl_FlushPackets in
        match flushed with
        | Device_Closed => ethrow (RuntimeError "packet device closed during write")
        | _ => eret tt
        end
   else eret tt) ;;*
  if negb (HasReadiness (ev_Readiness event) Readiness_Readable) then eret (true, result) else
  let* result := read_packets (Z.to_nat maximumPackets) maximumPacketSize result in
  eret (true, result).

(** One event of [Process]. *)
Definition process_event (maximumDatagrams maximumSize : Z) (event : Event)
    (result : EngineWaitResult) : eff engine EngineWaitResult :=
  let* processed := on_connection (MagicConnection_ProcessEvent event maximumDatagrams maximumSize) in
  if negb (me_Handled processed) then
    let* (handled, result) := EngineImpl_ProcessDevice event maximumDatagrams maximumSize result in
    eret (if handled : bool then result else ew_add [] [] [] [event] result)
  else
    eret (ew_add (me_Datagrams processed) []
            (match me_Status processed with Magic_Ready => [] | status => [status] end) [] result).

Fixpoint process_events (maximumDatagrams maximumSize : Z) (events : list Event)
    (result : EngineWaitResult) : eff engine EngineWaitResult :=
  match events with
  | [] => eret result
  | event :: rest =>
      let* result := process_event maximumDatagrams maximumSize event result in
      process_events maximumDatagrams maximumSize rest result
  end.

Definition EngineImpl_Process (ready : EventWaitResult) (maximumDatagrams maximumSize : Z)
    : eff engine EngineWaitResult :=
  let* completions := on_loop (EventLoop_TakePostedEvents MaximumCompletionEvents) in
  process_events maximumDatagrams maximumSize (wt_Events ready ++ completions)
    {| ew_Status := wt_Status ready; ew_Datagrams := []; ew_Packets := []; ew_Failures := [];
       ew_PlatformEvents := [] |}.

(** [Wait], with the time of the wait token if there is one. *)
Definition EngineImpl_Wait (deadline : option Z) (maximumEvents maximumDatagrams maximumSize : Z)
    : eff engine EngineWaitResult :=
  let* ready := on_loop (on_source (el_Wait deadline maximumEvents)) in
  EngineImpl_Process ready maximumDatagrams maximumSize.

Definition EngineImpl_Wake : eff engine unit := on_loop EventLoop_Wake.

End engine.

(** ** Binding a socket *)

Definition MaximumBindEvents : Z := 64.

(** The connection and the loop that [Bind] works on, and the readiness it has put off. *)
Record BindState (L U : Type) := {
  bs_connection : MagicConnection U;
  bs_events : EventLoop L;
  bs_deferred : list (Z * Z)
}.
Arguments bs_connection {L U}. Arguments bs_events {L U}. Arguments bs_deferred {L U}.

Section bind.
  Context {L U : Type} `{!EventSource L} `{!UdpSocket U}.

Abbreviation st := (BindState L U).

Definition bs_set_events l (s : st) : st :=
  {| bs_connection := bs_connection s; bs_events := l; bs_deferred := bs_deferred s |}.
Definition bs_set_connection c (s : st) : st :=
  {| bs_connection := c; bs_events := bs_events s; bs_deferred := bs_deferred s |}.
Definition bs_set_deferred d (s : st) : st :=
  {| bs_connection := bs_connection s; bs_events := bs_events s; bs_deferred := d |}.

Definition bind_events {A} (m : eff (EventLoop L) A) : eff st A := fun s =>
  let '(r, l) := m (bs_events s) in (r, bs_set_events l s).
Definition bind_connection {A} (m : eff (MagicConnection U) A) : eff st A := fun s =>
  let '(r, c) := m (bs_connection s) in (r, bs_set_connection c s).

(** [DeferredReadiness::Add] *)
Definition Deferred_Add (event : Event) : eff st unit :=
  emod (fun s => bs_set_deferred (post_add (ev_Token event) (ev_Readiness event) (bs_deferred s)) s).

(** [~DeferredReadiness] *)
Fixpoint post_deferred (deferred : list (Z * Z)) : eff st unit :=
  match deferred with
  | [] => eret tt
  | (token, readiness) :: rest =>
      bind_events (EventLoop_Post {| ev_Token := token; ev_Readiness := readiness |}) ;;*
      post_deferred rest
  end.

(** The loop over the events of one round: whether the socket failed, and whether it closed. *)
Fixpoint bind_scan (own : Z) (events : list Event) (failed closed : bool) : eff st (bool * bool) :=
  match events with
  | [] => eret (failed, closed)
  | event :: rest =>
      if negb (ev_Token event =? own) then
        Deferred_Add event ;;* bind_scan own rest failed closed
      else
        (if HasReadiness (ev_Readiness event) Readiness_Readable
         then Deferred_Add {| ev_Token := ev_Token event; ev_Readiness := Readiness_Readable |}
         else eret tt) ;;*
        bind_scan own rest (failed || HasReadiness (ev_Readiness event) Readiness_Error)
          (closed || HasReadiness (ev_Readiness event) Readiness_Closed)
  end.

(** The loop of [Bind].  A round is whether cancellation is requested at its start, and its clock
    reading; [None] means that the socket is still not bound after the rounds given. *)
Fixpoint bind_loop (rounds : list (bool * Z)) (own deadlineAt : Z) : eff st (option Endpoint) :=
  match rounds with
  | [] => eret None
  | (stop, now) :: rest =>
      if stop : bool then ethrow (SystemError "operation_canceled") else
      let* s := eget in
      let* endpoint := elift (MagicConnection_LocalEndpoint (bs_connection s)) in
      let wait :=
        if deadlineAt <=? now then ethrow (SystemError "timed_out") else
        let* ready := bind_events (on_source (el_Wait (Some deadlineAt) MaximumBindEvents)) in
        let* completions := bind_events (EventLoop_TakePostedEvents MaximumBindEvents) in
        let* (failed, closed) := bind_scan own (wt_Events ready ++ completions) false false in
        if failed || closed
        then ethrow (SystemError (if failed : bool then "network_unreachable" else "not_connected"))
        else if bool_decide (wt_Status ready = Wait_DeadlineReached)
        then ethrow (SystemError "timed_out")
        else bind_loop rest own deadlineAt in
      match endpoint with
      | Some e => if negb (ep_port e =? 0) then eret (Some e) else wait
      | None => wait
      end
  end.

(** [stop] is whether cancellation is requested when the call starts, [now] the clock reading that
    starts the timeout (in milliseconds), [opened] what the factory of the sockets returns. *)
Definition Bind (options : UdpSocketOptions) (opened : outcome (option U)) (timeout : Z)
    (stop : bool) (now : Z) (rounds : list (bool * Z)) : eff st (option Endpoint) :=
  if (uo_ReadinessToken options =? 0) || (timeout <=? 0)
  then ethrow (InvalidArgument "UDP binding requires a readiness token and positive timeout") else
  if stop then ethrow (SystemError "operation_canceled") else
  let* isOpen := bind_connection (MagicConnection_Open options opened) in
  if negb isOpen then ethrow (SystemError "address_not_available") else
  emod (bs_set_deferred []) ;;*
  fun s =>
    match bind_loop rounds (uo_ReadinessToken options) (now + timeout * 1000000) s with
    | (Ok (Some e), s') => (post_deferred (bs_deferred s') ;;* eret (Some e)) s'
    | (Ok None, s') => (Ok None, s')
    | (Throw e, s') =>
        (bind_connection MagicConnection_Close ;;* post_deferred (bs_deferred s') ;;* ethrow e) s'
    | (UB, s') => (UB, s')
    end.

End bind.

(** ** The queue of the device *)

Definition packets_bytes (l : list bytes) : Z := fold_right (fun b n => zlen b + n) 0 l.

Lemma packets_bytes_app l k : packets_bytes (l ++ k) = packets_bytes l + packets_bytes k.
Proof. induction l as [|b l IH]; simpl; [done|]. lia. Qed.

Lemma packets_bytes_nonneg l : 0 <= packets_bytes l.
Proof. induction l; simpl; zlia. Qed.

Lemma engine_room_spec pending n size :
  n = packets_bytes pending →
  ∃ dropped kept, pending = dropped ++ kept
    ∧ engine_room pending n size = (kept, packets_bytes kept)
    ∧ (kept = [] ∨ zlen kept < Engine_MaximumPendingPackets
                   ∧ packets_bytes kept + size <= Engine_MaximumPendingBytes).
Proof.
  revert n. induction pending as [|front rest IH]; intros n ->; cbn [engine_room].
  - exists [], []. auto.
  - ifb.
    + destruct (IH (packets_bytes (front :: rest) - zlen front)) as (dropped & kept & -> & -> & Hk).
      { simpl. lia. }
      exists (front :: dropped), kept. auto.
    + exists [], (front :: rest). split_and!; [done|done|]. right. b2p. lia.
Qed.

Section engine_proofs.
  Context {L U D : Type} `{!EventSource L} `{!UdpSocket U} `{!Device D}.
  Context `{!EventSourceLaws L} `{!UdpSocketLaws U} `{!DeviceLaws D}.

Abbreviation engine := (EngineImpl L U D).

(** The connection as the engine relies on it, whatever is queued for its peers. *)
Abbreviation connection_ok := (conn_inv [] (fun _ => false)).

Record engine_ok (s : engine) : Prop := {
  eo_connection : connection_ok (en_connection s);
  eo_bytes : en_pendingBytes s = packets_bytes (en_pendingPackets s);
  eo_count : zlen (en_pendingPackets s) <= Engine_MaximumPendingPackets;
  eo_maximum : en_pendingBytes s <= Engine_MaximumPendingBytes;
  eo_interest : en_pendingPackets s ≠ [] →
    en_deviceOpen s = true ∧ dev_interest (en_device s) = true
}.

(** The packets on their way to the host. *)
Definition engine_flow (s : engine) : list bytes :=
  dev_written (en_device s) ++ en_pendingPackets s.

(** What a call that submits [sub] leaves. *)
Record emoved (sub : list bytes) (s s' : engine) : Prop := {
  eu_ok : engine_ok s';
  eu_flow : engine_flow s' `sublist_of` engine_flow s ++ sub;
  eu_verified : ∀ k e, verified (en_connection s') k e → verified (en_connection s) k e
}.

Definition ekeeps {A} (sub : list bytes) (m : eff engine A) : Prop :=
  ∀ s, engine_ok s → wp m (fun r s' => r ≠ UB ∧ emoved sub s s') s.

Lemma emoved_refl s : engine_ok s → emoved [] s s.
Proof. intros Hs. split; [done| |done]. by rewrite app_nil_r. Qed.

Lemma emoved_trans sub sub' s1 s2 s3 :
  emoved sub s1 s2 → emoved sub' s2 s3 → emoved (sub ++ sub') s1 s3.
Proof.
  intros [_ F V] [H F' V']. split; [done| |by auto].
  rewrite app_assoc. etrans; [exact F'|]. by apply sublist_app.
Qed.

Lemma emoved_weaken sub sub' s s' : emoved sub s s' → sub `sublist_of` sub' → emoved sub' s s'.
Proof. intros [H F V] Hsub. split; [done| |done]. etrans; [exact F|]. by apply sublist_app. Qed.

Lemma ekeeps_bind {A B} sub sub' (m : eff engine A) (f : A → eff engine B) :
  ekeeps sub m → (∀ a, ekeeps sub' (f a)) → ekeeps (sub ++ sub') (ebind m f).
Proof.
  intros Hm Hf s Hs. apply wp_bind. eapply wp_mono; [by apply Hm|].
  intros [a|e|] s1 [Hr H1]; [|split; [done|]|done].
  - eapply wp_mono; [apply Hf, (eu_ok _ _ _ H1)|]. intros r s2 [Hr2 H2].
    split; [done|]. by eapply emoved_trans.
  - eapply emoved_weaken; [exact H1|by apply sublist_inserts_r].
Qed.

Lemma ekeeps_seq {A B} (m : eff engine A) (f : A → eff engine B) :
  ekeeps [] m → (∀ a, ekeeps [] (f a)) → ekeeps [] (ebind m f).
Proof. apply (ekeeps_bind [] []). Qed.

Lemma ekeeps_ret {A} (a : A) : ekeeps [] (eret a).
Proof. intros s Hs. split; [done|by apply emoved_refl]. Qed.

Lemma ekeeps_throw {A} e : ekeeps [] (ethrow e : eff engine A).
Proof. intros s Hs. split; [done|by apply emoved_refl]. Qed.

Lemma ekeeps_get {A} sub (f : engine → eff engine A) :
  (∀ s, engine_ok s → wp (f s) (fun r s' => r ≠ UB ∧ emoved sub s s') s) → ekeeps sub (ebind eget f).
Proof. intros Hf s Hs. wp_auto. by apply Hf. Qed.

Lemma wp_on_connection {A} (m : eff (MagicConnection U) A) Q (s : engine) :
  wp m (fun r c => Q r (en_set_connection c s)) (en_connection s) → wp (on_connection m) Q s.
Proof. unfold wp, on_connection. by destruct (m _). Qed.

Lemma wp_on_device {A} (m : eff D A) Q (s : engine) :
  wp m (fun r d => Q r (en_set_device d s)) (en_device s) → wp (on_device m) Q s.
Proof. unfold wp, on_device. by destruct (m _). Qed.

Lemma ekeeps_on_loop {A} (m : eff (EventLoop L) A) :
  (∀ l, (m l).1 ≠ UB) → ekeeps [] (on_loop m).
Proof.
  intros Hm s Hs. unfold wp, on_loop. specialize (Hm (en_eventLoop s)).
  destruct (m _) as [r l]. simpl in *. split; [done|].
  split; [by destruct Hs; split| |done]. unfold engine_flow. simpl. by rewrite app_nil_r.
Qed.

Lemma ekeeps_ProcessEvent event count size :
  ekeeps [] (on_connection (MagicConnection_ProcessEvent event count size) : eff engine _).
Proof.
  intros s Hs. apply wp_on_connection.
  eapply wp_mono; [apply (mkeeps_ProcessEvent [] (fun _ => false)), Hs|].
  intros r c [Hr [Hc _ Hv]]. split; [done|]. split.
  - destruct Hs. by split.
  - unfold engine_flow. simpl. by rewrite app_nil_r.
  - intros k e He. destruct (Hv k e He) as [|[]]. done.
Qed.

Lemma ekeeps_TryRead size : ekeeps [] (on_device (dev_TryRead size) : eff engine _).
Proof.
  intros s Hs. apply wp_on_device. eapply wp_mono; [apply dev_TryRead_law|].
  intros r d (Hr & Hi & Hw). split; [done|]. split; [|..|done].
  - destruct Hs as [???? H]. split; simpl; try done. by rewrite Hi.
  - unfold engine_flow. simpl. by rewrite Hw, app_nil_r.
Qed.

Lemma ekeeps_read_packets todo size result :
  ekeeps [] (read_packets todo size result : eff engine _).
Proof.
  revert result. induction todo as [|todo IH]; intros result; simpl; [apply ekeeps_ret|].
  apply ekeeps_seq; [apply ekeeps_TryRead|]. intros [[] packet]; simpl;
    auto using ekeeps_ret, ekeeps_throw.
Qed.

(** The device takes the packet at the front of the queue. *)
Lemma wp_write_front front rest Q s :
  engine_ok s → en_pendingPackets s = front :: rest →
  (∀ r s', r ≠ UB → r ≠ Ok Device_Complete → emoved [] s s' → Q r s') →
  (∀ s', emoved [] s (en_set_pending rest (en_pendingBytes s - zlen front) s') →
    en_pendingPackets s' = front :: rest → en_pendingBytes s' = en_pendingBytes s →
    Q (Ok Device_Complete) s') →
  wp (on_device (dev_TryWrite front)) Q s.
Proof.
  intros Hs Hp Hother Hdone. apply wp_on_device. eapply wp_mono; [apply dev_TryWrite_law|].
  intros r d (Hr & Hi & Hw).
  pose proof Hs as [Hc Hb Hn Hm Hint]. rewrite Hp in *.
  assert (r = Ok Device_Complete ∨ r ≠ Ok Device_Complete) as [->|Hne]
    by (destruct r as [[]|?|]; auto).
  - apply Hdone; [|done|done]. split; [|..|done].
    + split; simpl in *; try done; zlia_nonneg; simpl in *; zsimp; try lia.
      intros _. rewrite Hi. by apply Hint.
    + unfold engine_flow. simpl. rewrite Hw, Hp, app_nil_r, <- app_assoc. done.
  - apply Hother; [done|done|]. split; [|..|done].
    + split; simpl; rewrite ?Hp; try done. by rewrite Hi.
    + unfold engine_flow. simpl. rewrite Hw. destruct r as [[]|?|]; try done;
        by rewrite !app_nil_r.
Qed.

Lemma flush_packets_ok pending s :
  engine_ok s → en_pendingPackets s = pending →
  wp (flush_packets pending) (fun r s' => r ≠ UB ∧ emoved [] s s') s.
Proof.
  revert s. induction pending as [|front rest IH]; intros s Hs Hp; cbn [flush_packets].
  - apply wp_bind, wp_on_device. eapply wp_mono; [apply dev_SetWriteInterest_law|].
    intros r d (-> & Hi & Hw). wp_auto. split; [done|]. split; [|..|done].
    + destruct Hs. split; simpl; rewrite ?Hp in *; done.
    + unfold engine_flow. simpl. by rewrite Hw, app_nil_r.
  - apply wp_bind. eapply wp_write_front; [done|done|..].
    + intros [[]|?|] s' Hr Hne H; try done; wp_auto; done.
    + intros s' H Hp' Hb'. wp_step. rewrite Hp'. cbn [drop]. rewrite Hb'.
      eapply wp_mono; [apply IH; [apply H|done]|]. intros r s2 [Hr H2].
      split; [done|]. by eapply (emoved_trans [] []).
Qed.

Lemma ekeeps_FlushPackets : ekeeps [] (EngineImpl_FlushPackets : eff engine _).
Proof. apply ekeeps_get. intros s Hs. by apply flush_packets_ok. Qed.

Lemma ekeeps_ProcessDevice event count size result :
  ekeeps [] (EngineImpl_ProcessDevice event count size result : eff engine _).
Proof.
  apply ekeeps_get. intros s Hs. ifb; [by apply ekeeps_ret|]. ifb; [by apply ekeeps_throw|].
  ifb; [by apply ekeeps_throw|]. clear E E0 E1.
  enough (∀ (b c : bool), ekeeps []
    ((if b then let* flushed := EngineImpl_FlushPackets in
         match flushed with
         | Device_Closed => ethrow (RuntimeError "packet device closed during write")
         | _ => eret tt
         end else eret tt) ;;*
     if c then eret (true, result) else
     let* result := read_packets (Z.to_nat count) size result in eret (true, result)
     : eff engine _)) as H by (by apply H).
  intros b c. apply ekeeps_seq.
  - destruct b; [|apply ekeeps_ret]. apply ekeeps_seq; [apply ekeeps_FlushPackets|].
    intros []; auto using ekeeps_ret, ekeeps_throw.
  - intros _. destruct c; [apply ekeeps_ret|].
    apply ekeeps_seq; [apply ekeeps_read_packets|]. intros; apply ekeeps_ret.
Qed.

Lemma ekeeps_process_event count size event result :
  ekeeps [] (process_event count size event result : eff engine _).
Proof.
  apply ekeeps_seq; [apply ekeeps_ProcessEvent|]. intros processed. ifb; [|apply ekeeps_ret].
  apply ekeeps_seq; [apply ekeeps_ProcessDevice|]. intros []; apply ekeeps_ret.
Qed.

Lemma ekeeps_process_events count size events result :
  ekeeps [] (process_events count size events result : eff engine _).
Proof.
  revert result. induction events as [|event rest IH]; intros result; simpl; [apply ekeeps_ret|].
  apply ekeeps_seq; [apply ekeeps_process_event|]. done.
Qed.

Lemma TakePostedEvents_safe maximum (l : EventLoop L) :
  (EventLoop_TakePostedEvents maximum l).1 ≠ UB.
Proof.
  unfold EventLoop_TakePostedEvents, ebind, eget, emod, eret. destruct (take_posted _ _).
  by case_bool_decide.
Qed.

Lemma el_Wait_safe deadline maximum (l : EventLoop L) :
  (on_source (el_Wait deadline maximum) l).1 ≠ UB.
Proof.
  unfold on_source. destruct (el_Wait_law deadline maximum (lp_source l)) as [H _].
  by destruct (el_Wait _ _ _).
Qed.

Lemma ekeeps_Wait deadline events count size :
  ekeeps [] (EngineImpl_Wait deadline events count size : eff engine _).
Proof.
  apply ekeeps_seq; [apply ekeeps_on_loop, el_Wait_safe|]. intros ready.
  apply ekeeps_seq; [apply ekeeps_on_loop, TakePostedEvents_safe|].
  intros; apply ekeeps_process_events.
Qed.

Lemma ekeeps_QueuePacket packet s :
  engine_ok s → en_deviceOpen s = true →
  wp (EngineImpl_QueuePacket packet) (fun r s' => r ≠ UB ∧ emoved [packet] s s') s.
Proof.
  intros [Hc Hb Hn Hm Hi] Hopen. unfold EngineImpl_QueuePacket. wp_step.
  destruct (engine_room_spec (en_pendingPackets s) (en_pendingBytes s) (zlen packet) Hb)
    as (dropped & kept & Hp & Hroom & Hk). rewrite Hroom.
  pose proof (packets_bytes_nonneg dropped). pose proof (packets_bytes_nonneg kept).
  assert (en_pendingPackets s ≠ [] ∨ kept = []) as Hne.
  { rewrite Hp. destruct kept; [by right|]. left. by destruct dropped. }
  rewrite Hp, packets_bytes_app in Hb. rewrite Hp in Hn. ifb.
  - wp_auto. split; [done|]. split; [|..|done].
    + split; simpl; try done; [zlia|lia|]. destruct Hne as [Hne| ->]; [by auto|done].
    + unfold engine_flow. simpl. rewrite Hp. apply sublist_inserts_r.
      apply sublist_app; [done|]. by apply sublist_inserts_l.
  - wp_step. apply wp_bind, wp_on_device. eapply wp_mono; [apply dev_SetWriteInterest_law|].
    intros r d (-> & Hd & Hw). wp_auto. split; [done|]. split; [|..|done].
    + b2p. split; simpl; try done;
        unfold Engine_MaximumPendingPackets, Engine_MaximumPendingBytes in *.
      * rewrite packets_bytes_app. simpl. lia.
      * destruct Hk as [->|[Hk _]]; zlia.
      * destruct Hk as [->|[_ Hk]]; simpl; lia.
    + unfold engine_flow. simpl. rewrite Hw, Hp, <- app_assoc. apply sublist_app; [done|].
      rewrite <- app_assoc. by apply sublist_inserts_l.
Qed.

Lemma ekeeps_WritePacket packet : ekeeps [packet] (EngineImpl_WritePacket packet : eff engine _).
Proof.
  apply ekeeps_get. intros s Hs. pose proof (emoved_refl s Hs) as Hsame.
  apply (emoved_weaken _ [packet]) in Hsame; [|apply sublist_nil_l].
  destruct (en_deviceOpen s) eqn:Eo; simpl; [|wp_auto; done].
  assert (∀ s1, emoved [] s s1 → en_deviceOpen s1 = true →
    wp (let* queued := EngineImpl_QueuePacket packet in
        eret (if queued : bool then Write_Queued else Write_Dropped))
      (fun r s' => r ≠ UB ∧ emoved [packet] s s') s1) as Hqueue.
  { intros s1 H1 Ho. apply wp_bind. eapply wp_mono; [apply ekeeps_QueuePacket; [apply H1|done]|].
    intros [b|e|] s2 [Hr H2]; [wp_auto|..]; try done;
      (split; [done|by eapply (emoved_trans [] [packet])]). }
  case_bool_decide as Ep; simpl; [|apply Hqueue; [by apply emoved_refl|done]].
  apply wp_bind, wp_on_device. eapply wp_mono; [apply dev_TryWrite_law|].
  intros r d (Hr & Hi & Hw).
  assert (engine_ok (en_set_device d s)) as Hok.
  { destruct Hs. split; simpl; rewrite ?Ep in *; done. }
  assert (r ≠ Ok Device_Complete → emoved [] s (en_set_device d s)) as Hm.
  { intros Hne. split; [done| |done]. unfold engine_flow. simpl. rewrite Hw.
    destruct r as [[]|?|]; try done; by rewrite !app_nil_r. }
  destruct r as [[]|e|]; try done.
  - wp_auto. split; [done|]. split; [done| |done]. unfold engine_flow. simpl.
    by rewrite Hw, Ep, !app_nil_r.
  - apply Hqueue; [by apply Hm|done].
  - wp_auto. split; [done|]. eapply emoved_weaken; [by apply Hm|apply sublist_nil_l].
  - split; [done|]. eapply emoved_weaken; [by apply Hm|apply sublist_nil_l].
Qed.

Lemma ekeeps_OpenPacketDevice options :
  ekeeps [] (EngineImpl_OpenPacketDevice options : eff engine _).
Proof.
  apply ekeeps_get. intros s Hs. pose proof (emoved_refl s Hs) as Hsame.
  destruct (en_deviceOpen s) eqn:Eo; simpl; [wp_auto; done|]. ifb; [wp_auto; done|].
  assert (en_pendingPackets s = []) as Ep.
  { destruct (decide (en_pendingPackets s = [])) as [|Hne]; [done|].
    destruct (eo_interest s Hs Hne) as [? _]. congruence. }
  apply wp_bind, wp_on_device. eapply wp_mono; [apply dev_Open_law|].
  intros r d [Hr Hw].
  assert (∀ s', en_connection s' = en_connection s → en_device s' = d →
    en_pendingPackets s' = [] → en_pendingBytes s' = en_pendingBytes s → emoved [] s s') as Hm.
  { intros s' Hc Hd Hp Hb. split; [destruct Hs; split; rewrite ?Hp, ?Hb, ?Hc, ?Ep in *; done| |by rewrite Hc].
    unfold engine_flow. by rewrite Hd, Hp, Hw, Ep, !app_nil_r. }
  destruct r as [[]|e|]; simpl; try done; wp_auto; (split; [done|]); by apply Hm.
Qed.

Lemma ekeeps_Reset : ekeeps [] (EngineImpl_Reset : eff engine _).
Proof.
  intros s Hs. split; [done|]. split.
  - split; try done. split; done || constructor.
  - unfold engine_flow. simpl. rewrite dev_Close_law, !app_nil_r. by apply sublist_inserts_r.
  - intros k e (p & Hf & _). done.
Qed.

(** ** Runs *)

Inductive engine_call :=
  | Engine_Open (options : DeviceOptions)
  | Engine_Write (packet : bytes)
  | Engine_Wait (deadline : option Z) (maximumEvents maximumDatagrams maximumSize : Z)
  | Engine_Reset.

Definition engine_run_call (c : engine_call) : eff engine unit :=
  match c with
  | Engine_Open options => EngineImpl_OpenPacketDevice options ;;* eret tt
  | Engine_Write packet => EngineImpl_WritePacket packet ;;* eret tt
  | Engine_Wait deadline events datagrams size =>
      EngineImpl_Wait deadline events datagrams size ;;* eret tt
  | Engine_Reset => EngineImpl_Reset
  end.

Definition engine_run (calls : list engine_call) (s : engine) : engine :=
  foldl (fun s c => (engine_run_call c s).2) s calls.

Definition engine_submits (c : engine_call) : list bytes :=
  match c with Engine_Write packet => [packet] | _ => [] end.

Lemma ekeeps_run_call c : ekeeps (engine_submits c) (engine_run_call c).
Proof.
  destruct c; simpl.
  - apply ekeeps_seq; [apply ekeeps_OpenPacketDevice|intros; apply ekeeps_ret].
  - apply (ekeeps_bind [packet] []); [apply ekeeps_WritePacket|intros; apply ekeeps_ret].
  - apply ekeeps_seq; [apply ekeeps_Wait|intros; apply ekeeps_ret].
  - apply ekeeps_Reset.
Qed.

Lemma engine_run_moved calls s :
  engine_ok s → emoved (concat (map engine_submits calls)) s (engine_run calls s).
Proof.
  revert s. induction calls as [|c calls IH]; intros s Hs; simpl; [by apply emoved_refl|].
  destruct (ekeeps_run_call c s Hs) as [_ H1]. eapply emoved_trans; [exact H1|].
  apply IH, H1.
Qed.

Lemma engine_new_ok l c d : connection_ok c → engine_ok (EngineImpl_new l c d).
Proof. intros Hc. by split. Qed.

End engine_proofs.

Section engine_theorems.
  Context {L U D : Type} `{!EventSource L} `{!UdpSocket U} `{!Device D}.
  Context `{!EventSourceLaws L} `{!UdpSocketLaws U} `{!DeviceLaws D}.

(** C16: packets for the host reach the packet device in the order in which they were written
    to the engine, each at most once, and those queued come after those it has taken; the queue
    stays within 1024 packets and 4 MiB and counts its bytes right; while a packet is queued the
    device is open and its owner has asked for the event that flushes it; and no call has
    undefined behaviour, whatever the device, the sockets and the event source do. *)
Theorem EngineImpl_in_order (calls : list engine_call) (c : engine_call) (l : EventLoop L)
    (connection : MagicConnection U) (d : D) :
  conn_inv [] (fun _ => false) connection →
  let s := engine_run calls (EngineImpl_new l connection d) in
  (engine_run_call c s).1 ≠ UB
  ∧ dev_written (en_device s) ++ en_pendingPackets s
      `sublist_of` dev_written d ++ concat (map engine_submits calls)
  ∧ en_pendingBytes s = packets_bytes (en_pendingPackets s)
  ∧ zlen (en_pendingPackets s) <= 1024 ∧ en_pendingBytes s <= 4 * 1024 * 1024
  ∧ (en_pendingPackets s ≠ [] → en_deviceOpen s = true ∧ dev_interest (en_device s) = true).
Proof.
  intros Hc s. destruct (engine_run_moved calls _ (engine_new_ok l connection d Hc)) as [Hs Hf _].
  split; [by apply ekeeps_run_call|]. split; [|by destruct Hs].
  etrans; [exact Hf|]. unfold engine_flow. simpl. by rewrite app_nil_r.
Qed.

End engine_theorems.

(** ** Where events go *)

(** What decides which events a connection takes: whether it has a socket, its token and the keys
    of its peers. *)
Definition shape {U} (c : MagicConnection U) : bool * Z * list bytes :=
  (bool_decide (is_Some (mc_socket c)), mc_readinessToken c, map fst (mc_peers c)).

Section shapes.
  Context {U : Type} `{!UdpSocket U}.

Abbreviation conn := (MagicConnection U).

Definition keeps_shape {A} (m : eff conn A) : Prop := ∀ s, shape (m s).2 = shape s.

Lemma keeps_shape_bind {A B} (m : eff conn A) (f : A → eff conn B) :
  keeps_shape m → (∀ a, keeps_shape (f a)) → keeps_shape (ebind m f).
Proof.
  intros Hm Hf s. unfold ebind. specialize (Hm s). destruct (m s) as [[a|e|] s']; simpl in *; [|done..].
  by rewrite Hf.
Qed.

Lemma keeps_shape_ret {A} (a : A) : keeps_shape (eret a).
Proof. done. Qed.

Lemma keeps_shape_get : keeps_shape eget.
Proof. done. Qed.

Lemma keeps_shape_socket {A} (m : eff U A) : keeps_shape (on_socket m).
Proof. intros s. unfold on_socket. destruct (mc_socket s) eqn:E; [|done]. destruct (m u). unfold shape. simpl. by rewrite E. Qed.

Lemma keeps_shape_alter k f : keeps_shape (alter_peer k f).
Proof.
  intros s. unfold alter_peer, emod, shape. simpl. f_equal. unfold map_alter.
  rewrite map_map. apply map_ext. intros e. by case_bool_decide.
Qed.

Lemma keeps_shape_path k f : keeps_shape (alter_path k f).
Proof. apply keeps_shape_alter. Qed.

Lemma keeps_shape_lift {A} (m : outcome A) : keeps_shape (elift m).
Proof. done. Qed.

End shapes.

Create HintDb shape.
#[export] Hint Resolve keeps_shape_bind keeps_shape_ret keeps_shape_get keeps_shape_socket
  keeps_shape_alter keeps_shape_path keeps_shape_lift : shape.

(** [shape_auto]: a call built of operations that keep the shape. *)
Ltac shape_auto :=
  repeat match goal with
  | |- keeps_shape (ebind _ _) => apply keeps_shape_bind; [|intros ?]
  | |- keeps_shape (if ?b then _ else _) => destruct b
  | |- keeps_shape (match ?x with _ => _ end) => destruct x
  | |- keeps_shape (let _ := _ in _) => cbv zeta
  | |- _ => solve [auto with shape]
  end.

Section shapes2.
  Context {U : Type} `{!UdpSocket U}.

Abbreviation conn := (MagicConnection U).

Lemma keeps_shape_UpdateWriteInterest : keeps_shape (Magic_UpdateWriteInterest : eff conn _).
Proof. unfold Magic_UpdateWriteInterest. shape_auto. Qed.

#[local] Hint Resolve keeps_shape_UpdateWriteInterest : shape.

Lemma keeps_shape_FlushPeer peer pending : keeps_shape (FlushPeer_loop peer pending : eff conn _).
Proof. induction pending; simpl; shape_auto. Qed.

#[local] Hint Resolve keeps_shape_FlushPeer : shape.

Lemma keeps_shape_FlushPending peers : keeps_shape (FlushPending_loop peers : eff conn _).
Proof. induction peers as [|[]]; simpl; shape_auto. Qed.

Lemma keeps_shape_receive todo size datagrams :
  keeps_shape (receive_loop todo size datagrams : eff conn _).
Proof. revert datagrams. induction todo; intros; simpl; shape_auto. Qed.

#[local] Hint Resolve keeps_shape_FlushPending keeps_shape_receive : shape.

Lemma keeps_shape_ProcessEvent event count size :
  keeps_shape (MagicConnection_ProcessEvent event count size : eff conn _).
Proof. unfold MagicConnection_ProcessEvent, Magic_FlushPending. shape_auto. Qed.

Lemma keeps_shape_Queue peer d payload : keeps_shape (Magic_Queue peer d payload : eff conn _).
Proof. unfold Magic_Queue. shape_auto. Qed.

#[local] Hint Resolve keeps_shape_Queue : shape.

Lemma keeps_shape_SendDirect peer d payload :
  keeps_shape (MagicConnection_SendDirect peer d payload : eff conn _).
Proof. unfold MagicConnection_SendDirect. shape_auto. Qed.

#[local] Hint Resolve keeps_shape_SendDirect : shape.

Lemma keeps_shape_Send now peer payload expect :
  keeps_shape (MagicConnection_Send now peer payload expect : eff conn _).
Proof. unfold MagicConnection_Send. shape_auto. Qed.

Lemma keeps_shape_TrySendProbe d payload :
  keeps_shape (MagicConnection_TrySendProbe d payload : eff conn _).
Proof. unfold MagicConnection_TrySendProbe. shape_auto. Qed.

Lemma keeps_shape_ProbePeer peer payload :
  keeps_shape (MagicConnection_ProbePeer peer payload : eff conn _).
Proof.
  assert (∀ l, keeps_shape (probe_endpoints l payload : eff conn _)) as H
    by (induction l; simpl; shape_auto).
  unfold MagicConnection_ProbePeer. shape_auto.
Qed.

Lemma keeps_shape_flag peer f : keeps_shape (path_flag peer f : eff conn _).
Proof. unfold path_flag. shape_auto. Qed.

Lemma keeps_shape_ResetPath peer mode : keeps_shape (MagicConnection_ResetPath peer mode : eff conn _).
Proof. unfold MagicConnection_ResetPath. shape_auto. Qed.

Lemma ProcessEvent_handled event count size (c : conn) r c' :
  MagicConnection_ProcessEvent event count size c = (Ok r, c') →
  me_Handled r = bool_decide (is_Some (mc_socket c)) && negb (mc_readinessToken c =? 0)
                 && (ev_Token event =? mc_readinessToken c).
Proof.
  assert (∀ todo datagrams c1 r1 c2,
    receive_loop todo size datagrams c1 = (Ok r1, c2) → me_Handled r1 = true) as Hloop.
  { induction todo as [|todo IH]; intros datagrams c1 r1 c2; simpl.
    - by intros [= <- _].
    - unfold ebind. destruct (on_socket _ _) as [[x|e|] c3]; [|done..].
      destruct (ur_Result x); [apply IH|by intros [= <- _]|apply IH|by intros [= <- _]]. }
  unfold MagicConnection_ProcessEvent. unfold ebind at 1. simpl.
  destruct (mc_socket c) as [u|] eqn:Eu; simpl; [|by intros [= <- _]].
  destruct (mc_readinessToken c =? 0); simpl; [by intros [= <- _]|].
  destruct (ev_Token event =? mc_readinessToken c); simpl; [|by intros [= <- _]].
  ifb; [by intros [= <- _]|]. ifb; [by intros [= <- _]|].
  unfold ebind. case_match eqn:Eflush. destruct o as [[]|e|]; [|by intros [= <- _]..|done|done].
  ifb; [by intros [= <- _]|]. apply Hloop.
Qed.

End shapes2.
#[export] Hint Resolve keeps_shape_UpdateWriteInterest keeps_shape_ProcessEvent
  keeps_shape_SendDirect keeps_shape_Send keeps_shape_TrySendProbe keeps_shape_ProbePeer
  keeps_shape_flag keeps_shape_ResetPath : shape.

Section routing.
  Context {L U D : Type} `{!EventSource L} `{!UdpSocket U} `{!Device D}.

Abbreviation engine := (EngineImpl L U D).

(** What decides where an event goes. *)
Definition eshape (s : engine) : (bool * Z * list bytes) * Z * bool :=
  (shape (en_connection s), en_deviceToken s, en_deviceOpen s).

Definition keeps_eshape {A} (m : eff engine A) : Prop := ∀ s, eshape (m s).2 = eshape s.

Lemma keeps_eshape_bind {A B} (m : eff engine A) (f : A → eff engine B) :
  keeps_eshape m → (∀ a, keeps_eshape (f a)) → keeps_eshape (ebind m f).
Proof.
  intros Hm Hf s. unfold ebind. specialize (Hm s).
  destruct (m s) as [[a|e|] s']; simpl in *; [|done..]. by rewrite Hf.
Qed.

Lemma keeps_eshape_device {A} (m : eff D A) : keeps_eshape (on_device m).
Proof. intros s. unfold on_device. by destruct (m _). Qed.

Lemma keeps_eshape_loop {A} (m : eff (EventLoop L) A) : keeps_eshape (on_loop m).
Proof. intros s. unfold on_loop. by destruct (m _). Qed.

Lemma keeps_eshape_connection {A} (m : eff (MagicConnection U) A) :
  keeps_shape m → keeps_eshape (on_connection m).
Proof.
  intros Hm s. unfold on_connection. specialize (Hm (en_connection s)).
  destruct (m _) as [r c]. unfold eshape. simpl in *. by rewrite Hm.
Qed.

Lemma keeps_eshape_flush pending : keeps_eshape (flush_packets pending : eff engine _).
Proof.
  induction pending as [|front rest IH]; simpl.
  - apply keeps_eshape_bind; [apply keeps_eshape_device|done].
  - apply keeps_eshape_bind; [apply keeps_eshape_device|]. intros []; [|done..].
    by apply keeps_eshape_bind.
Qed.

Lemma keeps_eshape_read todo size result : keeps_eshape (read_packets todo size result : eff engine _).
Proof.
  revert result. induction todo as [|todo IH]; intros result; simpl; [done|].
  apply keeps_eshape_bind; [apply keeps_eshape_device|]. intros [[] packet]; simpl; [apply IH|done..].
Qed.

Lemma keeps_eshape_ProcessDevice event count size result :
  keeps_eshape (EngineImpl_ProcessDevice event count size result : eff engine _).
Proof.
  apply keeps_eshape_bind; [done|]. intros s. ifb; [done|]. ifb; [done|]. ifb; [done|].
  apply keeps_eshape_bind.
  - ifb; [|done]. apply keeps_eshape_bind; [|by intros []].
    apply keeps_eshape_bind; [done|]. intros; apply keeps_eshape_flush.
  - intros _. ifb; [done|]. apply keeps_eshape_bind; [apply keeps_eshape_read|done].
Qed.

Lemma keeps_eshape_process_event count size event result :
  keeps_eshape (process_event count size event result : eff engine _).
Proof.
  apply keeps_eshape_bind; [apply keeps_eshape_connection; auto with shape|]. intros p. ifb; [|done].
  apply keeps_eshape_bind; [apply keeps_eshape_ProcessDevice|by intros []].
Qed.

Lemma keeps_eshape_process_events count size events result :
  keeps_eshape (process_events count size events result : eff engine _).
Proof.
  revert result. induction events as [|event rest IH]; intros result; simpl; [done|].
  apply keeps_eshape_bind; [apply keeps_eshape_process_event|]. intros; apply IH.
Qed.

Lemma keeps_eshape_Wait deadline events count size :
  keeps_eshape (EngineImpl_Wait deadline events count size : eff engine _).
Proof.
  apply keeps_eshape_bind; [apply keeps_eshape_loop|]. intros ready.
  apply keeps_eshape_bind; [apply keeps_eshape_loop|]. intros; apply keeps_eshape_process_events.
Qed.

(** The connection takes the events of its token, the device those of its own. *)
Definition event_taken (s : engine) (event : Event) : bool :=
  bool_decide (is_Some (mc_socket (en_connection s)))
    && negb (mc_readinessToken (en_connection s) =? 0)
    && (ev_Token event =? mc_readinessToken (en_connection s))
  || en_deviceOpen s && (ev_Token event =? en_deviceToken s).

Lemma event_taken_shape s s' event : eshape s' = eshape s → event_taken s' event = event_taken s event.
Proof. unfold eshape, shape, event_taken. intros [=]. congruence. Qed.

Lemma read_packets_platform todo size result r (s s' : engine) :
  read_packets todo size result s = (Ok r, s') → ew_PlatformEvents r = ew_PlatformEvents result.
Proof.
  revert result s. induction todo as [|todo IH]; intros result s; simpl; [by intros [= <- _]|].
  unfold ebind. destruct (on_device _ _) as [[[[] packet]|e|] s1]; simpl; try done.
  - intros H%IH. rewrite H. simpl. by rewrite app_nil_r.
  - by intros [= <- _].
Qed.

Lemma ProcessDevice_platform event count size result b r (s s' : engine) :
  EngineImpl_ProcessDevice event count size result s = (Ok (b, r), s') →
  b = en_deviceOpen s && (ev_Token event =? en_deviceToken s)
  ∧ ew_PlatformEvents r = ew_PlatformEvents result.
Proof.
  unfold EngineImpl_ProcessDevice. unfold ebind at 1. simpl.
  destruct (en_deviceOpen s); simpl; [|by intros [= <- <- _]].
  destruct (ev_Token event =? en_deviceToken s); simpl; [|by intros [= <- <- _]].
  ifb; [done|]. ifb; [done|]. unfold ebind at 1. case_match. destruct o; [|done..].
  ifb; [by intros [= <- <- _]|]. unfold ebind.
  destruct (read_packets _ _ _ _) as [[r1|?|] s1] eqn:Er; [|done..].
  intros [= <- <- _]. split; [done|]. by eapply read_packets_platform.
Qed.

Lemma process_event_platform count size event result r (s s' : engine) :
  process_event count size event result s = (Ok r, s') →
  ew_PlatformEvents r = ew_PlatformEvents result ++ (if event_taken s event then [] else [event]).
Proof.
  unfold process_event. unfold ebind at 1.
  pose proof (keeps_eshape_connection (MagicConnection_ProcessEvent event count size)
    (keeps_shape_ProcessEvent event count size) s) as Hsh.
  destruct (on_connection _ s) as [[p|e|] s1] eqn:Ep; [|done..]. simpl in Hsh.
  assert (me_Handled p = bool_decide (is_Some (mc_socket (en_connection s)))
    && negb (mc_readinessToken (en_connection s) =? 0)
    && (ev_Token event =? mc_readinessToken (en_connection s))) as Hh.
  { unfold on_connection in Ep. destruct (MagicConnection_ProcessEvent _ _ _ _) as [[x|e|] c] eqn:Ec;
      simplify_eq. by eapply ProcessEvent_handled. }
  unfold event_taken. rewrite <- Hh. destruct (me_Handled p); simpl.
  - intros [= <- _]. simpl. done.
  - unfold ebind. destruct (EngineImpl_ProcessDevice _ _ _ _ s1) as [[[b r1]|e|] s2] eqn:Ed; [|done..].
    apply ProcessDevice_platform in Ed as [-> Hr].
    assert (en_deviceToken s1 = en_deviceToken s ∧ en_deviceOpen s1 = en_deviceOpen s) as [-> ->]
      by (unfold eshape in Hsh; by simplify_eq). intros [= <- _]. ifb; simpl; rewrite ?Hr, ?app_nil_r; done.
Qed.

Lemma process_events_platform count size events result r (s s' : engine) :
  process_events count size events result s = (Ok r, s') →
  ew_PlatformEvents r = ew_PlatformEvents result
    ++ List.filter (fun event => negb (event_taken s event)) events.
Proof.
  revert result s. induction events as [|event rest IH]; intros result s; simpl.
  - intros [= <- _]. by rewrite app_nil_r.
  - unfold ebind. destruct (process_event _ _ _ _ s) as [[r1|e|] s1] eqn:Ee; [|done..].
    intros H%IH. rewrite H. apply process_event_platform in Ee as He. rewrite He, <- app_assoc.
    pose proof (keeps_eshape_process_event count size event result s) as Hsh. rewrite Ee in Hsh.
    simpl in Hsh. f_equal. rewrite (filter_ext _ _ (fun ev => f_equal negb (event_taken_shape _ _ ev Hsh))).
    by destruct (event_taken s event).
Qed.

(** No event is lost or seen twice by the engine: of the events that the platform delivered
    and those that completions posted (at most 64 of them; the others stay posted), it hands back,
    in order, exactly those that are neither the socket's nor the packet device's. *)
Theorem EngineImpl_Process_routes (ready : EventWaitResult) count size result (s s' : engine) :
  EngineImpl_Process ready count size s = (Ok result, s') →
  let '(completions, remaining) := take_posted 64 (lp_posted (en_eventLoop s)) in
  ew_PlatformEvents result
  = List.filter (fun event => negb (event_taken s event)) (wt_Events ready ++ completions)
  ∧ lp_posted (en_eventLoop s)
    = map (fun event => (ev_Token event, ev_Readiness event)) completions ++ remaining.
Proof.
  unfold EngineImpl_Process. unfold ebind at 1.
  destruct (take_posted 64 (lp_posted (en_eventLoop s))) as [completions remaining] eqn:Et.
  assert ((on_loop (EventLoop_TakePostedEvents MaximumCompletionEvents) s).1 = Ok completions) as Hc.
  { unfold on_loop, EventLoop_TakePostedEvents, ebind, eget, emod, eret.
    change (Z.to_nat MaximumCompletionEvents) with 64%nat. rewrite Et. by case_bool_decide. }
  pose proof (keeps_eshape_loop (EventLoop_TakePostedEvents MaximumCompletionEvents) s) as Hsh.
  destruct (on_loop _ s) as [o s1]. simpl in Hc, Hsh. subst o.
  intros H%process_events_platform. split.
  - rewrite H. simpl. apply filter_ext. intros ev. f_equal. by apply event_taken_shape.
  - clear -Et. revert completions remaining Et. generalize 64%nat.
    induction (lp_posted (en_eventLoop s)) as [|[t r] m IH]; intros [|n] completions remaining;
      simpl; try (by intros [= <- <-]).
    destruct (take_posted n m) as [c' r'] eqn:E. intros [= <- <-]. simpl.
    by rewrite (IH _ _ _ E).
Qed.

End routing.

(** ** What binding leaves of the events it saw *)

(** The readiness recorded for a token, and that of the events for it. *)
Definition bits (t : Z) (m : list (Z * Z)) : Z :=
  fold_right (fun e n => if e.1 =? t then Z.lor e.2 n else n) 0 m.

Definition event_bits (t : Z) (events : list Event) : Z :=
  fold_right (fun e n => if ev_Token e =? t then Z.lor (ev_Readiness e) n else n) 0 events.

Lemma bits_add t token readiness m :
  bits t (post_add token readiness m) = Z.lor (bits t m) (if token =? t then readiness else 0).
Proof.
  induction m as [|[t' r] m IH]; simpl.
  - ifb; by rewrite Z.lor_0_r.
  - destruct (Z.eqb_spec token t') as [->|]; simpl.
    + ifb; [|by rewrite Z.lor_0_r]. rewrite <- !Z.lor_assoc. f_equal. apply Z.lor_comm.
    + ifb; simpl.
      * destruct (token =? t), (t' =? t); rewrite ?Z.lor_0_r; try done; by rewrite Z.lor_comm.
      * rewrite IH. destruct (t' =? t); [|done]. by rewrite Z.lor_assoc.
Qed.

Lemma event_bits_app t l k : event_bits t (l ++ k) = Z.lor (event_bits t l) (event_bits t k).
Proof. induction l as [|e l IH]; simpl; [done|]. ifb; [|done]. by rewrite IH, Z.lor_assoc. Qed.

Lemma bits_take t n m :
  bits t m = Z.lor (event_bits t (take_posted n m).1) (bits t (take_posted n m).2).
Proof.
  revert m. induction n as [|n IH]; intros [|[t' r] m]; simpl; try done.
  specialize (IH m). destruct (take_posted n m) as [events remaining]. simpl in *.
  rewrite IH. ifb; [|done]. by rewrite Z.lor_assoc.
Qed.

Section bind_proofs.
  Context {L U : Type} `{!EventSource L} `{!UdpSocket U} `{!EventSourceLaws L} `{!UdpSocketLaws U}.
  Context (own : Z).

Abbreviation st := (BindState L U).

(** The readiness of [t] that is posted or put off. *)
Definition held (t : Z) (s : st) : Z :=
  Z.lor (bits t (lp_posted (bs_events s))) (bits t (bs_deferred s)).

(** Of the token being bound only the flag that datagrams have arrived counts. *)
Definition relevant (t n : Z) : Z := if t =? own then Z.land n Readiness_Readable else n.

Lemma relevant_lor t a b : relevant t (Z.lor a b) = Z.lor (relevant t a) (relevant t b).
Proof. unfold relevant. ifb; [|done]. apply Z.land_lor_distr_l. Qed.

(** The events seen in a part of a call, all of them kept. *)
Record kept (events : list Event) (s s' : st) : Prop := {
  kp_delivered : el_delivered (lp_source (bs_events s'))
                 = el_delivered (lp_source (bs_events s)) ++ events;
  kp_held : ∀ t, relevant t (held t s') = relevant t (Z.lor (held t s) (event_bits t events));
  kp_connection : bs_connection s' = bs_connection s
}.

Lemma bind_kept_refl s : kept [] s s.
Proof. split; [by rewrite app_nil_r| |done]. intros t. simpl. by rewrite Z.lor_0_r. Qed.

Lemma bind_kept_trans events events' s1 s2 s3 :
  kept events s1 s2 → kept events' s2 s3 → kept (events ++ events') s1 s3.
Proof.
  intros [D1 H1 C1] [D2 H2 C2]. split; [by rewrite D2, D1, app_assoc| |congruence].
  intros t. rewrite H2, relevant_lor, H1, <- relevant_lor, event_bits_app. by rewrite Z.lor_assoc.
Qed.

(** Scanning events puts off what is relevant of them. *)
Lemma bind_scan_kept events failed closed s :
  wp (bind_scan own events failed closed) (fun r s' => (∃ p, r = Ok p)
    ∧ bs_events s' = bs_events s ∧ bs_connection s' = bs_connection s
    ∧ ∀ t, relevant t (held t s') = relevant t (Z.lor (held t s) (event_bits t events))) s.
Proof.
  revert failed closed s. induction events as [|event rest IH]; intros failed closed s; simpl.
  - wp_auto. split_and!; try done; [by eexists|]. intros t. by rewrite Z.lor_0_r.
  - assert (∀ s1 f c, bs_events s1 = bs_events s → bs_connection s1 = bs_connection s →
      (∀ t, relevant t (held t s1) = relevant t (Z.lor (held t s)
               (if ev_Token event =? t then ev_Readiness event else 0))) →
      wp (bind_scan own rest f c) (fun r s' => (∃ p, r = Ok p)
        ∧ bs_events s' = bs_events s ∧ bs_connection s' = bs_connection s
        ∧ ∀ t, relevant t (held t s') = relevant t (Z.lor (held t s)
            (if ev_Token event =? t then Z.lor (ev_Readiness event) (event_bits t rest)
             else event_bits t rest))) s1) as Hrest.
    { intros s1 f c He Hc Hh. eapply wp_mono; [apply IH|]. intros r s' (Hr & He' & Hc' & Hh').
      split_and!; [done|congruence..|]. intros t. rewrite Hh', relevant_lor, Hh, <- relevant_lor.
      f_equal. destruct (ev_Token event =? t); [by rewrite Z.lor_assoc|by rewrite Z.lor_0_r]. }
    assert (∀ token r t, held t (bs_set_deferred (post_add token r (bs_deferred s)) s)
      = Z.lor (held t s) (if token =? t then r else 0)) as Hadd.
    { intros token r t. unfold held. simpl. by rewrite bits_add, Z.lor_assoc. }
    unfold Deferred_Add. destruct (Z.eqb_spec (ev_Token event) own) as [E|E]; simpl.
    + destruct (HasReadiness (ev_Readiness event) Readiness_Readable) eqn:Er; wp_auto; apply Hrest;
        try done; intros t.
      * cbn [ev_Token ev_Readiness]. rewrite Hadd, !relevant_lor. f_equal.
        destruct (Z.eqb_spec (ev_Token event) t); [|done]. subst t. unfold relevant.
        rewrite (proj2 (Z.eqb_eq _ _)) by done. clear -Er.
        unfold HasReadiness, Readiness_Readable in *. change (Z.shiftl 1 0) with (Z.ones 1) in *.
        rewrite !Z.land_ones in * by lia. pose proof (Z.mod_pos_bound (ev_Readiness event) 2).
        change (2 ^ 1) with 2 in *. destruct (Z.eqb_spec (ev_Readiness event mod 2) 0); [done|].
        change (Z.ones 1 mod 2) with 1. lia.
      * rewrite relevant_lor. destruct (Z.eqb_spec (ev_Token event) t); [|by rewrite <- relevant_lor, Z.lor_0_r].
        subst t. unfold relevant. rewrite (proj2 (Z.eqb_eq _ _)) by done.
        unfold HasReadiness in Er. b2p. by rewrite Er, Z.lor_0_r.
    + wp_auto. apply Hrest; [done|done|]. intros t. by rewrite Hadd.
Qed.

Lemma Wait_kept deadline maximum (s : st) :
  wp (bind_events (on_source (el_Wait deadline maximum))) (fun r s' => r ≠ UB
    ∧ el_delivered (lp_source (bs_events s')) = el_delivered (lp_source (bs_events s))
        ++ match r with Ok ready => wt_Events ready | _ => [] end
    ∧ lp_posted (bs_events s') = lp_posted (bs_events s)
    ∧ bs_deferred s' = bs_deferred s ∧ bs_connection s' = bs_connection s) s.
Proof.
  unfold wp, bind_events, on_source.
  destruct (el_Wait_law deadline maximum (lp_source (bs_events s))) as [Hr Hd].
  by destruct (el_Wait _ _ _).
Qed.

Lemma Take_kept maximum (s : st) :
  wp (bind_events (EventLoop_TakePostedEvents maximum)) (fun r s' => ∃ events, r = Ok events
    ∧ el_delivered (lp_source (bs_events s')) = el_delivered (lp_source (bs_events s))
    ∧ (∀ t, bits t (lp_posted (bs_events s))
            = Z.lor (event_bits t events) (bits t (lp_posted (bs_events s'))))
    ∧ bs_deferred s' = bs_deferred s ∧ bs_connection s' = bs_connection s) s.
Proof.
  unfold wp, bind_events, EventLoop_TakePostedEvents, EventLoop_Wake, ebind, eget, emod, eret.
  pose proof (fun t => bits_take t (Z.to_nat maximum) (lp_posted (bs_events s))) as Hb.
  destruct (take_posted _ _) as [events remaining]. exists events.
  case_bool_decide; simpl; rewrite ?el_Wake_law; done.
Qed.

(** One round: what follows the wait sees every event kept. *)
Lemma round_kept {A} (k : EventWaitResult → bool * bool → eff st A) Q deadline s :
  (∀ e s', kept [] s s' → Q (Throw e) s') →
  (∀ ready p s' events, kept events s s' → wp (k ready p) Q s') →
  wp (let* ready := bind_events (on_source (el_Wait deadline MaximumBindEvents)) in
      let* completions := bind_events (EventLoop_TakePostedEvents MaximumBindEvents) in
      let* p := bind_scan own (wt_Events ready ++ completions) false false in k ready p) Q s.
Proof.
  intros Hthrow Hk. apply wp_bind. eapply wp_mono; [apply Wait_kept|].
  intros r s1 (Hr & Hd1 & Hp1 & Hf1 & Hc1). destruct r as [ready|e|]; [|apply Hthrow|done].
  - apply wp_bind. eapply wp_mono; [apply Take_kept|]. intros r s2 (events & -> & Hd2 & Hb2 & Hf2 & Hc2).
    apply wp_bind. eapply wp_mono; [apply bind_scan_kept|]. intros r s3 ([p ->] & He3 & Hc3 & Hh3).
    apply (Hk ready p s3 (wt_Events ready)). split; [by rewrite He3, Hd2, Hd1| |congruence].
    intros t. rewrite Hh3. f_equal. unfold held. rewrite Hf2, Hf1, <- Hp1, Hb2, event_bits_app.
    apply Z.bits_inj'. intros n Hn. rewrite !Z.lor_spec. btauto.
  - split; [by rewrite Hd1| |done]. intros t. simpl. rewrite Z.lor_0_r. unfold held. by rewrite Hp1, Hf1.
Qed.

(** What the loop leaves: an endpoint only if the socket is bound. *)
Definition loop_left (s : st) (r : outcome (option Endpoint)) (s' : st) : Prop :=
  r ≠ UB ∧ (∃ events, kept events s s')
  ∧ ∀ e, r = Ok (Some e) →
      ep_port e ≠ 0 ∧ MagicConnection_LocalEndpoint (bs_connection s') = Ok (Some e).

Lemma loop_left_step events s s1 r s' : kept events s s1 → loop_left s1 r s' → loop_left s r s'.
Proof.
  intros H1 (Hr & [events' H2] & He). split_and!; [done| |done].
  exists (events ++ events'). by eapply bind_kept_trans.
Qed.

Lemma loop_left_throw e events s s' : kept events s s' → loop_left s (Throw e) s'.
Proof. intros H. split_and!; [done|by exists events|done]. Qed.

Lemma bind_loop_left rounds deadlineAt s :
  wp (bind_loop rounds own deadlineAt) (loop_left s) s.
Proof.
  revert s. induction rounds as [|[stop now] rest IH]; intros s; cbn [bind_loop].
  { wp_auto. split_and!; [done| |done]. exists []. apply bind_kept_refl. }
  destruct stop; [wp_auto; by apply (loop_left_throw _ []), bind_kept_refl|]. wp_auto.
  set (wait := if deadlineAt <=? now then _ else _).
  assert (wp wait (loop_left s) s) as Hwait.
  { unfold wait. ifb; [wp_auto; by apply (loop_left_throw _ []), bind_kept_refl|].
    apply (round_kept (fun ready p => let (failed, closed) := p in _)).
    - intros e s' H. by eapply loop_left_throw.
    - intros ready [failed closed] s' events H. ifb; [wp_auto; by eapply loop_left_throw|].
      case_bool_decide; [wp_auto; by eapply loop_left_throw|].
      eapply wp_mono; [apply IH|]. intros r s2 H2. by eapply loop_left_step. }
  destruct (MagicConnection_LocalEndpoint _) as [[e|]|e|] eqn:El.
  - ifb; [|done]. wp_auto. split_and!; [done|exists []; apply bind_kept_refl|].
    intros e' [= <-]. b2p. done.
  - done.
  - by apply (loop_left_throw _ []), bind_kept_refl.
  - exfalso. unfold MagicConnection_LocalEndpoint in El. destruct (mc_socket _) as [u|]; [|done].
    pose proof (us_LocalEndpoint_law u). by destruct (us_LocalEndpoint u).
Qed.

Lemma bind_loop_returns rounds deadlineAt (s : st) :
  Exists (fun r => r.1 = true ∨ deadlineAt <= r.2) rounds →
  (bind_loop rounds own deadlineAt s).1 ≠ Ok None.
Proof.
  revert s. induction rounds as [|[stop now] rest IH]; intros s; [by intros ?%Exists_nil|].
  cbn [bind_loop]. intros Hex. destruct stop; [done|].
  assert (deadlineAt <= now ∨ Exists (fun r => r.1 = true ∨ deadlineAt <= r.2) rest) as Hr.
  { apply Exists_cons in Hex as [[?|?]|?]; [done|by left|by right]. }
  unfold ebind at 1. cbn [eget]. unfold ebind at 1, elift at 1.
  destruct (MagicConnection_LocalEndpoint _) as [endpoint|e|]; [|done..].
  set (wait := if deadlineAt <=? now then _ else _).
  assert (∀ s1, (wait s1).1 ≠ Ok None) as Hwait.
  { intros s1. unfold wait. ifb; [done|]. unfold ebind.
    destruct (bind_events _ s1) as [[ready|e|] s2]; [|done..].
    destruct (bind_events _ s2) as [[completions|e|] s3]; [|done..].
    destruct (bind_scan _ _ _ _ s3) as [[[failed closed]|e|] s4]; [|done..].
    ifb; [done|]. case_bool_decide; [done|]. destruct Hr; [b2p; lia|]. by apply IH. }
  destruct endpoint; [|done]. by ifb.
Qed.

Lemma post_deferred_spec deferred (s : st) :
  wp (post_deferred deferred) (fun r s' => r = Ok tt ∧ bs_connection s' = bs_connection s
    ∧ el_delivered (lp_source (bs_events s')) = el_delivered (lp_source (bs_events s))
    ∧ ∀ t, bits t (lp_posted (bs_events s'))
           = Z.lor (bits t (lp_posted (bs_events s))) (bits t deferred)) s.
Proof.
  revert s. induction deferred as [|[token readiness] rest IH]; intros s; simpl.
  - wp_auto. split_and!; try done. intros t. by rewrite Z.lor_0_r.
  - apply wp_bind. unfold wp at 1. simpl. eapply wp_mono; [apply IH|].
    intros r s' (-> & Hc & Hd & Hb). split_and!; [done|done|by rewrite Hd; simpl; rewrite el_Wake_law|].
    intros t. rewrite Hb. simpl. rewrite bits_add. ifb; [|by rewrite Z.lor_0_r].
    by rewrite Z.lor_assoc.
Qed.

End bind_proofs.

Section bind_theorem.
  Context {L U : Type} `{!EventSource L} `{!UdpSocket U} `{!EventSourceLaws L} `{!UdpSocketLaws U}.

(** What the platform delivered between two states is posted, with what was posted before. *)
Definition conserved (own : Z) (s s' : BindState L U) : Prop :=
  ∃ events, el_delivered (lp_source (bs_events s')) = el_delivered (lp_source (bs_events s)) ++ events
    ∧ ∀ t, relevant own t (bits t (lp_posted (bs_events s')))
           = relevant own t (Z.lor (bits t (lp_posted (bs_events s))) (event_bits t events)).

Lemma conserved_same own s s' : bs_events s' = bs_events s → conserved own s s'.
Proof.
  intros Hs. exists []. rewrite Hs, app_nil_r. split; [done|]. intros t. by rewrite Z.lor_0_r.
Qed.

(** The destructor posts what the loop has put off. *)
Lemma conserved_posted own events (s s0 s1 s2 : BindState L U) :
  bs_events s0 = bs_events s → bs_deferred s0 = [] → kept own events s0 s1 →
  el_delivered (lp_source (bs_events s2)) = el_delivered (lp_source (bs_events s1)) →
  (∀ t, bits t (lp_posted (bs_events s2)) = held t s1) → conserved own s s2.
Proof.
  intros He Hf [Hd Hh _] Hd2 Hb2. exists events. split; [by rewrite Hd2, Hd, He|].
  intros t. rewrite Hb2, Hh. unfold held. by rewrite He, Hf, Z.lor_0_r.
Qed.

Lemma Open_safe options opened (c : MagicConnection U) :
  opened ≠ UB → (MagicConnection_Open options opened c).1 ≠ UB.
Proof.
  intros Ho. unfold MagicConnection_Open, ebind, eget, elift, emod, eret.
  destruct (mc_socket _); [done|]. destruct opened as [[u|]|e|]; try done.
  pose proof (us_LocalEndpoint_law u). by destruct (us_LocalEndpoint u).
Qed.

(** Binding a socket returns by its deadline or once it is cancelled, with an endpoint only
    if the socket is bound to a port; if it fails, a socket that it opened is closed again.  Either
    way no readiness is lost: what the platform delivered meanwhile for other tokens, and the
    arrival of datagrams on the socket itself, is posted again with what was posted before. *)
Theorem Bind_keeps_events options opened timeout stop now rounds (s s' : BindState L U) r :
  opened ≠ UB →
  Exists (fun round => round.1 = true ∨ now + timeout * 1000000 <= round.2) rounds →
  Bind options opened timeout stop now rounds s = (r, s') →
  conserved (uo_ReadinessToken options) s s'
  ∧ match r with
    | Ok (Some e) => ep_port e ≠ 0 ∧ MagicConnection_LocalEndpoint (bs_connection s') = Ok (Some e)
    | Throw _ => mc_socket (bs_connection s') = None ∨ bs_connection s' = bs_connection s
                 ∨ (MagicConnection_Open options opened (bs_connection s)).1 ≠ Ok true
    | _ => False
    end.
Proof.
  intros Hopened Hrounds. unfold Bind.
  assert (∀ s1, bs_events s1 = bs_events s → conserved (uo_ReadinessToken options) s s1) as Hsame
    by (intros; by apply conserved_same).
  ifb; [intros [= <- <-]; auto|]. destruct stop; [intros [= <- <-]; auto|].
  unfold ebind at 1. unfold bind_connection at 1.
  pose proof (Open_safe options opened (bs_connection s) Hopened) as Ho.
  destruct (MagicConnection_Open options opened (bs_connection s)) as [[[]|e|] c]; simpl;
    [|intros [= <- <-]; auto..|done].
  unfold ebind at 1, emod at 1. set (s0 := bs_set_deferred [] (bs_set_connection c s)).
  pose proof (bind_loop_left (uo_ReadinessToken options) rounds (now + timeout * 1000000) s0)
    as (Hub & [events Hk] & He).
  pose proof (bind_loop_returns (uo_ReadinessToken options) rounds _ s0 Hrounds) as Hnone.
  destruct (bind_loop rounds _ _ s0) as [r0 s1]. simpl in *.
  destruct r0 as [[e|]|e|]; try done.
  - unfold ebind. pose proof (post_deferred_spec (bs_deferred s1) s1) as (Hr & Hc2 & Hd2 & Hb2).
    destruct (post_deferred _ s1) as [r2 s2]. simpl in *. subst r2. intros [= <- <-].
    rewrite Hc2. split; [|by apply He]. by eapply (conserved_posted _ _ s s0).
  - unfold ebind, bind_connection, MagicConnection_Close. simpl.
    set (s2 := bs_set_connection _ s1).
    pose proof (post_deferred_spec (bs_deferred s1) s2) as (Hr & Hc2 & Hd2 & Hb2).
    destruct (post_deferred _ s2) as [r2 s3]. simpl in *. subst r2. intros [= <- <-].
    rewrite Hc2. split; [|by left]. by eapply (conserved_posted _ _ s s0).
Qed.

End bind_theorem.

(** ** Concrete runs *)

(** A source that delivers what a script says. *)
Record demo_source := { sc_script : list EventWaitResult; sc_delivered : list Event }.

#[export] Instance demo_EventSource : EventSource demo_source := {|
  el_Wait _ _ l :=
    match sc_script l with
    | [] => (Ok {| wt_Status := Wait_DeadlineReached; wt_Events := [] |}, l)
    | ready :: rest => (Ok ready, {| sc_script := rest;
                                     sc_delivered := sc_delivered l ++ wt_Events ready |})
    end;
  el_Wake l := l;
  el_delivered := sc_delivered |}.

#[export] Instance demo_EventSourceLaws : EventSourceLaws demo_source.
Proof.
  split; [|done]. intros deadline maximum l. unfold wp. simpl.
  destruct (sc_script l); simpl; rewrite ?app_nil_r; done.
Qed.

(** A device that takes [dd_room] packets and then blocks until it is read from. *)
Record demo_device := { dd_written : list bytes; dd_interest : bool; dd_room : nat }.

#[export] Instance demo_Device : Device demo_device := {|
  dev_Open _ d := (Ok true, d);
  dev_TryRead _ d := (Ok {| dr_Result := Device_WouldBlock; dr_Packet := [] |},
                      {| dd_written := dd_written d; dd_interest := dd_interest d; dd_room := 4 |});
  dev_TryWrite b d :=
    match dd_room d with
    | O => (Ok Device_WouldBlock, d)
    | S n => (Ok Device_Complete, {| dd_written := dd_written d ++ [b];
                                     dd_interest := dd_interest d; dd_room := n |})
    end;
  dev_SetWriteInterest b d :=
    (Ok tt, {| dd_written := dd_written d; dd_interest := b; dd_room := dd_room d |});
  dev_Close d := d;
  dev_written := dd_written;
  dev_interest := dd_interest |}.

#[export] Instance demo_DeviceLaws : DeviceLaws demo_device.
Proof.
  split; try done. intros b d. unfold wp. simpl. destruct (dd_room d); simpl; rewrite ?app_nil_r; done.
Qed.

Definition demo_event (token readiness : Z) : Event := {| ev_Token := token; ev_Readiness := readiness |}.

Definition demo_loop : EventLoop demo_source := {|
  lp_posted := [(9, Readiness_Closed)];
  lp_source := {| sc_script := [{| wt_Status := Wait_Events;
      wt_Events := [demo_event 5 Readiness_Readable; demo_event 11 Readiness_Readable] |}];
    sc_delivered := [] |} |}.

Definition demo_engine_calls : list engine_call :=
  [Engine_Open {| do_Name := []; do_ReadinessToken := 5 |}; Engine_Write [1]; Engine_Write [2];
   Engine_Write [3]].

Lemma EngineImpl_in_order_witness :
  let s := engine_run demo_engine_calls (EngineImpl_new demo_loop
             (MagicConnection_new : MagicConnection demo_socket)
             {| dd_written := []; dd_interest := false; dd_room := 1 |}) in
  dd_written (en_device s) = [[1]] ∧ en_pendingPackets s = [[2]; [3]]
  ∧ (engine_run_call (Engine_Wait None 8 8 2048) s).1 ≠ UB
  ∧ (en_pendingPackets s ≠ [] → en_deviceOpen s = true ∧ dev_interest (en_device s) = true).
Proof.
  intros s. split_and!; [done|done|..].
  all: apply (EngineImpl_in_order demo_engine_calls (Engine_Wait None 8 8 2048) demo_loop
         (MagicConnection_new : MagicConnection demo_socket)
         {| dd_written := []; dd_interest := false; dd_room := 1 |});
    split; done || constructor.
Defined.

Definition demo_engine : EngineImpl demo_source demo_socket demo_device :=
  engine_run demo_engine_calls (EngineImpl_new demo_loop MagicConnection_new
    {| dd_written := []; dd_interest := false; dd_room := 1 |}).

Lemma EngineImpl_Process_routes_witness :
  ∃ result s', EngineImpl_Process {| wt_Status := Wait_Events;
      wt_Events := [demo_event 5 Readiness_Readable; demo_event 11 Readiness_Readable] |} 8 2048
      demo_engine = (Ok result, s')
    ∧ ew_PlatformEvents result = [demo_event 11 Readiness_Readable; demo_event 9 Readiness_Closed].
Proof.
  do 2 eexists. split; [vm_compute; reflexivity|].
  refine (eq_trans (proj1 (EngineImpl_Process_routes {| wt_Status := Wait_Events;
      wt_Events := [demo_event 5 Readiness_Readable; demo_event 11 Readiness_Readable] |} 8 2048
      _ demo_engine _ _)) _); [vm_compute; reflexivity..].
Defined.

(** A socket whose binding stays pending. *)
Inductive pending_socket := Pending_socket (interest : bool).

#[export] Instance pending_UdpSocket : UdpSocket pending_socket := {|
  us_TrySendTo _ _ u := (Ok Io_WouldBlock, u);
  us_TryReceive _ u :=
    (Ok {| ur_Result := Io_WouldBlock;
           ur_Datagram := {| ud_Source := {| ep_address := {| ip4_value := 0 |}; ep_port := 0 |};
                             ud_Payload := [] |} |}, u);
  us_LocalEndpoint _ := Ok {| ep_address := {| ip4_value := 0 |}; ep_port := 0 |};
  us_SetWriteInterest b u := (Ok tt, Pending_socket b);
  us_sent _ := [];
  us_writeInterest u := let '(Pending_socket b) := u in b |}.

#[export] Instance pending_UdpSocketLaws : UdpSocketLaws pending_socket.
Proof. by split. Qed.

Definition demo_bind : BindState demo_source pending_socket := {|
  bs_connection := MagicConnection_new;
  bs_events := {| lp_posted := [(9, Readiness_Closed)];
    lp_source := {| sc_script := [{| wt_Status := Wait_Events;
        wt_Events := [demo_event 7 Readiness_Readable; demo_event 9 Readiness_Writable] |}];
      sc_delivered := [] |} |};
  bs_deferred := [] |}.

(** The events of the first round are posted again when the second one times out. *)
Lemma Bind_keeps_events_witness :
  let '(r, s') := Bind demo_options (Ok (Some (Pending_socket false))) 10 false 0
                    [(false, 0); (false, 20000000)] demo_bind in
  r = Throw (SystemError "timed_out") ∧ conserved 7 demo_bind s'
  ∧ lp_posted (bs_events s') = [(7, Readiness_Readable); (9, Z.lor Readiness_Writable Readiness_Closed)].
Proof.
  split_and!; [reflexivity| |reflexivity].
  refine (proj1 (Bind_keeps_events demo_options (Ok (Some (Pending_socket false))) 10 false 0
    [(false, 0); (false, 20000000)] demo_bind _ (Throw (SystemError "timed_out")) _ _ _));
    [done| |reflexivity].
  apply Exists_cons_tl, Exists_cons_hd. right. by vm_compute.
Defined.
