(* ===== verification/Session.v ===== *)
(** * The session (wgengine/impl/SessionImpl.cpp, SessionDiscovery.cpp, wgengine/PeerProtocol.cpp)

    [SessionImpl] is the data path of a native node: it keeps the peers of the network map,
    encrypts through the router of the [PeerProtocol], sends directly when it has a path and
    through a relay otherwise, answers discovery messages, and finds its public endpoint with
    STUN.  The engine, the magicsock connection, the router and the discovery messages are those
    of the other files; the DERP connections, the control connection and a packet path that
    takes the place of the session's own are the classes below.  A method reads the clock once
    ([now]); [Wait] reads it before ([before]) and after it has waited. *)

From S2P Require Import Prelude Text StdMap Net Stun NetMap Tunnel Router DerpClient DerpConnection.
From S2P Require Import Magicsock Disco Ping Lease Engine.

(** ** The interfaces *)

Class DerpOps (C : Type) := {
  derp_Send : bytes → bytes → Priority → eff C unit;
  derp_ProcessEvent : Event → eff C ConnectionEventResult;
  derp_Maintain : eff C unit
}.

Class ControlOps (K : Type) := {
  control_ProcessEvent : Event → eff K (bool * list NetworkConfig);
  control_Maintain : eff K (list NetworkConfig)
}.

Class PacketPath (P : Type) := { path_Send : TransportPacket → eff P unit }.

(** ** Data *)

Record PeerIdentity := { id_NodePrivateKey : bytes; id_NodePublicKey : bytes; id_DiscoPrivateKey : bytes }.

#[export] Instance PeerIdentity_eq_dec : EqDecision PeerIdentity.
Proof. solve_decision. Defined.

Definition PeerIdentity_none : PeerIdentity :=
  {| id_NodePrivateKey := zero_key; id_NodePublicKey := zero_key; id_DiscoPrivateKey := zero_key |}.

Record PeerProtocol (T : Type) := {
  pp_identity : PeerIdentity;
  pp_router : option (WireGuardRouter T);
  pp_disco : option Disco
}.
Arguments pp_identity {T}. Arguments pp_router {T}. Arguments pp_disco {T}.

Record SessionPeer := {
  sp_Config : PeerConfig;
  sp_PublicKey : bytes;
  sp_DiscoKey : option bytes;
  sp_Endpoints : list Endpoint;
  sp_TransmittedBytes : Z;
  sp_ReceivedBytes : Z;
  sp_Active : bool
}.

Definition sp_set_active b p : SessionPeer := {|
  sp_Config := sp_Config p; sp_PublicKey := sp_PublicKey p; sp_DiscoKey := sp_DiscoKey p;
  sp_Endpoints := sp_Endpoints p; sp_TransmittedBytes := sp_TransmittedBytes p;
  sp_ReceivedBytes := sp_ReceivedBytes p; sp_Active := b |}.
Definition sp_add_bytes tx rx p : SessionPeer := {|
  sp_Config := sp_Config p; sp_PublicKey := sp_PublicKey p; sp_DiscoKey := sp_DiscoKey p;
  sp_Endpoints := sp_Endpoints p; sp_TransmittedBytes := u64 (sp_TransmittedBytes p + tx);
  sp_ReceivedBytes := u64 (sp_ReceivedBytes p + rx); sp_Active := sp_Active p |}.
Definition sp_set_config config discoKey endpoints p : SessionPeer := {|
  sp_Config := config; sp_PublicKey := sp_PublicKey p; sp_DiscoKey := discoKey;
  sp_Endpoints := endpoints; sp_TransmittedBytes := sp_TransmittedBytes p;
  sp_ReceivedBytes := sp_ReceivedBytes p; sp_Active := true |}.

Record Discovery := {
  dv_Transaction : bytes;
  dv_Server : Endpoint;
  dv_Deadline : Z;
  dv_NextSend : Z;
  dv_RetryDelay : Z
}.

Record SessionWireGuardEvent := {
  wg_Peer : bytes;
  wg_Plaintext : list bytes;
  wg_DirectSource : option Endpoint;
  wg_TransportBytes : Z;
  wg_SessionEstablished : bool
}.

Record SessionDiscoEvent := {
  de_Peer : bytes;
  de_Type : DiscoMessageType;
  de_Transaction : bytes;
  de_DirectSource : option Endpoint
}.

Record SessionPathEvent := { pe_Peer : bytes; pe_DirectEndpoint : option Endpoint }.

Record SessionOptions := {
  so_NodePrivateKey : bytes;
  so_NodePublicKey : bytes;
  so_DiscoPrivateKey : bytes;
  so_AdvertisedEndpoint : Endpoint;
  so_HomeDerpRegion : Z;
  so_Peers : list PeerConfig;
  so_ExitNode : bytes
}.

Record SessionPeerStats := {
  st_TransmittedBytes : Z;
  st_ReceivedBytes : Z;
  st_WireGuardSession : bool;
  st_DirectEndpoint : option Endpoint
}.

Record SessionWaitResult := {
  sw_Status : EventWaitStatus;
  sw_Datagrams : list UdpDatagram;
  sw_Packets : list bytes;
  sw_Failures : list MagicStatus;
  sw_NetworkMaps : list NetworkConfig;
  sw_DerpPackets : list (Z * DerpPacket);
  sw_WireGuardEvents : list SessionWireGuardEvent;
  sw_DiscoEvents : list SessionDiscoEvent;
  sw_PathEvents : list SessionPathEvent;
  sw_PlatformEvents : list Event;
  sw_MaintenanceDue : bool;
  sw_EndpointDiscovery : option (option Endpoint)
}.

Definition SessionWaitResult_new (status : EventWaitStatus) (discovery : option (option Endpoint))
    : SessionWaitResult := {|
  sw_Status := status; sw_Datagrams := []; sw_Packets := []; sw_Failures := [];
  sw_NetworkMaps := []; sw_DerpPackets := []; sw_WireGuardEvents := []; sw_DiscoEvents := [];
  sw_PathEvents := []; sw_PlatformEvents := []; sw_MaintenanceDue := false;
  sw_EndpointDiscovery := discovery |}.

(** The results grow: what is appended to each list. *)
Definition sw_append datagrams maps derp wireguard disco paths events (r : SessionWaitResult)
    : SessionWaitResult := {|
  sw_Status := sw_Status r; sw_Datagrams := sw_Datagrams r ++ datagrams;
  sw_Packets := sw_Packets r; sw_Failures := sw_Failures r;
  sw_NetworkMaps := sw_NetworkMaps r ++ maps; sw_DerpPackets := sw_DerpPackets r ++ derp;
  sw_WireGuardEvents := sw_WireGuardEvents r ++ wireguard;
  sw_DiscoEvents := sw_DiscoEvents r ++ disco; sw_PathEvents := sw_PathEvents r ++ paths;
  sw_PlatformEvents := sw_PlatformEvents r ++ events; sw_MaintenanceDue := sw_MaintenanceDue r;
  sw_EndpointDiscovery := sw_EndpointDiscovery r |}.
Definition sw_datagram d := sw_append [d] [] [] [] [] [] [].
Definition sw_maps l := sw_append [] l [] [] [] [] [].
Definition sw_derp i p := sw_append [] [] [(i, p)] [] [] [] [].
Definition sw_wireguard e := sw_append [] [] [] [e] [] [] [].
Definition sw_disco e := sw_append [] [] [] [] [e] [] [].
Definition sw_path e := sw_append [] [] [] [] [] [e] [].
Definition sw_platform e := sw_append [] [] [] [] [] [] [e].

Definition sw_set packets failures due discovery status (r : SessionWaitResult)
    : SessionWaitResult := {|
  sw_Status := status; sw_Datagrams := sw_Datagrams r; sw_Packets := packets;
  sw_Failures := failures; sw_NetworkMaps := sw_NetworkMaps r; sw_DerpPackets := sw_DerpPackets r;
  sw_WireGuardEvents := sw_WireGuardEvents r; sw_DiscoEvents := sw_DiscoEvents r;
  sw_PathEvents := sw_PathEvents r; sw_PlatformEvents := sw_PlatformEvents r;
  sw_MaintenanceDue := due; sw_EndpointDiscovery := discovery |}.
Definition sw_set_discovery d r :=
  sw_set (sw_Packets r) (sw_Failures r) (sw_MaintenanceDue r) d (sw_Status r) r.
Definition sw_set_due r :=
  sw_set (sw_Packets r) (sw_Failures r) true (sw_EndpointDiscovery r) (sw_Status r) r.
Definition sw_set_status status r :=
  sw_set (sw_Packets r) (sw_Failures r) (sw_MaintenanceDue r) (sw_EndpointDiscovery r) status r.

Definition MaintenanceInterval : Z := 1 * 1000000000.
Definition InitialStunRetryDelay : Z := 500 * 1000000.
Definition StunMaximumEvents : Z := 1.
Definition StunMaximumDatagrams : Z := 16.
Definition StunMaximumDatagramSize : Z := 4096.

(** [Disco::DerpMagicIpv4Address], 127.3.3.40 *)
Definition DerpMagicIpv4Address : Ipv4Address := Ipv4Address_FromOctets 127 3 3 40.

Record SessionImpl (L U D T C K P R : Type) := {
  ss_engine : EngineImpl L U D;
  ss_control : option K;
  ss_derps : list (DerpState C);
  ss_peers : list SessionPeer;
  ss_protocol : PeerProtocol T;
  ss_packetPath : option P;
  ss_discovery : option Discovery;
  ss_configured : bool;
  ss_advertisedEndpoint : Endpoint;
  ss_homeDerpRegion : Z;
  ss_nextMaintenance : Z;
  ss_random : R
}.
Arguments ss_engine {L U D T C K P R}. Arguments ss_control {L U D T C K P R}.
Arguments ss_derps {L U D T C K P R}. Arguments ss_peers {L U D T C K P R}.
Arguments ss_protocol {L U D T C K P R}. Arguments ss_packetPath {L U D T C K P R}.
Arguments ss_discovery {L U D T C K P R}. Arguments ss_configured {L U D T C K P R}.
Arguments ss_advertisedEndpoint {L U D T C K P R}. Arguments ss_homeDerpRegion {L U D T C K P R}.
Arguments ss_nextMaintenance {L U D T C K P R}. Arguments ss_random {L U D T C K P R}.

Section session.
  Context (unhex : bytes → option bytes) (ip6addr_aton : bytes → option bytes).
  Context {L U D T C K P R : Type}.
  Context `{!EventSource L} `{!UdpSocket U} `{!Device D} `{!TunnelOps T} `{!DerpOps C}
    `{!ControlOps K} `{!PacketPath P} `{!RandomBytes R} {sodium : SodiumBox}.

Abbreviation session := (SessionImpl L U D T C K P R).

Definition ss_set_engine e (s : session) : session := {|
  ss_engine := e; ss_control := ss_control s; ss_derps := ss_derps s; ss_peers := ss_peers s;
  ss_protocol := ss_protocol s; ss_packetPath := ss_packetPath s; ss_discovery := ss_discovery s;
  ss_configured := ss_configured s; ss_advertisedEndpoint := ss_advertisedEndpoint s;
  ss_homeDerpRegion := ss_homeDerpRegion s; ss_nextMaintenance := ss_nextMaintenance s;
  ss_random := ss_random s |}.
Definition ss_set_control c (s : session) : session := {|
  ss_engine := ss_engine s; ss_control := c; ss_derps := ss_derps s; ss_peers := ss_peers s;
  ss_protocol := ss_protocol s; ss_packetPath := ss_packetPath s; ss_discovery := ss_discovery s;
  ss_configured := ss_configured s; ss_advertisedEndpoint := ss_advertisedEndpoint s;
  ss_homeDerpRegion := ss_homeDerpRegion s; ss_nextMaintenance := ss_nextMaintenance s;
  ss_random := ss_random s |}.
Definition ss_set_derps d (s : session) : session := {|
  ss_engine := ss_engine s; ss_control := ss_control s; ss_derps := d; ss_peers := ss_peers s;
  ss_protocol := ss_protocol s; ss_packetPath := ss_packetPath s; ss_discovery := ss_discovery s;
  ss_configured := ss_configured s; ss_advertisedEndpoint := ss_advertisedEndpoint s;
  ss_homeDerpRegion := ss_homeDerpRegion s; ss_nextMaintenance := ss_nextMaintenance s;
  ss_random := ss_random s |}.
Definition ss_set_peers p (s : session) : session := {|
  ss_engine := ss_engine s; ss_control := ss_control s; ss_derps := ss_derps s; ss_peers := p;
  ss_protocol := ss_protocol s; ss_packetPath := ss_packetPath s; ss_discovery := ss_discovery s;
  ss_configured := ss_configured s; ss_advertisedEndpoint := ss_advertisedEndpoint s;
  ss_homeDerpRegion := ss_homeDerpRegion s; ss_nextMaintenance := ss_nextMaintenance s;
  ss_random := ss_random s |}.
Definition ss_set_protocol p (s : session) : session := {|
  ss_engine := ss_engine s; ss_control := ss_control s; ss_derps := ss_derps s;
  ss_peers := ss_peers s; ss_protocol := p; ss_packetPath := ss_packetPath s;
  ss_discovery := ss_discovery s; ss_configured := ss_configured s;
  ss_advertisedEndpoint := ss_advertisedEndpoint s; ss_homeDerpRegion := ss_homeDerpRegion s;
  ss_nextMaintenance := ss_nextMaintenance s; ss_random := ss_random s |}.
Definition ss_set_path p (s : session) : session := {|
  ss_engine := ss_engine s; ss_control := ss_control s; ss_derps := ss_derps s;
  ss_peers := ss_peers s; ss_protocol := ss_protocol s; ss_packetPath := p;
  ss_discovery := ss_discovery s; ss_configured := ss_configured s;
  ss_advertisedEndpoint := ss_advertisedEndpoint s; ss_homeDerpRegion := ss_homeDerpRegion s;
  ss_nextMaintenance := ss_nextMaintenance s; ss_random := ss_random s |}.
Definition ss_set_discovery d (s : session) : session := {|
  ss_engine := ss_engine s; ss_control := ss_control s; ss_derps := ss_derps s;
  ss_peers := ss_peers s; ss_protocol := ss_protocol s; ss_packetPath := ss_packetPath s;
  ss_discovery := d; ss_configured := ss_configured s;
  ss_advertisedEndpoint := ss_advertisedEndpoint s; ss_homeDerpRegion := ss_homeDerpRegion s;
  ss_nextMaintenance := ss_nextMaintenance s; ss_random := ss_random s |}.
Definition ss_set_options configured advertised home (s : session) : session := {|
  ss_engine := ss_engine s; ss_control := ss_control s; ss_derps := ss_derps s;
  ss_peers := ss_peers s; ss_protocol := ss_protocol s; ss_packetPath := ss_packetPath s;
  ss_discovery := ss_discovery s; ss_configured := configured;
  ss_advertisedEndpoint := advertised; ss_homeDerpRegion := home;
  ss_nextMaintenance := ss_nextMaintenance s; ss_random := ss_random s |}.
Definition ss_set_next n (s : session) : session := {|
  ss_engine := ss_engine s; ss_control := ss_control s; ss_derps := ss_derps s;
  ss_peers := ss_peers s; ss_protocol := ss_protocol s; ss_packetPath := ss_packetPath s;
  ss_discovery := ss_discovery s; ss_configured := ss_configured s;
  ss_advertisedEndpoint := ss_advertisedEndpoint s; ss_homeDerpRegion := ss_homeDerpRegion s;
  ss_nextMaintenance := n; ss_random := ss_random s |}.
Definition ss_set_random r (s : session) : session := {|
  ss_engine := ss_engine s; ss_control := ss_control s; ss_derps := ss_derps s;
  ss_peers := ss_peers s; ss_protocol := ss_protocol s; ss_packetPath := ss_packetPath s;
  ss_discovery := ss_discovery s; ss_configured := ss_configured s;
  ss_advertisedEndpoint := ss_advertisedEndpoint s; ss_homeDerpRegion := ss_homeDerpRegion s;
  ss_nextMaintenance := ss_nextMaintenance s; ss_random := r |}.

(** [m_connection], which the engine shares. *)
Definition ss_connection (s : session) : MagicConnection U := en_connection (ss_engine s).

(** Calls of the objects that the session refers to. *)
Definition with_engine {A} (m : eff (EngineImpl L U D) A) : eff session A := fun s =>
  let '(r, e) := m (ss_engine s) in (r, ss_set_engine e s).
Definition with_connection {A} (m : eff (MagicConnection U) A) : eff session A :=
  with_engine (on_connection m).
Definition with_random {A} (m : eff R A) : eff session A := fun s =>
  let '(r, x) := m (ss_random s) in (r, ss_set_random x s).
Definition with_derp {A} (i : nat) (m : eff C A) : eff session A := fun s =>
  match ss_derps s !! i with
  | None => (UB, s)
  | Some d =>
      let '(r, c) := m (ds_Connection d) in
      (r, ss_set_derps (<[i := {| ds_Region := ds_Region d; ds_Connection := c |}]> (ss_derps s)) s)
  end.
Definition with_control {A} (m : eff K A) : eff session A := fun s =>
  match ss_control s with
  | None => (UB, s)
  | Some k => let '(r, k') := m k in (r, ss_set_control (Some k') s)
  end.
Definition with_path {A} (m : eff P A) : eff session A := fun s =>
  match ss_packetPath s with
  | None => (UB, s)
  | Some p => let '(r, p') := m p in (r, ss_set_path (Some p') s)
  end.

(** ** [PeerProtocol] *)

Definition not_initialized : exn := LogicError "The peer protocol has not been initialized.".

(** A call of a method of [m_protocol.Router()]. *)
Definition with_router {A} (m : eff (WireGuardRouter T) A) : eff session A := fun s =>
  match pp_router (ss_protocol s) with
  | None => (Throw not_initialized, s)
  | Some router =>
      let '(r, router') := m router in
      (r, ss_set_protocol {| pp_identity := pp_identity (ss_protocol s); pp_router := Some router';
                             pp_disco := pp_disco (ss_protocol s) |} s)
  end.

(** [m_protocol.Disco()] *)
Definition PeerProtocol_Disco : eff session Disco :=
  let* s := eget in
  match pp_disco (ss_protocol s) with
  | None => ethrow not_initialized
  | Some disco => eret disco
  end.

Definition PeerProtocol_Initialized (s : session) : bool :=
  bool_decide (is_Some (pp_router (ss_protocol s))).

(** [Reset], which the owner of the protocol calls for a node that ends. *)
Definition PeerProtocol_Reset : eff session unit :=
  emod (ss_set_protocol {| pp_identity := PeerIdentity_none; pp_router := None; pp_disco := None |}).

(** [tunnel] makes the tunnel of a private key. *)
Definition PeerProtocol_Initialize (tunnel : bytes → T) (identity : PeerIdentity)
    (peers : list PeerConfig) (exitNode : bytes) : eff session unit :=
  let* s := eget in
  match pp_router (ss_protocol s) with
  | Some _ =>
      if negb (bool_decide (identity = pp_identity (ss_protocol s)))
      then ethrow (LogicError "The peer protocol identity cannot change while the node is alive.")
      else with_router (WireGuardRouter_UpdatePeers unhex peers exitNode)
  | None =>
      match WireGuardRouter_new unhex (tunnel (id_NodePrivateKey identity)) peers exitNode with
      | (Ok _, router) =>
          emod (ss_set_protocol {|
            pp_identity := identity; pp_router := Some router;
            pp_disco := Some (Disco_new (id_DiscoPrivateKey identity) (id_NodePublicKey identity)) |})
      | (Throw e, _) => ethrow e
      | (UB, _) => elift UB
      end
  end.

(** ** Peers and connections *)

Definition SessionImpl_FindPeer (peer : bytes) (s : session) : option nat :=
  find_index (fun p => sp_Active p && bool_decide (sp_PublicKey p = peer)) (ss_peers s).

Definition SessionImpl_FindDiscoPeer (discoKey : bytes) (s : session) : option nat :=
  find_index (fun p => sp_Active p && bool_decide (sp_DiscoKey p = Some discoKey)) (ss_peers s).

Definition SessionImpl_FindDerp (region : Z) (s : session) : option nat :=
  match find_index (fun d => ds_Region d =? region) (ss_derps s) with
  | Some i => Some i
  | None => if bool_decide (ss_derps s = []) then None else Some 0%nat
  end.

(** The peer that a pointer refers to, and a change of it. *)
Definition the_peer (i : nat) : eff session SessionPeer :=
  let* s := eget in elift (rd (ss_peers s) (Z.of_nat i)).
Definition alter_speer (i : nat) (f : SessionPeer → SessionPeer) : eff session unit :=
  emod (fun s => ss_set_peers (alter f i (ss_peers s)) s).

Definition SessionImpl_SetControlConnection (connection : option K) : eff session unit :=
  let* s := eget in
  match ss_control s, connection with
  | None, Some _ => emod (ss_set_control connection)
  | _, _ => ethrow (InvalidArgument "The session control connection must be set exactly once.")
  end.

(** [AddDerpConnection] of file Lease, on the member. *)
Definition Session_AddDerpConnection (region : Z) (connection : C) : eff session Z := fun s =>
  let '(r, d) := SessionImpl_AddDerpConnection region connection (ss_derps s) in
  (r, ss_set_derps d s).

Definition SessionImpl_SetAdvertisedEndpoint (endpoint : Endpoint) : eff session unit :=
  emod (fun s => ss_set_options (ss_configured s) endpoint (ss_homeDerpRegion s) s).

Definition SessionImpl_SetPacketPath (path : option P) : eff session unit := emod (ss_set_path path).

Definition SessionImpl_Reset (now : Z) : eff session unit :=
  emod (ss_set_path None) ;;*
  emod (ss_set_discovery None) ;;*
  emod (ss_set_control None) ;;*
  emod (ss_set_derps []) ;;*
  emod (ss_set_peers []) ;;*
  emod (ss_set_options false {| ep_address := {| ip4_value := 0 |}; ep_port := 0 |} 0) ;;*
  emod (ss_set_next (now + MaintenanceInterval)) ;;*
  with_engine EngineImpl_Reset.

(** One peer of [UpdatePeers]. *)
Definition update_session_peer (config : PeerConfig) : eff session unit :=
  let* publicKey := elift (PrefixedKey_TryParse unhex (pc_key config) NodeKeyPrefix) in
  match publicKey with
  | None => eret tt
  | Some publicKey =>
      let* s := eget in
      let* i := match find_index (fun p => bool_decide (sp_PublicKey p = publicKey)) (ss_peers s) with
                | None =>
                    emod (fun s => ss_set_peers (ss_peers s ++ [{|
                      sp_Config := config; sp_PublicKey := publicKey; sp_DiscoKey := None;
                      sp_Endpoints := []; sp_TransmittedBytes := 0; sp_ReceivedBytes := 0;
                      sp_Active := true |}]) s) ;;*
                    let* _ := with_connection (MagicConnection_AddPeer publicKey) in
                    eret (length (ss_peers s))
                | Some i =>
                    let* peer := the_peer i in
                    (if sp_Active peer then eret tt
                     else let* _ := with_connection (MagicConnection_AddPeer publicKey) in eret tt) ;;*
                    eret i
                end in
      let* peer := the_peer i in
      let identityChanged := negb (bool_decide (pc_discoKey (sp_Config peer) = pc_discoKey config)) in
      let endpointsChanged := negb (bool_decide (pc_endpoints (sp_Config peer) = pc_endpoints config)) in
      let* discoKey := elift (PrefixedKey_TryParse unhex (pc_discoKey config) DiscoKeyPrefix) in
      alter_speer i (sp_set_config config discoKey (omap Endpoint_TryParse (pc_endpoints config))) ;;*
      if identityChanged || endpointsChanged || negb (pc_online config)
      then with_connection (MagicConnection_ResetPath (sp_PublicKey peer)
             (if identityChanged || negb (pc_online config) then ForgetVerifiedEndpoints
              else PreserveVerifiedEndpoints))
      else eret tt
  end.

Fixpoint update_session_peers (configs : list PeerConfig) : eff session unit :=
  match configs with
  | [] => eret tt
  | config :: rest => update_session_peer config ;;* update_session_peers rest
  end.

(** The loop that takes inactive peers out of the connection. *)
Fixpoint remove_inactive (peers : list SessionPeer) : eff session unit :=
  match peers with
  | [] => eret tt
  | peer :: rest =>
      (if sp_Active peer then eret tt
       else let* _ := with_connection (MagicConnection_RemovePeer (sp_PublicKey peer)) in eret tt) ;;*
      remove_inactive rest
  end.

Definition SessionImpl_UpdatePeers (peers : list PeerConfig) (exitNode : bytes) : eff session unit :=
  let* s := eget in
  (if ss_configured s then with_router (WireGuardRouter_UpdatePeers unhex peers exitNode)
   else eret tt) ;;*
  emod (fun s => ss_set_peers (map (sp_set_active false) (ss_peers s)) s) ;;*
  update_session_peers peers ;;*
  let* s := eget in
  remove_inactive (ss_peers s).

Definition SessionImpl_Configure (tunnel : bytes → T) (options : SessionOptions) : eff session unit :=
  let* s := eget in
  if ss_configured s then ethrow (LogicError "The WireGuard session is already configured.") else
  PeerProtocol_Initialize tunnel {|
    id_NodePrivateKey := so_NodePrivateKey options; id_NodePublicKey := so_NodePublicKey options;
    id_DiscoPrivateKey := so_DiscoPrivateKey options |} (so_Peers options) (so_ExitNode options) ;;*
  emod (ss_set_options true (so_AdvertisedEndpoint options) (so_HomeDerpRegion options)) ;;*
  SessionImpl_UpdatePeers (so_Peers options) (so_ExitNode options).

(** ** Sending *)

Definition SessionImpl_SendRelay (i : nat) (payload : bytes) (priority : Priority)
    : eff session unit :=
  let* peer := the_peer i in
  let* s := eget in
  match SessionImpl_FindDerp (pc_derpRegion (sp_Config peer)) s with
  | None => eret tt
  | Some j => with_derp j (derp_Send (sp_PublicKey peer) payload priority)
  end.

Definition SessionImpl_SendTransport (now : Z) (i : nat) (payload : bytes) (expectResponse : bool)
    (priority : Priority) : eff session unit :=
  alter_speer i (sp_add_bytes (zlen payload) 0) ;;*
  let* peer := the_peer i in
  let* s := eget in
  if MagicConnection_HasDirectPath (sp_PublicKey peer) (ss_connection s) then
    let* sent := with_connection (MagicConnection_Send now (sp_PublicKey peer) payload expectResponse) in
    match sent with
    | Direct_Sent | Direct_Queued => eret tt
    | _ =>
        with_connection (MagicConnection_ResetPath (sp_PublicKey peer) PreserveVerifiedEndpoints) ;;*
        SessionImpl_SendRelay i payload priority
    end
  else SessionImpl_SendRelay i payload priority.

(** The loops that send a payload to every candidate endpoint. *)
Fixpoint send_probes (endpoints : list Endpoint) (payload : bytes) : eff session unit :=
  match endpoints with
  | [] => eret tt
  | endpoint :: rest =>
      let* _ := with_connection (MagicConnection_TrySendProbe endpoint payload) in
      send_probes rest payload
  end.

Definition SessionImpl_StartDirectProbe (now : Z) (i : nat) : eff session unit :=
  let* peer := the_peer i in
  let* s := eget in
  match sp_DiscoKey peer with
  | None => eret tt
  | Some discoKey =>
      if negb (ss_configured s) || MagicConnection_HasDirectPath (sp_PublicKey peer) (ss_connection s)
      then eret tt else
      let* begun := with_connection (MagicConnection_TryBeginProbe now (sp_PublicKey peer)) in
      if negb begun then eret tt else
      let* disco := PeerProtocol_Disco in
      let* transaction := with_random Disco_NewTransactionId in
      let* ping := with_random (Disco_BuildPing disco discoKey transaction) in
      with_connection (MagicConnection_ProbePeer (sp_PublicKey peer) ping) ;;*
      send_probes (sp_Endpoints peer) ping ;;*
      if ep_port (ss_advertisedEndpoint s) =? 0 then eret tt else
      let* offer := with_random (Disco_BuildCallMeMaybe disco discoKey [ss_advertisedEndpoint s]) in
      SessionImpl_SendRelay i offer Priority_Control
  end.

(** One packet of [Dispatch]. *)
Definition dispatch_packet (now : Z) (packet : TransportPacket) : eff session unit :=
  let* s := eget in
  match ss_packetPath s with
  | Some _ => with_path (path_Send packet)
  | None =>
      match SessionImpl_FindPeer (tp_Peer packet) s with
      | None => eret tt
      | Some i =>
          if negb (tp_Handshake packet) then
            SessionImpl_SendTransport now i (tp_Payload packet) (tp_ExpectResponse packet)
              (if tp_Control packet then Priority_Control else Priority_Data)
          else
            SessionImpl_StartDirectProbe now i ;;*
            alter_speer i (sp_add_bytes (zlen (tp_Payload packet)) 0) ;;*
            SessionImpl_SendRelay i (tp_Payload packet) Priority_Control ;;*
            let* peer := the_peer i in
            let* s := eget in
            if MagicConnection_HasDirectPath (sp_PublicKey peer) (ss_connection s) then
              let* _ := with_connection
                (MagicConnection_Send now (sp_PublicKey peer) (tp_Payload packet) true) in eret tt
            else send_probes (sp_Endpoints peer) (tp_Payload packet)
      end
  end.

Fixpoint SessionImpl_Dispatch (now : Z) (packets : list TransportPacket) : eff session unit :=
  match packets with
  | [] => eret tt
  | packet :: rest => dispatch_packet now packet ;;* SessionImpl_Dispatch now rest
  end.

(** The part that [SendPacket], [SendPacketTo] and [StartPeer] share. *)
Definition if_configured (now : Z) (m : eff (WireGuardRouter T) (list TransportPacket))
    : eff session unit :=
  let* s := eget in
  if ss_configured s then
    let* packets := with_router m in SessionImpl_Dispatch now packets
  else eret tt.

Definition SessionImpl_SendPacket (now : Z) (plaintext : bytes) : eff session unit :=
  if_configured now (WireGuardRouter_Send ip6addr_aton now plaintext).

Definition SessionImpl_SendPacketTo (now : Z) (peer plaintext : bytes) : eff session unit :=
  if_configured now (WireGuardRouter_SendTo now peer plaintext).

Definition SessionImpl_StartPeer (now : Z) (peer : bytes) : eff session unit :=
  if_configured now (WireGuardRouter_Start now peer).

Definition SessionImpl_SendDiscoPing (peerKey : bytes) : eff session (option bytes) :=
  let* s := eget in
  match SessionImpl_FindPeer peerKey s with
  | None => eret None
  | Some i =>
      let* peer := the_peer i in
      match sp_DiscoKey peer with
      | None => eret None
      | Some discoKey =>
          if negb (ss_configured s) then eret None else
          let* disco := PeerProtocol_Disco in
          let* transaction := with_random Disco_NewTransactionId in
          let* ping := with_random (Disco_BuildPing disco discoKey transaction) in
          SessionImpl_SendRelay i ping Priority_Control ;;*
          with_connection (MagicConnection_ProbePeer peerKey ping) ;;*
          send_probes (sp_Endpoints peer) ping ;;*
          eret (Some transaction)
      end
  end.

Definition SessionImpl_CanDisco (peer : bytes) (s : session) : bool :=
  match SessionImpl_FindPeer peer s with
  | None => false
  | Some i =>
      ss_configured s
      && match ss_peers s !! i with
         | Some p => bool_decide (is_Some (sp_DiscoKey p))
         | None => false
         end
  end.

Definition SessionImpl_PeerStats (now : Z) (peer : bytes) : eff session (option SessionPeerStats) :=
  let* s := eget in
  match SessionImpl_FindPeer peer s with
  | None => eret None
  | Some i =>
      let* p := the_peer i in
      let* hasSession := (if ss_configured s then with_router (WireGuardRouter_HasSession now peer)
                          else eret false) in
      eret (Some {|
        st_TransmittedBytes := sp_TransmittedBytes p; st_ReceivedBytes := sp_ReceivedBytes p;
        st_WireGuardSession := hasSession;
        st_DirectEndpoint := MagicConnection_DirectEndpoint peer (ss_connection s) |})
  end.

(** ** Endpoint discovery (SessionDiscovery.cpp) *)

Definition SessionImpl_StartEndpointDiscovery (now : Z) (server : Endpoint) (timeout : Z)
    : eff session unit :=
  let* transaction := with_random (randombytes_buf TransactionSize) in
  emod (ss_set_discovery (Some {|
    dv_Transaction := transaction; dv_Server := server; dv_Deadline := now + timeout * 1000000;
    dv_NextSend := now; dv_RetryDelay := InitialStunRetryDelay |})).

Definition SessionImpl_CancelEndpointDiscovery : eff session unit := emod (ss_set_discovery None).

(** The discovery ends with [endpoint]. *)
Definition discovered (endpoint : option Endpoint) (result : SessionWaitResult)
    : eff session SessionWaitResult :=
  SessionImpl_CancelEndpointDiscovery ;;* eret (sw_set_discovery (Some endpoint) result).

(** A send whose [std::system_error] is caught. *)
Definition try_send_probe (server : Endpoint) (payload : bytes)
    : eff session (option SocketIoResult) := fun s =>
  match with_connection (MagicConnection_TrySendProbe server payload) s with
  | (Throw (SystemError _), s') => (Ok None, s')
  | other => other
  end.

Definition SessionImpl_PollEndpointDiscovery (now : Z) (result : SessionWaitResult)
    : eff session SessionWaitResult :=
  let* s := eget in
  match ss_discovery s with
  | None => eret result
  | Some d =>
      if dv_Deadline d <=? now then discovered None result else
      if negb (dv_NextSend d <=? now) then eret result else
      let* sent := try_send_probe (dv_Server d)
                     (TransactionId_BuildBindingRequest (dv_Transaction d)) in
      match sent with
      | None | Some Io_Closed => discovered None result
      | Some _ =>
          let remaining := dv_Deadline d - now in
          let delay := Z.min (dv_RetryDelay d) remaining in
          emod (ss_set_discovery (Some {|
            dv_Transaction := dv_Transaction d; dv_Server := dv_Server d;
            dv_Deadline := dv_Deadline d; dv_NextSend := now + delay;
            dv_RetryDelay := dv_RetryDelay d + dv_RetryDelay d |})) ;;*
          eret result
      end
  end.

Definition SessionImpl_ProcessEndpointResponse (now : Z) (datagram : UdpDatagram)
    (result : SessionWaitResult) : eff session (bool * SessionWaitResult) :=
  let* s := eget in
  match ss_discovery s with
  | None => eret (false, result)
  | Some d =>
      if negb (bool_decide (ud_Source datagram = dv_Server d)) || (dv_Deadline d <=? now)
      then eret (false, result) else
      let* endpoint := elift (TransactionId_ParseMappedIpv4Endpoint (dv_Transaction d)
                                (ud_Payload datagram)) in
      match endpoint with
      | None => eret (false, result)
      | Some e =>
          if (ep_port e =? 0) || (ip4_value (ep_address e) =? 0) then eret (false, result) else
          let* result := discovered (Some e) result in
          eret (true, result)
      end
  end.

(** ** Receiving *)

Definition SessionImpl_MarkDirect (i : nat) (endpoint : Endpoint) (result : SessionWaitResult)
    : eff session SessionWaitResult :=
  let* peer := the_peer i in
  let* changed := with_connection (MagicConnection_MarkDirect (sp_PublicKey peer) endpoint) in
  eret (if changed : bool
        then sw_path {| pe_Peer := sp_PublicKey peer; pe_DirectEndpoint := Some endpoint |} result
        else result).

(** The answer to a message from a peer, by its type.  [discoKey] is the peer's discovery key, the
    sender of the message under which [FindDiscoPeer] found it; [derp] is the source and the number of the
    DERP connection, [direct] the source of a datagram. *)
Definition answer_disco (now : Z) (i : nat) (disco : Disco) (discoKey : bytes)
    (derp : option (bytes * nat)) (direct : option Endpoint) (message : DiscoMessage)
    (result : SessionWaitResult) : eff session SessionWaitResult :=
  match dm_Type message with
  | Disco_CallMeMaybe =>
      match derp with
      | None => eret result
      | Some _ =>
          let* transaction := with_random Disco_NewTransactionId in
          let* ping := with_random (Disco_BuildPing disco discoKey transaction) in
          send_probes (dm_Endpoints message) ping ;;* eret result
      end
  | Disco_Ping =>
      let* s := eget in
      let '(address, port) :=
        match direct with
        | Some e => (ep_address e, ep_port e)
        | None => (DerpMagicIpv4Address, u16 (ss_homeDerpRegion s))
        end in
      let* pong := with_random (Disco_BuildPong disco discoKey (dm_Transaction message) address port) in
      match direct, derp with
      | Some e, _ =>
          let* result := SessionImpl_MarkDirect i e result in
          let* peer := the_peer i in
          let* _ := with_connection (MagicConnection_SendDirect (sp_PublicKey peer) e pong) in
          eret result
      | None, Some (source, j) =>
          if (j <? length (ss_derps s))%nat then
            with_derp j (derp_Send source pong Priority_Control) ;;*
            SessionImpl_StartDirectProbe now i ;;*
            eret result
          else eret result
      | None, None => eret result
      end
  | Disco_Pong =>
      match direct with
      | Some e => SessionImpl_MarkDirect i e result
      | None => eret result
      end
  end.

Definition SessionImpl_ProcessDiscoPacket (now : Z) (derp : option (bytes * nat))
    (direct : option Endpoint) (packet : bytes) (result : SessionWaitResult)
    : eff session (bool * SessionWaitResult) :=
  let* s := eget in
  if negb (ss_configured s) || negb (Disco_IsDiscoPacket packet) then eret (false, result) else
  let* disco := PeerProtocol_Disco in
  let* message := elift (Disco_Parse disco packet) in
  match message with
  | None => eret (true, result)
  | Some message =>
      match SessionImpl_FindDiscoPeer (dm_Sender message) s with
      | None => eret (true, result)
      | Some i =>
          alter_speer i (sp_add_bytes 0 (zlen packet)) ;;*
          let* peer := the_peer i in
          let* result := answer_disco now i disco (dm_Sender message) derp direct message result in
          eret (true, sw_disco {|
            de_Peer := sp_PublicKey peer; de_Type := dm_Type message;
            de_Transaction := dm_Transaction message; de_DirectSource := direct |} result)
      end
  end.

(** The loop that sends the packets a received one gives rise to; [peer] is where it is counted. *)
Fixpoint send_outbound (peer : option nat) (source : bytes) (direct : option Endpoint)
    (derp : option nat) (packets : list TransportPacket) : eff session unit :=
  match packets with
  | [] => eret tt
  | outbound :: rest =>
      (match peer with
       | Some i => alter_speer i (sp_add_bytes (zlen (tp_Payload outbound)) 0)
       | None => eret tt
       end) ;;*
      (match direct, derp with
       | Some e, _ =>
           let* _ := with_connection (MagicConnection_SendDirect source e (tp_Payload outbound)) in
           eret tt
       | None, Some j =>
           let* s := eget in
           if (j <? length (ss_derps s))%nat then
             with_derp j (derp_Send source (tp_Payload outbound)
               (if tp_Control outbound then Priority_Control else Priority_Data))
           else eret tt
       | None, None => eret tt
       end) ;;*
      send_outbound peer source direct derp rest
  end.

Definition SessionImpl_ProcessWireGuardPacket (now : Z) (derp : option (bytes * nat))
    (direct : option Endpoint) (packet : bytes) (result : SessionWaitResult)
    : eff session (bool * SessionWaitResult) :=
  let* s := eget in
  if negb (ss_configured s) || Disco_IsDiscoPacket packet then eret (false, result) else
  let* received := with_router (match derp with
                                | None => WireGuardRouter_Receive now packet
                                | Some (source, _) => WireGuardRouter_ReceiveFrom now source packet
                                end) in
  if bool_decide (rr_Source received = zero_key) then eret (false, result) else
  if negb (rr_Accepted received) then eret (true, result) else
  let* s := eget in
  let peer := SessionImpl_FindPeer (rr_Source received) s in
  let* result :=
    match peer with
    | Some i =>
        alter_speer i (sp_add_bytes 0 (zlen packet)) ;;*
        match direct with
        | Some e => SessionImpl_MarkDirect i e result
        | None => eret result
        end
    | None => eret result
    end in
  send_outbound peer (rr_Source received) direct (snd <$> derp) (rr_Outbound received) ;;*
  eret (true, sw_wireguard {|
    wg_Peer := rr_Source received; wg_Plaintext := rr_Plaintext received; wg_DirectSource := direct;
    wg_TransportBytes := zlen packet; wg_SessionEstablished := rr_SessionEstablished received |} result).

(** A datagram of the socket, in the order in which the session offers it. *)
Definition process_datagram (now : Z) (datagram : UdpDatagram) (result : SessionWaitResult)
    : eff session SessionWaitResult :=
  let* (handled, result) := SessionImpl_ProcessEndpointResponse now datagram result in
  if handled : bool then eret result else
  let* (handled, result) := SessionImpl_ProcessDiscoPacket now None (Some (ud_Source datagram))
                              (ud_Payload datagram) result in
  if handled : bool then eret result else
  let* (handled, result) := SessionImpl_ProcessWireGuardPacket now None (Some (ud_Source datagram))
                              (ud_Payload datagram) result in
  eret (if handled : bool then result else sw_datagram datagram result).

Fixpoint process_datagrams (now : Z) (datagrams : list UdpDatagram) (result : SessionWaitResult)
    : eff session SessionWaitResult :=
  match datagrams with
  | [] => eret result
  | datagram :: rest =>
      let* result := process_datagram now datagram result in process_datagrams now rest result
  end.

(** The packets of a DERP connection. *)
Fixpoint process_derp_packets (now : Z) (j : nat) (packets : list DerpPacket)
    (result : SessionWaitResult) : eff session SessionWaitResult :=
  match packets with
  | [] => eret result
  | packet :: rest =>
      let* (handled, result) := SessionImpl_ProcessDiscoPacket now
        (Some (dp_Source packet, j)) None (DerpClient.dp_Payload packet) result in
      let* result :=
        (if handled : bool then eret result else
         let* (handled, result) := SessionImpl_ProcessWireGuardPacket now
           (Some (dp_Source packet, j)) None (DerpClient.dp_Payload packet) result in
         eret (if handled : bool then result else sw_derp (Z.of_nat j) packet result)) in
      process_derp_packets now j rest result
  end.

(** The loop over the DERP connections for one event, from connection [j] on, of which there are
    [todo] left; whether one of them took the event. *)
Fixpoint offer_derps (now : Z) (todo j : nat) (event : Event) (result : SessionWaitResult)
    : eff session (bool * SessionWaitResult) :=
  match todo with
  | O => eret (false, result)
  | S todo' =>
      let* derp := with_derp j (derp_ProcessEvent event) in
      if negb (er_Handled derp) then offer_derps now todo' (S j) event result else
      let* result := process_derp_packets now j (er_Packets derp) result in
      eret (true, result)
  end.

Definition process_platform_event (now : Z) (event : Event) (result : SessionWaitResult)
    : eff session SessionWaitResult :=
  let* s := eget in
  let* (handled, maps) := match ss_control s with
                          | Some _ => with_control (control_ProcessEvent event)
                          | None => eret (false, [])
                          end in
  if handled : bool then eret (sw_maps maps result) else
  let* s := eget in
  let* (handled, result) := offer_derps now (length (ss_derps s)) 0 event result in
  eret (if handled : bool then result else sw_platform event result).

Fixpoint process_platform_events (now : Z) (events : list Event) (result : SessionWaitResult)
    : eff session SessionWaitResult :=
  match events with
  | [] => eret result
  | event :: rest =>
      let* result := process_platform_event now event result in
      process_platform_events now rest result
  end.

(** A discovery does not outlive the socket. *)
Definition fail_discovery (engineResult : EngineWaitResult) (result : SessionWaitResult)
    : eff session SessionWaitResult :=
  let* s := eget in
  if negb (bool_decide (ew_Failures engineResult = [])) && bool_decide (is_Some (ss_discovery s))
  then discovered None result else eret result.

Definition SessionImpl_ProcessProtocolEvents (now : Z) (engineResult : EngineWaitResult)
    (result : SessionWaitResult) : eff session SessionWaitResult :=
  let result := sw_set (ew_Packets engineResult) (ew_Failures engineResult)
                  (sw_MaintenanceDue result) (sw_EndpointDiscovery result) (sw_Status result) result in
  let* result := fail_discovery engineResult result in
  let* result := process_datagrams now (ew_Datagrams engineResult) result in
  process_platform_events now (ew_PlatformEvents engineResult) result.

(** ** Maintenance *)

Fixpoint maintain_derps (todo j : nat) : eff session unit :=
  match todo with
  | O => eret tt
  | S todo' => with_derp j derp_Maintain ;;* maintain_derps todo' (S j)
  end.

Definition SessionImpl_MaintainConnections (result : SessionWaitResult)
    : eff session SessionWaitResult :=
  let* s := eget in
  let* result := match ss_control s with
                 | Some _ => let* maps := with_control control_Maintain in eret (sw_maps maps result)
                 | None => eret result
                 end in
  let* s := eget in
  maintain_derps (length (ss_derps s)) 0 ;;*
  eret result.

(** The loop of [Maintain] over the peers, from peer [i] on. *)
Fixpoint maintain_peers (now : Z) (todo i : nat) (result : SessionWaitResult)
    : eff session SessionWaitResult :=
  match todo with
  | O => eret result
  | S todo' =>
      let* peer := the_peer i in
      if negb (sp_Active peer) then maintain_peers now todo' (S i) result else
      let* expired := with_connection (MagicConnection_ExpireDirectPath now (sp_PublicKey peer)) in
      let result := if expired : bool
                    then sw_path {| pe_Peer := sp_PublicKey peer; pe_DirectEndpoint := None |} result
                    else result in
      let* hasSession := with_router (WireGuardRouter_HasSession now (sp_PublicKey peer)) in
      let* s := eget in
      (if (hasSession : bool)
          && negb (MagicConnection_HasDirectPath (sp_PublicKey peer) (ss_connection s))
       then SessionImpl_StartDirectProbe now i else eret tt) ;;*
      maintain_peers now todo' (S i) result
  end.

(** [do next += interval while (next <= now)] *)
Fixpoint next_maintenance (fuel : nat) (next now : Z) : outcome Z :=
  match fuel with
  | O => UB
  | S fuel' =>
      let next := next + MaintenanceInterval in
      if next <=? now then next_maintenance fuel' next now else Ok next
  end.

Definition SessionImpl_Maintain (now : Z) (result : SessionWaitResult)
    : eff session SessionWaitResult :=
  let* result := SessionImpl_MaintainConnections result in
  let* s := eget in
  let* result :=
    (if ss_configured s then
       let* packets := with_router (WireGuardRouter_UpdateTimers now) in
       SessionImpl_Dispatch now packets ;;*
       let* s := eget in
       maintain_peers now (length (ss_peers s)) 0 result
     else eret result) in
  let* s := eget in
  let* next := elift (next_maintenance (S (Z.to_nat ((now - ss_nextMaintenance s) / MaintenanceInterval)))
                        (ss_nextMaintenance s) now) in
  emod (ss_set_next next) ;;*
  eret (sw_set_due result).

(** ** Waiting *)

Definition nothing_to_do (r : SessionWaitResult) : bool :=
  negb (sw_MaintenanceDue r) && bool_decide (sw_Datagrams r = []) && bool_decide (sw_Packets r = [])
  && bool_decide (sw_Failures r = []) && bool_decide (zlen (sw_NetworkMaps r) = 0)
  && bool_decide (zlen (sw_DerpPackets r) = 0) && bool_decide (zlen (sw_WireGuardEvents r) = 0)
  && bool_decide (zlen (sw_DiscoEvents r) = 0) && bool_decide (zlen (sw_PathEvents r) = 0)
  && bool_decide (zlen (sw_PlatformEvents r) = 0) && bool_decide (sw_EndpointDiscovery r = None).

(** The time up to which [Wait] sleeps. *)
Definition wait_until (before : Z) (deadline : option Z) (discovery : option (option Endpoint))
    (s : session) : Z :=
  let next := match deadline with
              | Some d => Z.min d (ss_nextMaintenance s)
              | None => ss_nextMaintenance s
              end in
  let next := match ss_discovery s with
              | Some d => Z.min next (Z.min (dv_Deadline d) (dv_NextSend d))
              | None => next
              end in
  match discovery with Some _ => before | None => next end.

(** The first part of [Wait]: what the discovery and the engine give. *)
Definition wait_engine (before maximumEvents maximumPackets maximumSize : Z) (deadline : option Z)
    : eff session (option (option Endpoint) * EngineWaitResult) :=
  let* discovery := SessionImpl_PollEndpointDiscovery before (SessionWaitResult_new Wait_Events None) in
  let* s := eget in
  let* engineResult := with_engine (EngineImpl_Wait
    (Some (wait_until before deadline (sw_EndpointDiscovery discovery) s))
    maximumEvents maximumPackets maximumSize) in
  eret (sw_EndpointDiscovery discovery, engineResult).

Definition SessionImpl_Wait (before now : Z) (maximumEvents maximumPackets maximumSize : Z)
    (deadline : option Z) : eff session SessionWaitResult :=
  let* (discovery, engineResult) :=
    wait_engine before maximumEvents maximumPackets maximumSize deadline in
  let* result := SessionImpl_ProcessProtocolEvents now engineResult
    (SessionWaitResult_new (ew_Status engineResult) discovery) in
  let* result := SessionImpl_PollEndpointDiscovery now result in
  let* s := eget in
  let* result :=
    (if ss_nextMaintenance s <=? now then SessionImpl_Maintain now result
     else if bool_decide (sw_Status result = Wait_Woken) then SessionImpl_MaintainConnections result
     else eret result) in
  eret (if bool_decide (sw_Status result = Wait_Woken) && negb (nothing_to_do result)
        then sw_set_status Wait_Events result else result).

(** The loop of [DiscoverEndpoint], with the clock readings of its waits; [None] means that the
    discovery goes on after them. *)
Fixpoint discover_loop (times : list (Z * Z)) : eff session (option (option Endpoint)) :=
  match times with
  | [] => eret None
  | (before, now) :: rest =>
      let* ready := SessionImpl_Wait before now StunMaximumEvents StunMaximumDatagrams
                      StunMaximumDatagramSize None in
      match sw_EndpointDiscovery ready with
      | Some endpoint => eret (Some endpoint)
      | None => discover_loop rest
      end
  end.

Definition SessionImpl_DiscoverEndpoint (now : Z) (server : Endpoint) (timeout : Z)
    (times : list (Z * Z)) : eff session (option (option Endpoint)) :=
  SessionImpl_StartEndpointDiscovery now server timeout ;;*
  discover_loop times.

Definition SessionImpl_Wake : eff session unit := with_engine EngineImpl_Wake.

(** The constructor. *)
Definition SessionImpl_new (engine : EngineImpl L U D) (protocol : PeerProtocol T) (random : R)
    (now : Z) : session := {|
  ss_engine := engine; ss_control := None; ss_derps := []; ss_peers := []; ss_protocol := protocol;
  ss_packetPath := None; ss_discovery := None; ss_configured := false;
  ss_advertisedEndpoint := {| ep_address := {| ip4_value := 0 |}; ep_port := 0 |};
  ss_homeDerpRegion := 0; ss_nextMaintenance := now + MaintenanceInterval; ss_random := random |}.

End session.

(** ** What the session keeps *)

Section invariant.
  Context (unhex : bytes → option bytes) (ip6addr_aton : bytes → option bytes).
  Context {L U D T C K P R : Type}.
  Context `{!EventSource L} `{!UdpSocket U} `{!Device D} `{!TunnelOps T} `{!DerpOps C}
    `{!ControlOps K} `{!PacketPath P} `{!RandomBytes R} {sodium : SodiumBox}.
  Context `{!EventSourceLaws L} `{!UdpSocketLaws U} `{!DeviceLaws D} {tunnel_laws : TunnelLaws T}.

Abbreviation session := (SessionImpl L U D T C K P R).

(** What traffic leaves as it is: the peers but for their counters, the keys that are registered,
    and what is configured. *)
Definition peer_view (p : SessionPeer) : PeerConfig * bytes * option bytes * list Endpoint * bool :=
  (sp_Config p, sp_PublicKey p, sp_DiscoKey p, sp_Endpoints p, sp_Active p).

Definition static_view : Type :=
  list (PeerConfig * bytes * option bytes * list Endpoint * bool) * list bytes * bool * option Disco * bool.

Definition static (s : session) : static_view :=
  (map peer_view (ss_peers s), map fst (mc_peers (ss_connection s)), ss_configured s,
   pp_disco (ss_protocol s), bool_decide (is_Some (pp_router (ss_protocol s)))).

Definition active_keys (peers : list SessionPeer) : list bytes :=
  map sp_PublicKey (List.filter sp_Active peers).

Record session_ok (s : session) : Prop := {
  sk_engine : engine_ok (ss_engine s);
  sk_router : ∀ router, pp_router (ss_protocol s) = Some router → router_ok router;
  sk_keys : NoDup (map sp_PublicKey (ss_peers s));
  sk_registered : ∀ k, k ∈ map fst (mc_peers (ss_connection s)) ↔ k ∈ active_keys (ss_peers s);
  sk_protocol : is_Some (pp_router (ss_protocol s)) ↔ is_Some (pp_disco (ss_protocol s));
  sk_configured : ss_configured s = true → is_Some (pp_router (ss_protocol s))
}.

Lemma views_keys peers peers' :
  map peer_view peers = map peer_view peers' →
  map sp_PublicKey peers = map sp_PublicKey peers' ∧ active_keys peers = active_keys peers'.
Proof.
  revert peers'. induction peers as [|p peers IH]; intros [|p' peers']; simpl; try done.
  intros [= Hc Hk Hd He Ha Hl]. destruct (IH _ Hl) as [H1 H2]. unfold active_keys in *. simpl.
  rewrite Hk, H1, Ha. split; [done|]. destruct (sp_Active p'); simpl; congruence.
Qed.

Lemma bool_decide_ext_iff (X Y : Prop) `{!Decision X} `{!Decision Y} :
  bool_decide X = bool_decide Y → (X ↔ Y).
Proof. repeat case_bool_decide; naive_solver. Qed.

Lemma session_ok_static (s s' : session) :
  session_ok s → static s' = static s → engine_ok (ss_engine s') →
  (∀ router, pp_router (ss_protocol s') = Some router → router_ok router) → session_ok s'.
Proof.
  intros [He Hr Hk Hg Hp Hf]. unfold static. intros [= Hv Hm Hc Hd Hi] He' Hr'.
  destruct (views_keys _ _ Hv) as [Hv1 Hv2]. apply bool_decide_ext_iff in Hi.
  split; [done|done| | | |].
  - by rewrite Hv1.
  - intros k. by rewrite Hm, Hv2.
  - by rewrite Hd, Hi.
  - by rewrite Hc, Hi.
Qed.

(** A call that may make verified what [add] says of the session that it starts in, and nothing
    else. *)
Record smoved (add : static_view → bytes → Endpoint → Prop) (s s' : session) : Prop := {
  sm_ok : session_ok s';
  sm_static : static s' = static s;
  sm_verified : ∀ k e, verified (ss_connection s') k e →
    verified (ss_connection s) k e ∨ add (static s) k e
}.

Definition none (_ : static_view) (_ : bytes) (_ : Endpoint) : Prop := False.

Definition skeeps {A} (add : static_view → bytes → Endpoint → Prop) (m : eff session A) : Prop :=
  ∀ s, session_ok s → wp m (fun _ s' => smoved add s s') s.

Lemma smoved_refl add s : session_ok s → smoved add s s.
Proof. intros Hs. split; [done|done|by left]. Qed.

Lemma smoved_trans (add : static_view → bytes → Endpoint → Prop) s1 s2 s3 :
  smoved add s1 s2 → smoved add s2 s3 → smoved add s1 s3.
Proof.
  intros [_ S1 V1] [O2 S2 V2]. split; [done|congruence|].
  intros k e [He|He]%V2; [by apply V1|]. right. by rewrite <-S1.
Qed.

Lemma smoved_weaken (add add' : static_view → bytes → Endpoint → Prop) s s' :
  smoved add s s' → (∀ k e, add (static s) k e → add' (static s) k e) → smoved add' s s'.
Proof. intros [O S V] Hadd. split; [done|done|]. intros k e [|]%V; auto. Qed.

(** A change of the parts of a session that no invariant is about. *)
Lemma smoved_aside add (s s' : session) :
  session_ok s → ss_engine s' = ss_engine s → ss_protocol s' = ss_protocol s →
  map peer_view (ss_peers s') = map peer_view (ss_peers s) → ss_configured s' = ss_configured s →
  smoved add s s'.
Proof.
  intros Hs He Hp Hv Hc.
  assert (static s' = static s) as Hst by (unfold static, ss_connection; by rewrite He, Hp, Hv, Hc).
  split; [|done|].
  - eapply session_ok_static; [done|done|rewrite He; apply Hs|rewrite Hp; apply Hs].
  - unfold ss_connection. rewrite He. by left.
Qed.

Lemma skeeps_bind {A B} add (m : eff session A) (f : A → eff session B) :
  skeeps add m → (∀ a, skeeps add (f a)) → skeeps add (ebind m f).
Proof.
  intros Hm Hf s Hs. apply wp_bind. eapply wp_mono; [by apply Hm|].
  intros [a|e|] s1 H1; [|done..]. eapply wp_mono; [apply Hf, H1|]. intros r s2 H2.
  by eapply smoved_trans.
Qed.

Lemma skeeps_weaken {A} (add add' : static_view → bytes → Endpoint → Prop) (m : eff session A) :
  skeeps add m → (∀ st k e, add st k e → add' st k e) → skeeps add' m.
Proof.
  intros Hm Hadd s Hs. eapply wp_mono; [by apply Hm|]. intros r s' Hmv.
  eapply smoved_weaken; [exact Hmv|]. intros k e. apply Hadd.
Qed.

Lemma skeeps_mono {A} add (m : eff session A) : skeeps none m → skeeps add m.
Proof. intros Hm. eapply skeeps_weaken; [exact Hm|done]. Qed.

Lemma skeeps_ret {A} add (a : A) : skeeps add (eret a).
Proof. intros s Hs. by apply smoved_refl. Qed.

Lemma skeeps_throw {A} add e : skeeps add (ethrow e : eff session A).
Proof. intros s Hs. by apply smoved_refl. Qed.

Lemma skeeps_lift {A} add (m : outcome A) : skeeps add (elift m : eff session A).
Proof. intros s Hs. by apply smoved_refl. Qed.

Lemma skeeps_get add : skeeps add (eget : eff session session).
Proof. intros s Hs. by apply smoved_refl. Qed.

Lemma skeeps_random {A} add (m : eff R A) : skeeps add (with_random m).
Proof. intros s Hs. unfold wp, with_random. destruct (m _). by apply smoved_aside. Qed.

Lemma skeeps_derp {A} add j (m : eff C A) : skeeps add (with_derp j m).
Proof.
  intros s Hs. unfold wp, with_derp. destruct (ss_derps s !! j) as [d|]; [|by apply smoved_refl].
  destruct (m _). by apply smoved_aside.
Qed.

Lemma skeeps_control {A} add (m : eff K A) : skeeps add (with_control m).
Proof.
  intros s Hs. unfold wp, with_control. destruct (ss_control s) as [d|]; [|by apply smoved_refl].
  destruct (m _). by apply smoved_aside.
Qed.

Lemma skeeps_packet_path {A} add (m : eff P A) : skeeps add (with_path m).
Proof.
  intros s Hs. unfold wp, with_path. destruct (ss_packetPath s) as [d|]; [|by apply smoved_refl].
  destruct (m _). by apply smoved_aside.
Qed.

Lemma skeeps_aside add (f : session → session) :
  (∀ s, ss_engine (f s) = ss_engine s ∧ ss_protocol (f s) = ss_protocol s
        ∧ map peer_view (ss_peers (f s)) = map peer_view (ss_peers s)
        ∧ ss_configured (f s) = ss_configured s) →
  skeeps add (emod f).
Proof. intros Hf s Hs. wp_auto. destruct (Hf s) as (? & ? & ? & ?). by apply smoved_aside. Qed.

Lemma skeeps_router {A} add (m : eff (WireGuardRouter T) A) : rkeeps m → skeeps add (with_router m).
Proof.
  intros Hm s Hs. unfold wp, with_router.
  destruct (pp_router (ss_protocol s)) as [router|] eqn:Er; [|by apply smoved_refl].
  pose proof (Hm router (sk_router s Hs router Er)) as H. unfold wp in H.
  destruct (m router) as [r router']. simpl in *.
  assert (∀ s', s' = ss_set_protocol {| pp_identity := pp_identity (ss_protocol s);
      pp_router := Some router'; pp_disco := pp_disco (ss_protocol s) |} s → smoved add s s') as Hgo.
  { intros s' ->.
    assert (static (ss_set_protocol {| pp_identity := pp_identity (ss_protocol s);
      pp_router := Some router'; pp_disco := pp_disco (ss_protocol s) |} s) = static s) as Hst.
    { unfold static. simpl. by rewrite Er. }
    split; [|done|by left]. eapply session_ok_static; [done|done|apply Hs|].
    simpl. by intros ? [= <-]. }
  by apply Hgo.
Qed.

Lemma skeeps_connection {A} sub (add : bytes → Endpoint → Prop) (m : eff (MagicConnection U) A) :
  mkeeps [] (fun _ => false) sub add m → keeps_shape m →
  skeeps (fun _ => add) (with_connection m).
Proof.
  intros Hm Hshape s Hs. unfold wp, with_connection, with_engine, on_connection.
  pose proof (Hm (ss_connection s) (eo_connection _ (sk_engine s Hs))) as [_ [Hc _ Hv]].
  specialize (Hshape (ss_connection s)).
  change (en_connection (ss_engine s)) with (ss_connection s) in *.
  destruct (m (ss_connection s)) as [r c]. simpl in *.
  assert (engine_ok (en_set_connection c (ss_engine s))) as He by (by destruct (sk_engine s Hs)).
  assert (static (ss_set_engine (en_set_connection c (ss_engine s)) s) = static s) as Hst.
  { unfold static, ss_connection. simpl. unfold shape in Hshape. injection Hshape as _ _ ->. done. }
  split; [|done|done]. eapply session_ok_static; [done|done|done|apply Hs].
Qed.

(** The calls of the connection that verify nothing, by what file Magicsock shows of them. *)
Lemma skeeps_unit add (c : magic_call U) :
  tagged [] (fun _ => false) c → (∀ k e, verifies c k e = false) → keeps_shape (magic_run_call c) →
  skeeps add (with_connection (magic_run_call c)).
Proof.
  intros Ht Hc Hshape. apply skeeps_mono. eapply skeeps_weaken.
  - apply (skeeps_connection (submits [] c) (fun k e => verifies c k e = true)); [|done].
    by apply magic_call_keeps.
  - intros st k e. cbv beta. by rewrite Hc.
Qed.

Lemma skeeps_magic {A} add (c : magic_call U) (m : eff (MagicConnection U) A) :
  ignore m = magic_run_call c →
  tagged [] (fun _ => false) c → (∀ k e, verifies c k e = false) → keeps_shape m →
  skeeps add (with_connection m).
Proof.
  intros Hm Ht Hc Hshape. apply skeeps_mono. eapply skeeps_weaken.
  - apply (skeeps_connection (submits [] c) (fun k e => verifies c k e = true)); [|done].
    apply mkeeps_unignore. rewrite Hm. by apply magic_call_keeps.
  - intros st k e. cbv beta. by rewrite Hc.
Qed.

#[local] Ltac magic_auto :=
  first [done | solve [auto with shape] | apply keeps_shape_flag | apply keeps_shape_ProbePeer
        | apply keeps_shape_ResetPath].

Lemma skeeps_Send add now peer payload expect :
  skeeps add (with_connection (MagicConnection_Send now peer payload expect)).
Proof. apply (skeeps_magic _ (Call_Send now peer payload expect)); magic_auto. Qed.

Lemma skeeps_SendDirect add peer e payload :
  skeeps add (with_connection (MagicConnection_SendDirect peer e payload)).
Proof. apply (skeeps_magic _ (Call_SendDirect peer e payload)); magic_auto. Qed.

Lemma skeeps_TrySendProbe add e payload :
  skeeps add (with_connection (MagicConnection_TrySendProbe e payload)).
Proof. apply (skeeps_magic _ (Call_TrySendProbe e payload)); magic_auto. Qed.

Lemma skeeps_TryBeginProbe add now peer :
  skeeps add (with_connection (MagicConnection_TryBeginProbe now peer)).
Proof. apply (skeeps_magic _ (Call_TryBeginProbe now peer)); magic_auto. Qed.

Lemma skeeps_ExpireDirectPath add now peer :
  skeeps add (with_connection (MagicConnection_ExpireDirectPath now peer)).
Proof. apply (skeeps_magic _ (Call_ExpireDirectPath now peer)); magic_auto. Qed.

Lemma skeeps_ProbePeer add peer payload :
  skeeps add (with_connection (MagicConnection_ProbePeer peer payload)).
Proof. apply (skeeps_unit _ (Call_ProbePeer peer payload)); magic_auto. Qed.

Lemma skeeps_ResetPath add peer mode :
  skeeps add (with_connection (MagicConnection_ResetPath peer mode)).
Proof. apply (skeeps_unit _ (Call_ResetPath peer mode)); magic_auto. Qed.

Lemma skeeps_counters add i tx rx : skeeps add (alter_speer i (sp_add_bytes tx rx) : eff session unit).
Proof.
  apply skeeps_aside. intros s. split_and!; try done. simpl.
  generalize (ss_peers s). intros l. revert i.
  induction l as [|p l IH]; intros [|i]; simpl; try done. f_equal. apply IH.
Qed.

Lemma skeeps_the_peer add i : skeeps add (the_peer i : eff session _).
Proof. apply skeeps_bind; [apply skeeps_get|]. intros; apply skeeps_lift. Qed.

Lemma skeeps_engine {A} add (m : eff (EngineImpl L U D) A) sub :
  ekeeps sub m → keeps_eshape m → skeeps add (with_engine m).
Proof.
  intros Hm Hshape s Hs. unfold wp, with_engine.
  pose proof (Hm (ss_engine s) (sk_engine s Hs)) as [_ [Hc _ Hv]].
  specialize (Hshape (ss_engine s)). destruct (m (ss_engine s)) as [r e]. simpl in *.
  assert (static (ss_set_engine e s) = static s) as Hst.
  { unfold static, ss_connection. simpl. unfold eshape, shape in Hshape. by injection Hshape as _ _ ->. }
  split; [|done|intros k ep Hver; left; by apply Hv].
  eapply session_ok_static; [done|done|done|apply Hs].
Qed.

(** *** What carries traffic *)

Create HintDb session.

#[local] Hint Resolve skeeps_ret skeeps_throw skeeps_lift skeeps_get skeeps_random skeeps_derp
  skeeps_control skeeps_packet_path skeeps_counters skeeps_the_peer skeeps_Send skeeps_SendDirect
  skeeps_TrySendProbe skeeps_TryBeginProbe skeeps_ExpireDirectPath skeeps_ProbePeer
  skeeps_ResetPath : session.

#[local] Ltac session_auto :=
  repeat match goal with
  | |- skeeps _ (ebind _ _) => apply skeeps_bind; [|intros ?]
  | |- skeeps _ (if ?b then _ else _) => destruct b
  | |- skeeps _ (match ?x with _ => _ end) => destruct x
  | |- skeeps _ (let _ := _ in _) => cbv zeta
  | |- skeeps _ (emod _) => by apply skeeps_aside
  | |- _ => solve [auto with session]
  end.

Lemma skeeps_Disco add : skeeps add (PeerProtocol_Disco : eff session _).
Proof. unfold PeerProtocol_Disco. session_auto. Qed.

Lemma skeeps_SendRelay add i payload priority :
  skeeps add (SessionImpl_SendRelay i payload priority : eff session _).
Proof. unfold SessionImpl_SendRelay. session_auto. Qed.

Lemma skeeps_send_probes add endpoints payload :
  skeeps add (send_probes endpoints payload : eff session _).
Proof. induction endpoints; simpl; session_auto. Qed.

#[local] Hint Resolve skeeps_Disco skeeps_SendRelay skeeps_send_probes : session.

Lemma skeeps_SendTransport add now i payload expect priority :
  skeeps add (SessionImpl_SendTransport now i payload expect priority : eff session _).
Proof. unfold SessionImpl_SendTransport. session_auto. Qed.

Lemma skeeps_StartDirectProbe add now i :
  skeeps add (SessionImpl_StartDirectProbe now i : eff session _).
Proof. unfold SessionImpl_StartDirectProbe. session_auto. Qed.

#[local] Hint Resolve skeeps_SendTransport skeeps_StartDirectProbe : session.

Lemma skeeps_Dispatch add now packets : skeeps add (SessionImpl_Dispatch now packets : eff session _).
Proof. induction packets; simpl; unfold dispatch_packet; session_auto. Qed.

Lemma skeeps_router_call {A} add (call : router_call) (m : eff (WireGuardRouter T) A) :
  router_step unhex ip6addr_aton call = drop_result m → skeeps add (with_router m).
Proof.
  intros Hm. apply skeeps_router. intros router Hr.
  pose proof (router_step_ok unhex ip6addr_aton call router Hr) as H. by rewrite Hm in H.
Qed.

Lemma skeeps_HasSession add now key :
  skeeps add (with_router (WireGuardRouter_HasSession now key)).
Proof.
  apply skeeps_router, keeps_get_bind. intros router'. case_match; [|apply rkeeps_ret].
  intros router Hr. apply wp_bind, wp_at_peer; [done|]. intros peer Hp.
  by eapply rkeeps_HasSession.
Qed.

#[local] Hint Resolve skeeps_Dispatch skeeps_HasSession : session.

Lemma skeeps_if_configured add now (call : router_call) m :
  router_step unhex ip6addr_aton call = drop_result m → skeeps add (if_configured now m).
Proof. intros Hm. unfold if_configured. session_auto. by eapply skeeps_router_call. Qed.

Lemma skeeps_SendDiscoPing add peer : skeeps add (SessionImpl_SendDiscoPing peer : eff session _).
Proof. unfold SessionImpl_SendDiscoPing. session_auto. Qed.

Lemma skeeps_PeerStats add now peer : skeeps add (SessionImpl_PeerStats now peer : eff session _).
Proof. unfold SessionImpl_PeerStats. session_auto. Qed.

Lemma skeeps_send_outbound add peer source direct derp packets :
  skeeps add (send_outbound peer source direct derp packets : eff session _).
Proof. induction packets; simpl; session_auto. Qed.

Lemma skeeps_discovered add e result : skeeps add (discovered e result : eff session _).
Proof. unfold discovered, SessionImpl_CancelEndpointDiscovery. session_auto. Qed.

Lemma skeeps_try_send_probe add server payload :
  skeeps add (try_send_probe server payload : eff session _).
Proof.
  intros s Hs. pose proof (skeeps_TrySendProbe add server payload s Hs) as H. unfold wp in *.
  unfold try_send_probe. by destruct (with_connection _ s) as [[a|[]|] s'].
Qed.

#[local] Hint Resolve skeeps_send_outbound skeeps_discovered skeeps_try_send_probe : session.

Lemma skeeps_PollEndpointDiscovery add now result :
  skeeps add (SessionImpl_PollEndpointDiscovery now result : eff session _).
Proof. unfold SessionImpl_PollEndpointDiscovery. session_auto. Qed.

Lemma skeeps_ProcessEndpointResponse add now datagram result :
  skeeps add (SessionImpl_ProcessEndpointResponse now datagram result : eff session _).
Proof. unfold SessionImpl_ProcessEndpointResponse. session_auto. Qed.

Lemma skeeps_maintain_derps add todo j : skeeps add (maintain_derps todo j : eff session _).
Proof. revert j. induction todo; intros j; simpl; session_auto. Qed.

#[local] Hint Resolve skeeps_PollEndpointDiscovery skeeps_ProcessEndpointResponse
  skeeps_maintain_derps : session.

Lemma skeeps_MaintainConnections add result :
  skeeps add (SessionImpl_MaintainConnections result : eff session _).
Proof. unfold SessionImpl_MaintainConnections. session_auto. Qed.

Lemma skeeps_maintain_peers add now todo i result :
  skeeps add (maintain_peers now todo i result : eff session _).
Proof. revert i result. induction todo; intros i result; simpl; session_auto. Qed.

#[local] Hint Resolve skeeps_MaintainConnections skeeps_maintain_peers : session.

Lemma skeeps_Maintain add now result : skeeps add (SessionImpl_Maintain now result : eff session _).
Proof.
  unfold SessionImpl_Maintain. session_auto.
  by apply (skeeps_router_call _ (Call_UpdateTimers now)).
Qed.

(** *** What verifies an endpoint *)

(** An active peer of the session under key [k]. *)
Definition knows (s : session) (k : bytes) (p : SessionPeer) : Prop :=
  p ∈ ss_peers s ∧ sp_Active p = true ∧ sp_PublicKey p = k.

(** A ping or pong that only the peer [k] can have sealed: the discovery key that the network map
    gives for it opens the message. *)
Definition disco_vouches (s : session) (packet k : bytes) : Prop :=
  ss_configured s = true ∧ ∃ disco message p,
    pp_disco (ss_protocol s) = Some disco ∧ Disco_Parse disco packet = Ok (Some message)
    ∧ dm_Type message ≠ Disco_CallMeMaybe ∧ knows s k p ∧ sp_DiscoKey p = Some (dm_Sender message).

(** A packet that the router takes as one of the peer [k]. *)
Definition wireguard_vouches (now : Z) (s : session) (packet k : bytes) : Prop :=
  ss_configured s = true ∧ ∃ router router' received p,
    pp_router (ss_protocol s) = Some router
    ∧ WireGuardRouter_Receive now packet router = (Ok received, router')
    ∧ rr_Accepted received = true ∧ rr_Source received = k ∧ knows s k p.

Definition marks (i : nat) (endpoint : Endpoint) (st : static_view) (k : bytes) (e : Endpoint) : Prop :=
  e = endpoint ∧ ∃ v, st.1.1.1.1 !! i = Some v ∧ v.1.1.1.2 = k.

Lemma skeeps_MarkDirect i e result : skeeps (marks i e) (SessionImpl_MarkDirect i e result : eff session _).
Proof.
  intros s Hs. unfold SessionImpl_MarkDirect, the_peer. apply wp_bind. wp_auto.
  unfold rd. destruct (ss_peers s !! Z.to_nat (Z.of_nat i)) as [p|] eqn:Ep.
  2:{ destruct (_ <? _); wp_auto; by apply smoved_refl. }
  destruct (_ <? _); wp_auto; [by apply smoved_refl|].
  assert (skeeps (fun _ k e' => verifies (U := U) (Call_MarkDirect (sp_PublicKey p) e) k e' = true)
    (with_connection (MagicConnection_MarkDirect (sp_PublicKey p) e))) as Hm.
  { apply (skeeps_connection []); [|apply keeps_shape_flag].
    by apply mkeeps_unignore, (magic_call_keeps _ _ (Call_MarkDirect (sp_PublicKey p) e)). }
  apply wp_bind. eapply wp_mono; [by apply Hm|]. intros r s' Hmv.
  apply (smoved_weaken _ (marks i e)) in Hmv; [by destruct r|].
  intros k e' [Hk He]%andb_true_iff. apply bool_decide_eq_true_1 in Hk, He. split; [done|].
  exists (peer_view p). split; [|done]. unfold static. simpl. rewrite Nat2Z.id in Ep.
  by rewrite list_lookup_fmap, Ep.
Qed.

Lemma skeeps_answer_disco (add : static_view → bytes → Endpoint → Prop)
    now i disco key derp direct message result :
  (∀ e st k e', direct = Some e → dm_Type message ≠ Disco_CallMeMaybe → marks i e st k e' →
    add st k e') →
  skeeps add (answer_disco now i disco key derp direct message result : eff session _).
Proof.
  intros Hadd. assert (∀ e r, direct = Some e → dm_Type message ≠ Disco_CallMeMaybe →
    skeeps add (SessionImpl_MarkDirect i e r : eff session _)) as Hmark.
  { intros e r -> Ht. eapply skeeps_weaken; [apply skeeps_MarkDirect|]. intros st k e'. by apply Hadd. }
  unfold answer_disco. destruct (dm_Type message); session_auto; by apply Hmark.
Qed.

(** The peer a search returns, seen through what the session keeps. *)
Lemma marks_found (s : session) f i e k e' :
  find_index (fun p => sp_Active p && f p) (ss_peers s) = Some i → marks i e (static s) k e' →
  e' = e ∧ ∃ p, knows s k p ∧ f p = true.
Proof.
  intros (p & Hp & [Ha Hf]%andb_true_iff & _)%find_index_Some [-> (v & Hv & Hk)].
  split; [done|]. exists p. split; [|done]. unfold static in Hv. simpl in Hv.
  rewrite list_lookup_fmap, Hp in Hv. injection Hv as <-. split_and!; [|done|done].
  by eapply list_elem_of_lookup_2.
Qed.

(** A discovery packet verifies only its source, and only for the peer that sealed it; a packet
    that is not one is left to the others. *)
Lemma wp_ProcessDiscoPacket now derp direct packet result s :
  session_ok s →
  wp (SessionImpl_ProcessDiscoPacket now derp direct packet result) (fun r s' =>
    smoved (fun _ k e => direct = Some e ∧ disco_vouches s packet k) s s'
    ∧ ∀ b result', r = Ok (b, result') → b = false → s' = s) s.
Proof.
  intros Hs. unfold SessionImpl_ProcessDiscoPacket. wp_auto.
  destruct (ss_configured s) eqn:Hconf; simpl; [|split; [by apply smoved_refl|done]].
  destruct (Disco_IsDiscoPacket packet); simpl; [|split; [by apply smoved_refl|done]].
  apply wp_bind. unfold PeerProtocol_Disco. wp_auto.
  destruct (pp_disco (ss_protocol s)) as [disco|] eqn:Hd; [|split; [by apply smoved_refl|done]].
  wp_auto.
  destruct (Disco_Parse disco packet) as [[message|]|e|] eqn:Hp; wp_auto;
    try (split; [by apply smoved_refl|naive_solver]).
  destruct (SessionImpl_FindDiscoPeer (dm_Sender message) s) as [i|] eqn:Hi.
  2:{ wp_auto. split; [by apply smoved_refl|naive_solver]. }
  assert (skeeps (fun st k e => ∃ e0, direct = Some e0 ∧ dm_Type message ≠ Disco_CallMeMaybe
      ∧ marks i e0 st k e)
    (alter_speer i (sp_add_bytes 0 (zlen packet)) ;;*
     let* peer := the_peer i in
     let* result := answer_disco now i disco (dm_Sender message) derp direct message result in
     eret (true, sw_disco {| de_Peer := sp_PublicKey peer; de_Type := dm_Type message;
       de_Transaction := dm_Transaction message; de_DirectSource := direct |} result)
     : eff session _)) as Hrest.
  { session_auto. apply skeeps_answer_disco. eauto. }
  split.
  - eapply smoved_weaken; [exact (Hrest s Hs)|]. intros k e (e0 & -> & Ht & Hm). destruct (marks_found s _ i e0 k e Hi Hm) as [-> (p & Hk & Hf)].
    split; [done|]. split; [done|]. exists disco, message, p. apply bool_decide_eq_true_1 in Hf.
    by destruct Hk as (? & ? & ?).
  - unfold ebind. repeat case_match; naive_solver.
Qed.

Lemma with_router_Ok {A} (m : eff (WireGuardRouter T) A) a (s s' : session) :
  with_router m s = (Ok a, s') →
  ∃ router router', pp_router (ss_protocol s) = Some router ∧ m router = (Ok a, router')
    ∧ ss_peers s' = ss_peers s.
Proof.
  unfold with_router. destruct (pp_router (ss_protocol s)) as [router|]; [|done].
  destruct (m router) as [r router'] eqn:E. intros [= -> <-]. eauto.
Qed.

(** What follows the router's answer. *)
Lemma skeeps_received (add : static_view → bytes → Endpoint → Prop)
    peer direct derp (packet : bytes) received (result : SessionWaitResult) :
  (∀ i e st k e', peer = Some i → direct = Some e → marks i e st k e' → add st k e') →
  skeeps add
    (let* result :=
       match peer with
       | Some i =>
           alter_speer i (sp_add_bytes 0 (zlen packet)) ;;*
           match direct with
           | Some e => SessionImpl_MarkDirect i e result
           | None => eret result
           end
       | None => eret result
       end in
     send_outbound peer (rr_Source received) direct derp (rr_Outbound received) ;;*
     eret (true, sw_wireguard {|
       wg_Peer := rr_Source received; wg_Plaintext := rr_Plaintext received;
       wg_DirectSource := direct; wg_TransportBytes := zlen packet;
       wg_SessionEstablished := rr_SessionEstablished received |} result) : eff session _).
Proof.
  intros Hadd. destruct peer as [i|]; [|session_auto]. destruct direct as [e|]; [|session_auto].
  assert (skeeps add (SessionImpl_MarkDirect i e result : eff session _)) as Hm.
  { eapply skeeps_weaken; [apply skeeps_MarkDirect|]. intros st k e'. by apply Hadd. }
  session_auto.
Qed.

Lemma wp_ProcessWireGuardPacket now direct packet result s :
  session_ok s →
  wp (SessionImpl_ProcessWireGuardPacket now None direct packet result) (fun _ s' =>
    smoved (fun _ k e => direct = Some e ∧ wireguard_vouches now s packet k) s s') s.
Proof.
  intros Hs. unfold SessionImpl_ProcessWireGuardPacket. wp_auto.
  destruct (ss_configured s) eqn:Hconf; simpl; [|by apply smoved_refl].
  destruct (Disco_IsDiscoPacket packet); simpl; [by apply smoved_refl|].
  assert (skeeps none (with_router (WireGuardRouter_Receive now packet))) as Hm
    by (by apply (skeeps_router_call _ (Call_Receive now packet))).
  specialize (Hm s Hs). apply wp_bind. unfold wp at 1. unfold wp in Hm.
  destruct (with_router _ s) as [[received|e|] s1] eqn:Er; simpl in *.
  2,3: eapply smoved_weaken; [exact Hm|done].
  apply (smoved_weaken _ (fun _ k e => direct = Some e ∧ wireguard_vouches now s packet k)) in Hm; [|done].
  case_bool_decide; [done|]. destruct (rr_Accepted received) eqn:Ha; simpl; [|done].
  apply with_router_Ok in Er as (router & router' & Hr & Hrec & Hpeers).
  wp_auto. set (peer := SessionImpl_FindPeer _ _).
  eapply wp_mono.
  - apply (skeeps_received (fun st k e => ∃ i e0, peer = Some i ∧ direct = Some e0 ∧ marks i e0 st k e));
      [eauto 10|apply Hm].
  - intros r s2 Hmv. apply (smoved_trans _ s s1 s2); [done|].
    eapply smoved_weaken; [exact Hmv|]. intros k e (i & e0 & Hi & -> & Hmark).
    destruct (marks_found s1 _ i e0 k e Hi Hmark) as [-> (p & Hk & Hf)]. split; [done|].
    split; [done|]. exists router, router', received, p. apply bool_decide_eq_true_1 in Hf.
    destruct Hk as (Hin & Hact & Hkey). rewrite Hpeers in Hin. split_and!; try done; congruence.
Qed.

Definition vouches (now : Z) (s : session) (d : UdpDatagram) (k : bytes) : Prop :=
  disco_vouches s (ud_Payload d) k ∨ wireguard_vouches now s (ud_Payload d) k.

Lemma ProcessEndpointResponse_unhandled now d result (s s' : session) b r :
  SessionImpl_ProcessEndpointResponse now d result s = (Ok (b, r), s') → b = false → s' = s.
Proof.
  unfold SessionImpl_ProcessEndpointResponse. unfold ebind at 1. simpl.
  destruct (ss_discovery s) as [v|]; [|by intros [= _ _ ->]]. ifb; [by intros [= _ _ ->]|].
  unfold ebind at 1. simpl. destruct (TransactionId_ParseMappedIpv4Endpoint _ _) as [[e|]|e|]; try done.
  - ifb; [by intros [= _ _ ->]|]. by intros [= <- _ _].
  - by intros [= _ _ ->].
Qed.

Lemma wp_process_datagram now d result s :
  session_ok s →
  wp (process_datagram now d result)
    (fun _ s' => smoved (fun _ k e => e = ud_Source d ∧ vouches now s d k) s s') s.
Proof.
  intros Hs. unfold process_datagram. apply wp_bind. unfold wp at 1.
  pose proof (skeeps_ProcessEndpointResponse none now d result s Hs) as H1. unfold wp in H1.
  destruct (SessionImpl_ProcessEndpointResponse now d result s) as [[[b r]|e|] s1] eqn:E1; simpl in *.
  2,3: eapply smoved_weaken; [exact H1|done].
  apply (smoved_weaken _ (fun _ k e => e = ud_Source d ∧ vouches now s d k)) in H1; [|done].
  destruct b; [done|]. apply ProcessEndpointResponse_unhandled in E1 as ->; [|done]. clear H1.
  apply wp_bind. eapply wp_mono; [by apply wp_ProcessDiscoPacket|]. intros [[b r2]|e|] s2 [H2 Hsame].
  2,3: eapply smoved_weaken; [exact H2|]; intros k ep [[= ->] ?]; split; [done|by left].
  destruct b; [eapply smoved_weaken; [exact H2|]; intros k ep [[= ->] ?]; split; [done|by left]|].
  rewrite (Hsame _ _ eq_refl eq_refl). apply wp_bind.
  eapply wp_mono; [by apply wp_ProcessWireGuardPacket|]. intros [[b r3]|e|] s3 H3.
  all: eapply smoved_weaken; [exact H3|]; intros k ep [[= ->] ?]; split; [done|by right].
Qed.

(** Every endpoint that a run of datagrams verifies is the source of one of them, for a peer that
    the session vouched for when it came to that datagram. *)
Lemma wp_process_datagrams now datagrams result s :
  session_ok s →
  wp (process_datagrams now datagrams result) (fun _ s' =>
    smoved (fun _ k e => ∃ pre d post r sd, datagrams = pre ++ d :: post
      ∧ process_datagrams now pre result s = (Ok r, sd) ∧ e = ud_Source d ∧ vouches now sd d k) s s') s.
Proof.
  revert result s. induction datagrams as [|d datagrams IH]; intros result s Hs.
  { by apply smoved_refl. }
  cbn [process_datagrams]. apply wp_bind. unfold wp at 1.
  pose proof (wp_process_datagram now d result s Hs) as H1. unfold wp in H1.
  destruct (process_datagram now d result s) as [r1 s1] eqn:E1. simpl in H1. cbn [fst snd].
  eapply (smoved_weaken _ (fun _ k e => ∃ pre d' post r sd, d :: datagrams = pre ++ d' :: post
    ∧ process_datagrams now pre result s = (Ok r, sd) ∧ e = ud_Source d' ∧ vouches now sd d' k)) in H1.
  2:{ intros k e [-> Hv]. by exists [], d, datagrams, result, s. }
  destruct r1 as [r1|e|]; [|done..]. eapply wp_mono; [apply IH, H1|]. intros r s2 H2.
  apply (smoved_trans _ s s1 s2); [done|]. eapply smoved_weaken; [exact H2|].
  intros k e (pre & d' & post & r' & sd & -> & Hpre & -> & Hv).
  exists (d :: pre), d', post, r', sd. split_and!; [done| |done|done].
  cbn [process_datagrams]. unfold ebind. by rewrite E1.
Qed.

(** *** Waiting *)

Lemma skeeps_derp_disco add now source packet result :
  skeeps add (SessionImpl_ProcessDiscoPacket now source None packet result : eff session _).
Proof.
  intros s Hs. eapply wp_mono; [by apply wp_ProcessDiscoPacket|]. intros r s' [Hmv _].
  eapply smoved_weaken; [exact Hmv|]. by intros k e [? _].
Qed.

Lemma skeeps_derp_wireguard add now source j packet result :
  skeeps add (SessionImpl_ProcessWireGuardPacket now (Some (source, j)) None packet result
    : eff session _).
Proof.
  unfold SessionImpl_ProcessWireGuardPacket. session_auto.
  by apply (skeeps_router_call _ (Call_ReceiveFrom now source packet)).
Qed.

#[local] Hint Resolve skeeps_derp_disco skeeps_derp_wireguard skeeps_Maintain : session.

Lemma skeeps_derp_packets add now j packets result :
  skeeps add (process_derp_packets now j packets result : eff session _).
Proof. revert result. induction packets; intros result; simpl; session_auto. Qed.

#[local] Hint Resolve skeeps_derp_packets : session.

Lemma skeeps_offer_derps add now todo j event result :
  skeeps add (offer_derps now todo j event result : eff session _).
Proof. revert j result. induction todo; intros j result; simpl; session_auto. Qed.

#[local] Hint Resolve skeeps_offer_derps : session.

Lemma skeeps_platform_events add now events result :
  skeeps add (process_platform_events now events result : eff session _).
Proof.
  revert result. induction events; intros result; simpl; unfold process_platform_event; session_auto.
Qed.

Lemma skeeps_fail_discovery add engineResult result :
  skeeps add (fail_discovery engineResult result : eff session _).
Proof. unfold fail_discovery. session_auto. Qed.

Lemma skeeps_wait_engine add before events packets size deadline :
  skeeps add (wait_engine before events packets size deadline : eff session _).
Proof.
  unfold wait_engine. session_auto. eapply skeeps_engine; [apply ekeeps_Wait|apply keeps_eshape_Wait].
Qed.

#[local] Hint Resolve skeeps_platform_events skeeps_fail_discovery skeeps_wait_engine : session.

(** A datagram that [Wait] receives and comes to in session [sd]. *)
Definition comes_to (before now events packets size : Z) (deadline : option Z)
    (s : session) (d : UdpDatagram) (sd : session) : Prop :=
  ∃ discovery engineResult s1 r0 r1 s2 pre post r,
    wait_engine before events packets size deadline s = (Ok (discovery, engineResult), s1)
    ∧ fail_discovery engineResult r0 s1 = (Ok r1, s2)
    ∧ ew_Datagrams engineResult = pre ++ d :: post
    ∧ process_datagrams now pre r1 s2 = (Ok r, sd).

(** Calls one after the other, the first of which may verify more than the second. *)
Lemma smoved_then {A B} (add : static_view → bytes → Endpoint → Prop) (m : eff session A)
    (f : A → eff session B) s :
  wp m (fun _ s' => smoved add s s') s → (∀ a, skeeps none (f a)) →
  wp (ebind m f) (fun _ s' => smoved add s s') s.
Proof.
  intros Hm Hf. apply wp_bind. eapply wp_mono; [exact Hm|]. intros [a|e|] s1 H1; [|done..].
  eapply wp_mono; [apply Hf, H1|]. intros r s2 H2. apply (smoved_trans _ s s1 s2); [done|].
  eapply smoved_weaken; [exact H2|done].
Qed.

Lemma wp_first {A B} (add : static_view → bytes → Endpoint → Prop) (m : eff session A)
    (f : A → eff session B) s :
  skeeps none m → session_ok s →
  (∀ a s1, m s = (Ok a, s1) → session_ok s1 → static s1 = static s →
    wp (f a) (fun _ s' => smoved add s1 s') s1) →
  wp (ebind m f) (fun _ s' => smoved add s s') s.
Proof.
  intros Hm Hs Hf. specialize (Hm s Hs). unfold wp, ebind in *.
  destruct (m s) as [[a|e|] s1] eqn:E; simpl in *.
  2,3: eapply smoved_weaken; [exact Hm|done].
  apply (smoved_trans _ s s1); [eapply smoved_weaken; [exact Hm|done]|].
  apply (Hf a s1); [done|apply Hm..].
Qed.

Lemma wp_Wait before now events packets size deadline s :
  session_ok s →
  wp (SessionImpl_Wait before now events packets size deadline) (fun _ s' =>
    smoved (fun _ k e => ∃ d sd, comes_to before now events packets size deadline s d sd
      ∧ e = ud_Source d ∧ vouches now sd d k) s s') s.
Proof.
  intros Hs. unfold SessionImpl_Wait. apply wp_first; [auto with session|done|].
  intros [discovery engineResult] s1 E1 Hs1 _. apply smoved_then; [|intros; session_auto].
  unfold SessionImpl_ProcessProtocolEvents. cbv zeta. set (r0 := sw_set _ _ _ _ _ _).
  apply wp_first; [auto with session|done|]. intros r1 s2 E2 Hs2 _.
  apply smoved_then; [|intros; auto with session].
  eapply wp_mono; [by apply wp_process_datagrams|]. intros r s3 H3.
  eapply smoved_weaken; [exact H3|].
  intros k e (pre & d & post & r' & sd & Hd & Hpre & He & Hv). exists d, sd. split; [|done].
  by exists discovery, engineResult, s1, r0, r1, s2, pre, post, r'.
Qed.

(** *** A new network map *)

Lemma emplace_keys {A} k (v : A) m k' :
  k' ∈ map fst (map_emplace k v m) ↔ k' = k ∨ k' ∈ map fst m.
Proof.
  induction m as [|[k1 v1] m IH]; simpl; [by rewrite list_elem_of_singleton, elem_of_nil; tauto|].
  destruct (bool_decide_reflect (k = k1)) as [->|]; simpl; [rewrite elem_of_cons; tauto|].
  destruct (lex_ltb k k1); simpl; rewrite !elem_of_cons; [tauto|]. rewrite IH. tauto.
Qed.

Lemma erase_keys {A} k (m : list (bytes * A)) k' :
  k' ∈ map fst (map_erase k m) ↔ k' ≠ k ∧ k' ∈ map fst m.
Proof.
  unfold map_erase. induction m as [|[k1 v1] m IH]; simpl; [rewrite !elem_of_nil; tauto|].
  destruct (bool_decide_reflect (k = k1)) as [->|]; simpl; rewrite !elem_of_cons, IH; naive_solver.
Qed.

Lemma keys_find {A} k (m : list (bytes * A)) : k ∈ map fst m → is_Some (map_find k m).
Proof.
  induction m as [|[k1 v1] m IH]; simpl; [by intros ?%elem_of_nil|].
  case_bool_decide; [done|]. rewrite elem_of_cons. naive_solver.
Qed.

(** While the peers are being updated, the connection may still know peers that are no longer
    active, but knows all that are. *)
Record updating (s : session) : Prop := {
  up_engine : engine_ok (ss_engine s);
  up_router : ∀ router, pp_router (ss_protocol s) = Some router → router_ok router;
  up_keys : NoDup (map sp_PublicKey (ss_peers s));
  up_known : ∀ k, k ∈ map fst (mc_peers (ss_connection s)) → k ∈ map sp_PublicKey (ss_peers s);
  up_active : ∀ k, k ∈ active_keys (ss_peers s) → k ∈ map fst (mc_peers (ss_connection s));
  up_protocol : is_Some (pp_router (ss_protocol s)) ↔ is_Some (pp_disco (ss_protocol s));
  up_configured : ss_configured s = true → is_Some (pp_router (ss_protocol s))
}.

Lemma active_keys_elem peers k :
  k ∈ active_keys peers ↔ ∃ p, p ∈ peers ∧ sp_Active p = true ∧ sp_PublicKey p = k.
Proof.
  unfold active_keys. rewrite list_elem_of_fmap. setoid_rewrite list_elem_of_In.
  setoid_rewrite filter_In. naive_solver.
Qed.

Lemma updating_start s :
  session_ok s → updating (ss_set_peers (map (sp_set_active false) (ss_peers s)) s).
Proof.
  intros [He Hr Hk Hg Hp Hf].
  assert (map sp_PublicKey (map (sp_set_active false) (ss_peers s)) = map sp_PublicKey (ss_peers s))
    as Hsame by (by rewrite map_map).
  split; simpl; try done; rewrite ?Hsame; [done| |].
  - intros k [p (Hin & _ & <-)]%Hg%active_keys_elem. by apply list_elem_of_fmap_2.
  - intros k (p & (q & -> & _)%list_elem_of_fmap & Ha & _)%active_keys_elem. done.
Qed.

Lemma updating_end s :
  updating s → (∀ p, p ∈ ss_peers s → sp_Active p = false →
    sp_PublicKey p ∉ map fst (mc_peers (ss_connection s))) → session_ok s.
Proof.
  intros [He Hr Hk Hkn Ha Hp Hf] Hgone. split; try done. intros k. split; [|apply Ha].
  intros Hin. pose proof (Hkn k Hin) as (p & -> & Hpin)%list_elem_of_fmap.
  apply active_keys_elem. exists p. split_and!; [done| |done].
  destruct (sp_Active p) eqn:E; [done|]. by destruct (Hgone p Hpin E).
Qed.

Lemma updating_peers s peers :
  updating s → NoDup (map sp_PublicKey peers) →
  (∀ k, k ∈ map sp_PublicKey (ss_peers s) → k ∈ map sp_PublicKey peers) →
  (∀ k, k ∈ active_keys peers → k ∈ map fst (mc_peers (ss_connection s))) →
  updating (ss_set_peers peers s).
Proof. intros [He Hr Hk Hkn Ha Hp Hf] Hn Hsub Hact. split; simpl; auto. Qed.

Abbreviation connection_ok := (conn_inv (U := U) [] (fun _ => false)).

Lemma updating_connection s c :
  updating s → connection_ok c →
  (∀ k, k ∈ map fst (mc_peers c) → k ∈ map sp_PublicKey (ss_peers s)) →
  (∀ k, k ∈ active_keys (ss_peers s) → k ∈ map fst (mc_peers c)) →
  updating (ss_set_engine (en_set_connection c (ss_engine s)) s).
Proof. intros [[? ? ? ? ?] Hr Hk Hkn Ha Hp Hf] Hc Hsub Hact. split; simpl; auto. by split. Qed.

Lemma wp_with_connection {A} (m : eff (MagicConnection U) A) Q (s : session) :
  wp m (fun r c => Q r (ss_set_engine (en_set_connection c (ss_engine s)) s)) (ss_connection s) →
  wp (with_connection m) Q s.
Proof.
  unfold wp, with_connection, with_engine, on_connection, ss_connection. by destruct (m _).
Qed.

(** A known key, or the key of a peer that the session has just got, is registered. *)
Lemma wp_AddPeer_updating key (s : session) :
  updating s → key ∈ map sp_PublicKey (ss_peers s) →
  wp (with_connection (MagicConnection_AddPeer key)) (fun r s' =>
    (∃ b, r = Ok b) ∧ updating s' ∧ ss_peers s' = ss_peers s
    ∧ key ∈ map fst (mc_peers (ss_connection s'))) s.
Proof.
  intros Hs Hkey. apply wp_with_connection.
  pose proof (mkeeps_AddPeer [] (fun _ => false) key (ss_connection s) (eo_connection _ (up_engine s Hs)))
    as [_ [Hc _ _]].
  unfold MagicConnection_AddPeer in *. unfold wp in *. simpl in *. split_and!; [eauto| |done|].
  - apply updating_connection; [done|done|..]; intros k; simpl; rewrite emplace_keys.
    + intros [->|Hk]; [done|]. by apply (up_known s Hs).
    + intros Hk. right. by apply (up_active s Hs).
  - apply emplace_keys. by left.
Qed.

(** [ResetPath] leaves the registered keys as they are. *)
Lemma wp_ResetPath_updating key mode (s : session) :
  updating s →
  wp (with_connection (MagicConnection_ResetPath key mode)) (fun r s' => r = Ok tt ∧ updating s') s.
Proof.
  intros Hs. apply wp_with_connection.
  pose proof (magic_call_keeps [] (fun _ => false) (Call_ResetPath key mode) I
    (ss_connection s) (eo_connection _ (up_engine s Hs))) as [_ [Hc _ _]].
  pose proof (keeps_shape_ResetPath key mode (ss_connection s)) as Hsh. simpl in Hc.
  unfold wp. split; [done|].
  assert (map fst (mc_peers (MagicConnection_ResetPath key mode (ss_connection s)).2)
    = map fst (mc_peers (ss_connection s))) as Hkeys by exact (f_equal snd Hsh).
  apply updating_connection; [done|done|..]; intros k; [intros Hk; apply (up_known s Hs)|].
  - by rewrite Hkeys in Hk.
  - intros Hk. rewrite Hkeys. by apply (up_active s Hs).
Qed.

Lemma alter_keys (f : SessionPeer → SessionPeer) i peers :
  (∀ p, sp_PublicKey (f p) = sp_PublicKey p) →
  map sp_PublicKey (alter f i peers) = map sp_PublicKey peers.
Proof.
  intros Hf. revert i. induction peers as [|p peers IH]; intros [|i]; simpl; [done|done| |].
  - by rewrite Hf.
  - f_equal. apply IH.
Qed.

Lemma active_keys_alter f i peers k :
  (∀ p, sp_PublicKey (f p) = sp_PublicKey p) → k ∈ active_keys (alter f i peers) →
  k ∈ active_keys peers ∨ sp_PublicKey <$> peers !! i = Some k.
Proof.
  rewrite !active_keys_elem. intros Hf (p & [j Hj]%list_elem_of_lookup & Ha & <-).
  destruct (decide (i = j)) as [<-|Hne].
  - rewrite list_lookup_alter_eq in Hj. destruct (peers !! i) as [q|]; simplify_eq/=.
    right. by rewrite Hf.
  - rewrite list_lookup_alter_ne in Hj by done. left. exists p. split; [|done].
    by eapply list_elem_of_lookup_2.
Qed.

Context (Hunhex : unhex_ok unhex).

Lemma TryParse_Ok text prefix : ∃ r, PrefixedKey_TryParse unhex text prefix = Ok r.
Proof. destruct (PrefixedKey_TryParse_total unhex text prefix Hunhex) as (r & ? & _). eauto. Qed.

Lemma wp_the_peer i p Q (s : session) : ss_peers s !! i = Some p → Q (Ok p) s → wp (the_peer i) Q s.
Proof.
  intros Hp HQ. unfold the_peer. wp_auto. unfold rd. rewrite (proj2 (Z.ltb_ge _ _)) by lia.
  by rewrite Nat2Z.id, Hp.
Qed.

(** The first half of [update_session_peer]: the peer is known to the session and registered. *)
Lemma wp_find_or_add config key s :
  updating s →
  wp (match find_index (fun p => bool_decide (sp_PublicKey p = key)) (ss_peers s) with
      | None =>
          emod (fun s => ss_set_peers (ss_peers s ++ [{|
            sp_Config := config; sp_PublicKey := key; sp_DiscoKey := None;
            sp_Endpoints := []; sp_TransmittedBytes := 0; sp_ReceivedBytes := 0;
            sp_Active := true |}]) s) ;;*
          let* _ := with_connection (MagicConnection_AddPeer key) in
          eret (length (ss_peers s))
      | Some i =>
          let* peer := the_peer i in
          (if sp_Active peer then eret tt
           else let* _ := with_connection (MagicConnection_AddPeer key) in eret tt) ;;*
          eret i
      end) (fun r s' => ∃ i p, r = Ok i ∧ updating s' ∧ ss_peers s' !! i = Some p
        ∧ sp_PublicKey p = key ∧ key ∈ map fst (mc_peers (ss_connection s'))) s.
Proof.
  intros Hs. destruct (find_index _ _) as [i|] eqn:Hi.
  - apply find_index_Some in Hi as (p & Hp & Hkey%bool_decide_eq_true_1 & _). subst key.
    assert (sp_PublicKey p ∈ map sp_PublicKey (ss_peers s)) as Hin.
    { apply list_elem_of_fmap_2. by eapply list_elem_of_lookup_2. }
    apply wp_bind, (wp_the_peer i p); [done|]. destruct (sp_Active p) eqn:Ha.
    + wp_auto. exists i, p. split_and!; try done. apply (up_active s Hs), active_keys_elem.
      exists p. split_and!; try done. by eapply list_elem_of_lookup_2.
    + apply wp_bind, wp_bind. eapply wp_mono; [by apply wp_AddPeer_updating|].
      intros r s' ([b ->] & Hs' & Hpeers & Hreg). wp_auto. exists i, p. by rewrite Hpeers.
  - wp_auto. set (new := {| sp_Config := config |}).
    assert (∀ p, p ∈ ss_peers s → sp_PublicKey p ≠ key) as Hnew.
    { intros p [j Hj]%list_elem_of_lookup. pose proof (find_index_None _ _ Hi j p Hj) as Hf.
      by apply bool_decide_eq_false_1 in Hf. }
    assert (∀ k, k ∈ map sp_PublicKey (ss_peers s ++ [new])
      ↔ k ∈ map sp_PublicKey (ss_peers s) ∨ k = key) as Hkeys.
    { intros k. rewrite map_app, elem_of_app. simpl. by rewrite list_elem_of_singleton. }
    apply wp_bind, wp_with_connection.
    pose proof (mkeeps_AddPeer [] (fun _ => false) key (ss_connection s)
      (eo_connection _ (up_engine s Hs))) as [_ [Hc _ _]].
    unfold MagicConnection_AddPeer, wp in *. simpl in *. exists (length (ss_peers s)), new.
    split_and!; [done| |by rewrite lookup_app_r, Nat.sub_diag by done|done|].
    2:{ apply emplace_keys. by left. }
    destruct Hs as [[? ? ? ? ?] Hr Hk Hkn Ha Hp Hf]. split; simpl; try done.
    + rewrite map_app. apply NoDup_app. split_and!; [done| |apply NoDup_singleton].
      intros k (p & -> & Hin)%list_elem_of_fmap. simpl. rewrite list_elem_of_singleton. by apply Hnew.
    + intros k [->|Hk']%emplace_keys; apply Hkeys; [by right|left; by apply Hkn].
    + intros k. rewrite emplace_keys. unfold active_keys. rewrite List.filter_app, map_app, elem_of_app.
      simpl. rewrite list_elem_of_singleton. intros [Hk'|Hk']; [right; by apply Ha|by left].
Qed.

Lemma wp_update_session_peer config s :
  updating s →
  wp (update_session_peer unhex config) (fun r s' => r = Ok tt ∧ updating s') s.
Proof.
  intros Hs. unfold update_session_peer. wp_auto.
  destruct (TryParse_Ok (pc_key config) NodeKeyPrefix) as [[key|] ->]; [|by wp_auto].
  wp_auto. apply wp_bind. eapply wp_mono; [by apply wp_find_or_add|].
  intros r s1 (i & p & -> & Hs1 & Hp & Hkey & Hreg). apply wp_bind, (wp_the_peer i p); [done|].
  cbv zeta. wp_auto. destruct (TryParse_Ok (pc_discoKey config) DiscoKeyPrefix) as [disco ->].
  unfold alter_speer. wp_auto. set (f := sp_set_config _ _ _).
  assert (updating (ss_set_peers (alter f i (ss_peers s1)) s1)) as Hs2.
  { apply updating_peers; [done|..]; rewrite ?(alter_keys f) by done; [apply Hs1|done|].
    intros k [Hk|Hk]%active_keys_alter; [by apply (up_active s1 Hs1)| |done].
    rewrite Hp in Hk. simpl in Hk. by simplify_eq. }
  ifb; [by apply wp_ResetPath_updating|by wp_auto].
Qed.

Lemma wp_update_session_peers configs s :
  updating s →
  wp (update_session_peers unhex configs) (fun r s' => r = Ok tt ∧ updating s') s.
Proof.
  revert s. induction configs as [|config configs IH]; intros s Hs; simpl; [by wp_auto|].
  apply wp_bind. eapply wp_mono; [by apply wp_update_session_peer|]. intros r s1 [-> Hs1]. by apply IH.
Qed.

(** The loop that takes inactive peers out of the connection takes out just those. *)
Lemma wp_RemovePeer_keys key (c : MagicConnection U) :
  connection_ok c →
  wp (MagicConnection_RemovePeer key) (fun r c' => (∃ b, r = Ok b) ∧ connection_ok c'
    ∧ ∀ k, k ∈ map fst (mc_peers c') ↔ k ≠ key ∧ k ∈ map fst (mc_peers c)) c.
Proof.
  intros Hc. pose proof (wp_RemovePeer [] (fun _ => false) key c Hc) as H. unfold wp in *.
  destruct H as (_ & [Hc' _ _] & _). destruct (map_find key (mc_peers c)) as [p|] eqn:Ep.
  - pose proof (wp_UpdateWriteInterest (mc_set_peers (map_erase key (mc_peers c)) c)
      (map_ok_erase key _ (mi_map _ _ _ Hc))) as (Hr & Hp & _).
    destruct (Magic_UpdateWriteInterest _) as [r c1] eqn:E1. simpl in Hr, Hp. subst r.
    assert (MagicConnection_RemovePeer key c = (Ok true, c1)) as Heq.
    { unfold MagicConnection_RemovePeer, MagicConnection_HasPeer, ebind. simpl. rewrite Ep. simpl.
      by rewrite E1. }
    rewrite Heq in *. split_and!; [by eexists|done|]. intros k. simpl. rewrite Hp. apply erase_keys.
  - assert (MagicConnection_RemovePeer key c = (Ok false, c)) as Heq.
    { unfold MagicConnection_RemovePeer, MagicConnection_HasPeer, ebind. simpl. by rewrite Ep. }
    rewrite Heq in *. split_and!; [by eexists|done|]. intros k. split; [|by intros [_ ?]]. intros Hk.
    split; [|done]. intros ->. apply keys_find in Hk as [? Hf]. simpl in Hf. congruence.
Qed.

Lemma wp_remove_inactive peers s :
  updating s → (∀ p, p ∈ peers → p ∈ ss_peers s) →
  wp (remove_inactive peers) (fun r s' => r = Ok tt ∧ updating s' ∧ ss_peers s' = ss_peers s
    ∧ (∀ k, k ∈ map fst (mc_peers (ss_connection s')) → k ∈ map fst (mc_peers (ss_connection s)))
    ∧ ∀ p, p ∈ peers → sp_Active p = false →
        sp_PublicKey p ∉ map fst (mc_peers (ss_connection s'))) s.
Proof.
  revert s. induction peers as [|q peers IH]; intros s Hs Hsub; simpl.
  { wp_auto. split_and!; try done. by intros p ?%elem_of_nil. }
  apply wp_bind. destruct (sp_Active q) eqn:Hq.
  - wp_auto. eapply wp_mono; [apply IH; [done|]|].
    { intros p Hp. apply Hsub. by right. }
    intros r s' (? & ? & ? & ? & Hgone). split_and!; try done.
    intros p [->|Hp]%elem_of_cons; [congruence|]. by apply Hgone.
  - apply wp_bind, wp_with_connection.
    eapply wp_mono; [apply wp_RemovePeer_keys, (eo_connection _ (up_engine s Hs))|].
    intros r c ([b ->] & Hc & Hkeys). wp_auto.
    assert (updating (ss_set_engine (en_set_connection c (ss_engine s)) s)) as Hs1.
    { apply updating_connection; [done|done|..]; intros k.
      - intros [_ Hk]%Hkeys. by apply (up_known s Hs).
      - intros Hk. apply Hkeys. split; [|by apply (up_active s Hs)]. intros ->.
        apply active_keys_elem in Hk as (p & Hp & Ha & Heq).
        assert (p = q) as ->; [|congruence].
        apply list_elem_of_lookup in Hp as [a Hpa].
        assert (q ∈ ss_peers s) as [b' Hqb]%list_elem_of_lookup by (apply Hsub; by left).
        assert (a = b') as ->; [|congruence].
        eapply (NoDup_lookup (map sp_PublicKey (ss_peers s))); [apply Hs|..];
          rewrite list_lookup_fmap; [by rewrite Hpa|rewrite Hqb; simpl; by rewrite Heq]. }
    eapply wp_mono; [apply IH; [exact Hs1|]|].
    { intros p Hp. apply Hsub. by right. }
    intros r s' (? & ? & ? & Hless & Hgone). split_and!; try done.
    + intros k [_ ?]%Hless%Hkeys. done.
    + intros p [->|Hp]%elem_of_cons; [|by apply Hgone]. by intros _ [? _]%Hless%Hkeys.
Qed.

(** A new network map leaves a session in order, unless the router refuses it before anything
    has changed. *)
Lemma wp_UpdatePeers configs exitNode s :
  session_ok s →
  wp (SessionImpl_UpdatePeers unhex configs exitNode) (fun _ s' => session_ok s') s.
Proof.
  intros Hs. unfold SessionImpl_UpdatePeers. wp_auto. apply wp_bind.
  assert (wp (if ss_configured s then with_router (WireGuardRouter_UpdatePeers unhex configs exitNode)
              else eret tt) (fun _ s' => session_ok s') s) as Hrouter.
  { ifb; [|done]. eapply wp_mono; [|intros r s' H; exact (sm_ok none s s' H)].
    by apply (skeeps_router_call _ (Call_UpdatePeers configs exitNode)). }
  eapply wp_mono; [exact Hrouter|]. intros [[]|e|] s1 Hs1; [|done..]. wp_auto. apply wp_bind.
  eapply wp_mono; [by apply wp_update_session_peers, updating_start|]. intros r s2 [-> Hs2]. wp_auto.
  eapply wp_mono; [by apply wp_remove_inactive|]. intros r s3 (_ & Hs3 & Hpeers & _ & Hgone).
  apply updating_end; [done|]. by rewrite Hpeers.
Qed.

(** *** Configuring *)

Context (tunnel : bytes → T) (Htunnel : ∀ key, tun_ok (tunnel key)).

Lemma wp_Initialize identity peers exitNode s :
  session_ok s →
  wp (PeerProtocol_Initialize unhex tunnel identity peers exitNode) (fun r s' =>
    session_ok s' ∧ (r = Ok tt → is_Some (pp_router (ss_protocol s')))) s.
Proof.
  intros Hs. unfold PeerProtocol_Initialize. wp_auto.
  destruct (pp_router (ss_protocol s)) as [router|] eqn:Er.
  - ifb; [wp_auto; done|].
    assert (skeeps none (with_router (WireGuardRouter_UpdatePeers unhex peers exitNode))) as Hm
      by (by apply (skeeps_router_call _ (Call_UpdatePeers peers exitNode))).
    eapply wp_mono; [by apply Hm|]. intros r s' [Hok Hst _]. split; [done|]. intros _.
    unfold static in Hst. injection Hst as _ _ _ _ Hst. apply bool_decide_ext_iff in Hst.
    apply Hst. by rewrite Er.
  - pose proof (rkeeps_UpdatePeers unhex peers exitNode {| wr_Tunnel := tunnel (id_NodePrivateKey identity);
      wr_Peers := []; wr_Routes := []; wr_ExitNode := exitNode |}) as Hnew.
    unfold WireGuardRouter_new. unfold wp in Hnew.
    destruct (WireGuardRouter_UpdatePeers unhex peers exitNode _) as [[[]|e|] router]; wp_auto.
    2,3: split; [done|done].
    simpl in Hnew. split; [|by eexists]. destruct Hs as [He Hr Hk Hg Hp Hf]. split; simpl; try done.
    intros router' [= <-]. apply Hnew. split; simpl; try done; constructor.
Qed.

Lemma wp_Configure options s :
  session_ok s → wp (SessionImpl_Configure unhex tunnel options) (fun _ s' => session_ok s') s.
Proof.
  intros Hs. unfold SessionImpl_Configure. wp_auto. ifb; [by wp_auto|]. apply wp_bind.
  eapply wp_mono; [by apply wp_Initialize|]. intros [[]|e|] s1 [Hs1 Hi]; [|done..]. wp_auto.
  apply wp_UpdatePeers. destruct Hs1 as [He Hr Hk Hg Hp Hf]. split; simpl; try done. intros _. by apply Hi.
Qed.

Lemma wp_Reset now s : session_ok s → wp (SessionImpl_Reset now) (fun _ s' => session_ok s') s.
Proof.
  intros Hs. unfold SessionImpl_Reset. wp_auto. unfold wp, with_engine. simpl.
  pose proof (ekeeps_Reset (ss_engine s) (sk_engine s Hs)) as [_ [He _ _]].
  destruct Hs as [_ Hr Hk Hg Hp Hf]. split; simpl; try done; exact He || constructor.
Qed.

(** *** Sequences of calls *)

Inductive session_call :=
  | Session_SetControl (connection : option K)
  | Session_AddDerp (region : Z) (connection : C)
  | Session_SetAdvertised (endpoint : Endpoint)
  | Session_SetPath (path : option P)
  | Session_Reset (now : Z)
  | Session_UpdatePeers (peers : list PeerConfig) (exitNode : bytes)
  | Session_Configure (options : SessionOptions)
  | Session_SendPacket (now : Z) (plaintext : bytes)
  | Session_SendPacketTo (now : Z) (peer plaintext : bytes)
  | Session_StartPeer (now : Z) (peer : bytes)
  | Session_SendDiscoPing (peer : bytes)
  | Session_PeerStats (now : Z) (peer : bytes)
  | Session_StartDiscovery (now : Z) (server : Endpoint) (timeout : Z)
  | Session_CancelDiscovery
  | Session_Wait (before now events packets size : Z) (deadline : option Z)
  | Session_Wake.

(** The session after a call; one that throws leaves what it changed before. *)
Definition session_step (call : session_call) (s : session) : session :=
  match call with
  | Session_SetControl k => (SessionImpl_SetControlConnection k s).2
  | Session_AddDerp region c => (Session_AddDerpConnection region c s).2
  | Session_SetAdvertised e => (SessionImpl_SetAdvertisedEndpoint e s).2
  | Session_SetPath path => (SessionImpl_SetPacketPath path s).2
  | Session_Reset now => (SessionImpl_Reset now s).2
  | Session_UpdatePeers peers exitNode => (SessionImpl_UpdatePeers unhex peers exitNode s).2
  | Session_Configure options => (SessionImpl_Configure unhex tunnel options s).2
  | Session_SendPacket now plaintext => (SessionImpl_SendPacket ip6addr_aton now plaintext s).2
  | Session_SendPacketTo now peer plaintext => (SessionImpl_SendPacketTo now peer plaintext s).2
  | Session_StartPeer now peer => (SessionImpl_StartPeer now peer s).2
  | Session_SendDiscoPing peer => (SessionImpl_SendDiscoPing peer s).2
  | Session_PeerStats now peer => (SessionImpl_PeerStats now peer s).2
  | Session_StartDiscovery now server timeout =>
      (SessionImpl_StartEndpointDiscovery now server timeout s).2
  | Session_CancelDiscovery => (SessionImpl_CancelEndpointDiscovery s).2
  | Session_Wait before now events packets size deadline =>
      (SessionImpl_Wait before now events packets size deadline s).2
  | Session_Wake => (SessionImpl_Wake s).2
  end.

Definition session_run (calls : list session_call) (s : session) : session :=
  foldl (fun s call => session_step call s) s calls.

Lemma skeeps_ok {A} (m : eff session A) s : skeeps none m → session_ok s → session_ok (m s).2.
Proof. intros Hm Hs. exact (sm_ok _ _ _ (Hm s Hs)). Qed.

Lemma aside_ok s s' :
  session_ok s → ss_engine s' = ss_engine s → ss_protocol s' = ss_protocol s →
  ss_peers s' = ss_peers s → ss_configured s' = ss_configured s → session_ok s'.
Proof. intros Hs ? ? Hp ?. eapply (sm_ok none s), smoved_aside; try done. by rewrite Hp. Qed.

Lemma session_step_ok call s : session_ok s → session_ok (session_step call s).
Proof.
  intros Hs. destruct call; simpl; try (by apply (aside_ok s)).
  - apply skeeps_ok; [|done]. unfold SessionImpl_SetControlConnection. session_auto.
  - unfold Session_AddDerpConnection. destruct (SessionImpl_AddDerpConnection region connection _).
    by apply (aside_ok s).
  - by apply wp_Reset.
  - by apply wp_UpdatePeers.
  - by apply wp_Configure.
  - apply skeeps_ok; [by apply (skeeps_if_configured _ _ (Router.Call_Send now plaintext))|done].
  - apply skeeps_ok; [by apply (skeeps_if_configured _ _ (Call_SendTo now peer plaintext))|done].
  - apply skeeps_ok; [by apply (skeeps_if_configured _ _ (Call_Start now peer))|done].
  - apply skeeps_ok; [apply skeeps_SendDiscoPing|done].
  - apply skeeps_ok; [apply skeeps_PeerStats|done].
  - apply skeeps_ok; [|done]. unfold SessionImpl_StartEndpointDiscovery. session_auto.
  - exact (sm_ok _ _ _ (wp_Wait before now events packets size deadline s Hs)).
  - apply (skeeps_ok (with_engine EngineImpl_Wake) s); [|done].
    eapply skeeps_engine; [by apply ekeeps_on_loop|apply keeps_eshape_loop].
Qed.

Lemma session_run_ok calls s : session_ok s → session_ok (session_run calls s).
Proof.
  revert s. induction calls as [|call calls IH]; intros s Hs; simpl; [done|].
  by apply IH, session_step_ok.
Qed.

Definition PeerProtocol_none : PeerProtocol T :=
  {| pp_identity := PeerIdentity_none; pp_router := None; pp_disco := None |}.

Lemma session_new_ok (engine : EngineImpl L U D) random now :
  engine_ok engine → mc_peers (en_connection engine) = [] →
  session_ok (SessionImpl_new engine PeerProtocol_none random now).
Proof.
  intros He Hp. split; simpl; try done.
  - constructor.
  - intros k. unfold ss_connection. simpl. by rewrite Hp.
Qed.

(** C15: the parts of a session agree, over any sequence of calls and whatever throws in them:
    no two of its peers have the same key; the connection knows exactly the active ones; what is
    configured has a router and discovery keys, the router in order; and an endpoint counts as
    verified only for an active peer. *)
Theorem SessionImpl_reachable_ok calls (engine : EngineImpl L U D) random now :
  engine_ok engine → mc_peers (en_connection engine) = [] →
  let s := session_run calls (SessionImpl_new engine PeerProtocol_none random now) in
  NoDup (map sp_PublicKey (ss_peers s))
  ∧ (∀ k, k ∈ map fst (mc_peers (ss_connection s)) ↔ ∃ p, knows s k p)
  ∧ (ss_configured s = true → is_Some (pp_disco (ss_protocol s))
     ∧ ∃ router, pp_router (ss_protocol s) = Some router ∧ router_ok router)
  ∧ (∀ k e, verified (ss_connection s) k e → ∃ p, knows s k p).
Proof.
  intros He Hp s. assert (session_ok s) as Hs by (by apply session_run_ok, session_new_ok).
  assert (∀ k, k ∈ map fst (mc_peers (ss_connection s)) ↔ ∃ p, knows s k p) as Hreg.
  { intros k. rewrite (sk_registered s Hs k). apply active_keys_elem. }
  split_and!; [apply Hs|done| |].
  - intros Hc. destruct (sk_configured s Hs Hc) as [router Hr].
    split; [apply Hs; by eexists|]. exists router. split; [done|by apply (sk_router s Hs)].
  - intros k e (p & Hf%map_find_elem & _). apply Hreg. by apply (list_elem_of_fmap_2 fst) in Hf.
Qed.

(** C14: an endpoint becomes verified only by a proof that came from it: after a wait, whatever
    the socket, the relays and the control connection delivered, an endpoint is verified for a
    peer only if it was before, or a datagram of this wait has it as its source and is, for the
    session as it was when it came to that datagram, a ping or pong sealed with the discovery key
    of that active peer or a packet that the router accepted from it. *)
Theorem SessionImpl_Wait_verifies calls (engine : EngineImpl L U D) random start
    before now events packets size deadline k e :
  engine_ok engine → mc_peers (en_connection engine) = [] →
  let s := session_run calls (SessionImpl_new engine PeerProtocol_none random start) in
  let s' := (SessionImpl_Wait before now events packets size deadline s).2 in
  verified (ss_connection s') k e →
  verified (ss_connection s) k e
  ∨ ∃ d sd, comes_to before now events packets size deadline s d sd
      ∧ e = ud_Source d ∧ vouches now sd d k.
Proof.
  intros He Hp s s' Hv. assert (session_ok s) as Hs by (by apply session_run_ok, session_new_ok).
  exact (sm_verified _ _ _ (wp_Wait before now events packets size deadline s Hs) k e Hv).
Qed.

End invariant.

(** ** Where a data packet goes *)

Section sending.
  Context {L U D T C K P R : Type}.
  Context `{!EventSource L} `{!UdpSocket U} `{!Device D} `{!TunnelOps T} `{!DerpOps C}
    `{!ControlOps K} `{!PacketPath P} `{!RandomBytes R} {sodium : SodiumBox}.

Abbreviation session := (SessionImpl L U D T C K P R).

(** The relay connection of the peer's region, or the first, has taken the payload; the others are
    as they were.  A session without relays loses it. *)
Definition relayed (s : session) (p : SessionPeer) (payload : bytes) (priority : Priority)
    (s' : session) : Prop :=
  match SessionImpl_FindDerp (pc_derpRegion (sp_Config p)) s with
  | None => ss_derps s = [] ∧ ss_derps s' = []
  | Some j => ∃ d c, ss_derps s !! j = Some d
      ∧ derp_Send (sp_PublicKey p) payload priority (ds_Connection d) = (Ok tt, c)
      ∧ ss_derps s' = <[j := {| ds_Region := ds_Region d; ds_Connection := c |}]> (ss_derps s)
  end.

Lemma FindDerp_None region (s : session) : SessionImpl_FindDerp region s = None → ss_derps s = [].
Proof. unfold SessionImpl_FindDerp. destruct (find_index _ _); [done|]. by case_bool_decide. Qed.

Lemma SendRelay_relayed i p payload priority (s s' : session) :
  ss_peers s !! i = Some p → SessionImpl_SendRelay i payload priority s = (Ok tt, s') →
  relayed s p payload priority s' ∧ ss_engine s' = ss_engine s ∧ ss_peers s' = ss_peers s.
Proof.
  intros Hp. unfold SessionImpl_SendRelay, the_peer, relayed, ebind. simpl. unfold rd.
  rewrite (proj2 (Z.ltb_ge _ _)) by lia. rewrite Nat2Z.id, Hp.
  destruct (SessionImpl_FindDerp _ s) as [j|] eqn:Ej.
  - unfold with_derp. destruct (ss_derps s !! j) as [d|]; [|done].
    destruct (derp_Send _ _ _ _) as [r c] eqn:Ec. intros [= -> <-]. split; [|done]. by exists d, c.
  - intros [= <-]. by apply FindDerp_None in Ej.
Qed.

Lemma HasDirectPath_reset key mode (c : MagicConnection U) :
  MagicConnection_HasDirectPath key (MagicConnection_ResetPath key mode c).2 = false.
Proof.
  unfold MagicConnection_HasDirectPath, MagicConnection_ResetPath, alter_path, alter_peer. simpl.
  rewrite map_find_alter, bool_decide_true by done. by destruct (map_find key (mc_peers c)).
Qed.

Lemma alter_as_insert {A} (f : A → A) (l : list A) (i : nat) x : l !! i = Some x → alter f i l = <[i := f x]> l.
Proof.
  revert i. induction l as [|y l IH]; intros [|i]; simpl; try done.
  - by intros [= ->].
  - intros Hx. f_equal. by apply IH.
Qed.

(** A data packet leaves by exactly one way.  The session counts its bytes for the peer; if
    the connection has a direct path and takes the packet, no relay sees it.  Otherwise the peer
    has no direct path afterwards, and the packet goes, with its priority, to the relay connection
    of the peer's region (the first one if there is none) and to no other. *)
Theorem SessionImpl_SendTransport_one_way now i payload expectResponse priority
    (s s' : session) p :
  ss_peers s !! i = Some p →
  SessionImpl_SendTransport now i payload expectResponse priority s = (Ok tt, s') →
  let key := sp_PublicKey p in
  ss_peers s' = <[i := sp_add_bytes (zlen payload) 0 p]> (ss_peers s)
  ∧ (MagicConnection_HasDirectPath key (ss_connection s) = true
     ∧ (∃ sent, MagicConnection_Send now key payload expectResponse (ss_connection s)
                = (Ok sent, ss_connection s')
        ∧ (sent = Direct_Sent ∨ sent = Direct_Queued))
     ∧ ss_derps s' = ss_derps s
     ∨ MagicConnection_HasDirectPath key (ss_connection s') = false
       ∧ relayed s p payload priority s').
Proof.
  intros Hp Hrun key. set (p1 := sp_add_bytes (zlen payload) 0 p).
  set (s1 := ss_set_peers (<[i := p1]> (ss_peers s)) s).
  assert (∀ s2 s3, ss_derps s2 = ss_derps s → ss_peers s2 = ss_peers s1 →
    SessionImpl_SendRelay i payload priority s2 = (Ok tt, s3) →
    relayed s p payload priority s3 ∧ ss_engine s3 = ss_engine s2 ∧ ss_peers s3 = ss_peers s1) as Hrelay.
  { intros s2 s3 Hd Hpeers H. apply (SendRelay_relayed i p1) in H as (H1 & H2 & H3).
    - split_and!; [|done|congruence]. revert H1. unfold relayed, SessionImpl_FindDerp. by rewrite Hd.
    - rewrite Hpeers. apply list_lookup_insert_eq. by eapply lookup_lt_Some. }
  revert Hrun. unfold SessionImpl_SendTransport, alter_speer. unfold ebind at 1. simpl.
  rewrite (alter_as_insert _ _ _ _ Hp). fold p1 s1.
  unfold ebind at 1, the_peer, rd. simpl. rewrite (proj2 (Z.ltb_ge _ _)) by lia.
  rewrite Nat2Z.id, list_lookup_insert_eq by (by eapply lookup_lt_Some).
  unfold ebind at 1. simpl. change (ss_connection s1) with (ss_connection s). fold key.
  destruct (MagicConnection_HasDirectPath key (ss_connection s)) eqn:Hpath.
  2:{ intros (Hr & He & Hpeers)%Hrelay; [|done..]. split; [done|]. right. unfold ss_connection.
      rewrite He. done. }
  unfold ebind at 1, with_connection, with_engine, on_connection. simpl.
  destruct (MagicConnection_Send now key payload expectResponse _) as [[sent|e|] c] eqn:Es; simpl;
    [|done..].
  destruct sent.
  - intros [= <-]. split; [done|]. left. split_and!; [done| |done]. exists Direct_Sent. auto.
  - intros [= <-]. split; [done|]. left. split_and!; [done| |done]. exists Direct_Queued. auto.
  - intros (Hr & He & Hpeers)%Hrelay; [|done..]. split; [done|]. right. split; [|done].
    unfold ss_connection. rewrite He. apply HasDirectPath_reset.
  - intros (Hr & He & Hpeers)%Hrelay; [|done..]. split; [done|]. right. split; [|done].
    unfold ss_connection. rewrite He. apply HasDirectPath_reset.
Qed.

End sending.

(** ** A concrete session *)

#[local] Existing Instance demo_wireguard.
#[local] Existing Instance demo_wireguard_laws.

(** A relay connection that records what it is given. *)
#[export] Instance demo_DerpOps : DerpOps (list (bytes * bytes * Priority)) := {|
  derp_Send key payload priority c := (Ok tt, c ++ [(key, payload, priority)]);
  derp_ProcessEvent _ c := (Ok {| er_Handled := false; er_Status := EventStatus_Ready;
                              er_Packets := [] |}, c);
  derp_Maintain c := (Ok tt, c) |}.

#[export] Instance demo_ControlOps : ControlOps unit := {|
  control_ProcessEvent _ c := (Ok (false, []), c);
  control_Maintain c := (Ok [], c) |}.

#[export] Instance demo_PacketPath : PacketPath unit := {| path_Send _ c := (Ok tt, c) |}.

(** A socket with datagrams to receive. *)
Record inbox_socket := { ib_in : list UdpDatagram; ib_sent : list (Endpoint * bytes); ib_interest : bool }.

#[export] Instance inbox_UdpSocket : UdpSocket inbox_socket := {|
  us_TrySendTo d b u := (Ok Io_Complete, {| ib_in := ib_in u; ib_sent := ib_sent u ++ [(d, b)];
                                            ib_interest := ib_interest u |});
  us_TryReceive _ u :=
    match ib_in u with
    | [] => (Ok {| ur_Result := Io_WouldBlock;
                   ur_Datagram := {| ud_Source := demo_magic_endpoint 0; ud_Payload := [] |} |}, u)
    | d :: rest => (Ok {| ur_Result := Io_Complete; ur_Datagram := d |},
                    {| ib_in := rest; ib_sent := ib_sent u; ib_interest := ib_interest u |})
    end;
  us_LocalEndpoint _ := Ok (demo_magic_endpoint 0);
  us_SetWriteInterest b u := (Ok tt, {| ib_in := ib_in u; ib_sent := ib_sent u; ib_interest := b |});
  us_sent := ib_sent;
  us_writeInterest := ib_interest |}.

#[export] Instance inbox_UdpSocketLaws : UdpSocketLaws inbox_socket.
Proof.
  split; try done. intros n u. unfold wp. simpl. by destruct (ib_in u).
Qed.

Definition demo_private : bytes := replicate 32 1.

(** The tunnel of a private key, as yet without peers. *)
Definition demo_tunnel (key : bytes) : WireGuardTunnel (nat → wireguard_peer) := {|
  wt_PrivateKey := key; wt_Devices := [Tunnel.demo_device (demo_wg_peer true 11 22 [1] [4])];
  wt_Peers := [] |}.

(** A ping of the peer from a place that the session has not seen. *)
Definition demo_ping_packet : bytes :=
  match Disco_BuildPing (Disco_new demo_private demo_private) (demo_public [9]) (replicate 12 3) 5%nat with
  | (Ok packet, _) => packet
  | _ => []
  end.

Definition demo_session_engine : EngineImpl demo_source inbox_socket Engine.demo_device :=
  EngineImpl_new
    {| lp_posted := [];
       lp_source := {| sc_script := [{| wt_Status := Wait_Events;
                                        wt_Events := [demo_event 5 Readiness_Readable] |}];
                       sc_delivered := [] |} |}
    (mc_set_socket (Some {| ib_in := [{| ud_Source := demo_magic_endpoint 6;
                                         ud_Payload := demo_ping_packet |}];
                            ib_sent := []; ib_interest := false |}) 5 MagicConnection_new)
    {| dd_written := []; dd_interest := false; dd_room := 1 |}.

Definition demo_session_calls : list (session_call (C := list (bytes * bytes * Priority)) (K := unit)
    (P := unit)) :=
  [Session_AddDerp 1 [];
   Session_Configure {|
     so_NodePrivateKey := [8]; so_NodePublicKey := demo_public [8]; so_DiscoPrivateKey := [9];
     so_AdvertisedEndpoint := demo_magic_endpoint 0; so_HomeDerpRegion := 1;
     so_Peers := nm_peers demo_ping_network; so_ExitNode := [] |}].

Definition demo_session_start
    : SessionImpl demo_source inbox_socket Engine.demo_device
        (WireGuardTunnel (nat → wireguard_peer)) (list (bytes * bytes * Priority)) unit unit nat :=
  SessionImpl_new demo_session_engine PeerProtocol_none 0%nat 0.

Definition demo_session :=
  session_run demo_unhex (fun _ => None) demo_tunnel demo_session_calls demo_session_start.

Example demo_session_configured :
  ss_configured demo_session = true ∧ map sp_Active (ss_peers demo_session) = [true]
  ∧ map fst (mc_peers (ss_connection demo_session)) = [replicate 32 1].
Proof. by vm_compute. Qed.

Lemma demo_session_engine_ok : engine_ok demo_session_engine.
Proof. split; simpl; try done. split; simpl; try done. constructor. Qed.

Lemma demo_tunnel_ok key : tun_ok (demo_tunnel key).
Proof. constructor. Qed.

Lemma SessionImpl_reachable_ok_witness :
  engine_ok demo_session_engine ∧ ss_configured demo_session = true
  ∧ ∃ p, knows demo_session (replicate 32 1) p.
Proof.
  split_and!; [exact demo_session_engine_ok|by vm_compute|].
  apply (SessionImpl_reachable_ok demo_unhex (fun _ => None) demo_unhex_ok demo_tunnel demo_tunnel_ok
    demo_session_calls demo_session_engine 0%nat 0 demo_session_engine_ok eq_refl).
  vm_compute. left.
Defined.

(** The ping makes its source verified, and it is the datagram the theorem finds. *)
Lemma SessionImpl_Wait_verifies_witness :
  let e := demo_magic_endpoint 6 in
  let k := replicate 32 1 in
  ¬ verified (ss_connection demo_session) k e
  ∧ ∃ d sd, comes_to 10 20 8 8 2048 None demo_session d sd ∧ e = ud_Source d ∧ vouches 20 sd d k.
Proof.
  intros e k.
  assert (¬ verified (ss_connection demo_session) k e) as Hno.
  { intros (p & Hp & He). vm_compute in Hp. injection Hp as <-. vm_compute in He. by apply elem_of_nil in He. }
  split; [exact Hno|].
  destruct (SessionImpl_Wait_verifies demo_unhex (fun _ => None) demo_unhex_ok demo_tunnel demo_tunnel_ok
    demo_session_calls demo_session_engine 0%nat 0 10 20 8 8 2048 None k e demo_session_engine_ok eq_refl)
    as [Hv|Hv]; [|destruct (Hno Hv)|exact Hv].
  eexists. split; [vm_compute; reflexivity|]. vm_compute. left.
Defined.

(** Without a direct path the packet goes to the one relay. *)
Lemma SessionImpl_SendTransport_one_way_witness :
  ∃ p s', ss_peers demo_session !! 0%nat = Some p
  ∧ SessionImpl_SendTransport 30 0 [4; 2] true Priority_Data demo_session = (Ok tt, s')
  ∧ relayed demo_session p [4; 2] Priority_Data s'
  ∧ map ds_Connection (ss_derps s') = [[(replicate 32 1, [4; 2], Priority_Data)]].
Proof.
  destruct (ss_peers demo_session !! 0%nat) as [p|] eqn:Hp; [|by vm_compute in Hp].
  destruct (SessionImpl_SendTransport 30 0 [4; 2] true Priority_Data demo_session) as [r s'] eqn:Hs.
  assert (r = Ok tt) as -> by (vm_compute in Hs; congruence).
  exists p, s'. split_and!; [done|done| |].
  - destruct (SessionImpl_SendTransport_one_way 30 0 [4; 2] true Priority_Data demo_session s' p Hp Hs)
      as [_ [[Hpath _]|[_ Hr]]]; [|exact Hr].
    assert (sp_PublicKey p = replicate 32 1) as Hk by (vm_compute in Hp; by injection Hp as <-).
    rewrite Hk in Hpath. by vm_compute in Hpath.
  - vm_compute in Hs. by injection Hs as <-.
Defined.
