(* ===== verification/H2.v ===== *)
(** * HTTP/2 for the control connection (control/base/H2.cpp)

    The frames of HTTP/2 and the header compression HPACK, as far as the control client uses
    them: the requests it builds, the splitting of what it receives into frames, and the decoder
    of header blocks with its dynamic table and its Huffman code, which reads what a server sent.

    [H2Headers] is an [unordered_multimap]; it is modelled by the list of its entries in the order
    in which they were put in.  In what order [equal_range] gives entries of one name is not
    specified: [Status] has that order as a parameter. *)

From S2P Require Import Prelude Text NetMap.

Definition H2FlagEndStream : Z := 0x01.
Definition H2FlagEndHeaders : Z := 0x04.
Definition H2FlagAck : Z := 0x01.
Definition H2SettingsInitialWindowSize : Z := 0x04.
Definition HpackIndexedMask : Z := 0x80.
Definition HpackIndexedPrefixMask : Z := 0x7f.
Definition HpackLiteralIncrementalMask : Z := 0x40.
Definition HpackLiteralIncrementalPrefixMask : Z := 0x3f.
Definition HpackDynamicTableSizeUpdateMask : Z := 0x20.
Definition HpackDynamicTableSizeUpdatePrefixMask : Z := 0x1f.
Definition HpackLiteralPrefixMask : Z := 0x0f.
Definition HpackHuffmanMask : Z := 0x80.
Definition HpackStringLengthPrefixMask : Z := 0x7f.
Definition MaximumHpackPaddingBits : Z := 7.
Definition HpackEntryOverhead : Z := 32.
Definition MinimumHttpStatus : Z := 100.
Definition MaximumHttpStatus : Z := 599.

Definition HpackStaticHeaders : list (bytes * bytes) :=
  [([], []); (lit ":authority", []); (lit ":method", lit "GET"); (lit ":method", lit "POST");
   (lit ":path", lit "/"); (lit ":path", lit "/index.html"); (lit ":scheme", lit "http");
   (lit ":scheme", lit "https"); (lit ":status", lit "200"); (lit ":status", lit "204");
   (lit ":status", lit "206"); (lit ":status", lit "304"); (lit ":status", lit "400");
   (lit ":status", lit "404"); (lit ":status", lit "500"); (lit "accept-charset", []);
   (lit "accept-encoding", lit "gzip, deflate"); (lit "accept-language", []);
   (lit "accept-ranges", []); (lit "accept", []); (lit "access-control-allow-origin", []);
   (lit "age", []); (lit "allow", []); (lit "authorization", []); (lit "cache-control", []);
   (lit "content-disposition", []); (lit "content-encoding", []); (lit "content-language", []);
   (lit "content-length", []); (lit "content-location", []); (lit "content-range", []);
   (lit "content-type", []); (lit "cookie", []); (lit "date", []); (lit "etag", []);
   (lit "expect", []); (lit "expires", []); (lit "from", []); (lit "host", []);
   (lit "if-match", []); (lit "if-modified-since", []); (lit "if-none-match", []);
   (lit "if-range", []); (lit "if-unmodified-since", []); (lit "last-modified", []);
   (lit "link", []); (lit "location", []); (lit "max-forwards", []);
   (lit "proxy-authenticate", []); (lit "proxy-authorization", []); (lit "range", []);
   (lit "referer", []); (lit "refresh", []); (lit "retry-after", []); (lit "server", []);
   (lit "set-cookie", []); (lit "strict-transport-security", []); (lit "transfer-encoding", []);
   (lit "user-agent", []); (lit "vary", []); (lit "via", []); (lit "www-authenticate", [])].

(** The code of each byte: its bits and their number. *)
Definition HpackHuffmanCodes : list (Z * Z) :=
  [(0x1ff8, 13); (0x7fffd8, 23); (0xfffffe2, 28); (0xfffffe3, 28); (0xfffffe4, 28);
   (0xfffffe5, 28); (0xfffffe6, 28); (0xfffffe7, 28); (0xfffffe8, 28); (0xffffea, 24);
   (0x3ffffffc, 30); (0xfffffe9, 28); (0xfffffea, 28); (0x3ffffffd, 30); (0xfffffeb, 28);
   (0xfffffec, 28); (0xfffffed, 28); (0xfffffee, 28); (0xfffffef, 28); (0xffffff0, 28);
   (0xffffff1, 28); (0xffffff2, 28); (0x3ffffffe, 30); (0xffffff3, 28); (0xffffff4, 28);
   (0xffffff5, 28); (0xffffff6, 28); (0xffffff7, 28); (0xffffff8, 28); (0xffffff9, 28);
   (0xffffffa, 28); (0xffffffb, 28); (0x14, 6); (0x3f8, 10); (0x3f9, 10); (0xffa, 12);
   (0x1ff9, 13); (0x15, 6); (0xf8, 8); (0x7fa, 11); (0x3fa, 10); (0x3fb, 10); (0xf9, 8);
   (0x7fb, 11); (0xfa, 8); (0x16, 6); (0x17, 6); (0x18, 6); (0x0, 5); (0x1, 5); (0x2, 5);
   (0x19, 6); (0x1a, 6); (0x1b, 6); (0x1c, 6); (0x1d, 6); (0x1e, 6); (0x1f, 6); (0x5c, 7);
   (0xfb, 8); (0x7ffc, 15); (0x20, 6); (0xffb, 12); (0x3fc, 10); (0x1ffa, 13); (0x21, 6);
   (0x5d, 7); (0x5e, 7); (0x5f, 7); (0x60, 7); (0x61, 7); (0x62, 7); (0x63, 7); (0x64, 7);
   (0x65, 7); (0x66, 7); (0x67, 7); (0x68, 7); (0x69, 7); (0x6a, 7); (0x6b, 7); (0x6c, 7);
   (0x6d, 7); (0x6e, 7); (0x6f, 7); (0x70, 7); (0x71, 7); (0x72, 7); (0xfc, 8); (0x73, 7);
   (0xfd, 8); (0x1ffb, 13); (0x7fff0, 19); (0x1ffc, 13); (0x3ffc, 14); (0x22, 6); (0x7ffd, 15);
   (0x3, 5); (0x23, 6); (0x4, 5); (0x24, 6); (0x5, 5); (0x25, 6); (0x26, 6); (0x27, 6); (0x6, 5);
   (0x74, 7); (0x75, 7); (0x28, 6); (0x29, 6); (0x2a, 6); (0x7, 5); (0x2b, 6); (0x76, 7);
   (0x2c, 6); (0x8, 5); (0x9, 5); (0x2d, 6); (0x77, 7); (0x78, 7); (0x79, 7); (0x7a, 7);
   (0x7b, 7); (0x7ffe, 15); (0x7fc, 11); (0x3ffd, 14); (0x1ffd, 13); (0xffffffc, 28);
   (0xfffe6, 20); (0x3fffd2, 22); (0xfffe7, 20); (0xfffe8, 20); (0x3fffd3, 22); (0x3fffd4, 22);
   (0x3fffd5, 22); (0x7fffd9, 23); (0x3fffd6, 22); (0x7fffda, 23); (0x7fffdb, 23); (0x7fffdc, 23);
   (0x7fffdd, 23); (0x7fffde, 23); (0xffffeb, 24); (0x7fffdf, 23); (0xffffec, 24); (0xffffed, 24);
   (0x3fffd7, 22); (0x7fffe0, 23); (0xffffee, 24); (0x7fffe1, 23); (0x7fffe2, 23); (0x7fffe3, 23);
   (0x7fffe4, 23); (0x1fffdc, 21); (0x3fffd8, 22); (0x7fffe5, 23); (0x3fffd9, 22); (0x7fffe6, 23);
   (0x7fffe7, 23); (0xffffef, 24); (0x3fffda, 22); (0x1fffdd, 21); (0xfffe9, 20); (0x3fffdb, 22);
   (0x3fffdc, 22); (0x7fffe8, 23); (0x7fffe9, 23); (0x1fffde, 21); (0x7fffea, 23); (0x3fffdd, 22);
   (0x3fffde, 22); (0xfffff0, 24); (0x1fffdf, 21); (0x3fffdf, 22); (0x7fffeb, 23); (0x7fffec, 23);
   (0x1fffe0, 21); (0x1fffe1, 21); (0x3fffe0, 22); (0x1fffe2, 21); (0x7fffed, 23); (0x3fffe1, 22);
   (0x7fffee, 23); (0x7fffef, 23); (0xfffea, 20); (0x3fffe2, 22); (0x3fffe3, 22); (0x3fffe4, 22);
   (0x7ffff0, 23); (0x3fffe5, 22); (0x3fffe6, 22); (0x7ffff1, 23); (0x3ffffe0, 26);
   (0x3ffffe1, 26); (0xfffeb, 20); (0x7fff1, 19); (0x3fffe7, 22); (0x7ffff2, 23); (0x3fffe8, 22);
   (0x1ffffec, 25); (0x3ffffe2, 26); (0x3ffffe3, 26); (0x3ffffe4, 26); (0x7ffffde, 27);
   (0x7ffffdf, 27); (0x3ffffe5, 26); (0xfffff1, 24); (0x1ffffed, 25); (0x7fff2, 19);
   (0x1fffe3, 21); (0x3ffffe6, 26); (0x7ffffe0, 27); (0x7ffffe1, 27); (0x3ffffe7, 26);
   (0x7ffffe2, 27); (0xfffff2, 24); (0x1fffe4, 21); (0x1fffe5, 21); (0x3ffffe8, 26);
   (0x3ffffe9, 26); (0xffffffd, 28); (0x7ffffe3, 27); (0x7ffffe4, 27); (0x7ffffe5, 27);
   (0xfffec, 20); (0xfffff3, 24); (0xfffed, 20); (0x1fffe6, 21); (0x3fffe9, 22); (0x1fffe7, 21);
   (0x1fffe8, 21); (0x7ffff3, 23); (0x3fffea, 22); (0x3fffeb, 22); (0x1ffffee, 25);
   (0x1ffffef, 25); (0xfffff4, 24); (0xfffff5, 24); (0x3ffffea, 26); (0x7ffff4, 23);
   (0x3ffffeb, 26); (0x7ffffe6, 27); (0x3ffffec, 26); (0x3ffffed, 26); (0x7ffffe7, 27);
   (0x7ffffe8, 27); (0x7ffffe9, 27); (0x7ffffea, 27); (0x7ffffeb, 27); (0xffffffe, 28);
   (0x7ffffec, 27); (0x7ffffed, 27); (0x7ffffee, 27); (0x7ffffef, 27); (0x7fffff0, 27);
   (0x3ffffee, 26)].

Record HpackStringField := { hs_Huffman : bool; hs_Offset : Z; hs_Length : Z }.

(** ** Reading a header block *)

(** The loop of [ReadHpackInteger]; the result comes with the offset it leaves. *)
Fixpoint hpack_integer_loop (todo : nat) (data : bytes) (offset value shift : Z)
    : outcome (option Z * Z) :=
  if negb (offset <? zlen data) then Ok (None, offset) else
  match todo with
  | O => UB
  | S todo' =>
      let! byte := rd data offset in
      let offset := offset + 1 in
      let remainder := Z.land byte 0x7f in
      if (32 <=? shift) || (Z.shiftr (2 ^ 32 - 1 - value) shift <? remainder)
      then Ok (None, offset) else
      let value := u32 (value + u32 (Z.shiftl remainder shift)) in
      if Z.land byte 0x80 =? 0 then Ok (Some value, offset)
      else hpack_integer_loop todo' data offset value (shift + 7)
  end.

Definition ReadHpackInteger (data : bytes) (offset prefixMask : Z) : outcome (option Z * Z) :=
  if zlen data <=? offset then Ok (None, offset) else
  let! byte := rd data offset in
  let value := Z.land byte prefixMask in
  let offset := offset + 1 in
  if value <? prefixMask then Ok (Some value, offset)
  else hpack_integer_loop (length data) data offset value 0.

Definition ReadHpackStringField (data : bytes) (offset : Z)
    : outcome (option HpackStringField * Z) :=
  if zlen data <=? offset then Ok (None, offset) else
  let! byte := rd data offset in
  let huffman := negb (Z.land byte HpackHuffmanMask =? 0) in
  let! (len, offset) := ReadHpackInteger data offset HpackStringLengthPrefixMask in
  match len with
  | None => Ok (None, offset)
  | Some n =>
      if zlen data - offset <? n then Ok (None, offset) else
      Ok (Some {| hs_Huffman := huffman; hs_Offset := offset; hs_Length := n |}, offset + n)
  end.

(** The search for a symbol with a given code. *)
Definition find_symbol (code codeLength : Z) : option nat :=
  find_index (fun e => (e.2 =? codeLength) && (e.1 =? code)) HpackHuffmanCodes.

(** The loop of [DecodeHpackString] over the bits from [bitOffset] on, of which [todo] are left. *)
Fixpoint huffman_loop (todo : nat) (data : bytes) (bitOffset : Z) (result : bytes)
    (code codeLength : Z) : outcome (option bytes) :=
  match todo with
  | O =>
      if MaximumHpackPaddingBits <? codeLength then Ok None else
      let expectedPadding := if codeLength =? 0 then 0 else Z.shiftl 1 codeLength - 1 in
      if negb (code =? expectedPadding) then Ok None else Ok (Some result)
  | S todo' =>
      let! byte := rd data (bitOffset / 8) in
      let code := Z.lor (u32 (Z.shiftl code 1)) (Z.land (Z.shiftr byte (7 - bitOffset mod 8)) 0x01) in
      let codeLength := codeLength + 1 in
      match find_symbol code codeLength with
      | Some symbol => huffman_loop todo' data (bitOffset + 1) (result ++ [Z.of_nat symbol]) 0 0
      | None =>
          if codeLength =? 30 then Ok None
          else huffman_loop todo' data (bitOffset + 1) result code codeLength
      end
  end.

Definition DecodeHpackString (data : bytes) (field : HpackStringField) : outcome (option bytes) :=
  if negb (hs_Huffman field) then
    let! text := slice data (hs_Offset field) (hs_Offset field + hs_Length field) in
    Ok (Some text)
  else huffman_loop (Z.to_nat (hs_Length field * 8)) data (hs_Offset field * 8) [] 0 0.

(** ** The decoder *)

Definition DefaultDynamicTableSize : Z := 4096.

Record H2HeaderDecoder := {
  hd_dynamicTable : list (bytes * bytes);
  hd_dynamicTableSize : Z;
  hd_maximumDynamicTableSize : Z
}.

Definition H2HeaderDecoder_new : H2HeaderDecoder := {|
  hd_dynamicTable := []; hd_dynamicTableSize := 0;
  hd_maximumDynamicTableSize := DefaultDynamicTableSize |}.

Definition entry_size (e : bytes * bytes) : Z := zlen e.1 + zlen e.2 + HpackEntryOverhead.

Definition headerAt (index : Z) (s : H2HeaderDecoder) : option (bytes * bytes) :=
  if index =? 0 then None else
  if index <? zlen HpackStaticHeaders then HpackStaticHeaders !! Z.to_nat index else
  hd_dynamicTable s !! Z.to_nat (index - zlen HpackStaticHeaders).

(** The loop that drops the oldest entries; a [deque] with the newest entry first. *)
Fixpoint evict (todo : nat) (s : H2HeaderDecoder) : H2HeaderDecoder :=
  if negb (hd_maximumDynamicTableSize s <? hd_dynamicTableSize s) then s else
  match todo, last (hd_dynamicTable s) with
  | S todo', Some evicted => evict todo' {|
      hd_dynamicTable := take (length (hd_dynamicTable s) - 1) (hd_dynamicTable s);
      hd_dynamicTableSize := u64 (hd_dynamicTableSize s - entry_size evicted);
      hd_maximumDynamicTableSize := hd_maximumDynamicTableSize s |}
  | _, _ => s
  end.

Definition evictDynamicEntries (s : H2HeaderDecoder) : H2HeaderDecoder :=
  evict (length (hd_dynamicTable s)) s.

Definition addDynamicEntry (name value : bytes) (s : H2HeaderDecoder) : H2HeaderDecoder :=
  let entrySize := entry_size (name, value) in
  if hd_maximumDynamicTableSize s <? entrySize then {|
    hd_dynamicTable := []; hd_dynamicTableSize := 0;
    hd_maximumDynamicTableSize := hd_maximumDynamicTableSize s |}
  else evictDynamicEntries {|
    hd_dynamicTable := (name, value) :: hd_dynamicTable s;
    hd_dynamicTableSize := u64 (hd_dynamicTableSize s + entrySize);
    hd_maximumDynamicTableSize := hd_maximumDynamicTableSize s |}.

Definition hd_set_maximum n (s : H2HeaderDecoder) : H2HeaderDecoder := {|
  hd_dynamicTable := hd_dynamicTable s; hd_dynamicTableSize := hd_dynamicTableSize s;
  hd_maximumDynamicTableSize := n |}.

(** The [unordered_multimap] is the list of what was put into it; [H2Codec_Status] takes the order
    in which it is enumerated as an argument. *)
Definition H2Headers : Type := list (bytes * bytes).

(** The part of the loop that reads a literal field: the field, whether it is to be remembered,
    and the offset after it. *)
Definition decode_literal (block : bytes) (offset first : Z)
    : eff H2HeaderDecoder (option (bytes * bytes) * bool * Z) :=
  let add := negb (Z.land first HpackLiteralIncrementalMask =? 0) in
  let prefixMask := if add then HpackLiteralIncrementalPrefixMask else HpackLiteralPrefixMask in
  let* (nameIndex, offset) := elift (ReadHpackInteger block offset prefixMask) in
  match nameIndex with
  | None => eret (None, add, offset)
  | Some nameIndex =>
      let* s := eget in
      let* (name, offset) := elift
        (if nameIndex =? 0 then
           let! (nameField, offset) := ReadHpackStringField block offset in
           match nameField with
           | None => Ok (None, offset)
           | Some field =>
               let! name := DecodeHpackString block field in Ok (Some name, offset)
           end
         else Ok (Some (fst <$> headerAt nameIndex s), offset)) in
      match name with
      | None => eret (None, add, offset)
      | Some name =>
          let* (valueField, offset) := elift (ReadHpackStringField block offset) in
          match name, valueField with
          | Some name, Some field =>
              let* value := elift (DecodeHpackString block field) in
              eret ((fun v => (name, v)) <$> value, add, offset)
          | _, _ => eret (None, add, offset)
          end
      end
  end.

(** The loop of [Decode]. *)
Fixpoint decode_loop (todo : nat) (block : bytes) (offset : Z) (result : H2Headers)
    : eff H2HeaderDecoder (option H2Headers) :=
  if negb (offset <? zlen block) then eret (Some result) else
  match todo with
  | O => elift UB
  | S todo' =>
      let* first := elift (rd block offset) in
      if negb (Z.land first HpackIndexedMask =? 0) then
        let* (index, offset) := elift (ReadHpackInteger block offset HpackIndexedPrefixMask) in
        let* s := eget in
        match index with
        | None => eret None
        | Some index =>
            match headerAt index s with
            | None => eret None
            | Some header => decode_loop todo' block offset (result ++ [header])
            end
        end
      else if negb (Z.land first HpackDynamicTableSizeUpdateMask =? 0)
              && (Z.land first HpackLiteralIncrementalMask =? 0) then
        let* (maximumSize, offset) :=
          elift (ReadHpackInteger block offset HpackDynamicTableSizeUpdatePrefixMask) in
        match maximumSize with
        | None => eret None
        | Some n =>
            if DefaultDynamicTableSize <? n then eret None else
            emod (hd_set_maximum n) ;;*
            emod evictDynamicEntries ;;*
            decode_loop todo' block offset result
        end
      else
        let* (literal, offset) := decode_literal block offset first in
        match literal with
        | (None, _) => eret None
        | (Some (name, value), add) =>
            (if add : bool then emod (addDynamicEntry name value) else eret tt) ;;*
            decode_loop todo' block offset (result ++ [(name, value)])
        end
  end.

Definition H2HeaderDecoder_Decode (block : bytes) : eff H2HeaderDecoder (option H2Headers) :=
  decode_loop (length block) block 0 [].

Definition H2Codec_DecodeHeaders (block : bytes) : outcome (option H2Headers) :=
  (H2HeaderDecoder_Decode block H2HeaderDecoder_new).1.

(** [equal_range], for the entries of a name in the order given. *)
Definition equal_range (headers : H2Headers) (name : bytes) : list bytes :=
  map snd (List.filter (fun e => bool_decide (e.1 = name)) headers).

Fixpoint first_status (values : list bytes) : option Z :=
  match values with
  | [] => None
  | value :: rest =>
      match parse_int value with
      | Some status =>
          if (MinimumHttpStatus <=? status) && (status <=? MaximumHttpStatus) then Some status
          else first_status rest
      | None => first_status rest
      end
  end.

(** [order] is the order in which [equal_range] gives the entries. *)
Definition H2Codec_Status (order : list bytes → list bytes) (headers : H2Headers) : option Z :=
  first_status (order (equal_range headers (lit ":status"))).

Definition H2Codec_DecodeStatus (order : list bytes → list bytes) (block : bytes) : outcome (option Z) :=
  let! headers := H2Codec_DecodeHeaders block in
  Ok (match headers with Some headers => H2Codec_Status order headers | None => None end).

(** ** Frames *)

(** [H2FrameType], whose values are the bytes of the frame header: a frame may have any other. *)
Definition Frame_Data : Z := 0x00.
Definition Frame_Headers : Z := 0x01.
Definition Frame_Settings : Z := 0x04.
Definition Frame_Ping : Z := 0x06.
Definition Frame_GoAway : Z := 0x07.
Definition Frame_WindowUpdate : Z := 0x08.

Record H2Frame := {
  hf_Length : Z;
  hf_Type : Z;
  hf_Flags : Z;
  hf_StreamId : Z;
  hf_Payload : bytes
}.

Definition AppendFrameHeader (out : bytes) (len type flags streamId : Z) : bytes :=
  out ++ [u8 (Z.land (Z.shiftr len 16) 0xff); u8 (Z.land (Z.shiftr len 8) 0xff);
          u8 (Z.land len 0xff); type; flags;
          u8 (Z.land (Z.shiftr streamId 24) 0x7f); u8 (Z.land (Z.shiftr streamId 16) 0xff);
          u8 (Z.land (Z.shiftr streamId 8) 0xff); u8 (Z.land streamId 0xff)].

(** The loop of [TakeCompleteFrames]: the frames, and the offset after the last of them. *)
Fixpoint take_frames (todo : nat) (buffer : bytes) (offset : Z) (frames : list H2Frame)
    : outcome (list H2Frame * Z) :=
  if negb (offset + 9 <=? zlen buffer) then Ok (frames, offset) else
  match todo with
  | O => UB
  | S todo' =>
      let! b0 := rd buffer offset in
      let! b1 := rd buffer (offset + 1) in
      let! b2 := rd buffer (offset + 2) in
      let len := Z.lor (Z.lor (Z.shiftl b0 16) (Z.shiftl b1 8)) b2 in
      if zlen buffer <? offset + 9 + len then Ok (frames, offset) else
      let! type := rd buffer (offset + 3) in
      let! flags := rd buffer (offset + 4) in
      let! s0 := rd buffer (offset + 5) in
      let! s1 := rd buffer (offset + 6) in
      let! s2 := rd buffer (offset + 7) in
      let! s3 := rd buffer (offset + 8) in
      let! payload := slice buffer (offset + 9) (offset + 9 + len) in
      take_frames todo' buffer (offset + (9 + len)) (frames ++ [{|
        hf_Length := len; hf_Type := type; hf_Flags := flags;
        hf_StreamId := Z.lor (Z.lor (Z.lor (Z.shiftl (Z.land s0 0x7f) 24) (Z.shiftl s1 16))
                                (Z.shiftl s2 8)) s3;
        hf_Payload := payload |}])
  end.

(** [TakeCompleteFrames], with what it leaves in the buffer. *)
Definition H2Codec_TakeCompleteFrames (buffer : bytes) : outcome (list H2Frame * bytes) :=
  let! (frames, offset) := take_frames (length buffer) buffer 0 [] in
  let! rest := slice buffer offset (zlen buffer) in
  Ok (frames, rest).

Definition H2Codec_ParseFrames (data : bytes) : outcome (list H2Frame) :=
  let! (frames, _) := H2Codec_TakeCompleteFrames data in Ok frames.

(** ** Building *)

Definition AppendHpackIndexed (out : bytes) (index : Z) : outcome bytes :=
  if 127 <? index
  then Throw (RuntimeError "HPACK indexed helper only supports small static indices.")
  else Ok (out ++ [u8 (Z.lor 0x80 index)]).

Definition AppendHpackLiteralIndexed (out : bytes) (nameIndex : Z) (value : bytes) : outcome bytes :=
  if (63 <? nameIndex) || (127 <? zlen value)
  then Throw (RuntimeError "HPACK literal helper only supports small fields.")
  else Ok (out ++ [u8 (Z.lor 0x40 nameIndex); u8 (zlen value)] ++ value).

Definition AppendHpackLiteralNew (out name value : bytes) : outcome bytes :=
  if (127 <? zlen name) || (127 <? zlen value)
  then Throw (RuntimeError "HPACK literal helper only supports small fields.")
  else Ok (out ++ [0x00; u8 (zlen name)] ++ name ++ [u8 (zlen value)] ++ value).

(** "PRI * HTTP/2.0", an empty line, "SM" and an empty line. *)
Definition h2_preface : bytes :=
  lit "PRI * HTTP/2.0" ++ [13; 10; 13; 10] ++ lit "SM" ++ [13; 10; 13; 10].

Definition H2Codec_BuildPreface (initialWindowSize : Z) : bytes :=
  AppendFrameHeader h2_preface 6 Frame_Settings 0 0
  ++ [u8 (Z.land (Z.shiftr H2SettingsInitialWindowSize 8) 0xff);
      u8 (Z.land H2SettingsInitialWindowSize 0xff);
      u8 (Z.land (Z.shiftr initialWindowSize 24) 0xff);
      u8 (Z.land (Z.shiftr initialWindowSize 16) 0xff);
      u8 (Z.land (Z.shiftr initialWindowSize 8) 0xff);
      u8 (Z.land initialWindowSize 0xff)].

Definition H2Codec_BuildSettingsAck : bytes := AppendFrameHeader [] 0 Frame_Settings H2FlagAck 0.

Definition H2Codec_BuildPingAck (payload : bytes) : outcome bytes :=
  if negb (zlen payload =? 8) then Throw (RuntimeError "HTTP/2 PING payload must be 8 bytes.")
  else Ok (AppendFrameHeader [] 8 Frame_Ping H2FlagAck 0 ++ payload).

Definition H2Codec_BuildWindowUpdate (streamId increment : Z) : bytes :=
  AppendFrameHeader [] 4 Frame_WindowUpdate 0 streamId
  ++ [u8 (Z.land (Z.shiftr increment 24) 0x7f); u8 (Z.land (Z.shiftr increment 16) 0xff);
      u8 (Z.land (Z.shiftr increment 8) 0xff); u8 (Z.land increment 0xff)].

Fixpoint append_extra (out : bytes) (headers : list (bytes * bytes)) : outcome bytes :=
  match headers with
  | [] => Ok out
  | header :: rest =>
      let! out := AppendHpackLiteralNew out header.1 header.2 in append_extra out rest
  end.

(** The header block of [BuildHeaders]. *)
Definition build_block (method path authority contentType : bytes)
    (extraHeaders : list (bytes * bytes)) : outcome bytes :=
  let! hpack := (if bool_decide (method = lit "POST") then AppendHpackIndexed [] 3
                 else if bool_decide (method = lit "GET") then AppendHpackIndexed [] 2
                 else AppendHpackLiteralIndexed [] 2 method) in
  let! hpack := (if bool_decide (path = lit "/") then AppendHpackIndexed hpack 4
                 else AppendHpackLiteralIndexed hpack 4 path) in
  let! hpack := AppendHpackIndexed hpack 6 in
  let! hpack := AppendHpackLiteralIndexed hpack 1 authority in
  let! hpack := AppendHpackLiteralIndexed hpack 31 contentType in
  append_extra hpack extraHeaders.

Definition H2Codec_BuildHeaders (method path authority contentType : bytes)
    (extraHeaders : list (bytes * bytes)) (streamId : Z) (endStream : bool) : outcome bytes :=
  let! hpack := build_block method path authority contentType extraHeaders in
  let flags := if endStream then Z.lor H2FlagEndHeaders H2FlagEndStream else H2FlagEndHeaders in
  Ok (AppendFrameHeader [] (u32 (zlen hpack)) Frame_Headers flags streamId ++ hpack).

Definition H2Codec_BuildData (data : bytes) (streamId : Z) (endStream : bool) : bytes :=
  AppendFrameHeader [] (u32 (zlen data)) Frame_Data (if endStream then H2FlagEndStream else 0) streamId
  ++ data.

Example decode_request :
  (let! frame := H2Codec_BuildHeaders (lit "GET") (lit "/key?v=1") (lit "example.com")
     (lit "application/json") [(lit "x-a", lit "b")] 1 true in
   let! frames := H2Codec_ParseFrames frame in
   H2Codec_DecodeHeaders (concat (map hf_Payload frames)))
  = Ok (Some [(lit ":method", lit "GET"); (lit ":path", lit "/key?v=1"); (lit ":scheme", lit "http");
              (lit ":authority", lit "example.com"); (lit "content-type", lit "application/json");
              (lit "x-a", lit "b")]).
Proof. vm_compute. reflexivity. Qed.

(** An example of RFC 7541 (C.6.1), with Huffman coding. *)
Example decode_rfc7541 :
  H2Codec_DecodeHeaders [0x48; 0x82; 0x64; 0x02; 0x58; 0x85; 0xae; 0xc3; 0x77; 0x1a; 0x4b]
  = Ok (Some [(lit ":status", lit "302"); (lit "cache-control", lit "private")]).
Proof. vm_compute. reflexivity. Qed.

(** ** Reading is safe *)

Lemma hpack_loop_spec todo data offset value shift :
  bytes_ok data → 0 <= offset → zlen data - offset <= Z.of_nat todo →
  in_width 32 value → 0 <= shift →
  ∃ r o, hpack_integer_loop todo data offset value shift = Ok (r, o)
    ∧ offset <= o <= Z.max offset (zlen data) ∧ ∀ v, r = Some v → in_width 32 v.
Proof.
  intros Hb. revert offset value shift.
  induction todo as [|todo IH]; intros offset value shift Ho Hf Hv Hs; simpl.
  - rewrite (proj2 (Z.ltb_ge _ _)) by lia. simpl. exists None, offset. split_and!; try done; lia.
  - destruct (Z.ltb_spec offset (zlen data)) as [Hlt|Hge]; simpl.
    2:{ exists None, offset. split_and!; try done; lia. }
    destruct (rd_Ok data offset ltac:(lia)) as [byte Hbyte]. rewrite Hbyte. simpl.
    ifb; [exists None, (offset + 1); split_and!; try done; lia|]. ifb.
    + eexists _, (offset + 1). split_and!; [done|lia|lia|]. intros v [= <-]. by apply wrap_range.
    + destruct (IH (offset + 1) (u32 (value + u32 (Z.shiftl (Z.land byte 127) shift))) (shift + 7))
        as (r & o & -> & Hr & Hw); [lia|lia|by apply wrap_range|lia|].
      exists r, o. split_and!; [done|lia|lia|done].
Qed.

Lemma ReadHpackInteger_spec data offset mask :
  bytes_ok data → 0 <= offset < zlen data → in_width 32 mask →
  ∃ r o, ReadHpackInteger data offset mask = Ok (r, o) ∧ offset < o <= zlen data
    ∧ ∀ v, r = Some v → in_width 32 v.
Proof.
  intros Hb Ho Hm. unfold ReadHpackInteger. rewrite (proj2 (Z.leb_gt _ _)) by lia.
  destruct (rd_Ok data offset Ho) as [byte Hbyte]. rewrite Hbyte. simpl.
  assert (in_width 32 (Z.land byte mask)) as Hw by (rewrite Z.land_comm; by apply in_width_land).
  ifb; [eexists _, (offset + 1); split_and!; [done|lia|lia|by intros v [= <-]]|].
  destruct (hpack_loop_spec (length data) data (offset + 1) (Z.land byte mask) 0)
    as (r & o & -> & Hr & Hv); [done|lia|unfold zlen in *; lia|done|lia|].
  exists r, o. split_and!; [done|lia|lia|done].
Qed.

Lemma ReadHpackStringField_spec data offset :
  bytes_ok data → 0 <= offset <= zlen data →
  ∃ r o, ReadHpackStringField data offset = Ok (r, o) ∧ offset <= o <= zlen data
    ∧ ∀ f, r = Some f → 0 <= hs_Offset f ∧ 0 <= hs_Length f ∧ hs_Offset f + hs_Length f <= zlen data.
Proof.
  intros Hb Ho. unfold ReadHpackStringField. destruct (Z.leb_spec (zlen data) offset) as [Hge|Hlt].
  { exists None, offset. split_and!; done || lia. }
  destruct (rd_Ok data offset ltac:(lia)) as [byte Hbyte]. rewrite Hbyte. simpl.
  destruct (ReadHpackInteger_spec data offset HpackStringLengthPrefixMask Hb ltac:(lia) ltac:(done))
    as (r & o & -> & Hr & Hv). simpl. destruct r as [n|]; [|exists None, o; split_and!; done || lia].
  destruct (Hv n eq_refl) as [Hn _]. ifb; [exists None, o; split_and!; done || lia|]. b2p.
  eexists _, _. split_and!; [done|lia|lia|]. intros f [= <-]. simpl. lia.
Qed.

Lemma huffman_loop_safe todo data bitOffset result code codeLength :
  0 <= bitOffset → bitOffset + Z.of_nat todo <= 8 * zlen data →
  ∃ r, huffman_loop todo data bitOffset result code codeLength = Ok r.
Proof.
  revert bitOffset result code codeLength.
  induction todo as [|todo IH]; intros bitOffset result code codeLength Ho Hf; cbn [huffman_loop].
  - repeat ifb; eauto.
  - destruct (rd_Ok data (bitOffset / 8)) as [byte ->].
    { split; [apply Z.div_pos; lia|apply Z.div_lt_upper_bound; lia]. }
    cbn [obind]. cbv zeta. destruct (find_symbol _ _); [apply IH; lia|]. ifb; [eauto|apply IH; lia].
Qed.

Lemma DecodeHpackString_safe data f :
  0 <= hs_Offset f → 0 <= hs_Length f → hs_Offset f + hs_Length f <= zlen data →
  ∃ r, DecodeHpackString data f = Ok r.
Proof.
  intros Ho Hl Hf. unfold DecodeHpackString. ifb.
  - rewrite slice_Ok by lia. simpl. eauto.
  - apply huffman_loop_safe; lia.
Qed.

(** ** The dynamic table *)

Definition table_size (table : list (bytes * bytes)) : Z :=
  fold_right (fun e n => entry_size e + n) 0 table.

(** The size that is kept is that of the entries, within the limit, which is never more than the
    4096 bytes that the client announced. *)
Record decoder_ok (s : H2HeaderDecoder) : Prop := {
  ok_size : hd_dynamicTableSize s = table_size (hd_dynamicTable s);
  ok_fits : hd_dynamicTableSize s <= hd_maximumDynamicTableSize s;
  ok_maximum : 0 <= hd_maximumDynamicTableSize s <= DefaultDynamicTableSize
}.

Lemma entry_size_pos e : 32 <= entry_size e.
Proof. unfold entry_size, HpackEntryOverhead. zlia. Qed.

Lemma table_size_nonneg table : 0 <= table_size table.
Proof. induction table as [|e table IH]; simpl; [lia|]. pose proof (entry_size_pos e). lia. Qed.

Lemma table_size_app l k : table_size (l ++ k) = table_size l + table_size k.
Proof. induction l as [|e l IH]; simpl; lia. Qed.

(** Eviction leaves the newest entries that fit. *)
Lemma evict_spec todo s :
  (length (hd_dynamicTable s) <= todo)%nat →
  hd_dynamicTableSize s = table_size (hd_dynamicTable s) →
  hd_dynamicTableSize s < 2 ^ 64 → 0 <= hd_maximumDynamicTableSize s →
  let s' := evict todo s in
  hd_dynamicTableSize s' = table_size (hd_dynamicTable s')
  ∧ hd_dynamicTableSize s' <= hd_maximumDynamicTableSize s'
  ∧ hd_maximumDynamicTableSize s' = hd_maximumDynamicTableSize s
  ∧ ∃ n, hd_dynamicTable s' = take n (hd_dynamicTable s).
Proof.
  revert s. induction todo as [|todo IH]; intros s Hl Hsize Hw Hm; cbn [evict].
  - assert (hd_dynamicTable s = []) as Hnil by (apply length_zero_iff_nil; lia).
    rewrite Hnil in Hsize. simpl in Hsize. rewrite (proj2 (Z.ltb_ge _ _)) by lia. simpl.
    split_and!; [by rewrite Hnil|lia|done|]. exists 0%nat. done.
  - destruct (Z.ltb_spec (hd_maximumDynamicTableSize s) (hd_dynamicTableSize s)) as [Hgt|Hle]; simpl.
    2:{ split_and!; [done|lia|done|]. exists (length (hd_dynamicTable s)). by rewrite firstn_all. }
    destruct (last (hd_dynamicTable s)) as [e|] eqn:El.
    2:{ apply last_None in El. rewrite El in Hsize. simpl in Hsize. lia. }
    apply last_Some in El as [front Ht]. rewrite Ht, length_app. simpl. replace (_ + 1 - 1)%nat with (length front) by lia.
    rewrite take_app_length.
    assert (table_size (hd_dynamicTable s) = table_size front + entry_size e) as Hsum.
    { rewrite Ht, table_size_app. simpl. lia. }
    pose proof (table_size_nonneg front). pose proof (entry_size_pos e).
    assert (u64 (hd_dynamicTableSize s - entry_size e) = table_size front) as Hu.
    { rewrite wrap_id; [lia|]. unfold in_width. lia. }
    rewrite Hu. edestruct (IH {| hd_dynamicTable := front; hd_dynamicTableSize := table_size front;
      hd_maximumDynamicTableSize := hd_maximumDynamicTableSize s |}) as (H1 & H2 & H3 & n & Hn); simpl.
    + rewrite Ht, length_app in Hl. simpl in Hl. lia.
    + done.
    + lia.
    + lia.
    + split_and!; [done|done|done|]. simpl in Hn. exists (n `min` length front)%nat.
      rewrite Hn, take_app_le, <- take_take, (take_ge front (length front)) by lia. done.
Qed.

Lemma evictDynamicEntries_ok s :
  hd_dynamicTableSize s = table_size (hd_dynamicTable s) → hd_dynamicTableSize s < 2 ^ 64 →
  0 <= hd_maximumDynamicTableSize s <= DefaultDynamicTableSize →
  decoder_ok (evictDynamicEntries s).
Proof.
  intros Hs Hw Hm. unfold evictDynamicEntries.
  destruct (evict_spec (length (hd_dynamicTable s)) s) as (H1 & H2 & H3 & _); [done|done|done|lia|].
  split; [done|done|by rewrite H3].
Qed.

Lemma addDynamicEntry_ok name value s : decoder_ok s → decoder_ok (addDynamicEntry name value s).
Proof.
  intros [Hs Hf Hm]. unfold addDynamicEntry. unfold DefaultDynamicTableSize in *.
  destruct (Z.ltb_spec (hd_maximumDynamicTableSize s) (entry_size (name, value))) as [Hgt|Hle].
  { split; simpl; unfold DefaultDynamicTableSize; lia. }
  pose proof (table_size_nonneg (hd_dynamicTable s)). pose proof (entry_size_pos (name, value)).
  assert (u64 (hd_dynamicTableSize s + entry_size (name, value))
    = entry_size (name, value) + table_size (hd_dynamicTable s)) as Hu.
  { rewrite wrap_id; [lia|]. unfold in_width. lia. }
  apply evictDynamicEntries_ok; simpl; rewrite ?Hu; unfold DefaultDynamicTableSize; lia.
Qed.

Lemma SizeUpdate_ok n s :
  decoder_ok s → 0 <= n <= DefaultDynamicTableSize →
  decoder_ok (evictDynamicEntries (hd_set_maximum n s)).
Proof.
  intros [Hs Hf Hm] Hn. unfold DefaultDynamicTableSize in *.
  apply evictDynamicEntries_ok; simpl; [done|lia|unfold DefaultDynamicTableSize; lia].
Qed.

(** Reading a literal changes nothing, and makes progress. *)
Lemma decode_literal_spec block offset first s :
  bytes_ok block → 0 <= offset < zlen block →
  ∃ literal o, decode_literal block offset first s = (Ok (literal, o), s)
    ∧ offset < o <= zlen block.
Proof.
  intros Hb Ho. unfold decode_literal. cbv zeta. set (add := negb _). set (mask := if add then _ else _).
  destruct (ReadHpackInteger_spec block offset mask Hb Ho) as (index & o & Hr & Hoff & _).
  { by destruct add. }
  unfold ebind at 1, elift at 1. rewrite Hr. destruct index as [index|]; [|by eexists _, _].
  unfold ebind at 1, eget. unfold ebind at 1, elift at 1.
  assert (∃ name o', (if index =? 0 then
      let! (nameField, offset) := ReadHpackStringField block o in
      match nameField with
      | None => Ok (None, offset)
      | Some field => let! name := DecodeHpackString block field in Ok (Some name, offset)
      end
    else Ok (Some (fst <$> headerAt index s), o)) = Ok (name, o') ∧ o <= o' <= zlen block)
    as (name & o' & -> & Ho').
  { ifb; [|eexists _, _; split; [done|lia]].
    destruct (ReadHpackStringField_spec block o Hb ltac:(lia)) as (f & o' & -> & Ho' & Hf). simpl.
    destruct f as [f|]; [|by eexists _, _]. destruct (Hf f eq_refl) as (? & ? & ?).
    destruct (DecodeHpackString_safe block f) as [r ->]; [done..|]. by eexists _, _. }
  destruct name as [name|]; [|eexists _, _; split; [done|lia]].
  destruct (ReadHpackStringField_spec block o' Hb ltac:(lia)) as (f & o2 & Hf & Ho2 & Hok).
  unfold ebind at 1, elift at 1. rewrite Hf.
  destruct name as [name|]; [|eexists _, _; split; [done|lia]].
  destruct f as [f|]; [|eexists _, _; split; [done|lia]]. destruct (Hok f eq_refl) as (? & ? & ?).
  destruct (DecodeHpackString_safe block f) as [r Hd]; [done..|].
  unfold ebind, elift. rewrite Hd. eexists _, _. split; [done|lia].
Qed.

Lemma decode_loop_ok todo block offset result s :
  bytes_ok block → 0 <= offset → zlen block - offset <= Z.of_nat todo → decoder_ok s →
  wp (decode_loop todo block offset result) (fun r s' => (∃ h, r = Ok h) ∧ decoder_ok s') s.
Proof.
  intros Hb. revert offset result s.
  induction todo as [|todo IH]; intros offset result s Ho Hf Hs; cbn [decode_loop].
  { rewrite (proj2 (Z.ltb_ge _ _)) by lia. simpl. wp_auto. eauto. }
  destruct (Z.ltb_spec offset (zlen block)) as [Hlt|Hge]; simpl; [|wp_auto; eauto].
  destruct (rd_Ok block offset ltac:(lia)) as [first Hfirst]. wp_auto. rewrite Hfirst. ifb.
  { destruct (ReadHpackInteger_spec block offset HpackIndexedPrefixMask Hb ltac:(lia) ltac:(done))
      as (index & o & Hr & Hoff & _).
    wp_auto. rewrite Hr. wp_auto. destruct index as [index|]; [|wp_auto; eauto].
    destruct (headerAt index s) as [header|]; [|wp_auto; eauto]. apply IH; [lia|lia|done]. }
  ifb.
  { destruct (ReadHpackInteger_spec block offset HpackDynamicTableSizeUpdatePrefixMask Hb ltac:(lia)
      ltac:(done)) as (n & o & Hr & Hoff & Hv).
    wp_auto. rewrite Hr. destruct n as [n|]; [|wp_auto; eauto]. destruct (Hv n eq_refl) as [? _].
    destruct (Z.ltb_spec DefaultDynamicTableSize n) as [|Hn]; [wp_auto; eauto|]. wp_auto.
    apply IH; [lia|lia|]. by apply SizeUpdate_ok. }
  destruct (decode_literal_spec block offset first s Hb ltac:(lia)) as (literal & o & Hr & Hoff).
  apply wp_bind. unfold wp at 1. rewrite Hr. simpl.
  destruct literal as [[[name value]|] add]; [|wp_auto; eauto].
  destruct add; wp_auto; apply IH; try lia; [by apply addDynamicEntry_ok|done].
Qed.

(** The decoder of a connection after the header blocks that it has read. *)
Definition decoder_run (blocks : list bytes) : H2HeaderDecoder :=
  foldl (fun s block => (H2HeaderDecoder_Decode block s).2) H2HeaderDecoder_new blocks.

(** C29: no header block of a server can harm the decoder.  Whatever blocks came before, whether
    it took or refused them, it reads the next one without reading outside it, in a number of steps
    bounded by its length, and returns; the size that it keeps of its table is the size of the
    entries and stays within the limit that is in force, which is never above 4096 bytes. *)
Theorem H2HeaderDecoder_bounded blocks block :
  Forall bytes_ok blocks → bytes_ok block →
  let s := decoder_run blocks in
  (∃ headers, (H2HeaderDecoder_Decode block s).1 = Ok headers)
  ∧ hd_dynamicTableSize s = table_size (hd_dynamicTable s)
  ∧ hd_dynamicTableSize s <= hd_maximumDynamicTableSize s <= 4096
  ∧ zlen (hd_dynamicTable s) <= 128.
Proof.
  intros Hblocks Hblock s.
  assert (decoder_ok s) as Hs.
  { subst s. unfold decoder_run. cut (decoder_ok H2HeaderDecoder_new); [|by split].
    generalize H2HeaderDecoder_new. induction Hblocks as [|b l Hb _ IH]; intros s Hs; [done|].
    apply IH. apply (decode_loop_ok (length b) b 0 [] s); [done|done|unfold zlen; lia|done]. }
  split; [apply (decode_loop_ok (length block) block 0 [] s); [done|done|unfold zlen; lia|done]|].
  destruct Hs as [Hsize Hfits Hmax]. unfold DefaultDynamicTableSize in Hmax. split_and!; [done|lia|lia|].
  assert (32 * zlen (hd_dynamicTable s) <= table_size (hd_dynamicTable s)); [|lia].
  clear. induction (hd_dynamicTable s) as [|e t IH]; simpl; [done|].
  pose proof (entry_size_pos e). zlia.
Qed.

(** ** The Huffman code *)

(** The [n] low bits of a number, and the bits of a text, the highest first. *)
Fixpoint to_bits (n : nat) (v : Z) : list bool :=
  match n with
  | O => []
  | S n' => Z.testbit v (Z.of_nat n') :: to_bits n' v
  end.

Definition text_bits (text : bytes) : list bool := concat (map (to_bits 8) text).

(** The reference encoder: the codes one after the other. *)
Definition symbol_bits (symbol : Z) : list bool :=
  match HpackHuffmanCodes !! Z.to_nat symbol with
  | Some (code, n) => to_bits (Z.to_nat n) code
  | None => []
  end.

Definition huffman_bits (text : bytes) : list bool := concat (map symbol_bits text).

Definition bits_val (p : list bool) : Z := fold_left (fun v b => 2 * v + Z.b2z b) p 0.

Lemma bits_val_snoc p b : bits_val (p ++ [b]) = 2 * bits_val p + Z.b2z b.
Proof. unfold bits_val. by rewrite fold_left_app. Qed.

Lemma bits_val_range p : 0 <= bits_val p < 2 ^ zlen p.
Proof.
  induction p as [|b p IH] using rev_ind; [done|]. rewrite bits_val_snoc, zlen_app.
  change (zlen [b]) with 1. rewrite Z.pow_add_r by (try apply zlen_nonneg; lia).
  destruct b; simpl Z.b2z; lia.
Qed.

Lemma length_to_bits n v : length (to_bits n v) = n.
Proof. induction n; simpl; congruence. Qed.

Lemma to_bits_snoc n v : to_bits (S n) v = to_bits n (Z.div2 v) ++ [Z.odd v].
Proof.
  revert v. induction n as [|n IH]; intros v; [done|].
  change (to_bits (S (S n)) v) with (Z.testbit v (Z.of_nat (S n)) :: to_bits (S n) v). rewrite IH.
  cbn [to_bits app]. f_equal. rewrite Z.div2_spec, Z.shiftr_spec, Nat2Z.inj_succ by lia. done.
Qed.

Lemma to_bits_val p : to_bits (length p) (bits_val p) = p.
Proof.
  induction p as [|b p IH] using rev_ind; [done|].
  rewrite length_app, Nat.add_comm. cbn [length Nat.add]. rewrite to_bits_snoc, bits_val_snoc.
  replace (Z.div2 (2 * bits_val p + Z.b2z b)) with (bits_val p).
  - rewrite IH. f_equal. f_equal. rewrite Z.add_comm, Z.odd_add_mul_2. by destruct b.
  - rewrite Z.div2_div. destruct b; simpl Z.b2z; [|rewrite Z.add_0_r];
      rewrite Z.mul_comm; [rewrite Z.div_add_l by lia|rewrite Z.div_mul by lia]; [|done].
    change (1 / 2) with 0. lia.
Qed.

Lemma bits_val_to_bits n v : 0 <= v < 2 ^ Z.of_nat n → bits_val (to_bits n v) = v.
Proof.
  revert v. induction n as [|n IH]; intros v Hv; [change (2 ^ Z.of_nat 0) with 1 in Hv; simpl; unfold bits_val; simpl; lia|].
  rewrite to_bits_snoc, bits_val_snoc, IH.
  - rewrite (Z.div2_odd v) at 3. lia.
  - rewrite Z.div2_div. rewrite Nat2Z.inj_succ, Z.pow_succ_r in Hv by lia.
    split; [apply Z.div_pos; lia|apply Z.div_lt_upper_bound; lia].
Qed.

(** The table: the codes fit their lengths, and none is the beginning of another. *)
Definition code_ok (e : Z * Z) : bool := (5 <=? e.2) && (e.2 <=? 30) && (0 <=? e.1) && (e.1 <? 2 ^ e.2).

Definition prefix_code (e e' : Z * Z) : bool := (e.2 <=? e'.2) && (Z.shiftr e'.1 (e'.2 - e.2) =? e.1).

Lemma codes_ok : forallb code_ok HpackHuffmanCodes = true.
Proof. vm_compute. reflexivity. Qed.

Lemma codes_prefix_free :
  forallb (fun i => forallb (fun j => negb (prefix_code (nth i HpackHuffmanCodes (0, 0))
      (nth j HpackHuffmanCodes (0, 0))) || (i =? j)%nat) (seq 0 256)) (seq 0 256) = true.
Proof. vm_compute. reflexivity. Qed.

(** No code is made of a few ones, so that padding does not decode to anything. *)
Lemma ones_no_symbol :
  forallb (fun n => bool_decide (find_symbol (2 ^ n - 1) n = None)) [1; 2; 3; 4; 5; 6; 7] = true.
Proof. vm_compute. reflexivity. Qed.

Lemma bits_val_app p q : bits_val (p ++ q) = bits_val p * 2 ^ zlen q + bits_val q.
Proof.
  induction q as [|b q IH] using rev_ind.
  - rewrite app_nil_r. change (zlen []) with 0. change (bits_val []) with 0. lia.
  - rewrite app_assoc, !bits_val_snoc, IH, zlen_app. change (zlen [b]) with 1.
    rewrite Z.pow_add_r by (try apply zlen_nonneg; lia). lia.
Qed.

Lemma bits_val_prefix p q : Z.shiftr (bits_val (p ++ q)) (zlen q) = bits_val p.
Proof.
  rewrite Z.shiftr_div_pow2 by apply zlen_nonneg. rewrite bits_val_app.
  pose proof (bits_val_range q). rewrite Z.div_add_l by lia. rewrite Z.div_small by lia. lia.
Qed.

(** The entry of a symbol: its bits are those of the code. *)
Lemma entry_bits i code n :
  HpackHuffmanCodes !! i = Some (code, n) →
  (i < 256)%nat ∧ 5 <= n <= 30
  ∧ ∃ p, symbol_bits (Z.of_nat i) = p ∧ zlen p = n ∧ bits_val p = code.
Proof.
  intros Hi. pose proof (lookup_lt_Some _ _ _ Hi) as Hlt. change (length HpackHuffmanCodes) with 256%nat in Hlt.
  pose proof codes_ok as Hok. rewrite forallb_forall in Hok.
  specialize (Hok (code, n)). unfold code_ok in Hok. simpl in Hok.
  assert (5 <= n <= 30 ∧ 0 <= code < 2 ^ n) as [Hn Hc].
  { assert (In (code, n) HpackHuffmanCodes) as Hin by (apply list_elem_of_In; by eapply list_elem_of_lookup_2).
    specialize (Hok Hin). lia. }
  split_and!; [done|lia|lia|]. exists (to_bits (Z.to_nat n) code).
  unfold symbol_bits. rewrite Nat2Z.id, Hi. split_and!; [done|unfold zlen; rewrite length_to_bits; lia|].
  apply bits_val_to_bits. by rewrite Z2Nat.id by lia.
Qed.

Lemma symbol_entry symbol :
  in_width 8 symbol → ∃ code n, HpackHuffmanCodes !! Z.to_nat symbol = Some (code, n).
Proof.
  intros Hs. unfold in_width in Hs.
  destruct (lookup_lt_is_Some_2 HpackHuffmanCodes (Z.to_nat symbol)) as [[code n] H].
  - change (length HpackHuffmanCodes) with 256%nat. lia.
  - by exists code, n.
Qed.

(** A code that begins another is that code. *)
Lemma symbol_prefix i j p q :
  symbol_bits (Z.of_nat i) = p → symbol_bits (Z.of_nat j) = p ++ q →
  (i < 256)%nat → (j < 256)%nat → i = j.
Proof.
  intros Hi Hj Hi' Hj'.
  destruct (symbol_entry (Z.of_nat i)) as (ci & ni & Ei); [unfold in_width; lia|].
  destruct (symbol_entry (Z.of_nat j)) as (cj & nj & Ej); [unfold in_width; lia|].
  rewrite Nat2Z.id in Ei, Ej.
  destruct (entry_bits i ci ni Ei) as (_ & _ & pi & Hpi & Hli & Hvi).
  destruct (entry_bits j cj nj Ej) as (_ & _ & pj & Hpj & Hlj & Hvj).
  assert (pi = p) as -> by congruence. assert (pj = p ++ q) as -> by congruence.
  pose proof codes_prefix_free as Hfree. rewrite forallb_forall in Hfree.
  specialize (Hfree i). rewrite in_seq in Hfree. specialize (Hfree ltac:(lia)).
  rewrite forallb_forall in Hfree. specialize (Hfree j). rewrite in_seq in Hfree.
  specialize (Hfree ltac:(lia)).
  rewrite (nth_lookup_Some _ _ _ _ Ei), (nth_lookup_Some _ _ _ _ Ej) in Hfree.
  assert (prefix_code (ci, ni) (cj, nj) = true) as Hpc.
  { unfold prefix_code. simpl. rewrite zlen_app in Hlj. pose proof (zlen_nonneg q).
    rewrite <- Hvj, <- Hvi. replace (nj - ni) with (zlen q) by lia. rewrite bits_val_prefix, Z.eqb_refl.
    lia. }
  rewrite Hpc in Hfree. simpl in Hfree. by apply Nat.eqb_eq.
Qed.

Lemma find_symbol_Some p i :
  find_symbol (bits_val p) (zlen p) = Some i → (i < 256)%nat ∧ symbol_bits (Z.of_nat i) = p.
Proof.
  intros ([code n] & Hl & Hf & _)%find_index_Some. simpl in Hf.
  destruct (entry_bits i code n Hl) as (Hi & _ & q & Hq & Hlen & Hval). split; [done|].
  assert (n = zlen p ∧ code = bits_val p) as [-> ->] by lia.
  rewrite Hq, <- (to_bits_val q), <- (to_bits_val p), Hval. f_equal. unfold zlen in Hlen. lia.
Qed.

Lemma symbol_found symbol p :
  in_width 8 symbol → symbol_bits symbol = p →
  find_symbol (bits_val p) (zlen p) = Some (Z.to_nat symbol) ∧ 5 <= zlen p <= 30.
Proof.
  intros Hs Hp. destruct (symbol_entry symbol Hs) as (code & n & He).
  unfold in_width in Hs. replace symbol with (Z.of_nat (Z.to_nat symbol)) in Hp by lia.
  destruct (entry_bits _ code n He) as (Hi & Hn & q & Hq & Hlen & Hval).
  assert (q = p) as -> by congruence. split; [|lia].
  destruct (find_symbol (bits_val p) (zlen p)) as [j|] eqn:Hj.
  - f_equal. apply find_symbol_Some in Hj as [Hj Hjp].
    apply (symbol_prefix j (Z.to_nat symbol) p []); [done|by rewrite app_nil_r|done|done].
  - pose proof (find_index_None _ _ Hj _ _ He) as Hf. simpl in Hf. lia.
Qed.

(** The proper beginning of a code is no code. *)
Lemma prefix_not_found symbol p q :
  in_width 8 symbol → symbol_bits symbol = p ++ q → q ≠ [] →
  find_symbol (bits_val p) (zlen p) = None.
Proof.
  intros Hs Hp Hq. destruct (find_symbol (bits_val p) (zlen p)) as [j|] eqn:Hj; [|done].
  apply find_symbol_Some in Hj as [Hj Hjp]. unfold in_width in Hs.
  replace symbol with (Z.of_nat (Z.to_nat symbol)) in Hp by lia.
  assert (j = Z.to_nat symbol) as Heq by (apply (symbol_prefix j (Z.to_nat symbol) p q); done || lia).
  rewrite <- Heq, Hjp in Hp. rewrite <- (app_nil_r p) in Hp at 1. apply app_inv_head in Hp. by destruct Hq.
Qed.

(** The decoder on bits: [p] is what it has read of a code. *)
Fixpoint decode_bits (bits p : list bool) (result : bytes) : option bytes :=
  match bits with
  | [] => if (zlen p <=? 7) && forallb id p then Some result else None
  | b :: rest =>
      let p := p ++ [b] in
      match find_symbol (bits_val p) (zlen p) with
      | Some symbol => decode_bits rest [] (result ++ [Z.of_nat symbol])
      | None => if zlen p =? 30 then None else decode_bits rest p result
      end
  end.

Definition bit_at (data : bytes) (k : Z) : bool :=
  match data !! Z.to_nat (k / 8) with Some b => Z.testbit b (7 - k mod 8) | None => false end.

Lemma bits_val_ones p : bits_val p = 2 ^ zlen p - 1 ↔ forallb id p = true.
Proof.
  induction p as [|b p IH] using rev_ind; [done|].
  rewrite bits_val_snoc, zlen_app, forallb_app. change (zlen [b]) with 1.
  rewrite Z.pow_add_r by (try apply zlen_nonneg; lia). change (2 ^ 1) with 2.
  pose proof (bits_val_range p). destruct b; simpl; rewrite ?andb_true_r, ?andb_false_r, <-?IH; lia.
Qed.

Lemma land_one v n : 0 <= n → Z.land (Z.shiftr v n) 1 = Z.b2z (Z.testbit v n).
Proof.
  intros Hn. change 1 with (Z.ones 1). rewrite Z.land_ones by lia. change (2 ^ 1) with 2.
  rewrite <- Z.bit0_mod, Z.shiftr_spec by lia. by rewrite Z.add_0_l.
Qed.

Lemma huffman_loop_bits todo data off result p :
  0 <= off → off + Z.of_nat todo <= 8 * zlen data → zlen p < 30 →
  huffman_loop todo data off result (bits_val p) (zlen p)
  = Ok (decode_bits (map (bit_at data) (seqZ off (Z.of_nat todo))) p result).
Proof.
  revert off result p. induction todo as [|todo IH]; intros off result p Ho Hf Hp; cbn [huffman_loop].
  - simpl. unfold MaximumHpackPaddingBits. rewrite Z.leb_antisym. destruct (7 <? zlen p); simpl; [done|].
    assert ((if zlen p =? 0 then 0 else Z.shiftl 1 (zlen p) - 1) = 2 ^ zlen p - 1) as ->.
    { destruct (Z.eqb_spec (zlen p) 0) as [->|]; [done|].
      rewrite Z.shiftl_mul_pow2 by apply zlen_nonneg. lia. }
    pose proof (bits_val_ones p) as Hones.
    destruct (Z.eqb_spec (bits_val p) (2 ^ zlen p - 1)) as [He|Hne]; simpl.
    + by rewrite (proj1 Hones He).
    + destruct (forallb id p); [|done]. by destruct Hne; apply Hones.
  - assert (0 <= off / 8 < zlen data) as Hd
      by (split; [apply Z.div_pos; lia|apply Z.div_lt_upper_bound; lia]).
    destruct (rd_Ok data (off / 8) Hd) as [byte Hbyte]. rewrite Hbyte. cbn [obind]. cbv zeta.
    apply rd_lookup in Hbyte as [_ Hbyte].
    rewrite seqZ_cons by lia. cbn [map decode_bits].
    replace (Z.pred (Z.of_nat (S todo))) with (Z.of_nat todo) by lia.
    assert (Z.lor (u32 (Z.shiftl (bits_val p) 1)) (Z.land (Z.shiftr byte (7 - off mod 8)) 1)
      = bits_val (p ++ [bit_at data off])) as ->.
    { pose proof (bits_val_range p) as Hr. pose proof (Z.pow_le_mono_r 2 (zlen p) 29 ltac:(lia) ltac:(lia)).
      rewrite wrap_id by (rewrite Z.shiftl_mul_pow2 by lia; unfold in_width; lia).
      rewrite bits_val_snoc. unfold bit_at. rewrite Hbyte.
      rewrite land_one by (pose proof (Z.mod_pos_bound off 8); lia).
      destruct (Z.testbit byte (7 - off mod 8)); simpl Z.b2z; rewrite lor_shiftl_add by lia; lia. }
    replace (zlen p + 1) with (zlen (p ++ [bit_at data off])) by zlia.
    destruct (find_symbol _ _) as [symbol|].
    + apply (IH (off + 1) (result ++ [Z.of_nat symbol]) []); zlia.
    + destruct (Z.eqb_spec (zlen (p ++ [bit_at data off])) 30) as [He|Hne]; [done|].
      apply IH; [lia|lia|zlia].
Qed.

(** What is decoded is the text whose code was read, up to padding. *)
Lemma decode_bits_sound bits p result text :
  decode_bits bits p result = Some text →
  ∃ s pad, text = result ++ s ∧ bytes_ok s ∧ p ++ bits = huffman_bits s ++ pad
    ∧ zlen pad <= 7 ∧ forallb id pad = true.
Proof.
  revert p result. induction bits as [|b bits IH]; intros p result; cbn [decode_bits].
  - destruct (Z.leb_spec (zlen p) 7); simpl; [|done]. destruct (forallb id p) eqn:Ep; [|done].
    intros [= <-]. exists [], p. rewrite !app_nil_r. done.
  - cbv zeta. destruct (find_symbol _ _) as [symbol|] eqn:Ef.
    + apply find_symbol_Some in Ef as [Hs Hbits].
      intros (s & pad & -> & Hb & Heq & Hpad)%IH. exists (Z.of_nat symbol :: s), pad.
      split_and!; [by rewrite <- app_assoc|constructor; [unfold in_width; lia|done]| |apply Hpad..].
      unfold huffman_bits. cbn [map concat]. rewrite Hbits. fold (huffman_bits s).
      simpl in Heq. by rewrite Heq, <- !app_assoc.
    + destruct (_ =? 30); [done|]. intros (s & pad & -> & Hb & Heq & Hpad)%IH.
      exists s, pad. rewrite <- app_assoc in Heq. done.
Qed.

(** The bits of a code give its symbol. *)
Lemma decode_bits_symbol symbol p q bits result :
  in_width 8 symbol → symbol_bits symbol = p ++ q → q ≠ [] →
  decode_bits (q ++ bits) p result = decode_bits bits [] (result ++ [symbol]).
Proof.
  intros Hs. revert p. induction q as [|b q IH]; intros p Hp Hq; [done|]. cbn [app decode_bits]. cbv zeta.
  destruct q as [|b' q].
  - destruct (symbol_found symbol (p ++ [b]) Hs Hp) as [-> _]. unfold in_width in Hs.
    by rewrite Z2Nat.id by lia.
  - assert (symbol_bits symbol = (p ++ [b]) ++ b' :: q) as Hp' by (by rewrite <- app_assoc).
    rewrite (prefix_not_found symbol (p ++ [b]) (b' :: q)) by done.
    destruct (symbol_found symbol _ Hs Hp') as [_ Hlen].
    destruct (Z.eqb_spec (zlen (p ++ [b])) 30) as [He|_]; [rewrite zlen_app, He in Hlen; zlia|].
    by apply IH.
Qed.

Lemma decode_bits_padding pad p result :
  zlen (p ++ pad) <= 7 → forallb id (p ++ pad) = true → decode_bits pad p result = Some result.
Proof.
  revert p. induction pad as [|b pad IH]; intros p Hl Hp; cbn [decode_bits].
  - rewrite app_nil_r in Hl, Hp. rewrite Hp, (proj2 (Z.leb_le _ _)) by lia. done.
  - cbv zeta. assert (p ++ b :: pad = (p ++ [b]) ++ pad) as Heq by (by rewrite <- app_assoc).
    rewrite Heq in Hl, Hp. pose proof Hp as Hones. rewrite forallb_app in Hones.
    apply andb_true_iff in Hones as [Hones _]. apply bits_val_ones in Hones.
    assert (1 <= zlen (p ++ [b]) <= 7) as Hn by (rewrite zlen_app in *; zlia).
    assert (find_symbol (bits_val (p ++ [b])) (zlen (p ++ [b])) = None) as ->.
    { rewrite Hones. pose proof ones_no_symbol as H. rewrite forallb_forall in H.
      specialize (H (zlen (p ++ [b])) ltac:(simpl; lia)). by apply bool_decide_eq_true_1 in H. }
    rewrite (proj2 (Z.eqb_neq _ _)) by lia. by apply IH.
Qed.

Lemma decode_bits_complete s pad result :
  bytes_ok s → zlen pad <= 7 → forallb id pad = true →
  decode_bits (huffman_bits s ++ pad) [] result = Some (result ++ s).
Proof.
  intros Hs Hl Hp. revert result. induction Hs as [|symbol s Hsym _ IH]; intros result.
  - rewrite app_nil_r. by apply decode_bits_padding.
  - unfold huffman_bits. cbn [map concat]. fold (huffman_bits s). rewrite <- app_assoc.
    rewrite (decode_bits_symbol symbol [] (symbol_bits symbol)); [|done|done|].
    + rewrite IH. by rewrite <- app_assoc.
    + intros Hnil. destruct (symbol_found symbol [] Hsym Hnil) as [_ Hn].
      change (zlen (@nil bool)) with 0 in Hn. lia.
Qed.

Lemma bit_at_byte data n b :
  data !! n = Some b → map (bit_at data) (seqZ (8 * Z.of_nat n) 8) = to_bits 8 b.
Proof.
  intros Hb.
  assert (∀ i, 0 <= i < 8 → bit_at data (i + 8 * Z.of_nat n) = Z.testbit b (7 - i)) as H.
  { intros i Hi. unfold bit_at. replace (i + 8 * Z.of_nat n) with (i + Z.of_nat n * 8) by lia.
    rewrite Z.div_add, Z.mod_add, Z.div_small, Z.mod_small by lia.
    by rewrite Z.add_0_l, Nat2Z.id, Hb. }
  unfold seqZ. change (Z.to_nat 8) with 8%nat. cbn [seq map fmap list_fmap].
  rewrite !H by lia. done.
Qed.

Lemma bit_at_text pre text post :
  map (bit_at (pre ++ text ++ post)) (seqZ (8 * zlen pre) (8 * zlen text)) = text_bits text.
Proof.
  revert pre. induction text as [|b text IH]; intros pre; [done|].
  replace (8 * zlen (b :: text)) with (8 + 8 * zlen text) by zlia.
  rewrite seqZ_app by (pose proof (zlen_nonneg text); lia). rewrite map_app.
  unfold text_bits. cbn [map concat]. fold (text_bits text). f_equal.
  - unfold zlen. apply bit_at_byte. by rewrite lookup_app_r, Nat.sub_diag by lia.
  - specialize (IH (pre ++ [b])). rewrite <- app_assoc in IH. cbn [app] in IH. rewrite <- IH.
    do 2 f_equal. zlia.
Qed.

(** The Huffman decoder of HPACK is the inverse of the code of its table: a field decodes to
    a text if and only if its bits are the codes of the bytes of that text, one after the other,
    and then at most seven ones of padding.  Everything else is refused; in particular a field has
    at most one reading. *)
Theorem DecodeHpackString_huffman data field encoded text :
  hs_Huffman field = true →
  slice data (hs_Offset field) (hs_Offset field + hs_Length field) = Ok encoded →
  DecodeHpackString data field = Ok (Some text)
  ↔ bytes_ok text ∧ ∃ pad, text_bits encoded = huffman_bits text ++ pad
      ∧ zlen pad <= 7 ∧ forallb id pad = true.
Proof.
  intros Hh Hsl. pose proof (slice_Ok_inv _ _ _ _ Hsl) as (Hr1 & Hr2 & He).
  assert (∃ pre post, data = pre ++ encoded ++ post ∧ zlen pre = hs_Offset field
    ∧ zlen encoded = hs_Length field) as (pre & post & -> & Hpre & Hlen).
  { exists (take (Z.to_nat (hs_Offset field)) data),
      (drop (Z.to_nat (hs_Length field)) (drop (Z.to_nat (hs_Offset field)) data)).
    apply zlen_slice in Hsl as Hz. split_and!; [|rewrite zlen_take; lia|lia].
    rewrite He. replace (_ + _ - _) with (hs_Length field) by lia. by rewrite !take_drop. }
  unfold DecodeHpackString. rewrite Hh. cbn [negb].
  change (huffman_loop (Z.to_nat (hs_Length field * 8)) (pre ++ encoded ++ post) (hs_Offset field * 8) [] 0 0)
    with (huffman_loop (Z.to_nat (hs_Length field * 8)) (pre ++ encoded ++ post) (hs_Offset field * 8) []
            (bits_val []) (zlen (@nil bool))).
  rewrite huffman_loop_bits by zlia. rewrite <- Hpre, <- Hlen.
  replace (Z.of_nat (Z.to_nat (zlen encoded * 8))) with (8 * zlen encoded) by zlia.
  rewrite (Z.mul_comm (zlen pre)), bit_at_text. split.
  - intros [= (s & pad & -> & Hs & Heq & Hpad)%decode_bits_sound]. split; [done|]. by exists pad.
  - intros [Ht (pad & -> & Hl & Hp)]. by rewrite decode_bits_complete.
Qed.

(** ** Frames survive the stream *)

Definition frame_bytes (f : H2Frame) : bytes :=
  AppendFrameHeader [] (hf_Length f) (hf_Type f) (hf_Flags f) (hf_StreamId f) ++ hf_Payload f.

Record frame_ok (f : H2Frame) : Prop := {
  fo_length : hf_Length f = zlen (hf_Payload f);
  fo_width : in_width 24 (hf_Length f);
  fo_stream : in_width 31 (hf_StreamId f)
}.

Lemma byte_of v k : 0 <= k → u8 (Z.land (Z.shiftr v k) 0xff) = (v / 2 ^ k) mod 256.
Proof.
  intros Hk. change 0xff with (Z.ones 8). rewrite Z.land_ones, Z.shiftr_div_pow2 by lia.
  unfold wrap. change (2 ^ 8) with 256. by rewrite Z.mod_mod.
Qed.

Lemma be24 n :
  in_width 24 n →
  Z.lor (Z.lor (Z.shiftl (u8 (Z.land (Z.shiftr n 16) 0xff)) 16)
           (Z.shiftl (u8 (Z.land (Z.shiftr n 8) 0xff)) 8)) (u8 (Z.land n 0xff)) = n.
Proof.
  intros [Hn0 Hn]. change (2 ^ 24) with 16777216 in Hn.
  rewrite <- (Z.shiftr_0_r n) at 3. rewrite !byte_of by lia.
  change (2 ^ 16) with 65536. change (2 ^ 8) with 256. change (2 ^ 0) with 1. rewrite Z.div_1_r.
  rewrite <- Z.lor_assoc.
  assert (0 <= n mod 256 < 256) by (apply Z.mod_pos_bound; lia).
  assert (0 <= (n / 256) mod 256 < 256) by (apply Z.mod_pos_bound; lia).
  rewrite (lor_shiftl_add _ (n mod 256)) by (change (2 ^ 8) with 256; lia).
  rewrite lor_shiftl_add by (change (2 ^ 16) with 65536; change (2 ^ 8) with 256; lia).
  change (2 ^ 16) with 65536. change (2 ^ 8) with 256. Z.to_euclidean_division_equations. lia.
Qed.

Lemma be31 n :
  in_width 31 n →
  Z.lor (Z.lor (Z.lor (Z.shiftl (Z.land (u8 (Z.land (Z.shiftr n 24) 0x7f)) 0x7f) 24)
           (Z.shiftl (u8 (Z.land (Z.shiftr n 16) 0xff)) 16))
           (Z.shiftl (u8 (Z.land (Z.shiftr n 8) 0xff)) 8)) (u8 (Z.land n 0xff)) = n.
Proof.
  intros [Hn0 Hn]. change (2 ^ 31) with 2147483648 in Hn.
  assert (Z.land (u8 (Z.land (Z.shiftr n 24) 0x7f)) 0x7f = n / 2 ^ 24) as ->.
  { change 0x7f with (Z.ones 7). rewrite !Z.land_ones, Z.shiftr_div_pow2 by lia. unfold wrap.
    change (2 ^ 7) with 128. change (2 ^ 8) with 256. change (2 ^ 24) with 16777216.
    Z.to_euclidean_division_equations. lia. }
  rewrite <- (Z.shiftr_0_r n) at 4. rewrite !byte_of by lia.
  change (2 ^ 24) with 16777216. change (2 ^ 16) with 65536. change (2 ^ 8) with 256.
  change (2 ^ 0) with 1. rewrite Z.div_1_r, <- !Z.lor_assoc.
  assert (0 <= n mod 256 < 256) by (apply Z.mod_pos_bound; lia).
  assert (0 <= (n / 256) mod 256 < 256) by (apply Z.mod_pos_bound; lia).
  assert (0 <= (n / 65536) mod 256 < 256) by (apply Z.mod_pos_bound; lia).
  rewrite (lor_shiftl_add _ (n mod 256)) by (change (2 ^ 8) with 256; lia).
  rewrite (lor_shiftl_add _ (_ * 2 ^ 8 + _)) by (change (2 ^ 16) with 65536; change (2 ^ 8) with 256; lia).
  rewrite lor_shiftl_add
    by (change (2 ^ 24) with 16777216; change (2 ^ 16) with 65536; change (2 ^ 8) with 256; lia).
  change (2 ^ 24) with 16777216. change (2 ^ 16) with 65536. change (2 ^ 8) with 256.
  Z.to_euclidean_division_equations. lia.
Qed.

Lemma zlen_h2_frame f : zlen (frame_bytes f) = 9 + zlen (hf_Payload f).
Proof. unfold frame_bytes, AppendFrameHeader. rewrite zlen_app. simpl. change (zlen _) with 9 at 1. done. Qed.

(** The beginning of a frame of which the end has not come. *)
Definition partial (r : bytes) : Prop :=
  zlen r < 9 ∨ ∃ b0 b1 b2 tl, r = b0 :: b1 :: b2 :: tl
    ∧ zlen r < 9 + Z.lor (Z.lor (Z.shiftl b0 16) (Z.shiftl b1 8)) b2.

Lemma rd_mid (pre l post : bytes) i :
  0 <= i < zlen l → rd (pre ++ l ++ post) (zlen pre + i) = rd l i.
Proof.
  intros Hi. rewrite rd_app_r by lia. replace (zlen pre + i - zlen pre) with i by lia.
  by rewrite rd_app_l by lia.
Qed.

Lemma frame_rd f :
  rd (frame_bytes f) 0 = Ok (u8 (Z.land (Z.shiftr (hf_Length f) 16) 0xff))
  ∧ rd (frame_bytes f) 1 = Ok (u8 (Z.land (Z.shiftr (hf_Length f) 8) 0xff))
  ∧ rd (frame_bytes f) 2 = Ok (u8 (Z.land (hf_Length f) 0xff))
  ∧ rd (frame_bytes f) 3 = Ok (hf_Type f) ∧ rd (frame_bytes f) 4 = Ok (hf_Flags f)
  ∧ rd (frame_bytes f) 5 = Ok (u8 (Z.land (Z.shiftr (hf_StreamId f) 24) 0x7f))
  ∧ rd (frame_bytes f) 6 = Ok (u8 (Z.land (Z.shiftr (hf_StreamId f) 16) 0xff))
  ∧ rd (frame_bytes f) 7 = Ok (u8 (Z.land (Z.shiftr (hf_StreamId f) 8) 0xff))
  ∧ rd (frame_bytes f) 8 = Ok (u8 (Z.land (hf_StreamId f) 0xff)).
Proof. done. Qed.

Lemma take_frames_frame todo pre f post frames :
  frame_ok f →
  take_frames (S todo) (pre ++ frame_bytes f ++ post) (zlen pre) frames
  = take_frames todo (pre ++ frame_bytes f ++ post) (zlen (pre ++ frame_bytes f)) (frames ++ [f]).
Proof.
  intros [Hlen Hw Hs]. cbn [take_frames]. pose proof (zlen_h2_frame f) as Hz.
  pose proof (zlen_nonneg (hf_Payload f)). pose proof (zlen_nonneg post).
  assert (zlen (pre ++ frame_bytes f ++ post) = zlen pre + (9 + zlen (hf_Payload f)) + zlen post)
    as Hbuf by (rewrite !zlen_app; lia).
  rewrite Hbuf. rewrite (proj2 (Z.leb_le _ _)) by lia. cbn [negb].
  replace (rd (pre ++ frame_bytes f ++ post) (zlen pre)) with (rd (frame_bytes f) 0)
    by (rewrite <- (rd_mid pre (frame_bytes f) post) by lia; by rewrite Z.add_0_r).
  rewrite !(rd_mid pre (frame_bytes f) post) by lia.
  destruct (frame_rd f) as (-> & -> & -> & -> & -> & -> & -> & -> & ->). cbn [obind]. cbv zeta.
  rewrite be24, be31 by done. rewrite (proj2 (Z.ltb_ge _ _)) by lia.
  assert (slice (pre ++ frame_bytes f ++ post) (zlen pre + 9) (zlen pre + 9 + hf_Length f)
    = Ok (hf_Payload f)) as ->.
  { set (hdr := AppendFrameHeader [] (hf_Length f) (hf_Type f) (hf_Flags f) (hf_StreamId f)).
    replace (pre ++ frame_bytes f ++ post) with ((pre ++ hdr) ++ hf_Payload f ++ post)
      by (unfold frame_bytes; fold hdr; by rewrite <- !app_assoc).
    apply slice_full; rewrite zlen_app; change (zlen hdr) with 9; lia. }
  cbn [obind]. rewrite zlen_app, Hz, <- Hlen. by destruct f.
Qed.

Lemma take_frames_stop todo pre r frames :
  partial r → take_frames todo (pre ++ r) (zlen pre) frames = Ok (frames, zlen pre) ∨ todo = 0%nat ∧ 9 <= zlen r.
Proof.
  intros Hr. destruct (Z.ltb_spec (zlen r) 9) as [Hlt|Hge].
  - left. destruct todo; cbn [take_frames]; rewrite zlen_app, (proj2 (Z.leb_gt _ _)) by lia; done.
  - destruct todo as [|todo]; [by right|left]. destruct Hr as [|(b0 & b1 & b2 & tl & -> & Hr)]; [lia|].
    cbn [take_frames]. rewrite zlen_app, (proj2 (Z.leb_le _ _)) by lia. cbn [negb].
    replace (rd (pre ++ b0 :: b1 :: b2 :: tl) (zlen pre)) with (Ok b0 : outcome Z)
      by (rewrite rd_app_r, Z.sub_diag by lia; done).
    rewrite !rd_app_r by lia. replace (zlen pre + 1 - zlen pre) with 1 by lia.
    replace (zlen pre + 2 - zlen pre) with 2 by lia. cbn [obind rd].
    change (rd (b0 :: b1 :: b2 :: tl) 1) with (Ok b1 : outcome Z).
    change (rd (b0 :: b1 :: b2 :: tl) 2) with (Ok b2 : outcome Z). cbn [obind]. cbv zeta.
    by rewrite (proj2 (Z.ltb_lt _ _)) by lia.
Qed.

(** The frames that are complete, and what is left of the next one. *)
Lemma TakeCompleteFrames_spec frames r :
  Forall frame_ok frames → partial r →
  H2Codec_TakeCompleteFrames (concat (map frame_bytes frames) ++ r) = Ok (frames, r).
Proof.
  intros Hf Hr. unfold H2Codec_TakeCompleteFrames. set (buffer := _ ++ r).
  assert (∀ todo pre done rest, buffer = pre ++ concat (map frame_bytes rest) ++ r →
    Forall frame_ok rest → zlen (concat (map frame_bytes rest) ++ r) <= Z.of_nat todo →
    take_frames todo buffer (zlen pre) done = Ok (done ++ rest, zlen buffer - zlen r)) as Hgo.
  { intros todo. induction todo as [|todo IH]; intros pre acc rest Heq Hrest Hlen;
      destruct rest as [|f rest]; cbn [map concat app] in Heq, Hlen.
    - destruct (take_frames_stop 0 pre r acc Hr) as [H|[_ H]]; [|lia].
      rewrite Heq, H, app_nil_r, zlen_app. do 2 f_equal. lia.
    - rewrite !zlen_app, zlen_h2_frame in Hlen. zlia.
    - destruct (take_frames_stop (S todo) pre r acc Hr) as [H|[H _]]; [|done].
      rewrite Heq, H, app_nil_r, zlen_app. do 2 f_equal. lia.
    - inversion Hrest as [|? ? Hok Hoks]; subst. rewrite <- app_assoc in Heq. rewrite Heq.
      rewrite take_frames_frame by done. rewrite <- Heq. rewrite (IH _ _ rest); [by rewrite <- app_assoc| |done|].
      + rewrite Heq. by rewrite <- app_assoc.
      + rewrite <- app_assoc, zlen_app, zlen_h2_frame in Hlen. zlia. }
  change 0 with (zlen (@nil Z)). rewrite (Hgo (length buffer) [] [] frames); [|done|done|done]. cbn [obind app].
  unfold buffer. rewrite <- (app_nil_r (concat _ ++ r)) at 1. rewrite <- app_assoc.
  rewrite (slice_full (concat (map frame_bytes frames)) r []); [done|..]; rewrite !zlen_app; zlia.
Qed.

(** What the client does with the chunks that it receives: it appends each to what was left and
    takes the frames that are complete. *)
Fixpoint receive_chunks (chunks : list bytes) (buffer : bytes) (frames : list H2Frame)
    : outcome (list H2Frame * bytes) :=
  match chunks with
  | [] => Ok (frames, buffer)
  | chunk :: rest =>
      let! (taken, remaining) := H2Codec_TakeCompleteFrames (buffer ++ chunk) in
      receive_chunks rest remaining (frames ++ taken)
  end.

Lemma partial_prefix d e : partial (d ++ e) → partial d.
Proof.
  intros Hp. destruct (Z.ltb_spec (zlen d) 9) as [|Hge]; [by left|]. right.
  destruct Hp as [Hlt|(b0 & b1 & b2 & tl & Heq & Hlt)]; [rewrite zlen_app in Hlt; zlia|].
  destruct d as [|x0 [|x1 [|x2 d]]]; [zlia..|]. injection Heq as -> -> -> Heq.
  exists b0, b1, b2, d. split; [done|]. rewrite zlen_app in Hlt. zlia.
Qed.

Lemma partial_frame f d e : frame_ok f → frame_bytes f = d ++ e → e ≠ [] → partial d.
Proof.
  intros [Hlen Hw Hs] Heq He. apply (partial_prefix d []). rewrite app_nil_r.
  assert (1 <= zlen e) as He1 by (destruct e; [done|zlia]).
  assert (zlen d + zlen e = 9 + zlen (hf_Payload f)) as Hz by (rewrite <- zlen_app, <- Heq; apply zlen_h2_frame).
  destruct (Z.ltb_spec (zlen d) 9) as [|Hge]; [by left|]. right.
  destruct d as [|x0 [|x1 [|x2 d]]]; [zlia..|]. injection Heq as E0 E1 E2 _.
  exists x0, x1, x2, d. split; [done|].
  assert (Z.lor (Z.lor (Z.shiftl x0 16) (Z.shiftl x1 8)) x2 = hf_Length f) as ->; [|lia].
  rewrite <- E0, <- E1, <- E2. by apply be24.
Qed.

Lemma stream_split frames r d e :
  Forall frame_ok frames → partial r → d ++ e = concat (map frame_bytes frames) ++ r →
  ∃ k x, d = concat (map frame_bytes (take k frames)) ++ x
    ∧ x ++ e = concat (map frame_bytes (drop k frames)) ++ r ∧ partial x.
Proof.
  intros Hf Hr. revert d. induction Hf as [|f frames Hok _ IH]; intros d Heq; cbn [map concat app] in Heq.
  - exists 0%nat, d. split_and!; [done|done|]. apply (partial_prefix d e). by rewrite Heq.
  - rewrite <- app_assoc in Heq. destruct (Z.leb_spec (zlen (frame_bytes f)) (zlen d)) as [Hle|Hgt].
    + destruct (app_split _ _ _ _ Heq Hle) as (d' & -> & Hd'). destruct (IH d' Hd') as (k & x & -> & Hx & Hp).
      exists (S k), x. cbn [take drop map concat]. by rewrite <- app_assoc.
    + exists 0%nat, d. split_and!; [done|cbn [drop map concat]; by rewrite <- app_assoc|].
      symmetry in Heq. destruct (app_split _ _ _ _ Heq) as (z & Hz & _); [lia|].
      apply (partial_frame f d z Hok Hz). intros ->. rewrite app_nil_r in Hz. rewrite Hz in Hgt. lia.
Qed.

(** Whatever the chunks in which they arrive, the frames come out, in order, and once. *)
Lemma receive_chunks_spec chunks buffer frames r acc :
  Forall frame_ok frames → partial r → partial buffer →
  buffer ++ concat chunks = concat (map frame_bytes frames) ++ r →
  receive_chunks chunks buffer acc = Ok (acc ++ frames, r).
Proof.
  revert buffer frames acc. induction chunks as [|chunk chunks IH]; intros buffer frames acc Hf Hr Hb Heq;
    cbn [receive_chunks concat] in *.
  - rewrite app_nil_r in Heq. pose proof (TakeCompleteFrames_spec frames r Hf Hr) as H1.
    pose proof (TakeCompleteFrames_spec [] buffer (Forall_nil_2 _) Hb) as H2. cbn [map concat app] in H2.
    rewrite <- Heq, H2 in H1. injection H1 as <- <-. by rewrite app_nil_r.
  - rewrite app_assoc in Heq.
    destruct (stream_split frames r (buffer ++ chunk) (concat chunks) Hf Hr Heq) as (k & x & Hd & Hx & Hp).
    rewrite Hd, TakeCompleteFrames_spec by (try apply Forall_take; done). cbn [obind].
    rewrite (IH x (drop k frames)); [|by apply Forall_drop|done|done|done].
    by rewrite <- app_assoc, take_drop.
Qed.

(** ** Header blocks survive *)

(** A piece of a header block that gives one field, wherever it stands. *)
Definition decodes (piece : bytes) (header : bytes * bytes) : Prop :=
  piece ≠ [] ∧ ∀ todo pre post result s, ∃ s',
    decode_loop (S todo) (pre ++ piece ++ post) (zlen pre) result s
    = decode_loop todo (pre ++ piece ++ post) (zlen (pre ++ piece)) (result ++ [header]) s'.

Lemma decode_pieces pieces headers todo pre result s :
  Forall2 decodes pieces headers → (length pieces <= todo)%nat →
  ∃ s', decode_loop todo (pre ++ concat pieces) (zlen pre) result s = (Ok (Some (result ++ headers)), s').
Proof.
  intros Hp. revert todo pre result s.
  induction Hp as [|piece header pieces headers [_ Hdec] _ IH]; intros todo pre result s Hl; cbn [concat length] in *.
  - exists s. rewrite !app_nil_r. destruct todo; cbn [decode_loop]; by rewrite Z.ltb_irrefl.
  - destruct todo as [|todo]; [lia|]. destruct (Hdec todo pre (concat pieces) result s) as [s1 ->].
    destruct (IH todo (pre ++ piece) (result ++ [header]) s1) as [s' Hs']; [lia|].
    exists s'. rewrite <- !app_assoc in Hs'. done.
Qed.

Lemma small_length n : 0 <= n <= 126 →
  u8 n = n ∧ Z.land n HpackHuffmanMask = 0 ∧ Z.land n HpackStringLengthPrefixMask = n.
Proof.
  intros Hn.
  assert (forallb (fun n => (u8 n =? n) && (Z.land n HpackHuffmanMask =? 0)
    && (Z.land n HpackStringLengthPrefixMask =? n)) (seqZ 0 127) = true) as H by (vm_compute; reflexivity).
  rewrite forallb_forall in H. specialize (H n). rewrite <- list_elem_of_In, elem_of_seqZ in H.
  specialize (H ltac:(lia)). lia.
Qed.

(** A string as the builders write it. *)
Lemma string_reads pre text post :
  zlen text <= 126 →
  let block := pre ++ [u8 (zlen text)] ++ text ++ post in
  let field := {| hs_Huffman := false; hs_Offset := zlen pre + 1; hs_Length := zlen text |} in
  ReadHpackStringField block (zlen pre) = Ok (Some field, zlen pre + 1 + zlen text)
  ∧ DecodeHpackString block field = Ok (Some text).
Proof.
  intros Hl block field. destruct (small_length (zlen text)) as (Hu & Hh & Hm); [pose proof (zlen_nonneg text); lia|].
  assert (zlen block = zlen pre + (1 + (zlen text + zlen post))) as Hz
    by (unfold block; rewrite !zlen_app; change (zlen [_]) with 1; lia).
  assert (rd block (zlen pre) = Ok (zlen text)) as Hrd.
  { unfold block. rewrite rd_app_r, Z.sub_diag, Hu by lia. done. }
  pose proof (zlen_nonneg text). pose proof (zlen_nonneg post). split.
  - unfold ReadHpackStringField. rewrite (proj2 (Z.leb_gt _ _)) by lia. rewrite Hrd. cbn [obind].
    unfold ReadHpackInteger. rewrite (proj2 (Z.leb_gt _ _)) by lia. rewrite Hrd. cbn [obind]. cbv zeta.
    rewrite Hm, Hh. change HpackStringLengthPrefixMask with 127. rewrite (proj2 (Z.ltb_lt _ _)) by lia.
    cbn [obind]. rewrite (proj2 (Z.ltb_ge _ _)) by lia. done.
  - unfold DecodeHpackString. cbn [hs_Huffman field negb hs_Offset hs_Length].
    assert (block = (pre ++ [u8 (zlen text)]) ++ text ++ post) as Hblock by (unfold block; by rewrite <- app_assoc).
    rewrite Hblock, slice_full; [done|..]; rewrite zlen_app; change (zlen [_]) with 1; lia.
Qed.

Lemma small_index pre first post mask k :
  Z.land first mask = k → k < mask →
  ReadHpackInteger (pre ++ first :: post) (zlen pre) mask = Ok (Some k, zlen pre + 1).
Proof.
  intros Hk Hlt. unfold ReadHpackInteger. rewrite zlen_app, zlen_cons. pose proof (zlen_nonneg post).
  rewrite (proj2 (Z.leb_gt _ _)) by lia. rewrite rd_app_r, Z.sub_diag by lia.
  change (rd (first :: post) 0) with (Ok first). cbn [obind]. cbv zeta. rewrite Hk.
  by rewrite (proj2 (Z.ltb_lt _ _)) by lia.
Qed.

Lemma decode_loop_first todo pre first post result s :
  decode_loop (S todo) (pre ++ first :: post) (zlen pre) result s
  = (if negb (Z.land first HpackIndexedMask =? 0) then
       let* (index, offset) := elift (ReadHpackInteger (pre ++ first :: post) (zlen pre)
                                        HpackIndexedPrefixMask) in
       let* s := eget in
       match index with
       | None => eret None
       | Some index =>
           match headerAt index s with
           | None => eret None
           | Some header => decode_loop todo (pre ++ first :: post) offset (result ++ [header])
           end
       end
     else if negb (Z.land first HpackDynamicTableSizeUpdateMask =? 0)
             && (Z.land first HpackLiteralIncrementalMask =? 0) then
       let* (maximumSize, offset) := elift (ReadHpackInteger (pre ++ first :: post) (zlen pre)
                                              HpackDynamicTableSizeUpdatePrefixMask) in
       match maximumSize with
       | None => eret None
       | Some n =>
           if DefaultDynamicTableSize <? n then eret None else
           emod (hd_set_maximum n) ;;*
           emod evictDynamicEntries ;;*
           decode_loop todo (pre ++ first :: post) offset result
       end
     else
       let* (literal, offset) := decode_literal (pre ++ first :: post) (zlen pre) first in
       match literal with
       | (None, _) => eret None
       | (Some (name, value), add) =>
           (if add : bool then emod (addDynamicEntry name value) else eret tt) ;;*
           decode_loop todo (pre ++ first :: post) offset (result ++ [(name, value)])
       end) s.
Proof.
  cbn [decode_loop]. rewrite zlen_app, zlen_cons. pose proof (zlen_nonneg post).
  rewrite (proj2 (Z.ltb_lt _ _)) by lia. cbn [negb]. unfold ebind at 1. unfold elift at 1.
  rewrite rd_app_r, Z.sub_diag by lia. done.
Qed.

(** An entry of the static table by its number. *)
Lemma indexed_decodes index header :
  0 < index < 62 → HpackStaticHeaders !! Z.to_nat index = Some header →
  Z.land (u8 (Z.lor 0x80 index)) HpackIndexedMask ≠ 0 →
  Z.land (u8 (Z.lor 0x80 index)) HpackIndexedPrefixMask = index →
  decodes [u8 (Z.lor 0x80 index)] header.
Proof.
  intros Hi Hh H1 H2. split; [done|]. intros todo pre post result s. exists s. cbn [app].
  rewrite decode_loop_first, (proj2 (Z.eqb_neq _ _)) by done. cbn [negb].
  unfold ebind at 1. unfold elift at 1.
  rewrite (small_index _ _ _ _ index) by (done || (change HpackIndexedPrefixMask with 127; lia)).
  unfold ebind, eget. unfold headerAt. rewrite (proj2 (Z.eqb_neq _ _)) by lia.
  change (zlen HpackStaticHeaders) with 62. rewrite (proj2 (Z.ltb_lt _ _)) by lia.
  rewrite Hh. by rewrite zlen_app.
Qed.

(** A literal whose name is in the static table; it is remembered. *)
Lemma literal_decodes first index name dummy value :
  0 < index < 62 → HpackStaticHeaders !! Z.to_nat index = Some (name, dummy) → zlen value <= 126 →
  Z.land first HpackIndexedMask = 0 → Z.land first HpackLiteralIncrementalMask ≠ 0 →
  Z.land first HpackLiteralIncrementalPrefixMask = index →
  decodes ([first; u8 (zlen value)] ++ value) (name, value).
Proof.
  intros Hi Hh Hl H1 H2 H3. split; [done|]. intros todo pre post result s.
  exists (addDynamicEntry name value s). cbn [app].
  rewrite decode_loop_first, H1, (proj2 (Z.eqb_neq (Z.land first HpackLiteralIncrementalMask) 0)) by done.
  rewrite andb_false_r. cbn [Z.eqb negb]. unfold ebind at 1.
  destruct (string_reads (pre ++ [first]) value post Hl) as [Hread Hdec].
  rewrite <- !app_assoc in Hread, Hdec. cbn [app] in Hread, Hdec.
  assert (zlen (pre ++ [first]) = zlen pre + 1) as Hz by zlia. rewrite Hz in Hread, Hdec.
  unfold decode_literal. cbv zeta.
  rewrite (proj2 (Z.eqb_neq (Z.land first HpackLiteralIncrementalMask) 0)) by done. cbn [negb].
  unfold ebind at 1. unfold elift at 1.
  rewrite (small_index _ _ _ _ index) by (done || (change HpackLiteralIncrementalPrefixMask with 63; lia)).
  unfold ebind at 1, eget. unfold ebind at 1. unfold elift at 1.
  rewrite (proj2 (Z.eqb_neq _ _)) by lia. unfold headerAt. rewrite (proj2 (Z.eqb_neq _ _)) by lia.
  change (zlen HpackStaticHeaders) with 62. rewrite (proj2 (Z.ltb_lt _ _)) by lia. rewrite Hh.
  cbn [fmap option_fmap option_map fst]. unfold ebind at 1. unfold elift at 1. rewrite Hread.
  unfold ebind at 1. unfold elift at 1. rewrite Hdec. cbn [fmap option_fmap option_map].
  unfold eret. unfold ebind, emod. f_equal. rewrite zlen_app. zlia.
Qed.

(** A literal with a new name. *)
Lemma new_decodes name value :
  zlen name <= 126 → zlen value <= 126 →
  decodes ([0x00; u8 (zlen name)] ++ name ++ [u8 (zlen value)] ++ value) (name, value).
Proof.
  intros Hn Hv. split; [done|]. intros todo pre post result s. exists s. cbn [app].
  rewrite decode_loop_first, !Z.land_0_l. cbn [Z.eqb negb andb]. unfold ebind at 1.
  destruct (string_reads (pre ++ [0x00]) name ([u8 (zlen value)] ++ value ++ post) Hn) as [Hr1 Hd1].
  destruct (string_reads (pre ++ [0x00; u8 (zlen name)] ++ name) value post Hv) as [Hr2 Hd2].
  assert (zlen (pre ++ [0x00]) = zlen pre + 1) as Hz1 by zlia.
  assert (zlen (pre ++ [0x00; u8 (zlen name)] ++ name) = zlen pre + 1 + 1 + zlen name) as Hz2
    by (rewrite !zlen_app; change (zlen [_; _]) with 2; lia).
  rewrite Hz1 in Hr1, Hd1. rewrite Hz2 in Hr2, Hd2.
  repeat rewrite <- app_assoc in Hr1, Hd1, Hr2, Hd2. cbn [app] in Hr1, Hd1, Hr2, Hd2.
  unfold decode_literal. cbv zeta. rewrite Z.land_0_l. cbn [Z.eqb negb].
  unfold ebind at 1. unfold elift at 1. rewrite (small_index _ _ _ _ 0) by done.
  unfold ebind at 1, eget. unfold ebind at 1. unfold elift at 1. cbn [Z.eqb].
  rewrite <- !app_assoc. cbn [app]. rewrite Hr1. cbn [obind]. rewrite Hd1. cbn [obind].
  unfold ebind at 1. unfold elift at 1. rewrite Hr2. unfold ebind at 1. unfold elift at 1. rewrite Hd2.
  cbn [fmap option_fmap option_map]. unfold eret, ebind. f_equal. rewrite !zlen_app, !zlen_cons, !zlen_app. zlia.
Qed.

Definition request_headers (method path authority contentType : bytes)
    (extraHeaders : list (bytes * bytes)) : H2Headers :=
  [(lit ":method", method); (lit ":path", path); (lit ":scheme", lit "http");
   (lit ":authority", authority); (lit "content-type", contentType)] ++ extraHeaders.

(** A text whose length fits in the seven bits of a prefix. *)
Definition short (text : bytes) : Prop := zlen text <= 126.

Lemma AppendHpackIndexed_pieces out pieces index :
  index <= 127 → out = concat pieces →
  AppendHpackIndexed out index = Ok (concat (pieces ++ [[u8 (Z.lor 0x80 index)]])).
Proof.
  intros Hi ->. unfold AppendHpackIndexed. rewrite (proj2 (Z.ltb_ge _ _)) by lia.
  rewrite concat_app. cbn [concat]. by rewrite !app_nil_r.
Qed.

Lemma AppendHpackLiteralIndexed_pieces out pieces index value :
  index <= 63 → short value → out = concat pieces →
  AppendHpackLiteralIndexed out index value
  = Ok (concat (pieces ++ [[u8 (Z.lor 0x40 index); u8 (zlen value)] ++ value])).
Proof.
  intros Hi Hv ->. unfold short in Hv. unfold AppendHpackLiteralIndexed.
  rewrite (proj2 (Z.ltb_ge 63 _)), (proj2 (Z.ltb_ge 127 _)) by lia. rewrite concat_app. cbn [orb concat]. by rewrite app_nil_r.
Qed.

Lemma append_extra_pieces extra pieces :
  Forall (fun h => short h.1 ∧ short h.2) extra →
  ∃ more, append_extra (concat pieces) extra = Ok (concat (pieces ++ more)) ∧ Forall2 decodes more extra.
Proof.
  intros Hs. revert pieces. induction Hs as [|[name value] extra [Hn Hv] _ IH]; intros pieces.
  - exists []. rewrite app_nil_r. by split; [|constructor].
  - cbn [append_extra fst snd] in *. unfold short in Hn, Hv. unfold AppendHpackLiteralNew.
    rewrite (proj2 (Z.ltb_ge 127 (zlen name))), (proj2 (Z.ltb_ge 127 (zlen value))) by lia. cbn [orb obind].
    set (piece := [0x00; u8 (zlen name)] ++ name ++ [u8 (zlen value)] ++ value).
    destruct (IH (pieces ++ [piece])) as (more & Hmore & Hdec).
    exists (piece :: more). rewrite concat_app in Hmore. cbn [concat] in Hmore. rewrite app_nil_r in Hmore.
    split; [rewrite Hmore; by rewrite <- app_assoc|]. constructor; [by apply new_decodes|done].
Qed.

(** The block that a request is built of is made of pieces that decode to its fields. *)
Lemma build_block_pieces method path authority contentType extra :
  short method → short path → short authority → short contentType →
  Forall (fun h => short h.1 ∧ short h.2) extra →
  ∃ pieces, build_block method path authority contentType extra = Ok (concat pieces)
    ∧ Forall2 decodes pieces (request_headers method path authority contentType extra).
Proof.
  intros Hm Hp Ha Hc He. unfold build_block.
  assert (∃ p, (if bool_decide (method = lit "POST") then AppendHpackIndexed [] 3
                else if bool_decide (method = lit "GET") then AppendHpackIndexed [] 2
                else AppendHpackLiteralIndexed [] 2 method) = Ok (concat [p])
    ∧ decodes p (lit ":method", method)) as (p1 & -> & D1).
  { case_bool_decide as Hpost; [|case_bool_decide as Hget].
    - eexists. split; [by apply (AppendHpackIndexed_pieces [] [])|]. rewrite Hpost. by apply indexed_decodes.
    - eexists. split; [by apply (AppendHpackIndexed_pieces [] [])|]. rewrite Hget. by apply indexed_decodes.
    - eexists. split; [by apply (AppendHpackLiteralIndexed_pieces [] [])|].
      by apply (literal_decodes _ 2 _ (lit "GET")). }
  cbn [obind].
  assert (∃ p, (if bool_decide (path = lit "/") then AppendHpackIndexed (concat [p1]) 4
                else AppendHpackLiteralIndexed (concat [p1]) 4 path) = Ok (concat [p1; p])
    ∧ decodes p (lit ":path", path)) as (p2 & -> & D2).
  { case_bool_decide as Hroot.
    - eexists. split; [by apply (AppendHpackIndexed_pieces _ [p1])|]. rewrite Hroot. by apply indexed_decodes.
    - eexists. split; [by apply (AppendHpackLiteralIndexed_pieces _ [p1])|].
      by apply (literal_decodes _ 4 _ (lit "/")). }
  cbn [obind]. rewrite (AppendHpackIndexed_pieces _ [p1; p2] 6) by done. cbn [obind app].
  do 2 (erewrite AppendHpackLiteralIndexed_pieces; [|done|done|reflexivity]; cbn [obind app]).
  match goal with |- context [append_extra (concat ?pieces) _] =>
    destruct (append_extra_pieces extra pieces He) as (more & -> & Dmore) end. eexists. split; [done|].
  unfold request_headers. cbn [app].
  do 2 (apply Forall2_cons_2; [done|]). apply Forall2_cons_2; [by apply (indexed_decodes 6)|].
  apply Forall2_cons_2; [by apply (literal_decodes _ 1 _ [])|].
  by apply Forall2_cons_2; [apply (literal_decodes _ 31 _ [])|].
Qed.

Lemma length_pieces pieces headers :
  Forall2 decodes pieces headers → (length pieces <= length (concat pieces))%nat.
Proof.
  induction 1 as [|piece header pieces headers [Hne _] _ IH]; cbn [concat length]; [done|].
  rewrite length_app. destruct piece; [done|]. cbn [length]. lia.
Qed.

(** C28: a request that is built arrives.  When its fields have at most 126 bytes the header frame
    is built; whatever the chunks in which the bytes of that frame come, they give one frame with
    the stream and the flags, and every decoder, whatever it has read before, takes from its payload
    the method, path, scheme, authority, content type and further headers that were given. *)
Theorem H2Codec_BuildHeaders_received method path authority contentType extra streamId (endStream : bool) :
  short method → short path → short authority → short contentType →
  Forall (fun h => short h.1 ∧ short h.2) extra → in_width 31 streamId →
  ∃ block, build_block method path authority contentType extra = Ok block
  ∧ (∀ s, ∃ s', H2HeaderDecoder_Decode block s
       = (Ok (Some (request_headers method path authority contentType extra)), s'))
  ∧ (zlen block < 2 ^ 24 → ∃ frame,
       H2Codec_BuildHeaders method path authority contentType extra streamId endStream = Ok frame
       ∧ ∀ chunks, concat chunks = frame →
         receive_chunks chunks [] []
         = Ok ([{| hf_Length := zlen block; hf_Type := Frame_Headers;
                   hf_Flags := if endStream then 0x05 else 0x04;
                   hf_StreamId := streamId; hf_Payload := block |}], [])).
Proof.
  intros Hm Hp Ha Hc He Hs.
  destruct (build_block_pieces method path authority contentType extra) as (pieces & Hb & Hdec); [done..|].
  exists (concat pieces). split_and!; [done|..].
  - intros s. apply (decode_pieces pieces _ (length (concat pieces)) [] [] s Hdec), (length_pieces _ _ Hdec).
  - intros Hlen. unfold H2Codec_BuildHeaders. rewrite Hb. cbn [obind]. eexists. split; [done|].
    intros chunks Hchunks. pose proof (zlen_nonneg (concat pieces)).
    set (f := {| hf_Length := _ |}). apply (receive_chunks_spec chunks [] [f] [] []).
    + constructor; [|done]. by split.
    + by left.
    + by left.
    + rewrite Hchunks, app_nil_r. cbn [map concat app]. rewrite app_nil_r. unfold frame_bytes. cbn [f].
      f_equal. unfold f. cbn [hf_Length hf_Type hf_Flags hf_StreamId]. rewrite wrap_id by (split; lia).
      by destruct endStream.
Qed.

(** A number that fills its prefix goes on in the next byte; here that is the last one. *)
Lemma integer_continues data offset mask c :
  0 <= offset → offset + 1 < zlen data → 0 <= mask < 256 → rd data offset = Ok mask →
  rd data (offset + 1) = Ok c → 0 <= c < 128 →
  ReadHpackInteger data offset mask = Ok (Some (mask + c), offset + 2).
Proof.
  intros Ho Hlt Hm H0 H1 Hc. unfold ReadHpackInteger. rewrite (proj2 (Z.leb_gt _ _)), H0 by lia.
  cbn [obind]. cbv zeta. rewrite Z.land_diag, Z.ltb_irrefl.
  destruct (length data) as [|n] eqn:El; [unfold zlen in Hlt; lia|]. cbn [hpack_integer_loop].
  rewrite (proj2 (Z.ltb_lt (offset + 1) _)), H1 by lia. cbn [negb obind]. cbv zeta.
  assert (Z.land c 0x7f = c ∧ Z.land c 0x80 = 0) as [-> ->].
  { split; [change 0x7f with (Z.ones 7); rewrite Z.land_ones, Z.mod_small; lia|].
    apply Z.bits_inj'. intros k Hk. rewrite Z.land_spec, Z.bits_0. change 0x80 with (2 ^ 7).
    rewrite Z.pow2_bits_eqb by lia. destruct (Z.eqb_spec 7 k) as [<-|]; [|apply andb_false_r].
    rewrite andb_true_r. apply (in_width_high 7); unfold in_width; lia. }
  rewrite Z.shiftr_0_r, Z.shiftl_0_r. change (32 <=? 0) with false.
  rewrite (proj2 (Z.ltb_ge _ _)) by lia. cbn [orb Z.eqb]. rewrite !wrap_id by (rewrite ?wrap_id; unfold in_width; lia).
  do 2 f_equal. lia.
Qed.

(** A length of exactly 127 is not one byte.  The builders accept it and write it as one, but
    a reader takes the byte 127 as the beginning of a longer number: it takes the first byte of the
    text for the rest of the length, and reads another text, or none. *)
Theorem AppendHpackLiteral_127 out index c text post :
  0 < index <= 62 → 0 <= c < 128 → zlen (c :: text) = 127 →
  ∃ block, AppendHpackLiteralIndexed out index (c :: text) = Ok block
  ∧ block = (out ++ [u8 (Z.lor 0x40 index)]) ++ [0x7f] ++ c :: text
  ∧ ∃ field offset, ReadHpackStringField (block ++ post) (zlen out + 1) = Ok (field, offset)
      ∧ ∀ f, field = Some f → hs_Offset f = zlen out + 3 ∧ hs_Length f = 127 + c.
Proof.
  intros Hi Hc Hl. eexists. split; [|split; [reflexivity|]].
  - unfold AppendHpackLiteralIndexed. rewrite Hl, (proj2 (Z.ltb_ge 63 _)) by lia. cbn [Z.ltb Z.compare orb].
    by rewrite <- app_assoc.
  - set (pre := out ++ [_]). set (block := _ ++ post).
    assert (zlen pre = zlen out + 1) as Hpre by (unfold pre; zlia).
    assert (block = pre ++ 0x7f :: c :: text ++ post) as Hblock by (unfold block; by rewrite <- app_assoc).
    assert (rd block (zlen pre) = Ok 0x7f) as H0 by (by rewrite Hblock, rd_app_r, Z.sub_diag by lia).
    assert (rd block (zlen pre + 1) = Ok c) as H1.
    { rewrite Hblock, rd_app_r by lia. by replace (zlen pre + 1 - zlen pre) with 1 by lia. }
    assert (zlen pre + 128 <= zlen block) as Hz.
    { rewrite Hblock, zlen_app, !zlen_cons, zlen_app. rewrite zlen_cons in Hl. pose proof (zlen_nonneg post). lia. }
    rewrite <- Hpre. unfold ReadHpackStringField. pose proof (zlen_nonneg pre).
    rewrite (proj2 (Z.leb_gt _ _)), H0 by lia. cbn [obind].
    rewrite (integer_continues _ _ _ c) by (done || (change HpackStringLengthPrefixMask with 127; lia)).
    cbn [obind]. destruct (_ <? _); do 2 eexists; (split; [done|]); [done|].
    intros f [= <-]. cbn [hs_Offset hs_Length]. change HpackStringLengthPrefixMask with 127. split; lia.
Qed.

(** ** Witnesses *)

Lemma H2HeaderDecoder_bounded_witness :
  let s := decoder_run [[0x48; 0x82; 0x64; 0x02]] in
  hd_dynamicTableSize s = 42 ∧ (∃ headers, (H2HeaderDecoder_Decode [0xbe] s).1 = Ok headers)
  ∧ hd_dynamicTableSize s = table_size (hd_dynamicTable s)
  ∧ hd_dynamicTableSize s <= hd_maximumDynamicTableSize s <= 4096
  ∧ zlen (hd_dynamicTable s) <= 128.
Proof.
  split; [vm_compute; reflexivity|].
  apply (H2HeaderDecoder_bounded [[0x48; 0x82; 0x64; 0x02]] [0xbe]); repeat constructor; done.
Defined.

Lemma DecodeHpackString_huffman_witness :
  let field := {| hs_Huffman := true; hs_Offset := 1; hs_Length := 2 |} in
  slice [0x82; 0x64; 0x02] 1 3 = Ok [0x64; 0x02]
  ∧ (DecodeHpackString [0x82; 0x64; 0x02] field = Ok (Some (lit "302"))
     ↔ bytes_ok (lit "302") ∧ ∃ pad, text_bits [0x64; 0x02] = huffman_bits (lit "302") ++ pad
         ∧ zlen pad <= 7 ∧ forallb id pad = true).
Proof.
  split; [reflexivity|].
  apply (DecodeHpackString_huffman [0x82; 0x64; 0x02] {| hs_Huffman := true; hs_Offset := 1; hs_Length := 2 |}
           [0x64; 0x02] (lit "302")); reflexivity.
Defined.

Lemma H2Codec_BuildHeaders_received_witness :
  ∃ block, build_block (lit "GET") (lit "/key") (lit "a") (lit "b") [(lit "c", lit "d")] = Ok block
  ∧ (∀ s, ∃ s', H2HeaderDecoder_Decode block s
       = (Ok (Some (request_headers (lit "GET") (lit "/key") (lit "a") (lit "b") [(lit "c", lit "d")])), s'))
  ∧ (zlen block < 2 ^ 24 → ∃ frame,
       H2Codec_BuildHeaders (lit "GET") (lit "/key") (lit "a") (lit "b") [(lit "c", lit "d")] 1 true = Ok frame
       ∧ ∀ chunks, concat chunks = frame →
         receive_chunks chunks [] []
         = Ok ([{| hf_Length := zlen block; hf_Type := Frame_Headers; hf_Flags := 0x05;
                   hf_StreamId := 1; hf_Payload := block |}], [])).
Proof.
  apply (H2Codec_BuildHeaders_received (lit "GET") (lit "/key") (lit "a") (lit "b") [(lit "c", lit "d")] 1 true);
    repeat constructor; done.
Defined.

Lemma AppendHpackLiteral_127_witness :
  ∃ block, AppendHpackLiteralIndexed [] 4 (47 :: repeat 97 126) = Ok block
  ∧ block = [0x44] ++ [0x7f] ++ 47 :: repeat 97 126
  ∧ ∃ field offset, ReadHpackStringField (block ++ []) 1 = Ok (field, offset)
      ∧ ∀ f, field = Some f → hs_Offset f = 3 ∧ hs_Length f = 174.
Proof. apply (AppendHpackLiteral_127 [] 4 47 (repeat 97 126) []); [lia|lia|reflexivity]. Defined.
