(* ===== verification/ControlMap.v ===== *)
(** * The network map of the control server

    control/client/NetworkMapParser.cpp (a full map and the updates that follow it),
    control/client/CapabilityFilters.cpp and types/netmap/Capabilities.cpp (the grants of the packet
    filter and the capabilities that peers have by them), control/client/SelfAddresses.cpp and
    control/client/MapStreamResponse.cpp (the framing of the maps of a stream).  A text is parsed by
    [JsonText]; the clock is an argument; the parser of IPv6 texts is that of [Net]. *)

From Stdlib Require Import Sorted.
From stdpp Require Import gmap.
From S2P Require Import Prelude Text StdMap Json Net Packet Dns NetMap H2.

(** ** Data *)

Record UserProfile := {
  up_Id : Z;
  up_LoginName : bytes;
  up_DisplayName : bytes;
  up_ProfilePicUrl : bytes
}.

(** All members of a [PeerConfig]; [NetMap] has those that routing reads. *)
Record FullPeer := {
  fp_nodeId : Z;
  fp_ownerId : Z;
  fp_name : bytes;
  fp_address : bytes;
  fp_addresses : list bytes;
  fp_key : bytes;
  fp_discoKey : bytes;
  fp_endpoints : list bytes;
  fp_allowedPrefixes : list Ipv4Prefix;
  fp_derpRegion : Z;
  fp_derpCode : bytes;
  fp_derpHost : bytes;
  fp_operatingSystem : bytes;
  fp_clientVersion : bytes;
  fp_owner : bytes;
  fp_peerApi4Port : Z;
  fp_capabilities : list bytes;
  fp_peerApi6Port : Z;
  fp_wireIngress : bool;
  fp_ingressEnabled : bool;
  fp_online : bool;
  fp_exitNodeOption : bool;
  fp_lastSeen : bytes;
  fp_keyExpiry : bytes
}.

Record CapabilityPresenceGrant := {
  cg_Sources : list IpRange;
  cg_Destinations : list IpRange;
  cg_Names : list bytes
}.

(** The members of a [NetworkConfig], in groups. *)
Record SelfConfig := {
  sf_nodeId : Z;
  sf_key : bytes;
  sf_address : bytes;
  sf_addresses : list bytes;
  sf_name : bytes;
  sf_machineAuthorized : bool;
  sf_magicDnsDomain : bytes;
  sf_capabilities : list bytes;
  sf_clientVersion : bytes;
  sf_peerApi4Port : Z;
  sf_peerApi6Port : Z;
  sf_wireIngress : bool;
  sf_ingressEnabled : bool
}.

Record AccountConfig := {
  ac_tailnetDisplayName : bytes;
  ac_name : bytes;
  ac_displayName : bytes;
  ac_profilePicUrl : bytes
}.

Record DnsConfig := {
  dn_resolver : bytes;
  dn_domains : list bytes;
  dn_certDomains : list bytes;
  dn_defaultResolvers : list bytes;
  dn_routes : list DnsRoute
}.

Record DerpConfig := {
  dp_region : Z;
  dp_host : bytes;
  dp_code : bytes;
  dp_stunHost : bytes;
  dp_stunPort : Z
}.

Record FullConfig := {
  fc_self : SelfConfig;
  fc_filters : list (bytes * list CapabilityPresenceGrant);
  fc_domain : bytes;
  fc_account : AccountConfig;
  fc_dns : DnsConfig;
  fc_derp : DerpConfig;
  fc_userProfiles : list UserProfile;
  fc_peers : list FullPeer;
  fc_removedPeerNodeIds : list Z
}.

Definition FullConfig_default : FullConfig := {|
  fc_self := {| sf_nodeId := 0; sf_key := []; sf_address := []; sf_addresses := []; sf_name := [];
                sf_machineAuthorized := false; sf_magicDnsDomain := []; sf_capabilities := [];
                sf_clientVersion := []; sf_peerApi4Port := 0; sf_peerApi6Port := 0;
                sf_wireIngress := false; sf_ingressEnabled := false |};
  fc_filters := []; fc_domain := [];
  fc_account := {| ac_tailnetDisplayName := []; ac_name := []; ac_displayName := []; ac_profilePicUrl := [] |};
  fc_dns := {| dn_resolver := []; dn_domains := []; dn_certDomains := []; dn_defaultResolvers := [];
               dn_routes := [] |};
  fc_derp := {| dp_region := 0; dp_host := []; dp_code := []; dp_stunHost := []; dp_stunPort := 3478 |};
  fc_userProfiles := []; fc_peers := []; fc_removedPeerNodeIds := [] |}.

(** *** Setters *)

Definition fp_with (p : FullPeer) key discoKey endpoints region code host owner capabilities online lastSeen
    keyExpiry : FullPeer := {|
  fp_nodeId := fp_nodeId p; fp_ownerId := fp_ownerId p; fp_name := fp_name p; fp_address := fp_address p;
  fp_addresses := fp_addresses p; fp_key := key; fp_discoKey := discoKey; fp_endpoints := endpoints;
  fp_allowedPrefixes := fp_allowedPrefixes p; fp_derpRegion := region; fp_derpCode := code;
  fp_derpHost := host; fp_operatingSystem := fp_operatingSystem p; fp_clientVersion := fp_clientVersion p;
  fp_owner := owner; fp_peerApi4Port := fp_peerApi4Port p; fp_capabilities := capabilities;
  fp_peerApi6Port := fp_peerApi6Port p; fp_wireIngress := fp_wireIngress p;
  fp_ingressEnabled := fp_ingressEnabled p; fp_online := online; fp_exitNodeOption := fp_exitNodeOption p;
  fp_lastSeen := lastSeen; fp_keyExpiry := keyExpiry |}.
Definition fp_set_derp region code host p :=
  fp_with p (fp_key p) (fp_discoKey p) (fp_endpoints p) region code host (fp_owner p) (fp_capabilities p)
    (fp_online p) (fp_lastSeen p) (fp_keyExpiry p).
Definition fp_set_keys key discoKey p :=
  fp_with p key discoKey (fp_endpoints p) (fp_derpRegion p) (fp_derpCode p) (fp_derpHost p) (fp_owner p)
    (fp_capabilities p) (fp_online p) (fp_lastSeen p) (fp_keyExpiry p).
Definition fp_set_endpoints endpoints p :=
  fp_with p (fp_key p) (fp_discoKey p) endpoints (fp_derpRegion p) (fp_derpCode p) (fp_derpHost p) (fp_owner p)
    (fp_capabilities p) (fp_online p) (fp_lastSeen p) (fp_keyExpiry p).
Definition fp_set_owner owner p :=
  fp_with p (fp_key p) (fp_discoKey p) (fp_endpoints p) (fp_derpRegion p) (fp_derpCode p) (fp_derpHost p) owner
    (fp_capabilities p) (fp_online p) (fp_lastSeen p) (fp_keyExpiry p).
Definition fp_set_capabilities capabilities p :=
  fp_with p (fp_key p) (fp_discoKey p) (fp_endpoints p) (fp_derpRegion p) (fp_derpCode p) (fp_derpHost p)
    (fp_owner p) capabilities (fp_online p) (fp_lastSeen p) (fp_keyExpiry p).
Definition fp_set_times online lastSeen keyExpiry p :=
  fp_with p (fp_key p) (fp_discoKey p) (fp_endpoints p) (fp_derpRegion p) (fp_derpCode p) (fp_derpHost p)
    (fp_owner p) (fp_capabilities p) online lastSeen keyExpiry.

Definition fc_with self filters domain account dns derp profiles peers removed : FullConfig := {|
  fc_self := self; fc_filters := filters; fc_domain := domain; fc_account := account; fc_dns := dns;
  fc_derp := derp; fc_userProfiles := profiles; fc_peers := peers; fc_removedPeerNodeIds := removed |}.
Definition fc_set_self self c :=
  fc_with self (fc_filters c) (fc_domain c) (fc_account c) (fc_dns c) (fc_derp c) (fc_userProfiles c) (fc_peers c)
    (fc_removedPeerNodeIds c).
Definition fc_set_filters filters c :=
  fc_with (fc_self c) filters (fc_domain c) (fc_account c) (fc_dns c) (fc_derp c) (fc_userProfiles c) (fc_peers c)
    (fc_removedPeerNodeIds c).
Definition fc_set_domain domain c :=
  fc_with (fc_self c) (fc_filters c) domain (fc_account c) (fc_dns c) (fc_derp c) (fc_userProfiles c) (fc_peers c)
    (fc_removedPeerNodeIds c).
Definition fc_set_account account c :=
  fc_with (fc_self c) (fc_filters c) (fc_domain c) account (fc_dns c) (fc_derp c) (fc_userProfiles c) (fc_peers c)
    (fc_removedPeerNodeIds c).
Definition fc_set_dns dns c :=
  fc_with (fc_self c) (fc_filters c) (fc_domain c) (fc_account c) dns (fc_derp c) (fc_userProfiles c) (fc_peers c)
    (fc_removedPeerNodeIds c).
Definition fc_set_derp derp c :=
  fc_with (fc_self c) (fc_filters c) (fc_domain c) (fc_account c) (fc_dns c) derp (fc_userProfiles c) (fc_peers c)
    (fc_removedPeerNodeIds c).
Definition fc_set_profiles profiles c :=
  fc_with (fc_self c) (fc_filters c) (fc_domain c) (fc_account c) (fc_dns c) (fc_derp c) profiles (fc_peers c)
    (fc_removedPeerNodeIds c).
Definition fc_set_peers peers c :=
  fc_with (fc_self c) (fc_filters c) (fc_domain c) (fc_account c) (fc_dns c) (fc_derp c) (fc_userProfiles c) peers
    (fc_removedPeerNodeIds c).
Definition fc_set_removed removed c :=
  fc_with (fc_self c) (fc_filters c) (fc_domain c) (fc_account c) (fc_dns c) (fc_derp c) (fc_userProfiles c)
    (fc_peers c) removed.

Definition sf_with (s : SelfConfig) nodeId key address addresses name authorized magic capabilities : SelfConfig := {|
  sf_nodeId := nodeId; sf_key := key; sf_address := address; sf_addresses := addresses; sf_name := name;
  sf_machineAuthorized := authorized; sf_magicDnsDomain := magic; sf_capabilities := capabilities;
  sf_clientVersion := sf_clientVersion s; sf_peerApi4Port := sf_peerApi4Port s;
  sf_peerApi6Port := sf_peerApi6Port s; sf_wireIngress := sf_wireIngress s;
  sf_ingressEnabled := sf_ingressEnabled s |}.
Definition sf_set_identity nodeId key name s :=
  sf_with s nodeId key (sf_address s) (sf_addresses s) name (sf_machineAuthorized s) (sf_magicDnsDomain s)
    (sf_capabilities s).
Definition sf_set_addresses address addresses s :=
  sf_with s (sf_nodeId s) (sf_key s) address addresses (sf_name s) (sf_machineAuthorized s) (sf_magicDnsDomain s)
    (sf_capabilities s).
Definition sf_set_authorized authorized s :=
  sf_with s (sf_nodeId s) (sf_key s) (sf_address s) (sf_addresses s) (sf_name s) authorized (sf_magicDnsDomain s)
    (sf_capabilities s).
Definition sf_set_magic magic s :=
  sf_with s (sf_nodeId s) (sf_key s) (sf_address s) (sf_addresses s) (sf_name s) (sf_machineAuthorized s) magic
    (sf_capabilities s).
Definition sf_set_capabilities capabilities s :=
  sf_with s (sf_nodeId s) (sf_key s) (sf_address s) (sf_addresses s) (sf_name s) (sf_machineAuthorized s)
    (sf_magicDnsDomain s) capabilities.
Definition sf_set_host version api4 api6 wire ingress (s : SelfConfig) : SelfConfig := {|
  sf_nodeId := sf_nodeId s; sf_key := sf_key s; sf_address := sf_address s; sf_addresses := sf_addresses s;
  sf_name := sf_name s; sf_machineAuthorized := sf_machineAuthorized s; sf_magicDnsDomain := sf_magicDnsDomain s;
  sf_capabilities := sf_capabilities s; sf_clientVersion := version; sf_peerApi4Port := api4;
  sf_peerApi6Port := api6; sf_wireIngress := wire; sf_ingressEnabled := ingress |}.

(** A change of the node's own part of the configuration. *)
Definition mod_self (f : SelfConfig → SelfConfig) : eff FullConfig unit :=
  emod (fun c => fc_set_self (f (fc_self c)) c).
Definition mod_account (f : AccountConfig → AccountConfig) : eff FullConfig unit :=
  emod (fun c => fc_set_account (f (fc_account c)) c).
Definition mod_dns (f : DnsConfig → DnsConfig) : eff FullConfig unit :=
  emod (fun c => fc_set_dns (f (fc_dns c)) c).
Definition mod_derp (f : DerpConfig → DerpConfig) : eff FullConfig unit :=
  emod (fun c => fc_set_derp (f (fc_derp c)) c).

(** ** Texts *)

Definition is_space (c : Z) : bool := (c =? 32) || ((9 <=? c) && (c <=? 13)).

Fixpoint skip_spaces (text : bytes) : bytes :=
  match text with
  | c :: rest => if is_space c then skip_spaces rest else text
  | [] => []
  end.

Definition chr_plus : Z := 43.

(** The sign and the digits that [std::strtol] reads. *)
Definition signed_digits (text : bytes) : bool * bytes :=
  match skip_spaces text with
  | c :: rest =>
      if c =? chr_dash then (true, (span_digits rest).1)
      else if c =? chr_plus then (false, (span_digits rest).1)
      else (false, (span_digits (c :: rest)).1)
  | [] => (false, [])
  end.

(** [std::stoi] *)
Definition stoi (text : bytes) : outcome Z :=
  let '(negative, digits) := signed_digits text in
  if bool_decide (digits = []) then Throw (InvalidArgument "stoi") else
  let value := if negative then - digits_val digits else digits_val digits in
  if (value <? - 2 ^ 31) || (2 ^ 31 <=? value) then Throw (OutOfRange "stoi") else Ok value.

(** [std::stoull], which negates modulo 2^64. *)
Definition stoull (text : bytes) : outcome Z :=
  let '(negative, digits) := signed_digits text in
  if bool_decide (digits = []) then Throw (InvalidArgument "stoull") else
  if 2 ^ 64 <=? digits_val digits then Throw (OutOfRange "stoull") else
  Ok (u64 (if negative then - digits_val digits else digits_val digits)).

Definition chr_at : Z := 64.

(** [text.substr(0, text.find('/'))] *)
Definition before_slash (text : bytes) : bytes :=
  match find_char chr_slash text with Some i => take i text | None => text end.

Definition TrimTrailingDot (value : bytes) : bytes := pop_dot value.

Definition MagicDnsDomainFromNodeName (nodeName : bytes) : bytes :=
  let name := TrimTrailingDot nodeName in
  match find_char chr_dot name with
  | None => []
  | Some dot => if zlen name <=? Z.of_nat dot + 1 then [] else drop (S dot) name
  end.

Definition EndpointPreference (endpoint : bytes) : Z :=
  match Endpoint_TryParse endpoint with
  | None => 100
  | Some parsed => if Ipv4Address_IsPrivate (ep_address parsed) then 1 else 0
  end.

(** [std::stable_sort] by preference. *)
Fixpoint preference_insert (endpoint : bytes) (l : list bytes) : list bytes :=
  match l with
  | [] => [endpoint]
  | x :: rest =>
      if EndpointPreference x <? EndpointPreference endpoint then x :: preference_insert endpoint rest
      else endpoint :: l
  end.

Definition preference_sort (l : list bytes) : list bytes := foldr preference_insert [] l.

(** The endpoints that can be read, the public ones first. *)
Definition preferred_endpoints (l : list bytes) : list bytes :=
  preference_sort (filter (fun e => EndpointPreference e < 100) l).

(** ** Reading a node *)

Definition NodeId (node : json) : outcome Z := json_value get_ull (lit "ID") 0 node.

Definition TimeText (value : json) : bytes := match value with JString s => s | _ => [] end.

Definition StringArray (object : json) (name : bytes) : outcome (list bytes) :=
  match json_find name object with
  | Some v => if is_array v then get_strings v else Ok []
  | None => Ok []
  end.

Definition KeyText_fields : list bytes := [lit "String"; lit "Public"; lit "Key"; lit "Value"].

(** The first of the fields that is a string. *)
Fixpoint first_text (fields : list bytes) (value : json) : option bytes :=
  match fields with
  | [] => None
  | field :: fields =>
      match json_find field value with
      | Some (JString s) => Some s
      | _ => first_text fields value
      end
  end.

Definition KeyText (value : json) (prefix : bytes) : option bytes :=
  match value with
  | JString s => Some s
  | JObject _ =>
      match first_text KeyText_fields value with
      | Some s => Some s
      | None =>
          match json_find (lit "Raw32") value with
          | Some (JString s) => Some (prefix ++ s)
          | _ => None
          end
      end
  | _ => None
  end.

Fixpoint derp_host_loop (nodes : list json) : outcome bytes :=
  match nodes with
  | [] => Ok []
  | node :: nodes =>
      let! stunOnly := json_value get_bool (lit "STUNOnly") false node in
      if negb stunOnly && json_contains (lit "HostName") node
      then let! name := json_at (lit "HostName") node in get_string name
      else derp_host_loop nodes
  end.

Definition DerpHost (region : json) : outcome bytes :=
  let! nodes := json_at (lit "Nodes") region in derp_host_loop (json_elements nodes).

Fixpoint stun_endpoint_loop (nodes : list json) : outcome (bytes * Z) :=
  match nodes with
  | [] => Ok ([], 3478)
  | node :: nodes =>
      let! port := json_value get_int (lit "STUNPort") 3478 node in
      if port <? 0 then stun_endpoint_loop nodes else
      let! ipv4 := json_value get_string (lit "IPv4") [] node in
      if negb (bool_decide (ipv4 = [])) && negb (bool_decide (ipv4 = lit "none")) then Ok (ipv4, port) else
      let! hostname := json_value get_string (lit "HostName") [] node in
      if negb (bool_decide (hostname = [])) then Ok (hostname, port) else stun_endpoint_loop nodes
  end.

Definition StunEndpoint (region : json) : outcome (bytes * Z) :=
  let! nodes := json_at (lit "Nodes") region in stun_endpoint_loop (json_elements nodes).

Definition route_resolvers (result : list bytes) (route : json) : outcome (list bytes) :=
  if is_array route then
    ofold (fun result resolver =>
      if json_contains (lit "Addr") resolver then
        let! address := json_at (lit "Addr") resolver in
        let! text := get_string address in Ok (result ++ [text])
      else Ok result) result (json_elements route)
  else Ok result.

Definition DnsResolvers (dns : json) : outcome (list bytes) :=
  let! routes := json_at (lit "Routes") dns in
  ofold (fun result item => route_resolvers result item.2) [] (json_items routes).

Definition ResolverArray (resolvers : json) : outcome (list bytes) :=
  if negb (is_array resolvers) then Ok [] else
  ofold (fun result resolver =>
    let! address := json_value get_string (lit "Addr") [] resolver in
    Ok (if negb (bool_decide (address = [])) then result ++ [address] else result)) [] (json_elements resolvers).

Definition DnsDomains (dns : json) : outcome (list bytes) := StringArray dns (lit "Domains").

(** ** Accounts *)

Definition is_profiles (v : option json) : option (list json) :=
  match v with Some (JArray l) => Some l | _ => None end.

Fixpoint find_profile (userId : Z) (profiles : list json) : outcome (option json) :=
  match profiles with
  | [] => Ok None
  | profile :: profiles =>
      let! id := json_value get_ull (lit "ID") 0 profile in
      if id =? userId then Ok (Some profile) else find_profile userId profiles
  end.

Definition FindUserProfile (map : json) (userId : Z) : outcome (option json) :=
  match is_profiles (json_find (lit "UserProfiles") map) with
  | None => Ok None
  | Some profiles =>
      let! found := find_profile userId profiles in
      match found with
      | Some profile => Ok (Some profile)
      | None => Ok (head profiles)
      end
  end.

(** The [CapMap] of the node. *)
Definition node_cap_map (map : json) : option (list (bytes * json)) :=
  match json_find (lit "Node") map with
  | Some (JObject _ as node) =>
      match json_find (lit "CapMap") node with
      | Some (JObject capMap) => Some capMap
      | _ => None
      end
  | _ => None
  end.

Definition TailnetDisplayName (map : json) : bytes :=
  match node_cap_map map with
  | None => []
  | Some capMap =>
      match map_find (lit "tailnet-display-name") capMap with
      | Some (JArray (JString displayName :: _)) => displayName
      | _ => []
      end
  end.

Definition Capabilities (map : json) : list bytes :=
  match node_cap_map map with
  | None => []
  | Some capMap => capMap.*1
  end.

Definition set_account_name (name : bytes) (a : AccountConfig) : AccountConfig := {|
  ac_tailnetDisplayName := ac_tailnetDisplayName a; ac_name := name; ac_displayName := ac_displayName a;
  ac_profilePicUrl := ac_profilePicUrl a |}.
Definition set_account_display (name : bytes) (a : AccountConfig) : AccountConfig := {|
  ac_tailnetDisplayName := ac_tailnetDisplayName a; ac_name := ac_name a; ac_displayName := name;
  ac_profilePicUrl := ac_profilePicUrl a |}.
Definition set_account_picture (url : bytes) (a : AccountConfig) : AccountConfig := {|
  ac_tailnetDisplayName := ac_tailnetDisplayName a; ac_name := ac_name a; ac_displayName := ac_displayName a;
  ac_profilePicUrl := url |}.
Definition set_account_tailnet (name : bytes) (a : AccountConfig) : AccountConfig := {|
  ac_tailnetDisplayName := name; ac_name := ac_name a; ac_displayName := ac_displayName a;
  ac_profilePicUrl := ac_profilePicUrl a |}.

(** The account of a human, if the one of the node is none. *)
Fixpoint human_account (profiles : list json) : eff FullConfig unit :=
  match profiles with
  | [] => eret tt
  | candidate :: profiles =>
      let* login := elift (json_value get_string (lit "LoginName") [] candidate) in
      if bool_decide (chr_at ∈ login) then
        mod_account (set_account_name login) ;;*
        let* display := elift (json_value get_string (lit "DisplayName") [] candidate) in
        mod_account (set_account_display display) ;;*
        let* picture := elift (json_value get_string (lit "ProfilePicURL") [] candidate) in
        mod_account (set_account_picture picture)
      else human_account profiles
  end.

Definition ApplyAccountMetadata (map : json) : eff FullConfig unit :=
  let tailnetDisplayName := TailnetDisplayName map in
  (if negb (bool_decide (tailnetDisplayName = [])) then mod_account (set_account_tailnet tailnetDisplayName)
   else eret tt) ;;*
  let* userId := match json_find (lit "Node") map with
                 | Some (JObject _ as node) => elift (json_value get_ull (lit "User") 0 node)
                 | _ => eret 0
                 end in
  let* profile := elift (FindUserProfile map userId) in
  match profile with
  | None => eret tt
  | Some profile =>
      let* login := elift (json_value get_string (lit "LoginName") [] profile) in
      mod_account (set_account_name login) ;;*
      let* display := elift (json_value get_string (lit "DisplayName") [] profile) in
      mod_account (set_account_display display) ;;*
      let* picture := elift (json_value get_string (lit "ProfilePicURL") [] profile) in
      mod_account (set_account_picture picture) ;;*
      let* c := eget in
      if bool_decide (chr_at ∈ ac_name (fc_account c)) then eret tt else
      let* profiles := elift (json_at (lit "UserProfiles") map) in
      human_account (json_elements profiles)
  end.

(** The profile with that identifier is replaced, or the profile is added. *)
Fixpoint replace_profile (profile : UserProfile) (profiles : list UserProfile) : list UserProfile :=
  match profiles with
  | [] => [profile]
  | x :: rest => if up_Id x =? up_Id profile then profile :: rest else x :: replace_profile profile rest
  end.

Definition merge_profile (profiles : list UserProfile) (source : json) : outcome (list UserProfile) :=
  let! id := json_value get_ull (lit "ID") 0 source in
  if id =? 0 then Ok profiles else
  let! login := json_value get_string (lit "LoginName") [] source in
  let! display := json_value get_string (lit "DisplayName") [] source in
  let! picture := json_value get_string (lit "ProfilePicURL") [] source in
  Ok (replace_profile {| up_Id := id; up_LoginName := login; up_DisplayName := display;
                         up_ProfilePicUrl := picture |} profiles).

Definition MergeUserProfiles (map : json) : eff FullConfig bool :=
  match is_profiles (json_find (lit "UserProfiles") map) with
  | None => eret false
  | Some sources =>
      let* c := eget in
      let* profiles := elift (ofold merge_profile (fc_userProfiles c) sources) in
      emod (fc_set_profiles profiles) ;;*
      eret true
  end.

Definition OwnerName (profiles : list UserProfile) (ownerId : Z) : bytes :=
  match List.find (fun p => up_Id p =? ownerId) profiles with
  | None => []
  | Some profile => if bool_decide (up_DisplayName profile = []) then up_LoginName profile else up_DisplayName profile
  end.

Definition RefreshPeerOwners (c : FullConfig) : FullConfig :=
  fc_set_peers (map (fun peer =>
    let owner := OwnerName (fc_userProfiles c) (fp_ownerId peer) in
    if bool_decide (owner = []) then peer else fp_set_owner owner peer) (fc_peers c)) c.

(** ** Peers *)

Definition derp_name (region : Z) : bytes := lit "derp-" ++ format_int region.

Definition ApplyDerpMetadata (peer : FullPeer) (regions : json) : outcome FullPeer :=
  if fp_derpRegion peer =? 0 then Ok peer else
  match json_find (format_int (fp_derpRegion peer)) regions with
  | None => Ok peer
  | Some region =>
      let! code := json_value get_string (lit "RegionCode") (derp_name (fp_derpRegion peer)) region in
      let! host := DerpHost region in
      Ok (fp_set_derp (fp_derpRegion peer) code host peer)
  end.

(** The ports of the peer API. *)
Definition service_port (ports : Z * Z) (service : json) : outcome (Z * Z) :=
  let! protocol := json_value get_string (lit "Proto") [] service in
  if bool_decide (protocol = lit "peerapi4") then
    let! port := json_value get_int (lit "Port") 0 service in Ok (port, ports.2)
  else if bool_decide (protocol = lit "peerapi6") then
    let! port := json_value get_int (lit "Port") 0 service in Ok (ports.1, port)
  else Ok ports.

Definition service_ports (hostInfo : json) : outcome (Z * Z) :=
  match json_find (lit "Services") hostInfo with
  | Some (JArray services) => ofold service_port (0, 0) services
  | _ => Ok (0, 0)
  end.

Record HostInfoPart := {
  hp_os : bytes;
  hp_version : bytes;
  hp_wireIngress : bool;
  hp_ingressEnabled : bool;
  hp_ports : Z * Z
}.

Definition ApplyHostInfoMetadata (node : json) : eff FullConfig unit :=
  match json_find (lit "Hostinfo") node with
  | Some (JObject _ as hostInfo) =>
      let* version := elift (json_value get_string (lit "IPNVersion") [] hostInfo) in
      let* wire := elift (json_value get_bool (lit "WireIngress") false hostInfo) in
      let* ingress := elift (json_value get_bool (lit "IngressEnabled") false hostInfo) in
      let* ports := elift (service_ports hostInfo) in
      mod_self (sf_set_host version ports.1 ports.2 wire ingress)
  | _ => eret tt
  end.

(** What a peer takes from its host information. *)
Definition peer_host_info (node : json) : outcome HostInfoPart :=
  match json_find (lit "Hostinfo") node with
  | Some (JObject _ as hostInfo) =>
      let! os := json_value get_string (lit "OS") [] hostInfo in
      let! version := json_value get_string (lit "IPNVersion") [] hostInfo in
      let! wire := json_value get_bool (lit "WireIngress") false hostInfo in
      let! ingress := json_value get_bool (lit "IngressEnabled") false hostInfo in
      let! ports := service_ports hostInfo in
      Ok {| hp_os := os; hp_version := version; hp_wireIngress := wire; hp_ingressEnabled := ingress;
            hp_ports := ports |}
  | _ => Ok {| hp_os := []; hp_version := []; hp_wireIngress := false; hp_ingressEnabled := false;
               hp_ports := (0, 0) |}
  end.

(** A prefix of length 0 makes an exit node; the others are routes. *)
Definition allowed_prefix (state : bool * list Ipv4Prefix) (text : bytes) : outcome (bool * list Ipv4Prefix) :=
  let! prefix := Ipv4Prefix_Parse text in
  match prefix with
  | Some prefix => if px_length prefix =? 0 then Ok (true, state.2) else Ok (state.1, state.2 ++ [prefix])
  | None => Ok state
  end.

(** The first address without a colon, or else the first. *)
Definition primary_address (addresses : list bytes) : bytes :=
  match List.find (fun a => bool_decide (find_char chr_colon a = None)) addresses with
  | Some a => a
  | None => default [] (head addresses)
  end.

Definition Peer (node regions : json) (profiles : list UserProfile) : outcome FullPeer :=
  let! addressTexts := StringArray node (lit "Addresses") in
  let! nodeId := NodeId node in
  let! name := json_value get_string (lit "Name") [] node in
  let! ownerId := json_value get_ull (lit "User") 0 node in
  let addresses := map before_slash addressTexts in
  let! key := json_value get_string (lit "Key") [] node in
  let! discoKey := json_value get_string (lit "DiscoKey") [] node in
  let! online := json_value get_bool (lit "Online") false node in
  let! lastSeen := json_value get_string (lit "LastSeen") [] node in
  let! keyExpiry := json_value get_string (lit "KeyExpiry") [] node in
  let! host := peer_host_info node in
  let! derp := json_value get_string (lit "DERP") [] node in
  let peer region endpoints allowed := {|
    fp_nodeId := nodeId; fp_ownerId := ownerId; fp_name := name; fp_address := primary_address addresses;
    fp_addresses := addresses; fp_key := key; fp_discoKey := discoKey; fp_endpoints := endpoints;
    fp_allowedPrefixes := allowed.2; fp_derpRegion := region; fp_derpCode := []; fp_derpHost := [];
    fp_operatingSystem := hp_os host; fp_clientVersion := hp_version host;
    fp_owner := OwnerName profiles ownerId; fp_peerApi4Port := (hp_ports host).1; fp_capabilities := [];
    fp_peerApi6Port := (hp_ports host).2; fp_wireIngress := hp_wireIngress host;
    fp_ingressEnabled := hp_ingressEnabled host; fp_online := online; fp_exitNodeOption := allowed.1;
    fp_lastSeen := lastSeen; fp_keyExpiry := keyExpiry |} in
  let! derped := match rfind_char chr_colon derp with
                 | Some colon =>
                     let! region := stoi (drop (S colon) derp) in
                     ApplyDerpMetadata (peer region [] (false, [])) regions
                 | None => Ok (peer 0 [] (false, []))
                 end in
  let! endpoints := StringArray node (lit "Endpoints") in
  let! allowedIps := StringArray node (lit "AllowedIPs") in
  let! allowed := ofold allowed_prefix (false, []) (allowedIps ++ addressTexts) in
  Ok (fp_set_derp (fp_derpRegion derped) (fp_derpCode derped) (fp_derpHost derped)
        (peer (fp_derpRegion derped) (preferred_endpoints endpoints) allowed)).

Definition Peers (map : json) (profiles : list UserProfile) : outcome (list FullPeer) :=
  let! derpMap := json_at (lit "DERPMap") map in
  let! regions := json_at (lit "Regions") derpMap in
  let! nodes := json_at (lit "Peers") map in
  ofold (fun result node =>
    let! addresses := StringArray node (lit "Addresses") in
    if bool_decide (addresses = []) then Ok result else
    let! peer := Peer node regions profiles in Ok (result ++ [peer])) [] (json_elements nodes).

(** A change of the first peer with that identifier. *)
Fixpoint alter_config_peer (f : FullPeer → FullPeer) (nodeId : Z) (peers : list FullPeer) : list FullPeer :=
  match peers with
  | [] => []
  | p :: rest => if fp_nodeId p =? nodeId then f p :: rest else p :: alter_config_peer f nodeId rest
  end.

Definition FindPeer (peers : list FullPeer) (nodeId : Z) : option FullPeer :=
  List.find (fun p => fp_nodeId p =? nodeId) peers.

(** ** DNS *)

Definition set_dns_domains l (d : DnsConfig) : DnsConfig := {|
  dn_resolver := dn_resolver d; dn_domains := l; dn_certDomains := dn_certDomains d;
  dn_defaultResolvers := dn_defaultResolvers d; dn_routes := dn_routes d |}.
Definition set_dns_cert l (d : DnsConfig) : DnsConfig := {|
  dn_resolver := dn_resolver d; dn_domains := dn_domains d; dn_certDomains := l;
  dn_defaultResolvers := dn_defaultResolvers d; dn_routes := dn_routes d |}.
Definition set_dns_default l (d : DnsConfig) : DnsConfig := {|
  dn_resolver := dn_resolver d; dn_domains := dn_domains d; dn_certDomains := dn_certDomains d;
  dn_defaultResolvers := l; dn_routes := dn_routes d |}.
Definition set_dns_routes l (d : DnsConfig) : DnsConfig := {|
  dn_resolver := dn_resolver d; dn_domains := dn_domains d; dn_certDomains := dn_certDomains d;
  dn_defaultResolvers := dn_defaultResolvers d; dn_routes := l |}.
Definition set_dns_resolver r (d : DnsConfig) : DnsConfig := {|
  dn_resolver := r; dn_domains := dn_domains d; dn_certDomains := dn_certDomains d;
  dn_defaultResolvers := dn_defaultResolvers d; dn_routes := dn_routes d |}.

Definition ApplyDnsConfig (dns : json) : eff FullConfig unit :=
  let* domains := elift (DnsDomains dns) in
  mod_dns (set_dns_domains domains) ;;*
  let* certDomains := elift (StringArray dns (lit "CertDomains")) in
  mod_dns (set_dns_cert certDomains) ;;*
  let* resolvers := elift (json_value get_json (lit "Resolvers") (JArray []) dns) in
  let* defaults := elift (ResolverArray resolvers) in
  let* defaults :=
    if bool_decide (defaults = []) then
      let* fallback := elift (json_value get_json (lit "FallbackResolvers") (JArray []) dns) in
      elift (ResolverArray fallback)
    else eret defaults in
  mod_dns (set_dns_default defaults) ;;*
  let* routes := elift (json_at (lit "Routes") dns) in
  let* routes := elift (try_map (fun item =>
      let! resolvers := ResolverArray item.2 in
      Ok {| rou_Suffix := item.1; rou_Resolvers := resolvers |}) (json_items routes)) in
  mod_dns (set_dns_routes routes).

(** ** The node's own addresses *)

Definition ApplySelfAddresses (node : json) : eff FullConfig unit :=
  let* addresses := elift (match json_find (lit "Addresses") node with
                           | Some (JArray entries) =>
                               try_map (fun entry => let! address := get_string entry in Ok (before_slash address)) entries
                           | _ => Ok []
                           end) in
  let primary := match List.find (fun a => bool_decide (is_Some (Ipv4Address_TryParse a))) addresses with
                 | Some a => a
                 | None => default [] (head addresses)
                 end in
  mod_self (sf_set_addresses primary addresses).

(** ** Capability filters *)

Section filters.
  Context (ip6addr_aton : bytes → option bytes).

Definition parse_range (text : bytes) : option IpRange := IpRange_TryParse ip6addr_aton text.

Definition range_entry (sources : bool) (result : list IpRange) (entry : json) : outcome (list IpRange) :=
  let! text := get_string entry in
  if sources && bool_decide (text = lit "*") then
    match parse_range (lit "0.0.0.0/0"), parse_range (lit "::/0") with
    | Some v4, Some v6 => Ok (result ++ [v4; v6])
    | _, _ => UB
    end
  else if sources && NetMap.starts_with (lit "cap:") text then Ok result
  else match parse_range text with
       | Some range => Ok (result ++ [range])
       | None => Throw CapabilityFilterError
       end.

Definition Ranges (ranges : json) (sources : bool) : outcome (list IpRange) :=
  match ranges with
  | JArray entries => ofold (range_entry sources) [] entries
  | _ => Throw CapabilityFilterError
  end.

Definition parse_grant (sources : list IpRange) (source : json) : outcome CapabilityPresenceGrant :=
  let! dsts := json_at (lit "Dsts") source in
  let! destinations := Ranges dsts false in
  let! caps := match json_find (lit "Caps") source with
               | Some v => if is_null v then Ok [] else get_strings v
               | None => Ok []
               end in
  let! named := match json_find (lit "CapMap") source with
                | Some v =>
                    if is_null v then Ok [] else
                    if negb (is_object v) then Throw CapabilityFilterError else Ok (json_items v).*1
                | None => Ok []
                end in
  Ok {| cg_Sources := sources; cg_Destinations := destinations; cg_Names := caps ++ named |}.

(** A member that is there and not empty. *)
Definition has_entries (name : bytes) (rule : json) : bool :=
  match json_find name rule with Some v => negb (json_empty v) | None => false end.

Definition parse_rule (result : list CapabilityPresenceGrant) (rule : json)
    : outcome (list CapabilityPresenceGrant) :=
  match json_find (lit "CapGrant") rule with
  | None => Ok result
  | Some grants =>
      if is_null grants || json_empty grants then Ok result else
      if negb (is_array grants) || has_entries (lit "SrcBits") rule || has_entries (lit "DstPorts") rule
      then Throw CapabilityFilterError else
      let! srcIps := json_at (lit "SrcIPs") rule in
      let! sources := Ranges srcIps true in
      let! parsed := try_map (parse_grant sources) (json_elements grants) in
      Ok (result ++ parsed)
  end.

Definition ParseRules (rules : json) : outcome (list CapabilityPresenceGrant) :=
  match rules with
  | JArray rules => ofold parse_rule [] rules
  | _ => Throw CapabilityFilterError
  end.

(** One entry of [PacketFilters]. *)
Definition filter_update (filters : list (bytes * list CapabilityPresenceGrant)) (item : bytes * json)
    : outcome (list (bytes * list CapabilityPresenceGrant)) :=
  if bool_decide (item.1 = lit "*") then Ok filters else
  if is_null item.2 then Ok (map_erase item.1 filters) else
  let! grants := ParseRules item.2 in Ok (map_assign item.1 grants filters).

(** A member that is there and not null. *)
Definition json_present (name : bytes) (map : json) : option json :=
  match json_find name map with Some v => if is_null v then None else Some v | None => None end.

(** [PacketFilter]: the filter named base. *)
Definition base_update (map : json) (filters : list (bytes * list CapabilityPresenceGrant))
    : outcome (list (bytes * list CapabilityPresenceGrant) * bool) :=
  match json_present (lit "PacketFilter") map with
  | Some rules => let! grants := ParseRules rules in Ok (map_assign (lit "base") grants filters, true)
  | None => Ok (filters, false)
  end.

Definition clears_all (updates : json) : bool :=
  match json_find (lit "*") updates with Some v => is_null v | None => false end.

(** [PacketFilters] *)
Definition named_update (map : json) (filters : list (bytes * list CapabilityPresenceGrant))
    : outcome (list (bytes * list CapabilityPresenceGrant) * bool) :=
  match json_present (lit "PacketFilters") map with
  | Some updates =>
      if negb (is_object updates) then Throw CapabilityFilterError else
      let! filters := ofold filter_update (if clears_all updates then [] else filters) (json_items updates) in
      Ok (filters, true)
  | None => Ok (filters, false)
  end.

Definition ApplyCapabilityFilterUpdate (map : json) : eff FullConfig bool :=
  let* c := eget in
  let* (filters, base) := elift (base_update map (fc_filters c)) in
  let* (filters, named) := elift (named_update map filters) in
  (if base || named then emod (fc_set_filters filters) else eret tt) ;;*
  eret (base || named).

(** ** The capabilities of peers *)

Definition Capability_Addresses (values : list bytes) (fallback : bytes) : list IpAddress :=
  let result := omap (IpAddress_TryParse ip6addr_aton) values in
  match result with
  | [] => match IpAddress_TryParse ip6addr_aton fallback with Some a => [a] | None => [] end
  | _ => result
  end.

Definition Capability_Matches (ranges : list IpRange) (address : IpAddress) : bool :=
  existsb (fun range => IpRange_Contains range address) ranges.

(** The grant applies to a peer with these addresses. *)
Definition grant_applies (destinations sources : list IpAddress) (grant : CapabilityPresenceGrant) : bool :=
  existsb (fun source =>
    match List.find (fun value => bool_decide (ia_family value = ia_family source)) destinations with
    | Some destination =>
        Capability_Matches (cg_Sources grant) source && Capability_Matches (cg_Destinations grant) destination
    | None => false
    end) sources.

(** [std::set::insert] of several names. *)
Definition insert_names (names : list (bytes * unit)) (more : list bytes) : list (bytes * unit) :=
  foldl (fun names name => map_emplace name tt names) names more.

Definition peer_capabilities (c : FullConfig) (peer : FullPeer) : list bytes :=
  let destinations := Capability_Addresses (sf_addresses (fc_self c)) (sf_address (fc_self c)) in
  let sources := Capability_Addresses (fp_addresses peer) (fp_address peer) in
  (foldl (fun names entry =>
     foldl (fun names grant => if grant_applies destinations sources grant then insert_names names (cg_Names grant)
                               else names) names entry.2) [] (fc_filters c)).*1.

Definition RefreshPeerCapabilities (c : FullConfig) : FullConfig :=
  fc_set_peers (map (fun peer => fp_set_capabilities (peer_capabilities c peer) peer) (fc_peers c)) c.

End filters.

(** ** Maps *)

Definition set_derp_region region (d : DerpConfig) : DerpConfig := {|
  dp_region := region; dp_host := dp_host d; dp_code := dp_code d; dp_stunHost := dp_stunHost d;
  dp_stunPort := dp_stunPort d |}.
Definition set_derp_code code (d : DerpConfig) : DerpConfig := {|
  dp_region := dp_region d; dp_host := dp_host d; dp_code := code; dp_stunHost := dp_stunHost d;
  dp_stunPort := dp_stunPort d |}.
Definition set_derp_host host (d : DerpConfig) : DerpConfig := {|
  dp_region := dp_region d; dp_host := host; dp_code := dp_code d; dp_stunHost := dp_stunHost d;
  dp_stunPort := dp_stunPort d |}.
Definition set_derp_stun host port (d : DerpConfig) : DerpConfig := {|
  dp_region := dp_region d; dp_host := dp_host d; dp_code := dp_code d; dp_stunHost := host;
  dp_stunPort := port |}.

(** The code, the host and the STUN server of the home region. *)
Definition apply_home_region (region : json) : eff FullConfig unit :=
  let* c := eget in
  let* code := elift (json_value get_string (lit "RegionCode") (derp_name (dp_region (fc_derp c))) region) in
  mod_derp (set_derp_code code) ;;*
  let* host := elift (DerpHost region) in
  mod_derp (set_derp_host host) ;;*
  let* (stunHost, stunPort) := elift (StunEndpoint region) in
  mod_derp (set_derp_stun stunHost stunPort).

Fixpoint any_contains (address : Z) (prefixes : list Ipv4Prefix) : outcome bool :=
  match prefixes with
  | [] => Ok false
  | prefix :: prefixes =>
      let! contains := Ipv4Prefix_Contains prefix address in
      if contains then Ok true else any_contains address prefixes
  end.

(** The first peer that has a route to the address. *)
Fixpoint peer_towards (address : Z) (peers : list FullPeer) : outcome (option FullPeer) :=
  match peers with
  | [] => Ok None
  | peer :: peers =>
      let! contains := any_contains address (fp_allowedPrefixes peer) in
      if contains then Ok (Some peer) else peer_towards address peers
  end.

Fixpoint choose_resolver (texts : list bytes) : eff FullConfig unit :=
  match texts with
  | [] => eret tt
  | text :: texts =>
      match Ipv4Address_TryParse text with
      | None => choose_resolver texts
      | Some resolver =>
          let* c := eget in
          let* found := elift (peer_towards (Ipv4Address_HostOrder resolver) (fc_peers c)) in
          (match found with
           | Some peer => mod_dns (set_dns_resolver text) ;;* mod_derp (set_derp_region (fp_derpRegion peer))
           | None => eret tt
           end) ;;*
          let* c := eget in
          if negb (bool_decide (dn_resolver (fc_dns c) = [])) then eret tt else choose_resolver texts
      end
  end.

(** The region of the peer with the resolver, or else the first that there is. *)
Definition choose_region : eff FullConfig unit :=
  let* c := eget in
  if dp_region (fc_derp c) =? 0 then
    match List.find (fun peer => negb (fp_derpRegion peer =? 0)) (fc_peers c) with
    | None => ethrow (RuntimeError "Network map did not provide a DERP region.")
    | Some peer => mod_derp (set_derp_region (fp_derpRegion peer))
    end
  else eret tt.

Section parser.
  Context `{!JsonText} (ip6addr_aton : bytes → option bytes).

(** The first part of [Parse], up to the peers. *)
Definition start_map (map : json) : eff FullConfig json :=
  let* domain := elift (json_value get_string (lit "Domain") [] map) in
  emod (fc_set_domain domain) ;;*
  MergeUserProfiles map ;;*
  ApplyAccountMetadata map ;;*
  let* node := elift (json_at (lit "Node") map) in
  let* nodeId := elift (NodeId node) in
  let* key := elift (json_value get_string (lit "Key") [] node) in
  let* name := elift (json_value get_string (lit "Name") [] node) in
  let* authorized := elift (json_value get_bool (lit "MachineAuthorized") false node) in
  mod_self (sf_set_identity nodeId key (TrimTrailingDot name)) ;;*
  mod_self (sf_set_authorized authorized) ;;*
  mod_self (sf_set_magic (MagicDnsDomainFromNodeName (TrimTrailingDot name))) ;;*
  mod_self (sf_set_capabilities (Capabilities map)) ;;*
  ApplyHostInfoMetadata node ;;*
  ApplySelfAddresses node ;;*
  let* dns := elift (json_at (lit "DNSConfig") map) in
  ApplyDnsConfig dns ;;*
  eret dns.

(** The rest of it, with the peers. *)
Definition finish_map (map dns : json) (peers : list FullPeer) : eff FullConfig unit :=
  emod (fc_set_peers peers) ;;*
  ApplyCapabilityFilterUpdate ip6addr_aton map ;;*
  emod (RefreshPeerCapabilities ip6addr_aton) ;;*
  let* resolvers := elift (DnsResolvers dns) in
  choose_resolver resolvers ;;*
  let* c := eget in
  if bool_decide (dn_resolver (fc_dns c) = [])
  then ethrow (RuntimeError "Network map did not provide a reachable IPv4 DNS resolver.") else
  choose_region ;;*
  let* derpMap := elift (json_at (lit "DERPMap") map) in
  let* regions := elift (json_at (lit "Regions") derpMap) in
  let* c := eget in
  let* region := elift (json_at (format_int (dp_region (fc_derp c))) regions) in
  apply_home_region region ;;*
  let* c := eget in
  if bool_decide (dp_host (fc_derp c) = [])
  then ethrow (RuntimeError "Selected DERP region has no usable hostname.") else eret tt.

Definition parse_map (map : json) : eff FullConfig unit :=
  let* dns := start_map map in
  let* c := eget in
  let* peers := elift (Peers map (fc_userProfiles c)) in
  finish_map map dns peers.

Definition NetworkMapParser_Parse (text : bytes) : outcome FullConfig :=
  let! map := json_parse text in
  match parse_map map FullConfig_default with
  | (Ok _, c) => Ok c
  | (Throw e, _) => Throw e
  | (UB, _) => UB
  end.

(** *** Updates *)

Definition update_node (map : json) (userProfilesChanged : bool) : eff FullConfig bool :=
  if negb (json_contains (lit "Node") map || userProfilesChanged) then eret false else
  (match json_find (lit "Node") map with
   | Some (JObject _ as node) =>
       (if json_contains (lit "Name") node then
          let* name := elift (json_value get_string (lit "Name") [] node) in
          mod_self (fun s => sf_set_identity (sf_nodeId s) (sf_key s) (TrimTrailingDot name) s) ;;*
          let* c := eget in
          let* key := elift (json_value get_string (lit "Key") (sf_key (fc_self c)) node) in
          mod_self (fun s => sf_set_identity (sf_nodeId s) key (sf_name s) s) ;;*
          mod_self (fun s => sf_set_magic (MagicDnsDomainFromNodeName (sf_name s)) s)
        else eret tt) ;;*
       (if json_contains (lit "MachineAuthorized") node then
          let* authorized := elift (json_value get_bool (lit "MachineAuthorized") false node) in
          mod_self (sf_set_authorized authorized)
        else eret tt) ;;*
       mod_self (sf_set_capabilities (Capabilities map)) ;;*
       (if json_contains (lit "Addresses") node then ApplySelfAddresses node else eret tt)
   | _ => eret tt
   end) ;;*
  ApplyAccountMetadata map ;;*
  eret true.

Definition update_regions (map : json) : outcome json :=
  match json_find (lit "DERPMap") map with
  | Some derpMap => Ok (default (JObject []) (json_find (lit "Regions") derpMap))
  | None => Ok (JObject [])
  end.

Definition update_derp (regions : json) (peers : list FullPeer) : eff FullConfig (list FullPeer * bool) :=
  if json_empty regions then eret (peers, false) else
  let* c := eget in
  (match json_find (format_int (dp_region (fc_derp c))) regions with
   | Some region => apply_home_region region
   | None => eret tt
   end) ;;*
  let* peers := elift (try_map (fun peer => ApplyDerpMetadata peer regions) peers) in
  eret (peers, true).

Definition remove_peer (state : list FullPeer * list Z) (id : json) : outcome (list FullPeer * list Z) :=
  let! nodeId := get_uint64 id in
  Ok (filter (fun peer => fp_nodeId peer ≠ nodeId) state.1, state.2 ++ [nodeId]).

(** A changed peer keeps what the update leaves out. *)
Definition merge_peer (peer existing : FullPeer) : FullPeer :=
  let peer :=
    if (fp_derpRegion peer =? fp_derpRegion existing) && bool_decide (fp_derpCode peer = [])
    then fp_set_derp (fp_derpRegion peer) (fp_derpCode existing) (fp_derpHost existing) peer else peer in
  if bool_decide (fp_owner peer = []) then fp_set_owner (fp_owner existing) peer else peer.

Definition change_peer (regions : json) (profiles : list UserProfile) (peers : list FullPeer) (node : json)
    : outcome (list FullPeer) :=
  let! peer := Peer node regions profiles in
  match FindPeer peers (fp_nodeId peer) with
  | None => Ok (peers ++ [peer])
  | Some existing => Ok (alter_config_peer (fun _ => merge_peer peer existing) (fp_nodeId peer) peers)
  end.

Definition online_change (state : list FullPeer * bool) (item : bytes * json) : outcome (list FullPeer * bool) :=
  let! nodeId := stoull item.1 in
  match FindPeer state.1 nodeId with
  | None => Ok state
  | Some _ =>
      let! online := get_bool item.2 in
      Ok (alter_config_peer (fun p => fp_set_times online (fp_lastSeen p) (fp_keyExpiry p) p) nodeId state.1, true)
  end.

Definition seen_change (now : bytes) (state : list FullPeer * bool) (item : bytes * json)
    : outcome (list FullPeer * bool) :=
  let! nodeId := stoull item.1 in
  match FindPeer state.1 nodeId with
  | None => Ok state
  | Some _ =>
      let! seen := get_bool item.2 in
      Ok (alter_config_peer (fun p => fp_set_times (fp_online p) (if seen then now else []) (fp_keyExpiry p) p) nodeId
            state.1, true)
  end.

(** What a patch does to its peer. *)
Definition patch_fields (regions patch : json) (p : FullPeer) : outcome FullPeer :=
  let! p := match json_find (lit "DERPRegion") patch with
            | Some v => let! region := get_int v in ApplyDerpMetadata (fp_set_derp region [] [] p) regions
            | None => Ok p
            end in
  let! p := match json_find (lit "Endpoints") patch with
            | Some v => let! endpoints := get_strings v in Ok (fp_set_endpoints (preferred_endpoints endpoints) p)
            | None => Ok p
            end in
  let key := match json_find (lit "Key") patch with
             | Some v => default (fp_key p) (KeyText v (lit "nodekey:"))
             | None => fp_key p
             end in
  let discoKey := match json_find (lit "DiscoKey") patch with
                  | Some v => default (fp_discoKey p) (KeyText v (lit "discokey:"))
                  | None => fp_discoKey p
                  end in
  let online := match json_find (lit "Online") patch with Some (JBool b) => b | _ => fp_online p end in
  let lastSeen := match json_find (lit "LastSeen") patch with Some v => TimeText v | None => fp_lastSeen p end in
  let keyExpiry := match json_find (lit "KeyExpiry") patch with Some v => TimeText v | None => fp_keyExpiry p end in
  Ok (fp_set_times online lastSeen keyExpiry (fp_set_keys key discoKey p)).

Definition patch_peer (regions : json) (state : list FullPeer * bool) (patch : json)
    : outcome (list FullPeer * bool) :=
  let! nodeId := json_value get_ull (lit "NodeID") 0 patch in
  match FindPeer state.1 nodeId with
  | None => Ok state
  | Some peer =>
      let! peer := patch_fields regions patch peer in
      Ok (alter_config_peer (fun _ => peer) nodeId state.1, true)
  end.

(** The loops over the peers of an update. *)
Definition update_map_peers (now : bytes) (map regions : json) (profiles : list UserProfile) (peers : list FullPeer)
    : outcome (list FullPeer * list Z * bool) :=
  let! (peers, removed, changed) :=
    match json_find (lit "PeersRemoved") map with
    | Some ids => let! (peers, removed) := ofold remove_peer (peers, []) (json_elements ids) in Ok (peers, removed, true)
    | None => Ok (peers, [], false)
    end in
  let! (peers, changed) :=
    match json_find (lit "PeersChanged") map with
    | Some nodes => let! peers := ofold (change_peer regions profiles) peers (json_elements nodes) in Ok (peers, true)
    | None => Ok (peers, changed)
    end in
  let! (peers, changed) :=
    match json_find (lit "OnlineChange") map with
    | Some changes => ofold online_change (peers, changed) (json_items changes)
    | None => Ok (peers, changed)
    end in
  let! (peers, changed) :=
    match json_find (lit "PeerSeenChange") map with
    | Some changes => ofold (seen_change now) (peers, changed) (json_items changes)
    | None => Ok (peers, changed)
    end in
  let! (peers, changed) :=
    match json_find (lit "PeersChangedPatch") map with
    | Some patches => ofold (patch_peer regions) (peers, changed) (json_elements patches)
    | None => Ok (peers, changed)
    end in
  Ok (peers, removed, changed).

(** [now] is the text of the current time. *)
Definition apply_update (now : bytes) (map : json) : eff FullConfig bool :=
  emod (fc_set_removed []) ;;*
  let* keepAlive := elift (json_value get_bool (lit "KeepAlive") false map) in
  if keepAlive then eret false else
  let* c := eget in
  let peers := fc_peers c in
  let* changed := ApplyCapabilityFilterUpdate ip6addr_aton map in
  let* changedDomain :=
    if json_contains (lit "Domain") map then
      let* domain := elift (json_value get_string (lit "Domain") [] map) in
      emod (fc_set_domain domain) ;;* eret true
    else eret false in
  let* userProfilesChanged := MergeUserProfiles map in
  let* changedNode := update_node map userProfilesChanged in
  let* regions := elift (update_regions map) in
  let* changedDns :=
    match json_find (lit "DNSConfig") map with
    | Some (JObject _ as dns) => ApplyDnsConfig dns ;;* eret true
    | _ => eret false
    end in
  let* (peers, changedDerp) := update_derp regions peers in
  let* c := eget in
  let* (peers, removed, changedPeers) := elift (update_map_peers now map regions (fc_userProfiles c) peers) in
  emod (fc_set_peers peers) ;;*
  emod (RefreshPeerCapabilities ip6addr_aton) ;;*
  emod (fc_set_removed removed) ;;*
  (if userProfilesChanged then emod RefreshPeerOwners else eret tt) ;;*
  eret (changed || changedDomain || changedNode || changedDns || changedDerp || changedPeers).

Definition NetworkMapParser_ApplyUpdate (now : bytes) (text : bytes) : eff FullConfig bool :=
  let* map := elift (json_parse text) in apply_update now map.

End parser.

(** ** The stream of maps *)

Record MapStreamResponse := {
  ms_streamId : Z;
  ms_status : option Z;
  ms_body : bytes
}.

Definition MapStreamResponse_new : MapStreamResponse := {| ms_streamId := 0; ms_status := None; ms_body := [] |}.

Definition MapLengthSize : Z := 4.
Definition InvalidMapResponse : exn :=
  RuntimeError "Control map response has invalid or incomplete length framing.".

Definition MapStreamResponse_Start (streamId : Z) (_ : MapStreamResponse) : MapStreamResponse :=
  {| ms_streamId := streamId; ms_status := None; ms_body := [] |}.

Definition MapStreamResponse_Handles (streamId : Z) (s : MapStreamResponse) : bool :=
  negb (ms_streamId s =? 0) && (streamId =? ms_streamId s).

Definition MapStreamResponse_ReceiveHeaders (order : list bytes → list bytes) (headers : H2Headers)
    (s : MapStreamResponse) : MapStreamResponse :=
  {| ms_streamId := ms_streamId s; ms_status := H2Codec_Status order headers; ms_body := ms_body s |}.

Definition MapStreamResponse_ReceiveData (data : bytes) (s : MapStreamResponse) : MapStreamResponse :=
  {| ms_streamId := ms_streamId s; ms_status := ms_status s; ms_body := ms_body s ++ data |}.

(** The text of the exception for a rejection leaves the status and the body out. *)
Definition MapStreamResponse_Finish (s : MapStreamResponse) : outcome unit :=
  match ms_status s with
  | None => Throw (RuntimeError "Control streaming map ended without an HTTP status.")
  | Some status =>
      if 300 <=? status then Throw (RuntimeError "Control streaming map failed with HTTP status.")
      else Throw (RuntimeError "Control streaming map ended unexpectedly.")
  end.

Definition MapStreamResponse_TakeMap (maximumSize : Z) : eff MapStreamResponse (option bytes) :=
  let* s := eget in
  let body := ms_body s in
  if zlen body <? MapLengthSize then eret None else
  let* b0 := elift (rd body 0) in
  let* b1 := elift (rd body 1) in
  let* b2 := elift (rd body 2) in
  let* b3 := elift (rd body 3) in
  let mapSize := Z.lor (Z.lor (Z.lor b0 (Z.shiftl b1 8)) (Z.shiftl b2 16)) (Z.shiftl b3 24) in
  if (mapSize =? 0) || (maximumSize <? mapSize) then ethrow InvalidMapResponse else
  if zlen body <? MapLengthSize + mapSize then eret None else
  let* result := elift (slice body MapLengthSize (MapLengthSize + mapSize)) in
  let* rest := elift (slice body (MapLengthSize + mapSize) (zlen body)) in
  emod (fun s => {| ms_streamId := ms_streamId s; ms_status := ms_status s; ms_body := rest |}) ;;*
  eret (Some result).

Definition MapStreamResponse_DecodeMap (body : bytes) (maximumSize : Z) : outcome bytes :=
  match MapStreamResponse_TakeMap maximumSize (MapStreamResponse_ReceiveData body MapStreamResponse_new) with
  | (Ok (Some map), response) => if bool_decide (ms_body response = []) then Ok map else Throw InvalidMapResponse
  | (Ok None, _) => Throw InvalidMapResponse
  | (Throw e, _) => Throw e
  | (UB, _) => UB
  end.

(** A map behind its length in little endian. *)
Definition map_frame (text : bytes) : bytes :=
  [u8 (zlen text); u8 (Z.shiftr (zlen text) 8); u8 (Z.shiftr (zlen text) 16); u8 (Z.shiftr (zlen text) 24)] ++ text.

(** Data and the calls of [TakeMap] that give a map, until it gives none. *)
Fixpoint take_maps (fuel : nat) (maximumSize : Z) (s : MapStreamResponse)
    : outcome (list bytes) * MapStreamResponse :=
  match fuel with
  | O => (Ok [], s)
  | S fuel =>
      match MapStreamResponse_TakeMap maximumSize s with
      | (Ok (Some map), s1) =>
          let '(r, s2) := take_maps fuel maximumSize s1 in ((let! maps := r in Ok (map :: maps)), s2)
      | (Ok None, s1) => (Ok [], s1)
      | (Throw e, s1) => (Throw e, s1)
      | (UB, s1) => (UB, s1)
      end
  end.

Fixpoint receive_map_chunks (maximumSize : Z) (chunks : list bytes) (s : MapStreamResponse)
    : outcome (list bytes) * MapStreamResponse :=
  match chunks with
  | [] => (Ok [], s)
  | chunk :: chunks =>
      let s1 := MapStreamResponse_ReceiveData chunk s in
      let '(r, s2) := take_maps (S (length (ms_body s1))) maximumSize s1 in
      match r with
      | Ok maps => let '(r', s3) := receive_map_chunks maximumSize chunks s2 in ((let! rest := r' in Ok (maps ++ rest)), s3)
      | Throw e => (Throw e, s2)
      | UB => (UB, s2)
      end
  end.

(** ** The stream, whatever the chunks *)

Lemma zlen_map_frame text : zlen (map_frame text) = 4 + zlen text.
Proof. unfold map_frame. rewrite zlen_app. change (zlen [_; _; _; _]) with 4. done. Qed.

(** The length that [TakeMap] reads. *)
Lemma map_size_read n :
  0 <= n < 2 ^ 32 →
  Z.lor (Z.lor (Z.lor (u8 n) (Z.shiftl (u8 (Z.shiftr n 8)) 8)) (Z.shiftl (u8 (Z.shiftr n 16)) 16))
    (Z.shiftl (u8 (Z.shiftr n 24)) 24) = n.
Proof.
  intros Hn. apply Z.bits_inj'. intros i Hi. rewrite !Z.lor_spec, !Z.shiftl_spec by done. unfold wrap.
  assert (∀ x j, Z.testbit (x mod 2 ^ 8) j = if bool_decide (0 <= j < 8) then Z.testbit x j else false) as Hm.
  { intros x j. case_bool_decide.
    - by rewrite Z.mod_pow2_bits_low by lia.
    - destruct (Z.neg_nonneg_cases j); [by rewrite Z.testbit_neg_r|]. by rewrite Z.mod_pow2_bits_high by lia. }
  rewrite !Hm. destruct (decide (i < 32)) as [Hlt|Hge].
  - repeat case_bool_decide; try lia; rewrite ?Z.shiftr_spec, ?orb_false_r, ?orb_false_l by lia; f_equal; lia.
  - repeat case_bool_decide; try lia. symmetry. apply (in_width_high 32); [done|lia].
Qed.

Definition wf_map (maximumSize : Z) (text : bytes) : Prop := 0 < zlen text <= maximumSize ∧ zlen text < 2 ^ 32.

Lemma TakeMap_whole maximumSize text rest s :
  wf_map maximumSize text → ms_body s = map_frame text ++ rest →
  MapStreamResponse_TakeMap maximumSize s
  = (Ok (Some text), {| ms_streamId := ms_streamId s; ms_status := ms_status s; ms_body := rest |}).
Proof.
  intros [Hm Hw] Hb. unfold MapStreamResponse_TakeMap, ebind, eget, elift. rewrite Hb.
  assert (zlen (map_frame text ++ rest) = 4 + zlen text + zlen rest) as Hz by (rewrite zlen_app, zlen_map_frame; lia).
  pose proof (zlen_nonneg rest). rewrite (proj2 (Z.ltb_ge _ _)) by (unfold MapLengthSize; lia).
  change (rd (map_frame text ++ rest) 0) with (Ok (u8 (zlen text))).
  change (rd (map_frame text ++ rest) 1) with (Ok (u8 (Z.shiftr (zlen text) 8))).
  change (rd (map_frame text ++ rest) 2) with (Ok (u8 (Z.shiftr (zlen text) 16))).
  change (rd (map_frame text ++ rest) 3) with (Ok (u8 (Z.shiftr (zlen text) 24))). cbv beta iota zeta.
  rewrite map_size_read by lia. rewrite (proj2 (Z.eqb_neq _ _)), (proj2 (Z.ltb_ge _ _)) by lia. cbn [orb].
  rewrite (proj2 (Z.ltb_ge _ _)) by (unfold MapLengthSize; lia).
  assert (slice (map_frame text ++ rest) MapLengthSize (MapLengthSize + zlen text) = Ok text) as ->.
  { unfold map_frame. rewrite <- app_assoc. by apply slice_full. }
  rewrite slice_app_drop by (rewrite ?zlen_app, ?zlen_map_frame; unfold MapLengthSize; lia). done.
Qed.

Lemma TakeMap_partial maximumSize text body missing s :
  wf_map maximumSize text → ms_body s = body → body ++ missing = map_frame text → missing ≠ [] →
  MapStreamResponse_TakeMap maximumSize s = (Ok None, s).
Proof.
  intros [Hm Hw] Hs Hb Hne. unfold MapStreamResponse_TakeMap, ebind, eget, elift. rewrite Hs.
  assert (zlen body + zlen missing = 4 + zlen text) as Hz by (rewrite <- zlen_app, Hb; apply zlen_map_frame).
  assert (0 < zlen missing) by (destruct missing; [done|zlia]).
  destruct (Z.ltb_spec (zlen body) MapLengthSize) as [|Hge]; [done|]. unfold MapLengthSize in *.
  assert (∀ i, 0 <= i < 4 → rd body i = rd (map_frame text) i) as Hr.
  { intros i Hi. rewrite <- Hb, rd_app_l by lia. done. }
  rewrite !Hr by lia.
  change (rd (map_frame text) 0) with (Ok (u8 (zlen text))).
  change (rd (map_frame text) 1) with (Ok (u8 (Z.shiftr (zlen text) 8))).
  change (rd (map_frame text) 2) with (Ok (u8 (Z.shiftr (zlen text) 16))).
  change (rd (map_frame text) 3) with (Ok (u8 (Z.shiftr (zlen text) 24))). cbv beta iota zeta.
  rewrite map_size_read by lia. rewrite (proj2 (Z.eqb_neq _ _)), (proj2 (Z.ltb_ge _ _)) by lia. cbn [orb].
  by rewrite (proj2 (Z.ltb_lt _ _)) by lia.
Qed.

Definition with_body (body : bytes) (s : MapStreamResponse) : MapStreamResponse :=
  {| ms_streamId := ms_streamId s; ms_status := ms_status s; ms_body := body |}.

Definition frames_of (texts : list bytes) : bytes := concat (map map_frame texts).

(** Some of the maps are complete, and the rest of the bytes begins the others. *)
Lemma take_maps_spec maximumSize fuel texts s more :
  Forall (wf_map maximumSize) texts → ms_body s ++ more = frames_of texts → (length (ms_body s) < fuel)%nat →
  ∃ maps rest body, take_maps fuel maximumSize s = (Ok maps, with_body body s)
    ∧ texts = maps ++ rest ∧ body ++ more = frames_of rest ∧ (more = [] → body = []).
Proof.
  intros Hwf. revert fuel s. induction Hwf as [|text texts Ht Hwf IH]; intros fuel s Hb Hf; (destruct fuel as [|fuel]; [lia|]).
  - apply app_eq_nil in Hb as [Hb ->]. exists [], [], []. cbn [take_maps].
    unfold MapStreamResponse_TakeMap, ebind, eget. rewrite Hb. cbn. split; [|done]. destruct s; cbn in *. by subst.
  - cbn [take_maps]. unfold frames_of in Hb. cbn [map concat] in Hb.
    destruct (Z.le_gt_cases (zlen (map_frame text)) (zlen (ms_body s))) as [Hle|Hgt].
    + destruct (app_split _ _ _ _ Hb Hle) as (rest & Hbody & Hrest).
      rewrite (TakeMap_whole maximumSize text rest s Ht Hbody).
      destruct (IH fuel (with_body rest s) Hrest) as (maps & others & body & Htake & -> & Hbo & Hnil).
      { cbn. rewrite Hbody, length_app in Hf. unfold map_frame in Hf. cbn in Hf. lia. }
      unfold with_body in Htake |- *. rewrite Htake. exists (text :: maps), others, body. done.
    + symmetry in Hb. destruct (app_split _ _ _ _ Hb) as (missing & Hmiss & Hmore); [lia|].
      assert (missing ≠ []) as Hne.
      { intros ->. rewrite app_nil_r in Hmiss. rewrite Hmiss in Hgt. lia. }
      rewrite (TakeMap_partial maximumSize text (ms_body s) missing s Ht eq_refl (eq_sym Hmiss) Hne).
      exists [], (text :: texts), (ms_body s). split; [by destruct s|]. split; [done|]. split; [by rewrite <- Hb|].
      intros ->. by destruct missing.
Qed.

(** C23: the maps of a stream arrive as they were sent.  However the bytes of a sequence of maps
    are cut into the chunks of the stream, the maps that [TakeMap] gives after each chunk are
    together the maps that were sent, in order and complete, and nothing is left over. *)
Theorem MapStreamResponse_any_chunks maximumSize texts chunks streamId :
  Forall (wf_map maximumSize) texts → concat chunks = frames_of texts →
  receive_map_chunks maximumSize chunks (MapStreamResponse_Start streamId MapStreamResponse_new)
  = (Ok texts, {| ms_streamId := streamId; ms_status := None; ms_body := [] |}).
Proof.
  intros Hwf Hc.
  assert (∀ chunks texts s, Forall (wf_map maximumSize) texts → ms_body s ++ concat chunks = frames_of texts →
    (chunks = [] → ms_body s = [] ∧ texts = []) →
    receive_map_chunks maximumSize chunks s = (Ok texts, with_body [] s)) as H.
  { clear. intros chunks. induction chunks as [|chunk chunks IH]; intros texts s Hwf Hb Hnil.
    - destruct (Hnil eq_refl) as [Hs ->]. cbn. by destruct s; cbn in *; subst.
    - cbn [receive_map_chunks]. cbn [concat] in Hb. rewrite app_assoc in Hb.
      destruct (take_maps_spec maximumSize (S (length (ms_body (MapStreamResponse_ReceiveData chunk s)))) texts
        (MapStreamResponse_ReceiveData chunk s) (concat chunks) Hwf Hb) as (maps & rest & body & -> & -> & Hbo & Hn).
      { lia. }
      apply Forall_app in Hwf as [_ Hwf].
      rewrite (IH rest (with_body body (MapStreamResponse_ReceiveData chunk s))); [done|done|done|].
      intros ->. cbn. specialize (Hn eq_refl). subst body. split; [done|]. destruct rest; [done|].
      cbn in Hbo. discriminate. }
  apply H; [done|done|]. intros ->. cbn in Hc |- *. split; [done|]. by destruct texts.
Qed.

(** ** Capabilities *)

Section capabilities.
  Context (ip6addr_aton : bytes → option bytes).

(** The peer has the capability by a grant of some filter: an address of the peer is a source of the
    grant, and the first of the node's own addresses of that family is a destination of it. *)
Definition granted_by (c : FullConfig) (peer : FullPeer) (name : bytes) : Prop :=
  ∃ entry grant source destination,
    entry ∈ fc_filters c ∧ grant ∈ entry.2 ∧ name ∈ cg_Names grant
    ∧ source ∈ Capability_Addresses ip6addr_aton (fp_addresses peer) (fp_address peer)
    ∧ List.find (fun value => bool_decide (ia_family value = ia_family source))
        (Capability_Addresses ip6addr_aton (sf_addresses (fc_self c)) (sf_address (fc_self c))) = Some destination
    ∧ (∃ range, range ∈ cg_Sources grant ∧ IpRange_Contains range source = true)
    ∧ (∃ range, range ∈ cg_Destinations grant ∧ IpRange_Contains range destination = true).

Lemma Capability_Matches_true ranges address :
  Capability_Matches ranges address = true ↔ ∃ range, range ∈ ranges ∧ IpRange_Contains range address = true.
Proof.
  unfold Capability_Matches. rewrite existsb_exists. split; intros (r & Hr & Hc); exists r;
    (split; [by apply list_elem_of_In|done]).
Qed.

Lemma grant_applies_true destinations sources grant :
  grant_applies destinations sources grant = true ↔
  ∃ source destination, source ∈ sources
    ∧ List.find (fun value => bool_decide (ia_family value = ia_family source)) destinations = Some destination
    ∧ (∃ range, range ∈ cg_Sources grant ∧ IpRange_Contains range source = true)
    ∧ (∃ range, range ∈ cg_Destinations grant ∧ IpRange_Contains range destination = true).
Proof.
  unfold grant_applies. rewrite existsb_exists. split.
  - intros (source & Hin & Hs). destruct (List.find _ destinations) as [d|] eqn:E; [|done].
    apply andb_true_iff in Hs as [H1%Capability_Matches_true H2%Capability_Matches_true].
    exists source, d. by rewrite list_elem_of_In.
  - intros (source & d & Hin & Hd & H1%Capability_Matches_true & H2%Capability_Matches_true).
    exists source. rewrite <- list_elem_of_In, Hd, H1, H2. done.
Qed.

(** A set of names. *)
Definition names_ok (names : list (bytes * unit)) : Prop := map_ok names.

Lemma insert_names_spec more names :
  names_ok names → names_ok (insert_names names more)
  ∧ ∀ name, name ∈ (insert_names names more).*1 ↔ name ∈ more ∨ name ∈ names.*1.
Proof.
  unfold insert_names. revert names. induction more as [|n more IH]; intros names Hok; cbn [foldl]; [set_solver|].
  destruct (IH (map_emplace n tt names) ltac:(by apply map_ok_emplace)) as [Hok' Hin]. split; [done|].
  intros name. rewrite Hin, elem_of_cons.
  assert (name ∈ (map_emplace n tt names).*1 ↔ name = n ∨ name ∈ names.*1) as ->; [|tauto].
  assert (∀ m : list (bytes * unit), map_ok m → name ∈ m.*1 ↔ is_Some (map_find name m)) as Hf.
  { intros m Hm. rewrite list_elem_of_fmap. split.
    - intros ([k []] & -> & Hk). exists tt. by apply map_elem_find.
    - intros [[] Hk%map_find_elem]. by exists (name, tt). }
  rewrite !Hf, map_find_emplace by (done || by apply map_ok_emplace).
  case_bool_decide as Hn; [subst; split; eauto|]. split; [by right|]. by intros [->|?].
Qed.

(** The names that the grants of some filters give. *)
Lemma fold_grants_spec destinations sources filters names :
  names_ok names →
  let names' := foldl (fun names (entry : bytes * list CapabilityPresenceGrant) =>
    foldl (fun names grant => if grant_applies destinations sources grant then insert_names names (cg_Names grant)
                              else names) names entry.2) names filters in
  names_ok names' ∧ ∀ name, name ∈ names'.*1 ↔
    (∃ entry grant, entry ∈ filters ∧ grant ∈ entry.2 ∧ name ∈ cg_Names grant
       ∧ grant_applies destinations sources grant = true) ∨ name ∈ names.*1.
Proof.
  assert (∀ grants names, names_ok names →
    let names' := foldl (fun names grant => if grant_applies destinations sources grant
      then insert_names names (cg_Names grant) else names) names grants in
    names_ok names' ∧ ∀ name, name ∈ names'.*1 ↔
      (∃ grant, grant ∈ grants ∧ name ∈ cg_Names grant ∧ grant_applies destinations sources grant = true)
      ∨ name ∈ names.*1) as Hg.
  { intros grants. induction grants as [|g grants IH]; intros ns Hok; cbn [foldl]; [set_solver|].
    destruct (grant_applies destinations sources g) eqn:E.
    - destruct (insert_names_spec (cg_Names g) ns Hok) as [Hok1 Hin1]. destruct (IH _ Hok1) as [Hok2 Hin2].
      split; [done|]. intros name. rewrite Hin2, Hin1. set_solver.
    - destruct (IH _ Hok) as [Hok2 Hin2]. split; [done|]. intros name. rewrite Hin2. split; [set_solver|].
      intros [(grant & [->|Hg]%elem_of_cons & Hn & Ha)|Hn]; [congruence|set_solver|set_solver]. }
  revert names. induction filters as [|entry filters IH]; intros names Hok; cbn [foldl]; [set_solver|].
  destruct (Hg entry.2 names Hok) as [Hok1 Hin1]. destruct (IH _ Hok1) as [Hok2 Hin2]. split; [done|].
  intros name. rewrite Hin2, Hin1. set_solver.
Qed.

Lemma peer_capabilities_spec c peer :
  NoDup (peer_capabilities ip6addr_aton c peer)
  ∧ ∀ name, name ∈ peer_capabilities ip6addr_aton c peer ↔ granted_by c peer name.
Proof.
  unfold peer_capabilities.
  destruct (fold_grants_spec (Capability_Addresses ip6addr_aton (sf_addresses (fc_self c)) (sf_address (fc_self c)))
    (Capability_Addresses ip6addr_aton (fp_addresses peer) (fp_address peer)) (fc_filters c) []) as [Hok Hin];
    [constructor|]. split.
  - clear Hin. revert Hok. generalize (foldl (fun names entry => foldl (fun names grant =>
      if grant_applies (Capability_Addresses ip6addr_aton (sf_addresses (fc_self c)) (sf_address (fc_self c)))
           (Capability_Addresses ip6addr_aton (fp_addresses peer) (fp_address peer)) grant
      then insert_names names (cg_Names grant) else names) names entry.2) [] (fc_filters c)).
    intros l Hl. induction l as [|[k []] l IH]; [constructor|]. cbn. constructor.
    + intros ([k' []] & -> & Hk)%list_elem_of_fmap. by eapply map_ok_head.
    + apply IH. by apply StronglySorted_inv in Hl as [? _].
  - intros name. rewrite Hin. unfold granted_by. setoid_rewrite grant_applies_true. set_solver.
Qed.

(** C7: a peer has exactly the capabilities that the packet filter grants it.  After a refresh the
    peers are as they were but for their capabilities, which are, each once, the names of the
    grants of all filters whose sources hold an address of the peer and whose destinations hold the
    node's own address of the same family. *)
Theorem RefreshPeerCapabilities_granted c :
  Forall2 (fun peer peer' =>
    peer' = fp_set_capabilities (fp_capabilities peer') peer ∧ NoDup (fp_capabilities peer')
    ∧ ∀ name, name ∈ fp_capabilities peer' ↔ granted_by c peer name)
    (fc_peers c) (fc_peers (RefreshPeerCapabilities ip6addr_aton c)).
Proof.
  unfold RefreshPeerCapabilities. cbn. induction (fc_peers c) as [|peer peers IH]; cbn; constructor; [|done].
  destruct (peer_capabilities_spec c peer) as [Hn Hin]. by split_and!.
Qed.

End capabilities.

(** ** Updates of the filters *)

Section filter_updates.
  Context (ip6addr_aton : bytes → option bytes).

(** The filter of that name after [PacketFilter], and after [PacketFilters]: each name on its own. *)
Definition base_filter (map : json) (c : FullConfig) (name : bytes) : outcome (option (list CapabilityPresenceGrant)) :=
  match json_present (lit "PacketFilter") map with
  | Some rules =>
      if bool_decide (name = lit "base") then let! grants := ParseRules ip6addr_aton rules in Ok (Some grants)
      else Ok (map_find name (fc_filters c))
  | None => Ok (map_find name (fc_filters c))
  end.

(** What an entry of [PacketFilters] says of the filter of its name: null removes it. *)
Definition named_filter (entry : option json) (otherwise : outcome (option (list CapabilityPresenceGrant)))
    : outcome (option (list CapabilityPresenceGrant)) :=
  match entry with
  | Some rules =>
      if is_null rules then Ok None else let! grants := ParseRules ip6addr_aton rules in Ok (Some grants)
  | None => otherwise
  end.

Definition filter_spec (map : json) (c : FullConfig) (name : bytes) : outcome (option (list CapabilityPresenceGrant)) :=
  match json_present (lit "PacketFilters") map with
  | None => base_filter map c name
  | Some updates =>
      named_filter (if bool_decide (name = lit "*") then None else json_find name updates)
        (if clears_all updates then Ok None else base_filter map c name)
  end.

Lemma filter_updates_spec l filters filters' :
  map_ok l → map_ok filters → ofold (filter_update ip6addr_aton) filters l = Ok filters' →
  map_ok filters' ∧ ∀ name,
    named_filter (if bool_decide (name = lit "*") then None else map_find name l) (Ok (map_find name filters))
    = Ok (map_find name filters').
Proof.
  revert filters. induction l as [|[k rules] l IH]; intros filters Hl Hf Hr; cbn [ofold] in Hr.
  { injection Hr as <-. split; [done|]. intros name. by destruct (bool_decide _). }
  apply obind_Ok_inv in Hr as (f1 & H1 & Hr). pose proof Hl as [Hl' _]%StronglySorted_inv.
  pose proof (map_ok_head _ _ _ Hl) as Hhead.
  assert (map_find k l = None) as Hk.
  { destruct (map_find k l) eqn:E; [|done]. apply map_find_elem in E. by destruct (Hhead j). }
  unfold filter_update in H1. cbn [fst snd] in H1. destruct (bool_decide (k = lit "*")) eqn:Es.
  { injection H1 as <-. destruct (IH filters Hl' Hf Hr) as [Hok Hn]. split; [done|]. intros name. rewrite <- Hn.
    apply bool_decide_eq_true in Es as ->. cbn [map_find]. by case_bool_decide. }
  assert (map_ok f1 ∧ ∀ name, Ok (map_find name f1)
    = if bool_decide (name = k) then named_filter (Some rules) (Ok None) else Ok (map_find name filters)) as [Hf1 Hn1].
  { unfold named_filter. destruct (is_null rules) eqn:En.
    - injection H1 as <-. split; [by apply map_ok_erase|]. intros name. rewrite map_find_erase.
      repeat case_bool_decide; congruence.
    - apply obind_Ok_inv in H1 as (g & Hg & H1). injection H1 as <-. split; [by apply map_ok_assign|].
      intros name. rewrite Hg, map_find_assign by done. repeat case_bool_decide; cbn; congruence. }
  destruct (IH f1 Hl' Hf1 Hr) as [Hok Hn]. split; [done|]. intros name. rewrite <- Hn, Hn1. cbn [map_find].
  destruct (bool_decide (name = lit "*")) eqn:E1; [apply bool_decide_eq_true in E1 as ->|].
  - apply bool_decide_eq_false in Es. cbn. by rewrite bool_decide_false.
  - destruct (bool_decide (name = k)) eqn:E2; [|done]. apply bool_decide_eq_true in E2 as ->. rewrite Hk.
    unfold named_filter. by destruct (is_null rules).
Qed.

Lemma base_update_spec map c f1 base :
  map_ok (fc_filters c) → base_update ip6addr_aton map (fc_filters c) = Ok (f1, base) →
  map_ok f1 ∧ (∀ name, base_filter map c name = Ok (map_find name f1)) ∧ (base = false → f1 = fc_filters c).
Proof.
  intros Hok H1. unfold base_update, base_filter in *. generalize dependent (lit "base"). intros key H1. destruct (json_present _ map) as [rules|].
  - apply obind_Ok_inv in H1 as (g & Hg & H1). injection H1 as <- <-. split_and!; [by apply map_ok_assign| |done].
    intros name. rewrite Hg, map_find_assign by done. repeat case_bool_decide; cbn; congruence.
  - by injection H1 as <- <-.
Qed.

Lemma named_update_spec map c f1 f2 named :
  json_ok (fun _ => True) (fun _ => True) map → map_ok f1 → (∀ name, base_filter map c name = Ok (map_find name f1)) →
  named_update ip6addr_aton map f1 = Ok (f2, named) →
  map_ok f2 ∧ (∀ name, filter_spec map c name = Ok (map_find name f2)) ∧ (named = false → f2 = f1).
Proof.
  intros Hmap Hf1 Hbase H2. unfold named_update, filter_spec in *.
  destruct (json_present (lit "PacketFilters") map) as [updates|] eqn:Eu; [|by injection H2 as <- <-].
  destruct updates; try done. cbn [is_object negb] in H2. apply obind_Ok_inv in H2 as (f & Hf & H2).
  injection H2 as <- <-. cbn [json_items] in Hf.
  assert (map_ok l) as Hl.
  { unfold json_present in Eu. destruct (json_find _ map) as [v|] eqn:Ev; [|done].
    destruct (is_null v); [done|]. injection Eu as ->. pose proof (json_find_ok _ _ _ Hmap Ev) as Hv. by inversion Hv. }
  set (start := if clears_all (JObject l) then [] else f1) in *.
  destruct (filter_updates_spec l start f Hl) as [Hok Hn]; [|exact Hf|].
  { unfold start. destruct (clears_all _); [constructor|done]. }
  split_and!; [done| |done]. intros name. rewrite <- Hn. cbn [json_find]. f_equal. unfold start.
  destruct (clears_all _); [done|]. by rewrite Hbase.
Qed.

(** C19: an update of the packet filter does to each filter what the update says of it.  Taken
    entry by entry, the update gives the filter of every name what a reading of the update for that
    name alone gives: the rules of its entry, nothing if the entry is null or all filters are
    cleared, and else the old filter; nothing but the filters changes, and nothing at all when a
    rule is malformed. *)
Theorem ApplyCapabilityFilterUpdate_refines map c :
  json_ok (fun _ => True) (fun _ => True) map → map_ok (fc_filters c) →
  let '(r, c') := ApplyCapabilityFilterUpdate ip6addr_aton map c in
  match r with
  | Ok changed =>
      map_ok (fc_filters c') ∧ c' = fc_set_filters (fc_filters c') c
      ∧ (∀ name, filter_spec map c name = Ok (map_find name (fc_filters c')))
      ∧ (changed = false → c' = c)
  | _ => c' = c
  end.
Proof.
  intros Hmap Hok. unfold ApplyCapabilityFilterUpdate, ebind, eget, elift.
  destruct (base_update ip6addr_aton map (fc_filters c)) as [[f1 base]|e|] eqn:E1; [|done|done].
  destruct (base_update_spec map c f1 base Hok E1) as (Hf1 & Hs1 & Hb1).
  destruct (named_update ip6addr_aton map f1) as [[f2 named]|e|] eqn:E2; [|done|done].
  destruct (named_update_spec map c f1 f2 named Hmap Hf1 Hs1 E2) as (Hf2 & Hs2 & Hb2).
  unfold emod, eret. destruct base, named; cbn [orb]; cbn; try (by split_and!).
  assert (f2 = fc_filters c) as Hf by (rewrite Hb2, Hb1; done). rewrite Hf in Hf2, Hs2. by destruct c; split_and!.
Qed.

End filter_updates.

(** ** Peers by identifier *)

Definition peer_ids (peers : list FullPeer) : list Z := fp_nodeId <$> peers.

Definition peers_map (peers : list FullPeer) : gmap Z FullPeer :=
  list_to_map ((fun p => (fp_nodeId p, p)) <$> peers).

(** The same outcome on related results. *)
Definition outcome_rel {A B} (R : A → B → Prop) (o : outcome A) (o' : outcome B) : Prop :=
  match o, o' with
  | Ok a, Ok b => R a b
  | Throw e, Throw e' => e = e'
  | UB, UB => True
  | _, _ => False
  end.

Lemma outcome_rel_bind {A B C D} (R : A → B → Prop) (Q : C → D → Prop) o o' k k' :
  outcome_rel R o o' → (∀ a b, R a b → outcome_rel Q (k a) (k' b)) → outcome_rel Q (obind o k) (obind o' k').
Proof. destruct o, o'; cbn; try done. intros H Hk. by apply Hk. Qed.

Lemma outcome_rel_same {A C D} (Q : C → D → Prop) (o : outcome A) k k' :
  (∀ a, outcome_rel Q (k a) (k' a)) → outcome_rel Q (obind o k) (obind o k').
Proof. intros Hk. by destruct o; cbn. Qed.

Lemma ofold_rel {A B C} (R : B → C → Prop) (f : B → A → outcome B) (g : C → A → outcome C) l b c :
  (∀ b c x, R b c → outcome_rel R (f b x) (g c x)) → R b c → outcome_rel R (ofold f b l) (ofold g c l).
Proof.
  intros Hf. revert b c. induction l as [|x l IH]; intros b c HR; cbn; [done|].
  eapply outcome_rel_bind; [by apply Hf|]. intros b' c' HR'. by apply IH.
Qed.

(** *** The specification of an update: the peers as a finite map *)

Definition spec_remove (state : gmap Z FullPeer * list Z) (id : json) : outcome (gmap Z FullPeer * list Z) :=
  let! nodeId := get_uint64 id in Ok (delete nodeId state.1, state.2 ++ [nodeId]).

Definition spec_change (regions : json) (profiles : list UserProfile) (m : gmap Z FullPeer) (node : json)
    : outcome (gmap Z FullPeer) :=
  let! peer := Peer node regions profiles in
  Ok (<[fp_nodeId peer := match m !! fp_nodeId peer with
                          | Some existing => merge_peer peer existing
                          | None => peer
                          end]> m).

(** A change of one peer, if there is such a peer. *)
Definition spec_alter (f : FullPeer → outcome FullPeer) (nodeId : Z) (state : gmap Z FullPeer * bool)
    : outcome (gmap Z FullPeer * bool) :=
  match state.1 !! nodeId with
  | None => Ok state
  | Some peer => let! peer := f peer in Ok (<[nodeId := peer]> state.1, true)
  end.

Definition spec_online (state : gmap Z FullPeer * bool) (item : bytes * json) : outcome (gmap Z FullPeer * bool) :=
  let! nodeId := stoull item.1 in
  spec_alter (fun p => let! online := get_bool item.2 in
                       Ok (fp_set_times online (fp_lastSeen p) (fp_keyExpiry p) p)) nodeId state.

Definition spec_seen (now : bytes) (state : gmap Z FullPeer * bool) (item : bytes * json)
    : outcome (gmap Z FullPeer * bool) :=
  let! nodeId := stoull item.1 in
  spec_alter (fun p => let! seen := get_bool item.2 in
                       Ok (fp_set_times (fp_online p) (if seen then now else []) (fp_keyExpiry p) p)) nodeId state.

Definition spec_patch (regions : json) (state : gmap Z FullPeer * bool) (patch : json)
    : outcome (gmap Z FullPeer * bool) :=
  let! nodeId := json_value get_ull (lit "NodeID") 0 patch in spec_alter (patch_fields regions patch) nodeId state.

(** A phase of an update, if the update has it. *)
Definition phase {A} (name : bytes) (map : json) (state : A) (step : json → outcome A) : outcome A :=
  match json_find name map with Some v => step v | None => Ok state end.

Definition spec_update (now : bytes) (map regions : json) (profiles : list UserProfile) (m : gmap Z FullPeer)
    : outcome (gmap Z FullPeer * list Z * bool) :=
  let! (m, removed, changed) := phase (lit "PeersRemoved") map (m, [], false) (fun ids =>
    let! (m, removed) := ofold spec_remove (m, []) (json_elements ids) in Ok (m, removed, true)) in
  let! (m, changed) := phase (lit "PeersChanged") map (m, changed) (fun nodes =>
    let! m := ofold (spec_change regions profiles) m (json_elements nodes) in Ok (m, true)) in
  let! (m, changed) := phase (lit "OnlineChange") map (m, changed) (fun changes =>
    ofold spec_online (m, changed) (json_items changes)) in
  let! (m, changed) := phase (lit "PeerSeenChange") map (m, changed) (fun changes =>
    ofold (spec_seen now) (m, changed) (json_items changes)) in
  let! (m, changed) := phase (lit "PeersChangedPatch") map (m, changed) (fun patches =>
    ofold (spec_patch regions) (m, changed) (json_elements patches)) in
  Ok (m, removed, changed).

(** *** The list and the map *)

Lemma FindPeer_map peers n : FindPeer peers n = peers_map peers !! n.
Proof.
  unfold FindPeer, peers_map. induction peers as [|p peers IH]; cbn; [done|].
  destruct (Z.eqb_spec (fp_nodeId p) n) as [->|Hne]; [by rewrite lookup_insert_eq|]. by rewrite lookup_insert_ne.
Qed.

Lemma FindPeer_id peers n p : FindPeer peers n = Some p → fp_nodeId p = n.
Proof. intros Hf%find_some. destruct Hf as [_ Hf]. by apply Z.eqb_eq. Qed.

Lemma FindPeer_None_id peers n : FindPeer peers n = None → n ∉ peer_ids peers.
Proof.
  intros Hf (p & -> & Hp)%list_elem_of_fmap. apply list_elem_of_In in Hp.
  pose proof (find_none _ _ Hf p Hp) as H. cbn in H. lia.
Qed.

Lemma peers_map_filter peers n : peers_map (filter (fun p => fp_nodeId p ≠ n) peers) = delete n (peers_map peers).
Proof.
  unfold peers_map. induction peers as [|p peers IH]; [done|]. rewrite filter_cons. cbn [fmap list_fmap list_to_map foldr].
  case_decide as E; cbn.
  - rewrite IH. by rewrite delete_insert_ne.
  - by rewrite E, delete_insert_eq.
Qed.

Lemma peers_map_append peers p :
  fp_nodeId p ∉ peer_ids peers → peers_map (peers ++ [p]) = <[fp_nodeId p := p]> (peers_map peers).
Proof.
  unfold peers_map. induction peers as [|q peers IH]; cbn; [done|]. intros Hn. rewrite IH by set_solver.
  apply insert_insert_ne. set_solver.
Qed.

Lemma alter_peer_ids f n peers :
  (∀ p, p ∈ peers → fp_nodeId p = n → fp_nodeId (f p) = n) → peer_ids (alter_config_peer f n peers) = peer_ids peers.
Proof.
  intros Hf. induction peers as [|p peers IH]; cbn; [done|]. destruct (Z.eqb_spec (fp_nodeId p) n) as [E|E]; cbn.
  - by rewrite Hf, E by (done || by left).
  - f_equal. apply IH. intros q Hq. apply Hf. by right.
Qed.

Lemma peers_map_alter f n peers p :
  FindPeer peers n = Some p → fp_nodeId (f p) = n →
  peers_map (alter_config_peer f n peers) = <[n := f p]> (peers_map peers).
Proof.
  unfold peers_map. induction peers as [|q peers IH]; cbn; [done|]. destruct (Z.eqb_spec (fp_nodeId q) n) as [E|E].
  - intros [= ->] Hid. cbn. rewrite Hid, E. by rewrite insert_insert_eq.
  - intros Hf Hid. cbn. rewrite (IH Hf Hid). apply insert_insert_ne. congruence.
Qed.

(** *** Each phase *)

Lemma ApplyDerpMetadata_id p regions p' : ApplyDerpMetadata p regions = Ok p' → fp_nodeId p' = fp_nodeId p.
Proof.
  unfold ApplyDerpMetadata. destruct (_ =? 0); [by intros [= <-]|]. destruct (json_find _ regions) as [region|]; [|by intros [= <-]].
  intros (code & _ & H)%obind_Ok_inv. apply obind_Ok_inv in H as (host & _ & H). by injection H as <-.
Qed.

Lemma patch_fields_id regions patch p p' : patch_fields regions patch p = Ok p' → fp_nodeId p' = fp_nodeId p.
Proof.
  unfold patch_fields. intros (p1 & H1 & H)%obind_Ok_inv. apply obind_Ok_inv in H as (p2 & H2 & H). injection H as <-. cbn.
  assert (fp_nodeId p1 = fp_nodeId p) as <-.
  { destruct (json_find (lit "DERPRegion") patch); [|by injection H1 as <-].
    apply obind_Ok_inv in H1 as (region & _ & H1). by apply ApplyDerpMetadata_id in H1. }
  destruct (json_find (lit "Endpoints") patch); [|by injection H2 as <-].
  apply obind_Ok_inv in H2 as (endpoints & _ & H2). by injection H2 as <-.
Qed.

Lemma merge_peer_id peer existing : fp_nodeId (merge_peer peer existing) = fp_nodeId peer.
Proof. unfold merge_peer. repeat (destruct (_ && _) || destruct (bool_decide _)); done. Qed.

(** The peers of the update and of the specification. *)
Definition same_peer_lists (peers : list FullPeer) (m : gmap Z FullPeer) : Prop :=
  NoDup (peer_ids peers) ∧ peers_map peers = m.

Definition same_state {A} (s : list FullPeer * A) (s' : gmap Z FullPeer * A) : Prop :=
  same_peer_lists s.1 s'.1 ∧ s.2 = s'.2.

Lemma remove_peer_rel s s' id : same_state s s' → outcome_rel same_state (remove_peer s id) (spec_remove s' id).
Proof.
  destruct s as [peers removed], s' as [m removed']. intros [[Hn Hm] Hr]. cbn [fst snd] in *. subst m removed'.
  unfold remove_peer, spec_remove. cbn [fst snd].
  apply outcome_rel_same. intros n. cbn. split; [split|done]; cbn.
  - induction peers as [|p peers IH]; [constructor|]. rewrite filter_cons. apply NoDup_cons in Hn as [Hp Hn].
    case_decide; [|by apply IH]. cbn. apply NoDup_cons. split; [|by apply IH].
    intros (q & Heq & [_ Hq]%list_elem_of_filter)%list_elem_of_fmap. apply Hp. apply list_elem_of_fmap. by exists q.
  - apply peers_map_filter.
Qed.

Lemma change_peer_rel regions profiles peers m node :
  same_peer_lists peers m → outcome_rel same_peer_lists (change_peer regions profiles peers node) (spec_change regions profiles m node).
Proof.
  intros [Hn <-]. unfold change_peer, spec_change. apply outcome_rel_same. intros peer. rewrite FindPeer_map.
  destruct (peers_map peers !! fp_nodeId peer) as [existing|] eqn:E; cbn; rewrite <- FindPeer_map in E.
  - split.
    + rewrite alter_peer_ids; [done|]. intros p _ _. apply merge_peer_id.
    + rewrite (peers_map_alter _ _ _ _ E); [done|apply merge_peer_id].
  - apply FindPeer_None_id in E. split; [|by apply peers_map_append].
    unfold peer_ids in *. rewrite fmap_app. apply NoDup_app. split_and!; [done| |apply NoDup_singleton].
    intros x Hx ->%list_elem_of_singleton. done.
Qed.

(** A change of the found peer that keeps its identifier. *)
Lemma alter_state peers n p (h : FullPeer → FullPeer) :
  NoDup (peer_ids peers) → FindPeer peers n = Some p → (∀ p, fp_nodeId p = n → fp_nodeId (h p) = n) →
  same_state (alter_config_peer h n peers, true) (<[n := h p]> (peers_map peers), true).
Proof.
  intros Hn Hf Hh. split; [split|done]; cbn.
  - rewrite alter_peer_ids; [done|]. intros q _. apply Hh.
  - apply peers_map_alter; [done|]. by apply Hh, (FindPeer_id peers).
Qed.

Lemma online_change_rel s s' item : same_state s s' → outcome_rel same_state (online_change s item) (spec_online s' item).
Proof.
  destruct s as [peers changed], s' as [m changed']. intros [[Hn Hm] Hc]. cbn [fst snd] in *. subst m changed'.
  unfold online_change, spec_online. apply outcome_rel_same. intros n. unfold spec_alter. cbn [fst snd].
  rewrite <- FindPeer_map. destruct (FindPeer peers n) as [p|] eqn:E; [|done]. destruct (get_bool item.2) as [online|e|]; cbn; try done.
  by apply (alter_state peers n p (fun p => fp_set_times online (fp_lastSeen p) (fp_keyExpiry p) p)).
Qed.

Lemma seen_change_rel now s s' item :
  same_state s s' → outcome_rel same_state (seen_change now s item) (spec_seen now s' item).
Proof.
  destruct s as [peers changed], s' as [m changed']. intros [[Hn Hm] Hc]. cbn [fst snd] in *. subst m changed'.
  unfold seen_change, spec_seen. apply outcome_rel_same. intros n. unfold spec_alter. cbn [fst snd].
  rewrite <- FindPeer_map. destruct (FindPeer peers n) as [p|] eqn:E; [|done]. destruct (get_bool item.2) as [seen|e|]; cbn; try done.
  by apply (alter_state peers n p (fun p => fp_set_times (fp_online p) (if seen then now else []) (fp_keyExpiry p) p)).
Qed.

Lemma patch_peer_rel regions s s' patch :
  same_state s s' → outcome_rel same_state (patch_peer regions s patch) (spec_patch regions s' patch).
Proof.
  destruct s as [peers changed], s' as [m changed']. intros [[Hn Hm] Hc]. cbn [fst snd] in *. subst m changed'.
  unfold patch_peer, spec_patch. apply outcome_rel_same. intros n. unfold spec_alter. cbn [fst snd].
  rewrite <- FindPeer_map. destruct (FindPeer peers n) as [p|] eqn:E; [|done].
  destruct (patch_fields regions patch p) as [q|e|] eqn:Ef; cbn; try done.
  apply (alter_state peers n p (fun _ => q)); [done|done|]. intros _ _.
  rewrite (patch_fields_id _ _ _ _ Ef). by apply (FindPeer_id peers).
Qed.

Lemma phase_rel {A B} (R : A → B → Prop) name map a b step step' :
  R a b → (∀ v, outcome_rel R (step v) (step' v)) →
  outcome_rel R (match json_find name map with Some v => step v | None => Ok a end) (phase name map b step').
Proof. intros HR Hs. unfold phase. by destruct (json_find name map). Qed.

(** The result of the loops and of the specification. *)
Definition same_result (r : list FullPeer * list Z * bool) (r' : gmap Z FullPeer * list Z * bool) : Prop :=
  same_peer_lists r.1.1 r'.1.1 ∧ r.1.2 = r'.1.2 ∧ r.2 = r'.2.

(** C6: an update of the peers is an update of a finite map.  The loops over the vector of peers
    (erase, search and replace or append, search and change) end as the same changes of a map from
    node identifiers to peers do, with the same removed identifiers, the same report of a change
    and the same exception; and no identifier occurs twice if none did before. *)
Theorem update_map_peers_refines now map regions profiles peers :
  NoDup (peer_ids peers) →
  outcome_rel same_result (update_map_peers now map regions profiles peers)
    (spec_update now map regions profiles (peers_map peers)).
Proof.
  intros Hn. unfold update_map_peers, spec_update.
  eapply (outcome_rel_bind same_result).
  { apply phase_rel; [done|]. intros ids. eapply (outcome_rel_bind same_state).
    - apply ofold_rel; [apply remove_peer_rel|done].
    - intros [p r] [m r'] [Hs Hr]. cbn in *. by subst. }
  intros [[p1 removed] c1] [[m1 removed'] c1'] (Hs1 & Hr & Hc1). cbn in Hs1, Hr, Hc1. subst removed' c1'.
  eapply (outcome_rel_bind same_state).
  { apply phase_rel; [done|]. intros nodes. eapply (outcome_rel_bind same_peer_lists); [|done].
    apply ofold_rel; [apply change_peer_rel|done]. }
  intros [p2 c2] [m2 c2'] Hs2. eapply (outcome_rel_bind same_state).
  { apply phase_rel; [done|]. intros changes. apply ofold_rel; [apply online_change_rel|done]. }
  intros [p3 c3] [m3 c3'] Hs3. eapply (outcome_rel_bind same_state).
  { apply phase_rel; [done|]. intros changes. apply ofold_rel; [apply seen_change_rel|done]. }
  intros [p4 c4] [m4 c4'] Hs4. eapply (outcome_rel_bind same_state).
  { apply phase_rel; [done|]. intros patches. apply ofold_rel; [apply patch_peer_rel|done]. }
  intros [p5 c5] [m5 c5'] [Hs5 Hc5]. cbn in *. by subst.
Qed.

(** ** A whole update *)

Section updates.
  Context `{!JsonText} (ip6addr_aton : bytes → option bytes).

(** A call that leaves the peers and the chosen resolver alone. *)
Definition kept_view (c : FullConfig) : list FullPeer * bytes := (fc_peers c, dn_resolver (fc_dns c)).
Definition keeps_peers {A} (m : eff FullConfig A) : Prop := ∀ c, kept_view (m c).2 = kept_view c.

Lemma peers_kept_bind {A B} (m : eff FullConfig A) (k : A → eff FullConfig B) :
  keeps_peers m → (∀ a, keeps_peers (k a)) → keeps_peers (ebind m k).
Proof.
  intros Hm Hk c. unfold ebind. specialize (Hm c). destruct (m c) as [[a|e|] c1]; cbn [snd] in *; [|done|done].
  by rewrite Hk.
Qed.

Lemma peers_kept_mod f : (∀ c, kept_view (f c) = kept_view c) → keeps_peers (emod f).
Proof. done. Qed.
Lemma peers_kept_ret {A} (a : A) : keeps_peers (eret a).
Proof. done. Qed.
Lemma peers_kept_lift {A} (o : outcome A) : keeps_peers (elift o).
Proof. done. Qed.
Lemma peers_kept_throw {A} e : keeps_peers (@ethrow _ A e).
Proof. done. Qed.
Lemma peers_kept_get : keeps_peers eget.
Proof. done. Qed.
Lemma keeps_self f : keeps_peers (mod_self f).
Proof. done. Qed.
Lemma keeps_account f : keeps_peers (mod_account f).
Proof. done. Qed.
Lemma keeps_derp f : keeps_peers (mod_derp f).
Proof. done. Qed.

Create HintDb keeps.
Hint Resolve peers_kept_ret peers_kept_lift peers_kept_throw peers_kept_get keeps_self keeps_account keeps_derp : keeps.

Ltac keeps_auto :=
  repeat first
    [ apply peers_kept_bind; [|intros ?]
    | progress auto with keeps
    | apply peers_kept_mod; reflexivity
    | match goal with |- keeps_peers (match ?x with _ => _ end) => destruct x end
    | match goal with |- keeps_peers (let '(_, _) := ?x in _) => destruct x end ].

Lemma keeps_filter_update map : keeps_peers (ApplyCapabilityFilterUpdate ip6addr_aton map).
Proof. unfold ApplyCapabilityFilterUpdate. keeps_auto. Qed.

Lemma keeps_merge map : keeps_peers (MergeUserProfiles map).
Proof. unfold MergeUserProfiles. keeps_auto. Qed.

Lemma keeps_human profiles : keeps_peers (human_account profiles).
Proof. induction profiles; cbn [human_account]; keeps_auto. Qed.

Lemma keeps_accounts map : keeps_peers (ApplyAccountMetadata map).
Proof. unfold ApplyAccountMetadata. keeps_auto. apply keeps_human. Qed.

Lemma keeps_addresses node : keeps_peers (ApplySelfAddresses node).
Proof. unfold ApplySelfAddresses. keeps_auto. Qed.

Lemma keeps_dns_config dns : keeps_peers (ApplyDnsConfig dns).
Proof. unfold ApplyDnsConfig. keeps_auto. Qed.

Lemma keeps_home region : keeps_peers (apply_home_region region).
Proof. unfold apply_home_region. keeps_auto. Qed.

Hint Resolve keeps_filter_update keeps_merge keeps_human keeps_accounts keeps_addresses keeps_dns_config keeps_home : keeps.

Lemma keeps_host node : keeps_peers (ApplyHostInfoMetadata node).
Proof. unfold ApplyHostInfoMetadata. keeps_auto. Qed.

Hint Resolve keeps_host : keeps.

Lemma keeps_start map : keeps_peers (start_map map).
Proof. unfold start_map. keeps_auto. Qed.

Lemma keeps_update_node map b : keeps_peers (update_node map b).
Proof. unfold update_node. keeps_auto. Qed.

Hint Resolve keeps_update_node : keeps.

Lemma keeps_update_derp regions peers : keeps_peers (update_derp regions peers).
Proof. unfold update_derp. keeps_auto. Qed.

(** The identifiers of the peers, whose DERP data may change. *)
Lemma update_derp_ids regions peers c peers' changed c' :
  update_derp regions peers c = (Ok (peers', changed), c') → peer_ids peers' = peer_ids peers.
Proof.
  unfold update_derp. destruct (json_empty regions); [by intros [= <- <- <-]|].
  unfold ebind, eget, elift. match goal with |- context [match ?m c with _ => _ end] => destruct (m c) as [[[]|e|] c1] end;
    [|done|done].
  destruct (try_map _ peers) as [ps|e|] eqn:E; [|done|done]. intros [= <- <- <-]. clear -E. revert ps E.
  induction peers as [|p peers IH]; cbn; intros ps E; [by injection E as <-|].
  apply obind_Ok_inv in E as (q & Hq & E). apply obind_Ok_inv in E as (qs & Hqs & E). injection E as <-. cbn.
  f_equal; [by apply ApplyDerpMetadata_id in Hq|by apply IH].
Qed.

Lemma RefreshPeerCapabilities_ids c : peer_ids (fc_peers (RefreshPeerCapabilities ip6addr_aton c)) = peer_ids (fc_peers c).
Proof. cbn. unfold peer_ids. rewrite <- list_fmap_compose. done. Qed.

Lemma RefreshPeerOwners_ids c : peer_ids (fc_peers (RefreshPeerOwners c)) = peer_ids (fc_peers c).
Proof.
  cbn. unfold peer_ids. induction (fc_peers c) as [|p l IH]; cbn; [done|]. f_equal; [by destruct (bool_decide _)|done].
Qed.

(** The end of an update, once the peers are computed. *)
Lemma finish_update_ids peers removed profiles changed c :
  wp (emod (fc_set_peers peers) ;;* emod (RefreshPeerCapabilities ip6addr_aton) ;;* emod (fc_set_removed removed) ;;*
      (if profiles : bool then emod RefreshPeerOwners else eret tt) ;;* eret changed)
    (fun r c' => r = Ok (changed : bool) ∧ peer_ids (fc_peers c') = peer_ids peers ∧ fc_removedPeerNodeIds c' = removed) c.
Proof.
  unfold wp, ebind, emod, eret. destruct profiles; cbn [fst snd]; (split; [done|]); (split; [|done]).
  - rewrite RefreshPeerOwners_ids. apply RefreshPeerCapabilities_ids.
  - apply RefreshPeerCapabilities_ids.
Qed.

(** After an update that returned or threw; [P] are the peers before it. *)
Definition upd_ok (P : list FullPeer) (r : outcome bool) (c' : FullConfig) : Prop :=
  NoDup (peer_ids (fc_peers c')) ∧ ((∀ changed, r ≠ Ok changed) → fc_peers c' = P).

Lemma wp_keeps {A} (m : eff FullConfig A) (k : A → eff FullConfig bool) P c :
  keeps_peers m → NoDup (peer_ids P) → fc_peers c = P →
  (∀ a c1, m c = (Ok a, c1) → fc_peers c1 = P → wp (k a) (upd_ok P) c1) → wp (ebind m k) (upd_ok P) c.
Proof.
  intros Hm Hn Hc Hk. unfold wp, ebind. pose proof (f_equal fst (Hm c)) as Hp. cbn in Hp. rewrite Hc in Hp.
  destruct (m c) as [[a|e|] c1] eqn:E; cbn [fst snd] in *; [by apply Hk| |]; (split; [by rewrite Hp|by intros _]).
Qed.

Lemma apply_update_ok now map c :
  NoDup (peer_ids (fc_peers c)) → wp (apply_update ip6addr_aton now map) (upd_ok (fc_peers c)) c.
Proof.
  intros Hn. unfold apply_update. set (P := fc_peers c) in *.
  apply wp_keeps; [done|done|done|]. intros _ c1 _ H1. apply wp_keeps; [apply peers_kept_lift|done|done|]. intros keepAlive c2 _ H2.
  destruct keepAlive; [apply wp_ret; split; [by rewrite H2|done]|].
  apply wp_keeps; [apply peers_kept_get|done|done|]. intros c3' c3 [= <- <-] H3. rewrite H3.
  apply wp_keeps; [apply keeps_filter_update|done|done|]. intros b1 c4 _ H4.
  apply wp_keeps; [keeps_auto|done|done|]. intros b2 c5 _ H5.
  apply wp_keeps; [apply keeps_merge|done|done|]. intros b3 c6 _ H6.
  apply wp_keeps; [apply keeps_update_node|done|done|]. intros b4 c7 _ H7.
  apply wp_keeps; [apply peers_kept_lift|done|done|]. intros regions c8 _ H8.
  apply wp_keeps; [keeps_auto|done|done|]. intros b5 c9 _ H9.
  apply wp_keeps; [apply keeps_update_derp|done|done|]. intros [peers b6] c10 Hd%update_derp_ids H10.
  apply wp_keeps; [apply peers_kept_get|done|done|]. intros c11' c11 [= <- <-] H11.
  apply wp_keeps; [apply peers_kept_lift|done|done|]. intros [[peers' removed] b7] c12 Hu H12. injection Hu as Hu _.
  pose proof (update_map_peers_refines now map regions (fc_userProfiles c10) peers) as Hrel. rewrite Hu, Hd in Hrel.
  destruct (spec_update _ _ _ _ _) as [[[m removed'] b7']|e|]; cbn in Hrel; try (by destruct (Hrel Hn)).
  destruct (Hrel Hn) as ((Hn' & _) & _). eapply wp_mono; [apply finish_update_ids|].
  intros r c' (-> & Hids & _). split; [by rewrite Hids|]. intros Hne. by destruct (Hne _ eq_refl).
Qed.

(** C12: peers stay unique, and an update is all or nothing for them.  Whatever the document says, an
    update leaves no node identifier twice in the list of peers if there was none before; when it
    throws, at whatever entry, the peers are those of before; and a keep-alive changes nothing but
    the list of the removed identifiers, which it clears. *)
Theorem ApplyUpdate_peers_unique now text c :
  NoDup (peer_ids (fc_peers c)) →
  let '(r, c') := NetworkMapParser_ApplyUpdate ip6addr_aton now text c in
  NoDup (peer_ids (fc_peers c'))
  ∧ ((∀ changed, r ≠ Ok changed) → fc_peers c' = fc_peers c)
  ∧ (∀ map, json_parse text = Ok map → json_find (lit "KeepAlive") map = Some (JBool true) →
     r = Ok false ∧ c' = fc_set_removed [] c).
Proof.
  intros Hn. unfold NetworkMapParser_ApplyUpdate, ebind at 1, elift at 1.
  destruct (json_parse text) as [map|e|]; [|done|done].
  pose proof (apply_update_ok now map c Hn) as Hok. unfold wp in Hok.
  destruct (apply_update ip6addr_aton now map c) as [r c'] eqn:E. destruct Hok as [Hn' Ht]. split_and!; [done|done|].
  intros ? [= <-] Hk. unfold apply_update, ebind, emod, elift in E.
  assert (json_value get_bool (lit "KeepAlive") false map = Ok true) as Hv.
  { destruct map; try done. cbn [json_find json_value] in *. by rewrite Hk. }
  rewrite Hv in E. by injection E as <- <-.
Qed.

End updates.

(** ** A full map *)

Lemma Ipv4Prefix_Parse_length text :
  safe (Ipv4Prefix_Parse text) ∧ ∀ p, Ipv4Prefix_Parse text = Ok (Some p) → 0 <= px_length p <= 32.
Proof.
  unfold Ipv4Prefix_Parse. destruct (Ipv4Address_TryParse _); [|done].
  set (l := match find_char chr_slash text with None => Some 32 | Some s => _ end).
  assert (∀ n, l = Some n → 0 <= n) as Hl.
  { unfold l. destruct (find_char chr_slash text); [|by intros n [= <-]].
    intros v (_ & Hd & -> & _)%parse_unsigned_spec. by apply digits_from_nonneg. }
  destruct l as [n|]; [|done]. specialize (Hl n eq_refl). destruct (Z.ltb_spec 32 n) as [|Hn]; [done|].
  assert (u8 n = n) as -> by (apply wrap_id; split; lia). unfold PrefixMask.
  destruct (n =? 0); [split; [done|]; by intros p [= <-]|]. rewrite (proj2 (Z.ltb_ge _ _)) by lia.
  split; [done|]. by intros p [= <-].
Qed.

(** A peer of a full map: it has an address, and each of its routes is a prefix of some length. *)
Definition peer_routes_ok (p : FullPeer) : Prop := Forall (fun x => 0 < px_length x <= 32) (fp_allowedPrefixes p).

Lemma allowed_prefixes_ok texts state state' :
  Forall (fun x => 0 < px_length x <= 32) state.2 → ofold allowed_prefix state texts = Ok state' →
  Forall (fun x => 0 < px_length x <= 32) state'.2.
Proof.
  intros Hs. apply (ofold_inv (fun s : bool * list Ipv4Prefix => Forall (fun x => 0 < px_length x <= 32) s.2)); [|done].
  intros s text s' Hok _ Hr. unfold allowed_prefix in Hr. destruct (Ipv4Prefix_Parse_length text) as [_ Hl].
  destruct (Ipv4Prefix_Parse text) as [[p|]|e|]; cbn in Hr; try done; [|by injection Hr as <-].
  specialize (Hl p eq_refl). destruct (Z.eqb_spec (px_length p) 0); injection Hr as <-; [done|]. cbn.
  apply Forall_app. split; [done|]. apply Forall_singleton. lia.
Qed.

Lemma Peer_ok node regions profiles p :
  Peer node regions profiles = Ok p →
  peer_routes_ok p ∧ ∃ texts, StringArray node (lit "Addresses") = Ok texts ∧ fp_addresses p = map before_slash texts.
Proof.
  unfold Peer. intros H. apply obind_Ok_inv in H as (texts & Ht & H).
  do 10 (apply obind_Ok_inv in H as (? & _ & H)). cbv zeta in H.
  do 4 (apply obind_Ok_inv in H as (? & ? & H)). injection H as <-. split; [|by exists texts].
  unfold peer_routes_ok. cbn. eapply allowed_prefixes_ok; [|eassumption]. constructor.
Qed.

Lemma Peers_ok map profiles peers :
  Peers map profiles = Ok peers → Forall (fun p => fp_addresses p ≠ [] ∧ peer_routes_ok p) peers.
Proof.
  unfold Peers. intros H. do 3 (apply obind_Ok_inv in H as (? & _ & H)). revert H.
  apply (ofold_inv (Forall (fun p => fp_addresses p ≠ [] ∧ peer_routes_ok p))); [|constructor].
  intros result node result' Hr _ H. apply obind_Ok_inv in H as (texts & Ht & H). case_bool_decide as He; [by injection H as <-|].
  apply obind_Ok_inv in H as (p & Hp & H). injection H as <-. destruct (Peer_ok _ _ _ _ Hp) as [Hroutes (texts' & Ht' & Ha)].
  apply Forall_app. split; [done|]. apply Forall_singleton. split; [|done]. rewrite Ha. rewrite Ht in Ht'. injection Ht' as <-.
  by destruct texts.
Qed.

Section full_map.
  Context (ip6addr_aton : bytes → option bytes).

(** The resolver is an address to which a peer has a route. *)
Definition map_resolver_reachable (c : FullConfig) : Prop :=
  ∃ a peer prefix, Ipv4Address_TryParse (dn_resolver (fc_dns c)) = Some a ∧ peer ∈ fc_peers c
    ∧ prefix ∈ fp_allowedPrefixes peer ∧ Ipv4Prefix_Contains prefix (Ipv4Address_HostOrder a) = Ok true.

Definition usable_map (c : FullConfig) : Prop :=
  map_resolver_reachable c ∧ dp_region (fc_derp c) ≠ 0 ∧ dp_host (fc_derp c) ≠ []
  ∧ Forall (fun p => fp_addresses p ≠ [] ∧ peer_routes_ok p) (fc_peers c).

(** A postcondition of the calls that return. *)
Definition on_ok {A} (Q : FullConfig → Prop) (r : outcome A) (c : FullConfig) : Prop := ∀ a, r = Ok a → Q c.

Lemma wp_any {A B} (m : eff FullConfig A) (k : A → eff FullConfig B) Q c :
  (∀ a c1, m c = (Ok a, c1) → wp (k a) (on_ok Q) c1) → wp (ebind m k) (on_ok Q) c.
Proof. intros Hk. unfold wp, ebind. destruct (m c) as [[a|e|] c1] eqn:E; [by apply Hk|done|done]. Qed.

Lemma any_contains_true address prefixes :
  any_contains address prefixes = Ok true → ∃ prefix, prefix ∈ prefixes ∧ Ipv4Prefix_Contains prefix address = Ok true.
Proof.
  induction prefixes as [|p prefixes IH]; cbn; [done|]. intros (b & Hb & Hr)%obind_Ok_inv. destruct b.
  - exists p. split; [by left|done].
  - destruct (IH Hr) as (q & Hq & Hc). exists q. split; [by right|done].
Qed.

Lemma peer_towards_Some address peers p :
  peer_towards address peers = Ok (Some p) →
  p ∈ peers ∧ ∃ prefix, prefix ∈ fp_allowedPrefixes p ∧ Ipv4Prefix_Contains prefix address = Ok true.
Proof.
  induction peers as [|q peers IH]; cbn; [done|]. intros (b & Hb & Hr)%obind_Ok_inv. destruct b.
  - injection Hr as <-. split; [by left|]. by apply any_contains_true.
  - destruct (IH Hr) as [Hin Hp]. split; [by right|done].
Qed.

Lemma choose_resolver_ok texts c :
  dn_resolver (fc_dns c) = [] →
  wp (choose_resolver texts) (on_ok (fun c' => fc_peers c' = fc_peers c
    ∧ (dn_resolver (fc_dns c') ≠ [] → map_resolver_reachable c'))) c.
Proof.
  revert c. induction texts as [|text texts IH]; intros c Hd; cbn [choose_resolver]; [apply wp_ret; intros a _; by rewrite Hd|].
  destruct (Ipv4Address_TryParse text) as [a|] eqn:Ea; [|by apply IH].
  unfold ebind at 1, eget at 1. apply wp_any. intros found c1 [= Hf <-]. destruct found as [peer|].
  - apply peer_towards_Some in Hf as (Hin & prefix & Hp & Hc).
    unfold wp, ebind, mod_dns, mod_derp, emod, eget. cbn. rewrite bool_decide_false.
    2: { intros ->. done. }
    cbn. intros _ _. split; [done|]. intros _. by exists a, peer, prefix.
  - wp_auto. rewrite Hd. cbn. by apply IH.
Qed.

Lemma keeps_home_region region c : dp_region (fc_derp (apply_home_region region c).2) = dp_region (fc_derp c).
Proof.
  unfold apply_home_region, ebind, eget, elift, mod_derp, emod. destruct (json_value _ _ _ _); cbn; try done.
  destruct (DerpHost region); cbn; try done. by destruct (StunEndpoint region) as [[h p]|e|].
Qed.

(** The regions of a map, once the resolver is chosen. *)
Lemma choose_region_ok c :
  wp choose_region (on_ok (fun c' => kept_view c' = kept_view c ∧ dp_region (fc_derp c') ≠ 0)) c.
Proof.
  unfold choose_region, wp, ebind, eget. destruct (Z.eqb_spec (dp_region (fc_derp c)) 0) as [E|E]; [|by intros _ _].
  destruct (List.find _ (fc_peers c)) as [p|] eqn:Ef; [|done]. apply find_some in Ef as [_ Ef]. cbn.
  intros _ _. split; [done|]. cbn. by b2p.
Qed.

(** The part of [Parse] behind the peers. *)
Lemma finish_map_ok map dns peers c :
  dn_resolver (fc_dns c) = [] → Forall (fun p => fp_addresses p ≠ [] ∧ peer_routes_ok p) peers →
  wp (finish_map ip6addr_aton map dns peers) (on_ok usable_map) c.
Proof.
  intros Hd Hp. unfold finish_map. apply wp_any. intros ? c1 [= <- <-].
  apply wp_any. intros u2 c2 H2. pose proof (keeps_filter_update ip6addr_aton map (fc_set_peers peers c)) as Hk2. rewrite H2 in Hk2.
  injection Hk2 as Hp2 Hd2. cbn in Hp2, Hd2. rewrite Hd in Hd2. apply wp_any. intros ? c3 [= <- <-].
  set (c3 := RefreshPeerCapabilities ip6addr_aton c2).
  assert (Forall (fun p => fp_addresses p ≠ [] ∧ peer_routes_ok p) (fc_peers c3)) as Hp3.
  { cbn. rewrite Hp2. apply Forall_map. eapply Forall_impl; [exact Hp|]. done. }
  apply wp_any. intros resolvers c4 [= _ <-]. apply wp_any. intros u5 c5 H5.
  pose proof (choose_resolver_ok resolvers c3 Hd2) as Hc. unfold wp in Hc. rewrite H5 in Hc. destruct (Hc _ eq_refl) as [Hp5 Hr5].
  apply wp_any. intros c6' c6 [= <- <-]. case_bool_decide as Hne; [by intros ? ?|]. specialize (Hr5 Hne).
  apply wp_any. intros u7 c7 H7. pose proof (choose_region_ok c5) as Hg. unfold wp in Hg. rewrite H7 in Hg.
  destruct (Hg _ eq_refl) as [Hv7 Hr7]. injection Hv7 as Hp7 Hd7.
  apply wp_any. intros derpMap c8 [= _ <-]. apply wp_any. intros regions c9 [= _ <-].
  apply wp_any. intros c10' c10 [= <- <-]. apply wp_any. intros region c11 [= _ <-].
  apply wp_any. intros u12 c12 H12. pose proof (keeps_home region c7) as Hv. pose proof (keeps_home_region region c7) as Hreg.
  rewrite H12 in Hv, Hreg. injection Hv as Hp12 Hd12. cbn [snd] in Hp12, Hd12, Hreg.
  apply wp_any. intros c13' c13 [= <- <-]. case_bool_decide as Hh; [by intros ? ?|]. apply wp_ret. intros _ _.
  unfold usable_map, map_resolver_reachable in *. cbn [fst snd] in *.
  rewrite Hd12, Hp12, Hreg, Hd7, Hp7. split_and!; [exact Hr5|done|done|by rewrite Hp5].
Qed.

End full_map.

(** C13: a map that [Parse] returns can be used.  Its DNS resolver is an IPv4 address to which one
    of its peers has a route, its home DERP region is known and has a host, every peer has an
    address, and every route of a peer is a prefix of one to 32 bits: the default route of an exit
    node is never one of them. *)
Theorem NetworkMapParser_Parse_usable `{!JsonText} (ip6addr_aton : bytes → option bytes) text c :
  NetworkMapParser_Parse ip6addr_aton text = Ok c → usable_map c.
Proof.
  unfold NetworkMapParser_Parse. intros (map & _ & Hr)%obind_Ok_inv.
  assert (wp (parse_map ip6addr_aton map) (on_ok usable_map) FullConfig_default) as Hok.
  { unfold parse_map. apply wp_any. intros dns c1 H1. pose proof (keeps_start map FullConfig_default) as Hv. rewrite H1 in Hv.
    injection Hv as _ Hd. apply wp_any. intros c2' c2 [= <- <-]. apply wp_any. intros peers c3 [= Hp <-].
    apply finish_map_ok; [done|]. by apply Peers_ok in Hp. }
  unfold wp in Hok. destruct (parse_map _ map _) as [[[]|e|] c']; try done. injection Hr as <-. by apply (Hok tt).
Qed.

(** ** No undefined behaviour *)

Lemma whole_find name v x : whole_numbers v → json_find name v = Some x → whole_numbers x.
Proof. apply json_find_ok. Qed.
Lemma whole_at name v x : whole_numbers v → json_at name v = Ok x → whole_numbers x.
Proof. apply json_at_ok. Qed.
Lemma whole_element v x : whole_numbers v → x ∈ json_elements v → whole_numbers x.
Proof. intros Hv Hx. pose proof (json_elements_ok v Hv) as Hl. rewrite Forall_forall in Hl. by apply Hl. Qed.
Lemma whole_item v x : whole_numbers v → x ∈ json_items v → whole_numbers x.2.
Proof. intros Hv Hx. pose proof (json_items_ok v Hv) as Hl. rewrite Forall_forall in Hl. by apply Hl. Qed.
Lemma whole_array l x : whole_numbers (JArray l) → x ∈ l → whole_numbers x.
Proof. apply (whole_element (JArray l)). Qed.
Lemma whole_value name v x otherwise :
  whole_numbers v → whole_numbers otherwise → json_value get_json name otherwise v = Ok x → whole_numbers x.
Proof.
  intros Hv Ho. destruct v; try done. cbn. destruct (map_find name l) eqn:E; [|by intros [= <-]].
  intros [= <-]. by apply (whole_find name (JObject l)).
Qed.
Lemma whole_empty : whole_numbers (JArray []).
Proof. constructor. constructor. Qed.

#[export] Hint Resolve whole_find whole_at whole_element whole_item whole_array whole_value whole_empty : json.

(** One step of a proof that a reader of documents has no undefined behaviour. *)
Ltac jsafe_step :=
  match goal with
  | |- safe (Ok _) => done
  | |- safe (Throw _) => done
  | |- safe (obind _ _) => apply safe_obind; [|intros]
  | |- safe (ofold _ _ _) => apply safe_ofold; intros
  | |- safe (try_map _ _) => apply safe_try_map, Forall_forall; intros
  | |- safe (if ?b then _ else _) => destruct b eqn:?
  | |- safe (match ?x with _ => _ end) => destruct x eqn:?
  | |- safe (let '(_, _) := ?x in _) => destruct x
  | |- safe _ => solve [unfold NodeId, get_ull, get_uint64, get_int, get_uint32, get_uint8; eauto with json]
  end.
Ltac jsafe := repeat jsafe_step.

Lemma safe_NodeId node : whole_numbers node → safe (NodeId node).
Proof. intros. unfold NodeId. jsafe. Qed.

Lemma safe_StringArray v name : safe (StringArray v name).
Proof. unfold StringArray. jsafe. Qed.

#[export] Hint Resolve safe_NodeId safe_StringArray : json.

Lemma safe_DerpHost region : safe (DerpHost region).
Proof.
  unfold DerpHost. jsafe. induction (json_elements _) as [|node nodes IH]; cbn [derp_host_loop]; [done|]. jsafe.
Qed.

Lemma safe_StunEndpoint region : whole_numbers region → safe (StunEndpoint region).
Proof.
  intros Hr. unfold StunEndpoint. jsafe.
  assert (∀ x, x ∈ json_elements a → whole_numbers x) as Hn by (intros; eauto with json).
  induction (json_elements a) as [|node nodes IH]; cbn [stun_endpoint_loop]; [done|].
  assert (whole_numbers node) by (apply Hn; by left). specialize (IH (fun x Hx => Hn x ltac:(by right))). jsafe.
Qed.

Lemma safe_DnsResolvers dns : safe (DnsResolvers dns).
Proof. unfold DnsResolvers, route_resolvers. jsafe. Qed.

Lemma safe_ResolverArray v : safe (ResolverArray v).
Proof. unfold ResolverArray. jsafe. Qed.

Lemma safe_FindUserProfile map userId : whole_numbers map → safe (FindUserProfile map userId).
Proof.
  intros Hm. unfold FindUserProfile. destruct (is_profiles _) as [profiles|] eqn:E; [|done].
  assert (∀ x, x ∈ profiles → whole_numbers x) as Hp.
  { destruct (json_find (lit "UserProfiles") map) as [[]|] eqn:Ef; try done. injection E as ->. intros; eauto with json. }
  apply safe_obind; [|intros; jsafe]. clear E. induction profiles as [|p profiles IH]; cbn [find_profile]; [done|].
  assert (whole_numbers p) by (apply Hp; by left). specialize (IH (fun x Hx => Hp x ltac:(by right))). jsafe.
Qed.

Lemma safe_merge_profile profiles source : whole_numbers source → safe (merge_profile profiles source).
Proof. intros. unfold merge_profile. jsafe. Qed.

Lemma safe_service_ports v : whole_numbers v → safe (service_ports v).
Proof. intros. unfold service_ports, service_port. jsafe. Qed.

#[export] Hint Resolve safe_DerpHost safe_StunEndpoint safe_DnsResolvers safe_ResolverArray safe_FindUserProfile
  safe_merge_profile safe_service_ports : json.

Lemma safe_peer_host_info node : whole_numbers node → safe (peer_host_info node).
Proof. intros. unfold peer_host_info. jsafe. Qed.

Lemma safe_ApplyDerpMetadata p regions : safe (ApplyDerpMetadata p regions).
Proof. unfold ApplyDerpMetadata. jsafe. Qed.

Lemma safe_stoi text : safe (stoi text).
Proof. unfold stoi. jsafe. Qed.

Lemma safe_stoull text : safe (stoull text).
Proof. unfold stoull. jsafe. Qed.

Lemma safe_allowed_prefix state text : safe (allowed_prefix state text).
Proof. unfold allowed_prefix. apply safe_obind; [apply Ipv4Prefix_Parse_length|]. intros. jsafe. Qed.

#[export] Hint Resolve safe_peer_host_info safe_ApplyDerpMetadata safe_stoi safe_stoull safe_allowed_prefix : json.

Lemma safe_Peer node regions profiles : whole_numbers node → safe (Peer node regions profiles).
Proof. intros. unfold Peer. cbv zeta. jsafe. Qed.

#[export] Hint Resolve safe_Peer : json.

Lemma safe_Peers map profiles : whole_numbers map → safe (Peers map profiles).
Proof. intros. unfold Peers. jsafe. Qed.

#[export] Hint Resolve safe_Peers : json.

(** The parser of IPv6 texts knows the unspecified address. *)
Definition aton_any (ip6addr_aton : bytes → option bytes) : Prop := is_Some (ip6addr_aton (lit "::")).

Section safety.
  Context (ip6addr_aton : bytes → option bytes) (Haton : aton_any ip6addr_aton).

Lemma any_ranges :
  is_Some (parse_range ip6addr_aton (lit "0.0.0.0/0")) ∧ is_Some (parse_range ip6addr_aton (lit "::/0")).
Proof.
  split; [vm_compute; by eexists|]. destruct Haton as [b Hb]. unfold parse_range, IpRange_TryParse.
  change (find_char chr_dash (lit "::/0")) with (@None nat). change (find_char chr_slash (lit "::/0")) with (Some 2%nat).
  cbv beta iota zeta. change (take 2 (lit "::/0")) with (lit "::").
  assert (IpAddress_TryParse ip6addr_aton (lit "::") = Some (IpAddress_FromIpv6 b)) as ->.
  { unfold IpAddress_TryParse. change (Ipv4Address_TryParse (lit "::")) with (@None Ipv4Address). cbv beta iota.
    by rewrite Hb. }
  change (parse_unsigned (drop 3 (lit "::/0"))) with (Some 0). cbv beta iota zeta.
  pose proof (zlen_nonneg (IpAddress_Bytes (IpAddress_FromIpv6 b))).
  rewrite (proj2 (Z.ltb_ge _ _)) by lia. by destruct (IpRange_mask_loop _ _ _ _).
Qed.

Lemma safe_Ranges v sources : safe (Ranges ip6addr_aton v sources).
Proof.
  unfold Ranges, range_entry. destruct v; try done. apply safe_ofold. intros r x _. apply safe_obind; [apply safe_get_string|].
  intros text _. destruct any_ranges as [[v4 ->] [v6 ->]]. jsafe.
Qed.

Lemma safe_ParseRules rules : safe (ParseRules ip6addr_aton rules).
Proof.
  unfold ParseRules. destruct rules; try done. apply safe_ofold. intros result rule _. unfold parse_rule.
  destruct (json_find _ rule); [|done]. destruct (_ || _); [done|]. destruct (_ || _); [done|].
  apply safe_obind; [apply safe_json_at|]. intros src _. apply safe_obind; [apply safe_Ranges|]. intros sources _.
  apply safe_obind; [|done]. apply safe_try_map, Forall_true. intros x. unfold parse_grant.
  apply safe_obind; [apply safe_json_at|]. intros dsts _. apply safe_obind; [apply safe_Ranges|]. intros. jsafe.
Qed.

Hint Resolve safe_ParseRules : json.

(** Calls that have no undefined behaviour. *)
Definition esafe {A} (m : eff FullConfig A) : Prop := ∀ c, (m c).1 ≠ UB.

Lemma esafe_bind {A B} (m : eff FullConfig A) (k : A → eff FullConfig B) :
  esafe m → (∀ a, esafe (k a)) → esafe (ebind m k).
Proof. intros Hm Hk c. unfold ebind. specialize (Hm c). destruct (m c) as [[a|e|] c1]; [apply Hk|done|done]. Qed.

Lemma esafe_lift_bind {A B} (o : outcome A) (k : A → eff FullConfig B) :
  safe o → (∀ a, o = Ok a → esafe (k a)) → esafe (ebind (elift o) k).
Proof. intros Ho Hk c. unfold ebind, elift. destruct o as [a|e|]; [by apply Hk|done|done]. Qed.

Lemma esafe_lift {A} (o : outcome A) : safe o → esafe (elift o).
Proof. by intros Ho c. Qed.
Lemma esafe_ret {A} (a : A) : esafe (eret a).
Proof. done. Qed.
Lemma esafe_throw {A} e : esafe (@ethrow _ A e).
Proof. done. Qed.
Lemma esafe_get : esafe eget.
Proof. done. Qed.
Lemma esafe_mod f : esafe (emod f).
Proof. done. Qed.

Hint Resolve esafe_ret esafe_throw esafe_get esafe_mod : json.
Hint Extern 1 (esafe (mod_self _)) => done : json.
Hint Extern 1 (esafe (mod_account _)) => done : json.
Hint Extern 1 (esafe (mod_dns _)) => done : json.
Hint Extern 1 (esafe (mod_derp _)) => done : json.

Ltac esafe_step :=
  match goal with
  | |- esafe (ebind (elift _) _) => apply esafe_lift_bind; [jsafe|intros]
  | |- esafe (ebind _ _) => apply esafe_bind; [|intros]
  | |- esafe (elift _) => apply esafe_lift; jsafe
  | |- esafe (if ?b then _ else _) => destruct b eqn:?
  | |- esafe (match ?x with _ => _ end) => destruct x eqn:?
  | |- esafe (let '(_, _) := ?x in _) => destruct x
  | |- esafe _ => solve [eauto with json]
  end.
Ltac esafe_auto := repeat esafe_step.

Lemma esafe_filter_update map : esafe (ApplyCapabilityFilterUpdate ip6addr_aton map).
Proof. unfold ApplyCapabilityFilterUpdate, base_update, named_update, filter_update. esafe_auto. Qed.

Lemma esafe_merge map : whole_numbers map → esafe (MergeUserProfiles map).
Proof.
  intros Hm. unfold MergeUserProfiles. destruct (json_find (lit "UserProfiles") map) as [[]|] eqn:E; cbn [is_profiles]; esafe_auto.
Qed.

Lemma esafe_human profiles : esafe (human_account profiles).
Proof. induction profiles; cbn [human_account]; esafe_auto. Qed.

Hint Resolve esafe_filter_update esafe_merge esafe_human : json.

Lemma esafe_accounts map : whole_numbers map → esafe (ApplyAccountMetadata map).
Proof. intros Hm. unfold ApplyAccountMetadata. esafe_auto. Qed.

Lemma esafe_addresses node : esafe (ApplySelfAddresses node).
Proof. unfold ApplySelfAddresses. esafe_auto. Qed.

Lemma esafe_dns_config dns : esafe (ApplyDnsConfig dns).
Proof. unfold ApplyDnsConfig, DnsDomains. esafe_auto. Qed.

Lemma esafe_home region : whole_numbers region → esafe (apply_home_region region).
Proof. intros. unfold apply_home_region. esafe_auto. Qed.

Lemma esafe_host node : whole_numbers node → esafe (ApplyHostInfoMetadata node).
Proof. intros. unfold ApplyHostInfoMetadata. esafe_auto. Qed.

Hint Resolve esafe_accounts esafe_addresses esafe_dns_config esafe_home esafe_host : json.

Lemma esafe_start map : whole_numbers map → esafe (start_map map).
Proof. intros. unfold start_map. esafe_auto. Qed.

Lemma esafe_update_node map b : whole_numbers map → esafe (update_node map b).
Proof. intros. unfold update_node. esafe_auto. Qed.

Hint Resolve esafe_start esafe_update_node : json.

Lemma whole_regions map regions : whole_numbers map → update_regions map = Ok regions → whole_numbers regions.
Proof.
  intros Hm. unfold update_regions. destruct (json_find (lit "DERPMap") map) as [d|] eqn:E.
  - intros Hr. assert (regions = default (JObject []) (json_find (lit "Regions") d)) as -> by congruence.
    destruct (json_find (lit "Regions") d) eqn:E'; cbn [default]; [eauto with json|]. by repeat constructor.
  - intros [= <-]. by repeat constructor.
Qed.

Hint Resolve whole_regions : json.

Lemma esafe_update_derp regions peers : whole_numbers regions → esafe (update_derp regions peers).
Proof. intros. unfold update_derp. esafe_auto. Qed.

Lemma safe_patch_fields regions patch p : whole_numbers patch → safe (patch_fields regions patch p).
Proof. intros. unfold patch_fields. cbv zeta. jsafe. Qed.

Hint Resolve esafe_update_derp safe_patch_fields : json.

Lemma safe_update_peers now map regions profiles peers :
  whole_numbers map → safe (update_map_peers now map regions profiles peers).
Proof.
  intros Hm. unfold update_map_peers, remove_peer, change_peer, online_change, seen_change, patch_peer. jsafe.
Qed.

Hint Resolve safe_update_peers : json.

Lemma esafe_apply_update now map : whole_numbers map → esafe (apply_update ip6addr_aton now map).
Proof. intros. unfold apply_update. cbv zeta. esafe_auto. unfold update_regions. jsafe. Qed.

(** Calls that have none while the routes of the peers are prefixes, and that keep them so. *)
Definition routes_ok (c : FullConfig) : Prop := Forall peer_routes_ok (fc_peers c).
Definition safe_in {A} (m : eff FullConfig A) : Prop := ∀ c, routes_ok c → (m c).1 ≠ UB ∧ routes_ok (m c).2.

Lemma safe_in_bind {A B} (m : eff FullConfig A) (k : A → eff FullConfig B) :
  safe_in m → (∀ a, safe_in (k a)) → safe_in (ebind m k).
Proof.
  intros Hm Hk c Hc. unfold ebind. destruct (Hm c Hc) as [H1 H2]. destruct (m c) as [[a|e|] c1]; [by apply Hk|done|done].
Qed.

Lemma safe_in_of {A} (m : eff FullConfig A) : esafe m → keeps_peers m → safe_in m.
Proof.
  intros Hs Hk c Hc. split; [apply Hs|]. specialize (Hk c). injection Hk as Hp _. unfold routes_ok. by rewrite Hp.
Qed.

Lemma safe_peer_towards address peers : Forall peer_routes_ok peers → safe (peer_towards address peers).
Proof.
  induction 1 as [|p peers Hp _ IH]; cbn; [done|]. apply safe_obind; [|intros []; done].
  unfold peer_routes_ok in Hp. induction Hp as [|x l Hx _ IHx]; cbn; [done|]. apply safe_obind; [|intros []; done].
  unfold Ipv4Prefix_Contains, PrefixMask. destruct (px_length x =? 0); [done|]. by rewrite (proj2 (Z.ltb_ge _ _)) by lia.
Qed.

Lemma safe_in_choose_resolver texts : safe_in (choose_resolver texts).
Proof.
  induction texts as [|text texts IH]; cbn [choose_resolver]; [done|]. destruct (Ipv4Address_TryParse text); [|done].
  intros c Hc. unfold ebind, eget, elift. pose proof (safe_peer_towards (Ipv4Address_HostOrder i) (fc_peers c) Hc) as Hs.
  destruct (peer_towards _ (fc_peers c)) as [[p|]|e|]; [| |done|done]; cbn.
  - destruct (negb _); [done|]. by apply IH.
  - destruct (negb _); [done|]. by apply IH.
Qed.

Lemma keeps_choose_region : keeps_peers choose_region.
Proof. intros c. unfold choose_region, ebind, eget. destruct (_ =? 0); [|done]. by destruct (List.find _ _). Qed.

Lemma finish_map_safe map dns peers c :
  whole_numbers map → Forall peer_routes_ok peers → (finish_map ip6addr_aton map dns peers c).1 ≠ UB.
Proof.
  intros Hm Hp. unfold finish_map. unfold ebind at 1, emod at 1.
  assert (routes_ok (fc_set_peers peers c)) as Hc by done. revert Hc. generalize (fc_set_peers peers c). clear c.
  intros c Hc. match goal with |- (?m c).1 ≠ UB => assert (safe_in m) as Hs; [|by apply (Hs c)] end.
  apply safe_in_bind; [apply safe_in_of; [apply esafe_filter_update|apply keeps_filter_update]|]. intros _.
  apply safe_in_bind.
  { intros c1 H1. split; [done|]. unfold routes_ok, RefreshPeerCapabilities. cbn. by apply Forall_map. }
  intros _. apply safe_in_bind; [apply safe_in_of; [apply esafe_lift, safe_DnsResolvers|apply peers_kept_lift]|]. intros resolvers.
  apply safe_in_bind; [apply safe_in_choose_resolver|]. intros _. apply safe_in_bind; [done|]. intros c1.
  destruct (bool_decide _); [done|]. apply safe_in_of.
  - apply esafe_bind; [|intros; esafe_auto]. unfold choose_region. esafe_auto.
  - apply peers_kept_bind; [apply keeps_choose_region|intros _]. repeat (apply peers_kept_bind; [apply peers_kept_lift || apply peers_kept_get || apply keeps_home|intros ?]).
    by destruct (bool_decide _).
Qed.

Lemma parse_map_safe map : whole_numbers map → esafe (parse_map ip6addr_aton map).
Proof.
  intros Hm. unfold parse_map. apply esafe_bind; [by apply esafe_start|]. intros dns.
  apply esafe_bind; [apply esafe_get|]. intros c0. apply esafe_lift_bind; [by apply safe_Peers|]. intros peers Hp c.
  apply finish_map_safe; [done|]. apply Peers_ok in Hp. eapply Forall_impl; [exact Hp|]. by intros p [_ ?].
Qed.

End safety.

(** C20: reading a map has no undefined behaviour.  Whatever a document of the control server
    holds, as long as each of its numbers is an integer of 64 bits, [Parse] and [ApplyUpdate] return
    or throw: every search that is dereferenced has found something and no shift is too wide. *)
Theorem NetworkMapParser_safe `{!JsonText} `{!JsonTextLaws} (ip6addr_aton : bytes → option bytes) now text c :
  aton_any ip6addr_aton → (∀ map, json_parse text = Ok map → whole_numbers map) →
  safe (NetworkMapParser_Parse ip6addr_aton text) ∧ safe (NetworkMapParser_ApplyUpdate ip6addr_aton now text c).1.
Proof.
  intros Ha Hw. unfold NetworkMapParser_Parse, NetworkMapParser_ApplyUpdate, ebind, elift.
  pose proof (jt_parse text) as Hp. destruct (json_parse text) as [map|e|]; [|done|done]. specialize (Hw map eq_refl). cbn [obind]. split.
  - pose proof (parse_map_safe ip6addr_aton Ha map Hw FullConfig_default) as Hs. by destruct (parse_map _ map _) as [[[]|e|] c'].
  - by apply esafe_apply_update.
Qed.

(** A number that is no integer of 64 bits is read with undefined behaviour: an update whose
    list of removed peers holds a number with an integral part beyond 64 bits makes [ApplyUpdate]
    convert it to an integer type that cannot hold it. *)
Theorem NetworkMapParser_number_undefined `{!JsonText} (ip6addr_aton : bytes → option bytes) now text n c :
  json_parse text = Ok (json_object [(lit "PeersRemoved", JArray [JFloat n])]) → 2 ^ 64 <= n →
  (NetworkMapParser_ApplyUpdate ip6addr_aton now text c).1 = UB.
Proof.
  intros Hp Hn. unfold NetworkMapParser_ApplyUpdate, ebind at 1, elift at 1. rewrite Hp.
  set (map := json_object [(lit "PeersRemoved", JArray [JFloat n])]).
  assert (∀ c, ApplyCapabilityFilterUpdate ip6addr_aton map c = (Ok false, c)) as H1 by reflexivity.
  assert (∀ c, MergeUserProfiles map c = (Ok false, c)) as H2 by reflexivity.
  assert (∀ c, update_node map false c = (Ok false, c)) as H3 by reflexivity.
  assert (∀ regions profiles peers, update_map_peers now map regions profiles peers = UB) as H4.
  { intros. unfold update_map_peers. change (json_find (lit "PeersRemoved") map) with (Some (JArray [JFloat n])).
    cbn [json_elements ofold]. unfold remove_peer, get_uint64, get_integer.
    by rewrite (proj2 (Z.ltb_ge _ _)), andb_false_r by lia. }
  unfold apply_update, ebind, emod, elift, eget. change (json_value get_bool (lit "KeepAlive") false map) with (Ok false).
  cbv beta iota zeta. rewrite H1. change (json_contains (lit "Domain") map) with false. cbv beta iota. unfold eret at 1.
  rewrite H2, H3. change (update_regions map) with (Ok (JObject [])). change (json_find (lit "DNSConfig") map) with (@None json).
  cbv beta iota. unfold eret at 1. unfold update_derp. cbn [json_empty]. unfold eret at 1. by rewrite H4.
Qed.

(** ** Witnesses *)

Definition map_text (v : json) : bytes := match json_dump v with Ok b => b | _ => [] end.

Lemma parse_map_text T F v : json_ok T F v → json_parse (map_text v) = Ok v.
Proof.
  intros Hv. by eapply demo_parse_print.
Qed.

Definition jtext (s : String.string) : json := JString (lit s).

(** A map with one peer, which has a route to the resolver. *)
Definition demo_peer_node : json := json_object [
  (lit "ID", JInt 7); (lit "Name", jtext "p.t.net"); (lit "Key", jtext "nodekey:1");
  (lit "Addresses", JArray [jtext "100.64.0.7/32"]); (lit "AllowedIPs", JArray [jtext "10.0.0.0/8"; jtext "0.0.0.0/0"]);
  (lit "DERP", jtext "127.3.3.40:1")].

Definition demo_document : json := json_object [
  (lit "Domain", jtext "t.net");
  (lit "Node", json_object [(lit "ID", JInt 1); (lit "Name", jtext "n.t.net."); (lit "Addresses", JArray [jtext "100.64.0.1/32"])]);
  (lit "DNSConfig", json_object [(lit "Routes", json_object [(lit "corp", JArray [json_object [(lit "Addr", jtext "10.0.0.53")]])])]);
  (lit "Peers", JArray [demo_peer_node]);
  (lit "DERPMap", json_object [(lit "Regions", json_object [(lit "1", json_object [
     (lit "Nodes", JArray [json_object [(lit "HostName", jtext "derp1")]])])])])].

Lemma demo_document_whole : whole_numbers demo_document.
Proof.
  unfold demo_document, demo_peer_node. repeat first [ apply json_object_ok | apply Forall_cons_2 | apply Forall_nil_2
    | split; [done|] | progress cbn [fst snd] | constructor; first [done | lia | idtac] ].
Qed.

Lemma demo_document_parses : json_parse (map_text demo_document) = Ok demo_document.
Proof. apply (parse_map_text _ _ _ demo_document_whole). Qed.

Definition demo_aton (_ : bytes) : option bytes := Some (replicate 16 0).

Definition demo_config : FullConfig :=
  match NetworkMapParser_Parse demo_aton (map_text demo_document) with Ok c => c | _ => FullConfig_default end.

Lemma demo_parse : NetworkMapParser_Parse demo_aton (map_text demo_document) = Ok demo_config.
Proof. unfold demo_config, NetworkMapParser_Parse. rewrite demo_document_parses. vm_compute. reflexivity. Qed.

Lemma demo_config_eq :
  demo_config = match parse_map demo_aton demo_document FullConfig_default with (Ok _, c) => c | _ => FullConfig_default end.
Proof. unfold demo_config, NetworkMapParser_Parse. rewrite demo_document_parses. by vm_compute. Qed.

Lemma demo_config_ids : peer_ids (fc_peers demo_config) = [7].
Proof. rewrite demo_config_eq. by vm_compute. Qed.

Lemma NetworkMapParser_Parse_usable_witness :
  peer_ids (fc_peers demo_config) = [7] ∧ dn_resolver (fc_dns demo_config) = lit "10.0.0.53" ∧ usable_map demo_config.
Proof.
  split; [apply demo_config_ids|]. split; [rewrite demo_config_eq; by vm_compute|].
  apply (NetworkMapParser_Parse_usable demo_aton (map_text demo_document) demo_config demo_parse).
Defined.

Lemma NetworkMapParser_safe_witness :
  safe (NetworkMapParser_Parse demo_aton (map_text demo_document))
  ∧ safe (NetworkMapParser_ApplyUpdate demo_aton [] (map_text demo_document) FullConfig_default).1.
Proof.
  apply (NetworkMapParser_safe demo_aton [] (map_text demo_document) FullConfig_default); [by eexists|].
  intros map Hm. rewrite demo_document_parses in Hm. injection Hm as <-. apply demo_document_whole.
Defined.

Definition demo_large : json := json_object [(lit "PeersRemoved", JArray [JFloat (2 ^ 70)])].

Lemma NetworkMapParser_number_undefined_witness :
  (NetworkMapParser_ApplyUpdate demo_aton [] (map_text demo_large) FullConfig_default).1 = UB.
Proof.
  apply (NetworkMapParser_number_undefined demo_aton [] (map_text demo_large) (2 ^ 70) FullConfig_default); [|lia].
  apply (parse_map_text (fun _ => True) (fun _ => True)). apply json_object_ok. by repeat constructor.
Defined.

(** The update that removes the peer. *)
Definition demo_removal : json := json_object [(lit "PeersRemoved", JArray [JInt 7])].

Lemma ApplyUpdate_peers_unique_witness :
  peer_ids (fc_peers (apply_update demo_aton [] demo_removal demo_config).2) = []
  ∧ let '(r, c') := NetworkMapParser_ApplyUpdate demo_aton [] (map_text demo_removal) demo_config in
    NoDup (peer_ids (fc_peers c'))
    ∧ ((∀ changed, r ≠ Ok changed) → fc_peers c' = fc_peers demo_config)
    ∧ (∀ map, json_parse (map_text demo_removal) = Ok map → json_find (lit "KeepAlive") map = Some (JBool true) →
       r = Ok false ∧ c' = fc_set_removed [] demo_config).
Proof.
  split.
  - rewrite demo_config_eq. by vm_compute.
  - apply (ApplyUpdate_peers_unique demo_aton [] (map_text demo_removal) demo_config).
    rewrite demo_config_ids. apply NoDup_singleton.
Defined.

Lemma update_map_peers_refines_witness :
  outcome_rel same_result (update_map_peers [] demo_removal (JObject []) [] (fc_peers demo_config))
    (spec_update [] demo_removal (JObject []) [] (peers_map (fc_peers demo_config))).
Proof.
  apply (update_map_peers_refines [] demo_removal (JObject []) [] (fc_peers demo_config)).
  rewrite demo_config_ids. apply NoDup_singleton.
Defined.

(** An update that removes one filter and sets another. *)
Definition demo_filters : json := json_object [
  (lit "PacketFilters", json_object [(lit "a", JNull); (lit "b", JArray [json_object [
     (lit "SrcIPs", JArray [jtext "*"]); (lit "CapGrant", JArray [json_object [
       (lit "Dsts", JArray [jtext "100.64.0.1"]); (lit "Caps", JArray [jtext "cap"])]])]])])].

Definition demo_filtered : FullConfig := fc_set_filters [(lit "a", [])] FullConfig_default.

Lemma ApplyCapabilityFilterUpdate_refines_witness :
  (fc_filters (ApplyCapabilityFilterUpdate demo_aton demo_filters demo_filtered).2).*1 = [lit "b"]
  ∧ let '(r, c') := ApplyCapabilityFilterUpdate demo_aton demo_filters demo_filtered in
    match r with
    | Ok changed =>
        map_ok (fc_filters c') ∧ c' = fc_set_filters (fc_filters c') demo_filtered
        ∧ (∀ name, filter_spec demo_aton demo_filters demo_filtered name = Ok (map_find name (fc_filters c')))
        ∧ (changed = false → c' = demo_filtered)
    | _ => c' = demo_filtered
    end.
Proof.
  split; [by vm_compute|]. apply (ApplyCapabilityFilterUpdate_refines demo_aton demo_filters demo_filtered).
  - unfold demo_filters. repeat first [ apply json_object_ok | apply Forall_cons_2 | apply Forall_nil_2
      | split; [done|] | progress cbn [fst snd] | constructor; first [done | lia | idtac] ].
  - repeat constructor.
Defined.

Lemma MapStreamResponse_any_chunks_witness :
  receive_map_chunks 100 [take 3 (frames_of [lit "one"; lit "two"]); drop 3 (frames_of [lit "one"; lit "two"])]
    (MapStreamResponse_Start 5 MapStreamResponse_new)
  = (Ok [lit "one"; lit "two"], {| ms_streamId := 5; ms_status := None; ms_body := [] |}).
Proof.
  apply (MapStreamResponse_any_chunks 100 [lit "one"; lit "two"]
           [take 3 (frames_of [lit "one"; lit "two"]); drop 3 (frames_of [lit "one"; lit "two"])] 5);
    [repeat constructor; by vm_compute|by vm_compute].
Defined.
