(* ===== verification/Documents.v ===== *)
(** * The JSON documents of the hosted protocol

    hosted/Protocol.cpp: the authentication, the challenge, the session and the rejection, and the
    network map that a hosted node sends to the relay.  JSON values are those of [Json];
    boost::algorithm's [unhex] and [hex_lower] are parameters. *)

From S2P Require Import Prelude Text StdMap Json Net Packet Dns Tailnet NetMap Router ControlMap.

Record Authentication := {
  au_Tailnet : bytes;
  au_NodeId : Z;
  au_Hostname : bytes;
  au_OperatingSystem : bytes;
  au_OperatingSystemVersion : bytes;
  au_NodePublicKey : bytes;
  au_ClientNonce : bytes;
  au_ClientProof : bytes
}.

Record Challenge := { ch_RelayPublicKey : bytes; ch_ServerNonce : bytes }.

Record HostedSession := {
  hs_Tailnet : bytes;
  hs_RelayHostName : bytes;
  hs_RelayHostAddress : bytes;
  hs_ServerProof : bytes
}.

Definition MaximumHostnameSize : Z := 253.
Definition MaximumOperatingSystemSize : Z := 64.
Definition MaximumOperatingSystemVersionSize : Z := 256.

Definition bytes32 (k : bytes) : Prop := zlen k = 32 ∧ bytes_ok k.

(** What is written in hexadecimal digits is read again. *)
Record hex_laws (unhex : bytes → option bytes) (hex_lower : bytes → bytes) : Prop := {
  hx_roundtrip : ∀ b, bytes_ok b → unhex (hex_lower b) = Some b;
  hx_ascii : ∀ b, bytes_ok b → Forall (fun c => 0 <= c < 128) (hex_lower b)
}.

Section documents.
  Context `{!JsonText} (unhex : bytes → option bytes) (hex_lower : bytes → bytes).

Definition JsonBytes (value : json) : outcome bytes := json_dump value.

Definition ParseJson (payload : bytes) : outcome json :=
  if bool_decide (payload = []) then Throw (RuntimeError "Relay JSON payload is empty.") else json_parse payload.

Definition DecodeBytes32 (value : json) (name : bytes) (error : String.string) : outcome bytes :=
  let! v := json_at name value in
  let! text := get_string v in
  let! b := HexToBytes unhex text in
  if negb (zlen b =? 32) then Throw (RuntimeError error) else Ok b.

Definition EncodeBytes32 (value : bytes) : json := JString (hex_lower value).

Definition ProtocolCodec_EncodeAuthentication (a : Authentication) : outcome bytes :=
  JsonBytes (json_object [
    (lit "Tailnet", JString (au_Tailnet a)); (lit "NodeId", JInt (au_NodeId a));
    (lit "Hostname", JString (au_Hostname a)); (lit "OS", JString (au_OperatingSystem a));
    (lit "OSVersion", JString (au_OperatingSystemVersion a));
    (lit "NodePublicKey", EncodeBytes32 (au_NodePublicKey a));
    (lit "ClientNonce", EncodeBytes32 (au_ClientNonce a));
    (lit "ClientProof", EncodeBytes32 (au_ClientProof a))]).

(** [value.at(name).get<std::string>()] *)
Definition text_at (name : bytes) (value : json) : outcome bytes := let! v := json_at name value in get_string v.

Definition ProtocolCodec_DecodeAuthentication (payload : bytes) : outcome Authentication :=
  let! value := ParseJson payload in
  let! tailnet := text_at (lit "Tailnet") value in
  let! id := json_at (lit "NodeId") value in
  let! nodeId := get_uint64 id in
  let! hostname := text_at (lit "Hostname") value in
  let! operatingSystem := text_at (lit "OS") value in
  let! operatingSystemVersion := text_at (lit "OSVersion") value in
  let! nodePublicKey := DecodeBytes32 value (lit "NodePublicKey") "Relay authentication has an invalid node public key." in
  let! clientNonce := DecodeBytes32 value (lit "ClientNonce") "Relay authentication has an invalid client nonce." in
  let! clientProof := DecodeBytes32 value (lit "ClientProof") "Relay authentication has an invalid client proof." in
  if bool_decide (tailnet = []) || (nodeId =? 0) || bool_decide (hostname = [])
     || (MaximumHostnameSize <? zlen hostname)
     || (MaximumOperatingSystemSize <? zlen operatingSystem)
     || (MaximumOperatingSystemVersionSize <? zlen operatingSystemVersion)
  then Throw (RuntimeError "Relay authentication is missing required fields.") else
  Ok {| au_Tailnet := tailnet; au_NodeId := nodeId; au_Hostname := hostname; au_OperatingSystem := operatingSystem;
        au_OperatingSystemVersion := operatingSystemVersion; au_NodePublicKey := nodePublicKey;
        au_ClientNonce := clientNonce; au_ClientProof := clientProof |}.

Definition ProtocolCodec_EncodeChallenge (c : Challenge) : outcome bytes :=
  JsonBytes (json_object [(lit "RelayPublicKey", EncodeBytes32 (ch_RelayPublicKey c));
                          (lit "ServerNonce", EncodeBytes32 (ch_ServerNonce c))]).

(** The order of the two arguments is not specified; whichever is read first, an exception of
    either leaves. *)
Definition ProtocolCodec_DecodeChallenge (payload : bytes) : outcome Challenge :=
  let! value := ParseJson payload in
  let! relayPublicKey := DecodeBytes32 value (lit "RelayPublicKey") "Relay challenge has an invalid public key." in
  let! serverNonce := DecodeBytes32 value (lit "ServerNonce") "Relay challenge has an invalid nonce." in
  Ok {| ch_RelayPublicKey := relayPublicKey; ch_ServerNonce := serverNonce |}.

Definition ProtocolCodec_EncodeSession (s : HostedSession) : outcome bytes :=
  JsonBytes (json_object [
    (lit "Tailnet", JString (hs_Tailnet s)); (lit "RelayHostName", JString (hs_RelayHostName s));
    (lit "RelayHostAddress", JString (hs_RelayHostAddress s)); (lit "ServerProof", EncodeBytes32 (hs_ServerProof s))]).

Definition ProtocolCodec_DecodeSession (payload : bytes) : outcome HostedSession :=
  let! value := ParseJson payload in
  let! tailnet := text_at (lit "Tailnet") value in
  let! relayHostName := json_value get_string (lit "RelayHostName") [] value in
  let! relayHostAddress := json_value get_string (lit "RelayHostAddress") [] value in
  let! serverProof := DecodeBytes32 value (lit "ServerProof") "Relay session has an invalid server proof." in
  if bool_decide (tailnet = []) then Throw (RuntimeError "Relay session is missing required fields.") else
  Ok {| hs_Tailnet := tailnet; hs_RelayHostName := relayHostName; hs_RelayHostAddress := relayHostAddress;
        hs_ServerProof := serverProof |}.

Definition ProtocolCodec_EncodeRejection (reason : bytes) : outcome bytes :=
  JsonBytes (json_object [(lit "Reason", JString reason)]).

Definition ProtocolCodec_DecodeRejection (payload : bytes) : outcome bytes :=
  let! value := ParseJson payload in
  let! reason := text_at (lit "Reason") value in
  if bool_decide (reason = []) then Throw (RuntimeError "Relay rejection reason is empty.") else Ok reason.

(** ** The network map *)

Definition encode_prefix (p : Ipv4Prefix) : json :=
  json_object [(lit "Network", JInt (px_network p)); (lit "Bits", JInt (px_length p))].

Definition encode_peer (p : FullPeer) : json := json_object [
  (lit "NodeId", JInt (fp_nodeId p)); (lit "OwnerId", JInt (fp_ownerId p)); (lit "Name", JString (fp_name p));
  (lit "Address", JString (fp_address p)); (lit "Addresses", json_strings (fp_addresses p));
  (lit "Key", JString (fp_key p)); (lit "DiscoKey", JString (fp_discoKey p));
  (lit "Endpoints", json_strings (fp_endpoints p));
  (lit "AllowedPrefixes", JArray (map encode_prefix (fp_allowedPrefixes p)));
  (lit "DerpRegion", JInt (fp_derpRegion p)); (lit "DerpCode", JString (fp_derpCode p));
  (lit "DerpHost", JString (fp_derpHost p)); (lit "OS", JString (fp_operatingSystem p));
  (lit "ClientVersion", JString (fp_clientVersion p)); (lit "PeerApi4Port", JInt (fp_peerApi4Port p));
  (lit "PeerApi6Port", JInt (fp_peerApi6Port p)); (lit "Capabilities", json_strings (fp_capabilities p));
  (lit "Owner", JString (fp_owner p)); (lit "Online", JBool (fp_online p));
  (lit "ExitNodeOption", JBool (fp_exitNodeOption p))].

Definition encode_route (r : DnsRoute) : json :=
  json_object [(lit "Suffix", JString (rou_Suffix r)); (lit "Resolvers", json_strings (rou_Resolvers r))].

Definition encode_profile (u : UserProfile) : json := json_object [
  (lit "Id", JInt (up_Id u)); (lit "LoginName", JString (up_LoginName u));
  (lit "DisplayName", JString (up_DisplayName u)); (lit "ProfilePicUrl", JString (up_ProfilePicUrl u))].

Definition encode_config (c : FullConfig) : json :=
  let s := fc_self c in let d := fc_dns c in
  json_object [
    (lit "SelfNodeId", JInt (sf_nodeId s)); (lit "SelfKey", JString (sf_key s));
    (lit "SelfAddress", JString (sf_address s)); (lit "SelfAddresses", json_strings (sf_addresses s));
    (lit "SelfName", JString (sf_name s)); (lit "Domain", JString (fc_domain c));
    (lit "MagicDnsDomain", JString (sf_magicDnsDomain s));
    (lit "TailnetDisplayName", JString (ac_tailnetDisplayName (fc_account c)));
    (lit "Capabilities", json_strings (sf_capabilities s)); (lit "DnsResolver", JString (dn_resolver d));
    (lit "DnsDomains", json_strings (dn_domains d)); (lit "DnsDefaultResolvers", json_strings (dn_defaultResolvers d));
    (lit "DnsRoutes", JArray (map encode_route (dn_routes d))); (lit "DerpRegion", JInt (dp_region (fc_derp c)));
    (lit "DerpHost", JString (dp_host (fc_derp c))); (lit "DerpCode", JString (dp_code (fc_derp c)));
    (lit "UserProfiles", JArray (map encode_profile (fc_userProfiles c)));
    (lit "Peers", JArray (map encode_peer (fc_peers c)))].

Definition ProtocolCodec_EncodeNetworkConfig (c : FullConfig) : outcome bytes := JsonBytes (encode_config c).

Definition decode_prefix (v : json) : outcome Ipv4Prefix :=
  let! network := json_value get_uint32 (lit "Network") 0 v in
  let! bits := json_value get_uint8 (lit "Bits") 0 v in
  Ok {| px_network := network; px_length := bits |}.

Definition decode_peer (v : json) : outcome FullPeer :=
  let! nodeId := json_value get_uint64 (lit "NodeId") 0 v in
  let! ownerId := json_value get_uint64 (lit "OwnerId") 0 v in
  let! name := json_value get_string (lit "Name") [] v in
  let! address := json_value get_string (lit "Address") [] v in
  let! addresses := json_value get_strings (lit "Addresses") [] v in
  let! key := json_value get_string (lit "Key") [] v in
  let! discoKey := json_value get_string (lit "DiscoKey") [] v in
  let! endpoints := json_value get_strings (lit "Endpoints") [] v in
  let! derpRegion := json_value get_int (lit "DerpRegion") 0 v in
  let! derpCode := json_value get_string (lit "DerpCode") [] v in
  let! derpHost := json_value get_string (lit "DerpHost") [] v in
  let! os := json_value get_string (lit "OS") [] v in
  let! clientVersion := json_value get_string (lit "ClientVersion") [] v in
  let! port4 := json_value get_int (lit "PeerApi4Port") 0 v in
  let! port6 := json_value get_int (lit "PeerApi6Port") 0 v in
  let! capabilities := json_value get_strings (lit "Capabilities") [] v in
  let! owner := json_value get_string (lit "Owner") [] v in
  let! online := json_value get_bool (lit "Online") false v in
  let! exitNodeOption := json_value get_bool (lit "ExitNodeOption") false v in
  let! sources := json_value get_json (lit "AllowedPrefixes") (JArray []) v in
  let! allowedPrefixes := try_map decode_prefix (json_elements sources) in
  Ok {| fp_nodeId := nodeId; fp_ownerId := ownerId; fp_name := name; fp_address := address;
        fp_addresses := addresses; fp_key := key; fp_discoKey := discoKey; fp_endpoints := endpoints;
        fp_allowedPrefixes := allowedPrefixes; fp_derpRegion := derpRegion; fp_derpCode := derpCode;
        fp_derpHost := derpHost; fp_operatingSystem := os; fp_clientVersion := clientVersion; fp_owner := owner;
        fp_peerApi4Port := port4; fp_capabilities := capabilities; fp_peerApi6Port := port6;
        fp_wireIngress := false; fp_ingressEnabled := false; fp_online := online;
        fp_exitNodeOption := exitNodeOption; fp_lastSeen := []; fp_keyExpiry := [] |}.

Definition decode_profile (v : json) : outcome UserProfile :=
  let! id := json_value get_uint64 (lit "Id") 0 v in
  let! login := json_value get_string (lit "LoginName") [] v in
  let! display := json_value get_string (lit "DisplayName") [] v in
  let! picture := json_value get_string (lit "ProfilePicUrl") [] v in
  Ok {| up_Id := id; up_LoginName := login; up_DisplayName := display; up_ProfilePicUrl := picture |}.

Definition decode_route (v : json) : outcome DnsRoute :=
  let! suffix := json_value get_string (lit "Suffix") [] v in
  let! resolvers := json_value get_strings (lit "Resolvers") [] v in
  Ok {| rou_Suffix := suffix; rou_Resolvers := resolvers |}.

Definition decode_config (value : json) : outcome FullConfig :=
  let! selfNodeId := json_value get_uint64 (lit "SelfNodeId") 0 value in
  let! selfKey := json_value get_string (lit "SelfKey") [] value in
  let! selfAddress := text_at (lit "SelfAddress") value in
  let! selfAddresses := json_value get_strings (lit "SelfAddresses") [] value in
  let! selfName := text_at (lit "SelfName") value in
  let! domain := text_at (lit "Domain") value in
  let! magicDnsDomain := json_value get_string (lit "MagicDnsDomain") [] value in
  let! tailnetDisplayName := json_value get_string (lit "TailnetDisplayName") [] value in
  let! capabilities := json_value get_strings (lit "Capabilities") [] value in
  let! dnsResolver := json_value get_string (lit "DnsResolver") [] value in
  let! dnsDomains := json_value get_strings (lit "DnsDomains") [] value in
  let! dnsDefaultResolvers := json_value get_strings (lit "DnsDefaultResolvers") [] value in
  let! derpRegion := json_value get_int (lit "DerpRegion") 0 value in
  let! derpHost := json_value get_string (lit "DerpHost") [] value in
  let! derpCode := json_value get_string (lit "DerpCode") [] value in
  let! profileSources := json_value get_json (lit "UserProfiles") (JArray []) value in
  let! userProfiles := try_map decode_profile (json_elements profileSources) in
  let! routeSources := json_value get_json (lit "DnsRoutes") (JArray []) value in
  let! dnsRoutes := try_map decode_route (json_elements routeSources) in
  let! peerSources := json_at (lit "Peers") value in
  let! peers := try_map decode_peer (json_elements peerSources) in
  if (selfNodeId =? 0) || bool_decide (selfKey = []) || bool_decide (selfAddress = []) || bool_decide (domain = [])
  then Throw (RuntimeError "Relay network configuration is incomplete.") else
  Ok {| fc_self := {| sf_nodeId := selfNodeId; sf_key := selfKey; sf_address := selfAddress;
                      sf_addresses := selfAddresses; sf_name := selfName; sf_machineAuthorized := false;
                      sf_magicDnsDomain := magicDnsDomain; sf_capabilities := capabilities;
                      sf_clientVersion := []; sf_peerApi4Port := 0; sf_peerApi6Port := 0;
                      sf_wireIngress := false; sf_ingressEnabled := false |};
        fc_filters := []; fc_domain := domain;
        fc_account := {| ac_tailnetDisplayName := tailnetDisplayName; ac_name := []; ac_displayName := [];
                         ac_profilePicUrl := [] |};
        fc_dns := {| dn_resolver := dnsResolver; dn_domains := dnsDomains; dn_certDomains := [];
                     dn_defaultResolvers := dnsDefaultResolvers; dn_routes := dnsRoutes |};
        fc_derp := {| dp_region := derpRegion; dp_host := derpHost; dp_code := derpCode; dp_stunHost := [];
                      dp_stunPort := 3478 |};
        fc_userProfiles := userProfiles; fc_peers := peers; fc_removedPeerNodeIds := [] |}.

Definition ProtocolCodec_DecodeNetworkConfig (payload : bytes) : outcome FullConfig :=
  let! value := ParseJson payload in decode_config value.

End documents.

(** What the tailnet resolver reads of a network map. *)
Definition tailnet_of (c : FullConfig) : TailnetConfig := {|
  tl_Self := {| tn_Name := sf_name (fc_self c); tn_PrimaryAddress := sf_address (fc_self c);
                tn_Addresses := sf_addresses (fc_self c) |};
  tl_Peers := map (fun p => {| tn_Name := fp_name p; tn_PrimaryAddress := fp_address p;
                               tn_Addresses := fp_addresses p |}) (fc_peers c);
  tl_MagicDnsDomain := sf_magicDnsDomain (fc_self c); tl_Domain := fc_domain c |}.

(** ** What a document says of a network map *)

(** A map without the members that are not sent. *)
Definition relayed_peer (p : FullPeer) : FullPeer := {|
  fp_nodeId := fp_nodeId p; fp_ownerId := fp_ownerId p; fp_name := fp_name p; fp_address := fp_address p;
  fp_addresses := fp_addresses p; fp_key := fp_key p; fp_discoKey := fp_discoKey p;
  fp_endpoints := fp_endpoints p; fp_allowedPrefixes := fp_allowedPrefixes p;
  fp_derpRegion := fp_derpRegion p; fp_derpCode := fp_derpCode p; fp_derpHost := fp_derpHost p;
  fp_operatingSystem := fp_operatingSystem p; fp_clientVersion := fp_clientVersion p; fp_owner := fp_owner p;
  fp_peerApi4Port := fp_peerApi4Port p; fp_capabilities := fp_capabilities p;
  fp_peerApi6Port := fp_peerApi6Port p; fp_wireIngress := false; fp_ingressEnabled := false;
  fp_online := fp_online p; fp_exitNodeOption := fp_exitNodeOption p; fp_lastSeen := []; fp_keyExpiry := [] |}.

Definition relayed_config (c : FullConfig) : FullConfig :=
  let s := fc_self c in let d := fc_dns c in let r := fc_derp c in {|
  fc_self := {| sf_nodeId := sf_nodeId s; sf_key := sf_key s; sf_address := sf_address s;
                sf_addresses := sf_addresses s; sf_name := sf_name s; sf_machineAuthorized := false;
                sf_magicDnsDomain := sf_magicDnsDomain s; sf_capabilities := sf_capabilities s;
                sf_clientVersion := []; sf_peerApi4Port := 0; sf_peerApi6Port := 0;
                sf_wireIngress := false; sf_ingressEnabled := false |};
  fc_filters := []; fc_domain := fc_domain c;
  fc_account := {| ac_tailnetDisplayName := ac_tailnetDisplayName (fc_account c); ac_name := [];
                   ac_displayName := []; ac_profilePicUrl := [] |};
  fc_dns := {| dn_resolver := dn_resolver d; dn_domains := dn_domains d; dn_certDomains := [];
               dn_defaultResolvers := dn_defaultResolvers d; dn_routes := dn_routes d |};
  fc_derp := {| dp_region := dp_region r; dp_host := dp_host r; dp_code := dp_code r; dp_stunHost := [];
                dp_stunPort := 3478 |};
  fc_userProfiles := fc_userProfiles c; fc_peers := map relayed_peer (fc_peers c);
  fc_removedPeerNodeIds := [] |}.

(** The texts can be printed, and the numbers have the widths of their members. *)
Section relayable.
  Context `{!JsonText}.

Record peer_relayable (p : FullPeer) : Prop := {
  pe_ids : 0 <= fp_nodeId p < 2 ^ 64 ∧ 0 <= fp_ownerId p < 2 ^ 64;
  pe_ints : Forall (fun n => - 2 ^ 31 <= n < 2 ^ 31) [fp_derpRegion p; fp_peerApi4Port p; fp_peerApi6Port p];
  pe_texts : Forall json_utf8 [fp_name p; fp_address p; fp_key p; fp_discoKey p; fp_derpCode p; fp_derpHost p;
                               fp_operatingSystem p; fp_clientVersion p; fp_owner p];
  pe_lists : Forall json_utf8 (fp_addresses p ++ fp_endpoints p ++ fp_capabilities p);
  pe_prefixes : Forall (fun x => 0 <= px_network x < 2 ^ 32 ∧ 0 <= px_length x < 2 ^ 8) (fp_allowedPrefixes p)
}.

Record config_relayable (c : FullConfig) : Prop := {
  cf_id : 0 <= sf_nodeId (fc_self c) < 2 ^ 64;
  cf_region : - 2 ^ 31 <= dp_region (fc_derp c) < 2 ^ 31;
  cf_texts : Forall json_utf8 [sf_key (fc_self c); sf_address (fc_self c); sf_name (fc_self c);
                               sf_magicDnsDomain (fc_self c); fc_domain c; ac_tailnetDisplayName (fc_account c);
                               dn_resolver (fc_dns c); dp_host (fc_derp c); dp_code (fc_derp c)];
  cf_lists : Forall json_utf8 (sf_addresses (fc_self c) ++ sf_capabilities (fc_self c) ++ dn_domains (fc_dns c)
                               ++ dn_defaultResolvers (fc_dns c));
  cf_routes : Forall (fun r => json_utf8 (rou_Suffix r) ∧ Forall json_utf8 (rou_Resolvers r)) (dn_routes (fc_dns c));
  cf_profiles : Forall (fun u => 0 <= up_Id u < 2 ^ 64
    ∧ Forall json_utf8 [up_LoginName u; up_DisplayName u; up_ProfilePicUrl u]) (fc_userProfiles c);
  cf_peers : Forall peer_relayable (fc_peers c)
}.

End relayable.

(** ** Reading what was written *)

Lemma json_at_object name fields :
  json_at name (json_object fields)
  = match map_find name fields with Some x => Ok x | None => Throw out_of_range_key end.
Proof. by rewrite <- json_find_object. Qed.

Lemma json_value_object {A} (get : json → outcome A) name otherwise fields :
  json_value get name otherwise (json_object fields)
  = match map_find name fields with Some x => get x | None => Ok otherwise end.
Proof. by rewrite <- json_find_object. Qed.

(** The position of the first member with that name. *)
Fixpoint name_index (name : bytes) (names : list bytes) : option nat :=
  match names with
  | [] => None
  | name' :: names => if bool_decide (name = name') then Some O else S <$> name_index name names
  end.

Lemma map_find_index {A} name (fields : list (bytes * A)) i x :
  name_index name (map fst fields) = Some i → snd <$> fields !! i = Some x → map_find name fields = Some x.
Proof.
  revert i. induction fields as [|[k v] fields IH]; intros i Hi Hx; [done|]. cbn in *. case_bool_decide as Hk.
  - injection Hi as <-. done.
  - destruct (name_index name (map fst fields)) as [j|]; [|done]. injection Hi as <-. by apply (IH j).
Qed.

Lemma get_integer_fits low high booleans n :
  low <= n < high → get_integer low high booleans (JInt n) = Ok n.
Proof. intros Hn. cbn. f_equal. rewrite Z.mod_small by lia. lia. Qed.

Lemma get_strings_written l : get_strings (json_strings l) = Ok l.
Proof. cbn. induction l as [|x l IH]; [done|]. cbn. by rewrite IH. Qed.

Lemma try_map_written {A B C} (f : B → outcome C) (g : A → B) (h : A → C) l :
  Forall (fun x => f (g x) = Ok (h x)) l → try_map f (map g l) = Ok (map h l).
Proof. induction 1 as [|x l Hx _ IH]; [done|]. cbn. by rewrite Hx, IH. Qed.

(** Reading a member: its value, or what [get] makes of it. *)
Lemma at_member name fields i x :
  name_index name (map fst fields) = Some i → snd <$> fields !! i = Some x →
  json_at name (json_object fields) = Ok x.
Proof. intros Hi Hx. by rewrite json_at_object, (map_find_index _ _ i x). Qed.

Lemma read_at {A} name (get : json → outcome A) fields i x a :
  name_index name (map fst fields) = Some i → snd <$> fields !! i = Some x → get x = Ok a →
  (let! v := json_at name (json_object fields) in get v) = Ok a.
Proof. intros Hi Hx Ha. by rewrite (at_member _ _ i x). Qed.

Lemma read_value {A} name (get : json → outcome A) otherwise fields i x a :
  name_index name (map fst fields) = Some i → snd <$> fields !! i = Some x → get x = Ok a →
  json_value get name otherwise (json_object fields) = Ok a.
Proof. intros Hi Hx Ha. rewrite json_value_object, (map_find_index _ _ i x) by done. done. Qed.

Lemma obind_intro {A B} (m : outcome A) (k : A → outcome B) a r : m = Ok a → k a = r → obind m k = r.
Proof. by intros ->. Qed.

(** A member of an object whose names are literals. *)
Ltac get_member :=
  cbn [snd]; first [apply get_strings_written | apply get_integer_fits; done | reflexivity].
Ltac member :=
  eapply obind_intro;
  [first [eapply read_value | eapply read_at]; [vm_compute; reflexivity | reflexivity | get_member] | cbv beta].

Lemma decode_prefix_encode x :
  0 <= px_network x < 2 ^ 32 → 0 <= px_length x < 2 ^ 8 → decode_prefix (encode_prefix x) = Ok x.
Proof. intros Hn Hl. do 2 member. by destruct x. Qed.

Lemma decode_route_encode r : decode_route (encode_route r) = Ok r.
Proof. do 2 member. by destruct r. Qed.

Lemma decode_profile_encode u : 0 <= up_Id u < 2 ^ 64 → decode_profile (encode_profile u) = Ok u.
Proof. intros Hu. do 4 member. by destruct u. Qed.

Section printable.
  Context `{!JsonText} `{!JsonTextLaws}.

Definition printable : json → Prop := json_ok json_utf8 (fun _ => False).

Lemma literal_utf8 t : forallb (fun c => (0 <=? c) && (c <? 128)) t = true → json_utf8 t.
Proof.
  intros Hlit. apply jt_ascii. rewrite Forall_forall. intros c Hc. rewrite forallb_forall in Hlit.
  apply list_elem_of_In in Hc. specialize (Hlit c Hc). apply andb_true_iff in Hlit as [?%Z.leb_le ?%Z.ltb_lt]. done.
Qed.

(** The members of an object whose names are literals. *)
Ltac members :=
  apply json_object_ok; repeat (apply Forall_cons; split; [split; [by apply literal_utf8|]|]); [..|apply Forall_nil; done];
  cbn [snd].

Lemma written_strings l : Forall json_utf8 l → printable (json_strings l).
Proof. intros Hl. constructor. apply Forall_map. eapply Forall_impl; [exact Hl|]. by constructor. Qed.

Lemma written_array {A} (f : A → json) (P : A → Prop) l :
  (∀ x, P x → printable (f x)) → Forall P l → printable (JArray (map f l)).
Proof. intros Hf Hl. constructor. apply Forall_map. by eapply Forall_impl. Qed.

Lemma written_int n : - 2 ^ 63 <= n < 2 ^ 64 → printable (JInt n).
Proof. by constructor. Qed.

Lemma written_prefix x : 0 <= px_network x < 2 ^ 32 ∧ 0 <= px_length x < 2 ^ 8 → printable (encode_prefix x).
Proof. intros [? ?]. members; apply written_int; lia. Qed.

Lemma written_route r : json_utf8 (rou_Suffix r) ∧ Forall json_utf8 (rou_Resolvers r) → printable (encode_route r).
Proof. intros [? ?]. members; [by constructor|by apply written_strings]. Qed.

Lemma written_profile u :
  0 <= up_Id u < 2 ^ 64 ∧ Forall json_utf8 [up_LoginName u; up_DisplayName u; up_ProfilePicUrl u] →
  printable (encode_profile u).
Proof. intros [? Hl]. decompose_Forall_hyps. members; by constructor; try lia. Qed.

Lemma written_peer p : peer_relayable p → printable (encode_peer p).
Proof.
  intros [[? ?] Hi Ht Hl Hp]. apply Forall_app in Hl as [Ha Hl]. apply Forall_app in Hl as [He Hc].
  decompose_Forall_hyps. members; try (apply written_int; lia); try (by apply written_strings); try (by constructor).
  by eapply written_array; [apply written_prefix|].
Qed.

Lemma decode_peer_encode p : peer_relayable p → decode_peer (encode_peer p) = Ok (relayed_peer p).
Proof.
  intros [[? ?] Hi _ _ Hp]. decompose_Forall_hyps. do 20 member. eapply obind_intro; [|reflexivity].
  cbn [json_elements]. rewrite (try_map_written _ _ id); [by rewrite map_id|].
  eapply Forall_impl; [exact Hp|]. intros x [? ?]. by apply decode_prefix_encode.
Qed.

Lemma written_config c : config_relayable c → printable (encode_config c).
Proof.
  intros [? ? Ht Hl Hr Hu Hp]. apply Forall_app in Hl as [Ha Hl]. apply Forall_app in Hl as [Hc Hl].
  apply Forall_app in Hl as [Hd He]. decompose_Forall_hyps.
  members; try (apply written_int; lia); try (by apply written_strings); try (by constructor).
  - by eapply written_array; [apply written_route|].
  - by eapply written_array; [apply written_profile|].
  - by eapply written_array; [apply written_peer|].
Qed.

Lemma decode_config_encode c : config_relayable c →
  decode_config (encode_config c)
  = if (sf_nodeId (fc_self c) =? 0) || bool_decide (sf_key (fc_self c) = [])
       || bool_decide (sf_address (fc_self c) = []) || bool_decide (fc_domain c = [])
    then Throw (RuntimeError "Relay network configuration is incomplete.") else Ok (relayed_config c).
Proof.
  intros [? ? _ _ _ Hu Hp]. do 16 member.
  eapply obind_intro; [cbn [json_elements]; apply (try_map_written _ _ id); eapply Forall_impl; [exact Hu|];
    intros u [? _]; by apply decode_profile_encode|]. member.
  eapply obind_intro; [cbn [json_elements]; apply (try_map_written _ _ id), Forall_true; apply decode_route_encode|].
  eapply obind_intro; [eapply at_member; [vm_compute; reflexivity|reflexivity]|].
  eapply obind_intro; [cbn [json_elements snd]; apply (try_map_written _ _ relayed_peer); eapply Forall_impl; [exact Hp|];
    apply decode_peer_encode|].
  rewrite !map_id. reflexivity.
Qed.

(** A document that can be printed is read back. *)
Lemma JsonBytes_parsed v : printable v → ∃ b, JsonBytes v = Ok b ∧ bytes_ok b ∧ ParseJson b = Ok v.
Proof.
  intros Hv. destruct (jt_dump v Hv) as (b & Hb & Hne & Hok & Hp). exists b. split_and!; [done|done|].
  unfold ParseJson. by rewrite bool_decide_false.
Qed.

Lemma document_read {A} (decode : json → outcome A) v r :
  printable v → decode v = r →
  ∃ b, JsonBytes v = Ok b ∧ bytes_ok b ∧ obind (ParseJson b) decode = r.
Proof. intros Hv Hr. destruct (JsonBytes_parsed v Hv) as (b & ? & ? & Hp). exists b. by rewrite Hp. Qed.

(** C24: what the relay gets of the network map that a hosted node sends.  The document of any
    map whose texts are UTF-8 and whose numbers have their widths is printed, and read back as the
    map in which exactly the members that the document does not carry have their initial values:
    the node's authorization and ingress flags, client version and PeerAPI ports, the account's
    name, display name and picture, the certificate domains, the STUN host and port (none and
    3478), the packet filters, the removed nodes, and each peer's ingress flags and times of last
    sight and key expiry.  Every other member is as it was, and with them all that the relay's
    resolver reads of a map, the names, addresses and domains; and a map that lacks the node's id,
    key, address or domain is refused with the exception that says so. *)
Theorem NetworkConfig_relayed c :
  config_relayable c →
  tailnet_of (relayed_config c) = tailnet_of c ∧
  ∃ b, ProtocolCodec_EncodeNetworkConfig c = Ok b ∧ bytes_ok b
    ∧ ProtocolCodec_DecodeNetworkConfig b
      = if (sf_nodeId (fc_self c) =? 0) || bool_decide (sf_key (fc_self c) = [])
           || bool_decide (sf_address (fc_self c) = []) || bool_decide (fc_domain c = [])
        then Throw (RuntimeError "Relay network configuration is incomplete.") else Ok (relayed_config c).
Proof.
  intros Hc. split; [unfold tailnet_of, relayed_config; cbn; by rewrite map_map|].
  apply document_read; [by apply written_config|by apply decode_config_encode].
Qed.

(** ** The documents of the authentication *)

Context (unhex : bytes → option bytes) (hex_lower : bytes → bytes) (Hhex : hex_laws unhex hex_lower).

Lemma written_key k : bytes_ok k → printable (EncodeBytes32 hex_lower k).
Proof. intros Hk. constructor. by apply jt_ascii, (hx_ascii _ _ Hhex). Qed.

Lemma DecodeBytes32_written name error fields i k :
  name_index name (map fst fields) = Some i →
  snd <$> fields !! i = Some (EncodeBytes32 hex_lower k) → bytes32 k →
  DecodeBytes32 unhex (json_object fields) name error = Ok k.
Proof.
  intros Hi Hx [Hl Hk]. unfold DecodeBytes32. rewrite (at_member _ _ i _ Hi Hx). cbn [obind EncodeBytes32 get_string].
  unfold HexToBytes. rewrite (hx_roundtrip _ _ Hhex k Hk). cbn [obind]. by rewrite Hl.
Qed.

Ltac key := eapply obind_intro; [eapply DecodeBytes32_written; [vm_compute; reflexivity|reflexivity|done]|cbv beta].

(** The fields are in the limits of the relay. *)
Record authentication_ok (a : Authentication) : Prop := {
  ao_tailnet : au_Tailnet a ≠ [];
  ao_node : 0 < au_NodeId a < 2 ^ 64;
  ao_hostname : au_Hostname a ≠ [] ∧ zlen (au_Hostname a) <= MaximumHostnameSize;
  ao_system : zlen (au_OperatingSystem a) <= MaximumOperatingSystemSize;
  ao_version : zlen (au_OperatingSystemVersion a) <= MaximumOperatingSystemVersionSize;
  ao_texts : Forall json_utf8 [au_Tailnet a; au_Hostname a; au_OperatingSystem a; au_OperatingSystemVersion a];
  ao_keys : bytes32 (au_NodePublicKey a) ∧ bytes32 (au_ClientNonce a) ∧ bytes32 (au_ClientProof a)
}.

Lemma Authentication_read a :
  authentication_ok a →
  ∃ b, ProtocolCodec_EncodeAuthentication hex_lower a = Ok b ∧ bytes_ok b
    ∧ ProtocolCodec_DecodeAuthentication unhex b = Ok a.
Proof.
  intros [Ht Hn [Hh1 Hh2] Hs Hv Hx (Hk & Hc & Hp)]. apply document_read.
  - decompose_Forall_hyps. members; try (by constructor); try (apply written_key; by apply Hk || by apply Hc || by apply Hp).
    constructor. lia.
  - member. eapply obind_intro; [eapply at_member; [vm_compute; reflexivity|reflexivity]|].
    eapply obind_intro; [apply get_integer_fits; lia|]. do 3 member. do 3 key.
    rewrite !bool_decide_false by done. rewrite (proj2 (Z.eqb_neq _ _)) by lia. rewrite !(proj2 (Z.ltb_ge _ _)) by done.
    by destruct a.
Qed.

Lemma Challenge_read c :
  bytes32 (ch_RelayPublicKey c) → bytes32 (ch_ServerNonce c) →
  ∃ b, ProtocolCodec_EncodeChallenge hex_lower c = Ok b ∧ bytes_ok b
    ∧ ProtocolCodec_DecodeChallenge unhex b = Ok c.
Proof.
  intros Hk Hn. apply document_read; [members; apply written_key; [apply Hk|apply Hn]|]. do 2 key. by destruct c.
Qed.

Lemma Session_read s :
  hs_Tailnet s ≠ [] → Forall json_utf8 [hs_Tailnet s; hs_RelayHostName s; hs_RelayHostAddress s] →
  bytes32 (hs_ServerProof s) →
  ∃ b, ProtocolCodec_EncodeSession hex_lower s = Ok b ∧ bytes_ok b ∧ ProtocolCodec_DecodeSession unhex b = Ok s.
Proof.
  intros Ht Hx Hp. apply document_read.
  - decompose_Forall_hyps. members; try (by constructor). apply written_key, Hp.
  - do 3 member. key. rewrite bool_decide_false by done. by destruct s.
Qed.

Lemma Rejection_read reason :
  reason ≠ [] → json_utf8 reason →
  ∃ b, ProtocolCodec_EncodeRejection reason = Ok b ∧ bytes_ok b ∧ ProtocolCodec_DecodeRejection b = Ok reason.
Proof.
  intros Hr Hx. apply document_read; [by members; constructor|]. member. by rewrite bool_decide_false.
Qed.

End printable.

(** ** No undefined behaviour *)

Section safety.
  Context `{!JsonText} `{!JsonTextLaws} (unhex : bytes → option bytes) (hex_lower : bytes → bytes).

(** The document, if it is one, has no number but integers of 64 bits. *)
Definition whole_document (payload : bytes) : Prop := ∀ v, json_parse payload = Ok v → whole_numbers v.

Lemma ParseJson_safe payload : safe (ParseJson payload).
Proof. unfold ParseJson. case_bool_decide; [done|apply jt_parse]. Qed.

Lemma ParseJson_whole payload v : whole_document payload → ParseJson payload = Ok v → whole_numbers v.
Proof. unfold ParseJson. case_bool_decide; [done|]. intros Hw Hp. by apply Hw. Qed.

Lemma text_at_safe name v : safe (text_at name v).
Proof. unfold text_at. apply safe_obind; auto with json. Qed.

Lemma DecodeBytes32_safe v name error : safe (DecodeBytes32 unhex v name error).
Proof.
  unfold DecodeBytes32, HexToBytes. apply safe_obind; [auto with json|]. intros x _.
  apply safe_obind; [auto with json|]. intros t _. apply safe_obind; [by destruct (unhex t)|].
  intros b _. by destruct (negb _).
Qed.

(** Every member of a document is read. *)
Ltac safe_members :=
  repeat (apply safe_obind;
    [first [apply text_at_safe | apply DecodeBytes32_safe | unfold get_uint64, get_int, get_uint32, get_uint8; eauto with json]
    | intros ? ?]).

Lemma DecodeAuthentication_safe payload :
  whole_document payload → safe (ProtocolCodec_DecodeAuthentication unhex payload).
Proof.
  intros Hw. apply safe_obind; [apply ParseJson_safe|]. intros v Hv%ParseJson_whole; [|done].
  apply safe_obind; [apply text_at_safe|]. intros ? _. apply safe_obind; [apply safe_json_at|].
  intros x Hx. apply safe_obind; [by eapply safe_get_integer, json_at_ok|]. intros n _. safe_members. by destruct (_ || _).
Qed.

Lemma safe_elements {A} (f : json → outcome A) v :
  (∀ x, whole_numbers x → safe (f x)) → whole_numbers v → safe (try_map f (json_elements v)).
Proof. intros Hf Hv. apply safe_try_map. eapply Forall_impl; [exact (json_elements_ok v Hv)|]. done. Qed.

Lemma value_json_whole name v x :
  whole_numbers v → json_value get_json name (JArray []) v = Ok x → whole_numbers x.
Proof.
  intros Hv Hx. destruct v as [| | | | | |l]; try done. cbn in Hx.
  destruct (map_find name l) as [y|] eqn:E; injection Hx as <-; [by apply (json_find_ok name (JObject l))|by constructor].
Qed.

Lemma decode_prefix_safe v : whole_numbers v → safe (decode_prefix v).
Proof. intros Hv. unfold decode_prefix. safe_members. done. Qed.

Lemma decode_profile_safe v : whole_numbers v → safe (decode_profile v).
Proof. intros Hv. unfold decode_profile. safe_members. done. Qed.

Lemma decode_route_safe v : whole_numbers v → safe (decode_route v).
Proof. intros Hv. unfold decode_route. safe_members. done. Qed.

Lemma decode_peer_safe v : whole_numbers v → safe (decode_peer v).
Proof.
  intros Hv. unfold decode_peer. do 20 (apply safe_obind; [unfold get_uint64, get_int; eauto with json|intros ? ?]).
  apply safe_obind; [|done]. apply safe_elements; [apply decode_prefix_safe|by eapply value_json_whole].
Qed.

Lemma DecodeNetworkConfig_safe payload :
  whole_document payload → safe (ProtocolCodec_DecodeNetworkConfig payload).
Proof.
  intros Hw. apply safe_obind; [apply ParseJson_safe|]. intros v Hv%ParseJson_whole; [|done]. unfold decode_config.
  do 16 (apply safe_obind; [first [apply text_at_safe | unfold get_uint64, get_int; eauto with json]|intros ? ?]).
  apply safe_obind; [apply safe_elements; [apply decode_profile_safe|by eapply value_json_whole]|intros ? _].
  apply safe_obind; [eauto with json|intros ? ?].
  apply safe_obind; [apply safe_elements; [apply decode_route_safe|by eapply value_json_whole]|intros ? _].
  apply safe_obind; [eauto with json|intros ? ?].
  apply safe_obind; [apply safe_elements; [apply decode_peer_safe|by eapply json_at_ok]|intros ? _].
  by destruct (_ || _).
Qed.

End safety.

(** ** Witnesses *)

Definition relay_hex_digit (d : Z) : Z := if d <? 10 then 48 + d else 87 + d.

Definition hex_value (c : Z) : option Z :=
  if (48 <=? c) && (c <=? 57) then Some (c - 48)
  else if (97 <=? c) && (c <=? 102) then Some (c - 87)
  else if (65 <=? c) && (c <=? 70) then Some (c - 55)
  else None.

Fixpoint relay_hex (b : bytes) : bytes :=
  match b with
  | [] => []
  | x :: b => relay_hex_digit (x / 16) :: relay_hex_digit (x mod 16) :: relay_hex b
  end.

Fixpoint relay_unhex (t : bytes) : option bytes :=
  match t with
  | [] => Some []
  | h :: l :: t =>
      match hex_value h, hex_value l, relay_unhex t with
      | Some h, Some l, Some b => Some (16 * h + l :: b)
      | _, _, _ => None
      end
  | _ => None
  end.

Lemma hex_value_digit d : 0 <= d < 16 → hex_value (relay_hex_digit d) = Some d ∧ 0 <= relay_hex_digit d < 128.
Proof.
  intros Hd. unfold hex_value, relay_hex_digit. destruct (Z.ltb_spec d 10).
  - rewrite !(proj2 (Z.leb_le _ _)) by lia. cbn [andb]. split; [f_equal; lia|lia].
  - rewrite (proj2 (Z.leb_gt (87 + d) 57)), andb_false_r by lia. rewrite !(proj2 (Z.leb_le _ _)) by lia.
    cbn [andb]. split; [f_equal; lia|lia].
Qed.

Lemma relay_hex_laws : hex_laws relay_unhex relay_hex.
Proof.
  assert (∀ x, 0 <= x < 256 → (0 <= x / 16 < 16) ∧ (0 <= x mod 16 < 16)) as Hx
    by (intros; Z.to_euclidean_division_equations; lia).
  split; intros b Hb; induction Hb as [|x b [Hh Hl]%Hx _ IH]; cbn [relay_hex relay_unhex]; try done.
  - rewrite (proj1 (hex_value_digit _ Hh)), (proj1 (hex_value_digit _ Hl)), IH. do 2 f_equal.
    symmetry. by apply Z.div_mod.
  - destruct (hex_value_digit _ Hh) as [_ ?], (hex_value_digit _ Hl) as [_ ?].
    apply Forall_cons; split; [done|]. by apply Forall_cons.
Qed.

(** A map with a peer, a route and a profile. *)
Definition demo_relay_peer : FullPeer := {|
  fp_nodeId := 8; fp_ownerId := 3; fp_name := lit "peer.t.net"; fp_address := lit "100.64.0.2";
  fp_addresses := [lit "100.64.0.2"]; fp_key := lit "nodekey:00"; fp_discoKey := lit "discokey:00";
  fp_endpoints := [lit "1.2.3.4:41641"]; fp_allowedPrefixes := [{| px_network := 1681915906; px_length := 32 |}];
  fp_derpRegion := 1; fp_derpCode := lit "nyc"; fp_derpHost := lit "derp1"; fp_operatingSystem := lit "linux";
  fp_clientVersion := []; fp_owner := lit "a@b"; fp_peerApi4Port := 80; fp_capabilities := [lit "funnel"];
  fp_peerApi6Port := 0; fp_wireIngress := true; fp_ingressEnabled := true; fp_online := true;
  fp_exitNodeOption := false; fp_lastSeen := lit "now"; fp_keyExpiry := lit "later" |}.

Definition demo_relay_map : FullConfig := {|
  fc_self := {| sf_nodeId := 7; sf_key := lit "nodekey:" ++ relay_hex (replicate 32 9); sf_address := lit "100.64.0.1";
                sf_addresses := [lit "100.64.0.1"]; sf_name := lit "n.t.net"; sf_machineAuthorized := true;
                sf_magicDnsDomain := lit "t.net"; sf_capabilities := []; sf_clientVersion := lit "1";
                sf_peerApi4Port := 5; sf_peerApi6Port := 6; sf_wireIngress := true; sf_ingressEnabled := true |};
  fc_filters := []; fc_domain := lit "t.net";
  fc_account := {| ac_tailnetDisplayName := lit "T"; ac_name := lit "a"; ac_displayName := []; ac_profilePicUrl := [] |};
  fc_dns := {| dn_resolver := lit "100.100.100.100"; dn_domains := [lit "t.net"]; dn_certDomains := [lit "c"];
               dn_defaultResolvers := []; dn_routes := [{| rou_Suffix := lit "corp"; rou_Resolvers := [lit "10.0.0.1"] |}] |};
  fc_derp := {| dp_region := 1; dp_host := lit "derp1"; dp_code := lit "nyc"; dp_stunHost := lit "s"; dp_stunPort := 1 |};
  fc_userProfiles := [{| up_Id := 3; up_LoginName := lit "a@b"; up_DisplayName := lit "A"; up_ProfilePicUrl := [] |}];
  fc_peers := [demo_relay_peer]; fc_removedPeerNodeIds := [1; 2] |}.

Lemma demo_relay_map_ok : config_relayable demo_relay_map.
Proof. split; cbn; repeat constructor; cbn; try lia; repeat constructor; cbn; lia. Qed.

Lemma NetworkConfig_relayed_witness :
  tailnet_of (relayed_config demo_relay_map) = tailnet_of demo_relay_map ∧
  ∃ b, ProtocolCodec_EncodeNetworkConfig demo_relay_map = Ok b ∧ bytes_ok b
    ∧ ProtocolCodec_DecodeNetworkConfig b = Ok (relayed_config demo_relay_map).
Proof. apply (NetworkConfig_relayed demo_relay_map). apply demo_relay_map_ok. Defined.
