(* ===== verification/Noise.v ===== *)
(** * The control connection: handshake and encrypted transport

    control/base/Noise.cpp (the initiator of a Noise IK handshake),
    control/base/ControlHandshake.cpp (the HTTP upgrade that carries it) and
    control/base/NoiseTransport.cpp (the frames that follow), with the functions of
    crypto/Crypto.cpp they call.  BLAKE2s, X25519 and ChaCha20-Poly1305 are those of the
    wireguard-lwip library: the class [NoiseCrypto].  A [Bytes32] is a list of 32 bytes.  The
    message of the exception for a refused upgrade leaves the headers out. *)

From S2P Require Import Prelude Text Net Packet DerpClient Base64.

(** [blake2s] without a key and with a digest of 32 bytes (and [blake2s_init], [_update] and
    [_final] over the pieces of a text), [x25519_base] and [x25519] with a clamped scalar, and
    the authenticated encryption with a 64-bit nonce, which [open] checks. *)
Class NoiseCrypto := {
  nc_blake2s : bytes → bytes;
  nc_x25519_base : bytes → bytes;
  nc_x25519 : bytes → bytes → bytes;
  nc_seal : bytes → Z → bytes → bytes → bytes;
  nc_open : bytes → Z → bytes → bytes → option bytes
}.

Class NoiseCryptoLaws `{!NoiseCrypto} : Prop := {
  nc_blake2s_size : ∀ data, zlen (nc_blake2s data) = 32;
  nc_blake2s_bytes : ∀ data, bytes_ok (nc_blake2s data);
  nc_base_size : ∀ k, zlen (nc_x25519_base k) = 32;
  nc_dh : ∀ a b, nc_x25519 a (nc_x25519_base b) = nc_x25519 b (nc_x25519_base a);
  nc_seal_size : ∀ k n ad p, zlen (nc_seal k n ad p) = zlen p + 16;
  nc_open_seal : ∀ k n ad p, nc_open k n ad (nc_seal k n ad p) = Some p
}.

(** ** crypto/Crypto.cpp *)

Definition Blake2sBlockSize : Z := 64.
Definition HmacInnerPadByte : Z := 0x36.
Definition HmacOuterPadByte : Z := 0x5c.
Definition ChaCha20Poly1305TagSize : Z := 16.

Definition ByteSwap64 (value : Z) : Z :=
  Z.lor (Z.lor (Z.lor (Z.lor (Z.lor (Z.lor (Z.lor
    (Z.shiftl (Z.land value 0x00000000000000ff) 56)
    (Z.shiftl (Z.land value 0x000000000000ff00) 40))
    (Z.shiftl (Z.land value 0x0000000000ff0000) 24))
    (Z.shiftl (Z.land value 0x00000000ff000000) 8))
    (Z.shiftr (Z.land value 0x000000ff00000000) 8))
    (Z.shiftr (Z.land value 0x0000ff0000000000) 24))
    (Z.shiftr (Z.land value 0x00ff000000000000) 40))
    (Z.shiftr (Z.land value 0xff00000000000000) 56).

Definition ClampCurve25519Private (privateKey : bytes) : bytes :=
  alter (fun b => Z.lor b 64) 31%nat (alter (fun b => Z.land b 127) 31%nat
    (alter (fun b => Z.land b 248) 0%nat privateKey)).

Section crypto.
  Context `{!NoiseCrypto}.

Definition Blake2s256 (data : bytes) : bytes := nc_blake2s data.

(** The text in a block of zeros. *)
Definition key_block (text : bytes) : bytes :=
  text ++ replicate (Z.to_nat Blake2sBlockSize - length text) 0.

Definition HmacBlake2s256 (key data : bytes) : bytes :=
  let keyBlock := key_block (if Blake2sBlockSize <? zlen key then Blake2s256 key else key) in
  let innerPad := map (fun b => Z.lxor b HmacInnerPadByte) keyBlock in
  let outerPad := map (fun b => Z.lxor b HmacOuterPadByte) keyBlock in
  let innerHash := nc_blake2s (innerPad ++ data) in
  nc_blake2s (outerPad ++ innerHash).

Definition X25519PublicFromPrivate (privateKey : bytes) : bytes := nc_x25519_base privateKey.

Definition X25519Shared (privateKey publicKey : bytes) : bytes := nc_x25519 privateKey publicKey.

Definition ChaCha20Poly1305EncryptBigNonce (key : bytes) (nonce : Z) (additionalData plaintext : bytes)
    : bytes :=
  nc_seal key (ByteSwap64 nonce) additionalData plaintext.

Definition ChaCha20Poly1305DecryptBigNonce (key : bytes) (nonce : Z) (additionalData ciphertext : bytes)
    : outcome bytes :=
  if zlen ciphertext <? ChaCha20Poly1305TagSize
  then Throw (RuntimeError "Ciphertext is too short.") else
  match nc_open key (ByteSwap64 nonce) additionalData ciphertext with
  | None => Throw (RuntimeError "ChaCha20-Poly1305 authentication failed.")
  | Some plaintext => Ok plaintext
  end.

(** ** The initiator *)

Definition TailscaleServerPublicKey : bytes := [
  0x7d; 0x27; 0x92; 0xf9; 0xc9; 0x8d; 0x75; 0x3d; 0x20; 0x42; 0x47; 0x15; 0x36; 0x80; 0x19; 0x49;
  0x10; 0x4c; 0x24; 0x7f; 0x95; 0xea; 0xc7; 0x70; 0xf8; 0xfb; 0x32; 0x15; 0x95; 0xe2; 0x17; 0x3b].

Definition ProtocolVersion : Z := 131.

Record NoiseKeys := { nk_TxKey : bytes; nk_RxKey : bytes }.

Record NoiseInitiator := {
  ni_machinePrivateKey : bytes;
  ni_machinePublicKey : bytes;
  ni_ephemeralPrivateKey : bytes;
  ni_ephemeralPublicKey : bytes;
  ni_serverPublicKey : bytes;
  ni_hash : bytes;
  ni_chainingKey : bytes;
  ni_initialized : bool
}.

Definition ni_set (hash chainingKey : bytes) (initialized : bool) (s : NoiseInitiator) : NoiseInitiator := {|
  ni_machinePrivateKey := ni_machinePrivateKey s; ni_machinePublicKey := ni_machinePublicKey s;
  ni_ephemeralPrivateKey := ni_ephemeralPrivateKey s; ni_ephemeralPublicKey := ni_ephemeralPublicKey s;
  ni_serverPublicKey := ni_serverPublicKey s; ni_hash := hash; ni_chainingKey := chainingKey;
  ni_initialized := initialized |}.

Definition Hkdf (chainingKey input : bytes) : bytes * bytes * bytes :=
  let tempKey := HmacBlake2s256 chainingKey input in
  let out1 := HmacBlake2s256 tempKey [0x01] in
  let out2 := HmacBlake2s256 tempKey (out1 ++ [0x02]) in
  let out3 := HmacBlake2s256 tempKey (out2 ++ [0x03]) in
  (out1, out2, out3).

Definition MixHash (data : bytes) (s : NoiseInitiator) : NoiseInitiator :=
  ni_set (Blake2s256 (ni_hash s ++ data)) (ni_chainingKey s) (ni_initialized s) s.

Definition MixKey (input : bytes) : eff NoiseInitiator bytes :=
  let* s := eget in
  let '(out1, out2, _) := Hkdf (ni_chainingKey s) input in
  emod (ni_set (ni_hash s) out1 (ni_initialized s)) ;;*
  eret out2.

Definition noise_protocolName : bytes := lit "Noise_IK_25519_ChaChaPoly_BLAKE2s".
Definition noise_prologue : bytes := lit "Tailscale Control Protocol v131".

Definition NoiseInitiator_Initialize (s : NoiseInitiator) : NoiseInitiator :=
  let hash := Blake2s256 noise_protocolName in
  let s := ni_set hash hash (ni_initialized s) s in
  let s := MixHash noise_prologue s in
  let s := MixHash (ni_serverPublicKey s) s in
  ni_set (ni_hash s) (ni_chainingKey s) true s.

(** The constructor that was to draw the ephemeral key itself. *)
Definition NoiseInitiator_unseeded (machinePrivateKey : bytes) : outcome NoiseInitiator :=
  Throw (RuntimeError "Random ephemeral key generation is not wired yet.").

Definition NoiseInitiator_new (machinePrivateKey ephemeralPrivateKey : bytes) : NoiseInitiator :=
  let machinePrivateKey := ClampCurve25519Private machinePrivateKey in
  let ephemeralPrivateKey := ClampCurve25519Private ephemeralPrivateKey in
  NoiseInitiator_Initialize {|
    ni_machinePrivateKey := machinePrivateKey;
    ni_machinePublicKey := X25519PublicFromPrivate machinePrivateKey;
    ni_ephemeralPrivateKey := ephemeralPrivateKey;
    ni_ephemeralPublicKey := X25519PublicFromPrivate ephemeralPrivateKey;
    ni_serverPublicKey := TailscaleServerPublicKey;
    ni_hash := replicate 32 0; ni_chainingKey := replicate 32 0; ni_initialized := false |}.

Definition NoiseInitiator_WriteMessage1 : eff NoiseInitiator bytes :=
  let* s := eget in
  if negb (ni_initialized s) then ethrow (RuntimeError "Noise initiator is not initialized.") else
  let out := [u8 (Z.land (Z.shiftr ProtocolVersion 8) 0xff); u8 (Z.land ProtocolVersion 0xff);
              0x01; 0x00; 0x60] in
  let out := out ++ ni_ephemeralPublicKey s in
  emod (MixHash (ni_ephemeralPublicKey s)) ;;*
  let* key := MixKey (X25519Shared (ni_ephemeralPrivateKey s) (ni_serverPublicKey s)) in
  let* s := eget in
  let encryptedStatic := ChaCha20Poly1305EncryptBigNonce key 0 (ni_hash s) (ni_machinePublicKey s) in
  let out := out ++ encryptedStatic in
  emod (MixHash encryptedStatic) ;;*
  let* key := MixKey (X25519Shared (ni_machinePrivateKey s) (ni_serverPublicKey s)) in
  let* s := eget in
  let encryptedPayload := ChaCha20Poly1305EncryptBigNonce key 0 (ni_hash s) [] in
  let out := out ++ encryptedPayload in
  emod (MixHash encryptedPayload) ;;*
  eret out.

Definition NoiseInitiator_ReadMessage2 (message : bytes) : eff NoiseInitiator NoiseKeys :=
  if zlen message <? 48 then ethrow (RuntimeError "Noise message 2 is too short.") else
  let* remoteEphemeral := elift (slice message 0 32) in
  emod (MixHash remoteEphemeral) ;;*
  let* s := eget in
  MixKey (X25519Shared (ni_ephemeralPrivateKey s) remoteEphemeral) ;;*
  let* key := MixKey (X25519Shared (ni_machinePrivateKey s) remoteEphemeral) in
  let* ciphertext := elift (slice message 32 (zlen message)) in
  let* s := eget in
  elift (ChaCha20Poly1305DecryptBigNonce key 0 (ni_hash s) ciphertext) ;;*
  emod (MixHash ciphertext) ;;*
  let* s := eget in
  let '(split0, split1, _) := Hkdf (ni_chainingKey s) [] in
  eret {| nk_TxKey := split0; nk_RxKey := split1 |}.

End crypto.

(** ** The transport *)

Definition TransportFrameType : Z := 0x04.
Definition TransportHeaderSize : Z := 3.
Definition MaximumCiphertextSize : Z := 0xffff.

Section transport.
  Context `{!NoiseCrypto} {S : Type} `{!ByteStream S}.

Record NoiseTransport := {
  nt_stream : S;
  nt_keys : NoiseKeys;
  nt_txNonce : Z;
  nt_rxNonce : Z;
  nt_receiveBuffer : bytes;
  nt_sendBuffer : bytes;
  nt_sendOffset : Z
}.

Definition NoiseTransport_new (stream : S) (keys : NoiseKeys) : NoiseTransport := {|
  nt_stream := stream; nt_keys := keys; nt_txNonce := 0; nt_rxNonce := 0;
  nt_receiveBuffer := []; nt_sendBuffer := []; nt_sendOffset := 0 |}.

Definition nt_set_stream s (t : NoiseTransport) : NoiseTransport := {|
  nt_stream := s; nt_keys := nt_keys t; nt_txNonce := nt_txNonce t; nt_rxNonce := nt_rxNonce t;
  nt_receiveBuffer := nt_receiveBuffer t; nt_sendBuffer := nt_sendBuffer t;
  nt_sendOffset := nt_sendOffset t |}.
Definition nt_set_send buffer offset (t : NoiseTransport) : NoiseTransport := {|
  nt_stream := nt_stream t; nt_keys := nt_keys t; nt_txNonce := nt_txNonce t; nt_rxNonce := nt_rxNonce t;
  nt_receiveBuffer := nt_receiveBuffer t; nt_sendBuffer := buffer; nt_sendOffset := offset |}.
Definition nt_set_txNonce n (t : NoiseTransport) : NoiseTransport := {|
  nt_stream := nt_stream t; nt_keys := nt_keys t; nt_txNonce := n; nt_rxNonce := nt_rxNonce t;
  nt_receiveBuffer := nt_receiveBuffer t; nt_sendBuffer := nt_sendBuffer t;
  nt_sendOffset := nt_sendOffset t |}.
Definition nt_set_receive buffer n (t : NoiseTransport) : NoiseTransport := {|
  nt_stream := nt_stream t; nt_keys := nt_keys t; nt_txNonce := nt_txNonce t; nt_rxNonce := n;
  nt_receiveBuffer := buffer; nt_sendBuffer := nt_sendBuffer t; nt_sendOffset := nt_sendOffset t |}.

Definition nt_on_stream {A} (m : eff S A) : eff NoiseTransport A := fun t =>
  let '(r, s) := m (nt_stream t) in (r, nt_set_stream s t).

(** The loop of [Flush]: whether it ended with nothing left to send. *)
Fixpoint noise_flush_loop (fuel : nat) : eff NoiseTransport bool :=
  match fuel with
  | O => elift UB
  | Datatypes.S fuel' =>
      let* t := eget in
      if nt_sendOffset t <? zlen (nt_sendBuffer t) then
        let* data := elift (slice (nt_sendBuffer t) (nt_sendOffset t) (zlen (nt_sendBuffer t))) in
        let* written := nt_on_stream (st_TryWriteSome data) in
        match written with
        | None => eret false
        | Some n =>
            if n =? 0 then ethrow (RuntimeError "Noise transport stream closed during write.") else
            emod (fun t => nt_set_send (nt_sendBuffer t) (nt_sendOffset t + n) t) ;;*
            noise_flush_loop fuel'
        end
      else eret true
  end.

Definition NoiseTransport_Flush : eff NoiseTransport unit :=
  let* t := eget in
  let* drained := noise_flush_loop (Datatypes.S (Z.to_nat (zlen (nt_sendBuffer t) - nt_sendOffset t))) in
  if drained then emod (nt_set_send [] 0) else eret tt.

Definition NoiseTransport_HasPendingOutput (t : NoiseTransport) : bool :=
  nt_sendOffset t <? zlen (nt_sendBuffer t).

Definition NoiseTransport_Send (plaintext : bytes) : eff NoiseTransport unit :=
  let* t := eget in
  let ciphertext := ChaCha20Poly1305EncryptBigNonce (nk_TxKey (nt_keys t)) (nt_txNonce t) [] plaintext in
  emod (fun t => nt_set_txNonce (u64 (nt_txNonce t + 1)) t) ;;*
  if MaximumCiphertextSize <? zlen ciphertext
  then ethrow (RuntimeError "Noise transport frame is too large.") else
  let frame := [TransportFrameType; u8 (Z.land (Z.shiftr (zlen ciphertext) 8) 0xff);
                u8 (Z.land (zlen ciphertext) 0xff)] ++ ciphertext in
  emod (fun t => nt_set_send (nt_sendBuffer t ++ frame) (nt_sendOffset t) t) ;;*
  NoiseTransport_Flush.

Definition NoiseTransport_TryTakeBufferedFrame : eff NoiseTransport (option bytes) :=
  let* t := eget in
  let buffer := nt_receiveBuffer t in
  if zlen buffer <? TransportHeaderSize then eret None else
  let* type := elift (rd buffer 0) in
  if negb (type =? TransportFrameType)
  then ethrow (RuntimeError "Unexpected Noise transport frame type.") else
  let* high := elift (rd buffer 1) in
  let* low := elift (rd buffer 2) in
  let ciphertextLength := Z.lor (Z.shiftl high 8) low in
  let frameSize := TransportHeaderSize + ciphertextLength in
  if zlen buffer <? frameSize then eret None else
  let* ciphertext := elift (slice buffer TransportHeaderSize frameSize) in
  let* rest := elift (slice buffer frameSize (zlen buffer)) in
  emod (fun t => nt_set_receive rest (nt_rxNonce t) t) ;;*
  let* plaintext := elift (ChaCha20Poly1305DecryptBigNonce (nk_RxKey (nt_keys t)) (nt_rxNonce t)
                             [] ciphertext) in
  emod (fun t => nt_set_receive (nt_receiveBuffer t) (u64 (nt_rxNonce t + 1)) t) ;;*
  eret (Some plaintext).

(** What there is room for, a [size_t]. *)
Definition availableCapacity (t : NoiseTransport) : Z :=
  u64 (MaximumCiphertextSize + TransportHeaderSize - zlen (nt_receiveBuffer t)).

Definition nt_append (available : bytes) : eff NoiseTransport unit :=
  if bool_decide (available = []) then ethrow (RuntimeError "Noise transport stream closed.") else
  emod (fun t => nt_set_receive (nt_receiveBuffer t ++ available) (nt_rxNonce t) t).

Fixpoint noise_receive_loop (fuel : nat) : eff NoiseTransport bytes :=
  match fuel with
  | O => elift UB
  | Datatypes.S fuel' =>
      let* plaintext := NoiseTransport_TryTakeBufferedFrame in
      match plaintext with
      | Some plaintext => eret plaintext
      | None =>
          let* t := eget in
          let* available := nt_on_stream (ByteStream_ReadSome (availableCapacity t)) in
          nt_append available ;;*
          noise_receive_loop fuel'
      end
  end.

(** Every round but the last adds a byte to a buffer that holds less than the largest frame. *)
Definition NoiseTransport_Receive : eff NoiseTransport bytes :=
  noise_receive_loop (Datatypes.S (Z.to_nat (MaximumCiphertextSize + TransportHeaderSize))).

Definition NoiseTransport_TryReceive : eff NoiseTransport (option bytes) :=
  let* plaintext := NoiseTransport_TryTakeBufferedFrame in
  match plaintext with
  | Some plaintext => eret (Some plaintext)
  | None =>
      let* t := eget in
      let* available := nt_on_stream (st_TryReadSome (availableCapacity t)) in
      match available with
      | None => eret None
      | Some available =>
          nt_append available ;;*
          NoiseTransport_TryTakeBufferedFrame
      end
  end.

(** ** The handshake over HTTP *)

Definition ReadChunkSize : Z := 2048.
Definition NoiseFrameHeaderSize : Z := 3.
Definition NoiseMessageTwoType : Z := 0x02.

Record ControlHandshakeResult := { hr_Keys : NoiseKeys; hr_ProactiveFrames : bytes }.

Definition NoiseTransport_of_handshake (stream : S) (handshake : ControlHandshakeResult)
    : NoiseTransport :=
  nt_set_receive (hr_ProactiveFrames handshake) 0 (NoiseTransport_new stream (hr_Keys handshake)).

Definition crlf : bytes := [13; 10].

Definition BuildUpgradeRequest (host message1 : bytes) : outcome bytes :=
  let! encoded := Base64Encode message1 in
  Ok (lit "POST /ts2021 HTTP/1.1" ++ crlf ++ lit "Host: " ++ host ++ crlf
      ++ lit "Upgrade: tailscale-control-protocol" ++ crlf
      ++ lit "Connection: Upgrade" ++ crlf
      ++ lit "User-Agent: Tailgate" ++ crlf
      ++ lit "X-Tailscale-Handshake: " ++ encoded ++ crlf
      ++ lit "Content-Length: 0" ++ crlf ++ crlf).

(** [std::search], from [position] on. *)
Fixpoint search (data delimiter : bytes) (position : Z) : option Z :=
  if starts_with delimiter data then Some position else
  match data with
  | [] => None
  | _ :: data' => search data' delimiter (position + 1)
  end.

Definition FindHeaderEnd (data : bytes) : option Z :=
  (fun match_ => match_ + 4) <$> search data [13; 10; 13; 10] 0.

(** The loop that reads the headers; [None] when its fuel is spent. *)
Fixpoint read_headers (fuel : nat) (response : bytes) : eff S (option (bytes * Z)) :=
  match fuel with
  | O => eret None
  | Datatypes.S fuel' =>
      let* chunk := ByteStream_ReadSome ReadChunkSize in
      if bool_decide (chunk = [])
      then ethrow (RuntimeError "Control server closed during HTTP upgrade.") else
      let response := response ++ chunk in
      match FindHeaderEnd response with
      | Some headerEnd => eret (Some (response, headerEnd))
      | None => read_headers fuel' response
      end
  end.

(** The loops that read the message, until [size] bytes are there; [None] when the fuel is spent. *)
Fixpoint read_body (fuel : nat) (size : Z) (body : bytes) : eff S (option bytes) :=
  if negb (zlen body <? size) then eret (Some body) else
  match fuel with
  | O => eret None
  | Datatypes.S fuel' =>
      let* chunk := ByteStream_ReadSome (size - zlen body) in
      read_body fuel' size (body ++ chunk)
  end.

(** [Run] after the message of the server is there. *)
Definition finish_handshake (payloadLength : Z) (body : bytes) : eff NoiseInitiator ControlHandshakeResult :=
  let* message2 := elift (slice body NoiseFrameHeaderSize (NoiseFrameHeaderSize + payloadLength)) in
  let* extra := elift (slice body (NoiseFrameHeaderSize + payloadLength) (zlen body)) in
  let* keys := NoiseInitiator_ReadMessage2 message2 in
  eret {| hr_Keys := keys; hr_ProactiveFrames := extra |}.

Definition on_noise {A} (m : eff NoiseInitiator A) : eff (NoiseInitiator * S) A := fun w =>
  let '(r, s) := m w.1 in (r, (s, w.2)).
Definition on_wire {A} (m : eff S A) : eff (NoiseInitiator * S) A := fun w =>
  let '(r, s) := m w.2 in (r, (w.1, s)).

(** The fuel bounds the reads of each loop: a server can go on sending headers for ever. *)
Definition ControlHandshake_Run (fuel : nat) (host : bytes)
    : eff (NoiseInitiator * S) (option ControlHandshakeResult) :=
  let* message1 := on_noise NoiseInitiator_WriteMessage1 in
  let* request := elift (BuildUpgradeRequest host message1) in
  on_wire (ByteStream_WriteAll request) ;;*
  let* response := on_wire (read_headers fuel []) in
  match response with
  | None => eret None
  | Some (response, headerEnd) =>
      let* headers := elift (slice response 0 headerEnd) in
      match search headers (lit "101") 0 with
      | None => ethrow (RuntimeError "Control server did not switch protocols.")
      | Some _ =>
          let* body := elift (slice response headerEnd (zlen response)) in
          let* body := on_wire (read_body fuel NoiseFrameHeaderSize body) in
          match body with
          | None => eret None
          | Some body =>
              let* type := elift (rd body 0) in
              if negb (type =? NoiseMessageTwoType)
              then ethrow (RuntimeError "Unexpected Noise message type from control server.") else
              let* high := elift (rd body 1) in
              let* low := elift (rd body 2) in
              let payloadLength := Z.lor (Z.shiftl high 8) low in
              let* body := on_wire (read_body fuel (NoiseFrameHeaderSize + payloadLength) body) in
              match body with
              | None => eret None
              | Some body =>
                  let* result := on_noise (finish_handshake payloadLength body) in
                  eret (Some result)
              end
          end
      end
  end.

End transport.

Arguments NoiseTransport S : clear implicits.

(** ** The responder of Noise IK

    The other side of the handshake, from the Noise specification: the pattern
    [<- s ... -> e, es, s, ss  <- e, ee, se] over a symmetric state of a chaining key and a hash.
    [s] and [e] are the private keys of the responder. *)
Section responder.
  Context `{!NoiseCrypto}.

Record Symmetric := { sy_ck : bytes; sy_h : bytes }.

Definition noise_hkdf2 (ck ikm : bytes) : bytes * bytes :=
  let temp := HmacBlake2s256 ck ikm in
  let out1 := HmacBlake2s256 temp [0x01] in
  (out1, HmacBlake2s256 temp (out1 ++ [0x02])).

Definition sy_mix_hash (data : bytes) (st : Symmetric) : Symmetric :=
  {| sy_ck := sy_ck st; sy_h := nc_blake2s (sy_h st ++ data) |}.

Definition sy_mix_key (ikm : bytes) (st : Symmetric) : bytes * Symmetric :=
  let '(ck, k) := noise_hkdf2 (sy_ck st) ikm in (k, {| sy_ck := ck; sy_h := sy_h st |}).

Definition sy_decrypt (k c : bytes) (st : Symmetric) : option (bytes * Symmetric) :=
  (fun p => (p, sy_mix_hash c st)) <$> nc_open k 0 (sy_h st) c.

Definition responder_start (s : bytes) : Symmetric :=
  let h := nc_blake2s noise_protocolName in
  sy_mix_hash (nc_x25519_base s) (sy_mix_hash noise_prologue {| sy_ck := h; sy_h := h |}).

(** The key of the initiator that the first message shows, and the state after it. *)
Definition responder_read (s : bytes) (message : bytes) : option (bytes * bytes * Symmetric) :=
  match slice message 0 5, slice message 5 37, slice message 37 85, slice message 85 101 with
  | Ok header, Ok re, Ok encryptedStatic, Ok encryptedPayload =>
      if negb (bool_decide (header = [0; 131; 1; 0; 96]) && (zlen message =? 101)) then None else
      let st := sy_mix_hash re (responder_start s) in
      let '(k, st) := sy_mix_key (nc_x25519 s re) st in
      match sy_decrypt k encryptedStatic st with
      | None => None
      | Some (rs, st) =>
          let '(k, st) := sy_mix_key (nc_x25519 s rs) st in
          match sy_decrypt k encryptedPayload st with
          | Some ([], st) => Some (re, rs, st)
          | _ => None
          end
      end
  | _, _, _, _ => None
  end.

(** The second message, and the keys with which the responder sends and receives. *)
Definition responder_write (e re rs : bytes) (st : Symmetric) : bytes * NoiseKeys :=
  let st := sy_mix_hash (nc_x25519_base e) st in
  let '(_, st) := sy_mix_key (nc_x25519 e re) st in
  let '(k, st) := sy_mix_key (nc_x25519 e rs) st in
  let c := nc_seal k 0 (sy_h st) [] in
  let st := sy_mix_hash c st in
  let '(k1, k2) := noise_hkdf2 (sy_ck st) [] in
  (nc_x25519_base e ++ c, {| nk_TxKey := k2; nk_RxKey := k1 |}).

Definition sym (i : NoiseInitiator) : Symmetric := {| sy_ck := ni_chainingKey i; sy_h := ni_hash i |}.

(** The two messages of the initiator in the terms of the specification. *)
Lemma WriteMessage1_spec i :
  ni_initialized i = true →
  let '(k1, st1) := sy_mix_key (nc_x25519 (ni_ephemeralPrivateKey i) (ni_serverPublicKey i))
                      (sy_mix_hash (ni_ephemeralPublicKey i) (sym i)) in
  let c1 := nc_seal k1 0 (sy_h st1) (ni_machinePublicKey i) in
  let '(k2, st2) := sy_mix_key (nc_x25519 (ni_machinePrivateKey i) (ni_serverPublicKey i))
                      (sy_mix_hash c1 st1) in
  let c2 := nc_seal k2 0 (sy_h st2) [] in
  let st3 := sy_mix_hash c2 st2 in
  NoiseInitiator_WriteMessage1 i
  = (Ok ([0; 131; 1; 0; 96] ++ ni_ephemeralPublicKey i ++ c1 ++ c2), ni_set (sy_h st3) (sy_ck st3) true i).
Proof.
  destruct i as [mp mq ep eq sp h ck b]. cbn [ni_initialized]. intros ->.
  unfold NoiseInitiator_WriteMessage1, ebind, eget, emod, eret. cbn [negb ni_initialized].
  repeat (cbn -[HmacBlake2s256 u8 ByteSwap64 app]; unfold ChaCha20Poly1305EncryptBigNonce, Blake2s256, X25519Shared).
  change (ByteSwap64 0) with 0. by rewrite <- !app_assoc.
Qed.

Lemma ReadMessage2_spec i re c :
  zlen re = 32 → 16 <= zlen c →
  let '(_, st1) := sy_mix_key (nc_x25519 (ni_ephemeralPrivateKey i) re) (sy_mix_hash re (sym i)) in
  let '(k, st2) := sy_mix_key (nc_x25519 (ni_machinePrivateKey i) re) st1 in
  let '(k1, k2) := noise_hkdf2 (sy_ck st2) [] in
  (NoiseInitiator_ReadMessage2 (re ++ c) i).1
  = match nc_open k 0 (sy_h st2) c with
    | None => Throw (RuntimeError "ChaCha20-Poly1305 authentication failed.")
    | Some _ => Ok {| nk_TxKey := k1; nk_RxKey := k2 |}
    end.
Proof.
  intros Hre Hc. destruct i as [mp mq ep eq sp h ck b].
  unfold NoiseInitiator_ReadMessage2, ebind, eget, emod, eret, elift.
  rewrite zlen_app, (proj2 (Z.ltb_ge _ _)) by lia.
  rewrite (slice_prefix re c) by lia. rewrite slice_app_drop by lia.
  cbn -[HmacBlake2s256 u8 ByteSwap64 app]. unfold ChaCha20Poly1305DecryptBigNonce, Blake2s256, X25519Shared.
  change ChaCha20Poly1305TagSize with 16. rewrite (proj2 (Z.ltb_ge _ _)) by lia.
  change (ByteSwap64 0) with 0. cbn -[HmacBlake2s256 u8 ByteSwap64 app]. by destruct nc_open.
Qed.

Context `{!NoiseCryptoLaws}.

Lemma sy_decrypt_seal k st p : sy_decrypt k (nc_seal k 0 (sy_h st) p) st
  = Some (p, sy_mix_hash (nc_seal k 0 (sy_h st) p) st).
Proof. unfold sy_decrypt. by rewrite nc_open_seal. Qed.

Lemma message1_slices (h a b c : bytes) :
  zlen h = 5 → zlen a = 32 → zlen b = 48 → zlen c = 16 →
  let m := h ++ a ++ b ++ c in
  slice m 0 5 = Ok h ∧ slice m 5 37 = Ok a ∧ slice m 37 85 = Ok b ∧ slice m 85 101 = Ok c ∧ zlen m = 101.
Proof.
  intros Hh Ha Hb Hc m. unfold m. split_and!; [by apply slice_prefix|..].
  - by apply slice_full; lia.
  - rewrite (app_assoc h). apply slice_full; zlia.
  - rewrite (app_assoc h), (app_assoc (h ++ a)). apply slice_app_drop; zlia.
  - zlia.
Qed.

(** A responder with the key [s] reads what an initiator that starts from the same state wrote. *)
Lemma responder_reads s i :
  ni_initialized i = true → sym i = responder_start s → ni_serverPublicKey i = nc_x25519_base s →
  ni_ephemeralPublicKey i = nc_x25519_base (ni_ephemeralPrivateKey i) →
  ni_machinePublicKey i = nc_x25519_base (ni_machinePrivateKey i) →
  ∃ message st, NoiseInitiator_WriteMessage1 i = (Ok message, ni_set (sy_h st) (sy_ck st) true i)
    ∧ zlen message = 101
    ∧ responder_read s message = Some (ni_ephemeralPublicKey i, ni_machinePublicKey i, st).
Proof.
  intros Hi Hsym Hs He Hm. pose proof (WriteMessage1_spec i Hi) as Hw.
  rewrite Hsym, Hs, <- (nc_dh s (ni_ephemeralPrivateKey i)), <- (nc_dh s (ni_machinePrivateKey i)) in Hw.
  rewrite <- He, <- Hm in Hw.
  destruct (sy_mix_key (nc_x25519 s (ni_ephemeralPublicKey i)) _) as [k1 st1] eqn:E1.
  set (c1 := nc_seal k1 0 (sy_h st1) _) in Hw. cbv zeta in Hw.
  destruct (sy_mix_key (nc_x25519 s (ni_machinePublicKey i)) _) as [k2 st2] eqn:E2.
  set (c2 := nc_seal k2 0 (sy_h st2) _) in Hw. cbv zeta in Hw.
  assert (zlen (ni_ephemeralPublicKey i) = 32) as L1 by (rewrite He; apply nc_base_size).
  assert (zlen c1 = 48) as L2 by (unfold c1; rewrite nc_seal_size, Hm, nc_base_size; lia).
  assert (zlen c2 = 16) as L3 by (unfold c2; rewrite nc_seal_size; done).
  destruct (message1_slices [0; 131; 1; 0; 96] _ c1 c2 eq_refl L1 L2 L3) as (S0 & S1 & S2 & S3 & Hl).
  do 2 eexists. split; [exact Hw|]. split; [exact Hl|].
  unfold responder_read. rewrite S0, S1, S2, S3, Hl. rewrite bool_decide_true by done. cbn [andb negb Z.eqb].
  rewrite E1. unfold c1 at 1. rewrite sy_decrypt_seal. fold c1. rewrite E2. unfold c2. by rewrite sy_decrypt_seal.
Qed.

Lemma noise_agreement serverPrivate serverEphemeral machine ephemeral :
  nc_x25519_base serverPrivate = TailscaleServerPublicKey →
  ∃ message1 i re st, NoiseInitiator_WriteMessage1 (NoiseInitiator_new machine ephemeral) = (Ok message1, i)
  ∧ zlen message1 = 101
  ∧ responder_read serverPrivate message1
    = Some (re, nc_x25519_base (ClampCurve25519Private machine), st)
  ∧ let '(message2, keys) := responder_write serverEphemeral re
                               (nc_x25519_base (ClampCurve25519Private machine)) st in
    (NoiseInitiator_ReadMessage2 message2 i).1
    = Ok {| nk_TxKey := nk_RxKey keys; nk_RxKey := nk_TxKey keys |}.
Proof.
  intros Hs. set (i := NoiseInitiator_new machine ephemeral).
  destruct (responder_reads serverPrivate i) as (message1 & st & Hw & Hl & Hr);
    [done|unfold responder_start; by rewrite Hs|done..|].
  exists message1, (ni_set (sy_h st) (sy_ck st) true i), (ni_ephemeralPublicKey i), st. split_and!; [done..|].
  unfold responder_write.
  change (ni_ephemeralPublicKey i) with (nc_x25519_base (ni_ephemeralPrivateKey i)).
  change (ClampCurve25519Private machine) with (ni_machinePrivateKey i). rewrite !(nc_dh serverEphemeral).
  pose proof (ReadMessage2_spec (ni_set (sy_h st) (sy_ck st) true i) (nc_x25519_base serverEphemeral)) as H2.
  change (sym (ni_set (sy_h st) (sy_ck st) true i)) with {| sy_ck := sy_ck st; sy_h := sy_h st |} in H2.
  replace {| sy_ck := sy_ck st; sy_h := sy_h st |} with st in H2 by (by destruct st).
  cbn [ni_set ni_ephemeralPrivateKey ni_machinePrivateKey] in H2.
  destruct (sy_mix_key _ (sy_mix_hash _ st)) as [k st1]. destruct (sy_mix_key _ st1) as [k1 st2].
  cbn [sy_mix_hash sy_ck]. destruct (noise_hkdf2 (sy_ck st2) []) as [o1 o2].
  rewrite H2; [by rewrite nc_open_seal|apply nc_base_size|by rewrite nc_seal_size].
Qed.

(** Both sides of the handshake agree.  Against every responder that the Noise IK
    specification describes and that has the private key to the pinned server key, the first
    message is read, shows it the machine key of the client, and its answer is accepted: the key
    with which each side sends is the one with which the other receives. *)
Theorem NoiseInitiator_agrees serverPrivate serverEphemeral machine ephemeral :
  nc_x25519_base serverPrivate = TailscaleServerPublicKey →
  ∃ message1 i re st, NoiseInitiator_WriteMessage1 (NoiseInitiator_new machine ephemeral) = (Ok message1, i)
  ∧ zlen message1 = 101
  ∧ responder_read serverPrivate message1
    = Some (re, nc_x25519_base (ClampCurve25519Private machine), st)
  ∧ let '(message2, keys) := responder_write serverEphemeral re
                               (nc_x25519_base (ClampCurve25519Private machine)) st in
    (NoiseInitiator_ReadMessage2 message2 i).1
    = Ok {| nk_TxKey := nk_RxKey keys; nk_RxKey := nk_TxKey keys |}.
Proof. apply noise_agreement. Qed.

End responder.

(** ** Nonces *)

Definition swap_bit (i : Z) : Z := 8 * (7 - i / 8) + i mod 8.

Lemma ByteSwap64_bit v i : 0 <= i < 64 → Z.testbit (ByteSwap64 v) i = Z.testbit v (swap_bit i).
Proof.
  intros Hi. replace i with (Z.of_nat (Z.to_nat i)) by lia.
  assert (Z.to_nat i < 64)%nat as Hn by lia. clear Hi. revert Hn. generalize (Z.to_nat i). clear i. intros n Hn.
  unfold ByteSwap64. rewrite !Z.lor_spec, !Z.shiftl_spec, !Z.shiftr_spec, !Z.land_spec by lia.
  rewrite !(andb_comm (Z.testbit v _)). generalize (Z.testbit v). intros f.
  do 64 (destruct n as [|n]; [vm_compute; by destruct (f _)|]). lia.
Qed.

Lemma ByteSwap64_inj a b : in_width 64 a → in_width 64 b → ByteSwap64 a = ByteSwap64 b → a = b.
Proof.
  intros Ha Hb Hab. apply Z.bits_inj'. intros i Hi. destruct (Z.ltb_spec i 64) as [Hlt|Hge].
  - assert (0 <= swap_bit i < 64 ∧ swap_bit (swap_bit i) = i) as [Hs Hss].
    { unfold swap_bit. Z.to_euclidean_division_equations. lia. }
    rewrite <- Hss, <- (ByteSwap64_bit a), <- (ByteSwap64_bit b) by done. by rewrite Hab.
  - by rewrite !(in_width_high 64) by (done || lia).
Qed.

Lemma ByteSwap64_width v : in_width 64 (ByteSwap64 v).
Proof.
  assert (∀ w m, 0 <= w → in_width w m → in_width w (Z.land v m)) as Hland.
  { intros w m Hw Hm. rewrite Z.land_comm. by apply in_width_land. }
  assert (∀ w m k, 0 <= w → 0 <= k → w + k <= 64 → in_width w m → in_width 64 (Z.shiftl (Z.land v m) k)) as Hl.
  { intros w m k Hw Hk Hle Hm. destruct (Hland w m Hw Hm) as [Hx1 Hx2]. rewrite Z.shiftl_mul_pow2 by done.
    assert (0 < 2 ^ k) by (apply Z.pow_pos_nonneg; lia). split; [nia|].
    apply Z.lt_le_trans with (2 ^ (w + k)); [rewrite Z.pow_add_r by done; nia|apply Z.pow_le_mono_r; lia]. }
  assert (∀ m k, in_width 64 m → 0 <= k → in_width 64 (Z.shiftr (Z.land v m) k)) as Hr.
  { intros m k Hm Hk. destruct (Hland 64 m ltac:(lia) Hm) as [Hx1 Hx2]. rewrite Z.shiftr_div_pow2 by done.
    assert (0 < 2 ^ k) by (apply Z.pow_pos_nonneg; lia). split; [by apply Z.div_pos|].
    apply Z.le_lt_trans with (Z.land v m); [apply Z.div_le_upper_bound; nia|done]. }
  unfold ByteSwap64. repeat apply in_width_lor; try done;
    first [by apply (Hl 8)|by apply (Hl 16)|by apply (Hl 24)|by apply (Hl 32)|by apply Hr].
Qed.

(** ** Sending *)

Section proofs.
  Context `{!NoiseCrypto} {S : Type} `{!ByteStream S} `{!ByteStreamLaws S}.
  Implicit Types t : NoiseTransport S.

Definition noise_written t : bytes :=
  st_sent (nt_stream t) ++ drop (Z.to_nat (nt_sendOffset t)) (nt_sendBuffer t).

(** The part of the transport that sending, and that receiving, leaves alone. *)
Definition same_receive t t' : Prop :=
  st_received (nt_stream t') = st_received (nt_stream t) ∧ nt_receiveBuffer t' = nt_receiveBuffer t
  ∧ nt_rxNonce t' = nt_rxNonce t ∧ nt_keys t' = nt_keys t.

Definition same_send t t' : Prop :=
  noise_written t' = noise_written t ∧ nt_sendBuffer t' = nt_sendBuffer t
  ∧ nt_sendOffset t' = nt_sendOffset t ∧ nt_txNonce t' = nt_txNonce t ∧ nt_keys t' = nt_keys t.

Definition noise_send_ok t : Prop := 0 <= nt_sendOffset t <= zlen (nt_sendBuffer t).

Definition flushed t t' : Prop :=
  noise_send_ok t' ∧ noise_written t' = noise_written t ∧ nt_txNonce t' = nt_txNonce t ∧ same_receive t t'.

Lemma same_receive_trans t1 t2 t3 : same_receive t1 t2 → same_receive t2 t3 → same_receive t1 t3.
Proof. intros (? & ? & ? & ?) (? & ? & ? & ?). split_and!; congruence. Qed.

Lemma flushed_trans t1 t2 t3 : flushed t1 t2 → flushed t2 t3 → flushed t1 t3.
Proof.
  intros (_ & ? & ? & Hr1) (? & ? & ? & Hr2). split; [done|]. split; [congruence|]. split; [congruence|].
  by eapply same_receive_trans.
Qed.

Lemma wp_nt_on_stream {A} (m : eff S A) (Q : outcome A → NoiseTransport S → Prop) t :
  wp m (fun r s => Q r (nt_set_stream s t)) (nt_stream t) → wp (nt_on_stream m) Q t.
Proof. unfold wp, nt_on_stream. by destruct (m (nt_stream t)). Qed.

Lemma flushed_stream s t :
  noise_send_ok t → st_received s = st_received (nt_stream t) → st_sent s = st_sent (nt_stream t) →
  flushed t (nt_set_stream s t).
Proof. intros ? Hr Hs. split_and!; [done| |done|by split_and!..]. unfold noise_written. simpl. by rewrite Hs. Qed.

Lemma noise_flush_loop_spec fuel t :
  noise_send_ok t → (Z.to_nat (zlen (nt_sendBuffer t) - nt_sendOffset t) < fuel)%nat →
  wp (noise_flush_loop fuel) (fun r t' => r ≠ UB ∧ flushed t t'
    ∧ (r = Ok true → nt_sendOffset t' = zlen (nt_sendBuffer t'))) t.
Proof.
  revert t. induction fuel as [|fuel IH]; intros t Ht Hfuel; [lia|].
  cbn [noise_flush_loop]. wp_auto. unfold noise_send_ok in Ht.
  destruct (Z.ltb_spec (nt_sendOffset t) (zlen (nt_sendBuffer t))) as [Hlt|Hge].
  2: { wp_auto. split_and!; [done..|lia]. }
  wp_auto. rewrite slice_Ok by lia. apply wp_bind, wp_nt_on_stream.
  rewrite take_ge by (rewrite length_drop; unfold zlen; lia).
  eapply wp_mono; [apply st_write_law|]. intros [[n|]|e|] s' [Hrec Hw]; [| | |done].
  - destruct Hw as [Hn Hsent]. destruct (Z.eqb_spec n 0) as [->|Hn0].
    + wp_auto. split_and!; [done| |done]. apply flushed_stream; [done..|]. by rewrite Hsent, app_nil_r.
    + wp_auto. cbn [nt_set_stream nt_sendBuffer nt_sendOffset].
      assert (nt_sendOffset t + n <= zlen (nt_sendBuffer t)) as Hle by (rewrite zlen_drop in Hn; lia).
      eapply wp_mono; [apply IH; [split; cbn; lia|cbn; lia]|]. intros r t' (? & Hk & ?).
      split_and!; [done| |done]. eapply flushed_trans; [|exact Hk].
      split_and!; [split; cbn; lia| |done|done..]. unfold noise_written. cbn. rewrite Hsent.
      apply written_advance; lia.
  - wp_auto. split_and!; [done|by apply flushed_stream|done].
  - split_and!; [done|by apply flushed_stream|done].
Qed.

Lemma NoiseTransport_Flush_spec t :
  noise_send_ok t → wp NoiseTransport_Flush (fun r t' => r ≠ UB ∧ flushed t t') t.
Proof.
  intros Ht. unfold NoiseTransport_Flush. wp_auto. apply wp_bind.
  eapply wp_mono; [apply noise_flush_loop_spec; [done|lia]|]. intros [[]|e|] t' (? & Hk & Hd); try done.
  wp_auto. split; [done|]. eapply flushed_trans; [exact Hk|].
  split_and!; [done| |done|done..]. unfold noise_written. cbn. rewrite (Hd eq_refl). f_equal.
  unfold zlen. by rewrite Nat2Z.id, drop_all.
Qed.

(** A frame as it is on the wire. *)
Definition raw_frame (ciphertext : bytes) : bytes :=
  [TransportFrameType; zlen ciphertext / 256; zlen ciphertext mod 256] ++ ciphertext.

Definition noise_fits (plaintext : bytes) : Prop := zlen plaintext <= MaximumCiphertextSize - 16.

Lemma raw_frame_header c :
  zlen c <= MaximumCiphertextSize →
  [TransportFrameType; u8 (Z.land (Z.shiftr (zlen c) 8) 0xff); u8 (Z.land (zlen c) 0xff)] ++ c = raw_frame c.
Proof.
  intros Hc. unfold raw_frame. change MaximumCiphertextSize with 65535 in Hc. pose proof (zlen_nonneg c).
  change 0xff with (Z.ones 8). rewrite !Z.land_ones, Z.shiftr_div_pow2 by lia.
  unfold wrap. change (2 ^ 8) with 256. rewrite !Z.mod_mod by lia. rewrite (Z.mod_small (_ / 256)); [done|].
  split; [apply Z.div_pos; lia|apply Z.div_lt_upper_bound; lia].
Qed.

(** A message uses up a nonce; it is queued whole, behind what is pending, or not at all. *)
Lemma NoiseTransport_Send_spec p t :
  noise_send_ok t →
  let c := nc_seal (nk_TxKey (nt_keys t)) (ByteSwap64 (nt_txNonce t)) [] p in
  wp (NoiseTransport_Send p) (fun r t' => r ≠ UB ∧ noise_send_ok t' ∧ same_receive t t'
    ∧ nt_txNonce t' = u64 (nt_txNonce t + 1)
    ∧ noise_written t' = noise_written t ++ (if MaximumCiphertextSize <? zlen c then [] else raw_frame c)) t.
Proof.
  intros Ht c. unfold NoiseTransport_Send. wp_auto. unfold ChaCha20Poly1305EncryptBigNonce. fold c.
  destruct (Z.ltb_spec MaximumCiphertextSize (zlen c)) as [Hlt|Hge].
  { wp_auto. rewrite app_nil_r. split_and!; try done. }
  wp_auto. rewrite raw_frame_header by done. cbn [nt_set_txNonce nt_sendBuffer nt_sendOffset].
  match goal with |- wp _ _ ?x => set (t1 := x) end.
  assert (noise_send_ok t1) as Ht1 by (unfold noise_send_ok in *; cbn; zlia).
  eapply wp_mono; [by apply NoiseTransport_Flush_spec|]. intros r t' (? & ? & Hw & Hn & Hin).
  split_and!; [done|done|apply Hin..|done|].
  rewrite Hw. unfold noise_written. cbn. rewrite <- app_assoc. f_equal.
  unfold noise_send_ok, zlen in Ht. rewrite drop_app_le by lia. done.
Qed.

(** ** Receiving *)

Record noise_receive_ok t : Prop := {
  no_bytes : bytes_ok (nt_receiveBuffer t);
  no_size : zlen (nt_receiveBuffer t) <= MaximumCiphertextSize + TransportHeaderSize
}.

(** The receiver has come from [t] to [t'] by taking the frames of [cs] off the stream. *)
Definition noise_took t t' (cs : list bytes) : Prop :=
  ∃ new, st_received (nt_stream t') = st_received (nt_stream t) ++ new ∧ bytes_ok new
    ∧ nt_receiveBuffer t ++ new = concat (map raw_frame cs) ++ nt_receiveBuffer t'.

(** What a call that took [cs] gives, and the nonce it leaves. *)
Definition noise_gives t t' (cs : list bytes) (r : outcome (option bytes)) : Prop :=
  match cs with
  | [] => (∀ p, r ≠ Ok (Some p)) ∧ nt_rxNonce t' = nt_rxNonce t
  | c :: _ =>
      match ChaCha20Poly1305DecryptBigNonce (nk_RxKey (nt_keys t)) (nt_rxNonce t) [] c with
      | Ok p => r = Ok (Some p) ∧ nt_rxNonce t' = u64 (nt_rxNonce t + 1)
      | _ => r ≠ UB ∧ (∀ p, r ≠ Ok p) ∧ nt_rxNonce t' = nt_rxNonce t
      end
  end.

Definition noise_received t t' (r : outcome (option bytes)) : Prop :=
  r ≠ UB ∧ noise_receive_ok t' ∧ same_send t t'
  ∧ ∃ cs, (length cs <= 1)%nat ∧ Forall (fun c => zlen c <= MaximumCiphertextSize) cs
      ∧ noise_took t t' cs ∧ noise_gives t t' cs r.

Lemma noise_received_nothing t t' r :
  r ≠ UB → (∀ p, r ≠ Ok (Some p)) → noise_receive_ok t' → same_send t t' → nt_rxNonce t' = nt_rxNonce t →
  noise_took t t' [] → noise_received t t' r.
Proof. intros. split_and!; [done..|]. exists []. split_and!; [simpl; lia|constructor|done|done..]. Qed.

Lemma Decrypt_safe k n ad c : ChaCha20Poly1305DecryptBigNonce k n ad c ≠ UB.
Proof. unfold ChaCha20Poly1305DecryptBigNonce. by repeat case_match. Qed.

(** The header of a frame. *)
Lemma raw_header (b0 b1 b2 : Z) tl c rest :
  in_width 8 b1 → in_width 8 b2 → b0 = TransportFrameType → zlen c = Z.lor (Z.shiftl b1 8) b2 →
  tl = c ++ rest → b0 :: b1 :: b2 :: tl = raw_frame c ++ rest.
Proof.
  intros Hb1 Hb2 -> Hc ->. unfold raw_frame. rewrite Hc, lor_shiftl_add by (done || lia).
  destruct Hb1, Hb2. change (2 ^ 8) with 256 in *.
  rewrite Z.add_comm, Z.div_add, Z.div_small, Z_mod_plus_full, Z.mod_small by lia. done.
Qed.

Lemma TryTake_spec t :
  noise_receive_ok t →
  wp NoiseTransport_TryTakeBufferedFrame (fun r t' => noise_received t t' r
    ∧ (r = Ok None → t' = t ∧ zlen (nt_receiveBuffer t) < MaximumCiphertextSize + TransportHeaderSize)) t.
Proof.
  intros Hok. pose proof Hok as [Hb Hsz]. change (MaximumCiphertextSize + TransportHeaderSize) with 65538 in Hsz.
  unfold NoiseTransport_TryTakeBufferedFrame. wp_auto.
  assert (∀ r, r ≠ UB → (∀ p, r ≠ Ok (Some p)) → noise_received t t r) as Hsame.
  { intros r Hr Hp. apply noise_received_nothing; try done. exists []. rewrite !app_nil_r. by split_and!. }
  change TransportHeaderSize with 3. change MaximumCiphertextSize with 65535.
  destruct (Z.ltb_spec (zlen (nt_receiveBuffer t)) 3) as [Hlt|Hge]; [wp_auto; split; [by apply Hsame|intros _; split; [done|lia]]|].
  destruct (nt_receiveBuffer t) as [|b0 [|b1 [|b2 tl]]] eqn:Hbuf; [zlia..|].
  apply Forall_cons in Hb as [_ Hb]. apply Forall_cons in Hb as [Hb1 Hb]. apply Forall_cons in Hb as [Hb2 Hb].
  change (rd (b0 :: b1 :: b2 :: tl) 0) with (Ok b0). change (rd (b0 :: b1 :: b2 :: tl) 1) with (Ok b1).
  change (rd (b0 :: b1 :: b2 :: tl) 2) with (Ok b2). wp_auto.
  destruct (Z.eqb_spec b0 TransportFrameType) as [Htype|]; cbn [negb]; [|wp_auto; split; [by apply Hsame|done]].
  wp_auto. set (n := Z.lor (Z.shiftl b1 8) b2).
  assert (0 <= n <= 65535) as Hn.
  { unfold n. rewrite lor_shiftl_add by (done || lia). destruct Hb1, Hb2. change (2 ^ 8) with 256 in *. lia. }
  destruct (Z.ltb_spec (zlen (b0 :: b1 :: b2 :: tl)) (3 + n)) as [Hshort|Hlong].
  { wp_auto. split; [by apply Hsame|]. intros _. split; [done|lia]. }
  assert (3 + zlen tl = zlen (b0 :: b1 :: b2 :: tl)) as Hl by zlia.
  set (c := take (Z.to_nat n) tl). set (rest := drop (Z.to_nat n) tl).
  assert (tl = c ++ rest) as Htl by (symmetry; apply take_drop).
  assert (zlen c = n) as Hc by (unfold c; rewrite zlen_take; lia).
  assert (slice (b0 :: b1 :: b2 :: tl) 3 (3 + n) = Ok c) as ->.
  { rewrite Htl. apply (slice_full [b0; b1; b2] c rest); [done|]. rewrite Hc. done. }
  assert (slice (b0 :: b1 :: b2 :: tl) (3 + n) (zlen (b0 :: b1 :: b2 :: tl)) = Ok rest) as ->.
  { rewrite <- Hl, Htl. apply (slice_app_drop ([b0; b1; b2] ++ c) rest); zlia. }
  wp_auto.
  assert (∀ t', noise_receive_ok t' → same_send t t' → nt_receiveBuffer t' = rest →
    st_received (nt_stream t') = st_received (nt_stream t) → ∀ r, r ≠ UB → noise_gives t t' [c] r →
    noise_received t t' r) as Htook.
  { intros t' Ht' Hs Hr Hrec r Hub Hg. split_and!; [done..|]. exists [c]. split_and!; [simpl; lia| | |done].
    { constructor; [|done]. change MaximumCiphertextSize with 65535. lia. }
    exists []. rewrite Hrec, Hbuf, Hr. cbn [map concat]. rewrite !app_nil_r. split_and!; [done..|].
    by apply (raw_header _ _ _ tl). }
  assert (∀ k, noise_receive_ok (nt_set_receive rest k t)) as Hrest.
  { intros k. split; cbn [nt_set_receive nt_receiveBuffer];
      [|unfold rest; change (MaximumCiphertextSize + TransportHeaderSize) with 65538; rewrite zlen_drop; lia].
    rewrite Htl in Hb. by apply Forall_app in Hb as [_ Hb]. }
  pose proof (Decrypt_safe (nk_RxKey (nt_keys t)) (nt_rxNonce t) [] c) as Hd.
  destruct (ChaCha20Poly1305DecryptBigNonce _ _ _ c) as [p|e|] eqn:Hdec; [| |done].
  - wp_auto. split; [|done]. apply Htook; try done; [apply Hrest|]. unfold noise_gives. by rewrite Hdec.
  - split; [|done]. apply Htook; try done. unfold noise_gives. by rewrite Hdec.
Qed.

Lemma noise_read_room t :
  noise_receive_ok t → zlen (nt_receiveBuffer t) < MaximumCiphertextSize + TransportHeaderSize →
  availableCapacity t = MaximumCiphertextSize + TransportHeaderSize - zlen (nt_receiveBuffer t).
Proof.
  intros [_ Hs] Hlt. unfold availableCapacity. change MaximumCiphertextSize with 65535 in *.
  change TransportHeaderSize with 3 in *. apply wrap_id. unfold in_width. zlia.
Qed.

(** A state in which [b] has been read behind the buffer. *)
Definition noise_grown t s (b : bytes) : NoiseTransport S :=
  nt_set_receive (nt_receiveBuffer t ++ b) (nt_rxNonce t) (nt_set_stream s t).

Lemma noise_grown_ok t s b :
  noise_receive_ok t → bytes_ok b →
  zlen (nt_receiveBuffer t) + zlen b <= MaximumCiphertextSize + TransportHeaderSize →
  noise_receive_ok (noise_grown t s b).
Proof. intros [Hb Hs] Hok Hl. split; cbn; [by apply Forall_app_2|by rewrite zlen_app]. Qed.

Lemma noise_received_grown t s b t' r :
  st_received s = st_received (nt_stream t) ++ b → st_sent s = st_sent (nt_stream t) → bytes_ok b →
  noise_received (noise_grown t s b) t' r → noise_received t t' r.
Proof.
  intros Hr Hs Hb (? & ? & Hsend & cs & ? & ? & (new & Hrec & Hnew & Heq) & Hg).
  split_and!; [done|done|..].
  - destruct Hsend as (Hw & ? & ? & ? & ?). split_and!; [|done..]. rewrite Hw. unfold noise_written. cbn. by rewrite Hs.
  - exists cs. split_and!; [done|done| |by destruct cs].
    exists (b ++ new). cbn in Hrec, Heq. rewrite Hrec, Hr, <- !app_assoc in *. split_and!; [done|by apply Forall_app_2|done].
Qed.

(** The stream is left as it was. *)
Lemma noise_received_stream t s r :
  noise_receive_ok t → st_received s = st_received (nt_stream t) → st_sent s = st_sent (nt_stream t) →
  r ≠ UB → (∀ p, r ≠ Ok (Some p)) → noise_received t (nt_set_stream s t) r.
Proof.
  intros Hok Hr Hs Hub Hp. apply noise_received_nothing; try done.
  - destruct Hok. by split.
  - split_and!; try done. unfold noise_written. cbn. by rewrite Hs.
  - exists []. cbn. by rewrite Hr, !app_nil_r.
Qed.

Lemma TryReceive_spec t : noise_receive_ok t → wp NoiseTransport_TryReceive (fun r t' => noise_received t t' r) t.
Proof.
  intros Hok. unfold NoiseTransport_TryReceive. apply wp_bind. eapply wp_mono; [by apply TryTake_spec|].
  intros [[p|]|e|] t1 [Hr Hnone]; [by wp_auto| |done|done].
  destruct (Hnone eq_refl) as [-> Hlt]. wp_auto. apply wp_bind, wp_nt_on_stream.
  eapply wp_mono; [apply st_read_law|]. intros [[b|]|e|] s [Hs Hb]; [| | |done].
  - destruct Hb as (Hsz & Hbok & Hrec). unfold nt_append. case_bool_decide as Hnil.
    + apply wp_bind. wp_auto. subst b. rewrite app_nil_r in Hrec. by apply noise_received_stream.
    + wp_auto. rewrite noise_read_room in Hsz by done. change (wp _ _ _) with
        (wp NoiseTransport_TryTakeBufferedFrame (fun r t' => noise_received t t' r) (noise_grown t s b)).
      eapply wp_mono; [apply TryTake_spec, noise_grown_ok; [done|done|lia]|]. intros r t' [Hg _].
      by eapply noise_received_grown.
  - wp_auto. by apply noise_received_stream.
  - by apply noise_received_stream.
Qed.

Lemma noise_receive_loop_spec fuel t :
  noise_receive_ok t →
  (Z.to_nat (MaximumCiphertextSize + TransportHeaderSize - zlen (nt_receiveBuffer t)) < fuel)%nat →
  wp (noise_receive_loop fuel) (fun r t' => noise_received t t' (obind r (fun p => Ok (Some p)))) t.
Proof.
  revert t. induction fuel as [|fuel IH]; intros t Hok Hfuel; [lia|]. cbn [noise_receive_loop].
  apply wp_bind. eapply wp_mono; [by apply TryTake_spec|].
  intros [[p|]|e|] t1 [Hr Hnone]; [by wp_auto| |done|done].
  destruct (Hnone eq_refl) as [-> Hlt]. wp_auto. apply wp_bind, wp_nt_on_stream.
  unfold ByteStream_ReadSome. apply wp_bind.
  eapply wp_mono; [apply st_read_law|]. intros [[b|]|e|] s [Hs Hb]; [| | |done].
  - destruct Hb as (Hsz & Hbok & Hrec). wp_auto. unfold nt_append. case_bool_decide as Hnil.
    + apply wp_bind. wp_auto. subst b. rewrite app_nil_r in Hrec. by apply noise_received_stream.
    + wp_auto. rewrite noise_read_room in Hsz by done. assert (0 < zlen b) by (destruct b; [done|zlia]).
      change (wp (noise_receive_loop fuel) (fun r t' => noise_received t t' (obind r (fun p => Ok (Some p))))
                (noise_grown t s b)).
      eapply wp_mono; [apply IH; [apply noise_grown_ok; [done|done|lia]|cbn; rewrite zlen_app; lia]|].
      intros r t'. by apply noise_received_grown.
  - wp_auto. by apply noise_received_stream.
  - by apply noise_received_stream.
Qed.

Lemma Receive_spec t :
  noise_receive_ok t →
  wp NoiseTransport_Receive (fun r t' => noise_received t t' (obind r (fun p => Ok (Some p)))) t.
Proof. intros Hok. apply noise_receive_loop_spec; [done|]. pose proof (zlen_nonneg (nt_receiveBuffer t)). lia. Qed.

(** ** Sequences of calls *)

Inductive noise_op := NoiseSend (plaintext : bytes) | NoiseFlush | NoiseReceive | NoiseTryReceive.

Definition noise_step (op : noise_op) : eff (NoiseTransport S) (option bytes) :=
  match op with
  | NoiseSend p => NoiseTransport_Send p ;;* eret None
  | NoiseFlush => NoiseTransport_Flush ;;* eret None
  | NoiseReceive => let* p := NoiseTransport_Receive in eret (Some p)
  | NoiseTryReceive => NoiseTransport_TryReceive
  end.

Fixpoint noise_run (ops : list noise_op) t : list (outcome (option bytes)) * NoiseTransport S :=
  match ops with
  | [] => ([], t)
  | op :: ops =>
      let '(r, t1) := noise_step op t in
      let '(rs, t2) := noise_run ops t1 in (r :: rs, t2)
  end.

(** What was given to [Send], and what the receiving calls returned. *)
Definition submitted (ops : list noise_op) : list bytes :=
  omap (fun op => match op with NoiseSend p => Some p | _ => None end) ops.

Definition delivered (rs : list (outcome (option bytes))) : list bytes :=
  omap (fun r => match r with Ok (Some p) => Some p | _ => None end) rs.

(** The ciphertexts of messages from the nonce [n] on, and the messages in ciphertexts. *)
Fixpoint noise_seals (key : bytes) (n : Z) (ps : list bytes) : list bytes :=
  match ps with
  | [] => []
  | p :: ps =>
      let c := nc_seal key (ByteSwap64 n) [] p in
      (if MaximumCiphertextSize <? zlen c then [] else [c]) ++ noise_seals key (u64 (n + 1)) ps
  end.

Fixpoint noise_opens (key : bytes) (n : Z) (cs : list bytes) : list bytes :=
  match cs with
  | [] => []
  | c :: cs =>
      match ChaCha20Poly1305DecryptBigNonce key n [] c with
      | Ok p => p :: noise_opens key (u64 (n + 1)) cs
      | _ => noise_opens key n cs
      end
  end.

Fixpoint rx_after (key : bytes) (n : Z) (cs : list bytes) : Z :=
  match cs with
  | [] => n
  | c :: cs =>
      match ChaCha20Poly1305DecryptBigNonce key n [] c with
      | Ok _ => rx_after key (u64 (n + 1)) cs
      | _ => rx_after key n cs
      end
  end.

Fixpoint tx_after (n : Z) (ps : list bytes) : Z :=
  match ps with [] => n | _ :: ps => tx_after (u64 (n + 1)) ps end.

Definition noise_ok t : Prop := noise_send_ok t ∧ noise_receive_ok t.

(** How a transport has come from [t] to [t'] by sending [ps], taking [cs] and giving [ds]. *)
Record noise_went t t' (ps cs ds : list bytes) : Prop := {
  nw_ok : noise_ok t';
  nw_keys : nt_keys t' = nt_keys t;
  nw_tx : nt_txNonce t' = tx_after (nt_txNonce t) ps;
  nw_written : noise_written t' = noise_written t
    ++ concat (map raw_frame (noise_seals (nk_TxKey (nt_keys t)) (nt_txNonce t) ps));
  nw_sizes : Forall (fun c => zlen c <= MaximumCiphertextSize) cs;
  nw_took : noise_took t t' cs;
  nw_rx : nt_rxNonce t' = rx_after (nk_RxKey (nt_keys t)) (nt_rxNonce t) cs;
  nw_gives : ds = noise_opens (nk_RxKey (nt_keys t)) (nt_rxNonce t) cs
}.

Lemma tx_after_app n ps qs : tx_after n (ps ++ qs) = tx_after (tx_after n ps) qs.
Proof. revert n. induction ps as [|p ps IH]; intros n; [done|apply IH]. Qed.

Lemma noise_seals_app key n ps qs :
  noise_seals key n (ps ++ qs) = noise_seals key n ps ++ noise_seals key (tx_after n ps) qs.
Proof.
  revert n. induction ps as [|p ps IH]; intros n; [done|]. cbn [app noise_seals tx_after].
  by rewrite IH, <- app_assoc.
Qed.

Lemma noise_opens_app key n cs ds :
  noise_opens key n (cs ++ ds) = noise_opens key n cs ++ noise_opens key (rx_after key n cs) ds.
Proof.
  revert n. induction cs as [|c cs IH]; intros n; [done|]. cbn [app noise_opens rx_after].
  destruct (ChaCha20Poly1305DecryptBigNonce _ _ _ c); [cbn [app]; by rewrite IH|apply IH..].
Qed.

Lemma rx_after_app key n cs ds : rx_after key n (cs ++ ds) = rx_after key (rx_after key n cs) ds.
Proof.
  revert n. induction cs as [|c cs IH]; intros n; [done|]. cbn [app rx_after].
  destruct (ChaCha20Poly1305DecryptBigNonce _ _ _ c); apply IH.
Qed.

Lemma noise_took_trans t1 t2 t3 cs ds :
  noise_took t1 t2 cs → noise_took t2 t3 ds → noise_took t1 t3 (cs ++ ds).
Proof.
  intros (n1 & R1 & B1 & E1) (n2 & R2 & B2 & E2). exists (n1 ++ n2).
  rewrite R2, R1, <- app_assoc. split_and!; [done|by apply Forall_app_2|].
  by rewrite app_assoc, E1, <- app_assoc, E2, map_app, concat_app, <- app_assoc.
Qed.

Lemma noise_went_trans t1 t2 t3 ps qs cs cs' ds ds' :
  noise_went t1 t2 ps cs ds → noise_went t2 t3 qs cs' ds' →
  noise_went t1 t3 (ps ++ qs) (cs ++ cs') (ds ++ ds').
Proof.
  intros [O1 K1 T1 W1 S1 C1 R1 G1] [O2 K2 T2 W2 S2 C2 R2 G2]. split.
  - done.
  - congruence.
  - by rewrite tx_after_app, T2, T1.
  - by rewrite W2, W1, K1, T1, noise_seals_app, map_app, concat_app, <- app_assoc.
  - by apply Forall_app_2.
  - by eapply noise_took_trans.
  - by rewrite rx_after_app, R2, R1, K1.
  - by rewrite noise_opens_app, G2, G1, R1, K1.
Qed.

Lemma same_receive_took t t' : same_receive t t' → noise_took t t' [].
Proof. intros (Hr & Hb & _ & _). exists []. rewrite Hr, Hb, !app_nil_r. by split_and!. Qed.

Lemma same_receive_ok t t' : same_receive t t' → noise_receive_ok t → noise_receive_ok t'.
Proof. intros (_ & Hb & _ & _) [? ?]. split; by rewrite Hb. Qed.

Lemma noise_received_went t t' r :
  noise_send_ok t → noise_received t t' r →
  ∃ cs, noise_went t t' [] cs (delivered [r]).
Proof.
  intros Hsend (Hub & Hok & (Hw & Hb & Ho & Ht & Hk) & cs & Hl & Hsz & Htook & Hg). exists cs.
  split; try done.
  - split; [|done]. unfold noise_send_ok in *. by rewrite Hb, Ho.
  - by rewrite app_nil_r.
  - destruct cs as [|c [|? ?]]; cbn [noise_gives rx_after length] in *; [apply Hg| |lia].
    by destruct (ChaCha20Poly1305DecryptBigNonce _ _ _ c); destruct_and?.
  - unfold delivered. cbn [omap list_omap].
    destruct cs as [|c [|? ?]]; cbn [noise_gives noise_opens length] in *; [| |lia].
    + destruct Hg as [Hg _]. destruct r as [[p|]|e|]; [by destruct (Hg p)|done..].
    + destruct (ChaCha20Poly1305DecryptBigNonce _ _ _ c) as [p|e|]; [by destruct Hg as [-> _]|..];
        destruct Hg as (_ & Hg & _); (destruct r as [o|e'|]; [by destruct (Hg o)|done..]).
Qed.

Lemma noise_step_went op t :
  noise_ok t →
  wp (noise_step op) (fun r t' => r ≠ UB ∧ ∃ cs, noise_went t t' (submitted [op]) cs (delivered [r])) t.
Proof.
  intros [Hs Hr]. destruct op as [p| | |]; cbn [noise_step]; unfold submitted; cbn [omap list_omap].
  - apply wp_bind. eapply wp_mono; [by apply NoiseTransport_Send_spec|].
    intros r t' (Hub & Hs' & Hsame & Htx & Hw).
    assert (noise_went t t' [p] [] []) as Hwent.
    { split; try done; [split; [done|by eapply same_receive_ok]|apply Hsame| | |apply Hsame].
      - rewrite Hw. f_equal. cbn [noise_seals]. rewrite app_nil_r. by destruct (_ <? _); [|cbn; rewrite app_nil_r].
      - by apply same_receive_took. }
    destruct r as [[]|e|]; [wp_auto|..|done]; (split; [done|by exists []]).
  - apply wp_bind. eapply wp_mono; [by apply NoiseTransport_Flush_spec|].
    intros r t' (Hub & Hs' & Hw & Htx & Hsame).
    assert (noise_went t t' [] [] []) as Hwent.
    { split; try done; [split; [done|by eapply same_receive_ok]|apply Hsame| | |apply Hsame].
      - rewrite Hw. by rewrite app_nil_r.
      - by apply same_receive_took. }
    destruct r as [[]|e|]; [wp_auto|..|done]; (split; [done|by exists []]).
  - apply wp_bind. eapply wp_mono; [by apply Receive_spec|]. intros r t' Hrec.
    pose proof (noise_received_went _ _ _ Hs Hrec) as Hwent. destruct Hrec as [Hub _].
    destruct r as [p|e|]; [wp_auto|..]; done.
  - eapply wp_mono; [by apply TryReceive_spec|]. intros r t' Hrec.
    split; [apply Hrec|by apply noise_received_went].
Qed.

Lemma noise_run_went ops t :
  noise_ok t →
  let '(rs, t') := noise_run ops t in
  Forall (fun r => r ≠ UB) rs ∧ ∃ cs, noise_went t t' (submitted ops) cs (delivered rs).
Proof.
  revert t. induction ops as [|op ops IH]; intros t Hok; cbn [noise_run].
  - split; [done|]. exists []. split; try done; [by rewrite app_nil_r|by apply same_receive_took].
  - pose proof (noise_step_went op t Hok) as Hop. unfold wp in Hop. destruct (noise_step op t) as [r t1].
    destruct Hop as (Hub & cs & Hwent). specialize (IH t1 (nw_ok _ _ _ _ _ Hwent)).
    destruct (noise_run ops t1) as [rs t2]. destruct IH as (Hubs & cs' & Hwent').
    split; [by constructor|]. exists (cs ++ cs').
    pose proof (noise_went_trans _ _ _ _ _ _ _ _ _ Hwent Hwent') as H2.
    replace (submitted (op :: ops)) with (submitted [op] ++ submitted ops)
      by (unfold submitted; by rewrite <- omap_app).
    replace (delivered (r :: rs)) with (delivered [r] ++ delivered rs)
      by (unfold delivered; by rewrite <- omap_app). done.
Qed.

(** No stream can harm the transport.  Whatever bytes the server sends and however the
    stream cuts them, and whatever calls are made, none of them reads outside the buffers or runs
    for ever, and the receive buffer, which may start with what came behind the handshake, never
    holds more than the largest frame, so that the room that is computed from it is never negative. *)
Theorem NoiseTransport_bounded ops s handshake :
  bytes_ok (hr_ProactiveFrames handshake) → zlen (hr_ProactiveFrames handshake) <= 65538 →
  let '(rs, t) := noise_run ops (NoiseTransport_of_handshake s handshake) in
  Forall (fun r => r ≠ UB) rs ∧ zlen (nt_receiveBuffer t) <= 65538
  ∧ 0 <= nt_sendOffset t <= zlen (nt_sendBuffer t).
Proof.
  intros Hb Hl. pose proof (noise_run_went ops (NoiseTransport_of_handshake s handshake)) as Hrun.
  destruct (noise_run ops _) as [rs t]. destruct Hrun as (Hub & cs & Hwent); [by split|].
  destruct (nw_ok _ _ _ _ _ Hwent) as [? [_ ?]]. done.
Qed.

(** ** Two transports *)

Lemma raw_frame_inj c d x y :
  zlen c <= MaximumCiphertextSize → zlen d <= MaximumCiphertextSize →
  raw_frame c ++ x = raw_frame d ++ y → c = d ∧ x = y.
Proof.
  intros _ _ Heq. unfold raw_frame in Heq. rewrite <- !app_assoc in Heq. cbn [app] in Heq.
  injection Heq as Hdiv Hmod Heq.
  assert (zlen c = zlen d) as Hz.
  { rewrite (Z.div_mod (zlen c) 256), (Z.div_mod (zlen d) 256) by lia. by rewrite Hdiv, Hmod. }
  apply app_inj_1 in Heq; [done|]. unfold zlen in Hz. lia.
Qed.

Lemma raw_frames_prefix cs ds x y :
  Forall (fun c => zlen c <= MaximumCiphertextSize) cs → Forall (fun c => zlen c <= MaximumCiphertextSize) ds →
  concat (map raw_frame cs) ++ x ++ y = concat (map raw_frame ds) →
  ∃ rest, ds = cs ++ rest ∧ x ++ y = concat (map raw_frame rest).
Proof.
  intros Hc. revert ds. induction Hc as [|c cs Hc _ IH]; intros ds Hd Heq; [by exists ds|].
  destruct Hd as [|d ds Hd Hds]; [by destruct (zlen c / 256)|]. cbn [map concat] in Heq.
  rewrite <- app_assoc in Heq. apply raw_frame_inj in Heq as [-> Heq]; [|done..].
  destruct (IH ds Hds Heq) as (rest & -> & Hrest). by exists rest.
Qed.

Context `{!NoiseCryptoLaws}.

Lemma noise_seals_sizes key n ps : Forall (fun c => zlen c <= MaximumCiphertextSize) (noise_seals key n ps).
Proof.
  revert n. induction ps as [|p ps IH]; intros n; cbn [noise_seals]; [constructor|].
  apply Forall_app_2; [|apply IH]. destruct (Z.ltb_spec MaximumCiphertextSize
    (zlen (nc_seal key (ByteSwap64 n) [] p))); [constructor|by constructor].
Qed.

Lemma decrypt_seal key n p : ChaCha20Poly1305DecryptBigNonce key n [] (nc_seal key (ByteSwap64 n) [] p) = Ok p.
Proof.
  unfold ChaCha20Poly1305DecryptBigNonce. change ChaCha20Poly1305TagSize with 16.
  rewrite nc_seal_size, (proj2 (Z.ltb_ge _ _)) by (pose proof (zlen_nonneg p); lia). by rewrite nc_open_seal.
Qed.

(** The receiver opens a prefix of what was sealed, and has the nonce of the next message. *)
Lemma noise_opens_prefix key n ps cs rest :
  Forall noise_fits ps → noise_seals key n ps = cs ++ rest →
  ∃ qs, ps = noise_opens key n cs ++ qs ∧ rest = noise_seals key (rx_after key n cs) qs.
Proof.
  intros Hf. revert n cs. induction Hf as [|p ps Hp Hps IH]; intros n cs Heq; cbn [noise_seals] in Heq.
  - exists []. symmetry in Heq. by apply app_nil in Heq as [-> ->].
  - rewrite (proj2 (Z.ltb_ge _ _)) in Heq by (rewrite nc_seal_size; unfold noise_fits in Hp; lia).
    destruct cs as [|c cs]; cbn [app noise_opens rx_after] in *.
    + exists (p :: ps). split; [done|]. rewrite <- Heq. cbn [noise_seals].
      by rewrite (proj2 (Z.ltb_ge _ _)) by (rewrite nc_seal_size; unfold noise_fits in Hp; lia).
    + injection Heq as <- Heq. rewrite decrypt_seal. destruct (IH _ _ Heq) as (qs & -> & ->). by exists qs.
Qed.

(** What a whole frame at the head of the buffer gives. *)
Lemma TryTake_frame t c rest :
  zlen c <= MaximumCiphertextSize → nt_receiveBuffer t = raw_frame c ++ rest →
  NoiseTransport_TryTakeBufferedFrame t
  = match ChaCha20Poly1305DecryptBigNonce (nk_RxKey (nt_keys t)) (nt_rxNonce t) [] c with
    | Ok p => (Ok (Some p), nt_set_receive rest (u64 (nt_rxNonce t + 1)) t)
    | Throw e => (Throw e, nt_set_receive rest (nt_rxNonce t) t)
    | UB => (UB, nt_set_receive rest (nt_rxNonce t) t)
    end.
Proof.
  intros Hc Hbuf. change MaximumCiphertextSize with 65535 in Hc. pose proof (zlen_nonneg c).
  unfold NoiseTransport_TryTakeBufferedFrame, ebind at 1, eget. rewrite Hbuf.
  set (l := raw_frame c ++ rest). set (h := zlen c / 256). set (w := zlen c mod 256).
  assert (l = [TransportFrameType; h; w] ++ c ++ rest) as Hl by (unfold l, raw_frame; by rewrite <- app_assoc).
  assert (zlen l = 3 + zlen c + zlen rest) as Hz by (rewrite Hl; zlia). pose proof (zlen_nonneg rest).
  change TransportHeaderSize with 3. rewrite Hz, (proj2 (Z.ltb_ge _ 3)) by lia.
  assert (rd l 0 = Ok TransportFrameType ∧ rd l 1 = Ok h ∧ rd l 2 = Ok w) as (-> & -> & ->) by (by rewrite Hl).
  unfold ebind at 1, elift at 1. rewrite Z.eqb_refl. cbn [negb]. unfold ebind at 1, elift at 1. unfold ebind at 1, elift at 1.
  assert (Z.lor (Z.shiftl h 8) w = zlen c) as ->.
  { rewrite lor_shiftl_add by (try lia; apply Z.mod_pos_bound; lia). change (2 ^ 8) with 256.
    pose proof (Z.div_mod (zlen c) 256). unfold h, w. lia. }
  rewrite (proj2 (Z.ltb_ge _ (3 + zlen c))) by lia.
  rewrite Hl at 1. rewrite slice_full by done. unfold ebind at 1, elift at 1.
  rewrite Hl. rewrite app_assoc, slice_app_drop by zlia. unfold ebind, elift, emod, eret.
  by destruct (ChaCha20Poly1305DecryptBigNonce _ _ _ c).
Qed.

(** A message that is in the buffer is delivered without the stream. *)
Lemma TryReceive_buffered t p rest :
  noise_fits p →
  nt_receiveBuffer t = raw_frame (nc_seal (nk_RxKey (nt_keys t)) (ByteSwap64 (nt_rxNonce t)) [] p) ++ rest →
  NoiseTransport_TryReceive t = (Ok (Some p), nt_set_receive rest (u64 (nt_rxNonce t + 1)) t).
Proof.
  intros Hp Hbuf. unfold NoiseTransport_TryReceive, ebind at 1.
  rewrite (TryTake_frame t (nc_seal (nk_RxKey (nt_keys t)) (ByteSwap64 (nt_rxNonce t)) [] p) rest);
    [by rewrite decrypt_seal|rewrite nc_seal_size; unfold noise_fits in Hp; lia|done].
Qed.

Lemma TryReceive_rest qs t :
  Forall noise_fits qs →
  nt_receiveBuffer t = concat (map raw_frame (noise_seals (nk_RxKey (nt_keys t)) (nt_rxNonce t) qs)) →
  ∃ t', noise_run (replicate (length qs) NoiseTryReceive) t = (map (fun p => Ok (Some p)) qs, t').
Proof.
  intros Hf. revert t. induction Hf as [|p qs Hp _ IH]; intros t Hbuf; [by exists t|].
  cbn [length replicate noise_run noise_step map]. cbn [noise_seals] in Hbuf.
  rewrite (proj2 (Z.ltb_ge _ _)) in Hbuf by (rewrite nc_seal_size; unfold noise_fits in Hp; lia).
  cbn [app map concat] in Hbuf. rewrite (TryReceive_buffered t p _ Hp Hbuf).
  match goal with |- context [noise_run _ ?t1] => destruct (IH t1 eq_refl) as [t' ->] end. by exists t'.
Qed.

(** C27: the encrypted connection delivers in order.  The sender seals with the key with which the
    receiver opens, all messages fit, and the receiver has been given some of the bytes that the
    sender's stream took, in any pieces; both may make any other calls.  Then what was delivered is
    the first of the messages sent, in order, none twice and none changed; and once all bytes are
    there, each further [TryReceive] delivers the next message until all are. *)
Theorem NoiseTransport_in_order ops1 ops2 s1 s2 keys1 keys2 :
  st_sent s1 = [] → st_received s2 = [] → nk_RxKey keys2 = nk_TxKey keys1 →
  Forall noise_fits (submitted ops1) →
  let a := (noise_run ops1 (NoiseTransport_new s1 keys1)).2 in
  let '(rs, b) := noise_run ops2 (NoiseTransport_new s2 keys2) in
  st_received (nt_stream b) `prefix_of` st_sent (nt_stream a) →
  ∃ rest, submitted ops1 = delivered rs ++ rest
    ∧ (NoiseTransport_HasPendingOutput a = false → st_received (nt_stream b) = st_sent (nt_stream a) →
       ∃ b', noise_run (replicate (length rest) NoiseTryReceive) b = (map (fun p => Ok (Some p)) rest, b')).
Proof.
  intros Hs1 Hs2 Hkeys Hfits.
  pose proof (noise_run_went ops1 (NoiseTransport_new s1 keys1)) as Ha.
  pose proof (noise_run_went ops2 (NoiseTransport_new s2 keys2)) as Hb.
  destruct (noise_run ops1 _) as [rs1 a]. destruct (noise_run ops2 _) as [rs b]. cbn [snd].
  destruct Ha as (_ & cs1 & [Hok1 _ _ HW _ _ _ _]); [by repeat split|].
  destruct Hb as (_ & cs & [_ HK _ _ HC (new & HR & _ & HE) HN HG]); [by repeat split|].
  unfold noise_written at 2 in HW. cbn in HW, HR, HE, HG, HN, HK. rewrite Hs1 in HW. rewrite Hs2 in HR.
  cbn [app] in HW, HR. intros [tail Hpre]. unfold noise_written in HW.
  rewrite <- HR in HE. set (pending := drop _ _) in HW.
  destruct (raw_frames_prefix cs (noise_seals (nk_TxKey keys1) 0 (submitted ops1))
    (nt_receiveBuffer b) (tail ++ pending) HC (noise_seals_sizes _ _ _)) as (more & Hseals & Hmore).
  { by rewrite app_assoc, <- HE, app_assoc, <- Hpre. }
  destruct (noise_opens_prefix _ _ _ _ _ Hfits Hseals) as (rest & Hsub & Hrest).
  rewrite Hkeys in HG, HN. exists rest. rewrite HG. split; [done|]. intros Hp Hall.
  assert (pending = []) as Hpend.
  { unfold NoiseTransport_HasPendingOutput in Hp. apply Z.ltb_ge in Hp. apply drop_ge. unfold zlen in Hp. lia. }
  assert (tail = []) as -> by (rewrite Hpre in Hall; apply (app_inv_head (st_received (nt_stream b))); by rewrite app_nil_r).
  rewrite Hpend, !app_nil_r in Hmore. apply TryReceive_rest.
  - rewrite Hsub in Hfits. by apply Forall_app in Hfits as [_ ?].
  - by rewrite HK, Hkeys, HN, <- Hrest.
Qed.

(** ** Nonces are used once *)

(** The nonces with which the calls of [Send] seal. *)
Fixpoint noise_nonces (ops : list noise_op) t : list Z :=
  match ops with
  | [] => []
  | op :: ops =>
      (if op is NoiseSend _ then [ByteSwap64 (nt_txNonce t)] else [])
      ++ noise_nonces ops (noise_step op t).2
  end.

Lemma noise_nonces_spec ops t :
  noise_ok t → 0 <= nt_txNonce t → nt_txNonce t + zlen (submitted ops) <= 2 ^ 64 →
  NoDup (noise_nonces ops t)
  ∧ Forall (fun x => ∃ n, x = ByteSwap64 n ∧ nt_txNonce t <= n < nt_txNonce t + zlen (submitted ops))
      (noise_nonces ops t).
Proof.
  revert t. induction ops as [|op ops IH]; intros t Hok Hpos Hl; cbn [noise_nonces]; [by split; constructor|].
  pose proof (noise_step_went op t Hok) as Hop. unfold wp in Hop. destruct (noise_step op t) as [r t1].
  cbn [fst snd] in *. destruct Hop as (_ & cs & [Hok1 _ Htx _ _ _ _ _]).
  replace (submitted (op :: ops)) with (submitted [op] ++ submitted ops) in *
    by (unfold submitted; by rewrite <- omap_app).
  destruct op as [p| | |]; unfold submitted at 1 in Htx; cbn [omap list_omap tx_after] in Htx;
    try (rewrite <- Htx in *; by apply IH).
  change (submitted [NoiseSend p]) with [p] in *. cbn [app] in *. rewrite zlen_cons in *.
  pose proof (zlen_nonneg (submitted ops)). specialize (IH t1 Hok1). rewrite Htx in IH.
  destruct (Z.ltb_spec (nt_txNonce t + 1) (2 ^ 64)) as [Hlt|Hge].
  - rewrite wrap_id in IH by (split; lia). destruct IH as [Hnd Hall]; [lia|lia|]. split.
    + constructor; [|done]. intros Hin. rewrite Forall_forall in Hall.
      destruct (Hall _ Hin) as (n & Hn & Hr). apply ByteSwap64_inj in Hn; [lia|split; lia..].
    + constructor; [exists (nt_txNonce t); split; [done|lia]|].
      eapply Forall_impl; [exact Hall|]. intros x (n & -> & Hn). exists n. split; [done|lia].
  - assert (nt_txNonce t + 1 = 2 ^ 64) as E by lia. rewrite E in IH.
    change (u64 (2 ^ 64)) with 0 in IH. destruct IH as [_ Hall]; [lia|lia|].
    assert (noise_nonces ops t1 = []) as ->.
    { destruct Hall as [|x l (n & _ & Hn) _]; [done|lia]. }
    split; [apply NoDup_singleton|]. constructor; [|done]. exists (nt_txNonce t). split; [done|lia].
Qed.

(** No nonce is used twice under a key: in any sequence of calls, with at most 2^64 messages,
    whether they were sent or refused and whatever the stream does, the nonces given to the cipher
    are distinct. *)
Theorem NoiseTransport_nonces_unique ops s keys :
  zlen (submitted ops) <= 2 ^ 64 → NoDup (noise_nonces ops (NoiseTransport_new s keys)).
Proof. intros Hl. apply noise_nonces_spec; [by repeat split|done|cbn; lia]. Qed.

(** C39: a message that is too large breaks the connection.  [Send] refuses it and sends nothing,
    but has used up a nonce: the next message is sealed with a nonce that the receiver, which has
    seen nothing, does not expect, and is refused as forged; so it is lost, and the receiver stays
    at its nonce. *)
Theorem NoiseTransport_oversized_desync p q (a b : NoiseTransport S) :
  (∀ k n n' ad m, in_width 64 n → in_width 64 n' → n ≠ n' → nc_open k n ad (nc_seal k n' ad m) = None) →
  noise_send_ok a → in_width 64 (nt_txNonce a) → 65519 < zlen p → noise_fits q →
  nk_RxKey (nt_keys b) = nk_TxKey (nt_keys a) → nt_rxNonce b = nt_txNonce a →
  let '(r, a1) := NoiseTransport_Send p a in
  let '(_, a2) := NoiseTransport_Send q a1 in
  r = Throw (RuntimeError "Noise transport frame is too large.")
  ∧ noise_written a1 = noise_written a
  ∧ ∃ frame, noise_written a2 = noise_written a1 ++ frame
    ∧ ∀ rest, NoiseTransport_TryTakeBufferedFrame (nt_set_receive (frame ++ rest) (nt_rxNonce b) b)
      = (Throw (RuntimeError "ChaCha20-Poly1305 authentication failed."),
         nt_set_receive rest (nt_rxNonce b) b).
Proof.
  intros Hauth Ha Hn Hp Hq Hkey Hnonce.
  assert (NoiseTransport_Send p a = (Throw (RuntimeError "Noise transport frame is too large."),
    nt_set_txNonce (u64 (nt_txNonce a + 1)) a)) as ->.
  { unfold NoiseTransport_Send, ebind, eget, emod, ChaCha20Poly1305EncryptBigNonce.
    rewrite (proj2 (Z.ltb_lt _ _)); [done|]. rewrite nc_seal_size. change MaximumCiphertextSize with 65535. lia. }
  set (a1 := nt_set_txNonce _ a). pose proof (NoiseTransport_Send_spec q a1 Ha) as Hs. unfold wp in Hs.
  destruct (NoiseTransport_Send q a1) as [r a2]. destruct Hs as (_ & _ & _ & _ & Hw). cbn [snd] in Hw.
  set (c := nc_seal _ _ [] q) in Hw.
  assert (zlen c <= MaximumCiphertextSize) as Hc by (unfold c; rewrite nc_seal_size; unfold noise_fits in Hq; lia).
  rewrite (proj2 (Z.ltb_ge _ _)) in Hw by done. split; [done|]. split; [done|].
  exists (raw_frame c). split; [exact Hw|]. intros rest. erewrite TryTake_frame by done.
  cbn [nt_set_receive nt_keys nt_rxNonce]. unfold ChaCha20Poly1305DecryptBigNonce.
  rewrite (proj2 (Z.ltb_ge _ _)) by (unfold c; rewrite nc_seal_size; change ChaCha20Poly1305TagSize with 16; zlia).
  unfold c. rewrite Hkey, Hnonce, Hauth; [done|apply ByteSwap64_width..|]. intros E. apply ByteSwap64_inj in E; [|done|by apply wrap_range].
  cbn [a1 nt_set_txNonce nt_txNonce] in E. unfold wrap in E. destruct Hn as [Hn1 Hn2].
  destruct (Z.eq_dec (nt_txNonce a + 1) (2 ^ 64)) as [E1|E1].
  - rewrite E1, Z.mod_same in E by done. lia.
  - rewrite Z.mod_small in E by lia. lia.
Qed.

End proofs.

(** ** The handshake over HTTP *)

Lemma Base64Encode_total data : ∃ text, Base64Encode data = Ok text.
Proof.
  assert (∀ x, ∃ c, rd Alphabet (Z.land x 0x3f) = Ok c) as Hrd.
  { intros x. rewrite land_63. apply rd_Ok. change (zlen Alphabet) with 64. apply Z.mod_pos_bound. lia. }
  assert (∀ a b c, ∃ text, encode_group a b c = Ok text) as Hgroup.
  { intros a b c. unfold encode_group.
    destruct b as [b|], c as [c|]; cbv zeta;
      repeat match goal with |- context [rd Alphabet (Z.land ?x 0x3f)] => destruct (Hrd x) as [? ->] end;
      by eexists. }
  induction data as [data IH] using (induction_ltof1 _ (@length Z)). unfold ltof in IH.
  destruct data as [|a [|b [|c rest]]]; cbn [Base64Encode]; [by eexists|done|done|].
  destruct (Hgroup a (Some b) (Some c)) as [g ->], (IH rest) as [text ->]; [simpl; lia|]. by eexists.
Qed.

Lemma starts_with_length d l : starts_with d l = true → zlen d <= zlen l.
Proof.
  revert l. induction d as [|y d IH]; intros l Hd; [apply zlen_nonneg|].
  destruct l as [|z l]; [done|]. cbn [starts_with] in *. apply andb_true_iff in Hd as [_ Hd].
  specialize (IH l Hd). zlia.
Qed.

Lemma starts_with_app d l x : zlen d <= zlen l → starts_with d (l ++ x) = starts_with d l.
Proof.
  revert l. induction d as [|y d IH]; intros l Hd; [by destruct l, x|].
  destruct l as [|z l]; [zlia|]. cbn [starts_with app]. rewrite IH; [done|zlia].
Qed.

Lemma search_bounds l d p q : search l d p = Some q → p <= q ∧ q + zlen d <= p + zlen l.
Proof.
  revert p. induction l as [|y l IH]; intros p Hs; cbn [search] in *.
  - destruct (starts_with d []) eqn:E; [|done]. apply starts_with_length in E. injection Hs as <-. zlia.
  - destruct (starts_with d (y :: l)) eqn:E.
    + apply starts_with_length in E. injection Hs as <-. zlia.
    + destruct (IH _ Hs). zlia.
Qed.

Lemma search_app l d x p q : search l d p = Some q → search (l ++ x) d p = Some q.
Proof.
  revert p. induction l as [|y l IH]; intros p Hs; pose proof (search_bounds _ _ _ _ Hs) as Hb.
  - assert (starts_with d [] = true) as E by (cbn [search] in Hs; by destruct (starts_with d [])).
    assert (starts_with d x = true) as Hx.
    { rewrite <- E. apply (starts_with_app d [] x). by apply starts_with_length. }
    cbn [search] in Hs. rewrite E in Hs. cbn [app]. destruct x; cbn [search]; by rewrite Hx.
  - cbn [search app] in *. change (y :: l ++ x) with ((y :: l) ++ x). rewrite (starts_with_app d (y :: l) x) by zlia.
    destruct (starts_with d (y :: l)); [done|]. by apply IH.
Qed.

(** The end of the headers is found when, and only when, they are all there. *)
Lemma FindHeaderEnd_prefix headers response x y :
  FindHeaderEnd headers = Some (zlen headers) → response ++ x = headers ++ y →
  FindHeaderEnd response = (if zlen headers <=? zlen response then Some (zlen headers) else None).
Proof.
  intros Hh Heq. unfold FindHeaderEnd in *.
  destruct (search headers _ 0) as [q|] eqn:Eq; [|done]. injection Hh as Hh.
  destruct (Z.leb_spec (zlen headers) (zlen response)) as [Hle|Hgt].
  - destruct (app_split _ _ _ _ Heq Hle) as (z & -> & _). rewrite (search_app _ _ _ _ _ Eq). cbn. by rewrite Hh.
  - destruct (search response _ 0) as [q'|] eqn:Eq'; [|done]. exfalso.
    symmetry in Heq. destruct (app_split _ _ _ _ Heq) as (z & -> & _); [lia|].
    rewrite (search_app _ _ _ _ _ Eq') in Eq. injection Eq as ->. apply search_bounds in Eq'.
    change (zlen [13; 10; 13; 10]) with 4 in Eq'. lia.
Qed.

(** A stream that takes what is written and on which the bytes [st_coming] arrive. *)
Class Delivers (S : Type) `{!ByteStream S} := {
  st_coming : S → bytes;
  dl_write : ∀ data s, data ≠ [] → ∃ n s', st_TryWriteSome data s = (Ok (Some n), s')
    ∧ 0 < n <= zlen data ∧ st_coming s' = st_coming s;
  dl_read : ∀ n s, 0 < n → st_coming s ≠ [] → ∃ b s', st_TryReadSome n s = (Ok (Some b), s')
    ∧ b ≠ [] ∧ zlen b <= n ∧ st_coming s = b ++ st_coming s'
}.

Section handshake.
  Context `{!NoiseCrypto} `{!NoiseCryptoLaws} {S : Type} `{!ByteStream S} `{!Delivers S}.

Lemma WriteAll_delivers fuel data offset s :
  0 <= offset <= zlen data → (Z.to_nat (zlen data - offset) < fuel)%nat →
  ∃ s', WriteAll_loop fuel data offset s = (Ok tt, s') ∧ st_coming s' = st_coming s.
Proof.
  revert offset s. induction fuel as [|fuel IH]; intros offset s Ho Hf; [lia|]. cbn [WriteAll_loop].
  destruct (Z.ltb_spec offset (zlen data)) as [Hlt|Hge]; [|by exists s].
  rewrite slice_Ok by lia. unfold ebind at 1, elift. rewrite take_ge by (rewrite length_drop; unfold zlen; lia).
  destruct (dl_write (drop (Z.to_nat offset) data) s) as (n & s1 & Hw & Hn & Hc).
  { intros E%(f_equal zlen). rewrite zlen_drop in E. change (zlen (@nil Z)) with 0 in E. lia. }
  rewrite zlen_drop in Hn. unfold ebind. rewrite Hw, (proj2 (Z.eqb_neq _ _)) by lia.
  destruct (IH (offset + n) s1) as (s' & -> & Hs'); [lia|lia|]. exists s'. by rewrite Hs'.
Qed.

Lemma ReadSome_delivers n s :
  0 < n → st_coming s ≠ [] → ∃ b s', ByteStream_ReadSome n s = (Ok b, s')
    ∧ b ≠ [] ∧ zlen b <= n ∧ st_coming s = b ++ st_coming s'.
Proof.
  intros Hn Hc. destruct (dl_read n s Hn Hc) as (b & s' & Hr & Hb). exists b, s'. split; [|done].
  unfold ByteStream_ReadSome, ebind. by rewrite Hr.
Qed.

Lemma read_headers_delivers headers rest fuel response s :
  FindHeaderEnd headers = Some (zlen headers) → response ++ st_coming s = headers ++ rest →
  zlen response < zlen headers → (length (st_coming s) < fuel)%nat →
  ∃ body s', read_headers fuel response s = (Ok (Some (headers ++ body, zlen headers)), s')
    ∧ rest = body ++ st_coming s'.
Proof.
  intros Hh. revert response s. induction fuel as [|fuel IH]; intros response s Heq Hlt Hf; [lia|].
  cbn [read_headers]. assert (st_coming s ≠ []) as Hc.
  { intros E. rewrite E, app_nil_r in Heq. rewrite Heq, zlen_app in Hlt. pose proof (zlen_nonneg rest). lia. }
  destruct (ReadSome_delivers ReadChunkSize s) as (b & s1 & Hr & Hb & _ & Hs); [done|done|].
  unfold ebind at 1. rewrite Hr, bool_decide_false by done. cbv zeta.
  rewrite Hs, app_assoc in Heq. rewrite (FindHeaderEnd_prefix _ _ _ _ Hh Heq).
  destruct (Z.leb_spec (zlen headers) (zlen (response ++ b))) as [Hle|Hgt].
  - destruct (app_split _ _ _ _ Heq Hle) as (body & Hbody & Hrest). exists body, s1. rewrite Hbody. by split.
  - apply IH; [done|lia|]. rewrite Hs, length_app in Hf. destruct b; [done|]. simpl in Hf. lia.
Qed.

Lemma read_body_delivers size fuel body s :
  size <= zlen body + zlen (st_coming s) → (length (st_coming s) < fuel)%nat →
  ∃ more s', read_body fuel size body s = (Ok (Some (body ++ more)), s')
    ∧ size <= zlen (body ++ more) ∧ st_coming s = more ++ st_coming s'.
Proof.
  revert body s. induction fuel as [|fuel IH]; intros body s Hsz Hf; [lia|]. cbn [read_body].
  destruct (Z.ltb_spec (zlen body) size) as [Hlt|Hge]; cbn [negb].
  2: { exists [], s. rewrite app_nil_r. by split. }
  destruct (ReadSome_delivers (size - zlen body) s) as (b & s1 & Hr & Hb & _ & Hs); [lia| |].
  { intros E. rewrite E in Hsz. change (zlen (@nil Z)) with 0 in Hsz. lia. }
  unfold ebind. rewrite Hr. destruct (IH (body ++ b) s1) as (more & s' & -> & Hl & Hs').
  - rewrite Hs, zlen_app in Hsz. rewrite zlen_app. lia.
  - rewrite Hs, length_app in Hf. destruct b; [done|]. simpl in Hf. lia.
  - exists (b ++ more), s'. rewrite app_assoc. split_and!; [done|done|]. by rewrite Hs, Hs', app_assoc.
Qed.

(** The rest of [Run] once the request is written and the bytes of the answer arrive. *)
Lemma Run_delivers fuel host i s headers message2 extra message1 i1 keys i2 :
  NoiseInitiator_WriteMessage1 i = (Ok message1, i1) →
  FindHeaderEnd headers = Some (zlen headers) → search headers (lit "101") 0 ≠ None →
  zlen message2 = 48 → st_coming s = headers ++ ([NoiseMessageTwoType; 0; 48] ++ message2) ++ extra →
  NoiseInitiator_ReadMessage2 message2 i1 = (Ok keys, i2) → (length (st_coming s) < fuel)%nat →
  ∃ proactive s', ControlHandshake_Run fuel host (i, s)
      = (Ok (Some {| hr_Keys := keys; hr_ProactiveFrames := proactive |}), (i2, s'))
    ∧ extra = proactive ++ st_coming s'.
Proof.
  intros H1 Hh H101 Hm2 Hcoming H2 Hf. unfold ControlHandshake_Run, on_noise at 1, ebind at 1. cbn [fst snd]. rewrite H1.
  destruct (Base64Encode_total message1) as [text Htext]. unfold BuildUpgradeRequest. rewrite Htext. cbn [obind].
  unfold ebind at 1, elift at 1. unfold on_wire at 1, ebind at 1. cbn [fst snd].
  match goal with |- context [ByteStream_WriteAll ?r s] =>
    destruct (WriteAll_delivers (Datatypes.S (length r)) r 0 s) as (s1 & Hw & Hc1);
      [split; [lia|apply zlen_nonneg]|unfold zlen; lia|]; unfold ByteStream_WriteAll at 1; rewrite Hw end.
  rewrite <- Hc1 in Hcoming, Hf. clear Hw Hc1.
  assert (0 < zlen headers) as Hpos.
  { unfold FindHeaderEnd in Hh. destruct (search headers _ 0) as [q|] eqn:E; [|done].
    apply search_bounds in E. change (zlen [13; 10; 13; 10]) with 4 in E. lia. }
  unfold on_wire at 1, ebind at 1. cbn [fst snd].
  destruct (read_headers_delivers headers (([NoiseMessageTwoType; 0; 48] ++ message2) ++ extra) fuel [] s1)
    as (body & s2 & -> & Hbody); [done|done|done|done|].
  unfold ebind at 1, elift at 1. rewrite slice_prefix by done.
  destruct (search headers (lit "101") 0) as [?|]; [|done].
  unfold ebind at 1, elift at 1. rewrite slice_app_drop by zlia.
  unfold on_wire at 1, ebind at 1. cbn [fst snd].
  assert (length (st_coming s2) < fuel)%nat as Hf2 by (rewrite Hcoming, Hbody, !length_app in Hf; lia).
  assert (zlen (([NoiseMessageTwoType; 0; 48] ++ message2) ++ extra) = zlen body + zlen (st_coming s2)) as Hz
    by (by rewrite Hbody, zlen_app).
  rewrite !zlen_app, Hm2 in Hz. change (zlen [NoiseMessageTwoType; 0; 48]) with 3 in Hz.
  pose proof (zlen_nonneg extra).
  destruct (read_body_delivers NoiseFrameHeaderSize fuel body s2) as (m1 & s3 & -> & Hl1 & Hs3);
    [change NoiseFrameHeaderSize with 3; lia|done|].
  rewrite Hs3, app_assoc in Hbody. rewrite <- app_assoc in Hbody. symmetry in Hbody.
  destruct (app_split [NoiseMessageTwoType; 0; 48] (body ++ m1) _ _ Hbody) as (tl & Htl & Htl2); [done|].
  rewrite Htl. change (rd ([NoiseMessageTwoType; 0; 48] ++ tl) 0) with (Ok NoiseMessageTwoType).
  change (rd ([NoiseMessageTwoType; 0; 48] ++ tl) 1) with (Ok 0).
  change (rd ([NoiseMessageTwoType; 0; 48] ++ tl) 2) with (Ok 48).
  unfold ebind at 1, elift at 1. rewrite Z.eqb_refl. cbn [negb]. unfold ebind at 1, elift at 1.
  unfold ebind at 1, elift at 1. change (Z.lor (Z.shiftl 0 8) 48) with 48. change (NoiseFrameHeaderSize + 48) with 51.
  unfold on_wire at 1, ebind at 1. cbn [fst snd]. rewrite <- Htl.
  destruct (read_body_delivers 51 fuel (body ++ m1) s3) as (m2 & s4 & -> & Hl2 & Hs4).
  { rewrite Hs3, zlen_app in Hz. rewrite zlen_app. lia. }
  { rewrite Hs3, length_app in Hf2. lia. }
  rewrite Hs4, app_assoc in Hbody. rewrite (app_assoc [_; _; _]) in Hbody.
  destruct (app_split ([NoiseMessageTwoType; 0; 48] ++ message2) ((body ++ m1) ++ m2) _ _ Hbody)
    as (proactive & Hall & Hextra).
  { rewrite zlen_app, Hm2. change (zlen [NoiseMessageTwoType; 0; 48]) with 3. lia. }
  exists proactive, s4. split; [|done]. rewrite Hall. unfold on_noise at 1, ebind at 1. cbn [fst snd].
  unfold finish_handshake. change (NoiseFrameHeaderSize + 48) with 51. change NoiseFrameHeaderSize with 3.
  rewrite (slice_app_drop _ proactive 51) by zlia.
  rewrite <- app_assoc. rewrite (slice_full [NoiseMessageTwoType; 0; 48] message2 proactive) by (done || rewrite Hm2; done).
  unfold ebind, elift. by rewrite H2.
Qed.

(** C26: the handshake over HTTP succeeds.  A server with the private key to the pinned key
    answers the upgrade with headers that say 101 and the second message, and may send more at once.
    Whatever the pieces in which that arrives, [Run] returns the keys on which both sides agree, and
    what was sent behind the message is partly returned and partly still to come, with nothing lost. *)
Theorem ControlHandshake_Run_agrees serverPrivate serverEphemeral machine ephemeral host headers extra s
    message1 re rs st message2 keys :
  nc_x25519_base serverPrivate = TailscaleServerPublicKey →
  (NoiseInitiator_WriteMessage1 (NoiseInitiator_new machine ephemeral)).1 = Ok message1 →
  responder_read serverPrivate message1 = Some (re, rs, st) →
  responder_write serverEphemeral re rs st = (message2, keys) →
  FindHeaderEnd headers = Some (zlen headers) → search headers (lit "101") 0 ≠ None →
  st_coming s = headers ++ ([NoiseMessageTwoType; 0; 48] ++ message2) ++ extra →
  ∃ proactive i s',
    ControlHandshake_Run (Datatypes.S (length (st_coming s))) host (NoiseInitiator_new machine ephemeral, s)
    = (Ok (Some {| hr_Keys := {| nk_TxKey := nk_RxKey keys; nk_RxKey := nk_TxKey keys |};
                   hr_ProactiveFrames := proactive |}), (i, s'))
    ∧ extra = proactive ++ st_coming s'.
Proof.
  intros Hs Hw Hr Hm Hh H101 Hcoming.
  destruct (noise_agreement serverPrivate serverEphemeral machine ephemeral Hs)
    as (m1 & i & re' & st' & Hw' & _ & Hr' & Hm').
  rewrite Hw' in Hw. injection Hw as ->. rewrite Hr in Hr'. injection Hr' as -> -> ->.
  assert (zlen message2 = 48) as Hl.
  { unfold responder_write in Hm. repeat destruct (sy_mix_key _ _). destruct (noise_hkdf2 _ _). injection Hm as <- _.
    by rewrite zlen_app, nc_base_size, nc_seal_size. }
  rewrite Hm in Hm'. destruct (NoiseInitiator_ReadMessage2 message2 i) as [r i2] eqn:E2. cbn [fst] in Hm'. subst r.
  destruct (Run_delivers (Datatypes.S (length (st_coming s))) host _ s headers message2 extra message1 i _ i2
    Hw' Hh H101 Hl Hcoming E2) as (proactive & s' & HR & He); [lia|].
  by exists proactive, i2, s'.
Qed.

End handshake.

Section hang.
  Context `{!NoiseCrypto} {S : Type} `{!ByteStream S}.

Lemma read_body_closed fuel size body s :
  (∀ n, st_TryReadSome n s = (Ok (Some []), s)) → zlen body < size →
  read_body fuel size body s = (Ok None, s).
Proof.
  intros Hclosed Hlt. induction fuel as [|fuel IH]; cbn [read_body]; rewrite (proj2 (Z.ltb_lt _ _)) by done; [done|].
  cbn [negb]. unfold ByteStream_ReadSome, ebind at 1, ebind at 1. rewrite Hclosed. unfold eret. by rewrite app_nil_r.
Qed.

(** A server that closes the connection behind the headers of its answer makes the client
    spin: the loop that reads the message goes on without end when the stream gives no bytes, which
    is how a closed stream answers, so that [Run] does not return, whatever its fuel. *)
Theorem ControlHandshake_closed_hangs fuel host machine ephemeral message1 request response headerEnd (s s1 s2 : S) :
  (NoiseInitiator_WriteMessage1 (NoiseInitiator_new machine ephemeral)).1 = Ok message1 →
  BuildUpgradeRequest host message1 = Ok request → ByteStream_WriteAll request s = (Ok tt, s1) →
  st_TryReadSome ReadChunkSize s1 = (Ok (Some response), s2) →
  (∀ n, st_TryReadSome n s2 = (Ok (Some []), s2)) →
  FindHeaderEnd response = Some headerEnd →
  search (take (Z.to_nat headerEnd) response) (lit "101") 0 ≠ None → zlen response - headerEnd < 3 →
  (ControlHandshake_Run (Datatypes.S fuel) host (NoiseInitiator_new machine ephemeral, s)).1 = Ok None.
Proof.
  intros Hm Hreq Hwrite Hread Hclosed Hend H101 Hshort.
  assert (0 <= headerEnd <= zlen response) as Hb.
  { unfold FindHeaderEnd in Hend. destruct (search response _ 0) as [q|] eqn:E; [|done]. injection Hend as <-.
    apply search_bounds in E. change (zlen [13; 10; 13; 10]) with 4 in E. lia. }
  unfold ControlHandshake_Run, on_noise at 1, ebind at 1. cbn [fst snd].
  destruct (NoiseInitiator_WriteMessage1 _) as [r i]. cbn [fst] in Hm. subst r.
  unfold ebind at 1, elift at 1. rewrite Hreq. unfold on_wire at 1, ebind at 1. cbn [fst snd]. rewrite Hwrite.
  unfold on_wire at 1, ebind at 1. cbn [fst snd read_headers]. unfold ByteStream_ReadSome, ebind at 1, ebind at 1.
  rewrite Hread. unfold eret at 1. rewrite bool_decide_false.
  2: { intros ->. cbv in Hend. done. }
  cbn [app]. rewrite Hend. unfold eret at 1. unfold ebind at 1, elift at 1. rewrite slice_Ok by lia.
  rewrite Z.sub_0_r. change (drop (Z.to_nat 0) response) with response.
  destruct (search (take _ response) (lit "101") 0) as [?|]; [|done].
  unfold ebind at 1, elift at 1. rewrite slice_Ok by lia. unfold on_wire at 1, ebind at 1. cbn [fst snd].
  rewrite read_body_closed; [done|done|]. rewrite zlen_take, zlen_drop. change NoiseFrameHeaderSize with 3. lia.
Qed.

End hang.

(** ** Witnesses *)

(** A stream that takes everything, gives the bytes to come in pieces of at most [wi_piece] + 1, and
    is closed when there are none left. *)
Record wire := { wi_piece : nat; wi_incoming : bytes; wi_sent : bytes; wi_received : bytes }.

Definition wire_read (n : Z) : eff wire (option bytes) := fun w =>
  let k := Nat.min (Z.to_nat n) (S (wi_piece w)) in
  (Ok (Some (map u8 (take k (wi_incoming w)))),
   {| wi_piece := wi_piece w; wi_incoming := drop k (wi_incoming w); wi_sent := wi_sent w;
      wi_received := wi_received w ++ map u8 (take k (wi_incoming w)) |}).

#[export] Instance wire_ByteStream : ByteStream wire := {
  st_TryWriteSome := fun data w =>
    (Ok (Some (zlen data)), {| wi_piece := wi_piece w; wi_incoming := wi_incoming w;
                               wi_sent := wi_sent w ++ data; wi_received := wi_received w |});
  st_TryReadSome := wire_read;
  st_HasBufferedInput := fun _ => false;
  st_sent := wi_sent;
  st_received := wi_received
}.

#[export] Program Instance wire_Delivers : Delivers wire := { st_coming w := map u8 (wi_incoming w) }.
Next Obligation.
  intros data w Hd. cbn. do 2 eexists. split; [done|]. split; [|done]. destruct data; [done|zlia].
Qed.
Next Obligation.
  intros n w Hn Hc. cbn. unfold wire_read. do 2 eexists. split; [done|]. cbn. split_and!.
  - cbn in Hc. destruct (wi_incoming w) eqn:Ei; [done|]. destruct (Z.to_nat n) eqn:E; [lia|done].
  - unfold zlen. rewrite length_map, length_take. lia.
  - rewrite <- map_app. f_equal. symmetry. apply take_drop.
Qed.

#[export] Instance wire_ByteStreamLaws : ByteStreamLaws wire.
Proof.
  split; unfold wp; cbn.
  - intros data w. split; [done|]. split; [split; [apply zlen_nonneg|done]|]. unfold zlen. by rewrite Nat2Z.id, firstn_all.
  - intros n w. split; [done|]. split_and!; [|apply Forall_map, Forall_true; intros x; by apply wrap_range|done].
    unfold zlen. rewrite length_map, length_take. lia.
Qed.

(** Ciphers that keep the laws. *)
Definition pad32 (k : bytes) : bytes := map u8 (take 32 (k ++ replicate 32 0)).
Definition demo_tag (n : Z) : bytes := be_encode 8 n ++ replicate 8 0.

#[export] Instance demo_crypto : NoiseCrypto := {
  nc_blake2s := pad32;
  nc_x25519_base := pad32;
  nc_x25519 := fun a b => zip_with (fun x y => (x + y) mod 256) (pad32 a) (pad32 b);
  nc_seal := fun _ n _ p => p ++ demo_tag n;
  nc_open := fun _ n _ c =>
    if bool_decide (drop (length c - 16) c = demo_tag n) then Some (take (length c - 16) c) else None
}.

Lemma zlen_pad32 k : zlen (pad32 k) = 32.
Proof.
  unfold pad32. unfold zlen at 1. rewrite length_map. fold (zlen (take 32 (k ++ replicate 32 0))).
  rewrite zlen_take, zlen_app, zlen_replicate. pose proof (zlen_nonneg k). lia.
Qed.

Lemma bytes_pad32 k : bytes_ok (pad32 k).
Proof. unfold pad32. apply Forall_map, Forall_true. intros x. by apply wrap_range. Qed.

Lemma pad32_idem k : pad32 (pad32 k) = pad32 k.
Proof.
  unfold pad32 at 1. pose proof (zlen_pad32 k) as Hl. unfold zlen in Hl.
  rewrite take_app_le by lia. rewrite take_ge by lia. rewrite <- (map_id (pad32 k)) at 2.
  apply map_ext_Forall. eapply Forall_impl; [apply bytes_pad32|]. intros x Hx. by apply wrap_id.
Qed.

Lemma demo_open_seal p n n' :
  (if bool_decide (drop (length (p ++ demo_tag n') - 16) (p ++ demo_tag n') = demo_tag n)
   then Some (take (length (p ++ demo_tag n') - 16) (p ++ demo_tag n')) else None)
  = if bool_decide (demo_tag n' = demo_tag n) then Some p else None.
Proof.
  assert (length (p ++ demo_tag n') - 16 = length p)%nat as -> by (rewrite length_app; simpl; lia).
  by rewrite drop_app_length, take_app_length.
Qed.

#[export] Instance demo_crypto_laws : NoiseCryptoLaws.
Proof.
  split; cbn [nc_blake2s nc_x25519_base nc_x25519 nc_seal nc_open demo_crypto].
  - apply zlen_pad32.
  - apply bytes_pad32.
  - apply zlen_pad32.
  - intros a b. rewrite !pad32_idem. generalize (pad32 a), (pad32 b). intros l. induction l as [|x l IH]; intros [|y k]; [done..|].
    cbn. by rewrite IH, Z.add_comm.
  - intros _ n _ p. by rewrite zlen_app.
  - intros _ n _ p. rewrite demo_open_seal. by rewrite bool_decide_true.
Qed.

Definition demo_machine : bytes := replicate 32 3.
Definition demo_ephemeral : bytes := replicate 32 5.

Lemma NoiseInitiator_agrees_witness :
  ∃ message1 i re st, NoiseInitiator_WriteMessage1 (NoiseInitiator_new demo_machine demo_ephemeral)
    = (Ok message1, i)
  ∧ zlen message1 = 101
  ∧ responder_read TailscaleServerPublicKey message1
    = Some (re, nc_x25519_base (ClampCurve25519Private demo_machine), st)
  ∧ let '(message2, keys) := responder_write [9] re (nc_x25519_base (ClampCurve25519Private demo_machine)) st in
    (NoiseInitiator_ReadMessage2 message2 i).1
    = Ok {| nk_TxKey := nk_RxKey keys; nk_RxKey := nk_TxKey keys |}.
Proof. apply (NoiseInitiator_agrees TailscaleServerPublicKey [9] demo_machine demo_ephemeral). reflexivity. Defined.

(** Two messages through pieces of three bytes. *)
Definition demo_keys (tx rx : Z) : NoiseKeys := {| nk_TxKey := [tx]; nk_RxKey := [rx] |}.

Definition demo_sends : list noise_op := [NoiseSend (lit "one"); NoiseFlush; NoiseSend (lit "two")].

Definition demo_sender : pipe :=
  {| pi_incoming := []; pi_capacities := [Some 30; Some 9; Some 100]; pi_sent := []; pi_received := [] |}.

Definition demo_bytes : bytes :=
  st_sent (nt_stream (noise_run demo_sends (NoiseTransport_new demo_sender (demo_keys 1 2))).2).

Definition demo_receiver : pipe :=
  {| pi_incoming := [take 25 demo_bytes; drop 25 demo_bytes]; pi_capacities := []; pi_sent := []; pi_received := [] |}.

Lemma NoiseTransport_in_order_witness :
  delivered (noise_run [NoiseTryReceive; NoiseTryReceive] (NoiseTransport_new demo_receiver (demo_keys 2 1))).1
    = [lit "one"; lit "two"]
  ∧ let a := (noise_run demo_sends (NoiseTransport_new demo_sender (demo_keys 1 2))).2 in
    let '(rs, b) := noise_run [NoiseTryReceive; NoiseTryReceive] (NoiseTransport_new demo_receiver (demo_keys 2 1)) in
    st_received (nt_stream b) `prefix_of` st_sent (nt_stream a) →
    ∃ rest, submitted demo_sends = delivered rs ++ rest
      ∧ (NoiseTransport_HasPendingOutput a = false → st_received (nt_stream b) = st_sent (nt_stream a) →
         ∃ b', noise_run (replicate (length rest) NoiseTryReceive) b = (map (fun p => Ok (Some p)) rest, b')).
Proof.
  split; [vm_compute; reflexivity|].
  apply (NoiseTransport_in_order demo_sends [NoiseTryReceive; NoiseTryReceive] demo_sender demo_receiver
           (demo_keys 1 2) (demo_keys 2 1)); [done|done|done|by repeat constructor].
Defined.

Lemma NoiseTransport_bounded_witness :
  let '(rs, t) := noise_run [NoiseReceive; NoiseTryReceive] (NoiseTransport_of_handshake demo_receiver
    {| hr_Keys := demo_keys 2 1; hr_ProactiveFrames := [4; 255] |}) in
  Forall (fun r => r ≠ UB) rs ∧ zlen (nt_receiveBuffer t) <= 65538
  ∧ 0 <= nt_sendOffset t <= zlen (nt_sendBuffer t).
Proof.
  apply (NoiseTransport_bounded [NoiseReceive; NoiseTryReceive] demo_receiver
    {| hr_Keys := demo_keys 2 1; hr_ProactiveFrames := [4; 255] |}); [by repeat constructor|done].
Defined.

Lemma NoiseTransport_nonces_unique_witness :
  noise_nonces demo_sends (NoiseTransport_new demo_sender (demo_keys 1 2)) = [0; 2 ^ 56]
  ∧ NoDup (noise_nonces demo_sends (NoiseTransport_new demo_sender (demo_keys 1 2))).
Proof.
  split; [vm_compute; reflexivity|].
  apply (NoiseTransport_nonces_unique demo_sends demo_sender (demo_keys 1 2)). done.
Defined.

Lemma demo_authentic k n n' ad m :
  in_width 64 n → in_width 64 n' → n ≠ n' → nc_open k n ad (nc_seal k n' ad m) = None.
Proof.
  intros Hn Hn' Hne. cbn [nc_open nc_seal demo_crypto]. rewrite demo_open_seal, bool_decide_false; [done|].
  intros E. apply Hne. apply app_inj_1 in E as [E _]; [|by rewrite !length_be_encode].
  apply (f_equal be_decode) in E. rewrite !be_decode_encode in E.
  change (8 * Z.of_nat 8) with 64 in E. unfold in_width in *. rewrite !Z.mod_small in E by done. done.
Qed.

Lemma NoiseTransport_oversized_desync_witness :
  let a := NoiseTransport_new demo_sender (demo_keys 1 2) in
  let b := NoiseTransport_new demo_receiver (demo_keys 2 1) in
  let '(r, a1) := NoiseTransport_Send (replicate (Z.to_nat 65520) 0) a in
  let '(_, a2) := NoiseTransport_Send (lit "two") a1 in
  r = Throw (RuntimeError "Noise transport frame is too large.")
  ∧ noise_written a1 = noise_written a
  ∧ ∃ frame, noise_written a2 = noise_written a1 ++ frame
    ∧ ∀ rest, NoiseTransport_TryTakeBufferedFrame (nt_set_receive (frame ++ rest) (nt_rxNonce b) b)
      = (Throw (RuntimeError "ChaCha20-Poly1305 authentication failed."), nt_set_receive rest (nt_rxNonce b) b).
Proof.
  apply (NoiseTransport_oversized_desync (replicate (Z.to_nat 65520) 0) (lit "two")
    (NoiseTransport_new demo_sender (demo_keys 1 2)) (NoiseTransport_new demo_receiver (demo_keys 2 1)));
    [exact demo_authentic|done|done|rewrite zlen_replicate, Z2Nat.id; lia|done|done|done].
Defined.

Definition demo_initiator : NoiseInitiator := NoiseInitiator_new demo_machine demo_ephemeral.

Definition demo_message1 : bytes :=
  match (NoiseInitiator_WriteMessage1 demo_initiator).1 with Ok m => m | _ => [] end.

Definition demo_read : bytes * bytes * Symmetric :=
  default ([], [], {| sy_ck := []; sy_h := [] |}) (responder_read TailscaleServerPublicKey demo_message1).

Definition demo_answer : bytes * NoiseKeys := responder_write [9] demo_read.1.1 demo_read.1.2 demo_read.2.

Definition demo_headers : bytes := lit "HTTP/1.1 101 Switching Protocols" ++ crlf ++ crlf.

Definition demo_wire (piece : nat) (incoming : bytes) : wire :=
  {| wi_piece := piece; wi_incoming := incoming; wi_sent := []; wi_received := [] |}.

Lemma ControlHandshake_Run_agrees_witness :
  let s := demo_wire 6 (demo_headers ++ ([NoiseMessageTwoType; 0; 48] ++ demo_answer.1) ++ [4; 0]) in
  ∃ proactive i s',
    ControlHandshake_Run (S (length (st_coming s))) (lit "host") (demo_initiator, s)
    = (Ok (Some {| hr_Keys := {| nk_TxKey := nk_RxKey demo_answer.2; nk_RxKey := nk_TxKey demo_answer.2 |};
                   hr_ProactiveFrames := proactive |}), (i, s'))
    ∧ [4; 0] = proactive ++ st_coming s'.
Proof.
  apply (ControlHandshake_Run_agrees TailscaleServerPublicKey [9] demo_machine demo_ephemeral (lit "host")
    demo_headers [4; 0] (demo_wire 6 (demo_headers ++ ([NoiseMessageTwoType; 0; 48] ++ demo_answer.1) ++ [4; 0]))
    demo_message1 demo_read.1.1 demo_read.1.2 demo_read.2 demo_answer.1 demo_answer.2);
    [vm_compute; reflexivity..|vm_compute; discriminate|reflexivity].
Defined.

Definition demo_request : bytes :=
  match BuildUpgradeRequest (lit "host") demo_message1 with Ok r => r | _ => [] end.

Lemma ControlHandshake_closed_hangs_witness :
  (ControlHandshake_Run 1000 (lit "host") (demo_initiator, demo_wire 4000 (demo_headers ++ [2]))).1 = Ok None.
Proof.
  apply (ControlHandshake_closed_hangs 999 (lit "host") demo_machine demo_ephemeral demo_message1 demo_request
    (demo_headers ++ [2]) (zlen demo_headers) (demo_wire 4000 (demo_headers ++ [2]))
    {| wi_piece := 4000; wi_incoming := demo_headers ++ [2]; wi_sent := demo_request; wi_received := [] |}
    {| wi_piece := 4000; wi_incoming := []; wi_sent := demo_request; wi_received := demo_headers ++ [2] |}).
  - vm_compute. reflexivity.
  - vm_compute. reflexivity.
  - vm_compute. reflexivity.
  - vm_compute. reflexivity.
  - intros n. cbn [st_TryReadSome wire_ByteStream]. unfold wire_read. cbn [wi_piece wi_incoming wi_sent wi_received].
    rewrite take_nil, drop_nil, app_nil_r. reflexivity.
  - vm_compute. reflexivity.
  - vm_compute. discriminate.
  - vm_compute. reflexivity.
Defined.
