(* ===== verification/Server.v ===== *)
(** * The relay's side of a hosted session

    hosted/impl/ServerSessionImpl.cpp (authentication, the network map of the client, the frames of
    a session and the pump), the proofs and the HTTP upgrade of hosted/Protocol.cpp, the client's
    side of the authentication in hosted/Connection.cpp, and hosted/impl/PumpControllerImpl.cpp.
    The documents that are exchanged are those of [Documents].  A time is in nanoseconds.
    The mutex of the session is left out: its methods are the steps. *)

From S2P Require Import Prelude Text StdMap Json Net Packet Framing Codec DerpClient Dns Tailnet Forward Base64 ControlMap Documents Noise.

Definition Relay_MaximumHttpHeaderSize : Z := 16 * 1024.

(** ** Proofs *)

Section proofs.
  Context `{!NoiseCrypto}.

Definition CreateProof (context privateKey publicKey serverNonce clientNonce profileId : bytes) : bytes :=
  let shared := X25519Shared privateKey publicKey in
  let message := context ++ serverNonce ++ clientNonce ++ profileId in
  HmacBlake2s256 shared message.

Definition CreateClientProof (clientPrivateKey relayPublicKey serverNonce clientNonce : bytes) : bytes :=
  CreateProof (lit "tailgate-relay-client-v1") clientPrivateKey relayPublicKey serverNonce clientNonce [].

Definition CreateServerProof (relayPrivateKey clientPublicKey serverNonce clientNonce : bytes) : bytes :=
  CreateProof (lit "tailgate-relay-server-v1") relayPrivateKey clientPublicKey serverNonce clientNonce [].

(** [sodium_memcmp] of 32 bytes. *)
Definition ProofMatches (expected actual : bytes) : bool := bool_decide (expected = actual).

End proofs.

(** ** The session *)

Definition MessageType_Authenticated : Z := 2.
Definition MessageType_Rejected : Z := 3.
Definition MessageType_NetworkMap : Z := 4.
Definition MessageType_ClientPacket : Z := 5.
Definition MessageType_ServerPacket : Z := 6.
Definition MessageType_Heartbeat : Z := 10.
Definition MessageType_Shutdown : Z := 11.
Definition MessageType_ServerChallenge : Z := 13.
Definition MessageType_DerpChallenge : Z := 14.
Definition MessageType_DerpResponse : Z := 15.
Definition MessageType_PeerEndpoint : Z := 18.

Definition RejectionReason : bytes := lit "node authentication or tailnet visibility check failed".
Definition Relay_NodeKeyPrefix : bytes := lit "nodekey:".
Definition nanoseconds_per_millisecond : Z := 1000 * 1000.
Definition MinimumPumpInterval : Z := 5 * nanoseconds_per_millisecond.

Definition InvalidState : exn :=
  RuntimeError "The hosted server session operation is invalid in its current state.".
Definition UnexpectedFrame : exn := RuntimeError "The hosted client sent an unexpected protocol frame.".
Definition NetworkMapIdentityChanged : exn :=
  RuntimeError "The hosted client network map does not match its authenticated identity.".
Definition InvalidTailnetDnsQuery : exn := RuntimeError "The hosted client Tailnet DNS query is invalid.".

Inductive ServerState :=
  | Server_Created | Server_ChallengeSent | Server_AuthenticationEvaluated | Server_Authenticated
  | Server_Active | Server_Rejected.

#[export] Instance ServerState_eq : EqDecision ServerState.
Proof. solve_decision. Defined.

Record ServerSessionOptions := {
  so_ExpectedTailnet : bytes;
  so_RelayHostName : bytes;
  so_RelayHostAddress : bytes;
  so_RelayPrivateKey : bytes;
  so_RelayPublicKey : bytes
}.

Record ServerSessionImpl := {
  sv_pumpDeadline : option Z;
  sv_lastPump : option Z;
  sv_pumpRequestId : Z;
  sv_options : ServerSessionOptions;
  sv_serverNonce : bytes;
  sv_authentication : option Authentication;
  sv_networkMap : option FullConfig;
  sv_nextDerpRequestId : Z;
  sv_state : ServerState;
  sv_proofValid : bool;
  sv_tailnetMatches : bool
}.

(** [m_networkMap] is empty until a map is accepted, and read only after that. *)
Definition ServerSessionImpl_new (options : ServerSessionOptions) : ServerSessionImpl := {|
  sv_pumpDeadline := None; sv_lastPump := None; sv_pumpRequestId := 0; sv_options := options;
  sv_serverNonce := replicate 32 0; sv_authentication := None; sv_networkMap := None;
  sv_nextDerpRequestId := 1; sv_state := Server_Created; sv_proofValid := false;
  sv_tailnetMatches := false |}.

Definition sv_set_auth state nonce auth proofValid tailnetMatches (s : ServerSessionImpl) : ServerSessionImpl := {|
  sv_pumpDeadline := sv_pumpDeadline s; sv_lastPump := sv_lastPump s; sv_pumpRequestId := sv_pumpRequestId s;
  sv_options := sv_options s; sv_serverNonce := nonce; sv_authentication := auth;
  sv_networkMap := sv_networkMap s; sv_nextDerpRequestId := sv_nextDerpRequestId s; sv_state := state;
  sv_proofValid := proofValid; sv_tailnetMatches := tailnetMatches |}.
Definition sv_set_state state (s : ServerSessionImpl) : ServerSessionImpl :=
  sv_set_auth state (sv_serverNonce s) (sv_authentication s) (sv_proofValid s) (sv_tailnetMatches s) s.
Definition sv_set_map m (s : ServerSessionImpl) : ServerSessionImpl := {|
  sv_pumpDeadline := sv_pumpDeadline s; sv_lastPump := sv_lastPump s; sv_pumpRequestId := sv_pumpRequestId s;
  sv_options := sv_options s; sv_serverNonce := sv_serverNonce s; sv_authentication := sv_authentication s;
  sv_networkMap := m; sv_nextDerpRequestId := sv_nextDerpRequestId s; sv_state := sv_state s;
  sv_proofValid := sv_proofValid s; sv_tailnetMatches := sv_tailnetMatches s |}.
Definition sv_set_pump deadline last request (s : ServerSessionImpl) : ServerSessionImpl := {|
  sv_pumpDeadline := deadline; sv_lastPump := last; sv_pumpRequestId := request;
  sv_options := sv_options s; sv_serverNonce := sv_serverNonce s; sv_authentication := sv_authentication s;
  sv_networkMap := sv_networkMap s; sv_nextDerpRequestId := sv_nextDerpRequestId s; sv_state := sv_state s;
  sv_proofValid := sv_proofValid s; sv_tailnetMatches := sv_tailnetMatches s |}.
Definition sv_set_derp n (s : ServerSessionImpl) : ServerSessionImpl := {|
  sv_pumpDeadline := sv_pumpDeadline s; sv_lastPump := sv_lastPump s; sv_pumpRequestId := sv_pumpRequestId s;
  sv_options := sv_options s; sv_serverNonce := sv_serverNonce s; sv_authentication := sv_authentication s;
  sv_networkMap := sv_networkMap s; sv_nextDerpRequestId := n; sv_state := sv_state s;
  sv_proofValid := sv_proofValid s; sv_tailnetMatches := sv_tailnetMatches s |}.

Record ServerAuthenticationResult := {
  ar_Identity : Authentication;
  ar_ProofValid : bool;
  ar_TailnetMatches : bool
}.

Record ServerSessionProcessResult := {
  pr_PeerPacketPayload : option bytes;
  pr_VerifiedPeerEndpoint : option PeerEndpoint;
  pr_NetworkMap : option FullConfig;
  pr_DerpResponse : option DerpAuthenticationResponse;
  pr_Delegation : option DelegationRequest;
  pr_RemoteOutput : list Frame;
  pr_DnsName : option bytes;
  pr_ClientReady : bool;
  pr_Shutdown : bool;
  pr_PumpScheduleChanged : bool
}.

Definition ProcessResult_empty : ServerSessionProcessResult := {|
  pr_PeerPacketPayload := None; pr_VerifiedPeerEndpoint := None; pr_NetworkMap := None;
  pr_DerpResponse := None; pr_Delegation := None; pr_RemoteOutput := []; pr_DnsName := None;
  pr_ClientReady := false; pr_Shutdown := false; pr_PumpScheduleChanged := false |}.

Definition RequireState (expected : ServerState) : eff ServerSessionImpl unit :=
  let* s := eget in
  if bool_decide (sv_state s = expected) then eret tt else ethrow InvalidState.

Definition RequireActive : eff ServerSessionImpl unit := RequireState Server_Active.

(** [boost::algorithm::to_lower], [unhex] and [hex_lower]. *)
Section session.
  Context `{!NoiseCrypto} `{!JsonText} (lower : Z → Z) (unhex : bytes → option bytes) (hex_lower : bytes → bytes).

(** The nonce is random. *)
Definition ServerSessionImpl_StartAuthentication (nonce : bytes) : eff ServerSessionImpl Frame :=
  RequireState Server_Created ;;*
  emod (fun s => sv_set_auth Server_ChallengeSent nonce (sv_authentication s) (sv_proofValid s)
                   (sv_tailnetMatches s) s) ;;*
  let* s := eget in
  let* payload := elift (ProtocolCodec_EncodeChallenge hex_lower
    {| ch_RelayPublicKey := so_RelayPublicKey (sv_options s); ch_ServerNonce := sv_serverNonce s |}) in
  eret {| fr_type := MessageType_ServerChallenge; fr_payload := payload |}.

Definition ServerSessionImpl_EvaluateAuthentication (frame : Frame)
    : eff ServerSessionImpl ServerAuthenticationResult :=
  RequireState Server_ChallengeSent ;;*
  if negb (fr_type frame =? MessageType_Authenticate) then ethrow UnexpectedFrame else
  let* a := elift (ProtocolCodec_DecodeAuthentication unhex (fr_payload frame)) in
  let* s := eget in
  let expectedProof := CreateClientProof (so_RelayPrivateKey (sv_options s)) (au_NodePublicKey a)
                         (sv_serverNonce s) (au_ClientNonce a) in
  let proofValid := ProofMatches expectedProof (au_ClientProof a) in
  let tailnetMatches := bool_decide (au_Tailnet a = so_ExpectedTailnet (sv_options s)) in
  emod (sv_set_auth Server_AuthenticationEvaluated (sv_serverNonce s) (Some a) proofValid tailnetMatches) ;;*
  eret {| ar_Identity := a; ar_ProofValid := proofValid; ar_TailnetMatches := tailnetMatches |}.

(** [m_authentication->...], which is undefined when there is none. *)
Definition the_authentication : eff ServerSessionImpl Authentication :=
  let* s := eget in
  match sv_authentication s with Some a => eret a | None => elift UB end.

Definition ServerSessionImpl_CompleteAuthentication (nodeVisible : bool) : eff ServerSessionImpl Frame :=
  RequireState Server_AuthenticationEvaluated ;;*
  let* s := eget in
  if negb (sv_proofValid s) || negb (sv_tailnetMatches s) || negb nodeVisible then
    emod (sv_set_state Server_Rejected) ;;*
    let* payload := elift (ProtocolCodec_EncodeRejection RejectionReason) in
    eret {| fr_type := MessageType_Rejected; fr_payload := payload |}
  else
    emod (sv_set_state Server_Authenticated) ;;*
    let* a := the_authentication in
    let* payload := elift (ProtocolCodec_EncodeSession hex_lower {|
      hs_Tailnet := au_Tailnet a;
      hs_RelayHostName := so_RelayHostName (sv_options s);
      hs_RelayHostAddress := so_RelayHostAddress (sv_options s);
      hs_ServerProof := CreateServerProof (so_RelayPrivateKey (sv_options s)) (au_NodePublicKey a)
                          (sv_serverNonce s) (au_ClientNonce a) |}) in
    eret {| fr_type := MessageType_Authenticated; fr_payload := payload |}.

Definition ServerSessionImpl_ValidateNetworkMap (candidate : FullConfig) : eff ServerSessionImpl bool :=
  let* a := the_authentication in
  let expectedNodeKey := Relay_NodeKeyPrefix ++ hex_lower (au_NodePublicKey a) in
  eret (bool_decide (fc_domain candidate = au_Tailnet a) && (sf_nodeId (fc_self candidate) =? au_NodeId a)
        && bool_decide (sf_key (fc_self candidate) = expectedNodeKey)).

Definition ServerSessionImpl_AcceptInitialNetworkMap (frame : Frame) : eff ServerSessionImpl FullConfig :=
  RequireState Server_Authenticated ;;*
  if negb (fr_type frame =? MessageType_NetworkMap) then ethrow UnexpectedFrame else
  let* config := elift (ProtocolCodec_DecodeNetworkConfig (fr_payload frame)) in
  let* valid := ServerSessionImpl_ValidateNetworkMap config in
  if negb valid then ethrow NetworkMapIdentityChanged else
  emod (sv_set_map (Some config)) ;;*
  emod (sv_set_state Server_Active) ;;*
  eret config.

Definition ServerSessionImpl_AcceptPump (now : Z) (schedule : PumpSchedule) : eff ServerSessionImpl bool :=
  let* s := eget in
  if ps_RequestId schedule <=? sv_pumpRequestId s then eret false else
  let deadline := (fun delay => now + delay * nanoseconds_per_millisecond) <$> ps_Delay schedule in
  let deadline :=
    match deadline, sv_lastPump s with
    | Some d, Some last => if d <? last + MinimumPumpInterval then Some (last + MinimumPumpInterval) else Some d
    | _, _ => deadline
    end in
  emod (sv_set_pump deadline (sv_lastPump s) (ps_RequestId schedule)) ;;*
  eret true.

(** The branch of a tailnet DNS query. *)
Definition process_tailnet_query (frame : Frame) : eff ServerSessionImpl ServerSessionProcessResult :=
  let* s := eget in
  let* m := match sv_networkMap s with Some m => eret m | None => elift UB end in
  let expectedSource := Ipv4Address_TryParse (sf_address (fc_self m)) in
  let* query := elift (Ipv4UdpDatagram_Parse (fr_payload frame)) in
  match expectedSource, query with
  | Some source, Some query =>
      if negb (udp_source query =? Ipv4Address_HostOrder source) then ethrow InvalidTailnetDnsQuery else
      let* response := elift (TailnetDnsResponse_Build lower unhex (tailnet_of m) (fr_payload frame)) in
      match response with
      | None => ethrow InvalidTailnetDnsQuery
      | Some response =>
          let* name := elift (DnsQuery_Name lower (udp_payload query)) in
          eret {| pr_PeerPacketPayload := None; pr_VerifiedPeerEndpoint := None; pr_NetworkMap := None;
                  pr_DerpResponse := None; pr_Delegation := None;
                  pr_RemoteOutput := [{| fr_type := MessageType_TailnetDnsResponse; fr_payload := response |}];
                  pr_DnsName := name; pr_ClientReady := false; pr_Shutdown := false;
                  pr_PumpScheduleChanged := false |}
      end
  | _, _ => ethrow InvalidTailnetDnsQuery
  end.

Definition ServerSessionImpl_Process (now : Z) (frame : Frame)
    : eff ServerSessionImpl ServerSessionProcessResult :=
  RequireActive ;;*
  let result packet endpoint network derp delegation ready shutdown pump := {|
    pr_PeerPacketPayload := packet; pr_VerifiedPeerEndpoint := endpoint; pr_NetworkMap := network;
    pr_DerpResponse := derp; pr_Delegation := delegation; pr_RemoteOutput := []; pr_DnsName := None;
    pr_ClientReady := ready; pr_Shutdown := shutdown; pr_PumpScheduleChanged := pump |} in
  if fr_type frame =? MessageType_ClientPacket then
    eret (result (Some (fr_payload frame)) None None None None false false false)
  else if fr_type frame =? MessageType_PeerEndpoint then
    let* endpoint := elift (ProtocolCodec_DecodePeerEndpoint (fr_payload frame)) in
    eret (result None (Some endpoint) None None None false false false)
  else if fr_type frame =? MessageType_NetworkMap then
    let* next := elift (ProtocolCodec_DecodeNetworkConfig (fr_payload frame)) in
    let* valid := ServerSessionImpl_ValidateNetworkMap next in
    if negb valid then ethrow NetworkMapIdentityChanged else
    emod (sv_set_map (Some next)) ;;*
    eret (result None None (Some next) None None false false false)
  else if fr_type frame =? MessageType_Delegation then
    let* delegation := elift (DecodeDelegationRequest frame) in
    match delegation with
    | None => ethrow UnexpectedFrame
    | Some _ => eret (result None None None None delegation false false false)
    end
  else if fr_type frame =? MessageType_TailnetDnsQuery then process_tailnet_query frame
  else if fr_type frame =? MessageType_DerpResponse then
    let* response := elift (ProtocolCodec_DecodeDerpResponse (fr_payload frame)) in
    eret (result None None None (Some response) None false false false)
  else if fr_type frame =? MessageType_Heartbeat then
    eret (result None None None None None true false false)
  else if fr_type frame =? MessageType_PumpSchedule then
    match TryDecodePumpSchedule (fr_payload frame) with
    | None => ethrow (PumpException "InvalidMessage")
    | Some schedule =>
        let* changed := ServerSessionImpl_AcceptPump now schedule in
        eret (result None None None None None false false changed)
    end
  else if fr_type frame =? MessageType_Shutdown then
    eret (result None None None None None false true false)
  else eret ProcessResult_empty.

Definition ServerSessionImpl_BuildDerpChallenge (serverKey : bytes) : eff ServerSessionImpl (Z * Frame) :=
  RequireActive ;;*
  let* s := eget in
  let requestId := sv_nextDerpRequestId s in
  emod (sv_set_derp (u64 (requestId + 1))) ;;*
  let* payload := elift (ProtocolCodec_EncodeDerpChallenge
                           {| dc_requestId := requestId; dc_serverKey := serverKey |}) in
  eret (requestId, {| fr_type := MessageType_DerpChallenge; fr_payload := payload |}).

Definition ServerSessionImpl_BuildHeartbeat : eff ServerSessionImpl Frame :=
  RequireActive ;;* eret {| fr_type := MessageType_Heartbeat; fr_payload := [] |}.

Definition ServerSessionImpl_BuildServerPacket (payload : bytes) : eff ServerSessionImpl Frame :=
  RequireActive ;;* eret {| fr_type := MessageType_ServerPacket; fr_payload := payload |}.

Definition ServerSessionImpl_NextPumpDeadline : eff ServerSessionImpl (option Z) :=
  RequireActive ;;* let* s := eget in eret (sv_pumpDeadline s).

(** [now] is the first reading of the clock, [later] the second. *)
Definition ServerSessionImpl_TakeDuePump (now later : Z) : eff ServerSessionImpl (option Frame) :=
  RequireActive ;;*
  let* s := eget in
  match sv_pumpDeadline s with
  | None => eret None
  | Some deadline =>
      if now <? deadline then eret None else
      emod (sv_set_pump None (Some later) (sv_pumpRequestId s)) ;;*
      let* reply := elift (EncodePumpReply (sv_pumpRequestId s)) in
      eret (Some reply)
  end.

End session.

(** ** The client's side of the authentication (hosted/Connection.cpp)

    The two frames that the client reads are arguments: the socket, the upgrade and the decoder are
    modelled elsewhere.  The text of the exception for a rejection leaves the reason out. *)

(** The options that the exchange reads. *)
Record ConnectionIdentity := {
  cn_Domain : bytes;
  cn_SelfNodeId : Z;
  cn_Hostname : bytes;
  cn_OperatingSystem : bytes;
  cn_OperatingSystemVersion : bytes;
  cn_NodePrivateKey : bytes;
  cn_NodePublicKey : bytes
}.

Section client.
  Context `{!NoiseCrypto} `{!JsonText} (unhex : bytes → option bytes) (hex_lower : bytes → bytes).

Definition Connection_Authenticate (o : ConnectionIdentity) (clientNonce : bytes) (challengeFrame : Frame)
    : outcome (Challenge * Authentication * Frame) :=
  if negb (fr_type challengeFrame =? MessageType_ServerChallenge)
  then Throw (RuntimeError "Tailgate server did not provide an identity challenge.") else
  let! challenge := ProtocolCodec_DecodeChallenge unhex (fr_payload challengeFrame) in
  let clientProof := CreateClientProof (cn_NodePrivateKey o) (ch_RelayPublicKey challenge)
                       (ch_ServerNonce challenge) clientNonce in
  let authentication := {|
    au_Tailnet := cn_Domain o; au_NodeId := cn_SelfNodeId o; au_Hostname := cn_Hostname o;
    au_OperatingSystem := cn_OperatingSystem o; au_OperatingSystemVersion := cn_OperatingSystemVersion o;
    au_NodePublicKey := cn_NodePublicKey o; au_ClientNonce := clientNonce; au_ClientProof := clientProof |} in
  let! payload := ProtocolCodec_EncodeAuthentication hex_lower authentication in
  Ok (challenge, authentication, {| fr_type := MessageType_Authenticate; fr_payload := payload |}).

Definition Connection_Accept (o : ConnectionIdentity) (challenge : Challenge) (authentication : Authentication)
    (response : Frame) : outcome HostedSession :=
  if fr_type response =? MessageType_Rejected then
    let! _ := ProtocolCodec_DecodeRejection (fr_payload response) in
    Throw (RuntimeError "Tailgate server rejected authentication.")
  else if negb (fr_type response =? MessageType_Authenticated)
  then Throw (RuntimeError "Tailgate server returned an invalid authentication response.") else
  let! session := ProtocolCodec_DecodeSession unhex (fr_payload response) in
  let expectedProof := CreateServerProof (cn_NodePrivateKey o) (ch_RelayPublicKey challenge)
                         (ch_ServerNonce challenge) (au_ClientNonce authentication) in
  if negb (bool_decide (hs_Tailnet session = cn_Domain o))
     || negb (ProofMatches expectedProof (hs_ServerProof session))
  then Throw (RuntimeError "Tailgate server identity proof is invalid.") else Ok session.

End client.

(** ** The HTTP upgrade (hosted/Protocol.cpp) *)

Section upgrade.
  Context {S : Type} `{!ByteStream S}.

(** The headers, with the empty line, and what was read behind them. *)
Fixpoint http_headers_loop (fuel : nat) (input : bytes) : eff S (bytes * bytes) :=
  match fuel with
  | O => elift UB
  | Datatypes.S fuel' =>
      let* part := ByteStream_ReadSome 1024 in
      if bool_decide (part = [])
      then ethrow (RuntimeError "Relay HTTP connection closed during headers.") else
      let input := input ++ part in
      match search input [13; 10; 13; 10] 0 with
      | Some end_ =>
          let* value := elift (slice input 0 (end_ + 4)) in
          let* trailing := elift (slice input (end_ + 4) (zlen input)) in
          eret (value, trailing)
      | None =>
          if Relay_MaximumHttpHeaderSize <? zlen input
          then ethrow (RuntimeError "Relay HTTP headers exceed the limit.") else
          http_headers_loop fuel' input
      end
  end.

(** Every round adds a byte until the limit is passed. *)
Definition ReadHttpHeaders : eff S (bytes * bytes) :=
  http_headers_loop (Datatypes.S (Datatypes.S (Z.to_nat Relay_MaximumHttpHeaderSize))) [].

Definition upgrade_line : bytes := lit "POST /tailgate HTTP/1.1" ++ crlf.

Definition upgrade_request (host : bytes) : bytes :=
  upgrade_line ++ lit "Host: " ++ host ++ crlf ++ lit "Connection: Upgrade" ++ crlf
    ++ lit "Upgrade: tailgate" ++ crlf ++ crlf.

Definition upgrade_answer : bytes :=
  lit "HTTP/1.1 101 Switching Protocols" ++ crlf ++ lit "Connection: Upgrade" ++ crlf
    ++ lit "Upgrade: tailgate" ++ crlf ++ crlf.

Definition AcceptHttpUpgrade : eff S unit :=
  let* (request, _) := ReadHttpHeaders in
  let validRequest := starts_with upgrade_line request in
  let validUpgrade := bool_decide (search request (crlf ++ lit "Upgrade: tailgate" ++ crlf) 0 ≠ None)
                      || bool_decide (search request (crlf ++ lit "upgrade: tailgate" ++ crlf) 0 ≠ None) in
  if negb validRequest || negb validUpgrade then
    ByteStream_WriteAll (lit "HTTP/1.1 404 Not Found" ++ crlf ++ lit "Content-Length: 0" ++ crlf ++ crlf) ;;*
    ethrow (RuntimeError "Relay HTTP upgrade request is invalid.")
  else
    ByteStream_WriteAll upgrade_answer.

Definition RequestHttpUpgrade (host : bytes) : eff S bytes :=
  if bool_decide (host = []) then ethrow (InvalidArgument "Relay HTTP host is empty.") else
  ByteStream_WriteAll (upgrade_request host) ;;*
  let* (value, trailing) := ReadHttpHeaders in
  if negb (starts_with (lit "HTTP/1.1 101 ") value)
  then ethrow (RuntimeError "Relay server rejected HTTP upgrade.") else
  eret trailing.

End upgrade.

(** ** The pump controller *)

Record PumpControllerImpl := {
  pu_deadline : option Z;
  pu_nextRequestId : Z;
  pu_pendingRequestId : Z;
  pu_immediate : bool
}.

Definition PumpControllerImpl_new : PumpControllerImpl := {|
  pu_deadline := None; pu_nextRequestId := 1; pu_pendingRequestId := 0; pu_immediate := false |}.

(** [std::chrono::ceil<std::chrono::milliseconds>] of nanoseconds, in milliseconds. *)
Definition ceil_ms (t : Z) : Z := - ((- t) / nanoseconds_per_millisecond).

Definition PumpControllerImpl_Update (localOutputPending : bool) (deadline : option Z) (now : Z)
    : eff PumpControllerImpl (option PumpSchedule) :=
  let deadline := (fun d => ceil_ms d * nanoseconds_per_millisecond) <$> deadline in
  let* s := eget in
  if negb (pu_pendingRequestId s =? 0)
     && ((localOutputPending && pu_immediate s)
         || (negb localOutputPending && negb (pu_immediate s) && bool_decide (deadline = pu_deadline s)))
  then eret None else
  if negb localOutputPending && negb (bool_decide (is_Some deadline)) && (pu_pendingRequestId s =? 0)
  then eret None else
  if pu_nextRequestId s =? 2 ^ 64 - 1 then ethrow (PumpException "RequestIdExhausted") else
  let requestId := pu_nextRequestId s in
  let delay :=
    if localOutputPending then Some 0
    else (fun d => Z.max 0 (Z.min (ceil_ms (d - now)) MaximumPumpDelay)) <$> deadline in
  emod (fun _ => {| pu_deadline := deadline; pu_nextRequestId := requestId + 1;
                    pu_pendingRequestId := match delay with Some _ => requestId | None => 0 end;
                    pu_immediate := localOutputPending |}) ;;*
  eret (Some {| ps_RequestId := requestId; ps_Delay := delay |}).

Definition PumpControllerImpl_Complete (requestId : Z) (s : PumpControllerImpl) : PumpControllerImpl :=
  if requestId =? pu_pendingRequestId s then {|
    pu_deadline := None; pu_nextRequestId := pu_nextRequestId s; pu_pendingRequestId := 0;
    pu_immediate := false |}
  else s.

Definition PumpControllerImpl_Reset (s : PumpControllerImpl) : PumpControllerImpl := {|
  pu_deadline := None; pu_nextRequestId := pu_nextRequestId s; pu_pendingRequestId := 0;
  pu_immediate := false |}.

(** ** Sequences of calls *)

Inductive server_op :=
  | Op_StartAuthentication (nonce : bytes)
  | Op_EvaluateAuthentication (frame : Frame)
  | Op_CompleteAuthentication (nodeVisible : bool)
  | Op_AcceptInitialNetworkMap (frame : Frame)
  | Op_ProcessFrame (now : Z) (frame : Frame)
  | Op_BuildDerpChallenge (serverKey : bytes)
  | Op_BuildHeartbeat
  | Op_BuildServerPacket (payload : bytes)
  | Op_NextPumpDeadline
  | Op_TakeDuePump (now later : Z).

Definition op_frame (op : server_op) : option Frame :=
  match op with
  | Op_EvaluateAuthentication f | Op_AcceptInitialNetworkMap f | Op_ProcessFrame _ f => Some f
  | _ => None
  end.

Section runs.
  Context `{!NoiseCrypto} `{!JsonText} (lower : Z → Z) (unhex : bytes → option bytes) (hex_lower : bytes → bytes).

(** The frame that a call produces for the client, if any. *)
Definition server_step (op : server_op) : eff ServerSessionImpl (option Frame) :=
  match op with
  | Op_StartAuthentication nonce => let* f := ServerSessionImpl_StartAuthentication hex_lower nonce in eret (Some f)
  | Op_EvaluateAuthentication f => ServerSessionImpl_EvaluateAuthentication unhex f ;;* eret None
  | Op_CompleteAuthentication v => let* f := ServerSessionImpl_CompleteAuthentication hex_lower v in eret (Some f)
  | Op_AcceptInitialNetworkMap f => ServerSessionImpl_AcceptInitialNetworkMap hex_lower f ;;* eret None
  | Op_ProcessFrame now f => ServerSessionImpl_Process lower unhex hex_lower now f ;;* eret None
  | Op_BuildDerpChallenge k => let* p := ServerSessionImpl_BuildDerpChallenge k in eret (Some p.2)
  | Op_BuildHeartbeat => let* f := ServerSessionImpl_BuildHeartbeat in eret (Some f)
  | Op_BuildServerPacket p => let* f := ServerSessionImpl_BuildServerPacket p in eret (Some f)
  | Op_NextPumpDeadline => ServerSessionImpl_NextPumpDeadline ;;* eret None
  | Op_TakeDuePump now later => ServerSessionImpl_TakeDuePump now later
  end.

Fixpoint server_run (ops : list server_op) (s : ServerSessionImpl)
    : list (outcome (option Frame)) * ServerSessionImpl :=
  match ops with
  | [] => ([], s)
  | op :: ops =>
      let '(r, s1) := server_step op s in
      let '(rs, s2) := server_run ops s1 in (r :: rs, s2)
  end.

(** The identity that a client has proved, and the map that fits it. *)
Definition proved (s : ServerSessionImpl) (a : Authentication) : Prop :=
  au_ClientProof a = CreateClientProof (so_RelayPrivateKey (sv_options s)) (au_NodePublicKey a)
                       (sv_serverNonce s) (au_ClientNonce a)
  ∧ au_Tailnet a = so_ExpectedTailnet (sv_options s).

Definition fits_identity (a : Authentication) (m : FullConfig) : Prop :=
  fc_domain m = au_Tailnet a ∧ sf_nodeId (fc_self m) = au_NodeId a
  ∧ sf_key (fc_self m) = Relay_NodeKeyPrefix ++ hex_lower (au_NodePublicKey a).

(** [granted]: [CompleteAuthentication] was told that the node is visible. *)
Definition server_ok (granted : Prop) (s : ServerSessionImpl) : Prop :=
  match sv_state s with
  | Server_Created | Server_ChallengeSent | Server_Rejected => True
  | Server_AuthenticationEvaluated =>
      ∃ a, sv_authentication s = Some a
        ∧ (sv_proofValid s = true → sv_tailnetMatches s = true → proved s a)
  | Server_Authenticated => ∃ a, sv_authentication s = Some a ∧ proved s a ∧ granted
  | Server_Active => ∃ a m, sv_authentication s = Some a ∧ proved s a ∧ granted
      ∧ sv_networkMap s = Some m ∧ fits_identity a m
  end.

Lemma server_ok_mono (P Q : Prop) s : (P → Q) → server_ok P s → server_ok Q s.
Proof. intros HPQ. unfold server_ok. destruct (sv_state s); naive_solver. Qed.

Lemma wp_RequireState expected (Q : outcome unit → ServerSessionImpl → Prop) s :
  (sv_state s = expected → Q (Ok tt) s) → (sv_state s ≠ expected → Q (Throw InvalidState) s) →
  wp (RequireState expected) Q s.
Proof. intros H1 H2. unfold RequireState. wp_auto. case_bool_decide; wp_auto; auto. Qed.

Lemma wp_the_authentication a (Q : outcome Authentication → ServerSessionImpl → Prop) s :
  sv_authentication s = Some a → Q (Ok a) s → wp the_authentication Q s.
Proof. intros Ha HQ. unfold the_authentication. wp_auto. rewrite Ha. by wp_auto. Qed.

Lemma wp_Validate a m (Q : outcome bool → ServerSessionImpl → Prop) s :
  sv_authentication s = Some a → (fits_identity a m → Q (Ok true) s) → Q (Ok false) s →
  wp (ServerSessionImpl_ValidateNetworkMap hex_lower m) Q s.
Proof.
  intros Ha Ht Hf. unfold ServerSessionImpl_ValidateNetworkMap. apply wp_bind, (wp_the_authentication a); [done|].
  cbv zeta. wp_auto. destruct (bool_decide (fc_domain m = au_Tailnet a)) eqn:E1; [|done].
  destruct (sf_nodeId (fc_self m) =? au_NodeId a) eqn:E2; [|done].
  destruct (bool_decide (sf_key (fc_self m) = _)) eqn:E3; [|done]. cbn [andb].
  apply Ht. apply bool_decide_eq_true in E1, E3. apply Z.eqb_eq in E2. done.
Qed.

Context `{!JsonTextLaws}.

Lemma DnsQuery_Name_safe message : bytes_ok message → safe (DnsQuery_Name lower message).
Proof.
  intros Hb. unfold DnsQuery_Name. destruct (Z.ltb_spec (zlen message) DnsHeaderSize) as [|Hge]; [done|].
  unfold DnsHeaderSize in *. safe_step; [safe_auto|]. safe_step; [safe_auto|]. safe_step; [done|].
  apply safe_obind; [|intros [[? ?]|] _; [by destruct (_ || _)|done]].
  assert (∀ fuel offset result, 0 <= offset <= zlen message → zlen message - offset < Z.of_nat fuel →
    safe (DnsQuery_Name_loop fuel message offset result)) as Hloop.
  { intros fuel. induction fuel as [|fuel IH]; intros offset result Ho Hf; [lia|]. cbn [DnsQuery_Name_loop].
    destruct (Z.leb_spec (zlen message) offset); [done|].
    destruct (rd_Ok message offset) as [len Hlen]; [lia|]. rewrite Hlen. cbn [obind].
    apply (bytes_ok_rd _ _ _ Hb) in Hlen as [Hl0 _].
    destruct (Z.eqb_spec len 0); [done|]. cbv zeta. destruct (_ || _) eqn:E; [done|]. b2p.
    rewrite slice_Ok by lia. cbn [obind]. apply IH; lia. }
  apply Hloop; unfold zlen in *; lia.
Qed.

(** A frame of bytes, which holds no number but integers of 64 bits if it is a document. *)
Definition client_frame_ok (f : Frame) : Prop :=
  bytes_ok (fr_payload f)
  ∧ (fr_type f = MessageType_Authenticate ∨ fr_type f = MessageType_NetworkMap → whole_document (fr_payload f)).

(** The branches of [Process] leave the identity alone, and keep a map that fits it. *)
Definition same_identity (s s' : ServerSessionImpl) : Prop :=
  sv_state s' = sv_state s ∧ sv_authentication s' = sv_authentication s ∧ sv_options s' = sv_options s
  ∧ sv_serverNonce s' = sv_serverNonce s
  ∧ (sv_networkMap s' = sv_networkMap s
     ∨ ∃ a m, sv_authentication s = Some a ∧ sv_networkMap s' = Some m ∧ fits_identity a m).

Lemma same_identity_refl s : same_identity s s.
Proof. split_and!; [done..|by left]. Qed.

Lemma same_identity_ok P s s' : sv_state s = Server_Active → same_identity s s' → server_ok P s → server_ok P s'.
Proof.
  intros Hs (Hst & Ha & Ho & Hn & Hm). unfold server_ok. rewrite Hst, Hs.
  intros (a & m & Ea & Hp & Hg & Em & Hf). exists a. rewrite Ha. destruct Hm as [Hm|(a' & m' & Ea' & Hm & Hf')].
  - exists m. rewrite Hm. unfold proved in *. rewrite Ho, Hn. done.
  - exists m'. rewrite Hm. unfold proved in *. rewrite Ho, Hn. rewrite Ea in Ea'. injection Ea' as <-. done.
Qed.

Lemma process_tailnet_query_ok frame m s :
  bytes_ok (fr_payload frame) → sv_networkMap s = Some m →
  wp (process_tailnet_query lower unhex frame) (fun r s' => r ≠ UB ∧ s' = s) s.
Proof.
  intros Hb Hm. unfold process_tailnet_query. wp_auto. rewrite Hm. wp_auto.
  pose proof (safe_Ipv4UdpDatagram_Parse (fr_payload frame)) as Hsafe.
  destruct (Ipv4UdpDatagram_Parse (fr_payload frame)) as [[d|]|e|] eqn:Ed; [| | |done].
  - pose proof (Ipv4UdpDatagram_Parse_payload _ _ Hb Ed) as Hd.
    destruct (Ipv4Address_TryParse (sf_address (fc_self m))); [|by wp_auto].
    destruct (negb _); [by wp_auto|]. wp_auto.
    destruct (TailnetDnsResponse_total lower unhex (tailnet_of m) (fr_payload frame) Hb) as [[reply|] ->]; [|by wp_auto].
    wp_auto. pose proof (DnsQuery_Name_safe _ Hd) as Hn. destruct (DnsQuery_Name lower (udp_payload d)); [by wp_auto|done|done].
  - destruct (Ipv4Address_TryParse _); by wp_auto.
  - done.
Qed.

(** Reading a part of a frame. *)
Lemma wp_decode {A B} (m : outcome A) (k : A → eff ServerSessionImpl B) s :
  safe m → (∀ a, m = Ok a → wp (k a) (fun r s' => r ≠ UB ∧ same_identity s s') s) →
  wp (ebind (elift m) k) (fun r s' => r ≠ UB ∧ same_identity s s') s.
Proof.
  intros Hs Hk. apply wp_bind, wp_lift. destruct m as [a|e|]; [by apply Hk| |done].
  split; [done|apply same_identity_refl].
Qed.

Lemma wp_same {A} (a : A) s : wp (eret a) (fun r s' => r ≠ UB ∧ same_identity s s') s.
Proof. wp_auto. split; [done|apply same_identity_refl]. Qed.

Lemma wp_refused {A} e s : wp (@ethrow _ A e) (fun r s' => r ≠ UB ∧ same_identity s s') s.
Proof. wp_auto. split; [done|apply same_identity_refl]. Qed.

Lemma throwing_safe {A} (decode : bytes → outcome A) b : safe (throwing decode b) → safe (decode b).
Proof. unfold throwing. by destruct (decode b). Qed.

Lemma AcceptPump_ok now schedule s :
  wp (ServerSessionImpl_AcceptPump now schedule) (fun r s' => r ≠ UB ∧ same_identity s s') s.
Proof.
  unfold ServerSessionImpl_AcceptPump. wp_auto. destruct (_ <=? _); [apply wp_same|]. wp_auto.
  split; [done|]. split_and!; try done. by left.
Qed.

Lemma Process_ok P now frame s :
  client_frame_ok frame → server_ok P s →
  wp (ServerSessionImpl_Process lower unhex hex_lower now frame)
    (fun r s' => r ≠ UB ∧ server_ok P s') s.
Proof.
  intros [Hb Hw] Hok. unfold ServerSessionImpl_Process, RequireActive. apply wp_bind, wp_RequireState; intros Hst; [|done].
  pose proof Hok as Hok'. unfold server_ok in Hok'. rewrite Hst in Hok'.
  destruct Hok' as (a & m & Ea & _ & _ & Em & _).
  apply (wp_mono _ (fun r s' => r ≠ UB ∧ same_identity s s'));
    [|intros r s' [Hr Hs]; split; [exact Hr|by eapply same_identity_ok]]. cbv zeta.
  destruct (_ =? MessageType_ClientPacket); [apply wp_same|].
  destruct (_ =? MessageType_PeerEndpoint).
  { apply wp_decode; [by apply throwing_safe, codec_safe|]. intros e _. apply wp_same. }
  destruct (Z.eqb_spec (fr_type frame) MessageType_NetworkMap) as [Ht|_].
  { apply wp_decode; [by apply DecodeNetworkConfig_safe, Hw; right|]. intros next _. apply wp_bind.
    apply (wp_Validate a next); [done| |cbn [negb]; apply wp_refused]. intros Hf. cbn [negb]. wp_auto.
    split; [done|]. split_and!; try done. right. by exists a, next. }
  destruct (_ =? MessageType_Delegation).
  { apply wp_decode; [by apply DecodeDelegationRequest_safe|]. intros [d|] _; [apply wp_same|apply wp_refused]. }
  destruct (_ =? MessageType_TailnetDnsQuery).
  { eapply wp_mono; [by eapply process_tailnet_query_ok|]. intros r s' [? ->]. split; [done|apply same_identity_refl]. }
  destruct (_ =? MessageType_DerpResponse).
  { apply wp_decode; [by apply throwing_safe, codec_safe|]. intros e _. apply wp_same. }
  destruct (_ =? MessageType_Heartbeat); [apply wp_same|].
  destruct (_ =? MessageType_PumpSchedule).
  { destruct (TryDecodePumpSchedule _) as [schedule|]; [|apply wp_refused].
    apply wp_bind. eapply wp_mono; [apply AcceptPump_ok|]. intros [c|e|] s' [? ?]; [by wp_auto|done|done]. }
  destruct (_ =? MessageType_Shutdown); apply wp_same.
Qed.

(** What the sequence so far has granted. *)
Definition granted (ops : list server_op) : Prop := Op_CompleteAuthentication true ∈ ops.

(** The steps of the authentication. *)
Lemma EvaluateAuthentication_ok P f s :
  client_frame_ok f → server_ok P s →
  wp (ServerSessionImpl_EvaluateAuthentication unhex f) (fun r s' => r ≠ UB ∧ server_ok P s') s.
Proof.
  intros [_ Hw] Hok. unfold ServerSessionImpl_EvaluateAuthentication.
  apply wp_bind, wp_RequireState; intros Hst; [|done].
  destruct (Z.eqb_spec (fr_type f) MessageType_Authenticate) as [Ht|]; [|by wp_auto]. cbn [negb]. apply wp_bind, wp_lift.
  pose proof (DecodeAuthentication_safe unhex (fr_payload f) (Hw (or_introl Ht))) as Hs.
  destruct (ProtocolCodec_DecodeAuthentication _ _) as [a|e|]; [|done|done].
  wp_auto. split; [done|]. unfold server_ok. cbn. exists a. split; [done|]. intros Hp Hm.
  unfold ProofMatches in Hp. apply bool_decide_eq_true in Hp, Hm. split; [by rewrite Hp|done].
Qed.

(** A frame with a document. *)
Lemma wp_write {A} P (m : outcome bytes) (k : bytes → A) s :
  safe m → server_ok P s →
  match m with
  | Ok b => wp (eret (k b)) (fun r s' => r ≠ UB ∧ server_ok P s') s
  | Throw e => @Throw A e ≠ UB ∧ server_ok P s
  | UB => @UB A ≠ UB ∧ server_ok P s
  end.
Proof. intros Hm Hok. destruct m; [by wp_auto|done|done]. Qed.

Lemma CompleteAuthentication_ok (P Q : Prop) v s :
  server_ok P s → (P → Q) → (v = true → Q) →
  wp (ServerSessionImpl_CompleteAuthentication hex_lower v) (fun r s' => r ≠ UB ∧ server_ok Q s') s.
Proof.
  intros Hok HPQ HQ. unfold ServerSessionImpl_CompleteAuthentication.
  apply wp_bind, wp_RequireState; intros Hst; [|split; [done|by apply (server_ok_mono P)]].
  wp_auto. unfold server_ok in Hok. rewrite Hst in Hok. destruct Hok as (a & Ea & Hp).
  destruct (negb (sv_proofValid s) || negb (sv_tailnetMatches s) || negb v) eqn:E;
    [wp_auto; apply wp_write; [apply jt_print|by unfold server_ok]|].
  apply orb_false_iff in E as [E Ev%negb_false_iff]. apply orb_false_iff in E as [E1%negb_false_iff E2%negb_false_iff].
  wp_auto. apply wp_bind, (wp_the_authentication a); [done|]. wp_auto. apply wp_write; [apply jt_print|].
  unfold server_ok. cbn. exists a. split; [done|]. split; [by apply Hp|by apply HQ].
Qed.

Lemma AcceptInitialNetworkMap_ok P f s :
  client_frame_ok f → server_ok P s →
  wp (ServerSessionImpl_AcceptInitialNetworkMap hex_lower f) (fun r s' => r ≠ UB ∧ server_ok P s') s.
Proof.
  intros [_ Hw] Hok. unfold ServerSessionImpl_AcceptInitialNetworkMap.
  apply wp_bind, wp_RequireState; intros Hst; [|done].
  destruct (Z.eqb_spec (fr_type f) MessageType_NetworkMap) as [Ht|]; [|by wp_auto]. cbn [negb]. apply wp_bind, wp_lift.
  pose proof (DecodeNetworkConfig_safe (fr_payload f) (Hw (or_intror Ht))) as Hs.
  destruct (ProtocolCodec_DecodeNetworkConfig _) as [m|e|]; [|done|done].
  pose proof Hok as Hok'. unfold server_ok in Hok'. rewrite Hst in Hok'. destruct Hok' as (a & Ea & Hp & Hg).
  apply wp_bind, (wp_Validate a m); [done| |cbn [negb]; by wp_auto].
  intros Hf. cbn [negb]. wp_auto. split; [done|]. unfold server_ok. cbn. by exists a, m.
Qed.

Lemma TakeDuePump_ok P now later s :
  server_ok P s → wp (ServerSessionImpl_TakeDuePump now later) (fun r s' => r ≠ UB ∧ server_ok P s') s.
Proof.
  intros Hok. unfold ServerSessionImpl_TakeDuePump, RequireActive. apply wp_bind, wp_RequireState; intros Hst; [|done].
  wp_auto. destruct (sv_pumpDeadline s) as [d|]; [|by wp_auto]. destruct (now <? d); [by wp_auto|].
  assert (server_ok P (sv_set_pump None (Some later) (sv_pumpRequestId s) s)) as Hs'.
  { eapply same_identity_ok; [exact Hst| |exact Hok]. split_and!; try done. by left. }
  wp_auto. unfold EncodePumpReply. destruct (_ =? 0); [done|by wp_auto].
Qed.

Lemma BuildDerpChallenge_ok P k s :
  server_ok P s → wp (ServerSessionImpl_BuildDerpChallenge k) (fun r s' => r ≠ UB ∧ server_ok P s') s.
Proof.
  intros Hok. unfold ServerSessionImpl_BuildDerpChallenge, RequireActive. apply wp_bind, wp_RequireState; intros Hst; [|done].
  wp_auto. split; [done|]. eapply same_identity_ok; [exact Hst| |exact Hok]. split_and!; try done. by left.
Qed.

(** A call that only needs the session to be active. *)
Lemma when_active_ok {A} P (k : eff ServerSessionImpl A) s :
  server_ok P s → wp k (fun r s' => r ≠ UB ∧ s' = s) s →
  wp (RequireActive ;;* k) (fun r s' => r ≠ UB ∧ server_ok P s') s.
Proof.
  intros Hok Hk. unfold RequireActive. apply wp_bind, wp_RequireState; intros Hst; [|done].
  eapply wp_mono; [exact Hk|]. by intros r s' [? ->].
Qed.

Lemma server_step_ok op ops s :
  (∀ f, op_frame op = Some f → client_frame_ok f) → server_ok (granted ops) s →
  wp (server_step op) (fun r s' => r ≠ UB ∧ server_ok (granted (ops ++ [op])) s') s.
Proof.
  intros Hb Hok.
  assert (granted ops → granted (ops ++ [op])) as Hg by (unfold granted; set_solver).
  assert (server_ok (granted (ops ++ [op])) s) as Hok1 by (by apply (server_ok_mono (granted ops))).
  assert (∀ A (m : eff ServerSessionImpl A) (k : A → option Frame) Q,
    wp m (fun r s' => r ≠ UB ∧ server_ok Q s') s →
    wp (let* a := m in eret (k a)) (fun r s' => r ≠ UB ∧ server_ok Q s') s) as Hret.
  { intros A m k Q Hm. apply wp_bind. eapply wp_mono; [exact Hm|]. intros [a|e|] s' [? ?]; [by wp_auto|done|done]. }
  destruct op as [nonce|f|v|f|now f|k| |p| |now later]; cbn [server_step]; try apply Hret.
  - unfold ServerSessionImpl_StartAuthentication. apply wp_bind, wp_RequireState; intros Hst; [|done].
    wp_auto. apply wp_write; [apply jt_print|by unfold server_ok].
  - apply EvaluateAuthentication_ok; [by apply Hb|done].
  - eapply CompleteAuthentication_ok; [exact Hok|done|]. intros ->. unfold granted. set_solver.
  - apply AcceptInitialNetworkMap_ok; [by apply Hb|done].
  - apply Process_ok; [by apply Hb|done].
  - by apply BuildDerpChallenge_ok.
  - by apply when_active_ok; [|wp_auto].
  - by apply when_active_ok; [|wp_auto].
  - by apply when_active_ok; [|wp_auto].
  - by apply TakeDuePump_ok.
Qed.

Lemma server_run_ok ops done_ s :
  Forall (fun op => ∀ f, op_frame op = Some f → client_frame_ok f) ops → server_ok (granted done_) s →
  let '(rs, s') := server_run ops s in
  Forall (fun r => r ≠ UB) rs ∧ server_ok (granted (done_ ++ ops)) s'.
Proof.
  intros Hb. revert done_ s. induction Hb as [|op ops Hop _ IH]; intros done_ s Hok; cbn [server_run].
  - by rewrite app_nil_r.
  - pose proof (server_step_ok op done_ s Hop Hok) as Hstep. unfold wp in Hstep.
    destruct (server_step op s) as [r s1]. destruct Hstep as [Hr Hok1]. specialize (IH (done_ ++ [op]) s1 Hok1).
    destruct (server_run ops s1) as [rs s2]. rewrite <- app_assoc in IH. destruct IH. split; [by constructor|done].
Qed.

(** C5: only a client that proved its identity is served.  Whatever calls are made and whatever
    frames of bytes arrive, none of them has undefined behaviour unless a document holds a number
    that is no integer of 64 bits; and a session is active only if the client
    showed the proof that only the holder of its node key and the relay can make of the nonces, for
    the tailnet that is expected, its node was found visible, and its network map is that of the
    node and the tailnet that it proved.  Before that a frame is refused and changes nothing. *)
Theorem ServerSession_serves_proved options ops :
  Forall (fun op => ∀ f, op_frame op = Some f → client_frame_ok f) ops →
  let '(rs, s) := server_run ops (ServerSessionImpl_new options) in
  Forall (fun r => r ≠ UB) rs
  ∧ (sv_state s = Server_Active → Op_CompleteAuthentication true ∈ ops ∧
     ∃ a m, sv_authentication s = Some a ∧ proved s a ∧ sv_networkMap s = Some m ∧ fits_identity a m)
  ∧ (sv_state s ≠ Server_Active → ∀ now frame,
     ServerSessionImpl_Process lower unhex hex_lower now frame s = (Throw InvalidState, s)).
Proof.
  intros Hb. pose proof (server_run_ok ops [] (ServerSessionImpl_new options) Hb) as Hrun.
  destruct (server_run ops _) as [rs s]. destruct Hrun as [Hrs Hok]; [done|]. split; [done|]. split.
  - intros Hst. unfold server_ok in Hok. rewrite Hst in Hok. destruct Hok as (a & m & Ha & Hp & Hg & Hm & Hf).
    split; [done|]. by exists a, m.
  - intros Hst now frame. unfold ServerSessionImpl_Process, RequireActive, RequireState, ebind at 1, ebind at 1, eget.
    by rewrite bool_decide_false.
Qed.

(** C40: a client that has proved nothing can make the relay run into undefined behaviour.  An
    authentication whose node id is a JSON number with an exponent or a fraction and whose integral
    part is outside 64 bits is converted as it is, before any proof is looked at; the conversion of
    such a number to std::uint64_t is undefined. *)
Theorem Authentication_number_undefined frame v tailnet n s :
  sv_state s = Server_ChallengeSent → fr_type frame = MessageType_Authenticate →
  fr_payload frame ≠ [] → json_parse (fr_payload frame) = Ok v →
  json_find (lit "Tailnet") v = Some (JString tailnet) → json_find (lit "NodeId") v = Some (JFloat n) →
  (n < 0 ∨ 2 ^ 64 <= n) →
  (ServerSessionImpl_EvaluateAuthentication unhex frame s).1 = UB.
Proof.
  intros Hst Ht Hne Hp Htail Hid Hn. unfold ServerSessionImpl_EvaluateAuthentication, RequireState, ebind at 1, ebind at 1, eget.
  rewrite bool_decide_true, Ht by done. cbn [eret negb Z.eqb Pos.eqb MessageType_Authenticate].
  unfold ProtocolCodec_DecodeAuthentication, ParseJson. rewrite bool_decide_false, Hp by done. cbn [obind].
  destruct v as [| | | | | |l]; try done. unfold text_at, json_at. cbn [json_find] in Htail, Hid. rewrite Htail, Hid.
  unfold ebind, elift. cbn [obind get_string get_uint64 get_integer].
  by destruct (Z.leb_spec 0 n), (Z.ltb_spec n (2 ^ 64)); cbn [andb]; try lia.
Qed.

(** ** The pump *)

(** The clock readings of the calls of [TakeDuePump] that gave a reply. *)
Fixpoint pump_takes (ops : list server_op) (s : ServerSessionImpl) : list (Z * Z) :=
  match ops with
  | [] => []
  | op :: ops =>
      let '(r, s1) := server_step op s in
      match op, r with
      | Op_TakeDuePump now later, Ok (Some _) => [(now, later)]
      | _, _ => []
      end ++ pump_takes ops s1
  end.

Fixpoint spaced (last : option Z) (takes : list (Z * Z)) : Prop :=
  match takes with
  | [] => True
  | (now, later) :: rest =>
      (∀ l, last = Some l → l + MinimumPumpInterval <= now) ∧ spaced (Some later) rest
  end.

Record pump_ok (s : ServerSessionImpl) : Prop := {
  pk_spaced : ∀ d l, sv_pumpDeadline s = Some d → sv_lastPump s = Some l → l + MinimumPumpInterval <= d;
  pk_id : 0 <= sv_pumpRequestId s;
  pk_pending : is_Some (sv_pumpDeadline s) → sv_pumpRequestId s ≠ 0
}.

Definition same_pump (s s' : ServerSessionImpl) : Prop :=
  sv_pumpDeadline s' = sv_pumpDeadline s ∧ sv_lastPump s' = sv_lastPump s ∧ sv_pumpRequestId s' = sv_pumpRequestId s.

Lemma same_pump_ok s s' : same_pump s s' → pump_ok s → pump_ok s'.
Proof. intros (Hd & Hl & Hr) [H2 H3 H4]. split; rewrite ?Hd, ?Hl, ?Hr; done. Qed.

Lemma AcceptPump_pump now schedule s :
  0 < ps_RequestId schedule → pump_ok s →
  wp (ServerSessionImpl_AcceptPump now schedule)
    (fun r s' => pump_ok s' ∧ sv_lastPump s' = sv_lastPump s) s.
Proof.
  intros Hid Hok. unfold ServerSessionImpl_AcceptPump. wp_auto. destruct (Z.leb_spec (ps_RequestId schedule) (sv_pumpRequestId s)); [by wp_auto|].
  wp_auto. split; [|done]. destruct Hok as [_ Hp _]. split; cbn; [|lia|lia].
  intros d l Hd Hl. rewrite Hl in Hd. destruct (ps_Delay schedule) as [delay|]; cbn in Hd; [|done].
  destruct (Z.ltb_spec (now + delay * nanoseconds_per_millisecond) (l + MinimumPumpInterval)); injection Hd as <-; lia.
Qed.

Ltac keeps_pump :=
  unfold wp, ebind, elift, eget, emod, eret, ethrow; repeat case_match; simplify_eq; try done.

Lemma Validate_keeps m s :
  (ServerSessionImpl_ValidateNetworkMap hex_lower m s).2 = s.
Proof.
  unfold ServerSessionImpl_ValidateNetworkMap, the_authentication, ebind, eget, elift, eret.
  by destruct (sv_authentication s).
Qed.

Lemma TryDecodePumpSchedule_id b schedule :
  bytes_ok b → TryDecodePumpSchedule b = Some schedule → 0 < ps_RequestId schedule.
Proof.
  intros Hb Hs. unfold TryDecodePumpSchedule in Hs. destruct (negb _); [done|]. cbv zeta in Hs.
  destruct (Z.eqb_spec (DecodeInteger (take 8 b)) 0) as [|Hne]; [done|]. cbn [orb] in Hs.
  destruct (_ && _); [done|]. injection Hs as <-. cbn [ps_RequestId].
  assert (0 <= DecodeInteger (take 8 b)); [|lia]. unfold DecodeInteger.
  assert (∀ l v, bytes_ok l → 0 <= v →
    0 <= fold_left (fun value byte => Z.lor (u64 (Z.shiftl value 8)) byte) l v) as Hf.
  { intros l. induction l as [|x l IH]; intros v Hl Hv; [done|]. apply Forall_cons in Hl as [Hx Hl]. cbn [fold_left].
    apply IH; [done|]. apply Z.lor_nonneg. split; [by apply wrap_range|apply Hx]. }
  apply Hf; [by apply Forall_take|done].
Qed.

Lemma Process_pump now frame s :
  bytes_ok (fr_payload frame) → pump_ok s →
  wp (ServerSessionImpl_Process lower unhex hex_lower now frame)
    (fun r s' => pump_ok s' ∧ sv_lastPump s' = sv_lastPump s) s.
Proof.
  intros Hb Hok. unfold ServerSessionImpl_Process, RequireActive. apply wp_bind, wp_RequireState; intros Hst; [|done].
  cbv zeta. destruct (_ =? MessageType_ClientPacket); [by wp_auto|].
  destruct (_ =? MessageType_PeerEndpoint); [wp_auto; by destruct (ProtocolCodec_DecodePeerEndpoint _)|].
  destruct (_ =? MessageType_NetworkMap).
  { wp_auto. destruct (ProtocolCodec_DecodeNetworkConfig _) as [m|e|]; [|done|done].
    apply wp_bind. pose proof (Validate_keeps m s) as Hv. unfold wp.
    destruct (ServerSessionImpl_ValidateNetworkMap hex_lower m s) as [[[]|e|] s']; cbn [snd fst] in *; subst s'; try done.
    split; [|done]. by apply (same_pump_ok s). }
  destruct (_ =? MessageType_Delegation); [wp_auto; by destruct (DecodeDelegationRequest _) as [[d|]|e|]|].
  destruct (_ =? MessageType_TailnetDnsQuery).
  { unfold process_tailnet_query. keeps_pump. }
  destruct (_ =? MessageType_DerpResponse); [wp_auto; by destruct (ProtocolCodec_DecodeDerpResponse _)|].
  destruct (_ =? MessageType_Heartbeat); [by wp_auto|].
  destruct (_ =? MessageType_PumpSchedule); [|by destruct (_ =? MessageType_Shutdown); wp_auto].
  destruct (TryDecodePumpSchedule _) as [schedule|] eqn:Es; [|by wp_auto].
  apply wp_bind. eapply wp_mono; [apply AcceptPump_pump; [by apply (TryDecodePumpSchedule_id _ _ Hb Es)|done]|].
  intros [c|e|] s' [? ?]; [by wp_auto|done|done].
Qed.

Lemma server_step_pump op s :
  (∀ f, op_frame op = Some f → bytes_ok (fr_payload f)) → pump_ok s →
  wp (server_step op) (fun r s' => pump_ok s'
    ∧ match op, r with
      | Op_TakeDuePump now later, Ok (Some _) =>
          (∀ l, sv_lastPump s = Some l → l + MinimumPumpInterval <= now) ∧ sv_lastPump s' = Some later
      | _, _ => sv_lastPump s' = sv_lastPump s
      end) s.
Proof.
  intros Hb Hok.
  assert (∀ A (m : eff ServerSessionImpl A) (k : A → option Frame),
    wp m (fun _ s' => pump_ok s' ∧ sv_lastPump s' = sv_lastPump s) s →
    wp (let* a := m in eret (k a)) (fun _ s' => pump_ok s' ∧ sv_lastPump s' = sv_lastPump s) s) as Hret.
  { intros A m k Hm. apply wp_bind. eapply wp_mono; [exact Hm|]. intros [a|e|] s' [? ?]; [by wp_auto|done|done]. }
  assert (∀ s', same_pump s s' → pump_ok s' ∧ sv_lastPump s' = sv_lastPump s) as Hsame.
  { intros s' Hs. split; [by apply (same_pump_ok s)|apply Hs]. }
  destruct op as [nonce|f|v|f|now f|k| |p| |now later]; cbn [server_step]; try apply Hret.
  - unfold ServerSessionImpl_StartAuthentication. apply wp_bind, wp_RequireState; intros _; [|done]. wp_auto.
    destruct (ProtocolCodec_EncodeChallenge _ _); wp_auto; by apply Hsame.
  - unfold ServerSessionImpl_EvaluateAuthentication. apply wp_bind, wp_RequireState; intros _; [|done].
    destruct (negb _); [by wp_auto|]. wp_auto. destruct (ProtocolCodec_DecodeAuthentication _ _); [|done|done].
    wp_auto. by apply Hsame.
  - unfold ServerSessionImpl_CompleteAuthentication. apply wp_bind, wp_RequireState; intros _; [|done]. wp_auto.
    destruct (_ || _); wp_auto; [destruct (ProtocolCodec_EncodeRejection _); wp_auto; by apply Hsame|].
    unfold wp, the_authentication, ebind, eget, elift, eret. cbn.
    destruct (sv_authentication s); [destruct (ProtocolCodec_EncodeSession _ _)|];
      by apply (Hsame (sv_set_state Server_Authenticated s)).
  - unfold ServerSessionImpl_AcceptInitialNetworkMap. apply wp_bind, wp_RequireState; intros _; [|done].
    destruct (negb _); [by wp_auto|]. wp_auto. destruct (ProtocolCodec_DecodeNetworkConfig _) as [m|e|]; [|done|done].
    apply wp_bind. pose proof (Validate_keeps m s) as Hv. unfold wp.
    destruct (ServerSessionImpl_ValidateNetworkMap hex_lower m s) as [[[]|e|] s']; cbn [snd fst] in *; subst s'; try done.
    by apply Hsame.
  - apply Process_pump; [by apply Hb|done].
  - unfold ServerSessionImpl_BuildDerpChallenge, RequireActive. apply wp_bind, wp_RequireState; intros _; [|done].
    wp_auto. by apply Hsame.
  - by unfold ServerSessionImpl_BuildHeartbeat, RequireActive; apply wp_bind, wp_RequireState; intros _; [wp_auto|].
  - by unfold ServerSessionImpl_BuildServerPacket, RequireActive; apply wp_bind, wp_RequireState; intros _; [wp_auto|].
  - by unfold ServerSessionImpl_NextPumpDeadline, RequireActive; apply wp_bind, wp_RequireState; intros _; [wp_auto|].
  - unfold ServerSessionImpl_TakeDuePump, RequireActive. apply wp_bind, wp_RequireState; intros _; [|done]. wp_auto.
    destruct (sv_pumpDeadline s) as [d|] eqn:Ed; [|by wp_auto]. destruct (Z.ltb_spec now d); [by wp_auto|].
    destruct Hok as [Hs Hi Hp]. unfold EncodePumpReply.
    destruct (Z.eqb_spec (sv_pumpRequestId s) 0) as [E|_]; [by destruct (Hp ltac:(by rewrite Ed))|].
    wp_auto. split; [by split; cbn; [| |intros [? ?]]|]. split; [|done].
    intros l El. specialize (Hs d l Ed El). lia.
Qed.

Lemma pump_takes_spaced ops s :
  Forall (fun op => ∀ f, op_frame op = Some f → bytes_ok (fr_payload f)) ops → pump_ok s →
  spaced (sv_lastPump s) (pump_takes ops s).
Proof.
  intros Hb. revert s. induction Hb as [|op ops Hop _ IH]; intros s Hok; cbn [pump_takes]; [done|].
  pose proof (server_step_pump op s Hop Hok) as Hstep. unfold wp in Hstep.
  destruct (server_step op s) as [r s1]. destruct Hstep as [Hok1 Hm]. specialize (IH s1 Hok1).
  destruct op; cbn [app] in *; try (by rewrite <- Hm).
  destruct r as [[f|]|e|]; cbn [app] in *; try (by rewrite <- Hm).
  destruct Hm as [Hl Hs1]. cbn [spaced]. split; [done|]. by rewrite <- Hs1.
Qed.

(** The relay never wakes a client faster than the minimum interval.  Whatever schedules a
    client asks for and whenever the session is asked for a due pump, between the clock reading
    that was recorded for one pump reply and the reading at which the next is due there are at
    least the five milliseconds of MinimumPumpInterval. *)
Theorem ServerSession_pump_spaced options ops :
  Forall (fun op => ∀ f, op_frame op = Some f → bytes_ok (fr_payload f)) ops →
  spaced None (pump_takes ops (ServerSessionImpl_new options)).
Proof. intros Hb. apply (pump_takes_spaced ops (ServerSessionImpl_new options) Hb). by split; cbn; [| |intros [? ?]]. Qed.

End runs.

(** ** Both sides of the authentication *)

(** What a client must be to be let in: its keys belong together, its fields are in the limits and
    its texts are UTF-8. *)
Record honest_client `{!NoiseCrypto} `{!JsonText} (id : ConnectionIdentity) : Prop := {
  hc_keys : cn_NodePublicKey id = X25519PublicFromPrivate (cn_NodePrivateKey id);
  hc_public : bytes32 (cn_NodePublicKey id);
  hc_domain : cn_Domain id ≠ [];
  hc_node : 0 < cn_SelfNodeId id < 2 ^ 64;
  hc_hostname : cn_Hostname id ≠ [] ∧ zlen (cn_Hostname id) <= MaximumHostnameSize;
  hc_system : zlen (cn_OperatingSystem id) <= MaximumOperatingSystemSize;
  hc_version : zlen (cn_OperatingSystemVersion id) <= MaximumOperatingSystemVersionSize;
  hc_texts : Forall json_utf8 [cn_Domain id; cn_Hostname id; cn_OperatingSystem id; cn_OperatingSystemVersion id]
}.

Record honest_relay `{!NoiseCrypto} `{!JsonText} (options : ServerSessionOptions) : Prop := {
  hr_relay_keys : so_RelayPublicKey options = X25519PublicFromPrivate (so_RelayPrivateKey options);
  hr_relay_public : bytes32 (so_RelayPublicKey options);
  hr_texts : json_utf8 (so_RelayHostName options) ∧ json_utf8 (so_RelayHostAddress options)
}.

Section mutual.
  Context `{!NoiseCrypto} `{!NoiseCryptoLaws} `{!JsonText} `{!JsonTextLaws}.
  Context (unhex : bytes → option bytes) (hex_lower : bytes → bytes) (Hhex : hex_laws unhex hex_lower).

Lemma CreateProof_symmetric context a b sn cn p :
  CreateProof context a (X25519PublicFromPrivate b) sn cn p = CreateProof context b (X25519PublicFromPrivate a) sn cn p.
Proof. unfold CreateProof, X25519Shared, X25519PublicFromPrivate. by rewrite nc_dh. Qed.

Lemma CreateProof_bytes32 context a b sn cn p : bytes32 (CreateProof context a b sn cn p).
Proof. split; [apply nc_blake2s_size|apply nc_blake2s_bytes]. Qed.

Lemma honest_authentication id clientNonce proof :
  honest_client id → bytes32 clientNonce → bytes32 proof →
  authentication_ok {| au_Tailnet := cn_Domain id; au_NodeId := cn_SelfNodeId id; au_Hostname := cn_Hostname id;
    au_OperatingSystem := cn_OperatingSystem id; au_OperatingSystemVersion := cn_OperatingSystemVersion id;
    au_NodePublicKey := cn_NodePublicKey id; au_ClientNonce := clientNonce; au_ClientProof := proof |}.
Proof. intros [_ Hk Hd Hn Hh Hs Hv Hx] Hc Hp. by split. Qed.

Lemma EvaluateAuthentication_eq f a s :
  sv_state s = Server_ChallengeSent → fr_type f = MessageType_Authenticate →
  ProtocolCodec_DecodeAuthentication unhex (fr_payload f) = Ok a →
  let valid := ProofMatches (CreateClientProof (so_RelayPrivateKey (sv_options s)) (au_NodePublicKey a)
                               (sv_serverNonce s) (au_ClientNonce a)) (au_ClientProof a) in
  let matches := bool_decide (au_Tailnet a = so_ExpectedTailnet (sv_options s)) in
  ServerSessionImpl_EvaluateAuthentication unhex f s
  = (Ok {| ar_Identity := a; ar_ProofValid := valid; ar_TailnetMatches := matches |},
     sv_set_auth Server_AuthenticationEvaluated (sv_serverNonce s) (Some a) valid matches s).
Proof.
  intros Hst Ht Hd. unfold ServerSessionImpl_EvaluateAuthentication, RequireState, ebind, eget.
  rewrite bool_decide_true, Ht by done. cbn. by rewrite Hd.
Qed.

Lemma Accept_rejected id challenge a payload :
  ProtocolCodec_DecodeRejection payload = Ok RejectionReason →
  Connection_Accept unhex id challenge a {| fr_type := MessageType_Rejected; fr_payload := payload |}
  = Throw (RuntimeError "Tailgate server rejected authentication.").
Proof. intros Hp. unfold Connection_Accept. cbn [fr_type fr_payload]. by rewrite Hp. Qed.

Lemma Accept_session id challenge a session payload :
  ProtocolCodec_DecodeSession unhex payload = Ok session → hs_Tailnet session = cn_Domain id →
  hs_ServerProof session = CreateServerProof (cn_NodePrivateKey id) (ch_RelayPublicKey challenge)
                             (ch_ServerNonce challenge) (au_ClientNonce a) →
  Connection_Accept unhex id challenge a {| fr_type := MessageType_Authenticated; fr_payload := payload |}
  = Ok session.
Proof.
  intros Hd Ht Hp. unfold Connection_Accept. cbn [fr_type fr_payload].
  cbn [Z.eqb MessageType_Authenticated MessageType_Rejected Pos.eqb negb]. rewrite Hd. cbn [obind].
  rewrite Ht, bool_decide_true by done. cbn [negb orb]. unfold ProofMatches. by rewrite bool_decide_true.
Qed.

(** The relay's answer once the authentication was evaluated. *)
Lemma CompleteAuthentication_answer visible a options id challenge s :
  sv_state s = Server_AuthenticationEvaluated → sv_authentication s = Some a → sv_proofValid s = true →
  sv_options s = options → honest_relay options → honest_client id → au_Tailnet a = cn_Domain id →
  CreateServerProof (so_RelayPrivateKey options) (au_NodePublicKey a) (sv_serverNonce s) (au_ClientNonce a)
  = CreateServerProof (cn_NodePrivateKey id) (ch_RelayPublicKey challenge) (ch_ServerNonce challenge) (au_ClientNonce a) →
  ∃ response s', ServerSessionImpl_CompleteAuthentication hex_lower visible s = (Ok response, s')
  ∧ if sv_tailnetMatches s && visible then
      sv_state s' = Server_Authenticated ∧
      ∃ session, Connection_Accept unhex id challenge a response = Ok session
        ∧ hs_RelayHostName session = so_RelayHostName options
        ∧ hs_RelayHostAddress session = so_RelayHostAddress options
    else sv_state s' = Server_Rejected
      ∧ Connection_Accept unhex id challenge a response
        = Throw (RuntimeError "Tailgate server rejected authentication.").
Proof.
  intros Hst Ha Hv <- [_ _ [Hx1 Hx2]] Hc Ht Hp.
  unfold ServerSessionImpl_CompleteAuthentication, RequireState, the_authentication, ebind, eget, emod, eret, elift.
  rewrite bool_decide_true, Hv by done. cbn [negb orb].
  destruct (Rejection_read RejectionReason) as (rb & Hre & _ & Hrd); [done|by apply literal_utf8|].
  destruct (sv_tailnetMatches s), visible; cbn [negb orb andb]; rewrite ?Hre;
    try (by do 2 eexists; split; [reflexivity|split; [reflexivity|by apply Accept_rejected]]).
  cbn [sv_authentication sv_set_state sv_set_auth]. rewrite Ha. destruct Hc as [_ _ Hdom _ _ _ _ Htexts]. apply Forall_cons in Htexts as [Hxd _].
  edestruct (Session_read unhex hex_lower Hhex {| hs_Tailnet := au_Tailnet a; hs_RelayHostName := so_RelayHostName (sv_options s);
    hs_RelayHostAddress := so_RelayHostAddress (sv_options s); hs_ServerProof :=
    CreateServerProof (so_RelayPrivateKey (sv_options s)) (au_NodePublicKey a) (sv_serverNonce s) (au_ClientNonce a) |})
    as (sb & Hse & _ & Hsd); cbn [hs_Tailnet hs_RelayHostName hs_RelayHostAddress hs_ServerProof];
    [by rewrite Ht|rewrite Ht; by repeat constructor|apply CreateProof_bytes32|].
  rewrite Hse. do 2 eexists. split; [reflexivity|split; [reflexivity|]]. eexists.
  split; [by apply (Accept_session _ _ _ _ _ Hsd)|done].
Qed.

(** C11: the exchange of proofs admits an honest client and nobody else's tailnet.  The client
    answers the challenge of the relay; the relay finds the proof valid; and if the node is
    visible and the tailnet is the expected one, the relay is authenticated and its answer carries
    a proof that the client accepts, and otherwise the relay rejects and the client throws. *)
Theorem Authentication_mutual options id serverNonce clientNonce visible :
  honest_relay options → honest_client id → bytes32 serverNonce → bytes32 clientNonce →
  ∃ challengeFrame s1 challenge a authFrame s2,
    ServerSessionImpl_StartAuthentication hex_lower serverNonce (ServerSessionImpl_new options) = (Ok challengeFrame, s1)
    ∧ Connection_Authenticate unhex hex_lower id clientNonce challengeFrame = Ok (challenge, a, authFrame)
    ∧ ServerSessionImpl_EvaluateAuthentication unhex authFrame s1
      = (Ok {| ar_Identity := a; ar_ProofValid := true;
               ar_TailnetMatches := bool_decide (cn_Domain id = so_ExpectedTailnet options) |}, s2)
    ∧ ∃ response s3, ServerSessionImpl_CompleteAuthentication hex_lower visible s2 = (Ok response, s3)
    ∧ if bool_decide (cn_Domain id = so_ExpectedTailnet options) && visible then
        sv_state s3 = Server_Authenticated ∧
        ∃ session, Connection_Accept unhex id challenge a response = Ok session
          ∧ hs_RelayHostName session = so_RelayHostName options
          ∧ hs_RelayHostAddress session = so_RelayHostAddress options
      else sv_state s3 = Server_Rejected
        ∧ Connection_Accept unhex id challenge a response
          = Throw (RuntimeError "Tailgate server rejected authentication.").
Proof.
  intros Hr Hc Hsn Hcn. pose proof Hr as [Hrk Hrp _]. pose proof (hc_keys _ Hc) as Hck.
  destruct (Challenge_read unhex hex_lower Hhex {| ch_RelayPublicKey := so_RelayPublicKey options; ch_ServerNonce := serverNonce |}
    Hrp Hsn) as (cb & Hce & _ & Hcd).
  destruct (Authentication_read unhex hex_lower Hhex _ (honest_authentication id clientNonce
    (CreateClientProof (cn_NodePrivateKey id) (so_RelayPublicKey options) serverNonce clientNonce) Hc Hcn
    ltac:(apply CreateProof_bytes32))) as (ab & Hae & _ & Had).
  do 6 eexists. split.
  { unfold ServerSessionImpl_StartAuthentication, RequireState, ebind, eget, emod, eret, elift.
    rewrite bool_decide_true by done. cbn [sv_options sv_serverNonce sv_set_auth ServerSessionImpl_new].
    rewrite Hce. reflexivity. }
  split.
  { unfold Connection_Authenticate. cbn [fr_type fr_payload Z.eqb Pos.eqb MessageType_ServerChallenge negb].
    rewrite Hcd. cbn [obind ch_RelayPublicKey ch_ServerNonce]. rewrite Hae. reflexivity. }
  erewrite EvaluateAuthentication_eq; [|reflexivity|reflexivity|exact Had].
  cbn [au_Tailnet au_ClientProof au_ClientNonce au_NodePublicKey sv_options sv_serverNonce sv_set_auth ServerSessionImpl_new].
  unfold ProofMatches. rewrite (bool_decide_true (CreateClientProof _ _ _ _ = _))
    by (rewrite Hck, Hrk; apply CreateProof_symmetric).
  split; [reflexivity|].
  apply (CompleteAuthentication_answer visible _ options id {| ch_RelayPublicKey := so_RelayPublicKey options; ch_ServerNonce := serverNonce |});
    try done. cbn. rewrite Hck, Hrk. apply CreateProof_symmetric.
Qed.

End mutual.

(** ** The controller and the session *)

Inductive controller_op :=
  | Ctl_Update (localOutputPending : bool) (deadline : option Z) (now : Z)
  | Ctl_Complete (requestId : Z)
  | Ctl_Reset.

(** What an update asks for: to be pumped at once, or at a time in whole milliseconds, or
    not at all. *)
Definition pump_wish (localOutputPending : bool) (deadline : option Z) : option (option Z) :=
  if localOutputPending then Some None else (fun d => Some (ceil_ms d)) <$> deadline.

(** The delay, in milliseconds, that says so at [now]: it ends not before the deadline, and
    less than two milliseconds after it, and is at most a minute. *)
Definition delay_for (localOutputPending : bool) (deadline : option Z) (now : Z) (delay : option Z) : Prop :=
  match localOutputPending, deadline with
  | true, _ => delay = Some 0
  | false, None => delay = None
  | false, Some d =>
      ∃ ms, delay = Some ms ∧ 0 <= ms <= 60000
        ∧ (ms < 60000 → d <= now + ms * nanoseconds_per_millisecond)
        ∧ (0 < ms → now + ms * nanoseconds_per_millisecond < d + 2 * nanoseconds_per_millisecond)
  end.

(** The controller keeps the request that stands: its identifier and what it asks for. *)
Record controller_keeps (standing : option (Z * option Z)) (c : PumpControllerImpl) : Prop := {
  ck_next : 0 < pu_nextRequestId c;
  ck_standing :
    match standing with
    | None => pu_pendingRequestId c = 0
    | Some (id, wish) =>
        pu_pendingRequestId c = id ∧ 0 < id
        ∧ pu_immediate c = bool_decide (wish = None)
        ∧ ∀ t, wish = Some t → pu_deadline c = Some (t * nanoseconds_per_millisecond)
    end
}.

(** What is left standing when a request completes. *)
Definition standing_after (requestId : Z) (standing : option (Z * option Z)) : option (Z * option Z) :=
  match standing with
  | Some (id, _) => if requestId =? id then None else standing
  | None => None
  end.

Lemma Complete_keeps requestId standing c :
  controller_keeps standing c →
  controller_keeps (standing_after requestId standing) (PumpControllerImpl_Complete requestId c)
  ∧ pu_nextRequestId (PumpControllerImpl_Complete requestId c) = pu_nextRequestId c.
Proof.
  intros [Hn Hs]. unfold PumpControllerImpl_Complete, standing_after.
  destruct standing as [[id wish]|]; [destruct Hs as (<- & Hs)|]; destruct (_ =? _);
    (split; [split|]; cbn; done).
Qed.

Lemma ceil_ms_range t :
  t <= ceil_ms t * nanoseconds_per_millisecond < t + nanoseconds_per_millisecond.
Proof. unfold ceil_ms, nanoseconds_per_millisecond. Z.to_euclidean_division_equations. lia. Qed.

Lemma clamp_delay now d :
  delay_for false (Some d) now
    (Some (Z.max 0 (Z.min (ceil_ms (ceil_ms d * nanoseconds_per_millisecond - now)) MaximumPumpDelay))).
Proof.
  cbn [delay_for]. eexists. split; [done|]. pose proof (ceil_ms_range d) as Hd.
  set (d' := ceil_ms d * _) in *. pose proof (ceil_ms_range (d' - now)) as Hx. set (x := ceil_ms _) in *.
  unfold MaximumPumpDelay, nanoseconds_per_millisecond in *. lia.
Qed.

(** An update that asks for what stands gives no schedule, and any other one gives one,
    under a new identifier, for the delay that it asks for. *)
Lemma Update_keeps pending deadline now standing c :
  controller_keeps standing c → pu_nextRequestId c < 2 ^ 64 - 1 →
  let wish := pump_wish pending deadline in
  if bool_decide (wish = snd <$> standing)
  then PumpControllerImpl_Update pending deadline now c = (Ok None, c)
  else ∃ delay c',
    PumpControllerImpl_Update pending deadline now c
    = (Ok (Some {| ps_RequestId := pu_nextRequestId c; ps_Delay := delay |}), c')
    ∧ delay_for pending deadline now delay
    ∧ pu_nextRequestId c' = pu_nextRequestId c + 1
    ∧ controller_keeps ((fun w => (pu_nextRequestId c, w)) <$> wish) c'.
Proof.
  intros [Hn Hs] Hmax wish. unfold PumpControllerImpl_Update, ebind, eget, emod, eret. cbv zeta.
  set (same := (pending && _) || _). set (idle := negb pending && _ && _).
  assert (bool_decide (wish = snd <$> standing) = negb (pu_pendingRequestId c =? 0) && same || idle) as ->.
  { unfold same, idle, wish, pump_wish. destruct standing as [[id w]|].
    - destruct Hs as (-> & Hid & -> & Hw). rewrite (proj2 (Z.eqb_neq id 0)) by lia.
      destruct w as [t|]; [rewrite (Hw t eq_refl)|]; destruct pending, deadline as [d|]; cbn; try done.
      case_bool_decide as H1; case_bool_decide as H2; try done.
      + by simplify_eq.
      + injection H2 as H2. exfalso. apply H1. do 3 f_equal. unfold nanoseconds_per_millisecond in H2. lia.
    - rewrite Hs. by destruct pending, deadline. }
  destruct (negb _ && same); [done|]. cbn [orb]. destruct idle; [done|].
  rewrite (proj2 (Z.eqb_neq (pu_nextRequestId c) _)) by lia.
  do 2 eexists. split; [reflexivity|]. unfold wish, pump_wish.
  destruct pending; cbn; [|destruct deadline as [d|]; cbn]; repeat split; cbn; try done; try lia.
  - apply (clamp_delay now d).
  - by intros t [= <-].
Qed.

Section pumping.
  Context `{!NoiseCrypto} `{!JsonText} (lower : Z → Z) (unhex : bytes → option bytes) (hex_lower : bytes → bytes).

(** The client's controller and the relay's session over a sequence of calls of the
    controller, each with the time at which the session reads the schedule that it gives;
    [standing] is the request that was made last and has not completed.  An update that asks
    for what stands gives nothing.  Any other one gives a schedule for what it asks for, and
    the session takes it up: its deadline is the time of reading plus the schedule's delay,
    but not before five milliseconds after its last pump, and none when the schedule cancels. *)
Fixpoint pumped (ops : list (controller_op * Z)) (standing : option (Z * option Z)) (c : PumpControllerImpl)
    (s : ServerSessionImpl) : Prop :=
  match ops with
  | [] => True
  | (Ctl_Reset, _) :: ops => pumped ops None (PumpControllerImpl_Reset c) s
  | (Ctl_Complete requestId, _) :: ops =>
      pumped ops (standing_after requestId standing) (PumpControllerImpl_Complete requestId c) s
  | (Ctl_Update pending deadline now, later) :: ops =>
      if bool_decide (pump_wish pending deadline = snd <$> standing)
      then PumpControllerImpl_Update pending deadline now c = (Ok None, c) ∧ pumped ops standing c s
      else ∃ schedule c' frame result s',
        PumpControllerImpl_Update pending deadline now c = (Ok (Some schedule), c')
        ∧ delay_for pending deadline now (ps_Delay schedule)
        ∧ EncodePumpSchedule schedule = Ok frame
        ∧ ServerSessionImpl_Process lower unhex hex_lower later frame s = (Ok result, s')
        ∧ pr_PumpScheduleChanged result = true
        ∧ sv_pumpDeadline s'
          = (fun delay => let t := later + delay * 1000000 in
                          match sv_lastPump s with Some last => Z.max t (last + 5000000) | None => t end)
            <$> ps_Delay schedule
        ∧ pumped ops ((fun w => (ps_RequestId schedule, w)) <$> pump_wish pending deadline) c' s'
  end.

Lemma Process_schedule now schedule s :
  sv_state s = Server_Active → sv_pumpRequestId s < ps_RequestId schedule → PumpSchedule_wf schedule →
  ∃ frame result s',
    EncodePumpSchedule schedule = Ok frame
    ∧ ServerSessionImpl_Process lower unhex hex_lower now frame s = (Ok result, s')
    ∧ pr_PumpScheduleChanged result = true
    ∧ sv_pumpDeadline s'
      = (fun delay => let t := now + delay * 1000000 in
                      match sv_lastPump s with Some last => Z.max t (last + 5000000) | None => t end)
        <$> ps_Delay schedule
    ∧ sv_state s' = Server_Active ∧ sv_pumpRequestId s' = ps_RequestId schedule.
Proof.
  intros Hst Hid Hwf. destruct (codec_roundtrip (Codec := PumpSchedule_Codec) schedule Hwf) as (b & He & _ & Hd).
  unfold payload_bytes in He. destruct (EncodePumpSchedule schedule) as [frame|e|] eqn:Ee; [|done|done].
  injection He as <-. injection Hd as Hd. exists frame.
  assert (fr_type frame = MessageType_PumpSchedule) as Ht.
  { unfold EncodePumpSchedule in Ee. destruct (_ || _); [done|]. by injection Ee as <-. }
  unfold ServerSessionImpl_Process, RequireActive, RequireState, ebind, eget. rewrite bool_decide_true, Ht by done. cbn.
  rewrite Hd. unfold ServerSessionImpl_AcceptPump, ebind, eget, emod, eret. cbv zeta.
  rewrite (proj2 (Z.leb_gt _ _) Hid). do 2 eexists. split; [done|]. split; [reflexivity|]. split; [done|].
  split; [|done]. cbn. destruct (ps_Delay schedule) as [delay|]; cbn; [|done].
  unfold MinimumPumpInterval, nanoseconds_per_millisecond. destruct (sv_lastPump s) as [l|]; [|done].
  case_match eqn:Hlt; [apply Z.ltb_lt in Hlt|apply Z.ltb_ge in Hlt]; f_equal; lia.
Qed.

Lemma delay_for_wf pending deadline now delay :
  delay_for pending deadline now delay →
  match delay with Some d => 0 <= d <= MaximumPumpDelay | None => True end.
Proof.
  unfold delay_for, MaximumPumpDelay. destruct pending; [by intros ->|]. destruct deadline; [|by intros ->].
  intros (ms & -> & Hms & _). done.
Qed.

Lemma controller_pumped ops standing c s :
  controller_keeps standing c → pu_nextRequestId c + Z.of_nat (length ops) < 2 ^ 64 →
  sv_state s = Server_Active → sv_pumpRequestId s < pu_nextRequestId c → pumped ops standing c s.
Proof.
  revert standing c s. induction ops as [|[op later] ops IH]; intros standing c s Hc Hlen Hst Hid; cbn; [done|].
  rewrite length_cons in Hlen. destruct op as [pending deadline now|requestId|].
  - pose proof (Update_keeps pending deadline now standing c Hc ltac:(lia)) as Hu. cbv zeta in Hu.
    destruct (bool_decide _); [split; [done|]; apply IH; [done|lia|done..]|].
    destruct Hu as (delay & c' & Hu & Hdelay & Hnext & Hc'). set (schedule := {| ps_RequestId := _ |}) in *.
    destruct (Process_schedule later schedule s Hst Hid) as (frame & result & s' & He & Hp & Hch & Hd & Hst' & Hid').
    { pose proof (ck_next _ _ Hc). unfold PumpSchedule_wf, in_width. cbn [ps_RequestId ps_Delay schedule].
      split_and!; [lia..|]. by eapply delay_for_wf. }
    exists schedule, c', frame, result, s'. split_and!; try done. apply IH; [done|lia|done|].
    rewrite Hid', Hnext. cbn. lia.
  - destruct (Complete_keeps requestId standing c Hc) as [Hc' Hn]. by apply IH; rewrite ?Hn; [|lia| |].
  - apply IH; [|cbn; lia|done..]. destruct Hc. by split.
Qed.

(** C25: what the controller of a client asks for is what the session of the relay does.  Over
    any sequence of fewer than 2^64-1 updates, completions and resets of a new controller, and
    with an active session that has taken no schedule yet and reads each schedule at any time:
    an update that asks for what already stands, in whole milliseconds, sends nothing, and any
    other one gives a schedule whose delay is zero for pending output, none for no deadline, and
    otherwise, up to a minute, ends at the deadline or less than two milliseconds after it.  The
    schedule can be encoded, the session takes it and never drops it as stale, and the session's
    deadline is then exactly the time of reading plus that delay, but not before five milliseconds
    after its last pump, and is cleared by a cancellation. *)
Theorem Pump_schedules_taken ops s :
  sv_state s = Server_Active → sv_pumpRequestId s = 0 → Z.of_nat (length ops) < 2 ^ 64 - 1 →
  pumped ops None PumpControllerImpl_new s.
Proof. intros Hst Hid Hlen. apply controller_pumped; cbn; [done|lia|done|lia]. Qed.

End pumping.

(** ** Both sides of the upgrade *)

(** A text without the first byte of what is looked for is passed over. *)
Lemma search_skip x d text rest p :
  x ∉ text → search (text ++ rest) (x :: d) p = search rest (x :: d) (p + zlen text).
Proof.
  revert p. induction text as [|y text IH]; intros p Hx; [cbn [app]; f_equal; zlia|].
  apply not_elem_of_cons in Hx as [Hy Hx]. cbn [app search starts_with]. rewrite (proj2 (Z.eqb_neq x y) Hy). cbn [andb].
  rewrite (IH _ Hx). f_equal. zlia.
Qed.

Section upgraded.
  Context {S : Type} `{!ByteStream S} `{!ByteStreamLaws S} `{!Delivers S}.

Lemma WriteAll_sent data s :
  ∃ s', ByteStream_WriteAll data s = (Ok tt, s') ∧ st_coming s' = st_coming s ∧ st_sent s' = st_sent s ++ data.
Proof.
  unfold ByteStream_WriteAll. pose proof (zlen_nonneg data).
  destruct (WriteAll_delivers (Datatypes.S (length data)) data 0 s) as (s' & Hw & Hc); [lia|unfold zlen; lia|].
  exists s'. split_and!; [done|done|].
  pose proof (WriteAll_loop_spec (Datatypes.S (length data)) data 0 s) as Hs. unfold wp in Hs.
  rewrite Hw in Hs. by apply Hs; [lia|unfold zlen; lia|].
Qed.

Lemma ReadSome_sent n s : st_sent (ByteStream_ReadSome n s).2 = st_sent s.
Proof.
  unfold ByteStream_ReadSome, ebind. pose proof (st_read_law n s) as Hr. unfold wp in Hr.
  destruct (st_TryReadSome n s) as [[[b|]|e|] s']; cbn in *; apply Hr.
Qed.

Lemma http_headers_delivers headers rest fuel input s :
  FindHeaderEnd headers = Some (zlen headers) → zlen headers <= Relay_MaximumHttpHeaderSize →
  input ++ st_coming s = headers ++ rest →
  zlen input < zlen headers → zlen headers - zlen input < Z.of_nat fuel →
  ∃ trailing s', http_headers_loop fuel input s = (Ok (headers, trailing), s')
    ∧ rest = trailing ++ st_coming s' ∧ st_sent s' = st_sent s.
Proof.
  intros Hh Hmax. revert input s. induction fuel as [|fuel IH]; intros input s Heq Hlt Hf; [lia|].
  cbn [http_headers_loop]. assert (st_coming s ≠ []) as Hc.
  { intros E. rewrite E, app_nil_r in Heq. rewrite Heq, zlen_app in Hlt. pose proof (zlen_nonneg rest). lia. }
  destruct (ReadSome_delivers 1024 s) as (b & s1 & Hr & Hb & _ & Hs); [done|done|].
  pose proof (ReadSome_sent 1024 s) as Hsent. rewrite Hr in Hsent. cbn [snd] in Hsent.
  unfold ebind at 1. rewrite Hr, bool_decide_false by done. cbv zeta.
  rewrite Hs, app_assoc in Heq. pose proof (FindHeaderEnd_prefix _ _ _ _ Hh Heq) as Hfind. unfold FindHeaderEnd in Hfind.
  assert (0 < zlen b) as Hbl by (destruct b; [done|zlia]). rewrite zlen_app in Hfind.
  destruct (Z.leb_spec (zlen headers) (zlen input + zlen b)) as [Hle|Hgt].
  - destruct (search (input ++ b) _ 0) as [q|]; [|done]. injection Hfind as Hq.
    destruct (app_split _ _ _ _ Heq) as (body & Hbody & Hrest); [by rewrite zlen_app|].
    rewrite Hq, Hbody. unfold ebind, elift. rewrite slice_prefix, slice_app_drop by zlia.
    by exists body, s1.
  - destruct (search (input ++ b) _ 0) as [q|]; [done|].
    rewrite (proj2 (Z.ltb_ge _ _)) by zlia. rewrite <- Hsent. apply IH; [done|zlia|zlia].
Qed.

Lemma ReadHttpHeaders_delivers headers rest s :
  FindHeaderEnd headers = Some (zlen headers) → 0 < zlen headers <= Relay_MaximumHttpHeaderSize →
  st_coming s = headers ++ rest →
  ∃ trailing s', ReadHttpHeaders s = (Ok (headers, trailing), s')
    ∧ rest = trailing ++ st_coming s' ∧ st_sent s' = st_sent s.
Proof.
  intros Hh Hl Hc. apply http_headers_delivers; [done|lia|done|rewrite zlen_nil; lia|].
  rewrite zlen_nil. unfold Relay_MaximumHttpHeaderSize in *. lia.
Qed.

Definition plain_host (host : bytes) : Prop := host ≠ [] ∧ (13 ∉ host) ∧ zlen host <= 16000.

(** The bytes of the literals. *)
Ltac lits :=
  unfold upgrade_request, upgrade_line, upgrade_answer, crlf in *;
  repeat match goal with |- context [lit ?t] => let v := eval vm_compute in (lit t) in change (lit t) with v end.

Lemma upgrade_request_headers host :
  (13 ∉ host) → FindHeaderEnd (upgrade_request host) = Some (zlen (upgrade_request host)).
Proof.
  intros Hh. unfold FindHeaderEnd. lits. cbn [app search starts_with Z.eqb Pos.eqb andb].
  rewrite search_skip by done. cbn [search starts_with Z.eqb Pos.eqb andb]. cbn [fmap option_fmap option_map].
  f_equal. zlia.
Qed.

Lemma upgrade_request_valid host :
  (13 ∉ host) →
  starts_with upgrade_line (upgrade_request host) = true
  ∧ search (upgrade_request host) (crlf ++ lit "Upgrade: tailgate" ++ crlf) 0 ≠ None.
Proof.
  intros Hh. split; lits; [done|]. cbn [app search starts_with Z.eqb Pos.eqb andb].
  rewrite search_skip by done. done.
Qed.

(** The two ends of the HTTP upgrade understand each other.  The request that the client
    writes is accepted by the relay, whatever the pieces in which it arrives, and the answer that
    the relay writes is taken by the client, which returns exactly what arrived behind its headers
    and was already read, so that no byte of the first frame is lost. *)
Theorem HttpUpgrade_agrees host (client relay : S) extra :
  plain_host host →
  (st_coming relay = upgrade_request host →
   ∃ relay', AcceptHttpUpgrade relay = (Ok tt, relay') ∧ st_sent relay' = st_sent relay ++ upgrade_answer)
  ∧ (st_coming client = upgrade_answer ++ extra →
     ∃ trailing client', RequestHttpUpgrade host client = (Ok trailing, client')
       ∧ st_sent client' = st_sent client ++ upgrade_request host ∧ extra = trailing ++ st_coming client').
Proof.
  intros (Hne & Hcr & Hlen). split; intros Hcoming.
  - destruct (ReadHttpHeaders_delivers (upgrade_request host) [] relay) as (t & s1 & Hr & _ & Hs1).
    + by apply upgrade_request_headers.
    + unfold Relay_MaximumHttpHeaderSize. lits. zlia.
    + by rewrite app_nil_r.
    + destruct (upgrade_request_valid host Hcr) as [Hv Hu]. unfold AcceptHttpUpgrade, ebind at 1. rewrite Hr.
      rewrite Hv, (bool_decide_true (search _ (crlf ++ lit "Upgrade: tailgate" ++ crlf) 0 ≠ None)) by done. cbn [negb orb].
      destruct (WriteAll_sent upgrade_answer s1) as (s2 & Hw & _ & Hs2). exists s2. rewrite Hw. split; [done|].
      by rewrite Hs2, Hs1.
  - unfold RequestHttpUpgrade. rewrite bool_decide_false by done.
    destruct (WriteAll_sent (upgrade_request host) client) as (s1 & Hw & Hc1 & Hs1). unfold ebind at 1. rewrite Hw.
    destruct (ReadHttpHeaders_delivers upgrade_answer extra s1) as (t & s2 & Hr & He & Hs2);
      [reflexivity|done|by rewrite Hc1|].
    unfold ebind at 1. rewrite Hr. cbn [negb]. exists t, s2. split; [reflexivity|]. by rewrite Hs2.
Qed.

End upgraded.

(** ** Witnesses *)

Definition demo_relay_options : ServerSessionOptions := {|
  so_ExpectedTailnet := lit "t.net"; so_RelayHostName := lit "relay"; so_RelayHostAddress := lit "100.64.0.9";
  so_RelayPrivateKey := replicate 32 4; so_RelayPublicKey := replicate 32 4 |}.

Definition demo_identity : ConnectionIdentity := {|
  cn_Domain := lit "t.net"; cn_SelfNodeId := 7; cn_Hostname := lit "n"; cn_OperatingSystem := lit "linux";
  cn_OperatingSystemVersion := []; cn_NodePrivateKey := replicate 32 9; cn_NodePublicKey := replicate 32 9 |}.

Lemma bytes32_replicate x : 0 <= x < 256 → bytes32 (replicate 32 x).
Proof. intros Hx. split; [by rewrite zlen_replicate|]. by apply Forall_replicate. Qed.

Lemma demo_honest : honest_relay demo_relay_options ∧ honest_client demo_identity.
Proof. by split; split; try (by apply bytes32_replicate; lia); repeat constructor. Qed.

Lemma Authentication_mutual_witness :
  ∃ challengeFrame s1 challenge a authFrame s2,
    ServerSessionImpl_StartAuthentication relay_hex (replicate 32 1) (ServerSessionImpl_new demo_relay_options) = (Ok challengeFrame, s1)
    ∧ Connection_Authenticate relay_unhex relay_hex demo_identity (replicate 32 2) challengeFrame = Ok (challenge, a, authFrame)
    ∧ ServerSessionImpl_EvaluateAuthentication relay_unhex authFrame s1
      = (Ok {| ar_Identity := a; ar_ProofValid := true; ar_TailnetMatches := true |}, s2)
    ∧ ∃ response s3, ServerSessionImpl_CompleteAuthentication relay_hex true s2 = (Ok response, s3)
    ∧ sv_state s3 = Server_Authenticated ∧
        ∃ session, Connection_Accept relay_unhex demo_identity challenge a response = Ok session
          ∧ hs_RelayHostName session = lit "relay" ∧ hs_RelayHostAddress session = lit "100.64.0.9".
Proof.
  apply (Authentication_mutual relay_unhex relay_hex relay_hex_laws demo_relay_options demo_identity (replicate 32 1) (replicate 32 2) true);
    [apply demo_honest|apply demo_honest|apply bytes32_replicate; lia|apply bytes32_replicate; lia].
Defined.

Definition demo_challenge : Frame :=
  match (ServerSessionImpl_StartAuthentication relay_hex (replicate 32 1) (ServerSessionImpl_new demo_relay_options)).1 with
  | Ok f => f
  | _ => {| fr_type := 0; fr_payload := [] |}
  end.

Definition demo_client_frame : Frame :=
  match Connection_Authenticate relay_unhex relay_hex demo_identity (replicate 32 2) demo_challenge with
  | Ok (_, _, f) => f
  | _ => demo_challenge
  end.

Definition demo_map_frame : Frame := {|
  fr_type := MessageType_NetworkMap;
  fr_payload := match ProtocolCodec_EncodeNetworkConfig demo_relay_map with Ok b => b | _ => [] end |}.

Definition demo_schedule (id delay : Z) : Frame :=
  {| fr_type := MessageType_PumpSchedule; fr_payload := be_encode 8 id ++ be_encode 4 delay |}.

(** An authentication, a map, two pumps and a schedule in the past. *)
Definition demo_ops : list server_op := [
  Op_StartAuthentication (replicate 32 1); Op_EvaluateAuthentication demo_client_frame;
  Op_CompleteAuthentication true;
  Op_AcceptInitialNetworkMap demo_map_frame;
  Op_ProcessFrame 0 (demo_schedule 1 0); Op_TakeDuePump 10 20;
  Op_ProcessFrame 30 (demo_schedule 2 0); Op_TakeDuePump 40 40; Op_TakeDuePump 5000020 5000020;
  Op_ProcessFrame 5000030 (demo_schedule 2 0)].

Definition demo_server_session : ServerSessionImpl :=
  (server_run (fun z => z) relay_unhex relay_hex demo_ops (ServerSessionImpl_new demo_relay_options)).2.

(** A check for [client_frame_ok]. *)
Definition frame_check (f : Frame) : bool :=
  forallb (fun c => (0 <=? c) && (c <? 256)) (fr_payload f)
  && match json_parse (fr_payload f) with Ok v => no_floats v | _ => true end.

Lemma frame_check_ok f : frame_check f = true → client_frame_ok f.
Proof.
  unfold frame_check. intros [Hb Hv]%andb_true_iff. split.
  - apply Is_true_true, forallb_True in Hb. eapply Forall_impl; [exact Hb|]. intros c Hc%Is_true_true.
    apply andb_true_iff in Hc as [?%Z.leb_le ?%Z.ltb_lt]. done.
  - intros _ v Hp. rewrite Hp in Hv. by eapply no_floats_whole, Hv; eapply jt_parsed.
Qed.

Lemma ops_check_ok ops :
  forallb (fun op => match op_frame op with Some f => frame_check f | None => true end) ops = true →
  Forall (fun op => ∀ f, op_frame op = Some f → client_frame_ok f) ops.
Proof.
  intros Hc%Is_true_true%forallb_True. eapply Forall_impl; [exact Hc|]. cbn beta. intros op Hop%Is_true_true f Hf.
  rewrite Hf in Hop. by apply frame_check_ok.
Qed.

Lemma demo_ops_ok : Forall (fun op => ∀ f, op_frame op = Some f → client_frame_ok f) demo_ops.
Proof. apply ops_check_ok. vm_compute. reflexivity. Qed.

Lemma demo_ops_bytes : Forall (fun op => ∀ f, op_frame op = Some f → bytes_ok (fr_payload f)) demo_ops.
Proof. eapply Forall_impl; [apply demo_ops_ok|]. intros op Hop f Hf. by apply Hop. Qed.

Lemma ServerSession_serves_proved_witness :
  sv_state demo_server_session = Server_Active ∧ Op_CompleteAuthentication true ∈ demo_ops ∧
  ∃ a m, sv_authentication demo_server_session = Some a ∧ proved demo_server_session a
    ∧ sv_networkMap demo_server_session = Some m ∧ fits_identity relay_hex a m.
Proof.
  pose proof (ServerSession_serves_proved (fun z => z) relay_unhex relay_hex demo_relay_options demo_ops demo_ops_ok) as H.
  split; [by vm_compute|]. unfold demo_server_session. destruct (server_run _ _ _ demo_ops _) as [rs s] eqn:E.
  destruct H as (_ & H & _). apply H. change s with (rs, s).2. rewrite <- E. by vm_compute.
Defined.

Lemma ServerSession_pump_spaced_witness :
  pump_takes (fun z => z) relay_unhex relay_hex demo_ops (ServerSessionImpl_new demo_relay_options)
  = [(10, 20); (5000020, 5000020)]
  ∧ spaced None (pump_takes (fun z => z) relay_unhex relay_hex demo_ops (ServerSessionImpl_new demo_relay_options)).
Proof.
  split; [by vm_compute|].
  apply (ServerSession_pump_spaced (fun z => z) relay_unhex relay_hex demo_relay_options demo_ops demo_ops_bytes).
Defined.

Lemma Pump_schedules_taken_witness :
  let ops := [(Ctl_Update true None 0, 5); (Ctl_Update true None 0, 5); (Ctl_Complete 1, 5);
              (Ctl_Update false (Some 3000001) 1, 6); (Ctl_Update false None 2, 7)] in
  let s := sv_set_state Server_Active (ServerSessionImpl_new demo_relay_options) in
  pumped (fun z => z) relay_unhex relay_hex ops None PumpControllerImpl_new s.
Proof. intros ops s. apply Pump_schedules_taken; reflexivity. Defined.

Lemma HttpUpgrade_agrees_witness :
  (∃ relay', AcceptHttpUpgrade (demo_wire 6 (upgrade_request (lit "relay"))) = (Ok tt, relay')
     ∧ st_sent relay' = st_sent (demo_wire 6 (upgrade_request (lit "relay"))) ++ upgrade_answer)
  ∧ ∃ trailing client',
      RequestHttpUpgrade (lit "relay") (demo_wire 6 (upgrade_answer ++ [1; 2])) = (Ok trailing, client')
      ∧ st_sent client' = st_sent (demo_wire 6 (upgrade_answer ++ [1; 2])) ++ upgrade_request (lit "relay")
      ∧ [1; 2] = trailing ++ st_coming client'.
Proof.
  assert (plain_host (lit "relay")) as Hh.
  { split_and!; [done| |vm_compute; done]. apply (bool_decide_unpack (13 ∉ lit "relay")). by vm_compute. }
  split.
  - apply (proj1 (HttpUpgrade_agrees (lit "relay") (demo_wire 6 []) (demo_wire 6 (upgrade_request (lit "relay"))) [] Hh)).
    by vm_compute.
  - apply (proj2 (HttpUpgrade_agrees (lit "relay") (demo_wire 6 (upgrade_answer ++ [1; 2])) (demo_wire 6 []) [1; 2] Hh)).
    by vm_compute.
Defined.

Definition demo_float : json :=
  json_object [(lit "Tailnet", JString (lit "t.net")); (lit "NodeId", JFloat (10 ^ 30))].

Lemma Authentication_number_undefined_witness :
  (ServerSessionImpl_EvaluateAuthentication relay_unhex
     {| fr_type := MessageType_Authenticate; fr_payload := print_json demo_float |}
     (sv_set_state Server_ChallengeSent (ServerSessionImpl_new demo_relay_options))).1 = UB.
Proof.
  apply (Authentication_number_undefined relay_unhex _ demo_float (lit "t.net") (10 ^ 30));
    [reflexivity|reflexivity|discriminate| |reflexivity|reflexivity|lia].
  apply (demo_parse_print (fun _ => True) (fun _ => True)). apply json_object_ok. by repeat constructor.
Defined.
